(* ===== verification/_CoqProject ===== *)
-Q . S2P
Prelude.v
RustStr.v
ShellPaths.v
GlobSearch.v
PathFacts.v
ShellPrograms.v
ShellCollect.v
CollectFacts.v
ShellPolicy.v
PolicyFacts.v
ShellExamples.v
Wire.v
OpLog.v
OpLogFacts.v
CapHost.v
CapHostFacts.v
HostTheorems.v
RefSandbox.v
SandboxExamples.v
Egress.v
Retry.v
HostGrants.v
HostBroker.v
HostControl.v
HostBrokerFacts.v
HostBrokerTheorems.v
HostReceipts.v
HostStateFile.v
HostLifetimes.v
HostExamples.v
TurnTables.v
TurnLeases.v
TurnResolve.v
TurnCancel.v
TurnParks.v
TurnSteers.v
TurnPlacements.v
TurnAdmission.v
TurnSpec.v
TurnRefine.v
TurnSettles.v
TurnProgress.v
TurnMachine.v
TurnAnswers.v
TurnOutcomes.v
TurnQueue.v
TurnQueueSteps.v
TurnHistories.v
TurnExamples.v
Json.v
RouterSse.v
RouterSseFacts.v
ErrorKinds.v
RouterErrors.v
HarnessLines.v
HarnessCutFacts.v
StreamExamples.v
ContextFit.v
ContextKeeps.v
ContextTheorems.v
Transcript.v
TranscriptFacts.v
Checkpoint.v
RequestPrefix.v
RequestTheorems.v
ContextExamples.v
ToolPreview.v
Approvals.v
ToolGate.v
ApprovalTheorems.v
ApprovalStore.v
ApprovalBroker.v
ApprovalLedger.v
ApprovalHistory.v
ApprovalExamples.v
AgentStream.v
AgentLoop.v
AgentDrive.v
AgentTheorems.v
AgentAnswers.v
