(* ===== verification/Prelude.v ===== *)
(** * Tidebreak: its decision and protocol cores

    Tidebreak runs agents against a user's folders, remote sandboxes and model
    providers.  This library models the parts that decide what may run and that
    keep work exactly-once across crashes, as executable definitions translated
    from the Rust sources under [src/crates], and proves what they promise.

    ** Parts, and how they interact

    - Shell policy ([tidebreak-shell-policy/src/lib.rs]).  A command line is
      parsed by the vendored [brush-parser], collected into leaf commands and
      redirection targets, and judged: a deny floor, an escalation tier, then a
      conjunction over allow rules.  The same judge answers for argument vectors
      and proposes the grants a user may give.
      [ShellPaths] the tables, path normalisation, sensitive
      markers, glob reasoning, operand roles; [ShellPrograms] the program
      classifiers; [ShellCollect] the collector, in the state-and-error monad of
      this file; [ShellPolicy] the verdict and the grant rungs.  [GlobSearch],
      [PathFacts], [CollectFacts] and [PolicyFacts] hold the proofs,
      [ShellExamples] concrete lines with a small parser.
    - Sandbox protocol ([tidebreak-sandbox-protocol]).  [Wire]: identities,
      bounds, the attach handshake, grants, events, the compiled network policy,
      the transport secret.  [OpLog]: the operation-log seam as the type class
      [OperationStore] with simulation laws over an abstract log, its in-memory
      instance ([Module InMemory], oplog.rs), the database table
      ([Module Table], tidebreak-core db/ops/operation_log.rs) and the durable
      store over it ([Module Durable], tidebreak-sandbox-runtime
      durable_oplog.rs).  [OpLogFacts] proves the durable store an instance.
      [CapHost]: the capability host (host.rs) over any store, as a step
      relation whose steps are the source's critical sections; [CapHostFacts] its
      invariant, [HostTheorems] its theorems, proved against the class.
      [RefSandbox]: the event stream, artifacts and backend of reference.rs.
      [SandboxExamples]: scripted runs.
    - Egress ([tidebreak-egress]).  [Egress]: hosts, patterns,
      address blocks, destinations and policies, with the standard library's
      address parser written out.
    - Worker runtime ([tidebreak-worker-runtime]).  [Retry]: the
      backoff, its jitter on 64-bit words, the retry envelope and the pacing of
      a worker lane.
    - Host broker ([tidebreak-host-broker]).  The authority registry between the
      desktop and the agents: which folders are connected, attached where, and
      who may read, write or execute in them.  [HostGrants] (id.rs,
      relative_path.rs, blocklist.rs, capability.rs): subjects, contained paths,
      protected apps, grants and scopes.  [HostBroker] and [HostControl]
      (broker.rs): the state, authorization, receipts, every control operation
      and [write_file], one definition per critical section, with the result of
      saving, the host's answers, drawn identities and the clock as inputs; the
      step relation [bstep] labels each with what it does to consent.
      [HostStateFile] (broker/state_file.rs): what a save writes and what the
      next start makes of it.  [HostBrokerFacts] (what edits a
      step can make to authority and to receipts), [HostReceipts] and
      [HostStateFile] carry the proofs; [HostBrokerTheorems] and
      [HostLifetimes] (runs separated by restarts) the theorems; [HostExamples]
      a concrete broker.
    - Turns ([tidebreak-core], db/ops/turn.rs and db/ops/turn).  The durable
      state machine of a user turn: accepted into a chat, claimed by workers
      under leases, parked for a client call, steered, retried, cancelled, ended
      with one terminal row in the chat's journal.  [TurnTables]: the rows, the
      constraints the schema puts on them, transactions that roll back, and the
      statements the operations are built from.  [TurnLeases]: the claim scan,
      direct leases, heartbeats, the fence.  [TurnResolve] (resolution.rs):
      completion and failure.  [TurnCancel] (resolution/cancellation.rs): the
      request and the worker's acknowledgement.  [TurnParks] (client_wait.rs and
      the event batch of conversation.rs), [TurnSteers] (steer.rs),
      [TurnAdmission] (admission.rs and acceptance), [TurnPlacements]
      (model/turns.rs: which turns a rerun takes out of the conversation).
      [TurnSpec] is an abstract machine over the turn, receipt and steer tables
      and the terminal rows; [TurnRefine], [TurnSettles], [TurnProgress] and
      [TurnMachine] prove each operation a step of it, the last also every
      history a run, with what follows for all histories;
      [TurnAnswers], [TurnOutcomes] and [TurnAdmission] what
      single operations do; [TurnExamples] the life of a turn on concrete tables.
    - The queue of a chat ([tidebreak-core], db/ops/turn/queued.rs).  Messages sent
      while a turn runs wait in a list and become turns one by one.  [TurnQueue]:
      the rows and every operation on them, over the turn tables.
      It also shows that no turn operation writes them and that the rows of a
      chat are a list.  [TurnQueueSteps]: an abstract first-in first-out
      machine and each operation a move of it; [TurnHistories]: promotion, which
      is also a step of the turn machine, the exact retry of an enqueue, and
      histories of turn and queue operations together; [TurnExamples] has two
      queued messages too.
    - Provider streams and errors ([tidebreak-router], sse.rs; [tidebreak-core],
      error.rs and turn_failure.rs).  [Json]: what the standard library makes of
      bytes, JSON values and the operations asked of serde_json.
      [RouterSse]: the framer of a provider's event stream, chunks in and frames
      out under a ceiling; [RouterSseFacts] compares it with splitting the whole
      stream at once.  [ErrorKinds]: the error type, its stream-carried form and
      the failure categories.  [RouterErrors]: the text a client may see of a
      provider's error, its redaction, the classification of HTTP errors, what
      the redaction leaves, and the turn worker's decision
      (engine/internal/leg.rs), which joins the classification to the retry
      schedule of [Retry] and the turn's [TurnFailureRetry].  [StreamExamples]: witnesses.
    - Engine output ([tidebreak-harness]).  [HarnessLines] (budget.rs): chunks of
      a coding engine's output in, capped lines out, and (oversized.rs) what is
      recovered of a line the cap cut;
      [HarnessCutFacts] has a grammar of JSON documents and the proof for every
      prefix of every spelling; [StreamExamples] has one line cut inside a string.
    - Requests of the agent loop ([tidebreak-core]).  [ContextFit] (context.rs over
      the messages of provider.rs): token estimates, the image windows and the
      reduction of a transcript to a budget, with what
      repair keeps and costs; [ContextKeeps]: what each stage spends, what
      survives, and the two boundaries; [ContextTheorems] joins them
      and [ContextExamples] has concrete transcripts.
    - Rebuilding and compaction ([tidebreak-core]).  [Transcript]
      (agent/transcript.rs, the rows of model/messages.rs): tool calls cut into
      steps and put back beside their messages, bounded results, preview images,
      and the boundary of each row.  [TranscriptFacts]: how a rebuilt transcript
      is laid out in steps and rows.  [Checkpoint]
      (semantic_checkpoint.rs, compaction.rs, db/ops/context_checkpoint.rs): the
      payload with its checks, the transaction that saves one, the policy over
      IEEE doubles and the choice of a boundary.  [RequestPrefix]
      (agent/context.rs): from the rows of a chat through reruns, notes and dates
      to the fitted, hydrated request, and the call that asks for a checkpoint.
      [RequestTheorems] joins them with the reduction of [ContextFit] and the
      placements of reruns.  The blob store, the provider's stream, the payload's
      serde_json (class [PayloadJson]), dates and the tool registry are arguments.
    - The agent loop ([tidebreak-core], agent/turn.rs, dispatch.rs, registry.rs,
      events.rs).  A turn asks the model, reads its stream, runs or hands out the
      calls in it, and asks again.  [AgentStream]: the registry of tools, the
      events, and what one stream leaves behind ([read_event], one event at a
      time).  [AgentLoop]: a turn as a computation that asks the world one [Ask]
      at a time (store, provider, gate, clock, cancellation, the steers people
      push) and keeps the [history] of questions and answers; the world is any
      function from that history, so every interleaving with the people and
      workers around a turn is one of its worlds.  The helpers of dispatch.rs,
      the mailbox of steer.rs and the guard against repeats.  [AgentDrive]: the
      loop, [drive] and [run_step], one definition per stage of the source's
      body, and the two entry points.  It calls [RequestPrefix] for requests and
      compaction and [Transcript] for what it sends; [AskRun] and [AskGateSpawn]
      are the seam to the gate of [ToolGate], a parked turn's outcome the one to
      the turn operations.  [AgentTheorems]: rules for these computations over
      their histories, and the theorems on what a turn does; [AgentAnswers]: what
      it adds to the transcript, and a concrete turn.
    - Consent ([tidebreak-core], approval.rs, preview.rs, agent/dispatch.rs,
      permission.rs, db/ops/approval.rs and db/ops/code/approval.rs;
      [tidebreak-server], approvals.rs).  [ToolPreview]: what a
      person is shown of a call, the clamp, and when nothing was lost.
      [Approvals]: kinds, scopes, what a scope covers, the ladder a card offers,
      grants and the judge, with their lemmas; commands go to [analyze_argv] of
      [ShellPolicy].
      [ToolGate]: permission modes, the gate every tool call passes and the one
      of delegated agents, with the registry's answers and the reads of the
      cancellation token as fields of the turn.  [ApprovalTheorems] has the
      theorems of these.  [ApprovalStore]: the rows, their tokens and columns, and
      the events they journal, and each operation of db/ops/approval.rs
      as one transaction over the tables; [ApprovalBroker] the workers'
      operations (db/ops/code/approval.rs), the reads, the server's broker,
      which answers the gate of [ToolGate], and what other files do to the rows:
      the cards of questions and plans and their answers (user_question.rs,
      plan.rs), the decisions of managed sessions, the recovery of interrupted
      ones, and the deletion of chats and projects.  [ApprovalLedger] writes every
      operation as a sequence of edits and says which edits it may make;
      [ApprovalHistory] has the theorems over histories of operations, steps of
      the components beside them included; [ApprovalExamples] cards, grants, a
      turn, and one chat's card from request to decision.
    [RustStr] has the Rust string functions these parts use, on byte strings.

    ** What the theorems show

    - Shell policy: an allowed line is vetted through every nested command and
      substitution; the verdict's exact meaning in both directions; rules that
      are broad never cover programs that can run anything; granting more never
      makes a verdict stricter; failed gates ask under every rule set; offered
      grants suffice and the exact one is offered whenever any would; the glob
      search and the folder-escape test agree with reference definitions; the
      collector's recursion is bounded.
    - Operation log and host: an identity is fresh at most once across process
      lifetimes and database faults; the durable store implements the abstract
      log; a host executes an identity at most once; a claimed cancellation is
      what waiters see; a closed host starts nothing and drains; with no store
      fault an outcome is recorded before it is published and a claimed identity
      always has its live execution.
    - Event stream: exactly once, in order, through crashes and reconnections;
      overflow is backpressure.  Handshake, tokens, manifest and backend life
      cycle have their functional specifications.
    - Egress: names cannot smuggle addresses, blocks mean their prefix, policies
      deny by default.  Worker runtime: exact capped doubling, retries inside the
      envelope, lane pacing for every sequence of outcomes.
    - Host broker: reading and executing need an attachment and a standing grant
      over the path; a settled position only narrows without fresh consent;
      revoking forgets a root and purging takes exactly one conversation's
      access; protected apps are never authorized; a contained path has one
      meaning.  Across restarts, receipts are bounded without losing one, control
      answers are permanent, a write happens at most once, and a folder that is
      away for one start loses nothing.  One theorem states a defect: the file
      saved after deleting the conversation that connected a folder is refused by
      the next load.
    - Turns: every history of operations refines the abstract machine, as long
      as no direct lease is taken on a turn that does not wait for one; a lease a
      later claim superseded stays stale; an ended turn never changes and has one
      terminal row that matches it; a requested cancellation is never lost;
      no instruction stays pending
      on an ended turn; every stored row is well typed.  Two examples show what a
      direct lease on the wrong turn does.  The claim scan takes the
      turn that has waited longest, answers in one pass, and answers a retry the
      same; a busy chat accepts nothing; completing needs the lease, the latest
      steer and settled children; a rerun's placement agrees with the chain of
      reruns; the admission fingerprint has no aliases.
    - Queues: every history of turn and queue operations is a run of the list
      machine beside the turn machine; no queued message is lost, none becomes two
      turns, promotion keeps the order, takes only the head the caller read and
      only in an idle chat, and queueing the same message again changes nothing.
    - Provider streams and errors: the frames and what is held depend on the
      stream alone, not on its chunks, and are bounded; one theorem states the
      exception, a frame one byte below the ceiling that a chunk boundary makes
      too large.  The text shown of a provider's error is short, one line, and
      without a credential's markers, across the cut too; a failed turn is tried
      again exactly when waiting can help and its schedule has room, no sooner
      than the provider asked; a failure keeps its kind through a stream.
    - Engine output: the lines do not depend on the chunks, an oversized line
      delays no other, a cut splits no character, and any non-empty prefix of a
      spelled object is recovered to what arrived of it.
    - Requests: a reduced or repaired transcript alternates its roles, opens with
      a user message and answers every call it keeps; text fits its budget, all
      but one message kept at any cost; opaque provider state is kept whole with
      its own response; at most the capped number of images keep their pixels.
      One theorem states a defect: a result with a preview can open a request
      whose call is gone.
    - Conversations: a rebuild lays out every row and every step of calls once,
      in order, and cuts between them; a request made
      from the rows of a chat, whatever the reduction, answers each call it holds,
      and its images have their bytes within both bounds.  A compaction cuts
      between steps, before the protected rows and past the last boundary, asks
      at most once with the step's own request, and its checkpoint only moves a
      chat forward; founding asks are carried unchanged.  One theorem states a
      defect: asks longer than a checkpoint stop every compaction of the chat.
    - Agent loop, for every world: a tool runs only for a call of the model's last
      complete answer, or in the recovery of an unclaimed turn, and one that may
      is registered as sensitive only with no other row open; a turn that parks
      leaves no row it opened open and parks on a call the model made, or,
      asked nothing yet, on children carried over a park; a step that goes on
      leaves every call answered, in order; the model is asked at most four times
      for each step of the budget, compactions counted apart and bounded too; the events of a claimed turn are numbered
      without a repeat; a repeated call is refused exactly from the fourth on; a
      steer pushed while an answer completes settles in two rounds; what the
      reader announces of the calls, live or late, is every one of them once.
    - Consent: no tool runs without leave of the mode, a grant that covers the
      call or a yes to that very call, and a plan turn only reads, calls with a
      recovered decision apart; a delegated
      child needs a consent of its own; an answer to one action covers that
      action, one about a folder stays in it, and every scope a card's row lists
      ends the asking.  Two theorems state defects: a grant of the whole tool passes
      calls its card cannot show, and the exact rung of a narrated call is
      refused.
    - Approval rows: over every history of requests, decisions, answers, plans,
      claims, verdicts, sweeps, revocations, recoveries of workers and deletions
      of chats and projects, a settled card keeps its row until its chat is
      deleted, a card is approved
      only by a person on that chat's card, the judge that owns it, the holder of
      its claim or a stored grant that covers the call, each grant was made by an
      approved card whose call it covers and that stands until its chat is
      deleted, and the judge has only calls it may decide; a decision made again is found and any other is a
      conflict; no card outlives its turn.
    ** Bounds and fuel

    Few definitions carry fuel.  [recurse_into_command_substitution] has
    [S MAX_DEPTH]: its depth guard refuses at [MAX_DEPTH], so each level uses one
    unit and the last is never needed ([collection_is_bounded]).  [read_groups]
    of [Egress] reads at most eight groups and is given that many.  The loops of
    [TurnPlacements] take the source's own bound, one more step than there are
    links, which a chain without cycles cannot use up.  The loops of [RouterSse],
    [HarnessLines] and [Json] consume a byte in each turn and get the length of
    their input; the reader of [HarnessLines] takes two units for each byte, and
    more changes nothing ([the_reader_ends]).  Of [AgentDrive]: the source counts
    [run_steps] itself; [step_attempt] has a unit for each reduction level, and a
    level is left only upwards; [finish_rounds] has two, which is enough in every
    world ([a_late_steer_settles_in_two_rounds]).  Machine
    integers appear where width matters: [u64] mixing in [Retry], checked and
    saturating durations, 32- and 128-bit masks in [Egress], [u16] ports, the
    [i32], [u32] and [i64] counters of a turn.

    ** What is a parameter

    Code outside the repository's own sources is a type class: [BrushParser] and
    [BrushOpaque] (the vendored parser), [RegexEngine] (fancy-regex),
    [UnicodeLower] ([str::to_lowercase] beyond ASCII), [JsonCodec] (serde_json),
    [SerdeJson] and [SerdeJsonText] (serde_json again, on values), [Rfc2822] (chrono),
    [ArtifactCodec] (sha2, base64), [ApprovalColumns] and [JsonColumn] (serde_json on
    three columns), [UuidText], [Chrono], [MulF64], [HostPaths] (sha2,
    base64, the host's file names).  [TurnPeers] stands for the components a turn
    transaction calls: approvals, child runs, wait sets, citations, search,
    notifications, attachments.  [ArgumentSerde] is serde_json on the arguments of
    the tools the loop itself answers.  Those with
    laws state documented behaviour and have a concrete instance beside the
    examples.

    ** Not modelled

    User interfaces, HTTP routes, SQL migrations, process and container plumbing,
    serde and [Debug] forms, timestamps no decision reads, the waiting of
    [issue_reverse], the respawning of [supervise_lanes]; of the host broker, the
    audit log, path_policy.rs, native computer use and its confirmations, and the
    JSON text of the state file.  A restart is modelled on the last committed
    state: a save whose publication is unknown closes the broker, and which of the
    two files it left is not followed.  Of turns: transactions are
    serial, as the row locks make them; the wait sets of agent runs, sandbox
    spawns and the rows the session lane inserts for code sessions;
    JSON columns, and the uniqueness of message ids beyond their table's key.
    [turn_txn] admits a direct lease on any turn, as the operation does; its
    callers look at the turn in an earlier transaction.  The theorems over
    histories of turns speak of those in which no such lease is taken on a turn
    that does not wait for one, and [TurnExamples] shows what one does when that
    look is stale.  Of approvals: the live broadcast of a row, the search
    index, and the tables of a deleted chat that hold no turn and no approval.  Of the agent loop: the retries of its
    store calls, the compilation of schemas, citations, the arguments a client
    resolves and the previews of results, which are answers of its world; calls
    that overlap are taken one after another in the order they complete, which the
    world chooses.  Of the router: the HTTP clients and
    the providers' own stream formats.  Wait sets of agent runs, sandbox admission
    and code delivery have no model: they are parameters of the turns or not
    called by the parts above. *)

From stdpp Require Export prelude gmap strings list.
From Stdlib Require Export ZArith Ascii.
From Stdlib Require String.
Export String.StringSyntax.

(** Closed theorems of the development are stated over [nat], [Z] and
    [string]; [Z] numerals are written with [%Z]. *)
(** Let [cbn] compute appends of literal strings. *)
#[global] Arguments String.append !_ _ / : simpl nomatch.

#[export] Set Default Goal Selector "!".
Open Scope string_scope.
Open Scope list_scope.
Open Scope nat_scope.

(** ** Notations of the library live in a scope of their own. *)
Declare Scope tb_scope.
Delimit Scope tb_scope with tb.

(** ** Rust's [Result] *)
Inductive result (E A : Type) : Type :=
| Ok (value : A)
| Err (error : E).
Arguments Ok {E A} value.
Arguments Err {E A} error.

#[export] Instance result_ret E : MRet (result E) := fun _ a => Ok a.
#[export] Instance result_bind E : MBind (result E) :=
  fun _ _ k m => match m with Ok a => k a | Err e => Err e end.

Definition is_ok {E A} (r : result E A) : bool :=
  match r with Ok _ => true | Err _ => false end.

Definition ok_or {E A} (o : option A) (e : E) : result E A :=
  match o with Some a => Ok a | None => Err e end.

(** ** A state-and-error monad: a [&mut S] threaded through fallible code.
    On [Err] the caller drops the state, as every Rust caller here does. *)
Definition stm (S E A : Type) : Type := S -> result E (A * S).

#[export] Instance stm_ret S E : MRet (stm S E) := fun _ a s => Ok (a, s).
#[export] Instance stm_bind S E : MBind (stm S E) :=
  fun _ _ k m s => match m s with Ok (a, s') => k a s' | Err e => Err e end.

Section Stm.
Context {S E : Type}.

Definition get : stm S E S := fun s => Ok (s, s).
Definition modify (f : S -> S) : stm S E unit := fun s => Ok (tt, f s).
Definition fail {A} (e : E) : stm S E A := fun _ => Err e.

(** [for x in l { f(x)?; }] *)
Definition for_each {A} (f : A -> stm S E unit) : list A -> stm S E unit :=
  fix go l := match l with
              | [] => mret tt
              | x :: l' => f x ≫= fun _ => go l'
              end.

(** [for x in l { b = f(x, b)?; }] *)
Definition fold_each {A B} (f : A -> B -> stm S E B) : list A -> B -> stm S E B :=
  fix go l b := match l with
                | [] => mret b
                | x :: l' => f x b ≫= fun b' => go l' b'
                end.

(** A partial-correctness triple: from a state in [P] the computation ends in
    a state and value in [Q], or in an error in [X]. *)
Definition triple {A} (P : S -> Prop) (m : stm S E A)
    (Q : A -> S -> Prop) (X : E -> Prop) : Prop :=
  forall s, P s -> match m s with Ok (a, s') => Q a s' | Err e => X e end.

Lemma triple_ret {A} (P : S -> Prop) (a : A) Q X :
  (forall s, P s -> Q a s) -> triple P (mret a) Q X.
Proof. intros H s Hs. by apply H. Qed.

Lemma triple_bind {A B} P (m : stm S E A) (k : A -> stm S E B) R Q X :
  triple P m R X -> (forall a, triple (R a) (k a) Q X) -> triple P (m ≫= k) Q X.
Proof.
  intros Hm Hk s Hs. specialize (Hm s Hs). unfold mbind, stm_bind.
  destruct (m s) as [[a s']|e]; [by apply Hk | done].
Qed.

Lemma triple_fail {A} P (e : E) (Q : A -> S -> Prop) (X : E -> Prop) :
  X e -> triple P (fail e) Q X.
Proof. by intros H s _. Qed.

Lemma triple_modify (P : S -> Prop) f (Q : unit -> S -> Prop) X :
  (forall s, P s -> Q tt (f s)) -> triple P (modify f) Q X.
Proof. intros H s Hs. by apply H. Qed.

Lemma triple_get (P : S -> Prop) (Q : S -> S -> Prop) X :
  (forall s, P s -> Q s s) -> triple P get Q X.
Proof. intros H s Hs. by apply H. Qed.

Lemma triple_conseq {A} (P P' : S -> Prop) (m : stm S E A) (Q Q' : A -> S -> Prop) X :
  triple P' m Q' X -> (forall s, P s -> P' s) -> (forall a s, Q' a s -> Q a s) ->
  triple P m Q X.
Proof.
  intros Hm HP HQ s Hs. specialize (Hm s (HP s Hs)).
  destruct (m s) as [[a s']|e]; auto.
Qed.

Lemma triple_for_each {A} (I : S -> Prop) (f : A -> stm S E unit) l X :
  Forall (fun x => triple I (f x) (fun _ => I) X) l ->
  triple I (for_each f l) (fun _ => I) X.
Proof.
  induction 1 as [|x l Hx Hl IH]; cbn.
  - by apply triple_ret.
  - eapply triple_bind; [exact Hx|]. intros a. exact IH.
Qed.

Lemma triple_fold_each {A B} (I : B -> S -> Prop) (f : A -> B -> stm S E B) l X :
  Forall (fun x => forall b, triple (I b) (f x b) I X) l ->
  forall b, triple (I b) (fold_each f l b) I X.
Proof.
  induction 1 as [|x l Hx Hl IH]; intros b; cbn.
  - by apply triple_ret.
  - eapply triple_bind; [apply Hx|]. exact IH.
Qed.

Lemma triple_run {A} P (m : stm S E A) Q X s a s' :
  triple P m Q X -> P s -> m s = Ok (a, s') -> Q a s'.
Proof. intros Hm Hs Hrun. specialize (Hm s Hs). by rewrite Hrun in Hm. Qed.

Lemma triple_run_err {A} P (m : stm S E A) Q X s e :
  triple P m Q X -> P s -> m s = Err e -> X e.
Proof. intros Hm Hs Hrun. specialize (Hm s Hs). by rewrite Hrun in Hm. Qed.
End Stm.

(** ** [Iterator::find_map]: the first [Some] a loop with early returns gives *)
Fixpoint find_map {A B} (f : A -> option B) (l : list A) : option B :=
  match l with
  | [] => None
  | x :: l' => match f x with Some b => Some b | None => find_map f l' end
  end.

(** [or_else a b]: the statements of [a], then, when none returned, those of [b]. *)
Definition or_else {A} (a b : option A) : option A :=
  match a with Some _ => a | None => b end.
Notation "a <||> b" := (or_else a b) (at level 60, right associativity) : tb_scope.

(** [if c { return x }] *)
Definition when {A} (c : bool) (x : A) : option A := if c then Some x else None.

Lemma find_map_None {A B} (f : A -> option B) l :
  find_map f l = None <-> Forall (fun x => f x = None) l.
Proof.
  induction l as [|x l IH]; cbn; [by split|].
  rewrite Forall_cons, <- IH. destruct (f x); naive_solver.
Qed.

Lemma find_map_Some {A B} (f : A -> option B) l b :
  find_map f l = Some b -> exists x, x ∈ l /\ f x = Some b.
Proof.
  induction l as [|x l IH]; cbn; [done|].
  destruct (f x) eqn:E; intros H; simplify_eq.
  - exists x. split; [left | done].
  - destruct (IH H) as (y & Hy & Hfy). exists y. split; [by right | done].
Qed.

Lemma or_else_None {A} (a b : option A) : or_else a b = None <-> a = None /\ b = None.
Proof. destruct a; naive_solver. Qed.

Lemma when_None {A} c (x : A) : when c x = None <-> c = false.
Proof. destruct c; naive_solver. Qed.

Lemma when_Some {A} c (x y : A) : when c x = Some y <-> c = true /\ x = y.
Proof. destruct c; naive_solver. Qed.

Lemma or_else_Some {A} (a b : option A) x :
  or_else a b = Some x <-> a = Some x \/ a = None /\ b = Some x.
Proof. destruct a; naive_solver. Qed.

(** ** Boolean reflection shared by the components *)
Lemma existsb_false {A} (f : A -> bool) l :
  existsb f l = false <-> Forall (fun x => f x = false) l.
Proof.
  induction l as [|x l IH]; cbn; [by split|].
  rewrite orb_false_iff, Forall_cons, IH. done.
Qed.

Lemma existsb_true {A} (f : A -> bool) l :
  existsb f l = true <-> exists x, x ∈ l /\ f x = true.
Proof.
  rewrite existsb_exists. setoid_rewrite list_elem_of_In. done.
Qed.

Lemma forallb_true {A} (f : A -> bool) l :
  forallb f l = true <-> Forall (fun x => f x = true) l.
Proof.
  induction l as [|x l IH]; cbn; [by split|].
  rewrite andb_true_iff, Forall_cons, IH. done.
Qed.

Lemma existsb_incl {A} (f : A -> bool) l l' :
  l ⊆ l' -> existsb f l = true -> existsb f l' = true.
Proof. rewrite !existsb_true. set_solver. Qed.

Create HintDb tb.
#[export] Hint Rewrite @find_map_None @or_else_None @when_None @existsb_false
  @forallb_true orb_false_iff andb_true_iff negb_true_iff negb_false_iff : tb.

(** ** Automation *)

(** Turn the boolean tests of the code into propositions everywhere. *)
Ltac bool_props :=
  repeat match goal with
  | H : context [_ && _ = true] |- _ => rewrite andb_true_iff in H
  | H : context [_ || _ = false] |- _ => rewrite orb_false_iff in H
  | H : context [_ || _ = true] |- _ => rewrite orb_true_iff in H
  | H : context [negb _ = true] |- _ => rewrite negb_true_iff in H
  | H : context [negb _ = false] |- _ => rewrite negb_false_iff in H
  | H : context [Nat.leb _ _ = true] |- _ => rewrite Nat.leb_le in H
  | H : context [Nat.leb _ _ = false] |- _ => rewrite Nat.leb_gt in H
  | H : context [Nat.ltb _ _ = true] |- _ => rewrite Nat.ltb_lt in H
  | H : context [Nat.ltb _ _ = false] |- _ => rewrite Nat.ltb_ge in H
  | H : context [Nat.eqb _ _ = true] |- _ => rewrite Nat.eqb_eq in H
  | H : context [Nat.eqb _ _ = false] |- _ => rewrite Nat.eqb_neq in H
  | H : context [Z.leb _ _ = true] |- _ => rewrite Z.leb_le in H
  | H : context [Z.leb _ _ = false] |- _ => rewrite Z.leb_gt in H
  | H : context [Z.ltb _ _ = true] |- _ => rewrite Z.ltb_lt in H
  | H : context [Z.ltb _ _ = false] |- _ => rewrite Z.ltb_ge in H
  | H : context [Z.eqb _ _ = true] |- _ => rewrite Z.eqb_eq in H
  | H : context [Z.eqb _ _ = false] |- _ => rewrite Z.eqb_neq in H
  | H : context [String.eqb _ _ = true] |- _ => rewrite String.eqb_eq in H
  | H : context [String.eqb _ _ = false] |- _ => rewrite String.eqb_neq in H
  | H : context [bool_decide _ = true] |- _ => rewrite bool_decide_eq_true in H
  | H : context [bool_decide _ = false] |- _ => rewrite bool_decide_eq_false in H
  end; destruct_and?.

(** Split every [match]/[if] of the goal or of one hypothesis, closing the
    cases that contradict themselves. *)
Ltac split_matches := repeat (case_match; simplify_eq/=; try done).

