(* ===== verification/RustStr.v ===== *)
(** * Rust strings

    A Rust [&str] is its sequence of UTF-8 bytes, here a [string]; [len] is the
    byte length and every byte index of the source is an index of the
    [string].  The functions below are the methods of [str] and [char] the
    modelled components call, each under its Rust name.  Needles in the source
    are ASCII, so byte-wise search agrees with Rust's char-wise search.

    [to_lowercase] is the one method that needs Unicode tables; it is an
    operation of the class [UnicodeLower], with its behaviour on ASCII text as
    the law the theorems use. *)

From S2P Require Export Prelude.

(** ** Bytes *)
Definition byte_val (a : ascii) : nat := nat_of_ascii a.
Definition in_range (lo hi : nat) (a : ascii) : bool :=
  (lo <=? byte_val a) && (byte_val a <=? hi).

Definition is_ascii_digit (a : ascii) : bool := in_range 48 57 a.
Definition is_ascii_lowercase (a : ascii) : bool := in_range 97 122 a.
Definition is_ascii_uppercase (a : ascii) : bool := in_range 65 90 a.
Definition is_ascii_hexdigit (a : ascii) : bool :=
  is_ascii_digit a || in_range 97 102 a || in_range 65 70 a.
Definition is_ascii (a : ascii) : bool := byte_val a <? 128.
(** A byte [10xxxxxx] continues a multi-byte character. *)
Definition is_continuation (a : ascii) : bool := in_range 128 191 a.
Definition to_ascii_lower_byte (a : ascii) : ascii :=
  if is_ascii_uppercase a then ascii_of_nat (byte_val a + 32) else a.

(** ** Whole-string predicates *)
Fixpoint str_all (f : ascii -> bool) (s : string) : bool :=
  match s with EmptyString => true | String a s' => f a && str_all f s' end.

Definition is_empty (s : string) : bool :=
  match s with EmptyString => true | _ => false end.

Definition len (s : string) : nat := String.length s.

(** ** Prefixes, suffixes, slices *)
Fixpoint strip_prefix (s p : string) : option string :=
  match p, s with
  | EmptyString, _ => Some s
  | String a p', String b s' => if Ascii.eqb a b then strip_prefix s' p' else None
  | String _ _, EmptyString => None
  end.

Definition starts_with (s p : string) : bool :=
  match strip_prefix s p with Some _ => true | None => false end.

(** [&s[n..]] *)
Fixpoint str_drop (n : nat) (s : string) : string :=
  match n, s with
  | O, _ => s
  | S n', String _ s' => str_drop n' s'
  | S _, EmptyString => EmptyString
  end.

(** [&s[..n]] *)
Fixpoint str_take (n : nat) (s : string) : string :=
  match n, s with
  | S n', String a s' => String a (str_take n' s')
  | _, _ => EmptyString
  end.

Definition strip_suffix (s p : string) : option string :=
  if (len p <=? len s) && String.eqb (str_drop (len s - len p) s) p
  then Some (str_take (len s - len p) s) else None.

Definition ends_with (s p : string) : bool :=
  match strip_suffix s p with Some _ => true | None => false end.

(** Byte [n] starts a character (or is the end of the string). *)
Definition is_char_boundary (s : string) (n : nat) : bool :=
  match String.get n s with
  | Some a => negb (is_continuation a)
  | None => n =? len s
  end.

(** [s.get(i..j)] *)
Definition str_get (s : string) (i j : nat) : option string :=
  if (i <=? j) && (j <=? len s) && is_char_boundary s i && is_char_boundary s j
  then Some (str_take (j - i) (str_drop i s)) else None.

(** ** Searching *)
Fixpoint contains (s p : string) : bool :=
  starts_with s p || match s with EmptyString => false | String _ s' => contains s' p end.

(** [s.contains([c1, c2, ...])] over ASCII characters *)
Fixpoint contains_any (s : string) (cs : list ascii) : bool :=
  match s with
  | EmptyString => false
  | String a s' => existsb (Ascii.eqb a) cs || contains_any s' cs
  end.

Definition contains_char (s : string) (c : ascii) : bool := contains_any s [c].

Fixpoint find (s p : string) : option nat :=
  if starts_with s p then Some 0
  else match s with EmptyString => None | String _ s' => S <$> find s' p end.

(** [s.matches(p).count()]: occurrences that do not overlap, left to right. *)
Fixpoint matches_from (skip : nat) (s p : string) : nat :=
  match s with
  | EmptyString => 0
  | String _ s' =>
      match skip with
      | S k => matches_from k s' p
      | O => if starts_with s p then S (matches_from (len p - 1) s' p)
             else matches_from 0 s' p
      end
  end.
Definition matches_count (s p : string) : nat := matches_from 0 s p.

(** ** Splitting and joining *)
Fixpoint split (s : string) (c : ascii) : list string :=
  match s with
  | EmptyString => [EmptyString]
  | String a s' =>
      if Ascii.eqb a c then EmptyString :: split s' c
      else match split s' c with
           | seg :: segs => String a seg :: segs
           | [] => [String a EmptyString]
           end
  end.

Definition join (sep : string) (l : list string) : string := String.concat sep l.

(** [s.rsplit(c).next()] *)
Definition rsplit_next (s : string) (c : ascii) : string :=
  List.last (split s c) EmptyString.

Definition split_once (s p : string) : option (string * string) :=
  match find s p with
  | Some i => Some (str_take i s, str_drop (i + len p) s)
  | None => None
  end.

(** The last position of a character. *)
Fixpoint rfind_char (s : string) (c : ascii) : option nat :=
  match s with
  | EmptyString => None
  | String a s' =>
      match rfind_char s' c with
      | Some i => Some (S i)
      | None => if Ascii.eqb a c then Some 0 else None
      end
  end.

Definition rsplit_once (s : string) (c : ascii) : option (string * string) :=
  match rfind_char s c with
  | Some i => Some (str_take i s, str_drop (S i) s)
  | None => None
  end.

(** [s.trim_end_matches(c)] *)
Fixpoint trim_end_matches (s : string) (c : ascii) : string :=
  match s with
  | EmptyString => EmptyString
  | String a s' =>
      match trim_end_matches s' c with
      | EmptyString => if Ascii.eqb a c then EmptyString else String a EmptyString
      | t => String a t
      end
  end.

(** ** Case *)
Fixpoint to_ascii_lowercase (s : string) : string :=
  match s with
  | EmptyString => EmptyString
  | String a s' => String (to_ascii_lower_byte a) (to_ascii_lowercase s')
  end.

Definition eq_ignore_ascii_case (s t : string) : bool :=
  String.eqb (to_ascii_lowercase s) (to_ascii_lowercase t).

Class UnicodeLower := {
  to_lowercase : string -> string;
  to_lowercase_ascii : forall s,
    str_all is_ascii s = true -> to_lowercase s = to_ascii_lowercase s
}.

(** ** Characters: [s.chars()], each character as its UTF-8 bytes *)
Fixpoint chars (s : string) : list string :=
  match s with
  | EmptyString => []
  | String a s' =>
      match chars s' with
      | (String b _ as c) :: cs =>
          if is_continuation b then String a c :: cs
          else String a EmptyString :: c :: cs
      | cs => String a EmptyString :: cs
      end
  end.

(** Unicode's [White_Space] characters, as their UTF-8 bytes. *)
Definition utf8 (bytes : list nat) : string :=
  fold_right (fun b s => String (ascii_of_nat b) s) EmptyString bytes.

Definition white_space : list string :=
  map (fun b => utf8 [b]) [9; 10; 11; 12; 13; 32]
  ++ [utf8 [194; 133]; utf8 [194; 160]; utf8 [225; 154; 128]]
  ++ map (fun b => utf8 [226; 128; b]) [128; 129; 130; 131; 132; 133; 134; 135; 136; 137; 138]
  ++ [utf8 [226; 128; 168]; utf8 [226; 128; 169]; utf8 [226; 128; 175];
      utf8 [226; 129; 159]; utf8 [227; 128; 128]].

Definition str_mem (x : string) (l : list string) : bool := existsb (String.eqb x) l.

(** [s.trim().is_empty()] *)
Definition trim_is_empty (s : string) : bool :=
  forallb (fun c => str_mem c white_space) (chars s).

(** ** Decimal numbers: [s.parse::<uN>()]

    [FromStr] for an unsigned integer takes an optional leading [+] and at
    least one digit, and refuses a value past [max]. *)
Definition digit_val (a : ascii) : nat := byte_val a - 48.

Fixpoint digits_value (s : string) (acc : Z) : option Z :=
  match s with
  | EmptyString => Some acc
  | String a s' =>
      if is_ascii_digit a then digits_value s' (acc * 10 + Z.of_nat (digit_val a))%Z
      else None
  end.

Definition parse_uint (max : Z) (s : string) : option Z :=
  let digits := match strip_prefix s "+" with Some rest => rest | None => s end in
  if is_empty digits then None
  else match digits_value digits 0 with
       | Some v => if (v <=? max)%Z then Some v else None
       | None => None
       end.

(** The ASCII part of [to_lowercase] on its own: the instance examples use. *)
Definition ascii_only_lower : UnicodeLower :=
  {| to_lowercase := to_ascii_lowercase; to_lowercase_ascii := fun _ _ => eq_refl |}.

(** ** Facts the components share *)
Lemma str_mem_true x l : str_mem x l = true <-> x ∈ l.
Proof.
  unfold str_mem. rewrite existsb_true. split.
  - intros (y & Hy & E). apply String.eqb_eq in E as ->. done.
  - intros Hx. exists x. by rewrite String.eqb_refl.
Qed.

Lemma str_mem_false x l : str_mem x l = false <-> x ∉ l.
Proof. rewrite <- str_mem_true, not_true_iff_false. done. Qed.

Lemma strip_prefix_Some s p rest : strip_prefix s p = Some rest <-> s = p +:+ rest.
Proof.
  revert s. induction p as [|a p IH]; intros s; [destruct s; cbn; split; congruence|].
  destruct s as [|b s]; cbn; [by split|].
  destruct (Ascii.eqb_spec a b) as [->|Hne]; [rewrite IH|]; split; congruence.
Qed.

Lemma strip_prefix_nil s : strip_prefix s "" = Some s.
Proof. by apply strip_prefix_Some. Qed.

Lemma starts_with_true s p : starts_with s p = true <-> exists rest, s = p +:+ rest.
Proof.
  unfold starts_with. destruct (strip_prefix s p) as [rest|] eqn:E.
  - apply strip_prefix_Some in E. split; [by exists rest|done].
  - split; [done|]. intros [rest Hs]. apply strip_prefix_Some in Hs. congruence.
Qed.

Lemma starts_with_app p rest : starts_with (p +:+ rest) p = true.
Proof. apply starts_with_true. by exists rest. Qed.

Lemma str_app_assoc s t u : (s +:+ t) +:+ u = s +:+ (t +:+ u).
Proof. induction s as [|a s IH]; cbn; by f_equal. Qed.

Lemma str_app_nil_r s : s +:+ "" = s.
Proof. induction s as [|a s IH]; cbn; by f_equal. Qed.

Lemma take_drop_str n s : str_take n s +:+ str_drop n s = s.
Proof.
  revert s. induction n as [|n IH]; intros [|a s]; try done. cbn. by rewrite IH.
Qed.

Lemma drop_app_str s t : str_drop (len s) (s +:+ t) = t.
Proof. unfold len. induction s as [|a s IH]; cbn; [by destruct t|done]. Qed.

Lemma take_app_str s t : str_take (len s) (s +:+ t) = s.
Proof. unfold len. induction s as [|a s IH]; cbn; [by destruct t|by rewrite IH]. Qed.

Lemma len_app s t : len (s +:+ t) = len s + len t.
Proof. unfold len. induction s as [|a s IH]; cbn; [done|]. by rewrite IH. Qed.

(** No byte of [s] is [c]. *)
Definition free_of (c : ascii) (s : string) : Prop :=
  str_all (fun a => negb (Ascii.eqb a c)) s = true.

Lemma free_of_cons c a s : free_of c (String a s) <-> a <> c /\ free_of c s.
Proof.
  unfold free_of. cbn. rewrite andb_true_iff, negb_true_iff, Ascii.eqb_neq. done.
Qed.

Lemma split_nonempty s c : split s c <> [].
Proof. destruct s as [|a s]; cbn; [done|]. by repeat case_match. Qed.

Lemma split_free s c : free_of c s -> split s c = [s].
Proof.
  induction s as [|a s IH]; cbn; [done|]. rewrite free_of_cons. intros [Ha Hs].
  rewrite (proj2 (Ascii.eqb_neq a c)) by done. by rewrite IH.
Qed.

Lemma split_app s c t : free_of c s -> split (s +:+ String c t) c = s :: split t c.
Proof.
  induction s as [|a s IH]; cbn.
  - intros _. by rewrite Ascii.eqb_refl.
  - rewrite free_of_cons. intros [Ha Hs].
    rewrite (proj2 (Ascii.eqb_neq a c)) by done. by rewrite IH.
Qed.

Lemma split_all_free s c : Forall (free_of c) (split s c).
Proof.
  induction s as [|a s IH]; cbn; [by repeat constructor|].
  destruct (Ascii.eqb_spec a c) as [->|Hne]; [by constructor|].
  destruct (split s c) as [|seg segs] eqn:E; [by destruct (split_nonempty s c)|].
  inversion IH; subst. constructor; [|done]. by apply free_of_cons.
Qed.

Lemma join_cons sep x y l : join sep (x :: y :: l) = x +:+ sep +:+ join sep (y :: l).
Proof. done. Qed.

Lemma split_join c l :
  Forall (free_of c) l -> l <> [] -> split (join (String c "") l) c = l.
Proof.
  induction 1 as [|x l Hx Hl IH]; [done|]. intros _.
  destruct l as [|y l]; [by apply split_free|].
  rewrite join_cons. cbn [String.append]. rewrite split_app by done. f_equal. by apply IH.
Qed.
