(* ===== verification/ShellPaths.v ===== *)
(** * Shell policy: tables, paths, globs and operands

    The constant lists of [crates/tidebreak-shell-policy/src/lib.rs], each
    under its Rust name; then its path helpers: [basename], [normpath],
    [climbs_out], the sensitive-path floor, the glob reachability search and the
    operand roles, with their specifications: [climbs_out] against a walk over
    directory depths, and the dynamic program of [spelled_more_than_globbed]
    against a declarative alignment relation. *)

From S2P Require Export RustStr.

(** Flags whose value is a count. *)
Definition COUNT_FLAGS : list string :=
  ["-j"; "--jobs"; "-P"; "--parallel"; "--max-procs"].

(** Programs whose non-flag operands are filesystem paths. *)
Definition PATH_OPERAND_PROGRAMS : list string :=
  ["cat"; "gcat"; "tac"; "head"; "ghead"; "tail"; "gtail"; "wc"; "gwc";
   "grep"; "ggrep"; "egrep"; "fgrep"; "rg"; "nl"; "od"; "xxd"; "hexdump";
   "strings"; "base64"; "gbase64"; "md5sum"; "gmd5sum"; "shasum"; "sha1sum";
   "sha256sum"; "cksum"; "sort"; "gsort"; "cut"; "gcut"; "sed"; "gsed"; "awk";
   "gawk"; "mawk"; "nawk"; "patch"; "tar"; "gtar"; "bsdtar"; "cp"; "gcp";
   "mv"; "gmv"; "rm"; "grm"; "rmdir"; "ln"; "gln"; "install"; "ginstall";
   "tee"; "gtee"; "touch"; "gtouch"; "truncate"; "gtruncate"; "shred";
   "gshred"; "dd"; "gdd"; "chmod"; "gchmod"; "chown"; "gchown"; "chgrp";
   "gchgrp"; "stat"; "gstat"; "file"; "readlink"; "greadlink"; "realpath";
   "grealpath"; "less"; "more"; "open"; "xdg-open"; "gzip"; "gunzip"; "bzip2";
   "xz"; "zstd"; "zip"; "unzip"].

(** Of those, the ones whose first operand is program text. *)
Definition SCRIPT_FIRST_OPERAND_PROGRAMS : list string :=
  ["awk"; "gawk"; "mawk"; "nawk"; "sed"; "gsed"; "grep"; "ggrep"; "egrep";
   "fgrep"; "rg"].

(** Language runtimes a version suffix may follow. *)
Definition RUNTIME_STEMS : list string :=
  ["python"; "php"; "ruby"; "perl"; "node"; "lua"; "deno"; "bun"].

(** Variables no assignment may set, whatever the value. *)
Definition ALWAYS_DANGEROUS_ENV : list string :=
  ["PATH"; "BASH_ENV"; "ENV"; "SHELLOPTS"; "BASHOPTS"; "IFS";
   "PROMPT_COMMAND"; "PS1"; "PS2"; "PS3"; "PS4"; "PYTHONSTARTUP";
   "PYTHONINSPECT"; "LUA_INIT"; "GIT_SSH"; "GIT_SSH_COMMAND";
   "GIT_PROXY_COMMAND"; "GIT_EXTERNAL_DIFF"; "PERL5OPT"; "RUBYOPT";
   "DOTNET_STARTUP_HOOKS"; "CORECLR_PROFILER"; "CORECLR_ENABLE_PROFILING";
   "CORECLR_PROFILER_PATH"; "ASPNETCORE_HOSTINGSTARTUPASSEMBLIES"].

(** Prefixes of such variables. *)
Definition ALWAYS_DANGEROUS_ENV_PREFIXES : list string :=
  ["LD_"; "DYLD_"].

(** Substrings of such variables. *)
Definition ALWAYS_DANGEROUS_ENV_MARKERS : list string :=
  ["PRELOAD"; "INSERT_LIBRARIES"; "_AUDIT"; "PROXY_COMMAND"].

(** Variables whose value names a program or a path to load code from. *)
Definition PROGRAM_VALUED_ENV : list string :=
  ["CC"; "CXX"; "CPP"; "LD"; "AS"; "AR"; "NM"; "RANLIB"; "OBJCOPY"; "OBJDUMP";
   "STRIP"; "RUSTC"; "RUSTDOC"; "EDITOR"; "VISUAL"; "PAGER"; "MANPAGER";
   "GIT_PAGER"; "GIT_EDITOR"; "GIT_ASKPASS"; "SSH_ASKPASS"; "SUDO_ASKPASS";
   "LESSOPEN"; "LESSCLOSE"; "GZIP"; "BROWSER"; "TERMINFO"; "TERMCAP";
   "PYTHONHOME"; "PYTHONEXECUTABLE"; "PERL5LIB"; "PERLLIB"; "PERL5DB";
   "RUBYLIB"; "CLASSPATH"; "NODE_PATH"; "NODE_REPL_EXTERNAL_MODULE";
   "NPM_CONFIG_SCRIPT_SHELL"; "npm_config_script_shell"; "R_PROFILE";
   "R_PROFILE_USER"; "R_ENVIRON"; "R_ENVIRON_USER"; "JULIA_STARTUP_FILE";
   "LUA_PATH"; "LUA_CPATH"; "QT_PLUGIN_PATH"; "GEM_HOME"; "GEM_PATH";
   "BUNDLE_GEMFILE"; "GIT_DIR"; "GIT_WORK_TREE"; "GIT_INDEX_FILE";
   "GIT_OBJECT_DIRECTORY"; "GIT_ALTERNATE_OBJECT_DIRECTORIES";
   "GIT_NAMESPACE"; "GIT_EXEC_PATH"; "GIT_TEMPLATE_DIR"; "GIT_CONFIG";
   "GIT_CONFIG_GLOBAL"; "GIT_CONFIG_SYSTEM"].

(** Variables holding command-line options. *)
Definition OPTION_BAG_ENV : list string :=
  ["NODE_OPTIONS"; "JAVA_TOOL_OPTIONS"; "_JAVA_OPTIONS"; "GOFLAGS";
   "RUSTFLAGS"; "CARGO_BUILD_RUSTFLAGS"; "npm_config_node_options"].

(** Options that load code. *)
Definition ENV_INJECT_FLAGS : list string :=
  ["-javaagent"; "-agentlib"; "-agentpath"; "--require"; "--import";
   "--loader"; "--experimental-loader"; "linker="; "-toolexec"; "-exec=";
   "-fplugin"; "-Xbootclasspath"; "--script"].

(** Programs that run a script they are given. *)
Definition SCRIPT_EXECUTOR_PROGRAMS : list string :=
  ["node"; "nodejs"; "deno"; "bun"; "tsx"; "ts-node"; "zx"; "python";
   "python2"; "python3"; "ruby"; "php"; "perl"; "lua"; "luajit"; "Rscript";
   "R"; "tclsh"; "wish"; "guile"; "raku"; "perl6"; "groovy"; "ghc"; "runghc";
   "runhaskell"; "elixir"; "swift"; "scala"; "julia"; "go"; "dotnet";
   "dotnet-script"; "mono"; "tcc"; "clojure"; "bb"].

(** Git configuration keys that run programs. *)
Definition DANGEROUS_GIT_CONFIG_KEYS : list string :=
  ["core.pager"; "core.sshcommand"; "core.editor"; "core.fsmonitor";
   "core.hookspath"; "core.askpass"; "core.gitproxy"; "credential.helper";
   "gpg.program"; "gpg.openpgp.program"; "sequence.editor";
   "interactive.difffilter"; "sendemail.smtpserver"; "sendemail.sendmailcmd";
   "alias."; "include.path"; "includeif"; "protocol."; "safe.directory";
   "diff.external"; "filter."; "fsmonitor."; "uploadpack."; "receivepack.";
   "ssh.variant"; "http.proxy"; "url."].

(** Substrings of the paths the deny floor protects. *)
Definition SENSITIVE_TARGET_MARKERS : list string :=
  [".ssh/"; "authorized_keys"; "known_hosts"; "id_rsa"; "id_ed25519"; ".aws/";
   ".gnupg/"; ".netrc"; ".npmrc"; ".pypirc"; ".git-credentials";
   ".docker/config"; ".zshrc"; ".zshenv"; ".zprofile"; ".bashrc";
   ".bash_profile"; ".bash_login"; ".profile"; ".env"; "/etc/"; ".git/hooks/";
   "/dev/tcp/"; "/dev/udp/"; "/dev/sd"; "/dev/disk"; "/dev/rdisk"; "crontab";
   "/cron.d/"; "/sudoers"; "launchagents/"; "launchdaemons/"; ".kube/config";
   ".gitconfig"; ".local/bin"; ".git/config"; ".config/git/config";
   ".config/fish/config.fish"; ".bash_aliases"; ".bash_logout"; ".inputrc";
   ".cshrc"; ".tcshrc"; ".kshrc"; ".zlogin"; ".zlogout"; ".bash_completion";
   ".config/fish/"; ".config/nushell/"; ".config/elvish/";
   ".config/powershell/"; ".vimrc"; ".config/nvim/"; ".emacs.d/"; ".gdbinit";
   ".lldbinit"; ".psqlrc"; ".wgetrc"; ".curlrc"; ".my.cnf"; ".s3cfg"; ".hgrc";
   ".subversion/"; ".rprofile"; ".renviron"; ".cargo/credentials";
   ".cargo/config"; ".config/gh/"; ".config/gcloud/"; ".config/rclone/";
   ".config/git/credentials"; ".terraform.d/"; ".config/op/"; ".azure/";
   ".config/containers/"; ".pgpass"; ".authinfo"; ".mozilla/"; "keychains/";
   "login data"; ".config/systemd/"; ".config/autostart/"; "/var/at/";
   "/var/spool/cron"; "/environ"; "proc/self/mem"; "proc/self/maps";
   "proc/kcore"; ".pem"].

(** Suffixes that make a dotenv file a template. *)
Definition ENV_TEMPLATE_SUFFIXES : list string :=
  [".example"; ".sample"; ".template"; ".dist"; ".defaults"; ".tpl"].

(** Shells: never run on a rule. *)
Definition INTERPRETERS : list string :=
  ["sh"; "bash"; "rbash"; "zsh"; "dash"; "ksh"; "mksh"; "lksh"; "pdksh";
   "ksh88"; "ksh93"; "ksh2020"; "rksh"; "oksh"; "loksh"; "ash"; "posh";
   "hush"; "sash"; "jsh"; "csh"; "tcsh"; "fish"; "fizsh"; "pwsh";
   "powershell"; "nu"; "xonsh"; "elvish"; "yash"; "oil"; "osh"; "ysh"; "mrsh";
   "brush"; "ion"; "murex"; "ngs"; "closh"; "scsh"; "rc"; "es"; "eval";
   "source"; "."].

(** Wrappers, escalators, editors, remote tools: an exact rule only. *)
Definition EXACT_ONLY_PROGRAMS : list string :=
  ["env"; "xargs"; "timeout"; "nice"; "nohup"; "setsid"; "stdbuf"; "time";
   "ionice"; "chrt"; "command"; "builtin"; "exec"; "watch"; "parallel";
   "flock"; "unshare"; "script"; "runuser"; "capsh"; "proot"; "fakeroot";
   "firejail"; "bwrap"; "setarch"; "arch"; "taskset"; "numactl"; "prlimit";
   "setpriv"; "gosu"; "eatmydata"; "run-parts"; "expect"; "ssh-agent";
   "gdbserver"; "wine"; "wine64"; "box64"; "box86"; "qemu"; "caffeinate";
   "toybox"; "systemd-run"; "systemd-inhibit"; "dbus-run-session";
   "dbus-launch"; "at"; "batch"; "watchexec"; "entr"; "nodemon"; "foreman";
   "mise"; "direnv"; "pyenv"; "rbenv"; "nodenv"; "volta"; "fnm"; "asdf";
   "npx"; "uvx"; "pipx"; "bunx"; "limactl"; "incus"; "lxc"; "apptainer";
   "singularity"; "oc"; "crictl"; "nerdctl"; "ctr"; "nomad"; "helm";
   "ansible"; "ansible-playbook"; "salt"; "salt-call"; "terraform"; "pulumi";
   "tmux"; "screen"; "byobu"; "zellij"; "dtach"; "abduco"; "sudo"; "doas";
   "su"; "pkexec"; "vim"; "vi"; "nvim"; "emacs"; "ex"; "view"; "less"; "more";
   "man"; "nano"; "pico"; "ed"; "ssh"; "scp"; "sftp"; "rsync"; "telnet"; "nc";
   "ncat"; "netcat"; "socat"; "curl"; "curlie"; "xh"; "wget"; "wget2"; "ftp";
   "tftp"; "aria2c"; "lynx"; "links"; "w3m"; "http"; "https"; "httpie";
   "httpx"; "websocat"; "grpcurl"; "croc"; "wormhole"; "kcat"; "kafkacat";
   "mosh"; "ssh-copy-id"; "sshpass"; "docker"; "kubectl"; "podman"; "nsenter";
   "chroot"; "dig"; "nslookup"; "host"; "drill"; "openssl"; "gpg"; "gpg2";
   "aws"; "gcloud"; "az"; "rclone"; "mc"; "s3cmd"; "gsutil"; "azcopy";
   "restic"; "gh"; "op"; "vault"; "aws-vault"; "sops"; "vercel"; "doppler";
   "infisical"; "gdb"; "lldb"; "strace"; "ltrace"; "dtrace"; "dtruss"; "perf";
   "valgrind"; "bpftrace"; "rr"; "osascript"; "jrunscript"; "busybox";
   "ssh-keygen"; "sqlite3"; "psql"; "pgcli"; "mysql"; "mysqladmin"; "mariadb";
   "mycli"; "litecli"; "mongo"; "mongosh"; "mongoexport"; "mongodump";
   "redis-cli"; "duckdb"; "clickhouse-client"; "cockroach"; "cqlsh"; "influx";
   "usql"; "dropdb"; "createdb"; "vacuumdb"; "pg_dump"; "pg_restore";
   "noglob"; "nocorrect"; "nofork"].

(** Package managers, which run code a package supplies. *)
Definition PACKAGE_INSTALLER_PROGRAMS : list string :=
  ["pip"; "pip3"; "pipenv"; "poetry"; "pdm"; "hatch"; "rye"; "uv"; "conda";
   "mamba"; "micromamba"; "npm"; "pnpm"; "yarn"; "gem"; "bundle"; "bundler";
   "composer"; "cabal"; "stack"; "brew"; "port"; "apt"; "apt-get"; "aptitude";
   "dnf"; "yum"; "zypper"; "pacman"; "apk"].

(** The characters that make a token a pathname-expansion pattern. *)
Definition GLOB_METACHARACTERS : list ascii := ["*"; "?"; "["]%char.

(** ** Path helpers *)
Definition basename (program : string) : string := rsplit_next program "/".

(** One segment of the loop of [normpath]; [parts] is the stack, its top last. *)
Definition normpath_step (is_absolute : bool) (parts : list string) (segment : string)
    : list string :=
  if String.eqb segment "" || String.eqb segment "." then parts
  else if String.eqb segment ".." then
    if is_absolute then removelast parts
    else if match last parts with Some p => String.eqb p ".." | None => false end
            || match parts with [] => true | _ => false end
         then parts ++ [".."]
         else removelast parts
  else parts ++ [segment].

Definition normpath (path : string) : string :=
  if is_empty path then "."
  else
    let is_absolute := starts_with path "/" in
    let leading_double := starts_with path "//" && negb (starts_with path "///") in
    let parts := foldl (normpath_step is_absolute) [] (split path "/") in
    let joined := join "/" parts in
    if is_absolute then (if leading_double then "//" else "/") +:+ joined
    else if is_empty joined then "."
    else joined.

Definition climbs_out (path : string) : bool :=
  let norm := normpath path in
  String.eqb norm ".." || starts_with norm "../".

Section Unicode.
Context `{UnicodeLower}.

(** ** The sensitive-path floor *)
Definition is_env_template (raw : string) : bool :=
  existsb (fun suf => ends_with raw suf) ENV_TEMPLATE_SUFFIXES.

Definition hits_sensitive (token : string) : bool :=
  let raw := to_lowercase token in
  let norm := to_lowercase (normpath token) in
  existsb (fun marker =>
      (contains raw marker || contains norm marker)
      && negb (String.eqb marker ".env" && is_env_template raw))
    SENSITIVE_TARGET_MARKERS.
End Unicode.

(** ** Globs *)
Inductive GlobAtom : Type :=
| Spelled (c : string)   (* a character the token spells out *)
| AnyOne                 (* [?] or a bracket class *)
| AnyRun.                (* [*] *)

Fixpoint position (c : string) (cs : list string) : option nat :=
  match cs with
  | [] => None
  | d :: cs' => if String.eqb d c then Some 0 else S <$> position c cs'
  end.

(** The [while] loop of [glob_atoms]; [skip] counts the characters of a bracket
    class still to be passed over. *)
Fixpoint glob_atoms_from (skip : nat) (cs : list string) : list GlobAtom :=
  match cs with
  | [] => []
  | c :: cs' =>
      match skip with
      | S k => glob_atoms_from k cs'
      | O =>
          if String.eqb c "*" then AnyRun :: glob_atoms_from 0 cs'
          else if String.eqb c "?" then AnyOne :: glob_atoms_from 0 cs'
          else if String.eqb c "[" then
            match position "]" cs' with
            | Some e => AnyOne :: glob_atoms_from (e + 1) cs'
            | None => Spelled "[" :: glob_atoms_from 0 cs'
            end
          else Spelled c :: glob_atoms_from 0 cs'
      end
  end.

Definition glob_atoms (token : string) : list GlobAtom :=
  glob_atoms_from 0 (chars token).

(** [best[j]]: the highest score with which the first [j] characters of the
    marker have been consumed; [None] when unreached. *)
Definition relax (next : list (option Z)) (slot : nat) (score : Z) : list (option Z) :=
  match next !! slot with
  | Some (Some current) => if (current <? score)%Z then <[slot := Some score]> next else next
  | Some None => <[slot := Some score]> next
  | None => next
  end.

Definition step_at (marker : list string) (atom : GlobAtom) (best : list (option Z))
    (next : list (option Z)) (j : nat) : list (option Z) :=
  match best !! j with
  | Some (Some score) =>
      match atom with
      | Spelled c =>
          match marker !! j with
          | Some m => if String.eqb c m then relax next (j + 1) (score + 1) else next
          | None => next
          end
      | AnyOne => relax next (j + 1) score
      | AnyRun =>
          foldl (fun nx taken => relax nx (j + taken) (score - Z.of_nat taken))
            next (seq 0 (S (length marker - j)))
      end
  | _ => next
  end.

Definition step_atom (marker : list string) (best : list (option Z)) (atom : GlobAtom)
    : list (option Z) :=
  let best := <[0 := Some 0%Z]> best in
  let next := foldl (step_at marker atom best)
                (replicate (S (length marker)) None) (seq 0 (length marker)) in
  match best !! length marker with
  | Some (Some score) => relax next (length marker) score
  | _ => next
  end.

Definition completed (marker : list string) (best : list (option Z)) : bool :=
  match best !! length marker with
  | Some (Some score) => (0 <? score)%Z
  | _ => false
  end.

Fixpoint scan_atoms (marker : list string) (best : list (option Z)) (atoms : list GlobAtom)
    : bool :=
  match atoms with
  | [] => completed marker best
  | atom :: atoms' =>
      let best := step_atom marker best atom in
      if completed marker best then true else scan_atoms marker best atoms'
  end.

Definition spelled_more_than_globbed (atoms : list GlobAtom) (marker : list string) : bool :=
  scan_atoms marker (replicate (S (length marker)) None) atoms.

Section Reach.
Context `{UnicodeLower}.

Definition could_reach_sensitive (token : string) : bool :=
  let raw := to_lowercase token in
  let norm := to_lowercase (normpath token) in
  let template := is_env_template raw in
  let spellings := if String.eqb raw norm then [glob_atoms raw]
                   else [glob_atoms raw; glob_atoms norm] in
  existsb (fun marker =>
      if template && String.eqb marker ".env" then false
      else existsb (fun atoms => spelled_more_than_globbed atoms (chars marker)) spellings)
    SENSITIVE_TARGET_MARKERS.
End Reach.

(** ** Operands *)
Inductive OperandRole : Type :=
| RolePath     (* a path the program opens *)
| RoleScript   (* program text *)
| RoleOther.   (* a flag, a pattern, a number *)

#[export] Instance OperandRole_eq_dec : EqDecision OperandRole.
Proof. solve_decision. Defined.

Inductive ArgSlot : Type :=
| SlotWord (word : string)
| SlotAssignment.

Definition substitution_is_a_count (token : string) : bool :=
  match find token "$(", find token "`" with
  | Some i, Some j => str_mem (trim_end_matches (str_take (Nat.min i j) token) "=") COUNT_FLAGS
  | Some i, None | None, Some i => str_mem (trim_end_matches (str_take i token) "=") COUNT_FLAGS
  | None, None => false
  end.

Definition unvettable_path_argument `{UnicodeLower} (token : string) (role : OperandRole) : bool :=
  if (contains token "$(" || contains_char token "`") && negb (substitution_is_a_count token)
  then true
  else if bool_decide (role = RoleScript) then false
  else
    let opens_path := bool_decide (role = RolePath) in
    let path_shaped := contains_char token "/" || starts_with token "~" in
    if contains_char token "$" && (path_shaped || opens_path) then true
    else if negb (contains_any token GLOB_METACHARACTERS) then false
    else
      let rooted := starts_with token "/" || starts_with token "~" in
      if negb opens_path then rooted
      else rooted || could_reach_sensitive token.

Definition unvettable_redirect_target (token : string) : bool :=
  contains_any token ["$"; "`"; "*"; "?"; "["]%char.

Definition supplies_script (arg : string) : bool :=
  match strip_prefix arg "--" with
  | Some long => str_mem (List.hd long (split long "=")) ["expression"; "file"; "regexp"]
  | None =>
      match strip_prefix arg "-" with
      | Some cluster => contains_any cluster ["e"; "f"]%char
      | None => false
      end
  end.

Definition separated_value_flags (base : string) : list string :=
  if str_mem base ["awk"; "gawk"; "mawk"; "nawk"] then
    ["-F"; "-v"; "-f"; "--field-separator"; "--assign"]
  else if str_mem base ["sed"; "gsed"] then ["-e"; "-f"; "--expression"; "--file"]
  else if str_mem base ["grep"; "egrep"; "fgrep"; "rg"] then
    ["-e"; "-f"; "-m"; "-A"; "-B"; "-C"; "--regexp"; "--file"; "--max-count"]
  else [].

(** The loop of [operand_roles], with its two flags as loop state. *)
Fixpoint roles_from (takes_paths script_first : bool) (value_flags : list string)
    (seen_operand flag_value : bool) (slots : list ArgSlot) : list OperandRole :=
  match slots with
  | [] => []
  | SlotAssignment :: slots' =>
      roles_from takes_paths script_first value_flags
        (if flag_value then seen_operand else true) false slots'
  | SlotWord arg :: slots' =>
      if flag_value then
        (if contains_char arg "$" || contains_char arg "`" then RolePath else RoleOther)
        :: roles_from takes_paths script_first value_flags seen_operand false slots'
      else if starts_with arg "-" && (1 <? len arg) then
        RoleOther
        :: roles_from takes_paths script_first value_flags seen_operand
             (str_mem arg value_flags) slots'
      else
        (if script_first && negb seen_operand then RoleScript
         else if takes_paths then RolePath else RoleOther)
        :: roles_from takes_paths script_first value_flags true false slots'
  end.

Definition operand_roles (program : string) (slots : list ArgSlot) : list OperandRole :=
  let base := basename program in
  let takes_paths := str_mem base PATH_OPERAND_PROGRAMS in
  let script_first :=
    str_mem base SCRIPT_FIRST_OPERAND_PROGRAMS
    && negb (existsb (fun slot => match slot with
                                  | SlotWord word => supplies_script word
                                  | SlotAssignment => false
                                  end) slots) in
  roles_from takes_paths script_first (separated_value_flags base) false false slots.

(** The words of a slot sequence, which line up with [argv[1..]]. *)
Fixpoint slot_words (slots : list ArgSlot) : list string :=
  match slots with
  | [] => []
  | SlotWord w :: slots' => w :: slot_words slots'
  | SlotAssignment :: slots' => slot_words slots'
  end.
