(* ===== verification/GlobSearch.v ===== *)
(** * Shell policy: the glob search is exact

    [spelled_more_than_globbed] of [crates/tidebreak-shell-policy/src/lib.rs] is
    a dynamic program over scores.  This file gives its declarative meaning, an
    alignment of a run of atoms with the whole marker ([aligned]), and proves
    that the program finds exactly the alignments of positive score. *)

From S2P Require Export ShellPaths.

Open Scope Z_scope.

(** [aligned atoms text score]: the atoms expand to [text]; each spelled
    character scores [1], each character a [*] supplies scores [-1]. *)
Inductive aligned : list GlobAtom -> list string -> Z -> Prop :=
| aligned_nil : aligned [] [] 0
| aligned_spelled c atoms text s :
    aligned atoms text s -> aligned (Spelled c :: atoms) (c :: text) (s + 1)
| aligned_one c atoms text s :
    aligned atoms text s -> aligned (AnyOne :: atoms) (c :: text) s
| aligned_run taken atoms text s :
    aligned atoms text s ->
    aligned (AnyRun :: atoms) (taken ++ text) (s - Z.of_nat (length taken)).

#[local] Hint Constructors aligned : core.

Lemma aligned_app atoms1 atoms2 text s :
  aligned (atoms1 ++ atoms2) text s <->
  exists text1 text2 s1 s2,
    text = text1 ++ text2 /\ s = s1 + s2 /\ aligned atoms1 text1 s1 /\ aligned atoms2 text2 s2.
Proof.
  split.
  - revert text s. induction atoms1 as [|a atoms1 IH]; intros text s H; cbn in H.
    + exists [], text, 0, s. split_and!; auto with lia.
    + inversion H as [|c ? text' s' H'|c ? text' s' H'|taken ? text' s' H']; subst;
        destruct (IH _ _ H') as (t1 & t2 & s1 & s2 & -> & -> & H1 & H2).
      * exists (c :: t1), t2, (s1 + 1), s2. split_and!; auto with lia.
      * exists (c :: t1), t2, s1, s2. split_and!; auto with lia.
      * exists (taken ++ t1), t2, (s1 - Z.of_nat (length taken)), s2.
        rewrite app_assoc. split_and!; auto with lia.
  - intros (t1 & t2 & s1 & s2 & -> & -> & H1 & H2). revert H2.
    induction H1 as [|c l t s _ IH|c l t s _ IH|tk l t s _ IH]; intros H2; cbn.
    + by rewrite Z.add_0_l.
    + replace (s + 1 + s2) with (s + s2 + 1) by lia. auto.
    + auto.
    + rewrite <- app_assoc.
      replace (s - Z.of_nat (length tk) + s2) with (s + s2 - Z.of_nat (length tk)) by lia. auto.
Qed.

Lemma aligned_empty_score atoms s : aligned atoms [] s -> s = 0.
Proof.
  intros H. remember [] as text eqn:E. revert E.
  induction H as [| | |taken atoms text s _ IH]; intros E; try done.
  apply app_eq_nil in E as [-> ->]. rewrite IH by done. done.
Qed.

Lemma aligned_single a t d :
  aligned [a] t d ->
  match a with
  | Spelled c => t = [c] /\ d = 1
  | AnyOne => length t = 1%nat /\ d = 0
  | AnyRun => d = - Z.of_nat (length t)
  end.
Proof.
  inversion 1 as [|? ? ? ? H0|? ? ? ? H0|? ? ? ? H0]; subst; inversion H0; subst.
  - done.
  - done.
  - rewrite app_nil_r. lia.
Qed.

(** ** Score tables *)
Definition cell (best : list (option Z)) (j : nat) : option Z := mjoin (best !! j).

(** [covers best j s]: slot [j] holds a score of at least [s]. *)
Definition covers (best : list (option Z)) (j : nat) (s : Z) : Prop :=
  exists s0, cell best j = Some s0 /\ s <= s0.

(** Every score the table holds satisfies [Q]. *)
Definition all_cells (Q : nat -> Z -> Prop) (best : list (option Z)) : Prop :=
  forall j s, cell best j = Some s -> Q j s.

Lemma relax_length best slot score : length (relax best slot score) = length best.
Proof. unfold relax. repeat case_match; rewrite ?length_insert; done. Qed.

Lemma cell_insert best slot v j :
  (slot < length best)%nat ->
  cell (<[slot := Some v]> best) j = if decide (j = slot) then Some v else cell best j.
Proof.
  intros Hlt. unfold cell. case_decide as E.
  - subst. by rewrite list_lookup_insert_eq.
  - by rewrite list_lookup_insert_ne.
Qed.

Lemma relax_all_cells Q best slot score :
  all_cells Q best -> Q slot score -> all_cells Q (relax best slot score).
Proof.
  intros HQ Hs j s. unfold relax.
  destruct (best !! slot) as [o|] eqn:E; [|apply HQ].
  assert (Hlt : (slot < length best)%nat) by (by apply lookup_lt_is_Some_1; eexists).
  destruct o as [cur|]; [case_match; [|apply HQ]|]; rewrite cell_insert by done;
    case_decide; intros; simplify_eq; auto.
Qed.

Lemma relax_covers_mono best slot score j s :
  covers best j s -> covers (relax best slot score) j s.
Proof.
  intros (s0 & Hc & Hle). unfold relax.
  destruct (best !! slot) as [o|] eqn:E; [|by exists s0].
  assert (Hlt : (slot < length best)%nat) by (by apply lookup_lt_is_Some_1; eexists).
  destruct o as [cur|].
  - destruct (Z.ltb_spec cur score); [|by exists s0].
    unfold covers. setoid_rewrite cell_insert; [|done]. case_decide; [|by exists s0].
    subst. unfold cell in Hc. rewrite E in Hc. cbn in Hc. simplify_eq.
    exists score. split; [done|lia].
  - unfold covers. setoid_rewrite cell_insert; [|done]. case_decide; [|by exists s0].
    subst. unfold cell in Hc. by rewrite E in Hc.
Qed.

Lemma relax_covers best slot score :
  (slot < length best)%nat -> covers (relax best slot score) slot score.
Proof.
  intros Hlt. unfold relax.
  destruct (lookup_lt_is_Some_2 _ _ Hlt) as [o E]. rewrite E.
  destruct o as [cur|]; [destruct (Z.ltb_spec cur score)|].
  - exists score. rewrite cell_insert by done. rewrite decide_True by done. split; [done|lia].
  - exists cur. unfold cell. rewrite E. split; [done|lia].
  - exists score. rewrite cell_insert by done. rewrite decide_True by done. split; [done|lia].
Qed.

(** Folding over a list that contains [x] establishes what [f _ x] does, when
    the other steps keep it. *)
Lemma foldl_establish {A B} (I Q : A -> Prop) (f : A -> B -> A) (l : list B) a x :
  I a -> (forall a y, I a -> I (f a y)) ->
  (forall a y, Q a -> Q (f a y)) -> (forall a, I a -> Q (f a x)) ->
  x ∈ l -> Q (foldl f a l).
Proof.
  intros Ha HI HQ Hx. revert a Ha. induction l as [|y l IH]; intros a Ha Hin; [set_solver|].
  cbn. apply elem_of_cons in Hin as [<-|Hin]; [|eauto].
  clear IH. assert (Hq : Q (f a x)) by eauto. revert Hq. generalize (f a x).
  induction l as [|z l IH]; cbn; eauto.
Qed.

Lemma foldl_invariant {A B} (I : A -> Prop) (f : A -> B -> A) (l : list B) a :
  I a -> (forall a y, y ∈ l -> I a -> I (f a y)) -> I (foldl f a l).
Proof.
  revert a. induction l as [|y l IH]; intros a Ha HI; [done|]. cbn.
  apply IH; [apply HI; [left|done] | intros; apply HI; [by right|done]].
Qed.

Section Search.
Variable marker : list string.
#[local] Notation n := (length marker).

(** [reach done j s]: some run of the atoms seen so far expands to the first
    [j] characters of the marker with score [s]; the run ends at the last atom
    seen, unless the marker is complete. *)
Definition reach (done : list GlobAtom) (j : nat) (s : Z) : Prop :=
  exists pre mid post, done = pre ++ mid ++ post /\ aligned mid (take j marker) s /\
    (post = [] \/ j = n).

Definition seeded (best : list (option Z)) : list (option Z) := <[0%nat := Some 0]> best.

(** The loop invariant of the search. *)
Record tracks (done : list GlobAtom) (best : list (option Z)) : Prop := {
  tracks_length : length best = S n;
  tracks_sound : all_cells (fun j s => (j <= n)%nat /\ reach done j s) best;
  tracks_complete : forall j s, (j <= n)%nat -> reach done j s -> covers (seeded best) j s
}.

Lemma reach_zero done : reach done 0 0.
Proof. exists done, [], []. rewrite !app_nil_r, take_0. auto. Qed.

Lemma reach_extend done a j k s d :
  (j < n)%nat -> (j + k <= n)%nat ->
  reach done j s -> aligned [a] (take k (drop j marker)) d -> reach (done ++ [a]) (j + k) (s + d).
Proof.
  intros Hj Hk (pre & mid & post & -> & Hmid & [-> | ->]) Ha; [|lia].
  exists pre, (mid ++ [a]), []. rewrite !app_nil_r, !app_assoc. split_and!; auto.
  apply aligned_app. exists (take j marker), (take k (drop j marker)), s, d.
  split_and!; auto. symmetry. apply take_take_drop.
Qed.

Lemma reach_carry done a s : reach done n s -> reach (done ++ [a]) n s.
Proof.
  intros (pre & mid & post & -> & Hmid & _). exists pre, mid, (post ++ [a]).
  rewrite <- !app_assoc. auto.
Qed.

(** What a run of the extended list was before the last atom. *)
Lemma reach_snoc done a j s :
  (j <= n)%nat -> reach (done ++ [a]) j s ->
  (j = 0%nat /\ s = 0) \/ (j = n /\ reach done n s) \/
  exists i k s0 d, j = (i + k)%nat /\ s = s0 + d /\ reach done i s0 /\
    aligned [a] (take k (drop i marker)) d.
Proof.
  intros Hj (pre & mid & post & E & Hmid & Hpost).
  destruct post as [|p post _] using rev_ind.
  - rewrite app_nil_r in E. destruct mid as [|m mid _] using rev_ind.
    + left. inversion Hmid as [E0| | |]; subst. split; [|done].
      destruct j; [done|]. destruct marker; cbn in *; [lia|done].
    + right; right. rewrite app_assoc in E. apply app_inj_tail in E as [-> ->].
      apply aligned_app in Hmid as (t1 & t2 & s1 & s2 & Et & -> & H1 & H2).
      exists (length t1), (length t2), s1, s2.
      assert (Hlen : (length t1 + length t2 = j)%nat).
      { rewrite <- length_app, <- Et, length_take. lia. }
      assert (E1 : take (length t1) marker = t1).
      { transitivity (take (length t1) (take j marker)).
        - rewrite take_take. f_equal. lia.
        - rewrite Et. by rewrite take_app_length. }
      assert (E2 : take (length t2) (drop (length t1) marker) = t2).
      { transitivity (drop (length t1) (take j marker)).
        - rewrite <- Hlen. by rewrite take_drop_commute.
        - rewrite Et. by rewrite drop_app_length. }
      split_and!; [lia|done| |by rewrite E2].
      exists pre, mid, []. rewrite app_nil_r, E1. auto.
  - right; left. rewrite !app_assoc in E. apply app_inj_tail in E as [-> ->].
    destruct Hpost as [E0 | ->]; [by destruct post|]. split; [done|].
    exists pre, mid, post. rewrite app_assoc. auto.
Qed.

Lemma reach_empty done s : reach done 0 s -> s = 0.
Proof.
  intros (pre & mid & post & _ & Hmid & _). rewrite take_0 in Hmid.
  by apply aligned_empty_score in Hmid.
Qed.

Lemma seeded_cell best j :
  length best = S n -> cell (seeded best) j = if decide (j = 0%nat) then Some 0 else cell best j.
Proof. intros Hlen. apply cell_insert. lia. Qed.

Lemma step_at_length a sb next j : length (step_at marker a sb next j) = length next.
Proof.
  unfold step_at. destruct (sb !! j) as [[score|]|]; [|done|done].
  destruct a as [c| |].
  - repeat case_match; rewrite ?relax_length; done.
  - apply relax_length.
  - generalize (seq 0 (S (n - j))). intros l. revert next.
    induction l as [|t l IH]; intros next; [done|]. cbn. by rewrite IH, relax_length.
Qed.

Lemma take_one_drop j c : marker !! j = Some c -> take 1 (drop j marker) = [c].
Proof. intros E. rewrite (drop_S marker c j) by done. done. Qed.

(** Slot [j] of the table before the atom yields only sound scores. *)
Lemma step_at_sound done a sb next j :
  (j < n)%nat -> all_cells (fun j s => (j <= n)%nat /\ reach done j s) sb ->
  all_cells (fun j s => (j <= n)%nat /\ reach (done ++ [a]) j s) next ->
  all_cells (fun j s => (j <= n)%nat /\ reach (done ++ [a]) j s) (step_at marker a sb next j).
Proof.
  intros Hj Hsb Hnext. unfold step_at. destruct (sb !! j) as [[score|]|] eqn:E; [|done|done].
  assert (Hr : reach done j score) by (apply Hsb; unfold cell; by rewrite E).
  destruct a as [c| |].
  - destruct (marker !! j) as [m|] eqn:Em; [|done].
    destruct (String.eqb_spec c m) as [->|]; [|done].
    apply relax_all_cells; [done|]. split; [lia|].
    apply reach_extend; [lia|lia|done|]. rewrite (take_one_drop _ _ Em).
    apply (aligned_spelled m [] [] 0). constructor.
  - apply relax_all_cells; [done|]. split; [lia|].
    rewrite <- (Z.add_0_r score). apply reach_extend; [lia|lia|done|].
    destruct (lookup_lt_is_Some_2 marker j Hj) as [m Em]. rewrite (take_one_drop _ _ Em).
    repeat constructor.
  - apply foldl_invariant; [done|]. intros nx taken Ht Hnx. apply elem_of_seq in Ht.
    apply relax_all_cells; [done|]. split; [lia|].
    replace (score - Z.of_nat taken) with (score + (0 - Z.of_nat taken)) by lia.
    apply reach_extend; [lia|lia|done|].
    replace taken with (length (take taken (drop j marker))) at 2
      by (rewrite length_take, length_drop; lia).
    rewrite <- (app_nil_r (take taken _)) at 1. apply aligned_run. constructor.
Qed.

Lemma step_at_mono a sb next j i s :
  covers next i s -> covers (step_at marker a sb next j) i s.
Proof.
  intros Hc. unfold step_at. destruct (sb !! j) as [[score|]|]; [|done|done].
  destruct a as [c| |].
  - repeat case_match; auto using relax_covers_mono.
  - by apply relax_covers_mono.
  - apply foldl_invariant; [done|]. intros. by apply relax_covers_mono.
Qed.

(** Slot [j] of the table before the atom yields every extension of its score. *)
Lemma step_at_establish a sb next j k s d :
  length next = S n -> (j < n)%nat -> (j + k <= n)%nat ->
  covers sb j s -> aligned [a] (take k (drop j marker)) d ->
  covers (step_at marker a sb next j) (j + k) (s + d).
Proof.
  intros Hlen Hj Hk (s0 & Hc & Hs) Ha. unfold step_at, cell in *.
  destruct (sb !! j) as [[score|]|]; cbn in Hc; simplify_eq.
  assert (Htk : length (take k (drop j marker)) = k) by (rewrite length_take, length_drop; lia).
  assert (Hw : forall best i x y, x <= y -> covers best i y -> covers best i x).
  { intros best i x y Hxy (z & Hz & Hyz). exists z. split; [done|lia]. }
  apply aligned_single in Ha. destruct a as [c| |].
  - destruct Ha as [E ->]. rewrite E in Htk. cbn in Htk. subst k.
    destruct (lookup_lt_is_Some_2 marker j Hj) as [m Em]. rewrite Em.
    rewrite (take_one_drop _ _ Em) in E. simplify_eq. rewrite String.eqb_refl.
    eapply Hw; [|apply relax_covers; lia]. lia.
  - destruct Ha as [E ->]. rewrite E in Htk. subst k.
    eapply Hw; [|apply relax_covers; lia]. lia.
  - subst d. rewrite Htk.
    apply (foldl_establish (fun nx => length nx = S n)) with (x := k); [done| | | |].
    + intros nx t Hnx. by rewrite relax_length.
    + intros nx t. apply relax_covers_mono.
    + intros nx Hnx. eapply Hw; [|apply relax_covers; lia]. lia.
    + apply elem_of_seq. lia.
Qed.

Lemma step_atom_tracks done best a :
  tracks done best -> tracks (done ++ [a]) (step_atom marker best a).
Proof.
  intros [Hlen Hsound Hcomplete]. unfold step_atom. fold (seeded best).
  set (sb := seeded best) in *.
  assert (Hsb : all_cells (fun j s => (j <= n)%nat /\ reach done j s) sb).
  { intros j s. unfold sb. rewrite seeded_cell by done. case_decide; [|apply Hsound].
    intros. simplify_eq. split; [lia|]. apply reach_zero. }
  set (next := foldl (step_at marker a sb) (replicate (S n) None) (seq 0 n)).
  assert (Hnlen : length next = S n).
  { apply (foldl_invariant (fun nx => length nx = S n)); [by rewrite length_replicate|].
    intros. by rewrite step_at_length. }
  assert (Hnsound : all_cells (fun j s => (j <= n)%nat /\ reach (done ++ [a]) j s) next).
  { apply foldl_invariant.
    - intros j s. unfold cell. destruct (replicate _ _ !! j) eqn:E; [|done].
      apply lookup_replicate in E as [-> _]. done.
    - intros nx j Hj. apply elem_of_seq in Hj. apply step_at_sound; [lia|done]. }
  set (out := match sb !! n with Some (Some score) => relax next n score | _ => next end).
  assert (Hmono : forall j s, covers next j s -> covers out j s).
  { intros j s Hc. unfold out. repeat case_match; auto using relax_covers_mono. }
  assert (Holen : length out = S n) by (unfold out; repeat case_match; by rewrite ?relax_length).
  assert (Hcarry : forall s, covers sb n s -> covers out n s).
  { intros s (s0 & Hc & Hle). unfold out, cell in *.
    destruct (sb !! n) as [[score|]|]; cbn in Hc; simplify_eq.
    destruct (relax_covers next n s0) as (s1 & ? & ?); [lia|]. exists s1. split; [done|lia]. }
  split; [done| |].
  - unfold out. destruct (sb !! n) as [[score|]|] eqn:E; [|done|done].
    apply relax_all_cells; [done|]. split; [done|].
    apply reach_carry, Hsb. unfold cell. by rewrite E.
  - intros j s Hj Hr.
    destruct (decide (j = 0%nat)) as [->|Hj0].
    { rewrite (reach_empty _ _ Hr). exists 0. rewrite seeded_cell by done. done. }
    assert (Hout : covers out j s).
    { destruct (reach_snoc _ _ _ _ Hj Hr) as
        [[-> _]|[[-> Hr']|(i & k & s0 & d & -> & -> & Hr' & Ha)]]; [done| |].
      - by apply Hcarry, Hcomplete.
      - destruct (decide (i = n)) as [->|Hi].
        + assert (k = 0%nat) as -> by lia. rewrite take_0 in Ha.
          apply aligned_empty_score in Ha as ->. rewrite Z.add_0_r, Nat.add_0_r.
          by apply Hcarry, Hcomplete.
        + apply Hmono, (foldl_establish (fun nx => length nx = S n)) with (x := i).
          * by rewrite length_replicate.
          * intros. by rewrite step_at_length.
          * intros nx y. apply step_at_mono.
          * intros nx Hnx. apply step_at_establish; [done|lia|lia| |done].
            apply Hcomplete; [lia|done].
          * apply elem_of_seq. lia. }
    destruct Hout as (s0 & Hc & Hle). exists s0. rewrite seeded_cell by done.
    by rewrite decide_False.
Qed.

Lemma completed_true best :
  completed marker best = true <-> exists s, cell best n = Some s /\ 0 < s.
Proof.
  unfold completed, cell. destruct (best !! n) as [[s|]|]; cbn; rewrite ?Z.ltb_lt; naive_solver.
Qed.

(** An alignment with the whole marker somewhere in the atoms. *)
Definition occurs (atoms : list GlobAtom) : Prop :=
  exists pre mid post s, atoms = pre ++ mid ++ post /\ aligned mid marker s /\ 0 < s.

Lemma reach_occurs atoms s : reach atoms n s -> 0 < s -> occurs atoms.
Proof.
  intros (pre & mid & post & -> & Hmid & _) Hs. rewrite take_ge in Hmid by lia.
  by exists pre, mid, post, s.
Qed.

Lemma occurs_app atoms rest : occurs atoms -> occurs (atoms ++ rest).
Proof.
  intros (pre & mid & post & s & -> & Hmid & Hs). exists pre, mid, (post ++ rest), s.
  by rewrite <- !app_assoc.
Qed.

Lemma aligned_positive atoms text s :
  aligned atoms text s -> 0 < s -> (0 < length text)%nat.
Proof.
  intros Ha Hs. destruct text; [|cbn; lia]. apply aligned_empty_score in Ha. lia.
Qed.

Lemma tracks_completed done best :
  tracks done best -> completed marker best = true <-> occurs done.
Proof.
  intros [Hlen Hsound Hcomplete]. rewrite completed_true. split.
  - intros (s & Hc & Hs). apply (reach_occurs _ s); [by apply Hsound|done].
  - intros (pre & mid & post & s & -> & Hmid & Hs). pose proof (aligned_positive _ _ _ Hmid Hs).
    destruct (Hcomplete n s) as (s0 & Hc & Hle); [lia| |].
    + exists pre, mid, post. rewrite take_ge by lia. auto.
    + rewrite seeded_cell, decide_False in Hc by (done || lia). exists s0. split; [done|lia].
Qed.

Lemma tracks_nil : tracks [] (replicate (S n) None).
Proof.
  split; [by rewrite length_replicate| |].
  - intros j s. unfold cell. destruct (replicate _ _ !! j) eqn:E; [|done].
    apply lookup_replicate in E as [-> _]. done.
  - intros j s Hj (pre & mid & post & E & Hmid & _).
    destruct pre, mid, post; try done.
    destruct j as [|j].
    + rewrite take_0 in Hmid. rewrite (aligned_empty_score _ _ Hmid). exists 0.
      by rewrite seeded_cell by (by rewrite length_replicate).
    + exfalso. destruct marker; cbn in *; [lia|]. inversion Hmid.
Qed.

Lemma scan_atoms_occurs atoms : forall done best,
  tracks done best -> scan_atoms marker best atoms = true <-> occurs (done ++ atoms).
Proof.
  induction atoms as [|a atoms IH]; intros done best Ht; cbn.
  - rewrite app_nil_r. by apply tracks_completed.
  - pose proof (step_atom_tracks _ _ a Ht) as Ht'.
    replace (done ++ a :: atoms) with ((done ++ [a]) ++ atoms) by (by rewrite <- app_assoc).
    case_match eqn:E; [|by apply IH].
    split; [|done]. intros _. apply occurs_app.
    by apply (tracks_completed _ _ Ht').
Qed.
End Search.

(** the search of [spelled_more_than_globbed] is exact: it answers [true]
    exactly when some contiguous run of the token's atoms expands to the whole
    marker while spelling out more of its characters than a [*] supplies. *)
Lemma spelled_more_than_globbed_exact (atoms : list GlobAtom) (marker : list string) :
  spelled_more_than_globbed atoms marker = true <->
  exists pre mid post s,
    atoms = pre ++ mid ++ post /\ aligned mid marker s /\ 0 < s.
Proof. apply (scan_atoms_occurs marker atoms []), tracks_nil. Qed.
