(* ===== verification/PathFacts.v ===== *)
(** * Shell policy: what [normpath] and [climbs_out] compute

    [normpath] of [crates/tidebreak-shell-policy/src/lib.rs] is shown to be
    idempotent, and [climbs_out] to hold exactly when a relative path, read
    segment by segment, steps above the directory it starts in. *)

From S2P Require Export ShellPaths.

(** Walking the segments of a relative path from directory depth [d]: does the
    walk ever step above depth zero? *)
Fixpoint escapes (d : nat) (segments : list string) : bool :=
  match segments with
  | [] => false
  | s :: rest =>
      if String.eqb s "" || String.eqb s "." then escapes d rest
      else if String.eqb s ".." then
        match d with O => true | S d' => escapes d' rest end
      else escapes (S d) rest
  end.

(** A segment [normpath] keeps and that names a directory entry. *)
Record proper (s : string) : Prop := {
  proper_nonempty : s <> "";
  proper_not_dot : s <> ".";
  proper_not_dotdot : s <> "..";
  proper_free : free_of "/" s
}.

Lemma step_skip b parts s : s = "" \/ s = "." -> normpath_step b parts s = parts.
Proof. by intros [-> | ->]. Qed.

Lemma step_keep b parts s : proper s -> normpath_step b parts s = parts ++ [s].
Proof.
  intros [H1 H2 H3 _]. unfold normpath_step.
  by rewrite !(proj2 (String.eqb_neq _ _)) by done.
Qed.

Lemma segment_cases s :
  free_of "/" s -> (s = "" \/ s = ".") \/ s = ".." \/ proper s.
Proof.
  intros Hf. destruct (decide (s = "")); [by left; left|].
  destruct (decide (s = ".")); [by left; right|].
  destruct (decide (s = "..")); [by right; left|]. by right; right.
Qed.

Lemma removelast_snoc {A} (l : list A) x : removelast (l ++ [x]) = l.
Proof. apply removelast_last. Qed.

(** ** Relative paths: [k] times [..], then names *)
Definition dotdots (k : nat) : list string := replicate k "..".
Definition positive (k : nat) : bool := match k with O => false | S _ => true end.

Lemma step_dotdot_names k names x :
  proper x -> normpath_step false (dotdots k ++ names ++ [x]) ".." = dotdots k ++ names.
Proof.
  intros Hx. unfold normpath_step. cbn [String.eqb orb].
  rewrite app_assoc, last_snoc, removelast_snoc.
  destruct Hx as [_ _ Hx _]. rewrite (proj2 (String.eqb_neq x "..")) by done.
  by destruct (dotdots k ++ names).
Qed.

Lemma step_dotdot_bare k : normpath_step false (dotdots k) ".." = dotdots (S k).
Proof.
  unfold dotdots. rewrite (replicate_S_end k). destruct k as [|k]; [done|].
  unfold normpath_step. rewrite (replicate_S_end k), last_snoc.
  by rewrite <- (replicate_S_end k).
Qed.

#[local] Arguments normpath_step : simpl never.

Lemma fold_relative segs : forall k names,
  Forall proper names -> Forall (free_of "/") segs ->
  exists k' names',
    foldl (normpath_step false) (dotdots k ++ names) segs = dotdots k' ++ names'
    /\ Forall proper names' /\ positive k' = positive k || escapes (length names) segs.
Proof.
  induction segs as [|s segs IH]; intros k names Hn Hs; cbn.
  { exists k, names. split_and!; [done..|]. by rewrite orb_false_r. }
  inversion Hs as [|? ? Hf Hs']; subst. clear Hs.
  destruct (segment_cases s Hf) as [Hskip|[->|Hp]].
  - rewrite step_skip by done. destruct Hskip as [-> | ->]; cbn; by apply IH.
  - cbn. destruct names as [|x names _] using rev_ind; cbn.
    + rewrite app_nil_r, step_dotdot_bare.
      destruct (IH (S k) [] Hn Hs') as (k' & names' & E & Hn' & Hk).
      rewrite app_nil_r in E. exists k', names'. split_and!; [done..|].
      by rewrite Hk, orb_true_r.
    + apply Forall_app in Hn as [Hn Hx]. inversion Hx; subst.
      rewrite step_dotdot_names, length_app, Nat.add_1_r by done. by apply IH.
  - rewrite step_keep, <- app_assoc by done.
    assert (Hn1 : Forall proper (names ++ [s])) by (apply Forall_app; auto).
    destruct (IH k (names ++ [s]) Hn1 Hs') as (k' & names' & E & Hn' & Hk).
    exists k', names'. split_and!; [done..|]. rewrite Hk, length_app, Nat.add_1_r.
    destruct Hp as [H1 H2 H3 _]. by rewrite !(proj2 (String.eqb_neq _ _)) by done.
Qed.

(** ** Absolute paths: names only *)
Lemma fold_absolute segs : forall names,
  Forall proper names -> Forall (free_of "/") segs ->
  Forall proper (foldl (normpath_step true) names segs).
Proof.
  induction segs as [|s segs IH]; intros names Hn Hs; cbn; [done|].
  inversion Hs as [|? ? Hf Hs']; subst. apply IH; [|done].
  destruct (segment_cases s Hf) as [Hskip|[->|Hp]].
  - by rewrite step_skip.
  - unfold normpath_step. cbn.
    destruct names as [|x names _] using rev_ind; [done|]. rewrite removelast_snoc. by apply Forall_app in Hn as [? _].
  - rewrite step_keep by done. apply Forall_app; auto.
Qed.

Lemma dotdots_free k : Forall (free_of "/") (dotdots k).
Proof. induction k; by constructor. Qed.

Lemma proper_all_free names : Forall proper names -> Forall (free_of "/") names.
Proof. intros Hn. eapply Forall_impl; [exact Hn|]. by intros s []. Qed.

Lemma foldl_keep b names : forall acc,
  Forall proper names -> foldl (normpath_step b) acc names = acc ++ names.
Proof.
  induction names as [|s names IH]; intros acc Hn; cbn; [by rewrite app_nil_r|].
  inversion Hn; subst. by rewrite step_keep, IH, <- app_assoc by done.
Qed.

Lemma foldl_dotdots k : forall j,
  foldl (normpath_step false) (dotdots j) (dotdots k) = dotdots (j + k).
Proof.
  induction k as [|k IH]; intros j; [by rewrite Nat.add_0_r|].
  change (dotdots (S k)) with (".." :: dotdots k). cbn [foldl].
  by rewrite step_dotdot_bare, IH, Nat.add_succ_comm.
Qed.

Lemma foldl_canonical k names :
  Forall proper names ->
  foldl (normpath_step false) [] (dotdots k ++ names) = dotdots k ++ names.
Proof.
  intros Hn. rewrite foldl_app. change [] with (dotdots 0).
  by rewrite foldl_dotdots, foldl_keep by done.
Qed.

(** The text of a joined path shows its first segment and nothing before it. *)
Lemma climbs_joined s l :
  Forall (free_of "/") (s :: l) ->
  String.eqb (join "/" (s :: l)) ".." || starts_with (join "/" (s :: l)) "../"
  = String.eqb s "..".
Proof.
  intros Hf. assert (Hs := split_join "/" (s :: l) Hf ltac:(done)).
  apply eq_true_iff_eq. rewrite orb_true_iff, starts_with_true, !String.eqb_eq. split.
  - intros [E | [rest E]].
    + rewrite E in Hs. by injection Hs as <- _.
    + rewrite E in Hs. change ("../" +:+ rest) with (".." +:+ String "/" rest) in Hs.
      rewrite (split_app ".." "/" rest) in Hs by done. by injection Hs as <- _.
  - intros ->. destruct l as [|y l]; [by left|]. right. by exists (join "/" (y :: l)).
Qed.

Lemma join_proper_head s l :
  s <> "" -> is_empty (join "/" (s :: l)) = false.
Proof. destruct s as [|a s]; [done|]. by destruct l. Qed.

Lemma join_no_slash s l :
  s <> "" -> free_of "/" s -> starts_with (join "/" (s :: l)) "/" = false.
Proof.
  destruct s as [|a s]; [done|]. intros _ Hf. apply free_of_cons in Hf as [Ha _].
  apply not_true_iff_false. rewrite starts_with_true. intros [rest E].
  apply Ha. destruct l; by injection E.
Qed.

Lemma canonical_head k names s l :
  Forall proper names -> dotdots k ++ names = s :: l -> s <> "" /\ free_of "/" s.
Proof.
  intros Hn E. destruct k as [|k]; cbn in E.
  - subst. by inversion Hn as [|? ? []]; subst.
  - by injection E as <- _.
Qed.

(** What [normpath] does to a relative path: the canonical segments, joined. *)
Lemma normpath_relative path :
  starts_with path "/" = false -> exists k names,
    Forall proper names
    /\ normpath path = match dotdots k ++ names with [] => "." | l => join "/" l end
    /\ positive k = escapes 0 (split path "/").
Proof.
  intros Hrel. destruct (is_empty path) eqn:Hemp.
  { destruct path; [|done]. exists 0, []. by repeat constructor. }
  destruct (fold_relative (split path "/") 0 [] ltac:(done) (split_all_free _ _))
    as (k & names & E & Hn & Hk).
  exists k, names. split_and!; [done| |by rewrite Hk].
  unfold normpath. rewrite Hemp, Hrel. cbn in E. rewrite E.
  destruct (dotdots k ++ names) as [|s l] eqn:Hl; [done|].
  destruct (canonical_head _ _ _ _ Hn Hl). by rewrite join_proper_head.
Qed.

(** What [normpath] does to an absolute path: one or two slashes, then names. *)
Lemma normpath_absolute path :
  starts_with path "/" = true -> exists double names,
    Forall proper names
    /\ normpath path = (if double : bool then "//" else "/") +:+ join "/" names.
Proof.
  intros Habs. assert (Hemp : is_empty path = false) by (by destruct path).
  exists (starts_with path "//" && negb (starts_with path "///")),
    (foldl (normpath_step true) [] (split path "/")).
  split; [apply fold_absolute; [done | apply split_all_free]|].
  unfold normpath. by rewrite Hemp, Habs.
Qed.

(** Reading back an absolute canonical path. *)
Lemma split_rooted names :
  Forall proper names ->
  foldl (normpath_step true) [] (split (join "/" names) "/") = names.
Proof.
  intros Hn. destruct names as [|s l]; [done|].
  rewrite split_join by (by try apply proper_all_free). by rewrite foldl_keep.
Qed.

Lemma join_names_no_slash names :
  Forall proper names -> starts_with (join "/" names) "/" = false.
Proof.
  destruct names as [|s l]; [done|]. intros Hn. inversion Hn as [|? ? []]; subst.
  by apply join_no_slash.
Qed.

Lemma normpath_double names :
  Forall proper names -> normpath ("//" +:+ join "/" names) = "//" +:+ join "/" names.
Proof.
  intros Hn. unfold normpath, starts_with. cbn.
  pose proof (join_names_no_slash names Hn) as Hs. unfold starts_with in Hs. cbn in Hs.
  rewrite ?Hs. cbn. rewrite ?strip_prefix_nil. cbn. rewrite !step_skip by auto.
  by rewrite split_rooted.
Qed.

Lemma normpath_single names :
  Forall proper names -> normpath ("/" +:+ join "/" names) = "/" +:+ join "/" names.
Proof.
  intros Hn. unfold normpath, starts_with. cbn.
  pose proof (join_names_no_slash names Hn) as Hs. unfold starts_with in Hs. cbn in Hs.
  rewrite ?Hs. cbn. rewrite ?strip_prefix_nil. cbn. rewrite !step_skip by auto.
  by rewrite split_rooted.
Qed.

Lemma normpath_canonical k names :
  Forall proper names -> dotdots k ++ names <> [] ->
  normpath (join "/" (dotdots k ++ names)) = join "/" (dotdots k ++ names).
Proof.
  intros Hn Hne. destruct (dotdots k ++ names) as [|s l] eqn:Hl; [done|].
  destruct (canonical_head _ _ _ _ Hn Hl) as [Hs1 Hs2].
  unfold normpath. rewrite join_proper_head, join_no_slash by done. rewrite split_join; [|..|done].
  - rewrite <- Hl, foldl_canonical by done. by rewrite Hl, join_proper_head.
  - rewrite <- Hl. apply Forall_app. split; [apply dotdots_free | by apply proper_all_free].
Qed.

(** ** The two properties *)

(** [climbs_out] is exactly the lexical escape: an absolute path never
    climbs out, and a relative one does when reading its segments left to right
    some [..] is met with no directory left to leave. *)
Lemma climbs_out_spec path :
  climbs_out path = negb (starts_with path "/") && escapes 0 (split path "/").
Proof.
  destruct (starts_with path "/") eqn:Hroot; cbn [negb andb]; unfold climbs_out.
  - destruct (normpath_absolute path Hroot) as ([|] & names & _ & ->); done.
  - destruct (normpath_relative path Hroot) as (k & names & Hn & -> & <-).
    destruct (dotdots k ++ names) as [|s l] eqn:Hl; [by destruct k|].
    assert (Hf : Forall (free_of "/") (s :: l)).
    { rewrite <- Hl. apply Forall_app. split; [apply dotdots_free | by apply proper_all_free]. }
    rewrite climbs_joined by done. destruct k as [|k].
    + cbn in Hl. subst. inversion Hn as [|? ? []]; subst. by apply String.eqb_neq.
    + by injection Hl as <- _.
Qed.

(** Normalising a path twice is normalising it once, so the second spelling
    [hits_sensitive] searches is a fixed point of the normalisation. *)
Lemma normpath_idempotent path : normpath (normpath path) = normpath path.
Proof.
  destruct (starts_with path "/") eqn:Hroot.
  - destruct (normpath_absolute path Hroot) as ([|] & names & Hn & ->).
    + by apply normpath_double.
    + by apply normpath_single.
  - destruct (normpath_relative path Hroot) as (k & names & Hn & -> & _).
    destruct (dotdots k ++ names) as [|s l] eqn:Hl; [done|].
    rewrite <- Hl. apply normpath_canonical; [done|]. by rewrite Hl.
Qed.
