(* ===== verification/ShellPrograms.v ===== *)
(** * Shell policy: program and assignment classification

    The predicates of [crates/tidebreak-shell-policy/src/lib.rs] that classify
    a program with its arguments ([is_execution_enabling], [is_destructive],
    [is_exact_only], [runs_supplied_code]), an environment assignment
    ([assignment_is_dangerous]) and a raw command line
    ([has_obfuscated_construct], [count_substitution_markers]).

    The [fancy_regex] engine is an operation of the class [RegexEngine]: a
    pattern, given as its source text, and a subject give a verdict, or [None]
    when the engine fails (its backtracking limit). *)

From S2P Require Export ShellPaths.

Class RegexEngine := { regex_is_match : string -> string -> option bool }.

(** [re.is_match(s).unwrap_or(true)] *)
Definition is_match_or_true `{RegexEngine} (pattern subject : string) : bool :=
  match regex_is_match pattern subject with Some b => b | None => true end.

(** ** Lexical backstops *)
Definition brace_expansion_re : string := "\{[^{}]*(?:,|\.\.)[^{}]*\}".
Definition unresolvable_program_re : string := "[*?]|\[[^\]]*\]".
Definition setuid_octal_re : string := "^[4267][0-7]{3}$".

Definition has_obfuscated_construct `{RegexEngine} (raw : string) : bool :=
  contains raw "$'" || contains raw "=(" || is_match_or_true brace_expansion_re raw.

Definition count_substitution_markers (raw : string) : nat :=
  let dollar_paren := matches_count raw "$(" - matches_count raw "$((" in
  let backticks := Nat.div (matches_count raw "`") 2 in
  let proc_sub := matches_count raw "<(" + matches_count raw ">(" in
  dollar_paren + backticks + proc_sub.

(** ** Runtime normalization *)
Definition is_version (rest : string) : bool :=
  negb (is_empty rest) && str_all (fun c => is_ascii_digit c || Ascii.eqb c ".") rest.

Definition normalize_runtime (base : string) : string :=
  if String.eqb base "nodejs" then "node"
  else if str_mem base ["pypy"; "pypy3"] then "python"
  else if match strip_prefix base "pypy" with Some rest => is_version rest | None => false end
  then "python"
  else match find_map (fun stem =>
                if String.eqb base stem then Some stem
                else match strip_prefix base stem with
                     | Some rest => when (is_version rest) stem
                     | None => None
                     end) RUNTIME_STEMS with
       | Some stem => stem
       | None => base
       end.

(** ** Flag parsing *)
Definition nth_or_default (args : list string) (i : nat) : string :=
  match args !! i with Some a => a | None => "" end.

Definition long_flag_value (args : list string) (i : nat) (arg lf : string) : option string :=
  if String.eqb arg lf then Some (nth_or_default args (i + 1))
  else strip_prefix arg (lf +:+ "=").

Definition short_flag_value (args : list string) (i : nat) (arg sf : string) : option string :=
  if String.eqb arg sf then Some (nth_or_default args (i + 1))
  else if starts_with arg sf && (len sf <? len arg) then Some (str_drop (len sf) arg)
  else None.

Definition flag_value (args : list string) (flags : list string) : option string :=
  let longs := List.filter (fun f => starts_with f "--") flags in
  let shorts := List.filter (fun f => negb (starts_with f "--")) flags in
  find_map (fun '(i, arg) =>
      or_else (find_map (long_flag_value args i arg) longs)
        (if starts_with arg "--" then None
         else find_map (short_flag_value args i arg) shorts))
    (imap pair args).

(** ** Environment assignments *)
Definition env_value_names_path (value : string) : bool :=
  starts_with value "/" || starts_with value "./" || starts_with value "../"
  || starts_with value "~" || contains_char value "/".

Definition env_value_injects (value : string) : bool :=
  existsb (fun flag => contains value flag) ENV_INJECT_FLAGS.

Definition assignment_is_dangerous (name value : string) : bool :=
  if str_mem name ALWAYS_DANGEROUS_ENV
     || existsb (fun p => starts_with name p) ALWAYS_DANGEROUS_ENV_PREFIXES
     || existsb (fun m => contains name m) ALWAYS_DANGEROUS_ENV_MARKERS
  then true
  else if str_mem name PROGRAM_VALUED_ENV
          || ends_with name "_WRAPPER"
          || (starts_with name "CARGO_TARGET_" && ends_with name "_RUNNER")
  then env_value_names_path value || env_value_injects value
  else if str_mem name OPTION_BAG_ENV
          || ends_with name "FLAGS" || ends_with name "_OPTS" || ends_with name "_OPTIONS"
  then env_value_injects value
  else false.

(** ** Sed scripts *)
Definition sed_addr : string := "(?:[0-9$+~,!\s]|/(?:\\/|[^/\n])*/|\\(.)(?:\\.|[^\n])*?\1)*".
Definition sed_exec_re : string := "(?:^|[;{}\n])" +:+ sed_addr +:+ "e(?:\s|$|;|\})".
Definition sed_write_re : string := "(?:^|[;{}\n])" +:+ sed_addr +:+ "[wW]\s*\S".
Definition sed_subst_exec_re : string := "s(\S).*?\1.*?\1[a-zA-Z0-9]*e".
Definition sed_subst_write_re : string := "s(\S).*?\1.*?\1[a-zA-Z0-9]*[wW]\s*\S".

Section Regex.
Context `{UnicodeLower, RegexEngine}.

Definition sed_script_is_dangerous (script : string) : bool :=
  is_match_or_true sed_exec_re script
  || is_match_or_true sed_write_re script
  || is_match_or_true sed_subst_exec_re script
  || is_match_or_true sed_subst_write_re script.

(** One argument of the loop of [sed_command_is_dangerous]. *)
Definition sed_arg_is_dangerous (arg : string) : bool :=
  match strip_prefix arg "--" with
  | Some rest =>
      let long := "--" +:+ rest in
      if String.eqb long "--file" || starts_with long "--file=" then true
      else match strip_prefix long "--expression=" with
           | Some script => sed_script_is_dangerous script
           | None => false
           end
  | None =>
      match strip_prefix arg "-" with
      | Some after_dash =>
          let e := find after_dash "e" in
          let flags := match e with
                       | Some idx => str_take idx after_dash
                       | None => after_dash
                       end in
          if contains_char flags "f" then true
          else match e with
               | Some idx =>
                   let script := str_drop (idx + 1) after_dash in
                   negb (is_empty script) && sed_script_is_dangerous script
               | None => false
               end
      | None => sed_script_is_dangerous arg
      end
  end.

Definition sed_command_is_dangerous (args : list string) : bool :=
  existsb sed_arg_is_dangerous args.

Definition git_config_key_is_dangerous (arg_lower : string) : bool :=
  existsb (fun k => starts_with arg_lower k) DANGEROUS_GIT_CONFIG_KEYS.

(** ** Argument tests shared by the two escalations *)
Definition any_arg (args needles : list string) : bool :=
  existsb (fun a => str_mem a needles) args.
Definition any_prefix (args prefixes : list string) : bool :=
  existsb (fun a => existsb (fun pre => starts_with a pre) prefixes) args.
Definition short_bundle_has (args : list string) (letters : list ascii) : bool :=
  existsb (fun a => starts_with a "-" && negb (starts_with a "--")
                    && existsb (fun c => contains_char (str_drop 1 a) c) letters) args.
Definition operands_of (args : list string) : list string :=
  List.filter (fun a => negb (starts_with a "-")) args.
Definition leaves_folder (m : string) : bool :=
  starts_with m "/" || starts_with m "~" || climbs_out m.

Definition git_is_execution_enabling (args : list string) (sub : string) : bool :=
  if any_arg args ["-c"; "--exec-path"; "--upload-pack"; "--receive-pack"]
     || any_prefix args ["-c"; "--exec-path="; "--upload-pack="; "--receive-pack="]
  then true
  else if str_mem sub ["filter-branch"; "filter-repo"; "daemon"; "instaweb"] then true
  else if String.eqb sub "bisect" && any_arg args ["run"] then true
  else if String.eqb sub "submodule" && any_arg args ["foreach"] then true
  else if String.eqb sub "rebase" && (any_arg args ["-x"; "--exec"] || any_prefix args ["--exec="])
  then true
  else if str_mem sub ["difftool"; "mergetool"]
          && (any_arg args ["--extcmd"; "-x"] || any_prefix args ["--extcmd="])
  then true
  else if String.eqb sub "send-email"
          && (any_arg args ["--sendmail-cmd"; "--smtp-server"]
              || any_prefix args ["--sendmail-cmd="; "--smtp-server="])
  then true
  else if String.eqb sub "config"
  then existsb (fun a => git_config_key_is_dangerous (to_lowercase a)) args
  else false.

Definition is_execution_enabling (program : string) (args : list string) : bool :=
  let p := normalize_runtime (basename program) in
  let operands := operands_of args in
  let first_operand := List.hd "" operands in
  if str_mem p SCRIPT_EXECUTOR_PROGRAMS && existsb leaves_folder operands then true
  else if String.eqb p "find" then
    any_arg args ["-exec"; "-execdir"; "-ok"; "-okdir"; "-delete"; "-fprintf"; "-fprint";
                  "-fprint0"; "-fls"]
  else if String.eqb p "git" then git_is_execution_enabling args first_operand
  else if str_mem p ["tar"; "gtar"; "bsdtar"] then
    any_prefix args ["--to-command"; "--checkpoint-action"; "--use-compress-program"; "-I";
                     "--rmt-command"; "--rsh-command"; "--info-script"; "-F"; "--newer-mtime"]
  else if str_mem p ["awk"; "gawk"; "mawk"; "nawk"] then
    if any_prefix args ["-f"; "--file"; "--source"; "-i"; "--include"; "-e"] then true
    else existsb (fun a => contains_char a "|" || contains a "system(" || contains a "getline")
           operands
  else if str_mem p ["sed"; "gsed"] then sed_command_is_dangerous args
  else if str_mem p ["node"; "deno"; "bun"] then
    if String.eqb first_operand "eval" then true
    else any_arg args ["-e"; "--eval"; "-p"; "--print"; "-r"; "--require"; "--import"]
         || any_prefix args ["-e"; "--eval="; "--require="; "--loader"; "--experimental-loader";
                             "--import="]
  else if String.eqb p "php" then
    any_arg args ["-r"; "-R"; "-F"; "-B"; "-E"] || any_prefix args ["-r"; "-R"]
  else if String.eqb p "ruby" then short_bundle_has args ["e"; "r"]%char
  else if String.eqb p "perl" then short_bundle_has args ["e"; "E"; "M"]%char
  else if String.eqb p "python" then short_bundle_has args ["c"]%char
  else if str_mem p ["lua"; "luajit"; "Rscript"] then
    short_bundle_has args ["e"]%char || any_prefix args ["--eval="]
  else if String.eqb p "pandoc" then
    any_arg args ["-F"; "--filter"; "-L"; "--lua-filter"]
    || any_prefix args ["--filter="; "--lua-filter="]
  else if String.eqb p "cmake" then any_arg args ["-P"; "-E"] || any_prefix args ["-P"; "-E"]
  else if str_mem p ["make"; "gmake"; "gnumake"; "bmake"] then
    match flag_value args ["-f"; "--file"; "--makefile"] with
    | Some m => String.eqb m "-" || leaves_folder m
    | None => false
    end
  else if String.eqb p "ln" then
    any_arg args ["-s"; "-sf"; "-fs"; "--symbolic"] || short_bundle_has args ["s"]%char
  else if String.eqb p "zip" then
    any_arg args ["-TT"] || any_prefix args ["--unzip-command"; "--test-command"; "-TT"]
  else if str_mem p ["fd"; "fdfind"] then any_arg args ["-x"; "--exec"; "-X"; "--exec-batch"]
  else if str_mem p ["rg"; "ag"] then
    if any_arg args ["--pre"] || any_prefix args ["--pre="; "--pre-glob"] then true
    else match flag_value args ["--pager"] with
         | Some pager => contains_char pager "/" || starts_with pager "~"
         | None => false
         end
  else if String.eqb p "go" then
    if String.eqb first_operand "generate" then true
    else any_arg args ["-exec"; "-toolexec"] || any_prefix args ["-exec="; "-toolexec="]
  else if str_mem p ["pip"; "pip3"] then
    any_prefix args ["--global-option"; "--install-option"; "--build-option"]
  else if str_mem p ["npm"; "pnpm"] then str_mem first_operand ["exec"; "explore"; "dlx"]
  else if String.eqb p "yarn" then String.eqb first_operand "dlx"
  else if str_mem p ["mvn"; "mvnw"] then any_prefix args ["-Dexec.executable"]
  else if String.eqb p "java" then
    match flag_value args ["-jar"] with
    | Some j => leaves_folder j
    | None => false
    end
  else if str_mem p ["R"; "guile"; "raku"; "perl6"; "groovy"; "ghc"; "runghc"; "runhaskell";
                     "elixir"; "iex"; "swift"; "scala"; "julia"; "ts-node"; "tsx"; "zx";
                     "clojure"; "bb"; "dotnet-script"] then
    any_arg args ["-e"; "-c"; "--eval"; "--command"] || any_prefix args ["-e"; "-c"; "--eval="]
  else if String.eqb p "tcc" then any_arg args ["-run"] || any_prefix args ["-run"]
  else if String.eqb p "stap" then any_arg args ["-e"] || any_prefix args ["-e"]
  else if str_mem p ["poetry"; "pdm"; "hatch"; "pipenv"; "rye"] then
    str_mem first_operand ["run"; "exec"; "shell"]
  else if String.eqb p "open" then
    any_arg args ["-a"; "--application"] || any_prefix args ["-a"; "--application="]
    || existsb (fun op => ends_with op ".app" || ends_with op ".command"
                          || ends_with op ".workflow") operands
  else false.

Definition git_is_destructive (args operands : list string) : bool :=
  let sub := List.hd "" operands in
  let has needle := any_arg args [needle] in
  let restore_staged_only :=
    (has "--staged" || has "-S") && negb (has "--worktree") && negb (has "-W") in
  let forced := short_bundle_has args ["f"]%char || any_prefix args ["--force"] in
  (String.eqb sub "clean" && forced)
  || (String.eqb sub "reset" && has "--hard")
  || (String.eqb sub "checkout"
      && (has "-f" || has "--force" || has "--" || has "--ours" || has "--theirs"
          || str_mem "." (tail operands)))
  || (String.eqb sub "switch" && (has "-f" || has "--force" || has "--discard-changes"))
  || (String.eqb sub "restore" && negb restore_staged_only)
  || (String.eqb sub "read-tree" && has "--reset")
  || (String.eqb sub "stash" && (has "drop" || has "clear"))
  || (String.eqb sub "branch" && (has "-D" || has "-d"))
  || (String.eqb sub "tag" && (has "-d" || has "--delete"))
  || (String.eqb sub "push"
      && (has "--mirror" || has "--delete" || has "-d" || has "-f" || any_prefix args ["--force"]
          || existsb (fun op => starts_with op ":") operands))
  || (String.eqb sub "update-ref" && has "-d")
  || (String.eqb sub "update-index" && (has "--force-remove" || has "--remove"))
  || (String.eqb sub "symbolic-ref" && has "-d")
  || (String.eqb sub "replace" && (has "-d" || has "--delete"))
  || (String.eqb sub "notes" && (has "remove" || has "prune"))
  || (String.eqb sub "reflog" && (has "expire" || has "delete"))
  || (String.eqb sub "gc" && any_prefix args ["--prune"])
  || String.eqb sub "rm"
  || (String.eqb sub "worktree" && (has "prune" || (has "remove" && forced))).

Definition rm_is_broad (op : string) : bool :=
  contains_char op "*" || contains_char op "?" || contains_char op "["
  || str_mem op ["."; ".."; "/"; "~"] || starts_with op "/" || starts_with op "~".

Definition is_destructive (program : string) (args : list string) : bool :=
  let p := basename program in
  let operands := operands_of args in
  if String.eqb p "rm" then
    let recursive := short_bundle_has args ["r"]%char || short_bundle_has args ["R"]%char
                     || existsb (fun a => contains (to_lowercase a) "recursive") args in
    recursive || existsb rm_is_broad operands
  else if str_mem p ["dd"; "gdd"; "ddrescue"; "dcfldd"; "shred"; "gshred"; "truncate";
                     "gtruncate"; "mkfs"; "srm"; "scrub"; "wipe"; "fallocate"; "gfallocate";
                     "diskutil"; "chflags"; "wipefs"; "blkdiscard"; "sgdisk"; "gdisk"; "fdisk";
                     "sfdisk"; "cfdisk"; "parted"]
  then true
  else if str_mem p ["chmod"; "gchmod"; "chown"; "gchown"; "chgrp"; "gchgrp"] then
    if any_arg args ["--recursive"] || short_bundle_has args ["R"]%char then true
    else str_mem p ["chmod"; "gchmod"]
         && existsb (fun op => contains op "+s" || is_match_or_true setuid_octal_re op) operands
  else if String.eqb p "git" then git_is_destructive args operands
  else starts_with p "mkfs.".
End Regex.

(** ** Program classes *)
Definition is_exact_only (program : string) : bool :=
  let b := basename program in
  if str_mem b EXACT_ONLY_PROGRAMS then true
  else starts_with b "ld-linux" || starts_with b "ld-musl" || starts_with b "qemu-"
       || String.eqb b "ld.so" || String.eqb b "ld-elf.so.1".

Definition runs_supplied_code (program : string) : bool :=
  let b := basename program in
  let normalized := normalize_runtime b in
  str_mem normalized SCRIPT_EXECUTOR_PROGRAMS || str_mem b SCRIPT_EXECUTOR_PROGRAMS
  || str_mem normalized PACKAGE_INSTALLER_PROGRAMS || str_mem b PACKAGE_INSTALLER_PROGRAMS.

Definition is_interpreter (program : string) : bool := str_mem (basename program) INTERPRETERS.
