(* ===== verification/ShellCollect.v ===== *)
(** * Shell policy: from a parsed command line to its leaf commands

    The collector of [crates/tidebreak-shell-policy/src/lib.rs]
    ([collect_program] down to [walk_pieces]).  The command line is parsed by
    the third-party crate [brush-parser], vendored under
    [vendor/brush-parser]: its syntax trees are the inductive types below
    (source spans left out, since nothing reads them), the node payloads the
    collector never opens are the abstract types of [BrushOpaque], and its two
    entry points are the operations of [BrushParser].

    The Rust functions thread one [&mut Collected]; here they run in the
    state-and-error monad over [Collected].  An [Err] drops the state, as every
    caller in the source does.  Recursion through the text of a command
    substitution is not structural: it is bounded by [MAX_DEPTH], modelled by
    fuel, and [collection_is_bounded] of [PolicyFacts] proves the bound enough. *)

From S2P Require Export ShellPrograms.

(** ** Syntax trees of [brush-parser] *)

(** Payloads of nodes the collector rejects or copies without opening them. *)
Class BrushOpaque := {
  ArithmeticCommand : Type;
  ArithmeticForClauseCommand : Type;
  ForClauseCommand : Type;
  CaseClauseCommand : Type;
  IfClauseCommand : Type;
  WhileOrUntilClauseCommand : Type;
  CoprocessCommand : Type;
  FunctionDefinition : Type;
  ExtendedTestExprCommand : Type;
  IoHereDocument : Type;
  ParameterExpr : Type;
  PipelineTimed : Type
}.

Record Word : Type := MkWord { word_value : string }.

Inductive SeparatorOperator : Type := Async | Sequence.
Inductive ProcessSubstitutionKind : Type := PsRead | PsWrite.

Inductive IoFileRedirectKind : Type :=
| KRead | KWrite | KAppend | KReadAndWrite | KClobber | KDuplicateInput | KDuplicateOutput.

Inductive AssignmentName : Type :=
| VariableName (name : string)
| ArrayElementName (name index : string).

Inductive AssignmentValue : Type :=
| Scalar (word : Word)
| Array (items : list (option Word * Word)).

Record Assignment : Type := MkAssignment {
  asg_name : AssignmentName; asg_value : AssignmentValue; asg_append : bool }.

Inductive TildeExpr : Type :=
| Home
| UserHome (user : string)
| WorkingDir
| OldWorkingDir
| NthDirFromTopOfDirStack (n : nat) (plus_used : bool)
| NthDirFromBottomOfDirStack (n : nat).

Section Syntax.
Context `{B : BrushOpaque}.

Inductive CompoundList : Type :=
| MkCompoundList (items : list CompoundListItem)
with CompoundListItem : Type :=
| MkCompoundListItem (list : AndOrList) (separator : SeparatorOperator)
with AndOrList : Type :=
| MkAndOrList (first : Pipeline) (additional : list AndOr)
with AndOr : Type :=
| And (pipeline : Pipeline)
| Or (pipeline : Pipeline)
with Pipeline : Type :=
| MkPipeline (timed : option PipelineTimed) (bang : bool) (seq : list Command)
with Command : Type :=
| Simple (simple : SimpleCommand)
| Compound (compound : CompoundCommand) (redirects : option RedirectList)
| Function (definition : FunctionDefinition)
| ExtendedTest (test : ExtendedTestExprCommand) (redirects : option RedirectList)
with CompoundCommand : Type :=
| Arithmetic (command : ArithmeticCommand)
| ArithmeticForClause (clause : ArithmeticForClauseCommand)
| BraceGroup (list : CompoundList)
| Subshell (list : CompoundList)
| ForClause (clause : ForClauseCommand)
| CaseClause (clause : CaseClauseCommand)
| IfClause (clause : IfClauseCommand)
| WhileClause (clause : WhileOrUntilClauseCommand)
| UntilClause (clause : WhileOrUntilClauseCommand)
| Coprocess (command : CoprocessCommand)
with SimpleCommand : Type :=
| MkSimpleCommand (prefix : option (list CommandPrefixOrSuffixItem))
    (word_or_name : option Word) (suffix : option (list CommandPrefixOrSuffixItem))
with CommandPrefixOrSuffixItem : Type :=
| ItemIoRedirect (redirect : IoRedirect)
| ItemWord (word : Word)
| ItemAssignmentWord (assignment : Assignment) (word : Word)
| ItemProcessSubstitution (kind : ProcessSubstitutionKind) (list : CompoundList)
with RedirectList : Type :=
| MkRedirectList (redirects : list IoRedirect)
with IoRedirect : Type :=
| File (fd : option Z) (kind : IoFileRedirectKind) (target : IoFileRedirectTarget)
| HereDocument (fd : option Z) (document : IoHereDocument)
| HereString (fd : option Z) (word : Word)
| OutputAndError (word : Word) (append : bool)
with IoFileRedirectTarget : Type :=
| Filename (word : Word)
| Fd (fd : Z)
| TargetProcessSubstitution (kind : ProcessSubstitutionKind) (list : CompoundList)
| Duplicate (word : Word).

Record Program : Type := MkProgram { complete_commands : list CompoundList }.

Inductive WordPieceWithSource : Type :=
| MkPiece (piece : WordPiece) (start_index end_index : nat)
with WordPiece : Type :=
| Text (text : string)
| SingleQuotedText (text : string)
| AnsiCQuotedText (text : string)
| DoubleQuotedSequence (pieces : list WordPieceWithSource)
| GettextDoubleQuotedSequence (pieces : list WordPieceWithSource)
| TildeExpansion (tilde : TildeExpr)
| ParameterExpansion (parameter : ParameterExpr)
| CommandSubstitution (command : string)
| BackquotedCommandSubstitution (command : string)
| EscapeSequence (sequence : string)
| ArithmeticExpression (value : string).
End Syntax.

(** The parser's entry points; an error is its debug text. *)
Class BrushParser `{BrushOpaque} := {
  parse_program : string -> result string Program;
  word_parse : string -> result string (list WordPieceWithSource)
}.

(** ** What the collector gathers *)
Record SimpleCmd : Type := MkSimpleCmd {
  program : string;
  argv : list string;
  arg_slots : list ArgSlot;
  write_targets : list string;
  read_targets : list string
}.

Definition display (sc : SimpleCmd) : string := join " " (argv sc).

Record Collected : Type := MkCollected {
  simples : list SimpleCmd;
  surfaced_substitutions : nat;
  group_write_targets : list string;
  group_read_targets : list string;
  assignment_values : list string;
  depth : nat
}.

Definition collected_default : Collected := MkCollected [] 0 [] [] [] 0.

Definition MAX_DEPTH : nat := 25.

Definition push_simple (sc : SimpleCmd) (acc : Collected) : Collected :=
  MkCollected (simples acc ++ [sc]) (surfaced_substitutions acc) (group_write_targets acc)
    (group_read_targets acc) (assignment_values acc) (depth acc).
Definition surface (acc : Collected) : Collected :=
  MkCollected (simples acc) (S (surfaced_substitutions acc)) (group_write_targets acc)
    (group_read_targets acc) (assignment_values acc) (depth acc).
Definition extend_group (writes reads : list string) (acc : Collected) : Collected :=
  MkCollected (simples acc) (surfaced_substitutions acc) (group_write_targets acc ++ writes)
    (group_read_targets acc ++ reads) (assignment_values acc) (depth acc).
Definition push_assignment (value : string) (acc : Collected) : Collected :=
  MkCollected (simples acc) (surfaced_substitutions acc) (group_write_targets acc)
    (group_read_targets acc) (assignment_values acc ++ [value]) (depth acc).
Definition set_depth (d : nat) (acc : Collected) : Collected :=
  MkCollected (simples acc) (surfaced_substitutions acc) (group_write_targets acc)
    (group_read_targets acc) (assignment_values acc) d.

(** The source's [Err(reason)]; [OutOfFuel] is the model's own and unreachable. *)
Inductive CollectError : Type :=
| Degrade (reason : string)
| OutOfFuel.

Notation collector := (stm Collected CollectError).

(** The local vectors of [collect_simple_command]. *)
Record Locals : Type := MkLocals {
  l_argv : list string; l_writes : list string; l_reads : list string; l_slots : list ArgSlot }.

Definition locals_default : Locals := MkLocals [] [] [] [].
Definition push_argv (w : string) (l : Locals) : Locals :=
  MkLocals (l_argv l ++ [w]) (l_writes l) (l_reads l) (l_slots l).
Definition push_slot (s : ArgSlot) (l : Locals) : Locals :=
  MkLocals (l_argv l) (l_writes l) (l_reads l) (l_slots l ++ [s]).
Definition set_redirects (wr : list string * list string) (l : Locals) : Locals :=
  MkLocals (l_argv l) wr.1 wr.2 (l_slots l).

Definition dequote_escape (seq : string) : string :=
  match strip_prefix seq "\" with
  | Some rest => if is_empty rest then seq else rest
  | None => seq
  end.

Definition tilde_to_str (tilde : TildeExpr) : string :=
  match tilde with
  | Home => "~"
  | UserHome user => "~" +:+ user
  | WorkingDir => "~+"
  | OldWorkingDir => "~-"
  | NthDirFromTopOfDirStack _ _ | NthDirFromBottomOfDirStack _ => "~"
  end.

Section Collector.
Context `{B : BrushOpaque} {P : BrushParser} `{RegexEngine}.

(** [acc.depth += 1; let r = m; acc.depth -= 1; r], behind the depth guard. *)
Definition nested (m : collector unit) : collector unit :=
  acc ← get;
  if MAX_DEPTH <=? depth acc then fail (Degrade "command nesting too deep")
  else _ ← modify (fun a => set_depth (S (depth a)) a);
       _ ← m;
       modify (fun a => set_depth (depth a - 1) a).

Section Body.
(** [recurse_into_command_substitution], tied by fuel below. *)
Variable recurse : string -> collector unit.

Fixpoint walk_piece (source : string) (is_program : bool) (p : WordPieceWithSource)
    (literal : string) {struct p} : collector string :=
  match p with
  | MkPiece piece start_index end_index =>
      let raw := default "" (str_get source start_index end_index) in
      match piece with
      | Text text | SingleQuotedText text => mret (literal +:+ text)
      | EscapeSequence sequence => mret (literal +:+ dequote_escape sequence)
      | AnsiCQuotedText _ => fail (Degrade "ANSI-C quoting")
      | DoubleQuotedSequence inner | GettextDoubleQuotedSequence inner =>
          fold_each (walk_piece source is_program) inner literal
      | TildeExpansion tilde => mret (literal +:+ tilde_to_str tilde)
      | CommandSubstitution inner | BackquotedCommandSubstitution inner =>
          if is_program then fail (Degrade ("dynamically-resolved command: " +:+ raw))
          else _ ← modify surface;
               _ ← recurse inner;
               mret (literal +:+ raw)
      | ParameterExpansion _ | ArithmeticExpression _ =>
          if is_program then fail (Degrade ("dynamically-resolved command: " +:+ raw))
          else mret (literal +:+ raw)
      end
  end.

Definition walk_pieces (pieces : list WordPieceWithSource) (source : string)
    (is_program : bool) (literal : string) : collector string :=
  fold_each (walk_piece source is_program) pieces literal.

Definition process_word (word : Word) (is_program : bool) : collector string :=
  match word_parse (word_value word) with
  | Err err => fail (Degrade ("unparsable word: " +:+ err))
  | Ok pieces => walk_pieces pieces (word_value word) is_program ""
  end.

Fixpoint collect_piece_substitutions (p : WordPieceWithSource) : collector unit :=
  match p with
  | MkPiece piece _ _ =>
      match piece with
      | CommandSubstitution inner | BackquotedCommandSubstitution inner =>
          _ ← modify surface; recurse inner
      | DoubleQuotedSequence inner | GettextDoubleQuotedSequence inner =>
          for_each collect_piece_substitutions inner
      | AnsiCQuotedText _ => fail (Degrade "ANSI-C quoting")
      | Text _ | SingleQuotedText _ | EscapeSequence _ | TildeExpansion _
      | ParameterExpansion _ | ArithmeticExpression _ => mret tt
      end
  end.

Definition collect_word_substitutions (word : Word) : collector unit :=
  match word_parse (word_value word) with
  | Err err => fail (Degrade ("unparsable word: " +:+ err))
  | Ok pieces => for_each collect_piece_substitutions pieces
  end.

Definition assignment_name_str (name : AssignmentName) : string :=
  match name with VariableName name | ArrayElementName name _ => name end.

Definition assignment_value_str (value : AssignmentValue) : string :=
  match value with
  | Scalar word => word_value word
  | Array items => join " " (map (fun kv => word_value kv.2) items)
  end.

Definition collect_assignment (assignment : Assignment) : collector unit :=
  let name := assignment_name_str (asg_name assignment) in
  let value := assignment_value_str (asg_value assignment) in
  if assignment_is_dangerous name value then
    fail (Degrade ("dangerous environment assignment: " +:+ name +:+ "=" +:+ value))
  else
    _ ← modify (push_assignment value);
    match asg_value assignment with
    | Scalar word => collect_word_substitutions word
    | Array items => for_each (fun kv => collect_word_substitutions kv.2) items
    end.

Definition push_redirect (kind : IoFileRedirectKind) (path : option string)
    (wr : list string * list string) : list string * list string :=
  match path with
  | None => wr
  | Some path =>
      match kind with
      | KWrite | KAppend | KClobber | KReadAndWrite | KDuplicateOutput => (wr.1 ++ [path], wr.2)
      | KRead | KDuplicateInput => (wr.1, wr.2 ++ [path])
      end
  end.

Fixpoint collect_compound_list (list : CompoundList) : collector unit :=
  match list with MkCompoundList items => for_each collect_compound_list_item items end
with collect_compound_list_item (item : CompoundListItem) : collector unit :=
  match item with MkCompoundListItem list _ => collect_and_or_list list end
with collect_and_or_list (list : AndOrList) : collector unit :=
  match list with
  | MkAndOrList first additional =>
      _ ← collect_pipeline first; for_each collect_and_or additional
  end
with collect_and_or (and_or : AndOr) : collector unit :=
  match and_or with And pipeline | Or pipeline => collect_pipeline pipeline end
with collect_pipeline (pipeline : Pipeline) : collector unit :=
  match pipeline with MkPipeline _ _ seq => for_each collect_command seq end
with collect_command (command : Command) : collector unit :=
  match command with
  | Simple simple => collect_simple_command simple
  | Compound compound redirects =>
      _ ← collect_compound_command compound;
      match redirects with
      | Some (MkRedirectList redirects) =>
          for_each (fun redirect =>
            wr ← collect_redirect redirect ([], []);
            modify (extend_group wr.1 wr.2)) redirects
      | None => mret tt
      end
  | Function _ => fail (Degrade "unsupported construct: function definition")
  | ExtendedTest _ _ => fail (Degrade "unsupported construct: extended test")
  end
with collect_compound_command (compound : CompoundCommand) : collector unit :=
  match compound with
  | Subshell list | BraceGroup list => collect_compound_list list
  | Arithmetic _ | ArithmeticForClause _ | ForClause _ | CaseClause _ | IfClause _
  | WhileClause _ | UntilClause _ | Coprocess _ =>
      fail (Degrade "unsupported construct: control structure")
  end
with collect_simple_command (simple : SimpleCommand) : collector unit :=
  match simple with
  | MkSimpleCommand prefix word_or_name suffix =>
      loc ← (match prefix with
             | Some items =>
                 fold_each (collect_prefix_or_suffix_item false) items locals_default
             | None => mret locals_default
             end);
      loc ← (match word_or_name with
             | Some word =>
                 program ← process_word word true;
                 if starts_with program "=" then
                   fail (Degrade ("zsh =-expansion command: " +:+ program))
                 else if is_match_or_true unresolvable_program_re program then
                   fail (Degrade ("unresolvable program word: " +:+ program))
                 else mret (push_argv program loc)
             | None => mret loc
             end);
      loc ← (match suffix with
             | Some items => fold_each (collect_prefix_or_suffix_item true) items loc
             | None => mret loc
             end);
      match l_argv loc with
      | [] => modify (extend_group (l_writes loc) (l_reads loc))
      | program :: _ =>
          modify (push_simple (MkSimpleCmd program (l_argv loc) (l_slots loc)
                                 (l_writes loc) (l_reads loc)))
      end
  end
with collect_prefix_or_suffix_item (slotted : bool) (item : CommandPrefixOrSuffixItem)
    (loc : Locals) {struct item} : collector Locals :=
  match item with
  | ItemWord word =>
      literal ← process_word word false;
      mret (push_argv literal (if slotted then push_slot (SlotWord literal) loc else loc))
  | ItemIoRedirect redirect =>
      wr ← collect_redirect redirect (l_writes loc, l_reads loc);
      mret (set_redirects wr loc)
  | ItemAssignmentWord assignment _ =>
      _ ← collect_assignment assignment;
      mret (if slotted then push_slot SlotAssignment loc else loc)
  | ItemProcessSubstitution _ list =>
      _ ← modify surface;
      _ ← nested (collect_compound_list list);
      mret loc
  end
with collect_redirect (redirect : IoRedirect) (wr : list string * list string)
    {struct redirect} : collector (list string * list string) :=
  match redirect with
  | File _ kind target =>
      path ← collect_target target;
      mret (push_redirect kind path wr)
  | OutputAndError word _ =>
      literal ← process_word word false;
      mret (wr.1 ++ [literal], wr.2)
  | HereDocument _ _ | HereString _ _ => mret wr
  end
with collect_target (target : IoFileRedirectTarget) : collector (option string) :=
  match target with
  | Filename word | Duplicate word => literal ← process_word word false; mret (Some literal)
  | TargetProcessSubstitution _ list =>
      _ ← modify surface;
      _ ← nested (collect_compound_list list);
      mret None
  | Fd _ => mret None
  end.

Definition collect_program_with (program : Program) : collector unit :=
  for_each collect_compound_list (complete_commands program).
End Body.

Fixpoint recurse_into_command_substitution (fuel : nat) (inner : string) : collector unit :=
  match fuel with
  | O => fail OutOfFuel
  | S fuel =>
      acc ← get;
      if MAX_DEPTH <=? depth acc then fail (Degrade "command nesting too deep")
      else match parse_program inner with
           | Err err => fail (Degrade ("unparsable command substitution: " +:+ err))
           | Ok program =>
               _ ← modify (fun a => set_depth (S (depth a)) a);
               _ ← collect_program_with (recurse_into_command_substitution fuel) program;
               modify (fun a => set_depth (depth a - 1) a)
           end
  end.

(** One more unit of fuel than nesting levels. *)
Definition collect_program (program : Program) : collector unit :=
  collect_program_with (recurse_into_command_substitution (S MAX_DEPTH)) program.
End Collector.
