(* ===== verification/CollectFacts.v ===== *)
(** * Shell policy: what the collector guarantees

    Facts about [collect_program] of [ShellCollect]: it never runs out of the
    fuel that stands for its bounded recursion, every leaf it records is a
    command with its program first, and every simple command nested anywhere in
    the syntax tree (through lists, pipelines, groups, process substitutions
    and the text of command substitutions) ends up as one of the leaves.

    Nesting is stated once, as a graph on syntax nodes ([child]); the proof is
    one induction over the tree for each fuel value. *)

From S2P Require Export ShellCollect.

(** ** Induction over the syntax trees *)
Section TreeInd.
Context `{B : BrushOpaque}.
Variable (PList : CompoundList -> Prop) (PItem : CompoundListItem -> Prop)
  (PAndOrList : AndOrList -> Prop) (PAndOr : AndOr -> Prop) (PPipeline : Pipeline -> Prop)
  (PCommand : Command -> Prop) (PCompound : CompoundCommand -> Prop)
  (PSimple : SimpleCommand -> Prop) (PArg : CommandPrefixOrSuffixItem -> Prop)
  (PRedirect : IoRedirect -> Prop) (PTarget : IoFileRedirectTarget -> Prop).

(** The lists nested in a node. *)
Definition option_list {A} (o : option (list A)) : list A := default [] o.
Definition redirects_of (o : option RedirectList) : list IoRedirect :=
  match o with Some (MkRedirectList l) => l | None => [] end.
Definition group_of (c : CompoundCommand) : option CompoundList :=
  match c with BraceGroup l | Subshell l => Some l | _ => None end.
Definition substituted (t : IoFileRedirectTarget) : option CompoundList :=
  match t with TargetProcessSubstitution _ l => Some l | _ => None end.

Hypothesis HList : forall items, Forall PItem items -> PList (MkCompoundList items).
Hypothesis HItem : forall l sep, PAndOrList l -> PItem (MkCompoundListItem l sep).
Hypothesis HAndOrList : forall first rest,
  PPipeline first -> Forall PAndOr rest -> PAndOrList (MkAndOrList first rest).
Hypothesis HAnd : forall p, PPipeline p -> PAndOr (And p).
Hypothesis HOr : forall p, PPipeline p -> PAndOr (Or p).
Hypothesis HPipeline : forall t b seq, Forall PCommand seq -> PPipeline (MkPipeline t b seq).
Hypothesis HSimpleCommand : forall s, PSimple s -> PCommand (Simple s).
Hypothesis HCompoundCommand : forall c r,
  PCompound c -> Forall PRedirect (redirects_of r) -> PCommand (Compound c r).
Hypothesis HFunction : forall f, PCommand (Function f).
Hypothesis HExtendedTest : forall t r, PCommand (ExtendedTest t r).
Hypothesis HCompound : forall c, (forall l, group_of c = Some l -> PList l) -> PCompound c.
Hypothesis HSimple : forall prefix w suffix,
  Forall PArg (option_list prefix) -> Forall PArg (option_list suffix) ->
  PSimple (MkSimpleCommand prefix w suffix).
Hypothesis HArgRedirect : forall r, PRedirect r -> PArg (ItemIoRedirect r).
Hypothesis HArgWord : forall w, PArg (ItemWord w).
Hypothesis HArgAssignment : forall a w, PArg (ItemAssignmentWord a w).
Hypothesis HArgSubstitution : forall k l, PList l -> PArg (ItemProcessSubstitution k l).
Hypothesis HFile : forall fd k t, PTarget t -> PRedirect (File fd k t).
Hypothesis HHereDocument : forall fd d, PRedirect (HereDocument fd d).
Hypothesis HHereString : forall fd w, PRedirect (HereString fd w).
Hypothesis HOutputAndError : forall w a, PRedirect (OutputAndError w a).
Hypothesis HTarget : forall t, (forall l, substituted t = Some l -> PList l) -> PTarget t.

Definition all_of {A} (P : A -> Prop) (f : forall a, P a) : forall l, Forall P l :=
  fix go l := match l with
              | [] => Forall_nil_2 P
              | x :: l' => Forall_cons_2 P x l' (f x) (go l')
              end.

Fixpoint tree_list (l : CompoundList) : PList l :=
  match l with MkCompoundList items => HList items (all_of PItem tree_item items) end
with tree_item (i : CompoundListItem) : PItem i :=
  match i with MkCompoundListItem l sep => HItem l sep (tree_and_or_list l) end
with tree_and_or_list (l : AndOrList) : PAndOrList l :=
  match l with
  | MkAndOrList first rest =>
      HAndOrList first rest (tree_pipeline first) (all_of PAndOr tree_and_or rest)
  end
with tree_and_or (a : AndOr) : PAndOr a :=
  match a with
  | And p => HAnd p (tree_pipeline p)
  | Or p => HOr p (tree_pipeline p)
  end
with tree_pipeline (p : Pipeline) : PPipeline p :=
  match p with MkPipeline t b seq => HPipeline t b seq (all_of PCommand tree_command seq) end
with tree_command (c : Command) : PCommand c :=
  match c with
  | Simple s => HSimpleCommand s (tree_simple s)
  | Compound c r =>
      HCompoundCommand c r (tree_compound c)
        (match r with
         | Some (MkRedirectList l) => all_of PRedirect tree_redirect l
         | None => Forall_nil_2 PRedirect
         end)
  | Function f => HFunction f
  | ExtendedTest t r => HExtendedTest t r
  end
with tree_compound (c : CompoundCommand) : PCompound c :=
  HCompound c
    (match c return forall l, group_of c = Some l -> PList l with
     | BraceGroup g => fun l E => eq_ind g PList (tree_list g) l (inj Some g l E)
     | Subshell g => fun l E => eq_ind g PList (tree_list g) l (inj Some g l E)
     | _ => fun l E => ltac:(discriminate E)
     end)
with tree_simple (s : SimpleCommand) : PSimple s :=
  match s with
  | MkSimpleCommand prefix w suffix =>
      HSimple prefix w suffix
        (match prefix with
         | Some l => all_of PArg tree_arg l | None => Forall_nil_2 PArg end)
        (match suffix with
         | Some l => all_of PArg tree_arg l | None => Forall_nil_2 PArg end)
  end
with tree_arg (i : CommandPrefixOrSuffixItem) : PArg i :=
  match i with
  | ItemIoRedirect r => HArgRedirect r (tree_redirect r)
  | ItemWord w => HArgWord w
  | ItemAssignmentWord a w => HArgAssignment a w
  | ItemProcessSubstitution k l => HArgSubstitution k l (tree_list l)
  end
with tree_redirect (r : IoRedirect) : PRedirect r :=
  match r with
  | File fd k t => HFile fd k t (tree_target t)
  | HereDocument fd d => HHereDocument fd d
  | HereString fd w => HHereString fd w
  | OutputAndError w a => HOutputAndError w a
  end
with tree_target (t : IoFileRedirectTarget) : PTarget t :=
  HTarget t
    (match t return forall l, substituted t = Some l -> PList l with
     | TargetProcessSubstitution _ g => fun l E => eq_ind g PList (tree_list g) l (inj Some g l E)
     | _ => fun l E => ltac:(discriminate E)
     end).
End TreeInd.

(** Induction over the pieces of a word. *)
Section PieceInd.
Context `{B : BrushOpaque}.
Variable Q : WordPieceWithSource -> Prop.
Definition inner_pieces (p : WordPiece) : list WordPieceWithSource :=
  match p with
  | DoubleQuotedSequence l | GettextDoubleQuotedSequence l => l
  | _ => []
  end.
Hypothesis HPiece : forall p i j, Forall Q (inner_pieces p) -> Q (MkPiece p i j).

Fixpoint tree_piece (p : WordPieceWithSource) : Q p :=
  match p with
  | MkPiece p i j =>
      HPiece p i j
        (match p with
         | DoubleQuotedSequence l | GettextDoubleQuotedSequence l => all_of Q tree_piece l
         | _ => Forall_nil_2 Q
         end)
  end.
End PieceInd.

(** ** Nesting, as a graph on syntax nodes *)
Section Nesting.
Context `{B : BrushOpaque} {P : BrushParser}.

Inductive node : Type :=
| NProgram (p : Program)
| NList (l : CompoundList)
| NItem (i : CompoundListItem)
| NAndOrList (l : AndOrList)
| NAndOr (a : AndOr)
| NPipeline (p : Pipeline)
| NCommand (c : Command)
| NCompound (c : CompoundCommand)
| NSimple (s : SimpleCommand)
| NArg (i : CommandPrefixOrSuffixItem)
| NRedirect (r : IoRedirect)
| NTarget (t : IoFileRedirectTarget)
| NAssignment (a : Assignment)
| NWord (w : Word)
| NPiece (p : WordPieceWithSource).

Definition value_words (v : AssignmentValue) : list Word :=
  match v with Scalar w => [w] | Array items => map snd items end.
Definition target_word (t : IoFileRedirectTarget) : option Word :=
  match t with Filename w | Duplicate w => Some w | _ => None end.
Definition substitution_text (p : WordPiece) : option string :=
  match p with
  | CommandSubstitution text | BackquotedCommandSubstitution text => Some text
  | _ => None
  end.

(** [child n m]: [m] is a direct part of [n].  A command substitution has the
    parse of its text as a part.  Here-documents and here-strings have none: the
    collector does not open them, and [analyze_shell_command] asks whenever the
    command's text holds more substitution markers than the collector met. *)
Inductive child : node -> node -> Prop :=
| child_program p l : l ∈ complete_commands p -> child (NProgram p) (NList l)
| child_list items i : i ∈ items -> child (NList (MkCompoundList items)) (NItem i)
| child_item l sep : child (NItem (MkCompoundListItem l sep)) (NAndOrList l)
| child_first first rest : child (NAndOrList (MkAndOrList first rest)) (NPipeline first)
| child_rest first rest a : a ∈ rest -> child (NAndOrList (MkAndOrList first rest)) (NAndOr a)
| child_and p : child (NAndOr (And p)) (NPipeline p)
| child_or p : child (NAndOr (Or p)) (NPipeline p)
| child_pipeline t b seq c : c ∈ seq -> child (NPipeline (MkPipeline t b seq)) (NCommand c)
| child_simple s : child (NCommand (Simple s)) (NSimple s)
| child_compound c r : child (NCommand (Compound c r)) (NCompound c)
| child_compound_redirect c r io :
    io ∈ redirects_of r -> child (NCommand (Compound c r)) (NRedirect io)
| child_group c l : group_of c = Some l -> child (NCompound c) (NList l)
| child_prefix prefix w suffix i :
    i ∈ option_list prefix -> child (NSimple (MkSimpleCommand prefix w suffix)) (NArg i)
| child_name prefix w suffix : child (NSimple (MkSimpleCommand prefix (Some w) suffix)) (NWord w)
| child_suffix prefix w suffix i :
    i ∈ option_list suffix -> child (NSimple (MkSimpleCommand prefix w suffix)) (NArg i)
| child_arg_redirect r : child (NArg (ItemIoRedirect r)) (NRedirect r)
| child_arg_word w : child (NArg (ItemWord w)) (NWord w)
| child_arg_assignment a w : child (NArg (ItemAssignmentWord a w)) (NAssignment a)
| child_arg_substitution k l : child (NArg (ItemProcessSubstitution k l)) (NList l)
| child_file fd k t : child (NRedirect (File fd k t)) (NTarget t)
| child_output w a : child (NRedirect (OutputAndError w a)) (NWord w)
| child_target_word t w : target_word t = Some w -> child (NTarget t) (NWord w)
| child_target_list t l : substituted t = Some l -> child (NTarget t) (NList l)
| child_assignment a w : w ∈ value_words (asg_value a) -> child (NAssignment a) (NWord w)
| child_word w pieces p :
    word_parse (word_value w) = Ok pieces -> p ∈ pieces -> child (NWord w) (NPiece p)
| child_piece p i j q : q ∈ inner_pieces p -> child (NPiece (MkPiece p i j)) (NPiece q)
| child_substitution p i j text parsed :
    substitution_text p = Some text -> parse_program text = Ok parsed ->
    child (NPiece (MkPiece p i j)) (NProgram parsed).

Definition nests (n m : node) : Prop := rtc child n m.

(** What the grammar of [simple_command] (vendor/brush-parser,
    [src/parser/peg.rs]) gives: before the command word only assignments and
    redirections, after it a suffix, and no suffix without a command word. *)
Definition grammatical (s : SimpleCommand) : Prop :=
  match s with
  | MkSimpleCommand prefix w suffix =>
      Forall (fun i => match i with
                       | ItemIoRedirect _ | ItemAssignmentWord _ _ => True
                       | ItemWord _ | ItemProcessSubstitution _ _ => False
                       end) (option_list prefix)
      /\ (w = None -> suffix = None)
  end.

(** The text of a word that holds no expansion. *)
Fixpoint piece_text (p : WordPieceWithSource) : option string :=
  match p with
  | MkPiece (Text t) _ _ | MkPiece (SingleQuotedText t) _ _ => Some t
  | MkPiece (EscapeSequence t) _ _ => Some (dequote_escape t)
  | MkPiece (TildeExpansion t) _ _ => Some (tilde_to_str t)
  | MkPiece (DoubleQuotedSequence l) _ _ | MkPiece (GettextDoubleQuotedSequence l) _ _ =>
      String.concat "" <$> mapM piece_text l
  | _ => None
  end.

Definition pieces_text (l : list WordPieceWithSource) : option string :=
  String.concat "" <$> mapM piece_text l.

Definition word_text (w : Word) : option string :=
  match word_parse (word_value w) with
  | Ok pieces => pieces_text pieces
  | Err _ => None
  end.

Definition item_words : list CommandPrefixOrSuffixItem -> list Word :=
  omap (fun i => match i with ItemWord w => Some w | _ => None end).

(** [literal] is what the collector keeps for [w]: its text, when it has one. *)
Definition spells (w : Word) (literal : string) : Prop :=
  forall t, word_text w = Some t -> literal = t.

(** The leaf that stands for a simple command: the command word spelled out as
    the program, then one argument for each word of the suffix, in order. *)
Definition leaf_of (w : Word) (suffix : option (list CommandPrefixOrSuffixItem))
    (sc : SimpleCmd) : Prop :=
  exists args, word_text w = Some (program sc) /\ argv sc = program sc :: args
  /\ Forall2 spells (item_words (option_list suffix)) args
  /\ slot_words (arg_slots sc) = args.

(** [s] stands among the leaves, if it has a command word at all. *)
Definition has_leaf (s : SimpleCommand) (leaves : list SimpleCmd) : Prop :=
  match s with
  | MkSimpleCommand _ (Some w) suffix =>
      grammatical s -> exists sc, sc ∈ leaves /\ leaf_of w suffix sc
  | MkSimpleCommand _ None _ => True
  end.

(** Every simple command nested in [n] stands among the leaves. *)
Definition gathered (n : node) (leaves : list SimpleCmd) : Prop :=
  forall s, nests n (NSimple s) -> has_leaf s leaves.

Lemma gathered_node n leaves :
  (forall s, n = NSimple s -> has_leaf s leaves) ->
  (forall m, child n m -> gathered m leaves) -> gathered n leaves.
Proof.
  intros Hself Hsub s Hn. inversion Hn as [|? m ? Hc Hm]; subst; [by apply Hself|].
  by apply (Hsub m).
Qed.

Lemma gathered_inner n leaves :
  (forall s, n <> NSimple s) -> (forall m, child n m -> gathered m leaves) -> gathered n leaves.
Proof. intros Hself. apply gathered_node. intros s ->. by destruct (Hself s). Qed.
End Nesting.

(** ** The invariant every step of the collector keeps *)
Section Runs.
Context `{B : BrushOpaque} {P : BrushParser} `{RegexEngine}.

(** Facts that hold of the leaves collected so far and stay true as more come. *)
Definition stable (R : list SimpleCmd -> Prop) : Prop :=
  forall l l', l ⊆ l' -> R l -> R l'.

Definition headed (sc : SimpleCmd) : Prop := exists args, argv sc = program sc :: args.

Record sound (fuel : nat) (s : Collected) : Prop := {
  sound_fuel : S MAX_DEPTH <= depth s + fuel;
  sound_depth : depth s <= MAX_DEPTH;
  sound_headed : Forall headed (simples s)
}.

(** [runs fuel R m Q]: from a sound state whose leaves satisfy [R], [m] restores
    the depth, only adds leaves, establishes [Q], and fails only to degrade. *)
Definition runs {A} (fuel : nat) (R : list SimpleCmd -> Prop) (m : collector A)
    (Q : A -> list SimpleCmd -> Prop) : Prop :=
  forall s, sound fuel s -> R (simples s) ->
  match m s with
  | Ok (a, s') => depth s' = depth s /\ simples s ⊆ simples s' /\ Forall headed (simples s')
                  /\ Q a (simples s')
  | Err e => e <> OutOfFuel
  end.

Lemma runs_ret {A} fuel (R : list SimpleCmd -> Prop) (a : A) (Q : A -> list SimpleCmd -> Prop) :
  (forall l, R l -> Q a l) -> runs fuel R (mret a) Q.
Proof. intros HQ s [] HR. split_and!; auto. Qed.

Lemma runs_fail {A} fuel R reason Q : @runs A fuel R (fail (Degrade reason)) Q.
Proof. by intros s _ _. Qed.

Lemma runs_bind {A A'} fuel R (m : collector A) (k : A -> collector A') R' Q :
  stable R -> runs fuel R m R' -> (forall a, runs fuel (fun l => R l /\ R' a l) (k a) Q) ->
  runs fuel R (m ≫= k) Q.
Proof.
  intros HR Hm Hk s Hs Hp. specialize (Hm s Hs Hp). unfold mbind, stm_bind.
  destruct (m s) as [[a s1]|e]; [|done]. destruct Hm as (Hd & Hsub & Hh & Ha).
  specialize (Hk a s1). destruct (k a s1) as [[b s2]|e].
  - destruct Hk as (Hd2 & Hsub2 & Hh2 & Hb).
    + destruct Hs. by split; rewrite ?Hd.
    + split; [by eapply HR|done].
    + split_and!; [congruence | by etrans | done..].
  - apply Hk; [|split; [by eapply HR|done]]. destruct Hs. by split; rewrite ?Hd.
Qed.

Lemma runs_conseq {A} fuel (R R' : list SimpleCmd -> Prop) (m : collector A)
    (Q Q' : A -> list SimpleCmd -> Prop) :
  runs fuel R' m Q' -> (forall l, R l -> R' l) -> (forall a l, Q' a l -> Q a l) ->
  runs fuel R m Q.
Proof.
  intros Hm HR HQ s Hs Hp. specialize (Hm s Hs (HR _ Hp)).
  destruct (m s) as [[a s']|e]; naive_solver.
Qed.

Lemma runs_weaken {A} fuel R (m : collector A) (Q Q' : A -> list SimpleCmd -> Prop) :
  runs fuel R m Q' -> (forall a l, Q' a l -> Q a l) -> runs fuel R m Q.
Proof. intros Hm HQ. by eapply runs_conseq. Qed.

(** A fact known before [m] still holds after it. *)
Lemma runs_frame {A} fuel R (m : collector A) Q :
  stable R -> runs fuel R m Q -> runs fuel R m (fun a l => R l /\ Q a l).
Proof.
  intros HR Hm s Hs Hp. specialize (Hm s Hs Hp). destruct (m s) as [[a s']|e]; [|done].
  destruct Hm as (? & ? & ? & ?). split_and!; try done. by eapply HR.
Qed.

Lemma runs_pre {A} fuel (R : list SimpleCmd -> Prop) (m : collector A) Q :
  runs fuel (fun _ => True) m Q -> runs fuel R m Q.
Proof. intros Hm. by eapply runs_conseq. Qed.

(** A state update that touches neither the leaves nor the depth. *)
Lemma runs_modify fuel R f (Q : unit -> list SimpleCmd -> Prop) :
  (forall s, simples (f s) = simples s /\ depth (f s) = depth s) -> (forall l, R l -> Q tt l) ->
  runs fuel R (modify f) Q.
Proof.
  intros Hf HQ s [] HR. cbn. destruct (Hf s) as [-> ->]. split_and!; auto.
Qed.

Lemma runs_push fuel sc (R : list SimpleCmd -> Prop) :
  headed sc -> runs fuel R (modify (push_simple sc)) (fun _ l => sc ∈ l).
Proof.
  intros Hsc s [? ? Hh] HR. cbn. split_and!; [done|set_solver| |set_solver].
  apply Forall_app. auto.
Qed.

(** Entering one nesting level, as [nested] and the substitutions do. *)
Lemma runs_deeper f f' s m (Q : unit -> list SimpleCmd -> Prop) :
  sound f s -> depth s < MAX_DEPTH -> MAX_DEPTH <= depth s + f' ->
  runs f' (fun _ => True) m Q ->
  match ((_ ← modify (fun a => set_depth (S (depth a)) a); _ ← m;
          modify (fun a => set_depth (depth a - 1) a)) : collector unit) s with
  | Ok (a, s') => depth s' = depth s /\ simples s ⊆ simples s' /\ Forall headed (simples s')
                  /\ Q a (simples s')
  | Err e => e <> OutOfFuel
  end.
Proof.
  intros [? ? ?] Hd Hf Hm. unfold mbind, stm_bind, modify.
  specialize (Hm (set_depth (S (depth s)) s)).
  destruct (m _) as [[[] s']|e]; cbn in *.
  - destruct Hm as (Hd' & ? & ? & ?); [split; cbn; try done; lia | done |].
    split_and!; try done. rewrite Hd'. lia.
  - apply Hm; [split; cbn; try done; lia | done].
Qed.

Lemma runs_nested fuel R m (Q : unit -> list SimpleCmd -> Prop) :
  runs fuel (fun _ => True) m Q -> runs fuel R (nested m) Q.
Proof.
  intros Hm s Hs _. unfold nested, get. unfold mbind at 1, stm_bind at 1.
  destruct (Nat.leb_spec MAX_DEPTH (depth s)); [done|].
  eapply runs_deeper; try done. destruct Hs. lia.
Qed.

Lemma stable_True : stable (fun _ => True).
Proof. done. Qed.

Lemma stable_and R R' : stable R -> stable R' -> stable (fun l => R l /\ R' l).
Proof. intros H1 H2 l l' Hl [? ?]. split; eauto. Qed.

Lemma stable_const (X : Prop) : stable (fun _ => X).
Proof. by intros l l' _. Qed.

Lemma stable_forall {A} (Q : A -> list SimpleCmd -> Prop) l :
  (forall a, stable (Q a)) -> stable (fun leaves => Forall (fun a => Q a leaves) l).
Proof. intros HQ l1 l2 Hl Hall. eapply Forall_impl; [exact Hall|]. intros a. by eapply HQ. Qed.

Lemma runs_for_each {A} fuel R (f : A -> collector unit) (Q : A -> list SimpleCmd -> Prop) l :
  (forall a, stable (Q a)) -> stable R ->
  Forall (fun a => runs fuel R (f a) (fun _ => Q a)) l ->
  runs fuel R (for_each f l) (fun _ leaves => Forall (fun a => Q a leaves) l).
Proof.
  intros HQ HR. induction 1 as [|a l Ha Hl IH]; cbn [for_each].
  { apply runs_ret. by constructor. }
  eapply runs_bind; [done|exact Ha|]. intros []. eapply runs_conseq.
  - apply (runs_frame _ (fun l => R l /\ Q a l)).
    + apply stable_and; [done|apply HQ].
    + eapply runs_conseq; [exact IH|by intros ? []|by intros ? ? ?].
  - done.
  - intros _ leaves [[_ ?] ?]. by constructor.
Qed.

Lemma runs_fold_each {A B'} fuel (f : A -> B' -> collector B')
    (Q : A -> list SimpleCmd -> Prop) (J : list A -> B' -> Prop) l :
  (forall a, stable (Q a)) ->
  Forall (fun a => forall b, runs fuel (fun _ => True) (f a b)
      (fun b' leaves => Q a leaves /\ forall done, J done b -> J (done ++ [a]) b')) l ->
  forall done b, J done b ->
  runs fuel (fun _ => True) (fold_each f l b)
    (fun b' leaves => Forall (fun a => Q a leaves) l /\ J (done ++ l) b').
Proof.
  intros HQ. induction 1 as [|a l Ha Hl IH]; intros prev b HJ; cbn [fold_each].
  { apply runs_ret. intros leaves _. rewrite app_nil_r. by split; [constructor|]. }
  eapply runs_bind; [apply stable_True|apply Ha|]. cbn. intros b'. 
  intros s Hs (_ & Hqa & Hb').
  pose proof (IH (prev ++ [a]) b' (Hb' _ HJ) s Hs I) as Hrun.
  destruct (fold_each f l b' s) as [[b2 s2]|e]; [|done].
  destruct Hrun as (? & Hsub & ? & ? & Hj). rewrite <- app_assoc in Hj.
  split_and!; try done. constructor; [|done]. by eapply HQ.
Qed.
End Runs.

Lemma stable_gathered `{B : BrushOpaque} {P : BrushParser} n : stable (gathered n).
Proof.
  intros l l' Hl Hg s Hn. specialize (Hg s Hn). destruct s as [prefix [w|] suffix]; [|done].
  intros Hgr. destruct (Hg Hgr) as (sc & Hsc & Hof). exists sc. split; [by apply Hl|done].
Qed.

#[export] Hint Resolve stable_gathered stable_True stable_and stable_const stable_forall : tb.

(** ** The collector, node by node *)
Section Nodes.
Context `{B : BrushOpaque} {P : BrushParser} `{RegexEngine}.
Variable fuel : nat.
Variable recurse : string -> collector unit.

Definition gathers {A} (m : collector A) (n : node) : Prop :=
  runs fuel (fun _ => True) m (fun _ => gathered n).

Hypothesis recurse_gathers : forall text,
  runs fuel (fun _ => True) (recurse text)
    (fun _ leaves => forall p, parse_program text = Ok p -> gathered (NProgram p) leaves).

Lemma gathered_piece p i j leaves :
  Forall (fun q => gathered (NPiece q) leaves) (inner_pieces p) ->
  (forall text parsed, substitution_text p = Some text -> parse_program text = Ok parsed ->
     gathered (NProgram parsed) leaves) ->
  gathered (NPiece (MkPiece p i j)) leaves.
Proof.
  intros Hin Hsub. apply gathered_inner; [done|]. intros m Hc. inversion Hc; subst.
  - rewrite Forall_forall in Hin. by apply Hin.
  - by eapply Hsub.
Qed.

(** What walking pieces makes of the literal so far. *)
Definition walked (is_program : bool) (text : option string) (before after : string) : Prop :=
  (forall t, text = Some t -> after = before +:+ t) /\ (is_program = true -> is_Some text).

Lemma concat_snoc l s : String.concat "" (l ++ [s]) = String.concat "" l +:+ s.
Proof.
  induction l as [|x [|y l] IH]; [by destruct s|done|].
  cbn in *. by rewrite IH, !str_app_assoc.
Qed.

Lemma mapM_snoc {A C} (f : A -> option C) l x :
  mapM f (l ++ [x]) = ts ← mapM f l; t ← f x; Some (ts ++ [t]).
Proof.
  induction l as [|y l IH]; [by cbn; destruct (f x)|].
  change (mapM f ((y :: l) ++ [x])) with (t ← f y; ts ← mapM f (l ++ [x]); Some (t :: ts)).
  change (mapM f (y :: l)) with (t ← f y; ts ← mapM f l; Some (t :: ts)).
  destruct (f y) as [t|]; cbn; [|done]. rewrite IH.
  destruct (mapM f l); cbn; [|done]. by destruct (f x).
Qed.

Lemma pieces_text_snoc l p :
  pieces_text (l ++ [p]) = a ← pieces_text l; b ← piece_text p; Some (a +:+ b).
Proof.
  unfold pieces_text. rewrite mapM_snoc.
  destruct (mapM piece_text l) as [ts|]; [|done]. cbn.
  destruct (piece_text p) as [t|]; [|done]. cbn. by rewrite concat_snoc.
Qed.

Lemma walked_snoc b l p s s1 s2 :
  walked b (pieces_text l) s s1 -> walked b (piece_text p) s1 s2 ->
  walked b (pieces_text (l ++ [p])) s s2.
Proof.
  intros [H1 H1'] [H2 H2']. rewrite pieces_text_snoc. split.
  - intros t. destruct (pieces_text l) as [a|]; [|done].
    destruct (piece_text p) as [c|]; [|done]. cbn. intros [= <-].
    by rewrite (H2 c), (H1 a), str_app_assoc by done.
  - intros Hb. destruct (H1' Hb) as [? ->], (H2' Hb) as [? ->]. by eexists.
Qed.

Lemma runs_walk_all b source lit l :
  Forall (fun p => forall s, runs fuel (fun _ => True) (walk_piece recurse source b p s)
     (fun s' leaves => gathered (NPiece p) leaves /\ walked b (piece_text p) s s')) l ->
  runs fuel (fun _ => True) (fold_each (walk_piece recurse source b) l lit)
    (fun s' leaves => Forall (fun p => gathered (NPiece p) leaves) l
                      /\ walked b (pieces_text l) lit s').
Proof.
  intros Hl.
  apply (runs_fold_each fuel _ (fun p => gathered (NPiece p))
           (fun done s => walked b (pieces_text done) lit s) l) with (done := []).
  - auto with tb.
  - eapply Forall_impl; [exact Hl|]. intros p Hp s. eapply runs_conseq; [apply Hp|done|].
    intros s' leaves [? ?]. split; [done|]. intros prev ?. by eapply walked_snoc.
  - split; [|by eexists]. intros t [= <-]. by rewrite str_app_nil_r.
Qed.

Lemma runs_substitution {A} text (a : A) piece i j :
  substitution_text piece = Some text -> inner_pieces piece = [] ->
  runs fuel (fun _ => True) (_ ← modify surface; _ ← recurse text; mret a)
    (fun r leaves => r = a /\ gathered (NPiece (MkPiece piece i j)) leaves).
Proof.
  intros Ht Hin. eapply runs_bind; [auto with tb|by apply (runs_modify _ _ _ (fun _ _ => True))|].
  intros []. eapply runs_bind; [auto with tb|apply runs_pre, recurse_gathers|].
  intros []. apply runs_ret. intros leaves [_ Hg]. split; [done|].
  apply gathered_piece; rewrite ?Hin; [done|]. intros text' parsed E. rewrite Ht in E.
  injection E as <-. apply Hg.
Qed.

Lemma runs_walk_piece b source p : forall s,
  runs fuel (fun _ => True) (walk_piece recurse source b p s)
    (fun s' leaves => gathered (NPiece p) leaves /\ walked b (piece_text p) s s').
Proof.
  induction p as [p i j IH] using tree_piece. intros s.
  assert (Hplain : forall s', substitution_text p = None -> inner_pieces p = [] ->
    walked b (piece_text (MkPiece p i j)) s s' ->
    runs fuel (fun _ => True) (mret s')
      (fun s' leaves => gathered (NPiece (MkPiece p i j)) leaves
                        /\ walked b (piece_text (MkPiece p i j)) s s')).
  { intros s' Hs Hi Hw. apply runs_ret. intros leaves _. split; [|done].
    apply gathered_piece; rewrite ?Hi, ?Hs; done. }
  assert (Hquoted : inner_pieces p <> [] \/ substitution_text p = None ->
    piece_text (MkPiece p i j) = pieces_text (inner_pieces p) ->
    runs fuel (fun _ => True) (fold_each (walk_piece recurse source b) (inner_pieces p) s)
      (fun s' leaves => gathered (NPiece (MkPiece p i j)) leaves
                        /\ walked b (piece_text (MkPiece p i j)) s s')).
  { intros Hs Ht. eapply runs_conseq; [apply runs_walk_all, IH|done|].
    intros s' leaves [Hall Hw]. rewrite Ht. split; [|done].
    apply gathered_piece; [done|]. intros text parsed E. destruct p; try done; naive_solver. }
  destruct p; cbn [walk_piece]; try apply runs_fail.
  all: try (apply Hplain; [done..|]; split; [by intros t [= <-]|by eexists]).
  all: try (apply Hquoted; [by right|done]).
  all: destruct b; [apply runs_fail|].
  all: try (apply Hplain; done).
  - eapply runs_conseq; [by apply (runs_substitution _ _ (CommandSubstitution command) i j)|done|].
    by intros s' leaves [-> ?].
  - eapply runs_conseq;
      [by apply (runs_substitution _ _ (BackquotedCommandSubstitution command) i j)|done|].
    by intros s' leaves [-> ?].
Qed.

Lemma gathered_word w pieces leaves :
  word_parse (word_value w) = Ok pieces ->
  Forall (fun p => gathered (NPiece p) leaves) pieces -> gathered (NWord w) leaves.
Proof.
  intros Hw Hall. apply gathered_inner; [done|]. intros m Hc. inversion Hc; subst.
  rewrite Forall_forall in Hall. apply Hall. congruence.
Qed.

Lemma runs_process_word b w :
  runs fuel (fun _ => True) (process_word recurse w b)
    (fun lit leaves => gathered (NWord w) leaves /\ walked b (word_text w) "" lit).
Proof.
  unfold process_word, word_text. destruct (word_parse (word_value w)) as [pieces|] eqn:E;
    [|apply runs_fail].
  eapply runs_conseq; [apply runs_walk_all|done|].
  - apply Forall_forall. intros p _. apply runs_walk_piece.
  - intros lit leaves [? ?]. split; [by eapply gathered_word|done].
Qed.

Lemma runs_piece_substitutions p : gathers (collect_piece_substitutions recurse p) (NPiece p).
Proof.
  induction p as [p i j IH] using tree_piece. unfold gathers.
  assert (Hplain : substitution_text p = None -> inner_pieces p = [] ->
    gathers (mret tt) (NPiece (MkPiece p i j))).
  { intros Hs Hi. apply runs_ret. intros leaves _.
    apply gathered_piece; rewrite ?Hi, ?Hs; done. }
  assert (Hquoted : substitution_text p = None ->
    gathers (for_each (collect_piece_substitutions recurse) (inner_pieces p))
      (NPiece (MkPiece p i j))).
  { intros Hs. eapply runs_conseq; [by apply (runs_for_each _ (fun _ => True) _ (fun q => gathered (NPiece q)));
      auto with tb|done|].
    intros [] leaves Hall. by apply gathered_piece; rewrite ?Hs. }
  destruct p; cbn [collect_piece_substitutions]; try apply runs_fail;
    try by apply Hplain; try by apply Hquoted.
  all: try (by apply Hquoted).
  all: eapply runs_bind; [auto with tb|by apply (runs_modify _ _ _ (fun _ _ => True))|].
  all: intros []; eapply runs_conseq; [apply recurse_gathers|done|].
  all: intros [] leaves Hg; apply gathered_piece; [done|]; intros ? parsed [= <-]; apply Hg.
Qed.

Lemma runs_word_substitutions w : gathers (collect_word_substitutions recurse w) (NWord w).
Proof.
  unfold collect_word_substitutions, gathers.
  destruct (word_parse (word_value w)) as [pieces|] eqn:E; [|apply runs_fail].
  eapply runs_conseq; [apply (runs_for_each _ (fun _ => True) _ (fun q => gathered (NPiece q)))|done|].
  - auto with tb.
  - auto with tb.
  - apply Forall_forall. intros p _. apply runs_piece_substitutions.
  - intros [] leaves Hall. by eapply gathered_word.
Qed.

Lemma gathered_assignment a leaves :
  Forall (fun w => gathered (NWord w) leaves) (value_words (asg_value a)) ->
  gathered (NAssignment a) leaves.
Proof.
  intros Hall. apply gathered_inner; [done|]. intros m Hc. inversion Hc; subst.
  rewrite Forall_forall in Hall. by apply Hall.
Qed.

Lemma runs_assignment a : gathers (collect_assignment recurse a) (NAssignment a).
Proof.
  unfold collect_assignment, gathers. case_match; [apply runs_fail|].
  eapply runs_bind; [auto with tb|by apply (runs_modify _ _ _ (fun _ _ => True))|].
  intros []. apply runs_pre. destruct (asg_value a) as [w|items] eqn:Ea.
  - eapply runs_conseq; [apply runs_word_substitutions|done|].
    intros [] leaves Hg. apply gathered_assignment. rewrite Ea. by repeat constructor.
  - eapply runs_conseq;
      [apply (runs_for_each _ (fun _ => True) _ (fun kv : option Word * Word => gathered (NWord kv.2)))|done|].
    + auto with tb.
    + auto with tb.
    + apply Forall_forall. intros kv _. apply runs_word_substitutions.
    + intros [] leaves Hall. apply gathered_assignment. rewrite Ea. cbn. by apply Forall_map.
Qed.

(** ** Items of a simple command *)
Definition item_effect (slotted : bool) (items : list CommandPrefixOrSuffixItem)
    (loc loc' : Locals) : Prop :=
  exists args, l_argv loc' = l_argv loc ++ args
  /\ Forall2 spells (item_words items) args
  /\ slot_words (l_slots loc') = slot_words (l_slots loc) ++ (if slotted then args else []).

Lemma slot_words_app a b : slot_words (a ++ b) = slot_words a ++ slot_words b.
Proof. induction a as [|[w|] a IH]; cbn; by rewrite ?IH. Qed.

Lemma item_effect_silent b loc loc' item :
  item_words [item] = [] -> l_argv loc' = l_argv loc ->
  slot_words (l_slots loc') = slot_words (l_slots loc) -> item_effect b [item] loc loc'.
Proof.
  intros Hi Ha Hs. exists []. rewrite Hi, Ha, Hs, !app_nil_r. split_and!; [done|constructor|].
  by destruct b; rewrite app_nil_r.
Qed.

Lemma item_effect_snoc b items item loc loc1 loc2 :
  item_effect b items loc loc1 -> item_effect b [item] loc1 loc2 ->
  item_effect b (items ++ [item]) loc loc2.
Proof.
  intros (a1 & E1 & F1 & S1) (a2 & E2 & F2 & S2). exists (a1 ++ a2).
  rewrite E2, E1, S2, S1, <- !app_assoc. split_and!; [done| |by destruct b].
  unfold item_words in *. rewrite omap_app. by apply Forall2_app.
Qed.

Definition arg_runs (item : CommandPrefixOrSuffixItem) : Prop :=
  forall b loc, runs fuel (fun _ => True) (collect_prefix_or_suffix_item recurse b item loc)
    (fun loc' leaves => gathered (NArg item) leaves /\ item_effect b [item] loc loc').

Definition redirect_runs (r : IoRedirect) : Prop :=
  forall wr, gathers (collect_redirect recurse r wr) (NRedirect r).

(** A node whose only part has been gathered. *)
Lemma gathered_only n m leaves :
  (forall s, n <> NSimple s) -> (forall k, child n k -> k = m) ->
  gathered m leaves -> gathered n leaves.
Proof. intros Hn Hc Hm. apply gathered_inner; [done|]. by intros k ->%Hc. Qed.

Lemma gathered_none n leaves :
  (forall s, n <> NSimple s) -> (forall k, ~ child n k) -> gathered n leaves.
Proof. intros Hn Hc. apply gathered_inner; [done|]. by intros k ?%Hc. Qed.

(** Close a node by its one gathered part. *)
Ltac part Hg :=
  eapply gathered_only; [done | intros ? Hc; by inversion Hc; simplify_eq/= | exact Hg].

Lemma runs_items b items loc :
  Forall arg_runs items ->
  runs fuel (fun _ => True) (fold_each (collect_prefix_or_suffix_item recurse b) items loc)
    (fun loc' leaves => Forall (fun i => gathered (NArg i) leaves) items
                        /\ item_effect b items loc loc').
Proof.
  intros Hall.
  apply (runs_fold_each fuel _ (fun i => gathered (NArg i))
           (fun done loc' => item_effect b done loc loc') items) with (done := []).
  - auto with tb.
  - eapply Forall_impl; [exact Hall|]. intros i Hi loc1. eapply runs_conseq; [apply Hi|done|].
    intros loc2 leaves [? ?]. split; [done|]. intros prev ?. by eapply item_effect_snoc.
  - exists []. rewrite app_nil_r. split_and!; [done|constructor|]. by destruct b; rewrite app_nil_r.
Qed.

Lemma runs_arg_redirect r : redirect_runs r -> arg_runs (ItemIoRedirect r).
Proof.
  intros Hr b loc. cbn [collect_prefix_or_suffix_item].
  eapply runs_bind; [auto with tb|apply Hr|]. intros wr. apply runs_ret.
  intros leaves [_ Hg]. split; [|by apply item_effect_silent].
  part Hg.
Qed.

Lemma runs_arg_word w : arg_runs (ItemWord w).
Proof.
  intros b loc. cbn [collect_prefix_or_suffix_item].
  eapply runs_bind; [auto with tb|apply runs_process_word|]. intros lit. apply runs_ret.
  intros leaves (_ & Hg & Hw & _). split.
  - part Hg.
  - exists [lit]. split_and!.
    + by destruct b.
    + repeat constructor. intros t Ht. by rewrite (Hw t Ht).
    + destruct b; cbn; [|by rewrite app_nil_r]. by rewrite slot_words_app.
Qed.

Lemma runs_arg_assignment a w : arg_runs (ItemAssignmentWord a w).
Proof.
  intros b loc. cbn [collect_prefix_or_suffix_item].
  eapply runs_bind; [auto with tb|apply runs_assignment|]. intros []. apply runs_ret.
  intros leaves [_ Hg]. split.
  - part Hg.
  - apply item_effect_silent; [done|by destruct b|]. destruct b; [|done].
    cbn. by rewrite slot_words_app, app_nil_r.
Qed.

Lemma runs_arg_substitution k l :
  gathers (collect_compound_list recurse l) (NList l) -> arg_runs (ItemProcessSubstitution k l).
Proof.
  intros Hl b loc. cbn [collect_prefix_or_suffix_item].
  eapply runs_bind; [auto with tb|by apply (runs_modify _ _ _ (fun _ _ => True))|]. intros [].
  eapply runs_bind; [auto with tb|apply runs_nested, Hl|]. intros []. apply runs_ret.
  intros leaves [_ Hg]. split; [|by apply item_effect_silent].
  part Hg.
Qed.

Lemma runs_target t :
  (forall l, substituted t = Some l -> gathers (collect_compound_list recurse l) (NList l)) ->
  gathers (collect_target recurse t) (NTarget t).
Proof.
  intros Hl. unfold gathers. destruct t as [w|fd|k l|w]; cbn [collect_target].
  - eapply runs_bind; [auto with tb|apply runs_process_word|]. intros lit. apply runs_ret.
    intros leaves (_ & Hg & _). part Hg.
  - apply runs_ret. intros leaves _. apply gathered_none; [done|]. intros m Hc. by inversion Hc.
  - eapply runs_bind; [auto with tb|by apply (runs_modify _ _ _ (fun _ _ => True))|]. intros [].
    eapply runs_bind; [auto with tb|by apply runs_nested, Hl|]. intros []. apply runs_ret.
    intros leaves [_ Hg]. part Hg.
  - eapply runs_bind; [auto with tb|apply runs_process_word|]. intros lit. apply runs_ret.
    intros leaves (_ & Hg & _). part Hg.
Qed.

Lemma runs_stage b items loc :
  Forall arg_runs (option_list items) ->
  runs fuel (fun _ => True)
    (match items with
     | Some items => fold_each (collect_prefix_or_suffix_item recurse b) items loc
     | None => mret loc
     end)
    (fun loc' leaves => Forall (fun i => gathered (NArg i) leaves) (option_list items)
                        /\ item_effect b (option_list items) loc loc').
Proof.
  intros Hall. destruct items as [items|]; [by apply runs_items|].
  apply runs_ret. intros leaves _. split; [constructor|]. exists []. rewrite app_nil_r.
  split_and!; [done|constructor|]. by destruct b; rewrite app_nil_r.
Qed.

(** The command word: its text, appended to [argv]. *)
Definition named (w : option Word) (loc loc' : Locals) : Prop :=
  match w with
  | Some w => exists t, word_text w = Some t /\ loc' = push_argv t loc
  | None => loc' = loc
  end.

Lemma runs_name (w : option Word) loc :
  runs fuel (fun _ => True)
    (match w with
     | Some word =>
         program ← process_word recurse word true;
         if starts_with program "=" then
           fail (Degrade ("zsh =-expansion command: " +:+ program))
         else if is_match_or_true unresolvable_program_re program then
           fail (Degrade ("unresolvable program word: " +:+ program))
         else mret (push_argv program loc)
     | None => mret loc
     end)
    (fun loc' leaves => (forall word, w = Some word -> gathered (NWord word) leaves)
                        /\ named w loc loc').
Proof.
  destruct w as [word|]; [|by apply runs_ret].
  eapply runs_bind; [auto with tb|apply runs_process_word|]. intros program.
  case_match; [apply runs_fail|]. case_match; [apply runs_fail|].
  apply runs_ret. intros leaves (_ & Hg & Ht & Hs). split; [by intros ? [= <-]|].
  destruct (Hs eq_refl) as [t Et]. exists t. split; [done|]. by rewrite (Ht t Et).
Qed.

(** The leaf of a grammatical command, from the effect of its three stages. *)
Lemma stages_leaf prefix w suffix loc1 loc2 loc3 :
  item_effect false (option_list prefix) locals_default loc1 -> named (Some w) loc1 loc2 ->
  item_effect true (option_list suffix) loc2 loc3 ->
  grammatical (MkSimpleCommand prefix (Some w) suffix) ->
  forall program, head (l_argv loc3) = Some program ->
  leaf_of w suffix
    (MkSimpleCmd program (l_argv loc3) (l_slots loc3) (l_writes loc3) (l_reads loc3)).
Proof.
  intros (a1 & E1 & F1 & S1) (t & Et & ->) (a3 & E3 & F3 & S3) [Hgr _] program Hhd.
  assert (Hnil : item_words (option_list prefix) = []).
  { clear - Hgr. induction Hgr as [|i l Hi _ IH]; [done|]. by destruct i. }
  rewrite Hnil in F1. inversion F1; subst. cbn in E1, S1, E3, S3.
  rewrite E1 in E3. rewrite E3 in Hhd. cbn in Hhd. injection Hhd as <-.
  exists a3. cbn. rewrite S1 in S3. by rewrite E3.
Qed.

Lemma runs_simple_command prefix w suffix :
  Forall arg_runs (option_list prefix) -> Forall arg_runs (option_list suffix) ->
  gathers (collect_simple_command recurse (MkSimpleCommand prefix w suffix))
    (NSimple (MkSimpleCommand prefix w suffix)).
Proof.
  intros Hp Hs. unfold gathers. cbn [collect_simple_command].
  eapply runs_bind; [auto with tb|by apply runs_stage|]. intros loc1.
  eapply runs_bind; [|apply runs_pre, runs_name|].
  { apply stable_and; [auto with tb|]. apply stable_and; auto with tb. }
  intros loc2. eapply runs_bind; [|by apply runs_pre, runs_stage|].
  { repeat apply stable_and; auto with tb. intros l l' Hl Hw word Hword.
    eapply stable_gathered; [exact Hl|]. by apply Hw. }
  intros loc3.
  assert (Hparts : forall leaves,
    Forall (fun i => gathered (NArg i) leaves) (option_list prefix) ->
    (forall word, w = Some word -> gathered (NWord word) leaves) ->
    Forall (fun i => gathered (NArg i) leaves) (option_list suffix) ->
    has_leaf (MkSimpleCommand prefix w suffix) leaves ->
    gathered (NSimple (MkSimpleCommand prefix w suffix)) leaves).
  { intros leaves H1 H2 H3 Hleaf. rewrite Forall_forall in H1. rewrite Forall_forall in H3.
    apply gathered_node; [by intros s [= <-]|]. intros m Hc. inversion Hc; subst; auto. }
  destruct (l_argv loc3) as [|program args] eqn:Hargv.
  - apply runs_modify; [done|]. intros leaves (((_ & H1 & _) & H2 & Hn) & H3 & He).
    apply Hparts; [done..|]. destruct w as [w|]; [|done]. intros _.
    destruct Hn as (t & _ & ->), He as (a & E & _). rewrite Hargv in E. cbn in E.
    by destruct (l_argv loc1).
  - eapply runs_weaken; [apply runs_frame; [|apply runs_push]|].
    + repeat apply stable_and; auto with tb. intros l l' Hl Hw word Hword.
      eapply stable_gathered; [exact Hl|]. by apply Hw.
    + by exists args.
    + intros [] leaves [(((_ & H1 & He1) & H2 & Hn) & H3 & He3) Hin].
      apply Hparts; [done..|]. destruct w as [w|]; [|done]. intros Hgr.
      eexists. split; [exact Hin|]. rewrite <- Hargv. eapply stages_leaf; try done.
      by rewrite Hargv.
Qed.

Lemma gathers_for_each {A} (f : A -> collector unit) (node_of : A -> node) l n :
  Forall (fun a => gathers (f a) (node_of a)) l ->
  (forall leaves, Forall (fun a => gathered (node_of a) leaves) l -> gathered n leaves) ->
  gathers (for_each f l) n.
Proof.
  intros Hl Hn. eapply runs_weaken.
  - apply (runs_for_each _ _ _ (fun a => gathered (node_of a))); auto with tb.
  - intros [] leaves. apply Hn.
Qed.

Lemma runs_redirects c r :
  Forall redirect_runs (redirects_of r) ->
  runs fuel (gathered (NCompound c))
    (match r with
     | Some (MkRedirectList redirects) =>
         for_each (fun redirect =>
           wr ← collect_redirect recurse redirect ([], []);
           modify (extend_group wr.1 wr.2)) redirects
     | None => mret tt
     end)
    (fun _ => gathered (NCommand (Compound c r))).
Proof.
  intros Hr.
  assert (Hdone : forall leaves, gathered (NCompound c) leaves ->
    Forall (fun io => gathered (NRedirect io) leaves) (redirects_of r) ->
    gathered (NCommand (Compound c r)) leaves).
  { intros leaves Hg Hall. rewrite Forall_forall in Hall. apply gathered_inner; [done|].
    intros m Hc. inversion Hc; subst; auto. }
  destruct r as [[redirects]|]; [|apply runs_ret; auto].
  eapply runs_weaken; [apply runs_frame; [auto with tb|]|].
  - apply runs_pre, (runs_for_each _ _ _ (fun io => gathered (NRedirect io))); [auto with tb..|].
    eapply Forall_impl; [exact Hr|]. intros io Hio.
    eapply runs_bind; [auto with tb|apply Hio|]. intros wr. apply runs_modify; [done|].
    by intros leaves [_ ?].
  - intros [] leaves [? ?]. auto.
Qed.

Definition list_gathers (l : CompoundList) : Prop :=
  gathers (collect_compound_list recurse l) (NList l).

Lemma runs_compound c :
  (forall l, group_of c = Some l -> list_gathers l) ->
  gathers (collect_compound_command recurse c) (NCompound c).
Proof.
  intros Hl. unfold gathers. destruct c; cbn [collect_compound_command]; try apply runs_fail.
  all: eapply runs_weaken; [by apply Hl|]; intros [] leaves Hg; part Hg.
Qed.

Lemma runs_list l : list_gathers l.
Proof.
  apply (tree_list list_gathers
    (fun i => gathers (collect_compound_list_item recurse i) (NItem i))
    (fun a => gathers (collect_and_or_list recurse a) (NAndOrList a))
    (fun a => gathers (collect_and_or recurse a) (NAndOr a))
    (fun p => gathers (collect_pipeline recurse p) (NPipeline p))
    (fun c => gathers (collect_command recurse c) (NCommand c))
    (fun c => gathers (collect_compound_command recurse c) (NCompound c))
    (fun c => gathers (collect_simple_command recurse c) (NSimple c))
    arg_runs redirect_runs
    (fun t => gathers (collect_target recurse t) (NTarget t))); clear l.
  - intros items Hi. eapply gathers_for_each; [exact Hi|]. intros leaves Hall.
    rewrite Forall_forall in Hall. apply gathered_inner; [done|].
    intros m Hc. inversion Hc; subst; auto.
  - intros l sep Hl. eapply runs_weaken; [exact Hl|]. intros [] leaves Hg. part Hg.
  - intros first rest Hf Hr. unfold gathers. cbn [collect_and_or_list].
    eapply runs_bind; [auto with tb|exact Hf|]. intros [].
    eapply runs_weaken; [apply runs_frame; [auto with tb|]|].
    + apply runs_pre, (runs_for_each _ _ _ (fun a => gathered (NAndOr a))); auto with tb.
    + intros [] leaves [[_ Hg] Hall]. rewrite Forall_forall in Hall.
      apply gathered_inner; [done|]. intros m Hc. inversion Hc; subst; auto.
  - intros p Hp. eapply runs_weaken; [exact Hp|]. intros [] leaves Hg. part Hg.
  - intros p Hp. eapply runs_weaken; [exact Hp|]. intros [] leaves Hg. part Hg.
  - intros t b seq Hs. eapply gathers_for_each; [exact Hs|]. intros leaves Hall.
    rewrite Forall_forall in Hall. apply gathered_inner; [done|].
    intros m Hc. inversion Hc; subst; auto.
  - intros s Hs. eapply runs_weaken; [exact Hs|]. intros [] leaves Hg. part Hg.
  - intros c r Hc Hr. unfold gathers. cbn [collect_command].
    eapply runs_bind; [auto with tb|exact Hc|]. intros [].
    eapply runs_conseq; [apply runs_redirects, Hr|by intros leaves [_ ?]|done].
  - intros f. apply runs_fail.
  - intros t r. apply runs_fail.
  - apply runs_compound.
  - apply runs_simple_command.
  - apply runs_arg_redirect.
  - apply runs_arg_word.
  - apply runs_arg_assignment.
  - apply runs_arg_substitution.
  - intros fd k t Ht wr. unfold gathers. cbn [collect_redirect].
    eapply runs_bind; [auto with tb|exact Ht|]. intros path. apply runs_ret.
    intros leaves [_ Hg]. part Hg.
  - intros fd d wr. apply runs_ret. intros leaves _.
    apply gathered_none; [done|]. intros m Hc. by inversion Hc.
  - intros fd w wr. apply runs_ret. intros leaves _.
    apply gathered_none; [done|]. intros m Hc. by inversion Hc.
  - intros w a wr. unfold gathers. cbn [collect_redirect].
    eapply runs_bind; [auto with tb|apply runs_process_word|]. intros lit. apply runs_ret.
    intros leaves (_ & Hg & _). part Hg.
  - apply runs_target.
Qed.

Lemma runs_program p : gathers (collect_program_with recurse p) (NProgram p).
Proof.
  eapply (gathers_for_each _ NList).
  - apply Forall_forall. intros l _. apply runs_list.
  - intros leaves Hall. rewrite Forall_forall in Hall. apply gathered_inner; [done|].
    intros m Hc. inversion Hc; subst; auto.
Qed.
End Nodes.

(** ** Tying the recursion through substitution text *)
Section Recursion.
Context `{B : BrushOpaque} {P : BrushParser} `{RegexEngine}.

Lemma recursion_runs fuel : forall text,
  runs fuel (fun _ => True) (recurse_into_command_substitution fuel text)
    (fun _ leaves => forall p, parse_program text = Ok p -> gathered (NProgram p) leaves).
Proof.
  induction fuel as [|fuel IH]; intros text s Hs _.
  { destruct Hs. lia. }
  cbn [recurse_into_command_substitution]. unfold mbind at 1, stm_bind at 1, get.
  destruct (Nat.leb_spec MAX_DEPTH (depth s)); [done|].
  destruct (parse_program text) as [p|err] eqn:E; [|done].
  eapply (runs_deeper _ fuel s _
    (fun _ leaves => forall p', Ok p = Ok p' -> gathered (NProgram p') leaves));
    [done|done|destruct Hs; lia|].
  eapply runs_weaken; [apply runs_program, IH|]. by intros [] leaves Hg ? [= <-].
Qed.

Lemma collect_program_runs p :
  runs (S MAX_DEPTH) (fun _ => True) (collect_program p) (fun _ => gathered (NProgram p)).
Proof. apply runs_program, recursion_runs. Qed.

Lemma default_sound : sound (S MAX_DEPTH) collected_default.
Proof. split; cbn; [lia | unfold MAX_DEPTH; lia | constructor]. Qed.

(** What one successful collection from the empty state gives. *)
Lemma collect_program_ok p acc :
  collect_program p collected_default = Ok (tt, acc) ->
  depth acc = 0 /\ Forall headed (simples acc) /\ gathered (NProgram p) (simples acc).
Proof.
  intros Hrun. pose proof (collect_program_runs p collected_default default_sound I) as Hr.
  rewrite Hrun in Hr. destruct Hr as (? & _ & ? & ?). done.
Qed.
End Recursion.
