(* ===== verification/ShellPolicy.v ===== *)
(** * Shell policy: the verdict

    [analyze_shell_command], [analyze_argv], [evaluate] and the grant rungs of
    [crates/tidebreak-shell-policy/src/lib.rs], over the collector of
    [ShellCollect]. *)

From S2P Require Export ShellCollect.

Open Scope tb_scope.

(** ** Public types *)
Inductive ShellVerdict : Type := Allow | Ask | Deny.
Inductive CommandRuleKind : Type := Exact | Prefix | All.

#[export] Instance ShellVerdict_eq_dec : EqDecision ShellVerdict.
Proof. solve_decision. Defined.
#[export] Instance CommandRuleKind_eq_dec : EqDecision CommandRuleKind.
Proof. solve_decision. Defined.

Record CommandRule : Type := MkRule { kind : CommandRuleKind; tokens : list string }.

#[export] Instance CommandRule_eq_dec : EqDecision CommandRule.
Proof. solve_decision. Defined.

(** [CommandRule::new] *)
Definition CommandRule_new (kind : CommandRuleKind) (tokens : list string)
    : result string CommandRule :=
  match kind, tokens with
  | All, _ :: _ => Err "an 'all' rule must have no tokens"
  | (Exact | Prefix), [] => Err "an exact/prefix rule requires tokens"
  | _, _ => Ok (MkRule kind tokens)
  end.

(** [CommandRule::matches] *)
Definition rule_matches (rule : CommandRule) (argv : list string) : bool :=
  match kind rule with
  | All => true
  | Exact => bool_decide (argv = tokens rule)
  | Prefix => (length (tokens rule) <=? length argv)
              && bool_decide (take (length (tokens rule)) argv = tokens rule)
  end.

Record ShellRuleSet : Type := MkRuleSet { allow : list CommandRule; deny : list CommandRule }.

Record ShellAnalysis : Type := MkAnalysis {
  verdict : ShellVerdict; reason : string; offending_command : option string }.

Definition analysis_new (v : ShellVerdict) (reason : string) : ShellAnalysis :=
  MkAnalysis v reason None.
Definition with_offender (v : ShellVerdict) (reason offender : string) : ShellAnalysis :=
  MkAnalysis v reason (Some offender).

Inductive Expansion : Type := Pending | Resolved.
#[export] Instance Expansion_eq_dec : EqDecision Expansion.
Proof. solve_decision. Defined.

Definition rule_may_cover (k : CommandRuleKind) (program : string) : bool :=
  match k with
  | Exact => true
  | Prefix => negb (is_exact_only program)
  | All => negb (is_exact_only program) && negb (runs_supplied_code program)
  end.

Section Verdict.
Context `{UnicodeLower, RegexEngine}.

(** ** [evaluate], tier by tier; each loop body is the [find_map] of its
    early returns, in the order of the source. *)
Section Tiers.
Variables (acc : Collected) (ruleset : ShellRuleSet) (expansion : Expansion).

Definition unvettable_argument (token : string) (role : OperandRole) : bool :=
  bool_decide (expansion = Pending) && unvettable_path_argument token role.
Definition unvettable_target (token : string) : bool :=
  bool_decide (expansion = Pending) && unvettable_redirect_target token.

(** (1) The deny floor. *)
Definition deny_simple (sc : SimpleCmd) : option ShellAnalysis :=
  when (is_interpreter (program sc))
    (with_offender Deny ("interpreter invocation: " +:+ program sc) (display sc))
  <||> find_map (fun target =>
         when (hits_sensitive target)
           (with_offender Deny ("write to sensitive path: " +:+ target) (display sc)))
         (write_targets sc)
  <||> find_map (fun rule =>
         when (rule_matches rule (argv sc))
           (with_offender Deny ("matches deny rule: " +:+ display sc) (display sc)))
         (deny ruleset).

Definition deny_group_target (target : string) : option ShellAnalysis :=
  when (hits_sensitive target)
    (with_offender Deny ("write to sensitive path: " +:+ target) target).

Definition deny_floor : option ShellAnalysis :=
  find_map deny_simple (simples acc)
  <||> find_map deny_group_target (group_write_targets acc).

(** (2) Escalation. *)
Definition ask_assignment (value : string) : option ShellAnalysis :=
  when (hits_sensitive value)
    (with_offender Ask ("assignment names a sensitive path: " +:+ value) value)
  <||> when (climbs_out value)
    (with_offender Ask ("assignment escapes folder: " +:+ value) value).

Definition ask_argument (sc : SimpleCmd) (arg : string * OperandRole) : option ShellAnalysis :=
  when (hits_sensitive arg.1)
    (with_offender Ask ("sensitive path in arguments: " +:+ display sc) (display sc))
  <||> when (climbs_out arg.1)
    (with_offender Ask ("argument escapes folder: " +:+ display sc) (display sc))
  <||> when (unvettable_argument arg.1 arg.2)
    (with_offender Ask ("unresolved path in arguments: " +:+ display sc) (display sc)).

Definition ask_read_target (sc : SimpleCmd) (target : string) : option ShellAnalysis :=
  when (hits_sensitive target)
    (with_offender Ask ("read from sensitive path: " +:+ target) (display sc))
  <||> when (unvettable_target target)
    (with_offender Ask ("read from a path that cannot be vetted: " +:+ target) (display sc)).

Definition ask_redirect_target (sc : SimpleCmd) (target : string) : option ShellAnalysis :=
  when (climbs_out target)
    (with_offender Ask ("redirect target escapes folder: " +:+ target) (display sc))
  <||> when (unvettable_target target)
    (with_offender Ask ("redirect target cannot be vetted: " +:+ target) (display sc)).

Definition ask_simple (sc : SimpleCmd) : option ShellAnalysis :=
  let args := tail (argv sc) in
  when (is_execution_enabling (program sc) args)
    (with_offender Ask ("execution-enabling construct: " +:+ display sc) (display sc))
  <||> when (is_destructive (program sc) args)
    (with_offender Ask ("destructive operation: " +:+ display sc) (display sc))
  <||> find_map (ask_argument sc) (zip args (operand_roles (program sc) (arg_slots sc)))
  <||> find_map (ask_read_target sc) (read_targets sc)
  <||> find_map (ask_redirect_target sc) (write_targets sc ++ read_targets sc).

Definition ask_group_target (target : string) : option ShellAnalysis :=
  when (hits_sensitive target)
    (with_offender Ask ("redirect to sensitive path: " +:+ target) target)
  <||> when (unvettable_target target)
    (with_offender Ask ("redirect to a path that cannot be vetted: " +:+ target) target)
  <||> when (climbs_out target)
    (with_offender Ask ("redirect target escapes folder: " +:+ target) target).

Definition escalation : option ShellAnalysis :=
  find_map ask_assignment (assignment_values acc)
  <||> find_map ask_simple (simples acc)
  <||> find_map ask_group_target (group_read_targets acc ++ group_write_targets acc).

(** (3) Conjunctive allow. *)
Definition covered (sc : SimpleCmd) : bool :=
  existsb (fun rule => rule_may_cover (kind rule) (program sc) && rule_matches rule (argv sc))
    (allow ruleset).

Definition ask_uncovered (sc : SimpleCmd) : option ShellAnalysis :=
  when (negb (covered sc))
    (with_offender Ask ("no allow rule covers: " +:+ display sc) (display sc)).

Definition evaluate : ShellAnalysis :=
  match deny_floor <||> escalation <||> find_map ask_uncovered (simples acc) with
  | Some analysis => analysis
  | None => analysis_new Allow "all sub-commands covered by allow rules"
  end.
End Tiers.

(** ** [analyze_argv] *)
Definition collected_argv (program : string) (argv : list string) : Collected :=
  MkCollected [MkSimpleCmd program argv (map SlotWord (tail argv)) [] []] 0 [] [] [] 0.

Definition analyze_argv (argv : list string) (ruleset : ShellRuleSet) : ShellAnalysis :=
  match argv with
  | [] => analysis_new Ask "empty command"
  | program :: _ => evaluate (collected_argv program argv) ruleset Resolved
  end.

(** ** [analyze_shell_command] *)
Context `{B : BrushOpaque} {P : BrushParser}.

Definition analyze_shell_command (command : string) (ruleset : ShellRuleSet) : ShellAnalysis :=
  if trim_is_empty command then analysis_new Ask "empty command"
  else if has_obfuscated_construct command then
    analysis_new Ask "obfuscated construct ($'...', =(...), or brace expansion)"
  else match parse_program command with
       | Err reason => analysis_new Ask ("unparsable command: " +:+ reason)
       | Ok program =>
           match collect_program program collected_default with
           | Err (Degrade reason) => analysis_new Ask reason
           | Err OutOfFuel => analysis_new Ask "out of fuel"
           | Ok (_, acc) =>
               if surfaced_substitutions acc <? count_substitution_markers command then
                 analysis_new Ask "possible hidden command substitution"
               else if match simples acc with [] => true | _ => false end then
                 analysis_new Ask "no executable command found"
               else evaluate acc ruleset Pending
           end
       end.

(** ** Grant rungs *)
Definition simple_command_argvs (command : string) : option (list (list string)) :=
  if trim_is_empty command || has_obfuscated_construct command then None
  else match parse_program command with
       | Err _ => None
       | Ok program =>
           match collect_program program collected_default with
           | Err _ => None
           | Ok (_, acc) =>
               if surfaced_substitutions acc <? count_substitution_markers command then None
               else match simples acc with
                    | [] => None
                    | _ => Some (map argv (simples acc))
                    end
           end
       end.

(** The leading tokens that are not flags. *)
Fixpoint take_operands (l : list string) : list string :=
  match l with
  | [] => []
  | token :: l' => if starts_with token "-" then [] else token :: take_operands l'
  end.

Definition subcommand_prefix (argv : list string) : list string :=
  match argv with
  | [] => []
  | program :: rest => program :: take_operands rest
  end.

(** [candidates.extend(CommandRule::new(..))]: an [Err] adds nothing. *)
Definition extend_rule (r : result string CommandRule) : list CommandRule :=
  match r with Ok rule => [rule] | Err _ => [] end.

(** The verification loop shared by the two ladders. *)
Fixpoint verified_rungs (allows : CommandRule -> bool) (candidates rungs : list CommandRule)
    : list CommandRule :=
  match candidates with
  | [] => rungs
  | rule :: rest =>
      if bool_decide (rule ∈ rungs) then verified_rungs allows rest rungs
      else if allows rule then verified_rungs allows rest (rungs ++ [rule])
      else verified_rungs allows rest rungs
  end.

Definition argv_candidates (argv : list string) : list CommandRule :=
  extend_rule (CommandRule_new Exact argv)
  ++ extend_rule (CommandRule_new Prefix (subcommand_prefix argv))
  ++ extend_rule (CommandRule_new Prefix (take 1 argv)).

Definition grants_alone (analyze : ShellRuleSet -> ShellAnalysis) (rule : CommandRule) : bool :=
  bool_decide (verdict (analyze (MkRuleSet [rule] [])) = Allow).

Definition suggested_rungs_for_argv (argv : list string) : list CommandRule :=
  match argv with
  | [] => []
  | _ => verified_rungs (grants_alone (analyze_argv argv))
           (argv_candidates argv ++ extend_rule (CommandRule_new All [])) []
  end.

Definition suggested_rungs (command : string) : list CommandRule :=
  let candidates :=
    match simple_command_argvs command with
    | Some [argv] => argv_candidates argv
    | _ => []
    end in
  verified_rungs (grants_alone (analyze_shell_command command))
    (candidates ++ extend_rule (CommandRule_new All [])) [].
End Verdict.
