(* ===== verification/PolicyFacts.v ===== *)
(** * Shell policy: what the verdict means

    The theorems about [analyze_shell_command], [analyze_argv], [evaluate] and
    the grant rungs: the exact meaning of [Allow] and [Deny], the effect of a
    rule set's size on the verdict, which rules may cover which programs, the
    end-to-end guarantee for every command nested in an allowed command line,
    and the soundness and completeness of the suggested grants. *)

From S2P Require Export ShellPolicy CollectFacts PathFacts.

Open Scope tb_scope.

(** ** What passing each tier means *)
Section Meaning.
Context `{UnicodeLower, RegexEngine}.

(** Every written target of a leaf or a group stays clear of the floor. *)
Definition clear_of_floor (acc : Collected) (deny_rules : list CommandRule) : Prop :=
  Forall (fun sc => is_interpreter (program sc) = false
    /\ Forall (fun t => hits_sensitive t = false) (write_targets sc)
    /\ Forall (fun r => rule_matches r (argv sc) = false) deny_rules) (simples acc)
  /\ Forall (fun t => hits_sensitive t = false) (group_write_targets acc).

(** An argument the escalation tier lets through. *)
Definition argument_ok (e : Expansion) (arg : string * OperandRole) : Prop :=
  hits_sensitive arg.1 = false /\ climbs_out arg.1 = false
  /\ unvettable_argument e arg.1 arg.2 = false.

Definition leaf_ok (e : Expansion) (sc : SimpleCmd) : Prop :=
  let args := tail (argv sc) in
  is_execution_enabling (program sc) args = false
  /\ is_destructive (program sc) args = false
  /\ Forall (argument_ok e) (zip args (operand_roles (program sc) (arg_slots sc)))
  /\ Forall (fun t => hits_sensitive t = false /\ unvettable_target e t = false) (read_targets sc)
  /\ Forall (fun t => climbs_out t = false /\ unvettable_target e t = false)
       (write_targets sc ++ read_targets sc).

Definition not_escalated (acc : Collected) (e : Expansion) : Prop :=
  Forall (fun v => hits_sensitive v = false /\ climbs_out v = false) (assignment_values acc)
  /\ Forall (leaf_ok e) (simples acc)
  /\ Forall (fun t => hits_sensitive t = false /\ unvettable_target e t = false
                      /\ climbs_out t = false)
       (group_read_targets acc ++ group_write_targets acc).

Definition all_covered (acc : Collected) (allow_rules : list CommandRule) : Prop :=
  Forall (fun sc => exists r, r ∈ allow_rules /\ rule_may_cover (kind r) (program sc) = true
                              /\ rule_matches r (argv sc) = true) (simples acc).

(** A loop of early returns falls through when each of its bodies does. *)
Ltac fall_through :=
  repeat (setoid_rewrite or_else_None || setoid_rewrite find_map_None);
  repeat setoid_rewrite when_None.

Lemma deny_floor_None acc rs :
  deny_floor acc rs = None <-> clear_of_floor acc (deny rs).
Proof.
  unfold deny_floor, deny_simple, deny_group_target, clear_of_floor. fall_through. done.
Qed.

Lemma escalation_None acc e : escalation acc e = None <-> not_escalated acc e.
Proof.
  unfold escalation, ask_assignment, ask_simple, ask_argument, ask_read_target,
    ask_redirect_target, ask_group_target, not_escalated, leaf_ok, argument_ok.
  fall_through. done.
Qed.

Lemma covered_true rs sc :
  covered rs sc = true <-> exists r, r ∈ allow rs /\ rule_may_cover (kind r) (program sc) = true
                                  /\ rule_matches r (argv sc) = true.
Proof. unfold covered. rewrite existsb_true. by setoid_rewrite andb_true_iff. Qed.

Lemma uncovered_None acc rs :
  find_map (ask_uncovered rs) (simples acc) = None <-> all_covered acc (allow rs).
Proof.
  unfold ask_uncovered, all_covered. fall_through. setoid_rewrite negb_false_iff.
  by setoid_rewrite covered_true.
Qed.

(** The tier that returned decides the verdict. *)
Definition says (v : ShellVerdict) (o : option ShellAnalysis) : Prop :=
  forall a, o = Some a -> verdict a = v.

Lemma says_or_else v a b : says v a -> says v b -> says v (a <||> b).
Proof. intros Ha Hb x. rewrite or_else_Some. intros [?|[_ ?]]; auto. Qed.

Lemma says_when v c a : verdict a = v -> says v (when c a).
Proof. intros Ha x. rewrite when_Some. by intros [_ <-]. Qed.

Lemma says_find_map {A} v (f : A -> option ShellAnalysis) l :
  (forall x, says v (f x)) -> says v (find_map f l).
Proof. intros Hf a Ha. apply find_map_Some in Ha as (x & _ & E). by apply (Hf x). Qed.

Ltac tier := repeat (apply says_or_else || (apply says_find_map; intros ?) || by apply says_when).

Lemma deny_floor_says acc rs : says Deny (deny_floor acc rs).
Proof. unfold deny_floor, deny_simple, deny_group_target. tier. Qed.

Lemma escalation_says acc e : says Ask (escalation acc e).
Proof.
  unfold escalation, ask_assignment, ask_simple, ask_argument, ask_read_target,
    ask_redirect_target, ask_group_target. tier.
Qed.

Lemma uncovered_says acc rs : says Ask (find_map (ask_uncovered rs) (simples acc)).
Proof. unfold ask_uncovered. tier. Qed.

(** The verdict as a decision list of the three tiers. *)
Lemma evaluate_tiers acc rs e :
  verdict (evaluate acc rs e) =
    if deny_floor acc rs then Deny
    else if escalation acc e then Ask
    else if find_map (ask_uncovered rs) (simples acc) then Ask else Allow.
Proof.
  unfold evaluate, or_else.
  destruct (deny_floor acc rs) eqn:E1; [by eapply deny_floor_says|].
  destruct (escalation acc e) eqn:E2; [by eapply escalation_says|].
  destruct (find_map _ _) eqn:E3; [by eapply uncovered_says|done].
Qed.

Lemma evaluate_allows acc rs e :
  verdict (evaluate acc rs e) = Allow <->
  clear_of_floor acc (deny rs) /\ not_escalated acc e /\ all_covered acc (allow rs).
Proof.
  rewrite evaluate_tiers, <- deny_floor_None, <- escalation_None, <- uncovered_None.
  repeat case_match; naive_solver.
Qed.

Lemma evaluate_denies acc rs e :
  verdict (evaluate acc rs e) = Deny <-> ~ clear_of_floor acc (deny rs).
Proof.
  rewrite evaluate_tiers, <- deny_floor_None. repeat case_match; naive_solver.
Qed.

(** ** Rule sets compared *)

(** [rs'] grants at least what [rs] does: more to allow, less to deny. *)
Definition grants_more (rs rs' : ShellRuleSet) : Prop :=
  allow rs ⊆ allow rs' /\ deny rs' ⊆ deny rs.

Definition severity (v : ShellVerdict) : nat :=
  match v with Allow => 0 | Ask => 1 | Deny => 2 end.

Lemma clear_of_floor_incl acc d d' :
  d' ⊆ d -> clear_of_floor acc d -> clear_of_floor acc d'.
Proof.
  intros Hd [Hs Hg]. split; [|done]. eapply Forall_impl; [exact Hs|].
  intros sc (? & ? & Hr). split_and!; [done..|].
  rewrite Forall_forall in Hr. apply Forall_forall. auto.
Qed.

Lemma all_covered_incl acc a a' :
  a ⊆ a' -> all_covered acc a -> all_covered acc a'.
Proof.
  intros Ha Hc. eapply Forall_impl; [exact Hc|]. intros sc (r & Hr & ?). eauto.
Qed.

Lemma evaluate_severity acc rs rs' e :
  grants_more rs rs' ->
  severity (verdict (evaluate acc rs' e)) <= severity (verdict (evaluate acc rs e)).
Proof.
  intros [Ha Hd]. destruct (verdict (evaluate acc rs e)) eqn:E1.
  - apply evaluate_allows in E1 as (H1 & H2 & H3).
    rewrite (proj2 (evaluate_allows acc rs' e)); [done|].
    eauto using clear_of_floor_incl, all_covered_incl.
  - destruct (verdict (evaluate acc rs' e)) eqn:E2; cbn; try lia.
    apply evaluate_denies in E2. exfalso. apply E2. eapply clear_of_floor_incl; [done|].
    apply deny_floor_None. rewrite evaluate_tiers in E1. by destruct (deny_floor acc rs).
  - destruct (verdict (evaluate acc rs' e)); cbn; lia.
Qed.
End Meaning.

(** ** The gates before [evaluate] *)
Section Gates.
Context `{UnicodeLower, RegexEngine} `{B : BrushOpaque} {P : BrushParser}.

(** What [analyze_shell_command] and [simple_command_argvs] check before they
    look at a rule: the parse and its leaves, or the reason to ask. *)
Definition gate (command : string) : result string (Program * Collected) :=
  if trim_is_empty command then Err "empty command"
  else if has_obfuscated_construct command then
    Err "obfuscated construct ($'...', =(...), or brace expansion)"
  else match parse_program command with
       | Err reason => Err ("unparsable command: " +:+ reason)
       | Ok program =>
           match collect_program program collected_default with
           | Err (Degrade reason) => Err reason
           | Err OutOfFuel => Err "out of fuel"
           | Ok (_, acc) =>
               if surfaced_substitutions acc <? count_substitution_markers command then
                 Err "possible hidden command substitution"
               else if match simples acc with [] => true | _ => false end then
                 Err "no executable command found"
               else Ok (program, acc)
           end
       end.

Lemma analyze_gate command rs :
  analyze_shell_command command rs =
    match gate command with
    | Err reason => analysis_new Ask reason
    | Ok (_, acc) => evaluate acc rs Pending
    end.
Proof.
  unfold analyze_shell_command, gate.
  repeat case_match; simplify_eq/=; done.
Qed.

Lemma argvs_gate command :
  simple_command_argvs command =
    match gate command with
    | Err _ => None
    | Ok (_, acc) => Some (map argv (simples acc))
    end.
Proof.
  unfold simple_command_argvs, gate. destruct (trim_is_empty command); [done|].
  destruct (has_obfuscated_construct command); [done|]. cbn [orb].
  destruct (parse_program command) as [p|]; [|done].
  destruct (collect_program p collected_default) as [[[] acc]|[]]; [|done..].
  destruct (_ <? _); [done|]. by destruct (simples acc) eqn:E; rewrite ?E.
Qed.

(** What holds of a command line that passed every gate. *)
Lemma gate_Ok command p acc :
  gate command = Ok (p, acc) ->
  has_obfuscated_construct command = false /\ parse_program command = Ok p
  /\ collect_program p collected_default = Ok (tt, acc)
  /\ count_substitution_markers command <= surfaced_substitutions acc
  /\ simples acc <> [].
Proof.
  unfold gate. destruct (trim_is_empty command); [done|].
  destruct (has_obfuscated_construct command); [done|].
  destruct (parse_program command) as [p'|]; [|done].
  destruct (collect_program p' collected_default) as [[[] acc']|[]] eqn:E; [|done..].
  destruct (Nat.ltb_spec (surfaced_substitutions acc') (count_substitution_markers command));
    [done|].
  destruct (simples acc') eqn:Es; [done|]. intros [= <- <-]. rewrite Es. done.
Qed.

(** ** Operand roles line up with the arguments *)
Lemma roles_from_length tp sf vf slots : forall seen fv,
  length (roles_from tp sf vf seen fv slots) = length (slot_words slots).
Proof.
  induction slots as [|[w|] slots IH]; intros seen fv; cbn; [done| |by apply IH].
  repeat case_match; cbn; by rewrite IH.
Qed.

Lemma operand_roles_length prog slots :
  length (operand_roles prog slots) = length (slot_words slots).
Proof. apply roles_from_length. Qed.

Lemma zip_covers {A C} (Q : A * C -> Prop) l k x :
  length k = length l -> Forall Q (zip l k) -> x ∈ l -> exists c, Q (x, c).
Proof.
  revert k. induction l as [|y l IH]; intros [|c k] Hlen Hq Hx; try done; [by inversion Hx|].
  inversion Hq; subst. apply elem_of_cons in Hx as [-> | Hx]; [by exists c|].
  eapply IH; [|done..]. by injection Hlen.
Qed.

(** A leaf whose words line up with its slots has every argument vetted. *)
Lemma leaf_arguments e sc :
  slot_words (arg_slots sc) = tail (argv sc) -> leaf_ok e sc ->
  Forall (fun arg => hits_sensitive arg = false /\ climbs_out arg = false) (tail (argv sc)).
Proof.
  intros Hs (_ & _ & Hargs & _). apply Forall_forall. intros arg Harg.
  edestruct (zip_covers (argument_ok e)) as (role & ? & ? & _); [|exact Hargs|exact Harg|done].
  by rewrite operand_roles_length, Hs.
Qed.
End Gates.

(** ** Rungs *)
Section Rungs.
Variable allows : CommandRule -> bool.

Lemma verified_rungs_elem cands r : forall rungs,
  r ∈ verified_rungs allows cands rungs <-> r ∈ rungs \/ (r ∈ cands /\ allows r = true).
Proof.
  induction cands as [|c cands IH]; intros rungs; cbn.
  { rewrite elem_of_nil. tauto. }
  rewrite elem_of_cons. case_bool_decide; [|destruct (allows c) eqn:E]; rewrite IH;
    rewrite ?elem_of_app, ?elem_of_cons, ?elem_of_nil; intuition (subst; auto; congruence).
Qed.

Lemma verified_rungs_NoDup cands : forall rungs,
  NoDup rungs -> NoDup (verified_rungs allows cands rungs).
Proof.
  induction cands as [|c cands IH]; intros rungs Hd; cbn; [done|].
  case_bool_decide; [by apply IH|]. destruct (allows c); apply IH; [|done].
  apply NoDup_app. split_and!; [done|set_solver|]. apply NoDup_singleton.
Qed.

Lemma verified_rungs_prefix cands : forall rungs,
  rungs `prefix_of` verified_rungs allows cands rungs.
Proof.
  induction cands as [|c cands IH]; intros rungs; cbn; [done|].
  case_bool_decide; [by apply IH|]. destruct (allows c); [|by apply IH].
  etrans; [|apply IH]. by exists [c].
Qed.

Lemma verified_rungs_first c cands :
  allows c = true -> head (verified_rungs allows (c :: cands) []) = Some c.
Proof.
  intros Hc. cbn. rewrite Hc. destruct (verified_rungs_prefix cands [c]) as [l ->]. done.
Qed.
End Rungs.

(** ** Theorems *)
Section Theorems.
Context `{UnicodeLower, RegexEngine} `{B : BrushOpaque} {P : BrushParser}.

(** collection is bounded: whatever the parser returns for the command line
    and for the text of each command substitution, the recursion through
    substitutions never exceeds the fuel its depth guard accounts for; it ends
    with a reason to ask, or with the nesting depth restored to zero and leaves
    that all start with their program. *)
Lemma collection_is_bounded p :
  match collect_program p collected_default with
  | Ok (_, acc) => depth acc = 0 /\ Forall headed (simples acc)
  | Err (Degrade _) => True
  | Err OutOfFuel => False
  end.
Proof.
  pose proof (collect_program_runs p collected_default default_sound I) as Hr.
  destruct (collect_program p collected_default) as [[[] acc]|[]]; naive_solver.
Qed.

(** the meaning of [Allow]: exactly when the deny floor is clear, no
    assignment, leaf, argument or redirection is escalated, and an allow rule
    that may cover the program matches every leaf. *)
Lemma allow_is_conjunctive acc rs e :
  verdict (evaluate acc rs e) = Allow <->
  clear_of_floor acc (deny rs) /\ not_escalated acc e /\ all_covered acc (allow rs).
Proof. apply evaluate_allows. Qed.

(** the meaning of [Deny]: some leaf is an interpreter, writes a sensitive
    path or matches a deny rule, or a group redirection writes a sensitive path.
    No allow rule takes part, so none can override it. *)
Lemma deny_is_absolute acc rs e :
  verdict (evaluate acc rs e) = Deny <->
  (exists sc, sc ∈ simples acc /\
     (is_interpreter (program sc) = true
      \/ (exists t, t ∈ write_targets sc /\ hits_sensitive t = true)
      \/ (exists r, r ∈ deny rs /\ rule_matches r (argv sc) = true)))
  \/ (exists t, t ∈ group_write_targets acc /\ hits_sensitive t = true).
Proof.
  rewrite evaluate_denies. unfold clear_of_floor. rewrite !Forall_forall. split.
  - intros Hn.
    destruct (existsb hits_sensitive (group_write_targets acc)) eqn:Eg;
      [right; by apply existsb_true|left].
    destruct (existsb (fun sc => is_interpreter (program sc)
        || existsb hits_sensitive (write_targets sc)
        || existsb (fun r => rule_matches r (argv sc)) (deny rs)) (simples acc)) eqn:Es.
    + apply existsb_true in Es as (sc & Hsc & E). exists sc. split; [done|].
      rewrite !orb_true_iff, !existsb_true in E. tauto.
    + exfalso. apply Hn. apply existsb_false in Es, Eg.
      rewrite Forall_forall in Es. rewrite Forall_forall in Eg.
      split; [|done]. intros sc Hsc. specialize (Es sc Hsc).
      rewrite !orb_false_iff, !existsb_false in Es. tauto.
  - intros [(sc & Hsc & Hwhy)|(t & Ht & E)] [Hs Hg]; [|by rewrite Hg in E].
    destruct (Hs sc Hsc) as (H1 & H2 & H3). rewrite Forall_forall in H2. rewrite Forall_forall in H3.
    destruct Hwhy as [E|[(t & Ht & E)|(r & Hr & E)]].
    + congruence.
    + by rewrite H2 in E.
    + by rewrite H3 in E.
Qed.

(** granting more never makes the verdict on a command line stricter:
    with more allow rules and fewer deny rules the verdict moves only from
    [Deny] towards [Allow]. *)
Lemma verdict_is_monotone command rs rs' :
  grants_more rs rs' ->
  severity (verdict (analyze_shell_command command rs'))
  <= severity (verdict (analyze_shell_command command rs)).
Proof.
  intros Hrs. rewrite !analyze_gate. destruct (gate command) as [[p acc]|]; [|done].
  by apply evaluate_severity.
Qed.

(** in an allowed collection, a program that can run anything is covered by
    a rule equal to its whole command, and a program that runs code handed to it
    by a rule that names it, never by the blanket [All] rule. *)
Lemma broad_rules_never_cover_executors acc rs e :
  verdict (evaluate acc rs e) = Allow ->
  Forall (fun sc =>
    (is_exact_only (program sc) = true -> MkRule Exact (argv sc) ∈ allow rs)
    /\ (runs_supplied_code (program sc) = true ->
        exists r, r ∈ allow rs /\ kind r <> All /\ rule_matches r (argv sc) = true))
    (simples acc).
Proof.
  intros (_ & _ & Hc)%evaluate_allows. eapply Forall_impl; [exact Hc|].
  intros sc ([k toks] & Hr & Hk & Hm). split; intros Hp.
  - destruct k; cbn in Hk; rewrite ?Hp in Hk; try done.
    cbn in Hm. apply bool_decide_eq_true in Hm. by subst.
  - exists (MkRule k toks). split_and!; [done| |done].
    intros Hall. cbn in Hall. subst. cbn in Hk. by rewrite Hp, andb_false_r in Hk.
Qed.

(** C1: the end-to-end guarantee.  When a command line is allowed, it parsed,
    its text hides no more substitutions than were examined, and every simple
    command nested anywhere in it, the parse of its command substitutions
    included, became a leaf with its literal program and arguments that is no
    interpreter, is matched by an allow rule and by no deny rule, and none of
    whose arguments names a sensitive path or climbs out of the folder. *)
Theorem allowed_line_is_vetted_throughout command rs :
  verdict (analyze_shell_command command rs) = Allow ->
  exists p acc,
    parse_program command = Ok p
    /\ collect_program p collected_default = Ok (tt, acc)
    /\ count_substitution_markers command <= surfaced_substitutions acc
    /\ forall prefix w suffix,
         nests (NProgram p) (NSimple (MkSimpleCommand prefix (Some w) suffix)) ->
         grammatical (MkSimpleCommand prefix (Some w) suffix) ->
         exists sc, sc ∈ simples acc /\ leaf_of w suffix sc
           /\ is_interpreter (program sc) = false
           /\ (exists r, r ∈ allow rs /\ rule_matches r (argv sc) = true)
           /\ Forall (fun r => rule_matches r (argv sc) = false) (deny rs)
           /\ Forall (fun arg => hits_sensitive arg = false /\ climbs_out arg = false)
                (tail (argv sc)).
Proof.
  rewrite analyze_gate. destruct (gate command) as [[p acc]|] eqn:Eg; [|done].
  intros (Hfloor & (_ & Hesc & _) & Hcov)%evaluate_allows.
  apply gate_Ok in Eg as (_ & Hp & Hc & Hm & _).
  exists p, acc. split_and!; [done..|]. intros prefix w suffix Hn Hgr.
  apply collect_program_ok in Hc as (_ & _ & Hg).
  destruct (Hg _ Hn Hgr) as (sc & Hsc & Hleaf). exists sc.
  destruct Hfloor as [Hfloor _]. unfold all_covered in Hcov. rewrite Forall_forall in Hfloor.
  rewrite Forall_forall in Hesc. rewrite Forall_forall in Hcov.
  destruct (Hfloor sc Hsc) as (? & _ & ?), (Hcov sc Hsc) as (r & ? & _ & ?).
  split_and!; [done..|by exists r|done|]. eapply leaf_arguments; [|by apply Hesc].
  destruct Hleaf as (args & _ & -> & _ & ->). done.
Qed.

(** A command line that fails a gate is asked about under every rule set,
    whatever it allows: text that does not parse, that uses an obfuscated
    construct, whose substitutions outnumber those examined, or that holds no
    command, is never allowed. *)
Lemma failed_gates_ask command rs :
  (forall p acc, parse_program command = Ok p ->
     collect_program p collected_default = Ok (tt, acc) ->
     simples acc = [] \/ surfaced_substitutions acc < count_substitution_markers command)
  \/ has_obfuscated_construct command = true ->
  verdict (analyze_shell_command command rs) = Ask.
Proof.
  intros Hbad. rewrite analyze_gate. destruct (gate command) as [[p acc]|] eqn:Eg; [|done].
  apply gate_Ok in Eg as (Ho & Hp & Hc & Hm & Hs).
  destruct Hbad as [Hbad|Hbad]; [|congruence].
  destruct (Hbad p acc Hp Hc); [done|lia].
Qed.

(** Arguments a shell has yet to expand are judged no more leniently than
    the same arguments already expanded. *)
Lemma pending_is_stricter acc rs :
  severity (verdict (evaluate acc rs Resolved)) <= severity (verdict (evaluate acc rs Pending)).
Proof.
  destruct (verdict (evaluate acc rs Pending)) eqn:Ep.
  - apply evaluate_allows in Ep as (H1 & (Ha & Hl & Hg) & H3).
    rewrite (proj2 (evaluate_allows acc rs Resolved)); [done|]. split_and!; [done| |done].
    split_and!; [done| |].
    + eapply Forall_impl; [exact Hl|]. intros sc (? & ? & Hx & Hy & Hz).
      split_and!; [done..| | |]; (eapply Forall_impl; [eassumption|]);
        unfold argument_ok; naive_solver.
    + eapply Forall_impl; [exact Hg|]. naive_solver.
  - destruct (verdict (evaluate acc rs Resolved)) eqn:Er; cbn; try lia.
    apply evaluate_denies in Er. rewrite evaluate_tiers in Ep.
    destruct (deny_floor acc rs) eqn:Ed; [done|]. by apply deny_floor_None in Ed.
  - destruct (verdict (evaluate acc rs Resolved)); cbn; lia.
Qed.

(** the grants offered for an argument vector are distinct and each of them
    alone makes the vector allowed; and when any rule set at all would allow the
    vector, the exact grant is offered, first. *)
Lemma argv_rungs_sound_and_complete argv :
  let rungs := suggested_rungs_for_argv argv in
  NoDup rungs
  /\ (forall r, r ∈ rungs -> verdict (analyze_argv argv (MkRuleSet [r] [])) = Allow)
  /\ (forall rs, verdict (analyze_argv argv rs) = Allow ->
                head rungs = Some (MkRule Exact argv)).
Proof.
  cbn zeta. destruct argv as [|prog args]; [by split_and!; try constructor; set_solver|].
  unfold suggested_rungs_for_argv. split_and!.
  - apply verified_rungs_NoDup. constructor.
  - intros r Hr. apply verified_rungs_elem in Hr as [Hr|[_ Hr]]; [by inversion Hr|].
    by apply bool_decide_eq_true in Hr.
  - intros rs (Hf & He & _)%evaluate_allows. apply verified_rungs_first.
    apply bool_decide_eq_true, evaluate_allows. split_and!; [|done|].
    + eapply clear_of_floor_incl; [|exact Hf]. set_solver.
    + repeat constructor. exists (MkRule Exact (prog :: args)). cbn.
      rewrite bool_decide_eq_true. set_solver.
Qed.

(** the same for a command line of one command: its grants are distinct,
    each allows it alone, and the exact grant comes first whenever some rule set
    allows the line. *)
Lemma line_rungs_sound_and_complete command :
  let rungs := suggested_rungs command in
  NoDup rungs
  /\ (forall r, r ∈ rungs -> verdict (analyze_shell_command command (MkRuleSet [r] [])) = Allow)
  /\ (forall rs argv, simple_command_argvs command = Some [argv] ->
        verdict (analyze_shell_command command rs) = Allow ->
        head rungs = Some (MkRule Exact argv)).
Proof.
  cbn zeta. unfold suggested_rungs. split_and!.
  - apply verified_rungs_NoDup. constructor.
  - intros r Hr. apply verified_rungs_elem in Hr as [Hr|[_ Hr]]; [by inversion Hr|].
    by apply bool_decide_eq_true in Hr.
  - intros rs argv Ha Hall. rewrite Ha. rewrite argvs_gate in Ha.
    rewrite analyze_gate in Hall.
    destruct (gate command) as [[p acc]|] eqn:Eg; [|done]. injection Ha as Ha.
    destruct (simples acc) as [|sc [|]] eqn:Es; try done. injection Ha as <-.
    apply evaluate_allows in Hall as (Hf & He & _).
    pose proof Eg as (_ & _ & Hc & _)%gate_Ok.
    apply collect_program_ok in Hc as (_ & Hh & _). rewrite Es in Hh.
    inversion Hh as [|? ? [args Hargs] _]; subst. unfold argv_candidates. rewrite Hargs at 1.
    cbn [CommandRule_new extend_rule app]. rewrite <- Hargs at 1.
    apply verified_rungs_first. apply bool_decide_eq_true. rewrite analyze_gate, Eg.
    apply evaluate_allows. split_and!; [|done|].
    + eapply clear_of_floor_incl; [|exact Hf]. set_solver.
    + unfold all_covered. rewrite Es. repeat constructor. exists (MkRule Exact (ShellCollect.argv sc)).
      cbn. rewrite bool_decide_eq_true. set_solver.
Qed.
End Theorems.
