(* ===== verification/ShellExamples.v ===== *)
(** * Shell policy: concrete runs

    The parameters of the model instantiated (an ASCII-only lowercase, a regex
    engine that matches nothing, a parser that knows three command lines), and
    the theorems of [PolicyFacts] applied to concrete inputs. *)

From S2P Require Export PolicyFacts.

Module Demo.

#[export] Existing Instance ascii_only_lower.

#[export] Instance no_regex : RegexEngine := {| regex_is_match := fun _ _ => Some false |}.

#[export] Instance opaque : BrushOpaque := {|
  ArithmeticCommand := unit; ArithmeticForClauseCommand := unit; ForClauseCommand := unit;
  CaseClauseCommand := unit; IfClauseCommand := unit; WhileOrUntilClauseCommand := unit;
  CoprocessCommand := unit; FunctionDefinition := unit; ExtendedTestExprCommand := unit;
  IoHereDocument := unit; ParameterExpr := unit; PipelineTimed := unit |}.

(** [name arg..] as the parser returns it. *)
Definition simple (words : list string) : SimpleCommand :=
  match words with
  | [] => MkSimpleCommand None None None
  | name :: args =>
      MkSimpleCommand None (Some (MkWord name))
        (Some (map (fun w => ItemWord (MkWord w)) args))
  end.

Definition line (commands : list SimpleCommand) : Program :=
  MkProgram [MkCompoundList [MkCompoundListItem
    (MkAndOrList (MkPipeline None false (map Simple commands)) []) Sequence]].

#[export] Instance parser : BrushParser := {|
  parse_program := fun text =>
    if String.eqb text "ls -la" then Ok (line [simple ["ls"; "-la"]])
    else if String.eqb text "echo $(ls -la)" then Ok (line [simple ["echo"; "$(ls -la)"]])
    else if String.eqb text "cat notes | make all" then
      Ok (line [simple ["cat"; "notes"]; simple ["make"; "all"]])
    else Err "unexpected token";
  word_parse := fun text =>
    if String.eqb text "$(ls -la)" then Ok [MkPiece (CommandSubstitution "ls -la") 0 9]
    else Ok [MkPiece (Text text) 0 (len text)] |}.

Definition only (rule : CommandRule) : ShellRuleSet := MkRuleSet [rule] [].

(** ** The model run on command lines *)
Example ls_exact :
  verdict (analyze_shell_command "ls -la" (only (MkRule Exact ["ls"; "-la"]))) = Allow.
Proof. vm_compute. reflexivity. Qed.

Example ls_uncovered :
  analyze_shell_command "ls -la" (MkRuleSet [] [])
  = with_offender Ask "no allow rule covers: ls -la" "ls -la".
Proof. vm_compute. reflexivity. Qed.

Example substitution_gathers_the_inner_command :
  simple_command_argvs "echo $(ls -la)" = Some [["ls"; "-la"]; ["echo"; "$(ls -la)"]].
Proof. vm_compute. reflexivity. Qed.

Example bash_is_denied :
  verdict (analyze_argv ["bash"; "-c"; "ls"] (only (MkRule All []))) = Deny.
Proof. vm_compute. reflexivity. Qed.

Example climbing_argument_asks :
  analyze_argv ["cat"; "a/../../b"] (only (MkRule All []))
  = with_offender Ask "argument escapes folder: cat a/../../b" "cat a/../../b".
Proof. vm_compute. reflexivity. Qed.

(** ** The theorems at concrete inputs *)
Definition everything : ShellRuleSet := only (MkRule All []).
Definition timed_ls : list string := ["timeout"; "5"; "ls"].

Lemma verdict_is_monotone_witness :
  grants_more (MkRuleSet [] []) everything
  /\ severity (verdict (analyze_shell_command "ls -la" everything))
     <= severity (verdict (analyze_shell_command "ls -la" (MkRuleSet [] []))).
Proof.
  assert (Hg : grants_more (MkRuleSet [] []) everything) by (split; set_solver).
  split; [exact Hg|]. exact (verdict_is_monotone "ls -la" _ _ Hg).
Defined.

Lemma broad_rules_never_cover_executors_witness :
  is_exact_only "timeout" = true
  /\ MkRule Exact timed_ls ∈ allow (only (MkRule Exact timed_ls)).
Proof.
  split; [vm_compute; reflexivity|].
  assert (Ha : verdict (evaluate (collected_argv "timeout" timed_ls)
    (only (MkRule Exact timed_ls)) Resolved) = Allow) by (vm_compute; reflexivity).
  pose proof (broad_rules_never_cover_executors _ _ _ Ha) as Hall.
  apply Forall_inv in Hall. apply Hall. vm_compute. reflexivity.
Defined.

(** The second command of the pipe, found among the leaves of the allowed line. *)
Lemma make_is_nested :
  nests (NProgram (line [simple ["cat"; "notes"]; simple ["make"; "all"]]))
    (NSimple (simple ["make"; "all"])).
Proof.
  eapply rtc_l; [apply child_program; left|].
  eapply rtc_l; [apply child_list; left|]. eapply rtc_l; [apply child_item|].
  eapply rtc_l; [apply child_first|]. eapply rtc_l; [apply child_pipeline; right; left|].
  eapply rtc_l; [apply child_simple|]. apply rtc_refl.
Qed.

Lemma allowed_line_is_vetted_throughout_witness :
  exists sc, argv sc = ["make"; "all"] /\ is_interpreter (program sc) = false
    /\ exists r, r ∈ allow everything /\ rule_matches r (argv sc) = true.
Proof.
  assert (Ha : verdict (analyze_shell_command "cat notes | make all" everything) = Allow)
    by (vm_compute; reflexivity).
  destruct (allowed_line_is_vetted_throughout _ _ Ha) as (p & acc & Hp & _ & _ & Hall).
  vm_compute in Hp. injection Hp as <-.
  destruct (Hall _ _ _ make_is_nested ltac:(repeat constructor; discriminate))
    as (sc & _ & (args & Ht & Hv & Hsp & _) & Hi & Hr & _).
  exists sc. split; [|by split]. change (Some "make" = Some (program sc)) in Ht. injection Ht as Ht.
  rewrite Hv, <- Ht. inversion Hsp as [|? arg ? ? Harg Hnil]; subst. inversion Hnil; subst.
  by rewrite (Harg "all" eq_refl).
Defined.

Lemma failed_gates_ask_witness :
  verdict (analyze_shell_command "if true" everything) = Ask.
Proof.
  apply failed_gates_ask. left. intros p acc Hp. vm_compute in Hp. discriminate Hp.
Defined.

End Demo.
