(* ===== verification/Wire.v ===== *)
(** * Sandbox protocol: identities, bounds, the handshake and wire types

    The data and pure functions of [crates/tidebreak-sandbox-protocol]:
    [ids.rs], [protocol.rs], [reverse.rs], [events.rs], [steer.rs],
    [artifacts.rs] and the parts of [provisioning.rs] that are not a backend.

    A UUID is its 128-bit number; an identity newtype is transparent, as its
    serde form is.  The event ordinals are [u64]s modelled as [N]: the sandbox
    keeps every event it numbered in one [Vec], whose length is below 2^63, so
    no counter here reaches its width.  Timestamps, [Debug] and serde plumbing
    are left out. *)

From S2P Require Export RustStr.

(** ** Identities *)
Notation Uuid := N (only parsing).
Definition is_nil (id : Uuid) : bool := N.eqb id 0.

Inductive IdError : Type := Nil.

Notation RunId := N (only parsing).
Notation OperationId := N (only parsing).
Notation RequestId := N (only parsing).
Notation SandboxTag := N (only parsing).

(** [from_uuid] of every identity newtype. *)
Definition from_uuid (id : Uuid) : result IdError Uuid :=
  if is_nil id then Err Nil else Ok id.

Notation Sequence := N (only parsing).
Definition FIRST : Sequence := 1%N.
Definition sequence_next (s : Sequence) : Sequence := (s + 1)%N.

Notation EventCursor := N (only parsing).
Definition START : EventCursor := 0%N.
Definition committed (s : Sequence) : EventCursor := s.
Definition precedes (c : EventCursor) (s : Sequence) : bool := (c <? s)%N.

(** ** Versions, errors and bounds *)
Definition PROTOCOL_VERSION : N := 5.
Definition MAX_FRAME_BYTES : N := 1024 * 1024.
Definition MAX_MODEL_PROMPT_BYTES : N := 512 * 1024.
Definition MAX_MODEL_COMPLETION_BYTES : N := 512 * 1024.
Definition MAX_EVENT_PAYLOAD_BYTES : N := 64 * 1024.
Definition MAX_BUFFERED_EVENTS : N := 4096.
Definition MAX_ARTIFACTS : N := 256.
Definition MAX_ARTIFACT_BYTES : N := 8 * 1024 * 1024.
Definition MAX_INFLIGHT_REQUESTS : N := 16.
Definition MAX_STEER_BYTES : N := 8 * 1024.
Definition MAX_PENDING_STEERS : N := 16.

(** The length of a Rust string, as a [usize]. *)
Definition byte_len (s : string) : N := N.of_nat (len s).

Inductive ErrorCode : Type :=
| ProtocolVersion | Unauthenticated | Denied | OperationIdConflict | OperationAmbiguous
| OperationEvicted | Cancelled | Disconnected | InvalidRequest | TooLarge | NotFound | Internal.

#[export] Instance ErrorCode_eq_dec : EqDecision ErrorCode.
Proof. solve_decision. Defined.

Record ErrorResponse : Type := MkError { code : ErrorCode; message : string; retryable : bool }.

#[export] Instance ErrorResponse_eq_dec : EqDecision ErrorResponse.
Proof. solve_decision. Defined.

Definition denied : ErrorResponse := MkError Denied "capability is not granted to this run" false.

Inductive Response (T : Type) : Type :=
| ROk (value : T)
| RError (error : ErrorResponse).
Arguments ROk {T} value.
Arguments RError {T} error.

Definition response_is_ok {T} (r : Response T) : bool :=
  match r with ROk _ => true | RError _ => false end.

Definition require_version (received : N) : result ErrorResponse unit :=
  if N.eqb received PROTOCOL_VERSION then Ok tt
  else Err (MkError ProtocolVersion "sandbox protocol version mismatch" false).

(** ** Reverse requests *)
Inductive Capability : Type := CapModelInference.
#[export] Instance Capability_eq_dec : EqDecision Capability.
Proof. solve_decision. Defined.

Inductive ReverseRequest : Type := ModelInference (prompt : string).
#[export] Instance ReverseRequest_eq_dec : EqDecision ReverseRequest.
Proof. solve_decision. Defined.

Inductive ReverseResult : Type := ModelInferenceResult (completion : string).
#[export] Instance ReverseResult_eq_dec : EqDecision ReverseResult.
Proof. solve_decision. Defined.

Definition capability (r : ReverseRequest) : Capability :=
  match r with ModelInference _ => CapModelInference end.

Definition request_within_bounds (r : ReverseRequest) : bool :=
  match r with ModelInference prompt => (byte_len prompt <=? MAX_MODEL_PROMPT_BYTES)%N end.

Definition result_within_bounds (r : ReverseResult) : bool :=
  match r with
  | ModelInferenceResult completion => (byte_len completion <=? MAX_MODEL_COMPLETION_BYTES)%N
  end.

Record ReverseEnvelope : Type := MkEnvelope {
  env_version : N; env_request_id : RequestId; env_operation_id : OperationId;
  env_request : ReverseRequest }.

Record RunProvenance : Type := MkProvenance { prov_run_id : RunId; prov_provider : string }.

(** [GrantSet]: the [BTreeSet] of capabilities as a list without order. *)
Record GrantSet : Type := MkGrants { gs_provenance : RunProvenance; gs_capabilities : list Capability }.

Definition grants_none (p : RunProvenance) : GrantSet := MkGrants p [].
Definition allows (g : GrantSet) (c : Capability) : bool :=
  bool_decide (c ∈ gs_capabilities g).

(** ** Events *)
Inductive EventPayload : Type :=
| Progress (text : string)
| EventResult (text : string)
| EventFailed (text : string).

Record SandboxEvent : Type := MkEvent { sequence : Sequence; payload : EventPayload }.

Inductive EmitError : Type := Overflow | EmitTooLarge.

Definition payload_within_bounds (p : EventPayload) : bool :=
  match p with
  | Progress text | EventResult text | EventFailed text =>
      (byte_len text <=? MAX_EVENT_PAYLOAD_BYTES)%N
  end.

Definition is_terminal (p : EventPayload) : bool :=
  match p with Progress _ => false | EventResult _ | EventFailed _ => true end.

Record EventBatch : Type := MkBatch { events : list SandboxEvent; overflowed : bool }.

Definition next_cursor (batch : EventBatch) (previous : EventCursor) : EventCursor :=
  match last (events batch) with
  | Some event => committed (sequence event)
  | None => previous
  end.

Definition steer_within_bounds (text : string) : bool := (byte_len text <=? MAX_STEER_BYTES)%N.

(** ** The transport secret *)
Definition bytes_of (s : string) : list N := map N_of_ascii (String.list_ascii_of_string s).

Definition constant_time_eq (a b : list N) : bool :=
  if negb (length a =? length b) then false
  else (foldl (fun difference xy => N.lor difference (N.lxor xy.1 xy.2)) 0 (zip a b) =? 0)%N.

Definition TransportSecret : Type := string.
Definition verify (secret presented : TransportSecret) : bool :=
  constant_time_eq (bytes_of secret) (bytes_of presented).

(** ** The attach handshake *)
Record AttachRequest : Type := MkAttach {
  at_version : N; at_run_id : RunId; at_resume_from : EventCursor;
  at_transport_secret : TransportSecret }.

Record AttachAccepted : Type := MkAccepted {
  acc_version : N; acc_capabilities : list Capability; acc_latest : option Sequence }.
Record AttachRefused : Type := MkRefused { ref_version : N; ref_code : ErrorCode }.

Inductive HandshakeResponse : Type :=
| Accepted (accepted : AttachAccepted)
| Refused (refused : AttachRefused).

Definition handshake (request : AttachRequest) (sandbox_version : N)
    (expected_secret : option TransportSecret) (granted_capabilities : list Capability)
    (latest_sequence : option Sequence) : HandshakeResponse :=
  if negb (N.eqb (at_version request) sandbox_version) then
    Refused (MkRefused sandbox_version ProtocolVersion)
  else
    let authenticated :=
      match expected_secret with
      | Some secret => verify secret (at_transport_secret request)
      | None => false
      end in
    if negb authenticated then Refused (MkRefused sandbox_version Unauthenticated)
    else Accepted (MkAccepted sandbox_version granted_capabilities latest_sequence).

(** ** The compiled network policy *)
Record SandboxNetworkPolicy : Type := MkPolicy {
  allow_all_public : bool; allowed_hosts : list string; https_only_hosts : list string }.

Definition deny_all : SandboxNetworkPolicy := MkPolicy false [] [].
Definition policy_open : SandboxNetworkPolicy := MkPolicy true [] [].

Definition denies_everything (p : SandboxNetworkPolicy) : bool :=
  negb (allow_all_public p)
  && match allowed_hosts p with [] => true | _ => false end
  && match https_only_hosts p with [] => true | _ => false end.

Definition permits (p : SandboxNetworkPolicy) (host : string) (port : N) : bool :=
  if allow_all_public p then true
  else
    existsb (fun entry => eq_ignore_ascii_case entry host) (allowed_hosts p)
    || (N.eqb port 443
        && existsb (fun entry => eq_ignore_ascii_case entry host) (https_only_hosts p)).

(** ** Artifacts *)

(** The [sha2] and [base64] crates. *)
Class ArtifactCodec := {
  sha256 : list N -> list N;
  base64_encode : list N -> string
}.

Record ArtifactEntry : Type := MkArtifact {
  art_name : string; art_bytes : N; art_sha256 : list N }.
Record ArtifactContent : Type := MkContent {
  content_base64 : string; content_bytes : N; content_sha256 : list N }.

Definition artifact_encode `{ArtifactCodec} (bytes : list N) : result ErrorResponse ArtifactContent :=
  if (MAX_ARTIFACT_BYTES <? N.of_nat (length bytes))%N then
    Err (MkError TooLarge "artifact exceeds its size bound" false)
  else Ok (MkContent (base64_encode bytes) (N.of_nat (length bytes)) (sha256 bytes)).

(** ** Facts *)

(** The accumulator is zero exactly when every pair agreed. *)
Lemma difference_zero (l : list (N * N)) : forall d,
  foldl (fun difference xy => N.lor difference (N.lxor xy.1 xy.2)) d l = 0%N
  <-> d = 0%N /\ Forall (fun xy => xy.1 = xy.2) l.
Proof.
  induction l as [|[x y] l IH]; intros d; cbn; [split; [by intros ->|by intros []]|].
  rewrite IH, N.lor_eq_0_iff, N.lxor_eq_0_iff, Forall_cons. cbn. tauto.
Qed.

Lemma zip_agrees {A} (a : list A) : forall b,
  length a = length b -> (Forall (fun xy => xy.1 = xy.2) (zip a b) <-> a = b).
Proof.
  induction a as [|x a IH]; intros [|y b]; cbn; intros Hlen; try done.
  rewrite Forall_cons, IH by lia. cbn. split; [by intros [-> ->]|by intros [= -> ->]].
Qed.

Lemma bytes_of_inj s t : bytes_of s = bytes_of t -> s = t.
Proof.
  unfold bytes_of. revert t. induction s as [|c s IH]; intros [|d t]; cbn; try done.
  intros [= Hc Ht]. apply IH in Ht as ->. f_equal.
  by rewrite <- (ascii_N_embedding c), <- (ascii_N_embedding d), Hc.
Qed.

Lemma constant_time_eq_true a b : constant_time_eq a b = true <-> a = b.
Proof.
  unfold constant_time_eq. destruct (Nat.eqb_spec (length a) (length b)) as [E|E]; cbn.
  - rewrite N.eqb_eq, difference_zero, zip_agrees by done. tauto.
  - split; [done|]. by intros ->.
Qed.

Lemma verify_true secret presented : verify secret presented = true <-> presented = secret.
Proof.
  unfold verify. rewrite constant_time_eq_true. split; [|by intros ->].
  intros E. symmetry. by apply bytes_of_inj.
Qed.

(** The constant-time comparison of a presented token, which ORs the XOR of
    every byte pair into one accumulator, is plain equality of the tokens. *)
Lemma token_comparison_is_equality secret presented :
  verify secret presented = bool_decide (presented = secret).
Proof. apply eq_true_iff_eq. rewrite verify_true. by rewrite bool_decide_eq_true. Qed.

(** The two gates of the attach handshake.  It accepts exactly when the
    versions agree and the sandbox holds a secret equal to the one presented; a
    version skew is reported as such whatever the secret, so that refusal says
    nothing about authentication; and every answer carries the sandbox's own
    version. *)
Lemma handshake_gates request version secret caps latest :
  (handshake request version secret caps latest = Accepted (MkAccepted version caps latest)
   <-> at_version request = version /\ secret = Some (at_transport_secret request))
  /\ (at_version request <> version ->
      handshake request version secret caps latest = Refused (MkRefused version ProtocolVersion))
  /\ (at_version request = version -> secret <> Some (at_transport_secret request) ->
      handshake request version secret caps latest = Refused (MkRefused version Unauthenticated)).
Proof.
  unfold handshake. destruct (N.eqb_spec (at_version request) version) as [->|Hv]; cbn;
    [|naive_solver].
  destruct secret as [secret|]; cbn; [|naive_solver].
  destruct (verify secret (at_transport_secret request)) eqn:Ev; cbn.
  - apply verify_true in Ev as ->. naive_solver.
  - assert (Hne : at_transport_secret request <> secret) by (by rewrite <- verify_true, Ev).
    naive_solver.
Qed.

Lemma eq_ignore_ascii_case_true s t :
  eq_ignore_ascii_case s t = true <-> to_ascii_lowercase s = to_ascii_lowercase t.
Proof. unfold eq_ignore_ascii_case. by rewrite String.eqb_eq. Qed.

(** The compiled network policy permits exactly: anything when it is open,
    else a host listed for any port, or on port 443 a host listed for HTTPS; case
    is ignored and nothing else (no suffix, no wildcard) matches.  In particular
    a policy that denies everything permits nothing. *)
Lemma network_policy_permits p host port :
  (permits p host port = true <->
     allow_all_public p = true
     \/ (exists e, e ∈ allowed_hosts p /\ to_ascii_lowercase e = to_ascii_lowercase host)
     \/ (port = 443%N
         /\ exists e, e ∈ https_only_hosts p /\ to_ascii_lowercase e = to_ascii_lowercase host))
  /\ (denies_everything p = true -> permits p host port = false).
Proof.
  unfold permits, denies_everything. split.
  - destruct (allow_all_public p); [naive_solver|].
    rewrite orb_true_iff, andb_true_iff, N.eqb_eq, !existsb_true.
    setoid_rewrite eq_ignore_ascii_case_true. naive_solver.
  - destruct (allow_all_public p), (allowed_hosts p), (https_only_hosts p); try done.
    cbn. by rewrite andb_false_r.
Qed.
