(* ===== verification/OpLog.v ===== *)
(** * Sandbox protocol: the operation log

    The storage seam of [crates/tidebreak-sandbox-protocol/src/oplog.rs] and its
    two implementations: [InMemoryOperationStore] of the same file, and the
    durable store ([crates/tidebreak-sandbox-runtime/src/durable_oplog.rs]) over
    the table operations of [crates/tidebreak-core/src/db/ops/operation_log.rs].

    The trait is the type class [OperationStore]: its operations, and as laws
    the simulation of an abstract log through a representation relation.  The
    capability host is verified against the class; the two stores are its
    instances.

    A call into the database can fail before its transaction took effect or
    after it ([Fault]); the class's laws say what a caller may rely on then. *)

From S2P Require Export Wire.

(** ** Types of the seam *)
Notation OperationFingerprint := ReverseRequest (only parsing).

Inductive OperationState : Type :=
| Claimed
| Recorded (result : ReverseResult)
| Failed (error : ErrorResponse)
| Evicted.

#[export] Instance OperationState_eq_dec : EqDecision OperationState.
Proof. solve_decision. Defined.

Inductive ClaimOutcome : Type :=
| Fresh
| Replay (state : OperationState)
| ClaimedElsewhere
| Conflict.

Inductive StoreError : Type :=
| NotClaimed
| Backend (message : string).

(** Where one backend call failed, and with what message. *)
Inductive Fault : Type :=
| FaultBefore (message : string)
| FaultAfter (message : string).

(** ** The abstract log *)

(** What an identity stands for: claimed in this process lifetime, claimed by
    a dead one, or settled. *)
Inductive Standing : Type :=
| ClaimedHere
| ClaimedBefore
| Settled (state : OperationState).

Notation log := (gmap OperationId (OperationFingerprint * Standing)) (only parsing).

Definition spec_claim (l : log) (id : OperationId) (fp : OperationFingerprint)
    : ClaimOutcome * log :=
  match l !! id with
  | None => (Fresh, <[id := (fp, ClaimedHere)]> l)
  | Some (fp', st) =>
      if decide (fp' = fp) then
        (match st with
         | ClaimedHere => Replay Claimed
         | ClaimedBefore => ClaimedElsewhere
         | Settled state => Replay state
         end, l)
      else (Conflict, l)
  end.

(** The first terminal write wins. *)
Definition spec_settle (l : log) (id : OperationId) (terminal : OperationState) : log :=
  match l !! id with
  | Some (fp, ClaimedHere) | Some (fp, ClaimedBefore) => <[id := (fp, Settled terminal)]> l
  | _ => l
  end.

Definition spec_evict (l : log) (id : OperationId) : log :=
  match l !! id with
  | Some (fp, Settled _) => <[id := (fp, Settled Evicted)]> l
  | _ => l
  end.

Definition spec_state (l : log) (id : OperationId) : option OperationState :=
  match l !! id with
  | None => None
  | Some (_, Settled state) => Some state
  | Some (_, _) => Some Claimed
  end.

(** A new process lifetime over the same log. *)
Definition spec_restart (l : log) : log :=
  (fun e => (e.1, match e.2 with ClaimedHere => ClaimedBefore | st => st end)) <$> l.

(** ** The seam *)
Class OperationStore (store : Type) := {
  claim : option Fault -> store -> OperationId -> OperationFingerprint -> ClaimOutcome * store;
  record : option Fault -> store -> OperationId -> ReverseResult -> result StoreError unit * store;
  fail_op : option Fault -> store -> OperationId -> ErrorResponse -> result StoreError unit * store;
  state : option Fault -> store -> OperationId -> option OperationState;
  evict : option Fault -> store -> OperationId -> store;

  represents : store -> log -> Prop;

  (** A claim is the abstract one, or a fault made it refuse. *)
  claim_simulates f s l id fp : represents s l ->
    let r := claim f s id fp in let a := spec_claim l id fp in
    (r.1 = a.1 /\ represents r.2 a.2)
    \/ (f <> None /\ r.1 = ClaimedElsewhere /\ (represents r.2 l \/ represents r.2 a.2));
  (** A terminal write is the abstract one, or a fault lost it. *)
  record_simulates f s l id res : represents s l ->
    represents (record f s id res).2 (spec_settle l id (Recorded res))
    \/ (f <> None /\ represents (record f s id res).2 l);
  fail_simulates f s l id err : represents s l ->
    represents (fail_op f s id err).2 (spec_settle l id (Failed err))
    \/ (f <> None /\ represents (fail_op f s id err).2 l);
  evict_simulates f s l id : represents s l ->
    represents (evict f s id) (spec_evict l id) \/ (f <> None /\ represents (evict f s id) l);
  state_simulates s l id : represents s l -> state None s id = spec_state l id
}.

(** ** [InMemoryOperationStore] *)
Module InMemory.

Record Entry : Type := MkEntry { fingerprint : OperationFingerprint; entry_state : OperationState }.
Notation t := (gmap OperationId Entry) (only parsing).

Definition new : t := ∅.

Definition claim (entries : t) (id : OperationId) (fp : OperationFingerprint) : ClaimOutcome * t :=
  match entries !! id with
  | None => (Fresh, <[id := MkEntry fp Claimed]> entries)
  | Some entry =>
      if negb (bool_decide (fingerprint entry = fp)) then (Conflict, entries)
      else match entry_state entry with
           | Claimed => (Replay Claimed, entries)
           | terminal => (Replay terminal, entries)
           end
  end.

Definition settle (entries : t) (id : OperationId) (terminal : OperationState)
    : result StoreError unit * t :=
  match entries !! id with
  | Some entry =>
      match entry_state entry with
      | Claimed => (Ok tt, <[id := MkEntry (fingerprint entry) terminal]> entries)
      | _ => (Err NotClaimed, entries)
      end
  | None => (Err NotClaimed, entries)
  end.

Definition record (entries : t) (id : OperationId) (result : ReverseResult) :=
  settle entries id (Recorded result).
Definition fail_op (entries : t) (id : OperationId) (error : ErrorResponse) :=
  settle entries id (Failed error).

Definition state (entries : t) (id : OperationId) : option OperationState :=
  entry_state <$> entries !! id.

Definition evict (entries : t) (id : OperationId) : t :=
  match entries !! id with
  | Some entry =>
      match entry_state entry with
      | Claimed => entries
      | _ => <[id := MkEntry (fingerprint entry) Evicted]> entries
      end
  | None => entries
  end.

Definition len (entries : t) : nat := size entries.

Definition has_body (e : Entry) : Prop :=
  match entry_state e with Recorded _ | Failed _ => True | _ => False end.
#[export] Instance has_body_dec e : Decision (has_body e).
Proof. unfold has_body. destruct (entry_state e); apply _. Defined.

Definition retained_body_count (entries : t) : nat :=
  size (filter (fun kv : OperationId * Entry => has_body kv.2) entries).

Definition standing (state : OperationState) : Standing :=
  match state with Claimed => ClaimedHere | terminal => Settled terminal end.
Definition view (entries : t) : log :=
  (fun e => (fingerprint e, standing (entry_state e))) <$> entries.

Lemma claim_view entries id fp :
  (claim entries id fp).1 = (spec_claim (view entries) id fp).1
  /\ view (claim entries id fp).2 = (spec_claim (view entries) id fp).2.
Proof.
  unfold claim, spec_claim, view. rewrite lookup_fmap.
  destruct (entries !! id) as [[fp' st]|]; cbn.
  - case_bool_decide; destruct (decide (fp' = fp)); try done. by destruct st.
  - by rewrite fmap_insert.
Qed.

Lemma settle_view entries id terminal :
  terminal <> Claimed ->
  view (settle entries id terminal).2 = spec_settle (view entries) id terminal.
Proof.
  intros Ht. unfold settle, spec_settle, view. rewrite lookup_fmap.
  destruct (entries !! id) as [[fp' st]|]; cbn; [|done].
  destruct st; cbn; try done. rewrite fmap_insert. cbn. by destruct terminal.
Qed.

Lemma evict_view entries id : view (evict entries id) = spec_evict (view entries) id.
Proof.
  unfold evict, spec_evict, view. rewrite lookup_fmap.
  destruct (entries !! id) as [[fp' st]|]; cbn; [|done].
  destruct st; cbn; try done; by rewrite fmap_insert.
Qed.

Lemma state_view entries id : state entries id = spec_state (view entries) id.
Proof.
  unfold state, spec_state, view. rewrite lookup_fmap.
  destruct (entries !! id) as [[fp' st]|]; cbn; [|done]. by destruct st.
Qed.

(** In memory no call fails: the fault is ignored. *)
#[export] Program Instance store : OperationStore t := {|
  OpLog.claim := fun _ => claim;
  OpLog.record := fun _ => record;
  OpLog.fail_op := fun _ => fail_op;
  OpLog.state := fun _ => state;
  OpLog.evict := fun _ => evict;
  represents := fun s l => view s = l |}.
Next Obligation. intros f s l id fp <-. left. apply claim_view. Qed.
Next Obligation. intros f s l id res <-. left. by apply settle_view. Qed.
Next Obligation. intros f s l id err <-. left. by apply settle_view. Qed.
Next Obligation. intros f s l id <-. left. apply evict_view. Qed.
Next Obligation. intros s l id <-. apply state_view. Qed.

End InMemory.

(** ** The durable table *)
Module Table.

Notation bytes := (list N) (only parsing).

(** [OperationLogState], [OperationClaimOutcome] and [OperationLogWrite] of
    [storage/types.rs]. *)
Inductive LogState : Type := LogClaimed | LogRecorded | LogFailed.
Inductive Outcome : Type :=
| OFresh | ORecorded (body : bytes) | OFailed (body : bytes) | OTerminalEvicted
| OOwnedClaim | OForeignClaim | OConflict.
Inductive Write : Type := Committed | AlreadyTerminal | WNotClaimed.

(** A row, without its two timestamps, which no decision reads. *)
Record Row : Type := MkRow {
  row_state : string; row_fingerprint : bytes; row_external_effect : bool;
  row_owner_epoch : Uuid; row_body : option bytes; row_retained : bool }.

Definition STATE_CLAIMED : string := "claimed".
Definition STATE_RECORDED : string := "recorded".
Definition STATE_FAILED : string := "failed".

Definition state_from_str (s : string) : LogState :=
  if String.eqb s STATE_RECORDED then LogRecorded
  else if String.eqb s STATE_FAILED then LogFailed
  else LogClaimed.

Notation t := (gmap (Uuid * Uuid) Row) (only parsing).

Definition claim (table : t) (run_id operation_id : Uuid) (fingerprint : bytes)
    (external_effect : bool) (owner_epoch : Uuid) : Outcome * t :=
  match table !! (run_id, operation_id) with
  | None =>
      (OFresh, <[(run_id, operation_id) :=
          MkRow STATE_CLAIMED fingerprint external_effect owner_epoch None true]> table)
  | Some existing =>
      if negb (bool_decide (row_fingerprint existing = fingerprint)) then (OConflict, table)
      else match state_from_str (row_state existing) with
           | LogRecorded => (match row_body existing with
                             | Some body => ORecorded body | None => OTerminalEvicted end, table)
           | LogFailed => (match row_body existing with
                           | Some body => OFailed body | None => OTerminalEvicted end, table)
           | LogClaimed =>
               if N.eqb (row_owner_epoch existing) owner_epoch then (OOwnedClaim, table)
               else if row_external_effect existing then (OForeignClaim, table)
               else (OFresh, <[(run_id, operation_id) :=
                   MkRow (row_state existing) (row_fingerprint existing)
                     (row_external_effect existing) owner_epoch (row_body existing)
                     (row_retained existing)]> table)
           end
  end.

Definition settle (table : t) (run_id operation_id : Uuid) (terminal : string) (body : bytes)
    : Write * t :=
  match table !! (run_id, operation_id) with
  | Some row =>
      if String.eqb (row_state row) STATE_CLAIMED then
        (Committed, <[(run_id, operation_id) :=
            MkRow terminal (row_fingerprint row) (row_external_effect row)
              (row_owner_epoch row) (Some body) true]> table)
      else if String.eqb (row_state row) terminal then (AlreadyTerminal, table)
      else (WNotClaimed, table)
  | None => (WNotClaimed, table)
  end.

Definition record (table : t) (run_id operation_id : Uuid) (body : bytes) : Write * t :=
  settle table run_id operation_id STATE_RECORDED body.
Definition fail_op (table : t) (run_id operation_id : Uuid) (body : bytes) : Write * t :=
  settle table run_id operation_id STATE_FAILED body.

Record LogEntry : Type := MkLogEntry {
  le_state : LogState; le_body : option bytes; le_external_effect : bool; le_retained : bool }.

Definition state (table : t) (run_id operation_id : Uuid) : option LogEntry :=
  (fun row => MkLogEntry (state_from_str (row_state row)) (row_body row)
                (row_external_effect row) (row_retained row))
  <$> table !! (run_id, operation_id).

Definition evict (table : t) (run_id operation_id : Uuid) : t :=
  match table !! (run_id, operation_id) with
  | Some row =>
      if String.eqb (row_state row) STATE_CLAIMED then table
      else <[(run_id, operation_id) :=
          MkRow (row_state row) (row_fingerprint row) (row_external_effect row)
            (row_owner_epoch row) None false]> table
  | None => table
  end.

Definition len (table : t) (run_id : Uuid) : nat :=
  size (filter (fun kv : (Uuid * Uuid) * Row => kv.1.1 = run_id) table).

Definition retained_body_count (table : t) (run_id : Uuid) : nat :=
  size (filter (fun kv : (Uuid * Uuid) * Row =>
    kv.1.1 = run_id /\ row_retained kv.2 = true /\ row_state kv.2 <> STATE_CLAIMED) table).

End Table.

(** ** [DurableOperationStore] *)

(** [serde_json] on the three types the store writes: encoding a value of these
    field-and-string types succeeds, decoding gives it back, and requests that
    encode alike are equal. *)
Class JsonCodec := {
  request_to_vec : ReverseRequest -> result string Table.bytes;
  result_to_vec : ReverseResult -> result string Table.bytes;
  result_from_slice : Table.bytes -> result string ReverseResult;
  error_to_vec : ErrorResponse -> result string Table.bytes;
  error_from_slice : Table.bytes -> result string ErrorResponse;
  request_encodes r : is_ok (request_to_vec r) = true;
  request_inj r r' b : request_to_vec r = Ok b -> request_to_vec r' = Ok b -> r = r';
  result_round_trip r : exists b, result_to_vec r = Ok b /\ result_from_slice b = Ok r;
  error_round_trip e : exists b, error_to_vec e = Ok b /\ error_from_slice b = Ok e
}.

Module Durable.
Section Durable.
Context `{JsonCodec}.

Record t : Type := MkStore { table : Table.t; run_id : RunId; owner_epoch : Uuid }.

(** A new process lifetime: a new epoch over the table. *)
Definition new (table : Table.t) (run_id : RunId) (owner_epoch : Uuid) : t :=
  MkStore table run_id owner_epoch.

Definition set_table (tb : Table.t) (s : t) : t := MkStore tb (run_id s) (owner_epoch s).

Definition has_external_effect (request : ReverseRequest) : bool :=
  match request with ModelInference _ => true end.

Definition encode {A} (r : result string A) : result StoreError A :=
  match r with Ok a => Ok a | Err e => Err (Backend e) end.

(** One call into the database: what it returns and the table it leaves. *)
Definition call {A} (f : option Fault) (s : t) (run : A * Table.t) : result StoreError A * t :=
  match f with
  | None => (Ok run.1, set_table run.2 s)
  | Some (FaultBefore e) => (Err (Backend e), s)
  | Some (FaultAfter e) => (Err (Backend e), set_table run.2 s)
  end.

Definition claim_outcome (o : Table.Outcome) : result StoreError ClaimOutcome :=
  match o with
  | Table.OFresh => Ok Fresh
  | Table.ORecorded body => r ← encode (result_from_slice body); Ok (Replay (Recorded r))
  | Table.OFailed body => e ← encode (error_from_slice body); Ok (Replay (Failed e))
  | Table.OTerminalEvicted => Ok (Replay Evicted)
  | Table.OOwnedClaim => Ok (Replay Claimed)
  | Table.OForeignClaim => Ok ClaimedElsewhere
  | Table.OConflict => Ok Conflict
  end.

Definition claim_op (f : option Fault) (s : t) (id : OperationId) (fp : OperationFingerprint)
    : result StoreError ClaimOutcome * t :=
  match encode (request_to_vec fp) with
  | Err e => (Err e, s)
  | Ok bytes =>
      let '(o, s') := call f s (Table.claim (table s) (run_id s) id bytes
                                  (has_external_effect fp) (owner_epoch s)) in
      (o ≫= claim_outcome, s')
  end.

Definition settle (w : Table.Write) : result StoreError unit :=
  match w with
  | Table.Committed | Table.AlreadyTerminal => Ok tt
  | Table.WNotClaimed => Err NotClaimed
  end.

Definition record_op (f : option Fault) (s : t) (id : OperationId) (res : ReverseResult)
    : result StoreError unit * t :=
  match encode (result_to_vec res) with
  | Err e => (Err e, s)
  | Ok bytes =>
      let '(w, s') := call f s (Table.record (table s) (run_id s) id bytes) in
      (w ≫= settle, s')
  end.

Definition fail_op (f : option Fault) (s : t) (id : OperationId) (err : ErrorResponse)
    : result StoreError unit * t :=
  match encode (error_to_vec err) with
  | Err e => (Err e, s)
  | Ok bytes =>
      let '(w, s') := call f s (Table.fail_op (table s) (run_id s) id bytes) in
      (w ≫= settle, s')
  end.

Definition state_op (f : option Fault) (s : t) (id : OperationId)
    : result StoreError (option OperationState) :=
  match (call f s (Table.state (table s) (run_id s) id, table s)).1 with
  | Err e => Err e
  | Ok None => Ok None
  | Ok (Some entry) =>
      match Table.le_state entry, Table.le_body entry with
      | Table.LogClaimed, _ => Ok (Some Claimed)
      | Table.LogRecorded, Some body =>
          r ← encode (result_from_slice body); Ok (Some (Recorded r))
      | Table.LogFailed, Some body => e ← encode (error_from_slice body); Ok (Some (Failed e))
      | _, None => Ok (Some Evicted)
      end
  end.

Definition evict_op (f : option Fault) (s : t) (id : OperationId) : result StoreError unit * t :=
  call f s (tt, Table.evict (table s) (run_id s) id).

(** The synchronous seam; [f] also stands for [block_on] refusing the runtime. *)
Definition claim (f : option Fault) (s : t) (id : OperationId) (fp : OperationFingerprint)
    : ClaimOutcome * t :=
  match claim_op f s id fp with
  | (Ok outcome, s') => (outcome, s')
  | (Err _, s') => (ClaimedElsewhere, s')
  end.

Definition state (f : option Fault) (s : t) (id : OperationId) : option OperationState :=
  match state_op f s id with Ok state => state | Err _ => None end.

Definition evict (f : option Fault) (s : t) (id : OperationId) : t := (evict_op f s id).2.

Definition len (f : option Fault) (s : t) : nat :=
  match (call f s (Table.len (table s) (run_id s), table s)).1 with Ok n => n | Err _ => 0 end.

Definition retained_body_count (f : option Fault) (s : t) : nat :=
  match (call f s (Table.retained_body_count (table s) (run_id s), table s)).1 with
  | Ok n => n | Err _ => 0 end.

End Durable.
End Durable.
