(* ===== verification/OpLogFacts.v ===== *)
(** * Sandbox protocol: the durable operation log implements the abstract one

    The representation relation between [DurableOperationStore] and the abstract
    log, the simulation of every operation (faults included), the effect of a
    crash, and the fence it all exists for: over any sequence of calls, faults
    and restarts, one identity is reported fresh at most once. *)

From S2P Require Export OpLog.

Section Durable.
Context `{JsonCodec}.

(** ** The representation *)
Definition row_stands (epoch : Uuid) (row : Table.Row) (st : Standing) : Prop :=
  match st with
  | ClaimedHere =>
      Table.row_state row = Table.STATE_CLAIMED /\ Table.row_owner_epoch row = epoch
  | ClaimedBefore =>
      Table.row_state row = Table.STATE_CLAIMED /\ Table.row_owner_epoch row <> epoch
      /\ Table.row_external_effect row = true
  | Settled (Recorded r) =>
      Table.row_state row = Table.STATE_RECORDED
      /\ exists b, Table.row_body row = Some b /\ result_from_slice b = Ok r
  | Settled (Failed e) =>
      Table.row_state row = Table.STATE_FAILED
      /\ exists b, Table.row_body row = Some b /\ error_from_slice b = Ok e
  | Settled Evicted =>
      (Table.row_state row = Table.STATE_RECORDED \/ Table.row_state row = Table.STATE_FAILED)
      /\ Table.row_body row = None
  | Settled Claimed => False
  end.

Definition row_of (epoch : Uuid) (row : option Table.Row)
    (e : option (OperationFingerprint * Standing)) : Prop :=
  match row, e with
  | None, None => True
  | Some row, Some (fp, st) =>
      request_to_vec fp = Ok (Table.row_fingerprint row)
      /\ Table.row_external_effect row = true /\ row_stands epoch row st
  | _, _ => False
  end.

Definition durable_represents (s : Durable.t) (l : log) : Prop :=
  forall id, row_of (Durable.owner_epoch s) (Durable.table s !! (Durable.run_id s, id)) (l !! id).

Lemma represents_insert s l id row e :
  durable_represents s l -> row_of (Durable.owner_epoch s) (Some row) (Some e) ->
  durable_represents
    (Durable.set_table (<[(Durable.run_id s, id) := row]> (Durable.table s)) s) (<[id := e]> l).
Proof.
  intros Hs Hr id'. cbn. destruct (decide (id' = id)) as [->|Hne].
  - by rewrite !lookup_insert_eq.
  - rewrite !lookup_insert_ne by congruence. apply Hs.
Qed.

Lemma set_table_id s : Durable.set_table (Durable.table s) s = s.
Proof. by destruct s. Qed.

(** The row and the abstract entry of one identity, case by case. *)
Lemma represents_at s l id :
  durable_represents s l ->
  (Durable.table s !! (Durable.run_id s, id) = None /\ l !! id = None)
  \/ exists row fp st, Durable.table s !! (Durable.run_id s, id) = Some row
       /\ l !! id = Some (fp, st) /\ request_to_vec fp = Ok (Table.row_fingerprint row)
       /\ Table.row_external_effect row = true /\ row_stands (Durable.owner_epoch s) row st.
Proof.
  intros Hs. specialize (Hs id). unfold row_of in Hs.
  destruct (Durable.table s !! _) as [row|], (l !! id) as [[fp st]|]; try done; [right|by left].
  destruct Hs as (? & ? & ?). by exists row, fp, st.
Qed.

Lemma encodes fp : exists b, request_to_vec fp = Ok b.
Proof.
  pose proof (request_encodes fp) as He. destruct (request_to_vec fp); [by eexists|done].
Qed.

(** Two fingerprints encode alike exactly when they are equal. *)
Lemma fingerprint_eq fp fp' b :
  request_to_vec fp = Ok b -> forall b', request_to_vec fp' = Ok b' -> (b' = b <-> fp' = fp).
Proof.
  intros Hb b' Hb'. split; [intros ->; by eapply request_inj|]. intros ->. congruence.
Qed.

(** ** The table operations against the abstract log *)
Lemma table_claim_spec s l id fp b :
  durable_represents s l -> request_to_vec fp = Ok b ->
  let r := Table.claim (Durable.table s) (Durable.run_id s) id b
             (Durable.has_external_effect fp) (Durable.owner_epoch s) in
  Durable.claim_outcome r.1 = Ok (spec_claim l id fp).1
  /\ durable_represents (Durable.set_table r.2 s) (spec_claim l id fp).2.
Proof.
  intros Hs Hb. cbn zeta. unfold Table.claim, spec_claim.
  destruct (represents_at s l id Hs) as [[E1 E2]|(row & fp' & st & E1 & E2 & Hfp & Hx & Hst)];
    rewrite E1, E2.
  { cbn. split; [done|]. apply represents_insert; [done|]. split_and!; [done|by destruct fp|done..]. }
  pose proof (fingerprint_eq _ _ _ Hb _ Hfp) as Heq.
  case_bool_decide as Hd; cbn; [|rewrite decide_False by tauto; by rewrite set_table_id].
  rewrite decide_True by tauto.
  destruct st as [| |[| | |]]; cbn in Hst; try done.
  - destruct Hst as [-> Eo]. cbn. rewrite Eo, N.eqb_refl. by destruct s.
  - destruct Hst as (-> & Eo & _). cbn. rewrite (proj2 (N.eqb_neq _ _)), Hx by done.
    by destruct s.
  - destruct Hst as (-> & body & -> & Hdec). cbn. rewrite Hdec. by destruct s.
  - destruct Hst as (-> & body & -> & Hdec). cbn. rewrite Hdec. by destruct s.
  - destruct Hst as ([-> | ->] & ->); cbn; by destruct s.
Qed.

(** What a terminal write of [state] puts in a row. *)
Definition terminal_body (state : OperationState) (label : string) (b : Table.bytes) : Prop :=
  match state with
  | Recorded r => label = Table.STATE_RECORDED /\ result_from_slice b = Ok r
  | Failed e => label = Table.STATE_FAILED /\ error_from_slice b = Ok e
  | Claimed | Evicted => False
  end.

Lemma table_settle_spec s l id state label b :
  durable_represents s l -> terminal_body state label b ->
  durable_represents
    (Durable.set_table (Table.settle (Durable.table s) (Durable.run_id s) id label b).2 s)
    (spec_settle l id state).
Proof.
  intros Hs Ht. unfold Table.settle, spec_settle.
  destruct (represents_at s l id Hs) as [[E1 E2]|(row & fp & st & E1 & E2 & Hfp & Hx & Hst)];
    rewrite E1, E2; [by destruct s|].
  assert (Hkeep : Table.row_state row <> Table.STATE_CLAIMED ->
    durable_represents (Durable.set_table
      (if String.eqb (Table.row_state row) Table.STATE_CLAIMED
       then (Table.Committed, <[(Durable.run_id s, id) :=
           Table.MkRow label (Table.row_fingerprint row) (Table.row_external_effect row)
             (Table.row_owner_epoch row) (Some b) true]> (Durable.table s))
       else if String.eqb (Table.row_state row) label then (Table.AlreadyTerminal, Durable.table s)
       else (Table.WNotClaimed, Durable.table s)).2 s) l).
  { intros Hne. rewrite (proj2 (String.eqb_neq _ _)) by done. case_match; by destruct s. }
  assert (Hput : durable_represents (Durable.set_table
      (<[(Durable.run_id s, id) :=
           Table.MkRow label (Table.row_fingerprint row) (Table.row_external_effect row)
             (Table.row_owner_epoch row) (Some b) true]> (Durable.table s)) s)
      (<[id := (fp, Settled state)]> l)).
  { apply represents_insert; [done|]. split_and!; [done..|].
    destruct state; cbn in Ht |- *; try done; destruct Ht as [-> ?]; eauto. }
  destruct st as [| |[| | |]]; cbn in Hst; try done.
  - destruct Hst as [-> _]. exact Hput.
  - destruct Hst as (-> & _). exact Hput.
  - apply Hkeep. by destruct Hst as [-> _].
  - apply Hkeep. by destruct Hst as [-> _].
  - apply Hkeep. by destruct Hst as [[-> | ->] _].
Qed.

Lemma table_evict_spec s l id :
  durable_represents s l ->
  durable_represents
    (Durable.set_table (Table.evict (Durable.table s) (Durable.run_id s) id) s) (spec_evict l id).
Proof.
  intros Hs. unfold Table.evict, spec_evict.
  destruct (represents_at s l id Hs) as [[E1 E2]|(row & fp & st & E1 & E2 & Hfp & Hx & Hst)];
    rewrite E1, E2; [by destruct s|].
  assert (Hput : Table.row_state row = Table.STATE_RECORDED
                 \/ Table.row_state row = Table.STATE_FAILED ->
    durable_represents (Durable.set_table
      (if String.eqb (Table.row_state row) Table.STATE_CLAIMED then Durable.table s
       else <[(Durable.run_id s, id) :=
         Table.MkRow (Table.row_state row) (Table.row_fingerprint row)
           (Table.row_external_effect row) (Table.row_owner_epoch row) None false]>
         (Durable.table s)) s)
      (<[id := (fp, Settled Evicted)]> l)).
  { intros Hr. rewrite (proj2 (String.eqb_neq _ _)) by (by destruct Hr as [-> | ->]).
    by apply represents_insert. }
  destruct st as [| |[| | |]]; cbn in Hst; try done.
  - destruct Hst as [-> _]. by destruct s.
  - destruct Hst as (-> & _). by destruct s.
  - apply Hput. tauto.
  - apply Hput. tauto.
  - apply Hput. tauto.
Qed.

(** ** The seam *)
Lemma durable_claim f s l id fp :
  durable_represents s l ->
  let r := Durable.claim f s id fp in let a := spec_claim l id fp in
  (r.1 = a.1 /\ durable_represents r.2 a.2)
  \/ (f <> None /\ r.1 = ClaimedElsewhere
      /\ (durable_represents r.2 l \/ durable_represents r.2 a.2)).
Proof.
  intros Hs. cbn zeta. unfold Durable.claim, Durable.claim_op.
  destruct (encodes fp) as [b Hb]. rewrite Hb. cbn.
  destruct (table_claim_spec s l id fp b Hs Hb) as [Ho Hr].
  destruct f as [[e|e]|]; cbn.
  - right. auto.
  - right. auto.
  - left. by rewrite Ho.
Qed.

(** A write whose table effect simulates [target], under a fault. *)
Lemma call_simulates {A} (f : option Fault) (s : Durable.t) (run : A * Table.t) l target :
  durable_represents s l -> durable_represents (Durable.set_table run.2 s) target ->
  durable_represents (Durable.call f s run).2 target
  \/ (f <> None /\ durable_represents (Durable.call f s run).2 l).
Proof. intros Hs Hr. destruct f as [[e|e]|]; cbn; auto. Qed.

Lemma durable_record f s l id res :
  durable_represents s l ->
  durable_represents (Durable.record_op f s id res).2 (spec_settle l id (Recorded res))
  \/ (f <> None /\ durable_represents (Durable.record_op f s id res).2 l).
Proof.
  intros Hs. unfold Durable.record_op.
  destruct (result_round_trip res) as (b & -> & Hdec). cbn [Durable.encode].
  destruct (Durable.call f s _) as [w s'] eqn:E. cbn.
  change s' with (w, s').2. rewrite <- E. apply call_simulates; [done|].
  by apply table_settle_spec.
Qed.

Lemma durable_fail f s l id err :
  durable_represents s l ->
  durable_represents (Durable.fail_op f s id err).2 (spec_settle l id (Failed err))
  \/ (f <> None /\ durable_represents (Durable.fail_op f s id err).2 l).
Proof.
  intros Hs. unfold Durable.fail_op.
  destruct (error_round_trip err) as (b & -> & Hdec). cbn [Durable.encode].
  destruct (Durable.call f s _) as [w s'] eqn:E. cbn.
  change s' with (w, s').2. rewrite <- E. apply call_simulates; [done|].
  by apply table_settle_spec.
Qed.

Lemma durable_evict f s l id :
  durable_represents s l ->
  durable_represents (Durable.evict f s id) (spec_evict l id)
  \/ (f <> None /\ durable_represents (Durable.evict f s id) l).
Proof. intros Hs. apply call_simulates; [done|]. by apply table_evict_spec. Qed.

Lemma durable_state s l id :
  durable_represents s l -> Durable.state None s id = spec_state l id.
Proof.
  intros Hs. unfold Durable.state, Durable.state_op, spec_state. cbn. unfold Table.state.
  destruct (represents_at s l id Hs) as [[E1 E2]|(row & fp & st & E1 & E2 & Hfp & Hx & Hst)];
    rewrite E1, E2; [done|]. cbn.
  destruct st as [| |[| | |]]; cbn in Hst; try done.
  - by destruct Hst as [-> _].
  - by destruct Hst as [-> _].
  - destruct Hst as (-> & b & -> & Hdec). cbn. by rewrite Hdec.
  - destruct Hst as (-> & b & -> & Hdec). cbn. by rewrite Hdec.
  - by destruct Hst as [[-> | ->] ->].
Qed.

#[export] Instance durable_store : OperationStore Durable.t := {|
  claim := Durable.claim;
  record := Durable.record_op;
  fail_op := Durable.fail_op;
  state := Durable.state;
  evict := Durable.evict;
  represents := durable_represents;
  claim_simulates := durable_claim;
  record_simulates := durable_record;
  fail_simulates := durable_fail;
  evict_simulates := durable_evict;
  state_simulates := durable_state |}.

(** ** Crashes *)

(** No row of the run was written under [epoch]: a random epoch is new. *)
Definition fresh_epoch (s : Durable.t) (epoch : Uuid) : Prop :=
  forall id row, Durable.table s !! (Durable.run_id s, id) = Some row ->
                 Table.row_owner_epoch row <> epoch.

Definition restart (s : Durable.t) (epoch : Uuid) : Durable.t :=
  Durable.new (Durable.table s) (Durable.run_id s) epoch.

Lemma restart_represents s l epoch :
  durable_represents s l -> fresh_epoch s epoch ->
  durable_represents (restart s epoch) (spec_restart l).
Proof.
  intros Hs He id. unfold spec_restart. rewrite lookup_fmap. cbn.
  destruct (represents_at s l id Hs) as [[E1 E2]|(row & fp & st & E1 & E2 & Hfp & Hx & Hst)];
    rewrite E1, E2; [done|]. cbn. split_and!; [done..|].
  specialize (He id row E1). destruct st as [| |[]]; cbn in Hst |- *; naive_solver.
Qed.

Lemma claim_None s l id fp :
  durable_represents s l ->
  (Durable.claim None s id fp).1 = (spec_claim l id fp).1
  /\ durable_represents (Durable.claim None s id fp).2 (spec_claim l id fp).2.
Proof. intros Hs. by destruct (durable_claim None s l id fp Hs) as [?|[? _]]. Qed.

Lemma record_None s l id res :
  durable_represents s l ->
  durable_represents (Durable.record_op None s id res).2 (spec_settle l id (Recorded res)).
Proof. intros Hs. by destruct (durable_record None s l id res Hs) as [?|[? _]]. Qed.

Lemma evict_None s l id :
  durable_represents s l -> durable_represents (Durable.evict None s id) (spec_evict l id).
Proof. intros Hs. by destruct (durable_evict None s l id Hs) as [?|[? _]]. Qed.

(** A later epoch stays new as this lifetime writes its rows. *)
Lemma fresh_epoch_insert s id row epoch :
  fresh_epoch s epoch -> Table.row_owner_epoch row <> epoch ->
  fresh_epoch (Durable.set_table (<[(Durable.run_id s, id) := row]> (Durable.table s)) s) epoch.
Proof.
  intros Hs Hr id' row'. cbn. destruct (decide (id' = id)) as [->|].
  - rewrite lookup_insert_eq. by intros [= <-].
  - rewrite lookup_insert_ne by congruence. apply Hs.
Qed.

Lemma fresh_epoch_claim s id fp epoch :
  fresh_epoch s epoch -> epoch <> Durable.owner_epoch s ->
  fresh_epoch (Durable.claim None s id fp).2 epoch.
Proof.
  intros Hs He. unfold Durable.claim, Durable.claim_op. destruct (encodes fp) as [b ->]. cbn.
  unfold Table.claim. destruct (Durable.table s !! _) as [row|] eqn:E.
  - repeat case_match; simplify_eq/=; try done;
      (apply fresh_epoch_insert; [done|cbn; congruence]).
  - cbn. apply fresh_epoch_insert; [done|cbn; congruence].
Qed.

Lemma fresh_epoch_record s id res epoch :
  fresh_epoch s epoch -> fresh_epoch (Durable.record_op None s id res).2 epoch.
Proof.
  intros Hs. unfold Durable.record_op. destruct (result_round_trip res) as (b & -> & _). cbn.
  unfold Table.record, Table.settle. destruct (Durable.table s !! _) as [row|] eqn:E; [|done].
  repeat case_match; try done. apply fresh_epoch_insert; [done|]. exact (Hs id row E).
Qed.

Lemma fresh_epoch_evict s id epoch :
  fresh_epoch s epoch -> fresh_epoch (Durable.evict None s id) epoch.
Proof.
  intros Hs. unfold Durable.evict. cbn. unfold Table.evict.
  destruct (Durable.table s !! _) as [row|] eqn:E; [|done].
  case_match; [done|]. apply fresh_epoch_insert; [done|]. exact (Hs id row E).
Qed.

(** ** Any interleaving of process lifetimes over one table *)
Inductive call : Type :=
| CClaim (id : OperationId) (fp : OperationFingerprint)
| CRecord (id : OperationId) (res : ReverseResult)
| CFail (id : OperationId) (err : ErrorResponse)
| CEvict (id : OperationId).

(** One call, made by the lifetime [epoch] and meeting [fault]. *)
Record event : Type := MkCallEvent { ev_epoch : Uuid; ev_fault : option Fault; ev_call : call }.

(** The identities the call was told are fresh, and the table after it. *)
Definition run_call (run : RunId) (tb : Table.t) (e : event) : list OperationId * Table.t :=
  let s := Durable.new tb run (ev_epoch e) in
  match ev_call e with
  | CClaim id fp =>
      let r := Durable.claim (ev_fault e) s id fp in
      (match r.1 with Fresh => [id] | _ => [] end, Durable.table r.2)
  | CRecord id res => ([], Durable.table (Durable.record_op (ev_fault e) s id res).2)
  | CFail id err => ([], Durable.table (Durable.fail_op (ev_fault e) s id err).2)
  | CEvict id => ([], Durable.table (Durable.evict (ev_fault e) s id))
  end.

Fixpoint run_calls (run : RunId) (tb : Table.t) (trace : list event) : list OperationId :=
  match trace with
  | [] => []
  | e :: trace => let r := run_call run tb e in r.1 ++ run_calls run r.2 trace
  end.

(** Every row carries an external effect, as every capability does. *)
Definition all_external (tb : Table.t) : Prop :=
  map_Forall (fun _ row => Table.row_external_effect row = true) tb.

(** What one call does to the table: rows stay, and a fresh claim adds its own. *)
Definition grows (run : RunId) (tb tb' : Table.t) (fresh : list OperationId) : Prop :=
  all_external tb'
  /\ (forall key, is_Some (tb !! key) -> is_Some (tb' !! key))
  /\ (fresh = [] \/ exists id, fresh = [id] /\ tb !! (run, id) = None
                              /\ is_Some (tb' !! (run, id))).

Lemma grows_same run tb : all_external tb -> grows run tb tb [].
Proof. intros Hx. split_and!; auto. Qed.

Lemma grows_insert run tb key row fresh :
  all_external tb -> Table.row_external_effect row = true ->
  (fresh = [] \/ exists id, fresh = [id] /\ tb !! (run, id) = None /\ key = (run, id)) ->
  grows run tb (<[key := row]> tb) fresh.
Proof.
  intros Hx Hr Hf. split_and!.
  - by apply map_Forall_insert_2.
  - intros k Hk. destruct (decide (k = key)) as [->|]; rewrite ?lookup_insert_eq; [by eexists|].
    by rewrite lookup_insert_ne.
  - destruct Hf as [->|(id & -> & Hn & ->)]; [by left|right].
    exists id. rewrite lookup_insert_eq. eauto.
Qed.

Lemma grows_settle run tb id label b :
  all_external tb -> grows run tb (Table.settle tb run id label b).2 [].
Proof.
  intros Hx. unfold Table.settle. destruct (tb !! (run, id)) as [row|] eqn:E; [|by apply grows_same].
  case_match; [|case_match; by apply grows_same]. apply grows_insert; [done| |by left].
  by apply (Hx _ _ E).
Qed.

Lemma grows_evict run tb id : all_external tb -> grows run tb (Table.evict tb run id) [].
Proof.
  intros Hx. unfold Table.evict. destruct (tb !! (run, id)) as [row|] eqn:E; [|by apply grows_same].
  case_match; [by apply grows_same|]. apply grows_insert; [done| |by left].
  by apply (Hx _ _ E).
Qed.

Lemma table_claim_known tb run id b x epoch row :
  tb !! (run, id) = Some row -> Table.row_external_effect row = true ->
  exists o, Table.claim tb run id b x epoch = (o, tb) /\ o <> Table.OFresh.
Proof.
  intros E Hx. unfold Table.claim. rewrite E, Hx.
  repeat case_match; (eexists; split; [reflexivity|done]).
Qed.

Lemma claim_outcome_fresh o : Durable.claim_outcome o = Ok Fresh -> o = Table.OFresh.
Proof.
  destruct o as [|b|b| | | |]; cbn; try done.
  - by destruct (result_from_slice b).
  - by destruct (error_from_slice b).
Qed.

Lemma grows_claim run f tb epoch id fp :
  all_external tb ->
  let r := Durable.claim f (Durable.new tb run epoch) id fp in
  grows run tb (Durable.table r.2) (match r.1 with Fresh => [id] | _ => [] end).
Proof.
  intros Hx. cbn zeta. unfold Durable.claim, Durable.claim_op.
  destruct (encodes fp) as [b ->]. cbn [Durable.encode Durable.table Durable.run_id
    Durable.owner_epoch Durable.new].
  destruct (tb !! (run, id)) as [row|] eqn:E.
  - destruct (table_claim_known tb run id b (Durable.has_external_effect fp) epoch row E
      (Hx _ _ E)) as (o & -> & Ho).
    destruct f as [[]|]; cbn; [by apply grows_same..|].
    destruct (Durable.claim_outcome o) as [[]|] eqn:Eo; cbn; try by apply grows_same.
    by apply claim_outcome_fresh in Eo.
  - unfold Table.claim. rewrite E. destruct f as [[]|]; cbn; [by apply grows_same| |].
    + apply grows_insert; [done|by destruct fp|by left].
    + apply grows_insert; [done|by destruct fp|right]. eauto.
Qed.

Lemma run_call_grows run tb e :
  all_external tb -> grows run tb (run_call run tb e).2 (run_call run tb e).1.
Proof.
  intros Hx. destruct e as [epoch f [id fp|id res|id err|id]]; cbn.
  - by apply grows_claim.
  - unfold Durable.record_op. destruct (result_round_trip res) as (b & -> & _).
    destruct f as [[]|]; [by apply grows_same|by apply grows_settle..].
  - unfold Durable.fail_op. destruct (error_round_trip err) as (b & -> & _).
    destruct f as [[]|]; [by apply grows_same|by apply grows_settle..].
  - unfold Durable.evict, Durable.evict_op. 
    destruct f as [[]|]; [by apply grows_same|by apply grows_evict..].
Qed.

Lemma run_calls_fresh run trace : forall tb,
  all_external tb ->
  NoDup (run_calls run tb trace)
  /\ forall id, id ∈ run_calls run tb trace -> tb !! (run, id) = None.
Proof.
  induction trace as [|e trace IH]; intros tb Hx; cbn.
  { split; [constructor|]. intros id Hid. inversion Hid. }
  destruct (run_call_grows run tb e Hx) as (Hx' & Hkeep & Hfresh).
  destruct (IH _ Hx') as [Hnd Hnew].
  assert (Hold : forall id, id ∈ run_calls run (run_call run tb e).2 trace ->
                            tb !! (run, id) = None).
  { intros id Hid%Hnew. apply eq_None_not_Some. intros Hs%Hkeep. by rewrite Hid in Hs; inversion Hs. }
  destruct Hfresh as [->|(id & -> & Hid & Hs)]; cbn; [done|]. split.
  - constructor; [|done]. intros Hin%Hnew. rewrite Hin in Hs. by inversion Hs.
  - intros id'. rewrite elem_of_cons. intros [-> |]; auto.
Qed.
End Durable.

(** ** Theorems *)
Section Theorems.
Context `{JsonCodec}.

(** C14: the fence the durable log exists for.  Over any interleaving of calls
    made by any number of process lifetimes on one run's table, with any call
    failing before or after its transaction, one operation identity is reported
    [Fresh], the permission to execute, at most once. *)
Theorem fresh_at_most_once run trace : NoDup (run_calls run ∅ trace).
Proof. apply run_calls_fresh. apply map_Forall_empty. Qed.

(** a re-issue after a crash.  An identity claimed, and perhaps recorded and
    acknowledged, in one lifetime is resolved in the next by what was committed:
    a bare claim is refused as ambiguous, a recorded result is replayed, an
    acknowledged one is reported done, and a different request conflicts. *)
Lemma reissue_after_crash s l id fp fp' res epoch :
  durable_represents s l -> l !! id = None -> fp' <> fp ->
  fresh_epoch s epoch -> epoch <> Durable.owner_epoch s ->
  let claimed := (Durable.claim None s id fp).2 in
  let recorded := (Durable.record_op None claimed id res).2 in
  let acked := Durable.evict None recorded id in
  (Durable.claim None s id fp).1 = Fresh
  /\ (Durable.claim None (restart claimed epoch) id fp).1 = ClaimedElsewhere
  /\ (Durable.claim None (restart recorded epoch) id fp).1 = Replay (Recorded res)
  /\ (Durable.claim None (restart acked epoch) id fp).1 = Replay Evicted
  /\ (Durable.claim None (restart claimed epoch) id fp').1 = Conflict.
Proof.
  intros Hs Hl Hne Hf He. cbn zeta.
  pose proof (fresh_epoch_claim _ id fp _ Hf He) as He1.
  pose proof (fresh_epoch_record _ id res _ He1) as He2.
  pose proof (fresh_epoch_evict _ id _ He2) as He3.
  destruct (claim_None s l id fp Hs) as [Ho Hc].
  pose proof (record_None _ _ id res Hc) as Hr. pose proof (evict_None _ _ id Hr) as Ha.
  pose proof (restart_represents _ _ _ Hc He1) as Rc.
  pose proof (restart_represents _ _ _ Hr He2) as Rr.
  pose proof (restart_represents _ _ _ Ha He3) as Ra.
  rewrite Ho, (proj1 (claim_None _ _ id fp Rc)), (proj1 (claim_None _ _ id fp Rr)),
    (proj1 (claim_None _ _ id fp Ra)), (proj1 (claim_None _ _ id fp' Rc)).
  unfold spec_claim, spec_settle, spec_evict, spec_restart. rewrite Hl. cbn.
  repeat (rewrite ?lookup_fmap, ?lookup_insert_eq; cbn). by rewrite !decide_True, decide_False by done.
Qed.

(** C18: every call of the durable store implements the call of the abstract log:
    a claim answers and writes as the log does, a terminal write settles only a
    claimed identity and the first one wins, an eviction touches only a settled
    one; a backend fault can only turn a claim into a refusal or lose a write. *)
Theorem durable_store_refines_the_log f s l id fp res err :
  durable_represents s l ->
  ((Durable.claim f s id fp).1 = (spec_claim l id fp).1
    /\ durable_represents (Durable.claim f s id fp).2 (spec_claim l id fp).2
   \/ f <> None /\ (Durable.claim f s id fp).1 = ClaimedElsewhere
      /\ (durable_represents (Durable.claim f s id fp).2 l
          \/ durable_represents (Durable.claim f s id fp).2 (spec_claim l id fp).2))
  /\ (durable_represents (Durable.record_op f s id res).2 (spec_settle l id (Recorded res))
      \/ f <> None /\ durable_represents (Durable.record_op f s id res).2 l)
  /\ (durable_represents (Durable.fail_op f s id err).2 (spec_settle l id (Failed err))
      \/ f <> None /\ durable_represents (Durable.fail_op f s id err).2 l)
  /\ (durable_represents (Durable.evict f s id) (spec_evict l id)
      \/ f <> None /\ durable_represents (Durable.evict f s id) l)
  /\ Durable.state None s id = spec_state l id.
Proof.
  intros Hs. split_and!; [by apply durable_claim|by apply durable_record|by apply durable_fail
    |by apply durable_evict|by apply durable_state].
Qed.
End Theorems.
