(* ===== verification/CapHost.v ===== *)
(** * Sandbox protocol: the capability host

    [CapabilityHost] of [crates/tidebreak-sandbox-protocol/src/host.rs] over any
    [OperationStore], as a transition system.  One step is one critical section
    of the source: [dispatch] runs its claim and the in-flight insertion under
    the state lock; [cancel], [cancel_all] and [begin_close] claim cancellations
    under the same lock and fire the signals after releasing it, so firing one
    is a step of its own; the spawned [execute] task advances phase by phase,
    its store write, its removal from the in-flight set and its publication
    being separate steps.

    An [Arc<Inflight>] is a numbered entry: [Arc::ptr_eq] is equality of
    numbers.  A [oneshot] channel is the state of its sender ([Signal]).  The
    responder is outside the model: it may complete with any response.  The list
    [executions] records, in order, the identities whose responder future was
    first polled; it is not part of the program's state. *)

From S2P Require Export OpLog.

(** ** Responses of the host *)
Notation HostResponse := (Response ReverseResult).

Definition ambiguous : HostResponse :=
  RError (MkError OperationAmbiguous
    "operation is claimed with no provable outcome and will not be replayed" false).
Definition closed_response : HostResponse :=
  RError (MkError Cancelled "reverse request was refused because the run is terminal" false).
Definition cancelled : HostResponse :=
  RError (MkError Cancelled "reverse request was cancelled" false).
Definition evicted_response : HostResponse :=
  RError (MkError OperationEvicted
    "operation already completed; its recorded result was evicted" false).
Definition conflict_response : HostResponse :=
  RError (MkError OperationIdConflict
    "operation identity was reused for a different request" false).

(** The bound [execute] puts on what the responder returned. *)
Definition bound_result (settled : HostResponse) : HostResponse :=
  match settled with
  | ROk result =>
      if negb (result_within_bounds result) then
        RError (MkError TooLarge "reverse result exceeds its per-capability bound" false)
      else settled
  | RError _ => settled
  end.

(** The gates of [dispatch] before it takes the state lock. *)
Definition admission (grants : GrantSet) (envelope : ReverseEnvelope) : option HostResponse :=
  match require_version (env_version envelope) with
  | Err _ =>
      Some (RError (MkError ProtocolVersion "sandbox protocol version mismatch" false))
  | Ok _ =>
      if negb (allows grants (capability (env_request envelope))) then Some (RError denied)
      else if negb (request_within_bounds (env_request envelope)) then
        Some (RError (MkError TooLarge "reverse request exceeds its per-capability bound" false))
      else None
  end.

(** ** State *)
Inductive SettlementOwner : Type := OwnerPending | OwnerCancellation | OwnerSettling.
#[export] Instance SettlementOwner_eq_dec : EqDecision SettlementOwner.
Proof. solve_decision. Defined.

(** The cancel sender: held by the entry, taken but not fired, fired, dropped. *)
Inductive Signal : Type := Held | Taken | Sent | Dropped.
#[export] Instance Signal_eq_dec : EqDecision Signal.
Proof. solve_decision. Defined.

Inductive Outcome : Type := Pending | Published (response : HostResponse).

Record Inflight : Type := MkInflight {
  owner : SettlementOwner; signal : Signal; outcome : Outcome }.

(** Where an [execute] task stands. *)
Inductive Phase : Type :=
| PStart                              (* spawned, not polled *)
| PTryRecv                            (* cancellation had not won *)
| PSelect                             (* the signal was not there: entering select *)
| PRunning                            (* the responder is running *)
| PReturned (response : HostResponse) (* select returned, the bound applied *)
| PRecord (response : HostResponse)   (* settlement ownership decided *)
| PRemove (response : HostResponse)   (* the store write returned *)
| PPublish (response : HostResponse). (* gone from the in-flight set *)

Record Task : Type := MkTask { task_id : OperationId; task_entry : nat; task_phase : Phase }.

Section Host.
Context {store : Type} `{OperationStore store}.

Record Host : Type := MkHost {
  grants : GrantSet;
  host_store : store;
  closed : bool;
  inflight : gmap OperationId nat;
  entries : gmap nat Inflight;
  tasks : list Task;
  next_entry : nat;
  executions : list OperationId
}.

(** [CapabilityHost::new] *)
Definition host_new (g : GrantSet) (s : store) : Host := MkHost g s false ∅ ∅ [] 0 [].

Definition set_store (s : store) (h : Host) : Host :=
  MkHost (grants h) s (closed h) (inflight h) (entries h) (tasks h) (next_entry h) (executions h).
Definition set_entries (es : gmap nat Inflight) (h : Host) : Host :=
  MkHost (grants h) (host_store h) (closed h) (inflight h) es (tasks h) (next_entry h)
    (executions h).
Definition set_closed (h : Host) : Host :=
  MkHost (grants h) (host_store h) true (inflight h) (entries h) (tasks h) (next_entry h)
    (executions h).
Definition set_inflight (m : gmap OperationId nat) (h : Host) : Host :=
  MkHost (grants h) (host_store h) (closed h) m (entries h) (tasks h) (next_entry h)
    (executions h).
Definition set_tasks (ts : list Task) (h : Host) : Host :=
  MkHost (grants h) (host_store h) (closed h) (inflight h) (entries h) ts (next_entry h)
    (executions h).
Definition add_execution (id : OperationId) (h : Host) : Host :=
  MkHost (grants h) (host_store h) (closed h) (inflight h) (entries h) (tasks h) (next_entry h)
    (executions h ++ [id]).

(** ** [dispatch] *)
Inductive ReverseWaiter : Type :=
| WaitSettled (response : HostResponse)
| WaitPending (entry : nat).

Definition admit_fresh (h : Host) (id : OperationId) : Host :=
  MkHost (grants h) (host_store h) (closed h)
    (<[id := next_entry h]> (inflight h))
    (<[next_entry h := MkInflight OwnerPending Held Pending]> (entries h))
    (tasks h ++ [MkTask id (next_entry h) PStart])
    (S (next_entry h)) (executions h).

Definition dispatch (f : option Fault) (h : Host) (envelope : ReverseEnvelope)
    : ReverseWaiter * Host :=
  match admission (grants h) envelope with
  | Some refusal => (WaitSettled refusal, h)
  | None =>
      let id := env_operation_id envelope in
      if closed h then (WaitSettled closed_response, h)
      else
        let '(o, s) := claim f (host_store h) id (env_request envelope) in
        let h := set_store s h in
        match o with
        | Fresh => (WaitPending (next_entry h), admit_fresh h id)
        | Replay (Recorded result) => (WaitSettled (ROk result), h)
        | Replay (Failed error) => (WaitSettled (RError error), h)
        | Replay Claimed =>
            match inflight h !! id with
            | Some entry => (WaitPending entry, h)
            | None => (WaitSettled ambiguous, h)
            end
        | Replay Evicted => (WaitSettled evicted_response, h)
        | ClaimedElsewhere => (WaitSettled ambiguous, h)
        | Conflict => (WaitSettled conflict_response, h)
        end
  end.

(** ** Cancellation *)
Definition claim_cancellation (entry : Inflight) : Inflight :=
  if bool_decide (owner entry = OwnerPending) then
    MkInflight OwnerCancellation (match signal entry with Held => Taken | s => s end)
      (outcome entry)
  else entry.

Definition claim_cancellation_of (es : gmap nat Inflight) (e : nat) : gmap nat Inflight :=
  alter claim_cancellation e es.

Definition cancel (h : Host) (id : OperationId) : Host :=
  match inflight h !! id with
  | Some e => set_entries (claim_cancellation_of (entries h) e) h
  | None => h
  end.

(** [claim_cancellations(state.inflight.values())] *)
Definition claim_cancellations (h : Host) : gmap nat Inflight :=
  map_imap (fun e entry =>
    Some (if bool_decide (Exists (fun kv => kv.2 = e) (map_to_list (inflight h)))
          then claim_cancellation entry else entry)) (entries h).

Definition cancel_all (h : Host) : Host := set_entries (claim_cancellations h) h.
Definition begin_close (h : Host) : Host := set_closed (cancel_all h).

(** [sender.send(())] for one taken sender. *)
Definition fire (entry : Inflight) : Inflight :=
  MkInflight (owner entry) (match signal entry with Taken => Sent | s => s end) (outcome entry).

Definition acknowledge (f : option Fault) (h : Host) (id : OperationId) : Host :=
  set_store (evict f (host_store h) id) h.

(** [wait_idle]'s condition. *)
Definition idle (h : Host) : bool := bool_decide (inflight h = ∅).

(** ** The [execute] task *)
Definition claim_responder_settlement (h : Host) (t : Task) (entry : Inflight)
    : bool * Inflight :=
  if negb (bool_decide (inflight h !! task_id t = Some (task_entry t))) then (false, entry)
  else match owner entry with
       | OwnerPending =>
           (true, MkInflight OwnerSettling
                    (match signal entry with Held => Dropped | s => s end) (outcome entry))
       | OwnerCancellation | OwnerSettling => (false, entry)
       end.

Definition settle_store (f : option Fault) (s : store) (id : OperationId) (r : HostResponse)
    : store :=
  match r with
  | ROk result => (record f s id result).2
  | RError error => (fail_op f s id error).2
  end.

Definition with_phase (t : Task) (p : Phase) : Task := MkTask (task_id t) (task_entry t) p.

(** The signal makes [cancel.try_recv()] and the select's first arm return. *)
Definition signalled (entry : Inflight) : bool :=
  match signal entry with Sent | Dropped => true | Held | Taken => false end.

(** One step of [execute] on its entry: the host it leaves, task list aside, and
    the phase it goes to ([None] once it returned).  [f] is the fault its store
    write meets, [reply] the responder's response when it is ready; a running
    responder that is neither ready nor cancelled has no step. *)
Definition execute_step (f : option Fault) (reply : option HostResponse) (h : Host) (t : Task)
    (entry : Inflight) : option (Host * option Phase) :=
  match task_phase t with
  | PStart =>
      if bool_decide (owner entry = OwnerCancellation)
      then Some (h, Some (PReturned (bound_result cancelled)))
      else Some (h, Some PTryRecv)
  | PTryRecv =>
      if signalled entry then Some (h, Some (PReturned (bound_result cancelled)))
      else Some (h, Some PSelect)
  | PSelect =>
      if signalled entry then Some (h, Some (PReturned (bound_result cancelled)))
      else Some (add_execution (task_id t) h, Some PRunning)
  | PRunning =>
      if signalled entry then Some (h, Some (PReturned (bound_result cancelled)))
      else match reply with
           | Some response => Some (h, Some (PReturned (bound_result response)))
           | None => None
           end
  | PReturned response =>
      let '(won, entry') := claim_responder_settlement h t entry in
      Some (set_entries (<[task_entry t := entry']> (entries h)) h,
            Some (PRecord (if won then response else cancelled)))
  | PRecord response =>
      Some (set_store (settle_store f (host_store h) (task_id t) response) h,
            Some (PRemove response))
  | PRemove response =>
      Some (set_inflight (delete (task_id t) (inflight h)) h, Some (PPublish response))
  | PPublish response =>
      Some (set_entries
        (<[task_entry t := MkInflight (owner entry) (signal entry) (Published response)]>
           (entries h)) h, None)
  end.

(** The task list after [t], between [before] and [after], moved on. *)
Definition moved (before : list Task) (t : Task) (p : option Phase) (after : list Task)
    : list Task :=
  before ++ match p with Some p => with_phase t p :: after | None => after end.

(** ** The system *)
Inductive step (may_fault : Prop) : Host -> Host -> Prop :=
| step_dispatch f h envelope : (f <> None -> may_fault) ->
    step may_fault h (dispatch f h envelope).2
| step_cancel h id : step may_fault h (cancel h id)
| step_cancel_all h : step may_fault h (cancel_all h)
| step_close h : step may_fault h (begin_close h)
| step_fire h e : step may_fault h (set_entries (alter fire e (entries h)) h)
| step_acknowledge f h id : (f <> None -> may_fault) -> step may_fault h (acknowledge f h id)
| step_task f reply h before t after entry h' p : (f <> None -> may_fault) ->
    tasks h = before ++ t :: after -> entries h !! task_entry t = Some entry ->
    execute_step f reply h t entry = Some (h', p) ->
    step may_fault h (set_tasks (moved before t p after) h').

Definition reachable (may_fault : Prop) (h h' : Host) : Prop := rtc (step may_fault) h h'.
End Host.
Arguments Host store : clear implicits.
