(* ===== verification/CapHostFacts.v ===== *)
(** * Sandbox protocol: what the capability host guarantees

    An invariant of the transition system of [CapHost], over any store that
    satisfies the [OperationStore] laws, and its consequences: at most one
    execution per identity, the close boundary, cancellation owning its
    settlement, deny by default, and, when no store call fails, the agreement of
    what is published with what is recorded. *)

From S2P Require Export CapHost.

(** ** Logs only grow *)
Definition log_grows (l l' : log) : Prop := forall id, is_Some (l !! id) -> is_Some (l' !! id).

Lemma grows_refl l : log_grows l l.
Proof. by intros id. Qed.

Lemma grows_put l id e : log_grows l (<[id := e]> l).
Proof.
  intros id' Hs. destruct (decide (id' = id)) as [->|]; [rewrite lookup_insert_eq; by eexists|].
  by rewrite lookup_insert_ne.
Qed.

Lemma spec_claim_grows l id fp : log_grows l (spec_claim l id fp).2.
Proof. unfold spec_claim. repeat case_match; cbn; auto using grows_refl, grows_put. Qed.

Lemma spec_settle_grows l id st : log_grows l (spec_settle l id st).
Proof. unfold spec_settle. repeat case_match; auto using grows_refl, grows_put. Qed.

Lemma spec_evict_grows l id : log_grows l (spec_evict l id).
Proof. unfold spec_evict. repeat case_match; auto using grows_refl, grows_put. Qed.

#[export] Hint Resolve grows_refl spec_claim_grows spec_settle_grows spec_evict_grows : tb.

Lemma spec_claim_fresh l id fp :
  (spec_claim l id fp).1 = Fresh ->
  l !! id = None /\ (spec_claim l id fp).2 = <[id := (fp, ClaimedHere)]> l.
Proof. unfold spec_claim. repeat case_match; cbn; try done. Qed.

Section Facts.
Context {store : Type} `{OperationStore store}.

(** ** What a store call does to the represented log, faults included *)
Lemma store_claim f s l id fp :
  represents s l -> exists l', represents (claim f s id fp).2 l' /\ log_grows l l'
    /\ ((claim f s id fp).1 = Fresh -> l !! id = None /\ is_Some (l' !! id)).
Proof.
  intros Hs. destruct (claim_simulates f s l id fp Hs) as [[Ho Hr]|(_ & Ho & [Hr|Hr])].
  - exists (spec_claim l id fp).2. split_and!; [done|auto with tb|]. rewrite Ho.
    intros Hf. destruct (spec_claim_fresh l id fp Hf) as [Hn E]. split; [done|].
    rewrite E, lookup_insert_eq. by eexists.
  - exists l. split_and!; [done|auto with tb|]. by rewrite Ho.
  - exists (spec_claim l id fp).2. split_and!; [done|auto with tb|]. by rewrite Ho.
Qed.

Definition terminal_of (r : HostResponse) : OperationState :=
  match r with ROk result => Recorded result | RError error => Failed error end.

Lemma store_settle_cases f s l id r :
  represents s l ->
  represents (settle_store f s id r) (spec_settle l id (terminal_of r))
  \/ (f <> None /\ represents (settle_store f s id r) l).
Proof.
  intros Hs. destruct r; cbn; [by apply record_simulates|by apply fail_simulates].
Qed.

Lemma store_settle f s l id r :
  represents s l -> exists l', represents (settle_store f s id r) l' /\ log_grows l l'.
Proof. intros Hs. destruct (store_settle_cases f s l id r Hs) as [?|[_ ?]]; eauto with tb. Qed.

Lemma store_evict f s l id :
  represents s l -> exists l', represents (evict f s id) l' /\ log_grows l l'.
Proof. intros Hs. destruct (evict_simulates f s l id Hs) as [?|[_ ?]]; eauto with tb. Qed.

(** ** The invariant *)
Definition early (p : Phase) : bool :=
  match p with PStart | PTryRecv | PSelect => true | _ => false end.
Definition unsettled (p : Phase) : bool :=
  match p with PStart | PTryRecv | PSelect | PRunning | PReturned _ => true | _ => false end.
Definition in_flight (p : Phase) : bool := match p with PPublish _ => false | _ => true end.
Definition settled_response (p : Phase) : option HostResponse :=
  match p with PRecord r | PRemove r | PPublish r => Some r | _ => None end.

(** An entry and the task that drives it. *)
Definition entry_ok (is_closed : bool) (p : Phase) (entry : Inflight) : Prop :=
  outcome entry = Pending /\
  match owner entry with
  | OwnerPending => unsettled p = true /\ signal entry = Held /\ is_closed = false
  | OwnerCancellation =>
      (signal entry = Taken \/ signal entry = Sent)
      /\ (forall r, settled_response p = Some r -> r = cancelled)
  | OwnerSettling => unsettled p = false /\ signal entry = Dropped
  end.

Record task_ok (l0 : log) (h : Host store) (l : log) (t : Task) : Prop := {
  ok_entry : exists entry, entries h !! task_entry t = Some entry
                           /\ entry_ok (closed h) (task_phase t) entry;
  ok_inflight : in_flight (task_phase t) = true ->
                inflight h !! task_id t = Some (task_entry t);
  ok_known : is_Some (l !! task_id t);
  ok_new : l0 !! task_id t = None;
  ok_early : early (task_phase t) = true -> task_id t ∉ executions h
}.

(** [l0] is the log the host was opened on. *)
Record host_ok (l0 : log) (h : Host store) (l : log) : Prop := {
  ok_store : represents (host_store h) l;
  ok_tasks : Forall (task_ok l0 h l) (tasks h);
  ok_ids : NoDup (task_id <$> tasks h);
  ok_entries : NoDup (task_entry <$> tasks h);
  ok_map : forall id e, inflight h !! id = Some e ->
           exists t, t ∈ tasks h /\ task_id t = id /\ task_entry t = e
                     /\ in_flight (task_phase t) = true;
  ok_bound : forall e, is_Some (entries h !! e) -> e < next_entry h;
  ok_once : NoDup (executions h);
  ok_executed : Forall (fun id => is_Some (l !! id) /\ l0 !! id = None) (executions h);
  ok_grown : log_grows l0 l;
  ok_published : forall e entry r, entries h !! e = Some entry ->
    outcome entry = Published r -> owner entry = OwnerCancellation -> r = cancelled
}.

Lemma host_new_ok g s l : represents s l -> host_ok l (host_new g s) l.
Proof.
  intros Hs. split; cbn; auto with tb; try by constructor.
  all: intros *; rewrite lookup_empty; done.
Qed.

(** A step that changes only the store. *)
Lemma set_store_ok l0 h l l' s :
  host_ok l0 h l -> represents s l' -> log_grows l l' -> host_ok l0 (set_store s h) l'.
Proof.
  intros [? Ht ? ? ? ? ? Hx Hg ?] Hs Hl. split; cbn; try done.
  - eapply Forall_impl; [exact Ht|]. intros t [? ? ? ? ?]. split; auto.
  - eapply Forall_impl; [exact Hx|]. intros id [? ?]. auto.
  - intros id Hid. auto.
Qed.

(** A step that maps entries, keeping every task's entry in order. *)
Lemma set_entries_ok l0 h l es :
  host_ok l0 h l ->
  (forall t entry, t ∈ tasks h -> entries h !! task_entry t = Some entry ->
     entry_ok (closed h) (task_phase t) entry ->
     exists entry', es !! task_entry t = Some entry' /\ entry_ok (closed h) (task_phase t) entry') ->
  (forall e, is_Some (es !! e) -> is_Some (entries h !! e)) ->
  (forall e entry r, es !! e = Some entry -> outcome entry = Published r ->
     owner entry = OwnerCancellation -> r = cancelled) ->
  host_ok l0 (set_entries es h) l.
Proof.
  intros [? Ht ? ? ? ? ? ? ? ?] He Hb Hp. split; cbn; try done; [|auto].
  rewrite Forall_forall in Ht. apply Forall_forall. intros t Hin.
  destruct (Ht t Hin) as [(entry & Hentry & Hok) ? ? ? ?]. split; cbn; try done.
  by eapply He.
Qed.

(** Cancelling an entry, or firing its signal, keeps it in order. *)
Lemma claim_cancellation_ok c p entry :
  entry_ok c p entry -> entry_ok c p (claim_cancellation entry).
Proof.
  intros [Ho Hk]. unfold claim_cancellation. case_bool_decide as Hp; [|done].
  rewrite Hp in Hk. destruct Hk as (Hu & Hs & _). split; [done|]. cbn. rewrite Hs.
  split; [by left|]. intros r Hr. by destruct p.
Qed.

Lemma fire_ok c p entry : entry_ok c p entry -> entry_ok c p (fire entry).
Proof.
  intros [Ho Hk]. split; [done|]. cbn. destruct (owner entry).
  - destruct Hk as (? & -> & ?). done.
  - destruct Hk as ([-> | ->] & ?); auto.
  - destruct Hk as (? & ->). done.
Qed.

Lemma claim_cancellation_outcome entry : outcome (claim_cancellation entry) = outcome entry.
Proof. unfold claim_cancellation. by case_bool_decide. Qed.

(** An entry whose owner is still pending has published nothing, if a task
    drives it; an entry no task drives is never pending. *)
Lemma driven l0 h l e entry :
  host_ok l0 h l -> entries h !! e = Some entry -> e ∈ task_entry <$> tasks h ->
  outcome entry = Pending.
Proof.
  intros Hh He Hin. apply list_elem_of_fmap in Hin as (t & -> & Ht).
  pose proof (ok_tasks _ _ _ Hh) as Hall. rewrite Forall_forall in Hall.
  destruct (ok_entry _ _ _ _ (Hall t Ht)) as (entry' & He' & Hp & _). congruence.
Qed.

(** Mapping a function over the entries the in-flight set names. *)
Lemma map_entries_ok l0 h l es (touched : nat -> Prop) g :
  host_ok l0 h l ->
  (forall e, es !! e = entries h !! e \/ (touched e /\ es !! e = g <$> entries h !! e)) ->
  (forall e, touched e -> e ∈ task_entry <$> tasks h \/ forall entry, owner (g entry) = owner entry) ->
  (forall entry, outcome (g entry) = outcome entry) ->
  (forall c p entry, entry_ok c p entry -> entry_ok c p (g entry)) ->
  host_ok l0 (set_entries es h) l.
Proof.
  intros Hh Hes Htouch Hout Hok. apply set_entries_ok; [done| | |].
  - intros t entry Ht He Hentry. destruct (Hes (task_entry t)) as [-> |[_ ->]]; [eauto|].
    rewrite He. eauto.
  - intros e [x Hx]. destruct (Hes e) as [E|[_ E]]; rewrite E in Hx; [by eexists|].
    destruct (entries h !! e); [by eexists|done].
  - intros e entry r He Hr Ho. destruct (Hes e) as [E|[Ht E]]; rewrite E in He.
    + by eapply ok_published.
    + destruct (entries h !! e) as [entry'|] eqn:Ee; [|done]. cbn in He. injection He as <-.
      rewrite Hout in Hr. destruct (Htouch e Ht) as [Hin|Hsame].
      * by rewrite (driven _ _ _ _ _ Hh Ee Hin) in Hr.
      * rewrite Hsame in Ho. by eapply ok_published.
Qed.

Lemma cancel_ok l0 h l id : host_ok l0 h l -> host_ok l0 (cancel h id) l.
Proof.
  intros Hh. unfold cancel. destruct (inflight h !! id) as [e|] eqn:E; [|done].
  apply (map_entries_ok _ _ _ _ (fun e' => e' = e) claim_cancellation); [done| | | |].
  - intros e'. unfold claim_cancellation_of.
    destruct (decide (e' = e)) as [->|]; [right|left]; rewrite ?lookup_alter_eq; [done|].
    by rewrite lookup_alter_ne.
  - intros ? ->. left. destruct (ok_map _ _ _ Hh id e E) as (t & Ht & _ & <- & _).
    by apply list_elem_of_fmap_2.
  - apply claim_cancellation_outcome.
  - apply claim_cancellation_ok.
Qed.

Lemma cancel_all_ok l0 h l : host_ok l0 h l -> host_ok l0 (cancel_all h) l.
Proof.
  intros Hh. apply (map_entries_ok _ _ _ _
    (fun e => exists id, inflight h !! id = Some e) claim_cancellation); [done| | | |].
  - intros e. unfold claim_cancellations. rewrite map_lookup_imap.
    case_bool_decide as Hd.
    + right. split; [|by destruct (entries h !! e)].
      apply Exists_exists in Hd as ([id e'] & Hin & <-). apply elem_of_map_to_list in Hin.
      by exists id.
    + left. by destruct (entries h !! e).
  - intros e [id E]. left. destruct (ok_map _ _ _ Hh id e E) as (t & Ht & _ & <- & _).
    by apply list_elem_of_fmap_2.
  - apply claim_cancellation_outcome.
  - apply claim_cancellation_ok.
Qed.

Lemma fire_step_ok l0 h l e :
  host_ok l0 h l -> host_ok l0 (set_entries (alter fire e (entries h)) h) l.
Proof.
  intros Hh. apply (map_entries_ok _ _ _ _ (fun e' => e' = e) fire); [done| | | |].
  - intros e'. destruct (decide (e' = e)) as [->|]; [right|left]; rewrite ?lookup_alter_eq; [done|].
    by rewrite lookup_alter_ne.
  - intros ? ->. by right.
  - done.
  - apply fire_ok.
Qed.

Lemma set_closed_ok l0 h l :
  host_ok l0 h l ->
  (forall t entry, t ∈ tasks h -> entries h !! task_entry t = Some entry ->
     owner entry <> OwnerPending) ->
  host_ok l0 (set_closed h) l.
Proof.
  intros [? Ht ? ? ? ? ? ? ? ?] Hp. split; cbn; try done.
  rewrite Forall_forall in Ht. apply Forall_forall. intros t Hin.
  destruct (Ht t Hin) as [(entry & He & Ho & Hk) ? ? ? ?]. split; cbn; try done.
  exists entry. split; [done|]. split; [done|]. specialize (Hp t entry Hin He).
  by destruct (owner entry).
Qed.

Lemma claim_cancellation_owner entry : owner (claim_cancellation entry) <> OwnerPending.
Proof. unfold claim_cancellation. by case_bool_decide. Qed.

(** After [claim_cancellations] no running task owns its settlement still. *)
Lemma cancel_all_claims l0 h l t entry :
  host_ok l0 h l -> t ∈ tasks h -> entries (cancel_all h) !! task_entry t = Some entry ->
  owner entry <> OwnerPending.
Proof.
  intros Hh Ht. pose proof (ok_tasks _ _ _ Hh) as Hall. rewrite Forall_forall in Hall.
  destruct (Hall t Ht) as [(entry' & He & Ho & Hk) Hin ? ? ?].
  cbn. unfold claim_cancellations. rewrite map_lookup_imap, He. cbn. intros [= <-].
  case_bool_decide as Hd; [apply claim_cancellation_owner|].
  intros Hp. rewrite Hp in Hk. destruct Hk as (Hu & _). apply Hd.
  apply Exists_exists. exists (task_id t, task_entry t). split; [|done].
  apply elem_of_map_to_list, Hin. by destruct (task_phase t).
Qed.

Lemma begin_close_ok l0 h l : host_ok l0 h l -> host_ok l0 (begin_close h) l.
Proof.
  intros Hh. apply set_closed_ok; [by apply cancel_all_ok|].
  intros t entry Ht. by eapply cancel_all_claims.
Qed.

(** ** Admitting a fresh operation *)
Lemma admit_fresh_ok l0 h l id :
  host_ok l0 h l -> closed h = false -> is_Some (l !! id) -> l0 !! id = None ->
  id ∉ task_id <$> tasks h -> id ∉ executions h ->
  host_ok l0 (admit_fresh h id) l.
Proof.
  intros [? Ht Hids Hents Hmap Hb ? ? ? Hpub] Hc Hk Hn Hid Hex.
  assert (Hnew : forall e, is_Some (entries h !! e) -> e <> next_entry h).
  { intros e He%Hb. lia. }
  rewrite Forall_forall in Ht. split; cbn; try done.
  - apply Forall_app. split; [|constructor; [|constructor]].
    + apply Forall_forall. intros t Hin. destruct (Ht t Hin) as [(entry & He & Hok) Hin' ? ? ?].
      split; cbn; try done.
      * exists entry. rewrite lookup_insert_ne; [done|]. apply not_eq_sym, Hnew. by eexists.
      * intros Hf. rewrite lookup_insert_ne; [by apply Hin'|]. intros E.
        apply Hid. rewrite E. by apply list_elem_of_fmap_2.
    + split; cbn; try done.
      * eexists. rewrite lookup_insert_eq. split; [done|]. by rewrite Hc.
      * intros _. by rewrite lookup_insert_eq.
  - rewrite fmap_app. apply NoDup_app. split_and!; [done| |apply NoDup_singleton].
    intros x Hx ->%list_elem_of_singleton. done.
  - rewrite fmap_app. apply NoDup_app. split_and!; [done| |apply NoDup_singleton].
    intros x Hx ->%list_elem_of_singleton. apply list_elem_of_fmap in Hx as (t & E & Hin). cbn in E.
    destruct (Ht t Hin) as [(entry & He & _) _ _ _ _]. apply (Hnew (task_entry t)); [by eexists|done].
  - intros id' e. destruct (decide (id' = id)) as [->|].
    + rewrite lookup_insert_eq. intros [= <-].
      eexists. split; [apply elem_of_app; right; by left|done].
    + rewrite lookup_insert_ne by done. intros (t & Hin & ?)%Hmap. exists t.
      split; [apply elem_of_app; by left|done].
  - intros e. destruct (decide (e = next_entry h)) as [->|]; [lia|].
    rewrite lookup_insert_ne by done. intros ?%Hb. lia.
  - intros e entry r. destruct (decide (e = next_entry h)) as [->|].
    + rewrite lookup_insert_eq. by intros [= <-].
    + rewrite lookup_insert_ne by done. apply Hpub.
Qed.

(** What is known was not asked to run before: nothing of [h] mentions [id]. *)
Lemma unknown_is_new l0 h l id :
  host_ok l0 h l -> l !! id = None ->
  l0 !! id = None /\ id ∉ task_id <$> tasks h /\ id ∉ executions h.
Proof.
  intros [? Ht ? ? ? ? ? Hx Hg ?] Hn. rewrite Forall_forall in Ht. rewrite Forall_forall in Hx.
  split_and!.
  - apply eq_None_not_Some. intros Hs%Hg. by rewrite Hn in Hs; inversion Hs.
  - intros (t & -> & Hin)%list_elem_of_fmap. destruct (ok_known _ _ _ _ (Ht t Hin)) as [? E].
    congruence.
  - intros Hin. destruct (Hx id Hin) as [[? E] _]. congruence.
Qed.

Lemma dispatch_keeps l0 f h l l' envelope :
  host_ok l0 h l -> represents (host_store (dispatch f h envelope).2) l' -> log_grows l l' ->
  ((claim f (host_store h) (env_operation_id envelope) (env_request envelope)).1 = Fresh ->
     l !! env_operation_id envelope = None /\ is_Some (l' !! env_operation_id envelope)) ->
  host_ok l0 (dispatch f h envelope).2 l'.
Proof.
  intros Hh Hr Hg Hfresh.
  assert (Hsame : represents (host_store h) l' -> host_ok l0 h l').
  { intros Hr'. pose proof (set_store_ok _ _ _ _ _ Hh Hr' Hg) as Hh'. by destruct h. }
  unfold dispatch in Hr |- *. destruct (admission _ _); [by apply Hsame|].
  destruct (closed h) eqn:Hc; [by apply Hsame|].
  destruct (claim f _ _ _) as [o s] eqn:Ecl. cbn in Hr, Hfresh.
  assert (Hs : represents s l') by (by destruct o as [|[]| |]; try case_match).
  pose proof (set_store_ok l0 h l l' s Hh Hs Hg) as Hh'.
  destruct o as [|[]| |]; cbn; try done; [|by case_match].
  destruct (Hfresh eq_refl) as [Hn Hk].
  destruct (unknown_is_new l0 h l _ Hh Hn) as (? & ? & ?). by apply admit_fresh_ok.
Qed.

Lemma dispatch_ok l0 f h l envelope :
  host_ok l0 h l -> exists l', host_ok l0 (dispatch f h envelope).2 l'.
Proof.
  intros Hh. destruct (store_claim f (host_store h) l (env_operation_id envelope)
    (env_request envelope) (ok_store _ _ _ Hh)) as (l' & Hr & Hg & Hfresh).
  unfold dispatch. destruct (admission _ _) eqn:Ea; [eauto|].
  destruct (closed h) eqn:Hc; [eauto|]. exists l'.
  assert (Hk : host_ok l0 (dispatch f h envelope).2 l').
  { apply (dispatch_keeps _ _ _ l); [done| |done|done]. unfold dispatch. rewrite Ea, Hc.
    destruct (claim f _ _ _) as [[|[]| |] s]; cbn; try case_match; done. }
  unfold dispatch in Hk. by rewrite Ea, Hc in Hk.
Qed.

(** ** One step of a task *)

(** The other tasks share neither identity nor entry with [t]. *)
Lemma others {A} (g : Task -> A) before t after t' :
  NoDup (g <$> before ++ t :: after) -> t' ∈ before ++ after -> g t' <> g t.
Proof.
  rewrite fmap_app, fmap_cons. intros Hnd Hin E.
  apply NoDup_app in Hnd as (_ & Hd & Hnd). apply NoDup_cons in Hnd as [Hn _].
  apply elem_of_app in Hin as [Hin|Hin].
  - apply (Hd (g t')); [by apply list_elem_of_fmap_2|]. rewrite E. by left.
  - apply Hn. rewrite <- E. by apply list_elem_of_fmap_2.
Qed.

Lemma moved_fmap {A} (g : Task -> A) before t p after :
  (forall t q, g (with_phase t q) = g t) ->
  NoDup (g <$> before ++ t :: after) -> NoDup (g <$> moved before t p after).
Proof.
  intros Hg Hnd. unfold moved. destruct p as [p|].
  - rewrite fmap_app, fmap_cons, Hg, <- fmap_cons, <- fmap_app. done.
  - rewrite fmap_app, fmap_cons in Hnd. rewrite fmap_app.
    apply NoDup_app in Hnd as (H1 & H2 & H3). apply NoDup_cons in H3 as [_ H3].
    apply NoDup_app. split_and!; [done| |done]. intros x Hx Hx'. apply (H2 x Hx). by right.
Qed.

Lemma moved_elem before t p after t' :
  t' ∈ moved before t p after <->
  t' ∈ before ++ after \/ exists q, p = Some q /\ t' = with_phase t q.
Proof.
  unfold moved. destruct p as [q|]; rewrite !elem_of_app, ?elem_of_cons; [|naive_solver].
  split; [|intros [[]|(? & [= <-] & ->)]; auto]. intros [|[->|]]; eauto.
Qed.

Lemma moved_Forall (Q : Task -> Prop) before t p after :
  Forall Q (moved before t p after) <->
  Forall Q (before ++ after) /\ (forall q, p = Some q -> Q (with_phase t q)).
Proof.
  rewrite !Forall_forall. setoid_rewrite moved_elem. naive_solver.
Qed.

Record moves (l0 : log) (h h1 : Host store) (l' : log) (t : Task) (p : option Phase) : Prop := {
  mv_closed : closed h1 = closed h;
  mv_next : next_entry h1 = next_entry h;
  mv_entries : forall e, e <> task_entry t -> entries h1 !! e = entries h !! e;
  mv_inflight : forall id, id <> task_id t -> inflight h1 !! id = inflight h !! id;
  mv_own : forall e, inflight h1 !! task_id t = Some e ->
    e = task_entry t /\ exists q, p = Some q /\ in_flight q = true;
  mv_executions : executions h1 = executions h
    \/ (executions h1 = executions h ++ [task_id t] /\ early (task_phase t) = true);
  mv_task : forall q, p = Some q -> task_ok l0 h1 l' (with_phase t q);
  mv_published : forall entry r, entries h1 !! task_entry t = Some entry ->
    outcome entry = Published r -> owner entry = OwnerCancellation -> r = cancelled
}.

Lemma move_ok l0 h h1 l l' before t after p :
  host_ok l0 h l -> tasks h = before ++ t :: after ->
  represents (host_store h1) l' -> log_grows l l' -> moves l0 h h1 l' t p ->
  host_ok l0 (set_tasks (moved before t p after) h1) l'.
Proof.
  intros [? Ht Hids Hents Hmap Hb Honce Hx Hg Hpub] Htasks Hr Hl [Mc Mn Me Mi Mo Mx Mt Mp].
  rewrite Htasks in Ht, Hids, Hents.
  assert (Htt : task_ok l0 h l t) by (apply Forall_app in Ht as [_ Ht]; by inversion Ht).
  rewrite Forall_forall in Ht.
  assert (Hex : NoDup (executions h1)).
  { destruct Mx as [-> |[-> He]]; [done|]. apply NoDup_app.
    split_and!; [done| |apply NoDup_singleton]. intros x Hin ->%list_elem_of_singleton.
    by apply (ok_early _ _ _ _ Htt). }
  split; cbn; try done.
  - apply moved_Forall. split; [|intros q Hq; by destruct (Mt q Hq)]. apply Forall_forall. intros t' Hin.
    pose proof (others task_id _ _ _ _ Hids Hin) as Hid.
    pose proof (others task_entry _ _ _ _ Hents Hin) as Hentry.
    destruct (Ht t') as [(entry & He & Hok) Hf Hk ? Hea].
    { apply elem_of_app in Hin as [|]; apply elem_of_app; [by left|right; by right]. }
    split; cbn; [|by rewrite Mi|by apply Hl|done|].
    + exists entry. by rewrite Me, Mc.
    + intros Hearly. destruct Mx as [-> |[-> _]]; [by apply Hea|].
      rewrite elem_of_app, list_elem_of_singleton. intros [|]; [by apply Hea|done].
  - by apply (moved_fmap task_id).
  - by apply (moved_fmap task_entry).
  - intros id e Hi. destruct (decide (id = task_id t)) as [->|Hne].
    + destruct (Mo e Hi) as [-> (q & -> & Hq)]. exists (with_phase t q). split; [|done]. apply moved_elem. right. by exists q.
    + rewrite Mi in Hi by done. destruct (Hmap id e Hi) as (t' & Hin & <- & <- & ?).
      exists t'. split; [|done]. apply moved_elem. left. rewrite Htasks in Hin.
      apply elem_of_app in Hin as [|Hin]; [apply elem_of_app; by left|].
      apply elem_of_cons in Hin as [->|]; [done|]. apply elem_of_app. by right.
  - intros e Hs. rewrite Mn. destruct (decide (e = task_entry t)) as [->|].
    + apply Hb. destruct (ok_entry _ _ _ _ Htt) as (entry & -> & _). by eexists.
    + apply Hb. by rewrite <- Me.
  - destruct Mx as [-> |[-> _]].
    + eapply Forall_impl; [exact Hx|]. intros id [? ?]. auto.
    + apply Forall_app. split; [eapply Forall_impl; [exact Hx|]; intros id [? ?]; auto|].
      apply Forall_singleton. split; [apply Hl, Htt|apply Htt].
  - intros id Hid. auto.
  - intros e entry r. destruct (decide (e = task_entry t)) as [->|]; [apply Mp|].
    rewrite Me by done. apply Hpub.
Qed.

(** A step to phase [q] that leaves the host alone. *)
Lemma stays l0 h l l' t entry q :
  host_ok l0 h l -> task_ok l0 h l' t -> entries h !! task_entry t = Some entry ->
  in_flight (task_phase t) = true -> in_flight q = true ->
  (early q = true -> early (task_phase t) = true) ->
  entry_ok (closed h) q entry -> moves l0 h h l' t (Some q).
Proof.
  intros Hh [? Hf ? ? He] Hentry Hin Hfq Hq Hok. split; try done.
  - intros e. rewrite Hf by done. intros [= <-]. eauto.
  - by left.
  - intros q' [= <-]. split; cbn; auto. by exists entry.
  - intros entry' r Hentry'. by eapply ok_published.
Qed.

(** Settled or not, cancellation keeps an entry in order up to the settlement. *)
Lemma entry_ok_unsettled c p q entry :
  entry_ok c p entry -> unsettled p = true -> unsettled q = true -> entry_ok c q entry.
Proof.
  intros [Ho Hk] Hp Hq. split; [done|]. destruct (owner entry).
  - by destruct Hk as (_ & ? & ?).
  - destruct Hk as [? _]. split; [done|]. intros r. by destruct q.
  - destruct Hk as [? _]. congruence.
Qed.

(** After the settlement the response no longer changes. *)
Lemma entry_ok_settled c p q entry :
  entry_ok c p entry -> unsettled p = false -> unsettled q = false ->
  settled_response q = settled_response p -> entry_ok c q entry.
Proof.
  intros [Ho Hk] Hp Hq Hr. split; [done|]. destruct (owner entry).
  - destruct Hk as [? _]. congruence.
  - destruct Hk as [? Hc]. split; [done|]. by rewrite Hr.
  - by destruct Hk as [_ ?].
Qed.

Lemma settlement_ok l0 h l t entry response :
  task_ok l0 h l t -> entry_ok (closed h) (task_phase t) entry ->
  task_phase t = PReturned response ->
  let '(won, entry') := claim_responder_settlement h t entry in
  entry_ok (closed h) (PRecord (if won then response else cancelled)) entry'.
Proof.
  intros Ht [Ho Hk] Hp. rewrite Hp in Hk. unfold claim_responder_settlement.
  rewrite bool_decide_eq_true_2 by (apply (ok_inflight _ _ _ _ Ht); by rewrite Hp). cbn.
  destruct (owner entry) eqn:Eo; cbn.
  - destruct Hk as (_ & -> & _). done.
  - split; [done|]. rewrite Eo. destruct Hk as [? _]. split; [done|]. by intros r [= <-].
  - by destruct Hk.
Qed.

Lemma insert_moves l0 h l l' t entry' q :
  host_ok l0 h l -> task_ok l0 h l' t -> in_flight (task_phase t) = true ->
  in_flight q = true -> early q = false -> entry_ok (closed h) q entry' ->
  moves l0 h (set_entries (<[task_entry t := entry']> (entries h)) h) l' t (Some q).
Proof.
  intros Hh [? Hf ? ? He] Hin Hfq Hq Hok. split; cbn; try done.
  - intros e Hne. by rewrite lookup_insert_ne.
  - intros e. rewrite Hf by done. intros [= <-]. eauto.
  - by left.
  - intros q' [= <-]. split; cbn; auto; [|congruence].
    exists entry'. by rewrite lookup_insert_eq.
  - intros entry r. rewrite lookup_insert_eq. intros [= <-]. destruct Hok as [-> _]. done.
Qed.

(** The responder is polled for the first time. *)
Lemma poll_moves l0 h l l' t entry :
  host_ok l0 h l -> task_ok l0 h l' t -> entries h !! task_entry t = Some entry ->
  task_phase t = PSelect -> entry_ok (closed h) PRunning entry ->
  moves l0 h (add_execution (task_id t) h) l' t (Some PRunning).
Proof.
  intros Hh [? Hf ? ? He] Hentry Ep Hok. split; cbn; try done.
  - intros e. rewrite Hf by (by rewrite Ep). intros [= <-]. eauto.
  - right. by rewrite Ep.
  - intros q' [= <-]. split; cbn; [by exists entry| |done..]. intros _. apply Hf. by rewrite Ep.
  - intros entry' r Hentry'. by eapply ok_published.
Qed.

(** The task leaves the in-flight set. *)
Lemma remove_moves l0 h l l' t entry response :
  host_ok l0 h l -> task_ok l0 h l' t -> entries h !! task_entry t = Some entry ->
  entry_ok (closed h) (PPublish response) entry ->
  moves l0 h (set_inflight (delete (task_id t) (inflight h)) h) l' t (Some (PPublish response)).
Proof.
  intros Hh [? Hf ? ? He] Hentry Hok. split; cbn; try done.
  - intros id Hne. by rewrite lookup_delete_ne.
  - intros e. by rewrite lookup_delete_eq.
  - by left.
  - intros q' [= <-]. split; cbn; [by exists entry|done..].
  - intros entry' r Hentry'. by eapply ok_published.
Qed.

(** The task publishes its outcome and ends. *)
Lemma publish_moves l0 h l l' t entry response :
  host_ok l0 h l -> entry_ok (closed h) (PPublish response) entry ->
  inflight h !! task_id t = None ->
  moves l0 h (set_entries (<[task_entry t :=
      MkInflight (owner entry) (signal entry) (Published response)]> (entries h)) h) l' t None.
Proof.
  intros Hh [_ Hok] Hi. split; cbn; try done.
  - intros e Hne. by rewrite lookup_insert_ne.
  - intros e. by rewrite Hi.
  - by left.
  - intros entry' r. rewrite lookup_insert_eq. intros [= <-]. cbn. intros [= <-] Ho.
    rewrite Ho in Hok. destruct Hok as [_ Hc]. by apply Hc.
Qed.

Lemma task_ok_grows l0 h l l' t : log_grows l l' -> task_ok l0 h l t -> task_ok l0 h l' t.
Proof. intros Hg []. split; auto. Qed.

Lemma task_ok_at l0 h l before t after :
  host_ok l0 h l -> tasks h = before ++ t :: after -> task_ok l0 h l t.
Proof.
  intros Hh Htasks. pose proof (ok_tasks _ _ _ Hh) as Hall. rewrite Htasks in Hall.
  apply Forall_app in Hall as [_ Hall]. by inversion Hall.
Qed.

(** A task past its removal is not in flight. *)
Lemma removed_is_gone l0 h l before t after :
  host_ok l0 h l -> tasks h = before ++ t :: after -> in_flight (task_phase t) = false ->
  inflight h !! task_id t = None.
Proof.
  intros Hh Htasks Hp. destruct (inflight h !! task_id t) as [e|] eqn:Ei; [|done].
  destruct (ok_map _ _ _ Hh _ _ Ei) as (t' & Hin & Hid & _ & Hf). exfalso.
  pose proof (ok_ids _ _ _ Hh) as Hids. rewrite Htasks in Hids, Hin.
  apply elem_of_app in Hin as [Hin|[-> |Hin]%elem_of_cons]; [|congruence|];
    (eapply (others task_id); [exact Hids| |exact Hid]); apply elem_of_app; auto.
Qed.

Lemma execute_step_ok l0 f reply h l l' before t after entry h1 p :
  host_ok l0 h l -> tasks h = before ++ t :: after -> entries h !! task_entry t = Some entry ->
  execute_step f reply h t entry = Some (h1, p) ->
  represents (host_store h1) l' -> log_grows l l' ->
  host_ok l0 (set_tasks (moved before t p after) h1) l'.
Proof.
  intros Hh Htasks Hentry Hstep Hr Hg. pose proof (task_ok_at _ _ _ _ _ _ Hh Htasks) as Ht.
  assert (Hok : entry_ok (closed h) (task_phase t) entry).
  { destruct (ok_entry _ _ _ _ Ht) as (entry' & He' & ?). congruence. }
  apply (task_ok_grows _ _ _ l') in Ht; [|done]. eapply move_ok; [done..|]. clear Hr.
  assert (Hstay : forall q, unsettled (task_phase t) = true -> unsettled q = true ->
    (early q = true -> early (task_phase t) = true) -> moves l0 h h l' t (Some q)).
  { intros q Hu Hq He. eapply stays; try done.
    - by destruct (task_phase t).
    - by destruct q.
    - by eapply entry_ok_unsettled. }
  unfold execute_step in Hstep.
  destruct (task_phase t) as [| | | |response|response|response|response] eqn:Ep.
  - case_match; simplify_eq/=; by apply Hstay.
  - case_match; simplify_eq/=; by apply Hstay.
  - case_match; simplify_eq/=; [by apply Hstay|]. by eapply poll_moves.
  - repeat case_match; simplify_eq/=; by apply Hstay.
  - pose proof (settlement_ok l0 h l' t entry response Ht) as Hset. rewrite Ep in Hset.
    destruct (claim_responder_settlement h t entry) as [won entry']. simplify_eq/=.
    eapply insert_moves; try done; [by rewrite Ep|by apply Hset].
  - simplify_eq/=.
    assert (Hok' : entry_ok (closed h) (PRemove response) entry) by (by eapply entry_ok_settled).
    destruct Ht as [? Hf ? ? He]. split; cbn; try done.
    + intros e. rewrite Hf by (by rewrite Ep). intros [= <-]. eauto.
    + by left.
    + intros q [= <-]. split; cbn; [by exists entry| |done..].
      intros _. apply Hf. by rewrite Ep.
    + intros entry' r Hentry'. by eapply ok_published.
  - simplify_eq/=. by eapply remove_moves.
  - simplify_eq/=. eapply publish_moves; try done.
    eapply removed_is_gone; [done..|]. by rewrite Ep.
Qed.

(** The store a task step leaves. *)
Lemma execute_step_store f reply h l t entry h1 p :
  represents (host_store h) l -> execute_step f reply h t entry = Some (h1, p) ->
  exists l', represents (host_store h1) l' /\ log_grows l l'.
Proof.
  intros Hs Hstep. unfold execute_step in Hstep.
  destruct (task_phase t); repeat case_match; simplify_eq/=; eauto with tb.
  by apply store_settle.
Qed.
End Facts.
