(* ===== verification/HostTheorems.v ===== *)
(** * Sandbox protocol: theorems about the capability host

    Consequences of the invariant of [CapHostFacts], for a host opened on any
    log and run through any interleaving of dispatches, cancellations, closes,
    acknowledgements, signals and task steps. *)

From S2P Require Export CapHostFacts.

Section Theorems.
Context {store : Type} `{OperationStore store}.

(** ** The invariant along a run *)
Lemma step_ok may_fault l0 h h' l :
  host_ok l0 h l -> step may_fault h h' -> exists l', host_ok l0 h' l'.
Proof.
  intros Hh Hstep. destruct Hstep as [f h envelope _|h id|h|h|h e|f h id _|
    f reply h before t after entry h' p _ Htasks Hentry Hexec].
  - by eapply dispatch_ok.
  - exists l. by apply cancel_ok.
  - exists l. by apply cancel_all_ok.
  - exists l. by apply begin_close_ok.
  - exists l. by apply fire_step_ok.
  - destruct (store_evict f (host_store h) l id (ok_store _ _ _ Hh)) as (l' & Hr & Hg).
    exists l'. by eapply set_store_ok.
  - destruct (execute_step_store f reply h l t entry h' p (ok_store _ _ _ Hh) Hexec)
      as (l' & Hr & Hg).
    exists l'. by eapply execute_step_ok.
Qed.

Lemma reachable_ok may_fault l0 h h' l :
  host_ok l0 h l -> reachable may_fault h h' -> exists l', host_ok l0 h' l'.
Proof.
  intros Hh Hr. revert l Hh. induction Hr as [h|h h1 h2 Hs _ IH]; intros l Hh; [eauto|].
  destruct (step_ok _ _ _ _ _ Hh Hs) as [l1 Hh1]. by eapply IH.
Qed.

(** ** Execution at most once *)

(** C5: every identity is executed at most once by a host, and one the log already
    knew when the host was opened not at all, whatever the interleaving of
    re-issues, duplicates, cancellations and acknowledgements and whichever store
    calls fail. *)
Theorem executes_at_most_once may_fault g (s : store) l h :
  represents s l -> reachable may_fault (host_new g s) h ->
  NoDup (executions h) /\ Forall (fun id => l !! id = None) (executions h).
Proof.
  intros Hs Hr. destruct (reachable_ok _ _ _ _ _ (host_new_ok g s l Hs) Hr) as [l' Hh].
  split; [apply Hh|]. eapply Forall_impl; [apply Hh|]. by intros id [_ ?].
Qed.

(** ** Deny by default *)
Lemma refused_step may_fault h h' :
  (forall envelope, is_Some (admission (grants h) envelope)) -> tasks h = [] ->
  step may_fault h h' ->
  grants h' = grants h /\ tasks h' = [] /\ executions h' = executions h.
Proof.
  intros Hd Ht Hstep. destruct Hstep as [f h envelope _|h id|h|h|h e|f h id _|
    f reply h before t after entry h' p _ Htasks _ _]; cbn; try done.
  - unfold dispatch. by destruct (Hd envelope) as [r ->].
  - unfold cancel. by destruct (inflight h !! id).
  - by rewrite Ht in Htasks; destruct before.
Qed.

(** deny by default: with a capability ungranted, no run of the host ever
    starts a task or calls the responder. *)
Lemma ungranted_never_executes may_fault g (s : store) h :
  allows g CapModelInference = false -> reachable may_fault (host_new g s) h ->
  tasks h = [] /\ executions h = [].
Proof.
  intros Hg Hr.
  assert (Hall : grants h = g /\ tasks h = [] /\ executions h = []); [|tauto].
  remember (host_new g s) as h0 eqn:E0.
  assert (H0 : grants h0 = g /\ tasks h0 = [] /\ executions h0 = []) by (by subst).
  clear E0. induction Hr as [h|h h1 h2 Hs _ IH]; [done|]. apply IH.
  destruct H0 as (Hg0 & Ht0 & He0). destruct (refused_step may_fault h h1) as (-> & -> & ->);
    [|done|done|done].
  intros envelope. unfold admission. destruct (require_version _); [|by eexists].
  rewrite Hg0. destruct (env_request envelope). cbn. rewrite Hg. by eexists.
Qed.

(** ** Cancellation owns its settlement *)

(** once a cancellation or a close claimed an operation's settlement, the
    outcome its waiters receive is the cancellation, even when the responder had
    already produced a result. *)
Lemma cancellation_is_final may_fault g (s : store) l h e entry response :
  represents s l -> reachable may_fault (host_new g s) h ->
  entries h !! e = Some entry -> owner entry = OwnerCancellation ->
  outcome entry = Published response -> response = cancelled.
Proof.
  intros Hs Hr He Ho Hp. destruct (reachable_ok _ _ _ _ _ (host_new_ok g s l Hs) Hr) as [l' Hh].
  by eapply ok_published.
Qed.

(** ** The close boundary *)

(** The host is closed and every cancel signal taken has been fired. *)
Definition quiet (h : Host store) : Prop :=
  closed h = true
  /\ forall t entry, t ∈ tasks h -> entries h !! task_entry t = Some entry ->
                     signal entry <> Taken.

(** On a closed host no task still owns its settlement. *)
Lemma closed_not_pending l0 h l t entry :
  host_ok l0 h l -> closed h = true -> t ∈ tasks h ->
  entries h !! task_entry t = Some entry ->
  owner entry <> OwnerPending /\ entry_ok true (task_phase t) entry.
Proof.
  intros Hh Hc Ht He. pose proof (ok_tasks _ _ _ Hh) as Hall. rewrite Forall_forall in Hall.
  destruct (ok_entry _ _ _ _ (Hall t Ht)) as (entry' & He' & Hok).
  rewrite He in He'. injection He' as <-. rewrite Hc in Hok. split; [|done].
  intros Hp. destruct Hok as [_ Hk]. rewrite Hp in Hk. by destruct Hk as (_ & _ & ?).
Qed.

Lemma claim_cancellation_same entry :
  owner entry <> OwnerPending -> claim_cancellation entry = entry.
Proof. intros Ho. unfold claim_cancellation. by rewrite bool_decide_eq_false_2. Qed.

Lemma quiet_signalled l0 h l t entry :
  host_ok l0 h l -> quiet h -> t ∈ tasks h -> entries h !! task_entry t = Some entry ->
  unsettled (task_phase t) = true -> owner entry = OwnerCancellation /\ signalled entry = true.
Proof.
  intros Hh [Hc Hq] Ht He Hu. destruct (closed_not_pending _ _ _ _ _ Hh Hc Ht He) as [Hp [_ Hk]].
  specialize (Hq t entry Ht He). destruct (owner entry); [done| |by destruct Hk; congruence].
  unfold signalled. by destruct Hk as [[E|E] _]; rewrite E in Hq |- *.
Qed.

(** Entries mapped by [claim_cancellation] or [fire] stay quiet. *)
Lemma quiet_entries l0 h l es :
  host_ok l0 h l -> quiet h ->
  (forall e, es !! e = entries h !! e
     \/ es !! e = claim_cancellation <$> entries h !! e \/ es !! e = fire <$> entries h !! e) ->
  quiet (set_entries es h).
Proof.
  intros Hh [Hc Hq] Hes. split; [done|]. cbn. intros t entry Ht He.
  destruct (Hes (task_entry t)) as [E|[E|E]]; rewrite E in He; [by eapply Hq|..];
    destruct (entries h !! task_entry t) as [entry'|] eqn:Ee; try done; cbn in He;
    injection He as <-; specialize (Hq t entry' Ht Ee).
  - by rewrite claim_cancellation_same by apply (closed_not_pending _ _ _ _ _ Hh Hc Ht Ee).
  - cbn. by destruct (signal entry').
Qed.

(** What a task step on a quiet host does. *)
Lemma quiet_execute l0 f reply h l before t after entry h1 p :
  host_ok l0 h l -> quiet h -> tasks h = before ++ t :: after ->
  entries h !! task_entry t = Some entry -> execute_step f reply h t entry = Some (h1, p) ->
  closed h1 = true /\ executions h1 = executions h
  /\ (forall e, e <> task_entry t -> entries h1 !! e = entries h !! e)
  /\ (forall entry', p <> None -> entries h1 !! task_entry t = Some entry' -> entry' = entry).
Proof.
  intros Hh Hq Htasks Hentry Hstep. pose proof (proj1 Hq) as Hc.
  assert (Ht : t ∈ tasks h) by (rewrite Htasks; apply elem_of_app; right; by left).
  destruct (closed_not_pending _ _ _ _ _ Hh Hc Ht Hentry) as [Hp _].
  pose proof (quiet_signalled _ _ _ _ _ Hh Hq Ht Hentry) as Hsig. unfold execute_step in Hstep.
  destruct (task_phase t) eqn:Ep; try destruct (Hsig eq_refl) as [Ho Hs]; rewrite ?Hs in Hstep.
  5: unfold claim_responder_settlement in Hstep; rewrite Ho in Hstep.
  all: repeat case_match; simplify_eq/=; split_and!; try done; intros;
    rewrite ?lookup_insert_ne, ?lookup_insert_eq in * by done; congruence.
Qed.

Lemma quiet_step may_fault l0 h h' l :
  host_ok l0 h l -> quiet h -> step may_fault h h' -> quiet h' /\ executions h' = executions h.
Proof.
  intros Hh Hq Hstep. pose proof (proj1 Hq) as Hc.
  destruct Hstep as [f h envelope _|h id|h|h|h e|f h id _|
    f reply h before t after entry h' p _ Htasks Hentry Hexec].
  - unfold dispatch. destruct (admission _ _); [done|]. by rewrite Hc.
  - unfold cancel. destruct (inflight h !! id) as [e|]; [|done]. split; [|done].
    eapply quiet_entries; [done..|]. intros e'. unfold claim_cancellation_of.
    destruct (decide (e' = e)) as [->|]; [rewrite lookup_alter_eq; auto|].
    rewrite lookup_alter_ne by done. auto.
  - split; [|done]. eapply quiet_entries; [done..|]. intros e. unfold claim_cancellations.
    rewrite map_lookup_imap. case_bool_decide; destruct (entries h !! e); auto.
  - split; [|done]. unfold begin_close.
    assert (Hq' : quiet (cancel_all h)).
    { eapply quiet_entries; [done..|]. intros e. unfold claim_cancellations.
      rewrite map_lookup_imap. case_bool_decide; destruct (entries h !! e); auto. }
    destruct Hq' as [_ Hq']. by split.
  - split; [|done]. eapply quiet_entries; [done..|]. intros e'.
    destruct (decide (e' = e)) as [->|]; [rewrite lookup_alter_eq; auto|].
    rewrite lookup_alter_ne by done. auto.
  - done.
  - destruct (quiet_execute _ _ _ _ _ _ _ _ _ _ _ Hh Hq Htasks Hentry Hexec)
      as (Hc' & Hx & Hes & He). split; [|done]. split; [done|]. cbn.
    intros t' entry' Hin He'. pose proof (proj2 Hq) as Hsig. rewrite Htasks in Hsig.
    apply moved_elem in Hin as [Hin|(q & -> & ->)].
    + pose proof (ok_entries _ _ _ Hh) as Hents. rewrite Htasks in Hents.
      rewrite Hes in He' by (by eapply (others task_entry)). apply (Hsig t'); [|done].
      apply elem_of_app in Hin as [|]; apply elem_of_app; [by left|right; by right].
    + assert (entry' = entry) as -> by (by apply He). apply (Hsig t); [|done].
      apply elem_of_app. right. by left.
Qed.

(** the close boundary.  From the moment the host is closed and the cancel
    signals it took have been fired, no further responder execution begins, on
    any run from there. *)
Lemma close_stops_executions may_fault g (s : store) l h h' :
  represents s l -> reachable may_fault (host_new g s) h -> quiet h ->
  reachable may_fault h h' -> executions h' = executions h.
Proof.
  intros Hs Hr Hq Hr'. destruct (reachable_ok _ _ _ _ _ (host_new_ok g s l Hs) Hr) as [l1 Hh].
  clear Hr. revert l1 Hh. induction Hr' as [h|h h1 h2 Hst _ IH]; intros l1 Hh; [done|].
  destruct (quiet_step _ _ _ _ _ Hh Hq Hst) as [Hq1 <-].
  destruct (step_ok _ _ _ _ _ Hh Hst) as [l2 Hh1]. by eapply IH.
Qed.

(** ** Draining *)
Definition weight (p : Phase) : nat :=
  match p with
  | PStart => 8 | PTryRecv => 7 | PSelect => 6 | PRunning => 5 | PReturned _ => 4
  | PRecord _ => 3 | PRemove _ => 2 | PPublish _ => 1
  end.
Definition work (h : Host store) : nat := sum_list_with (fun t => weight (task_phase t)) (tasks h).

(** A task step uses up work. *)
Lemma execute_works f reply h before t after entry h1 p :
  tasks h = before ++ t :: after -> execute_step f reply h t entry = Some (h1, p) ->
  work (set_tasks (moved before t p after) h1) < work h.
Proof.
  intros Htasks Hstep. unfold work, moved. rewrite Htasks. cbn.
  rewrite !sum_list_with_app. cbn. unfold execute_step in Hstep.
  destruct (task_phase t) eqn:Ep; repeat case_match; simplify_eq/=; lia.
Qed.

(** A step of one task that no responder answers: all that is left of a host
    whose responders never return. *)
Inductive unanswered (may_fault : Prop) : Host store -> Host store -> Prop :=
| unanswered_task f h before t after entry h' p : (f <> None -> may_fault) ->
    tasks h = before ++ t :: after -> entries h !! task_entry t = Some entry ->
    execute_step f None h t entry = Some (h', p) ->
    unanswered may_fault h (set_tasks (moved before t p after) h').

Lemma unanswered_step may_fault h h' :
  unanswered may_fault h h' -> step may_fault h h' /\ work h' < work h.
Proof.
  intros [f h0 before t after entry h1 p Hf Ht He Hx].
  split; [by eapply step_task|by eapply execute_works].
Qed.

(** On a quiet host no task waits for its responder. *)
Lemma quiet_progress may_fault l0 h l :
  host_ok l0 h l -> quiet h -> forall t, t ∈ tasks h ->
  exists before after, tasks h = before ++ t :: after
    /\ exists h1 p, unanswered may_fault h (set_tasks (moved before t p after) h1).
Proof.
  intros Hh Hq t Ht. destruct (list_elem_of_split _ _ Ht) as (before & after & E).
  exists before, after. split; [done|].
  destruct (ok_entry _ _ _ _ (task_ok_at _ _ _ _ _ _ Hh E)) as (entry & He & _).
  pose proof (quiet_signalled _ _ _ _ _ Hh Hq Ht He) as Hsig.
  assert (Hx : exists h1 p, execute_step None None h t entry = Some (h1, p)).
  { unfold execute_step.
    destruct (task_phase t); try destruct (Hsig eq_refl) as [_ ->]; repeat case_match; eauto. }
  destruct Hx as (h1 & p & Hx). exists h1, p. by eapply unanswered_task.
Qed.

Lemma quiet_tasks_run may_fault n l0 h h' l :
  nsteps (unanswered may_fault) n h h' -> host_ok l0 h l -> quiet h ->
  n + work h' <= work h /\ quiet h' /\ executions h' = executions h
  /\ exists l', host_ok l0 h' l'.
Proof.
  intros Hn. revert l. induction Hn as [h|n h h1 h2 Hu _ IH]; intros l Hh Hq; [eauto|].
  destruct (unanswered_step _ _ _ Hu) as [Hs Hw].
  destruct (quiet_step _ _ _ _ _ Hh Hq Hs) as [Hq1 <-].
  destruct (step_ok _ _ _ _ _ Hh Hs) as [l1 Hh1].
  destruct (IH _ Hh1 Hq1) as (Hle & ? & ? & ?). split; [lia|done].
Qed.

Lemma drained_idle l0 h l : host_ok l0 h l -> tasks h = [] -> idle h = true.
Proof.
  intros Hh Et. apply bool_decide_eq_true, map_empty. intros id.
  destruct (inflight h !! id) as [e|] eqn:Ei; [|done].
  destruct (ok_map _ _ _ Hh id e Ei) as (t & Hin & _). rewrite Et in Hin. inversion Hin.
Qed.

(** C38: a closed host quiesces without its responders.  Once the host is closed
    and the cancel signals it took are fired, suppose no responder ever answers:
    a run of its tasks, in any order, has at most [work h] steps and starts no
    execution; as long as a task is left, that very task can move; and a run with
    no task left has an empty in-flight set, which is what [wait_idle] waits
    for. *)
Theorem closed_host_drains may_fault g (s : store) l h n h' :
  represents s l -> reachable may_fault (host_new g s) h -> quiet h ->
  nsteps (unanswered may_fault) n h h' ->
  n <= work h /\ executions h' = executions h
  /\ (forall t, t ∈ tasks h' -> exists before after, tasks h' = before ++ t :: after
        /\ exists h2 p, unanswered may_fault h' (set_tasks (moved before t p after) h2))
  /\ (tasks h' = [] -> idle h' = true).
Proof.
  intros Hs Hr Hq Hn. destruct (reachable_ok _ _ _ _ _ (host_new_ok g s l Hs) Hr) as [l1 Hh].
  destruct (quiet_tasks_run _ _ _ _ _ _ Hn Hh Hq) as (Hle & Hq' & Hx & l' & Hh').
  split; [lia|]. split; [done|].
  split; [by eapply quiet_progress|by eapply drained_idle].
Qed.

(** ** When no store call fails *)

(** What the log says of a task's identity. *)
Definition standing_ok (l : log) (t : Task) : Prop :=
  match task_phase t with
  | PRemove r | PPublish r =>
      exists fp st, l !! task_id t = Some (fp, Settled st) /\ (st = terminal_of r \/ st = Evicted)
  | _ => exists fp, l !! task_id t = Some (fp, ClaimedHere)
  end.

Record agrees (h : Host store) (l : log) : Prop := {
  ag_claimed : forall id fp, l !! id = Some (fp, ClaimedHere) -> is_Some (inflight h !! id);
  ag_tasks : Forall (standing_ok l) (tasks h);
  ag_settled : forall id fp, l !! id <> Some (fp, Settled Claimed)
}.

(** A log as a new process lifetime finds it: nothing claimed by it yet, and
    every settled identity settled terminally. *)
Definition opened (l : log) : Prop :=
  forall id fp st, l !! id = Some (fp, st) -> st <> ClaimedHere /\ st <> Settled Claimed.

(** Writing a standing other than [Settled Claimed]. *)
Lemma settled_put (l : log) id e :
  (forall id fp, l !! id <> Some (fp, Settled Claimed)) -> e.2 <> Settled Claimed ->
  forall id' fp, <[id := e]> l !! id' <> Some (fp, Settled Claimed).
Proof.
  intros Hl He id' fp. destruct (decide (id' = id)) as [->|].
  - rewrite lookup_insert_eq. by intros [= ->].
  - rewrite lookup_insert_ne by done. apply Hl.
Qed.

(** A log that differs from [l] at [id] only. *)
Lemma standing_ok_other l l' t :
  l' !! task_id t = l !! task_id t -> standing_ok l t -> standing_ok l' t.
Proof. intros E. unfold standing_ok. by rewrite E. Qed.

Lemma spec_settle_other l id st id' : id' <> id -> spec_settle l id st !! id' = l !! id'.
Proof. intros Hne. unfold spec_settle. repeat case_match; rewrite ?lookup_insert_ne; done. Qed.

Lemma evict_agrees h l id :
  agrees h l -> forall s, agrees (set_store s h) (spec_evict l id).
Proof.
  intros [Hc Ht Hs] s. unfold spec_evict.
  destruct (l !! id) as [[fp [| |st]]|] eqn:El; try by split.
  split; cbn.
  - intros id' fp'. destruct (decide (id' = id)) as [->|]; [by rewrite lookup_insert_eq|].
    rewrite lookup_insert_ne by done. apply Hc.
  - eapply Forall_impl; [exact Ht|]. intros t Hst.
    destruct (decide (task_id t = id)) as [E|].
    + unfold standing_ok in *. rewrite E, El in Hst. rewrite E, lookup_insert_eq.
      destruct (task_phase t); naive_solver.
    + eapply standing_ok_other; [|done]. by rewrite lookup_insert_ne.
  - by apply settled_put.
Qed.

Lemma dispatch_agrees l0 h l envelope :
  host_ok l0 h l -> agrees h l ->
  exists l', host_ok l0 (dispatch None h envelope).2 l' /\ agrees (dispatch None h envelope).2 l'.
Proof.
  intros Hh [Hc Ht Hset].
  destruct (claim_simulates None (host_store h) l (env_operation_id envelope)
    (env_request envelope) (ok_store _ _ _ Hh)) as [[Ho Hr]|[? _]]; [|done].
  destruct (admission (grants h) envelope) as [r|] eqn:Ea.
  { exists l. unfold dispatch. by rewrite Ea. }
  destruct (closed h) eqn:Hcl. { exists l. unfold dispatch. by rewrite Ea, Hcl. }
  set (id := env_operation_id envelope) in *. set (fp := env_request envelope) in *.
  assert (Hk : host_ok l0 (dispatch None h envelope).2 (spec_claim l id fp).2).
  { apply (dispatch_keeps _ _ _ l); [done| |auto with tb|].
    - unfold dispatch. rewrite Ea, Hcl. fold id fp.
      destruct (claim None _ id fp) as [[|[]| |] s]; cbn in Hr |- *; try case_match; done.
    - fold id fp. rewrite Ho. intros Hf. destruct (spec_claim_fresh _ _ _ Hf) as [? ->].
      rewrite lookup_insert_eq. split; [done|by eexists]. }
  eexists. split; [exact Hk|]. clear Hk. unfold dispatch. rewrite Ea, Hcl. fold id fp.
  destruct (claim None _ id fp) as [o s] eqn:Ecl. cbn in Ho. subst o. unfold spec_claim.
  destruct (l !! id) as [[fp' st]|] eqn:El.
  - case_decide; [|by split]. destruct st as [| |[]]; cbn; try case_match; by split.
  - cbn. split; cbn.
    + intros id' fp'. destruct (decide (id' = id)) as [->|].
      * rewrite !lookup_insert_eq. by eexists.
      * rewrite !lookup_insert_ne by done. apply Hc.
    + apply Forall_app. split; [|apply Forall_singleton; exists fp; by rewrite lookup_insert_eq].
      rewrite Forall_forall in Ht. apply Forall_forall. intros t Hin.
      eapply standing_ok_other; [|by apply Ht]. rewrite lookup_insert_ne; [done|].
      intros E. pose proof (ok_tasks _ _ _ Hh) as Hall. rewrite Forall_forall in Hall.
      destruct (ok_known _ _ _ _ (Hall t Hin)) as [? Hs]. congruence.
    + by apply settled_put.
Qed.

(** The log after a task step. *)
Definition log_after (l : log) (t : Task) : log :=
  match task_phase t with
  | PRecord r => spec_settle l (task_id t) (terminal_of r)
  | _ => l
  end.

Lemma log_after_grows l t : log_grows l (log_after l t).
Proof. unfold log_after. destruct (task_phase t); auto with tb. Qed.

Lemma execute_log reply h l t entry h1 p :
  represents (host_store h) l -> execute_step None reply h t entry = Some (h1, p) ->
  represents (host_store h1) (log_after l t).
Proof.
  intros Hs Hstep. unfold execute_step in Hstep. unfold log_after.
  destruct (task_phase t); repeat case_match; simplify_eq/=; try done.
  by destruct (store_settle_cases None (host_store h) l (task_id t) response Hs) as [?|[? _]].
Qed.

Lemma execute_agrees l0 reply h l before t after entry h1 p :
  host_ok l0 h l -> agrees h l -> tasks h = before ++ t :: after ->
  entries h !! task_entry t = Some entry -> execute_step None reply h t entry = Some (h1, p) ->
  agrees (set_tasks (moved before t p after) h1) (log_after l t).
Proof.
  intros Hh [Hc Hall Hset] Htasks Hentry Hstep.
  pose proof (ok_ids _ _ _ Hh) as Hids. rewrite Htasks in Hall, Hids.
  assert (Ht : standing_ok l t) by (apply Forall_app in Hall as [_ Hall]; by inversion Hall).
  rewrite Forall_forall in Hall.
  assert (Hothers : Forall (standing_ok (log_after l t)) (before ++ after)).
  { apply Forall_forall. intros t' Hin. eapply standing_ok_other.
    - pose proof (others task_id _ _ _ _ Hids Hin) as Hne. unfold log_after.
      destruct (task_phase t); try done. by apply spec_settle_other.
    - apply Hall. apply elem_of_app in Hin as [|]; apply elem_of_app; [by left|right; by right]. }
  unfold standing_ok in Ht. unfold log_after in *. unfold execute_step in Hstep.
  destruct (task_phase t) as [| | | |response|response|response|response] eqn:Ep.
  1-5: repeat case_match; simplify_eq/=; (split; [exact Hc| |exact Hset];
    apply moved_Forall; split; [exact Hothers|]; intros q [= <-]; exact Ht).
  - simplify_eq/=. destruct Ht as [fp Hl]. unfold spec_settle in *. rewrite Hl in *. split.
    + intros id' fp'. destruct (decide (id' = task_id t)) as [->|]; [by rewrite lookup_insert_eq|].
      rewrite lookup_insert_ne by done. apply Hc.
    + apply moved_Forall. split; [exact Hothers|]. intros q [= <-]. cbn.
      exists fp, (terminal_of response). rewrite lookup_insert_eq. auto.
    + apply settled_put; [done|]. by destruct response.
  - simplify_eq/=. destruct Ht as (fp & st & Hl & Hst). split; cbn.
    + intros id' fp' Hl'. rewrite lookup_delete_ne by congruence. by eapply Hc.
    + apply moved_Forall. split; [exact Hothers|]. intros q [= <-]. by exists fp, st.
    + exact Hset.
  - simplify_eq/=. split; [exact Hc| |exact Hset]. apply moved_Forall. by split; [exact Hothers|].
Qed.

Lemma step_agrees l0 h h' l :
  host_ok l0 h l -> agrees h l -> step False h h' ->
  exists l', host_ok l0 h' l' /\ agrees h' l'.
Proof.
  intros Hh Ha Hstep. destruct Hstep as [f h envelope Hf|h id|h|h|h e|f h id Hf|
    f reply h before t after entry h' p Hf Htasks Hentry Hexec].
  - destruct f; [by destruct Hf|]. by eapply dispatch_agrees.
  - exists l. split; [by apply cancel_ok|]. unfold cancel. destruct (inflight h !! id); [|done].
    by destruct Ha.
  - exists l. split; [by apply cancel_all_ok|]. by destruct Ha.
  - exists l. split; [by apply begin_close_ok|]. by destruct Ha.
  - exists l. split; [by apply fire_step_ok|]. by destruct Ha.
  - destruct f; [by destruct Hf|]. exists (spec_evict l id). split; [|by apply evict_agrees].
    eapply set_store_ok; [done| |auto with tb].
    by destruct (evict_simulates None (host_store h) l id (ok_store _ _ _ Hh)) as [?|[? _]].
  - destruct f; [by destruct Hf|]. exists (log_after l t). split; [|by eapply execute_agrees].
    eapply execute_step_ok; [done..| |apply log_after_grows].
    eapply execute_log; [apply Hh|done].
Qed.

Lemma reachable_agrees g (s : store) l h :
  represents s l -> opened l ->
  reachable False (host_new g s) h -> exists l', host_ok l h l' /\ agrees h l'.
Proof.
  intros Hs Hn Hr.
  assert (H0 : exists l', host_ok l (host_new g s) l' /\ agrees (host_new g s) l').
  { exists l. split; [by apply host_new_ok|]. split; [|by constructor|].
    - intros id fp Hl. by destruct (Hn id fp _ Hl).
    - intros id fp Hl. by destruct (Hn id fp _ Hl). }
  induction Hr as [h|h h1 h2 Hst _ IH]; [done|]. apply IH.
  destruct H0 as (l1 & Hh & Ha). by eapply step_agrees.
Qed.

(** with no store failure, what a task publishes is what the store holds:
    when an execution leaves the in-flight set, and until it publishes its
    outcome, the log already has that outcome, or the marker of one the sandbox
    acknowledged, under the operation's identity. *)
Lemma recorded_before_published g (s : store) l h t response :
  represents s l -> opened l ->
  reachable False (host_new g s) h -> t ∈ tasks h ->
  task_phase t = PRemove response \/ task_phase t = PPublish response ->
  state None (host_store h) (task_id t) = Some (terminal_of response)
  \/ state None (host_store h) (task_id t) = Some Evicted.
Proof.
  intros Hs Hn Hr Ht Hp. destruct (reachable_agrees _ _ _ _ Hs Hn Hr) as (l' & Hh & Ha).
  pose proof (ag_tasks _ _ Ha) as Hall. rewrite Forall_forall in Hall.
  specialize (Hall t Ht). unfold standing_ok in Hall.
  rewrite (state_simulates _ l') by apply Hh. unfold spec_state.
  destruct Hp as [Hp|Hp]; rewrite Hp in Hall; destruct Hall as (fp & st & -> & [-> | ->]); auto.
Qed.

(** with no store failure, a re-issue that finds its identity claimed by this
    lifetime always finds the live execution to attach to, so the ambiguous
    answer is given only for a claim a dead lifetime left behind. *)
Lemma claimed_has_a_live_execution g (s : store) l h id fp :
  represents s l -> opened l ->
  reachable False (host_new g s) h ->
  (claim None (host_store h) id fp).1 = Replay Claimed ->
  exists t, t ∈ tasks h /\ task_id t = id /\ inflight h !! id = Some (task_entry t).
Proof.
  intros Hs Hn Hr Hcl. destruct (reachable_agrees _ _ _ _ Hs Hn Hr) as (l' & Hh & Ha).
  destruct (claim_simulates None (host_store h) l' id fp (ok_store _ _ _ Hh))
    as [[Ho _]|[? _]]; [|done].
  rewrite Hcl in Ho. unfold spec_claim in Ho.
  destruct (l' !! id) as [[fp' [| |st]]|] eqn:El; repeat case_match; simplify_eq/=.
  - destruct (ag_claimed _ _ Ha id _ El) as [e He].
    destruct (ok_map _ _ _ Hh id e He) as (t & Hin & Hid & <- & _). by exists t.
  - by destruct (ag_settled _ _ Ha id _ El).
Qed.
End Theorems.
