(* ===== verification/RefSandbox.v ===== *)
(** * Sandbox protocol: the reference sandbox and backend

    [crates/tidebreak-sandbox-protocol/src/reference.rs]: one sandbox's event
    buffer, acknowledgement, overflow state and artifacts, and the
    provision/address/connect/destroy cycle of [ReferenceBackend].  What an
    attached host carries (its [CapabilityHost], the disconnect watch and the
    request-lane semaphore) is the type parameter [attachment].

    The theorems: the event stream delivers every event exactly once and in
    order to a host that follows the cursor contract, across crashes between a
    read and its commit; overflow is the only refusal and a drain lifts it; the
    artifact manifest is bounded and sorted; the backend's life cycle. *)

From S2P Require Export Wire.
From stdpp Require Import sorting.

Section Sandbox.
Context {attachment : Type}.

Record Inner : Type := MkInner {
  protocol_version : N;
  buffer_cap : N;
  request_lane_capacity : N;
  stream : list SandboxEvent;
  next_seq : N;
  acked_through : N;
  is_overflowed : bool;
  artifacts : gmap string (list N);
  attached : option attachment
}.

Definition with_config (version cap lane : N) : Inner :=
  MkInner version (N.max cap 1) (N.max lane 1) [] FIRST START false ∅ None.

Definition sandbox_new : Inner :=
  with_config PROTOCOL_VERSION MAX_BUFFERED_EVENTS MAX_INFLIGHT_REQUESTS.

Definition latest_sequence (s : Inner) : option Sequence :=
  if (FIRST <? next_seq s)%N then Some (next_seq s - 1)%N else None.

Definition set_attached (a : option attachment) (s : Inner) : Inner :=
  MkInner (protocol_version s) (buffer_cap s) (request_lane_capacity s) (stream s) (next_seq s)
    (acked_through s) (is_overflowed s) (artifacts s) a.
Definition attach (a : attachment) (s : Inner) : Inner := set_attached (Some a) s.
Definition detach (s : Inner) : Inner := set_attached None s.

Definition set_overflowed (b : bool) (s : Inner) : Inner :=
  MkInner (protocol_version s) (buffer_cap s) (request_lane_capacity s) (stream s) (next_seq s)
    (acked_through s) b (artifacts s) (attached s).
Definition push_event (e : SandboxEvent) (s : Inner) : Inner :=
  MkInner (protocol_version s) (buffer_cap s) (request_lane_capacity s) (stream s ++ [e])
    (next_seq s + 1)%N (acked_through s) (is_overflowed s) (artifacts s) (attached s).
Definition set_acked (n : N) (s : Inner) : Inner :=
  MkInner (protocol_version s) (buffer_cap s) (request_lane_capacity s) (stream s) (next_seq s)
    n (is_overflowed s) (artifacts s) (attached s).

(** Rust's [saturating_sub] is subtraction on [N]. *)
Definition unacked (s : Inner) : N := (next_seq s - 1 - acked_through s)%N.

Definition emit (payload : EventPayload) (s : Inner) : result EmitError Sequence * Inner :=
  if negb (payload_within_bounds payload) then (Err EmitTooLarge, s)
  else if (buffer_cap s <=? unacked s)%N then (Err Overflow, set_overflowed true s)
  else (Ok (next_seq s), push_event (MkEvent (next_seq s) payload) s).

Definition put_artifact (name : string) (bytes : list N) (s : Inner) : Inner :=
  MkInner (protocol_version s) (buffer_cap s) (request_lane_capacity s) (stream s) (next_seq s)
    (acked_through s) (is_overflowed s) (<[name := bytes]> (artifacts s)) (attached s).

Definition events_since (cursor : EventCursor) (s : Inner) : EventBatch * Inner :=
  let newer := List.filter (fun e => precedes cursor (sequence e)) (stream s) in
  let highest := match last newer with Some e => sequence e | None => cursor end in
  let s := set_acked (N.max (N.max (acked_through s) cursor) highest) s in
  let s := if (unacked s <? buffer_cap s)%N then set_overflowed false s else s in
  (MkBatch newer (is_overflowed s), s).

(** ** Artifacts *)
Definition name_le (a b : ArtifactEntry) : Prop := String.leb (art_name a) (art_name b) = true.
#[export] Instance name_le_dec a b : Decision (name_le a b).
Proof. unfold name_le. apply _. Defined.

Definition artifact_entry `{ArtifactCodec} (kv : string * list N) : ArtifactEntry :=
  MkArtifact kv.1 (N.of_nat (length kv.2)) (sha256 kv.2).

Definition collect_artifacts `{ArtifactCodec} (s : Inner)
    : result ErrorResponse (list ArtifactEntry) :=
  if (MAX_ARTIFACTS <? N.of_nat (size (artifacts s)))%N then
    Err (MkError TooLarge "artifact manifest exceeds its bound" false)
  else Ok (merge_sort name_le (artifact_entry <$> map_to_list (artifacts s))).

Definition fetch_artifact `{ArtifactCodec} (name : string) (s : Inner)
    : result ErrorResponse ArtifactContent :=
  match artifacts s !! name with
  | Some bytes => artifact_encode bytes
  | None => Err (MkError NotFound "no artifact matches this name" false)
  end.
End Sandbox.
Arguments Inner attachment : clear implicits.

(** ** A host that follows the cursor contract *)
Section Contract.
Context {attachment : Type}.

(** The sandbox, what the host has committed, and its committed cursor. *)
Record Reader : Type := MkReader {
  rd_sandbox : Inner attachment; rd_committed : list SandboxEvent; rd_cursor : EventCursor }.

Definition reader_new (version cap lane : N) : Reader :=
  MkReader (with_config version cap lane) [] START.

(** The sandbox emits; the host reads and commits a batch with its cursor in one
    transaction; the host reads and crashes before committing; the connection
    attaches or drops. *)
Inductive reader_step : Reader -> Reader -> Prop :=
| rd_emit r payload :
    reader_step r (MkReader (emit payload (rd_sandbox r)).2 (rd_committed r) (rd_cursor r))
| rd_commit r :
    let b := events_since (rd_cursor r) (rd_sandbox r) in
    reader_step r (MkReader b.2 (rd_committed r ++ events b.1) (next_cursor b.1 (rd_cursor r)))
| rd_crash r :
    reader_step r
      (MkReader (events_since (rd_cursor r) (rd_sandbox r)).2 (rd_committed r) (rd_cursor r))
| rd_attach r a :
    reader_step r (MkReader (set_attached a (rd_sandbox r)) (rd_committed r) (rd_cursor r)).

(** Events numbered from [n]. *)
Fixpoint numbered (n : N) (l : list SandboxEvent) : Prop :=
  match l with
  | [] => True
  | e :: l' => sequence e = n /\ numbered (n + 1) l'
  end.

Lemma numbered_app n l l' :
  numbered n (l ++ l') <-> numbered n l /\ numbered (n + N.of_nat (length l)) l'.
Proof.
  revert n. induction l as [|e l IH]; intros n; cbn [numbered app length].
  - rewrite N.add_0_r. tauto.
  - rewrite IH. replace (n + 1 + N.of_nat (length l))%N with (n + N.of_nat (S (length l)))%N by lia.
    tauto.
Qed.

(** Filtering a numbered list by a cursor keeps a suffix of it. *)
Lemma filter_numbered n l c :
  numbered n l -> (n <= c + 1)%N ->
  List.filter (fun e => precedes c (sequence e)) l = drop (N.to_nat (c + 1 - n)) l.
Proof.
  revert n. induction l as [|e l IH]; intros n Hn Hc; cbn; [by rewrite drop_nil|].
  destruct Hn as [E Hn]. rewrite E. unfold precedes. destruct (N.ltb_spec c n).
  - replace (N.to_nat (c + 1 - n)) with 0 by lia. cbn. f_equal.
    assert (Hall : forall m k, numbered m k -> (c < m)%N ->
      List.filter (fun e => (c <? sequence e)%N) k = k).
    { clear. intros m k. revert m. induction k as [|e k IH]; intros m; cbn; [done|].
      intros [-> Hk] Hm. rewrite (proj2 (N.ltb_lt c m)) by lia. f_equal. eapply IH; [done|lia]. }
    eapply Hall; [done|lia].
  - replace (N.to_nat (c + 1 - n)) with (S (N.to_nat (c + 1 - (n + 1)))) by lia. cbn.
    apply IH; [done|lia].
Qed.

Lemma last_numbered n l :
  numbered n l -> match last l with
                  | Some e => (sequence e + 1 = n + N.of_nat (length l))%N
                  | None => l = []
                  end.
Proof.
  intros Hn. destruct l as [|e l _] using rev_ind; [done|]. rewrite last_snoc.
  apply numbered_app in Hn as [_ [E _]]. rewrite E, length_app. cbn. lia.
Qed.

(** ** The stream invariant *)
Record reader_ok (r : Reader) : Prop := {
  rok_numbered : numbered FIRST (stream (rd_sandbox r));
  rok_next : next_seq (rd_sandbox r) = (FIRST + N.of_nat (length (stream (rd_sandbox r))))%N;
  rok_cap : (1 <= buffer_cap (rd_sandbox r))%N;
  rok_committed : rd_committed r = take (N.to_nat (rd_cursor r)) (stream (rd_sandbox r));
  rok_cursor : (rd_cursor r <= N.of_nat (length (stream (rd_sandbox r))))%N;
  rok_acked : (acked_through (rd_sandbox r) <= N.of_nat (length (stream (rd_sandbox r))))%N;
  rok_seen : (rd_cursor r <= acked_through (rd_sandbox r))%N;
  rok_bound : (unacked (rd_sandbox r) <= buffer_cap (rd_sandbox r))%N
}.

(** A read at the committed cursor returns everything after it, acknowledges the
    whole stream and lifts an overflow. *)
Lemma events_since_at (s : Inner attachment) c :
  numbered FIRST (stream s) -> next_seq s = (FIRST + N.of_nat (length (stream s)))%N ->
  (1 <= buffer_cap s)%N -> (c <= N.of_nat (length (stream s)))%N ->
  (acked_through s <= N.of_nat (length (stream s)))%N ->
  events_since c s =
    (MkBatch (drop (N.to_nat c) (stream s)) false,
     set_overflowed false (set_acked (N.of_nat (length (stream s))) s))
  /\ next_cursor (events_since c s).1 c = N.of_nat (length (stream s)).
Proof.
  intros Hn Hnext Hcap Hc Ha. set (n := N.of_nat (length (stream s))) in *.
  assert (Hf : List.filter (fun e => precedes c (sequence e)) (stream s)
               = drop (N.to_nat c) (stream s)).
  { rewrite (filter_numbered FIRST) by (done || unfold FIRST; lia).
    f_equal. unfold FIRST. lia. }
  assert (Hlast : match last (drop (N.to_nat c) (stream s)) with
                  | Some e => sequence e | None => c end = n).
  { rewrite <- (take_drop (N.to_nat c) (stream s)) in Hn. apply numbered_app in Hn as [_ Hn].
    apply last_numbered in Hn. pose proof (length_drop (stream s) (N.to_nat c)) as Hd.
    rewrite length_take in Hn.
    destruct (last (drop (N.to_nat c) (stream s))).
    - unfold FIRST in Hn. unfold n. lia.
    - rewrite Hn in Hd. cbn in Hd. unfold n in *. lia. }
  unfold events_since. rewrite Hf, Hlast.
  replace (N.max (N.max (acked_through s) c) n) with n by lia.
  assert (Hu : (unacked (set_acked n s) <? buffer_cap (set_acked n s))%N = true).
  { apply N.ltb_lt. unfold unacked. cbn. rewrite Hnext. unfold FIRST. lia. }
  rewrite Hu. split; [done|]. unfold next_cursor, committed. cbn [fst events].
  destruct (last (drop (N.to_nat c) (stream s))); exact Hlast.
Qed.

Lemma reader_new_ok version cap lane : reader_ok (reader_new version cap lane).
Proof. split; cbn; try done; try lia. unfold unacked. cbn. unfold START, FIRST. lia. Qed.

Lemma emit_ok r payload :
  reader_ok r -> reader_ok (MkReader (emit payload (rd_sandbox r)).2 (rd_committed r) (rd_cursor r)).
Proof.
  intros [H1 H2 H3 H4 H5 H6 H7 H8]. unfold emit. case_match; [by split|].
  destruct (N.leb_spec (buffer_cap (rd_sandbox r)) (unacked (rd_sandbox r))); [by split|].
  split; cbn; try done.
  - apply numbered_app. split; [done|]. cbn. by rewrite H2.
  - rewrite length_app, H2. cbn. lia.
  - rewrite H4, take_app_le by lia. done.
  - rewrite length_app. lia.
  - rewrite length_app. lia.
  - unfold unacked in *. cbn. unfold FIRST in *. lia.
Qed.

Lemma read_ok r (committed' : list SandboxEvent) (cursor' : N) :
  reader_ok r ->
  let b := events_since (rd_cursor r) (rd_sandbox r) in
  committed' = rd_committed r /\ cursor' = rd_cursor r
  \/ committed' = rd_committed r ++ events b.1 /\ cursor' = next_cursor b.1 (rd_cursor r) ->
  reader_ok (MkReader b.2 committed' cursor').
Proof.
  intros [H1 H2 H3 H4 H5 H6 H7 H8]. cbn zeta.
  destruct (events_since_at (rd_sandbox r) (rd_cursor r) H1 H2 H3 H5 H6) as [E Ec].
  rewrite Ec, E. intros [[-> ->]|[-> ->]]; split; cbn; try done; try lia.
  - unfold unacked. cbn. rewrite H2. unfold FIRST. lia.
  - rewrite H4, take_drop, take_ge; [done|lia].
  - unfold unacked. cbn. rewrite H2. unfold FIRST. lia.
Qed.

Lemma reader_step_ok r r' : reader_ok r -> reader_step r r' -> reader_ok r'.
Proof.
  intros Hr Hstep. destruct Hstep as [r payload|r b|r|r a].
  - by apply emit_ok.
  - apply read_ok; auto.
  - apply read_ok; auto.
  - by destruct Hr.
Qed.

Lemma reader_reachable_ok version cap lane r :
  rtc reader_step (reader_new version cap lane) r -> reader_ok r.
Proof.
  intros Hr. assert (H0 := reader_new_ok version cap lane). revert H0.
  induction Hr; eauto using reader_step_ok.
Qed.

(** ** Theorems *)

(** exactly once, in order, without gaps.  Whatever the interleaving of
    emissions, reads, crashes between a read and its commit, and reconnections,
    what the host committed is exactly the prefix of the emitted stream up to its
    cursor, numbered 1, 2, 3 and so on, and the next read returns the rest. *)
Lemma events_exactly_once version cap lane r :
  rtc reader_step (reader_new version cap lane) r ->
  numbered FIRST (stream (rd_sandbox r))
  /\ rd_committed r = take (N.to_nat (rd_cursor r)) (stream (rd_sandbox r))
  /\ rd_committed r ++ events (events_since (rd_cursor r) (rd_sandbox r)).1
     = stream (rd_sandbox r).
Proof.
  intros [H1 H2 H3 H4 H5 H6 _ _]%reader_reachable_ok. split_and!; [done..|].
  destruct (events_since_at _ _ H1 H2 H3 H5 H6) as [-> _]. cbn. by rewrite H4, take_drop.
Qed.

(** backpressure instead of loss.  The sandbox never holds more than its cap of
    events it was not asked for; a payload within bounds is refused exactly when
    that cap is reached, nothing already emitted is dropped by the refusal, and a
    read lifts it. *)
Lemma overflow_is_backpressure version cap lane r payload :
  rtc reader_step (reader_new version cap lane) r -> payload_within_bounds payload = true ->
  let s := rd_sandbox r in
  (unacked s <= N.max cap 1)%N
  /\ ((emit payload s).1 = Err Overflow <-> unacked s = N.max cap 1)
  /\ stream (emit payload s).2
     = stream s ++ (if (emit payload s).1 is Ok n then [MkEvent n payload] else [])
  /\ is_ok (emit payload (events_since (rd_cursor r) s).2).1 = true.
Proof.
  intros Hr Hp. cbn zeta.
  assert (Hcap : buffer_cap (rd_sandbox r) = N.max cap 1).
  { remember (reader_new version cap lane) as r0 eqn:E0.
    assert (H0 : buffer_cap (rd_sandbox r0) = N.max cap 1) by (by subst).
    clear E0. induction Hr as [|r0 r1 r2 Hs _ IH]; [done|]. apply IH. rewrite <- H0.
    destruct Hs; cbn; try done; unfold emit, events_since; by repeat case_match. }
  apply reader_reachable_ok in Hr as [H1 H2 H3 H4 H5 H6 _ H8].
  destruct (events_since_at _ _ H1 H2 H3 H5 H6) as [-> _].
  rewrite Hcap in H8. unfold emit. rewrite Hp. cbn [negb]. split_and!; [done|..].
  - rewrite Hcap. destruct (N.leb_spec (N.max cap 1) (unacked (rd_sandbox r))); split; intros;
      try done; lia.
  - rewrite Hcap. destruct (N.leb_spec (N.max cap 1) (unacked (rd_sandbox r))); cbn; [|done].
    by rewrite app_nil_r.
  - cbn. rewrite (proj2 (N.leb_gt _ _)); [done|]. unfold unacked. cbn.
    rewrite H2. unfold FIRST. lia.
Qed.
End Contract.
Arguments Reader attachment : clear implicits.

(** ** The artifact manifest *)
Section Artifacts.
Context {attachment : Type} `{ArtifactCodec}.

#[local] Instance name_le_total : Total name_le.
Proof.
  intros a b. unfold name_le. destruct (String.leb (art_name a) (art_name b)) eqn:E; [by left|right].
  unfold String.leb in *. rewrite String.compare_antisym.
  by destruct (String.compare (art_name a) (art_name b)).
Qed.

(** the manifest of a run is bounded and honest: more than 256 artifacts are
    refused; otherwise it lists each artifact once, with its true length and
    digest, in ascending order of name; and a listed artifact is fetched whole,
    or refused when it is over its size bound. *)
Lemma manifest_is_bounded_and_sorted (s : Inner attachment) :
  match collect_artifacts s with
  | Err e => code e = TooLarge /\ (MAX_ARTIFACTS < N.of_nat (size (artifacts s)))%N
  | Ok entries =>
      (N.of_nat (length entries) <= MAX_ARTIFACTS)%N
      /\ Sorted name_le entries
      /\ NoDup (art_name <$> entries)
      /\ (forall name bytes, artifacts s !! name = Some bytes ->
            MkArtifact name (N.of_nat (length bytes)) (sha256 bytes) ∈ entries)
      /\ Forall (fun e => exists bytes, artifacts s !! art_name e = Some bytes
           /\ art_bytes e = N.of_nat (length bytes) /\ art_sha256 e = sha256 bytes
           /\ fetch_artifact (art_name e) s =
                (if (MAX_ARTIFACT_BYTES <? art_bytes e)%N
                 then Err (MkError TooLarge "artifact exceeds its size bound" false)
                 else Ok (MkContent (base64_encode bytes) (art_bytes e) (art_sha256 e)))) entries
  end.
Proof.
  unfold collect_artifacts. destruct (N.ltb_spec MAX_ARTIFACTS (N.of_nat (size (artifacts s))));
    [done|].
  pose proof (merge_sort_Permutation name_le (artifact_entry <$> map_to_list (artifacts s))) as Hp.
  assert (Hin : forall name bytes, artifacts s !! name = Some bytes ->
    MkArtifact name (N.of_nat (length bytes)) (sha256 bytes)
    ∈ merge_sort name_le (artifact_entry <$> map_to_list (artifacts s))).
  { intros name bytes Hb. rewrite Hp. apply list_elem_of_fmap.
    exists (name, bytes). split; [done|]. by apply elem_of_map_to_list. }
  split_and!.
  - rewrite Hp, length_fmap, length_map_to_list. done.
  - apply (Sorted_merge_sort name_le).
  - rewrite Hp, <- list_fmap_compose. apply NoDup_fst_map_to_list.
  - exact Hin.
  - apply Forall_forall. intros e. rewrite Hp. intros ([name bytes] & -> & Hb)%list_elem_of_fmap.
    apply elem_of_map_to_list in Hb. exists bytes. split_and!; [done..|].
    unfold fetch_artifact. cbn. by rewrite Hb.
Qed.
End Artifacts.

(** ** The backend *)

(** The text form of a UUID, as the [uuid] crate prints it. *)
Class UuidText := {
  uuid_text : Uuid -> string;
  uuid_text_inj a b : uuid_text a = uuid_text b -> a = b
}.

Inductive BackendError : Type :=
| Provision (message : string)
| Unaddressable (message : string)
| Teardown (message : string)
| UnknownHandle.

Inductive ConnectError : Type :=
| VersionRefused (refused : AttachRefused)
| ConnectUnauthenticated (refused : AttachRefused)
| Unreachable (base_url : string).

Record ProvisionRequest : Type := MkProvision { pr_run_id : RunId; pr_tag : SandboxTag }.
Record SandboxHandle : Type := MkHandle { reference : string; tag : SandboxTag }.
Record SandboxAddress : Type := MkAddress { base_url : string; transport_secret : TransportSecret }.

Inductive Provisioning : Type := Managed | SelfHosted.

Section Backend.
Context {attachment : Type} `{UuidText}.

(** A [ReferenceSandbox] is a shared pointer: the registry names sandboxes by
    number, so clones held by sessions see one state. *)
Record Backend : Type := MkBackend {
  mode : Provisioning;
  secret : TransportSecret;
  registry : gmap string nat;
  handles : gmap string string;
  sandboxes : gmap nat (Inner attachment);
  next_sandbox : nat
}.

Definition managed (secret : TransportSecret) : Backend := MkBackend Managed secret ∅ ∅ ∅ 0.
Definition self_hosted (url : string) (secret : TransportSecret) (sandbox : Inner attachment)
    : Backend := MkBackend SelfHosted secret {[ url := 0 ]} ∅ {[ 0 := sandbox ]} 1.

Definition base_url_for (b : Backend) (handle : SandboxHandle) : option string :=
  handles b !! reference handle.

Definition provision_reference (run_id uuid : Uuid) : string :=
  uuid_text run_id +:+ ":" +:+ uuid_text uuid.

(** [url_uuid] and [ref_uuid] are the two random UUIDs the call draws. *)
Definition provision (url_uuid ref_uuid : Uuid) (request : ProvisionRequest) (b : Backend)
    : result BackendError SandboxHandle * Backend :=
  let reference := provision_reference (pr_run_id request) ref_uuid in
  match mode b with
  | Managed =>
      let url := "inproc://" +:+ uuid_text url_uuid in
      (Ok (MkHandle reference (pr_tag request)),
       MkBackend (mode b) (secret b) (<[url := next_sandbox b]> (registry b))
         (<[reference := url]> (handles b)) (<[next_sandbox b := sandbox_new]> (sandboxes b))
         (S (next_sandbox b)))
  | SelfHosted =>
      match map_to_list (registry b) with
      | [] => (Err (Provision "no self-hosted endpoint registered"), b)
      | (url, _) :: _ =>
          (Ok (MkHandle reference (pr_tag request)),
           MkBackend (mode b) (secret b) (registry b) (<[reference := url]> (handles b))
             (sandboxes b) (next_sandbox b))
      end
  end.

Definition address (b : Backend) (handle : SandboxHandle) : result BackendError SandboxAddress :=
  match base_url_for b handle with
  | None => Err UnknownHandle
  | Some url =>
      match registry b !! url with
      | None => Err (Unaddressable url)
      | Some _ => Ok (MkAddress url (secret b))
      end
  end.

Definition destroy (handle : SandboxHandle) (b : Backend) : Backend :=
  let url := base_url_for b handle in
  let handles' := delete (reference handle) (handles b) in
  match mode b with
  | Managed =>
      MkBackend (mode b) (secret b)
        (match url with Some url => delete url (registry b) | None => registry b end)
        handles' (sandboxes b) (next_sandbox b)
  | SelfHosted =>
      MkBackend (mode b) (secret b) (registry b) handles' (sandboxes b) (next_sandbox b)
  end.

(** The session: the sandbox it is attached to and the handshake's answer. *)
Record Session : Type := MkSession { session_sandbox : nat; accepted : AttachAccepted }.

Definition put_sandbox (id : nat) (s : Inner attachment) (b : Backend) : Backend :=
  MkBackend (mode b) (secret b) (registry b) (handles b) (<[id := s]> (sandboxes b))
    (next_sandbox b).

Definition connect (addr : SandboxAddress) (request : AttachRequest) (granted : list Capability)
    (host : attachment) (b : Backend) : result ConnectError Session * Backend :=
  match registry b !! base_url addr with
  | None => (Err (Unreachable (base_url addr)), b)
  | Some id =>
      match sandboxes b !! id with
      | None => (Err (Unreachable (base_url addr)), b)
      | Some sandbox =>
          match handshake request (protocol_version sandbox) (Some (secret b)) granted
                  (latest_sequence sandbox) with
          | Accepted answer => (Ok (MkSession id answer), put_sandbox id (attach host sandbox) b)
          | Refused refused =>
              (Err (match ref_code refused with
                    | Unauthenticated => ConnectUnauthenticated refused
                    | _ => VersionRefused refused
                    end), b)
          end
      end
  end.

(** [Session::drop] *)
Definition drop_session (session : Session) (b : Backend) : Backend :=
  match sandboxes b !! session_sandbox session with
  | Some sandbox => put_sandbox (session_sandbox session) (detach sandbox) b
  | None => b
  end.

(** One provision/address/destroy cycle of the managed backend, with new
    random names: the handle resolves to a fresh sandbox and the backend's
    secret; a dial with that secret and the current version is accepted; after
    [destroy] the handle is unknown and a dial of its old address reaches
    nothing; destroying again changes nothing; and no other handle is touched. *)
Lemma managed_life_cycle b url_uuid ref_uuid request run_id caps host :
  mode b = Managed ->
  (forall r, handles b !! r <> Some ("inproc://" +:+ uuid_text url_uuid)) ->
  handles b !! provision_reference (pr_run_id request) ref_uuid = None ->
  registry b !! ("inproc://" +:+ uuid_text url_uuid) = None ->
  exists handle b1 addr,
    provision url_uuid ref_uuid request b = (Ok handle, b1)
    /\ address b1 handle = Ok addr
    /\ is_ok (connect addr (MkAttach PROTOCOL_VERSION run_id START (secret b)) caps host b1).1 = true
    /\ address (destroy handle b1) handle = Err UnknownHandle
    /\ (connect addr (MkAttach PROTOCOL_VERSION run_id START (secret b)) caps host
          (destroy handle b1)).1 = Err (Unreachable (base_url addr))
    /\ destroy handle (destroy handle b1) = destroy handle b1
    /\ forall other, reference other <> reference handle ->
         address b1 other = address b other
         /\ address (destroy handle b1) other = address b other.
Proof.
  intros Hm Hurl Href Hreg. unfold provision. rewrite Hm.
  set (url := "inproc://" +:+ uuid_text url_uuid) in *.
  set (ref := provision_reference _ _) in *. eexists _, _, (MkAddress url (secret b)).
  split; [reflexivity|]. split_and!.
  - unfold address, base_url_for. cbn. by rewrite !lookup_insert_eq.
  - unfold connect. cbn. rewrite !lookup_insert_eq. cbn.
    rewrite (proj2 (verify_true _ _)) by done. done.
  - unfold address, base_url_for, destroy. cbn. by rewrite lookup_delete_eq.
  - unfold connect, destroy, base_url_for. cbn. by rewrite lookup_insert_eq, lookup_delete_eq.
  - unfold destroy, base_url_for. cbn. by rewrite lookup_delete_eq, delete_delete_eq.
  - cbn. intros other Hne. unfold address, base_url_for, destroy. cbn.
    rewrite lookup_insert_eq, lookup_delete_ne, lookup_insert_ne by done. cbn.
    destruct (handles b !! reference other) as [u|] eqn:Eu; [|done].
    assert (url <> u) by (intros <-; by apply (Hurl (reference other))).
    rewrite lookup_delete_ne, !lookup_insert_ne by done. done.
Qed.
End Backend.
Arguments Backend attachment : clear implicits.
