(* ===== verification/SandboxExamples.v ===== *)
(** * Sandbox protocol: concrete runs

    A codec for the durable store, scripted runs of the capability host over the
    in-memory store, a reader session and a backend, at which the theorems of
    [OpLogFacts], [HostTheorems] and [RefSandbox] are applied. *)

From S2P Require Import RefSandbox OpLogFacts HostTheorems.
#[local] Obligation Tactic := idtac.

Module Codec.
(** A byte form of the three types the durable store writes. *)
Definition string_of (b : list N) : string := String.string_of_list_ascii (map ascii_of_N b).

Lemma string_of_bytes s : string_of (bytes_of s) = s.
Proof.
  unfold string_of, bytes_of. rewrite map_map. rewrite <- (String.string_of_list_ascii_of_string s) at 2.
  f_equal. rewrite <- (map_id (String.list_ascii_of_string s)) at 2. apply map_ext.
  apply ascii_N_embedding.
Qed.

Definition code_number (c : ErrorCode) : N :=
  match c with
  | ProtocolVersion => 0 | Unauthenticated => 1 | Denied => 2 | OperationIdConflict => 3
  | OperationAmbiguous => 4 | OperationEvicted => 5 | Cancelled => 6 | Disconnected => 7
  | InvalidRequest => 8 | TooLarge => 9 | NotFound => 10 | Internal => 11
  end.

Definition number_code (n : N) : ErrorCode :=
  nth (N.to_nat n)
    [ProtocolVersion; Unauthenticated; Denied; OperationIdConflict; OperationAmbiguous;
     OperationEvicted; Cancelled; Disconnected; InvalidRequest; TooLarge; NotFound] Internal.

Definition request_bytes (r : ReverseRequest) : list N :=
  match r with ModelInference p => bytes_of p end.
Definition result_bytes (r : ReverseResult) : list N :=
  match r with ModelInferenceResult c => bytes_of c end.
Definition error_bytes (e : ErrorResponse) : list N :=
  code_number (code e) :: (if retryable e then 1%N else 0%N) :: bytes_of (message e).
Definition error_of (b : list N) : result string ErrorResponse :=
  match b with
  | c :: r :: m => Ok (MkError (number_code c) (string_of m) (N.eqb r 1))
  | _ => Err "unexpected end of input"
  end.

#[export] Program Instance bytes_codec : JsonCodec := {|
  request_to_vec r := Ok (request_bytes r);
  result_to_vec r := Ok (result_bytes r);
  result_from_slice b := Ok (ModelInferenceResult (string_of b));
  error_to_vec e := Ok (error_bytes e);
  error_from_slice := error_of |}.
Next Obligation. done. Qed.
Next Obligation. intros [p] [p'] b [= <-] [= E]. f_equal. by apply bytes_of_inj. Qed.
Next Obligation. intros [c]. eexists. split; [done|].
  cbn [result_bytes]. by rewrite string_of_bytes. Qed.
Next Obligation.
  intros [c m r]. eexists. split; [done|].
  unfold error_bytes, error_of. cbn [message]. rewrite string_of_bytes. by destruct c, r.
Qed.
End Codec.

(** ** The durable store over an empty table *)
Module DurableDemo.
Import Codec.
Definition first_life : Durable.t := Durable.new ∅ 1%N 10%N.
Definition prompt : ReverseRequest := ModelInference "2+2?".
Definition answer : ReverseResult := ModelInferenceResult "4".

Lemma first_life_represents : durable_represents first_life ∅.
Proof. intros id. by rewrite !lookup_empty. Qed.

Lemma reissue_after_crash_witness :
  let claimed := (Durable.claim None first_life 7%N prompt).2 in
  let recorded := (Durable.record_op None claimed 7%N answer).2 in
  let acked := Durable.evict None recorded 7%N in
  (Durable.claim None first_life 7%N prompt).1 = Fresh
  /\ (Durable.claim None (restart claimed 11%N) 7%N prompt).1 = ClaimedElsewhere
  /\ (Durable.claim None (restart recorded 11%N) 7%N prompt).1 = Replay (Recorded answer)
  /\ (Durable.claim None (restart acked 11%N) 7%N prompt).1 = Replay Evicted
  /\ (Durable.claim None (restart claimed 11%N) 7%N (ModelInference "3+3?")).1 = Conflict.
Proof.
  apply (reissue_after_crash first_life ∅ 7%N prompt (ModelInference "3+3?") answer 11%N).
  - apply first_life_represents.
  - apply lookup_empty.
  - discriminate.
  - intros id row E. cbn in E. by rewrite lookup_empty in E.
  - discriminate.
Defined.

(** A claim whose acknowledgement was lost is refused, yet the row is there. *)
Lemma durable_store_refines_the_log_witness :
  let f := Some (FaultAfter "connection reset") in
  (Durable.claim f first_life 7%N prompt).1 = ClaimedElsewhere
  /\ (Durable.claim None (Durable.claim f first_life 7%N prompt).2 7%N prompt).1 = Replay Claimed
  /\ Durable.state None first_life 7%N = spec_state ∅ 7%N.
Proof.
  split; [reflexivity|]. split; [reflexivity|].
  apply (durable_store_refines_the_log (Some (FaultAfter "connection reset")) first_life ∅ 7%N
           prompt answer (MkError Internal "" false)).
  apply first_life_represents.
Defined.

Example lifetimes_race :
  run_calls 1%N ∅
    [MkCallEvent 10 None (CClaim 7 prompt); MkCallEvent 11 None (CClaim 7 prompt);
     MkCallEvent 11 None (CClaim 8 prompt); MkCallEvent 10 None (CClaim 8 prompt);
     MkCallEvent 10 None (CRecord 7 answer); MkCallEvent 12 None (CClaim 7 prompt)]
  = [7%N; 8%N].
Proof. vm_compute. reflexivity. Qed.
End DurableDemo.

(** ** Scripted runs of the capability host *)
Module HostDemo.
#[local] Existing Instance InMemory.store.
Notation host := (Host (gmap OperationId InMemory.Entry)).

Definition granted : GrantSet := MkGrants (MkProvenance 1 "local") [CapModelInference].
Definition ungranted : GrantSet := grants_none (MkProvenance 1 "local").

Definition ask (id : OperationId) : ReverseEnvelope :=
  MkEnvelope PROTOCOL_VERSION id id (ModelInference "2+2?").

Definition four : HostResponse := ROk (ModelInferenceResult "4").

(** One move: the step relation's constructors as data; a task is named by its
    place in the list. *)
Inductive move : Type :=
| Dispatch (envelope : ReverseEnvelope)
| Cancel (id : OperationId)
| Close
| Fire (e : nat)
| Acknowledge (id : OperationId)
| Run (k : nat) (reply : option HostResponse).

Definition play (m : move) (h : host) : option host :=
  match m with
  | Dispatch envelope => Some (dispatch None h envelope).2
  | Cancel id => Some (cancel h id)
  | Close => Some (begin_close h)
  | Fire e => Some (set_entries (alter fire e (entries h)) h)
  | Acknowledge id => Some (acknowledge None h id)
  | Run k reply =>
      t ← tasks h !! k;
      entry ← entries h !! task_entry t;
      '(h', p) ← execute_step None reply h t entry;
      Some (set_tasks (moved (take k (tasks h)) t p (drop (S k) (tasks h))) h')
  end.

Definition played (h : host) (m : move) : host := default h (play m h).
Definition script (g : GrantSet) (ms : list move) : host :=
  foldl played (host_new g InMemory.new) ms.

Lemma play_steps m h h' : play m h = Some h' -> step False h h'.
Proof.
  destruct m as [envelope|id| |e|id|k reply]; cbn [play]; try (intros [= <-]; by constructor).
  destruct (tasks h !! k) as [t|] eqn:Et; cbn; [|done].
  destruct (entries h !! task_entry t) as [entry|] eqn:Ee; cbn; [|done].
  destruct (execute_step None reply h t entry) as [[h1 p]|] eqn:Ex; cbn; [|done].
  intros [= <-]. eapply step_task; [done| |done|done]. symmetry. by apply take_drop_middle.
Qed.

Lemma plays_reachable ms h : reachable False h (foldl played h ms).
Proof.
  revert h. induction ms as [|m ms IH]; intros h; cbn; [apply rtc_refl|].
  unfold reachable. apply transitivity with (y := played h m); [|apply IH]. unfold played.
  destruct (play m h) as [h'|] eqn:E; cbn; [|apply rtc_refl]. apply rtc_once. by eapply play_steps.
Qed.

Lemma script_reachable g ms : reachable False (host_new g InMemory.new) (script g ms).
Proof. apply plays_reachable. Qed.

Lemma new_represents : represents (OperationStore := InMemory.store) InMemory.new ∅.
Proof. apply fmap_empty. Qed.

Lemma empty_opened : opened ∅.
Proof. intros id fp st E. by rewrite lookup_empty in E. Qed.

Definition quietb (h : host) : bool :=
  closed h && forallb (fun t => match entries h !! task_entry t with
                                | Some entry => negb (bool_decide (signal entry = Taken))
                                | None => true
                                end) (tasks h).

Lemma quietb_quiet h : quietb h = true -> quiet h.
Proof.
  intros [Hc Hall]%andb_prop. split; [done|]. intros t entry Hin He Hs.
  rewrite forallb_forall in Hall. specialize (Hall t). rewrite He, Hs in Hall.
  by specialize (Hall (proj1 (list_elem_of_In _ _) Hin)).
Qed.

Definition run_four : list move :=
  [Run 0 None; Run 0 None; Run 0 None; Run 0 (Some four)].

(** A call executed, re-issued while it runs and after it settled. *)
Definition reissued : host :=
  script granted ([Dispatch (ask 7)] ++ run_four ++
    [Dispatch (ask 7); Run 0 None; Run 0 None; Run 0 None; Run 0 None; Dispatch (ask 7);
     Dispatch (ask 8); Run 0 None; Run 0 None; Run 0 None]).

Lemma executes_at_most_once_witness :
  executions reissued = [7%N; 8%N]
  /\ NoDup (executions reissued)
  /\ Forall (fun id => (∅ : gmap OperationId (ReverseRequest * Standing)) !! id = None)
       (executions reissued).
Proof.
  split; [reflexivity|].
  apply (executes_at_most_once False granted InMemory.new ∅ reissued);
    [apply new_represents|apply script_reachable].
Defined.

Lemma ungranted_never_executes_witness :
  (dispatch None (host_new ungranted InMemory.new) (ask 7)).1 = WaitSettled (RError denied)
  /\ tasks (script ungranted ([Dispatch (ask 7)] ++ run_four)) = []
  /\ executions (script ungranted ([Dispatch (ask 7)] ++ run_four)) = [].
Proof.
  split; [reflexivity|].
  apply (ungranted_never_executes False ungranted InMemory.new); [reflexivity|apply script_reachable].
Defined.

(** The responder answered, and the cancellation came before it settled. *)
Definition cancelled_late : host :=
  script granted ([Dispatch (ask 7)] ++ run_four ++
    [Cancel 7; Run 0 None; Run 0 None; Run 0 None; Run 0 None]).

Lemma cancellation_is_final_witness :
  executions cancelled_late = [7%N]
  /\ exists response, (outcome <$> entries cancelled_late !! 0) = Some (Published response)
                      /\ response = cancelled.
Proof.
  split; [reflexivity|]. eexists. split; [vm_compute; reflexivity|].
  apply (cancellation_is_final False granted InMemory.new ∅ cancelled_late 0
           (MkInflight OwnerCancellation Taken (Published cancelled)));
    [apply new_represents|apply script_reachable|vm_compute; reflexivity..].
Defined.

(** Closed with one execution running and one not yet polled; both signals fired. *)
Definition closing : host :=
  script granted [Dispatch (ask 7); Run 0 None; Run 0 None; Run 0 None; Dispatch (ask 8);
                  Close; Fire 0; Fire 1].
Definition closing_on : list move := [Run 1 None; Run 1 None; Run 0 (Some four); Dispatch (ask 9)].

Lemma close_stops_executions_witness :
  quiet closing /\ executions closing = [7%N]
  /\ executions (foldl played closing closing_on) = executions closing.
Proof.
  split; [apply quietb_quiet; reflexivity|]. split; [reflexivity|].
  apply (close_stops_executions False granted InMemory.new ∅ closing);
    [apply new_represents|apply script_reachable|apply quietb_quiet; reflexivity
    |apply plays_reachable].
Defined.

(** The tasks of [closing] run on with no responder answering. *)
Definition runs_on (k : nat) (h : host) : option host := play (Run k None) h.

Lemma runs_on_unanswered k h h' : runs_on k h = Some h' -> unanswered False h h'.
Proof.
  unfold runs_on. cbn [play]. destruct (tasks h !! k) as [t|] eqn:Et; cbn; [|done].
  destruct (entries h !! task_entry t) as [entry|] eqn:Ee; cbn; [|done].
  destruct (execute_step None None h t entry) as [[h1 p]|] eqn:Ex; cbn; [|done].
  intros [= <-]. eapply unanswered_task; [done| |done|done]. symmetry. by apply take_drop_middle.
Qed.

Lemma runs_unanswered ks h h' :
  foldl (fun o k => o ≫= runs_on k) (Some h) ks = Some h' ->
  nsteps (unanswered False) (length ks) h h'.
Proof.
  revert h. induction ks as [|k ks IH]; intros h E'; [injection E' as <-; constructor|].
  change (foldl (fun o k => o ≫= runs_on k) (runs_on k h) ks = Some h') in E'.
  destruct (runs_on k h) as [h1|] eqn:E.
  - eapply nsteps_l; [by eapply runs_on_unanswered|by apply IH].
  - clear IH E. exfalso. induction ks as [|k' ks IH]; [discriminate|]. by apply IH.
Qed.

(** Ten such steps from [closing], the two tasks taking turns, leave it drained. *)
Definition drained : host :=
  foldl played closing [Run 1 None; Run 0 None; Run 1 None; Run 0 None; Run 1 None; Run 0 None;
                        Run 1 None; Run 0 None; Run 1 None; Run 0 None].

Lemma closed_host_drains_witness :
  length (tasks closing) = 2 /\ idle closing = false /\ tasks drained = []
  /\ (10 <= work closing /\ executions drained = executions closing
      /\ (forall t, t ∈ tasks drained -> exists before after, tasks drained = before ++ t :: after
            /\ exists h2 p, unanswered False drained
                              (set_tasks (moved before t p after) h2))
      /\ (tasks drained = [] -> idle drained = true)).
Proof.
  do 3 (split; [reflexivity|]).
  apply (closed_host_drains False granted InMemory.new ∅ closing 10 drained);
    [apply new_represents|apply script_reachable|apply quietb_quiet; reflexivity|].
  apply (runs_unanswered [1; 0; 1; 0; 1; 0; 1; 0; 1; 0]). vm_compute. reflexivity.
Defined.

(** The store write has returned; nothing is published yet. *)
Definition recorded_host : host :=
  script granted ([Dispatch (ask 7)] ++ run_four ++ [Run 0 None; Run 0 None]).

Lemma recorded_before_published_witness :
  outcome <$> entries recorded_host !! 0 = Some Pending
  /\ (state None (host_store recorded_host) 7%N = Some (terminal_of four)
      \/ state None (host_store recorded_host) 7%N = Some Evicted).
Proof.
  split; [reflexivity|].
  apply (recorded_before_published granted InMemory.new ∅ recorded_host
           (MkTask 7%N 0 (PRemove four)));
    [apply new_represents|apply empty_opened|apply script_reachable|by left|by left].
Defined.

Lemma claimed_has_a_live_execution_witness :
  exists t, t ∈ tasks closing /\ task_id t = 8%N /\ inflight closing !! 8%N = Some (task_entry t).
Proof.
  apply (claimed_has_a_live_execution granted InMemory.new ∅ closing 8%N (ModelInference "2+2?"));
    [apply new_represents|apply empty_opened|apply script_reachable|reflexivity].
Defined.
End HostDemo.

(** ** A reader session and a backend *)
Module RefDemo.
Definition start : Reader unit := reader_new PROTOCOL_VERSION 2 1.
Definition emitted (text : string) (r : Reader unit) : Reader unit :=
  MkReader (emit (Progress text) (rd_sandbox r)).2 (rd_committed r) (rd_cursor r).
Definition crashed (r : Reader unit) : Reader unit :=
  MkReader (events_since (rd_cursor r) (rd_sandbox r)).2 (rd_committed r) (rd_cursor r).
Definition committed_read (r : Reader unit) : Reader unit :=
  let b := events_since (rd_cursor r) (rd_sandbox r) in
  MkReader b.2 (rd_committed r ++ events b.1) (next_cursor b.1 (rd_cursor r)).

(** Two events, a read lost to a crash, a third, a committed read, two more. *)
Definition session : Reader unit :=
  emitted "e" (emitted "d" (committed_read (emitted "c" (crashed (emitted "b" (emitted "a" start)))))).

Lemma session_reachable : rtc reader_step start session.
Proof.
  unfold session.
  do 7 (eapply rtc_r; [|first [apply rd_emit|apply rd_commit|apply rd_crash]]).
  apply rtc_refl.
Qed.

Lemma events_exactly_once_witness :
  rd_cursor session = 3%N
  /\ numbered FIRST (stream (rd_sandbox session))
  /\ rd_committed session = take (N.to_nat (rd_cursor session)) (stream (rd_sandbox session))
  /\ rd_committed session ++ events (events_since (rd_cursor session) (rd_sandbox session)).1
     = stream (rd_sandbox session).
Proof.
  split; [reflexivity|].
  apply (events_exactly_once PROTOCOL_VERSION 2 1 session). apply session_reachable.
Defined.

Lemma overflow_is_backpressure_witness :
  (emit (Progress "f") (rd_sandbox session)).1 = Err Overflow
  /\ is_ok (emit (Progress "f") (events_since (rd_cursor session) (rd_sandbox session)).2).1 = true.
Proof.
  destruct (overflow_is_backpressure PROTOCOL_VERSION 2 1 session (Progress "f"))
    as (_ & Hov & _ & Hread); [apply session_reachable|reflexivity|].
  split; [apply Hov; reflexivity|exact Hread].
Defined.

(** A UUID written in unary. *)
#[export] Program Instance unary_text : UuidText := {| uuid_text n := String.string_of_list_ascii
  (replicate (N.to_nat n) "x"%char) |}.
Next Obligation.
  intros n m E. apply (f_equal String.list_ascii_of_string) in E.
  rewrite !String.list_ascii_of_string_of_list_ascii in E.
  apply (f_equal length) in E. rewrite !length_replicate in E. lia.
Qed.

Definition backend : RefSandbox.Backend unit := managed "s3cret".
Definition request : ProvisionRequest := MkProvision 1 2.

Lemma managed_life_cycle_witness :
  exists handle b1 addr,
    provision 3 4 request backend = (Ok handle, b1)
    /\ address b1 handle = Ok addr
    /\ is_ok (connect addr (MkAttach PROTOCOL_VERSION 1 START "s3cret") [] tt b1).1 = true
    /\ address (destroy handle b1) handle = Err UnknownHandle.
Proof.
  destruct (managed_life_cycle backend 3 4 request 1 [] tt)
    as (handle & b1 & addr & H1 & H2 & H3 & H4 & _);
    [reflexivity|by intros r|reflexivity|reflexivity|].
  exists handle, b1, addr. split; [exact H1|]. split; [exact H2|]. split; [exact H3|exact H4].
Defined.
End RefDemo.
