(* ===== verification/Egress.v ===== *)
(** * The egress decision

    [crates/tidebreak-egress/src/lib.rs]: domain patterns, address blocks,
    destinations and the allowlist that decides whether a workload may open a
    connection.  The crate is std-only; what it uses of the standard library is
    modelled with it: [Module Net] is the address parser of [std::net]
    ([IpAddr::from_str]), an IPv4 address being its [u32] and an IPv6 address its
    [u128], with shifts truncated to that width. *)

From S2P Require Export RustStr.

(** ** [std::net]: parsing an address *)
Module Net.

Inductive IpAddr : Type :=
| V4 (bits : N)
| V6 (bits : N).

#[export] Instance IpAddr_eq_dec : EqDecision IpAddr.
Proof. solve_decision. Defined.

(** A parser reads a prefix of its input; [None] leaves the input unread. *)
Definition parser (A : Type) : Type := string -> option (A * string).

Definition digit (radix : N) (a : ascii) : option N :=
  let n := N_of_ascii a in
  let d := if is_ascii_digit a then Some (n - 48)%N
           else if is_ascii_lowercase a then Some (n - 87)%N
           else if is_ascii_uppercase a then Some (n - 55)%N
           else None in
  match d with Some d => if (d <? radix)%N then Some d else None | None => None end.

(** [read_number]: digits of [radix] up to [max_digits] of them and the value up
    to [max], where one digit too many or an overflow is a failure. *)
Fixpoint digits_from (radix max : N) (max_digits count : nat) (acc : N) (s : string)
    : option (N * nat * string) :=
  match s with
  | EmptyString => Some (acc, count, s)
  | String a s' =>
      match digit radix a with
      | None => Some (acc, count, s)
      | Some d =>
          let v := (acc * radix + d)%N in
          if (max <? v)%N then None
          else if max_digits <? S count then None
          else digits_from radix max max_digits (S count) v s'
      end
  end.

Definition read_number (radix max : N) (max_digits : nat) (allow_zero_prefix : bool) : parser N :=
  fun s =>
    match digits_from radix max max_digits 0 0 s with
    | Some (v, count, rest) =>
        if count =? 0 then None
        else if negb allow_zero_prefix && starts_with s "0" && (1 <? count) then None
        else Some (v, rest)
    | None => None
    end.

Definition read_given_char (c : ascii) : parser unit :=
  fun s => match s with
           | String a s' => if Ascii.eqb a c then Some (tt, s') else None
           | EmptyString => None
           end.

Definition read_separator {A} (sep : ascii) (index : nat) (inner : parser A) : parser A :=
  fun s => match index with
           | O => inner s
           | S _ => match read_given_char sep s with
                    | Some (_, s') => inner s'
                    | None => None
                    end
           end.

Definition read_octet (i : nat) : parser N :=
  read_separator "." i (read_number 10 255 3 false).

Definition read_ipv4_addr : parser N :=
  fun s =>
    '(a, s) ← read_octet 0 s; '(b, s) ← read_octet 1 s;
    '(c, s) ← read_octet 2 s; '(d, s) ← read_octet 3 s;
    Some (a * 16777216 + b * 65536 + c * 256 + d, s)%N.

(** [read_groups]: up to [limit] groups of an IPv6 address, group [i] next; the
    groups read, whether the last two were an embedded IPv4 address, the rest. *)
Fixpoint read_groups (fuel i limit : nat) (s : string) : list N * bool * string :=
  match fuel with
  | O => ([], false, s)
  | S fuel =>
      match (if S i <? limit then read_separator ":" i read_ipv4_addr s else None) with
      | Some (v4, rest) => ([v4 / 65536; v4 mod 65536]%N, true, rest)
      | None =>
          match read_separator ":" i (read_number 16 65535 4 true) s with
          | Some (g, rest) =>
              let '(gs, v4, rest) := read_groups fuel (S i) limit rest in (g :: gs, v4, rest)
          | None => ([], false, s)
          end
      end
  end.

Definition of_groups (gs : list N) : N := foldl (fun acc g => acc * 65536 + g)%N 0%N gs.

Definition read_ipv6_addr : parser N :=
  fun s =>
    let '(head, head_ipv4, rest) := read_groups 8 0 8 s in
    if length head =? 8 then Some (of_groups head, rest)
    else if head_ipv4 then None
    else
      '(_, rest) ← read_given_char ":" rest; '(_, rest) ← read_given_char ":" rest;
      let limit := 8 - (length head + 1) in
      let '(tail, _, rest) := read_groups limit 0 limit rest in
      Some (of_groups (head ++ replicate (8 - length head - length tail) 0%N ++ tail), rest).

(** [value.parse::<IpAddr>()] *)
Definition parse_ip (s : string) : option IpAddr :=
  match read_ipv4_addr s with
  | Some (v, EmptyString) => Some (V4 v)
  | Some _ => None
  | None => match read_ipv6_addr s with
            | Some (v, EmptyString) => Some (V6 v)
            | _ => None
            end
  end.

Example loopback : parse_ip "127.0.0.1" = Some (V4 2130706433).
Proof. reflexivity. Qed.
Example octal_is_no_address : parse_ip "0177.0.0.1" = None.
Proof. reflexivity. Qed.
Example v6_short : parse_ip "fe80::1" = Some (V6 338288524927261089654018896841347694593).
Proof. reflexivity. Qed.
Example v6_mapped : parse_ip "::ffff:10.0.0.1" = Some (V6 281470849515521).
Proof. reflexivity. Qed.
Example v6_two_gaps : parse_ip "1::2::3" = None.
Proof. reflexivity. Qed.

End Net.
Export Net.

Definition MAX_DOMAIN_BYTES : nat := 253.

Inductive EgressError : Type :=
| InvalidDomainPattern (value : string)
| InvalidCidr (value : string)
| InvalidDestination (value : string).

(** ** Hosts *)
Definition is_hex_encoded (label : string) : bool :=
  match strip_prefix label "0x" with
  | Some rest => negb (is_empty rest) && str_all is_ascii_hexdigit rest
  | None => false
  end.

Definition is_leading_zero_numeric (label : string) : bool :=
  (1 <? len label) && starts_with label "0" && str_all is_ascii_digit label.

Definition valid_label (label : string) : bool :=
  negb (is_empty label) && (len label <=? 63)
  && negb (starts_with label "-") && negb (ends_with label "-")
  && str_all (fun b => is_ascii_lowercase b || is_ascii_digit b || Ascii.eqb b "-") label
  && negb (is_hex_encoded label) && negb (is_leading_zero_numeric label).

Definition is_Some_b {A} (o : option A) : bool :=
  match o with Some _ => true | None => false end.

Definition validate_host (host : string) : bool :=
  if is_empty host || (MAX_DOMAIN_BYTES <? len host) || is_Some_b (parse_ip host) then false
  else
    let tld := rsplit_next host "." in
    if negb (is_empty tld) && str_all is_ascii_digit tld then false
    else forallb valid_label (split host ".").

(** ** Domain patterns *)
Record DomainPattern : Type := MkPattern { suffix : string; wildcard : bool }.

Definition pattern_parse (value : string) : result EgressError DomainPattern :=
  let '(wildcard, host) :=
    match strip_prefix value "*." with Some rest => (true, rest) | None => (false, value) end in
  let host := to_ascii_lowercase host in
  if validate_host host then Ok (MkPattern host wildcard)
  else Err (InvalidDomainPattern value).

Definition pattern_matches (p : DomainPattern) (host : string) : bool :=
  if MAX_DOMAIN_BYTES <? len host then false
  else
    let host := to_ascii_lowercase host in
    if wildcard p then
      match strip_suffix host (suffix p) with
      | Some prefix =>
          match strip_suffix prefix "." with
          | Some labels => negb (is_empty labels)
          | None => false
          end
      | None => false
      end
    else String.eqb host (suffix p).

(** ** Address blocks *)
Record CidrBlock : Type := MkCidr { network : IpAddr; prefix : N }.

Definition bits_of (a : IpAddr) : N := match a with V4 _ => 32 | V6 _ => 128 end.

(** [uN::MAX << (N - prefix)], truncated to [N] bits. *)
Definition mask (width prefix : N) : N :=
  if N.eqb prefix 0 then 0
  else N.land (N.shiftl (N.ones width) (width - prefix)) (N.ones width).

Definition mask_address (a : IpAddr) (prefix : N) : IpAddr :=
  match a with
  | V4 bits => V4 (N.land bits (mask 32 prefix))
  | V6 bits => V6 (N.land bits (mask 128 prefix))
  end.

Definition cidr_parse (value : string) : result EgressError CidrBlock :=
  let invalid := Err (InvalidCidr value) in
  let finish (address : IpAddr) (prefix : N) :=
    if (bits_of address <? prefix)%N then invalid
    else Ok (MkCidr (mask_address address prefix) prefix) in
  match split_once value "/" with
  | Some (address, prefix) =>
      match parse_ip address with
      | None => invalid
      | Some address =>
          if negb (str_all is_ascii_digit prefix) then invalid
          else match parse_uint 255 prefix with
               | None => invalid
               | Some p => finish address (Z.to_N p)
               end
      end
  | None =>
      match parse_ip value with
      | None => invalid
      | Some address => finish address (bits_of address)
      end
  end.

Definition contains_address (b : CidrBlock) (address : IpAddr) : bool :=
  match network b, address with
  | V4 _, V4 _ | V6 _, V6 _ => bool_decide (mask_address address (prefix b) = network b)
  | _, _ => false
  end.

(** ** Destinations and the policy *)
Inductive Destination : Type :=
| Domain (host : string)
| Address (address : IpAddr).

Definition destination_parse (value : string) : result EgressError Destination :=
  match parse_ip value with
  | Some address => Ok (Address address)
  | None =>
      let host := to_ascii_lowercase value in
      if validate_host host then Ok (Domain host) else Err (InvalidDestination value)
  end.

Record EgressAllowlist : Type := MkAllowlist { domains : list DomainPattern; cidrs : list CidrBlock }.

Definition allowlist_is_empty (a : EgressAllowlist) : bool :=
  match domains a, cidrs a with [], [] => true | _, _ => false end.

Inductive EgressPolicy : Type :=
| BlockAll
| Allowlist (allowlist : EgressAllowlist).

Definition egress_permits (p : EgressPolicy) (destination : Destination) : bool :=
  match p with
  | BlockAll => false
  | Allowlist allowlist =>
      match destination with
      | Domain host =>
          validate_host host && existsb (fun pattern => pattern_matches pattern host) (domains allowlist)
      | Address address => existsb (fun block => contains_address block address) (cidrs allowlist)
      end
  end.

(** ** Enforcement *)
Inductive EnforcementTier : Type := External | Supervisor.
Inductive ExceptionReach : Type := Narrow | GeneralPurpose.
Inductive ExceptionScope : Type :=
| ScopeDomain (pattern : DomainPattern)
| ScopeAddress (block : CidrBlock)
| DomainRulePortLimit (ports : list N)
| VendorCurated.

#[export] Instance EnforcementTier_eq_dec : EqDecision EnforcementTier.
Proof. solve_decision. Defined.
#[export] Instance ExceptionReach_eq_dec : EqDecision ExceptionReach.
Proof. solve_decision. Defined.

Record EnforcementException : Type := MkException {
  scope : ExceptionScope; reach : ExceptionReach; purpose : string }.

Record EgressEnforcement : Type := MkEnforcement {
  tier : EnforcementTier; exceptions : list EnforcementException }.

Definition external (exceptions : list EnforcementException) : EgressEnforcement :=
  MkEnforcement External exceptions.
Definition supervisor : EgressEnforcement := MkEnforcement Supervisor [].

Definition is_credential_boundary (e : EgressEnforcement) : bool :=
  bool_decide (tier e = External)
  && forallb (fun ex => bool_decide (reach ex = Narrow)) (exceptions e).

(** ** Helpers of the enforcement points *)
Definition parse_port (s : string) : option N :=
  match parse_uint 65535 s with
  | Some p => if Z.eqb p 0 then None else Some (Z.to_N p)
  | None => None
  end.

Definition parse_authority (authority : string) : option (string * N) :=
  match strip_prefix authority "[" with
  | Some rest =>
      '(host, port) ← split_once rest "]:";
      port ← parse_port port;
      Some (to_ascii_lowercase host, port)
  | None =>
      '(host, port) ← rsplit_once authority ":";
      if is_empty host || contains_char host ":" then None
      else port ← parse_port port;
           Some (to_ascii_lowercase (trim_end_matches host "."), port)
  end.

(** [u32::MAX << (32 - prefix)] overflows its shift for a [prefix] of zero or
    above 32; [None] is that panic. *)
Definition in_v4_block (address network prefix : N) : option bool :=
  if (prefix =? 0)%N || (32 <? prefix)%N then None
  else Some (N.land address (mask 32 prefix) =? N.land network (mask 32 prefix))%N.

Definition in_v6_prefix (address network prefix : N) : option bool :=
  if (prefix =? 0)%N || (16 <? prefix)%N then None
  else Some (N.land (N.shiftr address 112) (mask 16 prefix) =? N.land network (mask 16 prefix))%N.

(** ** Suffixes *)
Lemma strip_suffix_Some s p r : strip_suffix s p = Some r <-> s = r +:+ p.
Proof.
  unfold strip_suffix. split.
  - case_match eqn:E; [|done]. intros [= <-]. apply andb_true_iff in E as [_ E].
    apply String.eqb_eq in E. rewrite <- E at 2. by rewrite take_drop_str.
  - intros ->. rewrite len_app. replace (len r + len p - len p) with (len r) by lia.
    rewrite drop_app_str, take_app_str, String.eqb_refl.
    rewrite (proj2 (Nat.leb_le _ _)) by lia. done.
Qed.

Lemma is_empty_false s : is_empty s = false <-> s <> "".
Proof. by destruct s. Qed.

(** a domain pattern grants exactly what it reads: an exact pattern matches
    its own host, ignoring case; a wildcard one matches a host that is one or
    more labels, a dot and the suffix, and never the bare suffix itself.  A host
    longer than a DNS name never matches. *)
Lemma pattern_matches_spec p host :
  (pattern_matches p host = true <->
     len host <= MAX_DOMAIN_BYTES /\
     if wildcard p
     then exists labels, labels <> "" /\ to_ascii_lowercase host = labels +:+ "." +:+ suffix p
     else to_ascii_lowercase host = suffix p)
  /\ (wildcard p = true -> to_ascii_lowercase host = suffix p -> pattern_matches p host = false).
Proof.
  assert (Hiff : pattern_matches p host = true <->
     len host <= MAX_DOMAIN_BYTES /\
     if wildcard p
     then exists labels, labels <> "" /\ to_ascii_lowercase host = labels +:+ "." +:+ suffix p
     else to_ascii_lowercase host = suffix p).
  { unfold pattern_matches. destruct (Nat.ltb_spec MAX_DOMAIN_BYTES (len host)).
    { split; [done|]. intros [? _]. lia. }
    destruct (wildcard p); [|rewrite String.eqb_eq; tauto]. split.
    - destruct (strip_suffix _ _) as [pre|] eqn:E1; [|done].
      destruct (strip_suffix pre ".") as [labels|] eqn:E2; [|done].
      intros Hl. apply negb_true_iff, is_empty_false in Hl.
      apply strip_suffix_Some in E1, E2. split; [done|]. exists labels. split; [done|].
      by rewrite E1, E2, str_app_assoc.
    - intros (_ & labels & Hl & E). rewrite <- str_app_assoc in E.
      apply strip_suffix_Some in E. rewrite E.
      rewrite (proj2 (strip_suffix_Some (labels +:+ ".") "." labels)) by done.
      apply negb_true_iff. by apply is_empty_false. }
  split; [done|]. intros Hw E. apply not_true_iff_false. rewrite Hiff, Hw.
  intros (_ & labels & Hl & E'). rewrite E in E'. apply (f_equal len) in E'.
  rewrite !len_app in E'. cbn in E'. lia.
Qed.

(** ** Masks *)
Definition value (a : IpAddr) : N := match a with V4 b | V6 b => b end.
Definition well_formed (a : IpAddr) : Prop := (value a < 2 ^ bits_of a)%N.

Lemma mask_testbit w p i :
  (p <= w)%N -> N.testbit (mask w p) i = ((w - p <=? i)%N && (i <? w)%N).
Proof.
  intros Hp. unfold mask. destruct (N.eqb_spec p 0) as [->|].
  - rewrite N.bits_0. destruct (N.leb_spec (w - 0) i), (N.ltb_spec i w); try done. lia.
  - rewrite N.land_spec. destruct (N.ltb_spec i w).
    + rewrite N.ones_spec_low by done. rewrite !andb_true_r.
      destruct (N.leb_spec (w - p) i).
      * rewrite N.shiftl_spec_high' by done. rewrite N.ones_spec_low; [done|lia].
      * by rewrite N.shiftl_spec_low.
    + rewrite N.ones_spec_high by done. by rewrite !andb_false_r.
Qed.

Lemma testbit_above a w i : (a < 2 ^ w)%N -> (w <= i)%N -> N.testbit a i = false.
Proof.
  intros Ha Hi. destruct (N.eq_dec a 0) as [->|Hz]; [apply N.bits_0|].
  apply N.bits_above_log2, N.log2_lt_pow2; [lia|].
  eapply N.lt_le_trans; [exact Ha|]. apply N.pow_le_mono_r; lia.
Qed.

(** Equal under the mask is equal in the leading [p] bits. *)
Lemma mask_eq_shiftr w p a b :
  (p <= w)%N -> (a < 2 ^ w)%N -> (b < 2 ^ w)%N ->
  N.land a (mask w p) = N.land b (mask w p) <-> N.shiftr a (w - p) = N.shiftr b (w - p).
Proof.
  intros Hp Ha Hb. split; intros E; apply N.bits_inj; intros i.
  - rewrite !N.shiftr_spec'. destruct (N.ltb_spec (i + (w - p)) w).
    + apply (f_equal (fun n => N.testbit n (i + (w - p)))) in E.
      rewrite !N.land_spec, mask_testbit in E by done.
      rewrite (proj2 (N.leb_le _ _)), (proj2 (N.ltb_lt _ _)), !andb_true_r in E by lia. done.
    + by rewrite !(testbit_above _ w).
  - rewrite !N.land_spec, mask_testbit by done.
    destruct (N.leb_spec (w - p) i); [|by rewrite !andb_false_r].
    apply (f_equal (fun n => N.testbit n (i - (w - p)))) in E.
    rewrite !N.shiftr_spec' in E. replace (i - (w - p) + (w - p))%N with i in E by lia.
    by rewrite E.
Qed.

Lemma mask_address_value a p :
  mask_address a p = (match a with V4 b => V4 (N.land b (mask (bits_of a) p))
                                 | V6 b => V6 (N.land b (mask (bits_of a) p)) end).
Proof. by destruct a. Qed.

(** The block of an address and a prefix length. *)
Lemma block_contains ip p address :
  (p <= bits_of ip)%N -> well_formed ip -> well_formed address ->
  contains_address (MkCidr (mask_address ip p) p) address = true
  <-> bits_of address = bits_of ip
      /\ N.shiftr (value address) (bits_of ip - p) = N.shiftr (value ip) (bits_of ip - p).
Proof.
  intros Hp Hi Ha. unfold contains_address, well_formed in *.
  destruct ip as [a|a], address as [b|b]; cbn in *; try (by split; [done|intros [? _]]);
    rewrite bool_decide_eq_true, <- mask_eq_shiftr by done;
    (split; [by intros [= E]|by intros [_ ->]]).
Qed.

(** ** Parsed addresses are in range *)
Lemma digits_from_max radix max k s : forall count acc v n rest,
  (acc <= max)%N -> digits_from radix max k count acc s = Some (v, n, rest) -> (v <= max)%N.
Proof.
  induction s as [|a s IH]; intros count acc v n rest Hacc; cbn; [by intros [= <- _ _]|].
  destruct (digit radix a); [|by intros [= <- _ _]].
  destruct (N.ltb_spec max (acc * radix + n0)); [done|]. case_match; [done|]. by apply IH.
Qed.

Lemma read_number_max radix max k z s v rest :
  read_number radix max k z s = Some (v, rest) -> (v <= max)%N.
Proof.
  unfold read_number. destruct (digits_from radix max k 0 0 s) as [[[v' n] rest']|] eqn:E; [|done].
  repeat case_match; try done. intros [= <- _]. eapply digits_from_max; [|exact E]. lia.
Qed.

Lemma read_separator_number c i radix max k z s v rest :
  read_separator c i (read_number radix max k z) s = Some (v, rest) -> (v <= max)%N.
Proof.
  unfold read_separator. destruct i; [apply read_number_max|].
  destruct (read_given_char c s) as [[[] s']|]; [apply read_number_max|done].
Qed.

Lemma read_ipv4_range s v rest : read_ipv4_addr s = Some (v, rest) -> (v < 2 ^ 32)%N.
Proof.
  unfold read_ipv4_addr, read_octet.
  destruct (read_separator "." 0 _ s) as [[a s1]|] eqn:E1; [|done]. cbn [mbind option_bind].
  destruct (read_separator "." 1 _ s1) as [[b s2]|] eqn:E2; [|done]. cbn [mbind option_bind].
  destruct (read_separator "." 2 _ s2) as [[c s3]|] eqn:E3; [|done]. cbn [mbind option_bind].
  destruct (read_separator "." 3 _ s3) as [[d s4]|] eqn:E4; [|done]. cbn [mbind option_bind].
  apply read_separator_number in E1, E2, E3, E4. intros [= <- _]. lia.
Qed.

Lemma read_separator_ipv4 i s v rest :
  read_separator ":" i read_ipv4_addr s = Some (v, rest) -> (v < 2 ^ 32)%N.
Proof.
  unfold read_separator. destruct i; [apply read_ipv4_range|].
  destruct (read_given_char ":" s) as [[[] s']|]; [apply read_ipv4_range|done].
Qed.

Lemma read_groups_range fuel : forall i limit s,
  i + fuel = limit ->
  let '(gs, _, _) := read_groups fuel i limit s in
  Forall (fun g => g < 65536)%N gs /\ length gs <= fuel.
Proof.
  induction fuel as [|fuel IH]; intros i limit s Hl; cbn [read_groups]; [by split|].
  destruct (if S i <? limit then _ else None) as [[v4 rest]|] eqn:E4.
  - destruct (Nat.ltb_spec (S i) limit); [|done]. apply read_separator_ipv4 in E4.
    split; [|cbn; lia]. repeat constructor.
    + apply N.Div0.div_lt_upper_bound. lia.
    + apply N.mod_lt. lia.
  - destruct (read_separator ":" i (read_number _ _ _ _) s) as [[g rest]|] eqn:Eg;
      [|cbn; split; [constructor|lia]].
    apply read_separator_number in Eg. specialize (IH (S i) limit rest ltac:(lia)).
    destruct (read_groups fuel (S i) limit rest) as [[gs v4] rest'].
    destruct IH as [? ?]. cbn. split; [constructor; [lia|done]|lia].
Qed.

Lemma of_groups_range gs : forall acc n,
  Forall (fun g => g < 65536)%N gs -> (acc < 2 ^ n)%N ->
  (foldl (fun acc g => acc * 65536 + g)%N acc gs < 2 ^ (n + 16 * N.of_nat (length gs)))%N.
Proof.
  induction gs as [|g gs IH]; intros acc n Hg Hacc; cbn [foldl length].
  { by rewrite N.add_0_r. }
  inversion Hg; subst. replace (n + 16 * N.of_nat (S (length gs)))%N
    with ((n + 16) + 16 * N.of_nat (length gs))%N by lia.
  apply IH; [done|]. rewrite N.pow_add_r. change (2 ^ 16)%N with 65536%N. nia.
Qed.

Lemma of_groups_8 gs :
  Forall (fun g => g < 65536)%N gs -> length gs = 8 -> (of_groups gs < 2 ^ 128)%N.
Proof.
  intros Hg Hl. pose proof (of_groups_range gs 0 0 Hg ltac:(cbn; lia)) as Hr.
  rewrite Hl in Hr. exact Hr.
Qed.

Lemma read_ipv6_range s v rest : read_ipv6_addr s = Some (v, rest) -> (v < 2 ^ 128)%N.
Proof.
  unfold read_ipv6_addr. pose proof (read_groups_range 8 0 8 s eq_refl) as Hh.
  destruct (read_groups 8 0 8 s) as [[head v4] r]. destruct Hh as [Hh Hlen].
  destruct (Nat.eqb_spec (length head) 8) as [E|E].
  { intros [= <- _]. by apply of_groups_8. }
  destruct v4; [done|]. destruct (read_given_char ":" r) as [[[] r1]|]; [|done].
  cbn [mbind option_bind]. destruct (read_given_char ":" r1) as [[[] r2]|]; [|done].
  cbn [mbind option_bind].
  pose proof (read_groups_range (8 - (length head + 1)) 0 (8 - (length head + 1)) r2 eq_refl) as Ht.
  destruct (read_groups _ 0 _ r2) as [[tail v4] r3]. destruct Ht as [Ht Htl].
  intros [= <- _]. apply of_groups_8.
  - rewrite !Forall_app. split_and!; [done| |done]. apply Forall_replicate. lia.
  - rewrite !length_app, length_replicate. lia.
Qed.

Lemma parse_ip_well_formed s a : parse_ip s = Some a -> well_formed a.
Proof.
  unfold parse_ip, well_formed. destruct (read_ipv4_addr s) as [[v r]|] eqn:E4.
  - destruct r; [|done]. intros [= <-]. by apply read_ipv4_range in E4.
  - destruct (read_ipv6_addr s) as [[v r]|] eqn:E6; [|done].
    destruct r; [|done]. intros [= <-]. by apply read_ipv6_range in E6.
Qed.

(** The address part of a block's text. *)
Definition address_text (v : string) : string :=
  match split_once v "/" with Some (a, _) => a | None => v end.

Lemma cidr_parse_Ok v b :
  cidr_parse v = Ok b -> exists ip, parse_ip (address_text v) = Some ip
    /\ (prefix b <= bits_of ip)%N /\ b = MkCidr (mask_address ip (prefix b)) (prefix b).
Proof.
  unfold cidr_parse, address_text. destruct (split_once v "/") as [[a p]|].
  - destruct (parse_ip a) as [ip|]; [|done]. case_match; [done|].
    destruct (parse_uint 255 p) as [n|]; [|done].
    destruct (N.ltb_spec (bits_of ip) (Z.to_N n)); [done|]. intros [= <-]. by exists ip.
  - destruct (parse_ip v) as [ip|]; [|done].
    destruct (N.ltb_spec (bits_of ip) (bits_of ip)); [done|]. intros [= <-]. by exists ip.
Qed.

(** an address block is what its notation says: the block parsed from
    [ip/p] contains an address exactly when it is of the same family and agrees
    with [ip] in its [p] leading bits, whatever host bits [ip] carried; so it
    contains [ip] itself, and no IPv4 block answers for an IPv6 address. *)
Lemma cidr_contains_prefix v b address_of address :
  cidr_parse v = Ok b -> parse_ip address_of = Some address ->
  exists ip, parse_ip (address_text v) = Some ip
    /\ contains_address b ip = true
    /\ (contains_address b address = true <->
          bits_of address = bits_of ip
          /\ N.shiftr (value address) (bits_of ip - prefix b)
             = N.shiftr (value ip) (bits_of ip - prefix b)).
Proof.
  intros Hp Ha. destruct (cidr_parse_Ok v b Hp) as (ip & Hip & Hle & Hb). exists ip.
  pose proof (parse_ip_well_formed _ _ Hip). pose proof (parse_ip_well_formed _ _ Ha).
  rewrite Hb. cbn [prefix]. split_and!; [done| |].
  - by apply block_contains.
  - by apply block_contains.
Qed.

(** ** Destinations *)
Lemma lower_byte_idem a : to_ascii_lower_byte (to_ascii_lower_byte a) = to_ascii_lower_byte a.
Proof. destruct a as [[] [] [] [] [] [] [] []]; reflexivity. Qed.

Lemma lowercase_idem s : to_ascii_lowercase (to_ascii_lowercase s) = to_ascii_lowercase s.
Proof. induction s as [|a s IH]; cbn; [done|]. by rewrite lower_byte_idem, IH. Qed.

Lemma validate_host_true host :
  validate_host host = true ->
  parse_ip host = None /\ len host <= MAX_DOMAIN_BYTES
  /\ Forall (fun label => valid_label label = true) (split host ".")
  /\ str_all is_ascii_digit (rsplit_next host ".") = false.
Proof.
  unfold validate_host. destruct (is_empty host) eqn:Ee; [done|]. cbn [orb].
  destruct (Nat.ltb_spec MAX_DOMAIN_BYTES (len host)); [done|]. cbn [orb].
  destruct (parse_ip host); [done|]. cbn [is_Some_b].
  destruct (negb _ && _) eqn:Et; [done|]. intros Hv%forallb_true. split_and!; try done.
  apply andb_false_iff in Et as [Et|Et]; [|done]. apply negb_false_iff in Et.
  assert (Hin : rsplit_next host "." ∈ split host ".").
  { unfold rsplit_next. pose proof (split_nonempty host "."%char) as Hne.
    destruct (exists_last Hne) as (l & x & ->). rewrite List.last_last.
    apply elem_of_app. right. by left. }
  rewrite Forall_forall in Hv. specialize (Hv _ Hin). unfold valid_label in Hv.
  by rewrite Et in Hv.
Qed.

(** classification is canonical and cannot be dodged.  A destination that
    parses as a domain is the lower case of its text, parses to itself again, is
    not an address literal, and carries none of the numeric encodings a resolver
    would dial as an address: its last label is not all digits and no label is
    hexadecimal or an octal number. *)
Lemma domain_destinations_are_names v host :
  destination_parse v = Ok (Domain host) ->
  host = to_ascii_lowercase v
  /\ destination_parse host = Ok (Domain host)
  /\ parse_ip v = None /\ parse_ip host = None
  /\ str_all is_ascii_digit (rsplit_next host ".") = false
  /\ Forall (fun label => is_hex_encoded label = false /\ is_leading_zero_numeric label = false)
       (split host ".").
Proof.
  unfold destination_parse at 1. destruct (parse_ip v) as [a|] eqn:Ev; [done|].
  destruct (validate_host (to_ascii_lowercase v)) eqn:Eh; [|done]. intros [= <-].
  destruct (validate_host_true _ Eh) as (Hip & _ & Hall & Htld). split_and!; try done.
  - unfold destination_parse. by rewrite Hip, lowercase_idem, Eh.
  - eapply Forall_impl; [exact Hall|]. intros label Hl. unfold valid_label in Hl.
    rewrite !andb_true_iff, !negb_true_iff in Hl. tauto.
Qed.

(** Deny by default, and the two namespaces never cross.  A destination is
    permitted only under an allowlist, a name only by a pattern that matches it
    and an address only by a block that contains it; an empty allowlist permits
    nothing, like [BlockAll]. *)
Lemma egress_is_deny_by_default p d :
  (egress_permits p d = true <-> exists a, p = Allowlist a /\
     match d with
     | Domain host => validate_host host = true
                      /\ exists pat, pat ∈ domains a /\ pattern_matches pat host = true
     | Address ip => exists b, b ∈ cidrs a /\ contains_address b ip = true
     end)
  /\ (forall a, p = Allowlist a -> allowlist_is_empty a = true ->
        egress_permits p d = egress_permits BlockAll d).
Proof.
  split.
  - destruct p as [|a]; cbn; [naive_solver|]. destruct d as [host|ip].
    + rewrite andb_true_iff, existsb_true. naive_solver.
    + rewrite existsb_true. naive_solver.
  - intros a -> Ha. unfold allowlist_is_empty in Ha. cbn.
    destruct (domains a), (cidrs a); try done. cbn. destruct d; [by rewrite andb_false_r|done].
Qed.

Lemma digits_value_nonneg s : forall acc v,
  (0 <= acc)%Z -> digits_value s acc = Some v -> (0 <= v)%Z.
Proof.
  induction s as [|a s IH]; intros acc v Ha; cbn; [by intros [= <-]|].
  case_match; [|done]. apply IH. lia.
Qed.

Lemma parse_port_range s p : parse_port s = Some p -> (1 <= p <= 65535)%N.
Proof.
  unfold parse_port, parse_uint. case_match; [|done]. repeat case_match; simplify_eq; try done.
  all: intros [= <-]; bool_props;
    match goal with E : digits_value _ 0 = Some _ |- _ =>
      apply digits_value_nonneg in E; [|done] end; lia.
Qed.

(** An authority that parses names a real port and an unambiguous host: the
    port is 1 to 65535, the host is lower case, and outside brackets it is a text
    without a colon, so an unbracketed IPv6 address is never split in the middle. *)
Lemma authority_parses_safely authority host port :
  parse_authority authority = Some (host, port) ->
  (1 <= port <= 65535)%N /\ to_ascii_lowercase host = host
  /\ (starts_with authority "[" = false ->
      exists raw digits, rsplit_once authority ":" = Some (raw, digits)
        /\ parse_port digits = Some port /\ raw <> ""
        /\ contains_char raw ":" = false /\ host = to_ascii_lowercase (trim_end_matches raw ".")).
Proof.
  unfold parse_authority, starts_with. destruct (strip_prefix authority "[") as [rest|].
  - destruct (split_once rest "]:") as [[h p]|]; [|done]. cbn.
    destruct (parse_port p) as [n|] eqn:Ep; [|done]. cbn. intros [= <- <-].
    split_and!; [by eapply parse_port_range..|apply lowercase_idem|done].
  - destruct (rsplit_once authority ":") as [[h p]|]; [|done]. cbn.
    destruct (is_empty h) eqn:Eh; [done|]. destruct (contains_char h ":") eqn:Ec; [done|]. cbn.
    destruct (parse_port p) as [n|] eqn:Ep; [|done]. cbn. intros [= <- <-].
    split_and!; [by eapply parse_port_range..|apply lowercase_idem|].
    intros _. exists h, p. split_and!; [done|done|by apply is_empty_false|done..].
Qed.

(** For prefixes of at least one bit and at most the width, the fixed-block
    test is agreement of the leading bits; a prefix of zero or past the width is
    outside what the shift in the code can express. *)
Lemma v4_block_agrees_on_prefix address network prefix :
  (address < 2 ^ 32)%N -> (network < 2 ^ 32)%N ->
  match in_v4_block address network prefix with
  | Some r => (1 <= prefix <= 32)%N
      /\ (r = true <-> N.shiftr address (32 - prefix) = N.shiftr network (32 - prefix))
  | None => prefix = 0%N \/ (32 < prefix)%N
  end.
Proof.
  intros Ha Hn. unfold in_v4_block.
  destruct (N.eqb_spec prefix 0); [by left|]. destruct (N.ltb_spec 32 prefix); [by right|]. cbn.
  split; [lia|]. rewrite N.eqb_eq. by apply mask_eq_shiftr.
Qed.

(** Enforcement qualifies as a credential boundary only when it is external
    and every hole it declares is narrow. *)
Lemma credential_boundary_is_external_and_narrow e :
  is_credential_boundary e = true <->
  tier e = External /\ Forall (fun ex => reach ex = Narrow) (exceptions e).
Proof.
  unfold is_credential_boundary. rewrite andb_true_iff, bool_decide_eq_true, forallb_true.
  by setoid_rewrite bool_decide_eq_true.
Qed.

(** ** Concrete inputs *)
Lemma cidr_contains_prefix_witness :
  exists b, cidr_parse "10.1.2.3/8" = Ok b
    /\ match parse_ip "10.200.0.1" with
       | Some a => contains_address b a = true
       | None => False
       end.
Proof.
  eexists. split; [reflexivity|].
  destruct (parse_ip "10.200.0.1") as [a|] eqn:Ea; [|discriminate Ea].
  edestruct (cidr_contains_prefix "10.1.2.3/8" _ "10.200.0.1" a eq_refl Ea)
    as (ip & Hip & _ & Hiff).
  apply Hiff. vm_compute in Hip, Ea. injection Hip as <-. injection Ea as <-.
  split; reflexivity.
Defined.

Lemma domain_destinations_are_names_witness :
  destination_parse "API.Example.com" = Ok (Domain "api.example.com")
  /\ parse_ip "api.example.com" = None.
Proof.
  assert (Hp : destination_parse "API.Example.com" = Ok (Domain "api.example.com"))
    by (vm_compute; reflexivity).
  split; [exact Hp|]. apply (domain_destinations_are_names _ _ Hp).
Defined.

Lemma authority_parses_safely_witness :
  parse_authority "Example.com.:443" = Some ("example.com", 443%N)
  /\ to_ascii_lowercase "example.com" = "example.com".
Proof.
  assert (Hp : parse_authority "Example.com.:443" = Some ("example.com", 443%N))
    by (vm_compute; reflexivity).
  split; [exact Hp|]. apply (authority_parses_safely _ _ _ Hp).
Defined.

Lemma v4_block_agrees_on_prefix_witness : in_v4_block 2886729729 2886729728 12 = Some true.
Proof.
  pose proof (v4_block_agrees_on_prefix 2886729729 2886729728 12 eq_refl eq_refl) as Hb.
  destruct (in_v4_block 2886729729 2886729728 12) as [r|] eqn:E.
  - destruct Hb as [_ [_ Hb]]. by rewrite Hb.
  - destruct Hb as [Hb|Hb]; discriminate Hb.
Defined.
