(* ===== verification/Retry.v ===== *)
(** * The durable workers' retry schedule and lane pacing

    [crates/tidebreak-worker-runtime/src/retry.rs] and [lane.rs].  A [Duration]
    is its number of nanoseconds, bounded by [DURATION_MAX]; a [DateTime<Utc>]
    is nanoseconds too.  What the code takes from elsewhere is a parameter:

    - [Chrono]: the last representable time, and the longest [std] duration that
      converts to a [chrono] one;
    - [MulF64]: [Duration::mul_f64] by a fraction [u / 2^53].  Its law is the one
      the jitter relies on: for waits up to [2^50] nanoseconds (13 days) the
      product of a duration by a fraction below one, rounded to a nanosecond, is
      not negative and not above the duration.

    The jitter's mixing function is modelled bit for bit on [u64].  [None] as
    the outcome of [delay] is the panic of an out-of-range date addition. *)

From S2P Require Export Prelude.
Open Scope Z_scope.

Definition DURATION_MAX : Z := (2 ^ 64 - 1) * 1000000000 + 999999999.
Definition U64 : Z := 2 ^ 64.
Definition I32_MAX : Z := 2 ^ 31 - 1.
Definition U32_MAX : Z := 2 ^ 32 - 1.

Class Chrono := {
  TIME_MAX : Z;       (* the last [DateTime<Utc>] *)
  TIMEDELTA_MAX : Z   (* the longest [chrono::Duration] *)
}.

Class MulF64 := {
  mul_f64 : Z -> Z -> Z;
  mul_f64_fraction d u :
    0 <= d <= 2 ^ 50 -> 0 <= u < 2 ^ 53 -> 0 <= mul_f64 d u <= d
}.

(** ** Backoff and jitter *)
Definition checked_mul (d k : Z) : option Z :=
  if d * k <=? DURATION_MAX then Some (d * k) else None.

Definition backoff (initial max_delay consecutive_failures : Z) : Z :=
  let doublings := Z.min (Z.max 0 (consecutive_failures - 1)) 31 in
  Z.min (default max_delay (checked_mul initial (Z.shiftl 1 doublings))) max_delay.

(** [u64::from_le_bytes(id.as_bytes()[..8])]: the first eight bytes of the
    identity's big-endian form, read little-endian. *)
Definition id_byte (id i : Z) : Z := Z.land (Z.shiftr id (8 * (15 - i))) 255.
Definition low_seed (id : Z) : Z :=
  foldl (fun acc i => acc + Z.shiftl (id_byte id i) (8 * i)) 0 [0; 1; 2; 3; 4; 5; 6; 7].

Definition mix (id attempt_count : Z) : Z :=
  let seed := (low_seed id + Z.abs attempt_count) mod U64 in
  let mixed := (seed * 0x9e3779b97f4a7c15) mod U64 in
  let mixed := (Z.lxor mixed (Z.shiftr mixed 30) * 0xbf58476d1ce4e5b9) mod U64 in
  let mixed := (Z.lxor mixed (Z.shiftr mixed 27) * 0x94d049bb133111eb) mod U64 in
  Z.lxor mixed (Z.shiftr mixed 31).

Section Schedule.
Context `{Chrono} `{MulF64}.

Definition jitter (delay id attempt_count : Z) : Z :=
  let half := delay / 2 in
  half + mul_f64 half (Z.shiftr (mix id attempt_count) 11).

(** ** [RetrySchedule] *)
Record RetryAttempt : Type := MkAttempt {
  at_id : Z; attempt_count : Z; max_attempts : Z; first_attempt_at : Z }.

Record RetrySchedule : Type := MkSchedule { initial : Z; max_delay : Z; envelope : Z }.

Definition schedule_backoff (s : RetrySchedule) (attempt_count : Z) : Z :=
  backoff (initial s) (max_delay s) (Z.max attempt_count 1).

(** [chrono::Duration::from_std(d).ok()] *)
Definition from_std (d : Z) : option Z := if d <=? TIMEDELTA_MAX then Some d else None.
(** [checked_add_signed], and [+], which panics where it gives [None]. *)
Definition checked_add (t d : Z) : option Z := if t + d <=? TIME_MAX then Some (t + d) else None.

(** The wait the code would like, before it looks at the deadline. *)
Definition wanted (s : RetrySchedule) (a : RetryAttempt) (hint : option Z) : Z :=
  match hint with
  | Some hint => Z.max hint (initial s)
  | None => jitter (schedule_backoff s (attempt_count a)) (at_id a) (attempt_count a)
  end.

Definition delay (s : RetrySchedule) (a : RetryAttempt) (hint : option Z) (now : Z)
    : option (option Z) :=
  if max_attempts a <=? attempt_count a then Some None
  else match from_std (envelope s) with
       | None => Some None
       | Some envelope =>
           deadline ← checked_add (first_attempt_at a) envelope;
           if deadline <=? now then Some None
           else
             let delay := wanted s a hint in
             match from_std delay with
             | None => Some None
             | Some delay' =>
                 match checked_add now delay' with
                 | None => Some None
                 | Some at_ => Some (if at_ <=? deadline then Some delay else None)
                 end
             end
       end.

Definition next_attempt_at (s : RetrySchedule) (a : RetryAttempt) (hint : option Z) (now : Z)
    : option (option Z) :=
  d ← delay s a hint now;
  Some (d ← d; d ← from_std d; checked_add now d).

(** ** [LaneBackoff] *)
Record LaneBackoff : Type := MkLane {
  seed : Z; consecutive_failures : Z; lane_initial : Z; lane_max : Z }.

(** The two assertions of [new]; [None] is their failure. *)
Definition lane_new (seed initial max_delay : Z) : option LaneBackoff :=
  if (initial =? 0) || (max_delay <? initial) then None
  else Some (MkLane seed 0 initial max_delay).

Definition lane_reset (b : LaneBackoff) : LaneBackoff :=
  MkLane (seed b) 0 (lane_initial b) (lane_max b).

Definition lane_next_delay (b : LaneBackoff) : Z * LaneBackoff :=
  let n := Z.min (consecutive_failures b + 1) U32_MAX in
  (jitter (backoff (lane_initial b) (lane_max b) n) (seed b) (Z.min n I32_MAX),
   MkLane (seed b) n (lane_initial b) (lane_max b)).

(** ** [IdleDelay] *)
Record IdleDelay : Type := MkIdle { current : Z; idle_min : Z; idle_cap : Z }.

Definition idle_new (min cap : Z) : IdleDelay := MkIdle min min cap.
Definition idle_reset (d : IdleDelay) : IdleDelay := MkIdle (idle_min d) (idle_min d) (idle_cap d).
Definition idle_grow (d : IdleDelay) : IdleDelay :=
  MkIdle (Z.min (Z.min (current d * 2) DURATION_MAX) (idle_cap d)) (idle_min d) (idle_cap d).

(** ** The lane loop *)
Inductive LaneStep : Type := Idle | Worked.
Definition bool_lane_step (b : bool) : LaneStep := if b then Worked else Idle.

Inductive FailureWait : Type :=
| FixedWait (delay : Z)
| BackoffWait (initial cap : Z).

Record LanePacing : Type := MkPacing { pacing_min : Z; pacing_cap : Z; failure : FailureWait }.

Inductive FailureState : Type :=
| FixedState (delay : Z)
| BackoffState (backoff : LaneBackoff).

Definition failure_new (seed : Z) (w : FailureWait) : option FailureState :=
  match w with
  | FixedWait delay => Some (FixedState delay)
  | BackoffWait initial cap => BackoffState <$> lane_new seed initial cap
  end.

Definition failure_reset (f : FailureState) : FailureState :=
  match f with FixedState d => FixedState d | BackoffState b => BackoffState (lane_reset b) end.

Definition failure_next_delay (f : FailureState) : Z * FailureState :=
  match f with
  | FixedState d => (d, FixedState d)
  | BackoffState b => let '(d, b') := lane_next_delay b in (d, BackoffState b')
  end.

(** One iteration of [run_lane] on the result of [run_once]: the sleep it takes
    (a wake signal may cut it short) and the pacing state for the next one. *)
Definition lane_iteration (idle : IdleDelay) (fail : FailureState)
    (outcome : result string LaneStep) : option Z * IdleDelay * FailureState :=
  match outcome with
  | Ok Idle => (Some (current idle), idle_grow idle, failure_reset fail)
  | Ok Worked => (None, idle_reset idle, failure_reset fail)
  | Err _ => let '(d, fail') := failure_next_delay fail in (Some d, idle, fail')
  end.

Fixpoint lane_sleeps (idle : IdleDelay) (fail : FailureState)
    (outcomes : list (result string LaneStep)) : list (option Z) :=
  match outcomes with
  | [] => []
  | o :: outcomes =>
      let '(sleep, idle', fail') := lane_iteration idle fail o in
      sleep :: lane_sleeps idle' fail' outcomes
  end.

(** [run_lane] on the outcomes of its iterations so far. *)
Definition run_lane (seed : Z) (p : LanePacing) (outcomes : list (result string LaneStep))
    : option (list (option Z)) :=
  fail ← failure_new seed (failure p);
  Some (lane_sleeps (idle_new (pacing_min p) (pacing_cap p)) fail outcomes).
End Schedule.

(** ** Backoff *)

(** The doubled wait after [n] failures, without machine arithmetic. *)
Definition doubled (initial n : Z) : Z := initial * 2 ^ Z.min (Z.max 0 (n - 1)) 31.

Lemma backoff_doubled initial max_delay n :
  max_delay <= DURATION_MAX -> backoff initial max_delay n = Z.min (doubled initial n) max_delay.
Proof.
  intros Hmax. unfold backoff, checked_mul, doubled.
  rewrite Z.shiftl_mul_pow2, Z.mul_1_l by lia.
  destruct (Z.leb_spec (initial * 2 ^ Z.min (Z.max 0 (n - 1)) 31) DURATION_MAX); cbn; lia.
Qed.

Lemma doubled_bounds initial n :
  0 <= initial -> initial <= doubled initial n.
Proof.
  intros Hi. unfold doubled.
  pose proof (Z.pow_pos_nonneg 2 (Z.min (Z.max 0 (n - 1)) 31) ltac:(lia) ltac:(lia)). nia.
Qed.

Lemma doubled_mono initial n m :
  0 <= initial -> n <= m -> doubled initial n <= doubled initial m.
Proof.
  intros Hi Hn. unfold doubled. apply Z.mul_le_mono_nonneg_l; [done|].
  apply Z.pow_le_mono_r; lia.
Qed.

(** The exponential wait is exact: computed with an overflow-checked
    multiplication, the wait after [n] failures is the initial wait doubled
    [n - 1] times, at most 31, and capped; it never shrinks as failures
    accumulate and never exceeds the cap. *)
Lemma backoff_is_capped_doubling initial max_delay n m :
  0 <= initial -> 0 <= max_delay <= DURATION_MAX -> n <= m ->
  backoff initial max_delay n = Z.min (initial * 2 ^ Z.min (Z.max 0 (n - 1)) 31) max_delay
  /\ backoff initial max_delay n <= backoff initial max_delay m <= max_delay.
Proof.
  intros Hi Hmax Hn. rewrite !backoff_doubled by lia. split; [done|].
  pose proof (doubled_mono initial n m Hi Hn). lia.
Qed.

(** ** The mixed seed samples 53 bits *)
Lemma shiftr_range a k : 0 <= k -> 0 <= a < U64 -> 0 <= Z.shiftr a k < U64.
Proof.
  intros Hk Ha. rewrite Z.shiftr_div_pow2 by done.
  pose proof (Z.pow_pos_nonneg 2 k ltac:(lia) Hk). split.
  - apply Z.div_pos; lia.
  - apply Z.div_lt_upper_bound; [lia|]. nia.
Qed.

Lemma lxor_range a b : 0 <= a < U64 -> 0 <= b < U64 -> 0 <= Z.lxor a b < U64.
Proof.
  intros Ha Hb. assert (Hn : 0 <= Z.lxor a b) by (apply Z.lxor_nonneg; lia). split; [done|].
  unfold U64 in *. destruct (Z.eq_dec (Z.lxor a b) 0) as [->|Hz]; [lia|].
  apply Z.log2_lt_pow2; [lia|]. eapply Z.le_lt_trans; [apply Z.log2_lxor; lia|].
  apply Z.max_lub_lt.
  - destruct (Z.eq_dec a 0) as [->|]; [cbn; lia|]. apply Z.log2_lt_pow2; lia.
  - destruct (Z.eq_dec b 0) as [->|]; [cbn; lia|]. apply Z.log2_lt_pow2; lia.
Qed.

Lemma mod_u64 a : 0 <= a mod U64 < U64.
Proof. apply Z.mod_pos_bound. unfold U64. lia. Qed.

Lemma mix_range id n : 0 <= mix id n < U64.
Proof.
  unfold mix. apply lxor_range; [apply mod_u64|]. apply shiftr_range; [lia|apply mod_u64].
Qed.

Lemma fraction_range id n : 0 <= Z.shiftr (mix id n) 11 < 2 ^ 53.
Proof.
  pose proof (mix_range id n) as Hm. rewrite Z.shiftr_div_pow2 by lia. unfold U64 in Hm.
  change (2 ^ 64) with (2 ^ 53 * 2 ^ 11) in Hm. split; [apply Z.div_pos; lia|].
  apply Z.div_lt_upper_bound; lia.
Qed.

Section Facts.
Context `{Chrono} `{MulF64}.

Lemma jitter_bounds d id n : 0 <= d <= 2 ^ 50 -> d / 2 <= jitter d id n <= d.
Proof.
  intros Hd. unfold jitter. pose proof (fraction_range id n) as Hf.
  pose proof (Z.div_mod d 2 ltac:(lia)) as Hm. pose proof (Z.mod_pos_bound d 2 ltac:(lia)).
  pose proof (mul_f64_fraction (d / 2) (Z.shiftr (mix id n) 11) ltac:(lia) Hf). lia.
Qed.

(** ** The schedule *)
Definition deadline (s : RetrySchedule) (a : RetryAttempt) : Z := first_attempt_at a + envelope s.

Lemma wanted_bounds s a hint :
  0 < initial s -> initial s <= max_delay s <= 2 ^ 50 ->
  match hint with
  | Some h => wanted s a hint = Z.max h (initial s)
  | None => schedule_backoff s (attempt_count a) / 2 <= wanted s a hint
            <= schedule_backoff s (attempt_count a)
            /\ initial s <= schedule_backoff s (attempt_count a) <= max_delay s
  end.
Proof.
  intros Hi Hm. destruct hint as [h|]; cbn [wanted]; [done|].
  assert (Hb : initial s <= schedule_backoff s (attempt_count a) <= max_delay s).
  { unfold schedule_backoff. rewrite backoff_doubled by (unfold DURATION_MAX; lia).
    pose proof (doubled_bounds (initial s) (Z.max (attempt_count a) 1)). lia. }
  split; [apply jitter_bounds; lia|done].
Qed.

(** a retry is scheduled exactly when it can help.  For durations and dates
    within range the decision never panics; it gives a wait if and only if the
    attempt budget is not spent and the retry would start no later than the
    deadline, counted from the first attempt; the wait honours a provider's hint,
    floored at the initial wait, and is otherwise the jittered backoff, at most
    the ceiling. *)
Lemma retry_is_scheduled_inside_the_envelope s a hint now :
  0 < initial s -> initial s <= max_delay s <= 2 ^ 50 ->
  envelope s <= TIMEDELTA_MAX -> deadline s a <= TIME_MAX ->
  exists r, delay s a hint now = Some r
  /\ (forall d, r = Some d <->
        d = wanted s a hint /\ d <= TIMEDELTA_MAX /\ attempt_count a < max_attempts a
        /\ now < deadline s a /\ now + d <= deadline s a)
  /\ match hint with
     | Some h => wanted s a hint = Z.max h (initial s)
     | None => schedule_backoff s (attempt_count a) / 2 <= wanted s a hint
               <= schedule_backoff s (attempt_count a)
               /\ initial s <= schedule_backoff s (attempt_count a) <= max_delay s
     end.
Proof.
  intros Hi Hm He Hd. pose proof (wanted_bounds s a hint Hi Hm) as Hw.
  unfold delay, from_std, checked_add, deadline in *.
  destruct (Z.leb_spec (max_attempts a) (attempt_count a)).
  { eexists. split; [done|]. split; [|done]. intros d. split; [done|lia]. }
  rewrite (proj2 (Z.leb_le (envelope s) TIMEDELTA_MAX) He).
  rewrite (proj2 (Z.leb_le (first_attempt_at a + envelope s) TIME_MAX) Hd).
  cbn [mbind option_bind].
  destruct (Z.leb_spec (first_attempt_at a + envelope s) now).
  { eexists. split; [done|]. split; [|done]. intros d. split; [done|lia]. }
  destruct (Z.leb_spec (wanted s a hint) TIMEDELTA_MAX);
    [|eexists; split; [done|]; split; [|done]; intros d; split; [done|lia]].
  destruct (Z.leb_spec (now + wanted s a hint) TIME_MAX);
    [|eexists; split; [done|]; split; [|done]; intros d; split; [done|lia]].
  eexists. split; [done|]. split; [|done]. intros d.
  destruct (Z.leb_spec (now + wanted s a hint) (first_attempt_at a + envelope s)).
  - split; [intros [= <-]; lia|]. by intros (-> & _).
  - split; [done|lia].
Qed.

(** ** Lane pacing *)

(** Idle iterations since work last appeared, newest outcome last. *)
Definition idle_run (past : list (result string LaneStep)) : nat :=
  foldl (fun n o => match o with Ok Idle => S n | Ok Worked => 0%nat | Err _ => n end) 0%nat past.

(** Consecutive errors at the end of [past]. *)
Definition error_run (past : list (result string LaneStep)) : nat :=
  foldl (fun n o => match o with Ok _ => 0%nat | Err _ => S n end) 0%nat past.

(** The idle wait after [k] idle iterations. *)
Definition idle_wait (min cap : Z) (k : nat) : Z :=
  match k with O => min | S _ => Z.min (min * 2 ^ Z.of_nat k) cap end.

Lemma idle_grow_wait min cap k :
  0 <= min <= cap -> cap <= DURATION_MAX ->
  idle_grow (MkIdle (idle_wait min cap k) min cap) = MkIdle (idle_wait min cap (S k)) min cap.
Proof.
  intros Hm Hc. unfold idle_grow. cbn [current Retry.idle_min Retry.idle_cap]. f_equal.
  unfold idle_wait. rewrite (Nat2Z.inj_succ k), Z.pow_succ_r by lia.
  destruct k; [cbn; lia|].
  pose proof (Z.pow_pos_nonneg 2 (Z.of_nat (S k)) ltac:(lia) ltac:(lia)). nia.
Qed.

(** The failure state after [errors] consecutive errors. *)
Definition failing (seed : Z) (w : FailureWait) (errors : nat) : FailureState :=
  match w with
  | FixedWait d => FixedState d
  | BackoffWait initial cap =>
      BackoffState (MkLane seed (Z.min (Z.of_nat errors) U32_MAX) initial cap)
  end.

(** The wait after the [n]-th consecutive error. *)
Definition error_wait (seed : Z) (w : FailureWait) (n : nat) : Z :=
  match w with
  | FixedWait d => d
  | BackoffWait initial cap =>
      let n := Z.min (Z.of_nat n) U32_MAX in
      jitter (backoff initial cap n) seed (Z.min n I32_MAX)
  end.

(** The sleep that follows an outcome, from what happened before it. *)
Definition sleep_after (seed : Z) (p : LanePacing) (past : list (result string LaneStep))
    (o : result string LaneStep) : option Z :=
  match o with
  | Ok Idle => Some (idle_wait (pacing_min p) (pacing_cap p) (idle_run past))
  | Ok Worked => None
  | Err _ => Some (error_wait seed (failure p) (S (error_run past)))
  end.

(** The pacing state after [past]. *)
Definition paced_idle (p : LanePacing) (past : list (result string LaneStep)) : IdleDelay :=
  MkIdle (idle_wait (pacing_min p) (pacing_cap p) (idle_run past)) (pacing_min p) (pacing_cap p).

Lemma run_snoc (past : list (result string LaneStep)) o :
  idle_run (past ++ [o]) = (match o with Ok Idle => S (idle_run past) | Ok Worked => 0%nat
                                       | Err _ => idle_run past end)
  /\ error_run (past ++ [o]) = (match o with Ok _ => 0%nat | Err _ => S (error_run past) end).
Proof. unfold idle_run, error_run. by rewrite !foldl_app. Qed.

Lemma failing_reset seed w n : failure_reset (failing seed w n) = failing seed w 0.
Proof. by destruct w. Qed.

Lemma failing_next seed w n :
  failure_next_delay (failing seed w n) = (error_wait seed w (S n), failing seed w (S n)).
Proof.
  destruct w as [d|initial cap]; [done|].
  unfold failing, failure_next_delay, lane_next_delay, error_wait.
  cbn [Retry.seed consecutive_failures lane_initial lane_max].
  by replace (Z.min (Z.min (Z.of_nat n) U32_MAX + 1) U32_MAX)
    with (Z.min (Z.of_nat (S n)) U32_MAX) by (unfold U32_MAX; lia).
Qed.

Definition sane_pacing (p : LanePacing) : Prop :=
  0 <= pacing_min p <= pacing_cap p /\ pacing_cap p <= DURATION_MAX.

Lemma lane_iteration_paced seed p past o :
  sane_pacing p ->
  lane_iteration (paced_idle p past) (failing seed (failure p) (error_run past)) o
  = (sleep_after seed p past o, paced_idle p (past ++ [o]),
     failing seed (failure p) (error_run (past ++ [o]))).
Proof.
  intros [Hm Hc]. destruct (run_snoc past o) as [Ei Ee]. unfold paced_idle. rewrite Ei, Ee.
  destruct o as [[]|e]; cbn [lane_iteration sleep_after].
  - by rewrite idle_grow_wait, failing_reset by done.
  - by rewrite failing_reset.
  - by rewrite failing_next.
Qed.

(** Every sleep of a run, each from the outcomes before it. *)
Lemma lane_sleeps_paced seed p outcomes past :
  sane_pacing p ->
  lane_sleeps (paced_idle p past) (failing seed (failure p) (error_run past)) outcomes
  = imap (fun i o => sleep_after seed p (past ++ take i outcomes) o) outcomes.
Proof.
  intros Hp. revert past. induction outcomes as [|o outcomes IH]; intros past; [done|].
  cbn [lane_sleeps]. rewrite lane_iteration_paced by done. rewrite IH. cbn [imap take].
  rewrite app_nil_r. f_equal. apply imap_ext. intros i x _. cbn.
  by rewrite <- (assoc_L (++)).
Qed.

Lemma idle_wait_bounds min cap k : 0 <= min <= cap -> min <= idle_wait min cap k <= cap.
Proof.
  intros Hm. destruct k; cbn [idle_wait]; [lia|].
  pose proof (Z.pow_pos_nonneg 2 (Z.of_nat (S k)) ltac:(lia) ltac:(lia)). nia.
Qed.

Lemma error_wait_bounds seed initial cap n :
  0 < initial <= cap -> cap <= 2 ^ 50 ->
  initial / 2 <= error_wait seed (BackoffWait initial cap) n <= cap.
Proof.
  intros Hi Hc. unfold error_wait. set (m := Z.min (Z.of_nat n) U32_MAX).
  assert (Hb : initial <= backoff initial cap m <= cap).
  { rewrite backoff_doubled by (unfold DURATION_MAX; lia).
    pose proof (doubled_bounds initial m). lia. }
  pose proof (jitter_bounds (backoff initial cap m) seed (Z.min m I32_MAX) ltac:(lia)).
  pose proof (Z.div_le_mono initial (backoff initial cap m) 2). lia.
Qed.

(** a lane's pacing, for any sequence of iteration outcomes.  The lane
    starts; work is followed at once by the next iteration; an idle iteration by
    the configured minimum doubled once per idle iteration since work last
    appeared and capped (errors in between neither grow nor reset it); an error
    by the jittered backoff for its place in the current run of errors, which any
    success ends.  Every idle sleep is between the minimum and the cap, and every
    error sleep between half the initial wait and the failure cap. *)
Lemma lane_pacing seed p initial cap outcomes :
  0 <= pacing_min p <= pacing_cap p -> pacing_cap p <= DURATION_MAX ->
  failure p = BackoffWait initial cap -> 0 < initial <= cap -> cap <= 2 ^ 50 ->
  exists sleeps, run_lane seed p outcomes = Some sleeps /\ length sleeps = length outcomes
  /\ forall i o, outcomes !! i = Some o ->
     match o with
     | Ok Worked => sleeps !! i = Some None
     | Ok Idle =>
         exists d, sleeps !! i = Some (Some d) /\ pacing_min p <= d <= pacing_cap p
         /\ d = idle_wait (pacing_min p) (pacing_cap p) (idle_run (take i outcomes))
     | Err _ =>
         exists d, sleeps !! i = Some (Some d) /\ initial / 2 <= d <= cap
         /\ d = error_wait seed (failure p) (S (error_run (take i outcomes)))
     end.
Proof.
  intros Hm Hc Ef Hi Hcap. exists (imap (fun i o => sleep_after seed p (take i outcomes) o) outcomes).
  split; [|split].
  - unfold run_lane. rewrite Ef. cbn [failure_new]. unfold lane_new.
    destruct (Z.eqb_spec initial 0); [lia|]. destruct (Z.ltb_spec cap initial); [lia|].
    cbn. f_equal. pose proof (lane_sleeps_paced seed p outcomes [] ltac:(done)) as Hl.
    by rewrite Ef in Hl.
  - apply length_imap.
  - intros i o Ho. rewrite list_lookup_imap, Ho. destruct o as [[]|e]; cbn; [|done|].
    + eexists. split; [done|]. split; [by apply idle_wait_bounds|done].
    + eexists. split; [done|]. rewrite Ef. split; [by apply error_wait_bounds|done].
Qed.
End Facts.

(** ** Concrete schedules *)
Module RetryDemo.
(** A calendar up to the year 2262 and exact multiplication, rounded down. *)
#[export] Instance calendar : Chrono := { TIME_MAX := 2 ^ 63 - 1; TIMEDELTA_MAX := 2 ^ 62 }.

#[export] Program Instance exact_mul : MulF64 := { mul_f64 d u := d * u / 2 ^ 53 }.
Next Obligation.
  intros d u Hd Hu. split; [apply Z.div_pos; nia|].
  apply Z.div_le_upper_bound; [lia|]. nia.
Qed.

Definition second : Z := 1000000000.
Definition schedule : RetrySchedule := MkSchedule second (60 * second) (600 * second).
Definition third_try : RetryAttempt := MkAttempt 0x0123456789abcdef0123456789abcdef 3 5 0.
Definition pacing : LanePacing := MkPacing second (5 * second) (BackoffWait second (8 * second)).
Definition history : list (result string LaneStep) :=
  [Ok Idle; Ok Idle; Ok Idle; Ok Idle; Err "down"; Err "down"; Ok Worked; Ok Idle].

Lemma backoff_is_capped_doubling_witness :
  backoff second (8 * second) 3 = 4 * second /\ backoff second (8 * second) 40 = 8 * second
  /\ backoff second (8 * second) 3 <= backoff second (8 * second) 40 <= 8 * second.
Proof.
  split; [reflexivity|]. split; [reflexivity|].
  apply (backoff_is_capped_doubling second (8 * second) 3 40);
    unfold second, DURATION_MAX; lia.
Defined.

Lemma retry_is_scheduled_inside_the_envelope_witness :
  delay schedule third_try (Some (30 * second)) (100 * second) = Some (Some (30 * second))
  /\ delay schedule third_try (Some (30 * second)) (590 * second) = Some None
  /\ exists r, delay schedule third_try None (100 * second) = Some r
     /\ (forall d, r = Some d <->
           d = wanted schedule third_try None /\ d <= TIMEDELTA_MAX
           /\ attempt_count third_try < max_attempts third_try
           /\ 100 * second < deadline schedule third_try
           /\ 100 * second + d <= deadline schedule third_try)
     /\ schedule_backoff schedule 3 / 2 <= wanted schedule third_try None
        <= schedule_backoff schedule 3
     /\ initial schedule <= schedule_backoff schedule 3 <= max_delay schedule.
Proof.
  split; [reflexivity|]. split; [reflexivity|].
  apply (retry_is_scheduled_inside_the_envelope schedule third_try None (100 * second));
    vm_compute; intuition congruence.
Defined.

Lemma lane_pacing_witness :
  exists sleeps, run_lane 7 pacing history = Some sleeps /\ length sleeps = length history
  /\ forall i o, history !! i = Some o ->
     match o with
     | Ok Worked => sleeps !! i = Some None
     | Ok Idle =>
         exists d, sleeps !! i = Some (Some d) /\ second <= d <= 5 * second
         /\ d = idle_wait second (5 * second) (idle_run (take i history))
     | Err _ =>
         exists d, sleeps !! i = Some (Some d) /\ second / 2 <= d <= 8 * second
         /\ d = error_wait 7 (failure pacing) (S (error_run (take i history)))
     end.
Proof.
  apply (lane_pacing 7 pacing second (8 * second) history);
    first [reflexivity | unfold pacing, second, DURATION_MAX; cbn; lia].
Defined.

Example history_idle_sleeps :
  (fun sleeps => (sleeps !! 0%nat, sleeps !! 3%nat, sleeps !! 6%nat, sleeps !! 7%nat))
    <$> run_lane 7 pacing history
  = Some (Some (Some second), Some (Some (5 * second)), Some None, Some (Some second)).
Proof. vm_compute. reflexivity. Qed.
End RetryDemo.
