(* ===== verification/HostGrants.v ===== *)
(** * Host broker: identities, relative paths, blocked apps and grants

    The value types of [crates/tidebreak-host-broker]: [id.rs],
    [relative_path.rs], [blocklist.rs] and [capability.rs].  A UUID is its
    128-bit number and an identity newtype is transparent.  A path is its UTF-8
    text. *)

From S2P Require Export RustStr.

(** ** Identities and execution authority *)
Notation Uuid := N (only parsing).
Notation RootId := N (only parsing).
Notation GrantId := N (only parsing).
Notation OperationId := N (only parsing).

Definition uuid_is_nil (id : Uuid) : bool := N.eqb id 0.

Inductive IdError : Type := NilId.

Inductive SubjectKind : Type := Project | Conversation.
#[export] Instance SubjectKind_eq_dec : EqDecision SubjectKind.
Proof. solve_decision. Defined.

Record GrantSubject : Type := MkSubject { subject_kind : SubjectKind; subject_id : Uuid }.
#[export] Instance GrantSubject_eq_dec : EqDecision GrantSubject.
Proof. solve_decision. Defined.

#[export] Program Instance GrantSubject_countable : Countable GrantSubject :=
  inj_countable'
    (fun s => (match subject_kind s with Project => true | Conversation => false end, subject_id s))
    (fun p => MkSubject (if p.1 then Project else Conversation) p.2) _.
Next Obligation. by intros [[] id]. Qed.

Definition subject_new (kind : SubjectKind) (id : Uuid) : result IdError GrantSubject :=
  if uuid_is_nil id then Err NilId else Ok (MkSubject kind id).
Definition subject_conversation (id : Uuid) : result IdError GrantSubject :=
  subject_new Conversation id.

Record ExecutionContext : Type := MkContext {
  ctx_conversation : Uuid; ctx_project : option Uuid }.

Definition grant_subject_matches (c : ExecutionContext) (s : GrantSubject) : bool :=
  match subject_kind s with
  | Project => bool_decide (ctx_project c = Some (subject_id s))
  | Conversation => N.eqb (ctx_conversation c) (subject_id s)
  end.

(** ** Relative paths *)
Inductive RelativePathError : Type :=
| PathTooLong | PathAbsolute | ParentTraversal | NonPortableCharacter | NonPortableFilename.

Notation RelativePath := string (only parsing).

Definition to_ascii_upper_byte (a : ascii) : ascii :=
  if is_ascii_lowercase a then ascii_of_nat (byte_val a - 32) else a.
Fixpoint to_ascii_uppercase (s : string) : string :=
  match s with
  | EmptyString => EmptyString
  | String a s' => String (to_ascii_upper_byte a) (to_ascii_uppercase s')
  end.

(** The last three suffixes are the superscript digits. *)
Definition matches_device_number (value prefix : string) : bool :=
  match strip_prefix value prefix with
  | Some suffix =>
      str_mem suffix ["0"; "1"; "2"; "3"; "4"; "5"; "6"; "7"; "8"; "9";
                      utf8 [194; 185]; utf8 [194; 178]; utf8 [194; 179]]
  | None => false
  end.

(** A control character, or one of less-than, greater-than, double quote, bar,
    question mark and star. *)
Definition refused_char (a : ascii) : bool :=
  (byte_val a <=? 31) || existsb (Nat.eqb (byte_val a)) [60; 62; 34; 124; 63; 42].

Definition portable_filename (value : string) : bool :=
  if ends_with value "." || ends_with value " " || negb (str_all (fun a => negb (refused_char a)) value)
  then false
  else
    let upper := to_ascii_uppercase (List.hd EmptyString (split value ".")) in
    negb (str_mem upper ["CON"; "PRN"; "AUX"; "NUL"; "CONIN$"; "CONOUT$"; "CLOCK$"])
    && negb (matches_device_number upper "COM") && negb (matches_device_number upper "LPT").

Fixpoint path_segments (l : list string) : result RelativePathError (list string) :=
  match l with
  | [] => Ok []
  | segment :: l' =>
      if is_empty segment || String.eqb segment "." then path_segments l'
      else if String.eqb segment ".." then Err ParentTraversal
      else if negb (portable_filename segment) then Err NonPortableFilename
      else segments ← path_segments l'; Ok (segment :: segments)
  end.

Definition relative_path_parse (input : string) : result RelativePathError RelativePath :=
  if 1024 <? len input then Err PathTooLong
  else if starts_with input "/" then Err PathAbsolute
  else if contains_any input [ascii_of_nat 0; ascii_of_nat 92; ":"%char] then Err NonPortableCharacter
  else
    segments ← path_segments (split input "/");
    Ok (match segments with [] => "." | _ => join "/" segments end).

Definition path_is_root (p : RelativePath) : bool := String.eqb p ".".

Definition segments (p : RelativePath) : list string :=
  List.filter (fun segment => negb (String.eqb segment ".")) (split p "/").

Definition path_starts_with (candidate prefix : RelativePath) : bool :=
  let candidate := segments candidate in
  let prefix := segments prefix in
  (length prefix <=? length candidate)
  && forallb (fun lr => String.eqb lr.1 lr.2) (zip prefix candidate).

(** ** Applications computer use never reaches *)
Definition BLOCKED_CONTROL_BUNDLES : list string :=
  ["io.brightwave.tidebreak"; "com.apple.loginwindow"; "com.apple.SecurityAgent";
   "com.apple.CoreAuthUI"; "com.apple.coreauthd"; "com.apple.systempreferences";
   "com.apple.keychainaccess"].

Definition DEVELOPMENT_CONTROL_BUNDLES : list string :=
  ["com.apple.Terminal"; "com.googlecode.iterm2"; "dev.warp."; "net.kovidgoyal.kitty";
   "org.alacritty"; "io.alacritty"; "com.github.wez.wezterm"; "com.mitchellh.ghostty";
   "com.microsoft.VSCode"; "com.microsoft.VSCodeInsiders"; "com.visualstudio.code.oss";
   "com.todesktop.230313mzl4w4u92"; "com.exafunction.windsurf"; "com.apple.dt.Xcode";
   "com.jetbrains."; "com.sublimetext."; "com.panic.Nova"; "com.google.android.studio";
   "dev.zed.Zed"; "org.gnu.Emacs"; "org.vim.MacVim"; "com.runningwithcrayons.Alfred";
   "com.raycast.macos"].

Definition bundle_matches (entries : list string) (bundle_id : string) : bool :=
  existsb (fun entry =>
    let base := match strip_suffix entry "." with Some base => base | None => entry end in
    String.eqb bundle_id base
    || ((len base <? len bundle_id) && starts_with bundle_id base
        && match String.get (len base) bundle_id with
           | Some byte => Ascii.eqb byte "." | None => false end)) entries.

Definition is_blocked_control_bundle (bundle_id : string) : bool :=
  bundle_matches BLOCKED_CONTROL_BUNDLES bundle_id.
Definition is_development_control_bundle (bundle_id : string) : bool :=
  bundle_matches DEVELOPMENT_CONTROL_BUNDLES bundle_id.

(** ** Capabilities and grants *)
Inductive Capability : Type :=
| ListRoots | ReadFiles | WriteFiles | ExecuteCommands | CaptureScreen | ReadAppContent
| ControlApp.
#[export] Instance Capability_eq_dec : EqDecision Capability.
Proof. solve_decision. Defined.

Definition implies (granted requested : Capability) : bool :=
  if bool_decide (granted = requested) then true
  else match granted, requested with
       | ControlApp, ReadAppContent | ControlApp, CaptureScreen
       | ReadAppContent, CaptureScreen | CaptureScreen, ReadAppContent => true
       | _, _ => false
       end.

Inductive Scope : Type :=
| ScopeSubject
| ScopeRoot (root_id : RootId)
| ScopePathSubtree (root_id : RootId) (relative : RelativePath)
| ScopeApp (bundle_id : string)
| ScopeScreen.
#[export] Instance Scope_eq_dec : EqDecision Scope.
Proof. solve_decision. Defined.

Inductive ConsentMethod : Type :=
| FolderPicker | TrustedFolder | PermissionDialog | OperatorConfig | CarriedForward.
#[export] Instance ConsentMethod_eq_dec : EqDecision ConsentMethod.
Proof. solve_decision. Defined.

Record ConsentRecord : Type := MkConsent { consent_method : ConsentMethod; granted_at : Z }.
#[export] Instance ConsentRecord_eq_dec : EqDecision ConsentRecord.
Proof. solve_decision. Defined.

Record Grant : Type := MkGrant {
  grant_id : GrantId; grant_subject : GrantSubject; grant_capability : Capability;
  grant_scope : Scope; grant_consent : ConsentRecord; single_use : bool;
  native_app_all_sessions : bool }.
#[export] Instance Grant_eq_dec : EqDecision Grant.
Proof. solve_decision. Defined.

Inductive GrantError : Type := InvalidCapabilityScope | EmptySubtree | NilConversation.

Definition validate_capability_scope (c : Capability) (s : Scope) : result GrantError unit :=
  match c, s with
  | ListRoots, ScopeSubject => Ok tt
  | ReadFiles, ScopeRoot _ | WriteFiles, ScopeRoot _ | ExecuteCommands, ScopeRoot _ => Ok tt
  | ExecuteCommands, ScopePathSubtree _ _ => Err InvalidCapabilityScope
  | ReadFiles, ScopePathSubtree _ relative | WriteFiles, ScopePathSubtree _ relative =>
      if negb (path_is_root relative) then Ok tt else Err EmptySubtree
  | ReadAppContent, ScopeApp bundle_id | ControlApp, ScopeApp bundle_id
  | CaptureScreen, ScopeApp bundle_id =>
      if negb (trim_is_empty bundle_id) then Ok tt else Err InvalidCapabilityScope
  | CaptureScreen, ScopeScreen => Ok tt
  | _, _ => Err InvalidCapabilityScope
  end.

Definition from_consent (id : GrantId) (subject : GrantSubject) (c : Capability) (s : Scope)
    (consent : ConsentRecord) : result GrantError Grant :=
  _ ← validate_capability_scope c s;
  Ok (MkGrant id subject c s consent false false).

Definition into_single_use (g : Grant) : Grant :=
  MkGrant (grant_id g) (grant_subject g) (grant_capability g) (grant_scope g) (grant_consent g)
    true (native_app_all_sessions g).

Definition for_all_native_sessions (g : Grant) : result GrantError Grant :=
  if single_use g
     || negb (bool_decide (consent_method (grant_consent g) = PermissionDialog))
     || negb (match grant_capability g with
              | CaptureScreen | ReadAppContent | ControlApp => true | _ => false end)
     || negb (match grant_scope g with
              | ScopeApp bundle_id =>
                  negb (trim_is_empty bundle_id) && (len bundle_id <=? 256)
                  && negb (is_blocked_control_bundle bundle_id)
              | _ => false
              end)
  then Err InvalidCapabilityScope
  else Ok (MkGrant (grant_id g) (grant_subject g) (grant_capability g) (grant_scope g)
             (grant_consent g) (single_use g) true).

(** A root attached to one conversation. *)
Record RootAttachment : Type := MkAttachment { att_conversation : Uuid; att_root : RootId }.
#[export] Instance RootAttachment_eq_dec : EqDecision RootAttachment.
Proof. solve_decision. Defined.

Definition attachment_new (conversation_id : Uuid) (root_id : RootId)
    : result GrantError RootAttachment :=
  if uuid_is_nil conversation_id then Err NilConversation
  else Ok (MkAttachment conversation_id root_id).

(** What an operation asks for. *)
Inductive Resource : Type :=
| ResourceSubject
| ResourceRoot (root_id : RootId)
| ResourcePath (root_id : RootId) (relative : RelativePath).

Definition scope_covers (s : Scope) (r : Resource) : bool :=
  match s, r with
  | ScopeSubject, ResourceSubject => true
  | ScopeRoot root_id, ResourceRoot requested => N.eqb root_id requested
  | ScopeRoot root_id, ResourcePath requested _ => N.eqb root_id requested
  | ScopePathSubtree root_id relative, ResourcePath requested requested_relative =>
      N.eqb root_id requested && path_starts_with requested_relative relative
  | _, _ => false
  end.

Definition scope_targets_root (s : Scope) (requested : RootId) : bool :=
  match s with
  | ScopeRoot root_id | ScopePathSubtree root_id _ => N.eqb root_id requested
  | ScopeSubject | ScopeApp _ | ScopeScreen => false
  end.

(** ** Characters of split and joined strings *)
Lemma contains_any_all s cs :
  contains_any s cs = negb (str_all (fun a => negb (existsb (Ascii.eqb a) cs)) s).
Proof. induction s as [|a s IH]; cbn; [done|]. rewrite IH. by destruct (existsb _ cs). Qed.

Lemma str_all_split f s c : str_all f s = true -> Forall (fun p => str_all f p = true) (split s c).
Proof.
  induction s as [|a s IH]; cbn; [by repeat constructor|]. intros [Ha Hs]%andb_prop.
  specialize (IH Hs). destruct (Ascii.eqb a c); [by constructor|].
  destruct (split s c) as [|p ps]; cbn; [by repeat constructor; cbn; rewrite Ha|].
  inversion IH; subst. constructor; [|done]. cbn. by rewrite Ha.
Qed.

Lemma str_all_app f s t : str_all f (s +:+ t) = str_all f s && str_all f t.
Proof. induction s as [|a s IH]; cbn; [done|]. by rewrite IH, andb_assoc. Qed.

Lemma str_all_join f c l :
  f c = true -> Forall (fun p => str_all f p = true) l -> str_all f (join (String c "") l) = true.
Proof.
  intros Hc. induction 1 as [|p l Hp Hl IH]; [done|]. destruct l as [|q l]; [done|].
  rewrite join_cons, !str_all_app, Hp, IH. cbn. by rewrite Hc.
Qed.

(** ** Lengths *)
Definition spread (l : list string) : nat := sum_list_with (fun p => S (len p)) l.

Lemma len_join c l : l <> [] -> S (len (join (String c "") l)) = spread l.
Proof.
  induction l as [|p l IH]; [done|]. intros _. destruct l as [|q l].
  { change (S (len p) = S (len p) + 0). lia. }
  rewrite join_cons, !len_app. unfold spread in *. cbn [sum_list_with] in *.
  rewrite <- IH by done. cbn. lia.
Qed.

Lemma join_split s c : join (String c "") (split s c) = s.
Proof.
  induction s as [|a s IH]; [done|]. cbn [split].
  destruct (Ascii.eqb_spec a c) as [->|Hne]; destruct (split s c) as [|p ps] eqn:E.
  - by destruct (split_nonempty s c).
  - rewrite join_cons, IH. done.
  - by destruct (split_nonempty s c).
  - destruct ps as [|q ps]; [cbn in *; by rewrite IH|].
    rewrite join_cons in *. cbn [String.append] in *. by rewrite IH.
Qed.

Lemma spread_filter f l : spread (List.filter f l) <= spread l.
Proof.
  unfold spread. induction l as [|p l IH]; cbn; [lia|]. destruct (f p); cbn; lia.
Qed.

(** ** Parsing *)

(** A component the grammar keeps. *)
Definition kept (s : string) : bool := negb (is_empty s || String.eqb s ".").

Definition component (s : string) : Prop :=
  s <> "" /\ s <> "." /\ s <> ".." /\ portable_filename s = true.

Lemma path_segments_Ok l segs :
  path_segments l = Ok segs -> segs = List.filter kept l /\ Forall component segs.
Proof.
  revert segs. induction l as [|s l IH]; intros segs; cbn; [by intros [= <-]|].
  unfold kept at 1. destruct (is_empty s) eqn:Ee; cbn; [apply IH|].
  destruct (String.eqb_spec s ".") as [|H1]; cbn; [apply IH|].
  destruct (String.eqb_spec s "..") as [|H2]; [done|].
  destruct (portable_filename s) eqn:Ep; cbn; [|done].
  destruct (path_segments l) as [segs'|]; cbn; [|done]. intros [= <-].
  destruct (IH segs' eq_refl) as [-> Hf]. split; [done|]. constructor; [|done].
  split_and!; try done. by destruct s.
Qed.

Lemma component_kept s : component s -> kept s = true.
Proof.
  intros (H1 & H2 & _). unfold kept. destruct (String.eqb_spec s "."); [done|]. by destruct s.
Qed.

Lemma path_segments_components l : Forall component l -> path_segments l = Ok l.
Proof.
  induction 1 as [|s l Hs Hl IH]; cbn; [done|]. pose proof (component_kept s Hs) as Hk.
  unfold kept in Hk. rewrite negb_true_iff in Hk. rewrite Hk.
  destruct Hs as (_ & _ & H2 & ->). destruct (String.eqb_spec s ".."); [done|].
  cbn. by rewrite IH.
Qed.

Lemma filter_all {A} (f : A -> bool) l : Forall (fun x => f x = true) l -> List.filter f l = l.
Proof. induction 1 as [|x l Hx Hl IH]; cbn; [done|]. by rewrite Hx, IH. Qed.

Lemma filter_Forall {A} (f : A -> bool) (P : A -> Prop) l :
  Forall P l -> Forall P (List.filter f l).
Proof. induction 1 as [|x l Hx Hl IH]; cbn; [done|]. destruct (f x); [by constructor|done]. Qed.

(** The characters the grammar refuses: NUL, backslash and colon. *)
Definition grammar_char (a : ascii) : bool :=
  negb (existsb (Ascii.eqb a) [ascii_of_nat 0; ascii_of_nat 92; ":"%char]).

(** The segments of a parsed path, as a joined list. *)
Lemma parsed_segments segs :
  Forall component segs -> Forall (free_of "/") segs ->
  segments (match segs with [] => "." | _ => join "/" segs end) = segs.
Proof.
  intros Hc Hf. unfold segments. destruct segs as [|s l]; [done|].
  rewrite split_join by done. apply filter_all. eapply Forall_impl; [exact Hc|].
  intros x (_ & Hx & _). by destruct (String.eqb_spec x ".").
Qed.

Lemma reparse segs :
  Forall component segs -> Forall (free_of "/") segs ->
  Forall (fun p => str_all grammar_char p = true) segs -> spread segs <= 1025 ->
  let p := match segs with [] => "." | _ => join "/" segs end in
  relative_path_parse p = Ok p.
Proof.
  intros Hc Hf Hg Hlen. destruct segs as [|s l]; [done|]. cbn zeta.
  set (p := join "/" (s :: l)). unfold relative_path_parse.
  assert (Hl : S (len p) = spread (s :: l)) by (by apply (len_join "/"%char)).
  destruct (Nat.ltb_spec 1024 (len p)); [lia|].
  assert (Hsw : starts_with p "/" = false).
  { inversion Hc as [|? ? (Hs & _) _]; inversion Hf as [|? ? Hfs _]; subst.
    destruct s as [|a s]; [done|]. apply free_of_cons in Hfs as [Ha _].
    assert (E : exists rest, p = String a rest) by (unfold p; destruct l; eauto).
    destruct E as [rest ->]. unfold starts_with. cbn [strip_prefix].
    by rewrite (proj2 (Ascii.eqb_neq "/" a)) by congruence. }
  rewrite Hsw, contains_any_all.
  assert (Ha : str_all grammar_char p = true)
    by (unfold p; apply str_all_join; [reflexivity|done]).
  unfold grammar_char in Ha. rewrite Ha. cbn [negb].
  unfold p. rewrite split_join by done. by rewrite path_segments_components.
Qed.

(** a path that parses has one meaning.  Its segments are the components of
    the input, in order, without the empty and [.] ones; each is a portable
    filename, none is [..], and none contains a separator, a backslash, a colon or
    NUL.  The parsed path is those segments joined, or [.] for the root, and
    parsing it again gives it back. *)
Lemma relative_path_canonical input p :
  relative_path_parse input = Ok p ->
  segments p = List.filter kept (split input "/")
  /\ Forall component (segments p)
  /\ Forall (fun s => free_of "/" s /\ str_all grammar_char s = true) (segments p)
  /\ p = (match segments p with [] => "." | _ => join "/" (segments p) end)
  /\ relative_path_parse p = Ok p.
Proof.
  unfold relative_path_parse at 1. destruct (Nat.ltb_spec 1024 (len input)); [done|].
  destruct (starts_with input "/"); [done|]. rewrite contains_any_all.
  destruct (str_all _ input) eqn:Ha; cbn [negb]; [|done].
  destruct (path_segments (split input "/")) as [segs|] eqn:Es; cbn; [|done]. intros [= Hp].
  destruct (path_segments_Ok _ _ Es) as [Hs Hc].
  assert (Hf : Forall (free_of "/") segs).
  { rewrite Hs. apply filter_Forall, split_all_free. }
  assert (Hg : Forall (fun q => str_all grammar_char q = true) segs).
  { rewrite Hs. apply filter_Forall. by apply str_all_split. }
  assert (Hlen : spread segs <= 1025).
  { rewrite Hs. etransitivity; [apply spread_filter|].
    rewrite <- (len_join "/" (split input "/")) by apply split_nonempty. rewrite join_split. lia. }
  assert (Eseg : segments p = segs) by (rewrite <- Hp; by apply parsed_segments).
  rewrite Eseg. split_and!; [done|done|by apply Forall_and|done|].
  rewrite <- Hp. by apply reparse.
Qed.

(** ** Scopes *)
Lemma zip_prefix (l k : list string) :
  (length l <=? length k) && forallb (fun lr => String.eqb lr.1 lr.2) (zip l k) = true
  <-> l `prefix_of` k.
Proof.
  revert k. induction l as [|x l IH]; intros k; cbn.
  - split; [intros _; apply prefix_nil|done].
  - destruct k as [|y k]; cbn.
    + split; [done|]. by intros []%prefix_nil_not.
    + destruct (String.eqb_spec x y) as [->|Hne]; cbn.
      * rewrite IH. split; [apply prefix_cons|apply prefix_cons_inv_2].
      * rewrite andb_false_r. split; [done|]. by intros ?%prefix_cons_inv_1.
Qed.

Lemma path_starts_with_true p q : path_starts_with p q = true <-> segments q `prefix_of` segments p.
Proof. apply zip_prefix. Qed.

(** Covering the resources of a root takes a scope over that root. *)
Lemma covers_targets sc r root_id :
  match r with ResourceRoot i | ResourcePath i _ => i = root_id | ResourceSubject => False end ->
  scope_covers sc r = true -> scope_targets_root sc root_id = true.
Proof.
  destruct r as [|i|i p]; [done| |]; intros <-; destruct sc; cbn; try done.
  by intros [-> _]%andb_prop.
Qed.
