(* ===== verification/HostBroker.v ===== *)
(** * Host broker: the authority registry and its operations

    [crates/tidebreak-host-broker/src/broker.rs]: the [State] of registered
    roots, grants, conversation attachments, mutation receipts and settled
    positions, the control operations that change it, and the authorization
    every agent operation goes through.

    One definition is one critical section under the state lock.  A control
    operation clones the state, edits the clone and commits it; [commit_state]
    takes what saving the state file answered ([None] for success or for a broker
    without a file), and a save whose outcome is unknown closes the broker for
    good.  [register_root] and [write_file] release the lock for host I/O, so
    each is two definitions.  What the host answers (an opened directory, a
    finished write), the random identities drawn and the clock are inputs.

    Left out: the audit records around each request, the session tables of the
    computer-use confirmations and captures, and the file format.  A poisoned
    lock (a panic in another thread) is not modelled. *)

From S2P Require Export HostGrants.

(** ** Errors *)

(** The kinds of [io::Error] the code tells apart. *)
Inductive IoKind : Type :=
| IoNotFound | IoPermissionDenied | IoInterrupted | IoWouldBlock | IoTimedOut | IoOther.

Inductive RootPolicyError : Type :=
| TooBroad | NotAbsolute | SensitiveLocation | WholeUserProfile | RootIo (kind : IoKind)
| UnsupportedPlatform | UnsupportedNamespace | MissingKnownFolder (name : string)
| AdministrativeShare | NonPortableComponent | ShortNameAlias.

Inductive BackendErrorKind : Type :=
| BPermissionDenied | BNotFound | BInvalidRequest | BStaleElement | BYielded
| BTargetOutsideApp | BRequiresForeground | BOperationFailed | BUnsupported.

Inductive ErrorCode : Type :=
| EProtocolVersion | EOperationIdConflict | EOperationInProgress | EDenied | EInvalidRequest
| EInvalidRoot | ETooLarge | EUnsupportedContent | EHostIo | EInternal | EAlreadyExists
| ENotFound | EAmbiguousWrite | EAuditUnavailable | EOsPermissionDenied | EStaleElement
| EYielded | ERequiresForeground.

Record ErrorResponse : Type := MkError { code : ErrorCode; message : string; retryable : bool }.

Inductive BrokerError : Type :=
| ProtocolVersion (received expected : N) | OperationIdConflict | OperationInProgress | Denied
| UnknownRoot | SubjectConversationMismatch | InvalidConsentMethod | StatePoisoned
| PersistenceAmbiguous | StateTooLarge | NotRegularFile | FileTooLarge (maximum : N) | NotUtf8
| DirectoryTooLarge | RootListTooLarge | RootPolicy (error : RootPolicyError)
| InvalidGrant (error : GrantError) | Audit | Io (kind : IoKind) | DestinationExists
| DestinationMissing | ReplacementApprovalRequired | InvalidWriteContent | AmbiguousWrite
| StoredWriteFailure (error : ErrorResponse) | BlockedApp
| ComputerUse (kind : BackendErrorKind) (text : string)
| UnknownConfirmation | StaleTarget | InvalidCuRequest.

Definition transient_io_kind (kind : IoKind) : bool :=
  match kind with IoInterrupted | IoWouldBlock | IoTimedOut => true | _ => false end.

Definition error_response (error : BrokerError) : ErrorResponse :=
  match error with
  | ProtocolVersion _ _ => MkError EProtocolVersion "broker protocol version mismatch" false
  | OperationIdConflict =>
      MkError EOperationIdConflict "operation identity was reused for a different mutation" false
  | OperationInProgress => MkError EOperationInProgress "operation is already in progress" true
  | Denied => MkError EDenied "host operation was denied" false
  | UnknownRoot => MkError EInvalidRoot "connected root is unavailable" false
  | SubjectConversationMismatch | InvalidConsentMethod | InvalidGrant _ =>
      MkError EInvalidRequest "host operation request is invalid" false
  | RootPolicy (RootIo kind) =>
      MkError EHostIo "host filesystem operation failed" (transient_io_kind kind)
  | RootPolicy _ =>
      MkError EInvalidRoot "selected folder is not an allowed connected root" false
  | FileTooLarge _ | DirectoryTooLarge | RootListTooLarge | StateTooLarge =>
      MkError ETooLarge "host operation exceeded its limit" false
  | NotRegularFile | NotUtf8 =>
      MkError EUnsupportedContent "host resource has an unsupported content type" false
  | Io kind => MkError EHostIo "host filesystem operation failed" (transient_io_kind kind)
  | DestinationExists => MkError EAlreadyExists "write destination already exists" false
  | DestinationMissing => MkError ENotFound "write destination does not exist" false
  | ReplacementApprovalRequired | InvalidWriteContent =>
      MkError EInvalidRequest "write request is invalid" false
  | AmbiguousWrite =>
      MkError EAmbiguousWrite "write outcome is ambiguous and will not be replayed" false
  | StoredWriteFailure error => error
  | BlockedApp => MkError EDenied "this application cannot be captured, read, or controlled" false
  | UnknownConfirmation =>
      MkError ENotFound "the confirmation is unknown or was already used" false
  | StaleTarget =>
      MkError EStaleElement "the target element changed after confirmation; retry the action" true
  | InvalidCuRequest => MkError EInvalidRequest "computer-use request parameters are invalid" false
  | ComputerUse kind text =>
      match kind with
      | BPermissionDenied =>
          MkError EOsPermissionDenied
            (if str_mem text ["Accessibility permission is not granted";
                              "Screen Recording permission is not granted"]
             then text else "an OS permission required for this operation is not granted") true
      | BNotFound => MkError ENotFound "the target app, window, or display was not found" false
      | BInvalidRequest =>
          MkError EInvalidRequest "the computer-use request was rejected as malformed" false
      | BStaleElement =>
          MkError EStaleElement
            "the target element moved or changed; re-read the accessibility tree" true
      | BYielded =>
          MkError EYielded "computer control stopped before the operation could finish" false
      | BTargetOutsideApp =>
          MkError EInvalidRequest
            "the target point is not inside a window owned by the granted app" false
      | BRequiresForeground =>
          MkError ERequiresForeground
            ("the action cannot run in the background without taking over the user's focus or "
             +:+ "pointer; nothing was performed") false
      | BOperationFailed =>
          MkError EInternal "the computer-use operation failed on the host" true
      | BUnsupported => MkError EInternal "computer use is not available on this build" false
      end
  | StatePoisoned => MkError EInternal "broker state is unavailable; restart the broker" false
  | PersistenceAmbiguous =>
      MkError EInternal "broker state publication is ambiguous; restart the broker" false
  | Audit =>
      MkError EAuditUnavailable
        "the host audit log could not be written, so the operation was refused" true
  end.

Definition retryable_registration_error (error : BrokerError) : bool :=
  match error with RootPolicy (RootIo kind) => transient_io_kind kind | _ => false end.

Definition lift_grant {A} (r : result GrantError A) : result BrokerError A :=
  match r with Ok a => Ok a | Err e => Err (InvalidGrant e) end.

(** ** State *)
Inductive RootIdentity : Type :=
| UnixIdentity (device inode : N)
| WindowsIdentity (volume file_index : N).
#[export] Instance RootIdentity_eq_dec : EqDecision RootIdentity.
Proof. solve_decision. Defined.

(** The pinned directory handle is the identity's; only the path and the
    identity are looked at. *)
Record ValidatedRoot : Type := MkValidated { canonical_path : string; identity : RootIdentity }.

Record RegisteredRoot : Type := MkRoot {
  owner : GrantSubject; display_name : string; root : ValidatedRoot }.

Inductive UnavailableRootReason : Type :=
| Missing | ReasonPermissionDenied | HostIo | Rejected | Replaced.

Record UnavailableRoot : Type := MkUnavailable {
  un_id : RootId; un_owner : GrantSubject; un_path : string; un_identity : RootIdentity;
  un_reason : UnavailableRootReason; un_grants : list Grant;
  un_attachments : list RootAttachment }.

Record RootSummary : Type := MkSummary {
  sum_root_id : RootId; sum_display_name : string; sum_owner : option GrantSubject }.
Record RegisterRootResult : Type := MkRegisterResult { reg_root : RootSummary }.
Record RevokeRootResult : Type := MkRevokeResult { revoked : bool }.

Inductive RootAttachmentMutationKind : Type := Attach | Detach.
#[export] Instance MutationKind_eq_dec : EqDecision RootAttachmentMutationKind.
Proof. solve_decision. Defined.

Record RootAttachmentMutationResult : Type := MkAttachmentResult {
  atr_root_id : RootId; atr_mutation : RootAttachmentMutationKind; atr_changed : bool }.

Inductive WriteFileMode : Type := Create | Replace.
#[export] Instance WriteFileMode_eq_dec : EqDecision WriteFileMode.
Proof. solve_decision. Defined.
Record WriteFileResult : Type := MkWriteResult {
  wr_operation_id : OperationId; wr_bytes : N; wr_replaced : bool }.

(** What identifies a request, beside its operation identity. *)
Record RegisterFingerprint : Type := MkRegisterFp {
  rf_subject : GrantSubject; rf_conversation : Uuid; rf_path : string;
  rf_consent : ConsentMethod }.
Record RevokeFingerprint : Type := MkRevokeFp { vf_subject : GrantSubject; vf_root : RootId }.
Record AttachmentFingerprint : Type := MkAttachmentFp {
  af_subject : GrantSubject; af_conversation : Uuid; af_root : RootId;
  af_mutation : RootAttachmentMutationKind; af_consent : option ConsentMethod }.
Record WriteFingerprint : Type := MkWriteFp {
  wf_context : ExecutionContext; wf_root : RootId; wf_path : RelativePath;
  wf_mode : WriteFileMode; wf_approval : option Uuid; wf_byte_len : N; wf_sha256 : list N }.

#[export] Instance ExecutionContext_eq_dec : EqDecision ExecutionContext.
Proof. solve_decision. Defined.
#[export] Instance RegisterFingerprint_eq_dec : EqDecision RegisterFingerprint.
Proof. solve_decision. Defined.
#[export] Instance RevokeFingerprint_eq_dec : EqDecision RevokeFingerprint.
Proof. solve_decision. Defined.
#[export] Instance AttachmentFingerprint_eq_dec : EqDecision AttachmentFingerprint.
Proof. solve_decision. Defined.
#[export] Instance WriteFingerprint_eq_dec : EqDecision WriteFingerprint.
Proof. solve_decision. Defined.

Inductive MutationOutcome (T : Type) : Type :=
| Pending
| Complete (result : result ErrorResponse T).
Arguments Pending {T}.
Arguments Complete {T} result.

Inductive MutationRecord : Type :=
| MRegister (request : RegisterFingerprint) (outcome : MutationOutcome RegisterRootResult)
| MRevoke (request : RevokeFingerprint) (outcome : MutationOutcome RevokeRootResult)
| MAttachment (request : AttachmentFingerprint)
    (outcome : MutationOutcome RootAttachmentMutationResult)
| MWrite (request : WriteFingerprint) (outcome : MutationOutcome WriteFileResult).

Record State : Type := MkState {
  roots : gmap RootId RegisteredRoot;
  grants : list Grant;
  attachments : list RootAttachment;
  mutations : gmap OperationId MutationRecord;
  receipt_order : list OperationId;
  active_mutations : gset OperationId;
  unavailable : list UnavailableRoot;
  settled : gset (GrantSubject * RootId) }.

Definition state_default : State := MkState ∅ [] [] ∅ [] ∅ [] ∅.

Definition set_roots x s := MkState x (grants s) (attachments s) (mutations s)
  (receipt_order s) (active_mutations s) (unavailable s) (settled s).
Definition set_grants x s := MkState (roots s) x (attachments s) (mutations s)
  (receipt_order s) (active_mutations s) (unavailable s) (settled s).
Definition set_attachments x s := MkState (roots s) (grants s) x (mutations s)
  (receipt_order s) (active_mutations s) (unavailable s) (settled s).
Definition set_mutations x s := MkState (roots s) (grants s) (attachments s) x
  (receipt_order s) (active_mutations s) (unavailable s) (settled s).
Definition set_receipt_order x s := MkState (roots s) (grants s) (attachments s) (mutations s)
  x (active_mutations s) (unavailable s) (settled s).
Definition set_active x s := MkState (roots s) (grants s) (attachments s) (mutations s)
  (receipt_order s) x (unavailable s) (settled s).
Definition set_unavailable x s := MkState (roots s) (grants s) (attachments s) (mutations s)
  (receipt_order s) (active_mutations s) x (settled s).
Definition set_settled x s := MkState (roots s) (grants s) (attachments s) (mutations s)
  (receipt_order s) (active_mutations s) (unavailable s) x.

(** [Vec::retain] *)
Definition retain {A} (f : A -> bool) (l : list A) : list A := List.filter f l.
(** [before != after] on the lengths around a [retain]. *)
Definition shrank {A} (before after : list A) : bool := negb (length after =? length before).

Record Shared : Type := MkShared {
  execute_commands : bool; state : State; failed_closed : bool }.

Definition set_state (s : State) (sh : Shared) : Shared :=
  MkShared (execute_commands sh) s (failed_closed sh).

Definition lock_state (sh : Shared) : result BrokerError State :=
  if failed_closed sh then Err PersistenceAmbiguous else Ok (state sh).

Definition commit_state (save : option BrokerError) (sh : Shared) (next : State)
    : result BrokerError unit * Shared :=
  match save with
  | Some PersistenceAmbiguous =>
      (Err PersistenceAmbiguous, MkShared (execute_commands sh) (state sh) true)
  | Some error => (Err error, sh)
  | None => (Ok tt, set_state next sh)
  end.

(** [commit_state(..).map_err(error_response)?; Ok(value)] *)
Definition commit_with {A} (save : option BrokerError) (sh : Shared) (next : State)
    (value : result ErrorResponse A) : result ErrorResponse A * Shared :=
  match commit_state save sh next with
  | (Err error, sh') => (Err (error_response error), sh')
  | (Ok _, sh') => (value, sh')
  end.

(** ** Queries on the state *)
Definition has_root_attachment (s : State) (conversation_id : Uuid) (root_id : RootId) : bool :=
  existsb (fun a => N.eqb (att_conversation a) conversation_id && N.eqb (att_root a) root_id)
    (attachments s).

Definition is_root_scope (s : Scope) (root_id : RootId) : bool :=
  match s with ScopeRoot granted => N.eqb granted root_id | _ => false end.

Definition holds_root_grant (gs : list Grant) (subject : GrantSubject) (c : Capability)
    (root_id : RootId) : bool :=
  existsb (fun g => bool_decide (grant_subject g = subject)
                    && bool_decide (grant_capability g = c)
                    && is_root_scope (grant_scope g) root_id) gs.

Definition subject_has_root_grant (s : State) (subject : GrantSubject) (root_id : RootId) : bool :=
  holds_root_grant (grants s) subject ReadFiles root_id.

Definition subject_has_any_root_grant (s : State) (subject : GrantSubject) (root_id : RootId)
    : bool :=
  existsb (fun g => bool_decide (grant_subject g = subject)
                    && scope_targets_root (grant_scope g) root_id) (grants s).

Definition holds_list_grant (gs : list Grant) (subject : GrantSubject) : bool :=
  existsb (fun g => bool_decide (grant_subject g = subject)
                    && bool_decide (grant_capability g = ListRoots)
                    && bool_decide (grant_scope g = ScopeSubject)) gs.

Definition validate_subject_conversation (subject : GrantSubject) (conversation_id : Uuid)
    : result BrokerError unit :=
  if uuid_is_nil conversation_id
     || (bool_decide (subject_kind subject = Conversation)
         && negb (N.eqb (subject_id subject) conversation_id))
  then Err SubjectConversationMismatch else Ok tt.

(** ** Authorization *)
Definition attached (s : State) (c : ExecutionContext) (r : Resource) : bool :=
  match r with
  | ResourceSubject => true
  | ResourceRoot root_id | ResourcePath root_id _ =>
      has_root_attachment s (ctx_conversation c) root_id
  end.

Definition authorize (s : State) (context : ExecutionContext) (c : Capability) (r : Resource)
    : result BrokerError GrantId :=
  if negb (attached s context r) then Err Denied
  else ok_or (grant_id <$> List.find (fun g =>
         grant_subject_matches context (grant_subject g)
         && bool_decide (grant_capability g = c)
         && scope_covers (grant_scope g) r) (grants s)) Denied.

Definition authorize_write (s : State) (context : ExecutionContext) (root_id : RootId)
    (path : RelativePath) : result BrokerError GrantId :=
  grant_id ← authorize s context WriteFiles (ResourcePath root_id path);
  _ ← ok_or (roots s !! root_id) Denied;
  Ok grant_id.

(** [Operator::authorized_root] and [reauthorize]; duplicating the pinned
    directory handle is the host's. *)
Definition authorized_root (sh : Shared) (context : ExecutionContext) (root_id : RootId)
    (path : RelativePath) : result BrokerError (ValidatedRoot * GrantId) :=
  s ← lock_state sh;
  grant_id ← authorize s context ReadFiles (ResourcePath root_id path);
  r ← ok_or (roots s !! root_id) Denied;
  Ok (root r, grant_id).

Definition reauthorize (sh : Shared) (context : ExecutionContext) (root_id : RootId)
    (path : RelativePath) : result BrokerError GrantId :=
  s ← lock_state sh;
  grant_id ← authorize s context ReadFiles (ResourcePath root_id path);
  _ ← ok_or (roots s !! root_id) Denied;
  Ok grant_id.

Definition authorize_exec_reach (s : State) (context : ExecutionContext) (root_id : RootId)
    : result BrokerError GrantId :=
  _ ← authorize s context ReadFiles (ResourceRoot root_id);
  authorize s context ExecuteCommands (ResourceRoot root_id).

Definition root_capabilities (s : State) (context : ExecutionContext) (root_id : RootId)
    (execute_commands : bool) : list Capability :=
  List.filter (fun c => is_ok (authorize s context c (ResourceRoot root_id)))
    [ReadFiles; WriteFiles]
  ++ (if execute_commands && is_ok (authorize_exec_reach s context root_id)
      then [ExecuteCommands] else []).

Record ResolvedExecRoot : Type := MkExecRoot {
  er_root_id : RootId; er_path : string; er_writable : bool }.

Definition MAX_RESOLVE_EXEC_ROOTS : nat := 32.

(** The loop of [resolve_exec_roots]; [current] is [canonical_path_if_current],
    the host's answer to reopening a root's path. *)
Fixpoint resolve_loop (current : ValidatedRoot -> result IoKind string) (s : State)
    (context : ExecutionContext) (seen : gset RootId) (ids : list RootId)
    : result BrokerError (list ResolvedExecRoot) :=
  match ids with
  | [] => Ok []
  | root_id :: ids =>
      if bool_decide (root_id ∈ seen) || negb (is_ok (authorize_exec_reach s context root_id))
      then resolve_loop current s context ({[root_id]} ∪ seen) ids
      else match roots s !! root_id with
           | None => resolve_loop current s context ({[root_id]} ∪ seen) ids
           | Some r =>
               match current (root r) with
               | Err kind => Err (Io kind)
               | Ok path =>
                   rest ← resolve_loop current s context ({[root_id]} ∪ seen) ids;
                   Ok (MkExecRoot root_id path
                         (is_ok (authorize s context WriteFiles (ResourceRoot root_id))) :: rest)
               end
           end
  end.

Definition resolve_exec_roots (current : ValidatedRoot -> result IoKind string) (s : State)
    (context : ExecutionContext) (ids : list RootId) : result BrokerError (list ResolvedExecRoot) :=
  if MAX_RESOLVE_EXEC_ROOTS <? length ids then Err RootListTooLarge
  else resolve_loop current s context ∅ ids.

(** Computer use: one app, or the whole display. *)
Definition authorize_computer_use (s : State) (context : ExecutionContext) (c : Capability)
    (bundle_id : string) : result BrokerError GrantId :=
  ok_or (grant_id <$> List.find (fun g =>
    (native_app_all_sessions g || grant_subject_matches context (grant_subject g))
    && bool_decide (grant_scope g = ScopeApp bundle_id)
    && implies (grant_capability g) c) (grants s)) Denied.

Definition authorize_cu_screen (s : State) (context : ExecutionContext)
    : result BrokerError GrantId :=
  ok_or (grant_id <$> List.find (fun g =>
    grant_subject_matches context (grant_subject g)
    && bool_decide (grant_scope g = ScopeScreen)
    && bool_decide (grant_capability g = CaptureScreen)) (grants s)) Denied.

Definition validate_bundle_id (bundle_id : string) : result BrokerError unit :=
  if trim_is_empty bundle_id || (256 <? len bundle_id) then Err InvalidCuRequest else Ok tt.

Definition require_unblocked (bundle_id : string) : result BrokerError unit :=
  if is_blocked_control_bundle bundle_id then Err BlockedApp else Ok tt.

Definition cu_grant_scope (c : Capability) (bundle_id : option string)
    : result BrokerError Scope :=
  match c, bundle_id with
  | CaptureScreen, Some bundle_id | ReadAppContent, Some bundle_id | ControlApp, Some bundle_id =>
      _ ← validate_bundle_id bundle_id; Ok (ScopeApp bundle_id)
  | CaptureScreen, None => Ok ScopeScreen
  | _, _ => Err InvalidCuRequest
  end.

(** ** Default access *)

(** The four [GrantId::new()] an arrival may draw. *)
Record FreshIds : Type := MkFresh { f_list : GrantId; f_read : GrantId; f_write : GrantId;
                                    f_exec : GrantId }.

Definition mint (missing : bool) (id : GrantId) (subject : GrantSubject) (c : Capability)
    (s : Scope) (consent : ConsentRecord) (gs : list Grant) : result BrokerError (list Grant) :=
  if missing then g ← lift_grant (from_consent id subject c s consent); Ok (gs ++ [g]) else Ok gs.

Definition ensure_subject_grants (s : State) (subject : GrantSubject) (root_id : RootId)
    (consent : ConsentRecord) (execute_commands : bool) (ids : FreshIds)
    : result BrokerError State :=
  gs ← mint (negb (holds_list_grant (grants s) subject)) (f_list ids) subject ListRoots
         ScopeSubject consent (grants s);
  gs ← mint (negb (holds_root_grant gs subject ReadFiles root_id)) (f_read ids) subject ReadFiles
         (ScopeRoot root_id) consent gs;
  gs ← mint (negb (holds_root_grant gs subject WriteFiles root_id)) (f_write ids) subject
         WriteFiles (ScopeRoot root_id) consent gs;
  gs ← mint (execute_commands && negb (holds_root_grant gs subject ExecuteCommands root_id))
         (f_exec ids) subject ExecuteCommands (ScopeRoot root_id) consent gs;
  Ok (set_grants gs s).

Definition ensure_default_subject_grants (s : State) (subject : GrantSubject) (root_id : RootId)
    (consent : ConsentRecord) (execute_commands : bool) (ids : FreshIds)
    : result BrokerError State :=
  let was_settled := bool_decide ((subject, root_id) ∈ settled s)
                     || subject_has_any_root_grant s subject root_id in
  let s := set_settled ({[(subject, root_id)]} ∪ settled s) s in
  if was_settled then Ok s
  else ensure_subject_grants s subject root_id consent execute_commands ids.

(** ** Receipts *)
Definition MAX_RETAINED_MUTATION_RECEIPTS : nat := 2048.

Definition is_prunable_receipt (record : MutationRecord) : bool :=
  match record with
  | MAttachment _ (Complete _) | MWrite _ (Complete _) => true
  | _ => false
  end.

Fixpoint prune_mutation_receipts (ms : gmap OperationId MutationRecord) (order : list OperationId)
    : gmap OperationId MutationRecord * list OperationId :=
  match order with
  | [] => (ms, [])
  | operation_id :: rest =>
      if MAX_RETAINED_MUTATION_RECEIPTS <? length order
      then prune_mutation_receipts (delete operation_id ms) rest
      else (ms, order)
  end.

Definition retain_mutation_receipt (s : State) (operation_id : OperationId) : State :=
  let '(ms, order) := prune_mutation_receipts (mutations s) (receipt_order s ++ [operation_id]) in
  set_receipt_order order (set_mutations ms s).

Inductive Claim (T : Type) : Type :=
| Start
| Done (result : result ErrorResponse T).
Arguments Start {T}.
Arguments Done {T} result.

(** [active_mutations.insert(id)]: whether the identity was new to the set. *)
Definition activate {A} (s : State) (id : OperationId) (start : A) : result BrokerError A * State :=
  if bool_decide (id ∈ active_mutations s) then (Err OperationInProgress, s)
  else (Ok start, set_active ({[id]} ∪ active_mutations s) s).

Definition begin_mutation (s : State) (id : OperationId) (record : MutationRecord) : State :=
  set_active ({[id]} ∪ active_mutations s) (set_mutations (<[id := record]> (mutations s)) s).

Definition end_mutation (s : State) (id : OperationId) (record : MutationRecord) : State :=
  set_active (active_mutations s ∖ {[id]}) (set_mutations (<[id := record]> (mutations s)) s).

Definition claim_register (s : State) (id : OperationId) (request : RegisterFingerprint)
    : result BrokerError (Claim RegisterRootResult) * State :=
  match mutations s !! id with
  | None => (Ok Start, begin_mutation s id (MRegister request Pending))
  | Some (MRegister existing outcome) =>
      if bool_decide (existing = request) then
        match outcome with
        | Complete result => (Ok (Done result), s)
        | Pending => activate s id Start
        end
      else (Err OperationIdConflict, s)
  | Some _ => (Err OperationIdConflict, s)
  end.

Definition complete_register (s : State) (id : OperationId) (request : RegisterFingerprint)
    (result : result ErrorResponse RegisterRootResult) : Prelude.result BrokerError State :=
  match mutations s !! id with
  | Some (MRegister existing Pending) =>
      if bool_decide (existing = request)
      then Ok (end_mutation s id (MRegister existing (Complete result)))
      else Err OperationIdConflict
  | _ => Err OperationIdConflict
  end.

Definition claim_revoke (s : State) (id : OperationId) (request : RevokeFingerprint)
    : result BrokerError (Claim RevokeRootResult) * State :=
  match mutations s !! id with
  | None => (Ok Start, begin_mutation s id (MRevoke request Pending))
  | Some (MRevoke existing outcome) =>
      if bool_decide (existing = request) then
        match outcome with
        | Complete result => (Ok (Done result), s)
        | Pending => activate s id Start
        end
      else (Err OperationIdConflict, s)
  | Some _ => (Err OperationIdConflict, s)
  end.

Definition complete_revoke (s : State) (id : OperationId) (request : RevokeFingerprint)
    (result : result ErrorResponse RevokeRootResult) : Prelude.result BrokerError State :=
  match mutations s !! id with
  | Some (MRevoke existing Pending) =>
      if bool_decide (existing = request)
      then Ok (end_mutation s id (MRevoke existing (Complete result)))
      else Err OperationIdConflict
  | _ => Err OperationIdConflict
  end.

Definition attachment_target_matches (stored requested : AttachmentFingerprint) : bool :=
  bool_decide (af_subject stored = af_subject requested)
  && N.eqb (af_conversation stored) (af_conversation requested)
  && N.eqb (af_root stored) (af_root requested)
  && bool_decide (af_mutation stored = af_mutation requested).

Definition attachment_mutation_matches (stored requested : AttachmentFingerprint) : bool :=
  attachment_target_matches stored requested
  && (bool_decide (af_consent stored = af_consent requested)
      || (bool_decide (af_mutation stored = Attach)
          && bool_decide (af_consent stored = None)
          && match af_consent requested with Some _ => true | None => false end)).

Definition claim_attachment (s : State) (id : OperationId) (request : AttachmentFingerprint)
    : result BrokerError (Claim RootAttachmentMutationResult) * State :=
  match mutations s !! id with
  | None => (Ok Start, begin_mutation s id (MAttachment request Pending))
  | Some (MAttachment existing outcome) =>
      if attachment_mutation_matches existing request then
        match outcome with
        | Complete result => (Ok (Done result), s)
        | Pending => activate s id Start
        end
      else (Err OperationIdConflict, s)
  | Some _ => (Err OperationIdConflict, s)
  end.

Definition complete_attachment (s : State) (id : OperationId) (request : AttachmentFingerprint)
    (result : result ErrorResponse RootAttachmentMutationResult)
    : Prelude.result BrokerError State :=
  match mutations s !! id with
  | Some (MAttachment existing Pending) =>
      if attachment_mutation_matches existing request
      then Ok (retain_mutation_receipt
                 (end_mutation s id (MAttachment existing (Complete result))) id)
      else Err OperationIdConflict
  | _ => Err OperationIdConflict
  end.

Inductive WriteClaim : Type :=
| WriteDispatch (recovering : bool)
| WriteComplete (result : result ErrorResponse WriteFileResult).

Definition claim_write (s : State) (id : OperationId) (request : WriteFingerprint)
    : result BrokerError WriteClaim * State :=
  match mutations s !! id with
  | None => (Ok (WriteDispatch false), begin_mutation s id (MWrite request Pending))
  | Some (MWrite existing outcome) =>
      if bool_decide (existing = request) then
        match outcome with
        | Complete result => (Ok (WriteComplete result), s)
        | Pending => activate s id (WriteDispatch true)
        end
      else (Err OperationIdConflict, s)
  | Some _ => (Err OperationIdConflict, s)
  end.

Definition complete_write (s : State) (id : OperationId) (request : WriteFingerprint)
    (result : result ErrorResponse WriteFileResult) : Prelude.result BrokerError State :=
  match mutations s !! id with
  | Some (MWrite existing Pending) =>
      if bool_decide (existing = request)
      then Ok (retain_mutation_receipt
                 (end_mutation s id (MWrite existing (Complete result))) id)
      else Err OperationIdConflict
  | _ => Err OperationIdConflict
  end.
