(* ===== verification/HostControl.v ===== *)
(** * Host broker: control operations and writes

    The operations of [Controller] in
    [crates/tidebreak-host-broker/src/broker.rs] that change the registry
    (registering, attaching, detaching, revoking, purging, widening and the
    computer-use grants) and the agent's [write_file], over the state and the
    queries of [HostBroker].  The last section puts them together as a step
    relation with a label per request. *)

From S2P Require Export HostBroker.

(** What the code takes from the host's path library and from the [base64] and
    [sha2] crates. *)
Class HostPaths := {
  file_name : string -> option string;       (* [Path::file_name], lossy text *)
  base64_decode : string -> option (list N);
  sha256 : list N -> list N
}.

Section Control.
Context `{HostPaths}.

(** ** Registering a root *)
Record RegisterRootRequest : Type := MkRegister {
  rr_operation_id : OperationId; rr_subject : GrantSubject; rr_conversation : Uuid;
  rr_path : string; rr_consent : ConsentMethod }.

Definition register_fingerprint (r : RegisterRootRequest) : RegisterFingerprint :=
  MkRegisterFp (rr_subject r) (rr_conversation r) (rr_path r) (rr_consent r).

Definition MAX_ROOT_DISPLAY_BYTES : nat := 1024.

Fixpoint boundary_at_most (name : string) (n : nat) : nat :=
  if is_char_boundary name n then n
  else match n with O => O | S n => boundary_at_most name n end.

Definition root_display_name (path : string) : string :=
  let name := default "Connected folder" (file_name path) in
  if len name <=? MAX_ROOT_DISPLAY_BYTES then name
  else str_take (boundary_at_most name MAX_ROOT_DISPLAY_BYTES) name.

Record PreparedRegistration : Type := MkPrepared {
  pr_conversation : Uuid; pr_root_id : RootId; pr_root : RegisteredRoot; pr_grants : list Grant;
  pr_attachment : RootAttachment }.

(** [opened] is what [open_root] answered for the path, [root_id] and [ids] the
    identities drawn, [now] the clock. *)
Definition prepare_registration (execute_commands : bool)
    (opened : result RootPolicyError ValidatedRoot) (root_id : RootId) (ids : FreshIds) (now : Z)
    (request : RegisterRootRequest) : result BrokerError PreparedRegistration :=
  if bool_decide (subject_kind (rr_subject request) = Conversation)
     && negb (N.eqb (subject_id (rr_subject request)) (rr_conversation request))
  then Err SubjectConversationMismatch
  else if negb (match rr_consent request with FolderPicker | OperatorConfig => true | _ => false end)
  then Err InvalidConsentMethod
  else match opened with
       | Err e => Err (RootPolicy e)
       | Ok validated =>
           let consent := MkConsent (rr_consent request) now in
           let grant id c s := lift_grant (from_consent id (rr_subject request) c s consent) in
           list_grant ← grant (f_list ids) ListRoots ScopeSubject;
           read_grant ← grant (f_read ids) ReadFiles (ScopeRoot root_id);
           write_grant ← grant (f_write ids) WriteFiles (ScopeRoot root_id);
           exec_grants ←
             (if execute_commands
              then g ← grant (f_exec ids) ExecuteCommands (ScopeRoot root_id); Ok [g]
              else Ok []);
           attachment ← lift_grant (attachment_new (rr_conversation request) root_id);
           Ok (MkPrepared (rr_conversation request) root_id
                 (MkRoot (rr_subject request) (root_display_name (canonical_path validated))
                    validated)
                 ([list_grant; read_grant; write_grant] ++ exec_grants) attachment)
       end.

(** [min_by_key]: the entry of the least key. *)
Definition alias_key (candidate_owner : GrantSubject) (e : RootId * RegisteredRoot) : bool * N :=
  (negb (bool_decide (owner e.2 = candidate_owner)), e.1).
Definition key_lt (a b : bool * N) : bool :=
  match a.1, b.1 with
  | false, true => true
  | true, false => false
  | _, _ => (a.2 <? b.2)%N
  end.

Definition min_alias (candidate_owner : GrantSubject) (l : list (RootId * RegisteredRoot))
    : option (RootId * RegisteredRoot) :=
  foldl (fun best e =>
    match best with
    | None => Some e
    | Some b => if key_lt (alias_key candidate_owner e) (alias_key candidate_owner b)
                then Some e else Some b
    end) None l.

Definition preferred_root_alias (s : State) (candidate : RegisteredRoot)
    : option (RootId * RegisteredRoot) :=
  min_alias (owner candidate)
    (List.filter (fun e => bool_decide (identity (root e.2) = identity (root candidate)))
       (map_to_list (roots s))).

(** The registration applied to the state: the answer and the state, or an error
    that leaves the operation without an outcome. *)
Definition apply_registration (execute_commands : bool) (ids : FreshIds) (s : State)
    (subject : GrantSubject) (prepared : PreparedRegistration)
    : result BrokerError (RegisterRootResult * State) :=
  match preferred_root_alias s (pr_root prepared) with
  | Some (root_id, existing) =>
      s ← (if has_root_attachment s (pr_conversation prepared) root_id then Ok s
           else
             s ← match pr_grants prepared with
                 | g :: _ => ensure_default_subject_grants s (owner (pr_root prepared)) root_id
                               (grant_consent g) execute_commands ids
                 | [] => Err Denied (* [prepared.grants[0]] on an empty list *)
                 end;
             attachment ← lift_grant (attachment_new (pr_conversation prepared) root_id);
             Ok (set_attachments (attachments s ++ [attachment]) s));
      Ok (MkRegisterResult
            (MkSummary root_id (display_name existing) (Some (owner existing))), s)
  | None =>
      let s := set_roots (<[pr_root_id prepared := pr_root prepared]> (roots s)) s in
      let s := set_grants (grants s ++ pr_grants prepared) s in
      let s := set_attachments (attachments s ++ [pr_attachment prepared]) s in
      let s := set_settled ({[(subject, pr_root_id prepared)]} ∪ settled s) s in
      Ok (MkRegisterResult
            (MkSummary (pr_root_id prepared) (display_name (pr_root prepared))
               (Some (owner (pr_root prepared)))), s)
  end.

(** The first section: claim the operation. [Ok None] goes on to the host. *)
Definition register_begin (save : option BrokerError) (sh : Shared)
    (request : RegisterRootRequest)
    : result ErrorResponse (option (result ErrorResponse RegisterRootResult)) * Shared :=
  match lock_state sh with
  | Err e => (Err (error_response e), sh)
  | Ok s =>
      match claim_register s (rr_operation_id request) (register_fingerprint request) with
      | (Err e, _) => (Err (error_response e), sh)
      | (Ok (Done result), _) => (Ok (Some result), sh)
      | (Ok Start, next) => commit_with save sh next (Ok None)
      end
  end.

Definition deactivate (id : OperationId) (s : State) : State :=
  set_active (active_mutations s ∖ {[id]}) s.

(** The second section, on what the preparation gave; [alias_ids] are the grant
    identities drawn when the folder is already registered. *)
Definition register_finish (save : option BrokerError) (sh : Shared)
    (request : RegisterRootRequest) (alias_ids : FreshIds)
    (prepared : result BrokerError PreparedRegistration)
    : result ErrorResponse RegisterRootResult * Shared :=
  let id := rr_operation_id request in
  match lock_state sh with
  | Err e => (Err (error_response e), sh)
  | Ok s =>
      match prepared with
      | Err error =>
          if retryable_registration_error error then
            (Err (error_response error), set_state (deactivate id s) sh)
          else
            match complete_register s id (register_fingerprint request)
                    (Err (error_response error)) with
            | Err e => (Err (error_response e), sh)
            | Ok next =>
                match commit_state save sh next with
                | (Err e, sh') => (Err (error_response e), set_state (deactivate id (state sh')) sh')
                | (Ok _, sh') => (Err (error_response error), sh')
                end
            end
      | Ok prepared =>
          match apply_registration (execute_commands sh) alias_ids s (rr_subject request) prepared with
          | Err e => (Err (error_response e), sh)
          | Ok (outcome, next) =>
              match complete_register next id (register_fingerprint request) (Ok outcome) with
              | Err e => (Err (error_response e), sh)
              | Ok next =>
                  match commit_state save sh next with
                  | (Err e, sh') =>
                      (Err (error_response e), set_state (deactivate id (state sh')) sh')
                  | (Ok _, sh') => (Ok outcome, sh')
                  end
              end
          end
      end
  end.

(** ** Attaching and detaching *)
Record RootAttachmentMutationRequest : Type := MkAttachRequest {
  ar_operation_id : OperationId; ar_subject : GrantSubject; ar_conversation : Uuid;
  ar_root : RootId; ar_consent : option ConsentMethod }.

Definition detach_unavailable (conversation_id root_id : Uuid) (l : list UnavailableRoot)
    : bool * list UnavailableRoot :=
  let kept u := retain (fun a => negb (N.eqb (att_conversation a) conversation_id))
                  (un_attachments u) in
  (existsb (fun u => N.eqb (un_id u) root_id && shrank (un_attachments u) (kept u)) l,
   map (fun u => if N.eqb (un_id u) root_id
                 then MkUnavailable (un_id u) (un_owner u) (un_path u) (un_identity u)
                        (un_reason u) (un_grants u) (kept u)
                 else u) l).

Definition apply_root_attachment (execute_commands : bool) (ids : FreshIds) (now : Z) (s : State)
    (request : AttachmentFingerprint) : result BrokerError (RootAttachmentMutationResult * State) :=
  _ ← validate_subject_conversation (af_subject request) (af_conversation request);
  '(changed, s) ←
    match af_mutation request with
    | Attach =>
        _ ← ok_or (roots s !! af_root request) UnknownRoot;
        method ← ok_or (af_consent request) InvalidConsentMethod;
        if bool_decide (method = CarriedForward) then Err InvalidConsentMethod
        else if has_root_attachment s (af_conversation request) (af_root request)
        then Ok (false, s)
        else
          s ← ensure_default_subject_grants s (af_subject request) (af_root request)
                (MkConsent method now) execute_commands ids;
          attachment ← lift_grant (attachment_new (af_conversation request) (af_root request));
          Ok (true, set_attachments (attachments s ++ [attachment]) s)
    | Detach =>
        match af_consent request with
        | Some _ => Err InvalidConsentMethod
        | None =>
            let kept := retain (fun a => negb (N.eqb (att_conversation a) (af_conversation request))
                                         || negb (N.eqb (att_root a) (af_root request)))
                          (attachments s) in
            let '(detached, unavailable') :=
              detach_unavailable (af_conversation request) (af_root request) (unavailable s) in
            Ok (shrank (attachments s) kept || detached,
                set_unavailable unavailable' (set_attachments kept s))
        end
    end;
  Ok (MkAttachmentResult (af_root request) (af_mutation request) changed, s).

(** No path edits the clone and then fails: a root-scoped grant and an attachment
    of the conversation validated above are never refused. *)
Definition state_after_attachment (s : State)
    (r : result BrokerError (RootAttachmentMutationResult * State)) : State :=
  match r with Ok (_, s') => s' | Err _ => s end.

Definition mutate_root_attachment (save : option BrokerError) (ids : FreshIds) (now : Z)
    (sh : Shared) (request : RootAttachmentMutationRequest) (mutation : RootAttachmentMutationKind)
    : result ErrorResponse RootAttachmentMutationResult * Shared :=
  let fingerprint := MkAttachmentFp (ar_subject request) (ar_conversation request)
                       (ar_root request) mutation (ar_consent request) in
  match lock_state sh with
  | Err e => (Err (error_response e), sh)
  | Ok s =>
      match claim_attachment s (ar_operation_id request) fingerprint with
      | (Err e, _) => (Err (error_response e), sh)
      | (Ok (Done result), _) => (result, sh)
      | (Ok Start, next) =>
          let applied := apply_root_attachment (execute_commands sh) ids now next fingerprint in
          let result := match applied with
                        | Ok (r, _) => Ok r
                        | Err e => Err (error_response e)
                        end in
          match complete_attachment (state_after_attachment next applied)
                  (ar_operation_id request) fingerprint result with
          | Err e => (Err (error_response e), sh)
          | Ok next => commit_with save sh next result
          end
      end
  end.

(** ** Revoking *)
Definition has_physical_root_alias (s : State) (root_id : RootId) : bool :=
  match roots s !! root_id with
  | None => false
  | Some r =>
      existsb (fun e => negb (N.eqb e.1 root_id)
                        && bool_decide (identity (root e.2) = identity (root r)))
        (map_to_list (roots s))
  end.

Definition forget_root (root_id : RootId) (s : State) : State :=
  MkState (delete root_id (roots s))
    (retain (fun g => negb (scope_targets_root (grant_scope g) root_id)) (grants s))
    (retain (fun a => negb (N.eqb (att_root a) root_id)) (attachments s))
    (mutations s) (receipt_order s) (active_mutations s)
    (unavailable s)
    (filter (fun e => e.2 <> root_id) (settled s)).

Definition revoke_root (save : option BrokerError) (sh : Shared) (operation_id : OperationId)
    (subject : GrantSubject) (root_id : RootId) : result ErrorResponse RevokeRootResult * Shared :=
  let fingerprint := MkRevokeFp subject root_id in
  match lock_state sh with
  | Err e => (Err (error_response e), sh)
  | Ok s =>
      match claim_revoke s operation_id fingerprint with
      | (Err e, _) => (Err (error_response e), sh)
      | (Ok (Done result), _) => (result, sh)
      | (Ok Start, next) =>
          let owned := match roots next !! root_id with
                       | Some r => bool_decide (owner r = subject) | None => false end in
          let set_aside := existsb (fun u => N.eqb (un_id u) root_id
                                             && bool_decide (un_owner u = subject))
                             (unavailable next) in
          let revoked := set_aside || (owned && negb (has_physical_root_alias next root_id)) in
          let next :=
            if revoked then
              forget_root root_id
                (set_unavailable (retain (fun u => negb (N.eqb (un_id u) root_id))
                                    (unavailable next)) next)
            else next in
          let result := Ok (MkRevokeResult revoked) in
          match complete_revoke next operation_id fingerprint result with
          | Err e => (Err (error_response e), sh)
          | Ok next => commit_with save sh next result
          end
      end
  end.

(** [grants.remove(index)] at the first match, with what was removed. *)
Fixpoint remove_first (f : Grant -> bool) (l : list Grant) : option (Grant * list Grant) :=
  match l with
  | [] => None
  | g :: l => if f g then Some (g, l)
              else '(removed, l') ← remove_first f l; Some (removed, g :: l')
  end.

Definition reads_root (subject : GrantSubject) (root_id : RootId) (g : Grant) : bool :=
  bool_decide (grant_subject g = subject) && bool_decide (grant_capability g = ReadFiles)
  && scope_targets_root (grant_scope g) root_id.

Definition executes_root (subject : GrantSubject) (root_id : RootId) (g : Grant) : bool :=
  bool_decide (grant_subject g = subject) && bool_decide (grant_capability g = ExecuteCommands)
  && is_root_scope (grant_scope g) root_id.

(** The root a grant's scope is over. *)
Definition scope_root (s : Scope) : option RootId :=
  match s with ScopeRoot root_id | ScopePathSubtree root_id _ => Some root_id | _ => None end.

Definition remove_grant_statement (gs : list Grant) (subject : GrantSubject) (id : GrantId)
    : bool * list Grant :=
  match remove_first (fun g => N.eqb (grant_id g) id && bool_decide (grant_subject g = subject)) gs
  with
  | None => (false, gs)
  | Some (removed, gs) =>
      (true,
       if bool_decide (grant_capability removed = ReadFiles) then
         match scope_root (grant_scope removed) with
         | Some root_id =>
             if existsb (reads_root subject root_id) gs then gs
             else retain (fun g => negb (executes_root subject root_id g)) gs
         | None => gs
         end
       else gs)
  end.

(** [iter_mut().any(..)], which stops at the first root that had the grant. *)
Fixpoint remove_unavailable (subject : GrantSubject) (id : GrantId) (l : list UnavailableRoot)
    : bool * list UnavailableRoot :=
  match l with
  | [] => (false, [])
  | u :: l =>
      match remove_grant_statement (un_grants u) subject id with
      | (true, gs) =>
          (true, MkUnavailable (un_id u) (un_owner u) (un_path u) (un_identity u) (un_reason u)
                   gs (un_attachments u) :: l)
      | (false, _) => let '(b, l') := remove_unavailable subject id l in (b, u :: l')
      end
  end.

Definition revoke_grant (save : option BrokerError) (sh : Shared) (subject : GrantSubject)
    (id : GrantId) : result ErrorResponse bool * Shared :=
  match lock_state sh with
  | Err e => (Err (error_response e), sh)
  | Ok s =>
      match remove_grant_statement (grants s) subject id with
      | (true, gs) => commit_with save sh (set_grants gs s) (Ok true)
      | (false, _) =>
          match remove_unavailable subject id (unavailable s) with
          | (true, l) => commit_with save sh (set_unavailable l s) (Ok true)
          | (false, _) => (Ok false, sh)
          end
      end
  end.

(** ** Purging a conversation *)
Definition purge_unavailable (subject : GrantSubject) (conversation_id : Uuid)
    (u : UnavailableRoot) : UnavailableRoot :=
  MkUnavailable (un_id u) (un_owner u) (un_path u) (un_identity u) (un_reason u)
    (retain (fun g => negb (bool_decide (grant_subject g = subject))) (un_grants u))
    (retain (fun a => negb (N.eqb (att_conversation a) conversation_id)) (un_attachments u)).

Definition still_attached (s : State) (root_id : RootId) : bool :=
  existsb (fun a => N.eqb (att_root a) root_id) (attachments s)
  || existsb (fun u => N.eqb (un_id u) root_id
                       && match un_attachments u with [] => false | _ => true end) (unavailable s).

(** One pass of the loop over the registrations the conversation owns. *)
Definition drop_owned (cs : bool * State) (root_id : RootId) : bool * State :=
  let '(changed, s) := cs in
  if still_attached s root_id then (changed, s)
  else match roots s !! root_id with
       | Some _ => (true, forget_root root_id s)
       | None => (changed, s)
       end.

Definition owned_roots (s : State) (subject : GrantSubject) : list RootId :=
  map fst (List.filter (fun e => bool_decide (owner e.2 = subject)) (map_to_list (roots s))).

Definition owned_unavailable (s : State) (subject : GrantSubject) : list RootId :=
  map un_id (List.filter (fun u => bool_decide (un_owner u = subject)
                                   && match un_attachments u with [] => true | _ => false end)
               (unavailable s)).

Definition purge (subject : GrantSubject) (conversation_id : Uuid) (s : State) : bool * State :=
  let gs := retain (fun g => negb (bool_decide (grant_subject g = subject))
                             || native_app_all_sessions g) (grants s) in
  let atts := retain (fun a => negb (N.eqb (att_conversation a) conversation_id))
                (attachments s) in
  let unavailable' := map (purge_unavailable subject conversation_id) (unavailable s) in
  let changed :=
    shrank (grants s) gs || shrank (attachments s) atts
    || existsb (fun u => shrank (un_grants u) (un_grants (purge_unavailable subject conversation_id u))
                         || shrank (un_attachments u)
                              (un_attachments (purge_unavailable subject conversation_id u)))
         (unavailable s) in
  let s := MkState (roots s) gs atts (mutations s) (receipt_order s) (active_mutations s)
             unavailable' (filter (fun e => e.1 <> subject) (settled s)) in
  let '(changed, s) := foldl drop_owned (changed, s) (owned_roots s subject) in
  let ids := owned_unavailable s subject in
  match ids with
  | [] => (changed, s)
  | _ =>
      (true,
       set_grants (foldl (fun gs root_id =>
                     retain (fun g => negb (scope_targets_root (grant_scope g) root_id)) gs)
                     (grants s) ids)
         (set_unavailable (retain (fun u => negb (existsb (N.eqb (un_id u)) ids)) (unavailable s))
            s))
  end.

Definition purge_conversation_subject (save : option BrokerError) (sh : Shared)
    (conversation_id : Uuid) : result ErrorResponse bool * Shared :=
  match subject_conversation conversation_id with
  | Err _ => (Err (error_response SubjectConversationMismatch), sh)
  | Ok subject =>
      match lock_state sh with
      | Err e => (Err (error_response e), sh)
      | Ok s =>
          let '(changed, next) := purge subject conversation_id s in
          if changed then commit_with save sh next (Ok true) else (Ok false, sh)
      end
  end.

(** ** Widening *)
Record GrantRootCapabilityRequest : Type := MkWiden {
  gr_subject : GrantSubject; gr_conversation : Uuid; gr_root : RootId;
  gr_capability : Capability; gr_consent : ConsentMethod }.

Definition grant_root_capability (save : option BrokerError) (id : GrantId) (now : Z) (sh : Shared)
    (request : GrantRootCapabilityRequest) : result ErrorResponse bool * Shared :=
  match validate_subject_conversation (gr_subject request) (gr_conversation request) with
  | Err e => (Err (error_response e), sh)
  | Ok _ =>
      if negb (bool_decide (gr_consent request = PermissionDialog))
      then (Err (error_response InvalidConsentMethod), sh)
      else match lock_state sh with
      | Err e => (Err (error_response e), sh)
      | Ok s =>
          match roots s !! gr_root request with
          | None => (Err (error_response UnknownRoot), sh)
          | Some _ =>
              if negb (has_root_attachment s (gr_conversation request) (gr_root request))
              then (Err (error_response Denied), sh)
              else if bool_decide (gr_capability request = ExecuteCommands)
                      && negb (execute_commands sh)
              then (Err (error_response Denied), sh)
              else if holds_root_grant (grants s) (gr_subject request) (gr_capability request)
                        (gr_root request)
              then (Ok false, sh)
              else match lift_grant (from_consent id (gr_subject request) (gr_capability request)
                           (ScopeRoot (gr_root request)) (MkConsent (gr_consent request) now)) with
                   | Err e => (Err (error_response e), sh)
                   | Ok g => commit_with save sh (set_grants (grants s ++ [g]) s) (Ok true)
                   end
          end
      end
  end.

(** ** Computer-use grants *)
Record CuGrantAppRequest : Type := MkCuGrant {
  cg_subject : GrantSubject; cg_capability : Capability; cg_bundle_id : option string;
  cg_consent : ConsentMethod; cg_single_use : bool; cg_all_sessions : bool }.

Definition same_tuple (request : CuGrantAppRequest) (scope : Scope) (g : Grant) : bool :=
  Bool.eqb (native_app_all_sessions g) (cg_all_sessions request)
  && (cg_all_sessions request || bool_decide (grant_subject g = cg_subject request))
  && bool_decide (grant_capability g = cg_capability request)
  && bool_decide (grant_scope g = scope).

Definition check_bundle (bundle_id : option string) : result BrokerError unit :=
  match bundle_id with
  | Some bundle_id =>
      _ ← validate_bundle_id bundle_id;
      if is_blocked_control_bundle bundle_id then Err BlockedApp else Ok tt
  | None => Ok tt
  end.

Definition cu_new_grant (id : GrantId) (now : Z) (request : CuGrantAppRequest) (scope : Scope)
    : result BrokerError Grant :=
  g ← lift_grant (from_consent id (cg_subject request) (cg_capability request) scope
                    (MkConsent (cg_consent request) now));
  let g := if cg_single_use request then into_single_use g else g in
  if cg_all_sessions request then lift_grant (for_all_native_sessions g) else Ok g.

Definition cu_grant_app (save : option BrokerError) (id : GrantId) (now : Z) (sh : Shared)
    (request : CuGrantAppRequest) : result BrokerError (bool * GrantId) * Shared :=
  if negb (bool_decide (cg_consent request = PermissionDialog)) then (Err InvalidConsentMethod, sh)
  else match (_ ← check_bundle (cg_bundle_id request);
              cu_grant_scope (cg_capability request) (cg_bundle_id request)) with
  | Err e => (Err e, sh)
  | Ok scope =>
      if cg_all_sessions request
         && (cg_single_use request || match cg_bundle_id request with None => true | _ => false end)
      then (Err InvalidCuRequest, sh)
      else match lock_state sh with
      | Err e => (Err e, sh)
      | Ok s =>
          match List.find (fun g => same_tuple request scope g && negb (single_use g)) (grants s) with
          | Some existing => (Ok (false, grant_id existing), sh)
          | None =>
              let one_shot g := same_tuple request scope g && single_use g in
              match (if cg_single_use request then List.find one_shot (grants s) else None) with
              | Some existing => (Ok (false, grant_id existing), sh)
              | None =>
                  let kept := if cg_single_use request then grants s
                              else retain (fun g => negb (one_shot g)) (grants s) in
                  match cu_new_grant id now request scope with
                  | Err e => (Err e, sh)
                  | Ok g =>
                      match commit_state save sh (set_grants (kept ++ [g]) s) with
                      | (Err e, sh') => (Err e, sh')
                      | (Ok _, sh') => (Ok (true, grant_id g), sh')
                      end
                  end
              end
          end
      end
  end.

Definition cu_revoke_app (save : option BrokerError) (sh : Shared) (subject : GrantSubject)
    (c : Capability) (bundle_id : option string) : result BrokerError bool * Shared :=
  match cu_grant_scope c bundle_id with
  | Err e => (Err e, sh)
  | Ok scope =>
      match lock_state sh with
      | Err e => (Err e, sh)
      | Ok s =>
          let matching g := negb (native_app_all_sessions g)
                            && bool_decide (grant_subject g = subject)
                            && bool_decide (grant_capability g = c)
                            && bool_decide (grant_scope g = scope) in
          let next := set_grants (retain (fun g => negb (matching g)) (grants s)) s in
          if shrank (grants s) (grants next) then
            if forallb single_use (List.filter matching (grants s)) then
              (Ok true, set_state next sh)
            else match commit_state save sh next with
                 | (Err e, sh') => (Err e, sh')
                 | (Ok _, sh') => (Ok true, sh')
                 end
          else (Ok false, sh)
      end
  end.

(** [Shared::consume_single_use_grant] *)
Definition consume_single_use_grant (sh : Shared) (id : option GrantId)
    : result BrokerError unit * Shared :=
  match id with
  | None => (Ok tt, sh)
  | Some id =>
      if failed_closed sh then (Err PersistenceAmbiguous, sh)
      else if negb (existsb (fun g => N.eqb (grant_id g) id && single_use g) (grants (state sh)))
      then (Ok tt, sh)
      else (Ok tt, set_state (set_grants (retain (fun g => negb (N.eqb (grant_id g) id))
                                           (grants (state sh))) (state sh)) sh)
  end.

(** ** [write_file] *)
Record WriteFileRequest : Type := MkWrite {
  wq_operation_id : OperationId; wq_root : RootId; wq_path : RelativePath; wq_mode : WriteFileMode;
  wq_approval : option Uuid; wq_content_base64 : string; wq_bytes : N; wq_sha256 : list N }.

Definition MAX_WRITE_FILE_BYTES : N := 512 * 1024.

Definition decode_write_content (request : WriteFileRequest) : result BrokerError (list N) :=
  if path_is_root (wq_path request) || N.eqb (wq_bytes request) 0
     || (MAX_WRITE_FILE_BYTES <? wq_bytes request)%N
     || (4 * MAX_WRITE_FILE_BYTES / 3 + 8 <? N.of_nat (len (wq_content_base64 request)))%N
  then Err InvalidWriteContent
  else match base64_decode (wq_content_base64 request) with
       | None => Err InvalidWriteContent
       | Some content =>
           if negb (N.eqb (N.of_nat (length content)) (wq_bytes request))
              || negb (bool_decide (sha256 content = wq_sha256 request))
           then Err InvalidWriteContent else Ok content
       end.

Definition check_approval (request : WriteFileRequest) : result BrokerError unit :=
  match wq_mode request with
  | Replace => match wq_approval request with
               | Some id => if uuid_is_nil id then Err ReplacementApprovalRequired else Ok tt
               | None => Err ReplacementApprovalRequired
               end
  | Create => match wq_approval request with
              | Some _ => Err ReplacementApprovalRequired
              | None => Ok tt
              end
  end.

Definition write_fingerprint (context : ExecutionContext) (request : WriteFileRequest)
    : WriteFingerprint :=
  MkWriteFp context (wq_root request) (wq_path request) (wq_mode request) (wq_approval request)
    (wq_bytes request) (wq_sha256 request).

Inductive WriteStage : Type :=
| WriteGo (recovering : bool)
| WriteAnswered (result : result ErrorResponse WriteFileResult).

Definition write_begin (save : option BrokerError) (sh : Shared) (context : ExecutionContext)
    (request : WriteFileRequest) : result BrokerError WriteStage * Shared :=
  match (_ ← decode_write_content request; _ ← check_approval request; lock_state sh) with
  | Err e => (Err e, sh)
  | Ok s =>
      match claim_write s (wq_operation_id request) (write_fingerprint context request) with
      | (Err e, _) => (Err e, sh)
      | (Ok (WriteComplete result), _) => (Ok (WriteAnswered result), sh)
      | (Ok (WriteDispatch recovering), next) =>
          match authorize_write next context (wq_root request) (wq_path request) with
          | Err e => (Err e, sh)
          | Ok _ =>
              match commit_state save sh next with
              | (Err e, sh') => (Err e, sh')
              | (Ok _, sh') => (Ok (WriteGo recovering), sh')
              end
          end
      end
  end.

(** What the host answers in the second section: duplicating the handle,
    [atomic_write_connected_file] and [destination_matches]. *)
Record WriteHost : Type := MkWriteHost {
  wh_clone : option IoKind; wh_write : result BrokerError bool; wh_matches : bool }.

Definition write_terminal (host : WriteHost) (request : WriteFileRequest) (recovering : bool)
    : result ErrorResponse WriteFileResult :=
  let found := MkWriteResult (wq_operation_id request) (wq_bytes request)
                 (bool_decide (wq_mode request = Replace)) in
  if recovering then
    if wh_matches host then Ok found else Err (error_response AmbiguousWrite)
  else match wh_write host with
       | Ok replaced => Ok (MkWriteResult (wq_operation_id request) (wq_bytes request) replaced)
       | Err e => if wh_matches host then Ok found else Err (error_response e)
       end.

(** The answer, the broker after it, and whether the file was written to. *)
Definition write_finish (save : option BrokerError) (sh : Shared) (host : WriteHost)
    (context : ExecutionContext) (request : WriteFileRequest) (recovering : bool)
    : result BrokerError (WriteFileResult * option GrantId) * Shared * bool :=
  let fingerprint := write_fingerprint context request in
  let finish s terminal grant (touched : bool) :=
    match complete_write s (wq_operation_id request) fingerprint terminal with
    | Err e => (Err e, sh, touched)
    | Ok next =>
        match commit_state save sh next with
        | (Err e, sh') => (Err e, sh', touched)
        | (Ok _, sh') =>
            (match terminal with
             | Ok r => Ok (r, grant)
             | Err e => Err (StoredWriteFailure e)
             end, sh', touched)
        end
    end in
  match lock_state sh with
  | Err e => (Err e, sh, false)
  | Ok s =>
      match authorize_write s context (wq_root request) (wq_path request) with
      | Err error => finish s (Err (error_response error)) None false
      | Ok grant_id =>
          match wh_clone host with
          | Some kind => (Err (Io kind), sh, false)
          | None =>
              finish s (write_terminal host request recovering) (Some grant_id) (negb recovering)
          end
      end
  end.

(** ** The broker as a transition system *)

(** A root identity never used before, as a random one is. *)
Definition fresh_root (s : State) (root_id : RootId) : Prop :=
  roots s !! root_id = None
  /\ Forall (fun g => scope_targets_root (grant_scope g) root_id = false) (grants s)
  /\ Forall (fun a => att_root a <> root_id) (attachments s)
  /\ (forall subject, (subject, root_id) ∉ settled s).

(** What a step does to consent: widen one subject's access to one root, forget
    a root, purge a conversation, or neither. *)
Inductive Label : Type :=
| LWiden (subject : GrantSubject) (root_id : RootId)
| LForget (root_id : RootId)
| LPurge (conversation_id : Uuid)
| LOther.

Inductive bstep : Label -> Shared -> Shared -> Prop :=
| b_register_begin save sh request :
    bstep LOther sh (register_begin save sh request).2
| b_register_finish save sh request alias_ids opened root_id ids now :
    fresh_root (state sh) root_id ->
    bstep LOther sh
      (register_finish save sh request alias_ids
         (prepare_registration (execute_commands sh) opened root_id ids now request)).2
| b_attach save ids now sh request mutation :
    bstep LOther sh (mutate_root_attachment save ids now sh request mutation).2
| b_revoke_root save sh operation_id subject root_id :
    bstep (LForget root_id) sh (revoke_root save sh operation_id subject root_id).2
| b_revoke_grant save sh subject id :
    bstep LOther sh (revoke_grant save sh subject id).2
| b_purge save sh conversation_id :
    bstep (LPurge conversation_id) sh (purge_conversation_subject save sh conversation_id).2
| b_widen save id now sh request :
    bstep (LWiden (gr_subject request) (gr_root request)) sh
      (grant_root_capability save id now sh request).2
| b_cu_grant save id now sh request :
    bstep LOther sh (cu_grant_app save id now sh request).2
| b_cu_revoke save sh subject c bundle_id :
    bstep LOther sh (cu_revoke_app save sh subject c bundle_id).2
| b_consume sh id :
    bstep LOther sh (consume_single_use_grant sh id).2
| b_write_begin save sh context request :
    bstep LOther sh (write_begin save sh context request).2
| b_write_finish save sh host context request recovering :
    bstep LOther sh (write_finish save sh host context request recovering).1.2.

(** A run, with its labels. *)
Inductive bsteps : list Label -> Shared -> Shared -> Prop :=
| b_refl sh : bsteps [] sh sh
| b_next l ls sh sh1 sh2 : bstep l sh sh1 -> bsteps ls sh1 sh2 -> bsteps (l :: ls) sh sh2.

Definition shared_new (execute_commands : bool) : Shared :=
  MkShared execute_commands state_default false.
End Control.
