(* ===== verification/HostBrokerFacts.v ===== *)
(** * Host broker: what a step can do to authority and to receipts

    Every step of the broker edits two disjoint parts of the state: the
    authority (roots, grants, attachments, set-aside roots, settled positions)
    and the receipts (mutation records, their retention order, the active set).
    [bstep_ok] says which edits are possible; the theorems of
    [HostBrokerTheorems] are read off it. *)

From S2P Require Export HostGrants HostControl.

(** ** Lists *)
Lemma retain_elem {A} (f : A -> bool) l x : x ∈ retain f l <-> x ∈ l /\ f x = true.
Proof.
  unfold retain. rewrite !list_elem_of_In, filter_In. tauto.
Qed.

Lemma retain_all {A} (f : A -> bool) l : Forall (fun x => f x = true) l -> retain f l = l.
Proof. apply filter_all. Qed.

Lemma find_Some_elem {A} (f : A -> bool) l x : List.find f l = Some x -> x ∈ l /\ f x = true.
Proof. intros [Hx Hf]%List.find_some. split; [by apply list_elem_of_In|done]. Qed.

Lemma find_is_Some {A} (f : A -> bool) l :
  is_Some (List.find f l) <-> exists x, x ∈ l /\ f x = true.
Proof.
  split.
  - intros [x Hx%find_Some_elem]. by exists x.
  - intros (x & Hx & Hf). destruct (List.find f l) as [y|] eqn:E; [by eexists|].
    apply list_elem_of_In in Hx. by rewrite (List.find_none _ _ E x Hx) in Hf.
Qed.

(** Dropping elements the search skips anyway. *)
Lemma find_retain {A} (f g : A -> bool) l :
  (forall x, x ∈ l -> f x = true -> g x = true) ->
  List.find f (retain g l) = List.find f l.
Proof.
  unfold retain. intros Hfg. induction l as [|x l IH]; cbn; [done|].
  assert (IH' : List.find f (List.filter g l) = List.find f l).
  { apply IH. intros y Hy. apply Hfg. by right. }
  destruct (g x) eqn:Eg; cbn.
  - by rewrite IH'.
  - destruct (f x) eqn:Ef; [|done]. rewrite (Hfg x) in Eg; [done|by left|done].
Qed.

(** ** Authorization *)
Lemma ok_or_is_ok {E A} (o : option A) (e : E) : is_ok (ok_or o e) = true <-> is_Some o.
Proof. by destruct o; cbn; split. Qed.

Lemma has_root_attachment_true s c i :
  has_root_attachment s c i = true <-> MkAttachment c i ∈ attachments s.
Proof.
  unfold has_root_attachment. rewrite existsb_true. split.
  - intros ([c' i'] & Hin & E). cbn in E. apply andb_prop in E as [E1 E2].
    apply N.eqb_eq in E1, E2. by subst.
  - intros Hin. eexists. split; [exact Hin|]. cbn. by rewrite !N.eqb_refl.
Qed.

Definition authority_for (context : ExecutionContext) (c : Capability) (r : Resource) (g : Grant)
    : bool :=
  grant_subject_matches context (grant_subject g) && bool_decide (grant_capability g = c)
  && scope_covers (grant_scope g) r.

Lemma authorize_ok s context c r :
  is_ok (authorize s context c r) = true <->
  attached s context r = true /\ exists g, g ∈ grants s /\ authority_for context c r g = true.
Proof.
  unfold authorize. destruct (attached s context r); cbn; [|naive_solver].
  rewrite ok_or_is_ok, fmap_is_Some, find_is_Some. naive_solver.
Qed.

(** ** The parts of a state *)
Record same_authority (s s' : State) : Prop := {
  sa_roots : roots s' = roots s;
  sa_grants : grants s' = grants s;
  sa_attachments : attachments s' = attachments s;
  sa_unavailable : unavailable s' = unavailable s;
  sa_settled : settled s' = settled s
}.

#[export] Instance same_authority_equiv : Equivalence same_authority.
Proof.
  split.
  - by intros s.
  - intros s s' []. by split.
  - intros s s' s'' [] []. split; by etransitivity.
Qed.

Record same_books (s s' : State) : Prop := {
  sb_mutations : mutations s' = mutations s;
  sb_order : receipt_order s' = receipt_order s;
  sb_active : active_mutations s' = active_mutations s
}.

#[export] Instance same_books_equiv : Equivalence same_books.
Proof.
  split.
  - by intros s.
  - intros s s' []. by split.
  - intros s s' s'' [] []. split; by etransitivity.
Qed.

(** ** Receipts *)
Definition record_pending (r : MutationRecord) : bool :=
  match r with
  | MRegister _ Pending | MRevoke _ Pending | MAttachment _ Pending | MWrite _ Pending => true
  | _ => false
  end.

(** The same operation with the same fingerprint. *)
Definition same_request (r r' : MutationRecord) : bool :=
  match r, r' with
  | MRegister q _, MRegister q' _ => bool_decide (q = q')
  | MRevoke q _, MRevoke q' _ => bool_decide (q = q')
  | MAttachment q _, MAttachment q' _ => bool_decide (q = q')
  | MWrite q _, MWrite q' _ => bool_decide (q = q')
  | _, _ => false
  end.

Lemma same_request_refl r : same_request r r = true.
Proof. by destruct r; apply bool_decide_eq_true. Qed.

Lemma same_request_trans r r' r'' :
  same_request r r' = true -> same_request r' r'' = true -> same_request r r'' = true.
Proof. destruct r, r', r''; cbn; rewrite ?bool_decide_eq_true; congruence. Qed.

(** One edit of the receipts. *)
Inductive book_edit : State -> State -> Prop :=
| bk_begin s id r : mutations s !! id = None -> record_pending r = true ->
    book_edit s (begin_mutation s id r)
| bk_active s x : book_edit s (set_active x s)
| bk_end s id r0 r : mutations s !! id = Some r0 -> record_pending r0 = true ->
    same_request r0 r = true -> record_pending r = false -> is_prunable_receipt r = false ->
    book_edit s (end_mutation s id r)
| bk_retain s id r0 r : mutations s !! id = Some r0 -> record_pending r0 = true ->
    same_request r0 r = true -> is_prunable_receipt r = true ->
    book_edit s (retain_mutation_receipt (end_mutation s id r) id)
| bk_authority s s' : same_books s s' -> book_edit s s'.

Notation book_edits := (rtc book_edit).

Lemma books_refl s s' : same_books s s' -> book_edits s s'.
Proof. intros. by apply rtc_once, bk_authority. Qed.

Lemma commit_cases save sh next :
  state (commit_state save sh next).2 = state sh \/ state (commit_state save sh next).2 = next.
Proof. unfold commit_state. destruct save as [[]|]; cbn; auto. Qed.

Lemma commit_with_cases {A} save sh next (v : result ErrorResponse A) :
  state (commit_with save sh next v).2 = state sh \/ state (commit_with save sh next v).2 = next.
Proof.
  unfold commit_with. pose proof (commit_cases save sh next) as Hc.
  by destruct (commit_state save sh next) as [[] sh'].
Qed.

Lemma lock_state_Ok sh s : lock_state sh = Ok s -> s = state sh /\ failed_closed sh = false.
Proof. unfold lock_state. destruct (failed_closed sh); [done|]. by intros [= <-]. Qed.

(** ** Claims and completions *)
Lemma activate_edit {A} s id (start a : A) s' :
  activate s id start = (Ok a, s') -> book_edits s s' /\ same_authority s s'.
Proof.
  unfold activate. case_bool_decide; [done|]. intros [= _ <-]. split; [|by split].
  apply rtc_once, bk_active.
Qed.

Lemma begin_edit s id r :
  mutations s !! id = None -> record_pending r = true ->
  book_edits s (begin_mutation s id r) /\ same_authority s (begin_mutation s id r).
Proof. intros. split; [by apply rtc_once, bk_begin|by split]. Qed.

Ltac claim_edit :=
  repeat (case_match; simplify_eq/=); intros; simplify_eq/=;
  first [by apply begin_edit | by eapply activate_edit | done
        | split; [apply rtc_refl|by split]].

Lemma claim_register_edit s id request c s' :
  claim_register s id request = (Ok c, s') -> book_edits s s' /\ same_authority s s'.
Proof. unfold claim_register. claim_edit. Qed.

Lemma claim_revoke_edit s id request c s' :
  claim_revoke s id request = (Ok c, s') -> book_edits s s' /\ same_authority s s'.
Proof. unfold claim_revoke. claim_edit. Qed.

Lemma claim_attachment_edit s id request c s' :
  claim_attachment s id request = (Ok c, s') -> book_edits s s' /\ same_authority s s'.
Proof. unfold claim_attachment. claim_edit. Qed.

Lemma claim_write_edit s id request c s' :
  claim_write s id request = (Ok c, s') -> book_edits s s' /\ same_authority s s'.
Proof. unfold claim_write. claim_edit. Qed.

Lemma prune_authority ms order s :
  same_authority s (set_receipt_order (prune_mutation_receipts ms order).2
                      (set_mutations (prune_mutation_receipts ms order).1 s)).
Proof. by split. Qed.

Lemma retain_authority s id : same_authority s (retain_mutation_receipt s id).
Proof.
  unfold retain_mutation_receipt. by destruct (prune_mutation_receipts _ _) as [ms order].
Qed.

Lemma end_authority s id r : same_authority s (end_mutation s id r).
Proof. by split. Qed.

Lemma complete_register_edit s id request r s' :
  complete_register s id request r = Ok s' -> book_edits s s' /\ same_authority s s'.
Proof.
  unfold complete_register. repeat (case_match; simplify_eq/=; try done). intros [= <-].
  split; [|by split]. eapply rtc_once, bk_end; try done. by apply bool_decide_eq_true.
Qed.

Lemma complete_revoke_edit s id request r s' :
  complete_revoke s id request r = Ok s' -> book_edits s s' /\ same_authority s s'.
Proof.
  unfold complete_revoke. repeat (case_match; simplify_eq/=; try done). intros [= <-].
  split; [|by split]. eapply rtc_once, bk_end; try done. by apply bool_decide_eq_true.
Qed.

Lemma complete_attachment_edit s id request r s' :
  complete_attachment s id request r = Ok s' -> book_edits s s' /\ same_authority s s'.
Proof.
  unfold complete_attachment. repeat (case_match; simplify_eq/=; try done). intros [= <-].
  split; [eapply rtc_once, bk_retain; try done; by apply bool_decide_eq_true|]. etransitivity; [|apply retain_authority]. by split.
Qed.

Lemma complete_write_edit s id request r s' :
  complete_write s id request r = Ok s' -> book_edits s s' /\ same_authority s s'.
Proof.
  unfold complete_write. repeat (case_match; simplify_eq/=; try done). intros [= <-].
  split; [eapply rtc_once, bk_retain; try done; by apply bool_decide_eq_true|]. etransitivity; [|apply retain_authority]. by split.
Qed.

(** ** Edits of authority *)
Definition grant_ok (g : Grant) : Prop :=
  validate_capability_scope (grant_capability g) (grant_scope g) = Ok tt
  /\ match grant_scope g with
     | ScopeApp bundle_id => is_blocked_control_bundle bundle_id = false
     | _ => True
     end.

(** A grant over an app or the display. *)
Definition native_scope (g : Grant) : Prop :=
  match grant_scope g with ScopeApp _ | ScopeScreen => True | _ => False end.

(** A grant a registration mints for [subject] and [root_id]. *)
Definition minted (subject : GrantSubject) (root_id : RootId) (g : Grant) : Prop :=
  grant_ok g /\ grant_subject g = subject
  /\ (grant_scope g = ScopeSubject \/ grant_scope g = ScopeRoot root_id).

Inductive edit : Label -> State -> State -> Prop :=
| ed_same l s : edit l s s
| ed_arrive s subject root_id consent x ids c s1 :
    is_Some (roots s !! root_id) -> has_root_attachment s c root_id = false ->
    ensure_default_subject_grants s subject root_id consent x ids = Ok s1 ->
    edit LOther s (set_attachments (attachments s1 ++ [MkAttachment c root_id]) s1)
| ed_register s root_id r gs c subject :
    fresh_root s root_id -> Forall (minted subject root_id) gs ->
    edit LOther s
      (set_settled ({[(subject, root_id)]} ∪ settled s)
        (set_attachments (attachments s ++ [MkAttachment c root_id])
          (set_grants (grants s ++ gs) (set_roots (<[root_id := r]> (roots s)) s))))
| ed_detach s f us :
    edit LOther s (set_unavailable us (set_attachments (retain f (attachments s)) s))
| ed_forget s root_id us :
    edit (LForget root_id) s (forget_root root_id (set_unavailable us s))
| ed_revoke s subject id gs :
    remove_grant_statement (grants s) subject id = (true, gs) -> edit LOther s (set_grants gs s)
| ed_set_aside s us : edit LOther s (set_unavailable us s)
| ed_purge s subject c : subject_conversation c = Ok subject ->
    edit (LPurge c) s (purge subject c s).2
| ed_widen s g root_id : grant_ok g -> grant_scope g = ScopeRoot root_id ->
    edit (LWiden (grant_subject g) root_id) s (set_grants (grants s ++ [g]) s)
| ed_native s f gs : Forall (fun g => grant_ok g /\ native_scope g) gs ->
    edit LOther s (set_grants (retain f (grants s) ++ gs) s).

(** What one step makes of a state. *)
Definition step_ok (l : Label) (s s' : State) : Prop :=
  (exists s0 s1, same_authority s s0 /\ edit l s0 s1 /\ same_authority s1 s')
  /\ book_edits s s'.

Lemma step_ok_same l s : step_ok l s s.
Proof.
  split; [|apply rtc_refl]. exists s, s. split; [reflexivity|]. split; [apply ed_same|reflexivity].
Qed.

Lemma step_ok_books l s s' : book_edits s s' -> same_authority s s' -> step_ok l s s'.
Proof.
  intros Hb Ha. split; [|done]. exists s, s. split; [reflexivity|]. by split; [apply ed_same|].
Qed.

Lemma step_ok_edit l s s0 s1 s' :
  book_edits s s0 -> same_authority s s0 -> edit l s0 s1 -> same_books s0 s1 ->
  book_edits s1 s' -> same_authority s1 s' -> step_ok l s s'.
Proof.
  intros Hb Ha He Hs Hb' Ha'. split; [by exists s0, s1|].
  etransitivity; [exact Hb|]. etransitivity; [by apply books_refl|done].
Qed.

(** An edit alone. *)
Lemma step_ok_bare l s s1 : edit l s s1 -> same_books s s1 -> step_ok l s s1.
Proof.
  intros He Hs. eapply step_ok_edit; [apply rtc_refl|reflexivity|exact He|done|apply rtc_refl|reflexivity].
Qed.

Lemma step_ok_deactivate l s s' id : step_ok l s s' -> step_ok l s (deactivate id s').
Proof.
  intros [(s0 & s1 & H1 & H2 & H3) Hb]. split.
  - exists s0, s1. split_and!; [done..|]. etransitivity; [exact H3|]. by split.
  - eapply rtc_r; [exact Hb|]. apply bk_active.
Qed.

Lemma commit_step_ok l save sh next :
  step_ok l (state sh) next -> step_ok l (state sh) (state (commit_state save sh next).2).
Proof. intros Hn. destruct (commit_cases save sh next) as [-> | ->]; [apply step_ok_same|done]. Qed.

Lemma commit_with_step_ok {A} l save sh next (v : result ErrorResponse A) :
  step_ok l (state sh) next -> step_ok l (state sh) (state (commit_with save sh next v).2).
Proof.
  intros Hn. destruct (commit_with_cases save sh next v) as [-> | ->]; [apply step_ok_same|done].
Qed.

(** ** Minting *)
Lemma from_consent_Ok id subject c sc consent g :
  from_consent id subject c sc consent = Ok g ->
  validate_capability_scope c sc = Ok tt /\ g = MkGrant id subject c sc consent false false.
Proof.
  unfold from_consent. destruct (validate_capability_scope c sc) as [[]|]; cbn; [|done].
  by intros [= <-].
Qed.

Lemma mint_Ok missing id subject c root_id consent gs gs' sc :
  sc = ScopeSubject \/ sc = ScopeRoot root_id ->
  mint missing id subject c sc consent gs = Ok gs' ->
  exists new, gs' = gs ++ new /\ Forall (minted subject root_id) new.
Proof.
  intros Hsc. unfold mint, lift_grant. destruct missing.
  - destruct (from_consent id subject c sc consent) as [g|] eqn:E; cbn; [|done].
    apply from_consent_Ok in E as [Hv ->]. intros [= <-]. eexists. split; [done|].
    constructor; [|done]. split_and!; [split; [done|]|done|done]. by destruct Hsc as [-> | ->].
  - intros [= <-]. exists []. by rewrite app_nil_r.
Qed.

Lemma ensure_subject_grants_Ok s subject root_id consent x ids s' :
  ensure_subject_grants s subject root_id consent x ids = Ok s' ->
  exists new, s' = set_grants (grants s ++ new) s /\ Forall (minted subject root_id) new.
Proof.
  unfold ensure_subject_grants. intros H.
  repeat match type of H with
  | context [mint ?m ?i ?s ?c ?sc ?k ?gs] =>
      let E := fresh "E" in
      destruct (mint m i s c sc k gs) eqn:E; cbn [mbind result_bind] in H; [|done];
      apply (mint_Ok _ _ _ _ root_id) in E as (? & -> & ?); [|by auto]
  end.
  injection H as <-. rewrite <- !(assoc_L (++)). eexists. split; [done|].
  rewrite !Forall_app. done.
Qed.

Lemma ensure_default_Ok s subject root_id consent x ids s' :
  ensure_default_subject_grants s subject root_id consent x ids = Ok s' ->
  exists new, s' = set_settled ({[(subject, root_id)]} ∪ settled s) (set_grants (grants s ++ new) s)
  /\ Forall (minted subject root_id) new
  /\ ((subject, root_id) ∈ settled s -> new = []).
Proof.
  unfold ensure_default_subject_grants. case_bool_decide as Hin; cbn.
  - intros [= <-]. exists []. rewrite app_nil_r. by destruct s.
  - destruct (subject_has_any_root_grant s subject root_id).
    + intros [= <-]. exists []. rewrite app_nil_r. by destruct s.
    + intros (new & -> & Hf)%ensure_subject_grants_Ok. by exists new.
Qed.

(** ** Every operation edits as [edit] and [book_edit] allow *)
Section Operations.
Context `{HostPaths}.

Lemma register_begin_ok save sh request :
  step_ok LOther (state sh) (state (register_begin save sh request).2).
Proof.
  unfold register_begin. destruct (lock_state sh) as [s|] eqn:El; [|apply step_ok_same].
  apply lock_state_Ok in El as [-> _].
  destruct (claim_register _ _ _) as [[[|result]|] next] eqn:Ec; [|apply step_ok_same..].
  apply commit_with_step_ok. apply claim_register_edit in Ec as []. by apply step_ok_books.
Qed.

Lemma attachment_new_Ok c i a :
  lift_grant (attachment_new c i) = Ok a -> a = MkAttachment c i.
Proof. unfold attachment_new. destruct (uuid_is_nil c); cbn; [done|]. by intros [= <-]. Qed.

Lemma prepare_registration_Ok x opened root_id ids now request p :
  prepare_registration x opened root_id ids now request = Ok p ->
  pr_root_id p = root_id /\ owner (pr_root p) = rr_subject request
  /\ pr_attachment p = MkAttachment (pr_conversation p) root_id
  /\ Forall (minted (rr_subject request) root_id) (pr_grants p).
Proof.
  unfold prepare_registration. case_match; [done|]. case_match; [done|].
  destruct opened as [validated|]; [|done]. cbn.
  destruct (lift_grant (attachment_new _ _)) as [a|] eqn:Ea;
    [apply attachment_new_Ok in Ea|destruct x; done].
  assert (Hm : forall id c sc, sc = ScopeSubject \/ sc = ScopeRoot root_id ->
    validate_capability_scope c sc = Ok tt ->
    minted (rr_subject request) root_id
      (MkGrant id (rr_subject request) c sc (MkConsent (rr_consent request) now) false false)).
  { intros id c sc Hsc Hv. split_and!; [split; [done|]|done|done]. by destruct Hsc as [-> | ->]. }
  destruct x; cbn; intros [= <-]; cbn; split_and!; try done;
    repeat (constructor; [apply Hm; auto|]); constructor.
Qed.

Lemma preferred_root_alias_Some s candidate i r :
  preferred_root_alias s candidate = Some (i, r) -> roots s !! i = Some r.
Proof.
  unfold preferred_root_alias. set (l := List.filter _ _). intros Hmin.
  assert (Hl : forall e, e ∈ l -> roots s !! e.1 = Some e.2).
  { intros [j q] Hin. apply retain_elem in Hin as [Hin _]. by apply elem_of_map_to_list in Hin. }
  assert (Hbest : forall l best, (forall e, e ∈ l -> roots s !! e.1 = Some e.2) ->
    (forall e, best = Some e -> roots s !! e.1 = Some e.2) ->
    forall e, foldl (fun best e => match best with
      | None => Some e
      | Some b => if key_lt (alias_key (owner candidate) e) (alias_key (owner candidate) b)
                  then Some e else Some b end) best l = Some e -> roots s !! e.1 = Some e.2).
  { clear. intros l. induction l as [|x l IH]; intros best Hl Hb e; cbn; [apply Hb|].
    apply IH; [intros; apply Hl; by right|]. intros e' He'.
    destruct best as [b|]; [|injection He' as <-; apply Hl; by left].
    destruct (key_lt _ _); injection He' as <-; [apply Hl; by left|by apply Hb]. }
  by apply (Hbest l None Hl ltac:(done) (i, r)).
Qed.

Lemma apply_registration_ok x ids s request prepared outcome next :
  pr_attachment prepared = MkAttachment (pr_conversation prepared) (pr_root_id prepared) ->
  Forall (minted (rr_subject request) (pr_root_id prepared)) (pr_grants prepared) ->
  fresh_root s (pr_root_id prepared) ->
  apply_registration x ids s (rr_subject request) prepared = Ok (outcome, next) ->
  edit LOther s next /\ same_books s next.
Proof.
  intros Ha Hm Hf. unfold apply_registration.
  destruct (preferred_root_alias s (pr_root prepared)) as [[i r]|] eqn:Ep.
  - apply preferred_root_alias_Some in Ep.
    destruct (has_root_attachment s (pr_conversation prepared) i) eqn:Eh; cbn.
    { intros [= _ <-]. split; [apply ed_same|done]. }
    destruct (pr_grants prepared) as [|g gs]; cbn; [done|].
    destruct (ensure_default_subject_grants _ _ _ _ _ _) as [s1|] eqn:Ee; cbn; [|done].
    destruct (lift_grant (attachment_new _ _)) as [a|] eqn:Ea; cbn; [|done].
    apply attachment_new_Ok in Ea as ->. intros [= _ <-]. split; [by eapply ed_arrive|].
    apply ensure_default_Ok in Ee as (new & -> & _). by split.
  - intros [= _ <-]. rewrite Ha. split; [|by split]. by apply ed_register.
Qed.

Lemma register_finish_ok save sh request alias_ids opened root_id ids now :
  fresh_root (state sh) root_id ->
  step_ok LOther (state sh) (state (register_finish save sh request alias_ids
    (prepare_registration (execute_commands sh) opened root_id ids now request)).2).
Proof.
  intros Hf. unfold register_finish.
  destruct (lock_state sh) as [s|] eqn:El; [|apply step_ok_same].
  apply lock_state_Ok in El as [-> _].
  assert (Hcommit : forall A (e : BrokerError -> A) (v : A) next, step_ok LOther (state sh) next ->
    step_ok LOther (state sh) (state (match commit_state save sh next with
      | (Err er, sh') => (e er, set_state (deactivate (rr_operation_id request) (state sh')) sh')
      | (Ok _, sh') => (v, sh') end).2)).
  { intros A e v next Hn. pose proof (commit_step_ok LOther save sh next Hn) as Hc.
    destruct (commit_state save sh next) as [[] sh']; cbn in *; [done|by apply step_ok_deactivate]. }
  destruct (prepare_registration _ _ _ _ _ _) as [p|e] eqn:Ep.
  - apply prepare_registration_Ok in Ep as (<- & _ & Ha & Hm).
    destruct (apply_registration _ _ _ _ _) as [[outcome next]|] eqn:Er; [|apply step_ok_same].
    eapply apply_registration_ok in Er as [He Hb]; [|done..].
    destruct (complete_register next _ _ _) as [next'|] eqn:Ec; [|apply step_ok_same].
    apply complete_register_edit in Ec as [Hb' Ha'].
    apply (Hcommit _ (fun e => Err (error_response e)) (Ok outcome)).
    by eapply step_ok_edit; [apply rtc_refl|reflexivity|..].
  - destruct (retryable_registration_error e).
    { cbn. by apply step_ok_deactivate, step_ok_same. }
    destruct (complete_register _ _ _ _) as [next|] eqn:Ec; [|apply step_ok_same].
    apply complete_register_edit in Ec as [Hb Ha].
    apply (Hcommit (result ErrorResponse RegisterRootResult)
             (fun e => Err (error_response e)) (Err (error_response e))).
    by apply step_ok_books.
Qed.

Lemma apply_root_attachment_ok x ids now s request r next :
  apply_root_attachment x ids now s request = Ok (r, next) ->
  edit LOther s next /\ same_books s next.
Proof.
  unfold apply_root_attachment. destruct (validate_subject_conversation _ _); cbn; [|done].
  destruct (af_mutation request).
  - destruct (roots s !! af_root request) as [q|] eqn:Er; cbn; [|done].
    destruct (af_consent request) as [method|]; cbn; [|done].
    case_bool_decide; cbn; [done|].
    destruct (has_root_attachment s _ _) eqn:Eh; cbn.
    { intros [= _ <-]. split; [apply ed_same|done]. }
    destruct (ensure_default_subject_grants _ _ _ _ _ _) as [s1|] eqn:Ee; cbn; [|done].
    destruct (lift_grant (attachment_new _ _)) as [a|] eqn:Ea; cbn; [|done].
    apply attachment_new_Ok in Ea as ->. intros [= _ <-]. split; [by eapply ed_arrive|].
    apply ensure_default_Ok in Ee as (new & -> & _). by split.
  - destruct (af_consent request); cbn; [done|].
    intros [= _ <-]. split; [apply ed_detach|by split].
Qed.

Lemma mutate_root_attachment_ok save ids now sh request mutation :
  step_ok LOther (state sh) (state (mutate_root_attachment save ids now sh request mutation).2).
Proof.
  unfold mutate_root_attachment. destruct (lock_state sh) as [s|] eqn:El; [|apply step_ok_same].
  apply lock_state_Ok in El as [-> _].
  destruct (claim_attachment _ _ _) as [[[|result]|] next] eqn:Ec; [|apply step_ok_same..].
  apply claim_attachment_edit in Ec as [Hb Ha].
  destruct (complete_attachment _ _ _ _) as [next'|] eqn:Ee; [|apply step_ok_same].
  apply complete_attachment_edit in Ee as [Hb' Ha']. apply commit_with_step_ok.
  destruct (apply_root_attachment _ _ _ _ _) as [[r next1]|] eqn:Er; cbn in *.
  - apply apply_root_attachment_ok in Er as [He Hs]. by eapply step_ok_edit.
  - apply step_ok_books; by etransitivity.
Qed.

Lemma revoke_root_ok save sh operation_id subject root_id :
  step_ok (LForget root_id) (state sh) (state (revoke_root save sh operation_id subject root_id).2).
Proof.
  unfold revoke_root. destruct (lock_state sh) as [s|] eqn:El; [|apply step_ok_same].
  apply lock_state_Ok in El as [-> _].
  destruct (claim_revoke _ _ _) as [[[|result]|] next] eqn:Ec; [|apply step_ok_same..].
  apply claim_revoke_edit in Ec as [Hb Ha]. set (b := _ || _).
  destruct (complete_revoke _ _ _ _) as [next'|] eqn:Ee; [|apply step_ok_same].
  apply complete_revoke_edit in Ee as [Hb' Ha']. apply commit_with_step_ok.
  destruct b.
  - by eapply step_ok_edit; [exact Hb|exact Ha|apply ed_forget|by split|..].
  - apply step_ok_books; by etransitivity.
Qed.

Lemma revoke_grant_ok save sh subject id :
  step_ok LOther (state sh) (state (revoke_grant save sh subject id).2).
Proof.
  unfold revoke_grant. destruct (lock_state sh) as [s|] eqn:El; [|apply step_ok_same].
  apply lock_state_Ok in El as [-> _].
  destruct (remove_grant_statement (grants (state sh)) subject id) as [[] gs] eqn:Er.
  { apply commit_with_step_ok, step_ok_bare; [by eapply ed_revoke|by split]. }
  destruct (remove_unavailable _ _ _) as [[] us]; [|apply step_ok_same].
  apply commit_with_step_ok, step_ok_bare; [apply ed_set_aside|by split].
Qed.

Lemma drop_owned_books cs root_id : same_books cs.2 (drop_owned cs root_id).2.
Proof.
  destruct cs as [b s]. unfold drop_owned. destruct (still_attached s root_id); cbn; [done|].
  by destruct (roots s !! root_id).
Qed.

Lemma foldl_drop_books l cs : same_books cs.2 (foldl drop_owned cs l).2.
Proof.
  revert cs. induction l as [|i l IH]; intros cs; cbn; [done|].
  etransitivity; [apply drop_owned_books|apply IH].
Qed.

Lemma purge_books subject c s : same_books s (purge subject c s).2.
Proof.
  unfold purge. match goal with |- context [foldl drop_owned ?cs ?l] =>
    pose proof (foldl_drop_books l cs) as Hb; destruct (foldl drop_owned cs l) as [b s'] end.
  cbn in Hb. destruct (owned_unavailable s' subject); cbn; destruct Hb; by split.
Qed.

Lemma purge_ok save sh c :
  step_ok (LPurge c) (state sh) (state (purge_conversation_subject save sh c).2).
Proof.
  unfold purge_conversation_subject.
  destruct (subject_conversation c) as [subject|] eqn:Es; [|apply step_ok_same].
  destruct (lock_state sh) as [s|] eqn:El; [|apply step_ok_same].
  apply lock_state_Ok in El as [-> _].
  pose proof (purge_books subject c (state sh)) as Hb.
  destruct (purge subject c (state sh)) as [[] next] eqn:Ep; [|apply step_ok_same].
  apply commit_with_step_ok, step_ok_bare; [|done].
  replace next with (purge subject c (state sh)).2 by (by rewrite Ep). by apply ed_purge.
Qed.

Lemma grant_root_capability_ok save id now sh request :
  step_ok (LWiden (gr_subject request) (gr_root request)) (state sh)
    (state (grant_root_capability save id now sh request).2).
Proof.
  unfold grant_root_capability. destruct (validate_subject_conversation _ _); [|apply step_ok_same].
  case_match; [apply step_ok_same|].
  destruct (lock_state sh) as [s|] eqn:El; [|apply step_ok_same].
  apply lock_state_Ok in El as [-> _].
  destruct (roots _ !! _); [|apply step_ok_same].
  do 3 (case_match; [apply step_ok_same|]).
  unfold lift_grant. destruct (from_consent _ _ _ _ _) as [g|] eqn:Eg; [|apply step_ok_same].
  apply from_consent_Ok in Eg as [Hv ->]. apply commit_with_step_ok, step_ok_bare; [|by split].
  apply (ed_widen _ (MkGrant id (gr_subject request) (gr_capability request)
    (ScopeRoot (gr_root request)) (MkConsent (gr_consent request) now) false false)); [|done].
  by split.
Qed.

Lemma check_bundle_Ok b : check_bundle (Some b) = Ok tt -> is_blocked_control_bundle b = false.
Proof.
  unfold check_bundle. destruct (validate_bundle_id b); [|done].
  unfold mbind, result_bind. by destruct (is_blocked_control_bundle b).
Qed.

Lemma cu_grant_scope_native c b sc :
  cu_grant_scope c b = Ok sc -> sc = ScopeScreen \/ exists b', b = Some b' /\ sc = ScopeApp b'.
Proof.
  unfold cu_grant_scope. destruct c, b as [b|]; try done;
    try (destruct (validate_bundle_id b); cbn; [|done]); intros [= <-]; eauto.
Qed.

Lemma cu_new_grant_ok id now request sc g :
  check_bundle (cg_bundle_id request) = Ok tt ->
  cu_grant_scope (cg_capability request) (cg_bundle_id request) = Ok sc ->
  cu_new_grant id now request sc = Ok g -> grant_ok g /\ native_scope g.
Proof.
  intros Hb Hs%cu_grant_scope_native. unfold cu_new_grant.
  destruct (lift_grant (from_consent _ _ _ _ _)) as [g0|] eqn:E0; cbn; [|done].
  unfold lift_grant in E0. destruct (from_consent _ _ _ _ _) as [g1|] eqn:E1; [|done].
  injection E0 as ->. apply from_consent_Ok in E1 as [Hv ->].
  assert (Hg : forall g, grant_capability g = cg_capability request -> grant_scope g = sc ->
                         grant_ok g /\ native_scope g).
  { intros g' Hc Hsc. unfold grant_ok, native_scope. rewrite Hc, Hsc.
    destruct Hs as [-> | (b & E & ->)]; [done|]. rewrite E in Hb. by apply check_bundle_Ok in Hb. }
  destruct (cg_all_sessions request).
  - unfold for_all_native_sessions. case_match; cbn; [done|]. intros [= <-].
    apply Hg; by destruct (cg_single_use request).
  - intros [= <-]. apply Hg; by destruct (cg_single_use request).
Qed.

Lemma set_grants_all s gs : set_grants (grants s ++ gs) s = set_grants (retain (fun _ => true) (grants s) ++ gs) s.
Proof. rewrite retain_all; [done|]. by apply Forall_true. Qed.

Lemma cu_grant_app_ok save id now sh request :
  step_ok LOther (state sh) (state (cu_grant_app save id now sh request).2).
Proof.
  unfold cu_grant_app. case_match; [apply step_ok_same|].
  destruct (check_bundle (cg_bundle_id request)) as [[]|] eqn:Eb; cbn; [|apply step_ok_same].
  destruct (cu_grant_scope _ _) as [sc|] eqn:Es; [|apply step_ok_same].
  case_match; [apply step_ok_same|].
  destruct (lock_state sh) as [s|] eqn:El; [|apply step_ok_same].
  apply lock_state_Ok in El as [-> _].
  destruct (List.find _ _); [apply step_ok_same|].
  destruct (if cg_single_use request then _ else _); [apply step_ok_same|].
  destruct (cu_new_grant id now request sc) as [g|] eqn:Eg; [|apply step_ok_same].
  pose proof (cu_new_grant_ok _ _ _ _ _ Eb Es Eg) as Hg. set (next := set_grants _ _).
  assert (Hn : step_ok LOther (state sh) next).
  { apply step_ok_bare; [|by split]. unfold next.
    destruct (cg_single_use request); [rewrite set_grants_all|]; apply ed_native; apply Forall_singleton, Hg. }
  apply (commit_step_ok _ save) in Hn. by destruct (commit_state save sh next) as [[] sh'].
Qed.

Lemma native_drop_ok f s : step_ok LOther s (set_grants (retain f (grants s)) s).
Proof.
  apply step_ok_bare; [|by split]. rewrite <- (app_nil_r (retain f (grants s))). by apply ed_native.
Qed.

Lemma cu_revoke_app_ok save sh subject c b :
  step_ok LOther (state sh) (state (cu_revoke_app save sh subject c b).2).
Proof.
  unfold cu_revoke_app. destruct (cu_grant_scope c b) as [sc|]; [|apply step_ok_same].
  destruct (lock_state sh) as [s|] eqn:El; [|apply step_ok_same].
  apply lock_state_Ok in El as [-> _].
  case_match; [|apply step_ok_same]. case_match; [apply native_drop_ok|].
  match goal with |- context [commit_state save sh ?next] =>
    pose proof (commit_step_ok LOther save sh next (native_drop_ok _ _)) as Hn;
    by destruct (commit_state save sh next) as [[] sh'] end.
Qed.

Lemma consume_ok sh id : step_ok LOther (state sh) (state (consume_single_use_grant sh id).2).
Proof.
  unfold consume_single_use_grant. destruct id as [id|]; [|apply step_ok_same].
  do 2 (case_match; [apply step_ok_same|]). apply native_drop_ok.
Qed.

Lemma write_begin_ok save sh context request :
  step_ok LOther (state sh) (state (write_begin save sh context request).2).
Proof.
  unfold write_begin. destruct (decode_write_content request); cbn; [|apply step_ok_same].
  destruct (check_approval request); cbn; [|apply step_ok_same].
  destruct (lock_state sh) as [s|] eqn:El; [|apply step_ok_same].
  apply lock_state_Ok in El as [-> _].
  destruct (claim_write _ _ _) as [[[recovering|result]|] next] eqn:Ec; [|apply step_ok_same..].
  destruct (authorize_write _ _ _ _); [|apply step_ok_same].
  apply claim_write_edit in Ec as [Hb Ha].
  pose proof (commit_step_ok LOther save sh next (step_ok_books _ _ _ Hb Ha)) as Hn.
  by destruct (commit_state save sh next) as [[] sh'].
Qed.

Lemma write_finish_ok save sh host context request recovering :
  step_ok LOther (state sh) (state (write_finish save sh host context request recovering).1.2).
Proof.
  unfold write_finish. destruct (lock_state sh) as [s|] eqn:El; [|apply step_ok_same].
  apply lock_state_Ok in El as [-> _].
  assert (Hfin : forall terminal, step_ok LOther (state sh) (state sh) ->
    forall next, complete_write (state sh) (wq_operation_id request)
                   (write_fingerprint context request) terminal = Ok next ->
    step_ok LOther (state sh) (state (commit_state save sh next).2)).
  { intros terminal _ next Ec. apply complete_write_edit in Ec as [Hb Ha].
    by apply commit_step_ok, step_ok_books. }
  specialize (fun t => Hfin t (step_ok_same _ _)).
  destruct (authorize_write _ _ _ _); [destruct (wh_clone host); [apply step_ok_same|]|];
    (destruct (complete_write _ _ _ _) as [next|] eqn:Ec; [|apply step_ok_same]);
    apply Hfin in Ec; by destruct (commit_state save sh next) as [[] sh'].
Qed.

(** Every step of the broker. *)
Lemma bstep_ok l sh sh' : bstep l sh sh' -> step_ok l (state sh) (state sh').
Proof.
  destruct 1; eauto using register_begin_ok, register_finish_ok, mutate_root_attachment_ok,
    revoke_root_ok, revoke_grant_ok, purge_ok, grant_root_capability_ok, cu_grant_app_ok,
    cu_revoke_app_ok, consume_ok, write_begin_ok, write_finish_ok.
Qed.
End Operations.
