(* ===== verification/HostBrokerTheorems.v ===== *)
(** * Host broker: the theorems

    What a conversation may reach, and what it may not reach any more, along the
    runs of [HostControl.bsteps]; and what a repeated request is answered. *)

From S2P Require Export HostBrokerFacts.

(** ** Runs *)
Section Runs.
Context `{HostPaths}.

(** An invariant of authority, kept by the edits a label set allows. *)
Lemma run_invariant (P : State -> Prop) (allowed : Label -> Prop) ls sh sh' :
  (forall s s', same_authority s s' -> P s -> P s') ->
  (forall l s s', allowed l -> edit l s s' -> P s -> P s') ->
  bsteps ls sh sh' -> Forall allowed ls -> P (state sh) -> P (state sh').
Proof.
  intros Hsame Hedit. induction 1 as [|l ls sh sh1 sh2 Hb Hbs IH]; [done|].
  intros [Hl Hls]%Forall_cons HP. apply IH; [done|].
  destruct (bstep_ok _ _ _ Hb) as [(s0 & s1 & H1 & H2 & H3) _]. eauto.
Qed.

(** An invariant of the receipts. *)
Lemma book_invariant (P : State -> Prop) ls sh sh' :
  (forall s s', book_edit s s' -> P s -> P s') ->
  bsteps ls sh sh' -> P (state sh) -> P (state sh').
Proof.
  intros Hbook. induction 1 as [|l ls sh sh1 sh2 Hb Hbs IH]; [done|]. intros HP. apply IH.
  destruct (bstep_ok _ _ _ Hb) as [_ Hrtc]. revert HP.
  induction Hrtc; eauto.
Qed.
End Runs.

(** ** What an edit does to the grants *)
Lemma remove_first_sub f l removed l' :
  remove_first f l = Some (removed, l') -> forall g, g ∈ l' -> g ∈ l.
Proof.
  revert l'. induction l as [|x l IH]; intros l'; cbn; [done|].
  destruct (f x); [intros [= _ <-] g Hg; by right|].
  destruct (remove_first f l) as [[r l1]|]; cbn; [|done].
  intros [= -> <-] g [->|Hg]%elem_of_cons; [by left|right]. by eapply IH.
Qed.

Lemma remove_statement_sub gs subject id b gs' :
  remove_grant_statement gs subject id = (b, gs') -> forall g, g ∈ gs' -> g ∈ gs.
Proof.
  unfold remove_grant_statement. destruct (remove_first _ gs) as [[removed l]|] eqn:E;
    [|by intros [= _ <-]].
  intros [= _ <-] g Hg. eapply remove_first_sub; [exact E|].
  repeat case_match; try done. by apply retain_elem in Hg as [].
Qed.

(** ** Purging, one pass at a time *)
Definition live (s : State) (root_id : RootId) : Prop := exists c, MkAttachment c root_id ∈ attachments s.

Lemma still_attached_live s root_id : live s root_id -> still_attached s root_id = true.
Proof.
  intros [c Hc]. unfold still_attached. apply orb_true_iff. left. apply existsb_true.
  eexists. split; [exact Hc|]. apply N.eqb_refl.
Qed.

(** What dropping a conversation's registrations keeps: everything over a root
    that is attached somewhere or that the conversation does not own. *)
Record dropped (ids : list RootId) (s s' : State) : Prop := {
  dr_roots : forall i, roots s' !! i = roots s !! i \/ (i ∈ ids /\ roots s' !! i = None);
  dr_grants : exists f, grants s' = retain f (grants s)
    /\ forall g, f g = false -> exists i, i ∈ ids /\ ~ live s i /\ scope_targets_root (grant_scope g) i = true;
  dr_attachments : attachments s' = attachments s;
  dr_settled : forall p, p ∈ settled s' <-> p ∈ settled s /\ (roots s' !! p.2 = None -> roots s !! p.2 = None)
}.

Lemma retain_retain {A} (f g : A -> bool) l : retain f (retain g l) = retain (fun x => g x && f x) l.
Proof.
  unfold retain. induction l as [|x l IH]; cbn; [done|]. destruct (g x); cbn; rewrite IH; [|done].
  by destruct (f x).
Qed.

Lemma dropped_refl s : dropped [] s s.
Proof.
  split; [by left| |done|naive_solver]. exists (fun _ => true). split; [|done].
  symmetry. by apply retain_all, Forall_true.
Qed.

Lemma dropped_trans ids ids' s s1 s2 :
  dropped ids s s1 -> dropped ids' s1 s2 -> dropped (ids ++ ids') s s2.
Proof.
  intros [R1 (f & G1 & F) A1 S1] [R2 (f' & G2 & F') A2 S2]. split.
  - intros i. destruct (R2 i) as [-> |[Hi ->]]; [|right; set_solver].
    destruct (R1 i) as [-> |[Hi ->]]; [by left|right; set_solver].
  - exists (fun g => f g && f' g). split; [by rewrite G2, G1, retain_retain|].
    intros g [Hg|Hg]%andb_false_iff.
    + destruct (F g Hg) as (i & ? & ?). exists i. set_solver.
    + destruct (F' g Hg) as (i & Hi & Hl & ?). exists i. split_and!; [set_solver| |done].
      contradict Hl. unfold live. by rewrite A1.
  - congruence.
  - intros p. rewrite S2, S1. destruct (R1 p.2) as [E1|[_ E1]], (R2 p.2) as [E2|[_ E2]];
      rewrite E2, E1 in *; naive_solver.
Qed.

Lemma drop_owned_dropped b s i : dropped [i] s (drop_owned (b, s) i).2.
Proof.
  assert (Hsame : dropped [i] s s).
  { split; [by left| |done|naive_solver]. exists (fun _ => true). split; [|done].
    symmetry. by apply retain_all, Forall_true. }
  unfold drop_owned. destruct (still_attached s i) eqn:Es; [done|].
  destruct (roots s !! i) as [r|] eqn:Er; [|done]. cbn.
  assert (Hl : ~ live s i) by (intros Hl%still_attached_live; congruence).
  split; cbn.
  - intros j. destruct (decide (i = j)) as [->|]; [right; by rewrite lookup_delete_eq; set_solver|].
    left. by rewrite lookup_delete_ne.
  - eexists. split; [done|]. intros g Hg%negb_false_iff. exists i. set_solver.
  - apply retain_all, Forall_forall. intros [c j] Ha. cbn. apply negb_true_iff, N.eqb_neq.
    intros ->. apply Hl. by exists c.
  - intros [sub j]. rewrite elem_of_filter. cbn. split.
    + intros [Hne Hin]. split; [done|]. by rewrite lookup_delete_ne.
    + intros [Hin Hr]. split; [|done]. intros ->. rewrite lookup_delete_eq, Er in Hr. naive_solver.
Qed.

Lemma foldl_dropped l b s : dropped l s (foldl drop_owned (b, s) l).2.
Proof.
  revert b s. induction l as [|i l IH]; intros b s; cbn [foldl]; [apply dropped_refl|].
  change (i :: l) with ([i] ++ l).
  pose proof (drop_owned_dropped b s i) as Hd. destruct (drop_owned (b, s) i) as [b' s'].
  by eapply dropped_trans.
Qed.

Lemma owned_roots_elem s subject i :
  i ∈ owned_roots s subject <-> exists r, roots s !! i = Some r /\ owner r = subject.
Proof.
  unfold owned_roots. rewrite list_elem_of_fmap. split.
  - intros ([j r] & -> & Hin%retain_elem). destruct Hin as [Hin Ho]. cbn in *.
    apply elem_of_map_to_list in Hin. apply bool_decide_eq_true in Ho. eauto.
  - intros (r & Hr & Ho). exists (i, r). split; [done|]. apply retain_elem. cbn.
    by rewrite elem_of_map_to_list, bool_decide_eq_true.
Qed.

Lemma foldl_retain_grants (ids : list RootId) gs :
  foldl (fun gs i => retain (fun g => negb (scope_targets_root (grant_scope g) i)) gs) gs ids
  = retain (fun g => negb (existsb (scope_targets_root (grant_scope g)) ids)) gs.
Proof.
  revert gs. induction ids as [|i ids IH]; intros gs; cbn.
  - symmetry. by apply retain_all, Forall_true.
  - rewrite IH, retain_retain. unfold retain. apply List.filter_ext. intros g.
    by rewrite negb_orb.
Qed.

(** The purge of a conversation, against the state it starts from. *)
Definition purged_grant (subject : GrantSubject) (g : Grant) : bool :=
  bool_decide (grant_subject g = subject) && negb (native_app_all_sessions g).

(** An unavailable root's attachments are set aside with it. *)
Definition set_aside_apart (s : State) : Prop :=
  forall u, u ∈ unavailable s -> ~ live s (un_id u).

Definition after_retain (subject : GrantSubject) (c : Uuid) (s : State) : State :=
  MkState (roots s) (retain (fun g => negb (purged_grant subject g)) (grants s))
    (retain (fun a => negb (N.eqb (att_conversation a) c)) (attachments s))
    (mutations s) (receipt_order s) (active_mutations s)
    (map (purge_unavailable subject c) (unavailable s))
    (filter (fun e => e.1 <> subject) (settled s)).

Lemma drop_owned_unavailable cs i : unavailable (drop_owned cs i).2 = unavailable cs.2.
Proof.
  destruct cs as [b s]. unfold drop_owned. destruct (still_attached s i); [done|].
  by destruct (roots s !! i).
Qed.

Lemma foldl_drop_unavailable l cs : unavailable (foldl drop_owned cs l).2 = unavailable cs.2.
Proof.
  revert cs. induction l as [|i l IH]; intros cs; cbn; [done|].
  by rewrite IH, drop_owned_unavailable.
Qed.

Lemma foldl_drop_changed l s : (foldl drop_owned (true, s) l).1 = true.
Proof.
  revert s. induction l as [|i l IH]; intros s; cbn [foldl]; [done|].
  assert (E : exists s', drop_owned (true, s) i = (true, s')).
  { unfold drop_owned. destruct (still_attached s i); [eauto|]. destruct (roots s !! i); eauto. }
  destruct E as [s' ->]. apply IH.
Qed.

Lemma drop_owned_None cs l i :
  roots cs.2 !! i = None -> roots (foldl drop_owned cs l).2 !! i = None.
Proof.
  destruct cs as [b s]. intros Hn. destruct (foldl_dropped l b s) as [R _ _ _].
  destruct (R i) as [->|[_ ->]]; done.
Qed.

Lemma still_attached_ext s s' i :
  attachments s' = attachments s -> unavailable s' = unavailable s ->
  still_attached s' i = still_attached s i.
Proof. unfold still_attached. by intros -> ->. Qed.

Lemma drop_owned_drops l b s i :
  i ∈ l -> still_attached s i = false -> roots (foldl drop_owned (b, s) l).2 !! i = None.
Proof.
  revert b s. induction l as [|j l IH]; intros b s Hi Hs; [by apply not_elem_of_nil in Hi|].
  cbn [foldl]. pose proof (drop_owned_dropped b s j) as [_ _ A _].
  pose proof (drop_owned_unavailable (b, s) j) as U.
  destruct (decide (i = j)) as [->|Hne].
  - apply drop_owned_None. unfold drop_owned. rewrite Hs.
    destruct (roots s !! j) eqn:E; [|done]. cbn. apply lookup_delete_eq.
  - apply elem_of_cons in Hi as [|Hi]; [done|]. destruct (drop_owned (b, s) j) as [b' s'] eqn:E.
    apply IH; [done|]. cbn in A, U. by rewrite (still_attached_ext _ _ _ A U).
Qed.

Lemma drop_owned_changed l cs : (foldl drop_owned cs l).1 = true \/ (foldl drop_owned cs l).2 = cs.2.
Proof.
  destruct cs as [b s]. revert b s. induction l as [|j l IH]; intros b s; [by right|].
  cbn [foldl]. unfold drop_owned at 2 4. destruct (still_attached s j); [apply IH|].
  destruct (roots s !! j) eqn:E; [|apply IH]. left. apply foldl_drop_changed.
Qed.

Lemma purge_unfold subject c s :
  exists s1, dropped (owned_roots (after_retain subject c s) subject) (after_retain subject c s) s1
  /\ unavailable s1 = unavailable (after_retain subject c s)
  /\ roots (purge subject c s).2 = roots s1
  /\ attachments (purge subject c s).2 = attachments s1
  /\ settled (purge subject c s).2 = settled s1
  /\ grants (purge subject c s).2
     = retain (fun g => negb (existsb (scope_targets_root (grant_scope g))
                                (owned_unavailable s1 subject))) (grants s1)
  /\ (forall u, u ∈ unavailable (purge subject c s).2 -> u ∈ unavailable s1)
  /\ ((purge subject c s).1 = true \/ s1 = after_retain subject c s)
  /\ (forall i, i ∈ owned_roots (after_retain subject c s) subject ->
        still_attached (after_retain subject c s) i = false -> roots s1 !! i = None).
Proof.
  unfold purge. set (b := _ || _).
  replace (retain (fun g => negb (bool_decide (grant_subject g = subject))
             || native_app_all_sessions g) (grants s))
    with (retain (fun g => negb (purged_grant subject g)) (grants s))
    by (apply List.filter_ext; intros g; unfold purged_grant;
        by rewrite negb_andb, negb_involutive).
  fold (after_retain subject c s).
  pose proof (foldl_dropped (owned_roots (after_retain subject c s) subject) b
                (after_retain subject c s)) as Hd.
  assert (Hu : unavailable (foldl drop_owned (b, after_retain subject c s)
                 (owned_roots (after_retain subject c s) subject)).2
               = unavailable (after_retain subject c s)).
  { apply foldl_drop_unavailable. }
  pose proof (drop_owned_changed (owned_roots (after_retain subject c s) subject)
                (b, after_retain subject c s)) as Hch.
  pose proof (drop_owned_drops (owned_roots (after_retain subject c s) subject) b
                (after_retain subject c s)) as Hgone.
  destruct (foldl drop_owned _ _) as [b' s1]. cbn in *. exists s1.
  destruct (owned_unavailable s1 subject) as [|i l] eqn:Eo; cbn [fst snd]; split_and!; try done.
  - symmetry. by apply retain_all, Forall_true.
  - cbn [set_grants grants]. apply foldl_retain_grants.
  - cbn [set_grants set_unavailable unavailable]. by intros u [Hu' _]%retain_elem.
  - by left.
Qed.

Lemma purge_grants_sub subject c s g : g ∈ grants (purge subject c s).2 -> g ∈ grants s.
Proof.
  destruct (purge_unfold subject c s) as (s1 & [_ (f & G & _) _ _] & _ & _ & _ & _ & -> & _).
  intros [Hg _]%retain_elem. rewrite G in Hg. apply retain_elem in Hg as [Hg _].
  by apply retain_elem in Hg as [].
Qed.

Lemma purge_spares subject c s sub i :
  (sub, i) ∈ settled s -> sub <> subject -> owner <$> roots s !! i <> Some subject ->
  (sub, i) ∈ settled (purge subject c s).2 /\ roots (purge subject c s).2 !! i = roots s !! i.
Proof.
  destruct (purge_unfold subject c s) as (s1 & [R _ _ S] & _ & -> & _ & -> & _ & _).
  intros Hin Hne Ho. assert (Hr : roots s1 !! i = roots s !! i).
  { destruct (R i) as [->|[Hi _]]; [done|]. apply owned_roots_elem in Hi as (r & Hr & Hw).
    cbn in Hr. rewrite Hr in Ho. cbn in Ho. congruence. }
  split; [|done]. apply S. cbn. rewrite Hr. split; [|done].
  apply elem_of_filter. done.
Qed.

(** ** A settled position only narrows *)

(** A grant of [subject] over [root_id] or a subtree of it. *)
Definition reaches (subject : GrantSubject) (root_id : RootId) (g : Grant) : Prop :=
  grant_subject g = subject /\ scope_targets_root (grant_scope g) root_id = true.

(** A label that is no fresh consent for the pair and does not forget the root. *)
Definition quiet (subject : GrantSubject) (root_id : RootId) (root_owner : option GrantSubject)
    (l : Label) : Prop :=
  match l with
  | LWiden s i => ~ (s = subject /\ i = root_id)
  | LForget i => i <> root_id
  | LPurge c => MkSubject Conversation c <> subject
                /\ root_owner <> Some (MkSubject Conversation c)
  | LOther => True
  end.

Lemma minted_reaches subject i g sub j :
  minted subject i g -> reaches sub j g -> sub = subject /\ j = i.
Proof.
  intros (_ & <- & Hsc) [<- Ht]. split; [done|].
  destruct Hsc as [E|E]; rewrite E in Ht; cbn in Ht; [done|]. symmetry. by apply N.eqb_eq.
Qed.

Lemma subject_conversation_Ok c subject :
  subject_conversation c = Ok subject -> subject = MkSubject Conversation c /\ uuid_is_nil c = false.
Proof. unfold subject_conversation, subject_new. destruct (uuid_is_nil c); [done|]. by intros [= <-]. Qed.

Lemma settled_edit subject root_id l s s' :
  quiet subject root_id (owner <$> roots s !! root_id) l -> edit l s s' ->
  (subject, root_id) ∈ settled s ->
  (subject, root_id) ∈ settled s'
  /\ roots s' !! root_id = roots s !! root_id
  /\ (forall g, g ∈ grants s' -> reaches subject root_id g -> g ∈ grants s).
Proof.
  intros Hq He Hin. destruct He; cbn in Hq.
  - done.
  - apply ensure_default_Ok in H1 as (new & -> & Hm & Hnew). cbn. split_and!; [set_solver|done|].
    intros g [Hg|Hg]%elem_of_app Hr; [done|]. rewrite Forall_forall in Hm.
    destruct (minted_reaches _ _ _ _ _ (Hm g Hg) Hr) as [-> ->].
    rewrite (Hnew Hin) in Hg. by apply not_elem_of_nil in Hg.
  - destruct H as (_ & _ & _ & Hs). assert (Hne : root_id0 <> root_id) by (intros ->; by eapply Hs).
    cbn. split_and!; [set_solver|by rewrite lookup_insert_ne|].
    intros g [Hg|Hg]%elem_of_app Hr; [done|]. rewrite Forall_forall in H0.
    by destruct (minted_reaches _ _ _ _ _ (H0 g Hg) Hr) as [_ ->].
  - done.
  - cbn. split_and!; [apply elem_of_filter; naive_solver|by rewrite lookup_delete_ne|].
    intros g Hg _. by apply retain_elem in Hg as [].
  - cbn. split_and!; [done..|]. intros g Hg _. by eapply remove_statement_sub.
  - done.
  - apply subject_conversation_Ok in H as [-> _]. destruct Hq as [Hq1 Hq2].
    destruct (purge_spares (MkSubject Conversation c) c s subject root_id) as [H1 H2]; [done..|].
    split_and!; [done..|]. intros g Hg _. by eapply purge_grants_sub.
  - cbn. split_and!; [done..|]. intros g' [Hg|Hg]%elem_of_app [Hr1 Hr2]; [done|].
    apply list_elem_of_singleton in Hg as ->. rewrite H0 in Hr2. apply N.eqb_eq in Hr2.
    naive_solver.
  - cbn. split_and!; [done..|]. intros g [Hg|Hg]%elem_of_app [_ Hr]; [by apply retain_elem in Hg as []|].
    rewrite Forall_forall in H. destruct (H g Hg) as [_ Hn]. unfold native_scope in Hn.
    by destruct (grant_scope g).
Qed.

(** Once a subject's position on a root is settled, the root's access for
    that subject only narrows.  Along any run of the broker in which the subject
    gets no fresh consent for that root through the permission dialog, the root is
    not forgotten and neither the subject's nor the owner's conversation is
    purged, the pair stays settled and every grant by which the subject reaches
    the root was already held at the start.  Re-attaching, registering the folder
    again or any other request mints nothing. *)
Lemma settled_access_only_narrows `{HostPaths} ls sh sh' subject root_id :
  bsteps ls sh sh' -> (subject, root_id) ∈ settled (state sh) ->
  Forall (quiet subject root_id (owner <$> roots (state sh) !! root_id)) ls ->
  (subject, root_id) ∈ settled (state sh')
  /\ (forall g, g ∈ grants (state sh') -> reaches subject root_id g -> g ∈ grants (state sh)).
Proof.
  intros Hrun Hin Hq.
  pose (P s := (subject, root_id) ∈ settled s /\ roots s !! root_id = roots (state sh) !! root_id
    /\ forall g, g ∈ grants s -> reaches subject root_id g -> g ∈ grants (state sh)).
  assert (HP : P (state sh')).
  { eapply (run_invariant P); [..|exact Hrun|exact Hq|by split].
    - intros s s' [Er Eg _ _ Es] (H1 & H2 & H3). unfold P. rewrite Er, Eg, Es. done.
    - intros l s s' Hl He (H1 & H2 & H3). rewrite <- H2 in Hl.
      destruct (settled_edit _ _ _ _ _ Hl He H1) as (? & ? & ?).
      split_and!; [done|congruence|eauto]. }
  by destruct HP as (? & _ & ?).
Qed.

(** ** Authorization *)

(** A grant by which [context] holds [c] over [path] of [root_id]. *)
Definition standing (s : State) (context : ExecutionContext) (c : Capability) (root_id : RootId)
    (path : RelativePath) (g : Grant) : Prop :=
  g ∈ grants s /\ grant_capability g = c
  /\ grant_subject_matches context (grant_subject g) = true
  /\ (grant_scope g = ScopeRoot root_id
      \/ exists prefix, grant_scope g = ScopePathSubtree root_id prefix
                        /\ segments prefix `prefix_of` segments path).

Lemma scope_covers_path sc root_id path :
  scope_covers sc (ResourcePath root_id path) = true <->
  sc = ScopeRoot root_id
  \/ exists prefix, sc = ScopePathSubtree root_id prefix
                    /\ segments prefix `prefix_of` segments path.
Proof.
  destruct sc as [|i|i q| |]; cbn; try (split; [done|naive_solver]).
  - rewrite N.eqb_eq. naive_solver.
  - rewrite andb_true_iff, N.eqb_eq, path_starts_with_true. naive_solver.
Qed.

Lemma authority_standing s context c root_id path g :
  g ∈ grants s /\ authority_for context c (ResourcePath root_id path) g = true
  <-> standing s context c root_id path g.
Proof.
  unfold authority_for, standing. rewrite !andb_true_iff, scope_covers_path, bool_decide_eq_true.
  naive_solver.
Qed.

Lemma authorize_path_Ok s context c root_id path id :
  authorize s context c (ResourcePath root_id path) = Ok id ->
  MkAttachment (ctx_conversation context) root_id ∈ attachments s
  /\ exists g, standing s context c root_id path g /\ grant_id g = id.
Proof.
  unfold authorize. cbn [attached].
  destruct (has_root_attachment _ _ _) eqn:Ea; cbn [negb]; [|done].
  apply has_root_attachment_true in Ea. intros Ho. split; [done|].
  destruct (List.find _ _) as [g|] eqn:Ef; [|done]. injection Ho as <-.
  exists g. split; [|done]. apply authority_standing, find_Some_elem, Ef.
Qed.

Lemma authorize_path_iff s context c root_id path :
  (exists id, authorize s context c (ResourcePath root_id path) = Ok id) <->
  MkAttachment (ctx_conversation context) root_id ∈ attachments s
  /\ exists g, standing s context c root_id path g.
Proof.
  transitivity (is_ok (authorize s context c (ResourcePath root_id path)) = true).
  { destruct (authorize _ _ _ _); naive_solver. }
  rewrite authorize_ok. cbn [attached]. rewrite has_root_attachment_true.
  setoid_rewrite authority_standing. done.
Qed.

(** a conversation reads a path of a connected root exactly when the broker
    is not closed, the root is registered and attached to the conversation, and
    its conversation or its project holds a read grant over the whole root or over
    a subtree the path is in, component by component.  The handle is the registered
    root's, and the identity answered is such a grant's. *)
Lemma reads_need_a_standing_grant sh context root_id path v :
  (exists id, authorized_root sh context root_id path = Ok (v, id)) <->
  failed_closed sh = false
  /\ (exists r, roots (state sh) !! root_id = Some r /\ root r = v)
  /\ MkAttachment (ctx_conversation context) root_id ∈ attachments (state sh)
  /\ exists g, standing (state sh) context ReadFiles root_id path g.
Proof.
  rewrite <- authorize_path_iff. unfold authorized_root, lock_state.
  destruct (failed_closed sh); cbn; [naive_solver|].
  destruct (authorize _ _ _ _) as [id|]; cbn; [|naive_solver].
  destruct (roots (state sh) !! root_id) as [r|]; cbn; naive_solver.
Qed.

(** [context] holds [c] over the whole root. *)
Definition holds_over_root (s : State) (context : ExecutionContext) (c : Capability)
    (root_id : RootId) : Prop :=
  MkAttachment (ctx_conversation context) root_id ∈ attachments s
  /\ exists g, g ∈ grants s /\ grant_subject_matches context (grant_subject g) = true
               /\ grant_capability g = c /\ grant_scope g = ScopeRoot root_id.

Lemma scope_covers_root sc root_id :
  scope_covers sc (ResourceRoot root_id) = true <-> sc = ScopeRoot root_id.
Proof. destruct sc; cbn; try (split; done). rewrite N.eqb_eq. naive_solver. Qed.

Lemma authorize_root_iff s context c root_id :
  is_ok (authorize s context c (ResourceRoot root_id)) = true
  <-> holds_over_root s context c root_id.
Proof.
  rewrite authorize_ok. cbn [attached]. rewrite has_root_attachment_true.
  unfold authority_for, holds_over_root. setoid_rewrite andb_true_iff.
  setoid_rewrite andb_true_iff. setoid_rewrite scope_covers_root.
  setoid_rewrite bool_decide_eq_true. naive_solver.
Qed.

Lemma exec_reach_iff s context root_id :
  is_ok (authorize_exec_reach s context root_id) = true <->
  holds_over_root s context ReadFiles root_id /\ holds_over_root s context ExecuteCommands root_id.
Proof.
  rewrite <- !authorize_root_iff. unfold authorize_exec_reach.
  destruct (authorize s context ReadFiles _); cbn; naive_solver.
Qed.

Section ResolveRoots.
Context (current : ValidatedRoot -> result IoKind string) (s : State) (context : ExecutionContext).

(** What a resolved root promises. *)
Definition resolved (e : ResolvedExecRoot) : Prop :=
  holds_over_root s context ReadFiles (er_root_id e)
  /\ holds_over_root s context ExecuteCommands (er_root_id e)
  /\ (exists r, roots s !! er_root_id e = Some r /\ current (root r) = Ok (er_path e))
  /\ (er_writable e = true <-> holds_over_root s context WriteFiles (er_root_id e)).

Definition resolvable (i : RootId) : Prop :=
  holds_over_root s context ReadFiles i /\ holds_over_root s context ExecuteCommands i
  /\ is_Some (roots s !! i).

Lemma resolve_loop_Ok ids seen l :
  resolve_loop current s context seen ids = Ok l ->
  NoDup (map er_root_id l)
  /\ Forall resolved l
  /\ forall i, i ∈ map er_root_id l <-> i ∈ ids /\ i ∉ seen /\ resolvable i.
Proof.
  revert seen l. induction ids as [|i ids IH]; intros seen l; cbn [resolve_loop].
  { intros [= <-]. split_and!; [constructor|constructor|set_solver]. }
  assert (Hskip : forall l, ~ (i ∉ seen /\ resolvable i) ->
    resolve_loop current s context ({[i]} ∪ seen) ids = Ok l ->
    NoDup (map er_root_id l) /\ Forall resolved l
    /\ forall j, j ∈ map er_root_id l <-> j ∈ i :: ids /\ j ∉ seen /\ resolvable j).
  { intros l' Hn (H1 & H2 & H3)%IH. split_and!; [done..|]. intros j. rewrite H3.
    destruct (decide (j = i)) as [->|]; [|set_solver]. split; [set_solver|tauto]. }
  case_bool_decide as Hs; cbn [orb]; [apply Hskip; tauto|].
  destruct (is_ok (authorize_exec_reach s context i)) eqn:Er; cbn [negb].
  2:{ apply Hskip. intros (_ & H1 & H2 & _).
      by rewrite (proj2 (exec_reach_iff s context i)) in Er. }
  apply exec_reach_iff in Er as [Hr He].
  destruct (roots s !! i) as [r|] eqn:Ei.
  2:{ apply Hskip. intros (_ & _ & _ & []). congruence. }
  destruct (current (root r)) as [path|] eqn:Ec; [|done].
  destruct (resolve_loop _ _ _ _ ids) as [rest|] eqn:El; cbn; [|done]. intros [= <-].
  destruct (IH _ _ El) as (H1 & H2 & H3). cbn. split_and!.
  - constructor; [|done]. rewrite H3. set_solver.
  - constructor; [|done]. split_and!; [done..|by exists r|]. apply authorize_root_iff.
  - intros j. rewrite !elem_of_cons, H3. split.
    + intros [->|(? & ? & ?)]; [|set_solver]. split_and!; [by left|done|]. split_and!; [done..|by exists r].
    + intros (Hj & ? & ?). destruct (decide (j = i)); [by left|right]. set_solver.
Qed.
End ResolveRoots.

(** the roots a command runs with are exactly the requested ones this
    conversation may execute in: attached, with a read and an execute grant over
    the whole root, and registered.  Each appears once however often it is named,
    with the path its pinned directory still has, and is writable exactly when a
    write grant covers the whole root.  More than 32 identities are refused. *)
Lemma exec_roots_are_exactly_the_granted current s context ids l :
  resolve_exec_roots current s context ids = Ok l ->
  length ids <= 32
  /\ NoDup (map er_root_id l)
  /\ Forall (resolved current s context) l
  /\ (forall i, i ∈ map er_root_id l <-> i ∈ ids /\ resolvable s context i).
Proof.
  unfold resolve_exec_roots. destruct (Nat.ltb_spec MAX_RESOLVE_EXEC_ROOTS (length ids)) as [|Hl];
    [done|]. intros (H1 & H2 & H3)%resolve_loop_Ok. split_and!; [done..|].
  intros i. rewrite H3. set_solver.
Qed.

(** ** Grants stay well-formed *)
Lemma minted_ok subject i l : Forall (minted subject i) l -> Forall grant_ok l.
Proof. intros Hl. eapply Forall_impl; [exact Hl|]. by intros g []. Qed.

Lemma grants_ok_edit l s s' : edit l s s' -> Forall grant_ok (grants s) -> Forall grant_ok (grants s').
Proof.
  intros He Hg. destruct He; cbn; try done.
  - apply ensure_default_Ok in H1 as (new & -> & Hm & _). apply Forall_app. eauto using minted_ok.
  - apply Forall_app. eauto using minted_ok.
  - by apply filter_Forall.
  - rewrite Forall_forall in *. intros g Hin. eapply Hg, remove_statement_sub; eauto.
  - rewrite Forall_forall in *. intros g Hin. eapply Hg, purge_grants_sub; eauto.
  - apply Forall_app. split; [done|]. by constructor.
  - apply Forall_app. split; [by apply filter_Forall|]. eapply Forall_impl; [exact H|]. by intros g [].
Qed.

Lemma grants_ok_run `{HostPaths} ls sh sh' :
  bsteps ls sh sh' -> Forall grant_ok (grants (state sh)) -> Forall grant_ok (grants (state sh')).
Proof.
  intros Hrun. eapply (run_invariant (fun s => Forall grant_ok (grants s)) (fun _ => True)).
  - intros s s' Hs. by rewrite (sa_grants _ _ Hs).
  - intros l s s' _. apply grants_ok_edit.
  - exact Hrun.
  - by apply Forall_true.
Qed.

(** every grant a run of the broker ends with has a scope its capability
    takes, and none is over a protected application: whatever is asked, and
    whatever was consented to, computer use of the login window, the keychain, the
    system settings or Tidebreak itself is never authorized. *)
Lemma protected_apps_are_never_authorized `{HostPaths} ls sh sh' :
  bsteps ls sh sh' -> Forall grant_ok (grants (state sh)) ->
  Forall (fun g => validate_capability_scope (grant_capability g) (grant_scope g) = Ok tt)
    (grants (state sh'))
  /\ forall context c bundle_id, is_blocked_control_bundle bundle_id = true ->
       authorize_computer_use (state sh') context c bundle_id = Err Denied.
Proof.
  intros Hrun Hg. pose proof (grants_ok_run _ _ _ Hrun Hg) as Hg'. split.
  { eapply Forall_impl; [exact Hg'|]. by intros g []. }
  intros context c b Hb. unfold authorize_computer_use.
  destruct (List.find _ _) as [g|] eqn:E; [exfalso|done].
  apply find_Some_elem in E as [Hin [[_ Hs]%andb_prop _]%andb_prop].
  apply bool_decide_eq_true in Hs. rewrite Forall_forall in Hg'.
  destruct (Hg' g Hin) as [_ Hok]. rewrite Hs in Hok. congruence.
Qed.

(** ** Forgetting a root *)

Lemma authorize_retain s s' context c r f :
  grants s' = retain f (grants s) -> attached s' context r = attached s context r ->
  (attached s context r = true ->
   forall g, g ∈ grants s -> authority_for context c r g = true -> f g = true) ->
  authorize s' context c r = authorize s context c r.
Proof.
  intros Hg Ha Hf. unfold authorize. rewrite Ha.
  destruct (attached s context r); cbn [negb]; [|done]. rewrite Hg.
  do 2 f_equal. apply find_retain. intros g Hin Hm. by apply Hf.
Qed.

Lemma has_attachment_retain s s' f c i :
  attachments s' = retain f (attachments s) -> f (MkAttachment c i) = true ->
  has_root_attachment s' c i = has_root_attachment s c i.
Proof.
  intros Ha Hf. apply eq_true_iff_eq. rewrite !has_root_attachment_true, Ha, retain_elem. tauto.
Qed.

(** The root a resource is of. *)
Definition resource_root (r : Resource) : option RootId :=
  match r with
  | ResourceSubject => None
  | ResourceRoot i | ResourcePath i _ => Some i
  end.

Lemma unattached_denied s context c r i :
  resource_root r = Some i -> MkAttachment (ctx_conversation context) i ∉ attachments s ->
  authorize s context c r = Err Denied.
Proof.
  intros Hr Hn. unfold authorize. replace (attached s context r) with false; [done|].
  symmetry. apply not_true_iff_false. destruct r; cbn in *; try done; injection Hr as ->;
    by rewrite has_root_attachment_true.
Qed.

Lemma authority_targets context c r i j g :
  resource_root r = Some i -> authority_for context c r g = true ->
  scope_targets_root (grant_scope g) j = true -> i = j.
Proof.
  intros Hr [[_ _]%andb_prop Hc]%andb_prop Ht.
  destruct r, (grant_scope g); cbn in *; try done; injection Hr as <-;
    try apply andb_prop in Hc as [Hc _]; apply N.eqb_eq in Hc, Ht; congruence.
Qed.

Lemma forget_root_denies s i context c r :
  resource_root r = Some i -> authorize (forget_root i s) context c r = Err Denied.
Proof.
  intros Hr. eapply unattached_denied; [done|]. cbn. rewrite retain_elem. cbn.
  rewrite N.eqb_refl. naive_solver.
Qed.

Lemma subject_scope_no_root context c g j :
  authority_for context c ResourceSubject g = true -> scope_targets_root (grant_scope g) j = false.
Proof. intros [_ Hc]%andb_prop. by destruct (grant_scope g). Qed.

Lemma forget_root_spares s i context c r :
  resource_root r <> Some i -> authorize (forget_root i s) context c r = authorize s context c r.
Proof.
  intros Hr. eapply authorize_retain; [done| |].
  - destruct r; cbn [resource_root attached] in *; [done|..];
      (eapply has_attachment_retain; [done|]; apply negb_true_iff, N.eqb_neq; cbn; congruence).
  - intros _ g _ Hg. apply negb_true_iff, not_true_iff_false. intros Ht.
    destruct (resource_root r) as [j|] eqn:E.
    + apply Hr. f_equal. by eapply authority_targets.
    + destruct r; try done. apply (subject_scope_no_root _ _ _ i) in Hg. congruence.
Qed.

Lemma authorize_same_authority s s' context c r :
  same_authority s s' -> authorize s' context c r = authorize s context c r.
Proof.
  intros Hs. apply authorize_retain with (f := fun _ => true).
  - rewrite (sa_grants _ _ Hs). symmetry. by apply retain_all, Forall_true.
  - destruct r; cbn; try done; unfold has_root_attachment; by rewrite (sa_attachments _ _ Hs).
  - done.
Qed.

(** What the owner's revocation of a registered root leaves. *)
Lemma revoke_root_runs save sh op subject root_id r :
  failed_closed sh = false -> mutations (state sh) !! op = None ->
  roots (state sh) !! root_id = Some r -> owner r = subject ->
  has_physical_root_alias (state sh) root_id = false ->
  exists next,
    revoke_root save sh op subject root_id = commit_with save sh next (Ok (MkRevokeResult true))
    /\ same_authority (forget_root root_id (set_unavailable
         (retain (fun u => negb (N.eqb (un_id u) root_id)) (unavailable (state sh))) (state sh))) next
    /\ mutations next !! op = Some (MRevoke (MkRevokeFp subject root_id)
         (Complete (Ok (MkRevokeResult true)))).
Proof.
  intros Hc Hm Hr Ho Ha. unfold revoke_root, lock_state. rewrite Hc. unfold claim_revoke.
  rewrite Hm. cbn [begin_mutation set_active set_mutations roots]. rewrite Hr, Ho.
  rewrite bool_decide_eq_true_2 by done.
  match goal with |- context [has_physical_root_alias ?s _] =>
    change (has_physical_root_alias s root_id)
      with (has_physical_root_alias (state sh) root_id) end.
  rewrite Ha, orb_true_r.
  cbv iota zeta. unfold complete_revoke.
  cbn [forget_root mutations set_unavailable].
  unfold begin_mutation at 1. cbn [mutations set_active set_mutations].
  rewrite lookup_insert_eq, bool_decide_eq_true_2 by done.
  eexists. split; [done|]. split; [by split|]. cbn. by rewrite lookup_insert_eq.
Qed.

(** when a root's owner revokes it, the folder is gone from the broker.  The
    registration, every grant over it or a subtree of it and every attachment to
    it, of any conversation or project, are dropped, so no context is authorized
    for it any more, while authorization for everything else answers as before.
    Asking again under the same identity gives the same answer and changes
    nothing, and a save that fails leaves the state as it was. *)
Lemma revocation_forgets_the_root sh op subject root_id r :
  failed_closed sh = false -> mutations (state sh) !! op = None ->
  roots (state sh) !! root_id = Some r -> owner r = subject ->
  has_physical_root_alias (state sh) root_id = false ->
  exists sh', revoke_root None sh op subject root_id = (Ok (MkRevokeResult true), sh')
  /\ roots (state sh') = delete root_id (roots (state sh))
  /\ Forall (fun g => scope_targets_root (grant_scope g) root_id = false) (grants (state sh'))
  /\ (forall context c resource, authorize (state sh') context c resource =
        if bool_decide (resource_root resource = Some root_id) then Err Denied
        else authorize (state sh) context c resource)
  /\ (forall save, revoke_root save sh' op subject root_id = (Ok (MkRevokeResult true), sh'))
  /\ (forall e, state (revoke_root (Some e) sh op subject root_id).2 = state sh).
Proof.
  intros Hc Hm Hr Ho Ha.
  destruct (revoke_root_runs None sh op subject root_id r) as (next & E & Hs & Hn); [done..|].
  exists (set_state next sh). rewrite E. change (state (set_state next sh)) with next.
  split_and!; [done|..].
  - by rewrite (sa_roots _ _ Hs).
  - rewrite (sa_grants _ _ Hs). apply Forall_forall. intros g [_ Hg]%retain_elem.
    by apply negb_true_iff in Hg.
  - intros context c resource. rewrite (authorize_same_authority _ _ _ _ _ Hs).
    case_bool_decide as Hres; [by apply forget_root_denies|].
    by rewrite forget_root_spares.
  - intros save. unfold revoke_root, lock_state. cbn [failed_closed state set_state]. rewrite Hc.
    unfold claim_revoke. rewrite Hn. by rewrite bool_decide_eq_true_2.
  - intros e. destruct (revoke_root_runs (Some e) sh op subject root_id r) as (n & -> & _);
      [done..|]. unfold commit_with, commit_state. by destruct e.
Qed.

(** ** Purging *)
Lemma shrank_false {A} (f : A -> bool) l : shrank l (retain f l) = false -> retain f l = l.
Proof.
  unfold shrank, retain. rewrite negb_false_iff, Nat.eqb_eq. induction l as [|x l IH]; cbn; [done|].
  destruct (f x); cbn; [intros [= E]; by rewrite IH|].
  pose proof (List.filter_length_le f l). lia.
Qed.

(** A purge that reports no change found none of the conversation's access. *)
Lemma purge_unchanged subject c s :
  (purge subject c s).1 = false ->
  (forall g, g ∈ grants s -> purged_grant subject g = false)
  /\ (forall i, MkAttachment c i ∉ attachments s).
Proof.
  unfold purge. set (b := _ || _). match goal with |- context [foldl drop_owned (b, ?s0) ?l] =>
    pose proof (foldl_drop_changed l s0) as Hch; destruct b eqn:Eb;
    [destruct (foldl drop_owned (true, s0) l) as [b1 s1]; cbn in Hch; subst b1;
     destruct (owned_unavailable s1 subject); by intros ?|] end.
  intros _. unfold b in Eb. apply orb_false_iff in Eb as [[Hg%shrank_false Ha%shrank_false]%orb_false_iff _].
  split.
  - intros g Hin. rewrite <- Hg in Hin. apply retain_elem in Hin as [_ Hf]. unfold purged_grant.
    by rewrite <- negb_true_iff, negb_andb, negb_involutive.
  - intros i Hin. rewrite <- Ha in Hin. apply retain_elem in Hin as [_ Hf]. cbn in Hf.
    by rewrite N.eqb_refl in Hf.
Qed.

Lemma owned_unavailable_elem s subject i :
  i ∈ owned_unavailable s subject -> exists u, u ∈ unavailable s /\ un_id u = i.
Proof.
  unfold owned_unavailable. rewrite list_elem_of_fmap. intros (u & -> & [Hu _]%retain_elem). eauto.
Qed.

(** Another conversation's authority is not among what a purge drops. *)
Lemma purge_spares_authority c s context cap r :
  set_aside_apart s -> ctx_conversation context <> c ->
  authorize (purge (MkSubject Conversation c) c s).2 context cap r = authorize s context cap r.
Proof.
  intros Hapart Hne. set (subject := MkSubject Conversation c).
  destruct (purge_unfold subject c s) as (s1 & [_ (f & G & F) A _] & U & _ & Ea & _ & Eg & _).
  set (h := fun g : Grant => negb (existsb (scope_targets_root (grant_scope g))
                                     (owned_unavailable s1 subject))) in Eg.
  apply authorize_retain with
    (f := fun g => negb (purged_grant subject g) && (f g && h g)).
  - rewrite Eg, G. cbn [after_retain grants]. by rewrite !retain_retain.
  - destruct r; cbn [attached]; [done|..]; rewrite A in Ea;
      (eapply has_attachment_retain; [exact Ea|]; cbn; by apply negb_true_iff, N.eqb_neq).
  - intros Hatt g Hg Hm.
    assert (Hlive : forall j, scope_targets_root (grant_scope g) j = true ->
              live (after_retain subject c s) j).
    { intros j Ht. destruct (resource_root r) as [i|] eqn:Ei.
      - pose proof (authority_targets _ _ _ _ _ _ Ei Hm Ht) as ->.
        exists (ctx_conversation context). apply retain_elem. cbn. split.
        + apply has_root_attachment_true. by destruct r; [|injection Ei as ->..].
        + by apply negb_true_iff, N.eqb_neq.
      - destruct r; try done. by rewrite (subject_scope_no_root _ _ _ j Hm) in Ht. }
    rewrite !andb_true_iff. split_and!.
    + unfold purged_grant. rewrite negb_andb. apply orb_true_iff. left.
      apply negb_true_iff, bool_decide_eq_false. intros E.
      apply andb_prop in Hm as [[Hm _]%andb_prop _]. rewrite E in Hm. cbn in Hm.
      by apply N.eqb_eq in Hm.
    + apply not_false_iff_true. intros Hf. destruct (F g Hf) as (j & _ & Hl & Ht).
      by apply Hl, Hlive.
    + unfold h. apply negb_true_iff, not_true_iff_false. intros (j & Hj & Ht)%existsb_true.
      apply owned_unavailable_elem in Hj as (u & Hu & <-). rewrite U in Hu. cbn in Hu.
      apply list_elem_of_fmap in Hu as (u0 & -> & Hu0). destruct (Hapart u0 Hu0).
      destruct (Hlive _ Ht) as [c' Hin]. apply retain_elem in Hin as [Hin _]. by exists c'.
Qed.

(** purging a conversation takes away what it was given and nothing else.
    Afterwards it has no attachment to any root, so none of its operations is
    authorized for a root, and no grant of its own is left but those over an app
    for every session; every other conversation is authorized for exactly what it
    was before, by the same grants.  (The roots set aside at load are assumed to
    keep their attachments with them.) *)
Lemma purge_takes_only_the_conversation sh c :
  failed_closed sh = false -> uuid_is_nil c = false -> set_aside_apart (state sh) ->
  let s' := state (purge_conversation_subject None sh c).2 in
  (forall context cap r, ctx_conversation context = c -> resource_root r <> None ->
     authorize s' context cap r = Err Denied)
  /\ (forall g, g ∈ grants s' -> grant_subject g = MkSubject Conversation c ->
        native_app_all_sessions g = true)
  /\ (forall context cap r, ctx_conversation context <> c ->
        authorize s' context cap r = authorize (state sh) context cap r).
Proof.
  intros Hc Hnil Hapart. unfold purge_conversation_subject, subject_conversation, subject_new.
  rewrite Hnil. unfold lock_state. rewrite Hc.
  set (subject := MkSubject Conversation c).
  assert (Hdone : forall s', (forall i, MkAttachment c i ∉ attachments s') ->
    (forall g, g ∈ grants s' -> purged_grant subject g = false) ->
    (forall context cap r, ctx_conversation context = c -> resource_root r <> None ->
       authorize s' context cap r = Err Denied)
    /\ (forall g, g ∈ grants s' -> grant_subject g = subject -> native_app_all_sessions g = true)).
  { intros s' Ha Hg. split.
    - intros context cap r <- Hr. destruct (resource_root r) as [i|] eqn:E; [|done].
      eapply unattached_denied; eauto.
    - intros g Hin Hs. specialize (Hg g Hin). unfold purged_grant in Hg.
      rewrite bool_decide_eq_true_2 in Hg by done. by apply negb_false_iff in Hg. }
  destruct (purge subject c (state sh)) as [[] next] eqn:E; cbn.
  - replace next with (purge subject c (state sh)).2 by (by rewrite E).
    destruct (purge_unfold subject c (state sh)) as (s1 & [_ (f & G & _) A _] & _ & _ & Ea & _ & Eg & _).
    destruct (Hdone (purge subject c (state sh)).2) as [H1 H2].
    + intros i. rewrite Ea, A. cbn. rewrite retain_elem. cbn. rewrite N.eqb_refl. naive_solver.
    + intros g. rewrite Eg, G. intros [[Hg _]%retain_elem _]%retain_elem.
      apply retain_elem in Hg as [_ Hg]. by apply negb_true_iff in Hg.
    + split_and!; [done..|]. intros context cap r Hne. by apply purge_spares_authority.
  - destruct (purge_unchanged subject c (state sh)) as [Hg Ha]; [by rewrite E|].
    destruct (Hdone (state sh)) as [H1 H2]; [done..|]. by split_and!.
Qed.
