(* ===== verification/HostReceipts.v ===== *)
(** * Host broker: receipts

    Every mutation is recorded under its operation identity.  Records of
    registrations and revocations are kept for good; those of attachments and
    writes only for the last [MAX_RETAINED_MUTATION_RECEIPTS]. *)

From S2P Require Export HostBrokerTheorems.

(** ** Pruning *)
Definition overflow (order : list OperationId) : nat :=
  length order - MAX_RETAINED_MUTATION_RECEIPTS.

Definition forget_all (ms : gmap OperationId MutationRecord) (ids : list OperationId) :=
  foldl (fun m i => delete i m) ms ids.

Lemma forget_all_lookup ms ids i :
  forget_all ms ids !! i = if bool_decide (i ∈ ids) then None else ms !! i.
Proof.
  revert ms. unfold forget_all. induction ids as [|j ids IH]; intros ms; cbn [foldl].
  { by rewrite bool_decide_eq_false_2 by apply not_elem_of_nil. }
  rewrite IH. destruct (decide (i = j)) as [->|Hne].
  - rewrite lookup_delete_eq, (bool_decide_eq_true_2 (j ∈ j :: ids)) by set_solver.
    by case_bool_decide.
  - rewrite lookup_delete_ne by done.
    by rewrite (bool_decide_ext (i ∈ ids) (i ∈ j :: ids)) by set_solver.
Qed.

Lemma prune_drops ms order :
  prune_mutation_receipts ms order
  = (forget_all ms (take (overflow order) order), drop (overflow order) order).
Proof.
  revert ms. induction order as [|i order IH]; intros ms; cbn [prune_mutation_receipts].
  { unfold overflow. by rewrite take_nil, drop_nil. }
  destruct (Nat.ltb_spec MAX_RETAINED_MUTATION_RECEIPTS (length (i :: order))) as [Hlt|Hge].
  - rewrite IH. assert (E : overflow (i :: order) = S (overflow order)).
    { unfold overflow. cbn [length] in *. rewrite Nat.sub_succ_l; [done|]. by apply Nat.lt_succ_r. }
    by rewrite E.
  - assert (E : overflow (i :: order) = 0) by (unfold overflow; by apply Nat.sub_0_le).
    by rewrite E.
Qed.

(** The books of a state: each retained receipt is a finished attachment or write
    and each such record is retained, once, and there are never too many. *)
Record books_ok (s : State) : Prop := {
  bo_length : length (receipt_order s) <= MAX_RETAINED_MUTATION_RECEIPTS;
  bo_nodup : NoDup (receipt_order s);
  bo_retained : forall i, i ∈ receipt_order s <->
    exists r, mutations s !! i = Some r /\ is_prunable_receipt r = true
}.

Lemma prunable_not_pending r : is_prunable_receipt r = true -> record_pending r = false.
Proof. by destruct r as [? []|? []|? []|? []]. Qed.

Lemma NoDup_split {A} (n : nat) (l : list A) x :
  NoDup l -> x ∈ l -> x ∈ drop n l <-> x ∉ take n l.
Proof.
  intros Hnd Hx. rewrite <- (take_drop n l) in Hnd, Hx. apply NoDup_app in Hnd as (_ & Hd & _).
  apply elem_of_app in Hx. specialize (Hd x). tauto.
Qed.

(** What retaining the receipt of [i] makes of a state's books. *)
Lemma retain_receipt_books s i r0 r :
  books_ok s -> mutations s !! i = Some r0 -> record_pending r0 = true ->
  is_prunable_receipt r = true ->
  let s' := retain_mutation_receipt (end_mutation s i r) i in
  books_ok s'
  /\ length (receipt_order s) <= length (receipt_order s')
  /\ (forall j, j <> i -> j ∉ receipt_order s -> mutations s' !! j = mutations s !! j)
  /\ (forall j, mutations s' !! j = None \/ mutations s' !! j = (<[i := r]> (mutations s)) !! j)
  /\ (forall j, mutations s' !! j = None -> mutations s !! j <> None ->
        length (receipt_order s') = MAX_RETAINED_MUTATION_RECEIPTS).
Proof.
  intros [Hlen Hnd Hret] Hi Hp Hr. cbn zeta. unfold retain_mutation_receipt.
  rewrite prune_drops. set (order := receipt_order (end_mutation s i r) ++ [i]).
  set (n := overflow order).
  assert (Hni : i ∉ receipt_order s).
  { rewrite Hret. intros (r' & E & Hr'). apply prunable_not_pending in Hr'. congruence. }
  assert (Hnd' : NoDup order).
  { apply NoDup_app. split_and!; [done| |apply NoDup_singleton].
    intros x Hx. rewrite list_elem_of_singleton. by intros ->. }
  assert (Hlo : length order = S (length (receipt_order s)))
    by (unfold order; rewrite length_app; cbn; lia).
  assert (Hin : forall j, j ∈ order <-> exists r', <[i := r]> (mutations s) !! j = Some r'
                                             /\ is_prunable_receipt r' = true).
  { intros j. unfold order. rewrite elem_of_app, list_elem_of_singleton. cbn [receipt_order end_mutation
      set_active set_mutations]. rewrite Hret. destruct (decide (j = i)) as [->|Hne].
    - rewrite lookup_insert_eq. naive_solver.
    - rewrite lookup_insert_ne by done. naive_solver. }
  assert (Hdrop : length (drop n order) = length order - n) by apply length_drop.
  assert (Hsub : forall j, j ∈ take n order -> j ∈ order).
  { intros j Hj. rewrite <- (take_drop n order). apply elem_of_app. by left. }
  cbn [mutations receipt_order set_receipt_order set_mutations end_mutation set_active].
  split_and!.
  - split; cbn [mutations receipt_order set_receipt_order set_mutations end_mutation set_active].
    + rewrite Hdrop. unfold n, overflow. lia.
    + rewrite <- (take_drop n order) in Hnd'. by apply NoDup_app in Hnd' as (_ & _ & ?).
    + intros j. rewrite forget_all_lookup. destruct (decide (j ∈ order)) as [Hj|Hj].
      * rewrite (NoDup_split n order j Hnd' Hj). case_bool_decide; [naive_solver|].
        split; [|done]. intros _. by apply Hin.
      * rewrite bool_decide_eq_false_2 by auto. rewrite <- Hin.
        split; [|done]. intros Hd. rewrite <- (take_drop n order). apply elem_of_app. by right.
  - rewrite Hdrop. unfold n, overflow. lia.
  - intros j Hji Hj. rewrite forget_all_lookup, bool_decide_eq_false_2;
      [by rewrite lookup_insert_ne|]. intros Ht%Hsub.
    apply elem_of_app in Ht as [?|?%list_elem_of_singleton]; done.
  - intros j. rewrite forget_all_lookup. case_bool_decide; auto.
  - intros j. rewrite forget_all_lookup. case_bool_decide as Ht.
    + intros _ _. assert (0 < n) by (destruct n; [by apply not_elem_of_nil in Ht|lia]).
      rewrite Hdrop. unfold n, overflow in *. lia.
    + intros [Hn _]%lookup_insert_None. done.
Qed.

(** ** Receipts along a run *)
Lemma insert_books s i r s' :
  books_ok s -> (forall r0, mutations s !! i = Some r0 -> is_prunable_receipt r0 = false) ->
  is_prunable_receipt r = false ->
  mutations s' = <[i := r]> (mutations s) -> receipt_order s' = receipt_order s -> books_ok s'.
Proof.
  intros [Hl Hn Hr] H0 Hp Em Eo. split; rewrite ?Em, ?Eo; [done..|].
  intros j. rewrite Hr. destruct (decide (j = i)) as [->|Hne].
  - rewrite lookup_insert_eq. split; intros (x & E & Hx).
    + by rewrite (H0 x E) in Hx.
    + injection E as <-. congruence.
  - by rewrite lookup_insert_ne.
Qed.

Lemma pending_not_prunable r : record_pending r = true -> is_prunable_receipt r = false.
Proof. by destruct r as [? []|? []|? []|? []]. Qed.

Lemma books_edit s s' : book_edit s s' -> books_ok s -> books_ok s'.
Proof.
  intros He Hb. destruct He as [s i r E Hr|s x|s i r0 r E H0 _ _ Hr|s i r0 r E H0 _ Hr|s s' [Em Eo _]].
  - eapply insert_books; [exact Hb| |by apply pending_not_prunable|done|done]. naive_solver.
  - destruct Hb. by split.
  - eapply insert_books; [exact Hb| |exact Hr|done|done]. intros r1 E1.
    rewrite E in E1. injection E1 as <-. by apply pending_not_prunable.
  - by eapply retain_receipt_books.
  - destruct Hb. by split; rewrite ?Em, ?Eo.
Qed.

Lemma books_edits s s' : book_edits s s' -> books_ok s -> books_ok s'.
Proof. induction 1; eauto using books_edit. Qed.

Lemma books_run `{HostPaths} ls x sh : bsteps ls (shared_new x) sh -> books_ok (state sh).
Proof.
  intros Hrun. eapply book_invariant; [apply books_edit|exact Hrun|].
  split; cbn; [lia|constructor|]. intros i. split; [by intros ?%not_elem_of_nil|naive_solver].
Qed.

(** ** A record's fate *)

(** Records of registrations and revocations are never pruned. *)
Definition permanent (r : MutationRecord) : bool :=
  match r with MRegister _ _ | MRevoke _ _ => true | _ => false end.

(** [i] is still recorded with the request of [r], and with its result if [r] has
    one; unless the record is of the prunable kind and the order is full. *)
Definition recorded (i : OperationId) (r : MutationRecord) (s : State) : Prop :=
  permanent r = true \/ length (receipt_order s) < MAX_RETAINED_MUTATION_RECEIPTS ->
  exists r', mutations s !! i = Some r' /\ same_request r r' = true
             /\ (record_pending r = false -> r' = r).

Lemma order_grows s s' :
  book_edit s s' -> books_ok s -> length (receipt_order s) <= length (receipt_order s').
Proof.
  intros He Hb. destruct He as [| | |s i r0 r E H0 _ Hr|s s' [_ -> _]]; cbn; try lia.
  by destruct (retain_receipt_books s i r0 r Hb E H0 Hr) as (_ & ? & _).
Qed.

Lemma permanent_same r r' : same_request r r' = true -> permanent r = permanent r'.
Proof. by destruct r, r'. Qed.

Lemma permanent_not_prunable r : permanent r = true -> is_prunable_receipt r = false.
Proof. by destruct r. Qed.

(** Finishing [i]'s own pending record, or another's. *)
Lemma recorded_insert i r j r0 r1 s :
  recorded i r s -> mutations s !! j = Some r0 -> record_pending r0 = true ->
  same_request r0 r1 = true ->
  permanent r = true \/ length (receipt_order s) < MAX_RETAINED_MUTATION_RECEIPTS ->
  exists r', <[j := r1]> (mutations s) !! i = Some r' /\ same_request r r' = true
             /\ (record_pending r = false -> r' = r).
Proof.
  intros Hrec Ej Hp Hs Hcond. destruct (Hrec Hcond) as (r' & Ei & Hsame & Hdone).
  destruct (decide (i = j)) as [->|Hne].
  - rewrite Ej in Ei. injection Ei as ->. exists r1. rewrite lookup_insert_eq.
    split_and!; [done|by eapply same_request_trans|]. intros Hr. rewrite (Hdone Hr) in Hp. congruence.
  - exists r'. by rewrite lookup_insert_ne.
Qed.

Lemma recorded_edit i r s s' :
  book_edit s s' -> books_ok s -> recorded i r s -> recorded i r s'.
Proof.
  intros He Hb Hrec Hcond. pose proof (order_grows _ _ He Hb) as Hgrow.
  assert (Hcond0 : permanent r = true \/ length (receipt_order s) < MAX_RETAINED_MUTATION_RECEIPTS).
  { destruct Hcond as [|Hc]; [by left|right]. by eapply Nat.le_lt_trans. }
  destruct He as [s j r1 E Hr1|s x|s j r0 r1 E H0 Hs _ _|s j r0 r1 E H0 Hs Hr1|s s' [Em _ _]].
  - destruct (Hrec Hcond0) as (r' & Ei & Hsame). exists r'. split; [|done]. cbn.
    rewrite lookup_insert_ne; [done|]. intros ->. congruence.
  - by apply Hrec.
  - by eapply recorded_insert.
  - destruct (recorded_insert _ _ _ _ _ _ Hrec E H0 Hs Hcond0) as (r' & Ei & Hsame).
    destruct (retain_receipt_books s j r0 r1 Hb E H0 Hr1) as (Hb' & _ & Hkeep & Hor & Hfull).
    exists r'. split; [|done]. rewrite <- Ei.
    destruct (Hor i) as [Hnone|]; [exfalso|done].
    destruct Hcond as [Hperm|Hlt].
    + destruct (decide (i = j)) as [->|Hne].
      * rewrite lookup_insert_eq in Ei. injection Ei as <-. destruct Hsame as [Hsame _].
        rewrite (permanent_same _ _ Hsame) in Hperm.
        apply permanent_not_prunable in Hperm. congruence.
      * destruct (Hrec Hcond0) as (r2 & Ei2 & Hsame2 & _).
        rewrite Hkeep in Hnone; [congruence|done|]. rewrite (bo_retained _ Hb).
        intros (r3 & Ei3 & Hp3). rewrite Ei2 in Ei3. injection Ei3 as <-.
        rewrite (permanent_same _ _ Hsame2) in Hperm.
        apply permanent_not_prunable in Hperm. congruence.
    + destruct (Hrec Hcond0) as (r2 & Ei2 & _). rewrite (Hfull i Hnone) in Hlt; [|congruence].
      by apply Nat.lt_irrefl in Hlt.
  - rewrite Em. by apply Hrec.
Qed.

(** ** Writes *)
Lemma write_begin_Go `{HostPaths} save sh context request recovering sh' :
  write_begin save sh context request = (Ok (WriteGo recovering), sh') ->
  exists outcome, mutations (state sh') !! wq_operation_id request
                  = Some (MWrite (write_fingerprint context request) outcome).
Proof.
  unfold write_begin. destruct (decode_write_content request); cbn; [|done].
  destruct (check_approval request); cbn; [|done].
  destruct (lock_state sh) as [s|]; [|done].
  destruct (claim_write _ _ _) as [[[b|answer]|] next] eqn:Ec; [|done..].
  destruct (authorize_write _ _ _ _); [|done].
  destruct (commit_state save sh next) as [[] sh1] eqn:Em; [|done]. intros [= -> <-].
  assert (E1 : state sh1 = next).
  { unfold commit_state in Em. destruct save as [[]|]; try done. by simplify_eq/=. }
  rewrite E1. revert Ec. unfold claim_write.
  destruct (mutations s !! _) as [[| | |existing outcome]|] eqn:Es; try done.
  - case_bool_decide as Hq; [|done]. destruct outcome; [|done]. unfold activate.
    case_bool_decide; [done|]. intros [= _ <-]. cbn. rewrite Es, Hq. eauto.
  - intros [= _ <-]. cbn. rewrite lookup_insert_eq. eauto.
Qed.

Lemma write_finish_recovering `{HostPaths} save sh host context request :
  (write_finish save sh host context request true).2 = false.
Proof.
  unfold write_finish. destruct (lock_state sh); [|done].
  destruct (authorize_write _ _ _ _); [destruct (wh_clone host); [done|]|];
    (destruct (complete_write _ _ _ _) as [next|]; [|done]);
    by destruct (commit_state save sh next) as [[] ?].
Qed.
