(* ===== verification/HostStateFile.v ===== *)
(** * Host broker: the state file

    [crates/tidebreak-host-broker/src/broker/state_file.rs]: what a save writes
    and what a start makes of it, between the parsed values.  The JSON text, its
    16 MiB limit and the atomic replacement of the file are not modelled; a save
    that fails is an input of [HostBroker.commit_state].  Reopening a root's
    directory is a parameter of [load]. *)

From S2P Require Export HostControl HostReceipts.
From stdpp Require Import sorting.

Record PersistedRoot : Type := MkPersistedRoot {
  pt_id : RootId; pt_owner : GrantSubject; pt_path : string; pt_identity : RootIdentity }.

Record PersistedState : Type := MkPersisted {
  ps_version : N; ps_roots : list PersistedRoot; ps_grants : list Grant;
  ps_attachments : list RootAttachment; ps_mutations : list (OperationId * MutationRecord);
  ps_settled : list (GrantSubject * RootId) }.

Definition STATE_VERSION : N := 5.

(** ** Saving *)

(** [sort_by_key(|..| id.to_string())]: the hyphenated hex text of an identity
    orders as its number. *)
Definition id_le {A} (id : A -> N) (a b : A) : Prop := (id a <= id b)%N.
#[export] Instance id_le_dec {A} (id : A -> N) a b : Decision (id_le id a b).
Proof. unfold id_le. apply _. Defined.
Definition by_id {A} (id : A -> N) (l : list A) : list A := merge_sort (id_le id) l.

Definition persist_live (e : RootId * RegisteredRoot) : PersistedRoot :=
  MkPersistedRoot e.1 (owner e.2) (canonical_path (root e.2)) (identity (root e.2)).

Definition persist_set_aside (u : UnavailableRoot) : PersistedRoot :=
  MkPersistedRoot (un_id u) (un_owner u) (un_path u) (un_identity u).

Definition persist_mutations (s : State) : list (OperationId * MutationRecord) :=
  by_id fst (List.filter (fun e => negb (existsb (N.eqb e.1) (receipt_order s)))
               (map_to_list (mutations s)))
  ++ omap (fun id => pair id <$> mutations s !! id) (receipt_order s).

Definition save_state (s : State) : PersistedState :=
  MkPersisted STATE_VERSION
    (by_id pt_id (map persist_live (map_to_list (roots s))
                  ++ map persist_set_aside (unavailable s)))
    (retain (fun g => negb (single_use g)) (grants s) ++ flat_map un_grants (unavailable s))
    (attachments s ++ flat_map un_attachments (unavailable s))
    (persist_mutations s)
    (elements (settled s)).

(** ** Loading *)
Definition invalid_data : BrokerError := Io IoOther.

Definition unavailable_reason (error : RootPolicyError) : UnavailableRootReason :=
  match error with
  | RootIo IoNotFound => Missing
  | RootIo IoPermissionDenied => ReasonPermissionDenied
  | RootIo _ => HostIo
  | _ => Rejected
  end.

Definition set_aside (item : PersistedRoot) (reason : UnavailableRootReason) : UnavailableRoot :=
  MkUnavailable (pt_id item) (pt_owner item) (pt_path item) (pt_identity item) reason [] [].

Section Load.
Context `{HostPaths}.
Context (open_root : string -> result RootPolicyError ValidatedRoot).

(** [Deserialize] of a grant and of an attachment: the checks of their
    constructors. *)
Definition wire_grant (g : Grant) : result GrantError Grant :=
  g' ← from_consent (grant_id g) (grant_subject g) (grant_capability g) (grant_scope g)
         (grant_consent g);
  let g' := if single_use g then into_single_use g' else g' in
  if native_app_all_sessions g then for_all_native_sessions g' else Ok g'.

Definition parses (p : PersistedState) : bool :=
  forallb (fun g => is_ok (wire_grant g)) (ps_grants p)
  && forallb (fun a => is_ok (attachment_new (att_conversation a) (att_root a)))
       (ps_attachments p).

(** The loop over the persisted roots. *)
Fixpoint load_roots (items : list PersistedRoot) (seen : gset RootId)
    (live : gmap RootId RegisteredRoot) (aside : list UnavailableRoot)
    : result BrokerError (gmap RootId RegisteredRoot * list UnavailableRoot) :=
  match items with
  | [] => Ok (live, aside)
  | item :: items =>
      if bool_decide (pt_id item ∈ seen) then Err invalid_data
      else
        let seen := {[pt_id item]} ∪ seen in
        match open_root (pt_path item) with
        | Ok validated =>
            if bool_decide (identity validated = pt_identity item) then
              load_roots items seen
                (<[pt_id item := MkRoot (pt_owner item)
                                   (root_display_name (canonical_path validated)) validated]> live)
                aside
            else load_roots items seen live (aside ++ [set_aside item Replaced])
        | Err error => load_roots items seen live (aside ++ [set_aside item (unavailable_reason error)])
        end
  end.

(** [carry_forward_exec_grants]; [ids] are the identities drawn. *)
Definition exec_covered (gs : list Grant) : list (GrantSubject * RootId) :=
  omap (fun g => match grant_capability g, grant_scope g with
                 | ExecuteCommands, ScopeRoot i => Some (grant_subject g, i)
                 | _, _ => None end) gs.

Fixpoint carried (gs : list Grant) (covered : gset (GrantSubject * RootId))
    : list (GrantSubject * RootId * Z) :=
  match gs with
  | [] => []
  | g :: gs =>
      match grant_capability g, grant_scope g with
      | ReadFiles, ScopeRoot i =>
          if bool_decide ((grant_subject g, i) ∈ covered) then carried gs covered
          else (grant_subject g, i, granted_at (grant_consent g))
                 :: carried gs ({[(grant_subject g, i)]} ∪ covered)
      | _, _ => carried gs covered
      end
  end.

Fixpoint carry_grants (ids : nat -> GrantId) (l : list (GrantSubject * RootId * Z))
    : result BrokerError (list Grant) :=
  match l with
  | [] => Ok []
  | (subject, i, at_) :: l =>
      g ← lift_grant (from_consent (ids (length l)) subject ExecuteCommands (ScopeRoot i)
                        (MkConsent CarriedForward at_));
      gs ← carry_grants ids l;
      Ok (g :: gs)
  end.

Definition carry_forward_exec_grants (ids : nat -> GrantId) (gs : list Grant)
    : result BrokerError (list Grant) :=
  new ← carry_grants ids (carried gs (list_to_set (exec_covered gs)));
  Ok (gs ++ new).

(** The positions a file older than the record is taken to have settled. *)
Definition inferred_settled (gs : list Grant) (atts : list RootAttachment)
    (live : gmap RootId RegisteredRoot) (aside : list UnavailableRoot)
    : gset (GrantSubject * RootId) :=
  list_to_set (omap (fun g => pair (grant_subject g) <$> scope_root (grant_scope g)) gs)
  ∪ list_to_set (omap (fun a => match subject_conversation (att_conversation a) with
                                | Ok subject => Some (subject, att_root a) | Err _ => None end) atts)
  ∪ list_to_set (map (fun e => (owner e.2, e.1)) (map_to_list live))
  ∪ list_to_set (map (fun u => (un_owner u, un_id u)) aside).

Definition is_set_aside (i : RootId) (aside : list UnavailableRoot) : bool :=
  existsb (fun u => N.eqb (un_id u) i) aside.

(** Each set-aside root takes its grants and attachments out of the live tables. *)
Fixpoint take_set_aside (aside : list UnavailableRoot) (gs : list Grant)
    (atts : list RootAttachment) : list UnavailableRoot * list Grant * list RootAttachment :=
  match aside with
  | [] => ([], gs, atts)
  | u :: aside =>
      let over g := scope_targets_root (grant_scope g) (un_id u) in
      let at_ a := N.eqb (att_root a) (un_id u) in
      let '(rest, gs', atts') := take_set_aside aside (retain (fun g => negb (over g)) gs)
                                   (retain (fun a => negb (at_ a)) atts) in
      (MkUnavailable (un_id u) (un_owner u) (un_path u) (un_identity u) (un_reason u)
         (retain over gs) (retain at_ atts) :: rest, gs', atts')
  end.

Fixpoint load_mutations (items : list (OperationId * MutationRecord))
    (ms : gmap OperationId MutationRecord) (order : list OperationId)
    : result BrokerError (gmap OperationId MutationRecord * list OperationId) :=
  match items with
  | [] => Ok (ms, order)
  | (id, record) :: items =>
      match ms !! id with
      | Some _ => Err invalid_data
      | None => load_mutations items (<[id := record]> ms)
                  (if is_prunable_receipt record then order ++ [id] else order)
      end
  end.

(** [validate_loaded_state], rule by rule. *)
Definition grant_over (g : Grant) (i : RootId) : bool := scope_targets_root (grant_scope g) i.

Definition valid_grant (s : State) (g : Grant) : bool :=
  match scope_root (grant_scope g) with
  | Some i => match roots s !! i with Some _ => true | None => false end
  | None => true
  end.

(** A subject an attachment of [conversation_id] may rest on. *)
Definition subject_of_attachment (subject : GrantSubject) (conversation_id : Uuid) : bool :=
  match subject_kind subject with
  | Project => true
  | Conversation => N.eqb (subject_id subject) conversation_id
  end.

Definition valid_attachment (s : State) (a : RootAttachment) : bool :=
  match roots s !! att_root a with
  | None => false
  | Some _ =>
      existsb (fun g => grant_over g (att_root a)
                        && subject_of_attachment (grant_subject g) (att_conversation a)) (grants s)
      || existsb (fun e => N.eqb e.2 (att_root a)
                           && subject_of_attachment e.1 (att_conversation a))
           (elements (settled s))
  end.

Definition settled_or_granted (s : State) (subject : GrantSubject) (i : RootId) : bool :=
  subject_has_any_root_grant s subject i || bool_decide ((subject, i) ∈ settled s).

Definition records (s : State) : list MutationRecord := map snd (map_to_list (mutations s)).

Definition was_revoked (s : State) (i : RootId) : bool :=
  existsb (fun r => match r with
                    | MRevoke revoke (Complete (Ok answer)) => revoked answer && N.eqb (vf_root revoke) i
                    | _ => false end) (records s).

Definition was_registered (s : State) (subject : GrantSubject) (i : RootId) : bool :=
  existsb (fun r => match r with
                    | MRegister register (Complete (Ok answer)) =>
                        N.eqb (sum_root_id (reg_root answer)) i
                        && bool_decide (rf_subject register = subject)
                    | _ => false end) (records s).

Definition valid_record (s : State) (r : MutationRecord) : bool :=
  match r with
  | MRegister request (Complete (Ok answer)) =>
      let i := sum_root_id (reg_root answer) in
      match roots s !! i with
      | Some q => String.eqb (display_name q) (sum_display_name (reg_root answer))
                  && settled_or_granted s (rf_subject request) i
      | None => is_set_aside i (unavailable s) || was_revoked s i
      end
  | MRevoke request (Complete (Ok answer)) =>
      let i := vf_root request in
      let still_owned := match roots s !! i with
                         | Some q => bool_decide (owner q = vf_subject request) | None => false end in
      let root_still_exists := match roots s !! i with Some _ => true | None => false end in
      negb ((revoked answer && (root_still_exists || negb (was_registered s (vf_subject request) i)))
            || (negb (revoked answer) && still_owned
                && negb (still_owned && has_physical_root_alias s i)))
  | MAttachment _ Pending => false
  | MAttachment request (Complete (Ok answer)) =>
      N.eqb (atr_root_id answer) (af_root request)
      && bool_decide (atr_mutation answer = af_mutation request)
  | MWrite request (Complete (Ok answer)) =>
      N.eqb (wr_bytes answer) (wf_byte_len request)
      && Bool.eqb (wr_replaced answer) (bool_decide (wf_mode request = Replace))
  | _ => true
  end.

Definition validate_loaded_state (s : State) : result BrokerError unit :=
  if forallb (valid_grant s) (grants s)
     && forallb (valid_attachment s) (attachments s)
     && bool_decide (NoDup (attachments s))
     && forallb (fun e => settled_or_granted s (owner e.2) e.1) (map_to_list (roots s))
     && forallb (valid_record s) (records s)
  then Ok tt else Err invalid_data.

Definition load_grants (ids : nat -> GrantId) (execute_commands : bool) (version : N)
    (gs : list Grant) : result BrokerError (list Grant) :=
  let gs := retain (fun g => negb (single_use g)) gs in
  gs ← (if (version <? 4)%N && execute_commands then carry_forward_exec_grants ids gs else Ok gs);
  Ok (if execute_commands then gs
      else retain (fun g => negb (bool_decide (grant_capability g = ExecuteCommands))) gs).

(** [StateFile::load] from the parsed file on. *)
Definition load (ids : nat -> GrantId) (execute_commands : bool) (p : PersistedState)
    : result BrokerError State :=
  if negb (parses p) then Err invalid_data
  else if negb (existsb (N.eqb (ps_version p)) [2; 3; 4; STATE_VERSION]%N) then Err invalid_data
  else
    '(live, aside) ← load_roots (ps_roots p) ∅ ∅ [];
    gs ← load_grants ids execute_commands (ps_version p) (ps_grants p);
    let atts := ps_attachments p in
    let settled :=
      (if (ps_version p <? STATE_VERSION)%N then inferred_settled gs atts live aside else ∅)
      ∪ list_to_set (ps_settled p) in
    let settled := filter (fun e : GrantSubject * RootId =>
                     is_Some (live !! e.2) \/ is_set_aside e.2 aside = true) settled in
    let '(aside, gs, atts) := take_set_aside aside gs atts in
    '(ms, order) ← load_mutations (ps_mutations p) ∅ [];
    let '(ms, order) := prune_mutation_receipts ms order in
    let s := MkState live gs atts ms order ∅ aside settled in
    _ ← validate_loaded_state s;
    Ok s.
End Load.

(** Opening the broker on the file another one left. *)
Definition reopen `{HostPaths} (open_root : string -> result RootPolicyError ValidatedRoot)
    (ids : nat -> GrantId) (execute_commands : bool) (s : State) : result BrokerError Shared :=
  s' ← load open_root ids execute_commands (save_state s);
  Ok (MkShared execute_commands s' false).

(** ** What a restart keeps *)

Section Load.
Context `{HostPaths}.
Implicit Types (open_root : string -> result RootPolicyError ValidatedRoot).

Lemma load_inv open_root ids x p s' :
  load open_root ids x p = Ok s' ->
  exists live aside gs ms order,
    load_roots open_root (ps_roots p) ∅ ∅ [] = Ok (live, aside)
    /\ load_grants ids x (ps_version p) (ps_grants p) = Ok gs
    /\ load_mutations (ps_mutations p) ∅ [] = Ok (ms, order)
    /\ roots s' = live
    /\ (unavailable s', grants s', attachments s') = take_set_aside aside gs (ps_attachments p)
    /\ mutations s' = (prune_mutation_receipts ms order).1
    /\ receipt_order s' = (prune_mutation_receipts ms order).2
    /\ active_mutations s' = ∅
    /\ (forall e, e ∈ settled s' <->
         e ∈ (if (ps_version p <? STATE_VERSION)%N
              then inferred_settled gs (ps_attachments p) live aside else ∅)
             ∪ list_to_set (C := gset (GrantSubject * RootId)) (ps_settled p)
         /\ (is_Some (live !! e.2) \/ is_set_aside e.2 aside = true))
    /\ validate_loaded_state s' = Ok tt.
Proof.
  unfold load. destruct (parses p); [|done]. cbn [negb].
  destruct (existsb _ _); [|done]. cbn [negb].
  destruct (load_roots _ _ _ _ _) as [[live aside]|] eqn:Er; cbn [mbind result_bind]; [|done].
  destruct (load_grants _ _ _ _) as [gs|] eqn:Eg; cbn [mbind result_bind]; [|done].
  set (st := _ ∪ _). destruct (take_set_aside _ _ _) as [[aside' gs'] atts'] eqn:Et.
  destruct (load_mutations _ _ _) as [[ms order]|] eqn:Em; cbn [mbind result_bind]; [|done].
  destruct (prune_mutation_receipts ms order) as [ms' order'] eqn:Ep.
  set (s := MkState _ _ _ _ _ _ _ _).
  destruct (validate_loaded_state s) as [[]|] eqn:Ev; cbn [mbind result_bind]; [|done].
  intros [= <-]. exists live, aside, gs, ms, order. rewrite Ep. split_and!; try done.
  intros e. cbn [settled s]. rewrite elem_of_filter. tauto.
Qed.

(** ** Mutations *)
Lemma load_mutations_Ok items ms order ms' order' :
  load_mutations items ms order = Ok (ms', order') ->
  order' = order ++ map fst (List.filter (fun e => is_prunable_receipt e.2) items)
  /\ forall i r, ms' !! i = Some r <-> ms !! i = Some r \/ (i, r) ∈ items.
Proof.
  revert ms order. induction items as [|[j q] items IH]; intros ms order; cbn.
  { intros [= <- <-]. rewrite app_nil_r. split; [done|]. intros i r.
    rewrite elem_of_nil. tauto. }
  destruct (ms !! j) as [?|] eqn:Ej; [done|]. intros [Ho Hm]%IH. split.
  { rewrite Ho. destruct (is_prunable_receipt q); cbn; [|done]. by rewrite <- (assoc_L (++)). }
  intros i r. rewrite Hm, elem_of_cons, lookup_insert_Some. naive_solver.
Qed.

Lemma persist_mutations_elem s i r :
  (i, r) ∈ persist_mutations s <-> mutations s !! i = Some r.
Proof.
  unfold persist_mutations, by_id.
  rewrite elem_of_app, (merge_sort_Permutation (id_le fst)).
  change (List.filter ?f ?l) with (retain f l). rewrite retain_elem, elem_of_map_to_list.
  rewrite list_elem_of_omap. cbn [fst].
  assert (Hx : existsb (N.eqb i) (receipt_order s) = true <-> i ∈ receipt_order s).
  { rewrite existsb_true. setoid_rewrite N.eqb_eq. naive_solver. }
  split.
  - intros [[Hm _]|(j & _ & Hj)]; [done|]. apply fmap_Some in Hj as (q & Hq & [= -> ->]). done.
  - intros Hm. destruct (existsb (N.eqb i) (receipt_order s)) eqn:E.
    + right. exists i. split; [by apply Hx|]. by rewrite Hm.
    + by left.
Qed.

Lemma filter_retained_order (ms : gmap OperationId MutationRecord) (l : list OperationId) :
  (forall i, i ∈ l -> exists r, ms !! i = Some r /\ is_prunable_receipt r = true) ->
  map fst (List.filter (fun e => is_prunable_receipt e.2) (omap (fun i => pair i <$> ms !! i) l)) = l.
Proof.
  induction l as [|i l IH]; intros Hl; [done|]. cbn [omap list_omap].
  destruct (Hl i) as (r & Hr & Hp); [by left|]. rewrite Hr. cbn. rewrite Hp. cbn. f_equal.
  apply IH. intros j Hj. apply Hl. by right.
Qed.

Lemma filter_none {A} (f : A -> bool) l : (forall x, x ∈ l -> f x = false) -> List.filter f l = [].
Proof.
  induction l as [|x l IH]; intros Hf; cbn; [done|]. rewrite Hf by (by left).
  apply IH. intros y Hy. apply Hf. by right.
Qed.

(** The books of a state that keeps its own come back as they were. *)
Lemma reload_books s ms order :
  books_ok s -> load_mutations (persist_mutations s) ∅ [] = Ok (ms, order) ->
  ms = mutations s /\ order = receipt_order s
  /\ prune_mutation_receipts ms order = (mutations s, receipt_order s).
Proof.
  intros Hb [Ho Hm]%load_mutations_Ok.
  assert (Ems : ms = mutations s).
  { apply map_eq. intros i. apply option_eq. intros r. rewrite Hm, lookup_empty.
    rewrite persist_mutations_elem. naive_solver. }
  assert (Eo : order = receipt_order s).
  { rewrite Ho. cbn [app]. unfold persist_mutations. rewrite List.filter_app, map_app.
    rewrite filter_none.
    - cbn [map app]. apply filter_retained_order. intros i. apply (bo_retained _ Hb).
    - intros [i r]. unfold by_id. rewrite (merge_sort_Permutation (id_le fst)).
      change (List.filter ?f ?l) with (retain f l). rewrite retain_elem, elem_of_map_to_list.
      cbn [fst snd]. intros [Hi Hx]. apply not_true_iff_false. intros Hr.
      assert (Hin : i ∈ receipt_order s) by (apply (bo_retained _ Hb); eauto).
      apply negb_true_iff in Hx. rewrite (proj2 (existsb_true _ _)) in Hx; [done|].
      exists i. split; [done|]. apply N.eqb_refl. }
  split_and!; [done|done|]. rewrite Ems, Eo, prune_drops.
  assert (E : overflow (receipt_order s) = 0).
  { unfold overflow. apply Nat.sub_0_le, (bo_length _ Hb). }
  by rewrite E.
Qed.

Lemma reopen_Ok open_root ids x s sh :
  reopen open_root ids x s = Ok sh ->
  failed_closed sh = false /\ load open_root ids x (save_state s) = Ok (state sh).
Proof.
  unfold reopen. destruct (load _ _ _ _) as [s'|]; cbn; [|done]. by intros [= <-].
Qed.

Lemma reopen_books open_root ids x s sh :
  books_ok s -> reopen open_root ids x s = Ok sh ->
  mutations (state sh) = mutations s /\ receipt_order (state sh) = receipt_order s
  /\ active_mutations (state sh) = ∅.
Proof.
  intros Hb [_ Hl]%reopen_Ok. apply load_inv in Hl as (live & aside & gs & ms & order & _ & _ & Em
    & _ & _ & Hms & Hor & Ha & _).
  destruct (reload_books s ms order Hb Em) as (_ & _ & E). rewrite E in *. done.
Qed.

(** ** Roots *)

(** What reopening a persisted root gave. *)
Definition reopened open_root (item : PersistedRoot) : option ValidatedRoot :=
  match open_root (pt_path item) with
  | Ok v => if bool_decide (identity v = pt_identity item) then Some v else None
  | Err _ => None
  end.

Definition live_of open_root (t : PersistedRoot) : option (RootId * RegisteredRoot) :=
  (fun v => (pt_id t, MkRoot (pt_owner t) (root_display_name (canonical_path v)) v))
    <$> reopened open_root t.

Definition aside_of open_root (t : PersistedRoot) : option UnavailableRoot :=
  match reopened open_root t with
  | Some _ => None
  | None => Some (set_aside t (match open_root (pt_path t) with
                               | Ok _ => Replaced | Err e => unavailable_reason e end))
  end.

Lemma live_of_id open_root items e :
  e ∈ omap (live_of open_root) items -> e.1 ∈ map pt_id items.
Proof.
  rewrite list_elem_of_omap, list_elem_of_fmap. intros (t & Ht & E).
  unfold live_of in E. apply fmap_Some in E as (v & _ & ->). by exists t.
Qed.

Lemma load_roots_Ok open_root items seen live aside live' aside' :
  load_roots open_root items seen live aside = Ok (live', aside') ->
  NoDup (map pt_id items) /\ Forall (fun t => pt_id t ∉ seen) items
  /\ live' = list_to_map (omap (live_of open_root) items) ∪ live
  /\ aside' = aside ++ omap (aside_of open_root) items.
Proof.
  revert seen live aside. induction items as [|t items IH]; intros seen live aside; cbn [load_roots].
  { intros [= <- <-]. rewrite app_nil_r. cbn. rewrite (left_id_L ∅ (∪)).
    split_and!; [constructor|constructor|done..]. }
  case_bool_decide as Hseen; [done|]. set (seen' := {[pt_id t]} ∪ seen).
  assert (Hnodup : NoDup (map pt_id items) -> Forall (fun u => pt_id u ∉ seen') items ->
    pt_id t ∉ map pt_id items /\ NoDup (map pt_id (t :: items))
    /\ Forall (fun u => pt_id u ∉ seen) (t :: items)).
  { intros Hn Hs. rewrite Forall_forall in Hs.
    assert (Ht : pt_id t ∉ map pt_id items).
    { rewrite list_elem_of_fmap. intros (u & E & Hu). specialize (Hs u Hu). set_solver. }
    split_and!; [done|by constructor|]. constructor; [done|]. apply Forall_forall.
    intros u Hu. specialize (Hs u Hu). set_solver. }
  cbn [omap list_omap]. unfold live_of at 1, aside_of at 1, reopened.
  destruct (open_root (pt_path t)) as [v|e]; [case_bool_decide|];
    intros (Hn & Hs & -> & ->)%IH; destruct (Hnodup Hn Hs) as (Ht & H1 & H2);
    (split_and!; [done|done| |]); cbn [fmap option_fmap option_map];
    rewrite <- ?(assoc_L (++)); try done.
  rewrite list_to_map_cons, <- insert_union_l, insert_union_r; [done|]. apply not_elem_of_list_to_map.
  intros (e & E & He%live_of_id)%list_elem_of_fmap. cbn in E. congruence.
Qed.

(** ** Setting aside *)
Definition set_aside_over (aside : list UnavailableRoot) (g : Grant) : bool :=
  existsb (fun u => scope_targets_root (grant_scope g) (un_id u)) aside.
Definition set_aside_at (aside : list UnavailableRoot) (a : RootAttachment) : bool :=
  existsb (fun u => N.eqb (att_root a) (un_id u)) aside.

Lemma take_set_aside_spec aside gs atts aside' gs' atts' :
  (aside', gs', atts') = take_set_aside aside gs atts ->
  map persist_set_aside aside' = map persist_set_aside aside
  /\ gs' = retain (fun g => negb (set_aside_over aside g)) gs
  /\ atts' = retain (fun a => negb (set_aside_at aside a)) atts
  /\ (forall g, g ∈ flat_map un_grants aside' <-> g ∈ gs /\ set_aside_over aside g = true)
  /\ (forall a, a ∈ flat_map un_attachments aside' <-> a ∈ atts /\ set_aside_at aside a = true).
Proof.
  revert gs atts aside' gs' atts'. induction aside as [|u aside IH]; intros gs atts aside' gs' atts'.
  { intros [= -> -> ->]. cbn. rewrite !retain_all by (by apply Forall_true).
    split_and!; [done..|set_solver|set_solver]. }
  cbn [take_set_aside].
  destruct (take_set_aside aside _ _) as [[rest gs1] atts1] eqn:E. symmetry in E.
  destruct (IH _ _ _ _ _ E) as (H1 & -> & -> & H4 & H5). intros [= -> -> ->].
  assert (Eg : forall g, set_aside_over (u :: aside) g
            = scope_targets_root (grant_scope g) (un_id u) || set_aside_over aside g) by done.
  assert (Ea : forall a, set_aside_at (u :: aside) a
            = N.eqb (att_root a) (un_id u) || set_aside_at aside a) by done.
  split_and!.
  - cbn. by rewrite H1.
  - rewrite retain_retain. apply List.filter_ext. intros g. by rewrite Eg, negb_orb.
  - rewrite retain_retain. apply List.filter_ext. intros a. by rewrite Ea, negb_orb.
  - intros g. cbn [flat_map un_grants]. rewrite elem_of_app, H4, !retain_elem, Eg, negb_true_iff.
    destruct (scope_targets_root _ _); cbn; naive_solver.
  - intros a. cbn [flat_map un_attachments]. rewrite elem_of_app, H5, !retain_elem, Ea, negb_true_iff.
    destruct (N.eqb _ _); cbn; naive_solver.
Qed.

(** Everything a state keeps, live or set aside. *)
Definition all_grants (s : State) : list Grant := grants s ++ flat_map un_grants (unavailable s).
Definition all_attachments (s : State) : list RootAttachment :=
  attachments s ++ flat_map un_attachments (unavailable s).
Definition all_roots (s : State) : list PersistedRoot :=
  map persist_live (map_to_list (roots s)) ++ map persist_set_aside (unavailable s).

(** What of the grants a start keeps. *)
Definition survives_restart (execute_commands : bool) (g : Grant) : bool :=
  negb (single_use g)
  && (execute_commands || negb (bool_decide (grant_capability g = ExecuteCommands))).

Lemma load_grants_current ids x gs gs' :
  load_grants ids x STATE_VERSION gs = Ok gs' ->
  gs' = retain (survives_restart x) gs.
Proof.
  unfold load_grants. cbn [N.ltb N.compare STATE_VERSION Pos.compare Pos.compare_cont andb].
  cbn [mbind result_bind]. intros [= <-]. destruct x.
  - apply List.filter_ext. intros g. unfold survives_restart. cbn. by rewrite andb_true_r.
  - rewrite retain_retain. apply List.filter_ext. intros g. done.
Qed.

Record reloaded open_root (x : bool) (s s' : State) : Prop := {
  rl_roots : forall i r, roots s' !! i = Some r <->
    exists t, t ∈ all_roots s /\ live_of open_root t = Some (i, r);
  rl_aside : forall t, t ∈ map persist_set_aside (unavailable s') <->
    t ∈ all_roots s /\ reopened open_root t = None;
  rl_grants : forall g, g ∈ all_grants s' <-> g ∈ all_grants s /\ survives_restart x g = true;
  rl_attachments : forall a, a ∈ all_attachments s' <-> a ∈ all_attachments s;
  rl_apart : forall u, u ∈ unavailable s' -> ~ live s' (un_id u);
  rl_settled : forall e, e ∈ settled s' <-> e ∈ settled s /\ e.2 ∈ map pt_id (all_roots s)
}.

Lemma aside_of_elem open_root items t :
  t ∈ map persist_set_aside (omap (aside_of open_root) items)
  <-> t ∈ items /\ reopened open_root t = None.
Proof.
  rewrite list_elem_of_fmap. setoid_rewrite list_elem_of_omap. unfold aside_of. split.
  - intros (u & -> & t' & Ht & E). destruct (reopened open_root t') eqn:Er; [done|].
    injection E as <-. replace (persist_set_aside _) with t' by (by destruct t'). done.
  - intros [Ht Er]. eexists. split; [|exists t; rewrite Er; done]. by destruct t.
Qed.

Lemma all_roots_saved s t : t ∈ ps_roots (save_state s) <-> t ∈ all_roots s.
Proof. cbn. unfold by_id. by rewrite (merge_sort_Permutation (id_le pt_id)). Qed.

Lemma live_lookup open_root items i r :
  NoDup (map pt_id items) ->
  (list_to_map (omap (live_of open_root) items) : gmap RootId RegisteredRoot) !! i = Some r
  <-> exists t, t ∈ items /\ live_of open_root t = Some (i, r).
Proof.
  intros Hn. rewrite <- elem_of_list_to_map; [by rewrite list_elem_of_omap|].
  induction items as [|t items IH]; cbn [omap list_omap]; [constructor|].
  apply NoDup_cons in Hn as [Ht Hn].
  destruct (live_of open_root t) as [[j q]|] eqn:E; [|by apply IH].
  apply NoDup_cons. split; [|by apply IH].
  intros (e & E1 & He%live_of_id)%list_elem_of_fmap. cbn in E1.
  unfold live_of in E. apply fmap_Some in E as (v & _ & [= -> ->]).
  apply Ht. rewrite E1. exact He.
Qed.

(** A persisted root is either reopened or set aside. *)
Lemma known_root open_root items i :
  NoDup (map pt_id items) ->
  is_Some ((list_to_map (omap (live_of open_root) items) : gmap RootId RegisteredRoot) !! i)
    \/ is_set_aside i (omap (aside_of open_root) items) = true
  <-> i ∈ map pt_id items.
Proof.
  intros Hn. rewrite list_elem_of_fmap. unfold is_set_aside. rewrite existsb_true.
  setoid_rewrite N.eqb_eq. setoid_rewrite list_elem_of_omap. split.
  - intros [[r (t & Ht & E)%live_lookup]|(u & (t & Ht & E) & <-)]; [|done|].
    + apply fmap_Some in E as (v & _ & [= -> _]). eauto.
    + unfold aside_of in E. destruct (reopened open_root t); [done|]. injection E as <-. eauto.
  - intros (t & -> & Ht). destruct (reopened open_root t) as [v|] eqn:Er.
    + left. eexists. apply live_lookup; [done|]. exists t. split; [done|]. unfold live_of.
      by rewrite Er.
    + right. eexists. split; [exists t; split; [done|]; unfold aside_of; by rewrite Er|done].
Qed.

Lemma set_aside_ids (aside aside' : list UnavailableRoot) :
  map persist_set_aside aside' = map persist_set_aside aside ->
  forall u, u ∈ aside' -> exists u0, u0 ∈ aside /\ un_id u0 = un_id u.
Proof.
  intros E u Hu. assert (Hin : persist_set_aside u ∈ map persist_set_aside aside).
  { rewrite <- E. apply list_elem_of_fmap. eauto. }
  apply list_elem_of_fmap in Hin as (u0 & E0 & Hu0). exists u0. split; [done|]. by injection E0.
Qed.

Lemma reopen_reloaded open_root ids x s sh :
  reopen open_root ids x s = Ok sh -> reloaded open_root x s (state sh).
Proof.
  intros [_ Hl]%reopen_Ok. apply load_inv in Hl as (live & aside & gs & ms & order & Hr & Hg & _
    & Elive & Et & _ & _ & _ & Hs & _).
  apply load_roots_Ok in Hr as (Hn & _ & El & Ea). rewrite (right_id_L ∅ (∪)) in El. cbn [app] in Ea.
  apply load_grants_current in Hg. apply take_set_aside_spec in Et as (U & G & A & UG & UA).
  assert (Hids : forall i, i ∈ map pt_id (ps_roots (save_state s)) <-> i ∈ map pt_id (all_roots s)).
  { intros i. rewrite !list_elem_of_fmap. by setoid_rewrite all_roots_saved. }
  split.
  - intros i r. rewrite Elive, El, live_lookup by done. by setoid_rewrite all_roots_saved.
  - intros t. by rewrite U, Ea, aside_of_elem, all_roots_saved.
  - intros g. unfold all_grants at 1. rewrite elem_of_app, G, UG, retain_elem, Hg, retain_elem.
    cbn [ps_grants save_state]. rewrite elem_of_app, retain_elem. unfold all_grants.
    rewrite elem_of_app. unfold survives_restart. rewrite andb_true_iff, !negb_true_iff.
    destruct (set_aside_over aside g); naive_solver.
  - intros a. unfold all_attachments at 1. rewrite elem_of_app, A, UA, retain_elem, negb_true_iff.
    change (ps_attachments (save_state s)) with (all_attachments s).
    destruct (set_aside_at aside a); naive_solver.
  - intros u Hu [c Hc]. rewrite A in Hc. apply retain_elem in Hc as [_ Hc].
    destruct (set_aside_ids aside (unavailable (state sh)) U u Hu) as (u0 & Hu0 & E).
    apply negb_true_iff, not_true_iff_false in Hc. apply Hc, existsb_true. exists u0.
    split; [done|]. rewrite E. apply N.eqb_refl.
  - intros e. rewrite Hs, El, Ea, known_root, Hids by done. cbn [ps_version ps_settled save_state].
    replace (STATE_VERSION <? STATE_VERSION)%N with false by done.
    rewrite (left_id_L ∅ (∪)), elem_of_list_to_set, elem_of_elements. done.
Qed.
End Load.
