(* ===== verification/HostLifetimes.v ===== *)
(** * Host broker: across restarts

    What stays true over any sequence of runs and restarts of the broker: the
    receipts, what an outage of a folder costs, and what a deleted conversation
    leaves behind. *)

From S2P Require Export HostStateFile.

Section Lifetimes.
Context `{HostPaths}.

(** ** Receipts along lifetimes *)

(** Runs of the broker separated by restarts, each on the file the last one left. *)
Inductive lifetimes : Shared -> Shared -> Prop :=
| life_refl sh : lifetimes sh sh
| life_run ls sh sh1 sh2 : bsteps ls sh sh1 -> lifetimes sh1 sh2 -> lifetimes sh sh2
| life_restart open_root ids x sh sh1 sh2 :
    reopen open_root ids x (state sh) = Ok sh1 -> lifetimes sh1 sh2 -> lifetimes sh sh2.

Lemma lifetimes_trans sh sh1 sh2 : lifetimes sh sh1 -> lifetimes sh1 sh2 -> lifetimes sh sh2.
Proof. induction 1; eauto using lifetimes. Qed.
Lemma lifetimes_invariant (P : State -> Prop) sh sh' :
  (forall s s', book_edit s s' -> books_ok s -> P s -> P s') ->
  (forall s s', mutations s' = mutations s -> receipt_order s' = receipt_order s -> P s -> P s') ->
  lifetimes sh sh' -> books_ok (state sh) -> P (state sh) -> books_ok (state sh') /\ P (state sh').
Proof.
  intros Hedit Hsame. induction 1 as [sh|ls sh sh1 sh2 Hrun _ IH|f ids x sh sh1 sh2 Hre _ IH];
    intros Hb HP; [done| |].
  - apply IH; eapply (book_invariant (fun s => books_ok s /\ P s)); eauto using books_edit.
    all: intros s s' He [H1 H2]; eauto using books_edit.
  - destruct (reopen_books _ _ _ _ _ Hb Hre) as (Em & Eo & _). apply IH; [|eauto].
    destruct Hb. by split; rewrite ?Em, ?Eo.
Qed.
Lemma books_life x sh : lifetimes (shared_new x) sh -> books_ok (state sh).
Proof.
  intros Hl. apply (lifetimes_invariant (fun _ => True) _ _) in Hl as [Hb _]; try done.
  split; cbn; [lia|constructor|]. intros i. split; [by intros ?%not_elem_of_nil|naive_solver].
Qed.

Lemma recorded_life sh sh' i r :
  lifetimes sh sh' -> books_ok (state sh) -> mutations (state sh) !! i = Some r ->
  recorded i r (state sh').
Proof.
  intros Hl Hb Hi. apply (lifetimes_invariant (recorded i r)) in Hl; [by destruct Hl| | |done|].
  - intros s s'. apply recorded_edit.
  - unfold recorded. intros s s' -> ->. done.
  - intros _. exists r. split_and!; [done|by apply same_request_refl|done].
Qed.

(** receipts are bounded without losing track of any.  After any runs and
    restarts of a new broker the retention order holds at most 2048 identities, each once, and they
    are exactly the identities whose record is a finished attachment change or a
    finished write: pruning never drops a pending operation, a registration or a
    revocation, and nothing prunable escapes the bound. *)
Lemma receipts_are_bounded_and_exact x sh :
  lifetimes (shared_new x) sh ->
  length (receipt_order (state sh)) <= 2048
  /\ NoDup (receipt_order (state sh))
  /\ forall i, i ∈ receipt_order (state sh) <->
       exists r, mutations (state sh) !! i = Some r /\ is_prunable_receipt r = true.
Proof. intros [Hl Hn Hr]%books_life. by split_and!. Qed.

(** a finished registration or revocation is answered once and for all.
    Whatever runs in between, restarts included, the same request under the same identity gets the
    recorded answer back and the broker does not change, however saving would have
    gone; a different request under that identity is refused as a conflict. *)
Lemma control_answers_are_permanent x sh sh' i :
  lifetimes (shared_new x) sh -> lifetimes sh sh' -> failed_closed sh' = false ->
  (forall q answer, mutations (state sh) !! i = Some (MRegister q (Complete answer)) ->
     forall save request, rr_operation_id request = i ->
       register_begin save sh' request
       = (if bool_decide (register_fingerprint request = q) then Ok (Some answer)
          else Err (error_response OperationIdConflict), sh'))
  /\ (forall q answer, mutations (state sh) !! i = Some (MRevoke q (Complete answer)) ->
       forall save subject root_id,
         revoke_root save sh' i subject root_id
         = (if bool_decide (MkRevokeFp subject root_id = q) then answer
            else Err (error_response OperationIdConflict), sh')).
Proof.
  intros Hnew%books_life Hrun Hc. split; intros q answer Hi;
    (destruct (recorded_life _ _ _ _ Hrun Hnew Hi) as (r & Er & _ & Hr); [by left|];
     specialize (Hr eq_refl); subst r).
  - intros save request <-. unfold register_begin, lock_state. rewrite Hc.
    unfold claim_register. rewrite Er. rewrite (bool_decide_ext (q = _) (register_fingerprint request = q)) by done.
    by case_bool_decide.
  - intros save subject root_id. unfold revoke_root, lock_state. rewrite Hc.
    unfold claim_revoke. rewrite Er. rewrite (bool_decide_ext (q = _) (MkRevokeFp subject root_id = q)) by done.
    by case_bool_decide.
Qed.

(** The answer to a write of an identity whose write is on record *)
Definition write_answered (save : option BrokerError) (sh : Shared) (fp : WriteFingerprint)
    (outcome : MutationOutcome WriteFileResult) (context : ExecutionContext) (request : WriteFileRequest) : Prop :=
  let '(answer, sh') := write_begin save sh context request in
  match (_ ← decode_write_content request; _ ← check_approval request; lock_state sh) with
  | Err e => answer = Err e /\ sh' = sh
  | Ok _ =>
      if bool_decide (write_fingerprint context request = fp) then
        match outcome with
        | Complete result => answer = Ok (WriteAnswered result) /\ sh' = sh
        | Pending =>
            (exists e, answer = Err e)
            \/ answer = Ok (WriteGo true)
               /\ forall save' sh2 host, (write_finish save' sh2 host context request true).2 = false
        end
      else answer = Err OperationIdConflict /\ sh' = sh
  end.
Lemma recorded_write_answered save sh fp outcome context request :
  mutations (state sh) !! wq_operation_id request = Some (MWrite fp outcome) -> write_answered save sh fp outcome context request.
Proof.
  intros E. unfold write_answered, write_begin. destruct (decode_write_content request); cbn; [|done].
  destruct (check_approval request); cbn; [|done].
  destruct (lock_state sh) as [s|] eqn:El; [|done]. apply lock_state_Ok in El as [-> _].
  unfold claim_write. rewrite E, (bool_decide_ext (write_fingerprint context request = fp) (fp = write_fingerprint context request)) by done.
  case_bool_decide as Hq; [|done]. destruct outcome; [|done]. unfold activate. case_bool_decide; [eauto|].
  destruct (authorize_write _ _ _ _); [|eauto]. destruct (commit_state _ _ _) as [[] ?]; [|eauto].
  right. split; [done|]. intros. apply write_finish_recovering.
Qed.

(** C35: a write is carried out at most once.  Once a write has been dispatched
    under an identity, and until 2048 receipts fill the order, it is on record
    across runs and restarts, and once finished with the same result for good.  No
    request under its identity is dispatched as a new write again: a different
    one is refused as a conflict, a finished one is answered with the recorded
    result, and an unfinished one is refused or dispatched for recovery, which
    checks the destination and never writes to it. *)
Theorem a_write_happens_at_most_once x sh save context request recovering sh1 shm sh2 :
  lifetimes (shared_new x) sh ->
  write_begin save sh context request = (Ok (WriteGo recovering), sh1) ->
  lifetimes sh1 shm -> lifetimes shm sh2 -> length (receipt_order (state sh2)) < 2048 ->
  exists outcome,
    mutations (state sh2) !! wq_operation_id request = Some (MWrite (write_fingerprint context request) outcome)
    /\ (forall result, mutations (state shm) !! wq_operation_id request
                        = Some (MWrite (write_fingerprint context request) (Complete result)) -> outcome = Complete result)
    /\ forall save' context' request', wq_operation_id request' = wq_operation_id request ->
         write_answered save' sh2 (write_fingerprint context request) outcome context' request'.
Proof.
  intros Hnew Hbegin Hrun Hrun' Hlt. destruct (write_begin_Go _ _ _ _ _ _ Hbegin) as [o Eo].
  assert (Hbooks : books_ok (state sh1)).
  { apply books_life in Hnew. pose proof (b_write_begin save sh context request) as Hstep.
    rewrite Hbegin in Hstep. destruct (bstep_ok _ _ _ Hstep) as [_ Hrtc].
    by apply (books_edits _ _ Hrtc). }
  pose proof (lifetimes_trans _ _ _ Hrun Hrun') as Hall.
  destruct (recorded_life _ _ _ _ Hall Hbooks Eo) as (r & Er & Hsame & _); [by right|].
  destruct r as [| | |q outcome]; try done. apply bool_decide_eq_true in Hsame as <-. exists outcome. split_and!; [done| |].
  - intros result Em. destruct (lifetimes_invariant (fun _ => True) _ _ ltac:(done) ltac:(done) Hrun Hbooks I) as [Hbm _].
    destruct (recorded_life _ _ _ _ Hrun' Hbm Em) as (r & Er' & _ & Hr); [by right|]. rewrite Hr in Er' by done. congruence.
  - intros save' context' request' Hid. apply recorded_write_answered. by rewrite Hid.
Qed.

(** ** An outage *)
Lemma all_roots_reloaded (open_root : string -> result RootPolicyError ValidatedRoot) x s s' :
  reloaded open_root x s s' ->
  (forall t v, t ∈ all_roots s -> reopened open_root t = Some v -> canonical_path v = pt_path t) ->
  forall t, t ∈ all_roots s' <-> t ∈ all_roots s.
Proof.
  intros [Hr Ha _ _ _ _] Hc t. unfold all_roots at 1. rewrite elem_of_app, Ha, list_elem_of_fmap.
  assert (Hid : forall t0 v, reopened open_root t0 = Some v -> identity v = pt_identity t0).
  { intros t0 v. unfold reopened. destruct (open_root _); [|done]. case_bool_decide; [|done].
    by intros [= <-]. }
  split.
  - intros [([i r] & -> & Hin%elem_of_map_to_list)|[Ht _]]; [|done].
    apply Hr in Hin as (t0 & Ht0 & E). unfold live_of in E.
    apply fmap_Some in E as (v & Ev & [= -> ->]).
    replace (persist_live _) with t0; [done|]. unfold persist_live. cbn.
    rewrite (Hc t0 v Ht0 Ev), (Hid t0 v Ev). by destruct t0.
  - intros Ht. destruct (reopened open_root t) as [v|] eqn:Ev; [left|by right].
    exists (pt_id t, MkRoot (pt_owner t) (root_display_name (canonical_path v)) v). split.
    + unfold persist_live. cbn. rewrite (Hc t v Ht Ev), (Hid t v Ev). by destruct t.
    + apply elem_of_map_to_list, Hr. exists t. split; [done|]. unfold live_of. by rewrite Ev.
Qed.

(** A root whose name is its folder's, as registration gives it, and which
    [open_root] gives back. *)
Definition comes_back (open_root : string -> result RootPolicyError ValidatedRoot)
    (r : RegisteredRoot) : Prop :=
  display_name r = root_display_name (canonical_path (root r))
  /\ open_root (canonical_path (root r)) = Ok (root r).

Lemma comes_back_live open_root i r :
  comes_back open_root r -> live_of open_root (persist_live (i, r)) = Some (i, r).
Proof.
  intros [Hd Ho]. unfold live_of, reopened. cbn. rewrite Ho. rewrite bool_decide_eq_true_2 by done.
  cbn. rewrite <- Hd. by destruct r.
Qed.

Lemma all_roots_live s t :
  unavailable s = [] ->
  t ∈ all_roots s <-> exists i r, roots s !! i = Some r /\ t = persist_live (i, r).
Proof.
  intros Hu. unfold all_roots. rewrite Hu. cbn [map]. rewrite app_nil_r, list_elem_of_fmap. split.
  - intros ([i r] & -> & Hin%elem_of_map_to_list). eauto.
  - intros (i & r & Hin & ->). exists (i, r). split; [done|]. by apply elem_of_map_to_list.
Qed.

(** a folder that cannot be opened at one start is not lost.  While its
    directory is away every operation on it is denied; at a later start that finds
    every directory again, the broker has the roots it had, the same attachments,
    the same settled positions, and exactly its grants, less one-shot grants and,
    on a host without commands, execute grants.  (A directory that does open
    answers the canonical path it was saved under.) *)
Lemma an_outage_loses_nothing open1 ids1 open2 ids2 x s sh1 sh2 :
  unavailable s = [] ->
  (forall t v, t ∈ all_roots s -> reopened open1 t = Some v -> canonical_path v = pt_path t) ->
  map_Forall (fun _ r => comes_back open2 r) (roots s) ->
  reopen open1 ids1 x s = Ok sh1 -> reopen open2 ids2 x (state sh1) = Ok sh2 ->
  (forall i r, roots s !! i = Some r -> reopened open1 (persist_live (i, r)) = None ->
     forall context c resource, resource_root resource = Some i ->
       authorize (state sh1) context c resource = Err Denied)
  /\ roots (state sh2) = roots s /\ unavailable (state sh2) = []
  /\ (forall g, g ∈ grants (state sh2) <-> g ∈ grants s /\ survives_restart x g = true)
  /\ (forall a, a ∈ attachments (state sh2) <-> a ∈ attachments s)
  /\ (forall e, e ∈ settled (state sh2) <-> e ∈ settled s /\ is_Some (roots s !! e.2)).
Proof.
  intros Hu Hcanon Hback H1%reopen_reloaded H2%reopen_reloaded.
  pose proof (all_roots_reloaded _ _ _ _ H1 Hcanon) as Hroots.
  pose proof (fun t => all_roots_live s t Hu) as Hl.
  destruct H1 as [_ A1 G1 T1 P1 S1], H2 as [R2 A2 G2 T2 _ S2].
  assert (Hlive : forall t, t ∈ all_roots (state sh1) ->
            exists i r, roots s !! i = Some r /\ t = persist_live (i, r)
                        /\ live_of open2 t = Some (i, r)).
  { intros t (i & r & Hi & ->)%Hroots%all_roots_live; [|done]. exists i, r.
    split_and!; [done..|]. by apply comes_back_live, (Hback i). }
  assert (Hnone : unavailable (state sh2) = []).
  { apply elem_of_nil_inv. intros u Hin.
    assert (Ht : persist_set_aside u ∈ map persist_set_aside (unavailable (state sh2)))
      by (apply list_elem_of_fmap; eauto).
    apply A2 in Ht as [(i & r & _ & _ & E)%Hlive Hn]. unfold live_of in E. by rewrite Hn in E. }
  split_and!.
  - intros i r Hi Hn context c resource Hres. eapply unattached_denied; [exact Hres|]. intros Hin.
    assert (Ht : persist_live (i, r) ∈ map persist_set_aside (unavailable (state sh1))).
    { apply A1. split; [|done]. apply all_roots_live; eauto. }
    apply list_elem_of_fmap in Ht as (u & E & Hin').
    apply (P1 u Hin'). exists (ctx_conversation context). injection E as <- _ _ _. done.
  - apply map_eq. intros i. apply option_eq. intros r. rewrite R2. split.
    + intros (t & (j & q & Hj & -> & E1)%Hlive & E2). rewrite E1 in E2. by injection E2 as -> ->.
    + intros Hi. exists (persist_live (i, r)). split.
      * apply Hroots, all_roots_live; eauto.
      * by apply comes_back_live, (Hback i).
  - done.
  - intros g. specialize (G2 g). unfold all_grants in G2 at 1. rewrite Hnone in G2. cbn in G2.
    rewrite app_nil_r, G1 in G2. unfold all_grants in G2. rewrite Hu in G2. cbn in G2.
    rewrite app_nil_r in G2. rewrite G2. tauto.
  - intros a. specialize (T2 a). unfold all_attachments in T2 at 1. rewrite Hnone in T2. cbn in T2.
    rewrite app_nil_r, T1 in T2. unfold all_attachments in T2. rewrite Hu in T2. cbn in T2.
    by rewrite app_nil_r in T2.
  - intros e. rewrite S2, S1, !list_elem_of_fmap.
    setoid_rewrite Hroots. setoid_rewrite Hl. split.
    + intros [[? _] (t & -> & i & r & Hi & ->)]. split; [done|]. cbn. by rewrite Hi.
    + intros [He [r Hr]].
      assert (Hx : exists y, e.2 = pt_id y /\ exists i q, roots s !! i = Some q /\ y = persist_live (i, q))
        by (exists (persist_live (e.2, r)); eauto).
      by split.
Qed.

(** ** A deleted conversation *)

(** No revocation of [i] is on record. *)
Definition never_revoked (s : State) (i : RootId) : Prop :=
  forall op q answer, mutations s !! op = Some (MRevoke q (Complete (Ok answer))) -> vf_root q <> i.

(** A registration receipt whose root is gone without a revocation stops a load. *)
Lemma receipt_without_root open_root ids x s op q answer :
  books_ok s -> mutations s !! op = Some (MRegister q (Complete (Ok answer))) ->
  sum_root_id (reg_root answer) ∉ map pt_id (all_roots s) ->
  never_revoked s (sum_root_id (reg_root answer)) ->
  is_ok (reopen open_root ids x s) = false.
Proof.
  intros Hb Hop Hgone Hrev. set (i := sum_root_id (reg_root answer)) in *.
  destruct (reopen open_root ids x s) as [sh|] eqn:E; [exfalso|done].
  destruct (reopen_books _ _ _ _ _ Hb E) as (Em & _).
  pose proof (reopen_reloaded _ _ _ _ _ E) as [R A _ _ _ _].
  apply reopen_Ok in E as [_ Hl]. apply load_inv in Hl as (_ & _ & _ & _ & _ & _ & _ & _
    & _ & _ & _ & _ & _ & _ & Hv).
  revert Hv. unfold validate_loaded_state.
  assert (Hbad : forallb (valid_record (state sh)) (records (state sh)) = false).
  { apply not_true_iff_false. rewrite List.forallb_forall. intros Hall.
    specialize (Hall (MRegister q (Complete (Ok answer)))).
    assert (Hin : List.In (MRegister q (Complete (Ok answer))) (records (state sh))).
    { apply list_elem_of_In, list_elem_of_fmap. exists (op, MRegister q (Complete (Ok answer))).
      split; [done|]. apply elem_of_map_to_list. by rewrite Em. }
    specialize (Hall Hin). cbn in Hall. fold i in Hall.
    destruct (roots (state sh) !! i) as [r|] eqn:Er.
    { apply R in Er as (t & Ht & Et). apply Hgone, list_elem_of_fmap. exists t. split; [|done].
      unfold live_of in Et. apply fmap_Some in Et as (v & _ & [= <- _]). done. }
    apply orb_true_iff in Hall as [Ha|Hr].
    - unfold is_set_aside in Ha. apply existsb_true in Ha as (u & Hu & Eu%N.eqb_eq).
      apply Hgone, list_elem_of_fmap. exists (persist_set_aside u). split; [done|].
      apply A, list_elem_of_fmap. eauto.
    - unfold was_revoked in Hr. apply existsb_true in Hr as (rec & Hrec & Er').
      apply list_elem_of_fmap in Hrec as ([op' rec'] & -> & Hrec%elem_of_map_to_list).
      rewrite Em in Hrec. cbn in Er'. destruct rec' as [|fp [|[]]| |]; try done.
      apply andb_prop in Er' as [_ Ei%N.eqb_eq]. by eapply Hrev. }
  rewrite Hbad, !andb_false_r. done.
Qed.


Lemma purge_drops s c i r :
  roots s !! i = Some r -> owner r = MkSubject Conversation c ->
  (forall c', MkAttachment c' i ∈ attachments s -> c' = c) ->
  is_set_aside i (unavailable s) = false ->
  (purge (MkSubject Conversation c) c s).1 = true
  /\ i ∉ map pt_id (all_roots (purge (MkSubject Conversation c) c s).2).
Proof.
  intros Hr Ho Hatt Haside. set (subject := MkSubject Conversation c).
  destruct (purge_unfold subject c s) as (s1 & _ & U & ER & _ & _ & _ & EU & Hch & Hdrop).
  assert (Hnone : roots s1 !! i = None).
  { apply Hdrop; [apply owned_roots_elem; cbn; eauto|]. unfold still_attached. apply orb_false_iff.
    split; apply not_true_iff_false; rewrite existsb_true.
    - intros ([c' j] & Hin & Ej%N.eqb_eq). cbn in Ej. subst j.
      apply retain_elem in Hin as [Hin Hc]. cbn in Hc. rewrite (Hatt c' Hin) in Hc.
      by rewrite N.eqb_refl in Hc.
    - intros (u & Hu & [Eu _]%andb_prop). cbn in Hu. apply list_elem_of_fmap in Hu as (u0 & -> & Hu0).
      apply not_true_iff_false in Haside. apply Haside, existsb_true. exists u0. by split. }
  split.
  - destruct Hch as [|E]; [done|]. rewrite E in Hnone. cbn in Hnone. congruence.
  - unfold all_roots. rewrite map_app, elem_of_app. intros [Hin|Hin];
      apply list_elem_of_fmap in Hin as (t & -> & Ht); apply list_elem_of_fmap in Ht as (e & -> & He).
    + destruct e as [j q]. apply elem_of_map_to_list in He. cbn in Hnone. rewrite ER in He. congruence.
    + apply EU in He. rewrite U in He. cbn in He. apply list_elem_of_fmap in He as (u0 & -> & Hu0).
      apply not_true_iff_false in Haside. apply Haside, existsb_true. exists u0.
      split; [done|]. apply N.eqb_refl.
Qed.

(** deleting the conversation that connected a folder stops the next start.
    When a conversation registered a folder, owns the registration and is the only
    one attached to it, purging it drops the registration but keeps the receipt of
    registering it, and no revocation is on record; the file saved then is one that
    [load] refuses, whatever the directories answer. *)
Lemma deleted_chat_blocks_the_next_start x sh c op q answer r :
  lifetimes (shared_new x) sh -> failed_closed sh = false -> uuid_is_nil c = false ->
  mutations (state sh) !! op = Some (MRegister q (Complete (Ok answer))) ->
  roots (state sh) !! sum_root_id (reg_root answer) = Some r ->
  owner r = MkSubject Conversation c ->
  (forall c', MkAttachment c' (sum_root_id (reg_root answer)) ∈ attachments (state sh) -> c' = c) ->
  is_set_aside (sum_root_id (reg_root answer)) (unavailable (state sh)) = false ->
  never_revoked (state sh) (sum_root_id (reg_root answer)) ->
  exists sh', purge_conversation_subject None sh c = (Ok true, sh')
  /\ forall open_root ids x', is_ok (reopen open_root ids x' (state sh')) = false.
Proof.
  intros Hlife Hc Hnil Hop Hr Ho Hatt Haside Hrev.
  destruct (purge_drops _ c _ r Hr Ho Hatt Haside) as [Hch Hgone].
  pose proof (purge_books (MkSubject Conversation c) c (state sh)) as [Em Eo _].
  unfold purge_conversation_subject, subject_conversation, subject_new, lock_state.
  rewrite Hnil, Hc. destruct (purge _ _ _) as [b next]. cbn in Hch, Hgone, Em, Eo. subst b.
  exists (set_state next sh). split; [done|]. intros open_root ids x'. cbn [state set_state].
  eapply receipt_without_root.
  - apply books_life in Hlife. destruct Hlife. by split; rewrite ?Em, ?Eo.
  - by rewrite Em.
  - done.
  - unfold never_revoked. rewrite Em. exact Hrev.
Qed.
End Lifetimes.
