(* ===== verification/HostExamples.v ===== *)
(** * Host broker: the theorems on a concrete broker

    A conversation connects a folder, is narrowed, writes, and is deleted; the
    folder goes away and comes back. *)

From S2P Require Export HostLifetimes.

Module HostDemo.

#[local] Instance demo_paths : HostPaths :=
  {| file_name := fun _ => Some "notes"; base64_decode := fun _ => Some [104; 105]%N;
     sha256 := fun _ => [7]%N |}.

Definition alice : GrantSubject := MkSubject Conversation 1.
Definition here : ExecutionContext := MkContext 1 None.
Definition notes : ValidatedRoot := MkValidated "/home/u/notes" (UnixIdentity 1 2).
Definition ids : FreshIds := MkFresh 101 102 103 104.

Definition connect : RegisterRootRequest := MkRegister 10 alice 1 "/home/u/notes" FolderPicker.
Definition new : Shared := shared_new true.
Definition claimed : Shared := (register_begin None new connect).2.
Definition connected : Shared :=
  (register_finish None claimed connect ids
     (prepare_registration true (Ok notes) 50 ids 0 connect)).2.

Lemma claimed_fresh : fresh_root (state claimed) 50.
Proof.
  split_and!; [by vm_compute|constructor|constructor|].
  intros subject. cbn. by intros ?%not_elem_of_empty.
Qed.

Lemma connected_run : bsteps [LOther; LOther] new connected.
Proof.
  eapply b_next; [apply b_register_begin|]. eapply b_next; [|apply b_refl].
  apply (b_register_finish None claimed connect ids (Ok notes) 50 ids 0), claimed_fresh.
Qed.

Lemma connected_life : lifetimes new connected.
Proof. eapply life_run; [apply connected_run|apply life_refl]. Qed.

(** The read grant is revoked, and the folder attached again. *)
Definition narrowed : Shared := (revoke_grant None connected alice 102).2.
Definition again : RootAttachmentMutationRequest :=
  MkAttachRequest 12 alice 1 50 (Some PermissionDialog).
Definition reattached : Shared := (mutate_root_attachment None ids 5 narrowed again Attach).2.

Lemma relative_path_canonical_witness :
  relative_path_parse "a//b/./c" = Ok "a/b/c" /\ relative_path_parse "a/b/c" = Ok "a/b/c".
Proof.
  split; [by vm_compute|].
  apply (relative_path_canonical "a//b/./c" "a/b/c"). by vm_compute.
Defined.

Lemma settled_access_only_narrows_witness :
  (alice, 50%N) ∈ settled (state reattached)
  /\ forall g, g ∈ grants (state reattached) -> reaches alice 50 g -> g ∈ grants (state connected).
Proof.
  apply (settled_access_only_narrows [LOther; LOther] connected reattached alice 50).
  - eapply b_next; [apply (b_revoke_grant None connected alice 102)|].
    eapply b_next; [apply (b_attach None ids 5 narrowed again Attach)|apply b_refl].
  - vm_compute. reflexivity.
  - by repeat constructor.
Defined.

(** The revoked capability did not come back. *)
Example reattached_reads : authorized_root reattached here 50 "." = Err Denied.
Proof. vm_compute. reflexivity. Qed.

Definition current (v : ValidatedRoot) : result IoKind string := Ok (canonical_path v).

Lemma exec_roots_witness :
  resolve_exec_roots current (state connected) here [50; 51; 50]%N
  = Ok [MkExecRoot 50 "/home/u/notes" true]
  /\ NoDup (map er_root_id [MkExecRoot 50 "/home/u/notes" true]).
Proof.
  split; [by vm_compute|].
  apply (exec_roots_are_exactly_the_granted current (state connected) here [50; 51; 50]%N).
  vm_compute. reflexivity.
Defined.

Definition ask_login : CuGrantAppRequest :=
  MkCuGrant alice ControlApp (Some "com.apple.TextEdit") PermissionDialog false false.
Definition computer_use : Shared := (cu_grant_app None 60 0 new ask_login).2.

Lemma protected_apps_witness :
  authorize_computer_use (state computer_use) here ControlApp "com.apple.TextEdit" = Ok 60%N
  /\ authorize_computer_use (state computer_use) here ControlApp "com.apple.loginwindow" = Err Denied.
Proof.
  split; [by vm_compute|].
  apply (protected_apps_are_never_authorized [LOther] new computer_use).
  - eapply b_next; [apply (b_cu_grant None 60 0 new ask_login)|apply b_refl].
  - constructor.
  - vm_compute. reflexivity.
Defined.

Lemma revocation_witness :
  exists sh', revoke_root None connected 11 alice 50 = (Ok (MkRevokeResult true), sh')
  /\ authorize (state sh') here WriteFiles (ResourcePath 50 "a") = Err Denied.
Proof.
  destruct (revocation_forgets_the_root connected 11 alice 50
              (MkRoot alice "notes" notes)) as (sh' & E & _ & _ & Hd & _);
    [vm_compute; reflexivity..|].
  exists sh'. split; [exact E|]. rewrite Hd. vm_compute. reflexivity.
Defined.

Lemma purge_witness :
  authorize (state (purge_conversation_subject None connected 1).2) here ReadFiles
    (ResourceRoot 50) = Err Denied.
Proof.
  apply (purge_takes_only_the_conversation connected 1).
  - vm_compute. reflexivity.
  - vm_compute. reflexivity.
  - intros u Hu. vm_compute in Hu. by apply not_elem_of_nil in Hu.
  - reflexivity.
  - discriminate.
Defined.

Lemma receipts_witness : length (receipt_order (state connected)) <= 2048.
Proof. apply (receipts_are_bounded_and_exact true connected connected_life). Defined.

Definition connected_answer : RegisterRootResult :=
  MkRegisterResult (MkSummary 50 "notes" (Some alice)).

Lemma control_answers_witness :
  register_begin None connected connect = (Ok (Some (Ok connected_answer)), connected).
Proof.
  destruct (control_answers_are_permanent true connected connected 10 connected_life
              (life_refl connected)) as [Hreg _]; [vm_compute; reflexivity|].
  rewrite (Hreg (register_fingerprint connect) (Ok connected_answer));
    [|vm_compute; reflexivity|reflexivity].
  by rewrite bool_decide_eq_true_2.
Defined.

(** A write is dispatched, the broker restarts before it is finished, and the same
    write is asked for again. *)
Definition save_note : WriteFileRequest := MkWrite 20 50 "todo.txt" Create None "aGk=" 2 [7]%N.
Definition dispatched : Shared := (write_begin None connected here save_note).2.
Definition open_notes (path : string) : result RootPolicyError ValidatedRoot := Ok notes.
Definition restarted : Shared :=
  match reopen open_notes (fun _ => 0%N) true (state dispatched) with
  | Ok sh => sh | Err _ => dispatched end.
Definition recovering : Shared := (write_begin None restarted here save_note).2.

Lemma restarted_eq : reopen open_notes (fun _ => 0%N) true (state dispatched) = Ok restarted.
Proof. vm_compute. reflexivity. Qed.

Lemma write_once_witness :
  write_begin None connected here save_note = (Ok (WriteGo false), dispatched)
  /\ write_begin None restarted here save_note = (Ok (WriteGo true), recovering)
  /\ (forall host, (write_finish None recovering host here save_note true).2 = false).
Proof.
  split; [vm_compute; reflexivity|]. split; [vm_compute; reflexivity|]. intros host.
  destruct (a_write_happens_at_most_once true connected None here save_note false dispatched dispatched
              restarted connected_life) as (outcome & Ho & _ & Hw);
    [vm_compute; reflexivity|apply life_refl| |vm_compute; lia|].
  - eapply life_restart; [apply restarted_eq|apply life_refl].
  - specialize (Hw None here save_note eq_refl). revert Hw. unfold write_answered.
    assert (E : write_begin None restarted here save_note = (Ok (WriteGo true), recovering)) by (vm_compute; reflexivity).
    rewrite E, bool_decide_eq_true_2 by reflexivity.
    assert (El : (_ ← decode_write_content save_note; _ ← check_approval save_note; lock_state restarted) = Ok (state restarted))
      by (vm_compute; reflexivity).
    rewrite El. destruct outcome; [|intros [Hd _]; discriminate Hd].
    intros [[err Herr]|[_ Hf]]; [discriminate Herr|apply Hf].
Defined.

(** The folder's drive is unplugged for one start. *)
Definition unplugged (path : string) : result RootPolicyError ValidatedRoot :=
  Err (RootIo IoNotFound).
Definition without : Shared :=
  match reopen unplugged (fun _ => 0%N) true (state connected) with
  | Ok sh => sh | Err _ => connected end.
Definition plugged : Shared :=
  match reopen open_notes (fun _ => 0%N) true (state without) with
  | Ok sh => sh | Err _ => connected end.

Lemma outage_witness :
  authorize (state without) here ReadFiles (ResourceRoot 50) = Err Denied
  /\ roots (state plugged) = roots (state connected).
Proof.
  destruct (an_outage_loses_nothing unplugged (fun _ => 0%N) open_notes (fun _ => 0%N) true
              (state connected) without plugged) as (H1 & H2 & _).
  - vm_compute. reflexivity.
  - intros t v _ Hv. unfold reopened, unplugged in Hv. discriminate.
  - intros i r Hr. apply elem_of_map_to_list in Hr. vm_compute in Hr.
    apply list_elem_of_singleton in Hr. injection Hr as -> ->. vm_compute. by split.
  - vm_compute. reflexivity.
  - vm_compute. reflexivity.
  - split; [|exact H2]. by apply (H1 50%N (MkRoot alice "notes" notes)); [vm_compute..].
Defined.

Lemma deleted_chat_witness :
  exists sh', purge_conversation_subject None connected 1 = (Ok true, sh')
  /\ is_ok (reopen open_notes (fun _ => 0%N) true (state sh')) = false.
Proof.
  destruct (deleted_chat_blocks_the_next_start true connected 1 10 (register_fingerprint connect)
              connected_answer (MkRoot alice "notes" notes) connected_life) as (sh' & E & Hno).
  - vm_compute. reflexivity.
  - vm_compute. reflexivity.
  - vm_compute. reflexivity.
  - vm_compute. reflexivity.
  - vm_compute. reflexivity.
  - intros c' Hc. vm_compute in Hc. apply list_elem_of_singleton in Hc. by injection Hc as ->.
  - vm_compute. reflexivity.
  - intros op q answer Hop. apply elem_of_map_to_list in Hop. vm_compute in Hop.
    apply list_elem_of_singleton in Hop. discriminate.
  - exists sh'. split; [exact E|]. apply Hno.
Defined.

(** A folder two conversations share, registered by the one that is deleted. *)
Definition shared_folder : Shared :=
  (mutate_root_attachment None (MkFresh 201 202 203 204) 3 connected
     (MkAttachRequest 30 (MkSubject Conversation 2) 2 50 (Some PermissionDialog)) Attach).2.

Lemma shared_folder_blocks_the_next_start :
  let sh' := (purge_conversation_subject None shared_folder 1).2 in
  is_ok (authorize (state sh') (MkContext 2 None) ReadFiles (ResourceRoot 50)) = true
  /\ is_ok (reopen open_notes (fun _ => 0%N) true (state sh')) = false.
Proof. vm_compute. split; reflexivity. Qed.

(** A guest of the folder, narrowed to nothing and detached, keeps its settled
    position when it is deleted: the purge sees nothing else to change. *)
Definition guest : GrantSubject := MkSubject Conversation 2.
Definition left : Shared :=
  let sh := (revoke_grant None shared_folder guest 201).2 in
  let sh := (revoke_grant None sh guest 202).2 in
  let sh := (revoke_grant None sh guest 203).2 in
  (mutate_root_attachment None ids 5 sh (MkAttachRequest 40 guest 2 50 None) Detach).2.

Lemma purge_keeps_a_lone_settled_position :
  let '(answer, sh') := purge_conversation_subject None left 2 in
  answer = Ok false /\ (guest, 50%N) ∈ settled (state sh').
Proof. vm_compute. split; reflexivity. Qed.

End HostDemo.
