(* ===== verification/TurnTables.v ===== *)
(** * The turn tables

    Durable execution state of user turns: the rows of [turn],
    [code_turn_claim], [code_turn_failure], [code_turn_steer],
    [turn_client_wait], [tool_call], [message], [message_identity] and [event]
    (tidebreak-core, db/entities.rs), the constraints the schema puts on them
    (db/migration/one_turn_lane.rs, one_journal.rs, baseline/turn.rs), and the
    statements the turn operations of db/ops/turn are built from.

    A transaction is an [stm] over the whole database; [begin] runs one and
    rolls back when it fails or asks to.  Transactions are serial, which is
    what the write locks the code takes (claim scheduler, chat, turn) provide.
    Times are nanoseconds; [canonical_db_timestamp] keeps whole microseconds.
    Ids and tokens are UUIDs as numbers, nil is 0. *)
From S2P Require Import Prelude RustStr.
From stdpp Require Import gmap.

Open Scope Z_scope.

(** ** Durable states (model/turns.rs) *)

Inductive TurnRunStatus : Type :=
| Queued | Running | Cancelling | WaitingForClient | WaitingForAgentRun
| CancellingClient | Resuming | RetryWait | Completed | Failed | Cancelled.

#[export] Instance turn_run_status_eq_dec : EqDecision TurnRunStatus.
Proof. solve_decision. Defined.

Definition as_str (s : TurnRunStatus) : string :=
  match s with
  | Queued => "queued" | Running => "running" | Cancelling => "cancelling"
  | WaitingForClient => "waiting_for_client"
  | WaitingForAgentRun => "waiting_for_agent_run"
  | CancellingClient => "cancelling_client" | Resuming => "resuming"
  | RetryWait => "retry_wait" | Completed => "completed" | Failed => "failed"
  | Cancelled => "cancelled"
  end.

(** [TurnRunStatus::LIVE] *)
Definition LIVE : list TurnRunStatus :=
  [Queued; Running; Cancelling; WaitingForClient; WaitingForAgentRun;
   CancellingClient; Resuming; RetryWait].

Definition is_live (s : TurnRunStatus) : bool := bool_decide (s ∈ LIVE).

Definition is_terminal (s : TurnRunStatus) : bool :=
  match s with Completed | Failed | Cancelled => true | _ => false end.

(** [TurnRunStatus::TERMINAL]: the database tokens of a finished turn *)
Definition TERMINAL : list string := ["completed"; "failed"; "cancelled"; "interrupted"].

(** The only variant of the error type the turn operations raise (error.rs). *)
Inductive AgentError : Type := Store (message : string).

Definition turn_run_status_from_db (text : string) : result AgentError TurnRunStatus :=
  if String.eqb text "queued" then Ok Queued
  else if String.eqb text "running" then Ok Running
  else if String.eqb text "cancelling" then Ok Cancelling
  else if String.eqb text "waiting_for_client" || String.eqb text "waiting"
  then Ok WaitingForClient
  else if String.eqb text "waiting_for_agent_run" then Ok WaitingForAgentRun
  else if String.eqb text "cancelling_client" then Ok CancellingClient
  else if String.eqb text "resuming" then Ok Resuming
  else if String.eqb text "retry_wait" then Ok RetryWait
  else if String.eqb text "completed" then Ok Completed
  else if String.eqb text "failed" then Ok Failed
  else if String.eqb text "cancelled" || String.eqb text "interrupted" then Ok Cancelled
  else Err (Store "unknown durable turn status").

(** [s.chars().count()] *)
Definition char_count (s : string) : Z := Z.of_nat (length (chars s)).

(** ** Machine integers *)
Definition I32_MAX : Z := 2147483647.
Definition U32_MAX : Z := 4294967295.
Definition I64_MAX : Z := 9223372036854775807.

(** [x.checked_add(1)] at the width whose maximum is given *)
Definition checked_succ (max x : Z) : option Z := if x + 1 <=? max then Some (x + 1) else None.
(** [x.saturating_add(1)] *)
Definition saturating_succ (max x : Z) : Z := Z.min (x + 1) max.

Definition canonical_db_timestamp (t : Z) : Z := t / 1000 * 1000.

(** ** Rows *)

(** Provider usage, four [u32] totals (provider.rs). *)
Record Usage : Type := MkUsage {
  input_tokens : Z; output_tokens : Z;
  cache_read_input_tokens : Z; cache_creation_input_tokens : Z }.

#[export] Instance usage_eq_dec : EqDecision Usage.
Proof. solve_decision. Defined.

Definition usage_fits (u : Usage) : bool :=
  forallb (fun x => (0 <=? x) && (x <=? U32_MAX))
    [input_tokens u; output_tokens u; cache_read_input_tokens u;
     cache_creation_input_tokens u].

(** What a durably parked turn of the adapter lane waits for. *)
Inductive TurnParkWait : Type :=
| ParkApproval (call_id : string)
| ParkClientToolCall (call_id : string)
| ParkChildSessions
| ParkAgentRuns.

(** The columns only the acceptance of a turn writes. *)
Record admitted : Type := MkAdmitted {
  ad_model : option string; ad_invoked_skills : list string; ad_voice_input_used : bool;
  ad_fingerprint : option (list Z); ad_replaces_turn_id : option Z;
  ad_replacement : option string }.

Record turn : Type := MkTurn {
  t_id : Z; t_owner : string; t_session_id : Z; t_ordinal : Z;
  t_status : string; t_user_input : string;
  t_started_at : Z; t_ended_at : option Z;
  t_park_ref : option string; t_park_wait : option TurnParkWait;
  t_attempt_count : Z; t_max_attempts : Z; t_claim_count : Z;
  t_model_steps : Z; t_usage : Usage;
  t_available_at : option Z; t_lease_token : option Z; t_lease_expires_at : option Z;
  t_last_error_code : option string; t_last_error_detail : option string;
  t_steer_revision : Z; t_last_steer_applied_at : option Z;
  t_input_message_id : option Z; t_output_message_id : option Z;
  t_updated_at : option Z; t_admitted : admitted }.

(** Columns an [UPDATE turn SET ...] writes. *)
Definition set_status v (r : turn) : turn := MkTurn (t_id r) (t_owner r) (t_session_id r)
  (t_ordinal r) v (t_user_input r) (t_started_at r) (t_ended_at r) (t_park_ref r) (t_park_wait
  r) (t_attempt_count r) (t_max_attempts r) (t_claim_count r) (t_model_steps r) (t_usage r)
  (t_available_at r) (t_lease_token r) (t_lease_expires_at r) (t_last_error_code r)
  (t_last_error_detail r) (t_steer_revision r) (t_last_steer_applied_at r) (t_input_message_id
  r) (t_output_message_id r) (t_updated_at r) (t_admitted r).
Definition set_user_input v (r : turn) : turn := MkTurn (t_id r) (t_owner r) (t_session_id r)
  (t_ordinal r) (t_status r) v (t_started_at r) (t_ended_at r) (t_park_ref r) (t_park_wait r)
  (t_attempt_count r) (t_max_attempts r) (t_claim_count r) (t_model_steps r) (t_usage r)
  (t_available_at r) (t_lease_token r) (t_lease_expires_at r) (t_last_error_code r)
  (t_last_error_detail r) (t_steer_revision r) (t_last_steer_applied_at r) (t_input_message_id
  r) (t_output_message_id r) (t_updated_at r) (t_admitted r).
Definition set_started_at v (r : turn) : turn := MkTurn (t_id r) (t_owner r) (t_session_id r)
  (t_ordinal r) (t_status r) (t_user_input r) v (t_ended_at r) (t_park_ref r) (t_park_wait r)
  (t_attempt_count r) (t_max_attempts r) (t_claim_count r) (t_model_steps r) (t_usage r)
  (t_available_at r) (t_lease_token r) (t_lease_expires_at r) (t_last_error_code r)
  (t_last_error_detail r) (t_steer_revision r) (t_last_steer_applied_at r) (t_input_message_id
  r) (t_output_message_id r) (t_updated_at r) (t_admitted r).
Definition set_ended_at v (r : turn) : turn := MkTurn (t_id r) (t_owner r) (t_session_id r)
  (t_ordinal r) (t_status r) (t_user_input r) (t_started_at r) v (t_park_ref r) (t_park_wait r)
  (t_attempt_count r) (t_max_attempts r) (t_claim_count r) (t_model_steps r) (t_usage r)
  (t_available_at r) (t_lease_token r) (t_lease_expires_at r) (t_last_error_code r)
  (t_last_error_detail r) (t_steer_revision r) (t_last_steer_applied_at r) (t_input_message_id
  r) (t_output_message_id r) (t_updated_at r) (t_admitted r).
Definition set_attempt_count v (r : turn) : turn := MkTurn (t_id r) (t_owner r) (t_session_id r)
  (t_ordinal r) (t_status r) (t_user_input r) (t_started_at r) (t_ended_at r) (t_park_ref r)
  (t_park_wait r) v (t_max_attempts r) (t_claim_count r) (t_model_steps r) (t_usage r)
  (t_available_at r) (t_lease_token r) (t_lease_expires_at r) (t_last_error_code r)
  (t_last_error_detail r) (t_steer_revision r) (t_last_steer_applied_at r) (t_input_message_id
  r) (t_output_message_id r) (t_updated_at r) (t_admitted r).
Definition set_claim_count v (r : turn) : turn := MkTurn (t_id r) (t_owner r) (t_session_id r)
  (t_ordinal r) (t_status r) (t_user_input r) (t_started_at r) (t_ended_at r) (t_park_ref r)
  (t_park_wait r) (t_attempt_count r) (t_max_attempts r) v (t_model_steps r) (t_usage r)
  (t_available_at r) (t_lease_token r) (t_lease_expires_at r) (t_last_error_code r)
  (t_last_error_detail r) (t_steer_revision r) (t_last_steer_applied_at r) (t_input_message_id
  r) (t_output_message_id r) (t_updated_at r) (t_admitted r).
Definition set_model_steps v (r : turn) : turn := MkTurn (t_id r) (t_owner r) (t_session_id r)
  (t_ordinal r) (t_status r) (t_user_input r) (t_started_at r) (t_ended_at r) (t_park_ref r)
  (t_park_wait r) (t_attempt_count r) (t_max_attempts r) (t_claim_count r) v (t_usage r)
  (t_available_at r) (t_lease_token r) (t_lease_expires_at r) (t_last_error_code r)
  (t_last_error_detail r) (t_steer_revision r) (t_last_steer_applied_at r) (t_input_message_id
  r) (t_output_message_id r) (t_updated_at r) (t_admitted r).
Definition set_usage v (r : turn) : turn := MkTurn (t_id r) (t_owner r) (t_session_id r)
  (t_ordinal r) (t_status r) (t_user_input r) (t_started_at r) (t_ended_at r) (t_park_ref r)
  (t_park_wait r) (t_attempt_count r) (t_max_attempts r) (t_claim_count r) (t_model_steps r) v
  (t_available_at r) (t_lease_token r) (t_lease_expires_at r) (t_last_error_code r)
  (t_last_error_detail r) (t_steer_revision r) (t_last_steer_applied_at r) (t_input_message_id
  r) (t_output_message_id r) (t_updated_at r) (t_admitted r).
Definition set_available_at v (r : turn) : turn := MkTurn (t_id r) (t_owner r) (t_session_id r)
  (t_ordinal r) (t_status r) (t_user_input r) (t_started_at r) (t_ended_at r) (t_park_ref r)
  (t_park_wait r) (t_attempt_count r) (t_max_attempts r) (t_claim_count r) (t_model_steps r)
  (t_usage r) v (t_lease_token r) (t_lease_expires_at r) (t_last_error_code r)
  (t_last_error_detail r) (t_steer_revision r) (t_last_steer_applied_at r) (t_input_message_id
  r) (t_output_message_id r) (t_updated_at r) (t_admitted r).
Definition set_lease_token v (r : turn) : turn := MkTurn (t_id r) (t_owner r) (t_session_id r)
  (t_ordinal r) (t_status r) (t_user_input r) (t_started_at r) (t_ended_at r) (t_park_ref r)
  (t_park_wait r) (t_attempt_count r) (t_max_attempts r) (t_claim_count r) (t_model_steps r)
  (t_usage r) (t_available_at r) v (t_lease_expires_at r) (t_last_error_code r)
  (t_last_error_detail r) (t_steer_revision r) (t_last_steer_applied_at r) (t_input_message_id
  r) (t_output_message_id r) (t_updated_at r) (t_admitted r).
Definition set_lease_expires_at v (r : turn) : turn := MkTurn (t_id r) (t_owner r) (t_session_id
  r) (t_ordinal r) (t_status r) (t_user_input r) (t_started_at r) (t_ended_at r) (t_park_ref r)
  (t_park_wait r) (t_attempt_count r) (t_max_attempts r) (t_claim_count r) (t_model_steps r)
  (t_usage r) (t_available_at r) (t_lease_token r) v (t_last_error_code r) (t_last_error_detail
  r) (t_steer_revision r) (t_last_steer_applied_at r) (t_input_message_id r)
  (t_output_message_id r) (t_updated_at r) (t_admitted r).
Definition set_last_error_code v (r : turn) : turn := MkTurn (t_id r) (t_owner r) (t_session_id
  r) (t_ordinal r) (t_status r) (t_user_input r) (t_started_at r) (t_ended_at r) (t_park_ref r)
  (t_park_wait r) (t_attempt_count r) (t_max_attempts r) (t_claim_count r) (t_model_steps r)
  (t_usage r) (t_available_at r) (t_lease_token r) (t_lease_expires_at r) v (t_last_error_detail
  r) (t_steer_revision r) (t_last_steer_applied_at r) (t_input_message_id r)
  (t_output_message_id r) (t_updated_at r) (t_admitted r).
Definition set_last_error_detail v (r : turn) : turn := MkTurn (t_id r) (t_owner r)
  (t_session_id r) (t_ordinal r) (t_status r) (t_user_input r) (t_started_at r) (t_ended_at r)
  (t_park_ref r) (t_park_wait r) (t_attempt_count r) (t_max_attempts r) (t_claim_count r)
  (t_model_steps r) (t_usage r) (t_available_at r) (t_lease_token r) (t_lease_expires_at r)
  (t_last_error_code r) v (t_steer_revision r) (t_last_steer_applied_at r) (t_input_message_id
  r) (t_output_message_id r) (t_updated_at r) (t_admitted r).
Definition set_steer_revision v (r : turn) : turn := MkTurn (t_id r) (t_owner r) (t_session_id
  r) (t_ordinal r) (t_status r) (t_user_input r) (t_started_at r) (t_ended_at r) (t_park_ref r)
  (t_park_wait r) (t_attempt_count r) (t_max_attempts r) (t_claim_count r) (t_model_steps r)
  (t_usage r) (t_available_at r) (t_lease_token r) (t_lease_expires_at r) (t_last_error_code r)
  (t_last_error_detail r) v (t_last_steer_applied_at r) (t_input_message_id r)
  (t_output_message_id r) (t_updated_at r) (t_admitted r).
Definition set_last_steer_applied_at v (r : turn) : turn := MkTurn (t_id r) (t_owner r)
  (t_session_id r) (t_ordinal r) (t_status r) (t_user_input r) (t_started_at r) (t_ended_at r)
  (t_park_ref r) (t_park_wait r) (t_attempt_count r) (t_max_attempts r) (t_claim_count r)
  (t_model_steps r) (t_usage r) (t_available_at r) (t_lease_token r) (t_lease_expires_at r)
  (t_last_error_code r) (t_last_error_detail r) (t_steer_revision r) v (t_input_message_id r)
  (t_output_message_id r) (t_updated_at r) (t_admitted r).
Definition set_input_message_id v (r : turn) : turn := MkTurn (t_id r) (t_owner r) (t_session_id
  r) (t_ordinal r) (t_status r) (t_user_input r) (t_started_at r) (t_ended_at r) (t_park_ref r)
  (t_park_wait r) (t_attempt_count r) (t_max_attempts r) (t_claim_count r) (t_model_steps r)
  (t_usage r) (t_available_at r) (t_lease_token r) (t_lease_expires_at r) (t_last_error_code r)
  (t_last_error_detail r) (t_steer_revision r) (t_last_steer_applied_at r) v
  (t_output_message_id r) (t_updated_at r) (t_admitted r).
Definition set_output_message_id v (r : turn) : turn := MkTurn (t_id r) (t_owner r)
  (t_session_id r) (t_ordinal r) (t_status r) (t_user_input r) (t_started_at r) (t_ended_at r)
  (t_park_ref r) (t_park_wait r) (t_attempt_count r) (t_max_attempts r) (t_claim_count r)
  (t_model_steps r) (t_usage r) (t_available_at r) (t_lease_token r) (t_lease_expires_at r)
  (t_last_error_code r) (t_last_error_detail r) (t_steer_revision r) (t_last_steer_applied_at r)
  (t_input_message_id r) v (t_updated_at r) (t_admitted r).
Definition set_updated_at v (r : turn) : turn := MkTurn (t_id r) (t_owner r) (t_session_id r)
  (t_ordinal r) (t_status r) (t_user_input r) (t_started_at r) (t_ended_at r) (t_park_ref r)
  (t_park_wait r) (t_attempt_count r) (t_max_attempts r) (t_claim_count r) (t_model_steps r)
  (t_usage r) (t_available_at r) (t_lease_token r) (t_lease_expires_at r) (t_last_error_code r)
  (t_last_error_detail r) (t_steer_revision r) (t_last_steer_applied_at r) (t_input_message_id
  r) (t_output_message_id r) v (t_admitted r).

Record claim : Type := MkClaim {
  c_turn_id : Z; c_owner : string; c_attempt_count : Z; c_claim_count : Z;
  c_claimed_at : Z; c_lease_expires_at : Z }.

Record failure : Type := MkFailure {
  f_turn_id : Z; f_owner : string; f_attempt_count : Z; f_model_steps : Z; f_usage : Usage;
  f_requested_retry_at : option Z; f_error_code : string; f_error_detail : option string;
  f_resolved_at : Z; f_result_status : string }.

Record steer : Type := MkSteer {
  s_id : Z; s_turn_id : Z; s_session_id : Z; s_content : string;
  s_invoked_skills : list string; s_voice_input_used : bool; s_interrupt : bool;
  s_status : string; s_applied_lease_token : option Z; s_message_id : option Z;
  s_preceding_assistant_message_id : option Z; s_created_at : Z; s_resolved_at : option Z }.

Record client_wait : Type := MkWait {
  w_turn_id : Z; w_session_id : Z; w_park_lease_token : Z;
  w_attempt_count : Z; w_claim_count : Z; w_model_steps : Z; w_usage : Usage;
  w_vendor_web_search_max_uses : option Z; w_status : string;
  w_parked_at : Z; w_closed_at : option Z }.

Record tool_call : Type := MkCall {
  k_chat_id : Z; k_turn_id : Z; k_provider_id : string; k_history_order : Z;
  k_name : string; k_arguments : string; k_execution : string; k_status : string;
  k_result : option string; k_client_executor_id : option Z;
  k_client_lease_expires_at : option Z; k_turn_lease_token : option Z;
  k_created_at : Z; k_resolved_at : option Z }.

Record message : Type := MkMessage {
  m_chat_id : Z; m_turn_id : Z; m_seq : Z; m_role : string; m_content : string;
  m_llm_content : option string; m_reasoning : option string;
  m_turn_lease_token : option Z; m_created_at : Z }.

Record identity : Type := MkIdentity { i_chat_id : Z; i_turn_id : Z; i_owner : string }.

(** ** The journal *)

(** The part of a refusal the terminal transition reads (provider.rs). *)
Record RefusalOutcome : Type := MkRefusal {
  partial_output : bool; report_blocked : bool; refusal_text : string }.

(** The events the turn operations write; [Streamed] is any other event of
    the lane, which only [append_turn_events] writes. *)
Inductive AgentEvent : Type :=
| TurnStarted (turn_id : Z)
| TurnCompleted (usage : Usage) (stop_reason : string)
| TurnRefused (usage : Usage) (refusal : RefusalOutcome)
| TurnFailed (kind message : string)
| TurnCancelled (usage : Usage)
| TurnRetrying (category : string) (attempt max_attempts retry_at : Z)
| UserSteered (message_id : Z) (content : string)
| AssistantMessage (text : string)
| UserQuestionsAsked (call_id turn_id : Z)
| PlanProposed (call_id turn_id : Z)
| Streamed (payload : string).

#[export] Instance refusal_eq_dec : EqDecision RefusalOutcome.
Proof. solve_decision. Defined.
#[export] Instance agent_event_eq_dec : EqDecision AgentEvent.
Proof. solve_decision. Defined.

Definition is_terminal_event (event : AgentEvent) : bool :=
  match event with
  | TurnCompleted _ _ | TurnRefused _ _ | TurnFailed _ _ | TurnCancelled _ => true
  | _ => false
  end.

Record event : Type := MkEvent {
  e_session_id : Z; e_seq : Z; e_owner : string; e_event : AgentEvent; e_turn_id : option Z;
  e_lease_token : option Z; e_attempt_event_ordinal : option Z;
  e_scan_token : option Z; e_terminal : bool }.

Inductive NotificationKind : Type := AgentCompleted | AgentFailed.

Definition terminal_notification_kind (event : AgentEvent) : option NotificationKind :=
  match event with
  | TurnCompleted _ _ => Some AgentCompleted
  | TurnRefused _ refusal =>
      if report_blocked refusal then Some AgentFailed else Some AgentCompleted
  | TurnFailed _ _ => Some AgentFailed
  | _ => None
  end.

Definition terminal_failure (event : AgentEvent) : option (string * string) :=
  match event with TurnFailed kind message => Some (kind, message) | _ => None end.

(** The columns of a session row that split the two lanes of workers. *)
Record session : Type := MkSession {
  n_owner : string; n_workspace_id : option Z; n_spawn_epoch : Z; n_lifecycle : string }.

(** [code_runtime_sessions] (db/ops/code/session.rs) *)
Definition code_runtime (s : session) : bool :=
  bool_decide (is_Some (n_workspace_id s)) || (0 <? n_spawn_epoch s)
  || negb (String.eqb (n_lifecycle s) "idle").

Inductive AgentRunCancellationReason : Type :=
| Requested | ParentTurnCancelled | ParentTurnFailed.

(** An attached image (image.rs). *)
Record ImageRef : Type := MkImage {
  blob_id : Z; media_type : string; width : Z; height : Z; byte_len : Z }.
#[export] Instance image_eq_dec : EqDecision ImageRef.
Proof. solve_decision. Defined.

(** The attachments of a queued row, one text column: the chat lane stores
    image ids, the session lane whole image references.  An empty list reads
    as either. *)
Inductive QueuedAttachments : Type :=
| ImageIds (ids : list Z)
| ImageRefs (images : list ImageRef).
#[export] Instance queued_attachments_eq_dec : EqDecision QueuedAttachments.
Proof. solve_decision. Defined.

Record queued : Type := MkQueued {
  u_id : Z; u_owner : string; u_session_id : Z; u_message : string;
  u_attachments : QueuedAttachments; u_file_attachments : list Z;
  u_invoked_skills : list string; u_voice_input_used : bool;
  u_fingerprint : option (list Z); u_actor : option string; u_position : Z;
  u_created_at : Z; u_updated_at : Z }.

(** ** The components a turn transaction calls

    Their tables are one opaque value [W]; an operation may fail, and a
    failure fails the transaction.  [eq_null] is the query builder's reading
    of an equality with an absent value; nothing below depends on it. *)
Class TurnPeers (W C : Type) : Type := {
  eq_null : bool;
  parse_call_id : string -> option Z;
  (** db/ops/agent_run/cancellation.rs *)
  unsettled_sandbox_children_for_origin_turn_on : W -> turn -> result AgentError (list Z);
  cancel_sandbox_children_for_origin_turn_on :
    W -> turn -> Z -> AgentRunCancellationReason -> result AgentError (bool * W);
  (** db/ops/turn/multi_agent_run_wait.rs *)
  cancel_wait_set_for_turn_on : W -> turn -> Z -> result AgentError (bool * W);
  interrupt_wait_set_for_steer_on : W -> turn -> Z -> result AgentError (bool * W);
  (** db/ops/approval.rs *)
  close_pending_for_terminal_turn_on : W -> Z -> Z -> result AgentError W;
  reject_pending_for_cancelling_turn_on : W -> Z -> Z -> result AgentError W;
  abandon_pending_for_call_on : W -> Z -> Z -> result AgentError W;
  (** db/ops/citation.rs *)
  citations_eq_dec : EqDecision C;
  validate_assistant_message : string -> list C -> bool;
  insert_for_message_on : W -> Z -> list C -> result AgentError W;
  exact_citations_for_message_on : W -> Z -> result AgentError (list C);
  (** db/ops/message_search.rs, notification.rs, conversation.rs *)
  index_chat_message_on : W -> Z -> result AgentError W;
  index_code_event_on : W -> Z -> Z -> AgentEvent -> result AgentError W;
  record_work_turn_notification_on :
    W -> Z -> Z -> NotificationKind -> option (string * string) -> result AgentError W;
  record_finished_turn_on : W -> Z -> result AgentError W;
  (** db/ops/message_attachment.rs, model/messages.rs *)
  bind_turn_to_message_on : W -> Z -> Z -> string -> result AgentError (option string * W);
  user_message_llm_content :
    string -> list ImageRef -> list string -> list string -> bool -> option string;
  accepted_images_on : W -> Z -> result AgentError (list ImageRef);
  accepted_documents_on : W -> Z -> result AgentError (list Z);
  insert_images_on : W -> Z -> Z -> Z -> list ImageRef -> Z -> result AgentError W;
  insert_documents_on : W -> Z -> Z -> Z -> list Z -> Z -> result AgentError (list string * W);
  (** db/ops/agent_run.rs, chat_image_publication.rs, conversation.rs *)
  foreground_agent_run_on : W -> Z -> result AgentError (option bool);
  require_exact_images_on : W -> Z -> list ImageRef -> result AgentError unit;
  record_started_turn_on : W -> Z -> Z -> result AgentError W;
  (** db/ops/context_checkpoint.rs: the turn a checkpoint runs through, its time *)
  context_checkpoint_on : W -> Z -> result AgentError (option (option Z * Z));
  delete_checkpoint_on : W -> Z -> result AgentError W;
  delete_search_rows_on : W -> Z -> list Z -> result AgentError W;
  (** the digest of a fingerprint *)
  sha256 : list Z -> list Z;
  (** turn_failure.rs *)
  category_from_failure : string -> string -> string;
  (** db/ops/user_question.rs, plan.rs: the card a parked call shows *)
  open_card_on : W -> Z -> Z -> Z -> string -> string -> Z -> result AgentError W;
  card_pending_on : W -> Z -> Z -> Z -> string -> string -> result AgentError bool }.

#[export] Existing Instance citations_eq_dec.

(** ** The database *)
Section Db.
Context {W C : Type} `{P : TurnPeers W C}.

Record db : Type := MkDb {
  d_turns : gmap Z turn; d_claims : gmap Z claim; d_failures : gmap Z failure;
  d_steers : gmap Z steer; d_waits : gmap Z client_wait; d_calls : gmap Z tool_call;
  d_messages : gmap Z message; d_identities : gmap Z identity;
  d_events : list event; d_sessions : gmap Z session; d_queued : gmap Z queued; d_peers : W }.

Definition with_turns v (d : db) : db := MkDb v (d_claims d) (d_failures d) (d_steers d)
  (d_waits d) (d_calls d) (d_messages d) (d_identities d) (d_events d) (d_sessions d)
  (d_queued d) (d_peers d).
Definition with_claims v (d : db) : db := MkDb (d_turns d) v (d_failures d) (d_steers d)
  (d_waits d) (d_calls d) (d_messages d) (d_identities d) (d_events d) (d_sessions d)
  (d_queued d) (d_peers d).
Definition with_failures v (d : db) : db := MkDb (d_turns d) (d_claims d) v (d_steers d)
  (d_waits d) (d_calls d) (d_messages d) (d_identities d) (d_events d) (d_sessions d)
  (d_queued d) (d_peers d).
Definition with_steers v (d : db) : db := MkDb (d_turns d) (d_claims d) (d_failures d) v
  (d_waits d) (d_calls d) (d_messages d) (d_identities d) (d_events d) (d_sessions d)
  (d_queued d) (d_peers d).
Definition with_waits v (d : db) : db := MkDb (d_turns d) (d_claims d) (d_failures d)
  (d_steers d) v (d_calls d) (d_messages d) (d_identities d) (d_events d) (d_sessions d)
  (d_queued d) (d_peers d).
Definition with_calls v (d : db) : db := MkDb (d_turns d) (d_claims d) (d_failures d)
  (d_steers d) (d_waits d) v (d_messages d) (d_identities d) (d_events d) (d_sessions d)
  (d_queued d) (d_peers d).
Definition with_messages v (d : db) : db := MkDb (d_turns d) (d_claims d) (d_failures d)
  (d_steers d) (d_waits d) (d_calls d) v (d_identities d) (d_events d) (d_sessions d)
  (d_queued d) (d_peers d).
Definition with_identities v (d : db) : db := MkDb (d_turns d) (d_claims d) (d_failures d)
  (d_steers d) (d_waits d) (d_calls d) (d_messages d) v (d_events d) (d_sessions d)
  (d_queued d) (d_peers d).
Definition with_events v (d : db) : db := MkDb (d_turns d) (d_claims d) (d_failures d)
  (d_steers d) (d_waits d) (d_calls d) (d_messages d) (d_identities d) v (d_sessions d)
  (d_queued d) (d_peers d).
Definition with_queued v (d : db) : db := MkDb (d_turns d) (d_claims d) (d_failures d)
  (d_steers d) (d_waits d) (d_calls d) (d_messages d) (d_identities d) (d_events d)
  (d_sessions d) v (d_peers d).
Definition with_peers v (d : db) : db := MkDb (d_turns d) (d_claims d) (d_failures d)
  (d_steers d) (d_waits d) (d_calls d) (d_messages d) (d_identities d) (d_events d)
  (d_sessions d) (d_queued d) v.

(** A transaction: [Rolled a] rolls back and answers [a], [Broke e] drops the
    transaction with an error. *)
Inductive abort (R : Type) : Type :=
| Rolled (answer : R)
| Broke (error : AgentError).
#[global] Arguments Rolled {R} answer.
#[global] Arguments Broke {R} error.

Definition txn (R A : Type) : Type := stm db (abort R) A.

Definition begin {R} (body : txn R R) (d : db) : result AgentError R * db :=
  match body d with
  | Ok (a, d') => (Ok a, d')
  | Err (Rolled a) => (Ok a, d)
  | Err (Broke e) => (Err e, d)
  end.

Definition err {R A} (message : string) : txn R A := fail (Broke (Store message)).
Definition rollback {R A} (answer : R) : txn R A := fail (Rolled answer).

(** A fallible pure step, [?] *)
Definition try {R A} (r : result AgentError A) : txn R A :=
  match r with Ok a => mret a | Err e => fail (Broke e) end.

(** A call of another component. *)
Definition peer {R A} (f : W -> result AgentError (A * W)) : txn R A :=
  d ← get; '(a, w) ← try (f (d_peers d)); _ ← modify (with_peers w); mret a.
Definition peer_ {R} (f : W -> result AgentError W) : txn R unit :=
  peer (fun w => w' ← f w; mret (tt, w')).

(** *** Constraints of the turn table *)

Definition is_some {A} (o : option A) : bool := match o with Some _ => true | None => false end.

Definition status_in (r : turn) (l : list string) : bool :=
  existsb (String.eqb (t_status r)) l.

Definition MERGED_STATUS : list string :=
  ["queued"; "running"; "waiting"; "cancelling"; "waiting_for_client";
   "waiting_for_agent_run"; "cancelling_client"; "resuming"; "retry_wait";
   "completed"; "failed"; "interrupted"; "cancelled"].
Definition LIVE_STATUS : list string :=
  ["queued"; "running"; "waiting"; "cancelling"; "waiting_for_client";
   "waiting_for_agent_run"; "cancelling_client"; "resuming"; "retry_wait"].

Definition attempt_check (r : turn) : bool :=
  (0 <=? t_attempt_count r) && (1 <=? t_max_attempts r)
  && (t_attempt_count r <=? t_max_attempts r) && (t_attempt_count r <=? t_claim_count r).
Definition lease_check (r : turn) : bool :=
  negb (is_some (t_input_message_id r))
  || (if status_in r ["running"; "cancelling"]
      then is_some (t_lease_token r) && is_some (t_lease_expires_at r)
      else negb (is_some (t_lease_token r)) && negb (is_some (t_lease_expires_at r))).
Definition error_check (r : turn) : bool :=
  negb (is_some (t_input_message_id r))
  || (if status_in r ["retry_wait"; "failed"] then is_some (t_last_error_code r)
      else negb (is_some (t_last_error_code r)) && negb (is_some (t_last_error_detail r))).
Definition ended_check (r : turn) : bool :=
  negb (is_some (t_input_message_id r))
  || (if status_in r TERMINAL then is_some (t_ended_at r) else negb (is_some (t_ended_at r))).
Definition output_check (r : turn) : bool :=
  negb (is_some (t_input_message_id r))
  || (if status_in r ["completed"] then is_some (t_output_message_id r)
      else status_in r ["interrupted"; "cancelled"] || negb (is_some (t_output_message_id r))).
Definition steer_check (r : turn) : bool :=
  (0 <=? t_steer_revision r)
  && (if t_steer_revision r =? 0 then negb (is_some (t_last_steer_applied_at r))
      else is_some (t_last_steer_applied_at r)).
Definition totals_check (r : turn) : bool :=
  (0 <=? t_model_steps r) && (t_model_steps r <=? I32_MAX) && usage_fits (t_usage r).

(** Lengths of the text columns, and the ordinal. *)
Definition text_check (r : turn) : bool :=
  let within limit o := match o with
    | Some s => (1 <=? char_count s) && (char_count s <=? limit)
    | None => true
    end in
  (1 <=? t_ordinal r) && within 512 (ad_model (t_admitted r))
  && within 128 (t_last_error_code r) && within 4096 (t_last_error_detail r).

(** The [integer] columns are [i32] fields of the row. *)
Definition width_check (r : turn) : bool :=
  (t_max_attempts r <=? I32_MAX) && (t_claim_count r <=? I32_MAX).

(** The [CHECK]s of one row of the table. *)
Definition row_ok (r : turn) : bool :=
  width_check r && status_in r MERGED_STATUS && attempt_check r && lease_check r && error_check r
  && ended_check r && output_check r && steer_check r && totals_check r && text_check r.

(** The foreign key of a lease: the claim receipt of that exact segment. *)
Definition lease_fk (claims : gmap Z claim) (r : turn) : bool :=
  match t_lease_token r with
  | None => true
  | Some token =>
      match claims !! token with
      | None => false
      | Some c => (c_turn_id c =? t_id r) && (c_attempt_count c =? t_attempt_count r)
                  && (c_claim_count c =? t_claim_count r)
      end
  end.

(** [idx_code_turn_one_active] *)
Definition holds_chat (r : turn) : bool :=
  status_in r LIVE_STATUS && is_some (t_input_message_id r).
Definition one_active (d : db) (r : turn) : bool :=
  negb (holds_chat r)
  || forallb (fun '(k, o) => (k =? t_id r) || negb (holds_chat o)
                             || negb (t_session_id o =? t_session_id r))
       (map_to_list (d_turns d)).

Definition put_turn {R} (r : turn) : txn R unit :=
  d ← get;
  if row_ok r && lease_fk (d_claims d) r && one_active d r
  then modify (with_turns (<[t_id r := r]> (d_turns d)))
  else err "turn constraint violated".

(** *** Statements *)

(** SQL equality of two nullable columns. *)
Definition col_eq (a b : option Z) : bool :=
  match a, b with
  | Some x, Some y => x =? y
  | None, None => eq_null
  | _, _ => false
  end.
Definition col_lte (a : option Z) (t : Z) : bool :=
  match a with Some x => x <=? t | None => false end.
Definition col_gt (a : option Z) (t : Z) : bool :=
  match a with Some x => t <? x | None => false end.
Definition col_lt (a : option Z) (t : Z) : bool :=
  match a with Some x => x <? t | None => false end.

(** [UPDATE turn SET set WHERE id = id AND filter]; the rows affected. *)
Definition update_turn {R} (id : Z) (filter : turn -> bool) (set : turn -> turn) : txn R Z :=
  d ← get;
  match d_turns d !! id with
  | Some r => if filter r then _ ← put_turn (set r); mret 1 else mret 0
  | None => mret 0
  end.

Definition find_turn {R} (id : Z) : txn R (option turn) := d ← get; mret (d_turns d !! id).
Definition find_claim {R} (token : Z) : txn R (option claim) := d ← get; mret (d_claims d !! token).

(** [find_by_id(token).filter(|claim| claim.turn_id == id)] *)
Definition claim_of {R} (token id : Z) : txn R (option claim) :=
  d ← get;
  mret (match d_claims d !! token with
        | Some c => if c_turn_id c =? id then Some c else None
        | None => None
        end).

(** Lock the row of a session, of a turn: whether there is one. *)
Definition acquire_chat_write_lock {R} (chat_id : Z) : txn R bool :=
  d ← get; mret (is_some (d_sessions d !! chat_id)).
Definition acquire_turn_write_lock {R} (id : Z) : txn R bool :=
  d ← get; mret (is_some (d_turns d !! id)).

(** Insert a claim receipt, doing nothing on a conflict with a unique index:
    whether the row went in. *)
Definition claim_row_ok (c : claim) : bool :=
  (1 <=? c_attempt_count c) && (c_attempt_count c <=? c_claim_count c)
  && (c_claimed_at c <? c_lease_expires_at c).
Definition segment_taken (d : db) (turn_id claim_count : Z) : bool :=
  existsb (fun '(_, c) => (c_turn_id c =? turn_id) && (c_claim_count c =? claim_count))
    (map_to_list (d_claims d)).
Definition insert_claim {R} (token : Z) (c : claim) : txn R bool :=
  d ← get;
  if negb (claim_row_ok c) then err "claim constraint violated"
  else if is_some (d_claims d !! token) || segment_taken d (c_turn_id c) (c_claim_count c)
  then mret false
  else _ ← modify (with_claims (<[token := c]> (d_claims d))); mret true.

(** The failure receipt of a token, and the row of a steer. *)
Definition insert_failure {R} (token : Z) (f : failure) : txn R unit :=
  d ← get;
  if is_some (d_failures d !! token) then err "failure constraint violated"
  else modify (with_failures (<[token := f]> (d_failures d))).
Definition put_steer {R} (s : steer) : txn R unit :=
  d ← get; modify (with_steers (<[s_id s := s]> (d_steers d))).

(** The sequence the next event of a session takes. *)
Definition last_seq (f : event -> bool) (l : list event) : option Z :=
  match List.filter f l with
  | [] => None
  | e :: l' => Some (foldr (fun e m => Z.max (e_seq e) m) (e_seq e) l')
  end.
Definition next_seq (f : event -> bool) (l : list event) : option Z :=
  match last_seq f l with None => Some 1 | Some s => checked_succ I64_MAX s end.

(** The primary key and unique indexes of the journal. *)
Definition same_some (a b : option Z) : bool :=
  match a, b with Some x, Some y => x =? y | _, _ => false end.
Definition event_clash (e o : event) : bool :=
  (e_session_id e =? e_session_id o) && (e_seq e =? e_seq o)
  || same_some (e_lease_token e) (e_lease_token o)
     && same_some (e_attempt_event_ordinal e) (e_attempt_event_ordinal o)
  || same_some (e_scan_token e) (e_scan_token o)
  || e_terminal e && e_terminal o && same_some (e_turn_id e) (e_turn_id o).

Definition insert_event {R} (e : event) : txn R unit :=
  d ← get;
  if existsb (event_clash e) (d_events d) then err "event constraint violated"
  else modify (with_events (d_events d ++ [e])).

Definition insert_event_row {R} (chat_id seq : Z) (turn_id lease_token ordinal scan_token : option Z)
    (event : AgentEvent) : txn R unit :=
  d ← get;
  match d_sessions d !! chat_id with
  | None => err "chat does not exist"
  | Some s =>
      let terminal := is_some turn_id && is_terminal_event event in
      _ ← insert_event
            (MkEvent chat_id seq (n_owner s) event turn_id lease_token ordinal scan_token terminal);
      if terminal then peer_ (fun w => record_finished_turn_on w chat_id) else mret tt
  end.

Definition next_event_seq {R} (chat_id : Z) : txn R Z :=
  d ← get;
  match next_seq (fun e => e_session_id e =? chat_id) (d_events d) with
  | None => err "event sequence exhausted"
  | Some seq => mret seq
  end.

Definition append_event_on {R} (chat_id : Z) (turn_id lease_token ordinal scan_token : option Z)
    (event : AgentEvent) : txn R Z :=
  seq ← next_event_seq chat_id;
  _ ← insert_event_row chat_id seq turn_id lease_token ordinal scan_token event;
  mret seq.

(** [OwnerId::new] *)
Definition owner_id_ok (id : string) : bool :=
  let bytes := String.list_ascii_of_string id in
  negb (Nat.eqb (length bytes) 0) && Nat.leb (length bytes) 96
  && forallb (fun c => Nat.leb 33 (nat_of_ascii c) && Nat.leb (nat_of_ascii c) 126) bytes.

(** [append_event_on_locked] (db/ops/code/journal.rs) *)
Definition append_event_on_locked {R} (owner : string) (session_id : Z) (event : AgentEvent)
  : txn R Z :=
  d ← get;
  match next_seq (fun e => String.eqb (e_owner e) owner && (e_session_id e =? session_id))
          (d_events d) with
  | None => err "event sequence exhausted for code session"
  | Some seq =>
      _ ← insert_event (MkEvent session_id seq owner event None None None None false);
      _ ← peer_ (fun w => index_code_event_on w session_id seq event);
      mret seq
  end.

(** Reserve a message id; whether it was free. *)
Definition MESSAGE_IDENTITY_OWNER_MESSAGE : string := "message".
Definition MESSAGE_IDENTITY_OWNER_STEER : string := "turn_steer".
Definition reserve_message_identity_on {R} (id chat_id turn_id : Z) (owner : string) : txn R bool :=
  d ← get;
  if is_some (d_identities d !! id) then mret false
  else _ ← modify (with_identities (<[id := MkIdentity chat_id turn_id owner]> (d_identities d)));
       mret true.
Definition transfer_steer_message_identity_on {R} (id chat_id turn_id : Z) : txn R bool :=
  d ← get;
  match d_identities d !! id with
  | Some i =>
      if (i_chat_id i =? chat_id) && (i_turn_id i =? turn_id)
         && String.eqb (i_owner i) MESSAGE_IDENTITY_OWNER_STEER
      then _ ← modify (with_identities
                         (<[id := MkIdentity chat_id turn_id MESSAGE_IDENTITY_OWNER_MESSAGE]>
                            (d_identities d)));
           mret true
      else mret false
  | None => mret false
  end.

Definition next_message_seq_on {R} (chat_id : Z) : txn R Z :=
  d ← get;
  match List.filter (fun m => m_chat_id m =? chat_id) ((map_to_list (d_messages d)).*2) with
  | [] => mret 1
  | m :: l =>
      match checked_succ I64_MAX (foldr (fun m s => Z.max (m_seq m) s) (m_seq m) l) with
      | Some s => mret s
      | None => err "message sequence overflow"
      end
  end.

(** Insert a message row; the primary key is the only constraint modelled. *)
Definition insert_message {R} (id : Z) (m : message) : txn R bool :=
  d ← get;
  if is_some (d_messages d !! id) then mret false
  else _ ← modify (with_messages (<[id := m]> (d_messages d))); mret true.

(** [usage_from_turn_model] *)
Definition usage_from_turn_model {R} (r : turn) : txn R Usage :=
  if usage_fits (t_usage r) then mret (t_usage r)
  else err "turn token count is outside the supported range".

(** What [turn_run_from_model] reads back: the row, refused when its usage or
    its status does not decode. *)
Definition turn_run_from_model {R} (r : turn) : txn R turn :=
  _ ← usage_from_turn_model r;
  _ ← try (turn_run_status_from_db (t_status r));
  mret r.
End Db.

Arguments db : clear implicits.
Arguments txn : clear implicits.
