(* ===== verification/TurnLeases.v ===== *)
(** * Turn leases

    Claiming work: [take_lease_on_turn_inner], [claim_turn] and its candidate
    order, [heartbeat_turn], [expire_turn_lease] and the lease fence
    (tidebreak-core, db/ops/turn.rs), each one transaction over the tables of
    [TurnTables].  [claim_turn]'s loop re-reads the database after a rollback;
    a rolled-back pass answers [Again], which a serial database never gives on
    a well-formed state. *)
From S2P Require Import Prelude TurnTables.
From stdpp Require Import gmap.

Open Scope Z_scope.

(** A journal row handed back with its sequence. *)
Record SequencedAgentEvent : Type := MkSeq { q_seq : Z; q_event : AgentEvent }.
Record ClaimScanTerminalEvent : Type := MkScan {
  x_chat_id : Z; x_turn_id : Z; x_event : SequencedAgentEvent }.
Record ClaimTurnRunOutcome : Type := MkClaimOutcome {
  o_turn : option turn; o_terminal_event : option ClaimScanTerminalEvent }.
Inductive TurnLeaseFence : Type := Current | Stale.

Section Leases.
Context {W C : Type} `{P : TurnPeers W C}.

(** *** Reject steers of a turn that ended (db/ops/turn/steer.rs) *)

(** The [CHECK] that a resolved steer is not resolved before it was made. *)
Definition reject_steer (resolved_at : Z) (s : steer) : steer :=
  MkSteer (s_id s) (s_turn_id s) (s_session_id s) (s_content s) (s_invoked_skills s)
    (s_voice_input_used s) (s_interrupt s) "rejected" (s_applied_lease_token s) (s_message_id s)
    (s_preceding_assistant_message_id s) (s_created_at s) (Some resolved_at).
Definition rejectable (turn_id : Z) (s : steer) : bool :=
  (s_turn_id s =? turn_id) && String.eqb (s_status s) "pending"
  && negb (is_some (s_applied_lease_token s)) && negb (is_some (s_message_id s))
  && negb (is_some (s_resolved_at s)).
Definition reject_pending_turn_steers_on {R} (turn_id resolved_at : Z) : txn W R unit :=
  d ← get;
  if forallb (fun '(_, s) => negb (rejectable turn_id s) || (s_created_at s <=? resolved_at))
       (map_to_list (d_steers d))
  then modify (with_steers
         ((fun s => if rejectable turn_id s then reject_steer resolved_at s else s) <$> d_steers d))
  else err "steer constraint violated".

(** *** [take_lease_on_turn_inner] *)

(** The user transcript row a claimed code turn is missing; [mid] is the
    fresh message id and [dbnow] the database clock. *)
Definition ensure_turn_input_message_on {R} (existing : turn) (content : string) (mid dbnow : Z)
  : txn W R unit :=
  if is_some (t_input_message_id existing) then mret tt else
  let id := t_id existing in
  let chat_id := t_session_id existing in
  let now := canonical_db_timestamp dbnow in
  free ← reserve_message_identity_on mid chat_id id MESSAGE_IDENTITY_OWNER_MESSAGE;
  if negb free then err "turn input message identity is already reserved" else
  seq ← next_message_seq_on chat_id;
  inserted ← insert_message mid (MkMessage chat_id id seq "user" content None None None now);
  if negb inserted then err "message constraint violated" else
  updated ← update_turn id (fun r => negb (is_some (t_input_message_id r)))
              (fun r => set_user_input content (set_input_message_id (Some mid) r));
  if negb (updated =? 1) then err "turn gained an input message from another writer" else
  llm_content ← peer (fun w => bind_turn_to_message_on w id mid content);
  _ ← (if is_some llm_content
       then d ← get;
            match d_messages d !! mid with
            | Some m => modify (with_messages
                (<[mid := MkMessage (m_chat_id m) (m_turn_id m) (m_seq m) (m_role m) (m_content m)
                            llm_content (m_reasoning m) (m_turn_lease_token m) (m_created_at m)]>
                   (d_messages d)))
            | None => err "message disappeared"
            end
       else mret tt);
  peer_ (fun w => index_chat_message_on w mid).

(** The lease, the claim counters and a clean error of a newly claimed row. *)
Definition lease_columns (attempt claim token expires now : Z) (r : turn) : turn :=
  set_last_error_detail None (set_last_error_code None (set_updated_at (Some now)
    (set_lease_expires_at (Some expires) (set_lease_token (Some token)
      (set_claim_count claim (set_attempt_count attempt
        (set_status (as_str Running) r))))))).

Definition take_lease_on_turn_inner (id lease_token now lease_expires_at : Z)
    (input : option string) (required_status : option TurnRunStatus) (mid dbnow : Z)
  : db W -> result AgentError (option unit) * db W :=
  let now := canonical_db_timestamp now in
  let lease_expires_at := canonical_db_timestamp lease_expires_at in
  if (lease_token =? 0) || (lease_expires_at <=? now)
  then begin (err "turn lease requires a non-nil token and an expiry after now") else
  begin (
    existing ← find_turn id;
    match existing with None => mret None | Some existing =>
    locked ← acquire_chat_write_lock (t_session_id existing);
    if negb locked then err "chat does not exist" else
    if match required_status with
       | Some required => negb (String.eqb (t_status existing) (as_str required))
       | None => false
       end then mret None else
    let retrying := String.eqb (t_status existing) (as_str RetryWait) in
    if retrying && (col_gt (t_available_at existing) now
                    || (t_max_attempts existing <=? t_attempt_count existing))
    then mret None else
    if is_some (t_lease_token existing) && String.eqb (t_status existing) (as_str Running)
       && col_gt (t_lease_expires_at existing) now
    then mret None else
    let next_attempt :=
      if String.eqb (t_status existing) (as_str Resuming)
      then Z.max (t_attempt_count existing) 1
      else Z.max (saturating_succ I32_MAX (t_attempt_count existing)) 1 in
    let next_claim := Z.max (saturating_succ I32_MAX (t_claim_count existing)) 1 in
    inserted ← insert_claim lease_token
      (MkClaim id (t_owner existing) next_attempt next_claim now lease_expires_at);
    if negb inserted then rollback None else
    updated ← update_turn id (fun _ => true) (fun r =>
      set_ended_at None
        (set_started_at (if retrying then t_started_at existing else now)
          (lease_columns next_attempt next_claim lease_token lease_expires_at now r)));
    if negb (updated =? 1) then rollback None else
    _ ← match input with
        | Some content => ensure_turn_input_message_on existing content mid dbnow
        | None => mret tt
        end;
    mret (Some tt)
    end).

Definition take_lease_on_turn (id token now expires : Z) :=
  take_lease_on_turn_inner id token now expires None None 0 0.
Definition take_lease_on_resuming_turn (id token now expires : Z) :=
  take_lease_on_turn_inner id token now expires None (Some Resuming) 0 0.
Definition take_lease_on_retrying_turn (id token now expires : Z) :=
  take_lease_on_turn_inner id token now expires None (Some RetryWait) 0 0.
Definition take_lease_on_turn_with_input_message (id token now expires : Z) (content : string)
    (mid dbnow : Z) :=
  take_lease_on_turn_inner id token now expires (Some content) None mid dbnow.

(** *** The claim scan *)

(** [code_runtime_session_ids]: the session's turns belong to a code worker. *)
Definition code_session (d : db W) (chat_id : Z) : bool :=
  match d_sessions d !! chat_id with Some s => code_runtime s | None => false end.

Definition due_turn_candidate_condition (d : db W) (now : Z) (r : turn) : bool :=
  (String.eqb (t_status r) (as_str Resuming)
   || status_in r [as_str Queued; as_str RetryWait] && (t_attempt_count r <? t_max_attempts r))
  && col_lte (t_available_at r) now && col_lte (t_updated_at r) now
  && negb (code_session d (t_session_id r)).

Definition expired_turn_candidate_condition (d : db W) (now : Z) (r : turn) : bool :=
  status_in r [as_str Running; as_str Cancelling]
  && col_lte (t_lease_expires_at r) now && col_lte (t_updated_at r) now
  && negb (code_session d (t_session_id r)).

(** Rows in ascending order of three columns; [ORDER BY a, b, id] then [one]. *)
Definition key : Type := Z * Z * Z.
Definition key_leb (x y : key) : bool :=
  let '(a, b, c) := x in let '(a', b', c') := y in
  (a <? a') || (a =? a') && ((b <? b') || (b =? b') && (c <=? c')).
Definition first_by (k : turn -> key) (l : list turn) : option turn :=
  foldr (fun r best => match best with
                       | Some b => if key_leb (k r) (k b) then Some r else Some b
                       | None => Some r
                       end) None l.
Definition rows (d : db W) : list turn := (map_to_list (d_turns d)).*2.

Definition due_turn (d : db W) (now : Z) : option turn :=
  first_by (fun r => (default 0 (t_available_at r), t_started_at r, t_id r))
    (List.filter (due_turn_candidate_condition d now) (rows d)).
Definition expired_turn (d : db W) (now : Z) : option turn :=
  first_by (fun r => (default 0 (t_lease_expires_at r), t_started_at r, t_id r))
    (List.filter (expired_turn_candidate_condition d now) (rows d)).

(** [turn_run_due_order(left, right).is_le()] *)
Definition due_at (r : turn) : Z :=
  if String.eqb (t_status r) (as_str Running) || String.eqb (t_status r) (as_str Cancelling)
  then default (default (t_started_at r) (t_available_at r)) (t_lease_expires_at r)
  else default (t_started_at r) (t_available_at r).
Definition due_key (r : turn) : key := (due_at r, t_started_at r, t_id r).
Definition turn_run_due_order_is_le (left right : turn) : bool := key_leb (due_key left) (due_key right).

Definition claim_candidate (d : db W) (now : Z) : option turn :=
  match due_turn d now, expired_turn d now with
  | Some due, Some expired => if turn_run_due_order_is_le due expired then Some due else Some expired
  | Some due, None => Some due
  | None, candidate => candidate
  end.

Definition scanned (token : Z) (e : event) : bool := same_some (e_scan_token e) (Some token).

Definition any_turn_claim_work_on (d : db W) (lease_token now : Z) : bool :=
  existsb (scanned lease_token) (d_events d) || is_some (d_claims d !! lease_token)
  || existsb (fun r => due_turn_candidate_condition d now r
                       || expired_turn_candidate_condition d now r) (rows d).

(** A pass of the scan answers, or rolled back and reads again. *)
Inductive claim_pass : Type :=
| Answer (outcome : ClaimTurnRunOutcome)
| Again.

Definition nothing_due : ClaimTurnRunOutcome := MkClaimOutcome None None.

Definition append_claim_scan_terminal_event_on {R} (candidate : turn) (chat_id scan_token : Z)
    (event : AgentEvent) : txn W R SequencedAgentEvent :=
  match t_lease_token candidate with
  | None => err "terminalized turn is missing its claim token"
  | Some lease_token =>
      seq ← append_event_on chat_id (Some (t_id candidate)) (Some lease_token) (Some I32_MAX)
              (Some scan_token) event;
      mret (MkSeq seq event)
  end.

Definition claim_scan_terminal_event_from_model {R} (e : event) (scan_token : Z)
  : txn W R ClaimScanTerminalEvent :=
  if negb (scanned scan_token e) || negb (e_terminal e)
  then err "claim scan token references an invalid journal receipt" else
  match e_turn_id e with
  | None => err "claim scan token references an event without a turn"
  | Some turn_id => mret (MkScan (e_session_id e) turn_id (MkSeq (e_seq e) (e_event e)))
  end.

(** The turn an exact retry of a claim still owns. *)
Definition claimed_segment (d : db W) (c : claim) (lease_token now : Z) : option turn :=
  match d_turns d !! c_turn_id c with
  | Some run =>
      if String.eqb (t_status run) (as_str Running)
         && (t_attempt_count run =? c_attempt_count c)
         && (t_claim_count run =? c_claim_count c)
         && same_some (t_lease_token run) (Some lease_token)
         && col_gt (t_lease_expires_at run) now
      then Some run else None
  | None => None
  end.

Definition released (r : turn) : turn := set_lease_expires_at None (set_lease_token None r).
Definition ended (now : Z) (status : TurnRunStatus) (r : turn) : turn :=
  set_updated_at (Some now) (set_ended_at (Some now) (released (set_status (as_str status) r))).

(** An expired cancellation is finished by the scan. *)
Definition claim_cancelling (candidate : turn) (lease_token now : Z)
  : txn W claim_pass claim_pass :=
  let chat_id := t_session_id candidate in
  locked ← acquire_chat_write_lock chat_id;
  if negb locked then err "turn references missing chat" else
  cancelled ← update_turn (t_id candidate)
    (fun r => String.eqb (t_status r) (as_str Cancelling)
              && (t_attempt_count r =? t_attempt_count candidate)
              && col_eq (t_lease_token r) (t_lease_token candidate)
              && col_eq (t_lease_expires_at r) (t_lease_expires_at candidate)
              && col_lte (t_lease_expires_at r) now
              && col_eq (t_updated_at r) (t_updated_at candidate)
              && col_lte (t_updated_at r) now)
    (ended now Cancelled);
  if negb (cancelled =? 1) then rollback Again else
  _ ← reject_pending_turn_steers_on (t_id candidate) now;
  usage ← usage_from_turn_model candidate;
  event ← append_claim_scan_terminal_event_on candidate chat_id lease_token (TurnCancelled usage);
  mret (Answer (MkClaimOutcome None (Some (MkScan chat_id (t_id candidate) event)))).

(** An expired attempt that was the last one fails the turn. *)
Definition claim_exhausted (candidate : turn) (lease_token now dbnow : Z)
  : txn W claim_pass claim_pass :=
  let chat_id := t_session_id candidate in
  locked ← acquire_chat_write_lock chat_id;
  if negb locked then err "turn references missing chat" else
  let terminal_now := Z.max now (canonical_db_timestamp dbnow) in
  if negb (col_lte (t_lease_expires_at candidate) terminal_now)
     || col_gt (t_updated_at candidate) terminal_now
  then rollback Again else
  cancelled ← peer (fun w => cancel_sandbox_children_for_origin_turn_on w candidate terminal_now
                               ParentTurnFailed);
  if negb cancelled then rollback Again else
  failed ← update_turn (t_id candidate)
    (fun r => String.eqb (t_status r) (as_str Running)
              && (t_attempt_count r =? t_attempt_count candidate)
              && col_eq (t_lease_token r) (t_lease_token candidate)
              && col_eq (t_lease_expires_at r) (t_lease_expires_at candidate)
              && col_eq (t_updated_at r) (t_updated_at candidate))
    (fun r => set_last_error_detail (Some "final worker lease expired")
                (set_last_error_code (Some "lease_expired") (ended terminal_now Failed r)));
  if negb (failed =? 1) then rollback Again else
  _ ← reject_pending_turn_steers_on (t_id candidate) terminal_now;
  match t_lease_token candidate with
  | None => err "terminalized turn is missing its claim token"
  | Some claim_token =>
      _ ← insert_failure claim_token
            (MkFailure (t_id candidate) (t_owner candidate) (t_attempt_count candidate)
               (t_model_steps candidate) (t_usage candidate) None "lease_expired"
               (Some "final worker lease expired") terminal_now (as_str Failed));
      event ← append_claim_scan_terminal_event_on candidate chat_id lease_token
                (TurnFailed "lease_expired" "final worker lease expired");
      mret (Answer (MkClaimOutcome None (Some (MkScan chat_id (t_id candidate) event))))
  end.

(** A new segment of work: one receipt, one lease. *)
Definition claim_segment (candidate : turn) (lease_token now lease_expires_at : Z)
  : txn W claim_pass claim_pass :=
  let reclaiming := String.eqb (t_status candidate) (as_str Running) in
  let resuming := String.eqb (t_status candidate) (as_str Resuming) in
  match (if resuming then Some (t_attempt_count candidate)
         else checked_succ I32_MAX (t_attempt_count candidate)),
        checked_succ I32_MAX (t_claim_count candidate) with
  | None, _ => err "turn attempt overflow"
  | _, None => err "turn claim overflow"
  | Some next_attempt, Some next_claim =>
      before ← get;
      receipt ← insert_claim lease_token
        (MkClaim (t_id candidate) (t_owner candidate) next_attempt next_claim now lease_expires_at);
      if negb receipt then
        if is_some (d_claims before !! lease_token)
           || segment_taken before (t_id candidate) next_claim
              && match d_turns before !! t_id candidate with
                 | Some turn => next_claim <=? t_claim_count turn
                 | None => false
                 end
        then rollback Again
        else err "turn receipt exists before the turn advanced"
      else
      claimed ← update_turn (t_id candidate)
        (fun r => String.eqb (t_status r) (t_status candidate)
                  && (t_attempt_count r =? t_attempt_count candidate)
                  && (t_claim_count r =? t_claim_count candidate)
                  && col_eq (t_updated_at r) (t_updated_at candidate)
                  && (if reclaiming
                      then col_eq (t_lease_token r) (t_lease_token candidate)
                           && col_eq (t_lease_expires_at r) (t_lease_expires_at candidate)
                      else col_lte (t_available_at r) now))
        (fun r => set_started_at
                    (if String.eqb (t_status candidate) (as_str Queued) then now
                     else t_started_at candidate)
                    (lease_columns next_attempt next_claim lease_token lease_expires_at now r));
      if negb (claimed =? 1) then rollback Again else
      run ← find_turn (t_id candidate);
      match run with
      | None => err "claimed turn disappeared"
      | Some run =>
          run ← turn_run_from_model run;
          mret (Answer (MkClaimOutcome (Some run) None))
      end
  end.

Definition claim_turn_pass (lease_token now lease_expires_at dbnow : Z) : txn W claim_pass claim_pass :=
  d ← get;
  match List.find (scanned lease_token) (d_events d) with
  | Some existing =>
      terminal_event ← claim_scan_terminal_event_from_model existing lease_token;
      mret (Answer (MkClaimOutcome None (Some terminal_event)))
  | None =>
  match d_claims d !! lease_token with
  | Some receipt =>
      match claimed_segment d receipt lease_token now with
      | Some run => run ← turn_run_from_model run; mret (Answer (MkClaimOutcome (Some run) None))
      | None => mret (Answer nothing_due)
      end
  | None =>
  match claim_candidate d now with
  | None => mret (Answer nothing_due)
  | Some candidate =>
      if String.eqb (t_status candidate) (as_str Cancelling)
      then claim_cancelling candidate lease_token now
      else if String.eqb (t_status candidate) (as_str Running)
              && (t_max_attempts candidate <=? t_attempt_count candidate)
      then claim_exhausted candidate lease_token now dbnow
      else claim_segment candidate lease_token now lease_expires_at
  end
  end
  end.

(** The loop over its first pass: [Ok Again] when that pass rolled back. *)
Definition claim_turn (lease_token now lease_expires_at dbnow : Z) (d : db W)
  : result AgentError claim_pass * db W :=
  let now := canonical_db_timestamp now in
  let lease_expires_at := canonical_db_timestamp lease_expires_at in
  if lease_token =? 0 then (Err (Store "turn lease token must not be nil"), d) else
  if lease_expires_at <=? now
  then (Err (Store "turn lease expiry must be after claim time"), d) else
  if negb (any_turn_claim_work_on d lease_token now) then (Ok (Answer nothing_due), d) else
  begin (claim_turn_pass lease_token now lease_expires_at dbnow) d.

(** *** Keeping and giving up a lease *)

Definition heartbeat_turn (id lease_token now lease_expires_at : Z)
  : db W -> result AgentError bool * db W :=
  let now := canonical_db_timestamp now in
  let lease_expires_at := canonical_db_timestamp lease_expires_at in
  if lease_expires_at <=? now
  then begin (err "turn lease expiry must be after heartbeat time") else
  begin (
    heartbeat ← update_turn id
      (fun r => String.eqb (t_status r) (as_str Running)
                && same_some (t_lease_token r) (Some lease_token)
                && col_gt (t_lease_expires_at r) now
                && col_lt (t_lease_expires_at r) lease_expires_at
                && col_lte (t_updated_at r) now)
      (fun r => set_updated_at (Some now) (set_lease_expires_at (Some lease_expires_at) r));
    mret (heartbeat =? 1)).

Definition expire_turn_lease (id lease_token now : Z) : db W -> result AgentError bool * db W :=
  let now := canonical_db_timestamp now in
  begin (
    expired ← update_turn id
      (fun r => status_in r [as_str Running; as_str Cancelling]
                && same_some (t_lease_token r) (Some lease_token)
                && col_gt (t_lease_expires_at r) now)
      (fun r => set_updated_at (Some now) (set_lease_expires_at (Some now) r));
    mret (expired =? 1)).

Definition turn_lease_is_current_on (d : db W) (id lease_token now : Z) : TurnLeaseFence :=
  match d_claims d !! lease_token with
  | Some claim =>
      if negb (c_turn_id claim =? id) then Stale else
      match d_turns d !! id with
      | Some turn =>
          if (String.eqb (t_status turn) (as_str Running)
              || String.eqb (t_status turn) (as_str Cancelling))
             && (t_attempt_count turn =? c_attempt_count claim)
             && (t_claim_count turn =? c_claim_count claim)
             && same_some (t_lease_token turn) (Some lease_token)
             && col_gt (t_lease_expires_at turn) now
          then Current else Stale
      | None => Stale
      end
  | None => Stale
  end.

Definition fence_turn_lease (d : db W) (id lease_token now : Z) : result AgentError TurnLeaseFence :=
  if id =? 0 then Err (Store "fenced turn id must not be nil")
  else if lease_token =? 0 then Err (Store "fence lease token must not be nil")
  else Ok (turn_lease_is_current_on d id lease_token (canonical_db_timestamp now)).
End Leases.
