(* ===== verification/TurnResolve.v ===== *)
(** * Resolving a claimed turn

    [complete_turn_inner] and [record_turn_failure_inner]
    (tidebreak-core, db/ops/turn/resolution.rs): the two ways a worker that
    holds a turn's lease settles it, with the answers an exact retry gets. *)
From S2P Require Import Prelude RustStr TurnTables TurnLeases.
From stdpp Require Import gmap.

Open Scope Z_scope.

Record JournaledTurnOutcome (T : Type) : Type := MkJournaled {
  j_outcome : T; j_terminal_event : option SequencedAgentEvent;
  j_retrying_event : option SequencedAgentEvent }.
Arguments MkJournaled {T} _ _ _.
Arguments j_outcome {T} _.
Arguments j_terminal_event {T} _.
Arguments j_retrying_event {T} _.

Inductive Role : Type := RUser | RAssistant | RSystem | RTool.
(** A message a worker hands over ([reasoning] in its column form). *)
Record OutputMessage : Type := MkOutput {
  p_id : Z; p_chat_id : Z; p_turn_id : Z; p_role : Role; p_content : string;
  p_llm_content : option string; p_reasoning : option string; p_created_at : Z }.

Inductive CompleteTurnRunOutcome : Type :=
| CtCompleted (turn : turn)
| CtExisting (turn : turn)
| CtChildrenOutstanding (turn : turn) (child_run_ids : list Z)
| CtSteerPending (turn : turn)
| CtOutputSuperseded (turn : turn).

Record TurnFailureReceipt : Type := MkFailureReceipt {
  r_lease_token : Z; r_failure : failure }.
Inductive RecordTurnFailureOutcome : Type :=
| RfRecorded (receipt : TurnFailureReceipt)
| RfExisting (receipt : TurnFailureReceipt).
Inductive TurnFailureRetry : Type := Permanent | RetryAt (at_ : Z).

Definition nul : Ascii.ascii := Ascii.zero.
Definition has_nul (s : string) : bool :=
  existsb (Ascii.eqb nul) (String.list_ascii_of_string s).

Definition MAX_ERROR_CODE_LEN : Z := 128.
Definition MAX_ERROR_DETAIL_LEN : Z := 4096.

Definition validate_turn_output (id lease_token : Z) (output : OutputMessage)
  : result AgentError unit :=
  if lease_token =? 0 then Err (Store "turn lease token must not be nil") else
  if p_id output =? 0 then Err (Store "turn output message id must not be nil") else
  if negb (p_turn_id output =? id)
     || match p_role output with RAssistant => false | _ => true end
  then Err (Store "turn output must be an assistant message for the completed turn") else
  if has_nul (p_content output) then Err (Store "turn output must contain no NUL characters") else
  Ok tt.

Definition validate_turn_failure (lease_token : Z) (error_code : string)
    (error_detail : option string) : result AgentError unit :=
  let within n limit := (1 <=? n) && (n <=? limit) in
  if lease_token =? 0 then Err (Store "turn lease token must not be nil") else
  if has_nul error_code || negb (within (char_count error_code) MAX_ERROR_CODE_LEN)
  then Err (Store "turn error code must contain 1 to 128 non-NUL characters") else
  if match error_detail with
     | Some detail => has_nul detail || negb (within (char_count detail) MAX_ERROR_DETAIL_LEN)
     | None => false
     end
  then Err (Store "turn error detail must contain 1 to 4096 non-NUL characters") else
  Ok tt.

(** [validate_terminal_usage] *)
Definition covers (total checkpoint : Usage) : bool :=
  (input_tokens checkpoint <=? input_tokens total)
  && (output_tokens checkpoint <=? output_tokens total)
  && (cache_read_input_tokens checkpoint <=? cache_read_input_tokens total)
  && (cache_creation_input_tokens checkpoint <=? cache_creation_input_tokens total).

Section Resolve.
Context {W C : Type} `{P : TurnPeers W C}.

Definition validate_terminal_usage {R} (total checkpoint : Usage) : txn W R unit :=
  if covers total checkpoint then mret tt
  else err "terminal turn usage regresses its durable checkpoint".
Definition validate_terminal_model_steps {R} (total checkpoint : Z) : txn W R unit :=
  if total <? checkpoint
  then err "terminal turn model steps regress its durable checkpoint" else mret tt.
Definition validate_exact_terminal_model_steps {R} (expected : option Z) (stored : Z)
  : txn W R unit :=
  match expected with
  | Some e => if e =? stored then mret tt
              else err "turn was already completed with different model-step totals"
  | None => mret tt
  end.

(** The lease test every resolution makes before it writes. *)
Definition owns_running (r : turn) (c : claim) (lease_token now : Z) : bool :=
  String.eqb (t_status r) (as_str Running)
  && (t_attempt_count r =? c_attempt_count c) && (t_claim_count r =? c_claim_count c)
  && same_some (t_lease_token r) (Some lease_token)
  && col_gt (t_lease_expires_at r) now && negb (col_gt (t_updated_at r) now).

(** The filter of the [UPDATE] that settles a turn under its lease. *)
Definition settle_filter (status : TurnRunStatus) (existing : turn) (c : claim)
    (lease_token now : Z) (r : turn) : bool :=
  String.eqb (t_status r) (as_str status)
  && (t_attempt_count r =? c_attempt_count c) && (t_claim_count r =? c_claim_count c)
  && same_some (t_lease_token r) (Some lease_token)
  && col_eq (t_lease_expires_at r) (t_lease_expires_at existing)
  && (if decide (status = Running) then col_gt (t_lease_expires_at r) now else true)
  && col_eq (t_updated_at r) (t_updated_at existing) && col_lte (t_updated_at r) now.

(** *** Journal helpers *)

Definition append_terminal_event_on {R} (id chat_id : Z) (lease_token : option Z)
    (terminal_event : option AgentEvent) : txn W R (option SequencedAgentEvent) :=
  match terminal_event with
  | None => mret None
  | Some event =>
      seq ← append_event_on chat_id (Some id) lease_token
              (match lease_token with Some _ => Some I32_MAX | None => None end) None event;
      _ ← match terminal_notification_kind event with
          | Some kind => peer_ (fun w =>
              record_work_turn_notification_on w chat_id id kind (terminal_failure event))
          | None => mret tt
          end;
      mret (Some (MkSeq seq event))
  end.

Definition terminal_of (id : Z) (e : event) : bool :=
  same_some (e_turn_id e) (Some id) && e_terminal e.

Definition opt_eqb (a b : option Z) : bool := bool_decide (a = b).

Definition exact_terminal_event_on {R} (id : Z) (lease_token : option Z)
    (expected : option AgentEvent) : txn W R (option SequencedAgentEvent) :=
  match expected with
  | None => mret None
  | Some expected =>
      d ← get;
      match List.find (terminal_of id) (d_events d) with
      | None => err "terminal turn is missing its event"
      | Some stored =>
          if negb (opt_eqb (e_lease_token stored) lease_token)
             || negb (opt_eqb (e_attempt_event_ordinal stored)
                        (match lease_token with Some _ => Some I32_MAX | None => None end))
             || negb (bool_decide (e_event stored = expected))
          then err "turn has a different terminal event" else
          _ ← match terminal_notification_kind (e_event stored) with
              | Some kind => peer_ (fun w =>
                  record_work_turn_notification_on w (e_session_id stored) id kind
                    (terminal_failure (e_event stored)))
              | None => mret tt
              end;
          mret (Some (MkSeq (e_seq stored) (e_event stored)))
      end
  end.

(** *** Completion *)

Definition exact_completed_output_on (d : db W) (output : OutputMessage) : bool :=
  match d_messages d !! p_id output with
  | Some m =>
      (m_chat_id m =? p_chat_id output) && (m_turn_id m =? p_turn_id output)
      && String.eqb (m_role m) "assistant" && String.eqb (m_content m) (p_content output)
      && bool_decide (m_llm_content m = p_llm_content output)
      && bool_decide (m_reasoning m = p_reasoning output)
      && (m_created_at m =? canonical_db_timestamp (p_created_at output))
  | None => false
  end.

Definition exact_completed_citations_on {R} (output : OutputMessage) (citations : list C)
  : txn W R bool :=
  d ← get;
  stored ← try (exact_citations_for_message_on (d_peers d) (p_id output));
  mret (bool_decide (stored = citations)).

(** The assistant row of a settled turn, under its reserved identity. *)
Definition output_row (output : OutputMessage) (seq lease_token : Z) : message :=
  MkMessage (p_chat_id output) (p_turn_id output) seq "assistant" (p_content output)
    (p_llm_content output) (p_reasoning output) (Some lease_token)
    (canonical_db_timestamp (p_created_at output)).

Definition terminal_usage (terminal_event : option AgentEvent) : option Usage :=
  match terminal_event with
  | Some (TurnCompleted usage _) | Some (TurnRefused usage _) => Some usage
  | _ => None
  end.

Definition set_totals (model_steps : option Z) (usage : option Usage) (r : turn) : turn :=
  let r := match model_steps with Some n => set_model_steps n r | None => r end in
  match usage with Some u => set_usage u r | None => r end.

(** An exact retry of a committed completion. *)
Definition complete_existing (existing : turn) (lease_token : Z) (output : OutputMessage)
    (citations : list C) (terminal_model_steps : option Z) (terminal_event : option AgentEvent)
  : txn W (option (JournaledTurnOutcome CompleteTurnRunOutcome))
      (option (JournaledTurnOutcome CompleteTurnRunOutcome)) :=
  d ← get;
  if negb (opt_eqb (t_output_message_id existing) (Some (p_id output)))
     || negb (exact_completed_output_on d output)
  then err "turn was already completed with different output" else
  same_citations ← exact_completed_citations_on output citations;
  if negb same_citations then err "turn was already completed with different output" else
  sequenced_event ← exact_terminal_event_on (t_id existing) (Some lease_token) terminal_event;
  existing ← turn_run_from_model existing;
  _ ← validate_exact_terminal_model_steps terminal_model_steps (t_model_steps existing);
  mret (Some (MkJournaled (CtExisting existing) sequenced_event None)).

Definition steer_pending (d : db W) (id : Z) : bool :=
  existsb (fun '(_, s) => (s_turn_id s =? id) && String.eqb (s_status s) "pending")
    (map_to_list (d_steers d)).

(** The terminal write of a completion, once nothing holds it back. *)
Definition complete_settle (existing : turn) (receipt : claim) (lease_token now : Z)
    (output : OutputMessage) (citations : list C) (terminal_model_steps : option Z)
    (terminal_event : option AgentEvent)
  : txn W (option (JournaledTurnOutcome CompleteTurnRunOutcome))
      (option (JournaledTurnOutcome CompleteTurnRunOutcome)) :=
  let id := t_id existing in
  free ← reserve_message_identity_on (p_id output) (p_chat_id output) (p_turn_id output)
           MESSAGE_IDENTITY_OWNER_MESSAGE;
  if negb free then err "turn output message identity is already reserved" else
  seq ← next_message_seq_on (p_chat_id output);
  inserted ← insert_message (p_id output) (output_row output seq lease_token);
  if negb inserted then err "message constraint violated" else
  _ ← peer_ (fun w => insert_for_message_on w (p_id output) citations);
  _ ← peer_ (fun w => index_chat_message_on w (p_id output));
  completed ← update_turn id (settle_filter Running existing receipt lease_token now)
    (fun r => set_totals terminal_model_steps (terminal_usage terminal_event)
                (set_output_message_id (Some (p_id output)) (ended now Completed r)));
  if negb (completed =? 1) then rollback None else
  _ ← reject_pending_turn_steers_on id now;
  _ ← (if is_some terminal_event && negb (String.eqb (p_content output) "")
       then if owner_id_ok (t_owner existing)
            then _ ← append_event_on_locked (t_owner existing) (t_session_id existing)
                       (AssistantMessage (p_content output)); mret tt
            else err "invalid owner id"
       else mret tt);
  sequenced_event ← append_terminal_event_on id (t_session_id existing) (Some lease_token)
                      terminal_event;
  run ← find_turn id;
  match run with
  | None => err "completed turn disappeared"
  | Some run =>
      run ← turn_run_from_model run;
      mret (Some (MkJournaled (CtCompleted run) sequenced_event None))
  end.

Definition complete_turn_inner (id lease_token expected_steer_revision now : Z)
    (output : OutputMessage) (citations : list C) (terminal_model_steps : option Z)
    (terminal_event : option AgentEvent) (dbnow : Z)
  : db W -> result AgentError (option (JournaledTurnOutcome CompleteTurnRunOutcome)) * db W :=
  begin (
    _ ← try (validate_turn_output id lease_token output);
    if negb (validate_assistant_message (p_content output) citations)
    then err "assistant citation inputs do not match the message" else
    existing ← find_turn id;
    match existing with None => mret None | Some existing =>
    locked ← acquire_chat_write_lock (t_session_id existing);
    if negb locked then err "turn references missing chat" else
    let now := Z.max (canonical_db_timestamp now) (canonical_db_timestamp dbnow) in
    if now <? canonical_db_timestamp (p_created_at output)
    then err "turn output timestamp must not be after completion time" else
    receipt ← claim_of lease_token id;
    match receipt with None => mret None | Some receipt =>
    if negb (p_chat_id output =? t_session_id existing)
    then err "turn output belongs to a different chat" else
    if String.eqb (t_status existing) (as_str Completed)
       && (t_attempt_count existing =? c_attempt_count receipt)
       && (t_claim_count existing =? c_claim_count receipt)
    then complete_existing existing lease_token output citations terminal_model_steps terminal_event
    else
    if negb (owns_running existing receipt lease_token now) then mret None else
    _ ← match terminal_model_steps with
        | Some n => validate_terminal_model_steps n (t_model_steps existing)
        | None => mret tt
        end;
    _ ← match terminal_usage terminal_event with
        | Some usage => checkpoint ← usage_from_turn_model existing;
                        validate_terminal_usage usage checkpoint
        | None => mret tt
        end;
    d ← get;
    let pending := steer_pending d id in
    if negb (t_steer_revision existing =? expected_steer_revision) || pending
    then run ← turn_run_from_model existing;
         mret (Some (MkJournaled (if pending then CtSteerPending run else CtOutputSuperseded run)
                       None None))
    else
    outstanding ← try (unsettled_sandbox_children_for_origin_turn_on (d_peers d) existing);
    match outstanding with
    | _ :: _ =>
        run ← turn_run_from_model existing;
        mret (Some (MkJournaled (CtChildrenOutstanding run outstanding) None None))
    | [] =>
        complete_settle existing receipt lease_token now output citations terminal_model_steps
          terminal_event
    end
    end
    end).

Definition complete_turn_and_append_event (id lease_token expected_steer_revision now : Z)
    (output : OutputMessage) (citations : list C) (model_steps : Z) (usage : Usage)
    (stop_reason : string) (dbnow : Z) :=
  complete_turn_inner id lease_token expected_steer_revision now output citations
    (Some model_steps) (Some (TurnCompleted usage stop_reason)) dbnow.

Definition complete_refused_turn (id lease_token expected_steer_revision now : Z)
    (output : OutputMessage) (citations : list C) (model_steps : Z) (usage : Usage)
    (refusal : RefusalOutcome) (dbnow : Z)
  : db W -> result AgentError (option (JournaledTurnOutcome CompleteTurnRunOutcome)) * db W :=
  if Bool.eqb (partial_output refusal) (negb (String.eqb (p_content output) ""))
  then complete_turn_inner id lease_token expected_steer_revision now output citations
         (Some model_steps) (Some (TurnRefused usage refusal)) dbnow
  else begin (err "turn refusal partial-output metadata does not match its assistant output").

(** *** Failure *)

Definition turn_failure_from_model {R} (lease_token : Z) (f : failure)
  : txn W R TurnFailureReceipt :=
  status ← try (turn_run_status_from_db (f_result_status f));
  if negb (bool_decide (status = RetryWait) || bool_decide (status = Failed))
  then err "invalid durable turn failure result" else
  if negb (usage_fits (f_usage f)) then err "turn failure token total is out of range" else
  mret (MkFailureReceipt lease_token f).

Definition exact_turn_failure_on {R} (id lease_token : Z) (requested_retry_at : option Z)
    (model_steps : Z) (usage : Usage) (error_code : string) (error_detail : option string)
  : txn W R (option TurnFailureReceipt) :=
  d ← get;
  match d_failures d !! lease_token with
  | None => mret None
  | Some existing =>
      if negb (f_turn_id existing =? id)
         || negb (opt_eqb (f_requested_retry_at existing) requested_retry_at)
         || negb (f_model_steps existing =? model_steps)
         || negb (bool_decide (f_usage existing = usage))
         || negb (String.eqb (f_error_code existing) error_code)
         || negb (bool_decide (f_error_detail existing = error_detail))
      then err "turn failure token was already recorded with different data"
      else receipt ← turn_failure_from_model lease_token existing; mret (Some receipt)
  end.

Definition RETRYING_EVENT_ORDINAL : Z := I32_MAX.

(** The attempt a retry starts, as a [u32]. *)
Definition retrying_attempt (failed_attempt : Z) : option Z :=
  match checked_succ I32_MAX failed_attempt with
  | Some a => if 0 <=? a then Some a else None
  | None => None
  end.

Definition exact_retrying_event_on {R} (lease_token : Z) (receipt : TurnFailureReceipt)
    (terminal_event : option AgentEvent) : txn W R (option SequencedAgentEvent) :=
  if negb (String.eqb (f_result_status (r_failure receipt)) (as_str RetryWait))
     || negb (is_some terminal_event)
  then mret None else
  d ← get;
  match List.find (fun e => same_some (e_lease_token e) (Some lease_token)
                            && same_some (e_attempt_event_ordinal e) (Some RETRYING_EVENT_ORDINAL)
                            && negb (e_terminal e)) (d_events d) with
  | None => mret None
  | Some stored =>
      match e_event stored with
      | TurnRetrying _ _ _ _ => mret (Some (MkSeq (e_seq stored) (e_event stored)))
      | _ => err "turn failure token holds a different retry event"
      end
  end.

Definition exact_failure_terminal_event_on {R} (id lease_token : Z) (receipt : TurnFailureReceipt)
    (terminal_event : option AgentEvent) : txn W R (option SequencedAgentEvent) :=
  if String.eqb (f_result_status (r_failure receipt)) (as_str Failed)
  then exact_terminal_event_on id (Some lease_token) terminal_event
  else mret None.

(** The status, the receipt and the row of a recorded failure. *)
Definition failure_status (turn : turn) (requested_retry_at : option Z) : TurnRunStatus :=
  if is_some requested_retry_at && (t_attempt_count turn <? t_max_attempts turn)
  then RetryWait else Failed.

Definition failed_row (result_status : TurnRunStatus) (requested_retry_at : option Z)
    (model_steps : Z) (usage : Usage) (error_code : string) (error_detail : option string)
    (now : Z) (r : turn) : turn :=
  let r := set_updated_at (Some now) (set_last_error_detail error_detail
             (set_usage usage (set_model_steps model_steps (set_last_error_code (Some error_code)
               (released (set_status (as_str result_status) r)))))) in
  if decide (result_status = RetryWait) then set_available_at requested_retry_at r
  else set_ended_at (Some now) r.

(** The write of a failure under the lease. *)
Definition failure_settle (turn : turn) (claim : claim) (lease_token now : Z)
    (requested_retry_at : option Z) (model_steps : Z) (usage : Usage)
    (error_code : string) (error_detail : option string) (terminal_event : option AgentEvent)
  : txn W (option (JournaledTurnOutcome RecordTurnFailureOutcome))
      (option (JournaledTurnOutcome RecordTurnFailureOutcome)) :=
  let id := t_id turn in
  let result_status := failure_status turn requested_retry_at in
  let failed := bool_decide (result_status = Failed) in
  settled ← (if failed
             then ok ← peer (fun w => cancel_sandbox_children_for_origin_turn_on w turn now
                                        ParentTurnFailed);
                  if (ok : bool)
                  then _ ← peer_ (fun w => close_pending_for_terminal_turn_on w id now); mret true
                  else mret false
             else mret true);
  if negb settled then rollback None else
  let receipt := MkFailure id (c_owner claim) (c_attempt_count claim) model_steps usage
                   requested_retry_at error_code error_detail now (as_str result_status) in
  _ ← insert_failure lease_token receipt;
  updated ← update_turn id (settle_filter Running turn claim lease_token now)
    (failed_row result_status requested_retry_at model_steps usage error_code error_detail now);
  if negb (updated =? 1) then rollback None else
  sequenced_event ← (if failed
                     then _ ← reject_pending_turn_steers_on id now;
                          append_terminal_event_on id (t_session_id turn) (Some lease_token)
                            terminal_event
                     else mret None);
  retrying_event ←
    match failed, requested_retry_at, terminal_event with
    | false, Some retry_at, Some _ =>
        match retrying_attempt (c_attempt_count claim) with
        | None => err "turn attempt count is out of range"
        | Some attempt =>
            if t_max_attempts turn <? 0 then err "turn has a negative attempt budget" else
            let event := TurnRetrying (category_from_failure error_code (default "" error_detail))
                           attempt (t_max_attempts turn) retry_at in
            seq ← append_event_on (t_session_id turn) (Some id) (Some lease_token)
                    (Some RETRYING_EVENT_ORDINAL) None event;
            mret (Some (MkSeq seq event))
        end
    | _, _, _ => mret None
    end;
  receipt ← turn_failure_from_model lease_token receipt;
  mret (Some (MkJournaled (RfRecorded receipt) sequenced_event retrying_event)).

Definition record_turn_failure_inner (id lease_token now : Z) (retry : TurnFailureRetry)
    (model_steps : Z) (usage : Usage) (error_code : string) (error_detail : option string)
    (terminal_event : option AgentEvent) (dbnow : Z)
  : db W -> result AgentError (option (JournaledTurnOutcome RecordTurnFailureOutcome)) * db W :=
  begin (
    _ ← try (validate_turn_failure lease_token error_code error_detail);
    let requested_retry_at :=
      match retry with Permanent => None | RetryAt at_ => Some (canonical_db_timestamp at_) end in
    existing ← exact_turn_failure_on id lease_token requested_retry_at model_steps usage
                 error_code error_detail;
    match existing with
    | Some existing =>
        sequenced_event ← exact_failure_terminal_event_on id lease_token existing terminal_event;
        retrying_event ← exact_retrying_event_on lease_token existing terminal_event;
        mret (Some (MkJournaled (RfExisting existing) sequenced_event retrying_event))
    | None =>
    turn ← find_turn id;
    match turn with None => mret None | Some turn =>
    locked ← acquire_chat_write_lock (t_session_id turn);
    if negb locked then err "turn references missing chat" else
    let now := Z.max (canonical_db_timestamp now) (canonical_db_timestamp dbnow) in
    claim ← claim_of lease_token id;
    match claim with None => mret None | Some claim =>
    if negb (owns_running turn claim lease_token now) then mret None else
    if col_lte requested_retry_at now
    then err "turn retry time must be after failure resolution time" else
    if model_steps <? t_model_steps turn
    then err "failed turn model steps regress its durable checkpoint" else
    checkpoint ← usage_from_turn_model turn;
    _ ← validate_terminal_usage usage checkpoint;
    failure_settle turn claim lease_token now requested_retry_at model_steps usage error_code
      error_detail terminal_event
    end
    end
    end).

Definition record_turn_failure_and_append_event (id lease_token now : Z) (retry : TurnFailureRetry)
    (model_steps : Z) (usage : Usage) (error_code : string) (error_detail : option string)
    (dbnow : Z) :=
  record_turn_failure_inner id lease_token now retry model_steps usage error_code error_detail
    (Some (TurnFailed error_code (default error_code error_detail))) dbnow.
End Resolve.
