(* ===== verification/TurnCancel.v ===== *)
(** * Cancelling a turn

    [request_turn_cancellation_inner] and [finish_turn_cancellation_inner]
    (tidebreak-core, db/ops/turn/resolution/cancellation.rs). *)
From S2P Require Import Prelude TurnTables TurnLeases TurnResolve.
From stdpp Require Import gmap.

Open Scope Z_scope.

Inductive RequestTurnCancellationOutcome : Type :=
| RcCancelled (turn : turn)
| RcRequested (turn : turn)
| RcExisting (turn : turn)
| RcAlreadyTerminal (turn : turn).
Inductive FinishTurnCancellationOutcome : Type :=
| FcCancelled (turn : turn)
| FcExisting (turn : turn).

Definition ASK_USER_QUESTIONS_TOOL : string := "ask_user_questions".
Definition EXIT_PLAN_MODE_TOOL : string := "exit_plan_mode".
Definition CODE_WAIT_TOOL : string := "code_wait".

Section Cancel.
Context {W C : Type} `{P : TurnPeers W C}.

(** *** Durable parks of the adapter lane (db/ops/turn/client_wait.rs) *)

Definition adapter_park_wait {R} (r : turn) : txn W R (option TurnParkWait) :=
  if negb (String.eqb (t_status r) "waiting") then mret None else
  match t_park_ref r, t_park_wait r with
  | Some park_ref, Some wait =>
      match wait with
      | ParkApproval call_id =>
          if String.eqb call_id park_ref then mret (Some wait)
          else err "turn approval park has mismatched call ids"
      | _ => mret (Some wait)
      end
  | _, _ => mret None
  end.

Definition adapter_client_park_call_id {R} (r : turn) : txn W R (option Z) :=
  wait ← adapter_park_wait r;
  match wait with
  | None | Some ParkAgentRuns => mret None
  | Some wait =>
      let call_id := match wait with
                     | ParkApproval call_id | ParkClientToolCall call_id => call_id
                     | _ => default "" (t_park_ref r)
                     end in
      match parse_call_id call_id with
      | Some id => mret (Some id)
      | None => err "turn client park has an invalid call id"
      end
  end.

(** *** Requesting cancellation *)

Definition existing_cancellation_event_on {R} (id : Z) (expected : bool)
  : txn W R (option SequencedAgentEvent) :=
  if negb expected then mret None else
  d ← get;
  match List.find (terminal_of id) (d_events d) with
  | None => err "cancelled turn is missing its event"
  | Some stored =>
      match e_event stored with
      | TurnCancelled _ => mret (Some (MkSeq (e_seq stored) (e_event stored)))
      | _ => err "cancelled turn has a different terminal event"
      end
  end.

Definition open_wait_of (d : db W) (id : Z) : option (Z * client_wait) :=
  List.find (fun '(_, w) => (w_turn_id w =? id) && String.eqb (w_status w) "waiting")
    (map_to_list (d_waits d)).

(** The client call a waiting turn is parked on, when no executor holds it:
    the call cancellation may close at once. *)
Definition unclaimed_call {R} (existing : turn) (adapter_client_call : option Z) (now : Z)
  : txn W R (option Z) :=
  d ← get;
  match open_wait_of d (t_id existing) with
  | None => err "waiting turn is missing its client receipt"
  | Some (call_id, wait) =>
      if negb (w_session_id wait =? t_session_id existing)
         || negb (w_attempt_count wait =? t_attempt_count existing)
         || negb (w_claim_count wait =? t_claim_count existing)
         || match adapter_client_call with Some c => negb (c =? call_id) | None => false end
      then err "waiting turn has a mismatched client receipt" else
      match d_calls d !! call_id with
      | None => err "waiting turn references missing client call"
      | Some call =>
          let is_server_supplied :=
            (String.eqb (k_name call) ASK_USER_QUESTIONS_TOOL
             || String.eqb (k_name call) CODE_WAIT_TOOL)
            && String.eqb (k_execution call) "orchestration" in
          if negb (k_chat_id call =? t_session_id existing)
             || negb (k_turn_id call =? t_id existing)
             || negb (String.eqb (k_execution call) "client") && negb is_server_supplied
             || negb (String.eqb (k_status call) "pending")
          then err "waiting turn has an invalid client call" else
          if negb (is_some (k_client_executor_id call)) || col_lte (k_client_lease_expires_at call) now
          then mret (Some call_id) else mret None
      end
  end.

Definition cancelled_call (now : Z) (k : tool_call) : tool_call :=
  MkCall (k_chat_id k) (k_turn_id k) (k_provider_id k) (k_history_order k) (k_name k)
    (k_arguments k) (k_execution k) "cancelled" (Some "cancelled before client execution")
    (k_client_executor_id k) None (k_turn_lease_token k) (k_created_at k) (Some now).
Definition closed_wait (status : string) (at_ : Z) (w : client_wait) : client_wait :=
  MkWait (w_turn_id w) (w_session_id w) (w_park_lease_token w) (w_attempt_count w)
    (w_claim_count w) (w_model_steps w) (w_usage w) (w_vendor_web_search_max_uses w)
    status (w_parked_at w) (Some at_).

(** The [CHECK] that a wait closes no earlier than it opened. *)
Definition close_wait {R} (call_id : Z) (status : string) (at_ : Z) : txn W R bool :=
  d ← get;
  match d_waits d !! call_id with
  | Some w =>
      if String.eqb (w_status w) "waiting"
      then if at_ <? w_parked_at w then err "wait constraint violated"
           else _ ← modify (with_waits (<[call_id := closed_wait status at_ w]> (d_waits d)));
                mret true
      else mret false
  | None => mret false
  end.

Definition cancel_unclaimed {R} (call_id now : Z) : txn W R bool :=
  d ← get;
  match d_calls d !! call_id with
  | Some k =>
      if String.eqb (k_status k) "pending"
      then _ ← modify (with_calls (<[call_id := cancelled_call now k]> (d_calls d)));
           closed ← close_wait call_id "cancelled" now;
           if (closed : bool)
           then _ ← peer_ (fun w => abandon_pending_for_call_on w call_id now); mret true
           else mret false
      else mret false
  | None => mret false
  end.

Definition effective_status {R} (existing : turn) : txn W R TurnRunStatus :=
  wait ← adapter_park_wait existing;
  match wait with
  | Some (ParkApproval _) | Some (ParkClientToolCall _) | Some ParkChildSessions =>
      mret WaitingForClient
  | Some ParkAgentRuns => mret WaitingForAgentRun
  | None => try (turn_run_status_from_db (t_status existing))
  end.

Definition cancel_columns (next_status : TurnRunStatus) (now : Z) (r : turn) : turn :=
  let r := set_updated_at (Some now) (set_status (as_str next_status) r) in
  if decide (next_status = Cancelled)
  then set_last_error_detail None (set_last_error_code None (set_ended_at (Some now) r))
  else r.

(** The write of a cancellation request, once the turn may be cancelled. *)
Definition request_settle (existing : turn) (status : TurnRunStatus) (call : option Z)
    (journal_terminal_event : bool) (now : Z)
  : txn W (option (JournaledTurnOutcome RequestTurnCancellationOutcome))
      (option (JournaledTurnOutcome RequestTurnCancellationOutcome)) :=
  let id := t_id existing in
  let next_status :=
    match status with
    | Running => Cancelling
    | WaitingForClient => match call with None => CancellingClient | Some _ => Cancelled end
    | _ => Cancelled
    end in
  _ ← match next_status with
      | Cancelling => peer_ (fun w => reject_pending_for_cancelling_turn_on w id now)
      | Cancelled => peer_ (fun w => close_pending_for_terminal_turn_on w id now)
      | _ => mret tt
      end;
  closed ← match call with Some call_id => cancel_unclaimed call_id now | None => mret true end;
  if negb closed then rollback None else
  updated ← update_turn id
    (fun r => String.eqb (t_status r) (t_status existing)
              && (t_attempt_count r =? t_attempt_count existing)
              && col_eq (t_updated_at r) (t_updated_at existing) && col_lte (t_updated_at r) now
              && (if decide (status = Running)
                  then col_eq (t_lease_token r) (t_lease_token existing)
                       && col_eq (t_lease_expires_at r) (t_lease_expires_at existing)
                  else true))
    (cancel_columns next_status now);
  if negb (updated =? 1) then rollback None else
  _ ← reject_pending_turn_steers_on id now;
  run ← find_turn id;
  match run with
  | None => err "cancelled turn disappeared"
  | Some run =>
      run ← turn_run_from_model run;
      sequenced_event ←
        (if decide (next_status = Cancelled)
         then event ← (if journal_terminal_event
                       then usage ← usage_from_turn_model existing; mret (Some (TurnCancelled usage))
                       else mret None);
              append_terminal_event_on id (t_session_id existing) None event
         else mret None);
      mret (Some (MkJournaled
        (match next_status with
         | Cancelling | CancellingClient => RcRequested run
         | _ => RcCancelled run
         end) sequenced_event None))
  end.

Definition request_turn_cancellation_inner (id now : Z) (journal_terminal_event : bool) (dbnow : Z)
  : db W -> result AgentError (option (JournaledTurnOutcome RequestTurnCancellationOutcome)) * db W :=
  let requested_at := canonical_db_timestamp now in
  begin (
    existing ← find_turn id;
    match existing with None => mret None | Some existing =>
    locked ← acquire_chat_write_lock (t_session_id existing);
    if negb locked then err "turn references missing chat" else
    let now := Z.max requested_at (canonical_db_timestamp dbnow) in
    adapter_client_call ← adapter_client_park_call_id existing;
    status ← effective_status existing;
    match status with
    | Cancelling | CancellingClient | Cancelled =>
        sequenced_event ←
          (if decide (status = Cancelled)
           then existing_cancellation_event_on id journal_terminal_event else mret None);
        run ← turn_run_from_model existing;
        mret (Some (MkJournaled (RcExisting run) sequenced_event None))
    | Completed | Failed =>
        run ← turn_run_from_model existing;
        mret (Some (MkJournaled (RcAlreadyTerminal run) None None))
    | _ =>
        if col_gt (t_updated_at existing) requested_at then mret None else
        cancelled ← peer (fun w => cancel_sandbox_children_for_origin_turn_on w existing now
                                     ParentTurnCancelled);
        if negb cancelled then rollback None else
        call ← (if decide (status = WaitingForClient)
                then unclaimed_call existing adapter_client_call now else mret None);
        waits ← (if decide (status = WaitingForAgentRun)
                 then peer (fun w => cancel_wait_set_for_turn_on w existing now) else mret true);
        if negb waits then rollback None else
        request_settle existing status call journal_terminal_event now
    end
    end).

(** *** The worker acknowledges *)

Definition exact_cancellation_output_on {R} (existing : turn) (output : option OutputMessage)
    (citations : list C) : txn W R bool :=
  match t_output_message_id existing, output with
  | None, None => mret (bool_decide (citations = []))
  | Some message_id, Some output =>
      if message_id =? p_id output
      then d ← get;
           if exact_completed_output_on d output
           then exact_completed_citations_on output citations else mret false
      else mret false
  | _, _ => mret false
  end.

(** The prose a cancelled turn had already produced. *)
Definition cancellation_output {R} (existing : turn) (lease_token : Z)
    (output : option OutputMessage) (citations : list C) : txn W R (option Z) :=
  match output with
  | None => mret None
  | Some output =>
      if negb (p_chat_id output =? t_session_id existing)
      then err "turn output belongs to a different chat" else
      free ← reserve_message_identity_on (p_id output) (p_chat_id output) (p_turn_id output)
               MESSAGE_IDENTITY_OWNER_MESSAGE;
      if negb free then err "turn output message identity is already reserved" else
      seq ← next_message_seq_on (p_chat_id output);
      inserted ← insert_message (p_id output) (output_row output seq lease_token);
      if negb inserted then err "message constraint violated" else
      _ ← peer_ (fun w => insert_for_message_on w (p_id output) citations);
      _ ← peer_ (fun w => index_chat_message_on w (p_id output));
      mret (Some (p_id output))
  end.

Definition cancelled_usage (terminal_event : option AgentEvent) : option Usage :=
  match terminal_event with Some (TurnCancelled usage) => Some usage | _ => None end.

Definition finish_settle (existing : turn) (claim : claim) (lease_token now : Z)
    (terminal_model_steps : option Z) (terminal_event : option AgentEvent)
    (output : option OutputMessage) (citations : list C)
  : txn W (option (JournaledTurnOutcome FinishTurnCancellationOutcome))
      (option (JournaledTurnOutcome FinishTurnCancellationOutcome)) :=
  let id := t_id existing in
  _ ← peer_ (fun w => close_pending_for_terminal_turn_on w id now);
  output_message_id ← cancellation_output existing lease_token output citations;
  cancelled ← update_turn id (settle_filter Cancelling existing claim lease_token now)
    (fun r => set_totals terminal_model_steps (cancelled_usage terminal_event)
                (let r := ended now Cancelled r in
                 match output_message_id with
                 | Some m => set_output_message_id (Some m) r
                 | None => r
                 end));
  if negb (cancelled =? 1) then rollback None else
  _ ← reject_pending_turn_steers_on id now;
  run ← find_turn id;
  match run with
  | None => err "cancelled turn disappeared"
  | Some run =>
      run ← turn_run_from_model run;
      sequenced_event ← append_terminal_event_on id (t_session_id existing) (Some lease_token)
                          terminal_event;
      mret (Some (MkJournaled (FcCancelled run) sequenced_event None))
  end.

Definition finish_turn_cancellation_inner (id lease_token now : Z)
    (terminal_model_steps : option Z) (terminal_event : option AgentEvent)
    (output : option OutputMessage) (citations : list C) (dbnow : Z)
  : db W -> result AgentError (option (JournaledTurnOutcome FinishTurnCancellationOutcome)) * db W :=
  if lease_token =? 0 then begin (err "turn lease token must not be nil") else
  let output := match output with
                | Some o => if String.eqb (p_content o) "" then None else Some o
                | None => None
                end in
  begin (
    _ ← match output with
        | Some o => _ ← try (validate_turn_output id lease_token o);
                    if validate_assistant_message (p_content o) citations then mret tt
                    else err "assistant citation inputs do not match the message"
        | None => mret tt
        end;
    existing ← find_turn id;
    match existing with None => mret None | Some existing =>
    locked ← acquire_chat_write_lock (t_session_id existing);
    if is_some terminal_event && negb locked then err "turn references missing chat" else
    let now := Z.max (canonical_db_timestamp now) (canonical_db_timestamp dbnow) in
    claim ← claim_of lease_token id;
    match claim with None => mret None | Some claim =>
    if String.eqb (t_status existing) (as_str Cancelled)
       && (t_attempt_count existing =? c_attempt_count claim)
       && (t_claim_count existing =? c_claim_count claim)
    then
      if match terminal_model_steps with
         | Some n => negb (n =? t_model_steps existing)
         | None => false
         end
      then err "exact cancellation retry changed terminal model steps" else
      exact ← exact_cancellation_output_on existing output citations;
      if negb exact then err "turn was already cancelled with different output" else
      sequenced_event ← exact_terminal_event_on id (Some lease_token) terminal_event;
      run ← turn_run_from_model existing;
      mret (Some (MkJournaled (FcExisting run) sequenced_event None))
    else
    if negb (String.eqb (t_status existing) (as_str Cancelling))
       || negb (t_attempt_count existing =? c_attempt_count claim)
       || negb (t_claim_count existing =? c_claim_count claim)
       || negb (same_some (t_lease_token existing) (Some lease_token))
       || col_gt (t_updated_at existing) now
    then mret None else
    _ ← match cancelled_usage terminal_event with
        | Some usage => checkpoint ← usage_from_turn_model existing;
                        validate_terminal_usage usage checkpoint
        | None => mret tt
        end;
    _ ← match terminal_model_steps with
        | Some n => validate_terminal_model_steps n (t_model_steps existing)
        | None => mret tt
        end;
    finish_settle existing claim lease_token now terminal_model_steps terminal_event output
      citations
    end
    end).

Definition finish_turn_cancellation_and_append_event (id lease_token now model_steps : Z)
    (usage : Usage) (output : option OutputMessage) (citations : list C) (dbnow : Z) :=
  finish_turn_cancellation_inner id lease_token now (Some model_steps)
    (Some (TurnCancelled usage)) output citations dbnow.
End Cancel.
