(* ===== verification/TurnParks.v ===== *)
(** * Turns parked on a client call, and journal appends

    [park_turn_for_client_tool_call], [advance_turn_after_client_resolution_on]
    and its recovery (tidebreak-core, db/ops/turn/client_wait.rs), and
    [append_turn_events] (db/ops/conversation.rs). *)
From S2P Require Import Prelude RustStr TurnTables TurnLeases TurnResolve TurnCancel.
From stdpp Require Import gmap.

Open Scope Z_scope.

Record TurnCheckpointProgress : Type := MkProgress { g_model_steps : Z; g_usage : Usage }.
#[export] Instance progress_eq_dec : EqDecision TurnCheckpointProgress.
Proof. solve_decision. Defined.

(** [arguments] is the canonical JSON text. *)
Record ClientToolCallRequest : Type := MkRequest {
  h_id : Z; h_chat_id : Z; h_turn_id : Z; h_provider_id : string; h_name : string;
  h_arguments : string }.

Definition MAX_LABEL_LEN : Z := 256.
Definition MAX_ARGUMENT_BYTES : Z := 131072.

Definition label_ok (s : string) : bool :=
  negb (String.eqb s "") && (Z.of_nat (String.length s) <=? MAX_LABEL_LEN) && negb (has_nul s).
Definition is_well_formed (call : ClientToolCallRequest) : bool :=
  negb (h_id call =? 0) && negb (h_chat_id call =? 0) && negb (h_turn_id call =? 0)
  && label_ok (h_provider_id call) && label_ok (h_name call)
  && (Z.of_nat (String.length (h_arguments call)) <=? MAX_ARGUMENT_BYTES).

Definition checkpoint_execution (name : string) : string :=
  if String.eqb name ASK_USER_QUESTIONS_TOOL || String.eqb name EXIT_PLAN_MODE_TOOL
     || String.eqb name CODE_WAIT_TOOL
  then "orchestration" else "client".

Definition validate_request (turn_id lease_token : Z) (progress : TurnCheckpointProgress)
    (remaining : option Z) (call : ClientToolCallRequest) : result AgentError unit :=
  if (turn_id =? 0) || (lease_token =? 0) || negb (h_turn_id call =? turn_id)
     || (g_model_steps progress <=? 0)
     || match remaining with Some max_uses => max_uses =? 0 | None => false end
     || negb (is_well_formed call)
  then Err (Store "invalid client tool call checkpoint request") else Ok tt.

Definition exact_call_request (existing : tool_call) (request : ClientToolCallRequest) : bool :=
  (k_chat_id existing =? h_chat_id request) && (k_turn_id existing =? h_turn_id request)
  && String.eqb (k_provider_id existing) (h_provider_id request)
  && String.eqb (k_name existing) (h_name request)
  && String.eqb (k_arguments existing) (h_arguments request)
  && String.eqb (k_execution existing) (checkpoint_execution (h_name request)).

(** [checked_token_total]: an [i64] sum that still fits a [u32]. *)
Definition checked_token_total (current delta : Z) : option Z :=
  let total := current + delta in
  if (0 <=? total) && (total <=? U32_MAX) then Some total else None.

(** [checked_checkpoint_totals] *)
Definition checked_checkpoint_totals (r : turn) (progress : TurnCheckpointProgress)
  : result AgentError (Z * Usage) :=
  let steps := t_model_steps r + g_model_steps progress in
  let u := t_usage r in let v := g_usage progress in
  if negb ((0 <=? steps) && (steps <=? I32_MAX))
  then Err (Store "turn model-step accounting overflowed") else
  match checked_token_total (input_tokens u) (input_tokens v),
        checked_token_total (output_tokens u) (output_tokens v),
        checked_token_total (cache_read_input_tokens u) (cache_read_input_tokens v),
        checked_token_total (cache_creation_input_tokens u) (cache_creation_input_tokens v) with
  | Some a, Some b, Some c, Some e => Ok (steps, MkUsage a b c e)
  | _, _, _, _ => Err (Store "turn token accounting overflowed")
  end.

Inductive ParkTurnForClientCallOutcome : Type :=
| PkParked (turn : turn) (call : tool_call) (wait : client_wait)
    (renderer_event : option SequencedAgentEvent)
| PkExisting (turn : turn) (call : tool_call) (wait : client_wait)
    (renderer_event : option SequencedAgentEvent)
| PkSteerPending (turn : turn)
| PkOutputSuperseded (turn : turn)
| PkIdentityConflict.

Record ClientWaitTurnTransition : Type := MkTransition {
  y_turn : turn; y_terminal_event : option SequencedAgentEvent }.

Record TurnEventAppend : Type := MkAppend { a_ordinal : Z; a_event : AgentEvent }.

Section Parks.
Context {W C : Type} `{P : TurnPeers W C}.

(** *** The card a questions or plan call shows *)

Definition card_event (call : ClientToolCallRequest) : option AgentEvent :=
  if String.eqb (h_name call) ASK_USER_QUESTIONS_TOOL
  then Some (UserQuestionsAsked (h_id call) (h_turn_id call))
  else if String.eqb (h_name call) EXIT_PLAN_MODE_TOOL
  then Some (PlanProposed (h_id call) (h_turn_id call))
  else None.

Definition checkpoint_on {R} (call : ClientToolCallRequest) (now : Z)
  : txn W R (option SequencedAgentEvent) :=
  match card_event call with
  | None => mret None
  | Some event =>
      seq ← append_event_on (h_chat_id call) None None None None event;
      _ ← peer_ (fun w => open_card_on w (h_id call) (h_chat_id call) (h_turn_id call)
                            (h_name call) (h_arguments call) now);
      mret (Some (MkSeq seq event))
  end.

Definition recover_checkpoint_on {R} (call : ClientToolCallRequest)
  : txn W R (option SequencedAgentEvent) :=
  match card_event call with
  | None => mret None
  | Some event =>
      d ← get;
      pending ← try (card_pending_on (d_peers d) (h_id call) (h_chat_id call) (h_turn_id call)
                       (h_name call) (h_arguments call));
      if negb pending then mret None else
      mret ((fun e => MkSeq (e_seq e) (e_event e)) <$>
              List.find (fun e => (e_session_id e =? h_chat_id call)
                                  && bool_decide (e_event e = event)) (d_events d))
  end.

(** *** Parking *)

Definition wait_progress {R} (w : client_wait) : txn W R TurnCheckpointProgress :=
  if w_model_steps w <=? 0 then err "client wait has invalid model-step progress" else
  if negb (usage_fits (w_usage w)) then err "client wait has invalid tokens" else
  mret (MkProgress (w_model_steps w) (w_usage w)).

Definition park_existing (call : ClientToolCallRequest) (wait : client_wait) (lease_token : Z)
    (progress : TurnCheckpointProgress) (remaining : option Z)
  : txn W (option ParkTurnForClientCallOutcome) (option ParkTurnForClientCallOutcome) :=
  d ← get;
  match d_calls d !! h_id call, d_turns d !! h_turn_id call with
  | None, _ => err "client wait is missing its tool call"
  | _, None => err "parked turn disappeared"
  | Some existing_call, Some turn =>
      if (w_turn_id wait =? h_turn_id call) && (w_session_id wait =? h_chat_id call)
         && (w_park_lease_token wait =? lease_token)
      then
        stored ← wait_progress wait;
        if bool_decide (stored = progress)
           && opt_eqb (w_vendor_web_search_max_uses wait) remaining
           && exact_call_request existing_call call
        then renderer_event ← recover_checkpoint_on call;
             turn ← turn_run_from_model turn;
             mret (Some (PkExisting turn existing_call wait renderer_event))
        else mret (Some PkIdentityConflict)
      else mret (Some PkIdentityConflict)
  end.

Definition next_tool_history_order_on {R} (chat_id : Z) : txn W R Z :=
  d ← get;
  match List.filter (fun k => k_chat_id k =? chat_id) ((map_to_list (d_calls d)).*2) with
  | [] => mret 1
  | k :: l =>
      match checked_succ I64_MAX (foldr (fun k m => Z.max (k_history_order k) m)
                                    (k_history_order k) l) with
      | Some n => mret n
      | None => err "tool history exhausted"
      end
  end.

(** The open wait of a turn is unique, and its claim is a receipt. *)
Definition insert_wait {R} (call_id : Z) (w : client_wait) : txn W R unit :=
  d ← get;
  if is_some (d_waits d !! call_id) || is_some (open_wait_of d (w_turn_id w))
     || match d_claims d !! w_park_lease_token w with
        | Some c => negb ((c_turn_id c =? w_turn_id w)
                          && (c_attempt_count c =? w_attempt_count w)
                          && (c_claim_count c =? w_claim_count w))
        | None => true
        end
     || negb (usage_fits (w_usage w))
  then err "wait constraint violated"
  else modify (with_waits (<[call_id := w]> (d_waits d))).

(** The write of a park. *)
Definition park_settle (existing : turn) (call : ClientToolCallRequest)
    (lease_token expected_steer_revision : Z) (progress : TurnCheckpointProgress)
    (remaining : option Z) (now : Z)
  : txn W (option ParkTurnForClientCallOutcome) (option ParkTurnForClientCallOutcome) :=
  let turn_id := t_id existing in
  '(steps, usage) ← try (checked_checkpoint_totals existing progress);
  history_order ← next_tool_history_order_on (h_chat_id call);
  d ← get;
  if is_some (d_calls d !! h_id call) then rollback (Some PkIdentityConflict) else
  let k := MkCall (h_chat_id call) turn_id (h_provider_id call) history_order (h_name call)
             (h_arguments call) (checkpoint_execution (h_name call)) "pending" None None None
             (Some lease_token) now None in
  let w := MkWait turn_id (h_chat_id call) lease_token (t_attempt_count existing)
             (t_claim_count existing) (g_model_steps progress) (g_usage progress) remaining
             "waiting" now None in
  _ ← modify (with_calls (<[h_id call := k]> (d_calls d)));
  _ ← insert_wait (h_id call) w;
  parked ← update_turn turn_id
    (fun r => String.eqb (t_status r) (as_str Running)
              && (t_attempt_count r =? t_attempt_count existing)
              && (t_claim_count r =? t_claim_count existing)
              && same_some (t_lease_token r) (Some lease_token)
              && col_eq (t_lease_expires_at r) (t_lease_expires_at existing)
              && col_gt (t_lease_expires_at r) now
              && (t_steer_revision r =? expected_steer_revision)
              && col_eq (t_updated_at r) (t_updated_at existing) && col_lte (t_updated_at r) now)
    (fun r => set_updated_at (Some now) (set_usage usage (set_model_steps steps
                (released (set_status (as_str WaitingForClient) r)))));
  if negb (parked =? 1) then rollback None else
  run ← find_turn turn_id;
  match run with
  | None => err "parked turn disappeared"
  | Some run =>
      renderer_event ← checkpoint_on call now;
      run ← turn_run_from_model run;
      mret (Some (PkParked run k w renderer_event))
  end.

Definition park_turn_for_client_tool_call (turn_id lease_token expected_steer_revision : Z)
    (progress : TurnCheckpointProgress) (remaining : option Z) (now : Z)
    (call : ClientToolCallRequest)
  : db W -> result AgentError (option ParkTurnForClientCallOutcome) * db W :=
  begin (
    _ ← try (validate_request turn_id lease_token progress remaining call);
    let now := canonical_db_timestamp now in
    scope ← find_turn turn_id;
    match scope with None => mret None | Some turn =>
    if negb (t_session_id turn =? h_chat_id call) then mret None else
    locked ← acquire_chat_write_lock (h_chat_id call);
    if negb locked then mret None else
    d ← get;
    match d_waits d !! h_id call with
    | Some wait => park_existing call wait lease_token progress remaining
    | None =>
    if negb (String.eqb (t_status turn) (as_str Running))
       || negb (same_some (t_lease_token turn) (Some lease_token))
       || negb (col_gt (t_lease_expires_at turn) now)
       || col_gt (t_updated_at turn) now
    then mret None else
    let pending := steer_pending d turn_id in
    if negb (t_steer_revision turn =? expected_steer_revision) || pending
    then run ← turn_run_from_model turn;
         mret (Some (if pending then PkSteerPending run else PkOutputSuperseded run))
    else
    if is_some (d_calls d !! h_id call) then mret (Some PkIdentityConflict) else
    park_settle turn call lease_token expected_steer_revision progress remaining now
    end
    end).

(** *** The client call resolves *)

Definition recover_turn_after_client_resolution_on {R} (call_id : Z) (call : tool_call)
  : txn W R (option ClientWaitTurnTransition) :=
  d ← get;
  match d_waits d !! call_id with
  | None => mret None
  | Some wait =>
      if negb (w_session_id wait =? k_chat_id call) || negb (w_turn_id wait =? k_turn_id call)
      then err "client wait is scoped differently from its tool call" else
      if String.eqb (w_status wait) "waiting"
      then err "terminal client call still has an open wait" else
      match d_turns d !! w_turn_id wait with
      | None => err "closed client wait references missing turn"
      | Some turn =>
          if negb (t_session_id turn =? w_session_id wait)
          then err "closed client wait no longer matches its turn scope" else
          terminal_event ←
            (if String.eqb (w_status wait) "cancelled" then
               if negb (String.eqb (t_status turn) (as_str Cancelled))
               then err "cancelled client wait has a non-cancelled turn"
               else existing_cancellation_event_on (w_turn_id wait) true
             else if String.eqb (w_status wait) "resumed" then mret None
             else err "client wait has unknown status");
          run ← turn_run_from_model turn;
          mret (Some (MkTransition run terminal_event))
      end
  end.

Definition advance_turn_after_client_resolution_on {R} (call_id : Z) (call : tool_call)
    (resolved_at : Z) : txn W R (option ClientWaitTurnTransition) :=
  d ← get;
  match d_waits d !! call_id with
  | None => mret None
  | Some wait =>
  if negb (String.eqb (w_status wait) "waiting")
  then recover_turn_after_client_resolution_on call_id call else
  if negb (w_session_id wait =? k_chat_id call) || negb (w_turn_id wait =? k_turn_id call)
  then err "client wait is scoped differently from its tool call" else
  match d_turns d !! w_turn_id wait with
  | None => err "client wait references missing turn"
  | Some turn =>
  adapter_client_call ← adapter_client_park_call_id turn;
  if negb (t_session_id turn =? w_session_id wait)
     || negb (status_in turn ["waiting_for_client"; "cancelling_client"])
        && negb (opt_eqb adapter_client_call (Some call_id))
     || negb (t_attempt_count turn =? w_attempt_count wait)
     || negb (t_claim_count turn =? w_claim_count wait)
     || is_some (t_lease_token turn) || is_some (t_lease_expires_at turn)
     || (resolved_at <? w_parked_at wait)
     || col_gt (t_updated_at turn) resolved_at
  then err "client wait does not match its blocking turn state" else
  let cancelling := String.eqb (t_status turn) (as_str CancellingClient) in
  closed ← close_wait call_id (if cancelling then "cancelled" else "resumed") resolved_at;
  if negb closed then err "client wait changed while closing" else
  advanced ← update_turn (t_id turn)
    (fun r => String.eqb (t_status r) (t_status turn)
              && (t_attempt_count r =? t_attempt_count turn)
              && (t_claim_count r =? t_claim_count turn)
              && col_eq (t_updated_at r) (t_updated_at turn))
    (fun r => let r := set_updated_at (Some resolved_at) (set_available_at (Some resolved_at)
                         (set_status (as_str (if cancelling then Cancelled else Resuming)) r)) in
              if cancelling then set_ended_at (Some resolved_at) r else r);
  if negb (advanced =? 1) then err "client wait lost its blocking turn transition" else
  terminal_event ←
    (if cancelling
     then _ ← reject_pending_turn_steers_on (t_id turn) resolved_at;
          usage ← usage_from_turn_model turn;
          append_terminal_event_on (t_id turn) (t_session_id turn) None (Some (TurnCancelled usage))
     else mret None);
  run ← find_turn (t_id turn);
  match run with
  | None => err "resolved client-wait turn disappeared"
  | Some run => run ← turn_run_from_model run; mret (Some (MkTransition run terminal_event))
  end
  end
  end.

(** *** Streamed events *)

Fixpoint entries_ok (turn_id : Z) (previous : option Z) (events : list TurnEventAppend)
  : result AgentError unit :=
  match events with
  | [] => Ok tt
  | entry :: rest =>
      let ordinal := a_ordinal entry in
      if negb ((1 <=? ordinal) && (ordinal <? I32_MAX))
      then Err (Store "attempt event ordinal must be positive and below the terminal slot") else
      if match previous with Some p => ordinal <=? p | None => false end
      then Err (Store "turn event batch ordinals must ascend") else
      if is_terminal_event (a_event entry)
      then Err (Store "terminal turn events must be committed by turn resolution") else
      if match a_event entry with TurnStarted t => negb (t =? turn_id) | _ => false end
      then Err (Store "turn-started event names another turn") else
      entries_ok turn_id (Some ordinal) rest
  end.

(** The sequence a row with an entry's identity already has. *)
Definition recovered_seq (d : db W) (chat_id turn_id lease_token : Z) (entry : TurnEventAppend)
  : result AgentError (option Z) :=
  match List.find (fun e => same_some (e_lease_token e) (Some lease_token)
                            && same_some (e_attempt_event_ordinal e) (Some (a_ordinal entry)))
          (d_events d) with
  | None => Ok None
  | Some row =>
      if negb (e_session_id row =? chat_id) || negb (opt_eqb (e_turn_id row) (Some turn_id))
         || e_terminal row || negb (bool_decide (e_event row = a_event entry))
      then Err (Store "turn event identity was reused with different data")
      else Ok (Some (e_seq row))
  end.

Fixpoint recover_all (d : db W) (chat_id turn_id lease_token : Z) (events : list TurnEventAppend)
  : result AgentError (list (option Z)) :=
  match events with
  | [] => Ok []
  | entry :: rest =>
      match recovered_seq d chat_id turn_id lease_token entry,
            recover_all d chat_id turn_id lease_token rest with
      | Ok s, Ok l => Ok (s :: l)
      | Err e, _ | _, Err e => Err e
      end
  end.

Fixpoint append_fresh {R} (chat_id turn_id lease_token next : Z)
    (events : list (TurnEventAppend * option Z)) : txn W R (list Z) :=
  match events with
  | [] => mret []
  | (_, Some seq) :: rest =>
      l ← append_fresh chat_id turn_id lease_token next rest; mret (seq :: l)
  | (entry, None) :: rest =>
      match checked_succ I64_MAX next with
      | None => err "event sequence exhausted"
      | Some next' =>
          _ ← insert_event_row chat_id next (Some turn_id) (Some lease_token)
                (Some (a_ordinal entry)) None (a_event entry);
          l ← append_fresh chat_id turn_id lease_token next' rest; mret (next :: l)
      end
  end.

Definition append_turn_events (chat_id turn_id lease_token now : Z) (events : list TurnEventAppend)
  : db W -> result AgentError (option (list Z)) * db W :=
  begin (
    if turn_id =? 0 then err "event turn id must not be nil" else
    if lease_token =? 0 then err "event lease token must not be nil" else
    if Nat.eqb (length events) 0 then err "turn event batch must carry at least one event" else
    _ ← try (entries_ok turn_id None events);
    let now := canonical_db_timestamp now in
    locked ← acquire_chat_write_lock chat_id;
    if negb locked then err "chat does not exist" else
    turn ← find_turn turn_id;
    match turn with None => mret None | Some turn =>
    d ← get;
    recovered ← try (recover_all d chat_id turn_id lease_token events);
    if forallb is_some recovered then mret (Some (map (default 0) recovered)) else
    claim ← claim_of lease_token turn_id;
    match claim with None => mret None | Some claim =>
    if negb (t_session_id turn =? chat_id) then err "turn does not belong to chat" else
    if negb (owns_running turn claim lease_token now) then mret None else
    next ← next_event_seq chat_id;
    seqs ← append_fresh chat_id turn_id lease_token next (combine events recovered);
    mret (Some seqs)
    end
    end).
End Parks.
