(* ===== verification/TurnSteers.v ===== *)
(** * Steering a live turn

    [accept_turn_steer], [list_pending_turn_steers] and [apply_turn_steer]
    (tidebreak-core, db/ops/turn/steer.rs).  A steer is accepted while the
    turn is live, applied by the worker that holds its lease, oldest first,
    and rejected when the turn ends. *)
From S2P Require Import Prelude RustStr TurnTables TurnLeases TurnResolve.
From stdpp Require Import gmap.

Open Scope Z_scope.

Inductive AcceptTurnSteerOutcome : Type :=
| AsAccepted (steer : steer)
| AsExisting (steer : steer)
| AsIdentityConflict
| AsTurnUnavailable.
Inductive ApplyTurnSteerOutcome : Type :=
| ApApplied (steer : steer)
| ApExisting (steer : steer).
Record JournaledTurnSteerOutcome : Type := MkSteerOutcome {
  z_outcome : ApplyTurnSteerOutcome; z_event : SequencedAgentEvent }.

Definition MAX_CONTENT_LEN : Z := 65536.
Definition MAX_INVOKED_SKILLS : Z := 8.
Definition MAX_INVOKED_SKILL_NAME_LEN : Z := 64.

(** [char::is_control] over UTF-8: C0, DEL, and C1 (two bytes from 194). *)
Definition control_char (c : string) : bool :=
  match String.list_ascii_of_string c with
  | [a] => Nat.ltb (nat_of_ascii a) 32 || Nat.eqb (nat_of_ascii a) 127
  | [a; b] => Nat.eqb (nat_of_ascii a) 194 && Nat.ltb (nat_of_ascii b) 160
  | _ => false
  end.

Definition validate_invoked_skills (skills : list string) : result AgentError unit :=
  if MAX_INVOKED_SKILLS <? Z.of_nat (length skills)
  then Err (Store "a turn may invoke at most 8 skills") else
  if existsb (fun skill => trim_is_empty skill
                           || (MAX_INVOKED_SKILL_NAME_LEN <? Z.of_nat (String.length skill))
                           || existsb control_char (chars skill)) skills
  then Err (Store "an invoked skill name must be 1 to 64 characters with no control characters")
  else Ok tt.

Definition validate_steer_input (id turn_id chat_id : Z) (content : string)
    (skills : list string) : result AgentError unit :=
  if (id =? 0) || (turn_id =? 0) || (chat_id =? 0)
  then Err (Store "steer, turn, and chat identities must not be nil") else
  if trim_is_empty content || has_nul content
     || negb ((1 <=? char_count content) && (char_count content <=? MAX_CONTENT_LEN))
  then Err (Store "turn steer content must contain 1 to 65536 non-NUL characters") else
  validate_invoked_skills skills.

Definition exact_accepted_steer (existing : steer) (turn_id chat_id : Z) (content : string)
    (skills : list string) (interrupt voice : bool) : AcceptTurnSteerOutcome :=
  if (s_turn_id existing =? turn_id) && (s_session_id existing =? chat_id)
     && String.eqb (s_content existing) content
     && bool_decide (s_invoked_skills existing = skills)
     && Bool.eqb (s_interrupt existing) interrupt && Bool.eqb (s_voice_input_used existing) voice
  then AsExisting existing else AsIdentityConflict.

Section Steers.
Context {W C : Type} `{P : TurnPeers W C}.

(** The states and leases that take a new instruction. *)
Definition accepts_steer (r : turn) (status : TurnRunStatus) (chat_id now : Z) : bool :=
  (t_session_id r =? chat_id) && negb (col_gt (t_updated_at r) now)
  && match status with
     | Queued | Running | WaitingForClient | WaitingForAgentRun | Resuming | RetryWait => true
     | _ => false
     end
  && (negb (bool_decide (status = Running)) || col_gt (t_lease_expires_at r) now).

Definition accept_turn_steer (id turn_id chat_id : Z) (content : string) (skills : list string)
    (interrupt voice : bool) (now : Z)
  : db W -> result AgentError AcceptTurnSteerOutcome * db W :=
  begin (
    _ ← try (validate_steer_input id turn_id chat_id content skills);
    d ← get;
    match d_steers d !! id with
    | Some existing =>
        mret (exact_accepted_steer existing turn_id chat_id content skills interrupt voice)
    | None =>
    if is_some (d_messages d !! id) then mret AsIdentityConflict else
    let now := canonical_db_timestamp now in
    locked ← acquire_chat_write_lock chat_id;
    if negb locked then err "chat does not exist" else
    turn ← find_turn turn_id;
    match turn with None => mret AsTurnUnavailable | Some turn =>
    status ← try (turn_run_status_from_db (t_status turn));
    if negb (accepts_steer turn status chat_id now) then mret AsTurnUnavailable else
    free ← reserve_message_identity_on id chat_id turn_id MESSAGE_IDENTITY_OWNER_STEER;
    if negb free then rollback AsIdentityConflict else
    let steer := MkSteer id turn_id chat_id content skills voice interrupt "pending" None None None
                   now None in
    _ ← put_steer steer;
    interrupted ← (if bool_decide (status = WaitingForAgentRun) && interrupt
                   then peer (fun w => interrupt_wait_set_for_steer_on w turn now) else mret false);
    touched ← update_turn turn_id
      (fun r => String.eqb (t_status r) (t_status turn)
                && (t_attempt_count r =? t_attempt_count turn)
                && col_eq (t_updated_at r) (t_updated_at turn) && col_lte (t_updated_at r) now
                && (if bool_decide (status = Running)
                    then col_eq (t_lease_token r) (t_lease_token turn)
                         && col_eq (t_lease_expires_at r) (t_lease_expires_at turn)
                    else true))
      (fun r => let r := set_updated_at (Some now) r in
                if (interrupted : bool)
                then set_available_at (Some now) (set_status (as_str Resuming) r) else r);
    if negb (touched =? 1) then err "turn changed while accepting steer" else
    mret (AsAccepted steer)
    end
    end).

(** Pending steers of a turn, oldest first. *)
Definition steer_leb (x y : steer) : bool :=
  key_leb (s_created_at x, s_id x, 0) (s_created_at y, s_id y, 0).
Fixpoint insert_steer (s : steer) (l : list steer) : list steer :=
  match l with
  | [] => [s]
  | x :: l' => if steer_leb s x then s :: l else x :: insert_steer s l'
  end.
Definition pending_steers (d : db W) (turn_id : Z) : list steer :=
  foldr insert_steer []
    (List.filter (fun s => (s_turn_id s =? turn_id) && String.eqb (s_status s) "pending")
       ((map_to_list (d_steers d)).*2)).

Definition list_pending_turn_steers (d : db W) (turn_id lease_token now : Z)
  : result AgentError (option (list steer)) :=
  if (turn_id =? 0) || (lease_token =? 0)
  then Err (Store "turn and lease identities must not be nil") else
  let now := canonical_db_timestamp now in
  match d_claims d !! lease_token, d_turns d !! turn_id with
  | Some claim, Some turn =>
      if (c_turn_id claim =? turn_id) && owns_running turn claim lease_token now
      then Ok (Some (pending_steers d turn_id)) else Ok None
  | _, _ => Ok None
  end.

(** *** Applying *)

Definition validate_preceding_assistant (m : OutputMessage) (turn_id chat_id now : Z)
  : result AgentError unit :=
  if (p_id m =? 0) || negb (p_chat_id m =? chat_id) || negb (p_turn_id m =? turn_id)
     || match p_role m with RAssistant => false | _ => true end
     || String.eqb (p_content m) "" || has_nul (p_content m)
     || (now <? canonical_db_timestamp (p_created_at m))
  then Err (Store "preceding assistant must be a valid non-empty message for the exact turn")
  else Ok tt.

Definition steer_llm_content (s : steer) : option string :=
  user_message_llm_content (s_content s) [] [] (s_invoked_skills s) (s_voice_input_used s).

Definition message_identity (d : db W) (id chat_id turn_id : Z) : bool :=
  match d_identities d !! id with
  | Some i => (i_chat_id i =? chat_id) && (i_turn_id i =? turn_id)
              && String.eqb (i_owner i) MESSAGE_IDENTITY_OWNER_MESSAGE
  | None => false
  end.

Definition ensure_exact_applied_message_on {R} (s : steer) : txn W R unit :=
  d ← get;
  let exact := match d_messages d !! s_id s with
    | Some m => (m_chat_id m =? s_session_id s) && (m_turn_id m =? s_turn_id s)
                && String.eqb (m_role m) "user" && String.eqb (m_content m) (s_content s)
                && bool_decide (m_llm_content m = steer_llm_content s)
                && same_some (s_resolved_at s) (Some (m_created_at m))
    | None => false
    end in
  if exact && message_identity d (s_id s) (s_session_id s) (s_turn_id s) then mret tt
  else err "applied turn steer has a different or missing message".

Definition ensure_exact_preceding_message_on {R} (s : steer) (preceding : OutputMessage)
  : txn W R unit :=
  d ← get;
  let exact := match d_messages d !! p_id preceding, d_messages d !! s_id s with
    | Some m, Some applied =>
        (m_chat_id m =? p_chat_id preceding) && (m_turn_id m =? p_turn_id preceding)
        && String.eqb (m_role m) "assistant" && String.eqb (m_content m) (p_content preceding)
        && (m_created_at m =? canonical_db_timestamp (p_created_at preceding))
        && match checked_succ I64_MAX (m_seq m) with
           | Some n => n =? m_seq applied | None => false end
    | _, _ => false
    end in
  if exact && message_identity d (p_id preceding) (p_chat_id preceding) (p_turn_id preceding)
  then mret tt
  else err "applied turn steer has a different or missing preceding assistant".

Definition exact_applied_event_on {R} (s : steer) (lease_token ordinal : Z)
  : txn W R SequencedAgentEvent :=
  d ← get;
  match List.find (fun e => same_some (e_lease_token e) (Some lease_token)
                            && same_some (e_attempt_event_ordinal e) (Some ordinal)) (d_events d) with
  | None => err "applied turn steer has no exact journal event"
  | Some e =>
      if negb (e_session_id e =? s_session_id s)
         || negb (opt_eqb (e_turn_id e) (Some (s_turn_id s))) || e_terminal e
         || negb (bool_decide (e_event e = UserSteered (s_id s) (s_content s)))
      then err "applied turn steer has a different journal event"
      else mret (MkSeq (e_seq e) (e_event e))
  end.

(** An exact retry of a committed application. *)
Definition apply_existing (s : steer) (turn_id lease_token ordinal : Z)
    (preceding : option OutputMessage) (citations : list C)
  : txn W (option JournaledTurnSteerOutcome) (option JournaledTurnSteerOutcome) :=
  if negb ((s_turn_id s =? turn_id) && same_some (s_applied_lease_token s) (Some lease_token))
  then mret None else
  if negb (opt_eqb (s_preceding_assistant_message_id s) (p_id <$> preceding))
  then err "applied turn steer has different preceding assistant presence" else
  _ ← ensure_exact_applied_message_on s;
  _ ← match preceding with
      | Some m =>
          _ ← ensure_exact_preceding_message_on s m;
          same ← exact_completed_citations_on m citations;
          if (same : bool) then mret tt
          else err "applied turn steer has different preceding citations"
      | None => mret tt
      end;
  event ← exact_applied_event_on s lease_token ordinal;
  mret (Some (MkSteerOutcome (ApExisting s) event)).

Definition applied_steer (s : steer) (lease_token now : Z) (preceding : option OutputMessage)
  : steer :=
  MkSteer (s_id s) (s_turn_id s) (s_session_id s) (s_content s) (s_invoked_skills s)
    (s_voice_input_used s) (s_interrupt s) "applied" (Some lease_token) (Some (s_id s))
    (p_id <$> preceding) (s_created_at s) (Some now).

(** The assistant text that came before the instruction. *)
Definition insert_preceding (existing : turn) (lease_token now : Z) (m : OutputMessage)
    (citations : list C) : txn W (option JournaledTurnSteerOutcome) unit :=
  _ ← try (validate_preceding_assistant m (t_id existing) (t_session_id existing) now);
  free ← reserve_message_identity_on (p_id m) (p_chat_id m) (p_turn_id m)
           MESSAGE_IDENTITY_OWNER_MESSAGE;
  if negb free then err "preceding assistant identity is already reserved" else
  seq ← next_message_seq_on (p_chat_id m);
  inserted ← insert_message (p_id m) (output_row m seq lease_token);
  if negb inserted then err "message constraint violated" else
  _ ← peer_ (fun w => insert_for_message_on w (p_id m) citations);
  peer_ (fun w => index_chat_message_on w (p_id m)).

(** Mark the steer applied, stamping the turn's revision. *)
Definition apply_settle (existing : turn) (claim : claim) (s : steer)
    (lease_token ordinal now next_revision : Z) (preceding : option OutputMessage)
    (citations : list C)
  : txn W (option JournaledTurnSteerOutcome) (option JournaledTurnSteerOutcome) :=
  let turn_id := t_id existing in
  _ ← match preceding with
      | Some m => insert_preceding existing lease_token now m citations
      | None => mret tt
      end;
  moved ← transfer_steer_message_identity_on (s_id s) (s_session_id s) (s_turn_id s);
  if negb moved then err "turn steer has a missing or conflicting message reservation" else
  seq ← next_message_seq_on (s_session_id s);
  inserted ← insert_message (s_id s)
    (MkMessage (s_session_id s) (s_turn_id s) seq "user" (s_content s) (steer_llm_content s) None
       (Some lease_token) now);
  if negb inserted then err "message constraint violated" else
  _ ← peer_ (fun w => index_chat_message_on w (s_id s));
  if negb (negb (is_some (s_applied_lease_token s)) && negb (is_some (s_message_id s))
           && negb (is_some (s_preceding_assistant_message_id s))
           && negb (is_some (s_resolved_at s)))
  then rollback None else
  if now <? s_created_at s then err "steer constraint violated" else
  let applied := applied_steer s lease_token now preceding in
  _ ← put_steer applied;
  touched ← update_turn turn_id
    (fun r => String.eqb (t_status r) (as_str Running)
              && (t_attempt_count r =? c_attempt_count claim)
              && (t_claim_count r =? c_claim_count claim)
              && same_some (t_lease_token r) (Some lease_token)
              && col_eq (t_lease_expires_at r) (t_lease_expires_at existing)
              && col_gt (t_lease_expires_at r) now
              && (t_steer_revision r =? t_steer_revision existing)
              && col_eq (t_updated_at r) (t_updated_at existing) && col_lte (t_updated_at r) now)
    (fun r => set_last_steer_applied_at (Some now) (set_steer_revision next_revision
                (set_updated_at (Some now) r)));
  if negb (touched =? 1) then rollback None else
  _ ← ensure_exact_applied_message_on applied;
  let event := UserSteered (s_id s) (s_content s) in
  seq ← append_event_on (s_session_id s) (Some turn_id) (Some lease_token) (Some ordinal) None event;
  mret (Some (MkSteerOutcome (ApApplied applied) (MkSeq seq event))).

Definition apply_turn_steer (turn_id lease_token steer_id ordinal : Z)
    (preceding : option OutputMessage) (citations : list C) (now : Z)
  : db W -> result AgentError (option JournaledTurnSteerOutcome) * db W :=
  begin (
    if (turn_id =? 0) || (lease_token =? 0) || (steer_id =? 0)
    then err "turn, lease, and steer identities must not be nil" else
    if negb ((1 <=? ordinal) && (ordinal <? I32_MAX))
    then err "steer event ordinal must be positive and below the terminal slot" else
    _ ← match preceding with
        | Some m => if validate_assistant_message (p_content m) citations
                       && match p_role m with RAssistant => true | _ => false end
                       && negb (p_id m =? 0)
                    then mret tt else err "assistant citation inputs do not match the message"
        | None => if bool_decide (citations = []) then mret tt
                  else err "preceding citations require an assistant message"
        end;
    let now := canonical_db_timestamp now in
    turn ← find_turn turn_id;
    match turn with None => mret None | Some turn =>
    locked ← acquire_chat_write_lock (t_session_id turn);
    if negb locked then err "turn references missing chat" else
    d ← get;
    match d_steers d !! steer_id with None => mret None | Some s =>
    if String.eqb (s_status s) "applied"
    then apply_existing s turn_id lease_token ordinal preceding citations else
    if negb (String.eqb (s_status s) "pending") && negb (String.eqb (s_status s) "rejected")
    then err "invalid durable turn steer status" else
    if String.eqb (s_status s) "rejected" || negb (s_turn_id s =? turn_id) then mret None else
    match pending_steers d turn_id with
    | earliest :: _ =>
        if negb (s_id earliest =? s_id s) then mret None else
        claim ← claim_of lease_token turn_id;
        match claim with None => mret None | Some claim =>
        if negb (owns_running turn claim lease_token now)
           || negb (s_session_id s =? t_session_id turn)
        then mret None else
        match checked_succ I64_MAX (t_steer_revision turn) with
        | None => err "turn steer revision overflow"
        | Some next_revision =>
            apply_settle turn claim s lease_token ordinal now next_revision preceding citations
        end
        end
    | [] => mret None
    end
    end
    end).
End Steers.
