(* ===== verification/TurnPlacements.v ===== *)
(** * Where a rerun turn stands in the conversation

    [TurnReplacementKind] and [TurnPlacements] (tidebreak-core,
    model/turns.rs): a retry continues the turn it retries, a regenerate or an
    edit replaces a whole attempt.  The code walks two hash maps with a step
    bound; the theorems relate the walk to the chain of reruns itself. *)
From S2P Require Import Prelude.
From stdpp Require Import gmap.

Open Scope Z_scope.

Inductive TurnReplacementKind : Type := Regenerate | Edit | Retry.

#[export] Instance replacement_kind_eq_dec : EqDecision TurnReplacementKind.
Proof. solve_decision. Defined.

Definition kind_as_str (k : TurnReplacementKind) : string :=
  match k with Regenerate => "regenerate" | Edit => "edit" | Retry => "retry" end.
Definition kind_from_db (value : string) : option TurnReplacementKind :=
  if String.eqb value "regenerate" then Some Regenerate
  else if String.eqb value "edit" then Some Edit
  else if String.eqb value "retry" then Some Retry
  else None.
Definition removes_replaced (k : TurnReplacementKind) : bool :=
  match k with Regenerate | Edit => true | Retry => false end.

Record TurnReplacement : Type := MkReplacement {
  rp_turn_id : Z; rp_replaces : Z; rp_kind : TurnReplacementKind }.

Inductive TurnPlacement : Type :=
| InConversation
| EarlierVersion (current : Z)
| Discarded.

#[export] Instance placement_eq_dec : EqDecision TurnPlacement.
Proof. solve_decision. Defined.

Notation links := (gmap Z (Z * TurnReplacementKind)) (only parsing).

Record TurnPlacements : Type := MkPlacements { by_replaced : links; by_replacer : links }.

(** [TurnPlacements::new] *)
Definition placements_new (replacements : list TurnReplacement) : TurnPlacements :=
  fold_left
    (fun p r => MkPlacements
       (<[rp_replaces r := (rp_turn_id r, rp_kind r)]> (by_replaced p))
       (<[rp_turn_id r := (rp_replaces r, rp_kind r)]> (by_replacer p)))
    replacements (MkPlacements ∅ ∅).

(** The [0..=len] steps of the loops. *)
Definition steps_of (m : links) : nat := S (size m).

Fixpoint attempt_loop (fuel : nat) (m : links) (current : Z) : Z :=
  match fuel with
  | O => current
  | S fuel =>
      match m !! current with
      | Some (next, Retry) => attempt_loop fuel m next
      | _ => current
      end
  end.
Definition attempt (p : TurnPlacements) (turn : Z) : Z :=
  attempt_loop (steps_of (by_replaced p)) (by_replaced p) turn.

Fixpoint attempt_turns_loop (fuel : nat) (m : links) (turns : list Z) (current : Z) : list Z :=
  match fuel with
  | O => turns
  | S fuel =>
      match m !! current with
      | Some (previous, Retry) =>
          if bool_decide (previous ∈ turns) then turns
          else attempt_turns_loop fuel m (turns ++ [previous]) previous
      | _ => turns
      end
  end.
Definition attempt_turns (p : TurnPlacements) (head : Z) : list Z :=
  rev (attempt_turns_loop (steps_of (by_replacer p)) (by_replacer p) [head] head).

Definition retried (p : TurnPlacements) (turn : Z) : option Z :=
  match by_replacer p !! turn with Some (previous, Retry) => Some previous | _ => None end.

Fixpoint placement_loop (fuel : nat) (p : TurnPlacements) (head : Z) (discarded : bool) : Z * bool :=
  match fuel with
  | O => (head, discarded)
  | S fuel =>
      match by_replaced p !! head with
      | None => (head, discarded)
      | Some (next, kind) =>
          placement_loop fuel p (attempt p next) (discarded || bool_decide (kind = Edit))
      end
  end.
Definition replaced_key (p : TurnPlacements) (turn : Z) : bool :=
  bool_decide (is_Some (by_replaced p !! turn)).

Definition placement (p : TurnPlacements) (turn : Z) : TurnPlacement :=
  let head := attempt p turn in
  if negb (replaced_key p head) then InConversation else
  let '(head, discarded) := placement_loop (steps_of (by_replaced p)) p head false in
  if discarded || replaced_key p head then Discarded else EarlierVersion head.

Definition in_conversation (p : TurnPlacements) (turn : Z) : bool :=
  bool_decide (placement p turn = InConversation).

Definition outside_conversation (p : TurnPlacements) : gset Z :=
  filter (fun turn => in_conversation p turn = false) (dom (by_replaced p)).

Definition turns_outside_conversation (replacements : list TurnReplacement) : gset Z :=
  outside_conversation (placements_new replacements).

(** ** The chain of reruns *)

(** The reruns from a turn to the one nothing replaced. *)
Inductive chain (m : links) : Z -> list TurnReplacementKind -> Z -> Prop :=
| chain_end t : m !! t = None -> chain m t [] t
| chain_step t u k ks last :
    m !! t = Some (u, k) -> chain m u ks last -> chain m t (k :: ks) last.

(** Where a turn stands, by the kinds of the reruns ahead of it. *)
Definition stands (ks : list TurnReplacementKind) (last : Z) : TurnPlacement :=
  if bool_decide (Edit ∈ ks) then Discarded
  else if bool_decide (Regenerate ∈ ks) then EarlierVersion last
  else InConversation.

(** What acceptance keeps: a turn is rerun by a later turn. *)
Definition ranks (rank : Z -> nat) (m : links) : Prop :=
  forall t u k, m !! t = Some (u, k) -> (rank t < rank u)%nat.

(** Each turn is rerun once, and reruns one. *)
Definition well_ordered (rank : Z -> nat) (l : list TurnReplacement) : Prop :=
  NoDup (map rp_replaces l) /\ NoDup (map rp_turn_id l) /\
  Forall (fun r => rank (rp_replaces r) < rank (rp_turn_id r))%nat l.

Lemma kind_round_trip k : kind_from_db (kind_as_str k) = Some k.
Proof. by destruct k. Qed.

Lemma ranks_delete rank m t : ranks rank m -> ranks rank (delete t m).
Proof. intros Hr a b c Ha. apply lookup_delete_Some in Ha as [_ Ha]. by eapply Hr. Qed.

Lemma chain_delete rank m x ks last t :
  ranks rank m ->
  (rank t < rank x)%nat -> chain m x ks last -> chain (delete t m) x ks last.
Proof.
  intros Hrank Hlt Hc. revert Hlt. induction Hc as [x Hx | x u k ks last Hx _ IH]; intros Hlt.
  - constructor. apply lookup_delete_None. by right.
  - apply chain_step with u; [rewrite lookup_delete_ne; [done|]; by intros ->; lia|].
    apply IH. specialize (Hrank _ _ _ Hx). lia.
Qed.

(** A chain is no longer than the map it walks. *)
Lemma chain_short rank ks : forall m t last,
  ranks rank m ->
  chain m t ks last -> (length ks <= size m)%nat.
Proof.
  induction ks as [|k ks IH]; intros m t last Hrank Hc; [cbn; lia|].
  inversion Hc as [|? u ? ? ? Ht Hrest]; subst.
  assert (Hd : chain (delete t m) u ks last)
    by (eapply chain_delete; [exact Hrank | by eapply Hrank | done]).
  pose proof (ranks_delete _ _ t Hrank) as Hrank'.
  specialize (IH _ _ _ Hrank' Hd). cbn.
  rewrite map_size_delete_Some in IH by eauto.
  pose proof (map_size_ne_0_lookup_1 m) as Hne.
  assert (size m <> 0)%nat by (apply map_size_ne_0_lookup; eauto). lia.
Qed.

Lemma chain_ranks rank m t ks last : ranks rank m -> chain m t ks last -> (rank t <= rank last)%nat.
Proof.
  intros Hr. induction 1 as [|t u k ks last Ht _ IH]; [done|]. specialize (Hr _ _ _ Ht). lia.
Qed.

(** Every turn has one. *)
Lemma chain_exists rank m t : ranks rank m -> exists ks last, chain m t ks last.
Proof.
  remember (size m) as n eqn:Hn. revert m t Hn. induction n as [|n IH]; intros m t Hn Hr.
  - symmetry in Hn. apply map_size_empty_iff in Hn as ->. exists [], t. by constructor.
  - destruct (m !! t) as [[u k]|] eqn:Ht; [|by exists [], t; constructor].
    destruct (IH (delete t m) u) as (ks & last & Hc).
    { rewrite map_size_delete_Some by eauto. lia. }
    { by apply ranks_delete. }
    exists (k :: ks), last. apply chain_step with u; [done|].
    pose proof (ranks_delete _ _ t Hr) as Hr'. specialize (Hr _ _ _ Ht).
    clear Ht IH Hn. induction Hc as [x Hx | x y j ks last Hx Hc IHc].
    + constructor. apply lookup_delete_None in Hx as [->|Hx]; [lia | done].
    + apply lookup_delete_Some in Hx as [_ Hx] . apply chain_step with y; [done|].
      apply IHc. assert (delete t m !! x = Some (y, j)) as Hd
        by (rewrite lookup_delete_ne; [done | intros ->; lia]).
      specialize (Hr' _ _ _ Hd). lia.
Qed.

Lemma chain_fun m t ks last ks' last' :
  chain m t ks last -> chain m t ks' last' -> ks = ks' /\ last = last'.
Proof.
  intros Hc. revert ks' last'. induction Hc as [t Ht | t u k ks last Ht _ IH];
    intros ks' last' Hc'; inversion Hc'; simplify_eq; [done|].
  by destruct (IH _ _ H0) as [-> ->].
Qed.

(** ** The walk *)

(** The attempt loop follows retries. *)
Lemma attempt_loop_spec m fuel : forall t ks last,
  chain m t ks last -> (length ks < fuel)%nat ->
  exists ks1 ks2, ks = ks1 ++ ks2 /\ Forall (eq Retry) ks1 /\
    chain m (attempt_loop fuel m t) ks2 last /\
    match ks2 with Retry :: _ => False | _ => True end.
Proof.
  induction fuel as [|fuel IH]; intros t ks last Hc Hlen; [lia|]. cbn.
  inversion Hc as [? Ht | ? u k ks' ? Ht Hrest]; subst; rewrite Ht; [by exists [], []|].
  destruct k; [by exists [], (Regenerate :: ks') | by exists [], (Edit :: ks')|].
  destruct (IH _ _ _ Hrest) as (ks1 & ks2 & -> & Hall & Hc' & Hhd); [cbn in Hlen; lia|].
  exists (Retry :: ks1), ks2. auto.
Qed.

Lemma retries_stand ks1 ks2 last :
  Forall (eq Retry) ks1 -> stands (ks1 ++ ks2) last = stands ks2 last.
Proof.
  intros Hall. unfold stands.
  assert (Hskip : forall k, k <> Retry -> bool_decide (k ∈ ks1 ++ ks2) = bool_decide (k ∈ ks2)).
  { intros k Hk. apply bool_decide_ext. rewrite elem_of_app. split; [|auto].
    intros [Hin|?]; [|done]. rewrite Forall_forall in Hall. by specialize (Hall _ Hin). }
  by rewrite !Hskip.
Qed.

(** The outer loop ends at the last turn and has seen every edit. *)
Lemma placement_loop_spec p rank fuel :
  ranks rank (by_replaced p) -> forall head ks last discarded,
  chain (by_replaced p) head ks last -> (length ks < fuel)%nat ->
  placement_loop fuel p head discarded = (last, discarded || bool_decide (Edit ∈ ks)).
Proof.
  intros Hr. induction fuel as [|fuel IH]; intros head ks last discarded Hc Hlen; [lia|]. cbn.
  inversion Hc as [? Hh | ? u k ks' ? Hh Hrest]; subst; rewrite Hh; [by rewrite orb_false_r|].
  destruct (attempt_loop_spec _ (steps_of (by_replaced p)) _ _ _ Hrest)
    as (ks1 & ks2 & -> & Hall & Hc' & _).
  { pose proof (chain_short _ _ _ _ _ Hr Hrest). unfold steps_of. lia. }
  rewrite (IH _ _ _ _ Hc'); [|cbn in Hlen; rewrite length_app in Hlen; lia].
  f_equal. rewrite <- orb_assoc. f_equal.
  assert (Hno : Edit ∉ ks1) by (rewrite Forall_forall in Hall; intros Hin; by specialize (Hall _ Hin)).
  destruct (bool_decide (k = Edit)) eqn:Hk.
  - apply bool_decide_eq_true in Hk as ->. cbn. symmetry. apply bool_decide_eq_true. left.
  - apply bool_decide_eq_false in Hk. cbn. apply bool_decide_ext. set_solver.
Qed.

(** [placement] reads where a turn stands off its chain of reruns. *)
Lemma placement_chain p rank t ks last :
  ranks rank (by_replaced p) -> chain (by_replaced p) t ks last ->
  placement p t = stands ks last.
Proof.
  intros Hr Hc. unfold placement.
  destruct (attempt_loop_spec _ (steps_of (by_replaced p)) _ _ _ Hc)
    as (ks1 & ks2 & -> & Hall & Hc' & Hhd).
  { pose proof (chain_short _ _ _ _ _ Hr Hc). unfold steps_of. lia. }
  rewrite (retries_stand _ _ _ Hall). fold (attempt p t) in Hc'. unfold replaced_key.
  inversion Hc' as [? Hh | ? u k ks' ? Hh Hrest]; subst.
  { by rewrite Hh. }
  rewrite Hh. cbn [negb is_Some].
  rewrite bool_decide_eq_true_2 by eauto. cbn [negb].
  rewrite (placement_loop_spec p rank _ Hr _ _ _ false Hc').
  2: { pose proof (chain_short _ _ _ _ _ Hr Hc'). unfold steps_of. lia. }
  assert (Hlast : by_replaced p !! last = None) by (clear -Hc'; by induction Hc').
  rewrite Hlast. cbn. rewrite orb_false_r. unfold stands. case_bool_decide; [done|].
  by destruct k; [ | set_solver | ].
Qed.

(** *** The maps of a list of replacements *)

Lemma placements_new_snoc l r :
  placements_new (l ++ [r]) =
  MkPlacements (<[rp_replaces r := (rp_turn_id r, rp_kind r)]> (by_replaced (placements_new l)))
               (<[rp_turn_id r := (rp_replaces r, rp_kind r)]> (by_replacer (placements_new l))).
Proof. unfold placements_new. by rewrite fold_left_app. Qed.

Lemma placements_lookup l :
  NoDup (map rp_replaces l) -> NoDup (map rp_turn_id l) ->
  (forall t u k, by_replaced (placements_new l) !! t = Some (u, k)
     <-> MkReplacement u t k ∈ l) /\
  (forall t u k, by_replacer (placements_new l) !! u = Some (t, k)
     <-> MkReplacement u t k ∈ l).
Proof.
  induction l as [|r l IH] using rev_ind; intros Hd1 Hd2.
  { split; intros t u k; cbn; rewrite lookup_empty; split; [done | by intros ?%not_elem_of_nil
      | done | by intros ?%not_elem_of_nil]. }
  rewrite map_app in Hd1, Hd2. apply NoDup_app in Hd1 as (Hd1 & Hn1 & _), Hd2 as (Hd2 & Hn2 & _).
  destruct (IH Hd1 Hd2) as [IH1 IH2]. clear IH. rewrite placements_new_snoc. cbn.
  split; intros t u k; rewrite lookup_insert_Some, elem_of_app, list_elem_of_singleton.
  - rewrite IH1. split.
    + intros [[<- [= <- <-]]|[_ Hin]]; [right; by destruct r | by left].
    + intros [Hin|<-]; [|by left]. right. split; [|done]. cbn. intros <-.
      apply (Hn1 (rp_replaces r)); [|by left].
      apply list_elem_of_fmap. exists (MkReplacement u (rp_replaces r) k). done.
  - rewrite IH2. split.
    + intros [[<- [= <- <-]]|[_ Hin]]; [right; by destruct r | by left].
    + intros [Hin|<-]; [|by left]. right. split; [|done]. cbn. intros <-.
      apply (Hn2 (rp_turn_id r)); [|by left].
      apply list_elem_of_fmap. exists (MkReplacement (rp_turn_id r) t k). done.
Qed.

Lemma placements_rank rank l :
  well_ordered rank l -> ranks rank (by_replaced (placements_new l)).
Proof.
  intros (Hd1 & Hd2 & Hr) t u k Hl. destruct (placements_lookup l Hd1 Hd2) as [H1 _].
  apply H1 in Hl. rewrite Forall_forall in Hr. by apply (Hr _ Hl).
Qed.

(** One retry back along a map. *)
Definition retry_of (m : links) (a b : Z) : Prop := m !! a = Some (b, Retry).

Lemma attempt_turns_loop_spec m rank fuel :
  ranks rank m -> forall turns cur ks last,
  chain m cur ks last -> (length ks < fuel)%nat ->
  Forall (fun x => rank x <= rank cur)%nat turns ->
  forall x, x ∈ attempt_turns_loop fuel m turns cur <-> x ∈ turns \/ tc (retry_of m) cur x.
Proof.
  intros Hr. induction fuel as [|fuel IH]; intros turns cur ks last Hc Hlen Hle x; [lia|]. cbn.
  assert (Hstop : (forall b, m !! cur <> Some (b, Retry)) ->
                  x ∈ turns <-> x ∈ turns \/ tc (retry_of m) cur x).
  { intros Hn. split; [auto|]. intros [?|Htc]; [done|]. exfalso.
    inversion Htc as [? ? Hs|? ? ? Hs]; subst; by eapply Hn. }
  inversion Hc as [? Hh | ? u k ks' ? Hh Hrest]; subst; rewrite Hh.
  { apply Hstop. intros b. by rewrite Hh. }
  destruct k; try (apply Hstop; intros b; by rewrite Hh).
  pose proof (Hr _ _ _ Hh) as Hlt. rewrite bool_decide_eq_false_2.
  2: { intros Hin. rewrite Forall_forall in Hle. specialize (Hle _ Hin). lia. }
  rewrite (IH _ _ _ _ Hrest); [|cbn in Hlen; lia|].
  2: { apply Forall_app. split; [|by apply Forall_singleton].
       eapply Forall_impl; [exact Hle|]. cbn. intros. lia. }
  rewrite elem_of_app, list_elem_of_singleton. split.
  - intros [[? | ->] | Htc]; [auto | right; by apply tc_once | right].
    by eapply tc_l.
  - intros [?|Htc]; [auto|]. inversion Htc as [? ? Hs|? y ? Hs Ht]; subst;
      unfold retry_of in Hs; rewrite Hh in Hs; simplify_eq; auto.
Qed.

(** The other map ranks backwards. *)
Lemma replacer_rank rank l :
  well_ordered rank l ->
  exists rank', ranks rank' (by_replacer (placements_new l)).
Proof.
  intros (Hd1 & Hd2 & Hr). destruct (placements_lookup l Hd1 Hd2) as [_ H2].
  set (top := foldr (fun r n => Nat.max (rank (rp_turn_id r)) n) O l).
  assert (Htop : forall r, r ∈ l -> (rank (rp_turn_id r) <= top)%nat).
  { subst top. clear. induction l as [|y l IH]; intros r Hin; cbn; [by apply not_elem_of_nil in Hin|].
    apply elem_of_cons in Hin as [->|Hin]; [lia|]. specialize (IH _ Hin). lia. }
  exists (fun x => top - rank x)%nat. intros u t k Hl. apply H2 in Hl.
  pose proof (Htop _ Hl) as Hle. rewrite Forall_forall in Hr. specialize (Hr _ Hl). cbn in *. lia.
Qed.

Lemma stands_outside ks last :
  stands ks last <> InConversation <-> Exists (fun k => removes_replaced k = true) ks.
Proof.
  unfold stands. rewrite Exists_exists. case_bool_decide as He; [|case_bool_decide as Hr].
  - split; [by exists Edit | done].
  - split; [by exists Regenerate | done].
  - split; [done|]. intros (k & Hin & Hk). by destruct k.
Qed.

(** ** Theorems *)

(** The reruns of a conversation, from its rows. *)
Inductive reruns (l : list TurnReplacement) : Z -> list TurnReplacementKind -> Z -> Prop :=
| reruns_end t : (forall u k, MkReplacement u t k ∉ l) -> reruns l t [] t
| reruns_step t u k ks last :
    MkReplacement u t k ∈ l -> reruns l u ks last -> reruns l t (k :: ks) last.

Lemma chain_reruns l t ks last :
  NoDup (map rp_replaces l) -> NoDup (map rp_turn_id l) ->
  chain (by_replaced (placements_new l)) t ks last <-> reruns l t ks last.
Proof.
  intros Hd1 Hd2. destruct (placements_lookup l Hd1 Hd2) as [H1 _]. split; induction 1.
  - constructor. intros u k Hin. apply H1 in Hin. congruence.
  - eapply reruns_step; [by apply H1 | done].
  - constructor. apply eq_None_not_Some. intros [[u k] Hs]. apply H1 in Hs. by eapply H.
  - eapply chain_step; [by apply H1 | done].
Qed.

(** A turn has exactly one chain of reruns, and [placement] says of it
    what the chain does: an edit anywhere ahead discards it, a regenerate
    without an edit makes it an earlier version of the last turn of the chain,
    and retries alone keep it in the conversation; the step bounds of the code
    never cut the walk short. *)
Lemma placement_reads_the_reruns rank l t :
  well_ordered rank l ->
  exists ks last, reruns l t ks last /\
    (forall ks' last', reruns l t ks' last' -> ks' = ks /\ last' = last) /\
    placement (placements_new l) t = stands ks last.
Proof.
  intros Hw. pose proof (placements_rank _ _ Hw) as Hr. destruct Hw as (Hd1 & Hd2 & _).
  destruct (chain_exists _ _ t Hr) as (ks & last & Hc). exists ks, last. split_and!.
  - by apply chain_reruns.
  - intros ks' last' Hc'. apply chain_reruns in Hc'; [|done..]. by eapply chain_fun.
  - by eapply placement_chain.
Qed.

(** The turns the model no longer sees are exactly those some regenerate
    or edit lies ahead of. *)
Lemma outside_is_regenerated_or_edited rank l t :
  well_ordered rank l ->
  t ∈ turns_outside_conversation l <->
  exists ks last, reruns l t ks last /\ Exists (fun k => removes_replaced k = true) ks.
Proof.
  intros Hw. pose proof (placements_rank _ _ Hw) as Hr.
  destruct (chain_exists _ _ t Hr) as (ks & last & Hc).
  pose proof (placement_chain _ _ _ _ _ Hr Hc) as Hp. destruct Hw as (Hd1 & Hd2 & _).
  unfold turns_outside_conversation, outside_conversation, in_conversation.
  rewrite elem_of_filter, bool_decide_eq_false, elem_of_dom, Hp, stands_outside. split.
  - intros [? _]. exists ks, last. split; [by apply chain_reruns | done].
  - intros (ks' & last' & Hc' & He). apply chain_reruns in Hc'; [|done..].
    destruct (chain_fun _ _ _ _ _ _ Hc Hc') as [-> ->]. split; [done|].
    inversion Hc as [? Hn | ? u k ? ? Hs]; subst; [by inversion He | eauto].
Qed.

(** The turns of an attempt are its latest turn and every turn reached
    back from it through retries. *)
Lemma attempt_turns_are_the_retries rank l head x :
  well_ordered rank l ->
  x ∈ attempt_turns (placements_new l) head <->
  rtc (fun a b => MkReplacement a b Retry ∈ l) head x.
Proof.
  intros Hw. destruct (replacer_rank _ _ Hw) as [rank' Hr].
  destruct (chain_exists _ _ head Hr) as (ks & last & Hc).
  unfold attempt_turns. rewrite list_elem_of_In, <- in_rev, <- list_elem_of_In.
  rewrite (attempt_turns_loop_spec _ _ _ Hr _ _ _ _ Hc).
  2: { pose proof (chain_short _ _ _ _ _ Hr Hc). unfold steps_of. lia. }
  2: { by apply Forall_singleton. }
  destruct Hw as (Hd1 & Hd2 & _). destruct (placements_lookup l Hd1 Hd2) as [_ H2].
  assert (Heq : forall a b, retry_of (by_replacer (placements_new l)) a b
                            <-> MkReplacement a b Retry ∈ l) by (intros; apply H2).
  rewrite list_elem_of_singleton. split.
  - intros [-> | Htc]; [apply rtc_refl|]. apply tc_rtc.
    eapply (tc_congruence (fun a => a)); [|exact Htc]. apply Heq.
  - intros Hrtc. apply rtc_tc in Hrtc as [-> | Htc]; [by left | right].
    eapply (tc_congruence (fun a => a)); [|exact Htc]. apply Heq.
Qed.
