(* ===== verification/TurnAdmission.v ===== *)
(** * Accepting a turn

    [accept_turn_inner] with its callers, [refuse_replacement_on],
    [insert_accepted_turn_on] and [exact_accepted_turn_on] (tidebreak-core,
    db/ops/turn.rs), the admission receipt of db/ops/turn/admission.rs and the
    fingerprint of model/turns.rs.  A chat runs one turn at a time; an exact
    retry of an accepted request is recognised, a changed one refused.  At the
    end: the fingerprint digests a concatenation of length-prefixed fields, so
    two requests with the same bytes differ in their ids at most. *)
From stdpp Require Import gmap.
From S2P Require Import Prelude RustStr TurnTables TurnLeases TurnResolve TurnSteers TurnPlacements.

Open Scope Z_scope.

Definition replaces_request : Type := option (Z * TurnReplacementKind).

Record TurnAdmissionRequest : Type := MkAdmissionRequest {
  q_id : Z; q_chat_id : Z; q_content : string; q_attachments : list Z;
  q_file_attachments : list Z; q_invoked_skills : list string;
  q_voice_input_used : bool; q_replaces : replaces_request }.

Inductive AcceptTurnOutcome : Type :=
| AcAccepted (turn : turn)
| AcExisting (turn : turn)
| AcIdentityConflict
| AcChatBusy (active : turn).
Inductive TurnReplacementRefusal : Type := UnknownTurn | Unsettled | NotLatest | NotRetryable.
Inductive ReservedTurnAcceptanceOutcome : Type :=
| Outcome (outcome : AcceptTurnOutcome)
| LeaseLost
| ReplacementRefused (refusal : TurnReplacementRefusal).

Record TurnAdmissionLease : Type := MkAdmissionLease {
  al_id : Z; al_lease_token : Z; al_lease_expires_at : Z }.
Inductive BeginTurnAdmissionOutcome : Type :=
| BgIdentityConflict | BgQueued | BgAccepted | BgAcquired (lease : TurnAdmissionLease).

Definition MAX_MODEL_LEN : Z := 512.
Definition DEFAULT_MAX_ATTEMPTS : Z := 5.
Definition MAX_MESSAGE_ATTACHMENTS : Z := 16.
Definition MAX_IMAGE_DIMENSION : Z := 8000.
Definition MAX_IMAGE_BYTES : Z := 16 * 1024 * 1024.

(** ** Validation *)

Definition validate_turn_input (id : Z) (model content : string) (skills : list string)
  : result AgentError unit :=
  if id =? 0 then Err (Store "turn id must not be nil") else
  if trim_is_empty model || has_nul model || (MAX_MODEL_LEN <? char_count model)
  then Err (Store "turn model must contain 1 to 512 non-NUL characters") else
  if trim_is_empty content || has_nul content
  then Err (Store "turn content must be non-empty and contain no NUL characters") else
  validate_invoked_skills skills.

(** [ImageRef::validate] *)
Definition image_validate (i : ImageRef) : result AgentError unit :=
  if (width i =? 0) || (height i =? 0)
  then Err (Store "image attachment has a zero dimension") else
  if (MAX_IMAGE_DIMENSION <? width i) || (MAX_IMAGE_DIMENSION <? height i)
  then Err (Store "image attachment exceeds the maximum dimension") else
  if byte_len i =? 0 then Err (Store "image attachment is empty") else
  if MAX_IMAGE_BYTES <? byte_len i then Err (Store "image attachment exceeds the maximum size") else
  Ok tt.

Fixpoint validate_images (images : list ImageRef) : result AgentError unit :=
  match images with
  | [] => Ok tt
  | i :: rest =>
      if blob_id i =? 0 then Err (Store "image attachment blob id must not be nil") else
      match image_validate i with Ok _ => validate_images rest | Err e => Err e end
  end.
(** [message_attachment_ops::validate] *)
Definition attachments_validate (images : list ImageRef) : result AgentError unit :=
  if MAX_MESSAGE_ATTACHMENTS <? Z.of_nat (length images)
  then Err (Store "a message may carry at most 16 image attachments") else validate_images images.

(** [message_document_attachment_ops::validate_count] *)
Definition validate_count (images : Z) (documents : list Z) : result AgentError unit :=
  if MAX_MESSAGE_ATTACHMENTS <? images + Z.of_nat (length documents)
  then Err (Store "a message may carry at most 16 attachments") else
  if existsb (Z.eqb 0) documents then Err (Store "document attachment id must not be nil") else
  if negb (Nat.eqb (length (nodup Z.eq_dec documents)) (length documents))
  then Err (Store "a document may be attached to a message only once") else Ok tt.

(** Whether [insert] meets a name it already holds. *)
Fixpoint any_repeated (seen : list string) (l : list string) : bool :=
  match l with
  | [] => false
  | s :: rest => existsb (String.eqb s) seen || any_repeated (s :: seen) rest
  end.

(** [admission::validate_request] *)
Definition validate_admission (request : TurnAdmissionRequest) : result AgentError unit :=
  if (q_id request =? 0) || trim_is_empty (q_content request) || has_nul (q_content request)
     || (MAX_MESSAGE_ATTACHMENTS <? Z.of_nat (length (q_attachments request))
                                    + Z.of_nat (length (q_file_attachments request)))
     || (MAX_INVOKED_SKILLS <? Z.of_nat (length (q_invoked_skills request)))
  then Err (Store "invalid turn admission request") else
  if existsb (fun skill => String.eqb skill ""
                           || (MAX_INVOKED_SKILL_NAME_LEN <? Z.of_nat (String.length skill)))
       (q_invoked_skills request)
     || any_repeated [] (q_invoked_skills request)
  then Err (Store "invalid invoked skill identity in turn admission") else Ok tt.

(** ** The fingerprint *)

Fixpoint be_bytes (n : nat) (x : Z) : list Z :=
  match n with
  | O => []
  | S n => be_bytes n (x / 256) ++ [x mod 256]
  end.
Definition be64 (x : Z) : list Z := be_bytes 8 x.
Definition uuid_bytes (id : Z) : list Z := be_bytes 16 id.
Definition str_bytes (s : string) : list Z :=
  map (fun a => Z.of_nat (nat_of_ascii a)) (String.list_ascii_of_string s).
Definition put_bytes (bytes : list Z) : list Z := be64 (Z.of_nat (length bytes)) ++ bytes.

Definition fingerprint_prefix : list Z := str_bytes "tidebreak-turn-admission-v1" ++ [0].
Definition replaces_prefix : list Z := str_bytes "replaces" ++ [0].

Definition replaces_bytes (r : replaces_request) : list Z :=
  match r with
  | Some (turn, kind) => replaces_prefix ++ uuid_bytes turn ++ put_bytes (str_bytes (kind_as_str kind))
  | None => []
  end.

(** What [fingerprint] feeds its digest. *)
Definition fingerprint_input (r : TurnAdmissionRequest) : list Z :=
  fingerprint_prefix ++ uuid_bytes (q_chat_id r) ++ put_bytes (str_bytes (q_content r))
  ++ be64 (Z.of_nat (length (q_attachments r))) ++ flat_map uuid_bytes (q_attachments r)
  ++ be64 (Z.of_nat (length (q_file_attachments r))) ++ flat_map uuid_bytes (q_file_attachments r)
  ++ be64 (Z.of_nat (length (q_invoked_skills r)))
  ++ flat_map (fun s => put_bytes (str_bytes s)) (q_invoked_skills r)
  ++ [if q_voice_input_used r then 1 else 0]
  ++ replaces_bytes (q_replaces r).

Section Admission.
Context {W C : Type} `{P : TurnPeers W C}.

Definition fingerprint (r : TurnAdmissionRequest) : list Z := sha256 (fingerprint_input r).

(** [admission::begin]: what an exact retry learns before any provider is
    consulted; [clock] is the process clock. *)
Definition begin_admission (d : db W) (request : TurnAdmissionRequest) (lease_token lease_ttl clock : Z)
  : result AgentError BeginTurnAdmissionOutcome :=
  match validate_admission request with
  | Err e => Err e
  | Ok _ =>
      if (lease_token =? 0) || (lease_ttl <=? 0)
      then Err (Store "turn admission requires a non-nil token and a positive lease") else
      let exact chat stored := (chat =? q_chat_id request)
                               && bool_decide (stored = Some (fingerprint request)) in
      match d_turns d !! q_id request with
      | Some existing =>
          if negb (exact (t_session_id existing) (ad_fingerprint (t_admitted existing)))
          then Ok BgIdentityConflict
          else Ok (if String.eqb (t_status existing) (as_str Queued) then BgQueued else BgAccepted)
      | None =>
          match d_queued d !! q_id request with
          | Some queued =>
              if negb (exact (u_session_id queued) (u_fingerprint queued))
              then Ok BgIdentityConflict else Ok BgQueued
          | None => Ok (BgAcquired (MkAdmissionLease (q_id request) lease_token (clock + lease_ttl)))
          end
      end
  end.

(** ** Reruns recorded on rows *)

Definition turn_replacement_from_model (r : turn) : result AgentError (option TurnReplacement) :=
  match ad_replaces_turn_id (t_admitted r) with
  | None => Ok None
  | Some replaces =>
      match ad_replacement (t_admitted r) ≫= kind_from_db with
      | None => Err (Store "turn records a replacement with no readable kind")
      | Some kind => Ok (Some (MkReplacement (t_id r) replaces kind))
      end
  end.

Definition chat_rows (d : db W) (chat_id : Z) : list turn :=
  List.filter (fun r => t_session_id r =? chat_id) (rows d).

(** Ascending ordinals. *)
Fixpoint insert_row (r : turn) (l : list turn) : list turn :=
  match l with
  | [] => [r]
  | x :: l' => if t_ordinal r <=? t_ordinal x then r :: l else x :: insert_row r l'
  end.
Definition by_ordinal (l : list turn) : list turn := foldr insert_row [] l.

Fixpoint collect_replacements (l : list turn) : result AgentError (list TurnReplacement) :=
  match l with
  | [] => Ok []
  | r :: rest =>
      match turn_replacement_from_model r with
      | Err e => Err e
      | Ok o => match collect_replacements rest with
                | Err e => Err e
                | Ok l => Ok (match o with Some x => x :: l | None => l end)
                end
      end
  end.
Definition list_turn_replacements_on (d : db W) (chat_id : Z) : result AgentError (list TurnReplacement) :=
  collect_replacements
    (by_ordinal (List.filter (fun r => is_some (ad_replaces_turn_id (t_admitted r)))
                   (chat_rows d chat_id))).

(** [ORDER BY ordinal DESC] then [one] *)
Definition latest_turn (d : db W) (chat_id : Z) : option turn :=
  first_by (fun r => (- t_ordinal r, 0, 0)) (chat_rows d chat_id).

Definition refuse_replacement_on (d : db W) (chat_id replaces : Z) (kind : TurnReplacementKind)
  : option TurnReplacementRefusal :=
  match d_turns d !! replaces with
  | None => Some UnknownTurn
  | Some target =>
      if negb (t_session_id target =? chat_id) then Some UnknownTurn else
      if negb (status_in target TERMINAL) then Some Unsettled else
      if match latest_turn d chat_id with Some latest => negb (t_id latest =? t_id target) | None => false end
      then Some NotLatest else
      if bool_decide (kind = Retry) && String.eqb (t_status target) (as_str Completed)
      then Some NotRetryable else None
  end.

Definition earliest_start (l : list turn) : option Z :=
  match l with
  | [] => None
  | r :: rest => Some (foldr (fun r m => Z.min (t_started_at r) m) (t_started_at r) rest)
  end.

Definition drop_checkpoint_of_replaced_attempt_on {R} (chat_id replaces : Z) : txn W R unit :=
  d ← get;
  checkpoint ← try (context_checkpoint_on (d_peers d) chat_id);
  match checkpoint with
  | None => mret tt
  | Some (through_turn_id, created_at) =>
      replacements ← try (list_turn_replacements_on d chat_id);
      let attempt := attempt_turns (placements_new replacements) replaces in
      let saw_attempt :=
        match through_turn_id with
        | Some through => bool_decide (through ∈ attempt)
        | None =>
            match earliest_start (List.filter (fun r => bool_decide (t_id r ∈ attempt))
                                    (chat_rows d chat_id)) with
            | Some began => began <=? created_at
            | None => false
            end
        end in
      if saw_attempt then peer_ (fun w => delete_checkpoint_on w chat_id) else mret tt
  end.

(** ** An accepted turn again *)

Definition exact_accepted_turn_on {R} (existing : turn) (chat_id : Z) (model content : string)
    (images : list ImageRef) (documents : list Z) (skills : list string) (voice : bool)
    (replaces : replaces_request) : txn W R AcceptTurnOutcome :=
  match t_input_message_id existing with
  | None => err "turn is missing its input message"
  | Some input_message_id =>
  d ← get;
  match d_messages d !! input_message_id with
  | None => err "turn is missing its input message"
  | Some message =>
      if negb (m_chat_id message =? t_session_id existing)
         || negb (m_turn_id message =? t_id existing) || negb (String.eqb (m_role message) "user")
      then err "turn has inconsistent accepted input" else
      accepted_images ← try (accepted_images_on (d_peers d) input_message_id);
      accepted_documents ← try (accepted_documents_on (d_peers d) input_message_id);
      recorded ← try (turn_replacement_from_model existing);
      if (t_session_id existing =? chat_id)
         && bool_decide (ad_model (t_admitted existing) = Some model)
         && String.eqb (m_content message) content
         && bool_decide (accepted_images = images) && bool_decide (accepted_documents = documents)
         && bool_decide (ad_invoked_skills (t_admitted existing) = skills)
         && Bool.eqb (ad_voice_input_used (t_admitted existing)) voice
         && bool_decide ((fun r => (rp_replaces r, rp_kind r)) <$> recorded = replaces)
      then run ← turn_run_from_model existing; mret (AcExisting run)
      else mret AcIdentityConflict
  end
  end.

Definition ACTIVE : list string :=
  [as_str Queued; as_str Running; as_str Cancelling; "waiting"; as_str WaitingForClient;
   as_str WaitingForAgentRun; as_str CancellingClient; as_str Resuming; as_str RetryWait].
Definition find_active_turn_on (d : db W) (chat_id : Z) : option turn :=
  List.find (fun r => status_in r ACTIVE) (chat_rows d chat_id).

(** ** The new row *)

(** [INSERT INTO turn]: the primary key and the unique indexes
    [idx_code_turn_input_message], [idx_turn_replaces] with the row's own. *)
Definition insert_turn {R} (r : turn) : txn W R unit :=
  d ← get;
  if is_some (d_turns d !! t_id r)
     || existsb (fun o => same_some (t_input_message_id o) (t_input_message_id r)
                          || same_some (ad_replaces_turn_id (t_admitted o))
                               (ad_replaces_turn_id (t_admitted r))) (rows d)
  then err "turn constraint violated" else put_turn r.

Definition accepted_row (id : Z) (owner : string) (chat_id ordinal : Z) (model content : string)
    (skills : list string) (voice : bool) (digest : list Z) (replaces : replaces_request)
    (input_message_id now : Z) : turn :=
  MkTurn id owner chat_id ordinal (as_str Queued) content now None None None 0
    DEFAULT_MAX_ATTEMPTS 0 0 (MkUsage 0 0 0 0) (Some now) None None None None 0 None
    (Some input_message_id) None (Some now)
    (MkAdmitted (Some model) skills voice (Some digest) (fst <$> replaces)
       (kind_as_str ∘ snd <$> replaces)).

Definition removes (replaces : replaces_request) : bool :=
  match replaces with Some (_, kind) => removes_replaced kind | None => false end.

Definition drop_replaced_turns_on {R} (chat_id : Z) : txn W R unit :=
  d ← get;
  replacements ← try (list_turn_replacements_on d chat_id);
  peer_ (fun w => delete_search_rows_on w chat_id
                    (elements (turns_outside_conversation replacements))).

(** [mid] is the fresh message id. *)
Definition insert_accepted_turn_on {R} (id chat_id : Z) (model content : string)
    (images : list ImageRef) (documents : list Z) (skills : list string) (voice : bool)
    (replaces : replaces_request) (mid now : Z) : txn W R turn :=
  free ← reserve_message_identity_on mid chat_id id MESSAGE_IDENTITY_OWNER_MESSAGE;
  if negb free then err "turn input message identity is already reserved" else
  seq ← next_message_seq_on chat_id;
  inserted ← insert_message mid (MkMessage chat_id id seq "user" content None None None now);
  if negb inserted then err "message constraint violated" else
  d ← get;
  match d_sessions d !! chat_id with
  | None => err "session does not exist"
  | Some session =>
  match match latest_turn d chat_id with
        | None => Some 1
        | Some row => checked_succ I64_MAX (t_ordinal row)
        end with
  | None => err "turn ordinal exhausted for session"
  | Some ordinal =>
      let digest := fingerprint (MkAdmissionRequest id chat_id content (map blob_id images) documents
                                   skills voice replaces) in
      _ ← insert_turn (accepted_row id (n_owner session) chat_id ordinal model content skills voice
                         digest replaces mid now);
      _ ← peer_ (fun w => record_started_turn_on w chat_id now);
      _ ← peer_ (fun w => insert_images_on w chat_id id mid images now);
      document_context ← peer (fun w => insert_documents_on w chat_id id mid documents now);
      let llm_content := user_message_llm_content content images document_context skills voice in
      _ ← (if is_some llm_content
           then modify (fun d => with_messages
                  (<[mid := MkMessage chat_id id seq "user" content llm_content None None now]>
                     (d_messages d)) d)
           else mret tt);
      _ ← (if removes replaces then drop_replaced_turns_on chat_id else mret tt);
      _ ← peer_ (fun w => index_chat_message_on w mid);
      row ← find_turn id;
      match row with
      | None => err "turn vanished after insert"
      | Some row => mret row
      end
  end
  end.

(** ** Acceptance *)

(** Run [m], undoing it when it fails. *)
Definition catch {R A} (m : txn W R A) : txn W R (result (abort R) A) := fun d =>
  match m d with
  | Ok (a, d') => Ok (Ok a, d')
  | Err e => Ok (Err e, d)
  end.

(** Roll the transaction back and answer from what was there before it. *)
Definition answer_from {R} (before : db W) (reread : txn W R R) : txn W R R := fun _ =>
  match reread before with
  | Ok (a, _) => Err (Rolled a)
  | Err e => Err e
  end.

Definition accept_turn_inner (id chat_id : Z) (model content : string) (images : list ImageRef)
    (documents : list Z) (skills : list string) (voice : bool) (replaces : replaces_request)
    (mid dbnow : Z) : db W -> result AgentError ReservedTurnAcceptanceOutcome * db W :=
  let exact existing := exact_accepted_turn_on existing chat_id model content images documents
                          skills voice replaces in
  begin (
    _ ← try (validate_turn_input id model content skills);
    _ ← try (attachments_validate images);
    _ ← try (validate_count (Z.of_nat (length images)) documents);
    _ ← try (validate_admission (MkAdmissionRequest id chat_id content (map blob_id images)
                                   documents skills voice replaces));
    before ← get;
    locked ← acquire_chat_write_lock chat_id;
    if negb locked then err "chat does not exist" else
    foreground ← try (foreground_agent_run_on (d_peers before) chat_id);
    match foreground with None => err "chat has no foreground agent run" | Some active =>
    existing ← find_turn id;
    match existing with
    | Some existing => outcome ← exact existing; mret (Outcome outcome)
    | None =>
    _ ← try (require_exact_images_on (d_peers before) chat_id images);
    if negb (active : bool) then err "chat foreground agent run is not active" else
    match find_active_turn_on before chat_id with
    | Some active => run ← turn_run_from_model active; mret (Outcome (AcChatBusy run))
    | None =>
    match match replaces with
          | Some (target, kind) => refuse_replacement_on before chat_id target kind
          | None => None
          end with
    | Some refusal => rollback (ReplacementRefused refusal)
    | None =>
    _ ← match replaces with
        | Some (target, kind) =>
            if removes_replaced kind
            then drop_checkpoint_of_replaced_attempt_on chat_id target else mret tt
        | None => mret tt
        end;
    let now := canonical_db_timestamp dbnow in
    inserted ← catch (insert_accepted_turn_on id chat_id model content images documents skills
                        voice replaces mid now);
    match inserted with
    | Ok row => run ← turn_run_from_model row; mret (Outcome (AcAccepted run))
    | Err error =>
        answer_from before (
          existing ← find_turn id;
          match existing with
          | Some existing => outcome ← exact existing; mret (Outcome outcome)
          | None =>
              match find_active_turn_on before chat_id with
              | Some active => run ← turn_run_from_model active; mret (Outcome (AcChatBusy run))
              | None =>
                  match match replaces with
                        | Some (target, kind) => refuse_replacement_on before chat_id target kind
                        | None => None
                        end with
                  | Some refusal => mret (ReplacementRefused refusal)
                  | None => fail error
                  end
              end
          end)
    end
    end
    end
    end
    end).

(** What the two answers only a reservation can get mean to a plain caller. *)
Definition accept_turn (id chat_id : Z) (model content : string) (images : list ImageRef)
    (documents : list Z) (skills : list string) (voice : bool) (mid dbnow : Z) (d : db W)
  : result AgentError AcceptTurnOutcome * db W :=
  let '(answer, d') := accept_turn_inner id chat_id model content images documents skills voice
                         None mid dbnow d in
  (match answer with
   | Ok (Outcome outcome) => Ok outcome
   | Ok LeaseLost => Err (Store "turn has an unresolved admission owned by another process")
   | Ok (ReplacementRefused _) =>
       Err (Store "turn was refused as a replacement it never asked to be")
   | Err e => Err e
   end, d').

Definition accept_reserved_turn (lease : TurnAdmissionLease) (chat_id : Z) (model content : string)
    (images : list ImageRef) (documents : list Z) (skills : list string) (voice : bool)
    (mid dbnow : Z) :=
  accept_turn_inner (al_id lease) chat_id model content images documents skills voice None mid dbnow.

Definition accept_reserved_replacement_turn (lease : TurnAdmissionLease) (chat_id replaces : Z)
    (kind : TurnReplacementKind) (model content : string) (images : list ImageRef)
    (documents : list Z) (skills : list string) (voice : bool) (mid dbnow : Z) :=
  accept_turn_inner (al_id lease) chat_id model content images documents skills voice
    (Some (replaces, kind)) mid dbnow.
End Admission.


(** An encoding a reader can cut off the front of a stream. *)
Definition prefix_code {A} (dom : A -> Prop) (enc : A -> list Z) : Prop :=
  forall a b s t, dom a -> dom b -> enc a ++ s = enc b ++ t -> a = b /\ s = t.

Definition word (n : nat) (x : Z) : Prop := 0 <= x < 256 ^ Z.of_nat n.

Lemma be_bytes_length n x : length (be_bytes n x) = n.
Proof. revert x. induction n as [|n IH]; intros x; [done|]. cbn. rewrite length_app, IH. cbn. lia. Qed.

Lemma be_bytes_inj n : forall x y, word n x -> word n y -> be_bytes n x = be_bytes n y -> x = y.
Proof.
  induction n as [|n IH]; unfold word; intros x y Hx Hy He; [cbn in *; lia|].
  cbn [be_bytes] in He. apply app_inj_2 in He as [He Hm]; [|done]. injection Hm as Hm.
  rewrite Nat2Z.inj_succ, Z.pow_succ_r in Hx, Hy by lia.
  assert (Hdiv : forall z, 0 <= z < 256 * 256 ^ Z.of_nat n -> word n (z / 256)).
  { intros z Hz. split; [apply Z.div_pos; lia | apply Z.div_lt_upper_bound; lia]. }
  apply IH in He; [|by apply Hdiv..].
  rewrite (Z.div_mod x 256), (Z.div_mod y 256) by lia. congruence.
Qed.

Lemma code_bytes n : prefix_code (word n) (be_bytes n).
Proof.
  intros a b s t Ha Hb He. apply app_inj_1 in He as [He ->]; [|by rewrite !be_bytes_length].
  split; [by eapply be_bytes_inj | done].
Qed.

Lemma code_pair {A B} (da : A -> Prop) (db : B -> Prop) ea eb :
  prefix_code da ea -> prefix_code db eb ->
  prefix_code (fun p => da p.1 /\ db p.2) (fun p => ea p.1 ++ eb p.2).
Proof.
  intros Ha Hb [a1 b1] [a2 b2] s t [? ?] [? ?]. cbn. rewrite <- !app_assoc. intros He.
  apply Ha in He as [-> He]; [|done..]. by apply Hb in He as [-> ->].
Qed.

(** A list of codes of a known length. *)
Lemma code_flat {A} (dom : A -> Prop) enc : prefix_code dom enc -> forall l l' s t,
  length l = length l' -> Forall dom l -> Forall dom l' ->
  flat_map enc l ++ s = flat_map enc l' ++ t -> l = l' /\ s = t.
Proof.
  intros Hc. induction l as [|a l IH]; intros [|b l'] s t Hlen Hl Hl' He; try done.
  inversion Hl; inversion Hl'; subst. cbn in He. rewrite <- !app_assoc in He.
  apply Hc in He as [-> He]; [|done..]. injection Hlen as Hlen.
  by apply IH in He as [-> ->].
Qed.

Definition short {A} (l : list A) : Prop := Z.of_nat (length l) < 2 ^ 64.

Lemma code_list {A} (dom : A -> Prop) enc : prefix_code dom enc ->
  prefix_code (fun l => short l /\ Forall dom l)
    (fun l => be64 (Z.of_nat (length l)) ++ flat_map enc l).
Proof.
  intros Hc l l' s t [Hs Hl] [Hs' Hl']. rewrite <- !app_assoc. intros He.
  apply code_bytes in He as [Hlen He]; [|unfold word, short in *; cbn; lia..].
  apply Nat2Z.inj in Hlen. by eapply code_flat.
Qed.

Lemma flat_map_single (l : list Z) : flat_map (fun x => [x]) l = l.
Proof. induction l; cbn; congruence. Qed.

Lemma code_put : prefix_code short put_bytes.
Proof.
  intros l l' s t Hs Hs' He. unfold put_bytes in He.
  assert (Hone : prefix_code (fun _ => True) (fun x : Z => [x])) by (intros ? ? ? ? _ _ [=]; auto).
  apply (code_list _ _ Hone); [by split; [|apply Forall_true]..|]. by rewrite !flat_map_single.
Qed.

Lemma str_bytes_inj a b : str_bytes a = str_bytes b -> a = b.
Proof.
  unfold str_bytes. intros He.
  assert (Hl : String.list_ascii_of_string a = String.list_ascii_of_string b).
  { revert He. generalize (String.list_ascii_of_string a), (String.list_ascii_of_string b).
    induction l as [|x l IH]; intros [|y l']; cbn; intros [=]; [done|].
    assert (x = y) as -> by (rewrite <- (ascii_nat_embedding x), <- (ascii_nat_embedding y); f_equal; lia).
    f_equal. by apply IH. }
  rewrite <- (String.string_of_list_ascii_of_string a), Hl.
  apply String.string_of_list_ascii_of_string.
Qed.

Definition short_str (s : string) : Prop := short (str_bytes s).

Lemma code_str : prefix_code short_str (fun s => put_bytes (str_bytes s)).
Proof.
  intros a b s t Ha Hb He. apply code_put in He as [He ->]; [|done..].
  by apply str_bytes_inj in He as ->.
Qed.

(** What the types of a request bound: UUIDs of 16 bytes, lengths in a [u64]. *)
Definition uuid (x : Z) : Prop := word 16 x.
Definition replaces_fit (r : replaces_request) : Prop :=
  match r with Some (turn, _) => uuid turn | None => True end.

Definition request_fits (r : TurnAdmissionRequest) : Prop :=
  uuid (q_chat_id r) /\ short_str (q_content r)
  /\ (short (q_attachments r) /\ Forall uuid (q_attachments r))
  /\ (short (q_file_attachments r) /\ Forall uuid (q_file_attachments r))
  /\ (short (q_invoked_skills r) /\ Forall short_str (q_invoked_skills r))
  /\ replaces_fit (q_replaces r).

Lemma kind_short k : short_str (kind_as_str k).
Proof. by destruct k. Qed.

Lemma kind_str_inj a b : kind_as_str a = kind_as_str b -> a = b.
Proof. by destruct a, b. Qed.

Lemma replaces_bytes_inj r1 r2 :
  replaces_fit r1 -> replaces_fit r2 -> replaces_bytes r1 = replaces_bytes r2 -> r1 = r2.
Proof.
  destruct r1 as [[t1 k1]|], r2 as [[t2 k2]|]; intros H1 H2; try done. unfold replaces_bytes.
  rewrite <- (app_nil_r (put_bytes (str_bytes (kind_as_str k1)))).
  rewrite <- (app_nil_r (put_bytes (str_bytes (kind_as_str k2)))). intros Ht.
  apply app_inv_head in Ht. apply code_bytes in Ht as [-> Ht]; [|done..].
  apply code_str in Ht as [Ht _]; [|apply kind_short..]. by apply kind_str_inj in Ht as ->.
Qed.

(** Two admission requests that feed the digest the same bytes ask for the
    same chat, content, attachments in order, skills in order, voice flag and
    rerun: the length prefixes leave no room for an alias. *)
Lemma fingerprint_has_no_aliases r1 r2 :
  request_fits r1 -> request_fits r2 -> fingerprint_input r1 = fingerprint_input r2 ->
  q_chat_id r1 = q_chat_id r2 /\ q_content r1 = q_content r2
  /\ q_attachments r1 = q_attachments r2 /\ q_file_attachments r1 = q_file_attachments r2
  /\ q_invoked_skills r1 = q_invoked_skills r2
  /\ q_voice_input_used r1 = q_voice_input_used r2 /\ q_replaces r1 = q_replaces r2.
Proof.
  intros (C1 & S1 & A1 & F1 & K1 & R1) (C2 & S2 & A2 & F2 & K2 & R2) He.
  unfold fingerprint_input in He. apply app_inv_head in He.
  apply code_bytes in He as [Hc He]; [|done..].
  apply code_str in He as [Hs He]; [|done..].
  assert (Huuids : prefix_code (fun l => short l /\ Forall uuid l)
            (fun l => be64 (Z.of_nat (length l)) ++ flat_map uuid_bytes l))
    by apply code_list, code_bytes.
  assert (Hstrs : prefix_code (fun l => short l /\ Forall short_str l)
            (fun l => be64 (Z.of_nat (length l)) ++ flat_map (fun s => put_bytes (str_bytes s)) l))
    by apply code_list, code_str.
  rewrite (app_assoc _ (flat_map uuid_bytes (q_attachments r1))) in He.
  rewrite (app_assoc _ (flat_map uuid_bytes (q_attachments r2))) in He.
  apply Huuids in He as [Ha He]; [|done..].
  rewrite (app_assoc _ (flat_map uuid_bytes _)) in He.
  rewrite (app_assoc _ (flat_map uuid_bytes (q_file_attachments r2))) in He.
  apply Huuids in He as [Hf He]; [|done..].
  rewrite (app_assoc _ (flat_map _ (q_invoked_skills r1))) in He.
  rewrite (app_assoc _ (flat_map _ (q_invoked_skills r2))) in He.
  apply Hstrs in He as [Hk He]; [|done..].
  apply app_inj_1 in He as [Hv He]; [|done].
  apply replaces_bytes_inj in He; [|done..].
  repeat split; try done. injection Hv. by destruct (q_voice_input_used r1), (q_voice_input_used r2).
Qed.
