(* ===== verification/TurnSpec.v ===== *)
(** * The turn state machine

    The abstract machine the turn operations implement: a [view] is what the
    rest of the program may rely on (the turn rows, the claim and failure
    receipts, the steers and the terminal journal rows) and [vstep] is one
    durable transition of one turn.  [TurnRefine] proves that every
    transaction is such a step or changes nothing here; the theorems of this
    file are about every run of the machine. *)
From S2P Require Import Prelude TurnTables TurnLeases TurnResolve TurnSteers.
From stdpp Require Import gmap.

Open Scope Z_scope.

Record view : Type := MkView {
  v_turns : gmap Z turn; v_claims : gmap Z claim; v_failures : gmap Z failure;
  v_steers : gmap Z steer; v_terminals : list event }.

Definition view_of {W} (d : db W) : view :=
  MkView (d_turns d) (d_claims d) (d_failures d) (d_steers d)
    (List.filter e_terminal (d_events d)).

(** Where a status may go without a new claim. *)
Definition moves : list (string * string) :=
  [("running", "completed"); ("running", "failed"); ("running", "retry_wait");
   ("running", "cancelling"); ("running", "waiting_for_client");
   ("cancelling", "cancelled"); ("cancelling_client", "cancelled");
   ("queued", "cancelled"); ("resuming", "cancelled"); ("retry_wait", "cancelled");
   ("waiting_for_agent_run", "cancelled"); ("waiting_for_agent_run", "resuming");
   ("waiting_for_client", "cancelled"); ("waiting_for_client", "cancelling_client");
   ("waiting_for_client", "resuming");
   ("waiting", "cancelled"); ("waiting", "cancelling_client"); ("waiting", "resuming")].
Definition status_move (a b : string) : bool :=
  String.eqb a b && negb (existsb (String.eqb a) TERMINAL)
  || existsb (fun '(x, y) => String.eqb a x && String.eqb b y) moves.

(** The states a lease may be taken in. *)
Definition claimable : list string := ["queued"; "running"; "resuming"; "retry_wait"].

Definition ended_turn (r : turn) : bool := status_in r TERMINAL.

(** Columns no transition takes back. *)
Record kept (r r' : turn) : Prop := MkKept {
  kept_id : t_id r' = t_id r;
  kept_session : t_session_id r' = t_session_id r;
  kept_max : t_max_attempts r' = t_max_attempts r;
  kept_steps : t_model_steps r <= t_model_steps r';
  kept_usage : covers (t_usage r') (t_usage r) = true;
  kept_revision : t_steer_revision r <= t_steer_revision r' }.

Inductive turn_step (claims : gmap Z claim) (r r' : turn) : gmap Z claim -> Prop :=
| step_claim token c :
    claims !! token = None ->
    (forall k o, claims !! k = Some o -> c_turn_id o = t_id r ->
                 c_claim_count o <> c_claim_count c) ->
    status_in r claimable = true -> t_status r' = "running" ->
    t_lease_token r' = Some token ->
    c_turn_id c = t_id r -> c_claim_count c = t_claim_count r' ->
    c_attempt_count c = t_attempt_count r' ->
    t_claim_count r <= t_claim_count r' ->
    t_attempt_count r <= t_attempt_count r' <= Z.max (t_attempt_count r + 1) 1 ->
    (t_status r = "resuming" -> 1 <= t_attempt_count r -> t_attempt_count r' = t_attempt_count r) ->
    kept r r' ->
    turn_step claims r r' (<[token := c]> claims)
| step_move :
    status_move (t_status r) (t_status r') = true ->
    t_claim_count r' = t_claim_count r -> t_attempt_count r' = t_attempt_count r ->
    (t_lease_token r' = t_lease_token r \/ t_lease_token r' = None) ->
    kept r r' ->
    turn_step claims r r' claims.

Definition pending (s : steer) : bool := String.eqb (s_status s) "pending".

(** What happens to the steers: [over] when the turn ends with the step. *)
Inductive steers_step (r r' : turn) (steers : gmap Z steer) : gmap Z steer -> Prop :=
| steers_same :
    ended_turn r' = false -> steers_step r r' steers steers
| steers_reject at_ :
    steers_step r r' steers
      ((fun s => if rejectable (t_id r) s then reject_steer at_ s else s) <$> steers)
| steers_accept s :
    ended_turn r' = false -> steers !! s_id s = None -> s_turn_id s = t_id r ->
    pending s = true -> rejectable (t_id r) s = true -> t_steer_revision r' = t_steer_revision r ->
    steers_step r r' steers (<[s_id s := s]> steers)
| steers_apply s token now preceding :
    ended_turn r' = false -> steers !! s_id s = Some s -> s_turn_id s = t_id r ->
    pending s = true -> t_steer_revision r' = t_steer_revision r + 1 ->
    t_lease_token r = Some token ->
    steers_step r r' steers (<[s_id s := applied_steer s token now preceding]> steers).

(** The event a turn ends with, by the status it ends in. *)
Definition event_matches (status : string) (e : AgentEvent) : bool :=
  match e with
  | TurnCompleted _ _ | TurnRefused _ _ => String.eqb status "completed"
  | TurnFailed _ _ => String.eqb status "failed"
  | TurnCancelled _ => String.eqb status "cancelled"
  | _ => false
  end.

Definition terminals_step (r' : turn) (l l' : list event) : Prop :=
  if ended_turn r'
  then exists e, l' = l ++ [e] /\ e_turn_id e = Some (t_id r')
         /\ event_matches (t_status r') (e_event e) = true
         /\ Forall (fun o => e_turn_id o <> Some (t_id r')) l
  else l' = l.

Inductive vstep (v v' : view) : Prop :=
| vstep_same : v' = v -> vstep v v'
| vstep_turn r r' :
    v_turns v !! t_id r = Some r ->
    v_turns v' = <[t_id r := r']> (v_turns v) ->
    turn_step (v_claims v) r r' (v_claims v') ->
    row_ok r' = true -> lease_fk (v_claims v') r' = true ->
    v_failures v ⊆ v_failures v' ->
    steers_step r r' (v_steers v) (v_steers v') ->
    terminals_step r' (v_terminals v) (v_terminals v') ->
    vstep v v'
| vstep_new r :
    v_turns v !! t_id r = None ->
    v_turns v' = <[t_id r := r]> (v_turns v) ->
    t_status r = "queued" -> t_claim_count r = 0 -> t_attempt_count r = 0 ->
    t_lease_token r = None -> row_ok r = true ->
    v_claims v' = v_claims v -> v_failures v' = v_failures v ->
    v_steers v' = v_steers v -> v_terminals v' = v_terminals v ->
    vstep v v'.

Definition vrun : view -> view -> Prop := rtc vstep.

(** The tokens a status is read back from: its own, and the two the session
    lane writes. *)
Lemma from_db_inv text s :
  turn_run_status_from_db text = Ok s ->
  text = as_str s \/ text = "waiting" /\ s = WaitingForClient
  \/ text = "interrupted" /\ s = Cancelled.
Proof.
  unfold turn_run_status_from_db.
  repeat match goal with
  | |- context [String.eqb text ?x] =>
      destruct (String.eqb text x) eqn:E; cbn [orb];
      [apply String.eqb_eq in E as ->; intros [= <-];
       first [by left | by right; left | by right; right] | clear E]
  end. done.
Qed.

(** ** Invariants of the machine *)

(** The tables agree: rows under their ids and within their constraints,
    leases under receipts, receipts no later than their turns, one terminal
    row per ended turn and none for a live one, no instruction left pending
    on an ended turn. *)
Record view_ok (v : view) : Prop := MkViewOk {
  ok_ids : forall id r, v_turns v !! id = Some r -> t_id r = id;
  ok_rows : forall id r, v_turns v !! id = Some r -> row_ok r = true;
  ok_leases : forall id r, v_turns v !! id = Some r -> lease_fk (v_claims v) r = true;
  ok_claims : forall token c r, v_claims v !! token = Some c ->
    v_turns v !! c_turn_id c = Some r -> c_claim_count c <= t_claim_count r;
  ok_segments : forall t1 t2 c1 c2, v_claims v !! t1 = Some c1 -> v_claims v !! t2 = Some c2 ->
    c_turn_id c1 = c_turn_id c2 -> c_claim_count c1 = c_claim_count c2 -> t1 = t2;
  ok_terminal : forall id r, v_turns v !! id = Some r ->
    length (List.filter (fun e => bool_decide (e_turn_id e = Some id)) (v_terminals v))
      = (if ended_turn r then 1 else 0)%nat;
  ok_outcome : forall id r e, v_turns v !! id = Some r -> e ∈ v_terminals v ->
    e_turn_id e = Some id -> ended_turn r = true -> event_matches (t_status r) (e_event e) = true;
  ok_steer_ids : forall id s, v_steers v !! id = Some s -> s_id s = id;
  ok_pending : forall id s, v_steers v !! id = Some s -> pending s = true ->
    rejectable (s_turn_id s) s = true;
  ok_quiet : forall id s r, v_steers v !! id = Some s -> pending s = true ->
    v_turns v !! s_turn_id s = Some r -> ended_turn r = false;
  ok_refs :
    map_Forall (fun _ c => is_Some (v_turns v !! c_turn_id c)) (v_claims v) /\
    map_Forall (fun _ s => is_Some (v_turns v !! s_turn_id s)) (v_steers v) /\
    Forall (fun e => forall id, e_turn_id e = Some id -> is_Some (v_turns v !! id)) (v_terminals v) }.

Lemma status_in_elem r l : status_in r l = true <-> t_status r ∈ l.
Proof.
  unfold status_in. rewrite existsb_true. setoid_rewrite String.eqb_eq.
  split; [by intros (x & Hx & ->) | by exists (t_status r)].
Qed.

Lemma same_some_iff a b : same_some a (Some b) = true <-> a = Some b.
Proof. destruct a; cbn; rewrite ?Z.eqb_eq; split; congruence. Qed.

Lemma str_in_elem x l : existsb (String.eqb x) l = true <-> x ∈ l.
Proof.
  rewrite existsb_true. setoid_rewrite String.eqb_eq.
  split; [by intros (y & Hy & ->) | by exists x].
Qed.

Lemma moves_live : Forall (fun p => existsb (String.eqb p.1) TERMINAL = false) moves.
Proof. repeat constructor. Qed.
Lemma claimable_live : Forall (fun x => existsb (String.eqb x) TERMINAL = false) claimable.
Proof. repeat constructor. Qed.

(** A terminal status is left by no move. *)
Lemma ended_stays a b : status_move a b = true -> existsb (String.eqb a) TERMINAL = false.
Proof.
  unfold status_move. rewrite orb_true_iff, andb_true_iff, negb_true_iff. intros [[_ H]|H]; [done|].
  apply existsb_true in H as ([x y] & Hin & Hxy). apply andb_true_iff in Hxy as [Hx _].
  apply String.eqb_eq in Hx as ->. pose proof moves_live as Hall. rewrite Forall_forall in Hall.
  exact (Hall _ Hin).
Qed.

Lemma step_from_live claims r r' claims' :
  turn_step claims r r' claims' -> ended_turn r = false.
Proof.
  intros [???? Hc | Hm].
  - apply status_in_elem in Hc. pose proof claimable_live as Hall. rewrite Forall_forall in Hall.
    exact (Hall _ Hc).
  - exact (ended_stays _ _ Hm).
Qed.

Lemma step_kept claims r r' claims' : turn_step claims r r' claims' -> kept r r'.
Proof. by intros []. Qed.

Lemma step_counts claims r r' claims' :
  turn_step claims r r' claims' ->
  t_claim_count r <= t_claim_count r' /\ t_attempt_count r <= t_attempt_count r'.
Proof. intros []; lia. Qed.

Lemma step_claims claims r r' claims' : turn_step claims r r' claims' -> claims ⊆ claims'.
Proof. intros []; [by apply insert_subseteq | done]. Qed.

(** *** A step keeps the tables well formed *)

Section Preserve.
Context (v v' : view) (r r' : turn).
Hypothesis Hok : view_ok v.
Hypothesis Hr : v_turns v !! t_id r = Some r.
Hypothesis Hturns : v_turns v' = <[t_id r := r']> (v_turns v).
Hypothesis Hstep : turn_step (v_claims v) r r' (v_claims v').

Lemma step_id : t_id r' = t_id r.
Proof. by destruct (step_kept _ _ _ _ Hstep). Qed.

Lemma turns_after id x :
  v_turns v' !! id = Some x ->
  id = t_id r /\ x = r' \/ id <> t_id r /\ v_turns v !! id = Some x.
Proof.
  rewrite Hturns. destruct (decide (t_id r = id)) as [->|Hn].
  - rewrite lookup_insert_eq. intros [= <-]. auto.
  - rewrite lookup_insert_ne by done. auto.
Qed.

Lemma claims_ok_after token c x :
  v_claims v' !! token = Some c -> v_turns v' !! c_turn_id c = Some x ->
  c_claim_count c <= t_claim_count x.
Proof.
  pose proof (step_counts _ _ _ _ Hstep) as [Hcc _].
  intros Hc Hx. destruct (turns_after _ _ Hx) as [[Ht ->]|[Ht Hx']].
  - assert (v_turns v !! c_turn_id c = Some r) as Hold by (by rewrite Ht).
    destruct Hstep as [tk c0 ? ? ? ? ? Hci Hcn Heq|]; [|by pose proof (ok_claims v Hok _ _ _ Hc Hold); lia].
    destruct (decide (tk = token)) as [->|Hne].
    + rewrite lookup_insert_eq in Hc. injection Hc as <-. lia.
    + rewrite lookup_insert_ne in Hc by done. pose proof (ok_claims v Hok _ _ _ Hc Hold). lia.
  - destruct Hstep as [tk c0 ? ? ? ? ? Hci|]; [|by apply (ok_claims v Hok token)].
    destruct (decide (tk = token)) as [->|Hne].
    + rewrite lookup_insert_eq in Hc. injection Hc as <-. congruence.
    + rewrite lookup_insert_ne in Hc by done. by apply (ok_claims v Hok token).
Qed.

Lemma segments_after t1 t2 c1 c2 :
  v_claims v' !! t1 = Some c1 -> v_claims v' !! t2 = Some c2 ->
  c_turn_id c1 = c_turn_id c2 -> c_claim_count c1 = c_claim_count c2 -> t1 = t2.
Proof.
  destruct Hstep as [tk c0 Hfresh Hseg ? ? ? Hci|]; [|by apply (ok_segments v Hok)].
  rewrite !lookup_insert_Some. intros [[<- <-]|[Ht1 Hc1]] [[<- <-]|[Ht2 Hc2]] Hid Hn.
  - done.
  - exfalso. apply (Hseg _ _ Hc2); congruence.
  - exfalso. apply (Hseg _ _ Hc1); congruence.
  - by apply (ok_segments v Hok _ _ _ _ Hc1 Hc2).
Qed.

Lemma terminals_after :
  terminals_step r' (v_terminals v) (v_terminals v') ->
  forall id x, v_turns v' !! id = Some x ->
  length (List.filter (fun e => bool_decide (e_turn_id e = Some id)) (v_terminals v'))
    = (if ended_turn x then 1 else 0)%nat.
Proof.
  pose proof (step_from_live _ _ _ _ Hstep) as Hlive. pose proof step_id as Hid.
  intros Ht id x Hx. unfold terminals_step in Ht.
  assert (Hprev := ok_terminal v Hok _ _ Hr). rewrite Hlive in Hprev.
  destruct (turns_after _ _ Hx) as [[-> ->]|[Hne Hx']].
  - destruct (ended_turn r').
    + destruct Ht as (e & -> & He & _). rewrite List.filter_app, length_app, Hprev. cbn.
      rewrite He, Hid, bool_decide_eq_true_2 by done. done.
    + by rewrite Ht, Hprev.
  - rewrite <- (ok_terminal v Hok _ _ Hx'). destruct (ended_turn r').
    + destruct Ht as (e & -> & He & _). rewrite List.filter_app, length_app. cbn.
      rewrite He, Hid, bool_decide_eq_false_2 by congruence. cbn. lia.
    + by rewrite Ht.
Qed.

Lemma outcomes_after :
  terminals_step r' (v_terminals v) (v_terminals v') ->
  forall id x e, v_turns v' !! id = Some x -> e ∈ v_terminals v' -> e_turn_id e = Some id ->
  ended_turn x = true -> event_matches (t_status x) (e_event e) = true.
Proof.
  pose proof step_id as Hid. intros Ht id x e Hx He Heid Hend. unfold terminals_step in Ht.
  destruct (turns_after _ _ Hx) as [[-> ->]|[Hne Hx']].
  - rewrite Hend in Ht. destruct Ht as (e' & Hl & Hid' & Hm & Hnone). rewrite Hl in He.
    apply elem_of_app in He as [He|He].
    + rewrite Forall_forall in Hnone. specialize (Hnone _ He). congruence.
    + apply list_elem_of_singleton in He as ->. done.
  - destruct (ended_turn r').
    + destruct Ht as (e' & Hl & Hid' & Hm & Hnone). rewrite Hl in He.
      apply elem_of_app in He as [He|He]; [by apply (ok_outcome v Hok id)|].
      apply list_elem_of_singleton in He as ->. congruence.
    + rewrite Ht in He. by apply (ok_outcome v Hok id).
Qed.

Lemma steers_after :
  steers_step r r' (v_steers v) (v_steers v') ->
  (forall id s, v_steers v' !! id = Some s -> s_id s = id) /\
  (forall id s, v_steers v' !! id = Some s -> pending s = true ->
    rejectable (s_turn_id s) s = true /\
    (forall x, v_turns v' !! s_turn_id s = Some x -> ended_turn x = false)).
Proof.
  intros Hs.
  assert (Hold : forall id s, v_steers v !! id = Some s -> pending s = true ->
    (s_turn_id s = t_id r -> ended_turn r' = false) ->
    rejectable (s_turn_id s) s = true /\
    (forall x, v_turns v' !! s_turn_id s = Some x -> ended_turn x = false)).
  { intros id s Hl Hp Hlive. split; [by apply (ok_pending v Hok id)|].
    intros x Hx. destruct (turns_after _ _ Hx) as [[Ht ->]|[_ Hx']]; [by apply Hlive|].
    by apply (ok_quiet v Hok id s). }
  destruct Hs as [Hlive | at_ | s0 Hlive Hnew Hs0 Hp0 Hr0 _ | s0 tk now pre Hlive Hin Hs0 Hp0 _ _].
  - split; [apply (ok_steer_ids v Hok)|]. intros id s Hl Hp. by eapply Hold.
  - split; intros id s; rewrite lookup_fmap_Some; intros (s1 & Hs1 & Hl).
    + pose proof (ok_steer_ids v Hok _ _ Hl). destruct (rejectable _ s1); by subst s.
    + intros Hp. destruct (rejectable (t_id r) s1) eqn:E; subst s; [done|].
      apply (Hold id); [done..|]. intros Ht. exfalso.
      pose proof (ok_pending v Hok _ _ Hl Hp) as Hrej. congruence.
  - split; intros id s; rewrite lookup_insert_Some; intros [[<- <-]|[Hne Hl]].
    + done.
    + by apply (ok_steer_ids v Hok).
    + intros _. split; [by rewrite Hs0|]. intros x Hx.
      destruct (turns_after _ _ Hx) as [[Ht ->]|[Hn _]]; [done | congruence].
    + intros Hp. by eapply Hold.
  - split; intros id s; rewrite lookup_insert_Some; intros [[<- <-]|[Hne Hl]].
    + done.
    + by apply (ok_steer_ids v Hok).
    + intros [=].
    + intros Hp. by eapply Hold.
Qed.

Lemma leases_after :
  lease_fk (v_claims v') r' = true ->
  forall id x, v_turns v' !! id = Some x -> lease_fk (v_claims v') x = true.
Proof.
  intros Hfk id x Hx. destruct (turns_after _ _ Hx) as [[-> ->]|[_ Hx']]; [done|].
  pose proof (ok_leases v Hok _ _ Hx') as Hl. revert Hl. unfold lease_fk.
  destruct (t_lease_token x) as [tk|]; [|done].
  destruct (v_claims v !! tk) as [c|] eqn:Hc; [|done].
  by rewrite (lookup_weaken _ _ _ _ Hc (step_claims _ _ _ _ Hstep)).
Qed.

Lemma turns_stay id : is_Some (v_turns v !! id) -> is_Some (v_turns v' !! id).
Proof.
  rewrite Hturns. destruct (decide (t_id r = id)) as [->|Hn];
    [rewrite lookup_insert_eq; eauto | by rewrite lookup_insert_ne].
Qed.

Lemma refs_after :
  steers_step r r' (v_steers v) (v_steers v') ->
  terminals_step r' (v_terminals v) (v_terminals v') ->
  map_Forall (fun _ c => is_Some (v_turns v' !! c_turn_id c)) (v_claims v') /\
  map_Forall (fun _ s => is_Some (v_turns v' !! s_turn_id s)) (v_steers v') /\
  Forall (fun e => forall id, e_turn_id e = Some id -> is_Some (v_turns v' !! id)) (v_terminals v').
Proof.
  destruct (ok_refs v Hok) as (Hc & Hs & Ht). intros Hsteers Hterm.
  assert (Hself : is_Some (v_turns v' !! t_id r)) by (apply turns_stay; eauto).
  split_and!.
  - intros token c Hl. destruct Hstep as [tk c0 ? ? ? ? ? Hci|]; [|apply turns_stay; by eapply Hc].
    rewrite lookup_insert_Some in Hl. destruct Hl as [[_ <-]|[_ Hl]];
      [by rewrite Hci | apply turns_stay; by eapply Hc].
  - intros id s Hl. destruct Hsteers as [? | at_ | s0 ? ? Hs0 | s0 tk now pre ? Hin Hs0].
    + apply turns_stay. by eapply Hs.
    + rewrite lookup_fmap_Some in Hl. destruct Hl as (s1 & Hs1 & Hl).
      pose proof (Hs _ _ Hl). apply turns_stay. destruct (rejectable _ s1); by subst s.
    + rewrite lookup_insert_Some in Hl. destruct Hl as [[_ <-]|[_ Hl]];
        [by rewrite Hs0 | apply turns_stay; by eapply Hs].
    + rewrite lookup_insert_Some in Hl. destruct Hl as [[_ <-]|[_ Hl]];
        [cbn; by rewrite Hs0 | apply turns_stay; by eapply Hs].
  - assert (Hall : Forall (fun e => forall id, e_turn_id e = Some id -> is_Some (v_turns v' !! id))
                    (v_terminals v)).
    { eapply Forall_impl; [exact Ht|]. intros e He id Hid. apply turns_stay. by apply He. }
    unfold terminals_step in Hterm. destruct (ended_turn r'); [|by rewrite Hterm].
    destruct Hterm as (e & -> & He & _). apply Forall_app. split; [done|].
    apply Forall_singleton. intros id Hid. rewrite He, step_id in Hid. by injection Hid as <-.
Qed.
End Preserve.

(** A new turn is quiet: nothing refers to it yet. *)
Lemma new_ok v v' r :
  view_ok v -> v_turns v !! t_id r = None -> v_turns v' = <[t_id r := r]> (v_turns v) ->
  t_status r = "queued" -> t_claim_count r = 0 -> t_lease_token r = None -> row_ok r = true ->
  v_claims v' = v_claims v -> v_steers v' = v_steers v -> v_terminals v' = v_terminals v ->
  view_ok v'.
Proof.
  intros Hok Hnew Ht Hq Hcc Hlt Hrow Hc Hs Hterm.
  destruct (ok_refs v Hok) as (Rc & Rs & Rt).
  assert (Hlive : ended_turn r = false) by (by unfold ended_turn, status_in; rewrite Hq).
  assert (Hafter : forall id x, v_turns v' !! id = Some x ->
            id = t_id r /\ x = r \/ id <> t_id r /\ v_turns v !! id = Some x).
  { intros id x. rewrite Ht, lookup_insert_Some. intros [[<- <-]|[? ?]]; auto. }
  assert (Hmono : forall id, is_Some (v_turns v !! id) -> is_Some (v_turns v' !! id)).
  { intros id [x Hx]. rewrite Ht. destruct (decide (t_id r = id)) as [->|?];
      [rewrite lookup_insert_eq; eauto | rewrite lookup_insert_ne by done; eauto]. }
  constructor; rewrite ?Hc, ?Hs, ?Hterm.
  - intros id x Hx. destruct (Hafter _ _ Hx) as [[-> ->]|[_ Hx']]; [done | by apply (ok_ids v Hok)].
  - intros id x Hx. destruct (Hafter _ _ Hx) as [[-> ->]|[_ Hx']]; [done | by apply (ok_rows v Hok id)].
  - intros id x Hx. destruct (Hafter _ _ Hx) as [[-> ->]|[_ Hx']].
    + unfold lease_fk. by rewrite Hlt.
    + by apply (ok_leases v Hok id).
  - intros token c x Hl Hx. destruct (Hafter _ _ Hx) as [[Hid ->]|[_ Hx']].
    + destruct (Rc _ _ Hl) as [y Hy]. congruence.
    + by apply (ok_claims v Hok token).
  - apply (ok_segments v Hok).
  - intros id x Hx. destruct (Hafter _ _ Hx) as [[-> ->]|[_ Hx']]; [|by apply (ok_terminal v Hok)].
    rewrite Hlive. destruct (List.filter _ _) as [|e l] eqn:E; [done|].
    assert (He : e ∈ e :: l) by left. rewrite <- E in He. apply list_elem_of_In, filter_In in He as [He Hb].
    apply bool_decide_eq_true in Hb. rewrite Forall_forall in Rt.
    destruct (Rt _ (proj2 (list_elem_of_In _ _) He) _ Hb). congruence.
  - intros id x e Hx He Hid Hend. destruct (Hafter _ _ Hx) as [[-> ->]|[_ Hx']];
      [congruence | by apply (ok_outcome v Hok id)].
  - apply (ok_steer_ids v Hok).
  - apply (ok_pending v Hok).
  - intros id s x Hl Hp Hx. destruct (Hafter _ _ Hx) as [[Hid ->]|[_ Hx']];
      [done | by apply (ok_quiet v Hok id s)].
  - split_and!.
    + intros k c Hl. apply Hmono. by eapply Rc.
    + intros k s Hl. apply Hmono. by eapply Rs.
    + eapply Forall_impl; [exact Rt|]. intros e He id Hid. apply Hmono. by apply He.
Qed.

Lemma vstep_ok v v' : vstep v v' -> view_ok v -> view_ok v'.
Proof.
  intros [->|r r' Hr Ht Hstep Hrow Hfk _ Hs Hterm|r ? ? ? ? ? ? ? ? _ ? ?] Hok;
    [done| |by eapply new_ok].
  pose proof (steers_after v v' r r' Hok Ht Hs) as [Hsid Hpend].
  pose proof (step_id _ _ _ _ Hstep) as Hid.
  constructor.
  - intros id x Hx. destruct (turns_after _ _ _ _ Ht _ _ Hx) as [[-> ->]|[_ Hx']]; [done|].
    by apply (ok_ids v Hok).
  - intros id x Hx. destruct (turns_after _ _ _ _ Ht _ _ Hx) as [[-> ->]|[_ Hx']]; [done|].
    by apply (ok_rows v Hok id).
  - by eapply leases_after.
  - by eapply claims_ok_after.
  - by eapply segments_after.
  - by eapply terminals_after.
  - by eapply outcomes_after.
  - done.
  - intros id s Hl Hp. by apply (Hpend id).
  - intros id s x Hl Hp. by apply (Hpend id).
  - by eapply refs_after.
Qed.
