(* ===== verification/TurnRefine.v ===== *)
(** * The turn operations refine the turn state machine

    Each transaction of [TurnLeases], [TurnResolve], [TurnCancel], [TurnParks]
    and [TurnSteers] is one [vstep] of [TurnSpec] on the view of the database,
    or leaves the view alone.  The proofs run a transaction symbolically from
    a known view: a call that cannot touch the view is skipped by the [Keeps]
    class, and the statements that write it have a rule each. *)
From S2P Require Import Prelude RustStr TurnTables TurnLeases TurnResolve TurnCancel TurnParks.
From S2P Require Import TurnSteers TurnSpec.
From stdpp Require Import gmap.

Open Scope Z_scope.

Section Refine.
Context {W C : Type} `{P : TurnPeers W C}.

Definition sees (v : view) (s : db W) : Prop := view_of s = v.

(** From a database with view [v], [m] ends in [Q] or does not commit. *)
Definition runs {R A} (v : view) (m : txn W R A) (Q : A -> view -> Prop) : Prop :=
  triple (sees v) m (fun a s => Q a (view_of s)) (fun _ => True).

(** A call that leaves the view alone. *)
Class Keeps {R A} (m : txn W R A) : Prop :=
  keeps : forall v, runs v m (fun _ v' => v' = v).

Lemma txn_runs_ret {R A} v (a : A) (Q : A -> view -> Prop) : Q a v -> runs v (mret a : txn W R A) Q.
Proof. intros H s <-. exact H. Qed.

Lemma txn_runs_fail {R A} v (e : abort R) (Q : A -> view -> Prop) : runs v (fail e : txn W R A) Q.
Proof. by intros s _. Qed.

Lemma txn_runs_bind {R A B} v (m : txn W R A) (k : A -> txn W R B) Q' Q :
  runs v m Q' -> (forall a v', Q' a v' -> runs v' (k a) Q) -> runs v (m ≫= k) Q.
Proof.
  intros Hm Hk s Hs. specialize (Hm s Hs). unfold mbind, stm_bind.
  destruct (m s) as [[a s']|e]; [|done]. exact (Hk a _ Hm s' eq_refl).
Qed.

Lemma runs_keep {R A B} v (m : txn W R A) (k : A -> txn W R B) Q :
  Keeps m -> (forall a, runs v (k a) Q) -> runs v (m ≫= k) Q.
Proof. intros Hm Hk. eapply txn_runs_bind; [apply Hm|]. by intros a v' ->. Qed.

Lemma txn_runs_conseq {R A} v (m : txn W R A) (Q Q' : A -> view -> Prop) :
  runs v m Q -> (forall a v', Q a v' -> Q' a v') -> runs v m Q'.
Proof.
  intros Hm HQ s Hs. specialize (Hm s Hs). destruct (m s) as [[a s']|e]; auto.
Qed.

Lemma runs_err_bind {R A B} v (e : abort R) (k : A -> txn W R B) Q :
  runs v (fail e ≫= k) Q.
Proof. by intros s _. Qed.

Lemma runs_assoc {R A1 A2 B} v (m : txn W R A1) (k1 : A1 -> txn W R A2) (k : A2 -> txn W R B) Q :
  runs v (m ≫= fun a => k1 a ≫= k) Q -> runs v ((m ≫= k1) ≫= k) Q.
Proof.
  intros H s Hs. specialize (H s Hs). unfold mbind, stm_bind in *.
  by destruct (m s) as [[a s']|].
Qed.

Lemma runs_get {R B} v (k : db W -> txn W R B) Q :
  (forall d, view_of d = v -> runs v (k d) Q) -> runs v (get ≫= k) Q.
Proof. intros Hk s <-. exact (Hk s eq_refl s eq_refl). Qed.

(** *** Calls that leave the view alone *)

#[export] Instance keeps_ret {R A} (a : A) : Keeps (mret a : txn W R A).
Proof. intros v. by apply txn_runs_ret. Qed.
#[export] Instance keeps_fail {R A} (e : abort R) : Keeps (fail e : txn W R A).
Proof. intros v. apply txn_runs_fail. Qed.
#[export] Instance keeps_err {R A} m : Keeps (err m : txn W R A).
Proof. intros v. apply txn_runs_fail. Qed.
#[export] Instance keeps_rollback {R A} a : Keeps (rollback a : txn W R A).
Proof. intros v. apply txn_runs_fail. Qed.
#[export] Instance keeps_try {R A} (r : result AgentError A) : Keeps (try r : txn W R A).
Proof. intros v. destruct r; [by apply txn_runs_ret | apply txn_runs_fail]. Qed.
#[export] Instance keeps_bind {R A B} (m : txn W R A) (k : A -> txn W R B) :
  Keeps m -> (forall a, Keeps (k a)) -> Keeps (m ≫= k).
Proof. intros Hm Hk v. apply runs_keep; [done|]. intros a. apply Hk. Qed.
#[export] Instance keeps_get {R} : Keeps (get : txn W R (db W)).
Proof. intros v s <-. done. Qed.
Lemma keeps_modify {R} (f : db W -> db W) :
  (forall d, view_of (f d) = view_of d) -> Keeps (modify f : txn W R unit).
Proof. intros Hf v s <-. apply Hf. Qed.

End Refine.

#[export] Hint Extern 0 (Keeps (modify _)) =>
  (apply keeps_modify; intros ?; reflexivity) : typeclass_instances.
#[export] Hint Extern 5 (Keeps (if ?b then _ else _)) => destruct b : typeclass_instances.
#[export] Hint Extern 5 (Keeps (match ?x with _ => _ end)) => destruct x : typeclass_instances.

(** Prove that a transaction built from such calls is one. *)
Ltac keep_all :=
  repeat (intros; first [apply _ |
    match goal with
    | |- Keeps (_ ≫= _) => apply keeps_bind
    | |- Keeps (match _ with _ => _ end) => case_match
    end]).

Section Statements.
Context {W C : Type} `{P : TurnPeers W C}.

#[export] Instance keeps_peer {R A} (f : W -> result AgentError (A * W)) : Keeps (peer f : txn W R A).
Proof. unfold peer. keep_all. Qed.
#[export] Instance keeps_peer_ {R} (f : W -> result AgentError W) : Keeps (peer_ f : txn W R unit).
Proof. apply _. Qed.
#[export] Instance keeps_find_turn {R} id : Keeps (find_turn id : txn W R _).
Proof. unfold find_turn. keep_all. Qed.
#[export] Instance keeps_claim_of {R} t id : Keeps (claim_of t id : txn W R _).
Proof. unfold claim_of. keep_all. Qed.
#[export] Instance keeps_chat_lock {R} id : Keeps (acquire_chat_write_lock id : txn W R _).
Proof. unfold acquire_chat_write_lock. keep_all. Qed.
#[export] Instance keeps_next_event_seq {R} id : Keeps (next_event_seq id : txn W R _).
Proof. unfold next_event_seq. keep_all. Qed.
#[export] Instance keeps_reserve {R} a b c o :
  Keeps (reserve_message_identity_on a b c o : txn W R _).
Proof. unfold reserve_message_identity_on. keep_all. Qed.
#[export] Instance keeps_transfer {R} a b c :
  Keeps (transfer_steer_message_identity_on a b c : txn W R _).
Proof. unfold transfer_steer_message_identity_on. keep_all. Qed.
#[export] Instance keeps_next_message_seq {R} c : Keeps (next_message_seq_on c : txn W R _).
Proof. unfold next_message_seq_on. keep_all. Qed.
#[export] Instance keeps_insert_message {R} id m : Keeps (insert_message id m : txn W R _).
Proof. unfold insert_message. keep_all. Qed.
#[export] Instance keeps_usage {R} r : Keeps (usage_from_turn_model r : txn W R _).
Proof. unfold usage_from_turn_model. keep_all. Qed.
#[export] Instance keeps_run_model {R} r : Keeps (turn_run_from_model r : txn W R _).
Proof. unfold turn_run_from_model. keep_all. Qed.

(** A journal row that ends no turn is not in the view. *)
Lemma keeps_insert_event {R} e : e_terminal e = false -> Keeps (insert_event e : txn W R _).
Proof.
  intros He v s <-. unfold insert_event, mbind, stm_bind, get. cbn. destruct (existsb _ _); [exact I|].
  unfold view_of. cbn. rewrite List.filter_app. cbn. rewrite He. by rewrite app_nil_r.
Qed.
Lemma keeps_insert_event_row {R} chat seq t l o sc ev :
  is_some t && is_terminal_event ev = false ->
  Keeps (insert_event_row chat seq t l o sc ev : txn W R _).
Proof.
  intros He. unfold insert_event_row. apply keeps_bind; [apply _|]. intros d.
  case_match; [|apply _]. rewrite He. apply keeps_bind; [by apply keeps_insert_event | apply _].
Qed.
Lemma keeps_append_event {R} chat t l o sc ev :
  is_some t && is_terminal_event ev = false ->
  Keeps (append_event_on chat t l o sc ev : txn W R _).
Proof.
  intros He. unfold append_event_on. keep_all. by apply keeps_insert_event_row.
Qed.
#[export] Instance keeps_append_locked {R} o s e :
  Keeps (append_event_on_locked o s e : txn W R _).
Proof. unfold append_event_on_locked. keep_all. by apply keeps_insert_event. Qed.

(** Start a statement from the database [s] it runs on. *)
Ltac enter s :=
  let Hs := fresh in
  intros s Hs; unfold sees in Hs; subst;
  unfold mbind, stm_bind, get, mret, stm_ret, err, modify, fail; cbn.

(** *** Statements that write the view *)

Definition with_turn (r : turn) (v : view) : view :=
  MkView (<[t_id r := r]> (v_turns v)) (v_claims v) (v_failures v) (v_steers v) (v_terminals v).
Definition with_claim (token : Z) (c : claim) (v : view) : view :=
  MkView (v_turns v) (<[token := c]> (v_claims v)) (v_failures v) (v_steers v) (v_terminals v).
Definition with_failure (token : Z) (f : failure) (v : view) : view :=
  MkView (v_turns v) (v_claims v) (<[token := f]> (v_failures v)) (v_steers v) (v_terminals v).
Definition with_rejected (id at_ : Z) (v : view) : view :=
  MkView (v_turns v) (v_claims v) (v_failures v)
    ((fun s => if rejectable id s then reject_steer at_ s else s) <$> v_steers v) (v_terminals v).
Definition with_steer (s : steer) (v : view) : view :=
  MkView (v_turns v) (v_claims v) (v_failures v) (<[s_id s := s]> (v_steers v)) (v_terminals v).
Definition with_terminal (e : event) (v : view) : view :=
  MkView (v_turns v) (v_claims v) (v_failures v) (v_steers v) (v_terminals v ++ [e]).

Lemma runs_find_turn {R B} v id (k : option turn -> txn W R B) Q :
  runs v (k (v_turns v !! id)) Q -> runs v (find_turn id ≫= k) Q.
Proof. intros Hk. unfold find_turn. enter s. exact (Hk s eq_refl). Qed.

Lemma runs_claim_of {R B} v token id (k : option claim -> txn W R B) Q :
  (forall c, v_claims v !! token = Some c -> c_turn_id c = id -> runs v (k (Some c)) Q) ->
  runs v (k None) Q -> runs v (claim_of token id ≫= k) Q.
Proof.
  intros Hs Hn. unfold claim_of. enter s.
  destruct (d_claims s !! token) as [c|] eqn:Hc; [|exact (Hn s eq_refl)].
  destruct (c_turn_id c =? id) eqn:Hi; [|exact (Hn s eq_refl)].
  apply Z.eqb_eq in Hi. exact (Hs c Hc Hi s eq_refl).
Qed.

Lemma runs_update {R B} v id f g (k : Z -> txn W R B) Q :
  (forall r, v_turns v !! id = Some r -> f r = true -> row_ok (g r) = true ->
     lease_fk (v_claims v) (g r) = true -> runs (with_turn (g r) v) (k 1) Q) ->
  runs v (k 0) Q -> runs v (update_turn id f g ≫= k) Q.
Proof.
  intros H1 H0. unfold update_turn. enter s.
  destruct (d_turns s !! id) as [r|] eqn:Hr; [|exact (H0 s eq_refl)].
  destruct (f r) eqn:Hf; [|exact (H0 s eq_refl)].
  unfold put_turn, mbind, stm_bind, get, mret, stm_ret, err, modify, fail. cbn.
  destruct (row_ok (g r)) eqn:Hrow, (lease_fk (d_claims s) (g r)) eqn:Hfk,
    (one_active s (g r)); cbn; try done.
  exact (H1 r Hr Hf Hrow Hfk (with_turns _ s) eq_refl).
Qed.

Lemma segment_taken_false (d : db W) id n :
  segment_taken d id n = false <->
  forall k o, d_claims d !! k = Some o -> c_turn_id o = id -> c_claim_count o <> n.
Proof.
  unfold segment_taken. rewrite existsb_false, Forall_forall. split.
  - intros H k o Ho Hi Hn. apply elem_of_map_to_list in Ho.
    specialize (H _ Ho). cbn in H. rewrite Hi, Hn, !Z.eqb_refl in H. done.
  - intros H [k o] Ho. apply elem_of_map_to_list in Ho. cbn.
    destruct (c_turn_id o =? id) eqn:E1; [|done]. destruct (c_claim_count o =? n) eqn:E2; [|done].
    apply Z.eqb_eq in E1, E2. by destruct (H _ _ Ho E1).
Qed.

Lemma runs_insert_claim {R B} v token c (k : bool -> txn W R B) Q :
  (v_claims v !! token = None ->
   (forall t o, v_claims v !! t = Some o -> c_turn_id o = c_turn_id c ->
                c_claim_count o <> c_claim_count c) ->
   runs (with_claim token c v) (k true) Q) ->
  runs v (k false) Q -> runs v (insert_claim token c ≫= k) Q.
Proof.
  intros H1 H0. unfold insert_claim. enter s.
  destruct (claim_row_ok c); cbn; [|done].
  destruct (d_claims s !! token) eqn:Hc; cbn; [exact (H0 s eq_refl)|].
  destruct (segment_taken s _ _) eqn:Hseg; [exact (H0 s eq_refl)|].
  rewrite segment_taken_false in Hseg. exact (H1 Hc Hseg (with_claims _ s) eq_refl).
Qed.

Lemma runs_reject {R B} v id at_ (k : unit -> txn W R B) Q :
  runs (with_rejected id at_ v) (k tt) Q ->
  runs v (reject_pending_turn_steers_on id at_ ≫= k) Q.
Proof.
  intros Hk. unfold reject_pending_turn_steers_on. enter s.
  destruct (forallb _ _); [|done]. exact (Hk (with_steers _ s) eq_refl).
Qed.

Lemma runs_insert_failure {R B} v token f (k : unit -> txn W R B) Q :
  (v_failures v !! token = None -> runs (with_failure token f v) (k tt) Q) ->
  runs v (insert_failure token f ≫= k) Q.
Proof.
  intros Hk. unfold insert_failure. enter s.
  destruct (d_failures s !! token) eqn:Hf; cbn; [done|].
  exact (Hk Hf (with_failures _ s) eq_refl).
Qed.

Lemma runs_put_steer {R B} v st (k : unit -> txn W R B) Q :
  runs (with_steer st v) (k tt) Q -> runs v (put_steer st ≫= k) Q.
Proof. intros Hk. unfold put_steer. enter s. exact (Hk (with_steers _ s) eq_refl). Qed.

(** The terminal row of a turn that had none. *)
Lemma runs_append_terminal {R B} v chat id l o sc ev (k : Z -> txn W R B) Q :
  is_terminal_event ev = true ->
  (forall seq e, e_turn_id e = Some id -> e_event e = ev ->
     Forall (fun x => e_turn_id x <> Some id) (v_terminals v) ->
     runs (with_terminal e v) (k seq) Q) ->
  runs v (append_event_on chat (Some id) l o sc ev ≫= k) Q.
Proof.
  intros Hev Hk. unfold append_event_on.
  apply runs_assoc. apply runs_keep; [apply _|]. intros seq. unfold insert_event_row. enter s.
  destruct (d_sessions s !! chat) as [n|]; [|done]. rewrite Hev. cbn.
  unfold insert_event, mbind, stm_bind, get, err, fail, modify. cbn.
  destruct (existsb _ (d_events s)) eqn:Hclash; [done|]. cbn.
  unfold peer_, peer, mbind, stm_bind, result_bind, get, modify, mret, stm_ret, result_ret, try. cbn.
  destruct (record_finished_turn_on (d_peers s) chat) as [w|]; [|done]. cbn.
  set (e := MkEvent chat seq (n_owner n) ev (Some id) l o sc true).
  apply (Hk seq e eq_refl eq_refl).
  - rewrite existsb_false, Forall_forall in Hclash. rewrite Forall_forall. intros x Hx Hid.
    cbn in Hx. apply list_elem_of_In, filter_In in Hx as [Hx Hterm].
    specialize (Hclash x (proj2 (list_elem_of_In _ _) Hx)). unfold event_clash in Hclash. cbn in Hclash.
    rewrite Hterm, Hid in Hclash. cbn in Hclash. rewrite Z.eqb_refl in Hclash.
    by rewrite !orb_true_r in Hclash.
  - unfold sees, view_of, with_terminal. cbn. by rewrite List.filter_app.
Qed.
End Statements.

#[export] Hint Extern 1 (Keeps (append_event_on _ _ _ _ _ _)) =>
  (apply keeps_append_event; reflexivity) : typeclass_instances.

(** ** Running a transaction symbolically *)

Ltac run_step :=
  cbv zeta beta;
  match goal with
  | |- runs _ (mret _) _ => apply txn_runs_ret
  | |- runs _ (fail _) _ => apply txn_runs_fail
  | |- runs _ (err _) _ => apply txn_runs_fail
  | |- runs _ (rollback _) _ => apply txn_runs_fail
  | |- runs _ (find_turn _ ≫= _) _ => apply runs_find_turn
  | |- runs _ (claim_of _ _ ≫= _) _ => apply runs_claim_of; [intros ? ? ?|]
  | |- runs _ (update_turn _ _ _ ≫= _) _ => apply runs_update; [intros ? ? ? ? ?|]
  | |- runs _ (insert_claim _ _ ≫= _) _ => apply runs_insert_claim; [intros ? ?|]
  | |- runs _ (reject_pending_turn_steers_on _ _ ≫= _) _ => apply runs_reject
  | |- runs _ (insert_failure _ _ ≫= _) _ => apply runs_insert_failure; intros ?
  | |- runs _ (put_steer _ ≫= _) _ => apply runs_put_steer
  | |- runs _ (get ≫= _) _ => apply runs_get; intros ? ?
  | |- runs ?v (if ?b then ?x else ?y) ?Q =>
      let b' := eval cbn in b in
      lazymatch b' with
      | true => change (runs v x Q)
      | false => change (runs v y Q)
      | _ => destruct b eqn:?
      end
  | |- runs _ (match ?x with _ => _ end) _ => destruct x eqn:?
  | |- runs ?v (mret ?a ≫= ?k) ?Q => change (runs v (k a) Q)
  | |- runs _ (err _ ≫= _) _ => apply runs_err_bind
  | |- runs _ (rollback _ ≫= _) _ => apply runs_err_bind
  | |- runs _ (_ ≫= _) _ => apply runs_keep; [solve [keep_all]|intros ?]
  | |- runs _ (append_event_on _ (Some _) _ _ _ _ ≫= _) _ =>
      apply runs_append_terminal; [reflexivity|intros ? ? ? ? ?]
  | |- runs _ ((_ ≫= _) ≫= _) _ => apply runs_assoc
  | |- runs ?v ((if ?b then ?x else ?y) ≫= ?k) ?Q =>
      lazymatch b with
      | true => change (runs v (x ≫= k) Q)
      | false => change (runs v (y ≫= k) Q)
      | _ => destruct b eqn:?
      end
  | |- runs _ ((match ?x with _ => _ end) ≫= _) _ => destruct x eqn:?
  end.

Lemma covers_refl u : covers u u = true.
Proof. unfold covers. by rewrite !Z.leb_refl. Qed.

Lemma covers_trans a b c : covers a b = true -> covers b c = true -> covers a c = true.
Proof. unfold covers. rewrite !andb_true_iff, !Z.leb_le. lia. Qed.

Lemma kept_refl r : kept r r.
Proof. constructor; try done; by rewrite ?covers_refl. Qed.

#[export] Hint Resolve covers_refl kept_refl Z.le_refl : tb.

(** Columns that differ from a row by setters are kept when the setters do not
    reach them. *)
Ltac kept_columns := constructor; cbn; auto with tb; try lia.

(** [ended_turn] of a row whose status is known. *)
Ltac ended_known :=
  unfold ended_turn, status_in; cbn;
  repeat match goal with H : t_status _ = _ |- _ => rewrite H end; reflexivity.

(** The side conditions of a transition. *)
Ltac sides :=
  cbn; repeat match goal with H : t_id ?r = _ |- _ => progress rewrite H end;
  first [ done
        | by left | by right | by (left; congruence)
        | repeat match goal with H : t_status _ = _ |- _ => rewrite H end; reflexivity
        | ended_known
        | match goal with H : e_event _ = _ |- _ => rewrite H; reflexivity end
        | solve [kept_columns]
        | apply steers_same; ended_known
        | idtac ].

Section Same.
Context {W C : Type} `{P : TurnPeers W C}.

(** A branch that changes nothing the view shows. *)
Lemma runs_same {R A} v (m : txn W R A) : Keeps m -> runs v m (fun _ v' => vstep v v').
Proof. intros Hk. eapply txn_runs_conseq; [apply Hk|]. intros a v' ->. by apply vstep_same. Qed.

End Same.

(** Step, closing the short branches that leave the view alone. *)
Ltac leaf :=
  lazymatch goal with
  | |- runs _ (err _) _ => apply txn_runs_fail
  | |- runs _ (rollback _) _ => apply txn_runs_fail
  | |- runs _ (err _ ≫= _) _ => apply runs_err_bind
  | |- runs _ (rollback _ ≫= _) _ => apply runs_err_bind
  | |- runs _ (mret _) _ => apply runs_same; apply _
  | |- runs _ (turn_run_from_model _ ≫= fun _ => mret _) _ => apply runs_same; keep_all
  end.
Ltac step := run_step; try leaf.

Lemma found (v : view) id r : view_ok v -> v_turns v !! id = Some r -> t_id r = id.
Proof. intros Hok. apply (ok_ids v Hok). Qed.

Ltac rename_found :=
  match goal with
  | Hok : view_ok ?v, H : v_turns ?v !! ?id = Some ?r |- _ =>
      let Hid := fresh "Hid" in pose proof (found _ _ _ Hok H) as Hid; try subst id
  end.

(** The row a filter found is the row read before. *)
Ltac same_row r v known :=
  match goal with
  | H : v_turns _ !! ?id = Some r |- _ =>
      assert (r = known) as -> by (change (v_turns v !! id = Some r) in H; congruence); clear H
  end.

Section Ops.
Context {W C : Type} `{P : TurnPeers W C}.

Definition refines {R} (body : txn W R R) : Prop :=
  forall v, view_ok v -> runs v body (fun _ v' => vstep v v').

Lemma refines_keeps {R} (body : txn W R R) : Keeps body -> refines body.
Proof. intros Hk v _. eapply txn_runs_conseq; [apply Hk|]. intros _ v' ->. by apply vstep_same. Qed.

Lemma refines_begin {R} (body : txn W R R) d :
  refines body -> view_ok (view_of d) -> vstep (view_of d) (view_of (begin body d).2).
Proof.
  intros Hb Hok. specialize (Hb _ Hok d eq_refl). unfold begin.
  destruct (body d) as [[a d']|[a|e]]; cbn; [done|by apply vstep_same..].
Qed.

(** A transition that ends nothing and takes no receipt. *)
Lemma vstep_move v r r' :
  v_turns v !! t_id r = Some r -> row_ok r' = true -> lease_fk (v_claims v) r' = true ->
  status_move (t_status r) (t_status r') = true -> ended_turn r' = false ->
  t_claim_count r' = t_claim_count r -> t_attempt_count r' = t_attempt_count r ->
  (t_lease_token r' = t_lease_token r \/ t_lease_token r' = None) -> kept r r' ->
  forall v', v_turns v' = <[t_id r := r']> (v_turns v) -> v_claims v' = v_claims v ->
  v_failures v ⊆ v_failures v' -> steers_step r r' (v_steers v) (v_steers v') ->
  v_terminals v' = v_terminals v -> vstep v v'.
Proof.
  intros Hr Hrow Hfk Hmove Hlive ? ? ? ? v' Ht Hc Hf Hs Hterm.
  eapply vstep_turn; rewrite ?Hc; try done; [by apply step_move|].
  unfold terminals_step. by rewrite Hlive.
Qed.

(** A transition that ends the turn: its steers rejected, its event journaled. *)
Lemma vstep_end v r r' at_ e :
  v_turns v !! t_id r = Some r -> row_ok r' = true -> lease_fk (v_claims v) r' = true ->
  status_move (t_status r) (t_status r') = true -> ended_turn r' = true ->
  t_claim_count r' = t_claim_count r -> t_attempt_count r' = t_attempt_count r ->
  (t_lease_token r' = t_lease_token r \/ t_lease_token r' = None) -> kept r r' ->
  e_turn_id e = Some (t_id r) -> event_matches (t_status r') (e_event e) = true ->
  Forall (fun x => e_turn_id x <> Some (t_id r)) (v_terminals v) ->
  forall v', v_turns v' = <[t_id r := r']> (v_turns v) -> v_claims v' = v_claims v ->
  v_failures v ⊆ v_failures v' ->
  v_steers v' = (fun s => if rejectable (t_id r) s then reject_steer at_ s else s) <$> v_steers v ->
  v_terminals v' = v_terminals v ++ [e] -> vstep v v'.
Proof.
  intros Hr Hrow Hfk Hmove Hend ? ? ? Hkept He Hm Hnone v' Ht Hc Hf Hs Hterm.
  eapply vstep_turn; rewrite ?Hc, ?Hs; try done; [by apply step_move | by apply steers_reject |].
  unfold terminals_step. rewrite Hend. exists e.
  destruct Hkept as [Hid]. rewrite Hid. done.
Qed.

(** *** Leases *)

Lemma heartbeat_refines id token now expires :
  refines (
    heartbeat ← update_turn id
      (fun r => String.eqb (t_status r) (as_str Running)
                && same_some (t_lease_token r) (Some token)
                && col_gt (t_lease_expires_at r) now
                && col_lt (t_lease_expires_at r) expires
                && col_lte (t_updated_at r) now)
      (fun r => set_updated_at (Some now) (set_lease_expires_at (Some expires) r));
    mret (heartbeat =? 1)).
Proof.
  intros v Hok. run_step; run_step; [|by apply vstep_same].
  bool_props. rename_found. eapply (vstep_move v r); sides.
Qed.

Lemma expire_refines id token now :
  refines (
    expired ← update_turn id
      (fun r => status_in r [as_str Running; as_str Cancelling]
                && same_some (t_lease_token r) (Some token)
                && col_gt (t_lease_expires_at r) now)
      (fun r => set_updated_at (Some now) (set_lease_expires_at (Some now) r));
    mret (expired =? 1)).
Proof.
  intros v Hok. run_step; run_step; [|by apply vstep_same].
  bool_props. rename_found.
  match goal with H : status_in _ _ = true |- _ => apply status_in_elem in H end.
  set_unfold. destruct_or!; eapply (vstep_move v r); sides.
Qed.

(** *** Claiming *)

(** The step of a new claim, up to the columns it leaves alone. *)
Lemma vstep_claim v r r' token c :
  v_turns v !! t_id r = Some r -> row_ok r' = true -> lease_fk (v_claims (with_claim token c v)) r' = true ->
  v_claims v !! token = None ->
  (forall t o, v_claims v !! t = Some o -> c_turn_id o = c_turn_id c ->
               c_claim_count o <> c_claim_count c) ->
  t_status r ∈ claimable -> t_status r' = "running" -> t_lease_token r' = Some token ->
  c_turn_id c = t_id r -> c_claim_count c = t_claim_count r' ->
  c_attempt_count c = t_attempt_count r' -> t_claim_count r <= t_claim_count r' ->
  t_attempt_count r <= t_attempt_count r' <= Z.max (t_attempt_count r + 1) 1 ->
  (t_status r = "resuming" -> 1 <= t_attempt_count r -> t_attempt_count r' = t_attempt_count r) ->
  kept r r' -> vstep v (with_turn r' (with_claim token c v)).
Proof.
  intros Hr Hrow Hfk Hfresh Hseg Hcl Hst Htok Hid Hcc Hac Hle Hatt Hres Hkept.
  assert (Hlive : ended_turn r' = false) by ended_known.
  eapply (vstep_turn v _ r r'); cbn; try done.
  - by rewrite (kept_id _ _ Hkept).
  - eapply step_claim; try done; [by rewrite <- Hid | by apply status_in_elem].
  - by apply steers_same.
  - unfold terminals_step. by rewrite Hlive.
Qed.

Lemma succ_le max x n : checked_succ max x = Some n -> n = x + 1.
Proof. unfold checked_succ. case_match; congruence. Qed.

Lemma claim_segment_refines candidate token now expires v :
  view_ok v -> v_turns v !! t_id candidate = Some candidate ->
  t_status candidate ∈ claimable ->
  runs v (claim_segment candidate token now expires) (fun _ v' => vstep v v').
Proof.
  intros Hok Hc Hcl. unfold claim_segment.
  destruct (if String.eqb _ _ then _ else _) as [attempt|] eqn:Ha; [|apply txn_runs_fail].
  destruct (checked_succ I32_MAX (t_claim_count candidate)) as [claim|] eqn:Hn; [|apply txn_runs_fail].
  apply succ_le in Hn as ->.
  assert (Hatt : attempt = (if String.eqb (t_status candidate) "resuming" then t_attempt_count candidate
                            else t_attempt_count candidate + 1)).
  { destruct (String.eqb _ _); [congruence | by apply succ_le in Ha]. }
  clear Ha. do 2 run_step; [run_step|do 3 run_step].
  run_step; [run_step|do 2 run_step].
  do 2 run_step; [|apply txn_runs_fail]. do 2 run_step.
  same_row r v candidate.
  apply (vstep_claim _ candidate); try assumption; try reflexivity; cbn; subst attempt; [lia | | by intros -> | kept_columns].
  destruct (String.eqb (t_status candidate) "resuming"); lia.
Qed.

Lemma claim_cancelling_refines candidate token now v :
  view_ok v -> v_turns v !! t_id candidate = Some candidate ->
  t_status candidate = "cancelling" ->
  runs v (claim_cancelling candidate token now) (fun _ v' => vstep v v').
Proof.
  intros Hok Hc Hst. unfold claim_cancelling, append_claim_scan_terminal_event_on.
  repeat run_step.
  same_row r v candidate.
  eapply (vstep_end v candidate); sides.
Qed.

Lemma claim_exhausted_refines candidate token now dbnow v :
  view_ok v -> v_turns v !! t_id candidate = Some candidate ->
  t_status candidate = "running" ->
  runs v (claim_exhausted candidate token now dbnow) (fun _ v' => vstep v v').
Proof.
  intros Hok Hc Hst. unfold claim_exhausted, append_claim_scan_terminal_event_on.
  repeat run_step. same_row r v candidate.
  eapply (vstep_end v candidate); sides. by apply insert_subseteq.
Qed.

(** *** The candidate of a scan *)

Lemma first_by_cons k x l :
  first_by k (x :: l) = match first_by k l with
                        | Some b => if key_leb (k x) (k b) then Some x else Some b
                        | None => Some x
                        end.
Proof. done. Qed.

Lemma first_by_elem k l r : first_by k l = Some r -> r ∈ l.
Proof.
  revert r. induction l as [|x l IH]; [done|]. intros r. rewrite first_by_cons.
  destruct (first_by k l) as [b|]; [|intros [= ->]; left].
  case_match; intros [= <-]; [left | right; by apply IH].
Qed.

Lemma rows_elem (d : db W) r :
  view_ok (view_of d) -> r ∈ rows d <-> d_turns d !! t_id r = Some r.
Proof.
  intros Hok. unfold rows. rewrite list_elem_of_fmap. split.
  - intros ([k x] & -> & Hx). apply elem_of_map_to_list in Hx. cbn.
    by rewrite (ok_ids _ Hok k x Hx).
  - intros H. exists (t_id r, r). split; [done | by apply elem_of_map_to_list].
Qed.

Lemma filter_elem {A} (f : A -> bool) l x : x ∈ List.filter f l <-> x ∈ l /\ f x = true.
Proof. rewrite !list_elem_of_In. apply filter_In. Qed.

Lemma due_turn_spec (d : db W) now r :
  view_ok (view_of d) -> due_turn d now = Some r ->
  d_turns d !! t_id r = Some r /\ due_turn_candidate_condition d now r = true.
Proof.
  intros Hok H. apply first_by_elem, filter_elem in H as [H ?]. by rewrite rows_elem in H.
Qed.

Lemma expired_turn_spec (d : db W) now r :
  view_ok (view_of d) -> expired_turn d now = Some r ->
  d_turns d !! t_id r = Some r /\ expired_turn_candidate_condition d now r = true.
Proof.
  intros Hok H. apply first_by_elem, filter_elem in H as [H ?]. by rewrite rows_elem in H.
Qed.

Lemma claim_candidate_spec (d : db W) now r :
  view_ok (view_of d) -> claim_candidate d now = Some r ->
  d_turns d !! t_id r = Some r /\
  (due_turn_candidate_condition d now r = true \/ expired_turn_candidate_condition d now r = true).
Proof.
  intros Hok. unfold claim_candidate.
  pose proof (due_turn_spec d now) as Hd. pose proof (expired_turn_spec d now) as He.
  destruct (due_turn d now) as [x|], (expired_turn d now) as [y|]; try case_match;
    intros [= <-]; [destruct (Hd x) | destruct (He y) | destruct (Hd x) | destruct (He y)]; auto.
Qed.

Lemma candidate_status (d : db W) now r :
  due_turn_candidate_condition d now r = true \/ expired_turn_candidate_condition d now r = true ->
  t_status r = "cancelling" \/ t_status r ∈ claimable.
Proof.
  unfold due_turn_candidate_condition, expired_turn_candidate_condition. intros H.
  assert (Hs : t_status r = "resuming" \/ t_status r ∈ [as_str Queued; as_str RetryWait]
               \/ t_status r ∈ [as_str Running; as_str Cancelling]).
  { destruct H as [H|H]; bool_props.
    - match goal with H : _ \/ _ |- _ => destruct H as [H|H] end; bool_props; auto.
      right; left. by apply status_in_elem.
    - right; right. by apply status_in_elem. }
  unfold claimable. set_unfold. cbn in Hs. tauto.
Qed.

Lemma claim_pass_refines token now expires dbnow :
  refines (claim_turn_pass token now expires dbnow).
Proof.
  intros v Hok. unfold claim_turn_pass. apply runs_get. intros d <-.
  destruct (List.find _ _) as [e|].
  { unfold claim_scan_terminal_event_from_model. repeat run_step; by apply vstep_same. }
  destruct (d_claims d !! token) as [c|].
  { destruct (claimed_segment _ _ _ _); repeat run_step; by apply vstep_same. }
  destruct (claim_candidate d now) as [r|] eqn:Hcand; [|run_step; by apply vstep_same].
  apply claim_candidate_spec in Hcand as [Hr Hc]; [|done]. apply candidate_status in Hc.
  destruct (String.eqb (t_status r) (as_str Cancelling)) eqn:E1.
  { apply String.eqb_eq in E1. by apply claim_cancelling_refines. }
  destruct (String.eqb (t_status r) (as_str Running) && _) eqn:E2.
  { bool_props. by apply claim_exhausted_refines. }
  apply String.eqb_neq in E1. destruct Hc as [Hc|Hc]; [done|].
  by apply claim_segment_refines.
Qed.

Lemma claim_turn_refines token now expires dbnow d :
  view_ok (view_of d) ->
  vstep (view_of d) (view_of (claim_turn token now expires dbnow d).2).
Proof.
  intros Hok. unfold claim_turn. cbv zeta.
  repeat (case_match; [by apply vstep_same|]).
  apply refines_begin; [apply claim_pass_refines | done].
Qed.

(** *** Taking a lease directly *)

(** The missing transcript row only adds columns no transition reads. *)
Lemma runs_ensure_input {R B} v existing content mid dbnow r (k : unit -> txn W R B) Q :
  v_turns v !! t_id existing = Some r -> t_id r = t_id existing ->
  runs v (k tt) Q ->
  (row_ok (set_user_input content (set_input_message_id (Some mid) r)) = true ->
   lease_fk (v_claims v) (set_user_input content (set_input_message_id (Some mid) r)) = true ->
   runs (with_turn (set_user_input content (set_input_message_id (Some mid) r)) v) (k tt) Q) ->
  runs v (ensure_turn_input_message_on existing content mid dbnow ≫= k) Q.
Proof.
  intros Hr Hid Hsame Hset. unfold ensure_turn_input_message_on.
  destruct (is_some _); [by run_step|]. repeat run_step.
  - match goal with |- runs _ (k ?u) _ => destruct u end.
    same_row r0 v r. by apply Hset.
  - by match goal with |- runs _ (k ?u) _ => destruct u end.
Qed.

Lemma row_counts r :
  row_ok r = true -> t_attempt_count r <= I32_MAX /\ t_claim_count r <= I32_MAX.
Proof. unfold row_ok, width_check, attempt_check. intros H. bool_props. lia. Qed.

Lemma with_turn_twice r r' v :
  t_id r' = t_id r -> with_turn r' (with_turn r v) = with_turn r' v.
Proof. intros Hid. unfold with_turn. cbn. by rewrite Hid, insert_insert_eq. Qed.

Lemma take_lease_missing id token now expires input required mid dbnow d :
  d_turns d !! id = None ->
  vstep (view_of d)
    (view_of (take_lease_on_turn_inner id token now expires input required mid dbnow d).2).
Proof.
  intros Hr. unfold take_lease_on_turn_inner. cbv zeta. case_match; [by apply vstep_same|].
  unfold begin, find_turn, mbind, stm_bind, get. cbn. rewrite Hr. by apply vstep_same.
Qed.

Lemma take_lease_refines id token now expires input required mid dbnow d r :
  view_ok (view_of d) -> d_turns d !! id = Some r -> t_status r ∈ claimable ->
  vstep (view_of d)
    (view_of (take_lease_on_turn_inner id token now expires input required mid dbnow d).2).
Proof.
  intros Hok Hr Hcl. unfold take_lease_on_turn_inner. cbv zeta. case_match.
  { apply refines_begin; [apply refines_keeps; apply _ | done]. }
  assert (Hid : t_id r = id) by exact (ok_ids _ Hok _ _ Hr). subst id.
  match goal with |- vstep _ (view_of (begin ?body d).2) =>
    enough (Hb : runs (view_of d) body (fun _ v' => vstep (view_of d) v'))
  end.
  { specialize (Hb d eq_refl). unfold begin.
    match goal with |- context [match ?m with _ => _ end] => destruct m as [[a d']|[a|e]] end;
      cbn; [done|by apply vstep_same..]. }
  pose proof (row_counts _ (ok_rows _ Hok _ _ Hr)) as Hcounts.
  run_step. change (v_turns (view_of d)) with (d_turns d). rewrite Hr. cbv zeta.
  match goal with |- context [MkClaim _ _ ?a ?c _ _] =>
    set (attempt := a); set (claim := c) end.
  assert (Hclaim : t_claim_count r <= claim) by (subst claim; unfold saturating_succ; lia).
  assert (Hatt : t_attempt_count r <= attempt <= Z.max (t_attempt_count r + 1) 1).
  { subst attempt. unfold saturating_succ. destruct (String.eqb _ _); lia. }
  assert (Hres : t_status r = "resuming" -> 1 <= t_attempt_count r -> attempt = t_attempt_count r).
  { subst attempt. intros ->. cbn. lia. }
  clearbody attempt claim.
  do 5 (run_step; try (run_step; by apply vstep_same)).
  run_step; [|do 2 run_step]. run_step. run_step; [|do 2 run_step]. run_step.
  assert (r0 = r) as -> by (match goal with H : v_turns _ !! _ = Some r0 |- _ =>
    change (d_turns d !! t_id r = Some r0) in H; congruence end).
  set (r1 := set_ended_at None _) in *.
  assert (Hstep : forall r2, kept r1 r2 -> t_status r2 = "running" -> t_lease_token r2 = Some token ->
    t_claim_count r2 = claim -> t_attempt_count r2 = attempt -> row_ok r2 = true ->
    lease_fk (v_claims (with_claim token (MkClaim (t_id r) (t_owner r) attempt claim
      (canonical_db_timestamp now) (canonical_db_timestamp expires)) (view_of d))) r2 = true ->
    vstep (view_of d) (with_turn r2 (with_claim token (MkClaim (t_id r) (t_owner r) attempt claim
      (canonical_db_timestamp now) (canonical_db_timestamp expires)) (view_of d)))).
  { intros r2 [] ? ? Hcc Hac ? ?.
    apply (vstep_claim _ r); try done; cbn; rewrite ?Hcc, ?Hac; done. }
  destruct input as [content|]; [|run_step; run_step; apply Hstep; auto with tb].
  eapply (runs_ensure_input _ _ _ _ _ r1); [|done|..].
  - cbn. by rewrite lookup_insert_eq.
  - run_step. apply Hstep; auto with tb.
  - intros Hrow2 Hfk2. run_step.
    set (r2 := set_user_input content _) in *. set (v1 := with_claim _ _ _) in *.
    assert (E : t_id r2 = t_id r1) by (subst r2 r1; cbn; reflexivity).
    pose proof (with_turn_twice r1 r2 v1 E) as E2.
    rewrite E2.
    apply Hstep; [|reflexivity..|exact Hrow2|exact Hfk2].
    subst r1. kept_columns.
Qed.
End Ops.
