(* ===== verification/TurnSettles.v ===== *)
(** * Resolutions refine the turn state machine

    [complete_turn_inner], [record_turn_failure_inner],
    [request_turn_cancellation_inner] and [finish_turn_cancellation_inner] are
    steps of [TurnSpec]. *)
From S2P Require Import Prelude RustStr TurnTables TurnLeases TurnResolve TurnCancel TurnParks.
From S2P Require Import TurnSteers TurnSpec TurnRefine.
From stdpp Require Import gmap.

Open Scope Z_scope.

Section Settles.
Context {W C : Type} `{P : TurnPeers W C}.

(** *** Completion and failure *)

#[export] Instance keeps_exact_terminal {R} id l e :
  Keeps (exact_terminal_event_on id l e : txn W R _).
Proof. unfold exact_terminal_event_on. keep_all. Qed.

Lemma runs_append_terminal_event {R B} v id chat l ev (k : option SequencedAgentEvent -> txn W R B) Q :
  is_terminal_event ev = true ->
  (forall q e, e_turn_id e = Some id -> e_event e = ev ->
     Forall (fun x => e_turn_id x <> Some id) (v_terminals v) ->
     runs (with_terminal e v) (k q) Q) ->
  runs v (append_terminal_event_on id chat l (Some ev) ≫= k) Q.
Proof.
  intros Hev Hk. unfold append_terminal_event_on. apply runs_assoc.
  apply runs_append_terminal; [done|]. intros seq e He Hee Hnone.
  apply runs_assoc. apply runs_keep; [keep_all|]. intros _. by apply Hk.
Qed.

Lemma owns_running_status r c token now :
  owns_running r c token now = true -> t_status r = "running".
Proof. unfold owns_running. intros H. by bool_props. Qed.

(** What a settling write leaves of the accounting. *)
Lemma kept_totals r r' steps usage :
  kept r r' ->
  (forall n, steps = Some n -> t_model_steps r <= n) ->
  (forall u, usage = Some u -> covers u (t_usage r) = true) ->
  kept r (set_totals steps usage r').
Proof.
  intros [] Hs Hu. unfold set_totals. destruct steps, usage; constructor; cbn; auto.
Qed.

Lemma event_matches_terminal status ev :
  event_matches status ev = true -> is_terminal_event ev = true.
Proof. by destruct ev. Qed.

(** The columns of a settled row the machine reads. *)
Definition settled (r : turn) (status : TurnRunStatus) (r' : turn) : Prop :=
  t_id r' = t_id r /\ t_status r' = as_str status /\ t_claim_count r' = t_claim_count r /\
  t_attempt_count r' = t_attempt_count r /\ t_lease_token r' = None.

Lemma settled_ended r now status steps usage output :
  settled r status (set_totals steps usage
    match output with
    | Some m => set_output_message_id (Some m) (ended now status r)
    | None => ended now status r
    end).
Proof. destruct steps, usage, output; by repeat split. Qed.

Lemma kept_ended r now status steps usage output :
  (forall n, steps = Some n -> t_model_steps r <= n) ->
  (forall u, usage = Some u -> covers u (t_usage r) = true) ->
  kept r (set_totals steps usage
    match output with
    | Some m => set_output_message_id (Some m) (ended now status r)
    | None => ended now status r
    end).
Proof. intros Hs Hu. apply kept_totals; [|done..]. destruct output; kept_columns. Qed.

Definition complete_ready (existing : turn) (steps : option Z) (usage : option Usage) : Prop :=
  (forall n, steps = Some n -> t_model_steps existing <= n) /\
  (forall u, usage = Some u -> covers u (t_usage existing) = true).

Lemma complete_settle_refines existing receipt token now output citations steps ev v :
  view_ok v -> v_turns v !! t_id existing = Some existing -> t_status existing = "running" ->
  complete_ready existing steps (terminal_usage (Some ev)) ->
  event_matches "completed" ev = true ->
  runs v (complete_settle existing receipt token now output citations steps (Some ev))
    (fun _ v' => vstep v v').
Proof.
  intros Hok Hr Hst [Hsteps Husage] Hev. unfold complete_settle. cbv zeta.
  do 11 run_step. same_row r v existing.
  apply runs_append_terminal_event; [by eapply event_matches_terminal|]. intros q e He Hee Hnone.
  repeat run_step.
  pose proof (settled_ended existing now Completed steps (terminal_usage (Some ev))
                (Some (p_id output))) as (Hid & Hs & Hcc & Hac & Hlt).
  pose proof (kept_ended existing now Completed steps (terminal_usage (Some ev))
                (Some (p_id output)) Hsteps Husage) as Hkept.
  cbv iota in *. generalize dependent (set_totals steps (terminal_usage (Some ev))
    (set_output_message_id (Some (p_id output)) (ended now Completed existing))).
  intros r' **. eapply (vstep_end v existing r'); try done; rewrite ?Hs, ?Hst, ?Hee; try done.
  - by unfold ended_turn, status_in; rewrite Hs.
  - by right.
  - cbn. by rewrite Hid.
Qed.

#[export] Instance keeps_complete_existing r t o c s e : Keeps (complete_existing r t o c s e : txn W _ _).
Proof.
  unfold complete_existing, validate_exact_terminal_model_steps, exact_completed_citations_on. keep_all.
Qed.

(** Read the row an operation is about. *)
Lemma runs_on_turn {R A} v id (k : turn -> txn W R A) (none : txn W R A) Q :
  view_ok v -> Keeps none -> (forall a, Q a v) ->
  (forall r, v_turns v !! t_id r = Some r -> t_id r = id -> runs v (k r) Q) ->
  runs v (find_turn id ≫= fun o => match o with None => none | Some r => k r end) Q.
Proof.
  intros Hok Hn HQ Hk. apply runs_find_turn.
  destruct (v_turns v !! id) as [r|] eqn:Hr.
  - pose proof (found _ _ _ Hok Hr) as Hid. subst id. by apply Hk.
  - eapply txn_runs_conseq; [apply Hn|]. by intros a v' ->.
Qed.
(** The totals a terminal event may carry. *)
Lemma runs_check_steps {R B} v steps stored (k : unit -> txn W R B) Q :
  ((forall n, steps = Some n -> stored <= n) -> runs v (k tt) Q) ->
  runs v (match steps with
          | Some n => validate_terminal_model_steps n stored
          | None => mret tt
          end ≫= k) Q.
Proof.
  intros Hk. destruct steps as [n|]; [|by apply Hk].
  unfold validate_terminal_model_steps. destruct (n <? stored) eqn:E; [apply runs_err_bind|].
  apply Hk. intros ? [= <-]. by apply Z.ltb_ge.
Qed.

Lemma runs_check_usage {R B} v usage r (k : unit -> txn W R B) Q :
  ((forall u, usage = Some u -> covers u (t_usage r) = true) -> runs v (k tt) Q) ->
  runs v (match usage with
          | Some u => c ← usage_from_turn_model r; validate_terminal_usage u c
          | None => mret tt
          end ≫= k) Q.
Proof.
  intros Hk. destruct usage as [u|]; [|by apply Hk].
  unfold usage_from_turn_model. destruct (usage_fits _); [|apply runs_assoc, runs_err_bind].
  apply runs_assoc. run_step. unfold validate_terminal_usage.
  destruct (covers u (t_usage r)) eqn:E; [|apply runs_err_bind].
  apply Hk. by intros ? [= <-].
Qed.

Lemma complete_turn_refines id token rev now output citations steps ev dbnow d :
  event_matches "completed" ev = true -> view_ok (view_of d) ->
  vstep (view_of d)
    (view_of (complete_turn_inner id token rev now output citations steps (Some ev) dbnow d).2).
Proof.
  intros Hev Hok. apply refines_begin; [|done]. clear d Hok. intros v Hok.
  do 2 step. apply runs_on_turn; [done|apply _|by intros; apply vstep_same|].
  intros existing Hr Hid. do 5 step. run_step; [apply runs_same; apply _|]. step.
  match goal with H : negb (owns_running _ _ _ _) = false |- _ =>
    apply negb_false_iff, owns_running_status in H as Hst end.
  apply runs_check_steps; intros Hsteps. apply runs_check_usage; intros Husage.
  do 4 step. by apply complete_settle_refines.
Qed.

(** *** Failure *)

#[export] Instance keeps_failure_from_model {R} t f : Keeps (turn_failure_from_model t f : txn W R _).
Proof. unfold turn_failure_from_model. keep_all. Qed.
#[export] Instance keeps_exact_failure {R} i t r m u e x :
  Keeps (exact_turn_failure_on i t r m u e x : txn W R _).
Proof. unfold exact_turn_failure_on. keep_all. Qed.
#[export] Instance keeps_exact_retrying {R} t r e : Keeps (exact_retrying_event_on t r e : txn W R _).
Proof. unfold exact_retrying_event_on. keep_all. Qed.
#[export] Instance keeps_exact_failure_event {R} i t r e :
  Keeps (exact_failure_terminal_event_on i t r e : txn W R _).
Proof. unfold exact_failure_terminal_event_on. keep_all. Qed.

Lemma kept_failed r status retry steps usage code detail now :
  t_model_steps r <= steps -> covers usage (t_usage r) = true ->
  kept r (failed_row status retry steps usage code detail now r).
Proof. intros Hs Hu. unfold failed_row. destruct (decide _); kept_columns. Qed.

Lemma failed_columns r status retry steps usage code detail now :
  let r' := failed_row status retry steps usage code detail now r in
  t_id r' = t_id r /\ t_status r' = as_str status /\ t_claim_count r' = t_claim_count r /\
  t_attempt_count r' = t_attempt_count r /\ t_lease_token r' = None.
Proof. unfold failed_row. destruct (decide _); by repeat split. Qed.

Lemma failure_settle_refines r c token now retry steps usage code detail ev v :
  view_ok v -> v_turns v !! t_id r = Some r -> t_status r = "running" ->
  t_model_steps r <= steps -> covers usage (t_usage r) = true ->
  event_matches "failed" ev = true ->
  runs v (failure_settle r c token now retry steps usage code detail (Some ev))
    (fun _ v' => vstep v v').
Proof.
  intros Hok Hr Hst Hsteps Husage Hev. unfold failure_settle. cbv zeta.
  pose proof (kept_failed r (failure_status r retry) retry steps usage code detail now Hsteps Husage)
    as Hkept.
  pose proof (failed_columns r (failure_status r retry) retry steps usage code detail now)
    as (Hid & Hs & Hcc & Hac & Hlt).
  run_step. run_step; [run_step|]. run_step. run_step; [|run_step; run_step].
  run_step. same_row r0 v r.
  generalize dependent (failed_row (failure_status r retry) retry steps usage code detail now r).
  intros r' **. assert (Hf : v_failures v ⊆ <[token := MkFailure (t_id r) (c_owner c) (c_attempt_count c) steps usage
    retry code detail now (as_str (failure_status r retry))]> (v_failures v)) by (by apply insert_subseteq).
  unfold failure_status in *. destruct (is_some retry && _).
  - assert (Hlive : ended_turn r' = false) by (by unfold ended_turn, status_in; rewrite Hs).
    change (bool_decide (RetryWait = Failed)) with false. repeat run_step.
    all: eapply (vstep_move v r r'); cbn; rewrite ?Hid, ?Hs, ?Hst; auto; by apply steers_same.
  - assert (Hend : ended_turn r' = true) by (by unfold ended_turn, status_in; rewrite Hs).
    change (bool_decide (Failed = Failed)) with true. do 3 run_step.
    apply runs_append_terminal_event; [by eapply event_matches_terminal|]. intros q e He Hee Hnone.
    repeat run_step.
    eapply (vstep_end v r r'); cbn; rewrite ?Hid, ?Hs, ?Hst, ?Hee; auto.
Qed.

Lemma record_failure_refines id token now retry steps usage code detail ev dbnow d :
  event_matches "failed" ev = true -> view_ok (view_of d) ->
  vstep (view_of d)
    (view_of (record_turn_failure_inner id token now retry steps usage code detail (Some ev)
                dbnow d).2).
Proof.
  intros Hev Hok. apply refines_begin; [|done]. clear d Hok. intros v Hok.
  do 2 step. run_step; [apply runs_same; keep_all|].
  apply runs_on_turn; [done|apply _|by intros; apply vstep_same|].
  intros existing Hr Hid. do 6 step.
  match goal with H : negb (owns_running _ _ _ _) = false |- _ =>
    apply negb_false_iff, owns_running_status in H as Hst end.
  match goal with H : (_ <? _) = false |- _ => apply Z.ltb_ge in H as Hsteps end.
  unfold usage_from_turn_model. destruct (usage_fits _); [run_step|leaf].
  unfold validate_terminal_usage. destruct (covers _ _) eqn:Husage; [run_step|leaf].
  apply failure_settle_refines; auto.
Qed.

(** *** Cancellation *)

#[export] Instance keeps_adapter_wait {R} r : Keeps (adapter_park_wait r : txn W R _).
Proof. unfold adapter_park_wait. keep_all. Qed.
#[export] Instance keeps_adapter_call {R} r : Keeps (adapter_client_park_call_id r : txn W R _).
Proof. unfold adapter_client_park_call_id. keep_all. Qed.
#[export] Instance keeps_existing_cancellation {R} id b :
  Keeps (existing_cancellation_event_on id b : txn W R _).
Proof. unfold existing_cancellation_event_on. keep_all. Qed.
#[export] Instance keeps_unclaimed {R} r a n : Keeps (unclaimed_call r a n : txn W R _).
Proof. unfold unclaimed_call. keep_all. Qed.
#[export] Instance keeps_close_wait {R} c s a : Keeps (close_wait c s a : txn W R _).
Proof. unfold close_wait. keep_all. Qed.
#[export] Instance keeps_cancel_unclaimed {R} c n : Keeps (cancel_unclaimed c n : txn W R _).
Proof. unfold cancel_unclaimed. keep_all. Qed.
#[export] Instance keeps_effective_status {R} r : Keeps (effective_status r : txn W R _).
Proof. unfold effective_status. keep_all. Qed.
#[export] Instance keeps_exact_cancellation {R} r o c :
  Keeps (exact_cancellation_output_on r o c : txn W R _).
Proof. unfold exact_cancellation_output_on, exact_completed_citations_on. keep_all. Qed.
#[export] Instance keeps_cancellation_output {R} r t o c :
  Keeps (cancellation_output r t o c : txn W R _).
Proof. unfold cancellation_output. keep_all. Qed.

Lemma kept_cancel r status now : kept r (cancel_columns status now r).
Proof. unfold cancel_columns. destruct (decide _); kept_columns. Qed.

Lemma cancel_columns_row r status now :
  let r' := cancel_columns status now r in
  t_id r' = t_id r /\ t_status r' = as_str status /\ t_claim_count r' = t_claim_count r /\
  t_attempt_count r' = t_attempt_count r /\ t_lease_token r' = t_lease_token r.
Proof. unfold cancel_columns. destruct (decide _); by repeat split. Qed.

(** The status a cancellable row is read as. *)
Definition reads_as (r : turn) (status : TurnRunStatus) : Prop :=
  t_status r = as_str status \/
  t_status r = "waiting" /\ (status = WaitingForClient \/ status = WaitingForAgentRun).

Definition requested_status (status : TurnRunStatus) (call : option Z) : TurnRunStatus :=
  match status with
  | Running => Cancelling
  | WaitingForClient => match call with None => CancellingClient | Some _ => Cancelled end
  | _ => Cancelled
  end.

Lemma request_move r status call :
  reads_as r status ->
  match status with
  | Queued | Running | WaitingForClient | WaitingForAgentRun | Resuming | RetryWait => True
  | _ => False
  end -> status_move (t_status r) (as_str (requested_status status call)) = true.
Proof.
  intros [-> | [-> [-> | ->]]]; [destruct status | |]; destruct call; done.
Qed.

Lemma runs_effective_status {R B} v r (k : TurnRunStatus -> txn W R B) Q :
  (forall status, reads_as r status \/ is_terminal status = true -> runs v (k status) Q) ->
  runs v (effective_status r ≫= k) Q.
Proof.
  intros Hk. unfold effective_status, adapter_park_wait.
  destruct (String.eqb (t_status r) "waiting") eqn:Hw; cbn [negb].
  - apply String.eqb_eq in Hw.
    assert (Hwait : forall s, s = WaitingForClient \/ s = WaitingForAgentRun -> runs v (k s) Q)
      by (intros s Hs; apply Hk; left; right; auto).
    rewrite Hw. apply runs_assoc.
    change (try (turn_run_status_from_db "waiting")) with (mret WaitingForClient : txn W R _).
    destruct (t_park_ref r), (t_park_wait r) as [[]|]; try case_match;
      first [apply runs_err_bind | run_step; cbv beta iota; run_step; by auto].
  - apply String.eqb_neq in Hw. apply runs_assoc. run_step.
    destruct (turn_run_status_from_db (t_status r)) as [s|e] eqn:Hs; [|apply runs_err_bind].
    change (runs v (k s) Q). apply Hk. unfold reads_as.
    destruct (from_db_inv _ _ Hs) as [? | [[? _] | [_ ->]]];
      [by left; left | by destruct Hw | by right].
Qed.

Lemma request_settle_refines r status call now v :
  view_ok v -> v_turns v !! t_id r = Some r -> reads_as r status ->
  match status with
  | Queued | Running | WaitingForClient | WaitingForAgentRun | Resuming | RetryWait => True
  | _ => False
  end ->
  runs v (request_settle r status call true now) (fun _ v' => vstep v v').
Proof.
  intros Hok Hr Hreads Hlive. pose proof (request_move r status call Hreads Hlive) as Hmove.
  unfold request_settle. cbv zeta. fold (requested_status status call).
  assert (Hnext : requested_status status call = Cancelled
                  \/ existsb (String.eqb (as_str (requested_status status call))) TERMINAL = false)
    by (destruct status, call; auto).
  generalize dependent (requested_status status call). intros next Hmove Hnext.
  pose proof (kept_cancel r next now) as Hkept.
  pose proof (cancel_columns_row r next now) as (Hid & Hs & Hcc & Hac & Hlt).
  run_step. run_step. run_step; [leaf|]. run_step; [|run_step; leaf]. run_step.
  same_row r0 v r. generalize dependent (cancel_columns next now r). intros r' **.
  do 2 run_step. cbn [v_turns with_rejected with_turn].
  rewrite Hid, lookup_insert_eq. run_step. destruct (decide (next = Cancelled)) as [->|Hne].
  - apply runs_assoc, runs_assoc. do 2 run_step.
    apply runs_append_terminal_event; [done|]. intros q e He Hee Hnone. repeat run_step.
    eapply (vstep_end v r r'); cbn; rewrite ?Hid, ?Hs, ?Hee; auto.
  - destruct Hnext as [?|Hnext]; [done|]. do 2 run_step.
    eapply (vstep_move v r r'); cbn; rewrite ?Hid, ?Hs; auto.
    apply steers_reject.
Qed.

Lemma request_cancellation_refines id now dbnow d :
  view_ok (view_of d) ->
  vstep (view_of d) (view_of (request_turn_cancellation_inner id now true dbnow d).2).
Proof.
  intros Hok. apply refines_begin; [|done]. clear d Hok. intros v Hok.
  apply runs_on_turn; [done|apply _|by intros; apply vstep_same|].
  intros existing Hr Hid. do 3 step.
  apply runs_effective_status. intros status Hreads.
  destruct status.
  3, 6, 9-11: apply runs_same; keep_all.
  all: destruct Hreads as [Hreads|[=]]; subst id; run_step; [leaf|].
  all: run_step. all: run_step; [leaf|].
  all: do 2 run_step; (run_step; [leaf|]); by apply request_settle_refines.
Qed.

Lemma finish_settle_refines r c token now steps ev output citations v :
  view_ok v -> v_turns v !! t_id r = Some r -> t_status r = "cancelling" ->
  complete_ready r steps (cancelled_usage (Some ev)) -> event_matches "cancelled" ev = true ->
  runs v (finish_settle r c token now steps (Some ev) output citations) (fun _ v' => vstep v v').
Proof.
  intros Hok Hr Hst [Hsteps Husage] Hev. unfold finish_settle. cbv zeta.
  do 3 run_step; [|run_step; leaf]. run_step. same_row r0 v r.
  assert (Hfacts : settled r Cancelled (set_totals steps (cancelled_usage (Some ev))
      (match a0 with Some m => set_output_message_id (Some m) (ended now Cancelled r)
                   | None => ended now Cancelled r end)))
    by apply settled_ended.
  pose proof (kept_ended r now Cancelled steps (cancelled_usage (Some ev)) a0 Hsteps Husage) as Hkept.
  destruct Hfacts as (Hid & Hs & Hcc & Hac & Hlt).
  generalize dependent (set_totals steps (cancelled_usage (Some ev))
    (match a0 with Some m => set_output_message_id (Some m) (ended now Cancelled r)
                 | None => ended now Cancelled r end)).
  intros r' **. do 2 run_step. cbn [v_turns with_rejected with_turn].
  rewrite Hid, lookup_insert_eq. run_step.
  apply runs_append_terminal_event; [by eapply event_matches_terminal|]. intros q e He Hee Hnone.
  repeat run_step.
  eapply (vstep_end v r r'); cbn; rewrite ?Hid, ?Hs, ?Hst, ?Hee; auto.
Qed.

Lemma finish_cancellation_refines id token now steps ev output citations dbnow d :
  event_matches "cancelled" ev = true -> view_ok (view_of d) ->
  vstep (view_of d)
    (view_of (finish_turn_cancellation_inner id token now steps (Some ev) output citations dbnow
                d).2).
Proof.
  intros Hev Hok. unfold finish_turn_cancellation_inner.
  destruct (token =? 0); [apply refines_begin; [apply refines_keeps; apply _ | done]|]. cbv zeta.
  apply refines_begin; [|done]. clear d Hok. intros v Hok.
  set (out := match output with Some _ => _ | None => None end). clearbody out.
  apply runs_keep; [unfold validate_turn_output; keep_all|]. intros _.
  apply runs_on_turn; [done|apply _|by intros; apply vstep_same|].
  intros existing Hr Hid. subst id. do 4 step; [apply runs_same; keep_all|]. step.
  apply runs_check_usage; intros Husage. apply runs_check_steps; intros Hsteps.
  bool_props. by apply finish_settle_refines.
Qed.

End Settles.
