(* ===== verification/TurnProgress.v ===== *)
(** * Parks, journal appends and steers refine the turn state machine

    [park_turn_for_client_tool_call], [advance_turn_after_client_resolution_on],
    [append_turn_events], [accept_turn_steer] and [apply_turn_steer] are steps
    of [TurnSpec]. *)
From S2P Require Import Prelude RustStr TurnTables TurnLeases TurnResolve TurnCancel TurnParks.
From S2P Require Import TurnSteers TurnSpec TurnRefine TurnSettles.
From stdpp Require Import gmap.

Open Scope Z_scope.

Section Progress.
Context {W C : Type} `{P : TurnPeers W C}.

(** *** Parking *)

#[export] Instance keeps_wait_progress {R} w : Keeps (wait_progress w : txn W R _).
Proof. unfold wait_progress. keep_all. Qed.
#[export] Instance keeps_checkpoint {R} c n : Keeps (checkpoint_on c n : txn W R _).
Proof. unfold checkpoint_on. keep_all. Qed.
#[export] Instance keeps_recover_checkpoint {R} c : Keeps (recover_checkpoint_on c : txn W R _).
Proof. unfold recover_checkpoint_on. keep_all. Qed.
#[export] Instance keeps_history_order {R} c : Keeps (next_tool_history_order_on c : txn W R _).
Proof. unfold next_tool_history_order_on. keep_all. Qed.
#[export] Instance keeps_insert_wait {R} c w : Keeps (insert_wait c w : txn W R _).
Proof. unfold insert_wait. keep_all. Qed.
#[export] Instance keeps_park_existing c w t p r : Keeps (park_existing c w t p r : txn W _ _).
Proof. unfold park_existing. keep_all. Qed.

Lemma token_total_le a b c : 0 <= b -> checked_token_total a b = Some c -> a <= c.
Proof. unfold checked_token_total. case_match; [intros ? [= <-]; lia | done]. Qed.

Lemma checkpoint_totals_grow r g steps usage :
  0 <= g_model_steps g -> usage_fits (g_usage g) = true ->
  checked_checkpoint_totals r g = Ok (steps, usage) ->
  t_model_steps r <= steps /\ covers usage (t_usage r) = true.
Proof.
  intros Hg Hu. unfold usage_fits in Hu. cbn in Hu. bool_props.
  unfold checked_checkpoint_totals. destruct (negb _); [done|].
  destruct (checked_token_total (input_tokens _) _) eqn:E1; [|done].
  destruct (checked_token_total (output_tokens _) _) eqn:E2; [|done].
  destruct (checked_token_total (cache_read_input_tokens _) _) eqn:E3; [|done].
  destruct (checked_token_total (cache_creation_input_tokens _) _) eqn:E4; [|done].
  intros [= <- <-]. split; [lia|]. unfold covers. cbn.
  apply token_total_le in E1, E2, E3, E4; lia.
Qed.

Lemma runs_insert_wait {R B} v call w (k : unit -> txn W R B) Q :
  (usage_fits (w_usage w) = true -> runs v (k tt) Q) -> runs v (insert_wait call w ≫= k) Q.
Proof.
  intros Hk. unfold insert_wait. apply runs_assoc, runs_get. intros d <-.
  destruct (_ || negb (usage_fits _)) eqn:E; [apply runs_err_bind|].
  apply orb_false_iff in E as [_ E]. apply negb_false_iff in E.
  apply runs_keep; [apply keeps_modify; by intros |]. intros []. by apply Hk.
Qed.

Lemma park_settle_refines r call token rev progress remaining now v :
  view_ok v -> v_turns v !! t_id r = Some r -> t_status r = "running" ->
  0 <= g_model_steps progress ->
  runs v (park_settle r call token rev progress remaining now) (fun _ v' => vstep v v').
Proof.
  intros Hok Hr Hst Hg. unfold park_settle. cbv zeta.
  destruct (checked_checkpoint_totals r progress) as [[steps usage]|e] eqn:Htot;
    [|apply runs_err_bind].
  change (try (Ok (steps, usage))) with (mret (steps, usage) : txn W (option ParkTurnForClientCallOutcome) _).
  run_step. cbv beta iota. do 2 run_step. run_step; [leaf|]. run_step.
  apply runs_insert_wait. intros Hu. cbn in Hu.
  apply (checkpoint_totals_grow _ _ _ _ Hg Hu) in Htot as [Hsteps Husage].
  run_step; [|run_step; leaf]. do 2 run_step. same_row r0 v r.
  run_step; [|leaf]. do 3 run_step.
  eapply (vstep_move v r); sides.
Qed.

Lemma park_refines id token rev progress remaining now call d :
  view_ok (view_of d) ->
  vstep (view_of d)
    (view_of (park_turn_for_client_tool_call id token rev progress remaining now call d).2).
Proof.
  intros Hok. apply refines_begin; [|done]. clear d Hok. intros v Hok.
  destruct (validate_request id token progress remaining call) as [u|e] eqn:Hv; [|apply runs_err_bind].
  assert (Hg : 0 <= g_model_steps progress).
  { revert Hv. unfold validate_request. case_match; [done|]. bool_props. intros _. lia. }
  apply runs_keep; [apply _|]. intros _. cbv zeta.
  apply runs_on_turn; [done|apply _|by intros; apply vstep_same|].
  intros existing Hr Hid. subst id. do 4 step. run_step; [apply runs_same; apply _|]. 
  run_step; [leaf|]. run_step; [leaf|]. run_step; [leaf|]. bool_props.
  by apply park_settle_refines.
Qed.

(** *** The client call resolves *)

#[export] Instance keeps_recover_turn {R} id k :
  Keeps (recover_turn_after_client_resolution_on id k : txn W R _).
Proof. unfold recover_turn_after_client_resolution_on. keep_all. Qed.

(** The row a resolved call leaves. *)
Definition advanced_row (cancelling : bool) (at_ : Z) (r : turn) : turn :=
  let r := set_updated_at (Some at_) (set_available_at (Some at_)
             (set_status (as_str (if cancelling then Cancelled else Resuming)) r)) in
  if cancelling then set_ended_at (Some at_) r else r.

Lemma advanced_columns b at_ r :
  let r' := advanced_row b at_ r in
  t_id r' = t_id r /\ t_status r' = as_str (if b then Cancelled else Resuming) /\
  t_claim_count r' = t_claim_count r /\ t_attempt_count r' = t_attempt_count r /\
  t_lease_token r' = t_lease_token r /\ kept r r'.
Proof. unfold advanced_row. destruct b; repeat split; auto with tb; lia. Qed.

(** Only a row the adapter parked yields a call id. *)
Lemma runs_adapter_call {R B} v r (k : option Z -> txn W R B) Q :
  (forall c, (forall id, c = Some id -> t_status r = "waiting") -> runs v (k c) Q) ->
  runs v (adapter_client_park_call_id r ≫= k) Q.
Proof.
  intros Hk. unfold adapter_client_park_call_id, adapter_park_wait.
  destruct (String.eqb (t_status r) "waiting") eqn:Hw; cbn [negb].
  - apply String.eqb_eq in Hw. apply runs_assoc.
    assert (Hall : forall c, runs v (k c) Q) by (intros c; by apply Hk).
    destruct (t_park_ref r), (t_park_wait r) as [[]|]; try case_match;
      repeat first [apply Hall | apply runs_err_bind | run_step].
  - apply runs_assoc. run_step. cbv beta iota. run_step. by apply Hk.
Qed.

(** The states a client call blocks. *)
Lemma blocked_move r c call_id :
  negb (status_in r ["waiting_for_client"; "cancelling_client"])
    && negb (opt_eqb c (Some call_id)) = false ->
  (forall id, c = Some id -> t_status r = "waiting") ->
  status_move (t_status r)
    (as_str (if String.eqb (t_status r) (as_str CancellingClient) then Cancelled else Resuming)) = true.
Proof.
  intros Hb Hc. apply andb_false_iff in Hb as [Hb|Hb]; apply negb_false_iff in Hb.
  - apply status_in_elem in Hb. set_unfold in Hb. by destruct Hb as [-> | [-> | []]].
  - unfold opt_eqb in Hb. apply bool_decide_eq_true in Hb. by rewrite (Hc _ Hb).
Qed.

Lemma advance_refines call_id call at_ v {R} :
  view_ok v ->
  runs v (advance_turn_after_client_resolution_on call_id call at_ : txn W R _)
    (fun _ v' => vstep v v').
Proof.
  intros Hok. unfold advance_turn_after_client_resolution_on. run_step. run_step; [|leaf].
  run_step; [apply runs_same; apply _|]. run_step; [leaf|].
  match goal with H : view_of ?d = v |- context [d_turns ?d !! ?i] =>
    change (d_turns d) with (v_turns (view_of d)); rewrite H; clear H
  end.
  run_step; [|leaf].
  assert (Hid : w_turn_id c = t_id t) by (by rewrite (found _ _ _ Hok Heqo0)).
  rewrite Hid in Heqo0.
  set (b := String.eqb (t_status t) (as_str CancellingClient)).
  apply runs_adapter_call. intros adapter Hadapter. run_step; [leaf|].
  match goal with H : _ = false |- _ => rewrite !orb_false_iff in H;
    destruct H as [[[[[[[_ Hblocked] _] _] _] _] _] _] end.
  pose proof (blocked_move _ _ _ Hblocked Hadapter) as Hmove. fold b in Hmove.
  clearbody b. run_step. run_step; [leaf|]. run_step; [|run_step; leaf]. run_step.
  same_row r v t.
  match goal with H : lease_fk _ ?x = true |- _ => change x with (advanced_row b at_ t) in * end.
  pose proof (advanced_columns b at_ t) as (Hid' & Hs & Hcc & Hac & Hlt & Hkept).
  generalize dependent (advanced_row b at_ t); intros r' **.
  destruct b.
  - apply runs_assoc. run_step. apply runs_assoc. run_step.
    apply runs_append_terminal_event; [done|]. intros q e He Hee Hnone.
    repeat run_step; eapply (vstep_end v t r'); cbn; rewrite ?Hid', ?Hs, ?Hee; auto.
  - repeat run_step; eapply (vstep_move v t r'); cbn; rewrite ?Hid', ?Hs; auto;
      apply steers_same; unfold ended_turn, status_in; by rewrite Hs.
Qed.

(** *** Streamed events *)

Lemma keeps_append_fresh {R} chat id token events next :
  Forall (fun p => is_terminal_event (a_event p.1) = false) events ->
  Keeps (append_fresh chat id token next events : txn W R _).
Proof.
  intros Hev. revert next. induction Hev as [|[entry o] events He Hev IH]; intros next; [apply _|].
  cbn in *. destruct o; [keep_all|]. destruct (checked_succ _ _); [|apply _].
  apply keeps_bind; [apply keeps_insert_event_row; by rewrite He|]. intros _. keep_all.
Qed.

Lemma entries_live id events previous :
  entries_ok id previous events = Ok tt ->
  Forall (fun x => is_terminal_event (a_event x) = false) events.
Proof.
  revert previous. induction events as [|x l IH]; intros previous; [constructor|].
  cbn [entries_ok].
  repeat match goal with |- (if ?b then _ else _) = _ -> _ => destruct b eqn:?; [done|] end.
  intros Hrest. constructor; [done | by eapply IH].
Qed.

Lemma combine_fst {A B} (Q : A -> Prop) (l : list A) (l' : list B) :
  Forall Q l -> Forall (fun p => Q p.1) (combine l l').
Proof.
  intros HQ. revert l'. induction HQ; intros [|b l']; constructor; auto.
Qed.

Lemma append_keeps chat id token now events d :
  view_of (append_turn_events chat id token now events d).2 = view_of d.
Proof.
  unfold append_turn_events. match goal with |- view_of (begin ?body d).2 = _ =>
    enough (Hk : Keeps body) by (specialize (Hk _ d eq_refl); unfold begin;
      destruct (body d) as [[a d']|[a|e]]; done) end.
  intros v. do 3 (run_step; [apply txn_runs_fail|]).
  destruct (entries_ok id None events) as [[]|e] eqn:Hent; [|apply runs_err_bind].
  apply entries_live in Hent. do 2 run_step. run_step; [apply txn_runs_fail|]. run_step.
  run_step; [|apply keeps_ret]. do 2 run_step. run_step; [apply keeps_ret|].
  run_step; cbv beta iota; [|apply keeps_ret]. run_step; [apply txn_runs_fail|].
  run_step; [apply keeps_ret|]. run_step. apply runs_keep; [|intros; apply keeps_ret].
  apply keeps_append_fresh.
  by apply (combine_fst (fun x => is_terminal_event (a_event x) = false)).
Qed.

(** *** Steers *)

(** The row an accepted instruction leaves: touched, or woken from its wait. *)
Definition steered_row (interrupted : bool) (now : Z) (r : turn) : turn :=
  let r := set_updated_at (Some now) r in
  if interrupted then set_available_at (Some now) (set_status (as_str Resuming) r) else r.

Lemma steered_columns b now r :
  let r' := steered_row b now r in
  t_id r' = t_id r /\ t_status r' = (if b then as_str Resuming else t_status r) /\
  t_claim_count r' = t_claim_count r /\ t_attempt_count r' = t_attempt_count r /\
  t_lease_token r' = t_lease_token r /\ t_steer_revision r' = t_steer_revision r /\ kept r r'.
Proof. unfold steered_row. destruct b; repeat split; auto with tb; lia. Qed.

Lemma status_stays r : ended_turn r = false -> status_move (t_status r) (t_status r) = true.
Proof.
  unfold ended_turn, status_in, status_move. intros Hr. by rewrite String.eqb_refl, Hr.
Qed.

Lemma accepts_live r s chat now :
  turn_run_status_from_db (t_status r) = Ok s -> accepts_steer r s chat now = true ->
  ended_turn r = false.
Proof.
  intros Hs. unfold accepts_steer, ended_turn, status_in.
  destruct (from_db_inv _ _ Hs) as [-> | [[-> _] | [-> ->]]]; [destruct s; auto | done |].
  all: by rewrite !andb_false_r.
Qed.

Lemma accept_steer_refines id turn_id chat content skills interrupt voice now d :
  view_ok (view_of d) ->
  vstep (view_of d)
    (view_of (accept_turn_steer id turn_id chat content skills interrupt voice now d).2).
Proof.
  intros Hok. apply refines_begin; [|done]. clear d Hok. intros v Hok.
  apply runs_keep; [unfold validate_steer_input, validate_invoked_skills; keep_all|]. intros _.
  apply runs_get. intros d <-. destruct (d_steers d !! id) as [s|] eqn:Hs; [leaf|].
  step. do 2 step. apply runs_on_turn; [done|apply _|by intros; apply vstep_same|].
  intros r Hr Hid. subst turn_id.
  destruct (turn_run_status_from_db (t_status r)) as [status|e] eqn:Hst; [|apply runs_err_bind].
  change (try (Ok status)) with (mret status : txn W AcceptTurnSteerOutcome _). do 2 step.
  match goal with H : negb (accepts_steer _ _ _ _) = false |- _ =>
    apply negb_false_iff, accepts_live in H as Hlive; [|done] end.
  do 2 step. run_step.
  set (now' := canonical_db_timestamp now). set (st := MkSteer _ _ _ _ _ _ _ _ _ _ _ _ _).
  eapply txn_runs_bind with (Q' := fun b v' => v' = with_steer st (view_of d) /\
                                (b = true -> status = WaitingForAgentRun)).
  { destruct (_ && interrupt) eqn:Hi; [|by apply txn_runs_ret].
    apply andb_true_iff in Hi as [Hi _]. apply bool_decide_eq_true in Hi.
    eapply txn_runs_conseq; [apply keeps_peer|]. by intros ? ? ->. }
  intros b v' [-> Hwake]. run_step; [|run_step; leaf]. do 2 run_step.
  match goal with H : _ !! t_id r = Some ?x |- _ =>
    assert (x = r) as -> by (change (d_turns d !! t_id r = Some x) in H; cbn in Hr; congruence) end.
  match goal with H : row_ok ?x = true |- _ => change x with (steered_row b now' r) in * end.
  pose proof (steered_columns b now' r) as (Hid & Hs' & Hcc & Hac & Hlt & Hrev & Hkept).
  assert (Hmove : status_move (t_status r) (t_status (steered_row b now' r)) = true
                  /\ ended_turn (steered_row b now' r) = false).
  { unfold ended_turn, status_in. rewrite Hs'. destruct b; [|split; [by apply status_stays | done]].
    destruct (from_db_inv _ _ Hst) as [Ht | [[_ Hw] | [_ Hw]]]; rewrite (Hwake eq_refl) in *; [|done..].
    by rewrite Ht. }
  generalize dependent (steered_row b now' r). intros r' **. destruct Hmove as [Hmove Hend].
  eapply (vstep_move _ r r'); cbn; rewrite ?Hid; auto.
  apply steers_accept; try done. unfold rejectable. cbn. by rewrite Z.eqb_refl.
Qed.

(** *** Applying an instruction *)

#[export] Instance keeps_exact_applied {R} st : Keeps (ensure_exact_applied_message_on st : txn W R _).
Proof. unfold ensure_exact_applied_message_on. keep_all. Qed.
#[export] Instance keeps_exact_preceding {R} st m :
  Keeps (ensure_exact_preceding_message_on st m : txn W R _).
Proof. unfold ensure_exact_preceding_message_on. keep_all. Qed.
#[export] Instance keeps_exact_applied_event {R} st t o :
  Keeps (exact_applied_event_on st t o : txn W R _).
Proof. unfold exact_applied_event_on. keep_all. Qed.
#[export] Instance keeps_exact_citations {R} o c :
  Keeps (exact_completed_citations_on o c : txn W R _).
Proof. unfold exact_completed_citations_on. keep_all. Qed.
#[export] Instance keeps_apply_existing st id t o p c : Keeps (apply_existing st id t o p c : txn W _ _).
Proof. unfold apply_existing. keep_all. Qed.
#[export] Instance keeps_insert_preceding r t n m c : Keeps (insert_preceding r t n m c : txn W _ _).
Proof. unfold insert_preceding. keep_all. Qed.

Lemma apply_settle_refines r c st token ordinal now preceding citations v :
  view_ok v -> v_turns v !! t_id r = Some r -> t_status r = "running" ->
  t_lease_token r = Some token -> v_steers v !! s_id st = Some st -> pending st = true ->
  s_turn_id st = t_id r ->
  runs v (apply_settle r c st token ordinal now (t_steer_revision r + 1) preceding citations)
    (fun _ v' => vstep v v').
Proof.
  intros Hok Hr Hst Htok Hs Hp Hsid. unfold apply_settle. cbv zeta.
  do 2 run_step. run_step; [leaf|]. do 2 run_step. run_step; [leaf|]. run_step. run_step; [leaf|].
  run_step; [leaf|]. run_step. run_step; [|run_step; leaf]. do 3 run_step.
  match goal with H : _ !! t_id r = Some ?x |- _ =>
    assert (x = r) as -> by (change (v_turns v !! t_id r = Some x) in H; congruence) end.
  run_step.
  eapply (vstep_move v r); sides. apply steers_apply; try done. ended_known.
Qed.

Lemma insert_steer_elem x s l : x ∈ insert_steer s l -> x = s \/ x ∈ l.
Proof.
  induction l as [|y l IH]; cbn; [set_solver|]. case_match; set_solver.
Qed.

Lemma pending_steers_elem (d : db W) id x :
  x ∈ pending_steers d id ->
  exists k, d_steers d !! k = Some x /\ s_turn_id x = id /\ s_status x = "pending".
Proof.
  unfold pending_steers.
  assert (Hsub : forall l, x ∈ foldr insert_steer [] l -> x ∈ l).
  { induction l as [|y l IH]; [done|]. intros Hx. cbn in Hx.
    apply insert_steer_elem in Hx as [->|Hx]; [left | right; by apply IH]. }
  intros Hx. apply Hsub, filter_elem in Hx as [Hx Hf]. bool_props.
  apply list_elem_of_fmap in Hx as ([k y] & -> & Hy). apply elem_of_map_to_list in Hy. eauto.
Qed.

Lemma apply_steer_refines turn_id token steer_id ordinal preceding citations now d :
  view_ok (view_of d) ->
  vstep (view_of d)
    (view_of (apply_turn_steer turn_id token steer_id ordinal preceding citations now d).2).
Proof.
  intros Hok. apply refines_begin; [|done]. clear d Hok. intros v Hok.
  run_step; [leaf|]. run_step; [leaf|]. apply runs_keep; [keep_all|]. intros _. cbv zeta.
  apply runs_on_turn; [done|apply _|by intros; apply vstep_same|].
  intros r Hr Hid. subst turn_id. run_step. run_step; [leaf|]. apply runs_get. intros d <-.
  destruct (d_steers d !! steer_id) as [st|] eqn:Hs; [|leaf].
  run_step; [apply runs_same; apply _|]. do 2 (run_step; [leaf|]).
  run_step; [leaf|]. run_step; [leaf|]. run_step; cbv beta iota; [|leaf]. run_step; [leaf|].
  run_step; [|leaf].
  pose proof (ok_steer_ids _ Hok _ _ Hs) as Hsid. subst steer_id.
  assert (Hp : pending st = true).
  { unfold pending. destruct (String.eqb _ "pending"), (String.eqb _ "rejected"); done. }
  bool_props.
  match goal with H : owns_running _ _ _ _ = true |- _ =>
    pose proof (owns_running_status _ _ _ _ H) as Hst; unfold owns_running in H end.
  bool_props.
  match goal with H : checked_succ _ _ = Some _ |- _ => apply succ_le in H as -> end.
  match goal with H : same_some _ _ = true |- _ => apply same_some_iff in H end.
  by apply apply_settle_refines.
Qed.
End Progress.
