(* ===== verification/TurnMachine.v ===== *)
(** * Histories of turns

    Acceptance is a step of the abstract machine, and every history of
    operations is a run of it.  Then theorems about [turn_run] from a
    well-formed database: fencing, terminal turns, cancellation, budgets and
    instructions; the lemmas are about runs of the machine, the theorems carry
    them to the tables. *)
From stdpp Require Import gmap.
From S2P Require Import Prelude RustStr TurnTables TurnLeases TurnResolve TurnCancel TurnParks TurnSteers.
From S2P Require Import TurnPlacements TurnAdmission TurnSpec TurnRefine TurnSettles TurnProgress.

Open Scope Z_scope.

Section Accepts.
Context {W C : Type} `{P : TurnPeers W C}.

Lemma runs_catch {R A B} v (m : txn W R A) (k : result (abort R) A -> txn W R B) Q Q' :
  runs v m Q' -> (forall a v', Q' a v' -> runs v' (k (Ok a)) Q) ->
  (forall e, runs v (k (Err e)) Q) -> runs v (catch m ≫= k) Q.
Proof.
  intros Hm Hok Herr s Hs. unfold catch, mbind, stm_bind. specialize (Hm s Hs).
  destruct (m s) as [[a s']|e]; [exact (Hok a _ Hm s' eq_refl) | exact (Herr e s Hs)].
Qed.

Lemma runs_answer {R} v (before : db W) (m : txn W R R) Q : runs v (answer_from before m) Q.
Proof. intros s _. unfold answer_from. by destruct (m before) as [[a ?]|e]. Qed.

Lemma runs_insert_turn {R B} v r (k : unit -> txn W R B) Q :
  (v_turns v !! t_id r = None -> row_ok r = true -> runs (with_turn r v) (k tt) Q) ->
  runs v (insert_turn r ≫= k) Q.
Proof.
  intros Hk. unfold insert_turn. apply runs_assoc, runs_get. intros d <-.
  destruct (d_turns d !! t_id r) eqn:Hr; [apply runs_err_bind|]. cbn [is_some orb].
  destruct (existsb _ _); [apply runs_err_bind|]. unfold put_turn.
  apply runs_assoc, runs_get. intros d' Hd'.
  destruct (row_ok r) eqn:Hrow; [|apply runs_err_bind].
  destruct (lease_fk _ _), (one_active _ _); try apply runs_err_bind. cbn [andb].
  intros s Hs. unfold mbind, stm_bind, modify.
  apply (Hk Hr eq_refl (with_turns (<[t_id r:=r]> (d_turns d')) s)).
  unfold sees in *. unfold view_of, with_turn in *. cbn in *. congruence.
Qed.

#[export] Instance keeps_drop_checkpoint {R} c r :
  Keeps (drop_checkpoint_of_replaced_attempt_on c r : txn W R _).
Proof. unfold drop_checkpoint_of_replaced_attempt_on. keep_all. Qed.
#[export] Instance keeps_drop_replaced {R} c : Keeps (drop_replaced_turns_on c : txn W R _).
Proof. unfold drop_replaced_turns_on. keep_all. Qed.
#[export] Instance keeps_exact_accepted {R} r c m x i o s b p :
  Keeps (exact_accepted_turn_on r c m x i o s b p : txn W R _).
Proof. unfold exact_accepted_turn_on. keep_all. Qed.

(** The one thing an insertion adds. *)
Definition inserts (id : Z) (v v' : view) : Prop :=
  exists r, t_id r = id /\ v_turns v !! id = None /\ row_ok r = true /\ t_status r = "queued"
    /\ t_claim_count r = 0 /\ t_attempt_count r = 0 /\ t_lease_token r = None
    /\ v' = with_turn r v.

(** The row an insertion answers with is the one it stored. *)
Lemma insert_accepted_row {R} id chat model content images documents skills voice replaces mid now v :
  runs v (insert_accepted_turn_on id chat model content images documents skills voice replaces mid
            now : txn W R _)
    (fun row v' => v_turns v !! id = None /\ row_ok row = true /\ v' = with_turn row v /\
       exists owner ordinal digest,
         row = accepted_row id owner chat ordinal model content skills voice digest replaces mid now).
Proof.
  unfold insert_accepted_turn_on. run_step. run_step; [run_step|]. do 2 run_step.
  run_step; [run_step|]. run_step. run_step; [|run_step]. run_step; [|run_step]. cbv zeta.
  apply runs_insert_turn. intros Hnew Hrow. do 6 run_step.
  apply runs_find_turn. cbn [v_turns with_turn].
  match goal with |- context [with_turn ?r v] => change (t_id r) with id end.
  rewrite lookup_insert_eq. apply txn_runs_ret. split_and!; [done..|]. by eauto.
Qed.

Lemma insert_accepted_inserts {R} id chat model content images documents skills voice replaces mid now v :
  runs v (insert_accepted_turn_on id chat model content images documents skills voice replaces mid
            now : txn W R _) (fun _ v' => inserts id v v').
Proof.
  eapply txn_runs_conseq; [apply insert_accepted_row|].
  intros row v' (Hnew & Hrow & -> & owner & ordinal & digest & ->).
  exists (accepted_row id owner chat ordinal model content skills voice digest replaces mid now).
  by split_and!.
Qed.

Lemma inserts_step id v v' : inserts id v v' -> vstep v v'.
Proof. intros (r & <- & ? & ? & ? & ? & ? & ? & ->). by apply (vstep_new _ _ r). Qed.

Lemma accept_refines id chat model content images documents skills voice replaces mid dbnow d :
  view_ok (view_of d) ->
  vstep (view_of d)
    (view_of (accept_turn_inner id chat model content images documents skills voice replaces mid
                dbnow d).2).
Proof.
  intros Hok. apply refines_begin; [|done]. clear d Hok. intros v Hok.
  do 4 run_step. apply runs_get. intros before Hbefore. run_step. run_step; [leaf|]. run_step.
  run_step; [|leaf]. apply runs_find_turn.
  destruct (v_turns v !! id); [apply runs_same; keep_all|].
  run_step. run_step; [leaf|]. run_step; [leaf|].
  destruct (match replaces with Some (target, kind) => refuse_replacement_on _ _ _ _ | None => None end);
    [leaf|].
  run_step. cbv zeta. eapply runs_catch; [apply insert_accepted_inserts | |].
  - intros row v' Hins. eapply txn_runs_conseq with (Q := fun _ v'' => v'' = v').
    + apply runs_keep; [apply _|]. intros run. by apply keeps_ret.
    + intros _ v'' ->. eapply inserts_step. exact Hins.
  - intros e. apply runs_answer.
Qed.
End Accepts.

Open Scope Z_scope.

Section Machine.
Context {W C : Type} `{P : TurnPeers W C}.

(** The operations workers, routes and peers run on turns, as they are.  The
    label names the turn a lease is taken on directly: [take_lease_on_turn_inner]
    refuses a live lease of a running turn and nothing else. *)
Inductive turn_txn (d : db W) : option Z -> db W -> Prop :=
| tx_accept id chat model content images documents skills voice replaces mid dbnow :
    turn_txn d None (accept_turn_inner id chat model content images documents skills voice replaces
                  mid dbnow d).2
| tx_take_lease id token now expires input required mid dbnow :
    turn_txn d (Some id) (take_lease_on_turn_inner id token now expires input required mid dbnow d).2
| tx_claim token now expires dbnow : turn_txn d None (claim_turn token now expires dbnow d).2
| tx_heartbeat id token now expires : turn_txn d None (heartbeat_turn id token now expires d).2
| tx_expire id token now : turn_txn d None (expire_turn_lease id token now d).2
| tx_complete id token rev now output citations steps usage stop_reason dbnow :
    turn_txn d None (complete_turn_and_append_event id token rev now output citations steps usage
                  stop_reason dbnow d).2
| tx_refuse id token rev now output citations steps usage refusal dbnow :
    turn_txn d None (complete_refused_turn id token rev now output citations steps usage refusal
                  dbnow d).2
| tx_fail id token now retry steps usage code detail dbnow :
    turn_txn d None (record_turn_failure_and_append_event id token now retry steps usage code detail
                  dbnow d).2
| tx_cancel id now dbnow : turn_txn d None (request_turn_cancellation_inner id now true dbnow d).2
| tx_finish id token now steps usage output citations dbnow :
    turn_txn d None (finish_turn_cancellation_and_append_event id token now steps usage output
                  citations dbnow d).2
| tx_park id token rev progress remaining now call :
    turn_txn d None (park_turn_for_client_tool_call id token rev progress remaining now call d).2
| tx_advance call_id call at_ a d' :
    advance_turn_after_client_resolution_on (R := unit) call_id call at_ d = Ok (a, d') ->
    turn_txn d None d'
| tx_append chat id token now events : turn_txn d None (append_turn_events chat id token now events d).2
| tx_steer id turn_id chat content skills interrupt voice now :
    turn_txn d None (accept_turn_steer id turn_id chat content skills interrupt voice now d).2
| tx_apply turn_id token steer_id ordinal preceding citations now :
    turn_txn d None (apply_turn_steer turn_id token steer_id ordinal preceding citations now d).2.


(** The turn named is one that waits for a lease, if it is there. *)
Definition waits_for_lease (d : db W) (l : option Z) : Prop :=
  match l with
  | Some id => match d_turns d !! id with Some r => t_status r ∈ claimable | None => True end
  | None => True
  end.
#[export] Instance waits_dec d l : Decision (waits_for_lease d l).
Proof. unfold waits_for_lease. repeat case_match; apply _. Defined.
(** The histories in which a lease is taken directly only on a turn that waits
    for one.  The callers check that, but in an earlier transaction. *)
Definition turn_step_of (d d' : db W) : Prop := exists l, turn_txn d l d' /\ waits_for_lease d l.
Definition turn_run : db W -> db W -> Prop := rtc turn_step_of.

Lemma unlabelled_step d d' : turn_txn d None d' -> turn_step_of d d'.
Proof. by exists None. Qed.


Lemma txn_refines d d' :
  turn_step_of d d' -> view_ok (view_of d) -> vstep (view_of d) (view_of d').
Proof.
  intros (l & Hstep & Hwait) Hok. destruct Hstep.
  - by apply accept_refines.
  - cbn in Hwait. destruct (d_turns d !! id) as [r|] eqn:Hr; [by eapply take_lease_refines|].
    by apply take_lease_missing.
  - by apply claim_turn_refines.
  - unfold heartbeat_turn. cbv zeta. case_match; (apply refines_begin; [|done]);
      [apply refines_keeps; apply _ | apply heartbeat_refines].
  - by apply refines_begin; [apply expire_refines|].
  - by apply complete_turn_refines.
  - unfold complete_refused_turn. case_match; [by apply complete_turn_refines|].
    apply refines_begin; [apply refines_keeps; apply _ | done].
  - by apply record_failure_refines.
  - by apply request_cancellation_refines.
  - by apply finish_cancellation_refines.
  - by apply park_refines.
  - pose proof (advance_refines (R := unit) call_id call at_ _ Hok d eq_refl) as Hadv.
    by rewrite H in Hadv.
  - apply vstep_same. apply append_keeps.
  - by apply accept_steer_refines.
  - by apply apply_steer_refines.
Qed.

Lemma run_refines d d' :
  turn_run d d' -> view_ok (view_of d) -> vrun (view_of d) (view_of d') /\ view_ok (view_of d').
Proof.
  intros Hrun Hok. induction Hrun as [d | d d1 d2 Hstep _ IH]; [split; [apply rtc_refl | done]|].
  pose proof (txn_refines _ _ Hstep Hok) as Hv.
  destruct (IH (vstep_ok _ _ Hv Hok)) as [Hr Hok']. split; [by eapply rtc_l | done].
Qed.
End Machine.

Open Scope Z_scope.

(** ** Runs of the machine *)

Lemma kept_trans a b c : kept a b -> kept b c -> kept a c.
Proof.
  intros [] []. constructor; try congruence; [lia | by eapply covers_trans | lia].
Qed.

Lemma vstep_row v v' id r :
  vstep v v' -> view_ok v -> v_turns v !! id = Some r ->
  exists r', v_turns v' !! id = Some r' /\ (r' = r \/ turn_step (v_claims v) r r' (v_claims v')).
Proof.
  intros [->|x x' Hx Ht Hstep _ _ _ _ _|x Hnew Ht _ _ _ _ _ _ _ _ _] Hok Hr; [by exists r; auto| |].
  - destruct (decide (t_id x = id)) as [<-|Hne].
    + exists x'. rewrite Ht, lookup_insert_eq. split; [done|]. right. congruence.
    + exists r. rewrite Ht, lookup_insert_ne by done. auto.
  - exists r. rewrite Ht, lookup_insert_ne by congruence. auto.
Qed.

Lemma vstep_claims v v' : vstep v v' -> v_claims v ⊆ v_claims v'.
Proof.
  intros [->|x x' _ _ Hstep _ _ _ _ _|x _ _ _ _ _ _ _ -> _ _ _]; [done| |done].
  by eapply step_claims.
Qed.

(** What holds of one step of a row holds of every run. *)
Lemma vrun_row (R : turn -> turn -> Prop) v v' :
  (forall r, R r r) -> (forall a b c, R a b -> R b c -> R a c) ->
  (forall claims r r' claims', turn_step claims r r' claims' -> R r r') ->
  vrun v v' -> view_ok v -> forall id r, v_turns v !! id = Some r ->
  exists r', v_turns v' !! id = Some r' /\ R r r'.
Proof.
  intros Hrefl Htrans Hstep Hrun. induction Hrun as [v|v v1 v2 Hv _ IH]; intros Hok id r Hr.
  - exists r. auto.
  - destruct (vstep_row _ _ _ _ Hv Hok Hr) as (r1 & Hr1 & H1).
    destruct (IH (vstep_ok _ _ Hv Hok) _ _ Hr1) as (r2 & Hr2 & H2). exists r2. split; [done|].
    apply Htrans with r1; [|done]. destruct H1 as [->|H1]; [done | by eapply Hstep].
Qed.

Lemma vrun_claims v v' : vrun v v' -> v_claims v ⊆ v_claims v'.
Proof.
  induction 1 as [|v v1 v2 Hv _ IH]; [done|]. etrans; [by apply vstep_claims | done].
Qed.

(** What a row never loses. *)
Definition grows (r r' : turn) : Prop :=
  kept r r' /\ t_claim_count r <= t_claim_count r' /\ t_attempt_count r <= t_attempt_count r'.

Lemma vrun_grows v v' id r :
  vrun v v' -> view_ok v -> v_turns v !! id = Some r ->
  exists r', v_turns v' !! id = Some r' /\ grows r r'.
Proof.
  intros Hrun Hok Hr. apply (vrun_row grows v v'); try done.
  - intros x. split; [auto with tb | lia].
  - intros a b c (? & ? & ?) (? & ? & ?). split; [by eapply kept_trans | lia].
  - intros claims x x' claims' Hs. split; [by eapply step_kept | by eapply step_counts].
Qed.

Definition cancelling_states : list string := [as_str Cancelling; as_str CancellingClient].

Lemma cancelling_moves :
  Forall (fun p => (if String.eqb p.1 "cancelling" || String.eqb p.1 "cancelling_client"
                    then String.eqb p.2 "cancelled" else true) = true) moves.
Proof. repeat constructor. Qed.

Lemma cancelling_step claims r r' claims' :
  turn_step claims r r' claims' -> t_status r ∈ cancelling_states ->
  t_status r' = t_status r \/ t_status r' = as_str Cancelled.
Proof.
  intros [? ? ? ? Hc | Hm] Hs; unfold cancelling_states in Hs; cbn in Hs;
    set_unfold in Hs.
  - apply status_in_elem in Hc. unfold claimable in Hc. set_unfold in Hc.
    destruct_or!; congruence.
  - unfold status_move in Hm. apply orb_true_iff in Hm as [Hm|Hm].
    + apply andb_true_iff in Hm as [Hm _]. apply String.eqb_eq in Hm. auto.
    + apply existsb_true in Hm as ([x y] & Hin & Hxy). apply andb_true_iff in Hxy as [Hx Hy].
      apply String.eqb_eq in Hx, Hy. subst x y. right.
      pose proof cancelling_moves as Hall. rewrite Forall_forall in Hall.
      specialize (Hall _ Hin). cbn [fst snd] in Hall.
      destruct Hs as [Hs | [Hs | []]]; rewrite Hs in Hall; by apply String.eqb_eq.
Qed.

Lemma cancelled_is_ended r : t_status r = as_str Cancelled -> ended_turn r = true.
Proof. unfold ended_turn, status_in. by intros ->. Qed.

Lemma vrun_cancelling v v' id r :
  vrun v v' -> view_ok v -> v_turns v !! id = Some r -> t_status r ∈ cancelling_states ->
  exists r', v_turns v' !! id = Some r' /\
    (t_status r' = t_status r \/ t_status r' = as_str Cancelled).
Proof.
  intros Hrun Hok Hr Hs.
  destruct (vrun_row (fun a b => (t_status a ∈ cancelling_states \/ t_status a = as_str Cancelled) ->
      t_status b = t_status a \/ t_status b = as_str Cancelled) v v') with (id := id) (r := r)
    as (r' & Hr' & H'); try done; auto.
  - intros a b c Hab Hbc Ha. destruct (Hab Ha) as [Hb|Hb].
    + rewrite <- Hb. apply Hbc. by rewrite Hb.
    + destruct (Hbc (or_intror Hb)) as [Hc|Hc]; [right; congruence | auto].
  - intros claims x x' claims' Hstep [Hx|Hx]; [by eapply cancelling_step|].
    apply step_from_live in Hstep. apply cancelled_is_ended in Hx. congruence.
  - exists r'. eauto.
Qed.

(** A turn that ended is out of reach: its row and its journal row stay. *)
Definition terminals_of (id : Z) (v : view) : list event :=
  List.filter (fun e => bool_decide (e_turn_id e = Some id)) (v_terminals v).

Lemma vstep_ended v v' id r :
  vstep v v' -> view_ok v -> v_turns v !! id = Some r -> ended_turn r = true ->
  v_turns v' !! id = Some r /\ terminals_of id v' = terminals_of id v.
Proof.
  intros Hv Hok Hr Hend. destruct (vstep_row _ _ _ _ Hv Hok Hr) as (r' & Hr' & [->|Hs]).
  2: { apply step_from_live in Hs. congruence. }
  split; [done|]. unfold terminals_of.
  destruct Hv as [->|x x' Hx Ht Hstep _ _ _ _ Hterm|x _ _ _ _ _ _ _ _ _ _ ->]; [done| |done].
  unfold terminals_step in Hterm. destruct (ended_turn x'); [|by rewrite Hterm].
  destruct Hterm as (e & -> & He & _). rewrite List.filter_app. cbn.
  rewrite He, (kept_id _ _ (step_kept _ _ _ _ Hstep)).
  rewrite bool_decide_eq_false_2; [by rewrite app_nil_r|]. intros [= Hid].
  pose proof (step_from_live _ _ _ _ Hstep) as Hlive. congruence.
Qed.

Lemma vrun_ended v v' id r :
  vrun v v' -> view_ok v -> v_turns v !! id = Some r -> ended_turn r = true ->
  v_turns v' !! id = Some r /\ terminals_of id v' = terminals_of id v.
Proof.
  intros Hrun. induction Hrun as [|v v1 v2 Hv _ IH]; intros Hok Hr Hend; [done|].
  destruct (vstep_ended _ _ _ _ Hv Hok Hr Hend) as [Hr1 H1].
  destruct (IH (vstep_ok _ _ Hv Hok) Hr1 Hend) as [Hr2 H2]. split; [done | congruence].
Qed.

(** The empty tables are well formed. *)
Lemma empty_view_ok : view_ok (MkView ∅ ∅ ∅ ∅ []).
Proof.
  constructor; try (by intros; set_solver); try (intros *; rewrite lookup_empty; done).
  split_and!; [apply map_Forall_empty.. | constructor].
Qed.

Section Theorems.
Context {W C : Type} `{P : TurnPeers W C}.

Definition well_formed (d : db W) : Prop := view_ok (view_of d).


(** C8: A lease token whose claim a later claim superseded is stale at every
    later time, for every turn it is presented for: no history makes a fenced
    worker current again.  (In this and the following, a history is one in
    which leases are taken directly only on turns that wait for one.) *)
Theorem superseded_lease_stays_stale (d d' : db W) token c r id now :
  well_formed d -> turn_run d d' ->
  d_claims d !! token = Some c -> d_turns d !! c_turn_id c = Some r ->
  c_claim_count c < t_claim_count r ->
  turn_lease_is_current_on d' id token now = Stale.
Proof.
  intros Hok Hrun Hc Hr Hlt. destruct (run_refines _ _ Hrun Hok) as [Hv _].
  pose proof (lookup_weaken _ _ _ _ Hc (vrun_claims _ _ Hv)) as Hc'.
  destruct (vrun_grows _ _ _ _ Hv Hok Hr) as (r' & Hr' & _ & Hcc & _).
  unfold turn_lease_is_current_on. change (d_claims d' !! token) with (v_claims (view_of d') !! token).
  rewrite Hc'. destruct (c_turn_id c =? id) eqn:Hid; [|done]. apply Z.eqb_eq in Hid. subst id.
  change (d_turns d' !! c_turn_id c) with (v_turns (view_of d') !! c_turn_id c). rewrite Hr'.
  replace (t_claim_count r' =? c_claim_count c) with false by (symmetry; apply Z.eqb_neq; lia).
  by rewrite !andb_false_r.
Qed.

(** C13: Once a turn is completed, failed or cancelled nothing changes its row
    again, and its journal holds one terminal row for it, the same for ever,
    whose event is the one of that outcome: in every history in which leases are
    taken directly only on turns that wait for one.  [take_lease_on_turn_inner]
    does not check that itself, and called on a cancelled turn reopens it. *)
Theorem ended_turn_is_final (d d' : db W) id r :
  well_formed d -> turn_run d d' -> d_turns d !! id = Some r -> status_in r TERMINAL = true ->
  d_turns d' !! id = Some r /\
  exists e, terminals_of id (view_of d') = [e] /\ terminals_of id (view_of d) = [e]
            /\ event_matches (t_status r) (e_event e) = true.
Proof.
  intros Hok Hrun Hr Hend. destruct (run_refines _ _ Hrun Hok) as [Hv _].
  destruct (vrun_ended _ _ _ _ Hv Hok Hr Hend) as [Hr' Hterm]. split; [done|].
  pose proof (ok_terminal _ Hok _ _ Hr) as Hone. unfold ended_turn in Hone. rewrite Hend in Hone.
  fold (terminals_of id (view_of d)) in Hone.
  destruct (terminals_of id (view_of d)) as [|e [|]] eqn:He; try done.
  exists e. rewrite Hterm. split_and!; try done.
  assert (Hin : e ∈ terminals_of id (view_of d)) by (rewrite He; left).
  apply filter_elem in Hin as [Hin Hid]. apply bool_decide_eq_true in Hid.
  by apply (ok_outcome _ Hok id r e).
Qed.

(** C30: A cancellation is never lost, in every history in which leases are taken
    directly only on turns that wait for one: a turn that was asked to cancel
    stays in the same state until it is cancelled, and reaches no other.
    ([take_lease_on_turn_inner], which does not check that, is the exception.) *)
Theorem cancellation_is_never_lost (d d' : db W) id r :
  well_formed d -> turn_run d d' -> d_turns d !! id = Some r ->
  t_status r ∈ [as_str Cancelling; as_str CancellingClient] ->
  exists r', d_turns d' !! id = Some r'
    /\ (t_status r' = t_status r \/ t_status r' = as_str Cancelled).
Proof.
  intros Hok Hrun Hr Hs. destruct (run_refines _ _ Hrun Hok) as [Hv _].
  by apply (vrun_cancelling _ _ _ _ Hv).
Qed.

(** A turn's accounting only grows and stays in its columns: claims,
    attempts, model steps, steer revision and every usage total never go back,
    the attempt budget is fixed and never exceeded, totals fit their widths. *)
Lemma accounting_grows_within_bounds (d d' : db W) id r :
  well_formed d -> turn_run d d' -> d_turns d !! id = Some r ->
  exists r', d_turns d' !! id = Some r'
    /\ t_max_attempts r' = t_max_attempts r
    /\ t_attempt_count r <= t_attempt_count r' <= t_max_attempts r
    /\ t_claim_count r <= t_claim_count r' <= I32_MAX
    /\ t_model_steps r <= t_model_steps r' <= I32_MAX
    /\ t_steer_revision r <= t_steer_revision r'
    /\ covers (t_usage r') (t_usage r) = true /\ usage_fits (t_usage r') = true.
Proof.
  intros Hok Hrun Hr. destruct (run_refines _ _ Hrun Hok) as [Hv Hok'].
  destruct (vrun_grows _ _ _ _ Hv Hok Hr) as (r' & Hr' & [] & ? & ?). exists r'. split; [done|].
  pose proof (ok_rows _ Hok' _ _ Hr') as Hrow.
  unfold row_ok, width_check, attempt_check, totals_check in Hrow. bool_props.
  split_and!; try done; lia.
Qed.

(** No instruction is left hanging: in every history an instruction that is
    still pending belongs to a turn that has not ended. *)
Lemma pending_steers_belong_to_live_turns (d d' : db W) id s :
  well_formed d -> turn_run d d' -> d_steers d' !! id = Some s -> s_status s = "pending" ->
  exists r, d_turns d' !! s_turn_id s = Some r /\ status_in r TERMINAL = false.
Proof.
  intros Hok Hrun Hs Hp. destruct (run_refines _ _ Hrun Hok) as [_ Hok'].
  assert (Hpend : pending s = true) by (unfold pending; by rewrite Hp).
  destruct (ok_refs _ Hok') as (_ & Rs & _). destruct (Rs _ _ Hs) as [r Hr].
  exists r. split; [done|]. by apply (ok_quiet _ Hok' id s r).
Qed.

(** The columns of an accepted turn, by the status it decodes to. *)
Definition typed (r : turn) (s : TurnRunStatus) : Prop :=
  turn_run_status_from_db (t_status r) = Ok s /\
  (t_input_message_id r <> None ->
   (is_some (t_lease_token r) = true <-> s = Running \/ s = Cancelling) /\
   (is_some (t_lease_expires_at r) = is_some (t_lease_token r)) /\
   (is_some (t_ended_at r) = is_terminal s) /\
   (is_some (t_last_error_code r) = true <-> s = RetryWait \/ s = Failed) /\
   (s = Completed -> is_some (t_output_message_id r) = true) /\
   (is_some (t_output_message_id r) = true -> s = Completed \/ s = Cancelled)) /\
  1 <= t_max_attempts r /\ 0 <= t_attempt_count r <= t_claim_count r.

Lemma merged_decodes text :
  existsb (String.eqb text) MERGED_STATUS = true ->
  exists s, turn_run_status_from_db text = Ok s.
Proof.
  intros Hin. apply str_in_elem in Hin. unfold MERGED_STATUS in Hin.
  repeat (apply elem_of_cons in Hin as [->|Hin]; [by eexists|]). by apply not_elem_of_nil in Hin.
Qed.

Lemma row_typed r : row_ok r = true -> exists s, typed r s.
Proof.
  unfold row_ok. rewrite !andb_true_iff. intros [[[[[[[[[_ Hst] Hatt] Hlease] Herr] Hend] Hout] _] _] _].
  destruct (merged_decodes _ Hst) as [s Hs]. exists s.
  unfold attempt_check in Hatt. rewrite !andb_true_iff, !Z.leb_le in Hatt.
  split; [done|]. split; [|lia]. intros Hin.
  unfold lease_check, error_check, ended_check, output_check in *.
  destruct (t_input_message_id r); [|done]. cbn [is_some negb orb] in *. clear Hin Hst Hatt.
  unfold status_in in *.
  destruct (from_db_inv _ _ Hs) as [Ht | [[Ht ->] | [Ht ->]]]; rewrite Ht in *; clear Hs Ht;
    [destruct s|..]; cbn in *;
    destruct (t_lease_token r), (t_lease_expires_at r), (t_ended_at r), (t_last_error_code r),
      (t_output_message_id r); cbn in *; try done; intuition (try done).
Qed.

(** Every row that a history leaves is well typed: its status decodes, a
    worker's lease is there exactly while it runs or cancels, an end time
    exactly once it ended, an error code exactly while it waits to retry or
    failed, an output on every completed turn and only on those or cancelled
    ones; so reading it back never fails.  (The writes of the model check the
    table's constraints, as SQLite does; this is what those constraints give a
    reader.) *)
Lemma every_row_is_typed (d d' : db W) id r :
  well_formed d -> turn_run d d' -> d_turns d' !! id = Some r ->
  (exists s, typed r s) /\
  forall d0 : db W, (turn_run_from_model r : txn W unit turn) d0 = Ok (r, d0).
Proof.
  intros Hok Hrun Hr. destruct (run_refines _ _ Hrun Hok) as [_ Hok'].
  pose proof (ok_rows _ Hok' _ _ Hr) as Hrow. destruct (row_typed _ Hrow) as [s Hs].
  split; [eauto|]. intros d0. unfold turn_run_from_model, usage_from_turn_model.
  assert (Hu : usage_fits (t_usage r) = true).
  { unfold row_ok, totals_check in Hrow. rewrite !andb_true_iff in Hrow. tauto. }
  rewrite Hu. destruct Hs as [-> _]. done.
Qed.
End Theorems.

(** The status tokens round-trip: each state reads back from the token it
    is written as, the only other tokens read are the session lane's waiting
    and interrupted, and the terminal states are those whose token ends a
    turn. *)
Lemma status_tokens_round_trip :
  (forall s, turn_run_status_from_db (as_str s) = Ok s) /\
  (forall text s, turn_run_status_from_db text = Ok s ->
     text = as_str s \/ text = "waiting" \/ text = "interrupted") /\
  (forall s, is_terminal s = true <-> as_str s ∈ TERMINAL) /\
  (forall s, is_live s = negb (is_terminal s)).
Proof.
  split_and!.
  - by intros [].
  - intros text s Hs. destruct (from_db_inv _ _ Hs) as [? | [[? _] | [? _]]]; auto.
  - intros s. rewrite <- str_in_elem. by destruct s.
  - by intros [].
Qed.
