(* ===== verification/TurnAnswers.v ===== *)
(** * What a claim takes and answers

    The order of the claim scan, and that a claim answers in one pass. *)
From stdpp Require Import gmap.
From S2P Require Import Prelude RustStr TurnTables TurnLeases TurnResolve TurnCancel TurnParks TurnSteers.
From S2P Require Import TurnPlacements TurnAdmission TurnSpec TurnRefine TurnSettles TurnProgress TurnMachine.

Open Scope Z_scope.

(** ** Order of the scan *)

Lemma key_refl k : key_leb k k = true.
Proof. destruct k as [[a b] c]. cbn. rewrite !Z.eqb_refl, Z.leb_refl. by rewrite !orb_true_r. Qed.

Lemma key_iff a b c a' b' c' :
  key_leb (a, b, c) (a', b', c') = true <->
  a < a' \/ a = a' /\ (b < b' \/ b = b' /\ c <= c').
Proof.
  cbn. rewrite !orb_true_iff, !andb_true_iff, !orb_true_iff, !andb_true_iff, !Z.ltb_lt, !Z.eqb_eq, Z.leb_le.
  done.
Qed.

Lemma key_trans x y z : key_leb x y = true -> key_leb y z = true -> key_leb x z = true.
Proof.
  destruct x as [[? ?] ?], y as [[? ?] ?], z as [[? ?] ?]. rewrite !key_iff. lia.
Qed.

Lemma key_total x y : key_leb x y = false -> key_leb y x = true.
Proof.
  destruct x as [[a b] c], y as [[a' b'] c']. rewrite key_iff.
  intros Hx. assert (Hn : ~ (a < a' \/ a = a' /\ (b < b' \/ b = b' /\ c <= c')))
    by (rewrite <- key_iff; congruence). lia.
Qed.

Lemma first_by_least k l r :
  first_by k l = Some r -> Forall (fun x => key_leb (k r) (k x) = true) l.
Proof.
  revert r. induction l as [|x l IH]; [done|]. intros r. rewrite first_by_cons.
  destruct (first_by k l) as [b|] eqn:Hb.
  - specialize (IH _ eq_refl). destruct (key_leb (k x) (k b)) eqn:Hx; intros [= <-].
    + constructor; [apply key_refl|]. eapply Forall_impl; [exact IH|].
      intros y Hy. by eapply key_trans.
    + constructor; [by apply key_total | done].
  - intros [= <-]. constructor; [apply key_refl|]. destruct l as [|y l]; [constructor|].
    rewrite first_by_cons in Hb. destruct (first_by k l); [by case_match|done].
Qed.

Lemma first_by_none k l : first_by k l = None -> l = [].
Proof. destruct l as [|x l]; [done|]. rewrite first_by_cons. destruct (first_by k l); [by case_match|done]. Qed.

Section Claims.
Context {W C : Type} `{P : TurnPeers W C}.

Definition candidate (d : db W) (now : Z) (r : turn) : bool :=
  due_turn_candidate_condition d now r || expired_turn_candidate_condition d now r.

(** On a candidate the scans order by [due_key]. *)
Lemma due_scan_key (d : db W) now r :
  due_turn_candidate_condition d now r = true ->
  (default 0 (t_available_at r), t_started_at r, t_id r) = due_key r.
Proof.
  unfold due_turn_candidate_condition, due_key, due_at. intros H. bool_props.
  assert (Hs : String.eqb (t_status r) (as_str Running) || String.eqb (t_status r) (as_str Cancelling)
               = false).
  { match goal with H : _ \/ _ |- _ => destruct H as [H|H] end; bool_props.
    - match goal with H : t_status r = _ |- _ => by rewrite H end.
    - match goal with H : status_in _ _ = true |- _ => apply status_in_elem in H; set_unfold in H;
        destruct H as [H | [H | []]]; by rewrite H end. }
  rewrite Hs. destruct (t_available_at r); [done|]. by cbn in *.
Qed.

Lemma expired_scan_key (d : db W) now r :
  expired_turn_candidate_condition d now r = true ->
  (default 0 (t_lease_expires_at r), t_started_at r, t_id r) = due_key r.
Proof.
  unfold expired_turn_candidate_condition, due_key, due_at. intros H. bool_props.
  assert (Hs : String.eqb (t_status r) (as_str Running) || String.eqb (t_status r) (as_str Cancelling)
               = true).
  { match goal with H : status_in _ _ = true |- _ => apply status_in_elem in H; set_unfold in H;
        destruct H as [H | [H | []]]; by rewrite H end. }
  rewrite Hs. destruct (t_lease_expires_at r); [done|]. by cbn in *.
Qed.

Lemma scan_least (f : turn -> bool) k (d : db W) r :
  (forall x, f x = true -> k x = due_key x) ->
  first_by k (List.filter f (rows d)) = Some r ->
  f r = true /\ (forall x, x ∈ rows d -> f x = true -> key_leb (due_key r) (due_key x) = true).
Proof.
  intros Hk Hf. pose proof (first_by_elem _ _ _ Hf) as Hin. apply filter_elem in Hin as [_ Hr].
  split; [done|]. intros x Hx Hfx. pose proof (first_by_least _ _ _ Hf) as Hall.
  rewrite Forall_forall in Hall. rewrite <- !Hk by done. apply Hall. by apply filter_elem.
Qed.

Lemma scan_none (f : turn -> bool) k (d : db W) :
  first_by k (List.filter f (rows d)) = None -> forall x, x ∈ rows d -> f x = false.
Proof.
  intros Hf x Hx. apply first_by_none in Hf. destruct (f x) eqn:E; [|done].
  assert (Hin : x ∈ List.filter f (rows d)) by (by apply filter_elem). rewrite Hf in Hin.
  by apply not_elem_of_nil in Hin.
Qed.

(** The claim scan takes the turn that has waited longest: its candidate is
    a row that is due or whose lease expired, no other such row comes before
    it in the order of due time, start time and id, and there is none only
    when no row is due or expired. *)
Lemma claim_candidate_is_earliest (d : db W) now :
  match claim_candidate d now with
  | Some r => r ∈ rows d /\ candidate d now r = true
      /\ (forall x, x ∈ rows d -> candidate d now x = true -> key_leb (due_key r) (due_key x) = true)
  | None => forall x, x ∈ rows d -> candidate d now x = false
  end.
Proof.
  unfold claim_candidate, turn_run_due_order_is_le, candidate.
  destruct (due_turn d now) as [a|] eqn:Ha, (expired_turn d now) as [b|] eqn:Hb.
  all: unfold due_turn in Ha; unfold expired_turn in Hb.
  all: try (pose proof (first_by_elem _ _ _ Ha) as Hina; apply filter_elem in Hina as [Hina _];
            apply scan_least in Ha as [Ha La]; [|apply due_scan_key]).
  all: try (pose proof (first_by_elem _ _ _ Hb) as Hinb; apply filter_elem in Hinb as [Hinb _];
            apply scan_least in Hb as [Hb Lb]; [|apply expired_scan_key]).
  - destruct (key_leb _ _) eqn:Hab.
    + rewrite Ha. split_and!; try done. intros x Hx Hc. apply orb_true_iff in Hc as [Hc|Hc]; [auto|].
      eapply key_trans; [exact Hab | auto].
    + rewrite Hb, orb_true_r. split_and!; try done. intros x Hx Hc.
      apply orb_true_iff in Hc as [Hc|Hc]; [|auto].
      eapply key_trans; [apply key_total; exact Hab | auto].
  - pose proof (scan_none _ _ _ Hb) as Nb. rewrite Ha. split_and!; try done.
    intros x Hx. rewrite Nb, orb_false_r by done. auto.
  - pose proof (scan_none _ _ _ Ha) as Na. rewrite Hb, orb_true_r. split_and!; try done.
    intros x Hx. rewrite Na by done. auto.
  - intros x Hx. by rewrite (scan_none _ _ _ Ha), (scan_none _ _ _ Hb).
Qed.

(** The idle fast path changes nothing: a claim that reads first whether
    there is any work, and returns when there is none, answers and stores
    exactly what the locked scan would have. *)
Lemma claim_fast_path_is_exact token now expires dbnow (d : db W) :
  token <> 0 -> canonical_db_timestamp now < canonical_db_timestamp expires ->
  claim_turn token now expires dbnow d
  = begin (claim_turn_pass token (canonical_db_timestamp now) (canonical_db_timestamp expires) dbnow) d.
Proof.
  intros Ht He. unfold claim_turn. cbv zeta. set (t := canonical_db_timestamp now) in *.
  rewrite (proj2 (Z.eqb_neq _ _) Ht), (proj2 (Z.leb_gt _ _) He).
  destruct (any_turn_claim_work_on d token t) eqn:Hwork; [done|]. cbn [negb].
  unfold any_turn_claim_work_on in Hwork. apply orb_false_iff in Hwork as [Hwork Hrows].
  apply orb_false_iff in Hwork as [Hev Hcl]. unfold begin, claim_turn_pass, mbind, stm_bind, get.
  assert (Hf : List.find (scanned token) (d_events d) = None).
  { destruct (List.find _ _) eqn:E; [|done]. apply find_some in E as [Hin Hs].
    rewrite existsb_false, Forall_forall in Hev. apply list_elem_of_In in Hin.
    specialize (Hev _ Hin). congruence. }
  rewrite Hf. destruct (d_claims d !! token); [done|].
  destruct (claim_candidate d t) as [r|] eqn:Hc; [|done]. exfalso.
  assert (Hin : r ∈ rows d /\ candidate d t r = true).
  { pose proof Hc as Hc'. revert Hc'. unfold claim_candidate.
    destruct (due_turn d t) as [a|] eqn:Ha, (expired_turn d t) as [b|] eqn:Hb; try case_match;
      intros [= <-]; unfold candidate;
      first [apply first_by_elem, filter_elem in Ha as [? ->] 
            |apply first_by_elem, filter_elem in Hb as [? ->]]; by rewrite ?orb_true_r. }
  destruct Hin as [Hin Hcand]. rewrite existsb_false, Forall_forall in Hrows.
  specialize (Hrows _ Hin). unfold candidate in Hcand. cbn in Hrows. congruence.
Qed.
End Claims.

Open Scope Z_scope.

Section NoRoll.
Context {W C : Type} `{P : TurnPeers W C}.

(** A transaction body that never asks to roll back. *)
Class NoRoll {R A} (m : txn W R A) : Prop :=
  no_roll : forall d, match m d with Err (Rolled _) => False | _ => True end.

#[export] Instance noroll_ret {R A} (a : A) : NoRoll (mret a : txn W R A).
Proof. done. Qed.
#[export] Instance noroll_err {R A} m : NoRoll (err m : txn W R A).
Proof. done. Qed.
#[export] Instance noroll_get {R} : NoRoll (get : txn W R (db W)).
Proof. done. Qed.
#[export] Instance noroll_modify {R} f : NoRoll (modify f : txn W R unit).
Proof. done. Qed.
#[export] Instance noroll_try {R A} (r : result AgentError A) : NoRoll (try r : txn W R A).
Proof. by destruct r. Qed.
#[export] Instance noroll_bind {R A B} (m : txn W R A) (k : A -> txn W R B) :
  NoRoll m -> (forall a, NoRoll (k a)) -> NoRoll (m ≫= k).
Proof.
  intros Hm Hk d. unfold mbind, stm_bind. specialize (Hm d).
  destruct (m d) as [[a d']|[a|e]]; [apply Hk | done | done].
Qed.
End NoRoll.

#[export] Hint Extern 5 (NoRoll (if ?b then _ else _)) => destruct b : typeclass_instances.
#[export] Hint Extern 5 (NoRoll (match ?x with _ => _ end)) => destruct x : typeclass_instances.

Ltac rolls_not := repeat (intros; first [apply _ | apply noroll_bind]).

Section Answers.
Context {W C : Type} `{P : TurnPeers W C}.

#[export] Instance noroll_peer {R A} (f : W -> result AgentError (A * W)) : NoRoll (peer f : txn W R A).
Proof. unfold peer. rolls_not. Qed.
#[export] Instance noroll_put_turn {R} r : NoRoll (put_turn r : txn W R unit).
Proof. unfold put_turn. rolls_not. Qed.
#[export] Instance noroll_update {R} id f g : NoRoll (update_turn id f g : txn W R Z).
Proof. unfold update_turn. rolls_not. Qed.
#[export] Instance noroll_reject {R} id t : NoRoll (reject_pending_turn_steers_on id t : txn W R unit).
Proof. unfold reject_pending_turn_steers_on. rolls_not. Qed.
#[export] Instance noroll_usage {R} r : NoRoll (usage_from_turn_model r : txn W R Usage).
Proof. unfold usage_from_turn_model. rolls_not. Qed.
#[export] Instance noroll_run {R} r : NoRoll (turn_run_from_model r : txn W R turn).
Proof. unfold turn_run_from_model. rolls_not. Qed.
#[export] Instance noroll_append {R} c t l o s e : NoRoll (append_event_on c t l o s e : txn W R Z).
Proof.
  unfold append_event_on, next_event_seq, insert_event_row, insert_event, peer_. rolls_not.
Qed.
#[export] Instance noroll_scan_append {R} r c s e :
  NoRoll (append_claim_scan_terminal_event_on r c s e : txn W R _).
Proof. unfold append_claim_scan_terminal_event_on. rolls_not. Qed.
#[export] Instance noroll_insert_failure {R} t f : NoRoll (insert_failure t f : txn W R unit).
Proof. unfold insert_failure. rolls_not. Qed.
#[export] Instance noroll_find {R} id : NoRoll (find_turn id : txn W R _).
Proof. unfold find_turn. rolls_not. Qed.
#[export] Instance noroll_scan_model {R} e t : NoRoll (claim_scan_terminal_event_from_model e t : txn W R _).
Proof. unfold claim_scan_terminal_event_from_model. rolls_not. Qed.

(** The pass ends with an answer or an error. *)
Definition answers (m : txn W claim_pass claim_pass) (d : db W) : Prop :=
  match m d with
  | Ok (Again, _) | Err (Rolled Again) => False
  | _ => True
  end.

Lemma answers_bind {A} (m : txn W claim_pass A) k d :
  NoRoll m -> (forall a d', m d = Ok (a, d') -> answers (k a) d') -> answers (m ≫= k) d.
Proof.
  intros Hm Hk. unfold answers, mbind, stm_bind in *. specialize (Hm d).
  destruct (m d) as [[a d']|[a|e]] eqn:E; [by apply Hk | done | done].
Qed.

Lemma answers_ret o d : answers (mret (Answer o)) d.
Proof. done. Qed.
Lemma answers_err m d : answers (err m) d.
Proof. done. Qed.

(** A statement whose filter holds of the row it reads changes that row. *)
Lemma update_hits {R} (d : db W) id f g r n d' :
  d_turns d !! id = Some r -> f r = true ->
  (update_turn id f g : txn W R Z) d = Ok (n, d') -> n = 1.
Proof.
  intros Hr Hf. unfold update_turn, mbind, stm_bind, get. rewrite Hr, Hf.
  destruct (put_turn (g r) d) as [[? ?]|]; [|done]. by intros [= <- _].
Qed.

Lemma lock_same {R} (d d' : db W) chat b :
  (acquire_chat_write_lock chat : txn W R bool) d = Ok (b, d') -> d' = d.
Proof. by intros [= _ <-]. Qed.

Lemma get_same {R} (d d' b : db W) : (get : txn W R (db W)) d = Ok (b, d') -> d' = d /\ b = d.
Proof. by intros [= <- <-]. Qed.

Lemma col_lte_some a t : col_lte a t = true -> exists x, a = Some x /\ x <= t.
Proof. destruct a as [x|]; [|done]. cbn. rewrite Z.leb_le. eauto. Qed.

Lemma expired_columns (d : db W) now r :
  expired_turn_candidate_condition d now r = true ->
  (exists e, t_lease_expires_at r = Some e /\ e <= now) /\
  (exists u, t_updated_at r = Some u /\ u <= now).
Proof.
  unfold expired_turn_candidate_condition. rewrite !andb_true_iff. intros [[[_ He] Hu] _].
  split; by apply col_lte_some.
Qed.
Lemma due_columns (d : db W) now r :
  due_turn_candidate_condition d now r = true ->
  (exists a, t_available_at r = Some a /\ a <= now) /\
  (exists u, t_updated_at r = Some u /\ u <= now).
Proof.
  unfold due_turn_candidate_condition. rewrite !andb_true_iff. intros [[[_ Ha] Hu] _].
  split; by apply col_lte_some.
Qed.

Lemma rows_found (d : db W) r : well_formed d -> r ∈ rows d -> d_turns d !! t_id r = Some r.
Proof. intros Hok Hin. by apply rows_elem. Qed.

(** A live lease of a well-formed row: token and receipt. *)
Lemma lease_token_some (d : db W) r :
  well_formed d -> d_turns d !! t_id r = Some r -> t_input_message_id r <> None ->
  status_in r ["running"; "cancelling"] = true -> is_some (t_lease_token r) = true.
Proof.
  intros Hok Hr Hin Hs. pose proof (ok_rows _ Hok _ _ Hr) as Hrow. unfold row_ok, lease_check in Hrow.
  rewrite Hs in Hrow. destruct (t_input_message_id r); [|done]. cbn in Hrow. by bool_props.
Qed.

Lemma claim_cancelling_answers (d : db W) r token now :
  d_turns d !! t_id r = Some r -> t_status r = "cancelling" ->
  col_eq (t_lease_token r) (t_lease_token r) = true ->
  expired_turn_candidate_condition d now r = true ->
  answers (claim_cancelling r token now) d.
Proof.
  intros Hr Hs Htok Hc. destruct (expired_columns _ _ _ Hc) as [(e & He & Hle) (u & Hu & Hlu)].
  unfold claim_cancelling. apply answers_bind; [unfold acquire_chat_write_lock; rolls_not|].
  intros b d' Hl. apply lock_same in Hl as ->. destruct (negb b); [apply answers_err|].
  apply answers_bind; [apply _|]. intros n d1 Hn.
  apply (update_hits _ _ _ _ _ _ _ Hr) in Hn.
  2: { rewrite Hs, Z.eqb_refl, Htok, He, Hu. cbn. rewrite !Z.eqb_refl, !(proj2 (Z.leb_le _ _)); done. }
  subst n. cbn [negb Z.eqb Pos.eqb]. apply answers_bind; [apply _|]. intros ? d2 _.
  apply answers_bind; [apply _|]. intros ? d3 _. apply answers_bind; [apply _|]. intros ? d4 _.
  apply answers_ret.
Qed.

(** The agent runs of a failing turn are cancelled, or the transaction fails. *)
Definition children_cancel (d : db W) : Prop :=
  forall r now w, cancel_sandbox_children_for_origin_turn_on (d_peers d) r now ParentTurnFailed
                  <> Ok (false, w).

Lemma claim_exhausted_answers (d : db W) r token now dbnow :
  d_turns d !! t_id r = Some r -> t_status r = "running" ->
  col_eq (t_lease_token r) (t_lease_token r) = true -> children_cancel d ->
  expired_turn_candidate_condition d now r = true ->
  answers (claim_exhausted r token now dbnow) d.
Proof.
  intros Hr Hs Htok Hpeers Hc. destruct (expired_columns _ _ _ Hc) as [(e & He & Hle) (u & Hu & Hlu)].
  unfold claim_exhausted. apply answers_bind; [unfold acquire_chat_write_lock; rolls_not|].
  intros b d' Hl. apply lock_same in Hl as ->. destruct (negb b); [apply answers_err|]. cbv zeta.
  set (tnow := Z.max now (canonical_db_timestamp dbnow)).
  rewrite He, Hu. cbn [col_lte col_gt].
  rewrite (proj2 (Z.leb_le e tnow)) by lia. rewrite (proj2 (Z.ltb_ge tnow u)) by lia. cbn [negb orb].
  apply answers_bind; [apply _|]. intros ok d1 Hok.
  assert (ok = true /\ d_turns d1 = d_turns d) as [-> Ht].
  { revert Hok. unfold peer, mbind, stm_bind, get, try.
    destruct (cancel_sandbox_children_for_origin_turn_on _ _ _ _) as [[[] w]|] eqn:E; [| |done].
    - by intros [= <- <-].
    - by apply Hpeers in E. }
  cbn [negb]. apply answers_bind; [apply _|]. intros n d2 Hn.
  rewrite <- Ht in Hr. apply (update_hits _ _ _ _ _ _ _ Hr) in Hn.
  2: { rewrite Hs, Z.eqb_refl, Htok, He, Hu. cbn. by rewrite !Z.eqb_refl. }
  subst n. cbn [negb Z.eqb Pos.eqb]. apply answers_bind; [apply _|]. intros ? d3 _.
  destruct (t_lease_token r); [|apply answers_err].
  apply answers_bind; [apply _|]. intros ? d4 _. apply answers_bind; [apply _|]. intros ? d5 _.
  apply answers_ret.
Qed.

(** A row the scan may claim afresh. *)
Definition reclaimable (d : db W) (now : Z) (r : turn) : Prop :=
  due_turn_candidate_condition d now r = true \/
  t_status r = "running" /\ col_eq (t_lease_token r) (t_lease_token r) = true
  /\ expired_turn_candidate_condition d now r = true.

Lemma due_not_running (d : db W) now r :
  due_turn_candidate_condition d now r = true -> String.eqb (t_status r) (as_str Running) = false.
Proof.
  unfold due_turn_candidate_condition. rewrite !andb_true_iff, orb_true_iff. intros [[[[Hs|Hs] _] _] _].
  - apply String.eqb_eq in Hs. by rewrite Hs.
  - apply andb_true_iff in Hs as [Hs _]. apply status_in_elem in Hs. set_unfold in Hs.
    destruct Hs as [Hs | [Hs | []]]; by rewrite Hs.
Qed.

Lemma segment_free (d : db W) r :
  well_formed d -> d_turns d !! t_id r = Some r -> segment_taken d (t_id r) (t_claim_count r + 1) = false.
Proof.
  intros Hok Hr. apply segment_taken_false. intros k o Ho Hid Hn.
  assert (Hrow : v_turns (view_of d) !! c_turn_id o = Some r) by (by rewrite Hid).
  pose proof (ok_claims _ Hok _ _ _ Ho Hrow). lia.
Qed.

Lemma claim_filter_hits (d : db W) now r :
  reclaimable d now r ->
  String.eqb (t_status r) (t_status r) && (t_attempt_count r =? t_attempt_count r)
  && (t_claim_count r =? t_claim_count r) && col_eq (t_updated_at r) (t_updated_at r)
  && (if String.eqb (t_status r) (as_str Running)
      then col_eq (t_lease_token r) (t_lease_token r)
           && col_eq (t_lease_expires_at r) (t_lease_expires_at r)
      else col_lte (t_available_at r) now) = true.
Proof.
  rewrite String.eqb_refl, !Z.eqb_refl. cbn [andb]. intros [Hc | (Hs & Htok & Hc)].
  - destruct (due_columns _ _ _ Hc) as [(a & Ha & Hla) (u & Hu & _)].
    rewrite (due_not_running _ _ _ Hc), Ha, Hu. cbn. rewrite Z.eqb_refl. by apply Z.leb_le.
  - destruct (expired_columns _ _ _ Hc) as [(e & He & _) (u & Hu & _)].
    rewrite Hs, Htok, He, Hu. cbn. by rewrite !Z.eqb_refl.
Qed.

Lemma claim_segment_answers (d : db W) r token now expires :
  well_formed d -> d_turns d !! t_id r = Some r -> d_claims d !! token = None ->
  reclaimable d now r -> answers (claim_segment r token now expires) d.
Proof.
  intros Hok Hr Hfresh Hc. unfold claim_segment.
  destruct (if String.eqb _ _ then _ else _) as [attempt|]; [|apply answers_err].
  destruct (checked_succ I32_MAX (t_claim_count r)) as [claim|] eqn:Hn; [|apply answers_err].
  apply succ_le in Hn as ->. apply answers_bind; [apply _|]. intros before d0 Hget.
  apply get_same in Hget as [-> ->].
  apply answers_bind; [unfold insert_claim; rolls_not|]. intros b d1 Hins.
  assert (b = true /\ d_turns d1 = d_turns d) as [-> Ht].
  { revert Hins. unfold insert_claim, mbind, stm_bind, get.
    destruct (negb (claim_row_ok _)); [done|]. rewrite Hfresh. cbn [is_some orb c_turn_id c_claim_count].
    rewrite segment_free by done. by intros [= <- <-]. }
  cbn [negb]. apply answers_bind; [apply _|]. intros n d2 Hup. rewrite <- Ht in Hr.
  apply (update_hits _ _ _ _ _ _ _ Hr) in Hup; [|by eapply claim_filter_hits].
  subst n. cbn [negb Z.eqb Pos.eqb]. apply answers_bind; [apply _|]. intros run d3 _.
  destruct run as [run|]; [|apply answers_err].
  apply answers_bind; [apply _|]. intros ? d4 _. apply answers_ret.
Qed.

(** The chat lane's rows were accepted with their message. *)
Definition lane_has_inputs (d : db W) : Prop :=
  forall r, r ∈ rows d -> code_session d (t_session_id r) = false -> t_input_message_id r <> None.

Lemma expired_token (d : db W) now r :
  well_formed d -> lane_has_inputs d -> r ∈ rows d ->
  expired_turn_candidate_condition d now r = true ->
  col_eq (t_lease_token r) (t_lease_token r) = true.
Proof.
  intros Hok Hin Hr. unfold expired_turn_candidate_condition. rewrite !andb_true_iff, negb_true_iff.
  intros [[[Hs _] _] Hcode]. pose proof (rows_found _ _ Hok Hr) as Hrow.
  assert (Htok : is_some (t_lease_token r) = true).
  { apply (lease_token_some d); [done..|by apply Hin | done]. }
  destruct (t_lease_token r); [cbn; by rewrite Z.eqb_refl | done].
Qed.

Lemma candidate_in_rows (d : db W) now r :
  claim_candidate d now = Some r ->
  r ∈ rows d /\ (due_turn_candidate_condition d now r = true
                \/ expired_turn_candidate_condition d now r = true).
Proof.
  unfold claim_candidate.
  destruct (due_turn d now) as [a|] eqn:Ha, (expired_turn d now) as [b|] eqn:Hb; try case_match;
    intros [= <-];
    first [apply first_by_elem, filter_elem in Ha as [? ?]; by auto
          |apply first_by_elem, filter_elem in Hb as [? ?]; by auto].
Qed.

(** The claim loop ends with its first pass: run one transaction at a
    time, on well-formed tables, a claim answers or fails and never rolls back
    to look again. *)
Lemma claim_answers_in_one_pass token now expires dbnow (d : db W) :
  well_formed d -> lane_has_inputs d -> children_cancel d ->
  (claim_turn token now expires dbnow d).1 <> Ok Again.
Proof.
  intros Hok Hin Hpeers. unfold claim_turn. cbv zeta.
  set (t := canonical_db_timestamp now). set (x := canonical_db_timestamp expires).
  destruct (token =? 0); [done|]. destruct (x <=? t); [done|]. destruct (negb _); [done|].
  enough (Ha : answers (claim_turn_pass token t x dbnow) d).
  { unfold answers, begin in *. destruct (claim_turn_pass _ _ _ _ d) as [[[] ?]|[[]|]]; cbn; congruence. }
  unfold claim_turn_pass. apply answers_bind; [apply _|]. intros d1 d0 Hget.
  apply get_same in Hget as [-> ->]. destruct (List.find _ _).
  { apply answers_bind; [apply _|]. intros ? ? _. apply answers_ret. }
  destruct (d_claims d !! token) eqn:Hcl.
  { destruct (claimed_segment _ _ _ _); [|apply answers_ret].
    apply answers_bind; [apply _|]. intros ? ? _. apply answers_ret. }
  destruct (claim_candidate d t) as [r|] eqn:Hc; [|apply answers_ret].
  apply candidate_in_rows in Hc as [Hr Hc]. pose proof (rows_found _ _ Hok Hr) as Hrow.
  destruct (String.eqb (t_status r) (as_str Cancelling)) eqn:Es.
  { apply String.eqb_eq in Es. destruct Hc as [Hc|Hc].
    - exfalso. unfold due_turn_candidate_condition, status_in in Hc. by rewrite Es in Hc.
    - apply claim_cancelling_answers; try done. by eapply expired_token. }
  destruct (String.eqb (t_status r) (as_str Running)) eqn:Er; cbn [andb].
  - apply String.eqb_eq in Er. destruct Hc as [Hc|Hc].
    { exfalso. apply due_not_running in Hc. by rewrite Er in Hc. }
    pose proof (expired_token _ _ _ Hok Hin Hr Hc) as Htok.
    destruct (_ <=? _); [by apply claim_exhausted_answers|].
    apply claim_segment_answers; try done. right. auto.
  - destruct Hc as [Hc|Hc]; [apply claim_segment_answers; try done; by left|].
    exfalso. unfold expired_turn_candidate_condition in Hc. rewrite !andb_true_iff in Hc.
    destruct Hc as [[[Hs _] _] _]. apply status_in_elem in Hs. set_unfold in Hs.
    destruct Hs as [Hs | [Hs | []]]; rewrite Hs in *; done.
Qed.
End Answers.
