(* ===== verification/TurnOutcomes.v ===== *)
(** * What an answer says of the database it was given from

    A completed turn had a live lease, no pending instruction and no
    outstanding child; a chat that is busy admits no second turn; a repeated
    claim repeats its answer; every row decodes. *)
From S2P Require Import Prelude RustStr TurnTables TurnLeases TurnResolve TurnCancel TurnParks.
From S2P Require Import TurnSteers TurnPlacements TurnAdmission TurnSpec TurnRefine TurnSettles.
From S2P Require Import TurnProgress TurnMachine TurnAnswers.
From S2P Require Import TurnAnswers.
From stdpp Require Import gmap.

Open Scope Z_scope.

Section Reads.
Context {W C : Type} `{P : TurnPeers W C}.

(** A call that stores nothing. *)
Class Reads {R A} (m : txn W R A) : Prop :=
  reads : forall d a d', m d = Ok (a, d') -> d' = d.

#[export] Instance reads_ret {R A} (a : A) : Reads (mret a : txn W R A).
Proof. by intros d ? ? [= _ <-]. Qed.
#[export] Instance reads_err {R A} m : Reads (err m : txn W R A).
Proof. done. Qed.
#[export] Instance reads_rollback {R A} a : Reads (rollback a : txn W R A).
Proof. done. Qed.
#[export] Instance reads_get {R} : Reads (get : txn W R (db W)).
Proof. by intros d ? ? [= _ <-]. Qed.
#[export] Instance reads_try {R A} (r : result AgentError A) : Reads (try r : txn W R A).
Proof. destruct r; [apply _ | done]. Qed.
#[export] Instance reads_bind {R A B} (m : txn W R A) (k : A -> txn W R B) :
  Reads m -> (forall a, Reads (k a)) -> Reads (m ≫= k).
Proof.
  intros Hm Hk d b d' H. unfold mbind, stm_bind in H.
  destruct (m d) as [[a d1]|] eqn:E; [|done]. apply Hm in E as ->. by eapply Hk.
Qed.

(** Every answer of a body is one of [Q], with what is stored then: a
    rollback stores what there was [before]. *)
Definition gives {R} (m : txn W R R) (before d : db W) (Q : R -> db W -> Prop) : Prop :=
  match m d with
  | Ok (a, d') => Q a d'
  | Err (Rolled a) => Q a before
  | Err (Broke _) => True
  end.

Lemma gives_read {R A} (m : txn W R A) (k : A -> txn W R R) before d Q :
  Reads m -> NoRoll m -> (forall a, m d = Ok (a, d) -> gives (k a) before d Q) ->
  gives (m ≫= k) before d Q.
Proof.
  intros Hm Hn Hk. unfold gives, mbind, stm_bind in *. specialize (Hn d).
  destruct (m d) as [[a d']|[a|e]] eqn:E; [|done|done].
  pose proof (Hm _ _ _ E) as ->. by apply Hk.
Qed.

Lemma gives_step {R A} (m : txn W R A) (k : A -> txn W R R) before d Q :
  NoRoll m -> (forall a d', m d = Ok (a, d') -> gives (k a) before d' Q) -> gives (m ≫= k) before d Q.
Proof.
  intros Hn Hk. unfold gives, mbind, stm_bind in *. specialize (Hn d).
  destruct (m d) as [[a d']|[a|e]] eqn:E; [by apply Hk | done | done].
Qed.

Lemma gives_ret {R} (a : R) before d (Q : R -> db W -> Prop) : Q a d -> gives (mret a) before d Q.
Proof. done. Qed.
Lemma gives_rollback {R} (a : R) before d (Q : R -> db W -> Prop) :
  Q a before -> gives (rollback a) before d Q.
Proof. done. Qed.
Lemma gives_err {R} m before d (Q : R -> db W -> Prop) : gives (err m) before d Q.
Proof. done. Qed.
Lemma gives_any {R} (m : txn W R R) before d (Q : R -> db W -> Prop) :
  (forall a d', Q a d') -> gives m before d Q.
Proof. unfold gives. intros HQ. by destruct (m d) as [[a ?]|[a|e]]. Qed.

Lemma gives_begin {R} (m : txn W R R) d Q a d' :
  gives m d d Q -> begin m d = (Ok a, d') -> Q a d'.
Proof.
  unfold gives, begin. destruct (m d) as [[b ?]|[b|e]]; intros HQ; [| |done]; by intros [= -> <-].
Qed.

(** What the reading statements answer. *)
Lemma lock_same_find {R} id (d d' : db W) o :
  (find_turn id : txn W R _) d = Ok (o, d') -> d' = d.
Proof. by intros [= _ <-]. Qed.
Lemma find_turn_ok {R} id (d d' : db W) o :
  (find_turn id : txn W R _) d = Ok (o, d') -> d_turns d !! id = o.
Proof. by intros [= <- _]. Qed.
Lemma claim_of_ok {R} token id (d d' : db W) c :
  (claim_of token id : txn W R _) d = Ok (Some c, d') ->
  d_claims d !! token = Some c /\ c_turn_id c = id.
Proof.
  unfold claim_of, mbind, stm_bind, get, mret, stm_ret. intros [= Hc _].
  destruct (d_claims d !! token) as [x|]; [|done].
  destruct (c_turn_id x =? id) eqn:E; [|done]. injection Hc as ->. by apply Z.eqb_eq in E.
Qed.
Lemma get_ok {R} (d d' a : db W) : (get : txn W R (db W)) d = Ok (a, d') -> a = d.
Proof. by intros [= <- _]. Qed.
Lemma try_ok {R A} (r : result AgentError A) (d d' : db W) a :
  (try r : txn W R A) d = Ok (a, d') -> r = Ok a.
Proof. destruct r; [by intros [= <- _] | done]. Qed.
End Reads.

#[export] Hint Extern 5 (Reads (if ?b then _ else _)) => destruct b : typeclass_instances.
#[export] Hint Extern 5 (Reads (match ?x with _ => _ end)) => destruct x : typeclass_instances.

Ltac reads_all := repeat (intros; first [apply _ | apply reads_bind]).

(** Run a reading step of a body. *)
Ltac give :=
  cbv zeta beta;
  match goal with
  | |- gives (err _) _ _ _ => apply gives_err
  | |- gives (mret _) _ _ _ => apply gives_ret
  | |- gives (rollback _) _ _ _ => apply gives_rollback
  | |- gives (if ?b then _ else _) _ _ _ => destruct b eqn:?
  | |- gives (match ?x with _ => _ end) _ _ _ => destruct x eqn:?
  | |- gives (_ ≫= _) _ _ _ => apply gives_read; [solve [reads_all] | solve [rolls_not] | intros ? ?]
  end.

(** Run a step that may store. *)
Ltac give_any :=
  cbv zeta beta;
  match goal with
  | |- gives (_ ≫= _) _ _ _ => apply gives_step; [solve [rolls_not] | intros ? ? _]
  | _ => give
  end.

Section Outcomes.
Context {W C : Type} `{P : TurnPeers W C}.

#[export] Instance reads_find {R} id : Reads (find_turn id : txn W R _).
Proof. unfold find_turn. reads_all. Qed.
#[export] Instance reads_claim_of {R} t id : Reads (claim_of t id : txn W R _).
Proof. unfold claim_of. reads_all. Qed.
#[export] Instance noroll_claim_of {R} t id : NoRoll (claim_of t id : txn W R _).
Proof. unfold claim_of. rolls_not. Qed.
#[export] Instance reads_lock {R} c : Reads (acquire_chat_write_lock c : txn W R _).
Proof. unfold acquire_chat_write_lock. reads_all. Qed.
#[export] Instance noroll_lock {R} c : NoRoll (acquire_chat_write_lock c : txn W R _).
Proof. unfold acquire_chat_write_lock. rolls_not. Qed.
#[export] Instance reads_usage {R} r : Reads (usage_from_turn_model r : txn W R _).
Proof. unfold usage_from_turn_model. reads_all. Qed.
#[export] Instance reads_run {R} r : Reads (turn_run_from_model r : txn W R _).
Proof. unfold turn_run_from_model. reads_all. Qed.
#[export] Instance reads_check_usage {R} a b : Reads (validate_terminal_usage a b : txn W R _).
Proof. unfold validate_terminal_usage. reads_all. Qed.
#[export] Instance noroll_check_usage {R} a b : NoRoll (validate_terminal_usage a b : txn W R _).
Proof. unfold validate_terminal_usage. rolls_not. Qed.
#[export] Instance reads_check_steps {R} a b : Reads (validate_terminal_model_steps a b : txn W R _).
Proof. unfold validate_terminal_model_steps. reads_all. Qed.
#[export] Instance noroll_check_steps {R} a b : NoRoll (validate_terminal_model_steps a b : txn W R _).
Proof. unfold validate_terminal_model_steps. rolls_not. Qed.

#[export] Instance noroll_exact_terminal {R} id l e : NoRoll (exact_terminal_event_on id l e : txn W R _).
Proof. unfold exact_terminal_event_on, peer_. rolls_not. Qed.
#[export] Instance noroll_exact_citations {R} o c : NoRoll (exact_completed_citations_on o c : txn W R _).
Proof. unfold exact_completed_citations_on. rolls_not. Qed.
#[export] Instance noroll_exact_steps {R} e s : NoRoll (validate_exact_terminal_model_steps e s : txn W R _).
Proof. unfold validate_exact_terminal_model_steps. rolls_not. Qed.

Lemma existing_gives r token output citations steps ev (before d : db W)
    (Q : option (JournaledTurnOutcome CompleteTurnRunOutcome) -> db W -> Prop) :
  (forall x e d', Q (Some (MkJournaled (CtExisting x) e None)) d') ->
  gives (complete_existing r token output citations steps ev) before d Q.
Proof. intros HQ. unfold complete_existing. repeat give_any; apply HQ. Qed.

(** What a completion finds. *)
Definition completable (d : db W) (id token rev now : Z) : Prop :=
  exists r c, d_turns d !! id = Some r /\ d_claims d !! token = Some c /\ c_turn_id c = id
    /\ owns_running r c token now = true /\ t_steer_revision r = rev
    /\ steer_pending d id = false
    /\ unsettled_sandbox_children_for_origin_turn_on (d_peers d) r = Ok [].

(** A turn is completed only by the worker that holds its lease while the
    lease lives, at the steer revision it has seen, with no instruction
    pending and every child run settled. *)
Lemma completion_needs_lease_and_quiet id token rev now output citations steps usage stop dbnow
    (d d' : db W) j t :
  complete_turn_and_append_event id token rev now output citations steps usage stop dbnow d
    = (Ok (Some j), d') ->
  j_outcome j = CtCompleted t ->
  completable d id token rev (Z.max (canonical_db_timestamp now) (canonical_db_timestamp dbnow)).
Proof.
  unfold complete_turn_and_append_event, complete_turn_inner. intros Hrun Hout.
  set (Q := fun (o : option (JournaledTurnOutcome CompleteTurnRunOutcome)) (_ : db W) =>
    forall j t, o = Some j -> j_outcome j = CtCompleted t ->
    completable d id token rev (Z.max (canonical_db_timestamp now) (canonical_db_timestamp dbnow))).
  refine (gives_begin _ _ Q _ _ _ Hrun _ _ eq_refl Hout). clear Hrun Hout j t d'.
  give. give; [give|]. give. give; [|done]. give. give; [give|]. give; [give|]. give.
  give; [|done]. give; [give|]. give; [apply existing_gives; by intros x e d' j t0 [= <-]|].
  give; [done|]. give. give. give.
  give; [give; give; destruct (steer_pending _ _); by intros j t0 [= <-]|]. give.
  give; [|do 2 give; by intros j t0 [= <-]]. apply gives_any. intros o d' j t0 _ _. exists t, c.
  repeat match goal with
  | H : find_turn _ _ = Ok _ |- _ => apply find_turn_ok in H
  | H : claim_of _ _ _ = Ok _ |- _ => apply claim_of_ok in H as [? ?]
  | H : get _ = Ok _ |- _ => apply get_ok in H; subst
  | H : try (unsettled_sandbox_children_for_origin_turn_on _ _) _ = Ok _ |- _ => apply try_ok in H
  end.
  bool_props. by split_and!.
Qed.

#[export] Instance reads_exact_accepted {R} r c m x i o s b p :
  Reads (exact_accepted_turn_on r c m x i o s b p : txn W R _).
Proof. unfold exact_accepted_turn_on. reads_all. Qed.
#[export] Instance noroll_exact_accepted {R} r c m x i o s b p :
  NoRoll (exact_accepted_turn_on r c m x i o s b p : txn W R _).
Proof. unfold exact_accepted_turn_on. rolls_not. Qed.

(** A compared turn is never called new. *)
Lemma exact_not_new {R} r c m x i o s b p (d d' : db W) out :
  (exact_accepted_turn_on r c m x i o s b p : txn W R _) d = Ok (out, d') ->
  forall t, out <> AcAccepted t.
Proof.
  unfold exact_accepted_turn_on, try, turn_run_from_model, usage_from_turn_model, mbind, stm_bind,
    mret, stm_ret, get, err, fail.
  repeat (case_match; try done; simplify_eq); intros [= <- <-]; done.
Qed.

(** A chat runs one turn at a time: while it has a live turn, no request is
    accepted for it and nothing is stored, whatever the request carries. *)
Lemma busy_chat_accepts_nothing id chat model content images documents skills voice replaces mid
    dbnow (d : db W) active :
  find_active_turn_on d chat = Some active ->
  let (answer, d') := accept_turn_inner id chat model content images documents skills voice replaces
                        mid dbnow d in
  (forall r, answer <> Ok (Outcome (AcAccepted r))) /\ d' = d.
Proof.
  intros Hbusy. destruct (accept_turn_inner _ _ _ _ _ _ _ _ _ _ _ d) as [answer d'] eqn:Hrun.
  destruct answer as [a|e].
  2: { split; [done|]. revert Hrun. unfold accept_turn_inner, begin.
       destruct (_ ≫= _) as [[? ?]|[|]]; try done. by intros [= _ <-]. }
  enough (HQ : (forall r, a <> Outcome (AcAccepted r)) /\ d' = d) by naive_solver.
  unfold accept_turn_inner in Hrun.
  refine (gives_begin _ _ (fun o d' => (forall r, o <> Outcome (AcAccepted r)) /\ d' = d) _ _ _ Hrun).
  clear Hrun. cbv zeta. do 5 give.
  match goal with H : get _ = Ok _ |- _ => apply get_ok in H as -> end.
  give. give; [give|]. give. give; [|give]. give. give.
  { give. give. split; [|done]. intros r [= ->]. by eapply exact_not_new. }
  give. give; [give|]. rewrite Hbusy. by do 2 give.
Qed.

(** *** A repeated claim *)

Lemma insert_claim_ok {R} token c (d d' : db W) :
  (insert_claim token c : txn W R bool) d = Ok (true, d') ->
  d' = with_claims (<[token := c]> (d_claims d)) d.
Proof.
  unfold insert_claim, mbind, stm_bind, get. destruct (negb _); [done|].
  destruct (_ || _); [done|]. by intros [= <-].
Qed.

Lemma update_ok {R} id f g (d d' : db W) :
  (update_turn id f g : txn W R Z) d = Ok (1, d') ->
  exists r, d_turns d !! id = Some r /\ f r = true
    /\ d' = with_turns (<[t_id (g r) := g r]> (d_turns d)) d.
Proof.
  unfold update_turn, put_turn, mbind, stm_bind, get.
  destruct (d_turns d !! id) as [r|]; [|done]. destruct (f r) eqn:Hf; [|done].
  destruct (_ && _); [|done]. intros [= <-]. eauto.
Qed.

Lemma run_ok {R} r (d d' : db W) run :
  (turn_run_from_model r : txn W R turn) d = Ok (run, d') -> run = r /\ d' = d.
Proof.
  unfold turn_run_from_model, usage_from_turn_model, mbind, stm_bind, try.
  destruct (usage_fits _); [|done]. cbn. destruct (turn_run_status_from_db _); [|done].
  by intros [= <- <-].
Qed.

(** What a claim leaves for its own retry. *)
Definition holds_segment (d : db W) (token : Z) (r : turn) : Prop :=
  List.find (scanned token) (d_events d) = None /\
  exists c, d_claims d !! token = Some c /\ c_turn_id c = t_id r /\
    d_turns d !! t_id r = Some r /\ t_status r = "running" /\
    t_attempt_count r = c_attempt_count c /\ t_claim_count r = c_claim_count c /\
    t_lease_token r = Some token /\
    (turn_run_from_model r : txn W claim_pass turn) d = Ok (r, d).

Definition claimed_post (token : Z) (a : claim_pass) (d : db W) : Prop :=
  forall r x, a = Answer (MkClaimOutcome (Some r) x) -> x = None /\ holds_segment d token r.

Ltac next := apply gives_step; [apply _ | intros ? ? ?].

Lemma cancelling_post r token now (before d : db W) :
  gives (claim_cancelling r token now) before d (claimed_post token).
Proof.
  unfold claim_cancelling. next. case_match; [done|]. next. case_match; [by intros ? ? [=]|].
  do 3 next. by intros ? ? [=].
Qed.

Lemma exhausted_post r token now dbnow (before d : db W) :
  gives (claim_exhausted r token now dbnow) before d (claimed_post token).
Proof.
  unfold claim_exhausted. next. case_match; [done|]. cbv zeta. case_match; [by intros ? ? [=]|].
  next. case_match; [by intros ? ? [=]|]. next. case_match; [by intros ? ? [=]|].
  next. case_match; [|done]. do 2 next. by intros ? ? [=].
Qed.

#[export] Instance noroll_insert_claim {R} t c : NoRoll (insert_claim t c : txn W R bool).
Proof. unfold insert_claim. rolls_not. Qed.

Lemma segment_post r token now expires (before d : db W) :
  d_turns d !! t_id r = Some r -> List.find (scanned token) (d_events d) = None ->
  gives (claim_segment r token now expires) before d (claimed_post token).
Proof.
  intros Hr Hscan. unfold claim_segment.
  destruct (if String.eqb _ _ then _ else _) as [attempt|]; [|done].
  destruct (checked_succ _ _) as [n|]; [|done].
  apply gives_step; [apply _|]. intros b d0 Hget. apply get_same in Hget as [-> ->].
  apply gives_step; [apply _|]. intros [|] d1 Hins; cbn [negb];
    [|destruct (_ || _); [by intros ? ? [=] | done]].
  apply insert_claim_ok in Hins as ->. apply gives_step; [apply _|]. intros k d2 Hup.
  destruct (negb (k =? 1)) eqn:Hk; [by intros ? ? [=]|]. apply negb_false_iff, Z.eqb_eq in Hk as ->.
  apply update_ok in Hup as (x & Hx & _ & ->). cbn in Hx.
  assert (x = r) as -> by congruence.
  set (r' := set_started_at _ _). assert (Hid : t_id r' = t_id r) by done.
  apply gives_step; [apply _|]. intros o d3 Hf. pose proof (lock_same_find _ _ _ _ Hf) as ->.
  apply find_turn_ok in Hf. cbn [d_turns with_turns] in Hf. rewrite Hid, lookup_insert_eq in Hf. subst o.
  apply gives_step; [apply _|]. intros run d4 Hrun. pose proof (run_ok _ _ _ _ Hrun) as [-> ->].
  intros y z [= <- <-]. split; [done|]. split; [done|].
  eexists. cbn [d_claims with_turns with_claims d_turns].
  rewrite Hid, !lookup_insert_eq. by split_and!.
Qed.

Lemma retry_post r c token now (before d : db W) :
  well_formed d -> d_claims d !! token = Some c -> List.find (scanned token) (d_events d) = None ->
  claimed_segment d c token now = Some r ->
  gives (run ← turn_run_from_model r; mret (Answer (MkClaimOutcome (Some run) None))) before d
    (claimed_post token).
Proof.
  intros Hok Hc Hscan. unfold claimed_segment. destruct (d_turns d !! c_turn_id c) as [x|] eqn:Hx; [|done].
  destruct (_ && col_gt _ _) eqn:Hs; [|done]. intros [= <-].
  rewrite !andb_true_iff, same_some_iff, !Z.eqb_eq, String.eqb_eq in Hs.
  destruct Hs as [[[[Hst Ha] Hn] Htok] _].
  pose proof (ok_ids _ Hok _ _ Hx) as Hid.
  apply gives_step; [apply _|]. intros run d4 Hrun. pose proof (run_ok _ _ _ _ Hrun) as [-> ->].
  intros y z [= <- <-]. split; [done|]. split; [done|]. exists c. rewrite Hid. by split_and!.
Qed.

Lemma pass_post token now expires dbnow (d : db W) :
  well_formed d -> gives (claim_turn_pass token now expires dbnow) d d (claimed_post token).
Proof.
  intros Hok. unfold claim_turn_pass. apply gives_step; [apply _|]. intros b d0 Hget.
  apply get_same in Hget as [-> ->]. destruct (List.find _ _) eqn:Hscan.
  { next. by intros ? ? [=]. }
  destruct (d_claims d !! token) as [c|] eqn:Hc.
  { destruct (claimed_segment d c token now) eqn:Hseg; [|by intros ? ? [=]]. by eapply retry_post. }
  destruct (claim_candidate d now) as [r|] eqn:Hcand; [|by intros ? ? [=]].
  apply candidate_in_rows in Hcand as [Hr _]. pose proof (rows_found _ _ Hok Hr) as Hrow.
  destruct (String.eqb _ _); [apply cancelling_post|].
  destruct (_ && _); [apply exhausted_post | by apply segment_post].
Qed.

(** Claiming is idempotent: a worker that lost the answer and claims again
    under the same token, while its lease lives, is handed the same turn and
    nothing is stored. *)
Lemma claim_retry_is_exact token now expires dbnow now2 expires2 dbnow2 (d d' : db W) r x :
  well_formed d ->
  claim_turn token now expires dbnow d = (Ok (Answer (MkClaimOutcome (Some r) x)), d') ->
  col_gt (t_lease_expires_at r) (canonical_db_timestamp now2) = true ->
  canonical_db_timestamp now2 < canonical_db_timestamp expires2 ->
  claim_turn token now2 expires2 dbnow2 d' = (Ok (Answer (MkClaimOutcome (Some r) None)), d').
Proof.
  intros Hok Hrun Hlive Hexp. unfold claim_turn in *. cbv zeta in *.
  destruct (token =? 0) eqn:Htok; [done|]. destruct (_ <=? _); [done|].
  destruct (negb _); [by injection Hrun|].
  pose proof (gives_begin _ _ _ _ _ (pass_post _ _ _ _ _ Hok) Hrun) as Hpost.
  destruct (Hpost _ _ eq_refl) as [-> (Hscan & c & Hc & Hid & Hr & Hst & Ha & Hn & Hl & Hdec)].
  rewrite (proj2 (Z.leb_gt _ _) Hexp).
  assert (Hwork : any_turn_claim_work_on d' token (canonical_db_timestamp now2) = true).
  { unfold any_turn_claim_work_on. rewrite Hc. cbn. by rewrite orb_true_r. }
  rewrite Hwork. cbn [negb].
  assert (Hseg : claimed_segment d' c token (canonical_db_timestamp now2) = Some r).
  { unfold claimed_segment. rewrite Hid, Hr, Hst, Ha, Hn, Hl, Hlive. cbn.
    by rewrite !Z.eqb_refl. }
  unfold begin, claim_turn_pass, mbind, stm_bind, get. rewrite Hscan, Hc, Hseg, Hdec. done.
Qed.
End Outcomes.
