(* ===== verification/TurnQueue.v ===== *)
(** * The queue of a chat

    Messages accepted while a chat has a live turn (tidebreak-core,
    db/ops/turn/queued.rs): enqueued at the tail, edited, moved, withdrawn, and
    promoted into turns from the head.  Promotion re-reads the head under the
    chat lock and commits the new turn with the removal of its row.

    Rows are read in the order of position and enqueue time; ties the database
    leaves open are broken by id.

    The queue is a list: no transaction of [TurnMachine] writes a queued row or
    a session, so the queue of a chat changes only through the operations here;
    the rows of a chat in the order they are read, and what the statements on
    the table do to that list. *)
From stdpp Require Import gmap sorting.
From stdpp Require Import gmap.
From S2P Require Import Prelude RustStr TurnTables TurnLeases TurnResolve TurnCancel TurnParks TurnSteers.
From S2P Require Import TurnPlacements TurnAdmission TurnSpec TurnRefine TurnSettles TurnProgress TurnMachine TurnAnswers.
From S2P Require Import TurnOutcomes.

Open Scope Z_scope.

Record QueuedAgentTurn : Type := MkQueuedTurn {
  qt_id : Z; qt_chat_id : Z; qt_content : string; qt_attachments : list Z;
  qt_file_attachments : list Z; qt_invoked_skills : list string;
  qt_voice_input_used : bool; qt_position : Z; qt_created_at : Z; qt_updated_at : Z }.
#[export] Instance queued_turn_eq_dec : EqDecision QueuedAgentTurn.
Proof. solve_decision. Defined.

Definition MAX_PER_CHAT : Z := 32.

Definition same_request (self other : QueuedAgentTurn) : bool :=
  (qt_id self =? qt_id other) && (qt_chat_id self =? qt_chat_id other)
  && String.eqb (qt_content self) (qt_content other)
  && bool_decide (qt_attachments self = qt_attachments other)
  && bool_decide (qt_file_attachments self = qt_file_attachments other)
  && bool_decide (qt_invoked_skills self = qt_invoked_skills other)
  && Bool.eqb (qt_voice_input_used self) (qt_voice_input_used other).

Inductive ReservedQueuedTurnOutcome : Type := RqQueued (row : QueuedAgentTurn) | RqLeaseLost.
Inductive PromoteQueuedTurnOutcome : Type :=
| PqPromoted (turn : turn) | PqExisting (turn : turn) | PqChatBusy (active : turn) | PqStale.

(** [serde_json::from_str::<Vec<Uuid>>] on the attachments column *)
Definition image_ids (a : QueuedAttachments) : option (list Z) :=
  match a with
  | ImageIds ids => Some ids
  | ImageRefs [] => Some []
  | ImageRefs _ => None
  end.

Definition queued_turn_from_model (r : queued) : result AgentError QueuedAgentTurn :=
  match image_ids (u_attachments r) with
  | None => Err (Store "invalid stored queued-turn attachment list")
  | Some ids =>
      Ok (MkQueuedTurn (u_id r) (u_session_id r) (u_message r) ids (u_file_attachments r)
            (u_invoked_skills r) (u_voice_input_used r) (u_position r) (u_created_at r)
            (u_updated_at r))
  end.

Definition admission_request (q : QueuedAgentTurn) : TurnAdmissionRequest :=
  MkAdmissionRequest (qt_id q) (qt_chat_id q) (qt_content q) (qt_attachments q)
    (qt_file_attachments q) (qt_invoked_skills q) (qt_voice_input_used q) None.

(** The row a queued message is stored as, and the columns an edit writes. *)
Definition queued_row (q : QueuedAgentTurn) (owner : string) (digest : list Z) (position now : Z)
  : queued :=
  MkQueued (qt_id q) owner (qt_chat_id q) (qt_content q) (ImageIds (qt_attachments q))
    (qt_file_attachments q) (qt_invoked_skills q) (qt_voice_input_used q) (Some digest) None
    position now now.
Definition set_position (position : Z) (r : queued) : queued :=
  MkQueued (u_id r) (u_owner r) (u_session_id r) (u_message r) (u_attachments r)
    (u_file_attachments r) (u_invoked_skills r) (u_voice_input_used r) (u_fingerprint r)
    (u_actor r) position (u_created_at r) (u_updated_at r).
Definition set_message (content : option string) (now : Z) (r : queued) : queued :=
  MkQueued (u_id r) (u_owner r) (u_session_id r) (default (u_message r) content)
    (u_attachments r) (u_file_attachments r) (u_invoked_skills r) (u_voice_input_used r)
    (u_fingerprint r) (u_actor r) (u_position r) (u_created_at r) now.

(** ** Statements *)
Section Queue.
Context {W C : Type} `{P : TurnPeers W C}.

Definition queue_key (r : queued) : key := (u_position r, u_created_at r, u_id r).
Definition queue_le (x y : queued) : Prop := Is_true (key_leb (queue_key x) (queue_key y)).
#[export] Instance queue_le_dec x y : Decision (queue_le x y).
Proof. unfold queue_le. apply _. Defined.

Definition all_queued (d : db W) : list queued := (map_to_list (d_queued d)).*2.
Definition queue_rows (d : db W) (chat_id : Z) : list queued :=
  merge_sort queue_le (List.filter (fun r => u_session_id r =? chat_id) (all_queued d)).

(** The [CHECK]s of the table. *)
Definition queued_row_ok (r : queued) : bool :=
  (1 <=? char_count (u_message r)) && (0 <=? u_position r) && (u_position r <=? I32_MAX).

Definition insert_queued {R} (r : queued) : txn W R unit :=
  d ← get;
  if is_some (d_queued d !! u_id r) || negb (queued_row_ok r) then err "queue constraint violated"
  else modify (with_queued (<[u_id r := r]> (d_queued d))).
Definition update_queued {R} (id : Z) (f : queued -> queued) : txn W R unit :=
  d ← get;
  match d_queued d !! id with
  | None => err "none of the records are updated"
  | Some r =>
      if queued_row_ok (f r) then modify (with_queued (<[id := f r]> (d_queued d)))
      else err "queue constraint violated"
  end.
Definition find_queued {R} (id : Z) : txn W R (option queued) := d ← get; mret (d_queued d !! id).

(** [DELETE ... WHERE id = id AND filter]; the rows affected. *)
Definition delete_queued {R} (id : Z) (filter : queued -> bool) : txn W R Z :=
  d ← get;
  match d_queued d !! id with
  | Some r => if filter r then _ ← modify (with_queued (delete id (d_queued d))); mret 1 else mret 0
  | None => mret 0
  end.

(** ** Reading *)

Definition current_head_on {R} (chat_id : Z) : txn W R (option QueuedAgentTurn) :=
  d ← get;
  match queue_rows d chat_id with
  | [] => mret None
  | r :: _ => head ← try (queued_turn_from_model r); mret (Some head)
  end.

Fixpoint collect_queued (l : list queued) : result AgentError (list QueuedAgentTurn) :=
  match l with
  | [] => Ok []
  | r :: l => q ← queued_turn_from_model r; qs ← collect_queued l; Ok (q :: qs)
  end.
Definition list_queued_turns (d : db W) (chat_id : Z) : result AgentError (list QueuedAgentTurn) :=
  collect_queued (queue_rows d chat_id).

(** The chats the promoter visits; the session workers drain their own. *)
Definition chats_with_queued_turns (d : db W) : list Z :=
  remove_dups (List.filter (fun chat => negb (code_session d chat)) (u_session_id <$> all_queued d)).

(** ** Enqueueing *)

Definition enqueue_turn_inner (q : QueuedAgentTurn) (dbnow : Z)
  : db W -> result AgentError ReservedQueuedTurnOutcome * db W :=
  begin (
    if (qt_id q =? 0) || trim_is_empty (qt_content q) || has_nul (qt_content q)
    then err "invalid queued turn" else
    _ ← try (validate_admission (admission_request q));
    locked ← acquire_chat_write_lock (qt_chat_id q);
    if negb locked then err "chat does not exist" else
    let now := canonical_db_timestamp dbnow in
    existing ← find_queued (qt_id q);
    match existing with
    | Some existing =>
        existing ← try (queued_turn_from_model existing);
        if same_request existing q then mret (RqQueued existing)
        else err "queued turn id was already used with different request data"
    | None =>
    d ← get;
    let rows := queue_rows d (qt_chat_id q) in
    if MAX_PER_CHAT <=? Z.of_nat (length rows) then err "a chat may queue at most 32 messages" else
    match match list.last rows with
          | None => Some 0
          | Some r => checked_succ I32_MAX (u_position r)
          end, d_sessions d !! qt_chat_id q with
    | None, _ => err "queue position overflow"
    | _, None => err "session does not exist"
    | Some position, Some session =>
        _ ← insert_queued (queued_row q (n_owner session) (fingerprint (admission_request q))
                             position now);
        inserted ← find_queued (qt_id q);
        match inserted with
        | None => err "queued turn disappeared"
        | Some inserted => inserted ← try (queued_turn_from_model inserted); mret (RqQueued inserted)
        end
    end
    end).

Definition enqueue_turn (q : QueuedAgentTurn) (dbnow : Z) (d : db W)
  : result AgentError QueuedAgentTurn * db W :=
  let '(answer, d') := enqueue_turn_inner q dbnow d in
  (match answer with
   | Ok (RqQueued row) => Ok row
   | Ok RqLeaseLost => Err (Store "queued turn has an unresolved admission owned by another process")
   | Err e => Err e
   end, d').
Definition enqueue_reserved_turn (lease : TurnAdmissionLease) (q : QueuedAgentTurn) (dbnow : Z) :=
  enqueue_turn_inner q dbnow.

(** ** Promotion *)

Definition delete_exact_head_on {R} (expected : QueuedAgentTurn) : txn W R unit :=
  deleted ← delete_queued (qt_id expected)
    (fun r => (u_session_id r =? qt_chat_id expected) && (u_position r =? qt_position expected)
              && (u_updated_at r =? qt_updated_at expected));
  if negb (deleted =? 1) then err "queued turn changed beneath its chat lock" else mret tt.

Definition promote_turn (expected : QueuedAgentTurn) (model : string) (images : list ImageRef)
    (mid dbnow : Z) : db W -> result AgentError PromoteQueuedTurnOutcome * db W :=
  begin (
    _ ← try (validate_turn_input (qt_id expected) model (qt_content expected)
               (qt_invoked_skills expected));
    _ ← try (attachments_validate images);
    _ ← try (validate_count (Z.of_nat (length images)) (qt_file_attachments expected));
    _ ← try (validate_admission (admission_request expected));
    locked ← acquire_chat_write_lock (qt_chat_id expected);
    if negb locked then mret PqStale else
    head ← current_head_on (qt_chat_id expected);
    match head with
    | None => mret PqStale
    | Some head =>
    if negb (bool_decide (head = expected)) then mret PqStale else
    d ← get;
    foreground ← try (foreground_agent_run_on (d_peers d) (qt_chat_id expected));
    match foreground with None => err "chat has no foreground agent run" | Some active =>
    existing ← find_turn (qt_id expected);
    match existing with
    | Some existing =>
        outcome ← exact_accepted_turn_on existing (qt_chat_id expected) model (qt_content expected)
                    images (qt_file_attachments expected) (qt_invoked_skills expected)
                    (qt_voice_input_used expected) None;
        match outcome with
        | AcExisting existing => _ ← delete_exact_head_on expected; mret (PqExisting existing)
        | _ => mret PqStale
        end
    | None =>
    if negb (active : bool) then err "chat foreground agent run is not active" else
    match find_active_turn_on d (qt_chat_id expected) with
    | Some active => run ← turn_run_from_model active; mret (PqChatBusy run)
    | None =>
        inserted ← insert_accepted_turn_on (qt_id expected) (qt_chat_id expected) model
          (qt_content expected) images (qt_file_attachments expected) (qt_invoked_skills expected)
          (qt_voice_input_used expected) None mid (canonical_db_timestamp dbnow);
        _ ← delete_exact_head_on expected;
        run ← turn_run_from_model inserted;
        mret (PqPromoted run)
    end
    end
    end
    end).

(** ** Withdrawal and edits *)

Definition delete_turn_if_current (expected : QueuedAgentTurn) : db W -> result AgentError bool * db W :=
  begin (
    locked ← acquire_chat_write_lock (qt_chat_id expected);
    if negb locked then mret false else
    head ← current_head_on (qt_chat_id expected);
    if negb (bool_decide (head = Some expected)) then mret false else
    _ ← delete_exact_head_on expected;
    mret true).

Definition delete_queued_turn (chat_id id : Z) : db W -> result AgentError bool * db W :=
  begin (
    locked ← acquire_chat_write_lock chat_id;
    if negb locked then mret false else
    deleted ← delete_queued id (fun r => u_session_id r =? chat_id);
    mret (deleted =? 1)).

(** [rows.remove(index)] and [rows.insert(target, row)] *)
Definition move_row {A} (index target : nat) (rows : list A) : list A :=
  match rows !! index with
  | None => rows
  | Some row =>
      let rest := take index rows ++ drop (S index) rows in
      take target rest ++ row :: drop target rest
  end.
Definition move_target (position : Z) (n : nat) : nat :=
  Nat.min (Z.to_nat (Z.max position 0)) (n - 1).

Fixpoint position_of (id : Z) (rows : list queued) : option nat :=
  match rows with
  | [] => None
  | r :: rows => if u_id r =? id then Some 0%nat else S <$> position_of id rows
  end.

Fixpoint rewrite_positions {R} (id : Z) (content : option string) (now : Z) (ordinal : nat)
    (rows : list queued) : txn W R unit :=
  match rows with
  | [] => mret tt
  | r :: rows =>
      _ ← update_queued (u_id r)
            (fun r => let r := set_position (Z.min (Z.of_nat ordinal) I32_MAX) r in
                      if u_id r =? id then set_message content now r else r);
      rewrite_positions id content now (S ordinal) rows
  end.

Definition update_queued_turn (chat_id id : Z) (content : option string) (position : option Z)
    (dbnow : Z) : db W -> result AgentError (option QueuedAgentTurn) * db W :=
  begin (
    if match content with Some c => trim_is_empty c || has_nul c | None => false end
    then err "invalid queued-turn content" else
    locked ← acquire_chat_write_lock chat_id;
    if negb locked then mret None else
    d ← get;
    let now := canonical_db_timestamp dbnow in
    let rows := queue_rows d chat_id in
    match position_of id rows with
    | None => mret None
    | Some index =>
        let rows := match position with
                    | Some p => move_row index (move_target p (length rows)) rows
                    | None => rows
                    end in
        _ ← rewrite_positions id content now 0 rows;
        updated ← find_queued id;
        match updated with
        | None => err "queued turn disappeared"
        | Some updated => updated ← try (queued_turn_from_model updated); mret (Some updated)
        end
    end).
End Queue.

Open Scope Z_scope.

Section Leaves.
Context {W C : Type} `{P : TurnPeers W C}.

(** The queued rows, and the sessions they belong to. *)
Definition queued_part (d : db W) : gmap Z queued * gmap Z session := (d_queued d, d_sessions d).

(** A call that writes neither. *)
Class Leaves {R A} (m : txn W R A) : Prop :=
  leaves : forall d a d', m d = Ok (a, d') -> queued_part d' = queued_part d.

#[export] Instance leaves_ret {R A} (a : A) : Leaves (mret a : txn W R A).
Proof. by intros d ? ? [= _ <-]. Qed.
#[export] Instance leaves_fail {R A} (e : abort R) : Leaves (fail e : txn W R A).
Proof. done. Qed.
#[export] Instance leaves_err {R A} m : Leaves (err m : txn W R A).
Proof. done. Qed.
#[export] Instance leaves_rollback {R A} a : Leaves (rollback a : txn W R A).
Proof. done. Qed.
#[export] Instance leaves_get {R} : Leaves (get : txn W R (db W)).
Proof. by intros d ? ? [= _ <-]. Qed.
#[export] Instance leaves_try {R A} (r : result AgentError A) : Leaves (try r : txn W R A).
Proof. destruct r; [apply _ | done]. Qed.
#[export] Instance leaves_bind {R A B} (m : txn W R A) (k : A -> txn W R B) :
  Leaves m -> (forall a, Leaves (k a)) -> Leaves (m ≫= k).
Proof.
  intros Hm Hk d b d' H. unfold mbind, stm_bind in H.
  destruct (m d) as [[a d1]|] eqn:E; [|done]. rewrite (Hk _ _ _ _ H). by eapply Hm.
Qed.
Lemma leaves_modify {R} (f : db W -> db W) :
  (forall d, queued_part (f d) = queued_part d) -> Leaves (modify f : txn W R unit).
Proof. by intros Hf d ? ? [= _ <-]. Qed.
#[export] Instance leaves_catch {R A} (m : txn W R A) : Leaves m -> Leaves (catch m).
Proof.
  intros Hm d a d'. unfold catch. destruct (m d) as [[x d1]|e] eqn:E; intros [= _ <-]; [|done].
  by eapply Hm.
Qed.
#[export] Instance leaves_answer {R} (before : db W) (m : txn W R R) : Leaves (answer_from before m).
Proof. intros d a d'. unfold answer_from. by destruct (m before) as [[? ?]|?]. Qed.

Lemma leaves_begin {R} (m : txn W R R) d : Leaves m -> queued_part (begin m d).2 = queued_part d.
Proof.
  intros Hm. unfold begin. destruct (m d) as [[a d']|[a|e]] eqn:E; [|done|done]. by eapply Hm.
Qed.
End Leaves.

#[export] Hint Extern 0 (Leaves (modify _)) =>
  (apply leaves_modify; intros ?; reflexivity) : typeclass_instances.
#[export] Hint Extern 5 (Leaves (if ?b then _ else _)) => destruct b : typeclass_instances.
#[export] Hint Extern 5 (Leaves (match ?x with _ => _ end)) => destruct x : typeclass_instances.

Ltac leave_all :=
  repeat (intros; cbv zeta; first [apply _ |
    match goal with
    | |- Leaves (_ ≫= _) => apply leaves_bind
    | |- Leaves (match _ with _ => _ end) => case_match
    end]).

Section Operations.
Context {W C : Type} `{P : TurnPeers W C}.

#[export] Instance leaves_peer {R A} (f : W -> result AgentError (A * W)) : Leaves (peer f : txn W R A).
Proof. unfold peer. leave_all. Qed.
#[export] Instance leaves_peer_ {R} (f : W -> result AgentError W) : Leaves (peer_ f : txn W R unit).
Proof. apply _. Qed.
#[export] Instance leaves_put_turn {R} r : Leaves (put_turn r : txn W R _).
Proof. unfold put_turn. leave_all. Qed.
#[export] Instance leaves_update {R} id f g : Leaves (update_turn id f g : txn W R _).
Proof. unfold update_turn. leave_all. Qed.
#[export] Instance leaves_find {R} id : Leaves (find_turn id : txn W R _).
Proof. unfold find_turn. leave_all. Qed.
#[export] Instance leaves_find_claim {R} id : Leaves (find_claim id : txn W R _).
Proof. unfold find_claim. leave_all. Qed.
#[export] Instance leaves_claim_of {R} t id : Leaves (claim_of t id : txn W R _).
Proof. unfold claim_of. leave_all. Qed.
#[export] Instance leaves_chat_lock {R} id : Leaves (acquire_chat_write_lock id : txn W R _).
Proof. unfold acquire_chat_write_lock. leave_all. Qed.
#[export] Instance leaves_turn_lock {R} id : Leaves (acquire_turn_write_lock id : txn W R _).
Proof. unfold acquire_turn_write_lock. leave_all. Qed.
#[export] Instance leaves_insert_claim {R} t c : Leaves (insert_claim t c : txn W R _).
Proof. unfold insert_claim. leave_all. Qed.
#[export] Instance leaves_insert_failure {R} t f : Leaves (insert_failure t f : txn W R _).
Proof. unfold insert_failure. leave_all. Qed.
#[export] Instance leaves_put_steer {R} s : Leaves (put_steer s : txn W R _).
Proof. unfold put_steer. leave_all. Qed.
#[export] Instance leaves_insert_event {R} e : Leaves (insert_event e : txn W R _).
Proof. unfold insert_event. leave_all. Qed.
#[export] Instance leaves_insert_event_row {R} c s t l o x e :
  Leaves (insert_event_row c s t l o x e : txn W R _).
Proof. unfold insert_event_row. leave_all. Qed.
#[export] Instance leaves_next_event_seq {R} c : Leaves (next_event_seq c : txn W R _).
Proof. unfold next_event_seq. leave_all. Qed.
#[export] Instance leaves_append {R} c t l o s e : Leaves (append_event_on c t l o s e : txn W R _).
Proof. unfold append_event_on. leave_all. Qed.
#[export] Instance leaves_append_locked {R} o s e : Leaves (append_event_on_locked o s e : txn W R _).
Proof. unfold append_event_on_locked. leave_all. Qed.
#[export] Instance leaves_reserve {R} a b c o : Leaves (reserve_message_identity_on a b c o : txn W R _).
Proof. unfold reserve_message_identity_on. leave_all. Qed.
#[export] Instance leaves_transfer {R} a b c : Leaves (transfer_steer_message_identity_on a b c : txn W R _).
Proof. unfold transfer_steer_message_identity_on. leave_all. Qed.
#[export] Instance leaves_next_seq {R} c : Leaves (next_message_seq_on c : txn W R _).
Proof. unfold next_message_seq_on. leave_all. Qed.
#[export] Instance leaves_insert_message {R} id m : Leaves (insert_message id m : txn W R _).
Proof. unfold insert_message. leave_all. Qed.
#[export] Instance leaves_usage {R} r : Leaves (usage_from_turn_model r : txn W R _).
Proof. unfold usage_from_turn_model. leave_all. Qed.
#[export] Instance leaves_run {R} r : Leaves (turn_run_from_model r : txn W R _).
Proof. unfold turn_run_from_model. leave_all. Qed.
#[export] Instance leaves_reject {R} id t : Leaves (reject_pending_turn_steers_on id t : txn W R _).
Proof. unfold reject_pending_turn_steers_on. leave_all. Qed.

(** *** Claims *)

#[export] Instance leaves_ensure_input {R} r c m n :
  Leaves (ensure_turn_input_message_on r c m n : txn W R _).
Proof. unfold ensure_turn_input_message_on. leave_all. Qed.
#[export] Instance leaves_append_scan {R} r c t e :
  Leaves (append_claim_scan_terminal_event_on r c t e : txn W R _).
Proof. unfold append_claim_scan_terminal_event_on. leave_all. Qed.
#[export] Instance leaves_scan_from {R} e t :
  Leaves (claim_scan_terminal_event_from_model e t : txn W R _).
Proof. unfold claim_scan_terminal_event_from_model. leave_all. Qed.
#[export] Instance leaves_claim_cancelling r t n : Leaves (claim_cancelling r t n).
Proof. unfold claim_cancelling. leave_all. Qed.
#[export] Instance leaves_claim_exhausted r t n x : Leaves (claim_exhausted r t n x).
Proof. unfold claim_exhausted. leave_all. Qed.
#[export] Instance leaves_claim_segment r t n x : Leaves (claim_segment r t n x).
Proof. unfold claim_segment. leave_all. Qed.
#[export] Instance leaves_claim_pass t n x y : Leaves (claim_turn_pass t n x y).
Proof. unfold claim_turn_pass. leave_all. Qed.

(** *** Settling *)

#[export] Instance leaves_terminal {R} i c l e : Leaves (append_terminal_event_on i c l e : txn W R _).
Proof. unfold append_terminal_event_on. leave_all. Qed.
#[export] Instance leaves_exact_terminal {R} i l e : Leaves (exact_terminal_event_on i l e : txn W R _).
Proof. unfold exact_terminal_event_on. leave_all. Qed.
#[export] Instance leaves_exact_citations {R} o c : Leaves (exact_completed_citations_on o c : txn W R _).
Proof. unfold exact_completed_citations_on. leave_all. Qed.
#[export] Instance leaves_check_usage {R} a b : Leaves (validate_terminal_usage a b : txn W R _).
Proof. unfold validate_terminal_usage. leave_all. Qed.
#[export] Instance leaves_check_steps {R} a b : Leaves (validate_terminal_model_steps a b : txn W R _).
Proof. unfold validate_terminal_model_steps. leave_all. Qed.
#[export] Instance leaves_exact_steps {R} a b :
  Leaves (validate_exact_terminal_model_steps a b : txn W R _).
Proof. unfold validate_exact_terminal_model_steps. leave_all. Qed.
#[export] Instance leaves_complete_existing r l o c m e : Leaves (complete_existing r l o c m e).
Proof. unfold complete_existing. leave_all. Qed.
#[export] Instance leaves_complete_settle r k l n o c m e : Leaves (complete_settle r k l n o c m e).
Proof. unfold complete_settle. leave_all. Qed.
#[export] Instance leaves_failure_from {R} l f : Leaves (turn_failure_from_model l f : txn W R _).
Proof. unfold turn_failure_from_model. leave_all. Qed.

#[export] Instance leaves_exact_failure {R} i l t m u c e :
  Leaves (exact_turn_failure_on i l t m u c e : txn W R _).
Proof. unfold exact_turn_failure_on. leave_all. Qed.
#[export] Instance leaves_exact_retrying {R} l r e : Leaves (exact_retrying_event_on l r e : txn W R _).
Proof. unfold exact_retrying_event_on. leave_all. Qed.
#[export] Instance leaves_exact_failure_event {R} i l r e :
  Leaves (exact_failure_terminal_event_on i l r e : txn W R _).
Proof. unfold exact_failure_terminal_event_on. leave_all. Qed.
#[export] Instance leaves_failure_settle r k l n t m u c d e :
  Leaves (failure_settle r k l n t m u c d e).
Proof. unfold failure_settle. leave_all. Qed.

(** *** Cancellation, parks and steers *)

#[export] Instance leaves_park_wait {R} r : Leaves (adapter_park_wait r : txn W R _).
Proof. unfold adapter_park_wait. leave_all. Qed.
#[export] Instance leaves_park_call {R} r : Leaves (adapter_client_park_call_id r : txn W R _).
Proof. unfold adapter_client_park_call_id. leave_all. Qed.
#[export] Instance leaves_existing_cancellation {R} i b :
  Leaves (existing_cancellation_event_on i b : txn W R _).
Proof. unfold existing_cancellation_event_on. leave_all. Qed.
#[export] Instance leaves_unclaimed {R} r a n : Leaves (unclaimed_call r a n : txn W R _).
Proof. unfold unclaimed_call. leave_all. Qed.
#[export] Instance leaves_close_wait {R} c x t : Leaves (close_wait c x t : txn W R _).
Proof. unfold close_wait. leave_all. Qed.
#[export] Instance leaves_cancel_unclaimed {R} c n : Leaves (cancel_unclaimed c n : txn W R _).
Proof. unfold cancel_unclaimed. leave_all. Qed.
#[export] Instance leaves_status {R} r : Leaves (effective_status r : txn W R _).
Proof. unfold effective_status. leave_all. Qed.
#[export] Instance leaves_request_settle r x c b n : Leaves (request_settle r x c b n).
Proof. unfold request_settle. leave_all. Qed.
#[export] Instance leaves_exact_cancelled {R} r o c :
  Leaves (exact_cancellation_output_on r o c : txn W R _).
Proof. unfold exact_cancellation_output_on. leave_all. Qed.
#[export] Instance leaves_cancel_output {R} r l o c : Leaves (cancellation_output r l o c : txn W R _).
Proof. unfold cancellation_output. leave_all. Qed.
#[export] Instance leaves_finish_settle r k l n m o c e : Leaves (finish_settle r k l n m o c e).
Proof. unfold finish_settle. leave_all. Qed.

#[export] Instance leaves_checkpoint {R} c n : Leaves (checkpoint_on c n : txn W R _).
Proof. unfold checkpoint_on. leave_all. Qed.
#[export] Instance leaves_recover_checkpoint {R} c : Leaves (recover_checkpoint_on c : txn W R _).
Proof. unfold recover_checkpoint_on. leave_all. Qed.
#[export] Instance leaves_wait_progress {R} w : Leaves (wait_progress w : txn W R _).
Proof. unfold wait_progress. leave_all. Qed.
#[export] Instance leaves_history {R} c : Leaves (next_tool_history_order_on c : txn W R _).
Proof. unfold next_tool_history_order_on. leave_all. Qed.
#[export] Instance leaves_insert_wait {R} c w : Leaves (insert_wait c w : txn W R _).
Proof. unfold insert_wait. leave_all. Qed.
#[export] Instance leaves_recover {R} c k :
  Leaves (recover_turn_after_client_resolution_on c k : txn W R _).
Proof. unfold recover_turn_after_client_resolution_on. leave_all. Qed.
#[export] Instance leaves_advance {R} c k t :
  Leaves (advance_turn_after_client_resolution_on c k t : txn W R _).
Proof. unfold advance_turn_after_client_resolution_on. leave_all. Qed.
#[export] Instance leaves_append_fresh {R} c t l n es :
  Leaves (append_fresh c t l n es : txn W R _).
Proof. revert n. induction es as [|[? ?] ? IH]; intros n; cbn; leave_all. Qed.

#[export] Instance leaves_applied_message {R} st :
  Leaves (ensure_exact_applied_message_on st : txn W R _).
Proof. unfold ensure_exact_applied_message_on. leave_all. Qed.
#[export] Instance leaves_preceding_message {R} st m :
  Leaves (ensure_exact_preceding_message_on st m : txn W R _).
Proof. unfold ensure_exact_preceding_message_on. leave_all. Qed.
#[export] Instance leaves_applied_event {R} st l o : Leaves (exact_applied_event_on st l o : txn W R _).
Proof. unfold exact_applied_event_on. leave_all. Qed.
#[export] Instance leaves_apply_existing st i l o p c : Leaves (apply_existing st i l o p c).
Proof. unfold apply_existing. leave_all. Qed.
#[export] Instance leaves_insert_preceding r l n m c : Leaves (insert_preceding r l n m c).
Proof. unfold insert_preceding. leave_all. Qed.
#[export] Instance leaves_apply_settle r k st l o n x p c : Leaves (apply_settle r k st l o n x p c).
Proof. unfold apply_settle. leave_all. Qed.
#[export] Instance leaves_park_existing c w l g m : Leaves (park_existing c w l g m).
Proof. unfold park_existing. leave_all. Qed.
#[export] Instance leaves_park_settle r c l x g m n : Leaves (park_settle r c l x g m n).
Proof. unfold park_settle. leave_all. Qed.

(** *** Acceptance *)

#[export] Instance leaves_drop_checkpoint {R} c r :
  Leaves (drop_checkpoint_of_replaced_attempt_on c r : txn W R _).
Proof. unfold drop_checkpoint_of_replaced_attempt_on. leave_all. Qed.
#[export] Instance leaves_drop_replaced {R} c : Leaves (drop_replaced_turns_on c : txn W R _).
Proof. unfold drop_replaced_turns_on. leave_all. Qed.
#[export] Instance leaves_exact_accepted {R} r c m x i o s b p :
  Leaves (exact_accepted_turn_on r c m x i o s b p : txn W R _).
Proof. unfold exact_accepted_turn_on. leave_all. Qed.
#[export] Instance leaves_insert_turn {R} r : Leaves (insert_turn r : txn W R _).
Proof. unfold insert_turn. leave_all. Qed.
#[export] Instance leaves_insert_accepted {R} id chat model content images docs skills voice rep mid now :
  Leaves (insert_accepted_turn_on id chat model content images docs skills voice rep mid now
            : txn W R _).
Proof. unfold insert_accepted_turn_on. leave_all. Qed.

Lemma turn_txn_leaves d l d' : turn_txn d l d' -> queued_part d' = queued_part d.
Proof.
  intros Hstep. destruct Hstep.
  1,6,8,9,11: by apply leaves_begin; leave_all.
  - unfold take_lease_on_turn_inner. cbv zeta. by case_match; apply leaves_begin; leave_all.
  - unfold claim_turn. cbv zeta. repeat (case_match; [done|]). apply leaves_begin, _.
  - unfold heartbeat_turn. cbv zeta. by case_match; apply leaves_begin; leave_all.
  - by apply leaves_begin; leave_all.
  - unfold complete_refused_turn. by case_match; apply leaves_begin; leave_all.
  - unfold finish_turn_cancellation_and_append_event, finish_turn_cancellation_inner.
    by repeat case_match; apply leaves_begin; leave_all.
  - by eapply leaves_advance.
  - by apply leaves_begin; leave_all.
  - by apply leaves_begin; leave_all.
  - by apply leaves_begin; leave_all.
Qed.
End Operations.

Open Scope Z_scope.

Section Rows.
Context {W C : Type} `{P : TurnPeers W C}.

(** Rows under their ids, in the bounds of the table, one per position. *)
Record queue_ok (q : gmap Z queued) : Prop := MkQueueOk {
  qk_ids : forall k r, q !! k = Some r -> u_id r = k;
  qk_rows : forall k r, q !! k = Some r -> queued_row_ok r = true;
  qk_places : forall k1 k2 r1 r2, q !! k1 = Some r1 -> q !! k2 = Some r2 ->
    u_session_id r1 = u_session_id r2 -> u_position r1 = u_position r2 -> k1 = k2 }.

Definition before (x y : queued) : Prop := u_position x < u_position y.

(** [l] is what reading the queue of [chat] from [q] gives. *)
Record lists (q : gmap Z queued) (chat : Z) (l : list queued) : Prop := MkLists {
  ls_sorted : StronglySorted before l;
  ls_rows : forall r, r ∈ l <-> q !! u_id r = Some r /\ u_session_id r = chat }.

#[export] Instance queue_le_trans : Transitive queue_le.
Proof. intros x y z. unfold queue_le. rewrite !Is_true_true. apply key_trans. Qed.
#[export] Instance queue_le_total : Total queue_le.
Proof.
  intros x y. unfold queue_le. rewrite !Is_true_true.
  destruct (key_leb (queue_key x) (queue_key y)) eqn:E; [by left | right; by apply key_total].
Qed.

Lemma before_le x y : before x y -> queue_le x y.
Proof. unfold before, queue_le, queue_key. rewrite Is_true_true. intros H. apply key_iff. lia. Qed.

Lemma le_before x y : queue_le x y -> u_position x <> u_position y -> before x y.
Proof. unfold before, queue_le, queue_key. rewrite Is_true_true, key_iff. lia. Qed.

Lemma before_irrefl x : ~ before x x.
Proof. unfold before. lia. Qed.

Lemma sorted_nodup (l : list queued) : StronglySorted before l -> NoDup l.
Proof.
  induction 1 as [|x l _ IH Hx]; [constructor|]. constructor; [|done].
  intros Hin. rewrite Forall_forall in Hx. by apply (before_irrefl x), Hx.
Qed.

Lemma sorted_impl (R1 R2 : queued -> queued -> Prop) l :
  (forall x y, x ∈ l -> y ∈ l -> x <> y -> R1 x y -> R2 x y) -> NoDup l ->
  StronglySorted R1 l -> StronglySorted R2 l.
Proof.
  intros HR Hnd Hs. induction Hs as [|x l Hs IH Hx]; [constructor|]. apply NoDup_cons in Hnd as [Hn Hnd].
  constructor.
  - apply IH; [|done]. intros a b ? ? ? ?. apply HR; set_solver.
  - rewrite Forall_forall in *. intros y Hy. apply HR; [set_solver | set_solver | by intros -> | by apply Hx].
Qed.

Lemma queue_rows_elem (d : db W) chat r :
  queue_ok (d_queued d) ->
  r ∈ List.filter (fun r => u_session_id r =? chat) (all_queued d) <->
  d_queued d !! u_id r = Some r /\ u_session_id r = chat.
Proof.
  intros Hok. rewrite filter_elem, Z.eqb_eq. unfold all_queued.
  rewrite list_elem_of_fmap. split.
  - intros [([k x] & -> & Hx) Hc]. apply elem_of_map_to_list in Hx. cbn in *.
    by rewrite (qk_ids _ Hok _ _ Hx).
  - intros [Hr Hc]. split; [|done]. exists (u_id r, r). split; [done|]. by apply elem_of_map_to_list.
Qed.

Lemma filter_nodup {A} (f : A -> bool) (l : list A) : NoDup l -> NoDup (List.filter f l).
Proof.
  induction 1 as [|x l Hx Hl IH]; cbn; [constructor|]. destruct (f x); [|done].
  constructor; [|done]. by rewrite filter_elem; intros [? _].
Qed.

Lemma all_queued_nodup (d : db W) : queue_ok (d_queued d) -> NoDup (all_queued d).
Proof.
  intros Hok. unfold all_queued. apply NoDup_fmap_2_strong; [|apply NoDup_map_to_list].
  intros [k1 r1] [k2 r2] H1 H2 He. cbn in He. subst r2.
  apply elem_of_map_to_list in H1, H2. f_equal.
  by rewrite <- (qk_ids _ Hok _ _ H1), <- (qk_ids _ Hok _ _ H2).
Qed.

Lemma queue_rows_list (d : db W) chat :
  queue_ok (d_queued d) -> lists (d_queued d) chat (queue_rows d chat).
Proof.
  intros Hok. unfold queue_rows. set (l := List.filter _ _).
  pose proof (merge_sort_Permutation queue_le l) as Hp.
  assert (Hnd : NoDup (merge_sort queue_le l)).
  { rewrite Hp. by apply filter_nodup, all_queued_nodup. }
  assert (Hin : forall r, r ∈ merge_sort queue_le l <->
                          d_queued d !! u_id r = Some r /\ u_session_id r = chat).
  { intros r. rewrite Hp. by apply queue_rows_elem. }
  split; [|done]. eapply (sorted_impl queue_le); [|done|apply StronglySorted_merge_sort; apply _].
  intros x y Hx Hy Hne Hle. apply le_before; [done|]. intros Hpos. apply Hne.
  apply Hin in Hx as [Hx Hcx], Hy as [Hy Hcy]. rewrite <- Hcy in Hcx.
  pose proof (qk_places _ Hok _ _ _ _ Hx Hy Hcx Hpos) as He. rewrite He in Hx. congruence.
Qed.

Lemma lists_unique q chat l1 l2 : lists q chat l1 -> lists q chat l2 -> l1 = l2.
Proof.
  intros [S1 R1] [S2 R2].
  apply (StronglySorted_unique_strong before); [|done|done|].
  - intros x y _ _. unfold before. lia.
  - apply NoDup_Permutation; [by apply sorted_nodup..|]. intros r. by rewrite R1, R2.
Qed.

Lemma lists_of (d : db W) chat l :
  queue_ok (d_queued d) -> lists (d_queued d) chat l -> queue_rows d chat = l.
Proof. intros Hok Hl. by eapply lists_unique; [apply queue_rows_list|]. Qed.

Lemma lists_at q chat l r : lists q chat l -> r ∈ l -> q !! u_id r = Some r /\ u_session_id r = chat.
Proof. intros [_ H] Hr. by apply H. Qed.

(** *** A row put at the tail *)

Lemma sorted_snoc (R : queued -> queued -> Prop) l r :
  StronglySorted R l -> Forall (fun x => R x r) l -> StronglySorted R (l ++ [r]).
Proof.
  induction 1 as [|x l Hs IH Hx]; intros Hall; cbn; [by repeat constructor|].
  apply Forall_cons in Hall as [Hxr Hall]. constructor; [by apply IH|].
  apply Forall_app. by split; [|constructor].
Qed.

Lemma insert_ok q chat l r :
  queue_ok q -> lists q chat l -> q !! u_id r = None -> u_session_id r = chat ->
  queued_row_ok r = true -> Forall (fun x => before x r) l -> queue_ok (<[u_id r := r]> q).
Proof.
  intros [Hids Hrows Hplaces] [_ Hl] Hnew Hchat Hr Hlast. split.
  - intros k x. rewrite lookup_insert_Some. intros [[<- <-] | [_ Hx]]; [done | by apply Hids].
  - intros k x. rewrite lookup_insert_Some. intros [[_ <-] | [_ Hx]]; [done | by eapply Hrows].
  - rewrite Forall_forall in Hlast.
    assert (Hfree : forall k x, q !! k = Some x -> u_session_id x = chat -> u_position x <> u_position r).
    { intros k x Hx Hc He. assert (Hin : x ∈ l) by (apply Hl; by rewrite (Hids _ _ Hx)).
      specialize (Hlast _ Hin). unfold before in Hlast. lia. }
    intros k1 k2 r1 r2. rewrite !lookup_insert_Some.
    intros [[<- <-] | [_ H1]] [[<- <-] | [_ H2]] Hs Hp; [done | | |by eapply Hplaces].
    + destruct (Hfree _ _ H2); congruence.
    + destruct (Hfree _ _ H1); congruence.
Qed.

Lemma insert_lists q chat l r :
  lists q chat l -> q !! u_id r = None -> u_session_id r = chat ->
  Forall (fun x => before x r) l -> lists (<[u_id r := r]> q) chat (l ++ [r]).
Proof.
  intros [Hs Hl] Hnew Hchat Hlast. split; [by apply sorted_snoc|].
  intros x. rewrite elem_of_app, list_elem_of_singleton, Hl, lookup_insert_Some. split.
  - intros [[Hx ?] | ->]; [|by auto]. split; [|done]. right. split; [|done]. congruence.
  - intros [[[? ?] | [? ?]] ?]; auto.
Qed.

Lemma insert_others q chat c l r :
  lists q c l -> q !! u_id r = None -> u_session_id r = chat -> c <> chat ->
  lists (<[u_id r := r]> q) c l.
Proof.
  intros [Hs Hl] Hnew Hchat Hc. split; [done|]. intros x. rewrite Hl, lookup_insert_Some. split.
  - intros [Hx ?]. split; [|done]. right. split; [congruence | done].
  - intros [[[? ->] | [? ?]] ?]; [congruence | done].
Qed.

(** *** A row taken out *)

Lemma sorted_filter (R : queued -> queued -> Prop) f l :
  StronglySorted R l -> StronglySorted R (List.filter f l).
Proof.
  induction 1 as [|x l Hs IH Hx]; cbn; [constructor|]. destruct (f x); [|done].
  constructor; [done|]. rewrite Forall_forall in *. intros y Hy. apply filter_elem in Hy as [? _]. by apply Hx.
Qed.

Lemma delete_ok q id : queue_ok q -> queue_ok (delete id q).
Proof.
  intros [Hids Hrows Hplaces]. split.
  - intros k r [_ Hr]%lookup_delete_Some. by apply Hids.
  - intros k r [_ Hr]%lookup_delete_Some. by eapply Hrows.
  - intros k1 k2 r1 r2 [_ H1]%lookup_delete_Some [_ H2]%lookup_delete_Some. by apply (Hplaces _ _ _ _ H1 H2).
Qed.

Lemma delete_lists q chat l id :
  lists q chat l -> lists (delete id q) chat (List.filter (fun r => negb (u_id r =? id)) l).
Proof.
  intros [Hs Hl]. split; [by apply sorted_filter|].
  intros r. rewrite filter_elem, negb_true_iff, Z.eqb_neq, Hl, lookup_delete_Some. naive_solver.
Qed.

(** *** Rows renumbered *)

(** What an edit of a chat's whole queue makes of the table. *)
Record renumbers (g : nat -> queued -> queued) (rows : list queued) (q q' : gmap Z queued) : Prop :=
  MkRenumbers {
  rn_rows : forall i r, rows !! i = Some r -> q' !! u_id r = Some (g i r);
  rn_others : forall k, (forall r, r ∈ rows -> u_id r <> k) -> q' !! k = q !! k }.

Lemma imap_sorted (g : nat -> queued -> queued) n rows :
  (forall i r, u_position (g i r) = Z.of_nat i) ->
  StronglySorted before (imap (fun i => g (n + i)%nat) rows).
Proof.
  intros Hpos. revert n. induction rows as [|r rows IH]; intros n; [constructor|].
  rewrite imap_cons. constructor.
  - specialize (IH (S n)). erewrite imap_ext; [exact IH|].
    intros i x _. cbn. by rewrite Nat.add_succ_r.
  - rewrite Forall_forall. intros x Hx.
    apply list_elem_of_lookup in Hx as [i Hi]. rewrite list_lookup_imap in Hi.
    destruct (rows !! i); cbn in Hi; [|done]. injection Hi as <-.
    unfold before. rewrite !Hpos. lia.
Qed.

Section Renumber.
Context (g : nat -> queued -> queued) (rows : list queued) (q q' : gmap Z queued) (chat : Z).
Hypothesis Hpos : forall i r, u_position (g i r) = Z.of_nat i.
Hypothesis Hid : forall i r, u_id (g i r) = u_id r.
Hypothesis Hchat : forall i r, u_session_id (g i r) = u_session_id r.
Hypothesis Hg : renumbers g rows q q'.
Hypothesis Hok : queue_ok q.
Hypothesis Hrows : forall r, r ∈ rows <-> q !! u_id r = Some r /\ u_session_id r = chat.

Lemma renumbered_at k x :
  q' !! k = Some x ->
  (exists i r, rows !! i = Some r /\ k = u_id r /\ x = g i r)
  \/ q !! k = Some x /\ u_session_id x <> chat.
Proof.
  intros Hx. destruct (q !! k) as [r|] eqn:Hr.
  - destruct (decide (u_session_id r = chat)) as [Hc|Hc].
    + assert (Hin : r ∈ rows) by (apply Hrows; by rewrite (qk_ids _ Hok _ _ Hr)).
      apply list_elem_of_lookup in Hin as [i Hi]. left. exists i, r.
      rewrite <- (qk_ids _ Hok _ _ Hr) in Hx. rewrite (rn_rows _ _ _ _ Hg _ _ Hi) in Hx.
      injection Hx as <-. by rewrite (qk_ids _ Hok _ _ Hr).
    + right. rewrite (rn_others _ _ _ _ Hg) in Hx; [split; congruence|].
      intros y Hy He. apply Hrows in Hy as [Hy ?]. rewrite He in Hy. congruence.
  - rewrite (rn_others _ _ _ _ Hg) in Hx; [congruence|].
    intros y Hy He. apply Hrows in Hy as [Hy ?]. rewrite He in Hy. congruence.
Qed.

Lemma renumbered_lists : lists q' chat (imap g rows).
Proof.
  split; [apply (imap_sorted g 0 rows Hpos)|]. intros x. rewrite list_elem_of_lookup. split.
  - intros [i Hi]. rewrite list_lookup_imap in Hi. destruct (rows !! i) as [r|] eqn:Hr; [|done].
    injection Hi as <-. rewrite Hid, Hchat. split; [by apply (rn_rows _ _ _ _ Hg)|].
    apply list_elem_of_lookup_2, Hrows in Hr. tauto.
  - intros [Hx Hc]. destruct (renumbered_at _ _ Hx) as [(i & r & Hi & _ & ->) | [_ ?]]; [|done].
    exists i. by rewrite list_lookup_imap, Hi.
Qed.

Lemma renumbered_others c l : c <> chat -> lists q c l -> lists q' c l.
Proof.
  intros Hc [Hs Hl]. split; [done|]. intros x. rewrite Hl. split.
  - intros [Hx ?]. split; [|done]. rewrite (rn_others _ _ _ _ Hg); [done|].
    intros y Hy He. apply Hrows in Hy as [Hy ?]. rewrite He in Hy. congruence.
  - intros [Hx ?]. destruct (renumbered_at _ _ Hx) as [(i & r & Hi & _ & ->) | [? _]]; [|done].
    rewrite Hchat in *. apply list_elem_of_lookup_2, Hrows in Hi as [_ ?]. congruence.
Qed.

Lemma renumbered_ok :
  (forall k x, q' !! k = Some x -> queued_row_ok x = true) -> queue_ok q'.
Proof.
  intros Hall. split; [|done|].
  - intros k x Hx. destruct (renumbered_at _ _ Hx) as [(i & r & _ & -> & ->) | [? _]]; [done|].
    by apply (qk_ids _ Hok).
  - intros k1 k2 x1 x2 H1 H2 Hs Hp.
    destruct (renumbered_at _ _ H1) as [(i & r & Hi & -> & ->) | [Hx1 Hc1]],
      (renumbered_at _ _ H2) as [(j & y & Hj & -> & ->) | [Hx2 Hc2]].
    + rewrite !Hpos in Hp. assert (i = j) as -> by lia. congruence.
    + rewrite Hchat in Hs. apply list_elem_of_lookup_2, Hrows in Hi as [_ ?]. congruence.
    + rewrite Hchat in Hs. apply list_elem_of_lookup_2, Hrows in Hj as [_ ?]. congruence.
    + by apply (qk_places _ Hok _ _ _ _ Hx1 Hx2).
Qed.
End Renumber.
End Rows.
