(* ===== verification/TurnQueueSteps.v ===== *)
(** * The queue operations on the list

    Each operation of [TurnQueue] is a move of an abstract FIFO list: append,
    take the head, withdraw, edit and move; whatever fails or answers stale
    moves nothing. *)
From S2P Require Import Prelude RustStr TurnTables TurnLeases TurnResolve TurnCancel TurnParks.
From S2P Require Import TurnSteers TurnPlacements TurnAdmission TurnSpec TurnRefine TurnSettles.
From S2P Require Import TurnProgress TurnMachine TurnAnswers.
From S2P Require Import TurnOutcomes TurnQueue.
From stdpp Require Import gmap sorting.

Open Scope Z_scope.

(** ** The abstract queue *)

Record item : Type := MkItem {
  it_id : Z; it_content : string; it_attachments : QueuedAttachments;
  it_file_attachments : list Z; it_invoked_skills : list string; it_voice_input_used : bool }.
Definition item_of (r : queued) : item :=
  MkItem (u_id r) (u_message r) (u_attachments r) (u_file_attachments r) (u_invoked_skills r)
    (u_voice_input_used r).
Definition edit_item (id : Z) (content : option string) (x : item) : item :=
  if it_id x =? id
  then MkItem (it_id x) (default (it_content x) content) (it_attachments x)
         (it_file_attachments x) (it_invoked_skills x) (it_voice_input_used x)
  else x.

(** The message a caller queues, and a head it read, as an item. *)
Definition stores (q : QueuedAgentTurn) (x : item) : Prop :=
  it_id x = qt_id q /\ it_content x = qt_content q
  /\ image_ids (it_attachments x) = Some (qt_attachments q)
  /\ it_file_attachments x = qt_file_attachments q
  /\ it_invoked_skills x = qt_invoked_skills q
  /\ it_voice_input_used x = qt_voice_input_used q.

Inductive queue_op : Type :=
| OpEnqueue (q : QueuedAgentTurn) (dbnow : Z)
| OpPromote (expected : QueuedAgentTurn) (model : string) (images : list ImageRef) (mid dbnow : Z)
| OpDrop (expected : QueuedAgentTurn)
| OpDelete (chat id : Z)
| OpUpdate (chat id : Z) (content : option string) (position : option Z) (dbnow : Z).

Inductive queue_answer : Type :=
| AFailed
| AQueued
| APromoted (turn : turn) | AExisting | ABusy | AStale
| ADropped (dropped : bool)
| ADeleted (deleted : bool)
| AUpdated (found : bool).

Definition state : Type := Z -> list item.
Definition at_chat (chat : Z) (l : list item) (L L' : state) : Prop :=
  L' chat = l /\ forall c, c <> chat -> L' c = L c.

Inductive list_step (L : state) : queue_op -> queue_answer -> state -> Prop :=
| ls_failed op : list_step L op AFailed L
| ls_again q dbnow x : x ∈ L (qt_chat_id q) -> stores q x -> list_step L (OpEnqueue q dbnow) AQueued L
| ls_enqueue q dbnow x L' :
    Z.of_nat (length (L (qt_chat_id q))) < MAX_PER_CHAT ->
    (forall c y, y ∈ L c -> it_id y <> qt_id q) -> stores q x ->
    at_chat (qt_chat_id q) (L (qt_chat_id q) ++ [x]) L L' ->
    list_step L (OpEnqueue q dbnow) AQueued L'
| ls_promoted q model images mid dbnow t x l L' :
    L (qt_chat_id q) = x :: l -> stores q x -> at_chat (qt_chat_id q) l L L' ->
    list_step L (OpPromote q model images mid dbnow) (APromoted t) L'
| ls_existing q model images mid dbnow x l L' :
    L (qt_chat_id q) = x :: l -> stores q x -> at_chat (qt_chat_id q) l L L' ->
    list_step L (OpPromote q model images mid dbnow) AExisting L'
| ls_waits q model images mid dbnow a : a ∈ [ABusy; AStale] ->
    list_step L (OpPromote q model images mid dbnow) a L
| ls_drop q x l L' :
    L (qt_chat_id q) = x :: l -> stores q x -> at_chat (qt_chat_id q) l L L' ->
    list_step L (OpDrop q) (ADropped true) L'
| ls_kept q : list_step L (OpDrop q) (ADropped false) L
| ls_delete chat id L' :
    id ∈ it_id <$> L chat ->
    at_chat chat (List.filter (fun x => negb (it_id x =? id)) (L chat)) L L' ->
    list_step L (OpDelete chat id) (ADeleted true) L'
| ls_absent chat id : id ∉ it_id <$> L chat -> list_step L (OpDelete chat id) (ADeleted false) L
| ls_update chat id content position dbnow index x L' :
    L chat !! index = Some x -> it_id x = id ->
    at_chat chat
      (edit_item id content <$>
       match position with
       | Some p => move_row index (move_target p (length (L chat))) (L chat)
       | None => L chat
       end) L L' ->
    list_step L (OpUpdate chat id content position dbnow) (AUpdated true) L'
| ls_unfound chat id content position dbnow :
    id ∉ it_id <$> L chat -> list_step L (OpUpdate chat id content position dbnow) (AUpdated false) L.

(** ** What the operations do *)
Section Steps.
Context {W C : Type} `{P : TurnPeers W C}.

Definition queue (d : db W) : state := fun chat => item_of <$> queue_rows d chat.

Definition answer_of {A} (f : A -> queue_answer) (r : result AgentError A) : queue_answer :=
  match r with Ok a => f a | Err _ => AFailed end.

(** One operation, as the answer it gives and the tables it leaves. *)
Definition queue_txn (op : queue_op) (d : db W) : queue_answer * db W :=
  match op with
  | OpEnqueue q dbnow =>
      let '(r, d') := enqueue_turn_inner q dbnow d in (answer_of (fun _ => AQueued) r, d')
  | OpPromote q model images mid dbnow =>
      let '(r, d') := promote_turn q model images mid dbnow d in
      (answer_of (fun o => match o with
                           | PqPromoted t => APromoted t
                           | PqExisting _ => AExisting
                           | PqChatBusy _ => ABusy
                           | PqStale => AStale
                           end) r, d')
  | OpDrop q => let '(r, d') := delete_turn_if_current q d in (answer_of ADropped r, d')
  | OpDelete chat id => let '(r, d') := delete_queued_turn chat id d in (answer_of ADeleted r, d')
  | OpUpdate chat id content position dbnow =>
      let '(r, d') := update_queued_turn chat id content position dbnow d in
      (answer_of (fun o => AUpdated (is_some o)) r, d')
  end.

(** The tables a queue lives in: rows as in [queue_ok], each in a session. *)
Definition homes (d : db W) : Prop :=
  forall k r, d_queued d !! k = Some r -> is_Some (d_sessions d !! u_session_id r).
Definition fine (d : db W) : Prop := queue_ok (d_queued d) /\ homes d.

(** What holds of every database an operation leaves. *)
Definition moves_list (d : db W) (op : queue_op) (a : queue_answer) (d' : db W) : Prop :=
  list_step (queue d) op a (queue d') /\ fine d'.

Lemma homes_delete (d d' : db W) id :
  d_queued d' = delete id (d_queued d) -> d_sessions d' = d_sessions d -> homes d -> homes d'.
Proof.
  intros Hq Hs Hh k r. rewrite Hq, Hs. intros [_ Hr]%lookup_delete_Some. by eapply Hh.
Qed.

Lemma queue_same (d d' : db W) : d_queued d' = d_queued d -> queue d' = queue d.
Proof. intros He. unfold queue, queue_rows, all_queued. by rewrite He. Qed.

Lemma at_lists (d d' : db W) chat l :
  queue_ok (d_queued d) -> queue_ok (d_queued d') -> lists (d_queued d') chat l ->
  (forall c l, c <> chat -> lists (d_queued d) c l -> lists (d_queued d') c l) ->
  at_chat chat (item_of <$> l) (queue d) (queue d').
Proof.
  intros Hok Hok' Hl Hothers. unfold queue. split; [by rewrite (lists_of d' chat l)|].
  intros c Hc. f_equal. apply lists_of; [done|]. apply Hothers; [done|]. by apply queue_rows_list.
Qed.

Lemma from_model_stores r q : queued_turn_from_model r = Ok q -> stores q (item_of r).
Proof.
  unfold queued_turn_from_model. destruct (image_ids (u_attachments r)) eqn:Hids; [|done].
  intros [= <-]. by repeat split.
Qed.

Lemma filter_items id (l : list queued) :
  item_of <$> List.filter (fun r => negb (u_id r =? id)) l
  = List.filter (fun x => negb (it_id x =? id)) (item_of <$> l).
Proof.
  induction l as [|r l IH]; [done|]. cbn. destruct (u_id r =? id); cbn; [done|]. by f_equal.
Qed.

Lemma filter_absent id (l : list queued) :
  Forall (fun x => u_id x <> id) l -> List.filter (fun r => negb (u_id r =? id)) l = l.
Proof.
  induction 1 as [|x l Hx _ IH]; [done|]. cbn. apply Z.eqb_neq in Hx. rewrite Hx. cbn. by f_equal.
Qed.

(** Taking out one row of a chat. *)
Lemma delete_at (d d' : db W) chat id r :
  queue_ok (d_queued d) -> d_queued d !! id = Some r -> u_session_id r = chat ->
  d_queued d' = delete id (d_queued d) ->
  queue_ok (d_queued d') /\
  at_chat chat (List.filter (fun x => negb (it_id x =? id)) (queue d chat)) (queue d) (queue d').
Proof.
  intros Hok Hr Hchat He. pose proof (delete_ok _ id Hok) as Hok'. rewrite <- He in Hok'.
  split; [done|]. unfold queue at 1. rewrite <- filter_items. apply at_lists; [done|done| |].
  - rewrite He. by apply delete_lists, queue_rows_list.
  - intros c l Hc Hl. rewrite He. pose proof (delete_lists _ _ _ id Hl) as Hd.
    rewrite filter_absent in Hd; [done|]. rewrite Forall_forall. intros x Hx He'.
    apply Hl in Hx as [Hx ?]. rewrite He' in Hx. congruence.
Qed.

(** Taking out the head. *)
Lemma delete_head_at (d d' : db W) chat r rest :
  queue_ok (d_queued d) -> queue_rows d chat = r :: rest ->
  d_queued d' = delete (u_id r) (d_queued d) ->
  queue_ok (d_queued d') /\ at_chat chat (item_of <$> rest) (queue d) (queue d').
Proof.
  intros Hok Hrows He. pose proof (queue_rows_list d chat Hok) as Hl.
  assert (Hin : r ∈ queue_rows d chat) by (rewrite Hrows; left).
  destruct (lists_at _ _ _ _ Hl Hin) as [Hr Hchat].
  destruct (delete_at d d' chat _ r Hok Hr Hchat He) as [Hok' Hat]. split; [done|].
  replace (item_of <$> rest)
    with (List.filter (fun x => negb (it_id x =? u_id r)) (queue d chat)); [done|].
  unfold queue. rewrite Hrows, <- filter_items. cbn [List.filter]. rewrite Z.eqb_refl. cbn [negb].
  f_equal. destruct Hl as [Hs Hl]. rewrite Hrows in Hs.
  pose proof (sorted_nodup _ Hs) as Hnd. apply NoDup_cons in Hnd as [Hn _].
  apply filter_absent. rewrite Forall_forall. intros x Hx He'.
  assert (Hx' : x ∈ queue_rows d chat) by (rewrite Hrows; by right).
  apply Hl in Hx' as [Hx' _]. rewrite He', Hr in Hx'. injection Hx' as ->. done.
Qed.

(** *** Reading statements *)

#[export] Instance reads_find_queued {R} id : Reads (find_queued id : txn W R _).
Proof. unfold find_queued. reads_all. Qed.
#[export] Instance noroll_find_queued {R} id : NoRoll (find_queued id : txn W R _).
Proof. unfold find_queued. rolls_not. Qed.
#[export] Instance reads_head {R} c : Reads (current_head_on c : txn W R _).
Proof. unfold current_head_on. reads_all. Qed.
#[export] Instance noroll_head {R} c : NoRoll (current_head_on c : txn W R _).
Proof. unfold current_head_on. rolls_not. Qed.
#[export] Instance noroll_insert_queued {R} r : NoRoll (insert_queued r : txn W R _).
Proof. unfold insert_queued. rolls_not. Qed.
#[export] Instance noroll_update_queued {R} i f : NoRoll (update_queued i f : txn W R _).
Proof. unfold update_queued. rolls_not. Qed.
#[export] Instance noroll_delete_queued {R} i f : NoRoll (delete_queued i f : txn W R _).
Proof. unfold delete_queued. rolls_not. Qed.
#[export] Instance noroll_delete_head {R} q : NoRoll (delete_exact_head_on q : txn W R _).
Proof. unfold delete_exact_head_on. rolls_not. Qed.
#[export] Instance noroll_rewrite {R} i c n o l : NoRoll (rewrite_positions i c n o l : txn W R _).
Proof. revert o. induction l as [|r l IH]; intros o; cbn; rolls_not. Qed.

Lemma find_queued_ok {R} id (d d' : db W) o :
  (find_queued id : txn W R _) d = Ok (o, d') -> d_queued d !! id = o.
Proof. by intros [= <- _]. Qed.

Lemma head_ok {R} chat (d d' : db W) q :
  (current_head_on chat : txn W R _) d = Ok (Some q, d') ->
  exists r rest, queue_rows d chat = r :: rest /\ queued_turn_from_model r = Ok q.
Proof.
  unfold current_head_on, mbind, stm_bind, get, mret, stm_ret.
  destruct (queue_rows d chat) as [|r rest]; [done|]. intros H. exists r, rest. split; [done|].
  destruct (queued_turn_from_model r); cbn in H; [|done]. by injection H as ->.
Qed.

(** *** Writing statements *)

Lemma insert_queued_ok {R} r (d d' : db W) a :
  (insert_queued r : txn W R _) d = Ok (a, d') ->
  d_queued d !! u_id r = None /\ queued_row_ok r = true
  /\ d' = with_queued (<[u_id r := r]> (d_queued d)) d.
Proof.
  unfold insert_queued, mbind, stm_bind, get, modify.
  destruct (d_queued d !! u_id r); [done|]. destruct (queued_row_ok r); [|done]. by intros [= _ <-].
Qed.

Lemma delete_queued_ok {R} id f (d d' : db W) n :
  (delete_queued id f : txn W R _) d = Ok (n, d') ->
  (exists r, n = 1 /\ d_queued d !! id = Some r /\ f r = true
             /\ d' = with_queued (delete id (d_queued d)) d)
  \/ n = 0 /\ d' = d /\ forall r, d_queued d !! id = Some r -> f r = false.
Proof.
  unfold delete_queued, mbind, stm_bind, get, mret, stm_ret, modify.
  destruct (d_queued d !! id) as [r|]; [|by intros [= <- <-]; right].
  destruct (f r) eqn:Hf; intros [= <- <-]; [left; eauto | right].
  split_and!; [done|done|]. by intros ? [= <-].
Qed.

Lemma delete_head_ok {R} q (d d' : db W) a :
  (delete_exact_head_on q : txn W R _) d = Ok (a, d') ->
  d' = with_queued (delete (qt_id q) (d_queued d)) d.
Proof.
  unfold delete_exact_head_on, mbind at 1, stm_bind at 1.
  destruct (delete_queued (qt_id q) _ d) as [[n d1]|] eqn:E; [|done].
  apply delete_queued_ok in E as [(r & -> & _ & _ & ->) | (-> & _)]; [|done].
  by intros [= _ <-].
Qed.

Lemma begin_err {R} (m : txn W R R) d e d' : begin m d = (Err e, d') -> d' = d.
Proof. unfold begin. destruct (m d) as [[? ?]|[?|?]]; by intros [= _ <-]. Qed.

Lemma lock_ok {R} chat (d d' : db W) b :
  (acquire_chat_write_lock chat : txn W R _) d = Ok (b, d') -> b = is_some (d_sessions d !! chat).
Proof. by intros [= <- _]. Qed.

(** The answer of an operation, from what its body gives. *)
Lemma answers_move {R} (m : txn W R R) (d : db W) op (f : R -> queue_answer) :
  fine d -> gives m d d (fun a d' => moves_list d op (f a) d') ->
  let '(a, d') := (let '(r, d') := begin m d in (answer_of f r, d')) in moves_list d op a d'.
Proof.
  intros Hok Hm. destruct (begin m d) as [[a|e] d'] eqn:Hb; cbn.
  - exact (gives_begin m d _ a d' Hm Hb).
  - apply begin_err in Hb as ->. split; [constructor | done].
Qed.

Lemma absent_ids (d : db W) chat id :
  fine d -> (forall r, d_queued d !! id = Some r -> u_session_id r <> chat) ->
  id ∉ it_id <$> queue d chat.
Proof.
  intros [Hok _] Hno. unfold queue. rewrite <- list_fmap_compose, list_elem_of_fmap.
  intros (r & -> & Hr). destruct (lists_at _ _ _ _ (queue_rows_list d chat Hok) Hr) as [Hr' Hc].
  by apply (Hno r).
Qed.

Lemma no_session_absent (d : db W) chat id :
  fine d -> is_some (d_sessions d !! chat) = false -> id ∉ it_id <$> queue d chat.
Proof.
  intros Hf Hs. apply absent_ids; [done|]. intros r Hr Hc. destruct Hf as [_ Hh].
  destruct (Hh _ _ Hr) as [n Hn]. rewrite Hc in Hn. by rewrite Hn in Hs.
Qed.

Lemma drop_moves q d : fine d ->
  let '(a, d') := queue_txn (OpDrop q) d in moves_list d (OpDrop q) a d'.
Proof.
  intros Hf. cbn [queue_txn]. unfold delete_turn_if_current.
  apply answers_move; [done|]. give. give; [give; split; [constructor | done]|].
  apply gives_read; [apply _|apply _|]. intros head Hhead. give; [give; split; [constructor | done]|].
  apply gives_step; [apply _|]. intros [] d' Hd. apply delete_head_ok in Hd as ->. give.
  match goal with H : negb (bool_decide _) = false |- _ =>
    apply negb_false_iff, bool_decide_eq_true in H as -> end.
  apply head_ok in Hhead as (r & rest & Hrows & Hr).
  assert (Hid : u_id r = qt_id q) by (by apply from_model_stores in Hr as (? & _)).
  rewrite <- Hid. destruct Hf as [Hok Hh]. destruct (delete_head_at d (with_queued (delete (u_id r) (d_queued d)) d)
    (qt_chat_id q) r rest Hok Hrows eq_refl) as [Hok' Hat].
  split; [|by split; [|eapply homes_delete]]. eapply ls_drop; [|by apply from_model_stores|exact Hat].
  unfold queue. by rewrite Hrows.
Qed.

Lemma delete_moves chat id d : fine d ->
  let '(a, d') := queue_txn (OpDelete chat id) d in moves_list d (OpDelete chat id) a d'.
Proof.
  intros Hf. cbn [queue_txn]. unfold delete_queued_turn.
  apply answers_move; [done|]. apply gives_read; [apply _..|]. intros b Hb.
  apply lock_ok in Hb as ->. give; [give; split; [|done] |].
  { constructor. apply no_session_absent; [done|]. by apply negb_true_iff. }
  apply gives_step; [apply _|]. intros n d' Hd. give.
  apply delete_queued_ok in Hd as [(r & -> & Hr & Hc & ->) | (-> & -> & Hno)].
  - apply Z.eqb_eq in Hc. destruct Hf as [Hok Hh].
    destruct (delete_at d (with_queued (delete id (d_queued d)) d) chat id r Hok Hr Hc eq_refl) as [Hok' Hat].
    split; [|by split; [|eapply homes_delete]]. constructor; [|done].
    unfold queue. rewrite <- list_fmap_compose, list_elem_of_fmap. exists r.
    split; [cbn; by rewrite (qk_ids _ Hok _ _ Hr)|]. apply (ls_rows _ _ _ (queue_rows_list d chat Hok)).
    by rewrite (qk_ids _ Hok _ _ Hr).
  - split; [|done]. constructor. apply absent_ids; [done|]. intros r Hr. apply Z.eqb_neq. by apply Hno.
Qed.

Lemma last_before (l : list queued) r : StronglySorted before l -> list.last l = Some r ->
  Forall (fun x => u_position x <= u_position r) l.
Proof.
  intros Hs Hl. apply last_Some in Hl as [l' ->]. apply Forall_app. split; [|by repeat constructor].
  clear -Hs. induction l' as [|x l' IH]; [constructor|]. cbn in Hs. inversion Hs as [|? ? Hs' Hx]; subst.
  constructor; [|by apply IH]. rewrite Forall_forall in Hx.
  assert (before x r) by (apply Hx; set_solver). unfold before in *. lia.
Qed.

Lemma tail_at (d : db W) r :
  fine d -> d_queued d !! u_id r = None -> is_Some (d_sessions d !! u_session_id r) ->
  queued_row_ok r = true -> Forall (fun x => before x r) (queue_rows d (u_session_id r)) ->
  fine (with_queued (<[u_id r := r]> (d_queued d)) d) /\
  at_chat (u_session_id r) (queue d (u_session_id r) ++ [item_of r]) (queue d)
    (queue (with_queued (<[u_id r := r]> (d_queued d)) d)).
Proof.
  intros [Hok Hh] Hnew Hs Hrow Hlast. set (chat := u_session_id r) in *.
  pose proof (queue_rows_list d chat Hok) as Hl.
  pose proof (insert_ok _ _ _ _ Hok Hl Hnew eq_refl Hrow Hlast) as Hok'. split; [split; [done|]|].
  - intros k x. cbn. rewrite lookup_insert_Some. intros [[<- <-] | [_ Hx]]; [done | by eapply Hh].
  - unfold queue at 1. change [item_of r] with (item_of <$> [r]). rewrite <- fmap_app.
    apply at_lists; [done|done| |].
    + by apply insert_lists.
    + intros c l Hc Hlc. by apply (insert_others _ chat).
Qed.

Lemma enqueue_moves q dbnow d : fine d ->
  let '(a, d') := queue_txn (OpEnqueue q dbnow) d in moves_list d (OpEnqueue q dbnow) a d'.
Proof.
  intros Hf. cbn [queue_txn]. unfold enqueue_turn_inner.
  apply answers_move; [done|]. give; [give|]. give. give. give; [give|].
  cbv zeta. apply gives_read; [apply _..|]. intros o Ho. apply find_queued_ok in Ho. give.
  - apply gives_read; [apply _..|]. intros row Hrow. apply try_ok in Hrow. give; [give|give].
    split; [|done]. match goal with H : same_request _ _ = true |- _ => rename H into Hs end.
    unfold same_request in Hs. bool_props.
    repeat match goal with H : String.eqb _ _ = true |- _ => apply String.eqb_eq in H
                         | H : eqb _ _ = true |- _ => apply eqb_prop in H end.
    destruct Hf as [Hok _]. pose proof (from_model_stores _ _ Hrow) as Hst.
    match goal with H : d_queued d !! qt_id q = Some ?r |- _ =>
      rename H into Hr; pose proof (qk_ids _ Hok _ _ Hr) as Hid;
      apply (ls_again _ _ _ (item_of r))
    end.
    + unfold queue. apply list_elem_of_fmap_2, (ls_rows _ _ _ (queue_rows_list d _ Hok)).
      rewrite Hid. split; [done|]. unfold queued_turn_from_model in Hrow.
      destruct (image_ids _); [|done]. injection Hrow as <-. done.
    + unfold stores in *. naive_solver congruence.
  - give. give; [give|]. give; [|give]. give; [|give].
    match goal with H : get d = _ |- _ => apply get_ok in H as -> end.
    apply gives_step; [apply _|]. intros [] d' Hins. apply insert_queued_ok in Hins as (Hnew & Hrow & ->).
    apply gives_read; [apply _..|]. intros found _. give; [|give]. give. give.
    set (r := queued_row _ _ _ _ _) in *. change (u_id r) with (qt_id q) in *.
    assert (Hlast : Forall (fun x => before x r) (queue_rows d (qt_chat_id q))).
    { pose proof (ls_sorted _ _ _ (queue_rows_list d (qt_chat_id q) (proj1 Hf))) as Hs.
      destruct (list.last _) as [x|] eqn:Hx.
      - pose proof (last_before _ _ Hs Hx) as Hle. eapply Forall_impl; [exact Hle|]. intros y Hy.
        unfold checked_succ in *. case_match; [|done]. unfold before. cbn. simplify_eq. cbn in *. lia.
      - apply last_None in Hx. rewrite Hx. constructor. }
    destruct (tail_at d r Hf Hnew) as [Hf' Hat]; [by eexists | done | done |].
    split; [|done]. apply (ls_enqueue _ _ _ (item_of r)); [| |done|done].
    + unfold queue. rewrite length_fmap. bool_props. lia.
    + intros c y Hy He. unfold queue in Hy. apply list_elem_of_fmap in Hy as (x & -> & Hx).
      destruct (lists_at _ _ _ _ (queue_rows_list d c (proj1 Hf)) Hx) as [Hx' _].
      cbn in He. rewrite He in Hx'. congruence.
Qed.

(** *** Edits and moves *)

Lemma move_row_permutation {A} index target (l : list A) : move_row index target l ≡ₚ l.
Proof.
  unfold move_row. destruct (l !! index) as [x|] eqn:Hx; [|done].
  rewrite <- Permutation_middle, take_drop. rewrite <- (take_drop_middle l index x Hx) at 3.
  by rewrite <- Permutation_middle.
Qed.

Lemma move_row_fmap {A B} (f : A -> B) index target (l : list A) :
  f <$> move_row index target l = move_row index target (f <$> l).
Proof.
  unfold move_row. rewrite list_lookup_fmap. destruct (l !! index); [|done]. cbn [fmap option_fmap option_map].
  by rewrite !fmap_app, fmap_cons, !fmap_take, !fmap_drop, !fmap_app, !fmap_take, !fmap_drop.
Qed.

Lemma position_of_Some id rows i :
  position_of id rows = Some i -> exists r, rows !! i = Some r /\ u_id r = id.
Proof.
  revert i. induction rows as [|r rows IH]; intros i; cbn; [done|].
  destruct (u_id r =? id) eqn:E; [intros [= <-]; exists r; by rewrite Z.eqb_eq in E|].
  destruct (position_of id rows) as [j|]; [|done]. intros [= <-]. by apply IH.
Qed.

Lemma position_of_None id rows : position_of id rows = None -> id ∉ u_id <$> rows.
Proof.
  induction rows as [|r rows IH]; cbn; [intros _; apply not_elem_of_nil|].
  destruct (u_id r =? id) eqn:E; [done|]. rewrite Z.eqb_neq in E.
  destruct (position_of id rows); [done|]. intros _. rewrite not_elem_of_cons. by split; [|apply IH].
Qed.

Lemma update_queued_ok {R} id f (d d' : db W) a :
  (update_queued id f : txn W R _) d = Ok (a, d') ->
  exists r, d_queued d !! id = Some r /\ queued_row_ok (f r) = true
            /\ d' = with_queued (<[id := f r]> (d_queued d)) d.
Proof.
  unfold update_queued, mbind, stm_bind, get, modify.
  destruct (d_queued d !! id) as [r|]; [|done]. destruct (queued_row_ok (f r)) eqn:E; [|done].
  intros [= _ <-]. by exists r.
Qed.

(** What the loop writes to the row at an ordinal. *)
Definition edited (id : Z) (content : option string) (now : Z) (position : Z) (r : queued) : queued :=
  let r := set_position position r in
  if u_id r =? id then set_message content now r else r.

Lemma edited_id id content now p r : u_id (edited id content now p r) = u_id r.
Proof. unfold edited. by case_match. Qed.
Lemma edited_chat id content now p r : u_session_id (edited id content now p r) = u_session_id r.
Proof. unfold edited. by case_match. Qed.
Lemma edited_position id content now p r : u_position (edited id content now p r) = p.
Proof. unfold edited. by case_match. Qed.
Lemma edited_item id content now p r :
  item_of (edited id content now p r) = edit_item id content (item_of r).
Proof.
  unfold edited, edit_item, item_of. cbn. destruct (u_id r =? id) eqn:E; cbn; by rewrite ?E.
Qed.

Lemma rewrite_ok {R} id content now n rows (d d' : db W) a :
  (rewrite_positions id content now n rows : txn W R _) d = Ok (a, d') ->
  NoDup (u_id <$> rows) -> (forall r, r ∈ rows -> d_queued d !! u_id r = Some r) ->
  exists q', d' = with_queued q' d
    /\ renumbers (fun i => edited id content now (Z.min (Z.of_nat (n + i)) I32_MAX)) rows (d_queued d) q'
    /\ forall k x, q' !! k = Some x -> queued_row_ok x = true \/ d_queued d !! k = Some x.
Proof.
  revert n d. induction rows as [|r rows IH]; intros n d; cbn [rewrite_positions].
  - intros [= _ <-] _ _. exists (d_queued d). split; [by destruct d|]. split; [|by right]. by split.
  - unfold mbind at 1, stm_bind at 1. destruct (update_queued _ _ d) as [[b d1]|] eqn:Hu; [|done].
    apply update_queued_ok in Hu as (x & Hx & Hrow & ->). intros Hloop Hnd Hat.
    rewrite fmap_cons in Hnd. apply NoDup_cons in Hnd as [Hn Hnd].
    assert (x = r) as -> by (specialize (Hat r ltac:(left)); congruence).
    set (f := fun r => _) in *. fold (edited id content now (Z.min (Z.of_nat n) I32_MAX) r) in Hrow.
    assert (Hne : forall y, y ∈ rows -> u_id y <> u_id r).
    { intros y Hy He. apply Hn. rewrite <- He. by apply list_elem_of_fmap_2. }
    destruct (IH (S n) _ Hloop Hnd) as (q' & -> & [Hrows Hothers] & Hall).
    { intros y Hy. cbn. rewrite lookup_insert_ne by (intros He; by apply (Hne y)). apply Hat. by right. }
    exists q'. split; [done|]. split; [split|].
    + intros [|i] y Hy; cbn in Hy.
      * injection Hy as <-. rewrite Hothers by done. cbn. rewrite lookup_insert_eq.
        by rewrite Nat.add_0_r.
      * rewrite (Hrows _ _ Hy). do 3 f_equal. lia.
    + intros k Hk. rewrite Hothers by (intros y Hy; apply Hk; by right). cbn.
      apply lookup_insert_ne. apply Hk. left.
    + intros k y Hy. destruct (Hall _ _ Hy) as [?|Hy']; [by left|]. cbn in Hy'.
      apply lookup_insert_Some in Hy' as [[_ <-] | [_ ?]]; [by left | by right].
Qed.

(** Positions are distinct machine integers, so the loop's ordinals are. *)
Lemma rows_bounded lo (l : list queued) :
  StronglySorted before l -> lo <= I32_MAX + 1 ->
  Forall (fun r => lo <= u_position r <= I32_MAX) l -> Z.of_nat (length l) <= I32_MAX - lo + 1.
Proof.
  intros Hs. revert lo. induction Hs as [|x l _ IH Hx]; intros lo Hlo Hall; cbn [length]; [lia|].
  apply Forall_cons in Hall as [Hb Hall].
  enough (Z.of_nat (length l) <= I32_MAX - (u_position x + 1) + 1) by lia.
  apply IH; [lia|]. rewrite Forall_forall in *. intros y Hy. specialize (Hx _ Hy). specialize (Hall _ Hy).
  unfold before in Hx. lia.
Qed.

Lemma queue_length (d : db W) chat :
  queue_ok (d_queued d) -> Z.of_nat (length (queue_rows d chat)) <= I32_MAX + 1.
Proof.
  intros Hok. pose proof (queue_rows_list d chat Hok) as Hl.
  pose proof (rows_bounded 0 (queue_rows d chat) (ls_sorted _ _ _ Hl)) as Hb.
  assert (0 <= I32_MAX + 1) by (unfold I32_MAX; lia).
  enough (Forall (fun r => 0 <= u_position r <= I32_MAX) (queue_rows d chat)) as Hall
    by (specialize (Hb ltac:(done) Hall); lia).
  rewrite Forall_forall. intros r Hr. destruct (lists_at _ _ _ _ Hl Hr) as [Hr' _].
  pose proof (qk_rows _ Hok _ _ Hr') as Hrow. unfold queued_row_ok in Hrow. bool_props. lia.
Qed.

Lemma ids_nodup (d : db W) chat : queue_ok (d_queued d) -> NoDup (u_id <$> queue_rows d chat).
Proof.
  intros Hok. pose proof (queue_rows_list d chat Hok) as Hl.
  apply NoDup_fmap_2_strong; [|by apply sorted_nodup; apply Hl].
  intros x y Hx Hy He. destruct (lists_at _ _ _ _ Hl Hx) as [Hx' _], (lists_at _ _ _ _ Hl Hy) as [Hy' _].
  rewrite He in Hx'. congruence.
Qed.

(** A chat's whole queue rewritten in a new order. *)
Lemma rewrite_at {R} (d d' : db W) chat id content now rows a :
  fine d -> rows ≡ₚ queue_rows d chat ->
  (rewrite_positions id content now 0 rows : txn W R _) d = Ok (a, d') ->
  fine d' /\ at_chat chat (edit_item id content <$> (item_of <$> rows)) (queue d) (queue d').
Proof.
  intros [Hok Hh] Hp Hrun. pose proof (queue_rows_list d chat Hok) as Hl.
  destruct (rewrite_ok _ _ _ _ _ _ _ _ Hrun) as (q' & -> & Hren & Hall).
  { rewrite Hp. by apply ids_nodup. }
  { intros r Hr. rewrite Hp in Hr. by apply (lists_at _ _ _ _ Hl). }
  set (g := fun (i : nat) r => edited id content now (Z.of_nat i) r).
  assert (Hg : renumbers g rows (d_queued d) q').
  { destruct Hren as [Hr Ho]. split; [|done]. intros i r Hi. rewrite (Hr _ _ Hi).
    apply lookup_lt_Some in Hi. rewrite Hp in Hi. pose proof (queue_length d chat Hok).
    unfold g. do 2 f_equal. cbn. lia. }
  assert (Hrows : forall r, r ∈ rows <-> d_queued d !! u_id r = Some r /\ u_session_id r = chat).
  { intros r. rewrite Hp. apply Hl. }
  assert (Hpos : forall i r, u_position (g i r) = Z.of_nat i) by (intros; apply edited_position).
  assert (Hid : forall i r, u_id (g i r) = u_id r) by (intros; apply edited_id).
  assert (Hchat : forall i r, u_session_id (g i r) = u_session_id r) by (intros; apply edited_chat).
  assert (Hok' : queue_ok q').
  { eapply (renumbered_ok g rows (d_queued d) q' chat); try done.
    intros k x Hx. destruct (Hall _ _ Hx) as [?|Hx']; [done | by eapply (qk_rows _ Hok)]. }
  split; [split; [done|]|].
  - intros k x Hx. cbn in *.
    destruct (renumbered_at g rows (d_queued d) q' chat Hg Hok Hrows _ _ Hx)
      as [(i & r & Hi & _ & ->) | [Hx' _]]; [|by eapply Hh].
    rewrite Hchat. apply list_elem_of_lookup_2, Hrows in Hi as [Hi _]. by eapply Hh.
  - replace (edit_item id content <$> (item_of <$> rows)) with (item_of <$> imap g rows).
    + apply at_lists; [done|done| |].
      * by apply (renumbered_lists g rows (d_queued d)).
      * intros c l. by apply (renumbered_others g rows (d_queued d)).
    + apply list_eq. intros i. rewrite !list_lookup_fmap, list_lookup_imap.
      destruct (rows !! i); [|done]. unfold g. cbn [fmap option_fmap option_map]. by rewrite edited_item.
Qed.

Lemma update_moves chat id content position dbnow d : fine d ->
  let '(a, d') := queue_txn (OpUpdate chat id content position dbnow) d in
  moves_list d (OpUpdate chat id content position dbnow) a d'.
Proof.
  intros Hf. cbn [queue_txn]. unfold update_queued_turn. apply answers_move; [done|].
  give; [give|]. apply gives_read; [apply _..|]. intros b Hb. apply lock_ok in Hb as ->. give.
  { give. split; [|done]. constructor. apply no_session_absent; [done|]. by apply negb_true_iff. }
  give. match goal with H : get d = _ |- _ => apply get_ok in H as -> end. give; [|give; split; [|done]].
  - match goal with H : position_of _ _ = Some ?i |- _ => apply position_of_Some in H as (r & Hr & Hid) end.
    apply gives_step; [apply _|]. intros u d' Hrun.
    eapply (rewrite_at d d' chat) in Hrun as [Hf' Hat]; [|done|].
    + apply gives_read; [apply _..|]. intros found _. give; [|give]. give. give. split; [|done].
      cbn [is_some]. eapply ls_update.
      * unfold queue. rewrite list_lookup_fmap, Hr. reflexivity.
      * done.
      * destruct position as [p|]; [|exact Hat]. unfold queue at 1 2. rewrite length_fmap.
        by rewrite <- move_row_fmap.
    + destruct position; [apply move_row_permutation | done].
  - constructor. match goal with H : position_of _ _ = None |- _ => apply position_of_None in H as Hn end.
    unfold queue. rewrite <- list_fmap_compose. exact Hn.
Qed.
End Steps.
