(* ===== verification/TurnHistories.v ===== *)
(** * Promotion, and histories of a chat

    The head of a chat's queue becomes a turn: the same transaction stores the
    turn and removes the row.  Turn operations and queue operations in any
    order, by any number of callers: every history is a run of the list machine
    of [TurnQueueSteps] beside a run of the turn machine of [TurnSpec]; a queued
    message stays until it is withdrawn or has its turn. *)
From stdpp Require Import gmap sorting.
From S2P Require Import Prelude RustStr TurnTables TurnLeases TurnResolve TurnCancel TurnParks TurnSteers.
From S2P Require Import TurnPlacements TurnAdmission TurnSpec TurnRefine TurnSettles TurnProgress TurnMachine TurnAnswers.
From S2P Require Import TurnOutcomes TurnQueue TurnQueueSteps.

Open Scope Z_scope.

Section Promotes.
Context {W C : Type} `{P : TurnPeers W C}.

#[export] Instance noroll_put {R} r : NoRoll (insert_turn r : txn W R _).
Proof. unfold insert_turn, put_turn. rolls_not. Qed.
#[export] Instance noroll_insert_accepted {R} id chat model content images docs skills voice rep mid now :
  NoRoll (insert_accepted_turn_on id chat model content images docs skills voice rep mid now
            : txn W R _).
Proof.
  unfold insert_accepted_turn_on, reserve_message_identity_on, next_message_seq_on, insert_message,
    drop_replaced_turns_on, peer_, find_turn. rolls_not.
Qed.

Lemma insert_accepted_ok {R} id chat model content images documents skills voice replaces mid now
    (d d' : db W) row :
  (insert_accepted_turn_on id chat model content images documents skills voice replaces mid now
     : txn W R _) d = Ok (row, d') ->
  d_turns d !! id = None /\ d_turns d' = <[id := row]> (d_turns d)
  /\ queued_part d' = queued_part d
  /\ exists owner ordinal digest,
       row = accepted_row id owner chat ordinal model content skills voice digest replaces mid now.
Proof.
  intros Hrun. pose proof (insert_accepted_row (R := R) id chat model content images documents skills voice
    replaces mid now (view_of d) d eq_refl) as Hrow. rewrite Hrun in Hrow.
  destruct Hrow as (Hnew & _ & Hv & owner & ordinal & digest & ->).
  split_and!; [done | | | by eauto].
  - change (v_turns (view_of d') = <[id := accepted_row id owner chat ordinal model content skills voice
      digest replaces mid now]> (v_turns (view_of d))). by rewrite Hv.
  - by eapply leaves_insert_accepted.
Qed.

(** What a promotion stored, by its answer. *)
Definition promoted (q : QueuedAgentTurn) (model : string) (d : db W) (t : turn) (d' : db W) : Prop :=
  d_turns d !! qt_id q = None /\ d_turns d' = <[qt_id q := t]> (d_turns d)
  /\ t_id t = qt_id q /\ t_session_id t = qt_chat_id q /\ t_status t = as_str Queued
  /\ t_user_input t = qt_content q /\ ad_model (t_admitted t) = Some model
  /\ ad_invoked_skills (t_admitted t) = qt_invoked_skills q
  /\ ad_voice_input_used (t_admitted t) = qt_voice_input_used q.

(** [q] is what reading the head of its chat's queue gives. *)
Definition current (d : db W) (q : QueuedAgentTurn) : Prop :=
  exists row rest, queue_rows d (qt_chat_id q) = row :: rest /\ queued_turn_from_model row = Ok q.

Definition promotes (d : db W) (q : QueuedAgentTurn) (model : string) (a : PromoteQueuedTurnOutcome)
    (d' : db W) : Prop :=
  match a with
  | PqPromoted t => current d q /\ find_active_turn_on d (qt_chat_id q) = None
                    /\ promoted q model d t d'
  | PqExisting t => current d q /\ d_turns d !! qt_id q = Some t /\ t_session_id t = qt_chat_id q
                    /\ ad_model (t_admitted t) = Some model
                    /\ ad_invoked_skills (t_admitted t) = qt_invoked_skills q
                    /\ d_turns d' = d_turns d
  | PqChatBusy t => find_active_turn_on d (qt_chat_id q) = Some t /\ d' = d
  | PqStale => d' = d
  end.

Lemma exact_accepted_ok {R} r chat model content images docs skills voice rep (d d' : db W) t :
  (exact_accepted_turn_on r chat model content images docs skills voice rep : txn W R _) d
    = Ok (AcExisting t, d') ->
  t = r /\ d' = d /\ t_session_id r = chat /\ ad_model (t_admitted r) = Some model
  /\ ad_invoked_skills (t_admitted r) = skills.
Proof.
  intros Hrun. pose proof (reads_exact_accepted (R := R) r chat model content images docs skills voice rep
    _ _ _ Hrun) as ->. revert Hrun.
  unfold exact_accepted_turn_on, mbind, stm_bind, get, mret, stm_ret.
  repeat (case_match; try done; cbn beta iota in *).
  all: intros H'; bool_props; simplify_eq.
  all: match goal with H : turn_run_from_model _ _ = Ok _ |- _ => apply run_ok in H as [? ?] end; subst.
  all: repeat match goal with H : bool_decide _ = true |- _ => apply bool_decide_eq_true in H end.
  all: by split_and!.
Qed.

(** The head's row removed, beside writes that leave the queues alone. *)
Lemma take_head {R} q (d d1 d' : db W) row rest a :
  fine d -> queue_rows d (qt_chat_id q) = row :: rest -> queued_turn_from_model row = Ok q ->
  queued_part d1 = queued_part d ->
  (delete_exact_head_on q : txn W R _) d1 = Ok (a, d') ->
  d_turns d' = d_turns d1 /\ fine d' /\
  exists x l, queue d (qt_chat_id q) = x :: l /\ stores q x
              /\ at_chat (qt_chat_id q) l (queue d) (queue d').
Proof.
  intros [Hok Hh] Hrows Hrow Hpart Hd. apply delete_head_ok in Hd as ->. split; [done|].
  injection Hpart as Hq Hs. pose proof (from_model_stores _ _ Hrow) as Hst.
  assert (Hid : u_id row = qt_id q) by apply Hst.
  set (d' := with_queued _ _).
  assert (Hd' : d_queued d' = delete (u_id row) (d_queued d)) by (cbn; by rewrite Hq, Hid).
  destruct (delete_head_at d d' _ row rest Hok Hrows Hd') as [Hok' Hat].
  split; [split; [done|]; eapply homes_delete; done|].
  exists (item_of row), (item_of <$> rest). split; [|done]. unfold queue. by rewrite Hrows.
Qed.

Definition waits (o : PromoteQueuedTurnOutcome) : queue_answer :=
  match o with
  | PqPromoted t => APromoted t
  | PqExisting _ => AExisting
  | PqChatBusy _ => ABusy
  | PqStale => AStale
  end.

Lemma promote_gives q model images mid dbnow (d : db W) : fine d ->
  let '(r, d') := promote_turn q model images mid dbnow d in
  match r with
  | Ok o => promotes d q model o d' /\ moves_list d (OpPromote q model images mid dbnow) (waits o) d'
  | Err _ => d' = d
  end.
Proof.
  intros Hf. destruct (promote_turn q model images mid dbnow d) as [[o|e] d'] eqn:Hrun;
    [|by apply begin_err in Hrun].
  refine (gives_begin _ _ (fun o d' => promotes d q model o d' /\
    moves_list d (OpPromote q model images mid dbnow) (waits o) d') _ _ _ Hrun). clear Hrun o d'.
  assert (Hstale : promotes d q model PqStale d /\
    moves_list d (OpPromote q model images mid dbnow) (waits PqStale) d)
    by (split; [done|]; split; [constructor; right; left | done]).
  do 5 give. give; [by give|].
  apply gives_read; [apply _..|]. intros head Hhead. give; [|by give]. give; [by give|].
  match goal with H : negb (bool_decide _) = false |- _ =>
    apply negb_false_iff, bool_decide_eq_true in H as -> end.
  apply head_ok in Hhead as (row & rest & Hrows & Hrow).
  give. match goal with H : get d = _ |- _ => apply get_ok in H as -> end.
  give. give; [|give]. apply gives_read; [apply _..|]. intros existing Hex.
  apply find_turn_ok in Hex. give.
  - apply gives_read; [apply _..|]. intros out Hout. give; try by give.
    apply exact_accepted_ok in Hout as (-> & _ & Hs & Hm & Hk).
    apply gives_step; [apply _|]. intros [] d' Hd. give.
    destruct (take_head q d d d' row rest () Hf Hrows Hrow eq_refl Hd) as (Ht & Hf' & x & l & ? & ? & ?).
    split; [split; [by exists row, rest | by split_and!]|]. split; [|done]. by eapply ls_existing.
  - give; [give|]. give.
    + give. match goal with H : turn_run_from_model _ _ = _ |- _ => apply run_ok in H as [-> _] end.
      give. split; [by split|]. split; [|done]. constructor. left.
    + apply gives_step; [apply _|]. intros t d1 Hins.
      apply insert_accepted_ok in Hins as (Hnew & Hturns & Hpart & owner & ordinal & digest & ->).
      apply gives_step; [apply _|]. intros [] d' Hd.
      destruct (take_head q d d1 d' row rest () Hf Hrows Hrow Hpart Hd) as (Ht & Hf' & x & l & ? & ? & ?).
      apply gives_step; [apply _|]. intros t d2 Hrun. apply run_ok in Hrun as [-> ->]. give.
      rewrite Hturns in Ht. split; [split; [by exists row, rest | by split_and!]|]. split; [|done]. by eapply ls_promoted.
Qed.

(** What a promotion answers is what it did.  A turn is promoted only from
    the row the caller read, still the head of its chat with every field as it
    was, only while the chat has no live turn, and is stored queued under the
    message's id with its text, skills and voice mark; a busy answer names the
    live turn, and every answer but these two leaves the tables alone. *)
Lemma promotion_takes_the_head q model images mid dbnow (d d' : db W) answer :
  fine d -> promote_turn q model images mid dbnow d = (answer, d') ->
  match answer with Ok o => promotes d q model o d' | Err _ => d' = d end.
Proof.
  intros Hf Hrun. pose proof (promote_gives q model images mid dbnow d Hf) as Hp. rewrite Hrun in Hp.
  destruct answer; [apply Hp | done].
Qed.

(** *** A repeated request to queue *)

Definition admits (q : QueuedAgentTurn) : bool :=
  negb ((qt_id q =? 0) || trim_is_empty (qt_content q) || has_nul (qt_content q))
  && match validate_admission (admission_request q) with Ok _ => true | Err _ => false end.

(** The row of [q] is in the table and reads as [row]. *)
Definition queued_as (q : QueuedAgentTurn) (row : QueuedAgentTurn) (d : db W) : Prop :=
  admits q = true /\ is_some (d_sessions d !! qt_chat_id q) = true /\ same_request row q = true
  /\ exists r, d_queued d !! qt_id q = Some r /\ queued_turn_from_model r = Ok row.

Lemma queued_again q dbnow row (d : db W) :
  queued_as q row d -> enqueue_turn_inner q dbnow d = (Ok (RqQueued row), d).
Proof.
  intros (Hadm & Hs & Hsame & r & Hr & Hrow). unfold admits in Hadm. apply andb_prop in Hadm as [Hbad Hval].
  apply negb_true_iff in Hbad. unfold enqueue_turn_inner, begin. rewrite Hbad.
  unfold acquire_chat_write_lock, find_queued, mbind, stm_bind, get, mret, stm_ret.
  destruct (validate_admission _) as [u|]; [|done]. cbn.
  destruct (d_sessions d !! qt_chat_id q); [|done]. cbn. rewrite Hr. cbn.
  rewrite Hrow. cbn. by rewrite Hsame.
Qed.

Lemma same_request_row q owner digest position now row :
  queued_turn_from_model (queued_row q owner digest position now) = Ok row -> same_request row q = true.
Proof.
  intros [= <-]. unfold same_request. cbn.
  by rewrite !Z.eqb_refl, String.eqb_refl, eqb_reflx, !bool_decide_eq_true_2.
Qed.

Lemma enqueue_queued q dbnow (d d' : db W) row :
  enqueue_turn_inner q dbnow d = (Ok (RqQueued row), d') -> queued_as q row d'.
Proof.
  unfold enqueue_turn_inner. intros Hrun.
  refine (gives_begin _ _ (fun o d' => forall row, o = RqQueued row -> queued_as q row d') _ _ _ Hrun
            row eq_refl). clear Hrun row d'.
  give; [give|]. apply gives_read; [apply _..|]. intros u Hval. apply try_ok in Hval.
  assert (Hadm : admits q = true).
  { unfold admits. rewrite Hval. by match goal with H : _ || _ = false |- _ => rewrite H end. }
  apply gives_read; [apply _..|]. intros b Hb. apply lock_ok in Hb as ->. give; [give|].
  match goal with H : negb _ = false |- _ => apply negb_false_iff in H as Hs end.
  cbv zeta. apply gives_read; [apply _..|]. intros o Ho. apply find_queued_ok in Ho. give.
  - apply gives_read; [apply _..|]. intros x Hx. apply try_ok in Hx. give; [give|give].
    intros row [= <-]. split_and!; [done..|]. by eexists.
  - give. give; [give|]. give; [|give]. give; [|give]. apply gives_step; [apply _|].
    intros [] d' Hins. apply insert_queued_ok in Hins as (_ & _ & ->).
    apply gives_read; [apply _..|]. intros found Hfound. apply find_queued_ok in Hfound. give; [|give].
    apply gives_read; [apply _..|]. intros x Hx. apply try_ok in Hx. give. intros row [= <-].
    cbn in Hfound. rewrite lookup_insert_eq in Hfound. injection Hfound as <-.
    split_and!; [done | done | by eapply same_request_row |]. eexists. by split; [apply lookup_insert_eq|].
Qed.

(** Queueing is idempotent: the exact request sent again, at any later time,
    is answered with the row the first one stored and changes nothing. *)
Lemma enqueue_retry_is_exact q dbnow dbnow' (d d' : db W) row :
  enqueue_turn q dbnow d = (Ok row, d') ->
  same_request row q = true /\ enqueue_turn q dbnow' d' = (Ok row, d').
Proof.
  unfold enqueue_turn. destruct (enqueue_turn_inner q dbnow d) as [[[r|]|e] d1] eqn:Hrun; try done.
  intros [= -> ->]. pose proof (enqueue_queued _ _ _ _ _ Hrun) as Has.
  split; [apply Has|]. by rewrite (queued_again _ _ _ _ Has).
Qed.
End Promotes.

Open Scope Z_scope.

(** ** The list machine *)

Definition answered : Type := queue_op * queue_answer.

Inductive list_run (L : state) : list answered -> state -> Prop :=
| lr_done : list_run L [] L
| lr_step op a L1 tr L2 :
    list_step L op a L1 -> list_run L1 tr L2 -> list_run L ((op, a) :: tr) L2.

(** A call that took a message out of its chat's queue: it has its turn, or it
    was withdrawn. *)
Definition turned (chat id : Z) (e : answered) : Prop :=
  match e with
  | (OpPromote q _ _ _ _, APromoted _) => qt_chat_id q = chat /\ qt_id q = id
  | (OpPromote q _ _ _ _, AExisting) => qt_chat_id q = chat /\ qt_id q = id
  | _ => False
  end.
Definition withdrawn (chat id : Z) (e : answered) : Prop :=
  match e with
  | (OpDrop q, ADropped true) => qt_chat_id q = chat /\ qt_id q = id
  | (OpDelete c i, ADeleted true) => c = chat /\ i = id
  | _ => False
  end.
Definition took (chat id : Z) (e : answered) : Prop := turned chat id e \/ withdrawn chat id e.

(** A call that gives a message a new place. *)
Definition moves_in (chat : Z) (e : answered) : Prop :=
  match e with
  | (OpUpdate c _ _ (Some _) _, _) => c = chat
  | _ => False
  end.

Definition ids (L : state) (chat : Z) : list Z := it_id <$> L chat.
Definition ahead (l : list Z) (x y : Z) : Prop := exists l1 l2, l = l1 ++ x :: l2 /\ y ∈ l2.

Lemma edit_ids id content (l : list item) : it_id <$> (edit_item id content <$> l) = it_id <$> l.
Proof.
  rewrite <- list_fmap_compose. apply list_fmap_ext. intros i x _. cbn.
  unfold edit_item. by case_match.
Qed.

Lemma filter_ids id (l : list item) :
  it_id <$> List.filter (fun x => negb (it_id x =? id)) l
  = List.filter (fun k => negb (k =? id)) (it_id <$> l).
Proof. induction l as [|x l IH]; [done|]. cbn. destruct (it_id x =? id); cbn; [done | by f_equal]. Qed.

Lemma ids_elsewhere c chat l L L' : c <> chat -> at_chat c l L L' -> ids L' chat = ids L chat.
Proof. intros Hc [_ Ho]. unfold ids. by rewrite Ho. Qed.

(** What a call makes of the ids of a chat. *)
Inductive ids_step (chat : Z) (l : list Z) (e : answered) : list Z -> Prop :=
| is_same : ids_step chat l e l
| is_append x : Z.of_nat (length l) < MAX_PER_CHAT -> ids_step chat l e (l ++ [x])
| is_head x l' : l = x :: l' -> took chat x e -> ids_step chat l e l'
| is_filter x : withdrawn chat x e -> ids_step chat l e (List.filter (fun k => negb (k =? x)) l)
| is_move l' : moves_in chat e -> l' ≡ₚ l -> ids_step chat l e l'.

Lemma list_step_ids L op a L' chat : list_step L op a L' -> ids_step chat (ids L chat) (op, a) (ids L' chat).
Proof.
  assert (Hhead : forall c x l q e, L c = x :: l -> stores q x -> at_chat c l L L' ->
    c = qt_chat_id q -> took (qt_chat_id q) (qt_id q) e -> ids_step chat (ids L chat) e (ids L' chat)).
  { intros c x l q e Hl Hst Hat -> Htook. destruct (decide (qt_chat_id q = chat)) as [<-|Hne].
    - destruct Hst as [Hid _]. apply (is_head _ _ _ (qt_id q)); [|done]. unfold ids.
      destruct Hat as [-> _]. rewrite Hl. cbn. by rewrite Hid.
    - rewrite (ids_elsewhere _ _ _ _ _ Hne Hat). constructor. }
  destruct 1 as [ | | q dbnow x L' Hroom _ _ Hat | q model images mid dbnow t x l L' Hl Hst Hat
    | q model images mid dbnow x l L' Hl Hst Hat | | q x l L' Hl Hst Hat | | c id L' _ Hat |
    | c id content position dbnow index x L' _ _ Hat | ]; try by constructor.
  - destruct (decide (qt_chat_id q = chat)) as [<-|Hne].
    + unfold ids at 2. destruct Hat as [-> _]. rewrite fmap_app. apply is_append. unfold ids. by rewrite length_fmap.
    + rewrite (ids_elsewhere _ _ _ _ _ Hne Hat). constructor.
  - by apply (Hhead (qt_chat_id q) x l q); [..|left].
  - by apply (Hhead (qt_chat_id q) x l q); [..|left].
  - by apply (Hhead (qt_chat_id q) x l q); [..|right].
  - destruct (decide (c = chat)) as [<-|Hne].
    + unfold ids at 2. destruct Hat as [-> _]. rewrite filter_ids. by apply is_filter.
    + rewrite (ids_elsewhere _ _ _ _ _ Hne Hat). constructor.
  - destruct (decide (c = chat)) as [<-|Hne].
    + unfold ids at 2. destruct Hat as [-> _]. rewrite edit_ids.
      destruct position as [p|]; [|constructor]. apply is_move; [done|].
      unfold ids. apply fmap_Permutation, move_row_permutation.
    + rewrite (ids_elsewhere _ _ _ _ _ Hne Hat). constructor.
Qed.

Lemma ids_step_keeps chat l e l' x : ids_step chat l e l' -> x ∈ l -> x ∈ l' \/ took chat x e.
Proof.
  destruct 1 as [ | y _ | y l' -> Ht | y Hw | l' _ Hp]; intros Hx; [by left | set_solver | set_solver | |].
  - destruct (decide (x = y)) as [->|Hne]; [by right; right|]. left. apply filter_elem.
    split; [done|]. by apply negb_true_iff, Z.eqb_neq.
  - left. by rewrite Hp.
Qed.

Lemma ids_step_ahead chat l e l' x y :
  ids_step chat l e l' -> ~ moves_in chat e -> ahead l x y ->
  ahead l' x y \/ took chat x e \/ took chat y e.
Proof.
  destruct 1 as [ | z _ | z l' -> Ht | z Hw | l' Hm _]; intros Hno (l1 & l2 & Hl & Hy); [by left; exists l1, l2| | | |done].
  - left. exists l1, (l2 ++ [z]). rewrite Hl, <- app_assoc. split; [done | set_solver].
  - destruct l1 as [|w l1]; cbn in Hl; injection Hl as -> ->; [by right; left|]. left. by exists l1, l2.
  - destruct (decide (z = x)) as [->|Hx]; [by right; left; right|].
    destruct (decide (z = y)) as [->|Hny]; [by right; right; right|]. left.
    exists (List.filter (fun k => negb (k =? z)) l1), (List.filter (fun k => negb (k =? z)) l2).
    rewrite Hl, List.filter_app. cbn. destruct (x =? z) eqn:E; [rewrite Z.eqb_eq in E; congruence|].
    split; [done|]. apply filter_elem. split; [done|]. apply negb_true_iff, Z.eqb_neq. congruence.
Qed.

Definition bounded (L : state) : Prop := forall c, Z.of_nat (length (L c)) <= MAX_PER_CHAT.

Lemma list_step_bound L op a L' : list_step L op a L' -> bounded L -> bounded L'.
Proof.
  intros Hs Hb c. specialize (Hb c). apply (list_step_ids _ _ _ _ c) in Hs. unfold ids in Hs.
  rewrite <- (length_fmap it_id) in Hb |- *.
  destruct Hs as [ | y Hroom | y l' Hl _ | y _ | l' _ Hp]; [done | | | |by rewrite Hp].
  - rewrite length_app. cbn. lia.
  - rewrite Hl in Hb. cbn in Hb. lia.
  - pose proof (List.filter_length_le (fun k => negb (k =? y)) (it_id <$> L c)). lia.
Qed.

Lemma list_run_bound L tr L' : list_run L tr L' -> bounded L -> bounded L'.
Proof. induction 1 as [|L op a L1 tr L2 Hs _ IH]; [done|]. intros Hb. by eapply IH, list_step_bound. Qed.

(** ** Histories of the tables *)
Section Histories.
Context {W C : Type} `{P : TurnPeers W C}.

(** One committed transaction on a turn or on a queue, any number of them;
    [tr] is what the queue operations were answered, [may] which turns a lease
    may be taken on directly. *)
Inductive chat_steps (may : db W -> option Z -> Prop) (d : db W) : list answered -> db W -> Prop :=
| cr_done : chat_steps may d [] d
| cr_turn l d1 tr d' : turn_txn d l d1 -> may d l -> chat_steps may d1 tr d' -> chat_steps may d tr d'
| cr_queue op a d1 tr d' :
    queue_txn op d = (a, d1) -> chat_steps may d1 tr d' -> chat_steps may d ((op, a) :: tr) d'.
(** Any history, and those in which leases are taken directly only on turns
    that wait for one *)
Definition chat_history : db W -> list answered -> db W -> Prop := chat_steps (fun _ _ => True).
Definition chat_run : db W -> list answered -> db W -> Prop := chat_steps waits_for_lease.

(** *** Queue operations on the turn machine *)

#[export] Instance keeps_find_queued {R} id : Keeps (find_queued id : txn W R _).
Proof. unfold find_queued. keep_all. Qed.
#[export] Instance keeps_insert_queued {R} r : Keeps (insert_queued r : txn W R _).
Proof. unfold insert_queued. keep_all. Qed.
#[export] Instance keeps_update_queued {R} id f : Keeps (update_queued id f : txn W R _).
Proof. unfold update_queued. keep_all. Qed.
#[export] Instance keeps_delete_queued {R} id f : Keeps (delete_queued id f : txn W R _).
Proof. unfold delete_queued. keep_all. Qed.
#[export] Instance keeps_head {R} c : Keeps (current_head_on c : txn W R _).
Proof. unfold current_head_on. keep_all. Qed.
#[export] Instance keeps_delete_head {R} q : Keeps (delete_exact_head_on q : txn W R _).
Proof. unfold delete_exact_head_on. keep_all. Qed.
#[export] Instance keeps_rewrite {R} i c n o l : Keeps (rewrite_positions i c n o l : txn W R _).
Proof. revert o. induction l as [|r l IH]; intros o; cbn; keep_all. Qed.

Lemma promote_refines q model images mid dbnow (d : db W) :
  view_ok (view_of d) -> vstep (view_of d) (view_of (promote_turn q model images mid dbnow d).2).
Proof.
  intros Hok. apply refines_begin; [|done]. clear d Hok. intros v Hok.
  do 5 run_step. run_step; [leaf|]. run_step. run_step; [|leaf]. run_step; [leaf|].
  run_step. run_step. run_step; [|leaf].
  eapply runs_keep; [apply _|]. intros existing. run_step.
  - apply runs_same. keep_all.
  - run_step; [leaf|]. run_step; [leaf|].
    eapply txn_runs_bind; [apply insert_accepted_inserts|]. intros row v' Hins.
    eapply txn_runs_conseq with (Q := fun _ v'' => v'' = v').
    + do 2 (apply runs_keep; [apply _|]; intros ?). by apply keeps_ret.
    + intros _ v'' ->. eapply inserts_step. exact Hins.
Qed.

Lemma queue_txn_refines op (d : db W) :
  view_ok (view_of d) -> vstep (view_of d) (view_of (queue_txn op d).2).
Proof.
  intros Hok. destruct op as [q dbnow|q model images mid dbnow|q|chat id|chat id content position dbnow]; cbn.
  all: match goal with |- context [let '(_, _) := ?m in _] =>
         rewrite (surjective_pairing m); cbn end.
  2: by apply promote_refines.
  all: apply refines_begin; [apply refines_keeps; repeat (keep_all; cbv zeta) | done].
Qed.

Lemma queue_txn_moves op (d : db W) : fine d ->
  let '(a, d') := queue_txn op d in moves_list d op a d'.
Proof.
  intros Hf. destruct op as [q dbnow|q model images mid dbnow|q|chat id|chat id content position dbnow].
  - by apply enqueue_moves.
  - cbn. pose proof (promote_gives q model images mid dbnow d Hf) as Hp.
    destruct (promote_turn _ _ _ _ _ _) as [[o|e] d']; cbn; [apply Hp | subst d'].
    split; [constructor | done].
  - by apply drop_moves.
  - by apply delete_moves.
  - by apply update_moves.
Qed.

(** The queues are lists in any history. *)
Lemma chat_history_moves (d d' : db W) tr :
  chat_history d tr d' -> fine d -> list_run (queue d) tr (queue d') /\ fine d'.
Proof.
  induction 1 as [d | d l d1 tr d' Hstep _ _ IH | d op a d1 tr d' Hop _ IH]; intros Hf.
  - split; [constructor | done].
  - pose proof (turn_txn_leaves _ _ _ Hstep) as [= Hq Hs].
    rewrite (queue_same _ _ (eq_sym Hq)). apply IH. unfold fine, homes in *. by rewrite Hq, Hs.
  - pose proof (queue_txn_moves op d Hf) as Hm. rewrite Hop in Hm. destruct Hm as [Hm Hf1].
    destruct (IH Hf1). split; [by econstructor | done].
Qed.

(** What holds of every run. *)
Lemma chat_run_refines (d d' : db W) tr :
  chat_run d tr d' -> well_formed d -> fine d ->
  list_run (queue d) tr (queue d') /\ vrun (view_of d) (view_of d') /\ well_formed d' /\ fine d'.
Proof.
  induction 1 as [d | d l d1 tr d' Hstep Hw _ IH | d op a d1 tr d' Hop _ IH]; intros Hok Hf.
  - split_and!; [constructor | apply rtc_refl | done | done].
  - pose proof (txn_refines _ _ (ex_intro _ _ (conj Hstep Hw)) Hok) as Hv.
    pose proof (turn_txn_leaves _ _ _ Hstep) as [= Hq Hs].
    rewrite (queue_same _ _ (eq_sym Hq)). destruct IH as (? & ? & ? & ?); [by eapply vstep_ok| |].
    + unfold fine, homes in *. by rewrite Hq, Hs.
    + split_and!; [done | by eapply rtc_l | done | done].
  - pose proof (queue_txn_refines op d Hok) as Hv. pose proof (queue_txn_moves op d Hf) as Hm.
    rewrite Hop in Hv, Hm. cbn in Hv. destruct Hm as [Hm Hf1].
    destruct IH as (? & ? & ? & ?); [by eapply vstep_ok | done |].
    split_and!; [by econstructor | by eapply rtc_l | done | done].
Qed.

Lemma chat_run_row (d d' : db W) tr id t :
  chat_run d tr d' -> well_formed d -> fine d -> d_turns d !! id = Some t ->
  exists t', d_turns d' !! id = Some t' /\ t_session_id t' = t_session_id t.
Proof.
  intros Hrun Hok Hf Ht. destruct (chat_run_refines _ _ _ Hrun Hok Hf) as (_ & Hv & _ & _).
  destruct (vrun_grows _ _ _ _ Hv Hok Ht) as (t' & Ht' & Hk & _). exists t'. by destruct Hk.
Qed.

(** A promotion's answer, from the turn table's side. *)
Lemma turned_stored op a (d d' : db W) chat id :
  fine d -> queue_txn op d = (a, d') -> turned chat id (op, a) ->
  exists t, d_turns d' !! id = Some t /\ t_session_id t = chat.
Proof.
  intros Hf Hop Ht. destruct op as [|q model images mid dbnow| | |]; try by destruct a.
  cbn in Hop. pose proof (promote_gives q model images mid dbnow d Hf) as Hp.
  destruct (promote_turn _ _ _ _ _ _) as [[[t|t|t|]|e] d0]; injection Hop as <- <-; try done;
    destruct Ht as [<- <-]; destruct Hp as [Hp _]; cbn in Hp.
  - destruct Hp as (_ & _ & _ & -> & _ & ? & _). exists t. by rewrite lookup_insert_eq.
  - destruct Hp as (_ & ? & ? & _ & _ & ->). by exists t.
Qed.

(** The ids of the messages that became turns. *)
Definition new_turn (e : answered) : option Z :=
  match e with (OpPromote q _ _ _ _, APromoted _) => Some (qt_id q) | _ => None end.

Lemma promoted_fresh op a (d d' : db W) id :
  fine d -> queue_txn op d = (a, d') -> new_turn (op, a) = Some id ->
  d_turns d !! id = None /\ is_Some (d_turns d' !! id).
Proof.
  intros Hf Hop Hn. destruct op as [|q model images mid dbnow| | |]; try done.
  cbn in Hop. pose proof (promote_gives q model images mid dbnow d Hf) as Hp.
  destruct (promote_turn _ _ _ _ _ _) as [[[t|t|t|]|e] d0]; injection Hop as <- <-; try done.
  injection Hn as <-. destruct Hp as [(_ & _ & Hnew & -> & _) _]. rewrite lookup_insert_eq. by eauto.
Qed.

(** ** What every history keeps *)

(** C20: The queues of all chats are lists: in every history of turn and queue
    operations, each answer is a move of an abstract first-in first-out list
    (append, take the head, withdraw, edit, move; a failed or stale call moves
    nothing), and no chat queues more than 32 messages.  If leases are taken
    directly only on turns that wait for one, the turns beside them run the turn
    machine. *)
Theorem queue_histories_refine_the_list (d d' : db W) tr :
  fine d -> chat_history d tr d' ->
  list_run (queue d) tr (queue d') /\ (bounded (queue d) -> bounded (queue d')) /\ fine d'
  /\ (well_formed d -> chat_run d tr d' -> vrun (view_of d) (view_of d') /\ well_formed d').
Proof.
  intros Hf Hrun. destruct (chat_history_moves _ _ _ Hrun Hf) as [Hl ?].
  split_and!; [done | by eapply list_run_bound | done |].
  intros Hok Hcr. by destruct (chat_run_refines _ _ _ Hcr Hok Hf) as (_ & ? & ? & _).
Qed.

(** C25: No queued message is lost: in every history of a chat (with leases taken
    directly only on turns that wait for one) a message that was queued is queued still, or was withdrawn by a call that said so, or there
    is a turn of that chat under its id. *)
Theorem queued_message_is_never_lost (d d' : db W) tr chat id :
  well_formed d -> fine d -> chat_run d tr d' -> id ∈ ids (queue d) chat ->
  id ∈ ids (queue d') chat \/ (exists e, e ∈ tr /\ withdrawn chat id e)
  \/ exists t, d_turns d' !! id = Some t /\ t_session_id t = chat.
Proof.
  intros Hok Hf Hrun. revert Hok Hf.
  induction Hrun as [d | d l d1 tr d' Hstep Hw _ IH | d op a d1 tr d' Hop Hrun IH]; intros Hok Hf Hin; [by left| |].
  - destruct (chat_run_refines d d1 []) as (Hl & _ & Hok1 & Hf1); [|done..|].
    + eapply cr_turn; [done | done | constructor].
    + inversion Hl as [Hnil Heq|]. apply IH; [done..|]. unfold ids in *. by rewrite <- Heq.
  - destruct (chat_run_refines d d1 [(op, a)]) as (Hl & _ & Hok1 & Hf1); [|done..|].
    { eapply cr_queue; [done | constructor]. }
    inversion Hl as [|? ? L1 ? ? Hs Hnil]; subst. inversion Hnil; subst.
    destruct (ids_step_keeps _ _ _ _ _ (list_step_ids _ _ _ _ chat Hs) Hin) as [Hin1 | [Ht|Hw]].
    + destruct (IH Hok1 Hf1 Hin1) as [? | [(e & ? & ?) | ?]]; [by left | | by right; right].
      right; left. exists e. split; [by right | done].
    + destruct (turned_stored _ _ _ _ _ _ Hf Hop Ht) as (t & Hid & Hs').
      destruct (chat_run_row _ _ _ _ _ Hrun Hok1 Hf1 Hid) as (t' & ? & ?).
      right; right. exists t'. split; [done | congruence].
    + right; left. exists (op, a). split; [left | done].
Qed.

(** A queued message becomes one turn: no history promotes the same id to a
    new turn twice, nor promotes an id that already has a turn. *)
Lemma message_becomes_one_turn (d d' : db W) tr :
  well_formed d -> fine d -> chat_run d tr d' ->
  NoDup (omap new_turn tr) /\ forall id, id ∈ omap new_turn tr -> d_turns d !! id = None.
Proof.
  intros Hok Hf Hrun. revert Hok Hf.
  induction Hrun as [d | d l d1 tr d' Hstep Hw _ IH | d op a d1 tr d' Hop Hrun IH]; intros Hok Hf.
  - split; [constructor|]. intros id. by rewrite elem_of_nil.
  - destruct (chat_run_refines d d1 []) as (_ & Hv & Hok1 & Hf1); [|done..|].
    { eapply cr_turn; [done | done | constructor]. }
    destruct (IH Hok1 Hf1) as [Hnd Hnew]. split; [done|]. intros id Hid. specialize (Hnew id Hid).
    destruct (d_turns d !! id) as [t|] eqn:Ht; [|done].
    destruct (vrun_grows _ _ _ _ Hv Hok Ht) as (t' & Ht' & _). cbn in Ht'. congruence.
  - destruct (chat_run_refines d d1 [(op, a)]) as (_ & Hv & Hok1 & Hf1); [|done..|].
    { eapply cr_queue; [done | constructor]. }
    destruct (IH Hok1 Hf1) as [Hnd Hnew].
    assert (Hold : forall id, id ∈ omap new_turn tr -> d_turns d !! id = None).
    { intros id Hid. specialize (Hnew id Hid). destruct (d_turns d !! id) as [t|] eqn:Ht; [|done].
      destruct (vrun_grows _ _ _ _ Hv Hok Ht) as (t' & Ht' & _). cbn in Ht'. congruence. }
    cbn [omap list_omap]. destruct (new_turn (op, a)) as [id|] eqn:Hid; [|done].
    destruct (promoted_fresh _ _ _ _ _ Hf Hop Hid) as [Hnone Hsome]. split.
    + constructor; [|done]. intros Hin. rewrite (Hnew _ Hin) in Hsome. by destruct Hsome.
    + intros k. rewrite elem_of_cons. intros [->|Hk]; auto.
Qed.

(** Promotion keeps the order of the queue: a message is promoted only after
    every message ahead of it was promoted or withdrawn, unless a caller moved
    messages of that chat or it was itself taken out in between. *)
Lemma promotion_keeps_the_order (d d1 d2 : db W) tr chat x q model images mid dbnow t :
  well_formed d -> fine d -> chat_run d tr d1 ->
  ahead (ids (queue d) chat) x (qt_id q) -> qt_chat_id q = chat ->
  (forall e, e ∈ tr -> ~ moves_in chat e) ->
  queue_txn (OpPromote q model images mid dbnow) d1 = (APromoted t, d2) ->
  exists e, e ∈ tr /\ (took chat x e \/ took chat (qt_id q) e).
Proof.
  intros Hok Hf Hrun Hahead Hchat Hmoves Hop.
  destruct (chat_run_refines _ _ _ Hrun Hok Hf) as (Hl & _ & _ & Hf1). clear Hrun Hok Hf.
  assert (Hend : ahead (ids (queue d1) chat) x (qt_id q) -> False).
  { intros (l1 & l2 & Hids & Hy). pose proof (queue_txn_moves (OpPromote q model images mid dbnow) d1 Hf1) as Hm.
    rewrite Hop in Hm. destruct Hm as [Hm _].
    inversion Hm as [| | |? ? ? ? ? ? y l ? Hhead [Hid _] | | | | | | | | ]; subst; [|set_solver].
    pose proof (ids_nodup d1 (qt_chat_id q) (proj1 Hf1)) as Hnd.
    assert (Heq : u_id <$> queue_rows d1 (qt_chat_id q) = ids (queue d1) (qt_chat_id q))
      by (unfold ids, queue; by rewrite <- list_fmap_compose).
    rewrite Heq, Hids in Hnd. unfold ids in Hids. rewrite Hhead in Hids. cbn in Hids. rewrite Hid in Hids.
    destruct l1 as [|z l1]; cbn in *; injection Hids as <- _;
      apply NoDup_cons in Hnd as [Hn _]; apply Hn; set_solver. }
  revert Hl Hahead Hend. generalize (queue d) (queue d1). intros L0 L1 Hl Hahead Hend. clear Hop Hchat Hf1.
  induction Hl as [L | L op a L' tr L2 Hs _ IH]; [by destruct Hend|].
  destruct (ids_step_ahead _ _ _ _ _ _ (list_step_ids _ _ _ _ chat Hs)
    (Hmoves _ ltac:(left)) Hahead) as [Hahead' | Htook].
  - destruct IH as (e & ? & ?); [intros e He; apply Hmoves; by right | done | done |].
    exists e. split; [by right | done].
  - exists (op, a). split; [left | done].
Qed.
End Histories.
