(* ===== verification/TurnExamples.v ===== *)
(** * The life of a turn and of two queued messages

    The theorems of the turn machine and of the queue at concrete tables. *)
From stdpp Require Import gmap.
From stdpp Require Import gmap sorting.
From S2P Require Import Prelude RustStr TurnTables TurnLeases TurnResolve TurnCancel TurnParks TurnSteers.
From S2P Require Import TurnPlacements TurnAdmission TurnSpec TurnRefine TurnSettles TurnProgress TurnMachine.
From S2P Require Import TurnMachine TurnAnswers TurnOutcomes TurnQueue TurnQueueSteps.
From S2P Require Import TurnHistories.

Open Scope Z_scope.

(** Peers with nothing to say: no children, no cards, no attachments. *)
#[local] Instance quiet_peers : TurnPeers unit Z := {|
  eq_null := false;
  parse_call_id := fun _ => None;
  unsettled_sandbox_children_for_origin_turn_on := fun _ _ => Ok [];
  cancel_sandbox_children_for_origin_turn_on := fun w _ _ _ => Ok (true, w);
  cancel_wait_set_for_turn_on := fun w _ _ => Ok (true, w);
  interrupt_wait_set_for_steer_on := fun w _ _ => Ok (true, w);
  close_pending_for_terminal_turn_on := fun w _ _ => Ok w;
  reject_pending_for_cancelling_turn_on := fun w _ _ => Ok w;
  abandon_pending_for_call_on := fun w _ _ => Ok w;
  citations_eq_dec := _;
  validate_assistant_message := fun _ _ => true;
  insert_for_message_on := fun w _ _ => Ok w;
  exact_citations_for_message_on := fun _ _ => Ok [];
  index_chat_message_on := fun w _ => Ok w;
  index_code_event_on := fun w _ _ _ => Ok w;
  record_work_turn_notification_on := fun w _ _ _ _ => Ok w;
  record_finished_turn_on := fun w _ => Ok w;
  bind_turn_to_message_on := fun w _ _ _ => Ok (None, w);
  user_message_llm_content := fun _ _ _ _ _ => None;
  accepted_images_on := fun _ _ => Ok [];
  accepted_documents_on := fun _ _ => Ok [];
  insert_images_on := fun w _ _ _ _ _ => Ok w;
  insert_documents_on := fun w _ _ _ _ _ => Ok ([], w);
  foreground_agent_run_on := fun _ _ => Ok (Some true);
  require_exact_images_on := fun _ _ _ => Ok tt;
  record_started_turn_on := fun w _ _ => Ok w;
  context_checkpoint_on := fun _ _ => Ok None;
  delete_checkpoint_on := fun w _ => Ok w;
  delete_search_rows_on := fun w _ _ => Ok w;
  sha256 := fun bytes => bytes;
  category_from_failure := fun code _ => code;
  open_card_on := fun w _ _ _ _ _ _ => Ok w;
  card_pending_on := fun _ _ _ _ _ _ => Ok false |}.

Notation store := (db unit) (only parsing).

Definition chat : Z := 1.
Definition the_turn : Z := 10.

Definition fresh : store :=
  MkDb ∅ ∅ ∅ ∅ ∅ ∅ ∅ ∅ [] {[chat := MkSession "me" None 0 "idle"]} ∅ tt.

Definition accepted : store :=
  (accept_turn_inner the_turn chat "model" "hello" [] [] [] false None 20 1000 fresh).2.
Definition claimed : store := (claim_turn 7 2000 5000 2000 accepted).2.
Definition reclaimed : store := (claim_turn 8 6000 9000 6000 claimed).2.
Definition reply : OutputMessage := MkOutput 30 chat the_turn RAssistant "hi" None None 3000.
Definition spent : Usage := MkUsage 5 6 0 0.
Definition completed : store :=
  (complete_turn_and_append_event the_turn 7 0 3000 reply [] 1 spent "end" 3000 claimed).2.
Definition cancelling : store := (request_turn_cancellation_inner the_turn 3000 true 3000 claimed).2.
Definition cancelled : store :=
  (finish_turn_cancellation_and_append_event the_turn 7 4000 1 spent None [] 4000 cancelling).2.
Definition steered : store :=
  (accept_turn_steer 40 the_turn chat "also this" [] false false 3000 claimed).2.

Definition the_row (d : store) : turn :=
  default (MkTurn 0 "" 0 0 "" "" 0 None None None 0 0 0 0 (MkUsage 0 0 0 0) None None None None None
             0 None None None None (MkAdmitted None [] false None None None)) (d_turns d !! the_turn).

Lemma fresh_ok : well_formed fresh.
Proof. exact empty_view_ok. Qed.

Lemma accepted_run : turn_run fresh accepted.
Proof. apply rtc_once, unlabelled_step, tx_accept. Qed.
Lemma claimed_run : turn_run fresh claimed.
Proof. eapply rtc_r; [apply accepted_run | apply unlabelled_step, tx_claim]. Qed.
Lemma completed_run : turn_run claimed completed.
Proof. apply rtc_once, unlabelled_step, tx_complete. Qed.
Lemma claimed_ok : well_formed claimed.
Proof. apply (run_refines _ _ claimed_run fresh_ok). Qed.
Lemma accepted_ok : well_formed accepted.
Proof. apply (run_refines _ _ accepted_run fresh_ok). Qed.

Definition statuses (d : store) : list string := t_status <$> rows d.

Example the_life_of_a_turn :
  statuses accepted = ["queued"] /\ statuses claimed = ["running"]
  /\ statuses reclaimed = ["running"] /\ statuses completed = ["completed"]
  /\ statuses cancelling = ["cancelling"] /\ statuses cancelled = ["cancelled"].
Proof. by vm_compute. Qed.

(** ** The theorems at work *)


(** A second worker took the turn when the first one's lease ran out. *)
Definition first_claim : claim := MkClaim the_turn "me" 1 1 2000 5000.
Lemma superseded_lease_witness :
  turn_lease_is_current_on reclaimed the_turn 8 7000 = Current /\
  turn_lease_is_current_on reclaimed the_turn 7 3000 = Stale.
Proof.
  split; [by vm_compute|].
  apply (superseded_lease_stays_stale reclaimed reclaimed 7 first_claim (the_row reclaimed)).
  - apply (run_refines fresh); [|exact fresh_ok].
    eapply rtc_r; [apply claimed_run | apply unlabelled_step, tx_claim].
  - apply rtc_refl.
  - by vm_compute.
  - by vm_compute.
  - by vm_compute.
Defined.

Lemma ended_turn_witness :
  exists e, terminals_of the_turn (view_of completed) = [e] /\ e_event e = TurnCompleted spent "end".
Proof.
  destruct (ended_turn_is_final completed completed the_turn (the_row completed))
    as [_ (e & He & _ & _)].
  - apply (run_refines _ _ completed_run claimed_ok).
  - apply rtc_refl.
  - by vm_compute.
  - by vm_compute.
  - exists e. split; [exact He|]. vm_compute in He. injection He as <-. done.
Defined.

Lemma cancellation_witness :
  exists r, d_turns cancelled !! the_turn = Some r /\ t_status r = "cancelled".
Proof.
  destruct (cancellation_is_never_lost cancelling cancelled the_turn (the_row cancelling))
    as (r & Hr & Hs).
  - apply (run_refines claimed); [apply rtc_once, unlabelled_step, tx_cancel | exact claimed_ok].
  - apply rtc_once, unlabelled_step, tx_finish.
  - by vm_compute.
  - apply list_elem_of_In. vm_compute. auto.
  - exists r. split; [exact Hr|]. vm_compute in Hr. injection Hr as <-. done.
Defined.

Lemma accounting_witness :
  exists r, d_turns completed !! the_turn = Some r /\ t_attempt_count r <= 5
            /\ covers (t_usage r) (MkUsage 0 0 0 0) = true.
Proof.
  destruct (accounting_grows_within_bounds claimed completed the_turn (the_row claimed))
    as (r & Hr & _ & Ha & _ & _ & _ & Hu & _).
  - exact claimed_ok.
  - exact completed_run.
  - by vm_compute.
  - exists r. split; [exact Hr|]. split; [exact (proj2 Ha) | exact Hu].
Defined.

Definition the_steer : steer :=
  MkSteer 40 the_turn chat "also this" [] false false "pending" None None None 3000 None.
Lemma pending_steers_witness :
  exists r, d_turns steered !! the_turn = Some r /\ status_in r TERMINAL = false.
Proof.
  apply (pending_steers_belong_to_live_turns claimed steered 40 the_steer).
  - exact claimed_ok.
  - apply rtc_once, unlabelled_step, tx_steer.
  - by vm_compute.
  - done.
Defined.

Lemma every_row_witness : exists s, typed (the_row completed) s.
Proof.
  apply (every_row_is_typed claimed completed the_turn (the_row completed)).
  - exact claimed_ok.
  - exact completed_run.
  - by vm_compute.
Defined.

Lemma claim_fast_path_witness :
  claim_turn 9 2000 5000 2000 fresh = begin (claim_turn_pass 9 2000 5000 2000) fresh.
Proof. apply (claim_fast_path_is_exact 9 2000 5000 2000 fresh); done. Defined.

Lemma accepted_inputs : lane_has_inputs accepted.
Proof.
  assert (Hall : Forall (fun r => t_input_message_id r <> None) (rows accepted)).
  { vm_compute. repeat constructor; discriminate. }
  intros r Hr _. rewrite Forall_forall in Hall. exact (Hall _ Hr).
Qed.

Lemma claim_answers_witness : (claim_turn 7 2000 5000 2000 accepted).1 <> Ok Again.
Proof.
  apply (claim_answers_in_one_pass 7 2000 5000 2000 accepted).
  - exact accepted_ok.
  - exact accepted_inputs.
  - intros r now w [=].
Defined.

Lemma claim_retry_witness :
  claim_turn 7 4000 6000 4000 claimed
  = (Ok (Answer (MkClaimOutcome (Some (the_row claimed)) None)), claimed).
Proof.
  apply (claim_retry_is_exact 7 2000 5000 2000 4000 6000 4000 accepted claimed (the_row claimed) None).
  - exact accepted_ok.
  - by vm_compute.
  - by vm_compute.
  - by vm_compute.
Defined.

Lemma completion_witness : completable claimed the_turn 7 0 3000.
Proof.
  destruct (complete_turn_and_append_event the_turn 7 0 3000 reply [] 1 spent "end" 3000 claimed)
    as [answer d'] eqn:Hrun.
  apply (completion_needs_lease_and_quiet the_turn 7 0 3000 reply [] 1 spent "end" 3000 claimed d'
           (MkJournaled (CtCompleted (the_row completed))
              (Some (MkSeq 2 (TurnCompleted spent "end"))) None) (the_row completed)).
  - rewrite Hrun. vm_compute in Hrun. injection Hrun as <- <-. vm_compute. done.
  - done.
Defined.

Lemma busy_chat_witness :
  (accept_turn_inner 11 chat "model" "again" [] [] [] false None 21 4000 claimed).2 = claimed.
Proof.
  pose proof (busy_chat_accepts_nothing 11 chat "model" "again" [] [] [] false None 21 4000 claimed
                (the_row claimed)) as Hbusy.
  destruct (accept_turn_inner _ _ _ _ _ _ _ _ _ _ _ claimed) as [answer d'].
  apply Hbusy. by vm_compute.
Defined.

(** ** Reruns *)

(** 1 failed and was retried as 2; 3 answers again; 4 edits the question. *)
Definition some_reruns : list TurnReplacement :=
  [MkReplacement 2 1 Retry; MkReplacement 3 2 Regenerate; MkReplacement 4 3 Edit].
Definition later_retry : list TurnReplacement :=
  [MkReplacement 2 1 Retry; MkReplacement 3 2 Regenerate].

Lemma some_reruns_ordered : well_ordered Z.to_nat some_reruns.
Proof.
  split_and!; [apply (bool_decide_eq_true_1 _); by vm_compute.. | repeat constructor; vm_compute; lia].
Qed.
Lemma later_retry_ordered : well_ordered Z.to_nat later_retry.
Proof.
  split_and!; [apply (bool_decide_eq_true_1 _); by vm_compute.. | repeat constructor; vm_compute; lia].
Qed.

Lemma placement_witness :
  placement (placements_new later_retry) 1 = EarlierVersion 3 /\
  exists ks last, reruns later_retry 1 ks last.
Proof.
  split; [by vm_compute|].
  destruct (placement_reads_the_reruns Z.to_nat later_retry 1 later_retry_ordered)
    as (ks & last & Hr & _). exists ks, last. exact Hr.
Defined.

Lemma outside_witness :
  exists ks last, reruns some_reruns 1 ks last /\ Exists (fun k => removes_replaced k = true) ks.
Proof.
  apply (outside_is_regenerated_or_edited Z.to_nat some_reruns 1 some_reruns_ordered).
  apply (bool_decide_eq_true_1 _). by vm_compute.
Defined.

Lemma attempt_turns_witness : 1 ∈ attempt_turns (placements_new some_reruns) 2.
Proof.
  apply (attempt_turns_are_the_retries Z.to_nat some_reruns 2 1 some_reruns_ordered).
  apply rtc_once. left.
Defined.

Definition one_request (id : Z) : TurnAdmissionRequest :=
  MkAdmissionRequest id chat "hello" [5] [] ["pdf"] false (Some (3, Retry)).
Lemma one_request_fits id : request_fits (one_request id).
Proof.
  assert (Hword : uuid 1 /\ uuid 3 /\ uuid 5) by (split_and!; vm_compute; split; done).
  destruct Hword as (H1 & H3 & H5).
  assert (Hstr : short_str "hello" /\ short_str "pdf") by (split_and!; vm_compute; done).
  destruct Hstr as [Hh Hp].
  unfold request_fits. cbn [q_chat_id q_content q_attachments q_file_attachments q_invoked_skills
    q_replaces one_request replaces_fit]. split; [exact H1|]. split; [exact Hh|].
  split; [split|split; [split|split; [split|exact H3]]].
  - by vm_compute.
  - by constructor.
  - by vm_compute.
  - constructor.
  - by vm_compute.
  - by constructor.
Qed.
Lemma fingerprint_witness : q_content (one_request 10) = q_content (one_request 11).
Proof.
  apply (fingerprint_has_no_aliases (one_request 10) (one_request 11)).
  - exact (one_request_fits 10).
  - exact (one_request_fits 11).
  - done.
Defined.

(** ** A lease taken without looking *)

(** [take_lease_on_turn_inner] refuses a live lease only of a running turn.
    Called on a turn that is cancelling under a live lease it hands out a
    second one and the turn runs again, its cancellation forgotten. *)
Example direct_lease_forgets_a_cancellation :
  let d := (take_lease_on_turn the_turn 9 4000 8000 cancelling) in
  t_lease_expires_at (the_row cancelling) = Some 5000 /\
  d.1 = Ok (Some tt) /\ t_status (the_row d.2) = "running" /\ t_lease_token (the_row d.2) = Some 9.
Proof. by vm_compute. Qed.

(** It takes a finished turn too, and leaves its terminal event behind. *)
Example direct_lease_reopens_a_cancelled_turn :
  let d := (take_lease_on_turn the_turn 9 6000 8000 cancelled) in
  status_in (the_row cancelled) TERMINAL = true /\ t_status (the_row d.2) = "running" /\
  length (v_terminals (view_of d.2)) = 1%nat.
Proof. by vm_compute. Qed.

Open Scope Z_scope.

#[local] Existing Instance quiet_peers.

Definition note (id : Z) (content : string) : QueuedAgentTurn :=
  MkQueuedTurn id chat content [] [] [] false 0 0 0.
Definition head_of (d : store) : QueuedAgentTurn :=
  match list_queued_turns d chat with Ok (q :: _) => q | _ => note 0 "" end.

Definition ask_first : queue_op := OpEnqueue (note 11 "first") 1000.
Definition ask_second : queue_op := OpEnqueue (note 12 "second") 2000.
Definition one_waits : store := (queue_txn ask_first fresh).2.
Definition two_wait : store := (queue_txn ask_second one_waits).2.
Definition go_first : queue_op := OpPromote (head_of two_wait) "model" [] 21 3000.
Definition first_runs : store := (queue_txn go_first two_wait).2.
Definition drop_first : queue_op := OpDrop (head_of two_wait).
Definition second_waits : store := (queue_txn drop_first two_wait).2.
Definition go_second : queue_op := OpPromote (head_of second_waits) "model" [] 22 3000.
Definition second_runs : store := (queue_txn go_second second_waits).2.

Example queued_in_order : ids (queue two_wait) chat = [11; 12] /\ ids (queue first_runs) chat = [12].
Proof. by vm_compute. Qed.

(** A second promotion finds the chat busy; the message keeps its place. *)
Example busy_keeps_the_queue :
  queue_txn (OpPromote (head_of first_runs) "model" [] 22 4000) first_runs = (ABusy, first_runs).
Proof. by vm_compute. Qed.

(** Moved in front, the second message is read first. *)
Example moved_in_front :
  ids (queue (queue_txn (OpUpdate chat 12 None (Some 0) 4000) two_wait).2) chat = [12; 11].
Proof. by vm_compute. Qed.

(** A head read before an edit of its text promotes nothing. *)
Example edited_head_is_stale :
  queue_txn go_first (queue_txn (OpUpdate chat 11 (Some "other") None 2500) two_wait).2
  = (AStale, (queue_txn (OpUpdate chat 11 (Some "other") None 2500) two_wait).2).
Proof. by vm_compute. Qed.

Definition replies (l : list queue_op) (d : store) : list answered * store :=
  fold_left (fun '(tr, d) op => let '(a, d') := queue_txn op d in (tr ++ [(op, a)], d')) l ([], d).
Definition to_first : list answered := (replies [ask_first; ask_second; go_first] fresh).1.

Lemma fresh_fine : fine fresh.
Proof. split; [split|]; intros *; cbn; rewrite ?lookup_empty; done. Qed.

Lemma waits_run : chat_run fresh (replies [ask_first; ask_second] fresh).1 two_wait.
Proof. do 2 (eapply cr_queue; [by vm_compute|]). constructor. Qed.
Lemma first_run : chat_run fresh to_first first_runs.
Proof. do 3 (eapply cr_queue; [by vm_compute|]). constructor. Qed.

Lemma two_wait_ok : well_formed two_wait /\ fine two_wait.
Proof. destruct (chat_run_refines _ _ _ waits_run fresh_ok fresh_fine) as (_ & _ & ? & ?). done. Qed.

Lemma first_history : chat_history fresh to_first first_runs.
Proof. do 3 (eapply cr_queue; [by vm_compute|]). constructor. Qed.
Lemma list_witness : list_run (queue fresh) to_first (queue first_runs).
Proof. apply (queue_histories_refine_the_list fresh first_runs to_first fresh_fine first_history). Defined.

Definition first_goes : list answered := [(go_first, (queue_txn go_first two_wait).1)].
Lemma goes_run : chat_run two_wait first_goes first_runs.
Proof. eapply cr_queue; [by vm_compute | constructor]. Qed.

Lemma never_lost_witness :
  11 ∈ ids (queue two_wait) chat /\
  (11 ∈ ids (queue first_runs) chat \/ (exists e, e ∈ first_goes /\ withdrawn chat 11 e)
   \/ exists t, d_turns first_runs !! 11 = Some t /\ t_session_id t = chat).
Proof.
  assert (Hin : 11 ∈ ids (queue two_wait) chat) by (apply (bool_decide_eq_true_1 _); by vm_compute).
  split; [exact Hin|].
  apply (queued_message_is_never_lost two_wait first_runs first_goes chat 11 (proj1 two_wait_ok)
           (proj2 two_wait_ok) goes_run Hin).
Defined.

Lemma one_turn_witness : omap new_turn to_first = [11] /\ NoDup (omap new_turn to_first).
Proof.
  split; [by vm_compute|].
  apply (message_becomes_one_turn fresh first_runs to_first fresh_ok fresh_fine first_run).
Defined.

Lemma drops_run : chat_run two_wait [(drop_first, ADropped true)] second_waits.
Proof. eapply cr_queue; [by vm_compute | constructor]. Qed.

Definition second_turn : turn :=
  default (the_row fresh) (d_turns second_runs !! 12).

Lemma order_witness :
  exists e, e ∈ [(drop_first, ADropped true)] /\ (took chat 11 e \/ took chat 12 e).
Proof.
  assert (Hahead : ahead (ids (queue two_wait) chat) 11 12).
  { exists [], [12]. split; [by vm_compute | left]. }
  apply (promotion_keeps_the_order two_wait second_waits second_runs [(drop_first, ADropped true)] chat 11
           (head_of second_waits) "model" [] 22 3000 second_turn).
  - exact (proj1 two_wait_ok).
  - exact (proj2 two_wait_ok).
  - exact drops_run.
  - exact Hahead.
  - by vm_compute.
  - by intros e ->%list_elem_of_singleton [].
  - by vm_compute.
Defined.

Lemma head_witness :
  exists t, promotes two_wait (head_of two_wait) "model" (PqPromoted t)
              (promote_turn (head_of two_wait) "model" [] 21 3000 two_wait).2.
Proof.
  destruct (promote_turn (head_of two_wait) "model" [] 21 3000 two_wait) as [answer d'] eqn:Hrun.
  pose proof (promotion_takes_the_head (head_of two_wait) "model" [] 21 3000 two_wait d' answer
                (proj2 two_wait_ok) Hrun) as Hp.
  vm_compute in Hrun. injection Hrun as <- <-. eexists. exact Hp.
Defined.

Lemma enqueue_retry_witness :
  exists row, (enqueue_turn (note 11 "first") 1000 fresh).1 = Ok row /\
    enqueue_turn (note 11 "first") 9000 (enqueue_turn (note 11 "first") 1000 fresh).2
    = (Ok row, (enqueue_turn (note 11 "first") 1000 fresh).2).
Proof.
  destruct (enqueue_turn (note 11 "first") 1000 fresh) as [answer d'] eqn:Hrun.
  assert (exists row, answer = Ok row) as [row ->]
    by (vm_compute in Hrun; injection Hrun as <- _; by eexists).
  exists row. split; [done|].
  apply (enqueue_retry_is_exact (note 11 "first") 1000 9000 fresh d' row Hrun).
Defined.
