(* ===== verification/Json.v ===== *)
(** * UTF-8 and JSON

    What the standard library makes of bytes that may not be UTF-8
    ([str::from_utf8] with the place and length of its first error,
    [String::from_utf8_lossy]; byte streams are [list ascii], decoded text a
    [string]), and [serde_json::Value] with what the modelled code asks of
    serde_json: its parser and printer are third-party code, operations of
    classes instantiated by concrete functions in the example files. *)
From S2P Require Import Prelude RustStr.

Definition bytes : Type := list ascii.

Definition to_text (b : bytes) : string := String.string_of_list_ascii b.
Definition of_text (s : string) : bytes := String.list_ascii_of_string s.

(** The length of the character a byte starts, 0 when it starts none. *)
Definition char_width (a : ascii) : nat :=
  if is_ascii a then 1
  else if in_range 194 223 a then 2
  else if in_range 224 239 a then 3
  else if in_range 240 244 a then 4
  else 0.

(** The second byte a three- or four-byte character may have. *)
Definition second_ok (first second : ascii) : bool :=
  let a := byte_val first in
  if a =? 224 then in_range 160 191 second
  else if a =? 237 then in_range 128 159 second
  else if a =? 240 then in_range 144 191 second
  else if a =? 244 then in_range 128 143 second
  else is_continuation second.

(** What the first bytes of a string are: a whole character, an invalid
    sequence of some length, or a character the end cuts. *)
Inductive reading : Type := Char (n : nat) | Invalid (n : nat) | Incomplete.

Definition read_char (b : bytes) : reading :=
  match b with
  | [] => Incomplete
  | a :: r =>
      match char_width a with
      | 1 => Char 1
      | 2 =>
          match r with
          | [] => Incomplete
          | b1 :: _ => if is_continuation b1 then Char 2 else Invalid 1
          end
      | 3 =>
          match r with
          | [] => Incomplete
          | b1 :: r =>
              if negb (second_ok a b1) then Invalid 1 else
              match r with
              | [] => Incomplete
              | b2 :: _ => if is_continuation b2 then Char 3 else Invalid 2
              end
          end
      | 4 =>
          match r with
          | [] => Incomplete
          | b1 :: r =>
              if negb (second_ok a b1) then Invalid 1 else
              match r with
              | [] => Incomplete
              | b2 :: r =>
                  if negb (is_continuation b2) then Invalid 2 else
                  match r with
                  | [] => Incomplete
                  | b3 :: _ => if is_continuation b3 then Char 4 else Invalid 3
                  end
              end
          end
      | _ => Invalid 1
      end
  end.

(** U+FFFD *)
Definition replacement : bytes := of_text (utf8 [239; 191; 189]).

Fixpoint lossy_from (fuel : nat) (b : bytes) : bytes :=
  match fuel, b with
  | O, _ | _, [] => []
  | S fuel, _ =>
      match read_char b with
      | Char n => take n b ++ lossy_from fuel (drop n b)
      | Invalid n => replacement ++ lossy_from fuel (drop n b)
      | Incomplete => replacement
      end
  end.
Definition lossy (b : bytes) : bytes := lossy_from (length b) b.
(** [String::from_utf8_lossy(b).into_owned()] *)
Definition from_utf8_lossy (b : bytes) : string := to_text (lossy b).

(** [str::from_utf8(b)]: the error's [valid_up_to] and [error_len]. *)
Fixpoint utf8_error_from (fuel : nat) (at_ : nat) (b : bytes) : option (nat * option nat) :=
  match fuel, b with
  | O, _ | _, [] => None
  | S fuel, _ =>
      match read_char b with
      | Char n => utf8_error_from fuel (at_ + n) (drop n b)
      | Invalid n => Some (at_, Some n)
      | Incomplete => Some (at_, None)
      end
  end.
Definition utf8_error (b : bytes) : option (nat * option nat) := utf8_error_from (length b) 0 b.

(** ** White space *)

(** [str::trim_start]: white space is that of [str::trim] *)
Fixpoint trim_start_chars (l : list string) : list string :=
  match l with
  | c :: l' => if str_mem c white_space then trim_start_chars l' else l
  | [] => []
  end.
Definition trim_start (s : string) : string := join "" (trim_start_chars (chars s)).
(** [str::trim] *)
Definition trim (s : string) : string :=
  join "" (rev (trim_start_chars (rev (trim_start_chars (chars s))))).

(** [str::split_whitespace]: the runs of characters between white space *)
Fixpoint words (l : list string) (word : list string) : list string :=
  match l with
  | [] => match word with [] => [] | _ => [join "" word] end
  | c :: l =>
      if str_mem c white_space
      then match word with [] => words l [] | _ => join "" word :: words l [] end
      else words l (word ++ [c])
  end.
Definition split_whitespace (s : string) : list string := words (chars s) [].

(** ** Decimal numbers, as [Display] writes them *)

Fixpoint digits_of (fuel : nat) (n : N) (acc : string) : string :=
  match fuel with
  | O => acc
  | S fuel =>
      let acc := String (ascii_of_N (48 + N.modulo n 10)) acc in
      if (n <? 10)%N then acc else digits_of fuel (N.div n 10) acc
  end.

#[global] Arguments char_width : simpl never.
#[global] Arguments second_ok : simpl never.
#[global] Arguments is_continuation : simpl never.

(** ** Facts *)

Ltac read_cases := repeat (case_match; simplify_eq/=; try done; try lia).

Lemma read_char_le b : b <> [] ->
  match read_char b with
  | Char n | Invalid n => 1 <= n <= length b
  | Incomplete => True
  end.
Proof.
  destruct b as [|a r]; [done|]. intros _. cbn [read_char length].
  read_cases.
Qed.

(** A whole character is read the same whatever follows. *)
Lemma read_char_app b c n : read_char b = Char n -> read_char (b ++ c) = Char n.
Proof.
  destruct b as [|a [|b1 [|b2 [|b3 r]]]]; cbn; intros Hn; try done; read_cases.
Qed.

Lemma read_char_take b n : read_char b = Char n -> forall k, n <= k -> read_char (take k b) = Char n.
Proof.
  intros Hn k Hk. rewrite <- (take_drop k b) in Hn.
  destruct b as [|a [|b1 [|b2 [|b3 r]]]]; destruct k as [|[|[|[|k]]]]; cbn in *;
    try done; read_cases.
Qed.

(** What is left after some fuel does not depend on how much there was. *)
Lemma lossy_from_fuel fuel fuel' b :
  length b <= fuel -> length b <= fuel' -> lossy_from fuel b = lossy_from fuel' b.
Proof.
  revert fuel' b. induction fuel as [|fuel IH]; intros [|fuel'] b H H';
    try (destruct b; cbn in *; [done | lia]).
  destruct b as [|a r]; [done|]. pose proof (read_char_le (a :: r) ltac:(done)) as Hle.
  cbn [lossy_from]. destruct (read_char (a :: r)) as [n|n|]; [| |done]; f_equal; apply IH;
    rewrite length_drop; cbn [length] in *; lia.
Qed.

Lemma lossy_step b : b <> [] ->
  lossy b = match read_char b with
            | Char n => take n b ++ lossy (drop n b)
            | Invalid n => replacement ++ lossy (drop n b)
            | Incomplete => replacement
            end.
Proof.
  intros Hb. pose proof (read_char_le b Hb) as Hle. unfold lossy.
  destruct b as [|a r]; [done|]. cbn [length lossy_from].
  destruct (read_char (a :: r)) as [n|n|]; [| |done]; f_equal; apply lossy_from_fuel;
    rewrite length_drop; cbn [length] in *; lia.
Qed.

Lemma utf8_error_from_fuel fuel fuel' at_ b :
  length b <= fuel -> length b <= fuel' -> utf8_error_from fuel at_ b = utf8_error_from fuel' at_ b.
Proof.
  revert fuel' at_ b. induction fuel as [|fuel IH]; intros [|fuel'] at_ b H H';
    try (destruct b; cbn in *; [done | lia]).
  destruct b as [|a r]; [done|]. pose proof (read_char_le (a :: r) ltac:(done)) as Hle.
  cbn [utf8_error_from]. destruct (read_char (a :: r)) as [n|n|]; [|done..]. apply IH;
    rewrite length_drop; cbn [length] in *; lia.
Qed.

Lemma utf8_error_from_shift fuel at_ b :
  utf8_error_from fuel at_ b
  = (fun e : nat * option nat => (at_ + e.1, e.2)) <$> utf8_error_from fuel 0 b.
Proof.
  revert at_ b. induction fuel as [|fuel IH]; intros at_ b; [done|].
  destruct b as [|a r]; [done|]. cbn [utf8_error_from]. destruct (read_char (a :: r)) as [n|n|]; cbn.
  - rewrite IH, (IH n). destruct (utf8_error_from fuel 0 _) as [[u e]|]; [|done]. cbn. do 2 f_equal. lia.
  - do 2 f_equal. lia.
  - do 2 f_equal. lia.
Qed.

Lemma utf8_error_step b : b <> [] ->
  utf8_error b = match read_char b with
                 | Char n => (fun e : nat * option nat => (n + e.1, e.2)) <$> utf8_error (drop n b)
                 | Invalid n => Some (0, Some n)
                 | Incomplete => Some (0, None)
                 end.
Proof.
  intros Hb. pose proof (read_char_le b Hb) as Hle. unfold utf8_error.
  destruct b as [|a r]; [done|]. cbn [length utf8_error_from].
  destruct (read_char (a :: r)) as [n|n|]; [|done..].
  rewrite utf8_error_from_shift. cbn. f_equal. apply utf8_error_from_fuel;
    rewrite length_drop; cbn [length] in *; lia.
Qed.

(** Induction on the characters of a string. *)
Lemma chars_ind (Q : bytes -> Prop) :
  Q [] -> (forall b, b <> [] -> (forall c, length c < length b -> Q c) -> Q b) -> forall b, Q b.
Proof.
  intros H0 Hs. apply (well_founded_induction (Wf_nat.well_founded_ltof _ length)).
  intros b IH. destruct b; [done | by apply Hs].
Qed.

(** ** Valid text *)

Definition valid (b : bytes) : Prop := utf8_error b = None.

Lemma valid_nil : valid [].
Proof. done. Qed.

Lemma valid_step b : b <> [] ->
  valid b <-> exists n, read_char b = Char n /\ valid (drop n b).
Proof.
  intros Hb. unfold valid. rewrite utf8_error_step by done. split.
  - destruct (read_char b) as [n|n|]; [|done..]. intros He. exists n. split; [done|].
    by destruct (utf8_error (drop n b)).
  - intros (n & -> & ->). done.
Qed.

Lemma lossy_valid b : valid b -> lossy b = b.
Proof.
  induction b as [|b Hb IH] using chars_ind; [done|]. intros Hv.
  rewrite lossy_step by done. apply valid_step in Hv as (n & Hn & Hv); [|done]. rewrite Hn.
  pose proof (read_char_le b Hb) as Hle. rewrite Hn in Hle.
  rewrite IH; [apply take_drop | rewrite length_drop; lia | done].
Qed.

(** A prefix of valid text is valid up to the character the end cuts, which
    starts within its last three bytes. *)
Lemma utf8_error_take b k : valid b ->
  match utf8_error (take k b) with
  | None => True
  | Some (u, e) => e = None /\ u < k /\ k <= u + 3
  end.
Proof.
  revert k. induction b as [|b Hb IH] using chars_ind; intros k Hv; [by rewrite take_nil|].
  destruct (decide (k = 0)) as [->|Hk]; [done|].
  apply valid_step in Hv as (n & Hn & Hv); [|done].
  pose proof (read_char_le b Hb) as Hle. rewrite Hn in Hle.
  assert (Ht : take k b <> []) by (destruct b, k; done).
  rewrite utf8_error_step by done. destruct (decide (n <= k)) as [Hnk|Hnk].
  - rewrite (read_char_take b n Hn k Hnk). rewrite skipn_firstn_comm.
    specialize (IH (drop n b) ltac:(rewrite length_drop; lia) (k - n) Hv).
    destruct (utf8_error (take (k - n) (drop n b))) as [[u e]|]; [|done]. cbn. destruct IH as (-> & ? & ?).
    split; [done | lia].
  - assert (read_char (take k b) = Incomplete /\ n <= 4) as [-> Hn4]; [|cbn; split; [done|lia]].
    clear -Hn Hnk Hk. destruct b as [|a [|b1 [|b2 [|b3 r]]]]; destruct k as [|[|[|[|k]]]]; cbn in *;
      try done; read_cases; split; done || lia.
Qed.

(** The longest prefix of valid text that cuts no character. *)
Lemma valid_prefix b u e : utf8_error b = Some (u, e) -> valid (take u b) /\ u <= length b.
Proof.
  revert u. induction b as [|b Hb IH] using chars_ind; intros u; [done|].
  rewrite utf8_error_step by done. pose proof (read_char_le b Hb) as Hle.
  destruct (read_char b) as [n|n|] eqn:Hn; [|by intros [= <- <-]; cbn; split; [apply valid_nil | lia]..].
  destruct (utf8_error (drop n b)) as [[w x]|] eqn:He; [|done]. cbn. intros [= <- <-].
  destruct (IH (drop n b) ltac:(rewrite length_drop; lia) w He) as [Hv Hw].
  rewrite length_drop in Hw. split; [|lia]. apply valid_step; [destruct b; [done|]; destruct n; [lia|done]|].
  exists n. split; [apply read_char_take; [done|lia]|].
  by rewrite skipn_firstn_comm, Nat.add_comm, Nat.add_sub.
Qed.

(** ** Characters *)

Definition continued_only (s : string) : bool := str_all is_continuation s.
(** A character of some text, and one that can follow another. *)
Definition block (c : string) : Prop := match c with String _ r => continued_only r = true | EmptyString => False end.
Definition tight (c : string) : Prop :=
  match c with String a r => is_continuation a = false /\ continued_only r = true | EmptyString => False end.
Definition good (l : list string) : Prop := match l with [] => True | c :: l => block c /\ Forall tight l end.

Lemma tight_block c : tight c -> block c.
Proof. destruct c; [done|]. by intros [_ ?]. Qed.
Lemma good_tight l : Forall tight l -> good l.
Proof. destruct l as [|c l]; [done|]. intros [Hc Hl]%Forall_cons. split; [by apply tight_block|done]. Qed.
Lemma good_take n l : good l -> good (take n l).
Proof. destruct l as [|c l], n as [|n]; try done. intros [Hc Hl]. split; [done|by apply Forall_take]. Qed.

Lemma chars_cons a s : exists c cs, chars (String a s) = String a c :: cs.
Proof. cbn [chars]. destruct (chars s) as [|[|b c] cs]; eauto. destruct (is_continuation b); eauto. Qed.

Lemma chars_good s : good (chars s).
Proof.
  induction s as [|a s IH]; [done|]. cbn [chars]. destruct (chars s) as [|[|b c] cs] eqn:E; [done|by destruct IH|].
  destruct IH as [Hb Hcs]. destruct (is_continuation b) eqn:Eb.
  - split; [|done]. cbn in *. unfold continued_only in *. cbn. by rewrite Eb, Hb.
  - split; [done|]. apply Forall_cons. split; [|done]. by split.
Qed.

Lemma join_empty_cons c l : join "" (c :: l) = c +:+ join "" l.
Proof. unfold join. cbn. destruct l; [by rewrite str_app_nil_r | done]. Qed.
Lemma join_empty_app l l' : join "" (l ++ l') = join "" l +:+ join "" l'.
Proof. induction l as [|c l IH]; [done|]. cbn [app]. rewrite !join_empty_cons, IH. by rewrite str_app_assoc. Qed.

Lemma chars_step a r t : continued_only r = true ->
  match t with String b _ => is_continuation b = false | EmptyString => True end ->
  chars (String a r +:+ t) = String a r :: chars t.
Proof.
  revert a. induction r as [|b r IH]; intros a Hr Ht.
  - change (String a "" +:+ t) with (String a t). cbn [chars]. destruct t as [|b t]; [done|].
    destruct (chars_cons b t) as (c & cs & ->). by rewrite Ht.
  - cbn in Hr. apply andb_true_iff in Hr as [Hb Hr]. change (String a (String b r) +:+ t) with (String a (String b r +:+ t)).
    cbn [chars]. rewrite (IH b Hr Ht). by rewrite Hb.
Qed.

Lemma join_head l : Forall tight l ->
  match join "" l with String b _ => is_continuation b = false | EmptyString => True end.
Proof. destruct l as [|[|b c] l]; [done|by intros [[] _]%Forall_cons|]. intros [[Hb _] _]%Forall_cons. by rewrite join_empty_cons. Qed.

Lemma chars_join l : good l -> chars (join "" l) = l.
Proof.
  assert (Htight : forall l, Forall tight l -> chars (join "" l) = l).
  { clear l. induction l as [|[|a r] l IH]; [done|by intros [[] _]%Forall_cons|]. intros [[_ Hr] Hl]%Forall_cons.
    rewrite join_empty_cons, chars_step by (done || by apply join_head). by rewrite IH. }
  destruct l as [|[|a r] l]; [done|by intros [[] _]|]. intros [Hr Hl].
  rewrite join_empty_cons, chars_step by (done || by apply join_head). by rewrite Htight.
Qed.

Lemma join_chars s : join "" (chars s) = s.
Proof.
  induction s as [|a s IH]; [done|]. cbn [chars]. destruct (chars s) as [|[|b c] cs].
  - by rewrite join_empty_cons, IH.
  - by rewrite join_empty_cons, IH.
  - destruct (is_continuation b); [|by rewrite join_empty_cons, IH].
    rewrite join_empty_cons in IH |- *. by rewrite <- IH.
Qed.

(** [serde_json::Value]; an object is the [BTreeMap] serde_json builds, its
    members in the order of their keys. *)
Inductive json (Number : Type) : Type :=
  | JNull
  | JBool (b : bool)
  | JNumber (n : Number)
  | JString (s : string)
  | JArray (items : list (json Number))
  | JObject (members : list (string * json Number)).
Arguments JNull {_}.
Arguments JBool {_} _.
Arguments JNumber {_} _.
Arguments JString {_} _.
Arguments JArray {_} _.
Arguments JObject {_} _.

Class SerdeJson (Number : Type) : Type := {
  (** [serde_json::from_str::<String>] *)
  from_str_string : bytes -> option string;
  (** [serde_json::from_str::<Value>] *)
  from_str_value : bytes -> option (json Number) }.

(** [Map::insert] *)
Fixpoint map_insert {A} (key : string) (v : A) (m : list (string * A)) : list (string * A) :=
  match m with
  | [] => [(key, v)]
  | (k, w) :: m' =>
      match String.compare key k with
      | Lt => (key, v) :: m
      | Eq => (key, v) :: m'
      | Gt => (k, w) :: map_insert key v m'
      end
  end.
Fixpoint map_get {A} (key : string) (m : list (string * A)) : option A :=
  match m with
  | [] => None
  | (k, w) :: m => if String.eqb key k then Some w else map_get key m
  end.


Section Values.
Context {Number : Type}.
Implicit Types v : json Number.

(** [Value::get] with a member's name *)
Definition json_get (v : json Number) (key : string) : option (json Number) :=
  match v with JObject m => map_get key m | _ => None end.
Definition json_as_str (v : json Number) : option string :=
  match v with JString s => Some s | _ => None end.
Definition json_is_object (v : json Number) : bool :=
  match v with JObject _ => true | _ => false end.
Definition json_is_string (v : json Number) : bool :=
  match v with JString _ => true | _ => false end.
End Values.

(** Whole numbers, and [Value::to_string]; what is printed reads back. *)
Class SerdeJsonText (Number : Type) `{SerdeJson Number} : Type := {
  number_as_u64 : Number -> option Z;
  json_to_string : json Number -> string }.
Definition as_u64 {Number} `{SerdeJsonText Number} (v : json Number) : option Z :=
  match v with JNumber n => number_as_u64 n | _ => None end.
(** [serde_json::from_str::<Value>(s).ok()] *)
Definition json_from_str {Number} `{SerdeJson Number} (s : string) : option (json Number) :=
  from_str_value (of_text s).
