(* ===== verification/RouterSse.v ===== *)
(** * Server-sent events from a model provider

    [SseFramer] (tidebreak-router, sse.rs): network chunks in, complete frames
    out.  Frames are separated by a blank line; a frame and the bytes held for
    one are bounded.  The ceiling is a parameter here, [limit]; the code uses
    [MAX_PROVIDER_SSE_FRAME_BYTES].  Frames are kept as bytes and decoded when
    they are complete. *)
From S2P Require Import Prelude RustStr Json.

Definition LF : ascii := ascii_of_nat 10.
Definition CR : ascii := ascii_of_nat 13.

Definition MAX_PROVIDER_ERROR_BODY_BYTES : nat := 8 * 1024.
Definition MAX_PROVIDER_SSE_FRAME_BYTES : nat := N.to_nat (1024 * 1024).

Inductive SseFrameTooLarge : Type := FrameTooLarge.

(** ** The body of an error response *)

(** What [chunks.next().await] yields: bytes, or a failed read. *)
Fixpoint read_error_body (body : bytes) (chunks : list (option bytes)) : bytes :=
  if length body <? MAX_PROVIDER_ERROR_BODY_BYTES then
    match chunks with
    | Some chunk :: chunks =>
        let take_n := Nat.min (length chunk) (MAX_PROVIDER_ERROR_BODY_BYTES - length body) in
        let body := body ++ take take_n chunk in
        if take_n <? length chunk then body else read_error_body body chunks
    | _ => body
    end
  else body.
Definition read_bounded_error_body (chunks : list (option bytes)) : string :=
  from_utf8_lossy (read_error_body [] chunks).

(** ** Delimiters *)

(** [remaining.starts_with(b"\n\n")], [remaining.starts_with(b"\r\n\r\n")] *)
Definition delimiter_at (remaining : bytes) : option nat :=
  match remaining with
  | a :: b :: r =>
      if Ascii.eqb a LF && Ascii.eqb b LF then Some 2
      else if Ascii.eqb a CR && Ascii.eqb b LF then
        match r with
        | c :: d :: _ => if Ascii.eqb c CR && Ascii.eqb d LF then Some 4 else None
        | _ => None
        end
      else None
  | _ => None
  end.

Fixpoint find_from (index : nat) (remaining : bytes) : option (nat * nat) :=
  match remaining with
  | [] => None
  | _ :: tl =>
      match delimiter_at remaining with
      | Some n => Some (index, n)
      | None => find_from (S index) tl
      end
  end.
Definition find_frame_delimiter (buffer : bytes) (start : nat) : option (nat * nat) :=
  find_from start (drop start buffer).

(** ** The framer *)

Record SseFramer : Type := MkFramer { buffer : bytes; scan_from : nat }.
Definition framer_new : SseFramer := MkFramer [] 0.

Definition MAX_PARTIAL_DELIMITER_BYTES : nat := 3.

Section Framer.
Context (limit : nat).

Definition residual_fits_frame_limit (b : bytes) : bool :=
  (length b <=? limit)
  || bool_decide (drop limit b ∈ [[LF]; [CR]; [CR; LF]; [CR; LF; CR]]).

(** The frames of the buffer from [frame_start] on, and where the rest starts. *)
Fixpoint drain_loop (fuel : nat) (b : bytes) (frame_start search_from : nat)
  : result SseFrameTooLarge (list bytes * nat) :=
  match fuel with
  | O => Ok ([], frame_start)
  | S fuel =>
      match find_frame_delimiter b search_from with
      | None => Ok ([], frame_start)
      | Some (content_end, delimiter_len) =>
          if limit <? content_end - frame_start then Err FrameTooLarge else
          let frame := take (content_end - frame_start) (drop frame_start b) in
          let next := content_end + delimiter_len in
          match drain_loop fuel b next next with
          | Ok (frames, start) => Ok (frame :: frames, start)
          | Err e => Err e
          end
      end
  end.

(** A failing drain keeps the buffer and the scan position it found. *)
Definition drain (fr : SseFramer) : result SseFrameTooLarge (list bytes) * SseFramer :=
  match drain_loop (S (length (buffer fr))) (buffer fr) 0 (scan_from fr) with
  | Ok (frames, frame_start) =>
      let rest := drop frame_start (buffer fr) in
      (Ok frames, MkFramer rest (length rest - MAX_PARTIAL_DELIMITER_BYTES))
  | Err e => (Err e, fr)
  end.

(** One pass of the loop of [push]: the bytes admitted and those left. *)
Definition admit_slice (fr : SseFramer) (chunk : bytes) : option (SseFramer * bytes) :=
  let room := limit + MAX_PARTIAL_DELIMITER_BYTES - length (buffer fr) in
  if room =? 0 then
    match chunk with
    | a :: rest =>
        if residual_fits_frame_limit (buffer fr) && Ascii.eqb a LF
        then Some (MkFramer (buffer fr ++ [LF]) (scan_from fr), rest) else None
    | [] => None
    end
  else
    let n := Nat.min room (length chunk) in
    Some (MkFramer (buffer fr ++ take n chunk) (scan_from fr), drop n chunk).

Fixpoint push_loop (fuel : nat) (fr : SseFramer) (chunk : bytes)
  : result SseFrameTooLarge (list bytes) * SseFramer :=
  match fuel, chunk with
  | O, _ | _, [] => (Ok [], fr)
  | S fuel, _ =>
      match admit_slice fr chunk with
      | None => (Err FrameTooLarge, fr)
      | Some (fr, chunk) =>
          match drain fr with
          | (Err e, fr) => (Err e, fr)
          | (Ok frames, fr) =>
              if negb (residual_fits_frame_limit (buffer fr)) then (Err FrameTooLarge, fr) else
              match push_loop fuel fr chunk with
              | (Ok more, fr) => (Ok (frames ++ more), fr)
              | (Err e, fr) => (Err e, fr)
              end
          end
      end
  end.
Definition push_bytes (fr : SseFramer) (chunk : bytes)
  : result SseFrameTooLarge (list bytes) * SseFramer := push_loop (length chunk) fr chunk.
Definition push (fr : SseFramer) (chunk : bytes)
  : result SseFrameTooLarge (list string) * SseFramer :=
  let '(r, fr) := push_bytes fr chunk in
  (match r with Ok frames => Ok (map from_utf8_lossy frames) | Err e => Err e end, fr).

Definition finish (fr : SseFramer) : result SseFrameTooLarge (option string) :=
  match buffer fr with
  | [] => Ok None
  | _ => if limit <? length (buffer fr) then Err FrameTooLarge
         else Ok (Some (from_utf8_lossy (buffer fr)))
  end.

(** A stream: chunks pushed one after the other, up to the first error. *)
Fixpoint push_all (fr : SseFramer) (chunks : list bytes)
  : result SseFrameTooLarge (list bytes) * SseFramer :=
  match chunks with
  | [] => (Ok [], fr)
  | chunk :: chunks =>
      match push_bytes fr chunk with
      | (Err e, fr) => (Err e, fr)
      | (Ok frames, fr) =>
          match push_all fr chunks with
          | (Ok more, fr) => (Ok (frames ++ more), fr)
          | (Err e, fr) => (Err e, fr)
          end
      end
  end.
End Framer.

(** ** The payload of a frame *)

(** [str::lines]: without the newline, or the carriage return before it *)
Definition strip_cr (line : string) : string :=
  match strip_suffix line (String CR "") with Some l => l | None => line end.
Definition lines (s : string) : list string :=
  match rev (split s LF) with
  | last :: before => rev (map strip_cr before) ++ (if is_empty last then [] else [last])
  | [] => []
  end.

Definition frame_data_raw (frame : string) : option string :=
  let data := fold_left (fun data line =>
    match strip_prefix line "data:" with
    | Some rest => data +:+ trim_start rest
    | None => data
    end) (lines frame) "" in
  if is_empty data || String.eqb data "[DONE]" then None else Some data.
