(* ===== verification/RouterSseFacts.v ===== *)
(** * Frames do not depend on the chunks

    The framer against a reference that splits the whole stream at once. *)
From S2P Require Import Prelude RustStr Json RouterSse.

(** ** The reference *)

Definition first_delimiter (b : bytes) : option (nat * nat) := find_from 0 b.

Fixpoint frames_from (fuel : nat) (b : bytes) : list bytes * bytes :=
  match fuel, first_delimiter b with
  | S fuel, Some (i, n) =>
      let '(fs, r) := frames_from fuel (drop (i + n) b) in (take i b :: fs, r)
  | _, _ => ([], b)
  end.
(** The frames of a stream, and the bytes after the last blank line. *)
Definition frames (b : bytes) : list bytes * bytes := frames_from (length b) b.

(** ** Delimiters *)

Lemma find_from_shift i b : find_from i b = (fun p => (i + p.1, p.2)) <$> find_from 0 b.
Proof.
  revert i. induction b as [|a b IH]; intros i; [done|]. cbn [find_from].
  destruct (delimiter_at (a :: b)); [cbn; by rewrite Nat.add_0_r|].
  rewrite IH, (IH 1). destruct (find_from 0 b) as [[j n]|]; [|done]. cbn. do 2 f_equal. lia.
Qed.

Lemma first_cons a b :
  first_delimiter (a :: b) = match delimiter_at (a :: b) with
                             | Some n => Some (0, n)
                             | None => (fun p => (S p.1, p.2)) <$> first_delimiter b
                             end.
Proof.
  unfold first_delimiter. cbn [find_from]. destruct (delimiter_at (a :: b)); [done|].
  apply find_from_shift.
Qed.

Ltac eqb_cases := repeat match goal with
  | H : context [Ascii.eqb ?x ?y] |- _ => destruct (Ascii.eqb_spec x y); subst; cbn [andb] in H
  | |- context [Ascii.eqb ?x ?y] => destruct (Ascii.eqb_spec x y); subst; cbn [andb]
  end.

Lemma delimiter_Some b n : delimiter_at b = Some n ->
  n = 2 /\ (exists r, b = LF :: LF :: r) \/ n = 4 /\ exists r, b = CR :: LF :: CR :: LF :: r.
Proof.
  destruct b as [|a [|b r]]; try done. cbn [delimiter_at].
  destruct (Ascii.eqb_spec a LF) as [->|Ha]; cbn [andb].
  { destruct (Ascii.eqb_spec b LF) as [->|]; cbn; [|done]. intros [= <-]. left. eauto. }
  destruct (Ascii.eqb_spec a CR) as [->|]; cbn [andb]; [|done].
  destruct (Ascii.eqb_spec b LF) as [->|]; cbn [andb]; [|done].
  destruct r as [|c [|d r]]; try done.
  destruct (Ascii.eqb_spec c CR) as [->|], (Ascii.eqb_spec d LF) as [->|]; cbn [andb]; try done.
  intros [= <-]. right. eauto.
Qed.

Lemma delimiter_app b c n : delimiter_at b = Some n -> delimiter_at (b ++ c) = Some n.
Proof. by intros [(-> & r & ->) | (-> & r & ->)]%delimiter_Some. Qed.

(** Four bytes decide whether a delimiter starts. *)
Lemma delimiter_long b c : 4 <= length b -> delimiter_at (b ++ c) = delimiter_at b.
Proof. destruct b as [|x [|y [|z [|w b]]]]; cbn [length]; try lia. done. Qed.

Lemma first_Some b i n : first_delimiter b = Some (i, n) ->
  delimiter_at (drop i b) = Some n /\ 2 <= n <= 4 /\ i + n <= length b.
Proof.
  revert i. induction b as [|a b IH]; intros i; [done|]. rewrite first_cons.
  destruct (delimiter_at (a :: b)) as [m|] eqn:Hd.
  - intros [= <- <-]. split; [done|].
    apply delimiter_Some in Hd as [(-> & r & ->) | (-> & r & ->)]; cbn; lia.
  - destruct (first_delimiter b) as [[j m]|]; [|done]. cbn. intros [= <- <-].
    destruct (IH _ eq_refl) as (? & ? & ?). cbn. split; [done|lia].
Qed.

Lemma none_before_delimiter a b i n c :
  delimiter_at (a :: b) = None -> first_delimiter b = Some (i, n) ->
  delimiter_at ((a :: b) ++ c) = None.
Proof.
  intros Hnone Hsome. destruct (decide (4 <= length (a :: b))) as [Hl|Hl]; [by rewrite delimiter_long|].
  destruct (first_Some _ _ _ Hsome) as (Hd & Hn & Hlen). cbn [length] in Hl.
  destruct b as [|x [|y [|z b]]]; cbn [length] in *; try lia.
  assert (i = 0) as -> by lia. apply delimiter_Some in Hd as [(-> & r & [= -> ->]) | (-> & r & [=])].
  cbn in Hnone |- *. destruct (Ascii.eqb_spec a LF); cbn in *; [done|].
  destruct (Ascii.eqb a CR); cbn; [by destruct c|done].
Qed.

Lemma first_app b c p : first_delimiter b = Some p -> first_delimiter (b ++ c) = Some p.
Proof.
  revert p. induction b as [|a b IH]; intros p; [done|]. cbn [app]. rewrite !first_cons.
  destruct (delimiter_at (a :: b)) as [n|] eqn:Hd.
  - intros [= <-]. change (a :: b ++ c) with ((a :: b) ++ c). by rewrite (delimiter_app _ _ _ Hd).
  - destruct (first_delimiter b) as [[i n]|] eqn:Hb; [|done]. intros [= <-].
    change (a :: b ++ c) with ((a :: b) ++ c). rewrite (none_before_delimiter _ _ _ _ c Hd Hb).
    by rewrite (IH _ eq_refl).
Qed.

(** The scan may resume three bytes before the bytes that were appended. *)
Lemma scan_resumes b c :
  first_delimiter b = None ->
  find_frame_delimiter (b ++ c) (length b - MAX_PARTIAL_DELIMITER_BYTES) = first_delimiter (b ++ c).
Proof.
  unfold find_frame_delimiter, MAX_PARTIAL_DELIMITER_BYTES.
  induction b as [|a b IH]; [done|]. rewrite first_cons.
  destruct (delimiter_at (a :: b)) eqn:Hd; [done|].
  destruct (first_delimiter b) eqn:Hb; [done|]. intros _.
  destruct (decide (3 <= length b)) as [Hl|Hl].
  - cbn [app length]. replace (S (length b) - 3) with (S (length b - 3)) by lia. cbn [drop].
    change (a :: b ++ c) with ((a :: b) ++ c). cbn [app]. rewrite first_cons.
    change (a :: b ++ c) with ((a :: b) ++ c). rewrite delimiter_long by (cbn; lia). rewrite Hd.
    rewrite <- IH by done. rewrite find_from_shift, (find_from_shift (length b - 3)).
    destruct (find_from 0 (drop (length b - 3) (b ++ c))) as [[j n]|]; done.
  - cbn [length]. by replace (S (length b) - 3) with 0 by lia.
Qed.

(** ** Frames of an appended stream *)

Lemma frames_from_fuel fuel fuel' b :
  length b <= fuel -> length b <= fuel' -> frames_from fuel b = frames_from fuel' b.
Proof.
  revert fuel' b. induction fuel as [|fuel IH]; intros [|fuel'] b H H'; cbn [frames_from]; try done.
  1,2: destruct b; [|cbn in *; lia]; done.
  destruct (first_delimiter b) as [[i n]|] eqn:Hf; [|done].
  destruct (first_Some _ _ _ Hf) as (_ & ? & ?).
  rewrite (IH fuel'); [done | rewrite length_drop; lia..].
Qed.

Lemma frames_step b :
  frames b = match first_delimiter b with
             | None => ([], b)
             | Some (i, n) => let '(fs, r) := frames (drop (i + n) b) in (take i b :: fs, r)
             end.
Proof.
  unfold frames. destruct (first_delimiter b) as [[i n]|] eqn:Hf.
  - destruct (first_Some _ _ _ Hf) as (_ & ? & ?).
    destruct (length b) as [|k] eqn:Hk; [lia|]. cbn [frames_from]. rewrite Hf.
    rewrite (frames_from_fuel k (length (drop (i + n) b))); [done | rewrite length_drop; lia..].
  - destruct (length b); cbn [frames_from]; [done|]. by rewrite Hf.
Qed.

Lemma frames_none b : first_delimiter b = None -> frames b = ([], b).
Proof. intros H. by rewrite frames_step, H. Qed.

Lemma frames_rest b fs r : frames b = (fs, r) -> first_delimiter r = None /\ length r <= length b.
Proof.
  revert fs r. induction b as [b IH] using (well_founded_induction (Wf_nat.well_founded_ltof _ length)).
  intros fs r. rewrite frames_step. destruct (first_delimiter b) as [[i n]|] eqn:Hf; [|by intros [= _ <-]].
  destruct (first_Some _ _ _ Hf) as (_ & ? & ?).
  destruct (frames (drop (i + n) b)) as [fs' r'] eqn:Hr. intros [= _ <-].
  destruct (IH (drop (i + n) b)) with (2 := Hr) as [? Hl]; [unfold Wf_nat.ltof; rewrite length_drop; lia|].
  rewrite length_drop in Hl. split; [done | lia].
Qed.

Lemma frames_app b c :
  frames (b ++ c) = let '(fs, r) := frames b in let '(fs', r') := frames (r ++ c) in (fs ++ fs', r').
Proof.
  induction b as [b IH] using (well_founded_induction (Wf_nat.well_founded_ltof _ length)).
  rewrite (frames_step b). destruct (first_delimiter b) as [[i n]|] eqn:Hf; [|by destruct (frames (b ++ c))].
  destruct (first_Some _ _ _ Hf) as (_ & ? & ?).
  rewrite frames_step, (first_app _ _ _ Hf), drop_app_le, take_app_le by lia.
  rewrite IH by (unfold Wf_nat.ltof; rewrite length_drop; lia).
  destruct (frames (drop (i + n) b)) as [fs r]. by destruct (frames (r ++ c)).
Qed.

(** ** Draining *)

Lemma find_shift b st : find_frame_delimiter b st
  = (fun p => (st + p.1, p.2)) <$> first_delimiter (drop st b).
Proof. apply find_from_shift. Qed.

Section Facts.
Context (limit : nat).

(** What the framer holds between two calls. *)
Record framer_ok (fr : SseFramer) : Prop := MkFramerOk {
  fo_open : first_delimiter (buffer fr) = None;
  fo_scan : scan_from fr = length (buffer fr) - MAX_PARTIAL_DELIMITER_BYTES;
  fo_fits : residual_fits_frame_limit limit (buffer fr) = true }.

Lemma drain_loop_frames fuel b st se :
  find_frame_delimiter b se = find_frame_delimiter b st -> length (drop st b) < fuel -> st <= length b ->
  let '(fs, r) := frames (drop st b) in
  drain_loop limit fuel b st se
  = if forallb (fun f : bytes => length f <=? limit) fs then Ok (fs, length b - length r)
    else Err FrameTooLarge.
Proof.
  revert st se. induction fuel as [|fuel IH]; intros st se Hse Hfuel Hst; [lia|].
  cbn [drain_loop]. rewrite frames_step, Hse, find_shift.
  destruct (first_delimiter (drop st b)) as [[i n]|] eqn:Hf; cbn [fmap option_fmap option_map fst snd].
  - destruct (first_Some _ _ _ Hf) as (_ & Hn & Hlen). rewrite length_drop in Hlen, Hfuel.
    specialize (IH (st + i + n) (st + i + n) eq_refl).
    rewrite drop_drop, Nat.add_assoc.
    destruct (frames (drop (st + i + n) b)) as [fs r].
    rewrite length_drop in IH. rewrite IH by lia. cbn [forallb]. rewrite length_take, length_drop.
    replace (st + i - st) with i by lia. rewrite Nat.min_l by lia.
    rewrite Nat.ltb_antisym. destruct (i <=? limit); cbn [negb andb]; [|done].
    by destruct (forallb _ fs).
  - cbn [forallb]. rewrite length_drop. do 2 f_equal. lia.
Qed.

Lemma frames_suffix b fs r : frames b = (fs, r) -> r = drop (length b - length r) b.
Proof.
  revert fs r. induction b as [b IH] using (well_founded_induction (Wf_nat.well_founded_ltof _ length)).
  intros fs r. rewrite frames_step. destruct (first_delimiter b) as [[i n]|] eqn:Hf.
  2: { intros [= _ <-]. by rewrite Nat.sub_diag. }
  destruct (first_Some _ _ _ Hf) as (_ & ? & ?).
  destruct (frames (drop (i + n) b)) as [fs' r'] eqn:Hr. intros [= _ <-].
  destruct (frames_rest _ _ _ Hr) as [_ Hl]. rewrite length_drop in Hl.
  rewrite (IH (drop (i + n) b)) with (2 := Hr) at 1; [|unfold Wf_nat.ltof; rewrite length_drop; lia].
  rewrite drop_drop, length_drop. f_equal. lia.
Qed.

(** Draining what was appended to a framer between calls. *)
Lemma drain_frames b scan s : first_delimiter b = None -> scan = length b - MAX_PARTIAL_DELIMITER_BYTES ->
  let '(fs, r) := frames (b ++ s) in
  drain limit (MkFramer (b ++ s) scan)
  = if forallb (fun f : bytes => length f <=? limit) fs
    then (Ok fs, MkFramer r (length r - MAX_PARTIAL_DELIMITER_BYTES))
    else (Err FrameTooLarge, MkFramer (b ++ s) scan).
Proof.
  intros Hb ->. unfold drain. cbn [buffer scan_from].
  pose proof (drain_loop_frames (S (length (b ++ s))) (b ++ s) 0
                (length b - MAX_PARTIAL_DELIMITER_BYTES)) as Hd.
  rewrite drop_0 in Hd. destruct (frames (b ++ s)) as [fs r] eqn:Hf.
  rewrite Hd; [|by rewrite scan_resumes | lia | lia].
  destruct (forallb _ fs); [|done]. by rewrite <- (frames_suffix _ _ _ Hf).
Qed.

(** ** Pushing *)

Lemma fits_length b : residual_fits_frame_limit limit b = true -> length b <= limit + 3.
Proof.
  unfold residual_fits_frame_limit. rewrite orb_true_iff, Nat.leb_le, bool_decide_eq_true.
  intros [H|H]; [lia|]. pose proof (length_drop b limit) as Hl.
  set_unfold in H. destruct_or!; rewrite H in Hl; cbn in Hl; lia.
Qed.

(** One slice: the bytes it admits and what is left. *)
Lemma admit_spec fr chunk : chunk <> [] -> framer_ok fr ->
  match admit_slice limit fr chunk with
  | Some (fr', rest) => exists s, s <> [] /\ chunk = s ++ rest
      /\ fr' = MkFramer (buffer fr ++ s) (scan_from fr)
      /\ (length (buffer fr ++ s) <= limit + 3 \/ length (buffer fr) = limit + 3 /\ s = [LF])
  | None => length (buffer fr) = limit + 3 /\ head chunk <> Some LF
  end.
Proof.
  intros Hne Hok. pose proof (fits_length _ (fo_fits _ Hok)) as Hlen.
  unfold admit_slice, MAX_PARTIAL_DELIMITER_BYTES.
  destruct (limit + 3 - length (buffer fr) =? 0) eqn:Hroom.
  - apply Nat.eqb_eq in Hroom. destruct chunk as [|a rest]; [done|]. rewrite (fo_fits _ Hok). cbn [andb].
    destruct (Ascii.eqb_spec a LF) as [->|Ha]; [|split; [lia|cbn; congruence]].
    exists [LF]. split_and!; [done..|]. right. split; [lia|done].
  - apply Nat.eqb_neq in Hroom. exists (take (Nat.min (limit + 3 - length (buffer fr)) (length chunk)) chunk).
    split_and!; [|by rewrite take_drop|done|].
    + destruct chunk as [|a chunk]; [done|]. destruct (Nat.min _ _) eqn:E; [cbn in E; lia|done].
    + left. rewrite length_app, length_take. lia.
Qed.

Lemma fits_beyond b : residual_fits_frame_limit limit b = true -> length b = limit + 3 ->
  drop limit b = [CR; LF; CR].
Proof.
  unfold residual_fits_frame_limit. rewrite orb_true_iff, Nat.leb_le, bool_decide_eq_true.
  intros [H|H] Hl; [lia|]. pose proof (length_drop b limit) as Hd. rewrite Hl in Hd.
  set_unfold in H. destruct_or!; rewrite H in Hd; cbn in Hd; try lia. done.
Qed.

(** The last byte of a delimiter after a frame of the largest size. *)
Lemma full_frame b : first_delimiter b = None -> residual_fits_frame_limit limit b = true ->
  length b = limit + 3 -> frames (b ++ [LF]) = ([take limit b], []).
Proof.
  intros Hb Hfit Hlen. pose proof (fits_beyond _ Hfit Hlen) as Hdrop.
  assert (Hf : first_delimiter (b ++ [LF]) = Some (limit, 4)).
  { rewrite <- (scan_resumes b [LF] Hb), find_shift, drop_app_le by lia.
    unfold MAX_PARTIAL_DELIMITER_BYTES. rewrite Hlen, Nat.add_sub, Hdrop. change (first_delimiter ([CR; LF; CR] ++ [LF])) with (Some (0, 4)).
    cbn. by rewrite Nat.add_0_r. }
  rewrite frames_step, Hf, take_app_le by lia.
  rewrite (drop_ge (b ++ [LF])) by (rewrite length_app; cbn; lia). done.
Qed.

(** [push_loop] answers with the frames of what it was given, or an error. *)
Lemma push_loop_sound fuel fr chunk :
  framer_ok fr -> length chunk <= fuel ->
  let '(fs, r) := frames (buffer fr ++ chunk) in
  match push_loop limit fuel fr chunk with
  | (Ok out, fr') => out = fs /\ buffer fr' = r /\ framer_ok fr'
                     /\ Forall (fun f : bytes => length f <= limit) fs
  | (Err _, fr') => length (buffer fr') <= limit + 3
  end.
Proof.
  revert fr chunk. induction fuel as [|fuel IH]; intros fr chunk Hok Hfuel.
  { destruct chunk; [|cbn in Hfuel; lia]. rewrite app_nil_r, frames_none by apply Hok. by cbn. }
  destruct (decide (chunk = [])) as [->|Hne].
  { rewrite app_nil_r, frames_none by apply Hok. by cbn. }
  pose proof (admit_spec fr chunk Hne Hok) as Ha. destruct chunk as [|a chunk]; [done|]. cbn [push_loop].
  destruct (admit_slice limit fr (a :: chunk)) as [[fr1 rest]|] eqn:Hadm.
  2: { destruct (frames _). by apply fits_length, Hok. }
  destruct Ha as (s & Hs & Hchunk & -> & Hlen). rewrite Hchunk, app_assoc, frames_app.
  pose proof (drain_frames (buffer fr) (scan_from fr) s (fo_open _ Hok) (fo_scan _ Hok)) as Hd.
  assert (Hfull : length (buffer fr ++ s) <= limit + 3 \/ frames (buffer fr ++ s) = ([take limit (buffer fr)], [])).
  { destruct Hlen as [?|[Hl ->]]; [by left|]. right. apply full_frame; [apply Hok..|done]. }
  destruct (frames (buffer fr ++ s)) as [fs r] eqn:Hf. rewrite Hd.
  destruct (frames_rest _ _ _ Hf) as [Hr Hrl].
  destruct (forallb _ fs) eqn:Hall.
  2: { destruct (frames (r ++ rest)). cbn [buffer]. destruct Hfull as [?|[= -> ->]]; [done|].
       cbn [forallb] in Hall. rewrite length_take, andb_true_r, Nat.leb_gt in Hall. lia. }
  cbn [buffer]. destruct (residual_fits_frame_limit limit r) eqn:Hfits; cbn [negb].
  2: { destruct (frames (r ++ rest)). cbn [buffer]. destruct Hfull as [?|[= -> ->]]; [lia|done]. }
  specialize (IH (MkFramer r (length r - MAX_PARTIAL_DELIMITER_BYTES)) rest).
  assert (Hrest : length rest <= fuel).
  { apply (f_equal length) in Hchunk. rewrite length_app in Hchunk. cbn [length] in *.
    destruct s; [done|]. cbn [length] in *. lia. }
  specialize (IH ltac:(by split) Hrest). cbn [buffer] in IH.
  destruct (frames (r ++ rest)) as [fs' r'].
  destruct (push_loop limit fuel _ rest) as [[out|e] fr']; [|done].
  destruct IH as (-> & ? & ? & ?).
  split_and!; [done..|]. apply Forall_app. split; [|done]. rewrite Forall_forall.
  intros f Hin. rewrite forallb_true, Forall_forall in Hall. by apply Nat.leb_le, Hall.
Qed.

(** ** Nothing within the ceiling is refused *)

(** The sizes of a frame that every chunking lets through. *)
Definition admissible (f : bytes) : Prop := length f <= limit /\ S (length f) <> limit.

Lemma first_none_at b j : first_delimiter b = None -> delimiter_at (drop j b) = None.
Proof.
  revert j. induction b as [|a b IH]; intros j; [by destruct j|]. rewrite first_cons.
  destruct (delimiter_at (a :: b)) eqn:Hd; [done|]. destruct (first_delimiter b) eqn:Hb; [done|].
  intros _. destruct j; [done|]. by apply IH.
Qed.

Lemma delimiter_bytes b n : delimiter_at b = Some n ->
  exists d r, b = d ++ r /\ length d = n /\ (d = [LF; LF] \/ d = [CR; LF; CR; LF]).
Proof.
  intros [(-> & r & ->) | (-> & r & ->)]%delimiter_Some; [exists [LF; LF], r | exists [CR; LF; CR; LF], r];
    split_and!; auto.
Qed.

(** Where a stream is cut before its first delimiter is complete. *)
Lemma cut_before r u i n : first_delimiter r = None -> first_delimiter (r ++ u) = Some (i, n) ->
  length r < i + n /\
  exists d, (d = [LF; LF] \/ d = [CR; LF; CR; LF]) /\ length d = n
    /\ (i <= length r -> drop i r = take (length r - i) d /\ take (n - (length r - i)) u = drop (length r - i) d).
Proof.
  intros Hr Ht. destruct (first_Some _ _ _ Ht) as (Hd & Hn & Hlen).
  destruct (delimiter_bytes _ _ Hd) as (d & v & Hdv & Hld & Hcase).
  assert (Hlt : length r < i + n).
  { destruct (decide (length r < i + n)) as [|Hge]; [done|]. pose proof (first_none_at r i Hr) as Hnone.
    rewrite drop_app_le in Hdv by lia.
    assert (Hpre : drop i r = d ++ drop n (drop i r)).
    { rewrite <- (take_drop n (drop i r)) at 1. f_equal.
      apply (f_equal (take n)) in Hdv. rewrite take_app_le in Hdv by (rewrite length_drop; lia).
      rewrite Hdv, <- Hld. apply take_app_length. }
    rewrite Hpre in Hnone. destruct Hcase as [-> | ->]; done. }
  split; [done|]. exists d. split_and!; [done..|]. intros Hi.
  rewrite drop_app_le in Hdv by lia. split.
  - apply (f_equal (take (length r - i))) in Hdv.
    rewrite take_app_le, take_ge in Hdv by (rewrite length_drop; lia).
    by rewrite Hdv, take_app_le by lia.
  - apply (f_equal (fun l => take (n - (length r - i)) (drop (length r - i) l))) in Hdv.
    rewrite drop_app_ge, length_drop, Nat.sub_diag, drop_0 in Hdv by (rewrite length_drop; lia).
    rewrite Hdv, drop_app_le by lia. rewrite take_app_le by (rewrite length_drop; lia).
    rewrite take_ge; [done | rewrite length_drop; lia].
Qed.

Lemma residual_fits r u : first_delimiter r = None ->
  (let '(fs, rest) := frames (r ++ u) in Forall admissible fs /\ length rest <= limit) ->
  residual_fits_frame_limit limit r = true.
Proof.
  intros Hr. unfold residual_fits_frame_limit. rewrite orb_true_iff, Nat.leb_le, bool_decide_eq_true.
  rewrite frames_step. destruct (first_delimiter (r ++ u)) as [[i n]|] eqn:Ht.
  2: { rewrite length_app. intros [_ H]. left. lia. }
  destruct (first_Some _ _ _ Ht) as (_ & _ & Hlen).
  destruct (frames (drop (i + n) (r ++ u))) as [fs rest]. intros [[Hadm _]%Forall_cons _].
  unfold admissible in Hadm. rewrite length_take in Hadm.
  destruct (cut_before _ _ _ _ Hr Ht) as (Hlt & d & Hcase & Hd & Hsplit).
  destruct (decide (length r <= limit)) as [|Hgt]; [by left|]. right.
  destruct (Hsplit ltac:(lia)) as [Hdrop _].
  replace (drop limit r) with (drop (limit - i) (drop i r)) by (rewrite drop_drop; f_equal; lia).
  rewrite Hdrop. set (j := limit - i). set (k := length r - i).
  assert (Hj : j < k /\ k < n /\ j <> 1) by lia. clearbody j k.
  destruct Hcase as [-> | ->]; cbn in Hd; subst n;
    (destruct j as [|[|[|j]]]; [| lia | | lia]; destruct k as [|[|[|[|k]]]]; cbn; try lia; set_solver).
Qed.

Lemma push_loop_complete fuel fr chunk u :
  framer_ok fr -> length chunk <= fuel ->
  (let '(fs, r) := frames (buffer fr ++ chunk ++ u) in Forall admissible fs /\ length r <= limit) ->
  is_ok (push_loop limit fuel fr chunk).1 = true.
Proof.
  revert fr chunk. induction fuel as [|fuel IH]; intros fr chunk Hok Hfuel Hall; [done|].
  destruct (decide (chunk = [])) as [->|Hne]; [done|].
  pose proof (admit_spec fr chunk Hne Hok) as Ha. destruct chunk as [|a chunk]; [done|]. cbn [push_loop].
  destruct (admit_slice limit fr (a :: chunk)) as [[fr1 rest]|] eqn:Hadm.
  2: { exfalso. destruct Ha as [Hlen Hhead]. revert Hall. rewrite frames_step.
       destruct (first_delimiter (buffer fr ++ (a :: chunk) ++ u)) as [[i n]|] eqn:Ht.
       2: { rewrite length_app. lia. }
       destruct (first_Some _ _ _ Ht) as (_ & Hn & Hin). destruct (frames (drop (i + n) _)) as [fs r].
       intros [[[Hi _] _]%Forall_cons _]. rewrite length_take in Hi.
       destruct (cut_before _ _ _ _ (fo_open _ Hok) Ht) as (Hlt & d & Hcase & Hd & Hsplit).
       destruct (Hsplit ltac:(lia)) as [_ Hu]. rewrite Hlen in Hu, Hlt.
       assert (i = limit) as -> by lia. assert (n = 4) as -> by lia.
       replace (limit + 3 - limit) with 3 in Hu by lia.
       destruct Hcase as [-> | ->]; [done|]. cbn in Hu. injection Hu as ->. by apply Hhead. }
  destruct Ha as (s & Hs & Hchunk & -> & Hlen). rewrite Hchunk in Hall.
  rewrite <- app_assoc, app_assoc, frames_app in Hall.
  pose proof (drain_frames (buffer fr) (scan_from fr) s (fo_open _ Hok) (fo_scan _ Hok)) as Hd.
  destruct (frames (buffer fr ++ s)) as [fs r] eqn:Hf. rewrite Hd.
  destruct (frames_rest _ _ _ Hf) as [Hr _].
  destruct (frames (r ++ rest ++ u)) as [fs' r'] eqn:Hf'. destruct Hall as [[Hfs Hfs']%Forall_app Hr'].
  replace (forallb _ fs) with true.
  2: { symmetry. apply forallb_true. eapply Forall_impl; [exact Hfs|]. intros f [? _]. by apply Nat.leb_le. }
  cbn [buffer]. assert (Hfit : residual_fits_frame_limit limit r = true).
  { apply (residual_fits r (rest ++ u)); [done|]. by rewrite Hf'. }
  rewrite Hfit. cbn [negb]. specialize (IH (MkFramer r (length r - MAX_PARTIAL_DELIMITER_BYTES)) rest).
  assert (Hrest : length rest <= fuel).
  { apply (f_equal length) in Hchunk. rewrite length_app in Hchunk. cbn [length] in *.
    destruct s; [done|]. cbn [length] in *. lia. }
  specialize (IH ltac:(by split) Hrest). cbn [buffer] in IH. rewrite Hf' in IH. specialize (IH (conj Hfs' Hr')).
  by destruct (push_loop limit fuel _ rest) as [[out|e] fr'].
Qed.

Lemma framer_new_ok : framer_ok framer_new.
Proof. by split. Qed.

Lemma push_all_sound chunks fr : framer_ok fr ->
  let '(fs, r) := frames (buffer fr ++ concat chunks) in
  match push_all limit fr chunks with
  | (Ok out, fr') => out = fs /\ buffer fr' = r /\ Forall (fun f : bytes => length f <= limit) fs
                     /\ length r <= limit + 3
  | (Err _, fr') => length (buffer fr') <= limit + 3
  end.
Proof.
  revert fr. induction chunks as [|chunk chunks IH]; intros fr Hok; cbn [concat push_all].
  { rewrite app_nil_r, frames_none by apply Hok. split_and!; [done..|]. by apply fits_length, Hok. }
  pose proof (push_loop_sound (length chunk) fr chunk Hok (le_n _)) as Hp. unfold push_bytes.
  rewrite app_assoc, frames_app. destruct (frames (buffer fr ++ chunk)) as [fs r].
  destruct (push_loop limit (length chunk) fr chunk) as [[out|e] fr1].
  - destruct Hp as (-> & <- & Hok1 & Hfs). specialize (IH fr1 Hok1).
    destruct (frames (buffer fr1 ++ concat chunks)) as [fs' r'].
    destruct (push_all limit fr1 chunks) as [[out'|e'] fr2]; [|done].
    destruct IH as (-> & ? & ? & ?). split_and!; [done | done | by apply Forall_app | done].
  - by destruct (frames (r ++ concat chunks)).
Qed.

Lemma push_all_complete chunks fr : framer_ok fr ->
  (let '(fs, r) := frames (buffer fr ++ concat chunks) in Forall admissible fs /\ length r <= limit) ->
  is_ok (push_all limit fr chunks).1 = true.
Proof.
  revert fr. induction chunks as [|chunk chunks IH]; intros fr Hok Hall; cbn [concat push_all] in *; [done|].
  pose proof (push_loop_sound (length chunk) fr chunk Hok (le_n _)) as Hp.
  pose proof (push_loop_complete (length chunk) fr chunk (concat chunks) Hok (le_n _) Hall) as Hc.
  rewrite app_assoc, frames_app in Hall. unfold push_bytes. destruct (frames (buffer fr ++ chunk)) as [fs r].
  destruct (push_loop limit (length chunk) fr chunk) as [[out|e] fr1]; [|done].
  destruct Hp as (-> & <- & Hok1 & _). specialize (IH fr1 Hok1).
  destruct (frames (buffer fr1 ++ concat chunks)) as [fs' r'].
  destruct Hall as [[_ ?]%Forall_app ?]. specialize (IH (conj H H0)).
  by destruct (push_all limit fr1 chunks) as [[?|?] ?].
Qed.
End Facts.

(** ** Theorems *)

(** C37: What the framer answers does not depend on how the network cut the
    stream: whenever it answers at all, the frames are those of the whole
    stream split at its blank lines, and the bytes after the last one are
    kept; and it answers for every chunking when no frame is longer than the
    ceiling or one byte below it and the rest fits. *)
Theorem framing_does_not_depend_on_chunks limit chunks :
  let '(fs, r) := frames (concat chunks) in
  (forall out fr, push_all limit framer_new chunks = (Ok out, fr) -> out = fs /\ buffer fr = r) /\
  (Forall (admissible limit) fs -> length r <= limit ->
   exists fr, push_all limit framer_new chunks = (Ok fs, fr)).
Proof.
  pose proof (push_all_sound limit chunks framer_new (framer_new_ok limit)) as Hs.
  pose proof (push_all_complete limit chunks framer_new (framer_new_ok limit)) as Hc.
  cbn [buffer framer_new app] in Hs, Hc. destruct (frames (concat chunks)) as [fs r]. split.
  - intros out fr Hp. rewrite Hp in Hs. by destruct Hs as (? & ? & _).
  - intros Hfs Hr. specialize (Hc (conj Hfs Hr)).
    destruct (push_all limit framer_new chunks) as [[out|e] fr]; [|done]. destruct Hs as (-> & _). by exists fr.
Qed.

(** A provider cannot make the framer hold more than the ceiling and a
    partial blank line, nor hand out a larger frame, whatever it sends and
    whether the call fails or not; an oversized frame always fails. *)
Lemma framer_memory_is_bounded limit chunks out fr :
  push_all limit framer_new chunks = (out, fr) ->
  length (buffer fr) <= limit + 3 /\
  match out with
  | Ok fs => Forall (fun f : bytes => length f <= limit) fs
             /\ Forall (fun f : bytes => length f <= limit) (frames (concat chunks)).1
  | Err _ => True
  end.
Proof.
  intros Hp. pose proof (push_all_sound limit chunks framer_new (framer_new_ok limit)) as Hs.
  cbn [buffer framer_new app] in Hs. rewrite Hp in Hs.
  destruct (frames (concat chunks)) as [fs r], out as [out|e]; [|done].
  destruct Hs as (-> & <- & ? & ?). done.
Qed.

(** A chunk that is admitted in one slice. *)
Lemma push_one_slice limit fr chunk :
  framer_ok limit fr -> chunk <> [] -> length (buffer fr ++ chunk) <= limit + 3 ->
  push_bytes limit fr chunk =
    let '(fs, r) := frames (buffer fr ++ chunk) in
    if forallb (fun f : bytes => length f <=? limit) fs then
      if residual_fits_frame_limit limit r
      then (Ok fs, MkFramer r (length r - MAX_PARTIAL_DELIMITER_BYTES))
      else (Err FrameTooLarge, MkFramer r (length r - MAX_PARTIAL_DELIMITER_BYTES))
    else (Err FrameTooLarge, MkFramer (buffer fr ++ chunk) (scan_from fr)).
Proof.
  intros Hok Hne Hlen. rewrite length_app in Hlen. unfold push_bytes.
  pose proof (drain_frames limit (buffer fr) (scan_from fr) chunk (fo_open _ _ Hok) (fo_scan _ _ Hok)) as Hd.
  destruct (frames (buffer fr ++ chunk)) as [fs r].
  destruct chunk as [|a chunk]; [done|]. cbn [push_loop length].
  assert (Ha : admit_slice limit fr (a :: chunk)
               = Some (MkFramer (buffer fr ++ a :: chunk) (scan_from fr), [])).
  { unfold admit_slice, MAX_PARTIAL_DELIMITER_BYTES. cbn [length] in Hlen.
    destruct (limit + 3 - length (buffer fr) =? 0) eqn:E; [apply Nat.eqb_eq in E; lia|].
    rewrite Nat.min_r by (cbn; lia). by rewrite take_ge, drop_ge. }
  rewrite Ha, Hd. destruct (forallb _ fs); [|done]. cbn [buffer].
  destruct (residual_fits_frame_limit limit r); cbn [negb]; [|done].
  destruct (length chunk); cbn [push_loop]; by rewrite app_nil_r.
Qed.

(** A run of bytes that starts no delimiter. *)
Lemma first_delimiter_plain n c b i k :
  Ascii.eqb c LF = false -> Ascii.eqb c CR = false -> first_delimiter b = Some (i, k) ->
  first_delimiter (repeat c n ++ b) = Some (n + i, k).
Proof.
  intros Hl Hc Hb. induction n as [|n IH]; [done|]. cbn [repeat app]. rewrite first_cons.
  assert (Hd : delimiter_at (c :: repeat c n ++ b) = None).
  { destruct (repeat c n ++ b); [done|]. cbn [delimiter_at]. by rewrite Hl, Hc. }
  by rewrite Hd, IH.
Qed.

Definition x_byte : ascii := "x"%char.

(** One frame size depends on the chunks after all: a frame one byte below
    the ceiling whose blank line is written with carriage returns is delivered
    when it arrives whole and refused as too large when the network cuts before
    its last byte. *)
Lemma frame_below_the_ceiling_is_refused n :
  let content := repeat x_byte n in
  push_all (S n) framer_new [content ++ [CR; LF; CR; LF]] = (Ok [content], framer_new) /\
  exists fr, push_all (S n) framer_new [content ++ [CR; LF; CR]; [LF]] = (Err FrameTooLarge, fr).
Proof.
  intros content. assert (Hlen : length content = n) by apply repeat_length. split.
  - cbn [push_all]. rewrite push_one_slice; [|done|by destruct content|cbn; rewrite length_app, Hlen; cbn; lia].
    cbn [buffer framer_new app].
    assert (Hf : frames (content ++ [CR; LF; CR; LF]) = ([content], [])).
    { rewrite frames_step, (first_delimiter_plain n x_byte _ 0 4) by done. rewrite Nat.add_0_r.
      rewrite take_app_length', drop_ge by (rewrite ?length_app, ?Hlen; cbn; lia). done. }
    rewrite Hf. cbn [forallb]. rewrite Hlen. by replace (n <=? S n) with true by (symmetry; apply Nat.leb_le; lia).
  - cbn [push_all]. rewrite push_one_slice; [|done|by destruct content|cbn; rewrite length_app, Hlen; cbn; lia].
    cbn [buffer framer_new app].
    assert (Hf : frames (content ++ [CR; LF; CR]) = ([], content ++ [CR; LF; CR])).
    { apply frames_none. unfold content. clear. induction n as [|n IH]; [by vm_compute|].
      cbn [repeat app]. rewrite first_cons, IH. by destruct n. }
    rewrite Hf. cbn [forallb].
    assert (Hno : residual_fits_frame_limit (S n) (content ++ [CR; LF; CR]) = false).
    { unfold residual_fits_frame_limit. rewrite length_app, Hlen. cbn [length].
      replace (n + 3 <=? S n) with false by (symmetry; apply Nat.leb_gt; lia).
      rewrite drop_app_ge, Hlen by lia. by replace (S n - n) with 1 by lia. }
    rewrite Hno. by eexists.
Qed.
