(* ===== verification/ErrorKinds.v ===== *)
(** * Kinds of failure

    [AgentError] and its stream-carrying form (tidebreak-core, error.rs), and
    the categories a reader is shown and the turn worker acts on
    (turn_failure.rs).  Identifiers inside errors are the text they print as. *)
From S2P Require Import Prelude RustStr Json.

(** ** Text *)

Definition contains_one_of (s : string) (phrases : list string) : bool :=
  existsb (fun p => contains s p) phrases.

(** ** Errors *)

(** A wait is a whole number of nanoseconds. *)
Record ProviderFailure : Type := MkFailure { failure_message : string; failure_retry_after : option Z }.
Definition failure_of (message : string) : ProviderFailure := MkFailure message None.

Inductive AgentError : Type :=
  | Config (message : string)
  | MissingCredential (message : string)
  | SignInRequired (message : string)
  | InvalidTarget (message : string)
  | Store (message : string)
  | ProjectNotFound (project : string)
  | OutputFilenameTaken (filename output_id : string)
  | ConversationRequestConflict (message : string)
  | OutputRevisionConflict (output_id current_revision : string)
  | Secret (message : string)
  | Provider (message : string)
  | Authentication (message : string)
  | AccessDenied (message : string)
  | RateLimited (failure : ProviderFailure)
  | Overloaded (failure : ProviderFailure)
  | InvalidRequest (message : string)
  | Refusal (message : string)
  | PromptTooLong (message : string)
  | ModelUnavailable (message : string)
  | EndpointNotFound (message : string)
  | Message (message : string)
  | Serde (message : string).

(** [Display] *)
Definition error_to_string (e : AgentError) : string :=
  match e with
  | Config m => "configuration error: " +:+ m
  | MissingCredential m => "provider credential missing: " +:+ m
  | SignInRequired m => "sign-in required: " +:+ m
  | InvalidTarget m => "attestation context rejected: " +:+ m
  | Store m => "store error: " +:+ m
  | ProjectNotFound p => "project " +:+ p +:+ " not found"
  | OutputFilenameTaken f o =>
      "output filename `" +:+ f +:+ "` is already live in this conversation as " +:+ o
  | ConversationRequestConflict m => "conversation request conflict: " +:+ m
  | OutputRevisionConflict o r => "output " +:+ o +:+ " has moved on to revision " +:+ r
  | Secret m => "secret error: " +:+ m
  | Provider m => "provider error: " +:+ m
  | Authentication m => "provider authentication failed: " +:+ m
  | AccessDenied m => "provider account access denied: " +:+ m
  | RateLimited f => "provider rate limited the request: " +:+ failure_message f
  | Overloaded f => "provider overloaded: " +:+ failure_message f
  | InvalidRequest m => "invalid provider request: " +:+ m
  | Refusal m => "provider refused the request: " +:+ m
  | PromptTooLong m => "prompt too long: " +:+ m
  | ModelUnavailable m => "model unavailable: " +:+ m
  | EndpointNotFound m => "provider endpoint not found: " +:+ m
  | Message m => m
  | Serde m => m
  end.

Definition kind (e : AgentError) : string :=
  match e with
  | Config _ => "config"
  | MissingCredential _ => "missing_credential"
  | SignInRequired _ => "authentication"
  | InvalidTarget _ => "invalid_target"
  | Store _ => "store"
  | ProjectNotFound _ => "not_found"
  | OutputFilenameTaken _ _ | OutputRevisionConflict _ _ | ConversationRequestConflict _ => "conflict"
  | Secret _ => "secret"
  | Provider _ => "provider"
  | Authentication _ => "authentication"
  | AccessDenied _ => "access_denied"
  | RateLimited _ => "rate_limited"
  | Overloaded _ => "overloaded"
  | InvalidRequest _ => "invalid_request"
  | Refusal _ => "refusal"
  | PromptTooLong _ => "prompt_too_long"
  | ModelUnavailable _ => "model_unavailable"
  | EndpointNotFound _ => "endpoint_not_found"
  | Message _ => "message"
  | Serde _ => "serde"
  end.

Definition retry_after (e : AgentError) : option Z :=
  match e with RateLimited f | Overloaded f => failure_retry_after f | _ => None end.

(** The failure as an event carries it. *)
Record ErrorInfo : Type := MkInfo { info_kind : string; info_message : string }.
Definition to_info (e : AgentError) : ErrorInfo := MkInfo (kind e) (error_to_string e).

(** [ProviderErrorInfo::from_error] *)
Definition from_error (e : AgentError) : ErrorInfo :=
  MkInfo (kind e)
    (match e with
     | Provider m | Authentication m | AccessDenied m | InvalidRequest m | Refusal m | PromptTooLong m
     | ModelUnavailable m | EndpointNotFound m => m
     | RateLimited f | Overloaded f => failure_message f
     | other => error_to_string other
     end).
Definition info_provider (message : string) : ErrorInfo := MkInfo "provider" message.

Definition into_agent_error (i : ErrorInfo) : AgentError :=
  let m := info_message i in
  if String.eqb (info_kind i) "authentication" then Authentication m
  else if String.eqb (info_kind i) "access_denied" then AccessDenied m
  else if String.eqb (info_kind i) "rate_limited" then RateLimited (failure_of m)
  else if String.eqb (info_kind i) "overloaded" then Overloaded (failure_of m)
  else if String.eqb (info_kind i) "invalid_request" then InvalidRequest m
  else if String.eqb (info_kind i) "refusal" then Refusal m
  else if String.eqb (info_kind i) "prompt_too_long" then PromptTooLong m
  else if String.eqb (info_kind i) "model_unavailable" then ModelUnavailable m
  else if String.eqb (info_kind i) "endpoint_not_found" then EndpointNotFound m
  else Provider m.

Definition provider_failure_detail (kind message : string) : option string :=
  if str_mem kind ["authentication"; "access_denied"; "rate_limited"; "overloaded"; "invalid_request";
                   "refusal"; "prompt_too_long"; "model_unavailable"; "endpoint_not_found"; "provider"]
  then let detail := trim message in if is_empty detail then None else Some detail
  else None.

(** ** Categories *)

Inductive TurnFailureCategory : Type :=
  | CRateLimited | COverloaded | CAuth | CProviderAccess | CModelUnavailable | CEndpointNotFound
  | CContextOverflow | CRequestRejected | CLocal | CTransient | CEngineAuth | CUsageLimit | CUnknown.
#[export] Instance TurnFailureCategory_eq_dec : EqDecision TurnFailureCategory.
Proof. solve_decision. Defined.

Definition from_kind (kind : string) : TurnFailureCategory :=
  if String.eqb kind "rate_limited" then CRateLimited
  else if String.eqb kind "overloaded" then COverloaded
  else if str_mem kind ["authentication"; "missing_credential"] then CAuth
  else if String.eqb kind "access_denied" then CProviderAccess
  else if str_mem kind ["model_unavailable"; "unknown_model"; "model_provider_unavailable"] then CModelUnavailable
  else if String.eqb kind "endpoint_not_found" then CEndpointNotFound
  else if String.eqb kind "prompt_too_long" then CContextOverflow
  else if str_mem kind ["invalid_request"; "refusal"] then CRequestRejected
  else if str_mem kind ["store"; "secret"; "provider"; "empty_model_response"] then CTransient
  else if String.eqb kind "engine_auth" then CEngineAuth
  else if String.eqb kind "usage_limit" then CUsageLimit
  else CUnknown.

Definition definite_local_fault (message : string) : bool :=
  contains_one_of (to_ascii_lowercase message)
    ["database or disk is full"; "no space left on device"; "database disk image is malformed";
     "file is not a database"; "attempt to write a readonly database"; "unable to open database file";
     "couldn't access platform secure storage"; "platform secure storage failure"].

Definition from_failure (kind message : string) : TurnFailureCategory :=
  if str_mem kind ["store"; "secret"] && definite_local_fault message then CLocal else from_kind kind.

Definition retries_may_succeed (c : TurnFailureCategory) : bool :=
  match c with CRateLimited | COverloaded | CTransient => true | _ => false end.

Definition legacy (c : TurnFailureCategory) : TurnFailureCategory :=
  match c with
  | CRateLimited | COverloaded | CUsageLimit => CRateLimited
  | CAuth | CEngineAuth => CAuth
  | CProviderAccess => CProviderAccess
  | CTransient => CTransient
  | CModelUnavailable | CEndpointNotFound | CContextOverflow | CRequestRejected | CLocal | CUnknown => CUnknown
  end.

Definition category_as_str (c : TurnFailureCategory) : string :=
  match c with
  | CRateLimited => "rate_limited" | COverloaded => "overloaded" | CAuth => "auth"
  | CProviderAccess => "provider_access" | CModelUnavailable => "model_unavailable"
  | CEndpointNotFound => "endpoint_not_found" | CContextOverflow => "context_overflow"
  | CRequestRejected => "request_rejected" | CLocal => "local" | CTransient => "transient"
  | CEngineAuth => "engine_auth" | CUsageLimit => "usage_limit" | CUnknown => "unknown"
  end.
Definition ALL : list TurnFailureCategory :=
  [CRateLimited; COverloaded; CAuth; CProviderAccess; CModelUnavailable; CEndpointNotFound;
   CContextOverflow; CRequestRejected; CLocal; CTransient; CEngineAuth; CUsageLimit; CUnknown].
(** Reading the wire spelling: an unknown one reads as unknown. *)
Definition category_from_str (s : string) : TurnFailureCategory :=
  default CUnknown (list_find (fun c => category_as_str c = s) ALL ≫= fun p => Some p.2).

Definition names_missing_model (message : string) : bool :=
  let message := to_ascii_lowercase (trim message) in
  starts_with message "model:"
  || contains message "model not found"
  || contains message "unknown model"
  || (contains message "model"
      && (contains message "does not exist" || contains message "not granted")).

(** A failure with the facts its copy needs; an instant is the seconds of its
    Unix time, kept when the calendar holds it. *)
Record TurnFailure : Type := MkTurnFailure {
  category : TurnFailureCategory; engine : option string; model : option string; resets_at : option Z }.
Definition turn_failure_new (c : TurnFailureCategory) : TurnFailure := MkTurnFailure c None None None.
Definition turn_failure_from_kind (kind : string) : TurnFailure := turn_failure_new (from_kind kind).
Definition turn_failure_from_failure (kind message : string) : TurnFailure :=
  turn_failure_new (from_failure kind message).
Definition with_engine (f : TurnFailure) (e : string) : TurnFailure :=
  MkTurnFailure (category f) (Some e) (model f) (resets_at f).
Definition with_model (f : TurnFailure) (m : string) : TurnFailure :=
  MkTurnFailure (category f) (engine f) (Some m) (resets_at f).
Definition with_resets_at (f : TurnFailure) (at_ : option Z) : TurnFailure :=
  MkTurnFailure (category f) (engine f) (model f) at_.
