(* ===== verification/RouterErrors.v ===== *)
(** * What a provider's error becomes

    tidebreak-router, sse.rs: the client-safe text of a provider's error, the
    redaction its message passes, and the classification of an HTTP error, of
    an error inside a stream and of a managed gateway's denial; then what a
    client sees of it, a short line that holds no marker of a credential.  Last,
    the turn worker's decision about a classified failure (tidebreak-server,
    engine/internal/leg.rs): its category says whether a retry can help, the
    retry schedule when. *)
From S2P Require Import Retry TurnResolve.
From S2P Require Import Prelude RustStr Json RouterSse ErrorKinds.

Open Scope nat_scope.

(** [Option::and_then] *)
Definition and_then {A B} (o : option A) (f : A -> option B) : option B :=
  match o with Some x => f x | None => None end.

(** ** Text that may be shown *)

Definition MAX_ERROR_CODE_BYTES : nat := 48.
Definition MAX_ERROR_MESSAGE_CHARS : nat := 240.
Definition MAX_DENIAL_MESSAGE_CHARS : nat := 240.
Definition MAX_DENIAL_RESOURCE_CHARS : nat := 100.

Definition code_byte (a : ascii) : bool :=
  is_ascii_lowercase a || is_ascii_digit a || Ascii.eqb a "_".
Definition safe_error_code (code : string) : bool :=
  match code with
  | String a _ => is_ascii_lowercase a && (len code <=? MAX_ERROR_CODE_BYTES) && str_all code_byte code
  | EmptyString => false
  end.

Definition is_ascii_alphanumeric (a : ascii) : bool :=
  is_ascii_digit a || is_ascii_lowercase a || is_ascii_uppercase a.

Definition ACCESS_KEY_ID_LEN : nat := 20.

Definition starts_alphanumeric (s : string) : bool :=
  match s with String a _ => is_ascii_alphanumeric a | EmptyString => false end.
(** The window at the start of [rest], which [before] tells it from. *)
Definition access_key_at (before : option ascii) (rest : string) : bool :=
  let candidate := str_take ACCESS_KEY_ID_LEN rest in
  (len candidate =? ACCESS_KEY_ID_LEN)
  && (eq_ignore_ascii_case (str_take 4 candidate) "AKIA" || eq_ignore_ascii_case (str_take 4 candidate) "ASIA")
  && str_all is_ascii_alphanumeric (str_drop 4 candidate)
  && match before with Some a => negb (is_ascii_alphanumeric a) | None => true end
  && negb (starts_alphanumeric (str_drop ACCESS_KEY_ID_LEN rest)).
Fixpoint access_key_in (before : option ascii) (rest : string) : bool :=
  access_key_at before rest
  || match rest with String a rest => access_key_in (Some a) rest | EmptyString => false end.
Definition contains_aws_access_key_id (message : string) : bool := access_key_in None message.

Definition secret_markers : list string :=
  ["sk-"; "aiza"; "absk"; "bearer "; "api_key"; "api-key"; "api key"; "apikey"; "authorization:";
   "x-goog-api-key"; "private_key"; "private key"; "access_key_id"; "access key id"; "secret_access_key";
   "secret access key"; "session_token"; "session token"; "x-amz-security-token"].
Definition compact_markers : list string :=
  ["accesskeyid"; "secretaccesskey"; "sessiontoken"; "xamzsecuritytoken"; "aws4hmacsha256credential";
   "xamzcredential"].

Fixpoint str_filter (f : ascii -> bool) (s : string) : string :=
  match s with
  | EmptyString => EmptyString
  | String a s => if f a then String a (str_filter f s) else str_filter f s
  end.

Definition contains_secret_marker (message : string) : bool :=
  let lower := to_ascii_lowercase message in
  if contains_one_of lower secret_markers then true
  else if contains_one_of (str_filter is_ascii_alphanumeric lower) compact_markers then true
  else contains_aws_access_key_id message.

(** The horizontal ellipsis, U+2026 *)
Definition ellipsis : string := utf8 [226; 128; 166].

Definition safe_error_message (message : string) : option string :=
  let collapsed := join " " (split_whitespace message) in
  if is_empty collapsed || contains_secret_marker collapsed then None
  else
    let excerpt := join "" (take MAX_ERROR_MESSAGE_CHARS (chars collapsed)) in
    Some (if MAX_ERROR_MESSAGE_CHARS <? length (chars collapsed) then excerpt +:+ ellipsis else excerpt).

(** ** What a provider said *)

Section Bodies.
Context {Number : Type} `{HJ : SerdeJson Number} `{HT : !SerdeJsonText Number}.
Implicit Types v : json Number.

Definition filter_some {A} (p : A -> bool) (o : option A) : option A :=
  match o with Some x => if p x then Some x else None | None => None end.
Definition flatten {A} (l : list (option A)) : list A := omap id l.

Definition frame_data (frame : string) : option (json Number) :=
  and_then (frame_data_raw frame) json_from_str.

(** The containers an error identifier is looked for in. *)
Definition containers (v : json Number) : list (json Number) :=
  flatten [filter_some json_is_object (json_get v "error"); filter_some json_is_object (json_get v "detail"); Some v].
Definition bare_error_code (v : json Number) : option string :=
  filter_some safe_error_code (and_then (json_get v "error") json_as_str).

Definition provider_error_code (v : json Number) : option string :=
  or_else (find_map json_as_str (flatten (flat_map (fun c => [json_get c "type"; json_get c "code"]) (containers v))))
    (bare_error_code v).
Definition provider_error_classification_code (v : json Number) : option string :=
  or_else (find_map json_as_str (flatten (flat_map (fun c => [json_get c "code"; json_get c "type"]) (containers v))))
    (bare_error_code v).
Definition provider_error_message (v : json Number) : option string :=
  let error := json_get v "error" in
  let detail := json_get v "detail" in
  find_map json_as_str (flatten
    [and_then error (fun e => json_get e "message");
     json_get v "message";
     and_then detail (fun d => json_get d "message");
     filter_some json_is_string detail;
     json_get v "error_description";
     filter_some json_is_string error]).

(** A status code, as the number it is. *)
Definition show_status (status : Z) : string := digits_of 5 (Z.to_N status) "".

Definition safe_http_error (provider : string) (status : Z) (body : string) : string :=
  let parsed : option (json Number) := json_from_str body in
  let raw_code : option string := and_then parsed provider_error_code in
  let code : option string := filter_some safe_error_code raw_code in
  let message : option string :=
    if match raw_code with None => true | Some code => safe_error_code code end
    then and_then (and_then parsed provider_error_message) safe_error_message
    else None in
  provider +:+ " returned " +:+ show_status status
  +:+ match code with Some code => " (" +:+ code +:+ ")" | None => "" end
  +:+ match message with Some message => ": " +:+ message | None => "" end.

(** ** Classification *)

Definition context_overflow_message (message : string) : bool :=
  contains_one_of (to_ascii_lowercase message)
    ["prompt is too long"; "maximum context length"; "maximum prompt length"].

Definition is_one_of (status : Z) (l : list Z) : bool := existsb (Z.eqb status) l.

Definition classify_provider_error (provider : string) (status : Z) (body : string)
    (retry_after : option Z) : AgentError :=
  let parsed : option (json Number) := json_from_str body in
  let code := default "" (and_then parsed provider_error_classification_code) in
  let message := default "" (and_then parsed provider_error_message) in
  let safe := safe_http_error provider status body in
  if (status =? 413)%Z
     || (is_one_of status [400; 422]%Z
         && (str_mem code ["context_length_exceeded"; "request_too_large"] || context_overflow_message message))
  then PromptTooLong safe
  else if (status =? 401)%Z || str_mem code ["authentication_error"; "invalid_api_key"]
  then Authentication safe
  else if (status =? 402)%Z && bool_decide (is_Some retry_after)
  then RateLimited (MkFailure safe retry_after)
  else if is_one_of status [402; 403]%Z then AccessDenied safe
  else if String.eqb code "model_not_found" || ((status =? 404)%Z && names_missing_model message)
  then ModelUnavailable safe
  else if (status =? 404)%Z then EndpointNotFound safe
  else if (status =? 429)%Z || String.eqb code "rate_limit_error"
  then RateLimited (MkFailure safe retry_after)
  else if is_one_of status [502; 503; 504; 529]%Z || str_mem code ["overloaded_error"; "server_overloaded"]
  then Overloaded (MkFailure safe retry_after)
  else if str_mem code ["content_policy_violation"; "content_filter"; "refusal"] then Refusal safe
  else if (status =? 400)%Z || (status =? 422)%Z || String.eqb code "invalid_request_error"
  then InvalidRequest safe
  else Provider safe.

Definition in_band_status (error : json Number) : Z :=
  default 500%Z (filter_some (fun code => (100 <=? code)%Z && (code <=? 599)%Z) (and_then (json_get error "code") as_u64)).
Definition classify_in_band_error (provider : string) (error : json Number) : AgentError :=
  classify_provider_error provider (in_band_status error) (json_to_string error) None.

(** ** A managed gateway's denial *)

Definition GATEWAY_ERROR_HEADER : string := "x-model-gateway-error".

Definition emdash : string := utf8 [226; 128; 148].
Definition no_longer (model : string) : string :=
  "You no longer have access to " +:+ model +:+ " on your gateway " +:+ emdash
  +:+ " an administrator may have revoked it. Pick another model.".

Definition classify_gateway_denial (code body : string) : option AgentError :=
  let parsed : option (json Number) := json_from_str body in
  let message := filter_some
    (fun m => negb (is_empty m) && (length (chars m) <=? MAX_DENIAL_MESSAGE_CHARS))
    (trim <$> (and_then parsed provider_error_message)) in
  let resource := filter_some
    (fun r => negb (is_empty r) && (length (chars r) <=? MAX_DENIAL_RESOURCE_CHARS))
    (and_then (and_then parsed (fun v => or_else (json_get v "resource")
                           (and_then (json_get v "error") (fun e => json_get e "resource")))) json_as_str) in
  if String.eqb code "model_not_granted" then
    Some (ModelUnavailable (match resource with Some model => no_longer model | None => no_longer "this model" end))
  else if String.eqb code "model_not_found" then
    Some (ModelUnavailable
      (default "Your gateway does not serve this model. Refresh the model list and pick another." message))
  else if str_mem code ["subscription_connection_required"; "subscription_client_incompatible"] then
    Some (Message
      (default ("Your gateway needs a provider subscription connected before this model can run. Connect "
                +:+ "it from the gateway's account page.") message))
  else None.

(** ** How long the provider asks to wait *)

Definition SECOND : Z := 1000000000.
Definition MAX_RETRY_AFTER : Z := 3600 * SECOND.

(** chrono reads the HTTP date; instants and waits are nanoseconds. *)
Class Rfc2822 : Type := { parse_from_rfc2822 : string -> option Z }.
Definition parse_retry_after `{Rfc2822} (now : Z) (value : string) : option Z :=
  let value := trim value in
  match parse_uint (2 ^ 64 - 1) value with
  | Some seconds => Some (Z.min (seconds * SECOND) MAX_RETRY_AFTER)
  | None =>
      match parse_from_rfc2822 value with
      | Some deadline => Some (Z.min (Z.max (deadline - now) 0) MAX_RETRY_AFTER)
      | None => None
      end
  end.
End Bodies.

(** ** One line *)

(** A character that breaks no line: a space, or no white space at all. *)
Definition one_line (c : string) : Prop := c = " " \/ str_mem c white_space = false.

Lemma space_tight : tight " " /\ one_line " ".
Proof. split; [by vm_compute | by left]. Qed.

Lemma words_join l w : Forall tight l ->
  exists tl, join " " (words l w) = join "" (w ++ tl) /\ Forall tight tl /\ Forall one_line tl
             /\ (words l w = [] -> w = [] /\ tl = []).
Proof.
  revert w. induction l as [|c l IH]; intros w Hl; cbn [words].
  { exists []. rewrite app_nil_r. destruct w as [|x w]; split_and!; done. }
  apply Forall_cons in Hl as [Hc Hl]. destruct (str_mem c white_space) eqn:Ew.
  - destruct (IH [] Hl) as (tl & Hj & Ht & Ho & Hn). cbn [app] in Hj. destruct w as [|x w].
    { exists tl. split_and!; [done..|]. intros Hw. by destruct (Hn Hw). }
    destruct (words l []) as [|y ys] eqn:Ey.
    { exists []. rewrite app_nil_r. split_and!; done. }
    exists (" " :: tl). destruct space_tight. split_and!; [|by apply Forall_cons|by apply Forall_cons|done].
    rewrite join_empty_app, (join_empty_cons " " tl), <- Hj. done.
  - destruct (IH (w ++ [c]) Hl) as (tl & Hj & Ht & Ho & Hn). exists (c :: tl).
    split_and!; [by rewrite Hj, <- app_assoc | by apply Forall_cons | apply Forall_cons; split; [by right|done] |].
    intros Hw. destruct (Hn Hw) as [Hbad _]. by destruct w.
Qed.

Lemma collapsed_chars s :
  let cs := chars (join " " (split_whitespace s)) in good cs /\ Forall one_line cs.
Proof.
  unfold split_whitespace. pose proof (chars_good s) as Hg. destruct (chars s) as [|c l]; [done|].
  destruct Hg as [Hc Hl]. cbn [words app]. destruct (str_mem c white_space) eqn:Ew; cbn zeta.
  - destruct (words_join l [] Hl) as (tl & -> & Ht & Ho & _). cbn [app].
    rewrite chars_join by (by apply good_tight). split; [by apply good_tight|done].
  - destruct (words_join l [c] Hl) as (tl & -> & Ht & Ho & _). cbn [app].
    rewrite chars_join by done. split; [done|]. apply Forall_cons. split; [by right|done].
Qed.

(** ** Markers and the ellipsis *)

Definition ascii_only (s : string) : bool := str_all is_ascii s.
Definition no_ascii (s : string) : bool := str_all (fun a => negb (is_ascii a)) s.

Lemma starts_with_beyond s t p : no_ascii t = true -> ascii_only p = true ->
  starts_with (s +:+ t) p = true -> starts_with s p = true.
Proof.
  intros Ht Hp. revert s Hp. induction p as [|a p IH]; intros s Hp; [by destruct s|].
  apply andb_true_iff in Hp as [Ha Hp]. unfold starts_with. destruct s as [|b s].
  - cbn. destruct t as [|b t]; [done|]. cbn. apply andb_true_iff in Ht as [Hb _].
    destruct (Ascii.eqb_spec a b) as [->|]; [|done]. by rewrite Ha in Hb.
  - cbn. destruct (Ascii.eqb a b); [|done]. apply IH. done.
Qed.

Lemma contains_beyond s t p : no_ascii t = true -> ascii_only p = true -> p <> "" ->
  contains (s +:+ t) p = true -> contains s p = true.
Proof.
  intros Ht Hp Hne. induction s as [|a s IH].
  - change ("" +:+ t) with t. intros H. exfalso. induction t as [|b t IH].
    + destruct p; [done|]. done.
    + apply andb_true_iff in Ht as [Hb Ht]. cbn in H. apply orb_true_iff in H as [H|H]; [|by apply IH].
      destruct p as [|c p]; [done|]. apply andb_true_iff in Hp as [Hc _]. unfold starts_with in H. cbn in H.
      destruct (Ascii.eqb_spec c b) as [->|]; [by rewrite Hc in Hb|done].
  - change (String a s +:+ t) with (String a (s +:+ t)). cbn [contains]. rewrite !orb_true_iff.
    intros [H|H]; [left|right; by apply IH].
    change (String a (s +:+ t)) with (String a s +:+ t) in H. by apply (starts_with_beyond _ t).
Qed.

Lemma contains_prefix s t p : contains s p = true -> contains (s +:+ t) p = true.
Proof.
  induction s as [|a s IH].
  - cbn. destruct p; [by destruct t|done].
  - change (String a s +:+ t) with (String a (s +:+ t)). cbn [contains]. rewrite !orb_true_iff.
    intros [H|H]; [left|right; by apply IH]. apply starts_with_true in H as [rest Hr].
    apply starts_with_true. exists (rest +:+ t). rewrite <- str_app_assoc, <- Hr. done.
Qed.

Lemma lower_app s t : to_ascii_lowercase (s +:+ t) = to_ascii_lowercase s +:+ to_ascii_lowercase t.
Proof. induction s as [|a s IH]; [done|]. change (String a s +:+ t) with (String a (s +:+ t)). cbn. by rewrite IH. Qed.
Lemma filter_app f s t : str_filter f (s +:+ t) = str_filter f s +:+ str_filter f t.
Proof.
  induction s as [|a s IH]; [done|]. change (String a s +:+ t) with (String a (s +:+ t)). cbn. rewrite IH.
  by destruct (f a).
Qed.

(** A message without the fixed markers of a credential. *)
Definition unmarked (m : string) : Prop :=
  contains_one_of (to_ascii_lowercase m) secret_markers = false /\
  contains_one_of (str_filter is_ascii_alphanumeric (to_ascii_lowercase m)) compact_markers = false.

Lemma contains_one_of_less s t l :
  (forall p, p ∈ l -> contains s p = true -> contains t p = true) ->
  contains_one_of t l = false -> contains_one_of s l = false.
Proof.
  intros H Ht. apply existsb_false, Forall_forall. intros p Hp. apply not_true_is_false. intros Hs.
  apply existsb_false in Ht. rewrite Forall_forall in Ht. specialize (Ht p Hp). cbn in Ht. by rewrite (H p Hp Hs) in Ht.
Qed.

Lemma markers_ascii p : p ∈ secret_markers ++ compact_markers -> ascii_only p = true /\ p <> "".
Proof.
  assert (H : Forall (fun p => ascii_only p = true /\ p <> "") (secret_markers ++ compact_markers)).
  { repeat constructor; try done. }
  by apply (proj1 (Forall_forall _ _) H).
Qed.

Lemma unmarked_excerpt x rest tail : unmarked (x +:+ rest) ->
  no_ascii (to_ascii_lowercase tail) = true -> str_filter is_ascii_alphanumeric (to_ascii_lowercase tail) = "" ->
  unmarked (x +:+ tail).
Proof.
  intros [H1 H2] Ht Hf. rewrite lower_app in H1. rewrite lower_app, filter_app in H2. split.
  - rewrite lower_app. eapply contains_one_of_less; [|exact H1]. intros p Hp Hc.
    destruct (markers_ascii p) as [Ha Hn]; [apply elem_of_app; by left|].
    apply contains_prefix. by eapply contains_beyond.
  - rewrite lower_app, filter_app, Hf, str_app_nil_r. eapply contains_one_of_less; [|exact H2].
    intros p Hp Hc. by apply contains_prefix.
Qed.

(** ** Access keys *)

(** An access key id in the text, with no letter or digit on either side. *)
Definition bare_access_key (m : string) : Prop :=
  exists before key after, m = before +:+ key +:+ after
  /\ len key = ACCESS_KEY_ID_LEN
  /\ (eq_ignore_ascii_case (str_take 4 key) "AKIA" = true \/ eq_ignore_ascii_case (str_take 4 key) "ASIA" = true)
  /\ str_all is_ascii_alphanumeric (str_drop 4 key) = true
  /\ (forall b a, before = b +:+ String a "" -> is_ascii_alphanumeric a = false)
  /\ starts_alphanumeric after = false.

Lemma access_key_at_spec before rest : access_key_at before rest = true <->
  exists key after, rest = key +:+ after /\ len key = ACCESS_KEY_ID_LEN
  /\ (eq_ignore_ascii_case (str_take 4 key) "AKIA" = true \/ eq_ignore_ascii_case (str_take 4 key) "ASIA" = true)
  /\ str_all is_ascii_alphanumeric (str_drop 4 key) = true
  /\ match before with Some a => is_ascii_alphanumeric a = false | None => True end
  /\ starts_alphanumeric after = false.
Proof.
  unfold access_key_at. rewrite !andb_true_iff, orb_true_iff, Nat.eqb_eq, negb_true_iff. split.
  - intros [[[[Hlen Hp] Hb] Hbefore] Ha].
    exists (str_take ACCESS_KEY_ID_LEN rest), (str_drop ACCESS_KEY_ID_LEN rest).
    rewrite take_drop_str. split_and!; try done. destruct before; [by apply negb_true_iff|done].
  - intros (key & after & -> & Hlen & Hp & Hb & Hbefore & Ha).
    rewrite <- Hlen, take_app_str, drop_app_str. split_and!; try done. destruct before; [by apply negb_true_iff|done].
Qed.

Lemma access_key_in_spec before rest : access_key_in before rest = true <->
  exists skipped tail, rest = skipped +:+ tail
  /\ access_key_at (match rev (String.list_ascii_of_string skipped) with a :: _ => Some a | [] => before end) tail = true.
Proof.
  revert before. induction rest as [|a rest IH]; intros before.
  - cbn [access_key_in]. rewrite orb_false_r. split; [intros H; by exists "", ""|].
    intros ([|b s] & tail & Heq & H); [|done]. cbn in Heq. by subst.
  - cbn [access_key_in]. rewrite orb_true_iff, IH. split.
    + intros [H|(s & tail & -> & H)]; [by exists "", (String a rest)|].
      exists (String a s), tail. split; [done|]. cbn [String.list_ascii_of_string rev].
      by destruct (rev (String.list_ascii_of_string s)).
    + intros ([|b s] & tail & Heq & H); [left; cbn in Heq; by subst|]. right. injection Heq as <- ->.
      exists s, tail. split; [done|]. cbn [String.list_ascii_of_string rev] in H.
      by destruct (rev (String.list_ascii_of_string s)).
Qed.

Lemma last_of_string s : match rev (String.list_ascii_of_string s) with
                         | a :: _ => exists b, s = b +:+ String a ""
                         | [] => s = "" end.
Proof.
  induction s as [|c s IH]; [done|]. cbn [String.list_ascii_of_string rev].
  destruct (rev (String.list_ascii_of_string s)) as [|a l]; cbn [app].
  - subst. by exists "".
  - destruct IH as [b ->]. by exists (String c b).
Qed.

Lemma snoc_inj b a b' a' : b +:+ String a "" = b' +:+ String a' "" -> a = a'.
Proof.
  revert b'. induction b as [|c b IH]; intros [|c' b'] H; cbn in H; injection H.
  - done.
  - intros H2 _. by destruct b'.
  - intros H2 _. by destruct b.
  - intros H2 _. by apply (IH b').
Qed.

(** The scan finds exactly the bare access key ids. *)
Lemma contains_aws_access_key_id_exact m : contains_aws_access_key_id m = true <-> bare_access_key m.
Proof.
  unfold contains_aws_access_key_id, bare_access_key. rewrite access_key_in_spec. split.
  - intros (before & tail & -> & H). apply access_key_at_spec in H as (key & after & -> & ? & ? & ? & Hb & ?).
    exists before, key, after. split_and!; try done. intros b a ->.
    pose proof (last_of_string (b +:+ String a "")) as Hl.
    destruct (rev _) as [|a' l]; [by destruct b|]. destruct Hl as [b' Hl]. by rewrite (snoc_inj _ _ _ _ Hl).
  - intros (before & key & after & -> & ? & ? & ? & Hb & ?). exists before, (key +:+ after). split; [done|].
    apply access_key_at_spec. exists key, after. split_and!; try done.
    pose proof (last_of_string before) as Hl. destruct (rev _) as [|a l]; [done|]. destruct Hl as [b ->]. by apply (Hb b).
Qed.

Section Texts.
Context {Number : Type} `{HJ : SerdeJson Number} `{HT : !SerdeJsonText Number}.

(** What a client may see of a provider's message. *)
Record shown (m : string) : Prop := {
  shown_short : length (chars m) <= S MAX_ERROR_MESSAGE_CHARS;
  shown_one_line : Forall one_line (chars m);
  shown_unmarked : unmarked m;
  shown_no_key : length (chars m) <= MAX_ERROR_MESSAGE_CHARS -> ~ bare_access_key m }.

Lemma unmarked_of m : contains_secret_marker m = false -> unmarked m /\ contains_aws_access_key_id m = false.
Proof.
  unfold contains_secret_marker, unmarked. cbv zeta.
  destruct (contains_one_of (to_ascii_lowercase m) secret_markers); [done|].
  by destruct (contains_one_of (str_filter is_ascii_alphanumeric (to_ascii_lowercase m)) compact_markers).
Qed.

Lemma ellipsis_tight : tight ellipsis /\ one_line ellipsis.
Proof. split; [by vm_compute | right; by vm_compute]. Qed.

Lemma safe_message_shown said m : safe_error_message said = Some m -> shown m.
Proof.
  unfold safe_error_message. cbv zeta. destruct (is_empty _ || _) eqn:E; [done|]. intros Hm.
  apply orb_false_iff in E as [_ E]. apply unmarked_of in E as [Hu Hk].
  destruct (collapsed_chars said) as [Hg Ho]. set (s := join " " (split_whitespace said)) in *.
  pose proof (join_chars s) as Hs.
  destruct (Nat.ltb_spec MAX_ERROR_MESSAGE_CHARS (length (chars s))) as [Hlong|Hfit]; injection Hm as <-.
  - destruct ellipsis_tight as [Het Heo].
    assert (Hc : chars (join "" (take MAX_ERROR_MESSAGE_CHARS (chars s)) +:+ ellipsis) = take MAX_ERROR_MESSAGE_CHARS (chars s) ++ [ellipsis]).
    { rewrite <- (chars_join (take MAX_ERROR_MESSAGE_CHARS (chars s) ++ [ellipsis])).
      - f_equal. rewrite join_empty_app. done.
      - pose proof (good_take MAX_ERROR_MESSAGE_CHARS _ Hg) as Hgt. destruct (take MAX_ERROR_MESSAGE_CHARS (chars s)) as [|c l]; [by split; [apply tight_block|]|].
        destruct Hgt as [Hc Hl]. split; [done|]. apply Forall_app. split; [done|]. by apply Forall_singleton. }
    split; rewrite ?Hc.
    + rewrite length_app, length_take. cbn [length]. lia.
    + apply Forall_app. split; [by apply Forall_take | by apply Forall_singleton].
    + apply (unmarked_excerpt _ (join "" (drop MAX_ERROR_MESSAGE_CHARS (chars s)))); [|by vm_compute..].
      by rewrite <- join_empty_app, take_drop, Hs.
    + rewrite length_app, length_take. cbn [length]. intros Hle. exfalso. lia.
  - rewrite take_ge, Hs by done. split; auto. intros _ Hb%contains_aws_access_key_id_exact. by rewrite Hb in Hk.
Qed.

(** C31: Whatever status and body a provider answers an error with, the text
    [safe_http_error] makes of it is the provider's name and status, a short lower-case token as its code, and of
    its message at most one short line that holds none of the markers of a
    credential, not even across the cut that shortens it, and, uncut, no bare
    access key id.  A denial that the model gateway marks as its own does not go
    this way: [classify_gateway_denial] shows its message as it is. *)
Theorem provider_text_is_safe provider status body :
  exists code message,
    safe_http_error provider status body
    = provider +:+ " returned " +:+ show_status status
      +:+ match code with Some c => " (" +:+ c +:+ ")" | None => "" end
      +:+ match message with Some m => ": " +:+ m | None => "" end
    /\ (forall c, code = Some c -> safe_error_code c = true)
    /\ (forall m, message = Some m -> shown m).
Proof.
  unfold safe_http_error. do 2 eexists. split; [reflexivity|]. split.
  - intros c. destruct (and_then (json_from_str body) provider_error_code) as [c'|]; [|done]. cbn.
    by destruct (safe_error_code c') eqn:E; [intros [= <-]|].
  - intros m. destruct (match and_then (json_from_str body) provider_error_code with
                        | Some c => safe_error_code c | None => true end); [|done].
    destruct (and_then (json_from_str body) provider_error_message) as [said|]; [|done].
    apply safe_message_shown.
Qed.
End Texts.

Open Scope Z_scope.

(** [record_classified_failure]: the retry it asks for, [None] where the
    schedule's date arithmetic panics. *)
Definition classified_failure_retry `{Chrono} `{MulF64} (s : RetrySchedule) (a : RetryAttempt) (code detail : string)
    (hint : option Z) (now : Z) : option TurnFailureRetry :=
  if retries_may_succeed (from_failure code detail) then
    match next_attempt_at s a hint now with
    | Some at_ => Some (match at_ with Some at_ => RetryAt at_ | None => Permanent end)
    | None => None
    end
  else Some Permanent.

(** The schedule of the turn worker (leg.rs, [LegDriverConfig::default]) *)
Definition leg_schedule : RetrySchedule := MkSchedule (250 * 1000000) (100 * SECOND) (600 * SECOND).

(** ** The classification of an HTTP error *)

Section Classified.
Context {Number : Type} `{HJ : SerdeJson Number} `{HT : !SerdeJsonText Number}.

Definition said_code (body : string) : string :=
  default "" (and_then (json_from_str body) provider_error_classification_code).
Definition said_message (body : string) : string :=
  default "" (and_then (json_from_str body) provider_error_message).

(** Whether waiting can help, read off the status and what the body says. *)
Definition waiting_helps (status : Z) (body : string) (hint : option Z) : bool :=
  let code := said_code body in
  let too_long := (status =? 413)
    || (is_one_of status [400; 422]
        && (str_mem code ["context_length_exceeded"; "request_too_large"]
            || context_overflow_message (said_message body))) in
  let credential := (status =? 401) || str_mem code ["authentication_error"; "invalid_api_key"] in
  let gone := is_one_of status [402; 403] || String.eqb code "model_not_found" || (status =? 404) in
  let throttled := (status =? 429) || String.eqb code "rate_limit_error"
    || (is_one_of status [502; 503; 504; 529] || str_mem code ["overloaded_error"; "server_overloaded"]) in
  let rejected := str_mem code ["content_policy_violation"; "content_filter"; "refusal"]
    || ((status =? 400) || (status =? 422) || String.eqb code "invalid_request_error") in
  negb too_long && negb credential
  && (((status =? 402) && bool_decide (is_Some hint)) || (negb gone && (throttled || negb rejected))).

Definition category_of (e : AgentError) : TurnFailureCategory := from_failure (kind e) (error_to_string e).

Lemma retried_status provider status body hint :
  retries_may_succeed (category_of (classify_provider_error provider status body hint))
  = waiting_helps status body hint.
Proof.
  unfold classify_provider_error, waiting_helps. fold (said_code body) (said_message body). cbv zeta.
  generalize (safe_http_error provider status body) as safe. intros safe.
  generalize (names_missing_model (said_message body)) as missing. intros missing.
  destruct (_ || (is_one_of status [400; 422] && _)); [done|].
  destruct (_ || str_mem _ ["authentication_error"; "invalid_api_key"]); [done|].
  destruct (_ && bool_decide _); [done|]. destruct (is_one_of status [402; 403]); [done|].
  destruct (String.eqb _ "model_not_found"); [done|].
  destruct (status =? 404); [by destruct missing|]. cbn [andb orb negb].
  destruct ((status =? 429) || _); [done|]. destruct (_ || str_mem _ ["overloaded_error"; _]); [done|].
  destruct (str_mem _ ["content_policy_violation"; _; _]); [done|]. by destruct (_ || _).
Qed.

(** Only a throttled turn carries the provider's wait. *)
Lemma classified_hint provider status body hint h :
  retry_after (classify_provider_error provider status body hint) = Some h -> hint = Some h.
Proof.
  unfold classify_provider_error. cbv zeta.
  generalize (safe_http_error provider status body) as safe. intros safe.
  repeat match goal with |- context [if ?b then _ else _] => destruct b end; cbn; done.
Qed.
End Classified.

(** ** When the schedule has room *)

Definition has_room `{Chrono} (s : RetrySchedule) (a : RetryAttempt) (wait now : Z) : bool :=
  (attempt_count a <? max_attempts a) && (now <? deadline s a) && (now + wait <=? deadline s a)
  && (wait <=? TIMEDELTA_MAX).

Section Scheduled.
Context `{Chrono} `{MulF64} (s : RetrySchedule) (a : RetryAttempt).
Context (Hi : 0 < initial s) (Hm : initial s <= max_delay s <= 2 ^ 50).
Context (He : envelope s <= TIMEDELTA_MAX) (Hd : deadline s a <= TIME_MAX).

Lemma next_attempt_exact hint now :
  next_attempt_at s a hint now
  = Some (if has_room s a (wanted s a hint) now then Some (now + wanted s a hint) else None).
Proof.
  destruct (retry_is_scheduled_inside_the_envelope s a hint now Hi Hm He Hd) as (r & Hr & Hiff & _).
  unfold next_attempt_at. rewrite Hr. cbn [mbind option_bind]. unfold has_room. destruct r as [d|].
  - destruct (proj1 (Hiff d) eq_refl) as (-> & Hmax & Ha & Hn & Hw). cbn.
    rewrite (proj2 (Z.ltb_lt _ _) Ha), (proj2 (Z.ltb_lt _ _) Hn), (proj2 (Z.leb_le _ _) Hw), (proj2 (Z.leb_le _ _) Hmax).
    cbn [andb]. unfold from_std. rewrite (proj2 (Z.leb_le _ _) Hmax). cbn. unfold checked_add.
    assert (now + wanted s a hint <= TIME_MAX) as Hle by (etransitivity; [exact Hw | exact Hd]).
    by rewrite (proj2 (Z.leb_le _ _) Hle).
  - destruct (_ && _) eqn:E; [|done]. apply andb_true_iff in E as [E Hmax].
    apply andb_true_iff in E as [E Hw]. apply andb_true_iff in E as [Ha Hn].
    apply Z.ltb_lt in Ha, Hn. apply Z.leb_le in Hw, Hmax.
    by discriminate (proj2 (Hiff (wanted s a hint)) ltac:(auto)).
Qed.

Lemma wanted_at_least hint : initial s / 2 <= wanted s a hint.
Proof.
  pose proof (wanted_bounds s a hint Hi Hm) as Hw. destruct hint as [h|].
  { pose proof (Z.div_le_upper_bound (initial s) 2 (initial s) ltac:(lia) ltac:(lia)). lia. }
  destruct Hw as [[Hw _] [Hb _]]. pose proof (Z.div_le_mono _ _ 2 ltac:(lia) Hb). lia.
Qed.
End Scheduled.

(** A turn whose provider answered with an error is tried again exactly
    when waiting can help and the schedule has room, and never at a bad moment:
    the decision panics for no body and no [Retry-After]; the next attempt is
    no sooner than the provider asked and than half the schedule's first wait,
    and no later than its envelope. *)
Lemma http_failure_is_retried_in_time {Number : Type} `{SerdeJsonText Number} `{Chrono} `{MulF64}
    s a provider status body hint now
    (Hi : 0 < initial s) (Hm : initial s <= max_delay s <= 2 ^ 50)
    (He : envelope s <= TIMEDELTA_MAX) (Hd : deadline s a <= TIME_MAX) :
  let e := classify_provider_error provider status body hint in
  let wait := wanted s a (retry_after e) in
  classified_failure_retry s a (kind e) (error_to_string e) (retry_after e) now
  = Some (if waiting_helps status body hint && has_room s a wait now then RetryAt (now + wait) else Permanent)
  /\ initial s / 2 <= wait
  /\ (forall h, retry_after e = Some h -> hint = Some h /\ h <= wait)
  /\ (has_room s a wait now = true -> now + wait <= deadline s a).
Proof.
  cbv zeta. split_and!.
  - unfold classified_failure_retry.
    change (from_failure _ _) with (category_of (classify_provider_error provider status body hint)).
    rewrite retried_status. destruct (waiting_helps status body hint); [|done].
    rewrite next_attempt_exact by done. by destruct (has_room _ _ _ _).
  - by apply wanted_at_least.
  - intros h Hh. split; [by apply (classified_hint provider status body)|].
    rewrite Hh. cbn [wanted]. lia.
  - unfold has_room. rewrite !andb_true_iff, !Z.leb_le. lia.
Qed.

(** An error as a stream hands it on: a provider's failure without the wait it
    asked for, anything else as the text it displays. *)
Definition as_carried (e : AgentError) : AgentError :=
  match e with
  | RateLimited f => RateLimited (failure_of (failure_message f))
  | Overloaded f => Overloaded (failure_of (failure_message f))
  | Provider _ | Authentication _ | AccessDenied _ | InvalidRequest _ | Refusal _ | PromptTooLong _
  | ModelUnavailable _ | EndpointNotFound _ => e
  | SignInRequired _ => Authentication (error_to_string e)
  | _ => Provider (error_to_string e)
  end.

(** C39: A provider's failure survives the stream that carries it: what a
    consumer rebuilds is the same error with the same words, so the same kind,
    category and advice, only without the provider's wait; and a second trip
    changes nothing. *)
Theorem stream_failure_round_trips e :
  let rebuilt := into_agent_error (from_error e) in
  rebuilt = as_carried e
  /\ retry_after rebuilt = None
  /\ into_agent_error (from_error rebuilt) = rebuilt
  /\ (provider_failure_detail (kind e) "words" = Some "words" ->
      kind rebuilt = kind e /\ category_of rebuilt = category_of e).
Proof. destruct e; vm_compute; split_and!; done. Qed.
