(* ===== verification/HarnessLines.v ===== *)
(** * Lines of an engine's output, whole and cut

    [StreamLineBuffer] (tidebreak-harness, budget.rs): chunks of an engine's
    output in, complete lines out.  A line longer than the cap is cut at the
    cap, at a character, and marked; what follows it on the same line is
    counted and dropped.  [CutLine::recover] (oversized.rs) reads such a line
    up to the cut: the value the cut split is left out and the open objects and
    arrays are closed.  The reader's position in the text is the bytes that are
    left of it.  serde_json parses the single strings and literals; its two
    entry points are the class [SerdeJson]. *)
From S2P Require Import Prelude RustStr Json RouterSse.

Definition DEFAULT_CHUNK_SIZE : nat := 8192.
Definition DEFAULT_CHUNKS_PER_TICK : nat := 8.
Definition DEFAULT_MAX_PARTIAL_LINE : nat := N.to_nat (256 * 1024).

Record StreamBudget : Type := MkBudget {
  chunk_size : nat; max_chunks_per_tick : nat; max_partial_line : nat }.
Definition StreamBudget_default : StreamBudget :=
  MkBudget DEFAULT_CHUNK_SIZE DEFAULT_CHUNKS_PER_TICK DEFAULT_MAX_PARTIAL_LINE.

Record StreamLine : Type := MkLine { text : string; cut : bool }.
Definition whole (t : string) : StreamLine := MkLine t false.

(** [u64] with the wrap-around of a release build *)
Definition add_u64 (a b : Z) : Z := ((a + b) mod 2 ^ 64)%Z.

Record BudgetTick : Type := MkTick { tick_lines : list StreamLine; tick_overflow : Z }.
Record StreamLineBuffer : Type := MkBuffer {
  pending : bytes; overflowing : bool; overflow_chunks : Z }.
Definition buffer_new : StreamLineBuffer := MkBuffer [] false 0.

(** [rest.iter().position(|byte| *byte == b'\n')] and the two slices *)
Fixpoint split_at_newline (rest : bytes) : bytes * option bytes :=
  match rest with
  | [] => ([], None)
  | a :: rest =>
      if Ascii.eqb a LF then ([], Some rest)
      else let '(segment, tail) := split_at_newline rest in (a :: segment, tail)
  end.

(** [truncate(error.valid_up_to())] when the error is a character the end cuts *)
Definition trim_incomplete (b : bytes) : bytes :=
  match utf8_error b with
  | Some (valid_up_to, None) => take valid_up_to b
  | _ => b
  end.

(** [line.pop()] when the line ends with a carriage return *)
Definition pop_cr (b : bytes) : bytes :=
  match last b with
  | Some a => if Ascii.eqb a CR then removelast b else b
  | None => b
  end.

(** The bytes of one segment, and whether they overflowed. *)
Definition hold (cap : nat) (buf : StreamLineBuffer) (segment : bytes) : StreamLineBuffer * bool :=
  if overflowing buf then
    match segment with
    | [] => (buf, false)
    | _ => (MkBuffer (pending buf) true (add_u64 (overflow_chunks buf) 1), true)
    end
  else
    let room := cap - length (pending buf) in
    if room <? length segment
    then (MkBuffer (trim_incomplete (pending buf ++ take room segment)) true
            (add_u64 (overflow_chunks buf) 1), true)
    else (MkBuffer (pending buf ++ segment) false (overflow_chunks buf), false).

Definition finish_line (buf : StreamLineBuffer) : StreamLine :=
  MkLine (from_utf8_lossy (pop_cr (pending buf))) (overflowing buf).

Fixpoint line_loop (fuel : nat) (cap : nat) (buf : StreamLineBuffer) (rest : bytes)
  : StreamLineBuffer * list StreamLine * Z :=
  match fuel, rest with
  | O, _ | _, [] => (buf, [], 0%Z)
  | S fuel, _ =>
      let '(segment, tail) := split_at_newline rest in
      let '(buf, over) := hold cap buf segment in
      let count := if over then 1%Z else 0%Z in
      match tail with
      | Some tail =>
          let line := finish_line buf in
          let '(buf, lines, more) :=
            line_loop fuel cap (MkBuffer [] false (overflow_chunks buf)) tail in
          (buf, line :: lines, add_u64 count more)
      | None => (buf, [], count)
      end
  end.

Definition push_line (budget : StreamBudget) (buf : StreamLineBuffer) (chunk : bytes)
  : StreamLineBuffer * BudgetTick :=
  let '(buf, lines, over) := line_loop (length chunk) (max_partial_line budget) buf chunk in
  (buf, MkTick lines over).

Definition pending_text (buf : StreamLineBuffer) : string := from_utf8_lossy (pending buf).
Definition pending_line (buf : StreamLineBuffer) : option StreamLine :=
  match pending buf with [] => None | _ => Some (MkLine (pending_text buf) (overflowing buf)) end.

(** An engine's stream: every chunk it wrote. *)
Fixpoint push_lines (budget : StreamBudget) (buf : StreamLineBuffer) (chunks : list bytes)
  : StreamLineBuffer * list StreamLine :=
  match chunks with
  | [] => (buf, [])
  | chunk :: chunks =>
      let '(buf, tick) := push_line budget buf chunk in
      let '(buf, lines) := push_lines budget buf chunks in
      (buf, tick_lines tick ++ lines)
  end.

(** ** The reference: the whole stream at once *)

(** The lines a newline ends, and what follows the last newline. *)
Fixpoint stream_lines (b : bytes) : list bytes * bytes :=
  match b with
  | [] => ([], [])
  | a :: b =>
      let '(ls, r) := stream_lines b in
      if Ascii.eqb a LF then ([] :: ls, r)
      else match ls with
           | [] => ([], a :: r)
           | l :: ls => ((a :: l) :: ls, r)
           end
  end.

(** What the cap leaves of a line, and the line the parser sees. *)
Definition capped (cap : nat) (line : bytes) : bytes :=
  if length line <=? cap then line else trim_incomplete (take cap line).
Definition line_of (cap : nat) (line : bytes) : StreamLine :=
  MkLine (from_utf8_lossy (pop_cr (capped cap line))) (cap <? length line).

(** ** Facts *)

Section Lines.
Context (cap : nat).

(** A buffer that holds the bytes [line] of an unfinished line. *)
Definition holds (buf : StreamLineBuffer) (line : bytes) : Prop :=
  pending buf = capped cap line /\ overflowing buf = (cap <? length line).

Lemma holds_new : holds buffer_new [].
Proof. by split. Qed.

Lemma hold_holds buf line segment :
  holds buf line -> holds (hold cap buf segment).1 (line ++ segment).
Proof.
  intros [Hp Ho]. unfold hold, holds, capped in *. rewrite Ho. rewrite length_app.
  destruct (Nat.ltb_spec cap (length line)) as [Hover|Hfits].
  - assert (length line <=? cap = false) as Hle by (by apply Nat.leb_gt). rewrite Hle in Hp.
    replace (length line + length segment <=? cap) with false by (symmetry; apply Nat.leb_gt; lia).
    replace (cap <? length line + length segment) with true by (symmetry; apply Nat.ltb_lt; lia).
    rewrite take_app_le by lia. destruct segment; cbn; by rewrite ?Ho.
  - assert (length line <=? cap = true) as Hle by (by apply Nat.leb_le). rewrite Hle in Hp. rewrite Hp.
    destruct (Nat.ltb_spec (cap - length line) (length segment)); cbn [fst pending overflowing].
    + replace (length line + length segment <=? cap) with false by (symmetry; apply Nat.leb_gt; lia).
      replace (cap <? length line + length segment) with true by (symmetry; apply Nat.ltb_lt; lia).
      by rewrite take_app_ge by lia.
    + replace (length line + length segment <=? cap) with true by (symmetry; apply Nat.leb_le; lia).
      by replace (cap <? length line + length segment) with false by (symmetry; apply Nat.ltb_ge; lia).
Qed.

Lemma holds_line buf line : holds buf line -> finish_line buf = line_of cap line.
Proof. intros [Hp Ho]. unfold finish_line, line_of. by rewrite Hp, Ho. Qed.

Lemma split_newline b :
  let '(segment, tail) := split_at_newline b in
  match tail with
  | Some tail => length tail < length b
      /\ stream_lines b = (segment :: (stream_lines tail).1, (stream_lines tail).2)
      /\ b = segment ++ LF :: tail
  | None => stream_lines b = ([], segment) /\ segment = b
  end.
Proof.
  induction b as [|a b IH]; [done|]. cbn [split_at_newline stream_lines].
  destruct (Ascii.eqb_spec a LF) as [->|].
  - destruct (stream_lines b). split_and!; [cbn; lia | done | done].
  - destruct (split_at_newline b) as [segment [tail|]].
    + destruct IH as (? & -> & ->). split_and!; [cbn; lia | done | done].
    + destruct IH as (-> & ->). done.
Qed.

(** Lines of a stream that continues an unfinished line. *)
Definition continued (line b : bytes) : list bytes * bytes :=
  match stream_lines b with
  | ([], r) => ([], line ++ r)
  | (l :: ls, r) => ((line ++ l) :: ls, r)
  end.

Lemma line_loop_lines fuel buf line b : length b <= fuel -> holds buf line ->
  let '(buf', ls, over) := line_loop fuel cap buf b in
  ls = line_of cap <$> (continued line b).1 /\ holds buf' (continued line b).2.
Proof.
  revert buf line b. induction fuel as [|fuel IH]; intros buf line b Hfuel Hh.
  { destruct b; [|cbn in Hfuel; lia]. cbn. by rewrite app_nil_r. }
  destruct (decide (b = [])) as [->|Hne]; [cbn; by rewrite app_nil_r|].
  destruct b as [|a b]; [done|]. cbn [line_loop]. pose proof (split_newline (a :: b)) as Hs.
  unfold continued. destruct (split_at_newline (a :: b)) as [segment [tail|]].
  - destruct Hs as (Hlen & -> & _). pose proof (hold_holds buf line segment Hh) as Hh'.
    destruct (hold cap buf segment) as [buf1 over]. cbn [fst] in Hh'.
    specialize (IH (MkBuffer [] false (overflow_chunks buf1)) [] tail ltac:(cbn in *; lia) ltac:(by split)).
    destruct (line_loop fuel cap _ tail) as [[buf2 ls] more]. destruct IH as [-> Hh2].
    rewrite (holds_line _ _ Hh'). unfold continued in *. cbn [fst snd].
    destruct (stream_lines tail) as [[|l ls'] r]; done.
  - destruct Hs as (-> & ->). pose proof (hold_holds buf line (a :: b) Hh) as Hh'.
    by destruct (hold cap buf (a :: b)) as [buf1 over].
Qed.

Lemma continued_app line b c :
  continued line (b ++ c) =
    let '(ls, r) := continued line b in let '(ls', r') := continued r c in (ls ++ ls', r').
Proof.
  assert (Hs : stream_lines (b ++ c) = let '(ls, r) := stream_lines b in
                 let '(ls', r') := continued r c in (ls ++ ls', r')).
  { induction b as [|a b IH]; cbn [app stream_lines].
    - unfold continued. destruct (stream_lines c) as [[|l ls] r]; done.
    - rewrite IH. destruct (stream_lines b) as [ls r]. unfold continued.
      destruct (stream_lines c) as [ls' r'].
      destruct (Ascii.eqb a LF), ls as [|l ls], ls' as [|l' ls']; done. }
  unfold continued at 1 2. rewrite Hs. destruct (stream_lines b) as [ls r]. unfold continued.
  destruct (stream_lines c) as [ls' r']. destruct ls as [|l ls], ls' as [|l' ls']; cbn; by rewrite ?app_assoc.
Qed.
End Lines.

Lemma push_lines_lines budget buf line chunks : holds (max_partial_line budget) buf line ->
  let '(buf', ls) := push_lines budget buf chunks in
  ls = line_of (max_partial_line budget) <$> (continued line (concat chunks)).1
  /\ holds (max_partial_line budget) buf' (continued line (concat chunks)).2.
Proof.
  revert buf line. induction chunks as [|chunk chunks IH]; intros buf line Hh; cbn [push_lines concat].
  { unfold continued. cbn. by rewrite app_nil_r. }
  unfold push_line.
  pose proof (line_loop_lines _ (length chunk) buf line chunk (le_n _) Hh) as Hl.
  destruct (line_loop _ _ buf chunk) as [[buf1 ls] over]. destruct Hl as [-> Hh1].
  specialize (IH buf1 _ Hh1). destruct (push_lines budget buf1 chunks) as [buf2 ls'].
  destruct IH as [-> Hh2]. rewrite continued_app. cbn [tick_lines].
  destruct (continued line chunk) as [ls r]. cbn [fst snd] in *.
  destruct (continued r (concat chunks)) as [ls' r']. cbn [fst snd] in *. by rewrite fmap_app.
Qed.

(** ** What the cap leaves of a line *)

Lemma trim_incomplete_le b : length (trim_incomplete b) <= length b.
Proof.
  unfold trim_incomplete. destruct (utf8_error b) as [[u [e|]]|]; [done| |done].
  rewrite length_take. lia.
Qed.

Lemma capped_le cap line : length (capped cap line) <= cap.
Proof.
  unfold capped. destruct (Nat.leb_spec (length line) cap); [done|].
  pose proof (trim_incomplete_le (take cap line)) as Hle. rewrite length_take in Hle. lia.
Qed.

Lemma trim_incomplete_prefix b : trim_incomplete b `prefix_of` b.
Proof.
  unfold trim_incomplete. destruct (utf8_error b) as [[u [e|]]|]; [done| |done]. apply prefix_take.
Qed.

Lemma capped_prefix cap line : capped cap line `prefix_of` line.
Proof.
  unfold capped. destruct (length line <=? cap); [done|].
  etransitivity; [apply trim_incomplete_prefix | apply prefix_take].
Qed.

Lemma trim_incomplete_valid b cap : valid b -> cap <= length b ->
  valid (trim_incomplete (take cap b)) /\ cap <= length (trim_incomplete (take cap b)) + 3.
Proof.
  intros Hv Hc. pose proof (utf8_error_take b cap Hv) as Ht. unfold trim_incomplete.
  destruct (utf8_error (take cap b)) as [[u e]|] eqn:He.
  - destruct Ht as (-> & Hu & Hlen). destruct (valid_prefix _ _ _ He) as [Hvu _]. split; [done|].
    rewrite !length_take. lia.
  - split; [done|]. rewrite length_take. lia.
Qed.

Lemma capped_valid cap line : valid line ->
  valid (capped cap line) /\ Nat.min cap (length line) <= length (capped cap line) + 3.
Proof.
  intros Hv. unfold capped. destruct (Nat.leb_spec (length line) cap); [split; [done|lia]|].
  destruct (trim_incomplete_valid line cap Hv) as [??]; [lia|]. split; [done|lia].
Qed.

(** ** Theorems *)

(** C40: What an engine's stream parses to does not depend on how the pipe cut
    it: the lines handed out are those of the whole stream, each without its
    carriage return, cut at the cap's last whole character and marked when it
    is longer than the cap; the buffer holds what follows the last newline, cut
    and marked the same way and so never more than the cap.  An oversized line
    costs no other line. *)
Theorem lines_do_not_depend_on_chunks budget chunks :
  let '(buf, ls) := push_lines budget buffer_new chunks in
  let '(whole_lines, rest) := stream_lines (concat chunks) in
  ls = line_of (max_partial_line budget) <$> whole_lines
  /\ pending buf = capped (max_partial_line budget) rest
  /\ overflowing buf = (max_partial_line budget <? length rest)
  /\ length (pending buf) <= max_partial_line budget.
Proof.
  pose proof (push_lines_lines budget buffer_new [] chunks (holds_new _)) as H.
  destruct (push_lines budget buffer_new chunks) as [buf ls]. unfold continued in H.
  destruct (stream_lines (concat chunks)) as [[|l ws] rest]; destruct H as (-> & Hp & Ho);
    cbn [fst snd app] in *; rewrite Hp; auto using capped_le.
Qed.

(** The cap never cuts inside a character: of a line that is UTF-8 it
    leaves a UTF-8 prefix, all of it when it fits and all but at most three
    bytes below the cap when it does not, and decoding that prefix inserts no
    replacement character. *)
Lemma a_cut_splits_no_character cap line (Hv : valid line) :
  let kept := capped cap line in
  valid kept /\ kept `prefix_of` line /\ length kept <= cap
  /\ (if cut (line_of cap line) then cap < length kept + 4 else kept = line)
  /\ from_utf8_lossy kept = to_text kept.
Proof.
  destruct (capped_valid cap line Hv) as [Hk Hlen]. split_and!; [done | apply capped_prefix | apply capped_le | |].
  - cbn [line_of cut]. destruct (Nat.ltb_spec cap (length line)); [lia|].
    unfold capped. by replace (length line <=? cap) with true by (symmetry; apply Nat.leb_le; lia).
  - unfold from_utf8_lossy. by rewrite lossy_valid.
Qed.

(** Six bytes, three characters; a cap of five falls inside the last one. *)
Definition three_accents : bytes := map ascii_of_nat [195; 169; 195; 169; 195; 169].
Lemma a_cut_splits_no_character_witness :
  let kept := capped 5 three_accents in
  valid three_accents /\ length kept = 4
  /\ valid kept /\ kept `prefix_of` three_accents /\ length kept <= 5
  /\ (if cut (line_of 5 three_accents) then 5 < length kept + 4 else kept = three_accents)
  /\ from_utf8_lossy kept = to_text kept.
Proof.
  assert (valid three_accents) as Hv by (vm_compute; reflexivity).
  split; [exact Hv|]. split; [vm_compute; reflexivity|]. exact (a_cut_splits_no_character 5 three_accents Hv).
Defined.

Definition text_bytes (s : string) : bytes := of_text s.
Example an_oversized_line_does_not_wedge_the_stream :
  (push_lines (MkBudget 8 1 8) buffer_new
     [text_bytes "aaaaaaaaaabbbb"; text_bytes "cccccccccc"; text_bytes "dddd" ++ [LF] ++ text_bytes "normal" ++ [LF]]).2
  = [MkLine "aaaaaaaa" true; whole "normal"].
Proof. vm_compute. reflexivity. Qed.

Definition OVERSIZED_PAYLOAD : string := "Output too large to show.".
Definition MAX_CUT_TEXT_BYTES : nat := N.to_nat (64 * 1024).

(** ** Character boundaries of text held as bytes *)

Definition is_boundary (b : bytes) (n : nat) : bool :=
  match b !! n with Some a => negb (is_continuation a) | None => n =? length b end.
Fixpoint floor_from (b : bytes) (at_ : nat) : nat :=
  match at_ with
  | O => O
  | S n => if is_boundary b at_ then at_ else floor_from b n
  end.
Definition floor_char_boundary (text : bytes) (max_bytes : nat) : nat :=
  if length text <=? max_bytes then length text else floor_from text max_bytes.
Definition truncate_on_char_boundary (text : bytes) (max_bytes : nat) : bytes :=
  take (floor_char_boundary text max_bytes) text.
(** [char_indices().next_back()]: where the last character starts *)
Definition last_char (b : bytes) : option nat :=
  match b with [] => None | _ => Some (floor_from b (length b - 1)) end.

(** ** Reading *)

Inductive CutStep : Type := Key (key : string) | Index (index : nat).
#[export] Instance CutStep_eq_dec : EqDecision CutStep.
Proof. solve_decision. Defined.

Definition ch (n : nat) : ascii := ascii_of_nat n.
Definition QUOTE : ascii := ch 34.
Definition BACKSLASH : ascii := ch 92.
Definition COMMA : ascii := ",".
Definition COLON : ascii := ":".
Definition OPEN_BRACE : ascii := "{".
Definition CLOSE_BRACE : ascii := "}".
Definition OPEN_BRACKET : ascii := "[".
Definition CLOSE_BRACKET : ascii := "]".

Definition json_space (a : ascii) : bool :=
  bool_decide (a ∈ [ch 32; ch 9; ch 10; ch 13]).
Definition is_ascii_alphanumeric (a : ascii) : bool :=
  is_ascii_digit a || is_ascii_lowercase a || is_ascii_uppercase a.
Definition scalar_byte (a : ascii) : bool :=
  is_ascii_alphanumeric a || bool_decide (a ∈ ["+"%char; "-"%char; "."%char]).

Fixpoint skip_whitespace (b : bytes) : bytes :=
  match b with
  | a :: r => if json_space a then skip_whitespace r else b
  | [] => []
  end.

(** The body of a string up to its closing quote, and what follows it. *)
Fixpoint scan_string (b : bytes) : option (bytes * bytes) :=
  match b with
  | [] => None
  | a :: r =>
      if Ascii.eqb a QUOTE then Some ([], r)
      else if Ascii.eqb a BACKSLASH then
        match r with
        | [] => None
        | c :: r => (fun p : bytes * bytes => (a :: c :: p.1, p.2)) <$> scan_string r
        end
      else (fun p : bytes * bytes => (a :: p.1, p.2)) <$> scan_string r
  end.

Fixpoint scan_scalar (b : bytes) : bytes * bytes :=
  match b with
  | a :: r => if scalar_byte a then let '(lit, r) := scan_scalar r in (a :: lit, r) else ([], b)
  | [] => ([], [])
  end.

Definition quoted (body : bytes) : bytes := QUOTE :: body ++ [QUOTE].

Inductive Invalid : Type := NotJson.
Inductive Text : Type := TextWhole (s : string) | TextCut (s : string).

Section Reader.
Context {Number : Type} `{!SerdeJson Number}.

Inductive Parsed : Type :=
  | Whole (v : json Number)
  | Cut (value : option (json Number)) (at_ : list CutStep) (text : string).
Definition cut_here (value : option (json Number)) : Parsed := Cut value [] "".

Fixpoint decode_loop (attempts : nat) (raw : bytes) : string :=
  match attempts with
  | O => ""
  | S attempts =>
      match from_str_string (quoted raw) with
      | Some text => text
      | None =>
          match last_char raw with
          | Some index => decode_loop attempts (take index raw)
          | None => ""
          end
      end
  end.
Definition decode_partial (raw : bytes) : string :=
  decode_loop 13 (take (floor_char_boundary raw MAX_CUT_TEXT_BYTES) raw).

(** [string], after the opening quote *)
Definition read_string (b : bytes) : result Invalid (Text * bytes) :=
  match scan_string b with
  | Some (body, rest) =>
      match from_str_string (quoted body) with
      | Some text => Ok (TextWhole text, rest)
      | None => Err NotJson
      end
  | None => Ok (TextCut (decode_partial b), [])
  end.

Definition scalar (b : bytes) : result Invalid (Parsed * bytes) :=
  let '(lit, rest) := scan_scalar b in
  match rest with
  | [] => Ok (cut_here None, [])
  | _ => match from_str_value lit with
         | Some v => Ok (Whole v, rest)
         | None => Err NotJson
         end
  end.

Definition insert_some (key : string) (value : option (json Number)) (map : list (string * json Number))
  : list (string * json Number) :=
  match value with Some v => map_insert key v map | None => map end.
Definition push_some (items : list (json Number)) (value : option (json Number)) : list (json Number) :=
  match value with Some v => items ++ [v] | None => items end.

Fixpoint value (fuel : nat) (b : bytes) : result Invalid (Parsed * bytes) :=
  match fuel with
  | O => Err NotJson
  | S fuel =>
      match skip_whitespace b with
      | [] => Ok (cut_here None, [])
      | a :: r =>
          if Ascii.eqb a OPEN_BRACE then
            match skip_whitespace r with
            | c :: r' => if Ascii.eqb c CLOSE_BRACE then Ok (Whole (JObject []), r')
                         else object_loop fuel [] (c :: r')
            | [] => object_loop fuel [] []
            end
          else if Ascii.eqb a OPEN_BRACKET then
            match skip_whitespace r with
            | c :: r' => if Ascii.eqb c CLOSE_BRACKET then Ok (Whole (JArray []), r')
                         else array_loop fuel [] (c :: r')
            | [] => array_loop fuel [] []
            end
          else if Ascii.eqb a QUOTE then
            match read_string r with
            | Ok (TextWhole text, r) => Ok (Whole (JString text), r)
            | Ok (TextCut partial, r) => Ok (Cut None [] partial, r)
            | Err e => Err e
            end
          else scalar (a :: r)
      end
  end
with object_loop (fuel : nat) (map : list (string * json Number)) (b : bytes)
  : result Invalid (Parsed * bytes) :=
  match fuel with
  | O => Err NotJson
  | S fuel =>
      match skip_whitespace b with
      | [] => Ok (cut_here (Some (JObject map)), [])
      | a :: r =>
          if negb (Ascii.eqb a QUOTE) then Err NotJson else
          match read_string r with
          | Err e => Err e
          | Ok (TextCut _, r) => Ok (cut_here (Some (JObject map)), r)
          | Ok (TextWhole key, r) =>
              match skip_whitespace r with
              | [] => Ok (Cut (Some (JObject map)) [Key key] "", [])
              | c :: r =>
                  if negb (Ascii.eqb c COLON) then Err NotJson else
                  match value fuel r with
                  | Err e => Err e
                  | Ok (Cut v path text, r) =>
                      Ok (Cut (Some (JObject (insert_some key v map))) (Key key :: path) text, r)
                  | Ok (Whole v, r) =>
                      let map := map_insert key v map in
                      match skip_whitespace r with
                      | [] => Ok (cut_here (Some (JObject map)), [])
                      | c :: r =>
                          if Ascii.eqb c COMMA then object_loop fuel map r
                          else if Ascii.eqb c CLOSE_BRACE then Ok (Whole (JObject map), r)
                          else Err NotJson
                      end
                  end
              end
          end
      end
  end
with array_loop (fuel : nat) (items : list (json Number)) (b : bytes)
  : result Invalid (Parsed * bytes) :=
  match fuel with
  | O => Err NotJson
  | S fuel =>
      match value fuel b with
      | Err e => Err e
      | Ok (Cut v path text, r) =>
          Ok (Cut (Some (JArray (push_some items v))) (Index (length items) :: path) text, r)
      | Ok (Whole v, r) =>
          let items := items ++ [v] in
          match skip_whitespace r with
          | [] => Ok (cut_here (Some (JArray items)), [])
          | c :: r =>
              if Ascii.eqb c COMMA then array_loop fuel items r
              else if Ascii.eqb c CLOSE_BRACKET then Ok (Whole (JArray items), r)
              else Err NotJson
          end
      end
  end.

(** Two units of fuel for each byte. *)
Definition reader_value (b : bytes) : result Invalid (Parsed * bytes) := value (2 * length b + 1) b.

(** ** A cut line *)

Record CutLine : Type := MkCutLine {
  cut_value : json Number; cut_at : list CutStep; cut_text : string }.

Definition is_object (v : json Number) : bool := match v with JObject _ => true | _ => false end.

Definition recover (line : string) : option CutLine :=
  match reader_value (of_text (trim_start line)) with
  | Err _ => None
  | Ok (Whole v, rest) =>
      match is_object v, skip_whitespace rest with
      | true, [] => Some (MkCutLine v [] "")
      | _, _ => None
      end
  | Ok (Cut (Some v) path text, _) => if is_object v then Some (MkCutLine v path text) else None
  | Ok (Cut None _ _, _) => None
  end.

Fixpoint step_keys (steps : list CutStep) : list string :=
  match steps with
  | Key key :: steps => key :: step_keys steps
  | Index _ :: steps => step_keys steps
  | [] => []
  end.
Fixpoint keys_start_with (keys path : list string) : bool :=
  match path, keys with
  | [], _ => true
  | want :: path, key :: keys => String.eqb key want && keys_start_with keys path
  | _ :: _, [] => false
  end.
Definition cut_within (line : CutLine) (path : list string) : bool :=
  keys_start_with (step_keys (cut_at line)) path.

Fixpoint index_steps (steps : list CutStep) (path : list string) : option nat :=
  match path with
  | [] => match steps with Index index :: _ => Some index | _ => None end
  | want :: path =>
      match steps with
      | Key key :: steps => if String.eqb key want then index_steps steps path else None
      | _ => None
      end
  end.
Definition index_under (line : CutLine) (path : list string) : option nat :=
  index_steps (cut_at line) path.
End Reader.
Arguments Parsed : clear implicits.
Arguments CutLine : clear implicits.
