(* ===== verification/HarnessCutFacts.v ===== *)
(** * Recovering the prefix of a document

    A grammar of JSON documents, what cutting one leaves, and the proof that
    the reader answers exactly that for every prefix of every spelling. *)
From S2P Require Import Prelude RustStr Json RouterSse HarnessLines.

Section Documents.
Context {Number : Type} `{!SerdeJson Number}.

(** ** One step of the reader *)

Lemma value_S fuel b : value (S fuel) b =
      match skip_whitespace b with
      | [] => Ok (cut_here None, [])
      | a :: r =>
          if Ascii.eqb a OPEN_BRACE then
            match skip_whitespace r with
            | c :: r' => if Ascii.eqb c CLOSE_BRACE then Ok (Whole (JObject []), r')
                         else object_loop fuel [] (c :: r')
            | [] => object_loop fuel [] []
            end
          else if Ascii.eqb a OPEN_BRACKET then
            match skip_whitespace r with
            | c :: r' => if Ascii.eqb c CLOSE_BRACKET then Ok (Whole (JArray []), r')
                         else array_loop fuel [] (c :: r')
            | [] => array_loop fuel [] []
            end
          else if Ascii.eqb a QUOTE then
            match read_string r with
            | Ok (TextWhole text, r) => Ok (Whole (JString text), r)
            | Ok (TextCut partial, r) => Ok (Cut None [] partial, r)
            | Err e => Err e
            end
          else scalar (a :: r)
      end.
Proof. reflexivity. Qed.
Lemma object_loop_S fuel map b : object_loop (S fuel) map b =
      match skip_whitespace b with
      | [] => Ok (cut_here (Some (JObject map)), [])
      | a :: r =>
          if negb (Ascii.eqb a QUOTE) then Err NotJson else
          match read_string r with
          | Err e => Err e
          | Ok (TextCut _, r) => Ok (cut_here (Some (JObject map)), r)
          | Ok (TextWhole key, r) =>
              match skip_whitespace r with
              | [] => Ok (Cut (Some (JObject map)) [Key key] "", [])
              | c :: r =>
                  if negb (Ascii.eqb c COLON) then Err NotJson else
                  match value fuel r with
                  | Err e => Err e
                  | Ok (Cut v path text, r) =>
                      Ok (Cut (Some (JObject (insert_some key v map))) (Key key :: path) text, r)
                  | Ok (Whole v, r) =>
                      let map := map_insert key v map in
                      match skip_whitespace r with
                      | [] => Ok (cut_here (Some (JObject map)), [])
                      | c :: r =>
                          if Ascii.eqb c COMMA then object_loop fuel map r
                          else if Ascii.eqb c CLOSE_BRACE then Ok (Whole (JObject map), r)
                          else Err NotJson
                      end
                  end
              end
          end
      end.
Proof. reflexivity. Qed.
Lemma array_loop_S fuel items b : array_loop (S fuel) items b =
      match value fuel b with
      | Err e => Err e
      | Ok (Cut v path text, r) =>
          Ok (Cut (Some (JArray (push_some items v))) (Index (length items) :: path) text, r)
      | Ok (Whole v, r) =>
          let items := items ++ [v] in
          match skip_whitespace r with
          | [] => Ok (cut_here (Some (JArray items)), [])
          | c :: r =>
              if Ascii.eqb c COMMA then array_loop fuel items r
              else if Ascii.eqb c CLOSE_BRACKET then Ok (Whole (JArray items), r)
              else Err NotJson
          end
      end.
Proof. reflexivity. Qed.

(** ** Documents and their spellings *)

(** A document: what a line says, members in the order they are written. *)
Inductive doc : Type :=
  | DScalar (v : json Number)
  | DText (s : string)
  | DArray (items : list doc)
  | DObject (members : list (string * doc)).

Definition object_of (members : list (string * json Number)) : list (string * json Number) :=
  fold_left (fun m p => map_insert p.1 p.2 m) members [].
Fixpoint denote (d : doc) : json Number :=
  match d with
  | DScalar v => v
  | DText s => JString s
  | DArray items => JArray (map denote items)
  | DObject members => JObject (object_of (map (fun p => (p.1, denote p.2)) members))
  end.
Definition denote_members (members : list (string * doc)) : list (string * json Number) :=
  map (fun p => (p.1, denote p.2)) members.

Definition spaces (w : bytes) : Prop := forallb json_space w = true.
(** A string literal: its body holds no quote that would end it. *)
Definition literal (body : bytes) (s : string) : Prop :=
  scan_string (body ++ [QUOTE]) = Some (body, []) /\ from_str_string (quoted body) = Some s.

Inductive spells : bytes -> doc -> Prop :=
  | spells_scalar lit v : lit <> [] -> forallb scalar_byte lit = true -> from_str_value lit = Some v ->
      spells lit (DScalar v)
  | spells_text body s : literal body s -> spells (quoted body) (DText s)
  | spells_no_items w : spaces w -> spells (OPEN_BRACKET :: w ++ [CLOSE_BRACKET]) (DArray [])
  | spells_array b items : spells_items b items -> spells (OPEN_BRACKET :: b ++ [CLOSE_BRACKET]) (DArray items)
  | spells_no_members w : spaces w -> spells (OPEN_BRACE :: w ++ [CLOSE_BRACE]) (DObject [])
  | spells_object b members : spells_members b members ->
      spells (OPEN_BRACE :: b ++ [CLOSE_BRACE]) (DObject members)
with spells_items : bytes -> list doc -> Prop :=
  | items_last w b w' d : spaces w -> spaces w' -> spells b d -> spells_items (w ++ b ++ w') [d]
  | items_more w b w' d bs items : spaces w -> spaces w' -> spells b d -> spells_items bs items ->
      spells_items (w ++ b ++ w' ++ COMMA :: bs) (d :: items)
with spells_members : bytes -> list (string * doc) -> Prop :=
  | members_last w1 key k w2 w3 b w4 d : spaces w1 -> literal key k -> spaces w2 -> spaces w3 ->
      spells b d -> spaces w4 ->
      spells_members (w1 ++ quoted key ++ w2 ++ COLON :: w3 ++ b ++ w4) [(k, d)]
  | members_more w1 key k w2 w3 b w4 d bs members : spaces w1 -> literal key k -> spaces w2 -> spaces w3 ->
      spells b d -> spaces w4 -> spells_members bs members ->
      spells_members (w1 ++ quoted key ++ w2 ++ COLON :: w3 ++ b ++ w4 ++ COMMA :: bs) ((k, d) :: members).

Scheme spells_mut := Induction for spells Sort Prop
  with spells_items_mut := Induction for spells_items Sort Prop
  with spells_members_mut := Induction for spells_members Sort Prop.

(** ** What a cut leaves of a document

    [cut_doc d v path text]: the cut landed at [path] in [d], in a string that
    starts with [text] or in no string; [v] is what arrived whole.  The path of
    an array the cut just opened names the element that would come. *)
Inductive cut_doc : doc -> option (json Number) -> list CutStep -> string -> Prop :=
  | cut_before d : cut_doc d None [] ""
  | cut_in_text s text rest : s = text +:+ rest -> cut_doc (DText s) None [] text
  | cut_open_array : cut_doc (DArray []) (Some (JArray [])) [Index 0] ""
  | cut_after_item d before after :
      cut_doc (DArray (before ++ d :: after)) (Some (JArray (map denote before ++ [denote d]))) [] ""
  | cut_in_item before d after v path text : cut_doc d v path text ->
      cut_doc (DArray (before ++ d :: after)) (Some (JArray (push_some (map denote before) v)))
        (Index (length before) :: path) text
  | cut_between before after :
      cut_doc (DObject (before ++ after)) (Some (JObject (object_of (denote_members before)))) [] ""
  | cut_in_member before k d after v path text : cut_doc d v path text ->
      cut_doc (DObject (before ++ (k, d) :: after))
        (Some (JObject (insert_some k v (object_of (denote_members before))))) (Key k :: path) text.

(** ** Prefixes *)

Lemma prefix_app_cases (p a b : bytes) : p `prefix_of` a ++ b ->
  (p `prefix_of` a /\ p <> a) \/ exists p', p = a ++ p' /\ p' `prefix_of` b.
Proof.
  revert p. induction a as [|x a IH]; intros p Hp; [right; exists p; split; [done|exact Hp]|].
  destruct p as [|y p]; [left; split; [apply prefix_nil|done]|].
  destruct Hp as [k Hk]. cbn in Hk. injection Hk as -> Hk.
  destruct (IH p) as [[Hq Hne] | (p' & -> & Hp')]; [by exists k| |].
  - left. split; [by apply prefix_cons | congruence].
  - right. by exists p'.
Qed.

Lemma prefix_cons_cases (p : bytes) a b : p `prefix_of` a :: b -> p = [] \/ exists p', p = a :: p' /\ p' `prefix_of` b.
Proof.
  destruct p as [|x p]; [by left|]. intros [k Hk]. injection Hk as -> ->. right. exists p. split; [done|by exists k].
Qed.

Lemma spaces_app w w' : spaces w -> spaces w' -> spaces (w ++ w').
Proof. unfold spaces. rewrite forallb_app. by intros -> ->. Qed.
Lemma spaces_prefix p w : spaces w -> p `prefix_of` w -> spaces p.
Proof. unfold spaces. intros H [k ->]. rewrite forallb_app in H. by apply andb_true_iff in H as [? _]. Qed.

Lemma skip_spaces w b : spaces w -> skip_whitespace (w ++ b) = skip_whitespace b.
Proof.
  unfold spaces. induction w as [|a w IH]; [done|]. cbn [forallb app skip_whitespace].
  intros [-> H]%andb_true_iff. by apply IH.
Qed.
Lemma skip_all w : spaces w -> skip_whitespace w = [].
Proof. intros H. rewrite <- (app_nil_r w), skip_spaces by done. done. Qed.
Lemma skip_solid a b : json_space a = false -> skip_whitespace (a :: b) = a :: b.
Proof. intros H. cbn. by rewrite H. Qed.

(** ** Strings and scalars *)

Lemma scan_string_spec b : 
  match scan_string b with
  | Some (body, rest) => b = body ++ QUOTE :: rest /\ scan_string (body ++ [QUOTE]) = Some (body, [])
  | None => True
  end.
Proof.
  induction b as [b IH] using (well_founded_induction (Wf_nat.well_founded_ltof _ length)).
  unfold Wf_nat.ltof in IH. destruct b as [|a r]; [done|]. cbn [scan_string].
  destruct (Ascii.eqb_spec a QUOTE) as [->|Ha]; [done|].
  destruct (Ascii.eqb_spec a BACKSLASH) as [->|Hb].
  - destruct r as [|c r]; [done|]. specialize (IH r ltac:(cbn; lia)).
    destruct (scan_string r) as [[body rest]|]; [|done]. cbn. destruct IH as (-> & ->). done.
  - specialize (IH r ltac:(cbn; lia)). destruct (scan_string r) as [[body rest]|]; [|done].
    cbn [fmap option_fmap option_map fst snd app]. destruct IH as (-> & Hs). split; [done|].
    cbn [scan_string]. destruct (Ascii.eqb_spec a QUOTE); [done|]. destruct (Ascii.eqb_spec a BACKSLASH); [done|].
    by rewrite Hs.
Qed.

Lemma scan_literal body rest : scan_string (body ++ [QUOTE]) = Some (body, []) ->
  scan_string (body ++ QUOTE :: rest) = Some (body, rest).
Proof.
  induction body as [body IH] using (well_founded_induction (Wf_nat.well_founded_ltof _ length)).
  unfold Wf_nat.ltof in IH. destruct body as [|a r]; [done|]. cbn [app scan_string].
  destruct (Ascii.eqb_spec a QUOTE) as [->|Ha]; [done|].
  destruct (Ascii.eqb_spec a BACKSLASH) as [->|Hb].
  - destruct r as [|c r]; cbn [app].
    + by destruct rest.
    + intros H. destruct (scan_string (r ++ [QUOTE])) as [[body' rest']|] eqn:E; [|done].
      injection H as -> ->. by rewrite (IH r ltac:(cbn; lia) E).
  - intros H. destruct (scan_string (r ++ [QUOTE])) as [[body' rest']|] eqn:E; [|done].
    injection H as -> ->. by rewrite (IH r ltac:(cbn; lia) E).
Qed.

Lemma scan_cut body p : scan_string (body ++ [QUOTE]) = Some (body, []) -> p `prefix_of` body ->
  scan_string p = None.
Proof.
  revert p. induction body as [body IH] using (well_founded_induction (Wf_nat.well_founded_ltof _ length)).
  unfold Wf_nat.ltof in IH. intros p Hs Hp. destruct body as [|a r].
  { apply prefix_nil_inv in Hp as ->. done. }
  destruct (prefix_cons_cases _ _ _ Hp) as [-> | (p' & -> & Hp')]; [done|].
  cbn [app scan_string] in *. destruct (Ascii.eqb_spec a QUOTE) as [->|Ha]; [done|].
  destruct (Ascii.eqb_spec a BACKSLASH) as [->|Hb].
  - destruct r as [|c r]; cbn [app] in *; [done|].
    destruct (prefix_cons_cases _ _ _ Hp') as [-> | (p'' & -> & Hp'')]; [done|].
    destruct (scan_string (r ++ [QUOTE])) as [[body' rest']|] eqn:E; [|done]. injection Hs as -> ->.
    by rewrite (IH r ltac:(cbn; lia) p'' E Hp'').
  - destruct (scan_string (r ++ [QUOTE])) as [[body' rest']|] eqn:E; [|done]. injection Hs as -> ->.
    by rewrite (IH r ltac:(cbn; lia) p' E Hp').
Qed.

Definition stops (rest : bytes) : Prop := match rest with a :: _ => scalar_byte a = false | [] => False end.

Lemma scan_scalar_stops lit rest : forallb scalar_byte lit = true -> stops rest ->
  scan_scalar (lit ++ rest) = (lit, rest).
Proof.
  intros Hl Hr. induction lit as [|a lit IH]; cbn [app scan_scalar].
  - destruct rest as [|a rest]; [done|]. cbn in *. by rewrite Hr.
  - apply andb_true_iff in Hl as [-> Hl]. by rewrite IH.
Qed.
Lemma scan_scalar_cut lit : forallb scalar_byte lit = true -> scan_scalar lit = (lit, []).
Proof.
  induction lit as [|a lit IH]; [done|]. cbn. intros [-> Hl]%andb_true_iff. by rewrite IH.
Qed.
Lemma scalar_byte_solid a : scalar_byte a = true ->
  json_space a = false /\ Ascii.eqb a OPEN_BRACE = false /\ Ascii.eqb a OPEN_BRACKET = false
  /\ Ascii.eqb a QUOTE = false.
Proof. by destruct a as [[] [] [] [] [] [] [] []]; vm_compute. Qed.
Lemma space_stops a rest : json_space a = true -> stops (a :: rest).
Proof. by destruct a as [[] [] [] [] [] [] [] []]; vm_compute. Qed.
Lemma spaces_stop w rest : spaces w -> stops rest -> stops (w ++ rest).
Proof. destruct w as [|a w]; [done|]. intros [Ha _]%andb_true_iff _. by apply (space_stops a). Qed.

(** A prefix of a string that parses is the start of what it says. *)
Context (prefix_law : forall p q t u,
  from_str_string (quoted p) = Some t -> from_str_string (quoted (p ++ q)) = Some u ->
  exists v, u = t +:+ v).

Lemma decode_partial_start body s p : literal body s -> p `prefix_of` body ->
  exists rest, s = decode_partial p +:+ rest.
Proof.
  intros [_ Hs] Hp. unfold decode_partial.
  assert (Hq : take (floor_char_boundary p MAX_CUT_TEXT_BYTES) p `prefix_of` body).
  { etransitivity; [apply prefix_take | done]. }
  revert Hq. generalize (take (floor_char_boundary p MAX_CUT_TEXT_BYTES) p) as q.
  generalize 13 as attempts. induction attempts as [|attempts IH]; intros q Hq; cbn [decode_loop]; [by exists s|].
  destruct (from_str_string (quoted q)) as [t|] eqn:Ht.
  - destruct Hq as [k ->]. by apply (prefix_law q k).
  - destruct (last_char q); [|by exists s]. apply IH. etransitivity; [apply prefix_take | done].
Qed.

(** ** The reader on a prefix of a spelling *)

Definition is_scalar (d : doc) : Prop := match d with DScalar _ => True | _ => False end.
Definition closed_object (d : doc) (p : bytes) (v : option (json Number)) : Prop :=
  match d, p with DObject _, _ :: _ => exists m, v = Some (JObject m) | _, _ => True end.

Definition reads (b : bytes) (d : doc) : Prop :=
  (forall fuel rest, 2 * length b + 1 <= fuel -> (is_scalar d -> stops rest) ->
     value fuel (b ++ rest) = Ok (Whole (denote d), rest)) /\
  (forall fuel p, 2 * length p + 1 <= fuel -> p `prefix_of` b -> p <> b \/ is_scalar d ->
     exists v path text, value fuel p = Ok (Cut v path text, []) /\ cut_doc d v path text
                         /\ closed_object d p v).

Definition reads_items (bs : bytes) (ds : list doc) : Prop :=
  (forall fuel items rest, 2 * length bs + 2 <= fuel ->
     array_loop fuel items (bs ++ CLOSE_BRACKET :: rest) = Ok (Whole (JArray (items ++ map denote ds)), rest)) /\
  (forall fuel before p, 2 * length p + 2 <= fuel -> p `prefix_of` bs ->
     exists v path text, array_loop fuel (map denote before) p = Ok (Cut v path text, [])
                         /\ cut_doc (DArray (before ++ ds)) v path text).

Definition reads_members (bs : bytes) (ds : list (string * doc)) : Prop :=
  (forall fuel before rest, 2 * length bs + 2 <= fuel ->
     object_loop fuel (object_of (denote_members before)) (bs ++ CLOSE_BRACE :: rest)
     = Ok (Whole (denote (DObject (before ++ ds))), rest)) /\
  (forall fuel before p, 2 * length p + 2 <= fuel -> p `prefix_of` bs ->
     exists m path text, object_loop fuel (object_of (denote_members before)) p
                         = Ok (Cut (Some (JObject m)) path text, [])
                         /\ cut_doc (DObject (before ++ ds)) (Some (JObject m)) path text).

Lemma value_skip fuel w b : spaces w -> value fuel (w ++ b) = value fuel b.
Proof. intros H. destruct fuel; [done|]. rewrite value_S. by rewrite skip_spaces. Qed.

Lemma value_spaces fuel w : spaces w -> 1 <= fuel -> value fuel w = Ok (cut_here None, []).
Proof. intros H Hf. destruct fuel; [lia|]. rewrite value_S. by rewrite skip_all. Qed.

Lemma denote_members_app before after :
  denote_members (before ++ after) = denote_members before ++ denote_members after.
Proof. apply map_app. Qed.
Lemma object_of_snoc before k v :
  object_of (before ++ [(k, v)]) = map_insert k v (object_of before).
Proof. unfold object_of. by rewrite fold_left_app. Qed.
Lemma insert_denoted before k d :
  map_insert k (denote d) (object_of (denote_members before)) = object_of (denote_members (before ++ [(k, d)])).
Proof. rewrite denote_members_app. symmetry. apply object_of_snoc. Qed.

Definition may_follow (tail : bytes) : Prop := match tail with [] => True | _ => stops tail end.

(** A value and what follows it, cut anywhere. *)
Lemma value_prefix b d w tail fuel p : reads b d -> spaces w -> may_follow tail ->
  p `prefix_of` w ++ b ++ tail -> 2 * length p + 1 <= fuel ->
  (exists v path text, value fuel p = Ok (Cut v path text, []) /\ cut_doc d v path text) \/
  exists p', p = w ++ b ++ p' /\ p' `prefix_of` tail /\ value fuel p = Ok (Whole (denote d), p').
Proof.
  intros [Hwhole Hcut] Hw Htail Hp Hfuel.
  destruct (prefix_app_cases _ _ _ Hp) as [[Hpw _] | (p1 & -> & Hp1)].
  { left. exists None, [], "". rewrite value_spaces; [|by apply (spaces_prefix p w)|lia].
    split; [done | apply cut_before]. }
  rewrite value_skip by done. rewrite length_app in Hfuel.
  assert (Hin : p1 `prefix_of` b -> p1 <> b \/ is_scalar d ->
    exists v path text, value fuel p1 = Ok (Cut v path text, []) /\ cut_doc d v path text).
  { intros Hpre Hor. destruct (Hcut fuel p1 ltac:(lia) Hpre Hor) as (v & path & text & ? & ? & _). eauto 6. }
  destruct (prefix_app_cases _ _ _ Hp1) as [[Hpb Hne] | (p2 & -> & Hp2)]; [left; auto|].
  assert (p2 = [] \/ stops p2) as Hp2s.
  { destruct p2 as [|a p2]; [by left|]. right. destruct Hp2 as [k ->]. done. }
  destruct (decide (p2 = [])) as [->|Hne].
  - rewrite app_nil_r in *. destruct d as [v| | |]; [left; apply Hin; [done|by right]|..];
      right; exists []; rewrite !app_nil_r; split_and!; try done; try apply prefix_nil;
      rewrite <- (app_nil_r b) at 1; apply Hwhole; try done; lia.
  - right. exists p2. split_and!; [done..|]. rewrite length_app in Hfuel. apply Hwhole; [lia|].
    intros _. by destruct Hp2s.
Qed.

Lemma reads_scalar lit v : lit <> [] -> forallb scalar_byte lit = true -> from_str_value lit = Some v ->
  reads lit (DScalar v).
Proof.
  intros Hne Hl Hv. split.
  - intros fuel rest Hf Hstop. destruct fuel as [|fuel]; [lia|]. rewrite value_S.
    destruct lit as [|a lit]; [done|]. pose proof Hl as [Ha _]%andb_true_iff.
    destruct (scalar_byte_solid a Ha) as (Hs & Hb & Hk & Hq). cbn [app].
    rewrite skip_solid by done. rewrite Hb, Hk, Hq. unfold scalar.
    change (a :: lit ++ rest) with ((a :: lit) ++ rest). specialize (Hstop I).
    rewrite scan_scalar_stops by done. destruct rest; [done|]. by rewrite Hv.
  - intros fuel p Hf [k Hk] _. destruct fuel as [|fuel]; [lia|]. exists None, [], "".
    split_and!; [|apply cut_before|done]. rewrite value_S. destruct p as [|a p]; [done|].
    assert (Hp : forallb scalar_byte (a :: p) = true) by (rewrite Hk in Hl; rewrite forallb_app in Hl; by destruct (andb_prop _ _ Hl)).
    pose proof Hp as [Ha _]%andb_true_iff. destruct (scalar_byte_solid a Ha) as (Hs & Hb & Hkk & Hq).
    rewrite skip_solid by done. rewrite Hb, Hkk, Hq. unfold scalar. by rewrite scan_scalar_cut.
Qed.

Lemma read_whole_string body s rest : literal body s ->
  read_string (body ++ QUOTE :: rest) = Ok (TextWhole s, rest).
Proof. intros [Hl Hs]. unfold read_string. by rewrite (scan_literal _ rest Hl), Hs. Qed.
Lemma read_cut_string body s p : literal body s -> p `prefix_of` body ->
  read_string p = Ok (TextCut (decode_partial p), []).
Proof. intros [Hl Hs] Hp. unfold read_string. by rewrite (scan_cut body p Hl Hp). Qed.

(** A string literal and what follows it, cut anywhere after its quote. *)
Lemma read_string_prefix body s tail p : literal body s -> p `prefix_of` body ++ QUOTE :: tail ->
  (p `prefix_of` body /\ read_string p = Ok (TextCut (decode_partial p), [])) \/
  exists p', p = body ++ QUOTE :: p' /\ p' `prefix_of` tail /\ read_string p = Ok (TextWhole s, p').
Proof.
  intros Hl Hp. destruct (prefix_app_cases _ _ _ Hp) as [[Hb _] | (p1 & -> & Hp1)].
  { left. split; [done | by apply (read_cut_string body s)]. }
  destruct (prefix_cons_cases _ _ _ Hp1) as [-> | (p2 & -> & Hp2)].
  - left. rewrite app_nil_r. split; [done | by apply (read_cut_string body s)].
  - right. exists p2. split_and!; [done..|]. by apply read_whole_string.
Qed.

Lemma reads_text body s : literal body s -> reads (quoted body) (DText s).
Proof.
  intros Hl. split.
  - intros fuel rest Hf _. destruct fuel as [|fuel]; [lia|]. unfold quoted. rewrite value_S; cbn [app].
    rewrite skip_solid by done. cbn [Ascii.eqb]. change (Ascii.eqb QUOTE OPEN_BRACE) with false.
    change (Ascii.eqb QUOTE OPEN_BRACKET) with false. change (Ascii.eqb QUOTE QUOTE) with true. cbn [negb].
    rewrite <- app_assoc. cbn [app]. by rewrite (read_whole_string _ _ _ Hl).
  - intros fuel p Hf Hp [Hne|[]]. destruct fuel as [|fuel]; [lia|]. unfold quoted in *.
    destruct (prefix_cons_cases _ _ _ Hp) as [-> | (p1 & -> & Hp1)].
    { exists None, [], "". split_and!; [done | apply cut_before | done]. }
    rewrite value_S. rewrite skip_solid by done. change (Ascii.eqb QUOTE OPEN_BRACE) with false.
    change (Ascii.eqb QUOTE OPEN_BRACKET) with false. change (Ascii.eqb QUOTE QUOTE) with true. cbn match.
    destruct (read_string_prefix body s [] p1 Hl Hp1) as [[Hpb ->] | (p' & -> & Hp' & _)].
    + destruct (decode_partial_start body s p1 Hl Hpb) as [rest Hrest].
      exists None, [], (decode_partial p1). split_and!; [done | by apply (cut_in_text _ _ rest) | done].
    + apply prefix_nil_inv in Hp' as ->. done.
Qed.

Lemma json_punctuation :
  json_space COMMA = false /\ json_space COLON = false /\ json_space CLOSE_BRACE = false
  /\ json_space CLOSE_BRACKET = false /\ json_space QUOTE = false.
Proof. by vm_compute. Qed.

Lemma reads_items_last w b w' d : spaces w -> spaces w' -> reads b d -> reads_items (w ++ b ++ w') [d].
Proof.
  intros Hw Hw' Hr. pose proof Hr as [Hwhole _]. split.
  - intros fuel items rest Hf. rewrite !length_app in Hf. destruct fuel as [|fuel]; [lia|]. rewrite array_loop_S.
    rewrite <- !app_assoc, value_skip by done.
    rewrite Hwhole by (lia || (intros _; by apply spaces_stop)). rewrite skip_spaces by done.
    by rewrite skip_solid.
  - intros fuel before p Hf Hp. destruct fuel as [|fuel]; [lia|]. rewrite array_loop_S.
    assert (Hfollow : may_follow w') by (destruct w' as [|a w']; [done|]; apply andb_true_iff in Hw' as [??]; by apply space_stops).
    destruct (value_prefix b d w w' fuel p Hr Hw Hfollow Hp ltac:(lia))
      as [(v & path & text & -> & Hc) | (p' & -> & Hp' & ->)].
    + rewrite length_map. do 3 eexists. split; [done|]. by apply cut_in_item.
    + rewrite (skip_all p') by (by apply (spaces_prefix _ w')). do 3 eexists. split; [done|]. apply cut_after_item.
Qed.

Lemma reads_items_more w b w' d bs ds : spaces w -> spaces w' -> reads b d -> reads_items bs ds ->
  reads_items (w ++ b ++ w' ++ COMMA :: bs) (d :: ds).
Proof.
  intros Hw Hw' Hr [Hiw Hic]. pose proof Hr as [Hwhole _]. split.
  - intros fuel items rest Hf. rewrite !length_app in Hf. cbn [length] in Hf. destruct fuel as [|fuel]; [lia|].
    rewrite array_loop_S. rewrite <- !app_assoc, value_skip by done. cbn [app].
    rewrite Hwhole by (lia || (intros _; by apply spaces_stop)). rewrite skip_spaces by done.
    rewrite skip_solid by done. change (Ascii.eqb COMMA COMMA) with true. cbn match.
    rewrite Hiw by lia. by rewrite <- app_assoc.
  - intros fuel before p Hf Hp. destruct fuel as [|fuel]; [lia|]. rewrite array_loop_S.
    assert (Hfollow : may_follow (w' ++ COMMA :: bs)).
    { destruct w' as [|a w']; [done|]; apply andb_true_iff in Hw' as [??]; by apply space_stops. }
    destruct (value_prefix b d w (w' ++ COMMA :: bs) fuel p Hr Hw Hfollow Hp ltac:(lia))
      as [(v & path & text & -> & Hc) | (p' & -> & Hp' & ->)].
    + rewrite length_map. do 3 eexists. split; [done|]. by apply cut_in_item.
    + destruct (prefix_app_cases _ _ _ Hp') as [[Hpw _] | (p1 & -> & Hp1)].
      { rewrite (skip_all p') by (by apply (spaces_prefix _ w')). do 3 eexists. split; [done|]. apply cut_after_item. }
      rewrite skip_spaces by done. destruct (prefix_cons_cases _ _ _ Hp1) as [-> | (p2 & -> & Hp2)].
      { cbn [skip_whitespace]. do 3 eexists. split; [done|]. apply cut_after_item. }
      rewrite skip_solid by done. change (Ascii.eqb COMMA COMMA) with true. cbn match.
      rewrite !length_app in Hf. cbn [length] in Hf.
      destruct (Hic fuel (before ++ [d]) p2 ltac:(lia) Hp2) as (v & path & text & Hloop & Hcut).
      rewrite map_app in Hloop. cbn [map] in Hloop. cbv zeta. rewrite Hloop. do 3 eexists. split; [done|].
      by rewrite <- app_assoc in Hcut.
Qed.

(** ** Members *)

(** What the object loop does from a member's colon on. *)
Definition from_colon (fuel : nat) (map : list (string * json Number)) (key : string) (r : bytes)
  : result Invalid (Parsed Number * bytes) :=
  match value fuel r with
  | Err e => Err e
  | Ok (Cut v path text, r) => Ok (Cut (Some (JObject (insert_some key v map))) (Key key :: path) text, r)
  | Ok (Whole v, r) =>
      match skip_whitespace r with
      | [] => Ok (cut_here (Some (JObject (map_insert key v map))), [])
      | c :: r =>
          if Ascii.eqb c COMMA then object_loop fuel (map_insert key v map) r
          else if Ascii.eqb c CLOSE_BRACE then Ok (Whole (JObject (map_insert key v map)), r)
          else Err NotJson
      end
  end.

Lemma loop_key fuel map w1 key k w2 rest : spaces w1 -> literal key k -> spaces w2 ->
  object_loop (S fuel) map (w1 ++ quoted key ++ w2 ++ COLON :: rest) = from_colon fuel map k rest.
Proof.
  intros H1 Hk H2. rewrite object_loop_S, skip_spaces by done. unfold quoted. cbn [app].
  rewrite skip_solid by done. change (negb (Ascii.eqb QUOTE QUOTE)) with false. cbn match.
  rewrite <- app_assoc. cbn [app]. rewrite (read_whole_string _ _ _ Hk), skip_spaces by done.
  by rewrite skip_solid.
Qed.

Lemma loop_key_prefix fuel map w1 key k w2 tail p : spaces w1 -> literal key k -> spaces w2 ->
  p `prefix_of` w1 ++ quoted key ++ w2 ++ COLON :: tail ->
  (exists path, object_loop (S fuel) map p = Ok (Cut (Some (JObject map)) path "", [])
                /\ (path = [] \/ path = [Key k])) \/
  exists p', p = w1 ++ quoted key ++ w2 ++ COLON :: p' /\ p' `prefix_of` tail.
Proof.
  intros H1 Hk H2 Hp. destruct (prefix_app_cases _ _ _ Hp) as [[Hpw _] | (p1 & -> & Hp1)].
  { left. exists []. rewrite object_loop_S, skip_all by (by apply (spaces_prefix _ w1)). auto. }
  unfold quoted in *. cbn [app] in Hp1. destruct (prefix_cons_cases _ _ _ Hp1) as [-> | (p2 & -> & Hp2)].
  { left. exists []. rewrite app_nil_r, object_loop_S, skip_all by done. auto. }
  rewrite <- app_assoc in Hp2. cbn [app] in Hp2.
  assert (Hstep : object_loop (S fuel) map (w1 ++ QUOTE :: p2) =
    match read_string p2 with
    | Err e => Err e
    | Ok (TextCut _, r) => Ok (cut_here (Some (JObject map)), r)
    | Ok (TextWhole key, r) =>
        match skip_whitespace r with
        | [] => Ok (Cut (Some (JObject map)) [Key key] "", [])
        | c :: r => if negb (Ascii.eqb c COLON) then Err NotJson else from_colon fuel map key r
        end
    end).
  { rewrite object_loop_S, skip_spaces by done. by rewrite skip_solid. }
  destruct (read_string_prefix key k _ p2 Hk Hp2) as [[_ Hr] | (p3 & -> & Hp3 & Hr)]; rewrite Hr in Hstep.
  { left. exists []. auto. }
  destruct (prefix_app_cases _ _ _ Hp3) as [[Hpw _] | (p4 & -> & Hp4)].
  { left. rewrite skip_all in Hstep by (by apply (spaces_prefix _ w2)). eauto. }
  destruct (prefix_cons_cases _ _ _ Hp4) as [-> | (p5 & -> & Hp5)].
  { left. rewrite app_nil_r, skip_all in Hstep by done. rewrite app_nil_r. eauto. }
  right. exists p5. split; [|done]. cbn [app]. by rewrite <- app_assoc.
Qed.

Lemma cut_key before k d after path : path = [] \/ path = [Key k] ->
  cut_doc (DObject (before ++ (k, d) :: after)) (Some (JObject (object_of (denote_members before)))) path "".
Proof.
  intros [-> | ->]; [apply cut_between|].
  apply (cut_in_member before k d after None [] ""). apply cut_before.
Qed.

Lemma cut_value_of before k d after v path text : cut_doc d v path text ->
  cut_doc (DObject (before ++ (k, d) :: after))
    (Some (JObject (insert_some k v (object_of (denote_members before))))) (Key k :: path) text.
Proof. apply cut_in_member. Qed.

Lemma cut_after_member before k d after :
  cut_doc (DObject (before ++ (k, d) :: after))
    (Some (JObject (map_insert k (denote d) (object_of (denote_members before))))) [] "".
Proof.
  rewrite insert_denoted. replace (before ++ (k, d) :: after) with ((before ++ [(k, d)]) ++ after)
    by (by rewrite <- app_assoc). apply cut_between.
Qed.

Lemma spaces_follow w tail : spaces w -> may_follow tail -> may_follow (w ++ tail).
Proof. destruct w as [|a w]; [done|]. intros [Ha _]%andb_true_iff _. by apply space_stops. Qed.

Lemma reads_members_last w1 key k w2 w3 b w4 d :
  spaces w1 -> literal key k -> spaces w2 -> spaces w3 -> reads b d -> spaces w4 ->
  reads_members (w1 ++ quoted key ++ w2 ++ COLON :: w3 ++ b ++ w4) [(k, d)].
Proof.
  intros H1 Hk H2 H3 Hr H4. pose proof Hr as [Hwhole _]. split.
  - intros fuel before rest Hf. rewrite !length_app in Hf. cbn [length] in Hf. rewrite !length_app in Hf.
    destruct fuel as [|fuel]; [lia|]. rewrite <- !app_assoc. cbn [app]. rewrite (loop_key _ _ w1 key k) by done.
    unfold from_colon. rewrite <- !app_assoc, value_skip by done.
    rewrite Hwhole by (lia || (intros _; by apply spaces_stop)). rewrite skip_spaces by done.
    rewrite skip_solid, insert_denoted by done. done.
  - intros fuel before p Hf Hp. destruct fuel as [|fuel]; [lia|].
    destruct (loop_key_prefix fuel (object_of (denote_members before)) w1 key k w2 (w3 ++ b ++ w4) p H1 Hk H2 Hp)
      as [(path & -> & Hpath) | (p1 & -> & Hp1)].
    { do 3 eexists. split; [done|]. by apply cut_key. }
    rewrite (loop_key _ _ w1 key k) by done. rewrite !length_app in Hf. cbn [length] in Hf.
    pose proof (spaces_follow w4 [] H4 I) as Hfollow. rewrite app_nil_r in Hfollow. unfold from_colon.
    destruct (value_prefix b d w3 w4 fuel p1 Hr H3 Hfollow Hp1 ltac:(lia))
      as [(v & path & text & -> & Hc) | (p2 & -> & Hp2 & ->)].
    + do 3 eexists. split; [done|]. by apply cut_value_of.
    + rewrite (skip_all p2) by (by apply (spaces_prefix _ w4)). do 3 eexists. split; [done|]. apply cut_after_member.
Qed.

Lemma reads_members_more w1 key k w2 w3 b w4 d bs ds :
  spaces w1 -> literal key k -> spaces w2 -> spaces w3 -> reads b d -> spaces w4 -> reads_members bs ds ->
  reads_members (w1 ++ quoted key ++ w2 ++ COLON :: w3 ++ b ++ w4 ++ COMMA :: bs) ((k, d) :: ds).
Proof.
  intros H1 Hk H2 H3 Hr H4 [Hmw Hmc]. pose proof Hr as [Hwhole _].
  assert (Hmore : forall before, before ++ (k, d) :: ds = (before ++ [(k, d)]) ++ ds) by (intros; by rewrite <- app_assoc).
  split.
  - intros fuel before rest Hf. rewrite !length_app in Hf. cbn [length] in Hf. rewrite !length_app in Hf.
    cbn [length] in Hf. destruct fuel as [|fuel]; [lia|]. rewrite <- !app_assoc. cbn [app].
    rewrite (loop_key _ _ w1 key k) by done. unfold from_colon. rewrite <- !app_assoc, value_skip by done. cbn [app].
    rewrite Hwhole by (lia || (intros _; by apply spaces_stop)). rewrite skip_spaces by done.
    rewrite skip_solid by done. change (Ascii.eqb COMMA COMMA) with true. cbn match.
    rewrite insert_denoted, Hmw by lia. by rewrite Hmore.
  - intros fuel before p Hf Hp. destruct fuel as [|fuel]; [lia|].
    destruct (loop_key_prefix fuel (object_of (denote_members before)) w1 key k w2
                (w3 ++ b ++ w4 ++ COMMA :: bs) p H1 Hk H2 Hp)
      as [(path & -> & Hpath) | (p1 & -> & Hp1)].
    { do 3 eexists. split; [done|]. by apply cut_key. }
    rewrite (loop_key _ _ w1 key k) by done. rewrite !length_app in Hf. cbn [length] in Hf.
    pose proof (spaces_follow w4 (COMMA :: bs) H4 eq_refl) as Hfollow. unfold from_colon.
    destruct (value_prefix b d w3 (w4 ++ COMMA :: bs) fuel p1 Hr H3 Hfollow Hp1 ltac:(lia))
      as [(v & path & text & -> & Hc) | (p2 & -> & Hp2 & ->)].
    { do 3 eexists. split; [done|]. by apply cut_value_of. }
    destruct (prefix_app_cases _ _ _ Hp2) as [[Hpw _] | (p3 & -> & Hp3)].
    { rewrite (skip_all p2) by (by apply (spaces_prefix _ w4)). do 3 eexists. split; [done|]. apply cut_after_member. }
    rewrite skip_spaces by done. destruct (prefix_cons_cases _ _ _ Hp3) as [-> | (p4 & -> & Hp4)].
    { cbn [skip_whitespace]. do 3 eexists. split; [done|]. apply cut_after_member. }
    rewrite skip_solid by done. change (Ascii.eqb COMMA COMMA) with true. cbn match. rewrite insert_denoted.
    rewrite !length_app in Hf. cbn [length] in Hf.
    destruct (Hmc fuel (before ++ [(k, d)]) p4 ltac:(lia) Hp4) as (m & path & text & -> & Hcut).
    do 3 eexists. split; [done|]. by rewrite Hmore.
Qed.

Lemma head_not a rest w : spaces w -> json_space a = false -> skip_whitespace (w ++ a :: rest) = a :: rest.
Proof. intros Hw Ha. by rewrite skip_spaces, skip_solid. Qed.

(** The bytes a spelling can start with, after its spaces. *)
Lemma spelling_head b d : spells b d -> exists a r, b = a :: r /\ json_space a = false
  /\ Ascii.eqb a CLOSE_BRACKET = false.
Proof.
  intros H. destruct H as [lit v Hne Hl _| | | | |]; [|do 2 eexists; split_and!; reflexivity..].
  destruct lit as [|a lit]; [done|]. apply andb_true_iff in Hl as [Ha _].
  exists a, lit. split; [done|]. revert Ha. by destruct a as [[] [] [] [] [] [] [] []]; vm_compute.
Qed.

(** An opened array that is not closed at once goes to its loop. *)
Lemma value_array fuel r :
  (forall r', skip_whitespace r <> CLOSE_BRACKET :: r') ->
  value (S fuel) (OPEN_BRACKET :: r) = array_loop fuel [] (skip_whitespace r).
Proof.
  intros Hr. rewrite value_S, skip_solid by done. change (Ascii.eqb OPEN_BRACKET OPEN_BRACE) with false.
  change (Ascii.eqb OPEN_BRACKET OPEN_BRACKET) with true. cbn match.
  destruct (skip_whitespace r) as [|c r']; [done|].
  destruct (Ascii.eqb_spec c CLOSE_BRACKET) as [->|]; [by destruct (Hr r')|done].
Qed.
Lemma value_object fuel r :
  (forall r', skip_whitespace r <> CLOSE_BRACE :: r') ->
  value (S fuel) (OPEN_BRACE :: r) = object_loop fuel [] (skip_whitespace r).
Proof.
  intros Hr. rewrite value_S, skip_solid by done. change (Ascii.eqb OPEN_BRACE OPEN_BRACE) with true. cbn match.
  destruct (skip_whitespace r) as [|c r']; [done|].
  destruct (Ascii.eqb_spec c CLOSE_BRACE) as [->|]; [by destruct (Hr r')|done].
Qed.

Lemma skip_idem b : skip_whitespace (skip_whitespace b) = skip_whitespace b.
Proof.
  induction b as [|a b IH]; [done|]. cbn [skip_whitespace]. destruct (json_space a) eqn:E; [done|].
  cbn [skip_whitespace]. by rewrite E.
Qed.
Lemma array_loop_skip fuel items b : array_loop fuel items (skip_whitespace b) = array_loop fuel items b.
Proof.
  destruct fuel as [|[|fuel]]; [done..|]. rewrite !array_loop_S.
  assert (value (S fuel) (skip_whitespace b) = value (S fuel) b) as ->; [|done].
  by rewrite !value_S, skip_idem.
Qed.
Lemma object_loop_skip fuel map b : object_loop fuel map (skip_whitespace b) = object_loop fuel map b.
Proof. destruct fuel as [|fuel]; [done|]. by rewrite !object_loop_S, skip_idem. Qed.

Lemma value_array' fuel r :
  (forall r', skip_whitespace r <> CLOSE_BRACKET :: r') ->
  value (S fuel) (OPEN_BRACKET :: r) = array_loop fuel [] r.
Proof. intros Hr. by rewrite value_array, array_loop_skip. Qed.
Lemma value_object' fuel r :
  (forall r', skip_whitespace r <> CLOSE_BRACE :: r') ->
  value (S fuel) (OPEN_BRACE :: r) = object_loop fuel [] r.
Proof. intros Hr. by rewrite value_object, object_loop_skip. Qed.

(** A byte list some prefix of which the spaces [w] and the byte [a] start. *)
Lemma skip_prefix p w a r c r' : p `prefix_of` w ++ a :: r -> spaces w -> json_space a = false ->
  skip_whitespace p = c :: r' -> c = a.
Proof.
  intros Hp Hw Ha Hs. destruct (prefix_app_cases _ _ _ Hp) as [[Hpw _] | (p1 & -> & Hp1)].
  { rewrite skip_all in Hs; [done | by apply (spaces_prefix _ w)]. }
  rewrite skip_spaces in Hs by done. destruct (prefix_cons_cases _ _ _ Hp1) as [-> | (p2 & -> & _)]; [done|].
  rewrite skip_solid in Hs by done. by injection Hs.
Qed.

Lemma items_head bs ds : spells_items bs ds -> exists w a r, bs = w ++ a :: r /\ spaces w
  /\ json_space a = false /\ Ascii.eqb a CLOSE_BRACKET = false.
Proof.
  intros H. destruct H as [w b w' d Hw _ Hd | w b w' d bs items Hw _ Hd _];
    destruct (spelling_head _ _ Hd) as (a & r & -> & ? & ?); eexists w, a, _; done.
Qed.
Lemma members_head bs ds : spells_members bs ds -> exists w r, bs = w ++ QUOTE :: r /\ spaces w.
Proof. intros H. destruct H; unfold quoted; eexists _, _; (split; [reflexivity | assumption]). Qed.

Lemma reads_array bs ds : spells_items bs ds -> reads_items bs ds ->
  reads (OPEN_BRACKET :: bs ++ [CLOSE_BRACKET]) (DArray ds).
Proof.
  intros Hs [Hw Hc]. destruct (items_head _ _ Hs) as (w & a & r & Hbs & Hsp & Ha & Hne).
  assert (Hgo : forall p tail, p `prefix_of` bs ++ tail -> forall r', skip_whitespace p <> CLOSE_BRACKET :: r').
  { intros p tail Hp r' Hskip. rewrite Hbs in Hp. rewrite <- app_assoc in Hp.
    pose proof (skip_prefix _ _ _ _ _ _ Hp Hsp Ha Hskip) as <-. done. }
  split.
  - intros fuel rest Hf _. cbn [length] in Hf. rewrite length_app in Hf. cbn [length] in Hf.
    destruct fuel as [|fuel]; [lia|]. cbn [app]. rewrite <- app_assoc. cbn [app].
    rewrite value_array' by (by eapply Hgo). rewrite (Hw fuel [] rest) by lia. done.
  - intros fuel p Hf Hp Hor. assert (Hpne : p <> OPEN_BRACKET :: bs ++ [CLOSE_BRACKET]) by (by destruct Hor as [?|[]]).
    destruct (prefix_cons_cases _ _ _ Hp) as [-> | (p1 & -> & Hp1)].
    { exists None, [], "". destruct fuel; [cbn in Hf; lia|]. split_and!; [done | apply cut_before | done]. }
    cbn [length] in Hf. destruct fuel as [|fuel]; [lia|]. rewrite value_array' by (by apply (Hgo _ _ Hp1)).
    destruct (prefix_app_cases _ _ _ Hp1) as [[Hpb _] | (p2 & -> & Hp2)].
    + destruct (Hc fuel [] p1 ltac:(lia) Hpb) as (v & path & text & Hl & Hcut).
      by exists v, path, text.
    + destruct (prefix_cons_cases _ _ _ Hp2) as [-> | (p3 & -> & Hp3)].
      2: { apply prefix_nil_inv in Hp3 as ->. done. }
      rewrite app_nil_r in *. destruct (Hc fuel [] bs ltac:(lia) (reflexivity _)) as (v & path & text & Hl & Hcut).
      by exists v, path, text.
Qed.

Lemma reads_object bs ds : spells_members bs ds -> reads_members bs ds ->
  reads (OPEN_BRACE :: bs ++ [CLOSE_BRACE]) (DObject ds).
Proof.
  intros Hs [Hw Hc]. destruct (members_head _ _ Hs) as (w & r & Hbs & Hsp).
  assert (Hgo : forall p tail, p `prefix_of` bs ++ tail -> forall r', skip_whitespace p <> CLOSE_BRACE :: r').
  { intros p tail Hp r' Hskip. rewrite Hbs in Hp. rewrite <- app_assoc in Hp.
    by pose proof (skip_prefix _ _ QUOTE _ _ _ Hp Hsp eq_refl Hskip). }
  split.
  - intros fuel rest Hf _. cbn [length] in Hf. rewrite length_app in Hf. cbn [length] in Hf.
    destruct fuel as [|fuel]; [lia|]. cbn [app]. rewrite <- app_assoc. cbn [app].
    rewrite value_object' by (by eapply Hgo). apply (Hw fuel [] rest). lia.
  - intros fuel p Hf Hp Hor. assert (Hpne : p <> OPEN_BRACE :: bs ++ [CLOSE_BRACE]) by (by destruct Hor as [?|[]]).
    destruct (prefix_cons_cases _ _ _ Hp) as [-> | (p1 & -> & Hp1)].
    { exists None, [], "". destruct fuel; [cbn in Hf; lia|]. split_and!; [done | apply cut_before | done]. }
    cbn [length] in Hf. destruct fuel as [|fuel]; [lia|]. rewrite value_object' by (by apply (Hgo _ _ Hp1)).
    destruct (prefix_app_cases _ _ _ Hp1) as [[Hpb _] | (p2 & -> & Hp2)].
    + destruct (Hc fuel [] p1 ltac:(lia) Hpb) as (m & path & text & Hl & Hcut).
      exists (Some (JObject m)), path, text. split_and!; [done | done | by exists m].
    + destruct (prefix_cons_cases _ _ _ Hp2) as [-> | (p3 & -> & Hp3)].
      2: { apply prefix_nil_inv in Hp3 as ->. done. }
      rewrite app_nil_r in *. destruct (Hc fuel [] bs ltac:(lia) (reflexivity _)) as (m & path & text & Hl & Hcut).
      exists (Some (JObject m)), path, text. split_and!; [done | done | by exists m].
Qed.

Lemma reads_no_items w : spaces w -> reads (OPEN_BRACKET :: w ++ [CLOSE_BRACKET]) (DArray []).
Proof.
  intros Hw. split.
  - intros fuel rest Hf _. cbn [length] in Hf. destruct fuel as [|fuel]; [lia|]. cbn [app].
    rewrite <- app_assoc, value_S, skip_solid by done. cbn [app].
    change (Ascii.eqb OPEN_BRACKET OPEN_BRACE) with false. change (Ascii.eqb OPEN_BRACKET OPEN_BRACKET) with true.
    cbn match. by rewrite head_not.
  - intros fuel p Hf Hp [Hne|[]]. destruct (prefix_cons_cases _ _ _ Hp) as [-> | (p1 & -> & Hp1)].
    { exists None, [], "". destruct fuel; [cbn in Hf; lia|]. split_and!; [done | apply cut_before | done]. }
    destruct (prefix_app_cases _ _ _ Hp1) as [[Hpw _] | (p2 & -> & Hp2)].
    2: { destruct (prefix_cons_cases _ _ _ Hp2) as [-> | (p3 & -> & ->%prefix_nil_inv)]; [|done].
         rewrite app_nil_r in *. exists (Some (JArray [])), [Index 0], "".
         split_and!; [|apply cut_open_array|done]. cbn [length] in Hf. destruct fuel as [|[|[|fuel]]]; [lia..|].
         rewrite value_array' by (by rewrite skip_all). by rewrite array_loop_S, value_spaces by (done || lia). }
    exists (Some (JArray [])), [Index 0], "". pose proof (spaces_prefix _ _ Hw Hpw) as Hp1s.
    split_and!; [|apply cut_open_array|done]. cbn [length] in Hf. destruct fuel as [|[|[|fuel]]]; [lia..|].
    rewrite value_array' by (by rewrite skip_all). by rewrite array_loop_S, value_spaces by (done || lia).
Qed.

Lemma reads_no_members w : spaces w -> reads (OPEN_BRACE :: w ++ [CLOSE_BRACE]) (DObject []).
Proof.
  intros Hw. split.
  - intros fuel rest Hf _. cbn [length] in Hf. destruct fuel as [|fuel]; [lia|]. cbn [app].
    rewrite <- app_assoc, value_S, skip_solid by done. cbn [app].
    change (Ascii.eqb OPEN_BRACE OPEN_BRACE) with true. cbn match. by rewrite head_not.
  - intros fuel p Hf Hp [Hne|[]]. destruct (prefix_cons_cases _ _ _ Hp) as [-> | (p1 & -> & Hp1)].
    { exists None, [], "". destruct fuel; [cbn in Hf; lia|]. split_and!; [done | apply cut_before | done]. }
    assert (Hp1s : spaces p1).
    { destruct (prefix_app_cases _ _ _ Hp1) as [[Hpw _] | (p2 & -> & Hp2)]; [by apply (spaces_prefix _ w)|].
      destruct (prefix_cons_cases _ _ _ Hp2) as [-> | (p3 & -> & ->%prefix_nil_inv)]; [by rewrite app_nil_r | done]. }
    exists (Some (JObject [])), [], "". split_and!; [|apply (cut_between [] []) | by exists []].
    cbn [length] in Hf. destruct fuel as [|[|fuel]]; [lia..|].
    rewrite value_object' by (by rewrite skip_all). by rewrite object_loop_S, skip_all.
Qed.

Lemma spells_reads b d : spells b d -> reads b d.
Proof.
  intros H. apply (spells_mut (fun b d _ => reads b d) (fun bs ds _ => reads_items bs ds)
                     (fun bs ds _ => reads_members bs ds)); try done;
    auto using reads_scalar, reads_text, reads_no_items, reads_no_members, reads_items_last, reads_items_more,
      reads_array, reads_object, reads_members_last, reads_members_more.
Qed.

(** A line that starts with a brace is its own [trim_start]. *)
Lemma to_of_text b : of_text (to_text b) = b.
Proof. apply String.list_ascii_of_string_of_list_ascii. Qed.

Lemma trim_brace r : of_text (trim_start (to_text (OPEN_BRACE :: r))) = OPEN_BRACE :: r.
Proof.
  rewrite <- (to_of_text (OPEN_BRACE :: r)) at 2. f_equal. unfold trim_start.
  change (to_text (OPEN_BRACE :: r)) with (String OPEN_BRACE (to_text r)).
  destruct (chars_cons OPEN_BRACE (to_text r)) as (c & cs & Hc). 
  assert (trim_start_chars (chars (String OPEN_BRACE (to_text r))) = chars (String OPEN_BRACE (to_text r))) as ->.
  { rewrite Hc. cbn [trim_start_chars]. by assert (str_mem (String OPEN_BRACE c) white_space = false) as ->. }
  apply join_chars.
Qed.

Lemma spells_object_head b members : spells b (DObject members) -> exists r, b = OPEN_BRACE :: r.
Proof. intros H. inversion H; subst; eauto. Qed.

Lemma recover_spelling b members p : spells b (DObject members) -> p `prefix_of` b -> p <> [] ->
  if decide (p = b) then recover (to_text p) = Some (MkCutLine (denote (DObject members)) [] "")
  else exists m path text, recover (to_text p) = Some (MkCutLine (JObject m) path text)
                           /\ cut_doc (DObject members) (Some (JObject m)) path text.
Proof.
  intros Hs Hp Hne. destruct (spells_reads _ _ Hs) as [Hwhole Hcut].
  destruct (spells_object_head _ _ Hs) as [r ->].
  destruct (prefix_cons_cases _ _ _ Hp) as [-> | (p1 & -> & Hp1)]; [done|].
  unfold recover. rewrite trim_brace. unfold reader_value. destruct (decide _) as [Heq|Hneq].
  - rewrite Heq. specialize (Hwhole (2 * length (OPEN_BRACE :: r) + 1) [] (le_n _) ltac:(done)).
    rewrite app_nil_r in Hwhole. by rewrite Hwhole.
  - destruct (Hcut (2 * length (OPEN_BRACE :: p1) + 1) (OPEN_BRACE :: p1) (le_n _) Hp ltac:(by left))
      as (v & path & text & -> & Hc & [m ->]). eauto 6.
Qed.
End Documents.

(** ** The fuel is enough for any text *)

Section Fuel.
Context {Number : Type} `{!SerdeJson Number}.

(** The text left after a value. *)
Definition rest_of (r : result Invalid (Parsed Number * bytes)) : nat :=
  match r with Ok (_, b) => length b | Err _ => 0 end.

Lemma skip_le b : length (skip_whitespace b) <= length b.
Proof. induction b as [|a b IH]; [done|]. cbn. destruct (json_space a); cbn; lia. Qed.
Lemma scan_string_le b body rest : scan_string b = Some (body, rest) -> length rest < length b.
Proof.
  intros H. pose proof (scan_string_spec b) as Hs. rewrite H in Hs. destruct Hs as [-> _].
  rewrite length_app. cbn. lia.
Qed.
Lemma read_string_le b t rest : read_string b = Ok (t, rest) -> length rest <= length b.
Proof.
  unfold read_string. destruct (scan_string b) as [[body rest']|] eqn:E; [|intros [= <- <-]; cbn; lia].
  apply scan_string_le in E. destruct (from_str_string (quoted body)); intros [= <- <-]. lia.
Qed.
Lemma scan_scalar_le b : length (scan_scalar b).2 <= length b.
Proof.
  induction b as [|a b IH]; [done|]. cbn. destruct (scalar_byte a); [|done].
  destruct (scan_scalar b) as [lit r]. cbn in *. lia.
Qed.
Lemma scalar_le b : rest_of (scalar b) <= length b.
Proof.
  unfold scalar. pose proof (scan_scalar_le b) as H. destruct (scan_scalar b) as [lit [|a r]]; [cbn; lia|].
  destruct (from_str_value lit); cbn in *; lia.
Qed.

Lemma rests_shrink fuel :
  (forall b, rest_of (value fuel b) <= length b) /\
  (forall map b, rest_of (object_loop fuel map b) <= length b) /\
  (forall items b, rest_of (array_loop fuel items b) <= length b).
Proof.
  induction fuel as [|fuel (IHv & IHo & IHa)]; [split_and!; intros; cbn; lia|]. split_and!.
  - intros b. rewrite value_S. pose proof (skip_le b) as Hb. destruct (skip_whitespace b) as [|a r]; [cbn; lia|].
    cbn [length] in Hb. pose proof (skip_le r) as Hr.
    destruct (Ascii.eqb a OPEN_BRACE).
    { destruct (skip_whitespace r) as [|c r']; [pose proof (IHo [] []); cbn in *; lia|].
      destruct (Ascii.eqb c CLOSE_BRACE); [cbn in *; lia|]. pose proof (IHo [] (c :: r')). lia. }
    destruct (Ascii.eqb a OPEN_BRACKET).
    { destruct (skip_whitespace r) as [|c r']; [pose proof (IHa [] []); cbn in *; lia|].
      destruct (Ascii.eqb c CLOSE_BRACKET); [cbn in *; lia|]. pose proof (IHa [] (c :: r')). lia. }
    destruct (Ascii.eqb a QUOTE); [|pose proof (scalar_le (a :: r)); cbn [length] in *; lia].
    destruct (read_string r) as [[[t|t] rest]|e] eqn:E; [apply read_string_le in E; cbn; lia..|cbn; lia].
  - intros map b. rewrite object_loop_S. pose proof (skip_le b) as Hb. destruct (skip_whitespace b) as [|a r]; [cbn; lia|].
    cbn [length] in Hb. destruct (negb (Ascii.eqb a QUOTE)); [cbn; lia|].
    destruct (read_string r) as [[[key|t] r1]|e] eqn:E; [|apply read_string_le in E; cbn; lia|cbn; lia].
    apply read_string_le in E. pose proof (skip_le r1) as Hr1. destruct (skip_whitespace r1) as [|c r2]; [cbn; lia|].
    cbn [length] in Hr1. destruct (negb (Ascii.eqb c COLON)); [cbn; lia|]. specialize (IHv r2).
    destruct (value fuel r2) as [[[v|v path text] r3]|e]; cbn [rest_of] in IHv; [|cbn; lia..].
    pose proof (skip_le r3) as Hr3. cbv zeta. destruct (skip_whitespace r3) as [|d r4]; [cbn; lia|]. cbn [length] in Hr3.
    destruct (Ascii.eqb d COMMA); [pose proof (IHo (map_insert key v map) r4); lia|].
    destruct (Ascii.eqb d CLOSE_BRACE); cbn; lia.
  - intros items b. rewrite array_loop_S. specialize (IHv b).
    destruct (value fuel b) as [[[v|v path text] r3]|e]; cbn [rest_of] in IHv; [|cbn; lia..].
    pose proof (skip_le r3) as Hr3. cbv zeta. destruct (skip_whitespace r3) as [|d r4]; [cbn; lia|]. cbn [length] in Hr3.
    destruct (Ascii.eqb d COMMA); [pose proof (IHa (items ++ [v]) r4); lia|].
    destruct (Ascii.eqb d CLOSE_BRACKET); cbn; lia.
Qed.

Lemma fuel_enough fuel :
  (forall fuel' b, 2 * length b + 1 <= fuel -> 2 * length b + 1 <= fuel' -> value fuel b = value fuel' b) /\
  (forall fuel' map b, 2 * length b + 2 <= fuel -> 2 * length b + 2 <= fuel' ->
     object_loop fuel map b = object_loop fuel' map b) /\
  (forall fuel' items b, 2 * length b + 2 <= fuel -> 2 * length b + 2 <= fuel' ->
     array_loop fuel items b = array_loop fuel' items b).
Proof.
  induction fuel as [|fuel (IHv & IHo & IHa)]; [split_and!; intros; lia|].
  split_and!; intros [|fuel'].
  - lia.
  - intros b Hf Hf'. rewrite !value_S. pose proof (skip_le b) as Hb. destruct (skip_whitespace b) as [|a r]; [done|].
    cbn [length] in Hb. pose proof (skip_le r) as Hr.
    destruct (Ascii.eqb a OPEN_BRACE).
    { destruct (skip_whitespace r) as [|c r']; [apply IHo; cbn; lia|].
      destruct (Ascii.eqb c CLOSE_BRACE); [done|]. apply IHo; lia. }
    destruct (Ascii.eqb a OPEN_BRACKET); [|done].
    destruct (skip_whitespace r) as [|c r']; [apply IHa; cbn; lia|].
    destruct (Ascii.eqb c CLOSE_BRACKET); [done|]. apply IHa; lia.
  - lia.
  - intros map b Hf Hf'. rewrite !object_loop_S. pose proof (skip_le b) as Hb. destruct (skip_whitespace b) as [|a r]; [done|].
    cbn [length] in Hb. destruct (negb (Ascii.eqb a QUOTE)); [done|].
    destruct (read_string r) as [[[key|t] r1]|e] eqn:E; [|done..].
    apply read_string_le in E. pose proof (skip_le r1) as Hr1. destruct (skip_whitespace r1) as [|c r2]; [done|].
    cbn [length] in Hr1. destruct (negb (Ascii.eqb c COLON)); [done|]. rewrite (IHv fuel' r2) by lia.
    pose proof (proj1 (rests_shrink fuel') r2) as Hrest.
    destruct (value fuel' r2) as [[[v|v path text] r3]|e]; cbn [rest_of] in Hrest; [|done..].
    pose proof (skip_le r3) as Hr3. cbv zeta. destruct (skip_whitespace r3) as [|d r4]; [done|]. cbn [length] in Hr3.
    destruct (Ascii.eqb d COMMA); [|done]. apply IHo; lia.
  - lia.
  - intros items b Hf Hf'. rewrite !array_loop_S. rewrite (IHv fuel' b) by lia.
    pose proof (proj1 (rests_shrink fuel') b) as Hrest.
    destruct (value fuel' b) as [[[v|v path text] r3]|e]; cbn [rest_of] in Hrest; [|done..].
    pose proof (skip_le r3) as Hr3. cbv zeta. destruct (skip_whitespace r3) as [|d r4]; [done|]. cbn [length] in Hr3.
    destruct (Ascii.eqb d COMMA); [|done]. apply IHa; lia.
Qed.
End Fuel.

(** ** Theorems *)

(** A line the cap cut anywhere is recovered to exactly what arrived of
    it: for every spelling of an object and every non-empty prefix of it, the
    whole line comes back whole, and a shorter prefix gives the members that
    were complete, the objects and arrays the cut landed in closed where it
    stopped, the path to the cut, and the start of the string it split. *)
Lemma recover_closes_every_prefix {Number : Type} `{!SerdeJson Number} b members p
    (Hlaw : forall p q t u, from_str_string (quoted p) = Some t ->
       from_str_string (quoted (p ++ q)) = Some u -> exists v, u = t +:+ v)
    (Hs : spells b (DObject members)) (Hp : p `prefix_of` b) (Hne : p <> []) :
  if decide (p = b) then recover (to_text p) = Some (MkCutLine (denote (DObject members)) [] "")
  else exists m path text, recover (to_text p) = Some (MkCutLine (JObject m) path text)
                           /\ cut_doc (DObject members) (Some (JObject m)) path text.
Proof. by apply recover_spelling. Qed.

(** The reader ends on every text: its recursion makes at most two calls
    for each byte, so any larger allowance gives the same answer. *)
Lemma the_reader_ends {Number : Type} `{!SerdeJson Number} fuel b (Hfuel : 2 * length b + 1 <= fuel) :
  value fuel b = reader_value b.
Proof. by apply fuel_enough. Qed.
