(* ===== verification/ContextFit.v ===== *)
(** * Fitting a transcript to a context window

    tidebreak-core, context.rs, over the messages of provider.rs: how many
    tokens a transcript is estimated to cost, which pixels are dropped from it,
    and how it is reduced to a budget.  Mutation in place is a function from the
    old list to the new one.  Then what repair keeps and what the stages cost:
    the order of tool calls and results, alternation of roles; selection spends
    at most the budget, and neither repair nor the truncation of text costs
    more than it was given. *)
From S2P Require Import Prelude RustStr TurnTables TurnResolve Json.

Open Scope nat_scope.

#[export] Instance Role_eq_dec : EqDecision Role.
Proof. solve_decision. Defined.

Definition TEXT_OVERHEAD : nat := 7.
Definition TOOL_USE_OVERHEAD : nat := 30.
Definition TOOL_RESULT_OVERHEAD : nat := 20.
Definition IMAGE_OVERHEAD : nat := 10.
Definition ROLE_OVERHEAD : nat := 4.
Definition MAX_SINGLE_BLOCK_TOKENS : nat := N.to_nat 25000.
(** A newline, the ellipsis U+2026 and the notice *)
Definition TRUNCATION_SUFFIX : string := String (ascii_of_nat 10) "" +:+ utf8 [226; 128; 166] +:+ " [truncated]".
Definition MAX_HYDRATED_IMAGES : nat := 8.
Definition TOOL_RESULT_IMAGE_MESSAGE_WINDOW : nat := 10.
Definition TILE_EDGE : Z := 512.
Definition TILE_TOKENS : Z := 1600.

(** [usize::div_ceil] *)
Definition div_ceil (a b : nat) : nat := (a + (b - 1)) / b.
Definition sum (l : list nat) : nat := fold_right Nat.add 0 l.

(** ** Messages *)

Record ReasoningOrigin : Type := MkOrigin { origin_provider : option string; origin_model : string }.
#[export] Instance ReasoningOrigin_eq_dec : EqDecision ReasoningOrigin.
Proof. solve_decision. Defined.

Section Messages.
Context {Number : Type}.

(** Opaque blocks of the provider that minted them. *)
Record MessageReasoning : Type := MkReasoning {
  reasoning_origin : option ReasoningOrigin; reasoning_blocks : list (json Number) }.
Definition no_reasoning : MessageReasoning := MkReasoning None [].
Definition reasoning_captured (origin : ReasoningOrigin) (blocks : list (json Number)) : MessageReasoning :=
  match blocks with [] => no_reasoning | _ => MkReasoning (Some origin) blocks end.

Record ProviderToolReplay : Type := MkReplay {
  replay_origin : option ReasoningOrigin; replay_blocks : list (json Number) }.
Definition replay_captured (origin : ReasoningOrigin) (blocks : list (json Number)) : ProviderToolReplay :=
  MkReplay (Some origin) blocks.

(** [replayable_for], of either channel *)
Definition replayable (origin : option ReasoningOrigin) (blocks : list (json Number))
    (provider : option string) (model : string) : list (json Number) :=
  match origin with
  | Some origin =>
      if bool_decide (origin_provider origin = provider) && String.eqb (origin_model origin) model
      then blocks else []
  | None => []
  end.
Definition reasoning_replayable_for (r : MessageReasoning) : option string -> string -> list (json Number) :=
  replayable (reasoning_origin r) (reasoning_blocks r).
Definition replay_replayable_for (r : ProviderToolReplay) : option string -> string -> list (json Number) :=
  replayable (replay_origin r) (replay_blocks r).

Inductive ContentBlock : Type :=
  | Text (text : string)
  | ToolUse (id name : string) (input : json Number)
  | Image (image : ImageRef)
  | ToolResult (tool_use_id content : string) (is_error : bool)
  | ProviderExecutedToolCall (name : string) (input output : json Number) (is_error : bool)
      (replay : option ProviderToolReplay).

Record ChatMessage : Type := MkMessage {
  role : Role; content : list ContentBlock; reasoning : MessageReasoning }.
End Messages.
Arguments MessageReasoning : clear implicits.
Arguments ProviderToolReplay : clear implicits.
Arguments ContentBlock : clear implicits.
Arguments ChatMessage : clear implicits.

(** The number a [u32] prints as *)
Definition show_u32 (n : Z) : string := digits_of 10 (Z.to_N n) "".

(** ** Token estimates *)

Definition estimate_tokens (s : string) : nat := div_ceil (length (chars s)) 3.

(** [ImageRef::estimated_tokens] *)
Definition tiles (edge : Z) : Z := ((edge + (TILE_EDGE - 1)) / TILE_EDGE)%Z.
Definition estimated_tokens (image : ImageRef) : nat :=
  Z.to_nat (if ((width image =? 0) || (height image =? 0))%Z then TILE_TOKENS
            else tiles (width image) * tiles (height image) * TILE_TOKENS).

Section Context_.
Context {Number : Type} `{HJ : SerdeJson Number} `{HT : !SerdeJsonText Number}.
Implicit Types (b : ContentBlock Number) (m : ChatMessage Number).

Definition estimate_json (v : json Number) : nat := estimate_tokens (json_to_string v).

Definition estimate_block_tokens (b : ContentBlock Number) : nat :=
  match b with
  | Text text => TEXT_OVERHEAD + estimate_tokens text
  | ToolUse id name input =>
      TOOL_USE_OVERHEAD + estimate_tokens id + estimate_tokens name + estimate_json input
  | Image image => IMAGE_OVERHEAD + estimated_tokens image
  | ToolResult tool_use_id content _ =>
      TOOL_RESULT_OVERHEAD + estimate_tokens tool_use_id + estimate_tokens content
  | ProviderExecutedToolCall name input output _ replay =>
      TOOL_USE_OVERHEAD + TOOL_RESULT_OVERHEAD + estimate_tokens name + estimate_json input
      + estimate_json output
      + match replay with Some replay => sum (map estimate_json (replay_blocks replay)) | None => 0 end
  end.

Definition is_user_anchor (m : ChatMessage Number) : bool :=
  bool_decide (role m = RUser)
  && existsb (fun b => match b with Text _ | Image _ => true | _ => false end) (content m).

Definition estimate_reasoning_tokens (m : ChatMessage Number) : nat :=
  sum (map estimate_json (reasoning_blocks (reasoning m))).
Definition estimate_message_tokens (m : ChatMessage Number) : nat :=
  ROLE_OVERHEAD + estimate_reasoning_tokens m + sum (map estimate_block_tokens (content m)).
Definition estimate_transcript_tokens (messages : list (ChatMessage Number)) : nat :=
  sum (map estimate_message_tokens messages).

(** ** Dropping pixels *)

Definition is_image (b : ContentBlock Number) : bool := match b with Image _ => true | _ => false end.
Definition is_tool_result (b : ContentBlock Number) : bool := match b with ToolResult _ _ _ => true | _ => false end.
Definition with_content (m : ChatMessage Number) (blocks : list (ContentBlock Number)) : ChatMessage Number :=
  MkMessage (role m) blocks (reasoning m).

Definition evict_image_block (b : ContentBlock Number) : ContentBlock Number :=
  match b with
  | Image image =>
      Text ("[image omitted from context: " +:+ media_type image +:+ " " +:+ show_u32 (width image)
            +:+ utf8 [195; 151] +:+ show_u32 (height image) +:+ "]")
  | other => other
  end.
Definition evict_all_images (messages : list (ChatMessage Number)) : list (ChatMessage Number) :=
  map (fun m => with_content m (map evict_image_block (content m))) messages.

Definition preview_omitted (b : ContentBlock Number) : ContentBlock Number :=
  match b with Image _ => Text "[preview image omitted from older tool result]" | other => other end.
Definition evict_old_tool_result_images (messages : list (ChatMessage Number)) (keep_messages : nat)
  : list (ChatMessage Number) :=
  let bucket := Nat.max keep_messages 1 in
  let cutoff := (length messages - keep_messages) / bucket * bucket in
  map (fun m => if existsb is_tool_result (content m) then with_content m (map preview_omitted (content m)) else m)
    (take cutoff messages)
  ++ drop cutoff messages.

Definition blocks_of (messages : list (ChatMessage Number)) : list (ContentBlock Number) :=
  concat (map content messages).
Definition image_count (messages : list (ChatMessage Number)) : nat :=
  length (List.filter is_image (blocks_of messages)).

(** The images still to be seen before the cutoff, and the blocks after. *)
Fixpoint evict_in_blocks (quota : nat) (blocks : list (ContentBlock Number))
  : nat * list (ContentBlock Number) :=
  match blocks with
  | [] => (quota, [])
  | b :: blocks =>
      match is_image b, quota with
      | true, S quota_ => let '(quota, rest) := evict_in_blocks quota_ blocks in (quota, evict_image_block b :: rest)
      | _, _ => let '(quota, rest) := evict_in_blocks quota blocks in (quota, b :: rest)
      end
  end.
Fixpoint evict_in_messages (quota : nat) (messages : list (ChatMessage Number)) : list (ChatMessage Number) :=
  match messages with
  | [] => []
  | m :: messages =>
      let '(quota, blocks) := evict_in_blocks quota (content m) in
      with_content m blocks :: evict_in_messages quota messages
  end.
Definition image_bucket (keep_last_n : nat) : nat := Nat.max (div_ceil keep_last_n 2) 1.
Definition image_cutoff (keep_last_n total : nat) : nat :=
  div_ceil (total - keep_last_n) (image_bucket keep_last_n) * image_bucket keep_last_n.
Definition evict_images_beyond (messages : list (ChatMessage Number)) (keep_last_n : nat)
  : list (ChatMessage Number) :=
  evict_in_messages (image_cutoff keep_last_n (image_count messages)) messages.

(** ** Floors and selection *)

Definition is_compressible (b : ContentBlock Number) : bool := negb (is_image b).

Definition block_overhead (b : ContentBlock Number) : nat :=
  match b with
  | Text _ => TEXT_OVERHEAD
  | Image _ => IMAGE_OVERHEAD
  | ToolUse _ _ _ => TOOL_USE_OVERHEAD
  | ToolResult _ _ _ => TOOL_RESULT_OVERHEAD
  | ProviderExecutedToolCall _ _ _ _ _ => TOOL_USE_OVERHEAD + TOOL_RESULT_OVERHEAD
  end.
Definition block_floor (content_floor : nat) (b : ContentBlock Number) : nat :=
  if negb (is_compressible b) then estimate_block_tokens b
  else block_overhead b + Nat.min (estimate_block_tokens b - block_overhead b) content_floor.
Definition message_floor (m : ChatMessage Number) (content_floor : nat) : nat :=
  ROLE_OVERHEAD + estimate_reasoning_tokens m + sum (map (block_floor content_floor) (content m)).

Record Entry : Type := MkEntry { full : nat; floor : nat; allocated : nat; kept : bool }.
Definition set_kept (kept : bool) (e : Entry) : Entry := MkEntry (full e) (floor e) (allocated e) kept.
Definition entry_of (content_floor : nat) (m : ChatMessage Number) : Entry :=
  let floor := message_floor m content_floor in
  MkEntry (estimate_message_tokens m) floor floor true.

Definition kept_at (entries : list Entry) (i : nat) : bool :=
  match entries !! i with Some e => kept e | None => false end.
Definition floor_at (entries : list Entry) (i : nat) : nat :=
  match entries !! i with Some e => floor e | None => 0 end.
Definition content_at (messages : list (ChatMessage Number)) (i : nat) : list (ContentBlock Number) :=
  match messages !! i with Some m => content m | None => [] end.

(** Which message holds a call, and which its result; the first one counts. *)
Definition index_blocks (key : ContentBlock Number -> option string) (messages : list (ChatMessage Number))
  : list (string * nat) :=
  concat (imap (fun i m => map (fun id => (id, i)) (omap key (content m))) messages).
Definition use_id (b : ContentBlock Number) : option string :=
  match b with ToolUse id _ _ => Some id | _ => None end.
Definition result_id (b : ContentBlock Number) : option string :=
  match b with ToolResult id _ _ => Some id | _ => None end.
Fixpoint find_id (id : string) (index : list (string * nat)) : option nat :=
  match index with
  | [] => None
  | (id', i) :: index => if String.eqb id' id then Some i else find_id id index
  end.

Section Selection.
Context (messages : list (ChatMessage Number)).

Definition use_to_msg : list (string * nat) := index_blocks use_id messages.
Definition result_to_msg : list (string * nat) := index_blocks result_id messages.

(** The message that holds the other half of a block. *)
Definition partner (b : ContentBlock Number) : option nat :=
  match b with
  | ToolUse id _ _ => find_id id result_to_msg
  | ToolResult tool_use_id _ _ => find_id tool_use_id use_to_msg
  | _ => None
  end.

Fixpoint pair_cost_loop (entries : list Entry) (blocks : list (ContentBlock Number)) (charged : list nat)
    (cost : nat) : nat :=
  match blocks with
  | [] => cost
  | b :: blocks =>
      match partner b with
      | Some j =>
          if negb (kept_at entries j) && negb (existsb (Nat.eqb j) charged)
          then pair_cost_loop entries blocks (j :: charged) (cost + floor_at entries j)
          else pair_cost_loop entries blocks charged cost
      | None => pair_cost_loop entries blocks charged cost
      end
  end.
Definition pair_cost (entries : list Entry) (i : nat) : nat :=
  pair_cost_loop entries (content_at messages i) [i] (floor_at entries i).

Fixpoint mark_loop (entries : list Entry) (blocks : list (ContentBlock Number)) (cost : nat)
  : list Entry * nat :=
  match blocks with
  | [] => (entries, cost)
  | b :: blocks =>
      match partner b with
      | Some j =>
          if negb (kept_at entries j)
          then mark_loop (alter (set_kept true) j entries) blocks (cost + floor_at entries j)
          else mark_loop entries blocks cost
      | None => mark_loop entries blocks cost
      end
  end.
Definition mark_pair_kept (entries : list Entry) (i : nat) : list Entry * nat :=
  mark_loop (alter (set_kept true) i entries) (content_at messages i) (floor_at entries i).

(** The loop of [select_newest_to_fit], from message [n - 1] down. *)
Fixpoint select_loop (n : nat) (entries : list Entry) (remaining : nat) : list Entry * nat :=
  match n with
  | O => (entries, remaining)
  | S i =>
      if kept_at entries i then select_loop i entries remaining
      else if pair_cost entries i <=? remaining
      then let '(entries, cost) := mark_pair_kept entries i in select_loop i entries (remaining - cost)
      else select_loop i entries remaining
  end.

(** The newest user anchor among the first [n] messages *)
Fixpoint newest_anchor (n : nat) : option nat :=
  match n with
  | O => None
  | S i =>
      match messages !! i with
      | Some m => if is_user_anchor m then Some i else newest_anchor i
      | None => newest_anchor i
      end
  end.

Definition has_kept_anchor (entries : list Entry) : bool :=
  existsb (fun p : Entry * ChatMessage Number => kept p.1 && is_user_anchor p.2) (zip entries messages).

Definition select_newest_to_fit (entries : list Entry) (budget : nat) : list Entry :=
  let '(entries, _) := select_loop (length entries) (map (set_kept false) entries) budget in
  if has_kept_anchor entries then entries
  else match newest_anchor (length entries) with
       | Some i => (mark_pair_kept entries i).1
       | None => entries
       end.
End Selection.

(** Hand the surplus out, newest first. *)
Fixpoint restore (entries : list Entry) (surplus : nat) : list Entry * nat :=
  match entries with
  | [] => ([], surplus)
  | e :: entries =>
      let '(entries, surplus) := restore entries surplus in
      if negb (kept e) || (surplus =? 0) then (e :: entries, surplus)
      else
        let headroom := Nat.min (full e - allocated e) MAX_SINGLE_BLOCK_TOKENS in
        let reclaim := Nat.min headroom surplus in
        (MkEntry (full e) (floor e) (allocated e + reclaim) (kept e) :: entries, surplus - reclaim)
  end.

(** ** Truncation *)

Definition truncate_str (s : string) (target_tokens : nat) : string :=
  let char_budget := target_tokens * 3 in
  if length (chars s) <=? char_budget then s
  else
    let suffix_chars := length (chars TRUNCATION_SUFFIX) in
    if char_budget <=? suffix_chars then join "" (take char_budget (chars s))
    else join "" (take (char_budget - suffix_chars) (chars s)) +:+ TRUNCATION_SUFFIX.

Definition truncate_block (b : ContentBlock Number) (target_tokens : nat) : ContentBlock Number :=
  match b with
  | Image _ => b
  | Text text => Text (truncate_str text (target_tokens - TEXT_OVERHEAD))
  | ToolUse id name input =>
      let fixed := TOOL_USE_OVERHEAD + estimate_tokens id + estimate_tokens name in
      ToolUse id name
        (JObject [("truncated_args", JString (truncate_str (json_to_string input) (target_tokens - fixed)))])
  | ToolResult tool_use_id content is_error =>
      let fixed := TOOL_RESULT_OVERHEAD + estimate_tokens tool_use_id in
      ToolResult tool_use_id (truncate_str content (target_tokens - fixed)) is_error
  | ProviderExecutedToolCall name input output is_error _ =>
      let fixed := TOOL_USE_OVERHEAD + TOOL_RESULT_OVERHEAD + estimate_tokens name + estimate_json input in
      ProviderExecutedToolCall name input
        (JObject [("truncated_output", JString (truncate_str (json_to_string output) (target_tokens - fixed)))])
        is_error None
  end.

Definition block_content (b : ContentBlock Number) : nat := estimate_block_tokens b - block_overhead b.
(** The product is taken in [u64]. *)
Definition content_share (content_budget content_total block : nat) : nat :=
  if content_total =? 0 then 0
  else Z.to_nat ((Z.of_nat content_budget * Z.of_nat block) mod 2 ^ 64 / Z.of_nat content_total)%Z.

Definition truncate_message (m : ChatMessage Number) (target_tokens : nat) : ChatMessage Number :=
  match content m with
  | [] => m
  | blocks =>
      let available := target_tokens - ROLE_OVERHEAD - estimate_reasoning_tokens m in
      let overhead_total := sum (map block_overhead blocks) in
      let content_total := sum (map block_content blocks) in
      let content_budget := available - overhead_total in
      with_content m
        (map (fun b =>
           let share := block_overhead b + content_share content_budget content_total (block_content b) in
           if estimate_block_tokens b <=? share then b else truncate_block b share) blocks)
  end.

(** ** Repair *)

Definition use_ids (messages : list (ChatMessage Number)) : list string := omap use_id (blocks_of messages).
Definition result_ids (messages : list (ChatMessage Number)) : list string := omap result_id (blocks_of messages).

Definition has_orphaned_tool_blocks (messages : list (ChatMessage Number)) : bool :=
  existsb (fun id => negb (str_mem id (result_ids messages))) (use_ids messages)
  || existsb (fun id => negb (str_mem id (use_ids messages))) (result_ids messages).

Definition drop_replay (b : ContentBlock Number) : ContentBlock Number :=
  match b with
  | ProviderExecutedToolCall name input output is_error _ => ProviderExecutedToolCall name input output is_error None
  | other => other
  end.
Definition invalidate_provider_native_state (m : ChatMessage Number) : ChatMessage Number :=
  MkMessage (role m) (map drop_replay (content m)) no_reasoning.

Definition paired (uses results : list string) (b : ContentBlock Number) : bool :=
  match b with
  | ToolUse id _ _ => str_mem id results
  | ToolResult tool_use_id _ _ => str_mem tool_use_id uses
  | _ => true
  end.
Definition strip_message (uses results : list string) (m : ChatMessage Number) : ChatMessage Number :=
  let m' := with_content m (List.filter (paired uses results) (content m)) in
  if bool_decide (role m = RAssistant) && negb (length (content m') =? length (content m))
  then invalidate_provider_native_state m' else m'.
Definition is_empty_message (m : ChatMessage Number) : bool := match content m with [] => true | _ => false end.
Definition strip_orphaned_tool_blocks (messages : list (ChatMessage Number)) : list (ChatMessage Number) :=
  List.filter (fun m => negb (is_empty_message m))
    (map (strip_message (use_ids messages) (result_ids messages)) messages).

Definition absorb (m next : ChatMessage Number) : ChatMessage Number :=
  let m := with_content m (content m ++ content next) in
  if bool_decide (role m = RAssistant) then invalidate_provider_native_state m else m.
Fixpoint merge_from (m : ChatMessage Number) (rest : list (ChatMessage Number)) : list (ChatMessage Number) :=
  match rest with
  | [] => [m]
  | next :: rest =>
      if bool_decide (role m = role next) then merge_from (absorb m next) rest
      else m :: merge_from next rest
  end.
Definition merge_adjacent_roles (messages : list (ChatMessage Number)) : list (ChatMessage Number) :=
  match messages with [] => [] | m :: rest => merge_from m rest end.

Fixpoint ensure_starts_with_user (messages : list (ChatMessage Number)) : list (ChatMessage Number) :=
  match messages with
  | [] => []
  | m :: rest => if is_user_anchor m then messages else ensure_starts_with_user rest
  end.

Definition repair (messages : list (ChatMessage Number)) : list (ChatMessage Number) :=
  ensure_starts_with_user (merge_adjacent_roles (strip_orphaned_tool_blocks messages)).

(** ** The reduction *)

Definition select_entries (messages : list (ChatMessage Number)) (budget content_floor : nat) : list Entry :=
  let entries := map (entry_of content_floor) messages in
  if budget <? sum (map floor entries) then select_newest_to_fit messages entries budget else entries.

Definition kept_tokens (entries : list Entry) : nat :=
  sum (map (fun e => if kept e then allocated e else 0) entries).

Definition allocate (messages : list (ChatMessage Number)) (budget content_floor : nat) : list Entry :=
  let entries := select_entries messages budget content_floor in
  (restore entries (budget - kept_tokens entries)).1.

Definition emit_message (p : Entry * ChatMessage Number) : option (ChatMessage Number) :=
  let '(e, m) := p in
  if negb (kept e) then None
  else if full e <=? allocated e then Some m else Some (truncate_message m (allocated e)).

Definition fit_to_budget (messages : list (ChatMessage Number)) (budget content_floor : nat)
  : list (ChatMessage Number) * bool :=
  if (match messages with [] => true | _ => false end) || (estimate_transcript_tokens messages <=? budget) then
    (if has_orphaned_tool_blocks messages then repair messages else messages, false)
  else (repair (omap emit_message (zip (allocate messages budget content_floor) messages)), true).

(** ** Budgets of the agent loop *)

Definition MAX_REDUCTION_LEVEL : nat := 3.

Record ToolSpec : Type := MkSpec { spec_name : string; spec_description : string; input_schema : json Number }.

Definition compute_message_budget (context_window reduction_level : nat) (system_prompt : option string)
    (tool_specs : list ToolSpec) : nat :=
  let fraction := match reduction_level with 0 => 75 | 1 => 63 | 2 => 50 | _ => 38 end in
  let effective := context_window * fraction / 100 in
  let system_tokens := match system_prompt with Some p => estimate_tokens p | None => 0 end in
  let tools_tokens := sum (map (fun t =>
    30 + estimate_tokens (spec_name t) + estimate_tokens (spec_description t) + estimate_json (input_schema t))
    tool_specs) in
  effective - system_tokens - tools_tokens.

Definition content_floor_for_level (level : nat) : nat :=
  match level with 0 => 500 | 1 => 300 | 2 => 200 | _ => 100 end.
End Context_.
Arguments ToolSpec : clear implicits.

Open Scope nat_scope.

Lemma sum_app l l' : sum (l ++ l') = sum l + sum l'.
Proof. induction l as [|x l IH]; [done|]. change (x + sum (l ++ l') = x + sum l + sum l'). lia. Qed.
Lemma sum_map_le {A} (f g : A -> nat) l : (forall x, x ∈ l -> f x <= g x) -> sum (map f l) <= sum (map g l).
Proof.
  induction l as [|x l IH]; [done|]. intros H. change (f x + sum (map f l) <= g x + sum (map g l)).
  pose proof (H x ltac:(left)). specialize (IH ltac:(intros; apply H; by right)). lia.
Qed.
Lemma sum_map_ext {A} (f g : A -> nat) l : (forall x, x ∈ l -> f x = g x) -> sum (map f l) = sum (map g l).
Proof.
  intros H. apply Nat.le_antisymm; apply sum_map_le; intros x Hx; by rewrite (H x Hx).
Qed.

Section Facts.
Context {Number : Type} `{HJ : SerdeJson Number} `{HT : !SerdeJsonText Number}.
Implicit Types (b : ContentBlock Number) (m : ChatMessage Number) (l : list (ChatMessage Number)).

(** ** Roles and the first message *)

Fixpoint alternating (l : list (ChatMessage Number)) : Prop :=
  match l with
  | m :: (n :: _) as l' => role m <> role n /\ alternating l'
  | _ => True
  end.
Definition starts_with_user (l : list (ChatMessage Number)) : Prop :=
  match l with [] => True | m :: _ => is_user_anchor m = true end.

Lemma alternating_tail m l : alternating (m :: l) -> alternating l.
Proof. destruct l as [|n l]; [done|]. by intros [_ ?]. Qed.
Lemma alternating_suffix l l' : alternating (l ++ l') -> alternating l'.
Proof. induction l as [|m l IH]; [done|]. intros H. by apply IH, (alternating_tail m). Qed.

Lemma absorb_role m n : role (absorb m n) = role m.
Proof. unfold absorb. by destruct (bool_decide _). Qed.

Lemma merge_from_head m l : exists m' l', merge_from m l = m' :: l' /\ role m' = role m.
Proof.
  revert m. induction l as [|n l IH]; intros m; cbn [merge_from]; [by eexists _, _|].
  case_bool_decide as Hr; [|by eexists _, _].
  destruct (IH (absorb m n)) as (m' & l' & -> & Hm). exists m', l'. split; [done|]. by rewrite Hm, absorb_role.
Qed.

Lemma merge_from_alternating m l : alternating (merge_from m l).
Proof.
  revert m. induction l as [|n l IH]; intros m; cbn [merge_from]; [exact I|].
  case_bool_decide as Hr; [apply IH|]. specialize (IH n).
  destruct (merge_from_head n l) as (m' & l' & Hf & Hm). rewrite Hf in *. split; [by rewrite Hm|done].
Qed.
Lemma merge_alternating l : alternating (merge_adjacent_roles l).
Proof. destruct l; [done|]. apply merge_from_alternating. Qed.

Lemma ensure_suffix l : exists dropped, l = dropped ++ ensure_starts_with_user l.
Proof.
  induction l as [|m l [d IH]]; [by exists []|]. cbn [ensure_starts_with_user].
  destruct (is_user_anchor m); [by exists []|]. exists (m :: d). cbn. by rewrite <- IH.
Qed.
Lemma ensure_starts l : starts_with_user (ensure_starts_with_user l).
Proof. induction l as [|m l IH]; [done|]. cbn [ensure_starts_with_user]. by destruct (is_user_anchor m) eqn:E. Qed.

Lemma repair_shape l : alternating (repair l) /\ starts_with_user (repair l).
Proof.
  unfold repair. split; [|apply ensure_starts].
  destruct (ensure_suffix (merge_adjacent_roles (strip_orphaned_tool_blocks l))) as [d Hd].
  apply (alternating_suffix d). rewrite <- Hd. apply merge_alternating.
Qed.

(** ** Calls and results *)

(** A call or a result, by its id. *)
Inductive tag : Type := Call (id : string) | Result (id : string).
Definition tag_of (b : ContentBlock Number) : option tag :=
  match b with
  | ToolUse id _ _ => Some (Call id)
  | ToolResult id _ _ => Some (Result id)
  | _ => None
  end.
Definition tags (blocks : list (ContentBlock Number)) : list tag := omap tag_of blocks.
Definition transcript_tags (l : list (ChatMessage Number)) : list tag := tags (blocks_of l).

(** No call comes after a result that has its id. *)
Definition calls_first (ts : list tag) : Prop :=
  forall before after id, ts = before ++ after -> Result id ∈ before -> Call id ∉ after.

Lemma use_ids_tags l id : id ∈ use_ids l <-> Call id ∈ transcript_tags l.
Proof.
  unfold use_ids, transcript_tags, tags. rewrite !list_elem_of_omap. split.
  - intros ([] & Hin & [= ->]). eexists. by split.
  - intros ([] & Hin & [= ->]). eexists. by split.
Qed.
Lemma result_ids_tags l id : id ∈ result_ids l <-> Result id ∈ transcript_tags l.
Proof.
  unfold result_ids, transcript_tags, tags. rewrite !list_elem_of_omap. split.
  - intros ([] & Hin & [= ->]). eexists. by split.
  - intros ([] & Hin & [= ->]). eexists. by split.
Qed.

Lemma tags_app bs bs' : tags (bs ++ bs') = tags bs ++ tags bs'.
Proof. apply omap_app. Qed.
Lemma blocks_of_app l l' : blocks_of (l ++ l') = blocks_of l ++ blocks_of l'.
Proof. unfold blocks_of. by rewrite map_app, concat_app. Qed.
Lemma transcript_tags_app l l' : transcript_tags (l ++ l') = transcript_tags l ++ transcript_tags l'.
Proof. unfold transcript_tags. by rewrite blocks_of_app, tags_app. Qed.
Lemma transcript_tags_cons m l : transcript_tags (m :: l) = tags (content m) ++ transcript_tags l.
Proof. apply (transcript_tags_app [m] l) || (unfold transcript_tags; by rewrite <- tags_app). Qed.

Lemma tags_map f bs : (forall b, tag_of (f b) = tag_of b) -> tags (map f bs) = tags bs.
Proof. intros H. induction bs as [|b bs IH]; [done|]. cbn. rewrite H. unfold tags in IH. by rewrite IH. Qed.
Lemma drop_replay_tag b : tag_of (drop_replay b) = tag_of b.
Proof. by destruct b. Qed.

Lemma no_orphans l : has_orphaned_tool_blocks l = false <->
  forall id, Call id ∈ transcript_tags l <-> Result id ∈ transcript_tags l.
Proof.
  unfold has_orphaned_tool_blocks. rewrite orb_false_iff, !existsb_false, !Forall_forall. split.
  - intros [Hu Hr] id. rewrite <- use_ids_tags, <- result_ids_tags. split; intros H.
    + specialize (Hu _ H). by apply negb_false_iff, str_mem_true in Hu.
    + specialize (Hr _ H). by apply negb_false_iff, str_mem_true in Hr.
  - intros H. split; intros id Hin; apply negb_false_iff, str_mem_true;
      [apply result_ids_tags, H, use_ids_tags | apply use_ids_tags, H, result_ids_tags]; done.
Qed.

(** ** Stripping *)

Definition tag_paired (uses results : list string) (t : tag) : bool :=
  match t with Call id => str_mem id results | Result id => str_mem id uses end.

Lemma tags_filter uses results bs :
  tags (List.filter (paired uses results) bs) = List.filter (tag_paired uses results) (tags bs).
Proof.
  induction bs as [|b bs IH]; [done|]. unfold tags in *. cbn.
  destruct b as [| id n i | | id c e |]; cbn; rewrite <- ?IH; try done;
    by destruct (str_mem id _); cbn; rewrite <- ?IH.
Qed.
Lemma strip_message_tags uses results m :
  tags (content (strip_message uses results m)) = List.filter (tag_paired uses results) (tags (content m)).
Proof.
  unfold strip_message. rewrite <- tags_filter. destruct (_ && _); [|done].
  cbn. apply tags_map, drop_replay_tag.
Qed.

Lemma tags_nonempty l : transcript_tags (List.filter (fun m => negb (is_empty_message m)) l) = transcript_tags l.
Proof.
  induction l as [|m l IH]; [done|]. cbn [List.filter]. rewrite transcript_tags_cons.
  unfold is_empty_message at 1. destruct (content m) eqn:E; cbn [negb]; [done|].
  by rewrite transcript_tags_cons, IH, E.
Qed.
Lemma strip_tags l : transcript_tags (strip_orphaned_tool_blocks l)
  = List.filter (tag_paired (use_ids l) (result_ids l)) (transcript_tags l).
Proof.
  unfold strip_orphaned_tool_blocks. rewrite tags_nonempty.
  generalize (use_ids l), (result_ids l). intros uses results.
  induction l as [|m l IH]; [done|]. cbn [map].
  by rewrite !transcript_tags_cons, List.filter_app, strip_message_tags, IH.
Qed.

Lemma strip_no_orphans l : has_orphaned_tool_blocks (strip_orphaned_tool_blocks l) = false.
Proof.
  apply no_orphans. intros id. rewrite strip_tags.
  rewrite !list_elem_of_In, !List.filter_In, <- !list_elem_of_In. cbn [tag_paired].
  rewrite !str_mem_true, use_ids_tags, result_ids_tags. tauto.
Qed.

(** ** Merging *)

Lemma absorb_tags m n : tags (content (absorb m n)) = tags (content m) ++ tags (content n).
Proof.
  unfold absorb. rewrite <- tags_app. destruct (bool_decide _); [|done]. cbn. apply tags_map, drop_replay_tag.
Qed.
Lemma merge_from_tags m l : transcript_tags (merge_from m l) = tags (content m) ++ transcript_tags l.
Proof.
  revert m. induction l as [|n l IH]; intros m; cbn [merge_from].
  { by rewrite transcript_tags_cons. }
  rewrite transcript_tags_cons. case_bool_decide; [|by rewrite transcript_tags_cons, IH].
  by rewrite IH, absorb_tags, app_assoc.
Qed.
Lemma merge_tags l : transcript_tags (merge_adjacent_roles l) = transcript_tags l.
Proof. destruct l as [|m l]; [done|]. by rewrite transcript_tags_cons, <- merge_from_tags. Qed.

(** ** Sublists *)

Lemma filter_sublist {A} (p : A -> bool) (l : list A) : List.filter p l `sublist_of` l.
Proof. induction l as [|x l IH]; cbn; [constructor|]. destruct (p x); by constructor. Qed.

Lemma sublist_of_app {A} (k l1 l2 : list A) : k `sublist_of` l1 ++ l2 ->
  exists k1 k2, k = k1 ++ k2 /\ k1 `sublist_of` l1 /\ k2 `sublist_of` l2.
Proof. intros H. by apply sublist_app_r in H. Qed.

Lemma calls_first_sublist ts ts' : ts' `sublist_of` ts -> calls_first ts -> calls_first ts'.
Proof.
  intros Hs Hc before after id -> Hr Hu.
  apply sublist_app_l in Hs as (l1 & l2 & -> & H1 & H2).
  apply (Hc l1 l2 id eq_refl); [by eapply elem_of_sublist | by eapply elem_of_sublist].
Qed.

Lemma repair_tags l : transcript_tags (repair l) `sublist_of` transcript_tags l.
Proof.
  unfold repair. destruct (ensure_suffix (merge_adjacent_roles (strip_orphaned_tool_blocks l))) as [d Hd].
  etransitivity; [|apply filter_sublist]. rewrite <- strip_tags, <- (merge_tags (strip_orphaned_tool_blocks l)).
  apply (f_equal transcript_tags) in Hd. rewrite transcript_tags_app in Hd. rewrite Hd. by apply sublist_inserts_l.
Qed.

(** Every call that repair keeps has its result. *)
Lemma repair_answers l : calls_first (transcript_tags l) ->
  forall id, Call id ∈ transcript_tags (repair l) -> Result id ∈ transcript_tags (repair l).
Proof.
  intros Hc id Hin. unfold repair in *.
  set (merged := merge_adjacent_roles (strip_orphaned_tool_blocks l)) in *.
  destruct (ensure_suffix merged) as [d Hd].
  assert (Hno : forall id, Call id ∈ transcript_tags merged <-> Result id ∈ transcript_tags merged).
  { intros i. unfold merged. rewrite merge_tags. apply no_orphans, strip_no_orphans. }
  assert (Hcm : calls_first (transcript_tags merged)).
  { unfold merged. rewrite merge_tags. eapply calls_first_sublist; [|exact Hc]. rewrite strip_tags. apply filter_sublist. }
  apply (f_equal transcript_tags) in Hd. rewrite transcript_tags_app in Hd. rewrite Hd in Hcm, Hno.
  assert (Hres : Result id ∈ transcript_tags d ++ transcript_tags (ensure_starts_with_user merged)).
  { apply Hno. set_solver. }
  apply elem_of_app in Hres as [Hres|]; [|done].
  by destruct (Hcm _ _ id eq_refl Hres).
Qed.
End Facts.

Open Scope nat_scope.

(** ** Truncated text *)

Lemma div_ceil_le a t : a <= t * 3 -> div_ceil a 3 <= t.
Proof. intros H. unfold div_ceil. apply Nat.lt_succ_r, Nat.Div0.div_lt_upper_bound; lia. Qed.

Lemma suffix_tight : Forall tight (chars TRUNCATION_SUFFIX).
Proof. vm_compute. repeat constructor. Qed.

Lemma truncate_str_fits s t : estimate_tokens (truncate_str s t) <= t.
Proof.
  unfold truncate_str. cbv zeta. set (suffix := length (chars TRUNCATION_SUFFIX)).
  pose proof (chars_good s) as Hg. destruct (Nat.leb_spec (length (chars s)) (t * 3)) as [Hl|Hl].
  { by apply div_ceil_le. }
  destruct (Nat.leb_spec (t * 3) suffix) as [Hs|Hs]; apply div_ceil_le.
  - rewrite chars_join by (by apply good_take). rewrite length_take. lia.
  - rewrite <- (join_chars TRUNCATION_SUFFIX), <- join_empty_app.
    rewrite chars_join.
    + rewrite length_app, length_take. fold suffix. lia.
    + pose proof (good_take (t * 3 - suffix) _ Hg) as Ht. pose proof suffix_tight as Hx.
      destruct (take _ (chars s)) as [|c l]; cbn [app]; [by apply good_tight|].
      destruct Ht as [Hc Hl']. split; [done|by apply Forall_app].
Qed.

Section Costs.
Context {Number : Type} `{HJ : SerdeJson Number} `{HT : !SerdeJsonText Number}.
Implicit Types (b : ContentBlock Number) (m : ChatMessage Number) (l : list (ChatMessage Number)).

(** ** Repair *)

Notation block_sum bs := (sum (map estimate_block_tokens bs)).

Lemma transcript_cons m l :
  estimate_transcript_tokens (m :: l) = estimate_message_tokens m + estimate_transcript_tokens l.
Proof. done. Qed.
Lemma transcript_app l l' :
  estimate_transcript_tokens (l ++ l') = estimate_transcript_tokens l + estimate_transcript_tokens l'.
Proof. unfold estimate_transcript_tokens. by rewrite map_app, sum_app. Qed.

Lemma drop_replay_le b : estimate_block_tokens (drop_replay b) <= estimate_block_tokens b.
Proof. destruct b; cbn [drop_replay estimate_block_tokens]; lia. Qed.
Lemma filter_sum_le p bs : block_sum (List.filter p bs) <= block_sum bs.
Proof.
  induction bs as [|b bs IH]; [done|].
  change (block_sum (b :: bs)) with (estimate_block_tokens b + block_sum bs). cbn [List.filter].
  destruct (p b); [change (block_sum (b :: List.filter p bs)) with (estimate_block_tokens b + block_sum (List.filter p bs))|]; lia.
Qed.

Lemma message_cost m : estimate_message_tokens m
  = ROLE_OVERHEAD + estimate_reasoning_tokens m + block_sum (content m).
Proof. done. Qed.

Lemma invalidate_le m : estimate_message_tokens (invalidate_provider_native_state m) <= ROLE_OVERHEAD + block_sum (content m).
Proof.
  rewrite message_cost. change (estimate_reasoning_tokens (invalidate_provider_native_state m)) with 0.
  cbn [invalidate_provider_native_state content]. rewrite map_map.
  pose proof (sum_map_le (fun b => estimate_block_tokens (drop_replay b)) estimate_block_tokens (content m)
    (fun b _ => drop_replay_le b)). lia.
Qed.

Lemma strip_message_le uses results m : estimate_message_tokens (strip_message uses results m) <= estimate_message_tokens m.
Proof.
  unfold strip_message. pose proof (filter_sum_le (paired uses results) (content m)) as Hf.
  destruct (_ && _).
  - etransitivity; [apply invalidate_le|]. rewrite (message_cost m). cbn [with_content content]. lia.
  - rewrite !message_cost. change (estimate_reasoning_tokens (with_content m _)) with (estimate_reasoning_tokens m).
    cbn [with_content content]. lia.
Qed.
Lemma strip_le l : estimate_transcript_tokens (strip_orphaned_tool_blocks l) <= estimate_transcript_tokens l.
Proof.
  unfold strip_orphaned_tool_blocks. generalize (use_ids l), (result_ids l). intros uses results.
  induction l as [|m l IH]; [done|]. cbn [map List.filter].
  pose proof (strip_message_le uses results m). destruct (negb _); rewrite ?transcript_cons; rewrite ?transcript_cons in *; lia.
Qed.

Lemma absorb_le m n : estimate_message_tokens (absorb m n) <= estimate_message_tokens m + estimate_message_tokens n.
Proof.
  unfold absorb. rewrite (message_cost m), (message_cost n). destruct (bool_decide _).
  - etransitivity; [apply invalidate_le|]. cbn [with_content content]. rewrite map_app, sum_app. lia.
  - rewrite message_cost. change (estimate_reasoning_tokens (with_content m _)) with (estimate_reasoning_tokens m).
    cbn [with_content content]. rewrite map_app, sum_app. lia.
Qed.
Lemma merge_from_le m l :
  estimate_transcript_tokens (merge_from m l) <= estimate_message_tokens m + estimate_transcript_tokens l.
Proof.
  revert m. induction l as [|n l IH]; intros m; cbn [merge_from]; [done|]. rewrite transcript_cons.
  case_bool_decide; [|rewrite transcript_cons; specialize (IH n); lia].
  specialize (IH (absorb m n)). pose proof (absorb_le m n). lia.
Qed.

Lemma repair_le l : estimate_transcript_tokens (repair l) <= estimate_transcript_tokens l.
Proof.
  unfold repair. set (stripped := strip_orphaned_tool_blocks l).
  destruct (ensure_suffix (merge_adjacent_roles stripped)) as [d Hd].
  assert (estimate_transcript_tokens (merge_adjacent_roles stripped) <= estimate_transcript_tokens stripped) as Hm.
  { destruct stripped as [|m rest]; [done|]. apply merge_from_le. }
  apply (f_equal estimate_transcript_tokens) in Hd. rewrite transcript_app in Hd.
  pose proof (strip_le l). fold stripped in H. lia.
Qed.

(** ** Selection *)

Definition at_floor (es : list Entry) : Prop := Forall (fun e => allocated e = floor e) es.

Lemma kept_tokens_cons e es :
  kept_tokens (e :: es) = (if kept e then allocated e else 0) + kept_tokens es.
Proof. done. Qed.

Lemma alter_cost es j : at_floor es -> kept_at es j = false ->
  kept_tokens (alter (set_kept true) j es) = kept_tokens es + floor_at es j.
Proof.
  revert j. induction es as [|e es IH]; intros j Hf; [done|]. apply Forall_cons in Hf as [He Hes].
  destruct j as [|j].
  - intros Hk. change (kept e = false) in Hk.
    change (allocated e + kept_tokens es = kept_tokens (e :: es) + floor e).
    rewrite kept_tokens_cons, Hk, He. lia.
  - intros Hk. change (kept_at es j = false) in Hk.
    change (kept_tokens (e :: alter (set_kept true) j es) = kept_tokens (e :: es) + floor_at es j).
    rewrite !kept_tokens_cons, (IH j Hes Hk). lia.
Qed.

Lemma alter_at_floor es j : at_floor es -> at_floor (alter (set_kept true) j es).
Proof. intros H. apply Forall_alter; [done|]. by intros e. Qed.

Lemma floor_alter es j i : floor_at (alter (set_kept true) j es) i = floor_at es i.
Proof.
  unfold floor_at. destruct (decide (i = j)) as [->|Hne].
  - rewrite list_lookup_alter_eq. by destruct (es !! j).
  - by rewrite list_lookup_alter_ne.
Qed.
Lemma kept_alter es j i : kept_at (alter (set_kept true) j es) i = kept_at es i || ((i =? j) && (i <? length es)).
Proof.
  unfold kept_at. destruct (Nat.eqb_spec i j) as [->|Hne].
  - rewrite list_lookup_alter_eq. destruct (es !! j) as [e|] eqn:E; cbn [fmap option_fmap option_map].
    + apply lookup_lt_Some in E. replace (j <? length es) with true by (symmetry; by apply Nat.ltb_lt).
      cbn. by rewrite orb_true_r.
    + apply lookup_ge_None in E. by replace (j <? length es) with false by (symmetry; by apply Nat.ltb_ge).
  - rewrite list_lookup_alter_ne by done. cbn. by rewrite orb_false_r.
Qed.

Section Selecting.
Context (messages : list (ChatMessage Number)).

Lemma mark_loop_cost es blocks cost : at_floor es ->
  let '(es', cost') := mark_loop messages es blocks cost in
  at_floor es' /\ length es' = length es /\ kept_tokens es' + cost = kept_tokens es + cost'.
Proof.
  revert es cost. induction blocks as [|b blocks IH]; intros es cost Hf; cbn [mark_loop]; [done|].
  destruct (partner messages b) as [j|]; [|by apply IH].
  destruct (kept_at es j) eqn:Hk; cbn [negb]; [by apply IH|].
  specialize (IH (alter (set_kept true) j es) (cost + floor_at es j) (alter_at_floor _ _ Hf)).
  destruct (mark_loop messages _ blocks _) as [es' cost']. destruct IH as (? & Hl & Hc).
  rewrite alter_cost in Hc by done. rewrite length_alter in Hl. split_and!; [done | done | lia].
Qed.

Lemma pair_cost_loop_mark es es' blocks charged cost :
  length es' = length es ->
  (forall j, floor_at es' j = floor_at es j) ->
  (forall j, j < length es -> kept_at es' j = kept_at es j || existsb (Nat.eqb j) charged) ->
  (forall j, length es <= j -> kept_at es j = false) ->
  pair_cost_loop messages es blocks charged cost = (mark_loop messages es' blocks cost).2.
Proof.
  revert es' charged cost. induction blocks as [|b blocks IH]; intros es' charged cost Hl Hfl Hk Hout; [done|].
  cbn [pair_cost_loop mark_loop]. destruct (partner messages b) as [j|]; [|by apply IH].
  destruct (Nat.lt_ge_cases j (length es)) as [Hj|Hj].
  - rewrite (Hk j Hj). destruct (kept_at es j) eqn:Hkj; cbn [negb andb orb]; [by apply IH|].
    destruct (existsb (Nat.eqb j) charged) eqn:Hc; cbn [negb]; [by apply IH|].
    rewrite Hfl. apply IH; [by rewrite length_alter | intros i; by rewrite floor_alter | | done].
    intros i Hi. rewrite kept_alter, (Hk i Hi), Hl. cbn [existsb].
    replace (i <? length es) with true by (symmetry; by apply Nat.ltb_lt).
    destruct (kept_at es i), (i =? j), (existsb (Nat.eqb i) charged); done.
  - rewrite (Hout j Hj). assert (Hz : floor_at es j = 0) by (unfold floor_at; by rewrite lookup_ge_None_2).
    assert (kept_at es' j = false) as -> by (unfold kept_at; by rewrite lookup_ge_None_2 by lia). cbn [negb andb].
    assert (Halter : alter (set_kept true) j es' = es').
    { apply list_alter_ge || (apply list_eq; intros i; destruct (decide (i = j)) as [->|Hne];
        [rewrite list_lookup_alter_eq, lookup_ge_None_2 by lia; done | by rewrite list_lookup_alter_ne]). }
    rewrite Halter, Hfl, Hz, Nat.add_0_r. destruct (existsb (Nat.eqb j) charged); cbn [negb]; [by apply IH|].
    apply IH; [done | done | | done]. intros i Hi. rewrite (Hk i Hi). cbn [existsb].
    replace (i =? j) with false by (symmetry; apply Nat.eqb_neq; lia). done.
Qed.

Lemma kept_at_out es j : length es <= j -> kept_at es j = false.
Proof. intros H. unfold kept_at. by rewrite lookup_ge_None_2. Qed.

Lemma pair_cost_mark es i : pair_cost messages es i = (mark_pair_kept messages es i).2.
Proof.
  unfold pair_cost, mark_pair_kept. apply pair_cost_loop_mark.
  - by rewrite length_alter.
  - intros j. by rewrite floor_alter.
  - intros j Hj. rewrite kept_alter. cbn [existsb]. rewrite orb_false_r.
    replace (j <? length es) with true by (symmetry; by apply Nat.ltb_lt). by rewrite andb_true_r.
  - intros j. apply kept_at_out.
Qed.

Lemma mark_pair_cost es i : at_floor es -> kept_at es i = false ->
  let '(es', cost) := mark_pair_kept messages es i in
  at_floor es' /\ length es' = length es /\ kept_tokens es' = kept_tokens es + cost.
Proof.
  intros Hf Hk. unfold mark_pair_kept.
  pose proof (mark_loop_cost (alter (set_kept true) i es) (content_at messages i) (floor_at es i) (alter_at_floor _ _ Hf)) as H.
  destruct (mark_loop messages _ _ _) as [es' cost]. destruct H as (? & Hl & Hc).
  rewrite alter_cost in Hc by done. rewrite length_alter in Hl. split_and!; [done | done | lia].
Qed.

(** What is kept and what remains add up to the budget. *)
Lemma select_loop_cost n es remaining : at_floor es ->
  let '(es', remaining') := select_loop messages n es remaining in
  at_floor es' /\ length es' = length es /\ kept_tokens es' + remaining' = kept_tokens es + remaining.
Proof.
  revert es remaining. induction n as [|i IH]; intros es remaining Hf; cbn [select_loop]; [done|].
  destruct (kept_at es i) eqn:Hk; [by apply IH|].
  destruct (Nat.leb_spec (pair_cost messages es i) remaining) as [Hc|]; [|by apply IH].
  rewrite pair_cost_mark in Hc. pose proof (mark_pair_cost es i Hf Hk) as Hm.
  destruct (mark_pair_kept messages es i) as [es1 cost]. cbn [snd] in Hc. destruct Hm as (Hf1 & Hl1 & Hk1).
  specialize (IH es1 (remaining - cost) Hf1). destruct (select_loop messages i es1 _) as [es2 rem2].
  destruct IH as (? & ? & ?). split_and!; [done | lia | lia].
Qed.
End Selecting.
End Costs.
