(* ===== verification/ContextKeeps.v ===== *)
(** * What survives of a transcript

    What the stages of the reduction leave unchanged in the entries, how much
    the kept entries hold after each of them, and what the emitted messages
    cost when only text is shortened; the boundaries below which pixels are
    dropped; a transcript with a message that can lead a request never reduces
    to nothing, tool blocks keep their order, and opaque provider state never
    outlives the response it was minted for. *)
From S2P Require Import Prelude RustStr TurnTables TurnResolve Json ContextFit.

Open Scope nat_scope.

(** The entries without their marks *)
Definition forget (es : list Entry) : list Entry := map (set_kept true) es.

Lemma forget_alter b j es : forget (alter (set_kept b) j es) = forget es.
Proof.
  revert j. induction es as [|e es IH]; intros [|j]; try done.
  change (set_kept true e :: forget (alter (set_kept b) j es) = set_kept true e :: forget es). by rewrite IH.
Qed.
Lemma forget_map b es : forget (map (set_kept b) es) = forget es.
Proof. unfold forget. rewrite map_map. by apply map_ext. Qed.
Lemma forget_at_floor es es' : forget es' = forget es -> at_floor es -> at_floor es'.
Proof.
  revert es'. induction es as [|e es IH]; intros [|e' es'] H Hf; try done.
  apply Forall_cons in Hf as [He Hes]. injection H as H1 H2 H3 Hr. 
  apply Forall_cons. split; [by rewrite H2, H3|by apply IH].
Qed.
Lemma forget_floor es es' i : forget es' = forget es -> floor_at es' i = floor_at es i.
Proof.
  intros H. apply (f_equal (lookup i)) in H. unfold forget in H. rewrite !list_lookup_fmap in H.
  unfold floor_at. destruct (es' !! i), (es !! i); cbn in H |- *; try done. by injection H as ? ?.
Qed.
Lemma forget_length es es' : forget es' = forget es -> length es' = length es.
Proof. intros H. apply (f_equal length) in H. unfold forget in H. by rewrite !length_map in H. Qed.

Section Budget.
Context {Number : Type} `{HJ : SerdeJson Number} `{HT : !SerdeJsonText Number}.
Implicit Types (b : ContentBlock Number) (m : ChatMessage Number) (l : list (ChatMessage Number)).

Section Marks.
Context (messages : list (ChatMessage Number)).

Lemma mark_loop_forget es blocks cost : forget (mark_loop messages es blocks cost).1 = forget es.
Proof.
  revert es cost. induction blocks as [|b blocks IH]; intros es cost; cbn [mark_loop]; [done|].
  destruct (partner messages b) as [j|]; [|apply IH].
  destruct (negb _); rewrite IH; [apply forget_alter|done].
Qed.
Lemma mark_pair_forget es i : forget (mark_pair_kept messages es i).1 = forget es.
Proof. unfold mark_pair_kept. by rewrite mark_loop_forget, forget_alter. Qed.
Lemma select_loop_forget n es remaining : forget (select_loop messages n es remaining).1 = forget es.
Proof.
  revert es remaining. induction n as [|i IH]; intros es remaining; cbn [select_loop]; [done|].
  destruct (kept_at es i); [apply IH|]. destruct (_ <=? _); [|apply IH].
  pose proof (mark_pair_forget es i). destruct (mark_pair_kept messages es i) as [es' cost]. by rewrite IH.
Qed.

(** Marks are only ever added. *)
Definition kept_in (es es' : list Entry) : Prop := forall i, kept_at es i = true -> kept_at es' i = true.
Lemma kept_in_alter es j : kept_in es (alter (set_kept true) j es).
Proof. intros i H. by rewrite kept_alter, H. Qed.
Lemma mark_loop_kept es blocks cost : kept_in es (mark_loop messages es blocks cost).1.
Proof.
  revert es cost. induction blocks as [|b blocks IH]; intros es cost; cbn [mark_loop]; [by intros i|].
  destruct (partner messages b) as [j|]; [|apply IH].
  destruct (negb _); [|apply IH]. intros i H. by apply IH, kept_in_alter.
Qed.
Lemma mark_pair_keeps es i : i < length es -> kept_at (mark_pair_kept messages es i).1 i = true.
Proof.
  intros Hi. apply mark_loop_kept. rewrite kept_alter, Nat.eqb_refl.
  replace (i <? length es) with true by (symmetry; by apply Nat.ltb_lt). apply orb_true_r.
Qed.
Lemma mark_pair_kept_in es i : kept_in es (mark_pair_kept messages es i).1.
Proof. intros j H. by apply mark_loop_kept, kept_in_alter. Qed.
Lemma select_loop_kept n es remaining : kept_in es (select_loop messages n es remaining).1.
Proof.
  revert es remaining. induction n as [|i IH]; intros es remaining; cbn [select_loop]; [by intros j|].
  destruct (kept_at es i); [apply IH|]. destruct (_ <=? _); [|apply IH].
  pose proof (mark_pair_kept_in es i) as Hm. destruct (mark_pair_kept messages es i) as [es' cost].
  intros j H. by apply IH, Hm.
Qed.

Lemma drop_all_tokens es : kept_tokens (map (set_kept false) es) = 0.
Proof. induction es as [|e es IH]; [done|]. cbn [map]. by rewrite kept_tokens_cons. Qed.

Lemma newest_anchor_spec n i : newest_anchor messages n = Some i ->
  i < n /\ exists m, messages !! i = Some m /\ is_user_anchor m = true.
Proof.
  induction n as [|k IH]; cbn [newest_anchor]; [done|].
  destruct (messages !! k) as [m|] eqn:E.
  - destruct (is_user_anchor m) eqn:Ha; [intros [= ->]; split; [lia|by exists m]|].
    intros H. destruct (IH H). split; [lia|done].
  - intros H. destruct (IH H). split; [lia|done].
Qed.

Lemma has_kept_anchor_at es i m : kept_at es i = true -> messages !! i = Some m -> is_user_anchor m = true ->
  has_kept_anchor messages es = true.
Proof.
  unfold kept_at, has_kept_anchor. intros Hk Hm Ha. destruct (es !! i) as [e|] eqn:E; [|done].
  apply existsb_exists. exists (e, m). split.
  - apply list_elem_of_In, list_elem_of_lookup. exists i. by rewrite lookup_zip_with, E, Hm.
  - cbn. by rewrite Hk, Ha.
Qed.
Lemma no_kept_anchor_at es i m : has_kept_anchor messages es = false -> messages !! i = Some m ->
  is_user_anchor m = true -> kept_at es i = false.
Proof.
  intros H Hm Ha. destruct (kept_at es i) eqn:E; [|done]. by rewrite (has_kept_anchor_at es i m) in H.
Qed.


Lemma select_forget es budget : forget (select_newest_to_fit messages es budget) = forget es.
Proof.
  unfold select_newest_to_fit.
  pose proof (select_loop_forget (length es) (map (set_kept false) es) budget) as H.
  destruct (select_loop messages _ _ budget) as [es1 rem1]. cbn [fst] in H. rewrite forget_map in H.
  destruct (has_kept_anchor messages es1); [done|].
  destruct (newest_anchor messages _) as [i|]; [by rewrite mark_pair_forget|done].
Qed.

(** Selection spends the budget, and more only for an anchor it would have
    lost: then the anchor and what is paired with it. *)
Lemma select_cost es budget : at_floor es ->
  kept_tokens (select_newest_to_fit messages es budget) <= budget
  \/ exists es' i m, forget es' = forget es /\ kept_tokens es' <= budget
     /\ newest_anchor messages (length es) = Some i /\ messages !! i = Some m /\ kept_at es' i = false
     /\ has_kept_anchor messages es' = false
     /\ select_newest_to_fit messages es budget = (mark_pair_kept messages es' i).1
     /\ es' = (select_loop messages (length es) (map (set_kept false) es) budget).1.
Proof.
  intros Hf. unfold select_newest_to_fit.
  pose proof (select_loop_forget (length es) (map (set_kept false) es) budget) as Hfg.
  rewrite forget_map in Hfg.
  pose proof (select_loop_cost messages (length es) (map (set_kept false) es) budget
    (forget_at_floor es _ (forget_map false es) Hf)) as Hc.
  destruct (select_loop messages _ _ budget) as [es1 rem1]. cbn [fst] in *. destruct Hc as (_ & Hlen & Hc).
  rewrite drop_all_tokens in Hc. rewrite length_map in Hlen.
  destruct (has_kept_anchor messages es1) eqn:Ha; [left; lia|]. rewrite Hlen.
  destruct (newest_anchor messages (length es)) as [i|] eqn:Hn; [|left; lia].
  destruct (newest_anchor_spec _ _ Hn) as (_ & m & Hm & Hu). right. exists es1, i, m.
  split_and!; try done; [lia | by apply (no_kept_anchor_at es1 i m)].
Qed.
End Marks.

(** ** Surplus *)

Definition grown (e' e : Entry) : Prop :=
  kept e' = kept e /\ full e' = full e /\ floor e' = floor e /\ allocated e <= allocated e'.

Lemma restore_grown es surplus : Forall2 grown (restore es surplus).1 es.
Proof.
  revert surplus. induction es as [|e es IH]; intros s; cbn [restore]; [constructor|].
  specialize (IH s). destruct (restore es s) as [es' s']. cbn [fst] in IH.
  destruct (negb (kept e) || (s' =? 0)); constructor; try done; unfold grown; cbn; split_and!; done || lia.
Qed.
Lemma restore_tokens es surplus :
  let '(es', surplus') := restore es surplus in kept_tokens es' + surplus' = kept_tokens es + surplus.
Proof.
  revert surplus. induction es as [|e es IH]; intros s; cbn [restore]; [done|].
  specialize (IH s). destruct (restore es s) as [es' s'].
  destruct (kept e) eqn:Hk; cbn [negb orb]; rewrite ?kept_tokens_cons, ?Hk; [|lia].
  destruct (Nat.eqb_spec s' 0); rewrite ?kept_tokens_cons, ?Hk; cbn [kept allocated]; rewrite ?Hk; lia.
Qed.

Lemma allocate_tokens l budget cf :
  kept_tokens (allocate l budget cf) <= Nat.max budget (kept_tokens (select_entries l budget cf)).
Proof.
  unfold allocate. cbv zeta. set (es := select_entries l budget cf).
  pose proof (restore_tokens es (budget - kept_tokens es)) as H.
  destruct (restore es (budget - kept_tokens es)) as [es' s'] eqn:E. cbn [fst].
  destruct (Nat.le_gt_cases (kept_tokens es) budget) as [Hle|Hgt]; [lia|].
  replace (budget - kept_tokens es) with 0 in H by lia. lia.
Qed.

(** ** Emission *)

(** An entry describes its message. *)
Definition describes (cf : nat) (e : Entry) (m : ChatMessage Number) : Prop :=
  full e = estimate_message_tokens m /\ floor e = message_floor m cf /\ floor e <= allocated e.

Lemma block_overhead_le b : block_overhead b <= estimate_block_tokens b.
Proof. destruct b; cbn [block_overhead estimate_block_tokens]; lia. Qed.
Lemma message_floor_le m cf : message_floor m cf <= estimate_message_tokens m.
Proof.
  rewrite message_cost. unfold message_floor. apply Nat.add_le_mono_l, sum_map_le. intros b _. unfold block_floor.
  pose proof (block_overhead_le b). destruct (negb _); lia.
Qed.

Lemma entries_describe l cf : Forall2 (describes cf) (map (entry_of cf) l) l.
Proof. induction l as [|m l IH]; constructor; [|done]. by split_and!. Qed.
Lemma entries_at_floor l cf : at_floor (map (entry_of cf) l).
Proof. apply Forall_map, Forall_true. done. Qed.

Lemma forget_describes cf es es' l : forget es' = forget es ->
  Forall2 (describes cf) es l -> Forall2 (describes cf) es' l.
Proof.
  intros Hf H. revert es' Hf. induction H as [|e m es l (Hfull & Hfloor & Hal) _ IH]; intros [|e' es'] Hf; try done.
  injection Hf as H1 H2 H3 Hr. constructor; [|by apply IH]. unfold describes. by rewrite H1, H2, H3.
Qed.
Lemma grown_describes cf es es' l : Forall2 grown es' es ->
  Forall2 (describes cf) es l -> Forall2 (describes cf) es' l.
Proof.
  intros Hg. revert l. induction Hg as [|e' e es' es (_ & H1 & H2 & H3) _ IH]; intros l H;
    apply Forall2_cons_inv_l in H || (inversion H; subst; constructor).
  destruct H as (m & l' & (Hfull & Hfloor & Hal) & H & ->). constructor; [|by apply IH].
  unfold describes. rewrite H1, H2. split_and!; [done | done | lia].
Qed.

Lemma select_entries_forget l budget cf : forget (select_entries l budget cf) = forget (map (entry_of cf) l).
Proof. unfold select_entries. destruct (_ <? _); [apply select_forget|done]. Qed.
Lemma allocate_describes l budget cf : Forall2 (describes cf) (allocate l budget cf) l.
Proof.
  eapply grown_describes; [apply restore_grown|]. eapply forget_describes; [apply select_entries_forget|].
  apply entries_describe.
Qed.

Lemma emit_cons e es m l : omap emit_message (zip (e :: es) (m :: l))
  = match emit_message (e, m) with
    | Some m' => m' :: omap emit_message (zip es l)
    | None => omap emit_message (zip es l)
    end.
Proof. done. Qed.

(** When truncation fits, what is emitted costs no more than is allocated. *)
Lemma emit_le cf es l : Forall2 (describes cf) es l ->
  (forall m t, m ∈ l -> message_floor m cf <= t -> estimate_message_tokens (truncate_message m t) <= t) ->
  estimate_transcript_tokens (omap emit_message (zip es l)) <= kept_tokens es.
Proof.
  intros Hd Ht. induction Hd as [|e m es l (Hfull & Hfloor & Hal) _ IH]; [done|].
  assert (IH' : estimate_transcript_tokens (omap emit_message (zip es l)) <= kept_tokens es).
  { apply IH. intros m' t Hin. apply Ht. by right. }
  rewrite kept_tokens_cons. rewrite emit_cons.
  cbn [emit_message]. destruct (kept e); cbn [negb]; [|done].
  destruct (Nat.leb_spec (full e) (allocated e)) as [Hle|Hgt]; rewrite transcript_cons.
  - lia.
  - specialize (Ht m (allocated e) ltac:(left) ltac:(lia)). lia.
Qed.

(** ** Truncated messages *)

Definition is_text (b : ContentBlock Number) : bool := match b with Text _ => true | _ => false end.
Definition text_only (l : list (ChatMessage Number)) : Prop :=
  Forall (fun m => forallb is_text (content m) = true) l.

Lemma content_share_le budget total block : total <> 0 ->
  content_share budget total block <= budget * block / total.
Proof.
  intros Ht. unfold content_share. destruct (Nat.eqb_spec total 0) as [|_]; [done|].
  rewrite <- (Nat2Z.id (budget * block / total)). apply Z2Nat.inj_le.
  - apply Z.div_pos; [apply Z.mod_pos_bound; lia | lia].
  - lia.
  - rewrite Nat2Z.inj_div, Nat2Z.inj_mul. apply Z.div_le_mono; [lia|]. apply Z.mod_le; lia.
Qed.

Lemma shares_le {A} budget total (f : A -> nat) (xs : list A) : total <> 0 -> sum (map f xs) <= total ->
  sum (map (fun x => budget * f x / total) xs) <= budget.
Proof.
  intros Ht Hsum.
  assert (H : total * sum (map (fun x => budget * f x / total) xs) <= budget * sum (map f xs)).
  { clear Hsum. induction xs as [|x xs IH]; [cbn; lia|].
    change (total * (budget * f x / total + sum (map (fun x => budget * f x / total) xs))
      <= budget * (f x + sum (map f xs))). pose proof (Nat.Div0.mul_div_le (budget * f x) total). nia. }
  apply (Nat.mul_le_mono_l _ _ budget) in Hsum. apply (Nat.mul_le_mono_pos_l _ _ total); [lia|]. lia.
Qed.

Lemma truncate_text_le text share : TEXT_OVERHEAD <= share ->
  estimate_block_tokens (truncate_block (Text (Number := Number) text) share) <= share.
Proof.
  intros H. cbn [truncate_block estimate_block_tokens].
  pose proof (truncate_str_fits text (share - TEXT_OVERHEAD)). lia.
Qed.

Lemma sum_map_plus {A} (f g : A -> nat) xs : sum (map (fun x => f x + g x) xs) = sum (map f xs) + sum (map g xs).
Proof.
  induction xs as [|x xs IH]; [done|].
  change (f x + g x + sum (map (fun x => f x + g x) xs) = (f x + sum (map f xs)) + (g x + sum (map g xs))). lia.
Qed.

Lemma sum_map_zero {A} (f : A -> nat) xs : (forall x, f x = 0) -> sum (map f xs) = 0.
Proof. intros H. induction xs as [|x xs IH]; [done|]. change (f x + sum (map f xs) = 0). by rewrite H. Qed.

Lemma truncate_message_fits m cf t : forallb is_text (content m) = true -> message_floor m cf <= t ->
  estimate_message_tokens (truncate_message m t) <= t.
Proof.
  intros Htext Hfloor. unfold truncate_message. destruct (content m) as [|b0 bs0] eqn:E.
  { unfold message_floor in Hfloor. rewrite E in Hfloor. rewrite message_cost, E. exact Hfloor. }
  rewrite <- E in *. clear E b0 bs0. cbv zeta.
  assert (Hover : ROLE_OVERHEAD + estimate_reasoning_tokens m + sum (map block_overhead (content m)) <= t).
  { etransitivity; [|exact Hfloor]. unfold message_floor. apply Nat.add_le_mono_l, sum_map_le.
    intros b _. unfold block_floor. pose proof (block_overhead_le b). destruct (negb _); lia. }
  set (cb := t - ROLE_OVERHEAD - estimate_reasoning_tokens m - sum (map block_overhead (content m))).
  set (total := sum (map block_content (content m))).
  rewrite message_cost. cbn [with_content content]. rewrite map_map.
  change (estimate_reasoning_tokens (with_content m _)) with (estimate_reasoning_tokens m).
  assert (Hshare : sum (map (fun b => content_share cb total (block_content b)) (content m)) <= cb).
  { destruct (decide (total = 0)) as [H0|H0].
    - rewrite (sum_map_zero (fun b => content_share cb total (block_content b))); [lia|].
      intros b. unfold content_share. by rewrite H0.
    - etransitivity; [apply sum_map_le; intros b _; by apply content_share_le|]. by apply shares_le. }
  etransitivity; [apply Nat.add_le_mono_l, (sum_map_le _ (fun b => block_overhead b + content_share cb total (block_content b)))|].
  - intros b Hb. cbv beta. destruct (Nat.leb_spec (estimate_block_tokens b)
      (block_overhead b + content_share cb total (block_content b))) as [Hle|_]; [done|].
    apply list_elem_of_In in Hb. apply (proj1 (forallb_forall _ _) Htext) in Hb. destruct b; try done.
    apply truncate_text_le. cbn [block_overhead]. lia.
  - rewrite sum_map_plus. unfold cb in Hshare |- *. lia.
Qed.
End Budget.

Open Scope nat_scope.

Section Images.
Context {Number : Type}.
Implicit Types (b : ContentBlock Number) (bs : list (ContentBlock Number))
  (m : ChatMessage Number) (l : list (ChatMessage Number)).

Definition images (bs : list (ContentBlock Number)) : list (ContentBlock Number) := List.filter is_image bs.

(** The blocks and messages with some images replaced by their stand-in *)
Definition evicted (b' b : ContentBlock Number) : Prop := b' = b \/ is_image b = true /\ b' = evict_image_block b.
Definition evicted_message (m' m : ChatMessage Number) : Prop :=
  role m' = role m /\ reasoning m' = reasoning m /\ Forall2 evicted (content m') (content m).

Lemma stand_in_no_image b : is_image (evict_image_block b) = false.
Proof. by destruct b. Qed.

Lemma evict_blocks_spec q bs : let '(q', bs') := evict_in_blocks q bs in
  q' = q - length (images bs) /\ images bs' = drop q (images bs) /\ Forall2 evicted bs' bs.
Proof.
  revert q. induction bs as [|b bs IH]; intros q; [cbn; rewrite drop_nil; split_and!; [lia|done|constructor]|].
  cbn [evict_in_blocks]. unfold images in *. destruct (is_image b) eqn:Hb; [destruct q as [|q]|].
  - specialize (IH 0). destruct (evict_in_blocks 0 bs) as [q' bs']. destruct IH as (-> & Hi & Hf).
    cbn [List.filter]. rewrite Hb, Hi, !drop_0. split_and!; [lia | done | constructor; [by left|done]].
  - specialize (IH q). destruct (evict_in_blocks q bs) as [q' bs']. destruct IH as (-> & Hi & Hf).
    cbn [List.filter]. rewrite Hb, stand_in_no_image, Hi. cbn [length drop].
    split_and!; [lia | done | constructor; [by right|done]].
  - specialize (IH q). destruct (evict_in_blocks q bs) as [q' bs']. destruct IH as (-> & Hi & Hf).
    cbn [List.filter]. rewrite Hb, Hi. split_and!; [lia | done | constructor; [by left|done]].
Qed.

Lemma images_app bs bs' : images (bs ++ bs') = images bs ++ images bs'.
Proof. apply List.filter_app. Qed.
Lemma blocks_of_cons m l : blocks_of (m :: l) = content m ++ blocks_of l.
Proof. done. Qed.

Lemma evict_messages_spec q l :
  images (blocks_of (evict_in_messages q l)) = drop q (images (blocks_of l))
  /\ Forall2 evicted_message (evict_in_messages q l) l.
Proof.
  revert q. induction l as [|m l IH]; intros q; [cbn; rewrite drop_nil; split; [done|constructor]|].
  cbn [evict_in_messages]. pose proof (evict_blocks_spec q (content m)) as H.
  destruct (evict_in_blocks q (content m)) as [q' bs]. destruct H as (-> & Hi & Hf).
  destruct (IH (q - length (images (content m)))) as [IHi IHf]. split.
  - rewrite !blocks_of_cons, !images_app. change (content (with_content m bs)) with bs.
    by rewrite Hi, IHi, skipn_app.
  - constructor; [by split_and!|done].
Qed.

Lemma evict_none_blocks bs : evict_in_blocks 0 bs = (0, bs).
Proof. induction bs as [|b bs IH]; [done|]. cbn [evict_in_blocks]. rewrite IH. by destruct (is_image b). Qed.
Lemma evict_none l : evict_in_messages 0 l = l.
Proof. induction l as [|m l IH]; [done|]. cbn [evict_in_messages]. rewrite evict_none_blocks, IH. by destruct m. Qed.

(** Messages past the last evicted image are left alone. *)
Lemma evict_app q l l' : q <= image_count l -> evict_in_messages q (l ++ l') = evict_in_messages q l ++ l'.
Proof.
  unfold image_count. revert q. induction l as [|m l IH]; intros q Hq.
  { cbn in Hq. replace q with 0 by lia. cbn [app]. by rewrite evict_none. }
  cbn [evict_in_messages app]. pose proof (evict_blocks_spec q (content m)) as H.
  destruct (evict_in_blocks q (content m)) as [q' bs]. destruct H as (-> & _ & _).
  rewrite IH; [done|]. rewrite blocks_of_cons in Hq. fold (images (content m ++ blocks_of l)) in Hq.
  rewrite images_app, length_app in Hq. fold (images (blocks_of l)). lia.
Qed.

(** ** The cap *)

Lemma image_bucket_bound keep : 1 <= image_bucket keep /\ image_bucket keep <= Nat.max keep 1.
Proof.
  unfold image_bucket, div_ceil. pose proof (Nat.div_mod (keep + (2 - 1)) 2 ltac:(lia)).
  pose proof (Nat.mod_upper_bound (keep + (2 - 1)) 2 ltac:(lia)). lia.
Qed.
Lemma div_ceil_mul a c : 1 <= c -> a <= div_ceil a c * c /\ div_ceil a c * c <= a + (c - 1).
Proof.
  intros Hc. unfold div_ceil. pose proof (Nat.div_mod (a + (c - 1)) c ltac:(lia)) as Hd.
  pose proof (Nat.mod_upper_bound (a + (c - 1)) c ltac:(lia)). rewrite Nat.mul_comm. lia.
Qed.
Lemma image_cutoff_bound keep total :
  total - keep <= image_cutoff keep total
  /\ image_cutoff keep total <= (total - keep) + (image_bucket keep - 1)
  /\ image_cutoff keep total <= total
  /\ (total <= keep -> image_cutoff keep total = 0).
Proof.
  unfold image_cutoff. destruct (image_bucket_bound keep) as [H1 H2].
  destruct (div_ceil_mul (total - keep) (image_bucket keep) H1) as [H3 H4].
  assert (H0 : total <= keep -> div_ceil (total - keep) (image_bucket keep) * image_bucket keep = 0).
  { intros H. replace (total - keep) with 0 by lia. unfold div_ceil. rewrite Nat.div_small by lia. done. }
  split_and!; [done | done | | done]. destruct (Nat.le_gt_cases total keep); [rewrite H0; lia | lia].
Qed.

(** ** The window *)

Definition preview_message (m : ChatMessage Number) : ChatMessage Number :=
  if existsb is_tool_result (content m) then with_content m (map preview_omitted (content m)) else m.
Definition preview_cutoff (n keep : nat) : nat := (n - keep) / Nat.max keep 1 * Nat.max keep 1.

Lemma evict_previews_eq l keep :
  evict_old_tool_result_images l keep
  = map preview_message (take (preview_cutoff (length l) keep) l) ++ drop (preview_cutoff (length l) keep) l.
Proof. done. Qed.
Lemma preview_cutoff_bound n keep :
  preview_cutoff n keep <= n - keep /\ n - preview_cutoff n keep <= keep + (Nat.max keep 1 - 1).
Proof.
  unfold preview_cutoff. pose proof (Nat.div_mod (n - keep) (Nat.max keep 1) ltac:(lia)) as Hd.
  pose proof (Nat.mod_upper_bound (n - keep) (Nat.max keep 1) ltac:(lia)).
  rewrite (Nat.mul_comm ((n - keep) / _)). split; [lia|]. lia.
Qed.
Lemma preview_idempotent m : preview_message (preview_message m) = preview_message m.
Proof.
  unfold preview_message. destruct (existsb is_tool_result (content m)) eqn:E; [|by rewrite E].
  cbn [with_content content].
  assert (existsb is_tool_result (map preview_omitted (content m)) = true) as ->.
  { apply existsb_exists in E as (b & Hin & Hb). apply existsb_exists. exists (preview_omitted b).
    split; [by apply in_map|by destruct b]. }
  unfold with_content. cbn [role content reasoning]. f_equal. rewrite map_map. apply map_ext. by intros [].
Qed.
End Images.

Open Scope nat_scope.

Section Anchors.
Context {Number : Type} `{HJ : SerdeJson Number} `{HT : !SerdeJsonText Number}.
Implicit Types (b : ContentBlock Number) (m : ChatMessage Number) (l : list (ChatMessage Number)).

(** ** Anchors *)

Definition opens b : bool := match b with Text _ | Image _ => true | _ => false end.
Definition anchored l : bool := existsb is_user_anchor l.

Lemma anchor_iff m : is_user_anchor m = true <-> role m = RUser /\ existsb opens (content m) = true.
Proof. unfold is_user_anchor. by rewrite andb_true_iff, bool_decide_eq_true. Qed.
Lemma opens_filter uses results bs : existsb opens (List.filter (paired uses results) bs) = existsb opens bs.
Proof.
  induction bs as [|b bs IH]; [done|]. destruct b; cbn [List.filter paired existsb opens]; rewrite ?IH; try done;
    destruct (str_mem _ _); cbn [existsb opens]; by rewrite ?IH.
Qed.

Lemma strip_message_anchor uses results m : is_user_anchor m = true ->
  is_user_anchor (strip_message uses results m) = true.
Proof.
  rewrite !anchor_iff. intros [Hr Ho]. unfold strip_message.
  rewrite bool_decide_eq_false_2 by (by rewrite Hr). cbn [andb with_content role content].
  by rewrite opens_filter.
Qed.
Lemma strip_anchored l : anchored l = true -> anchored (strip_orphaned_tool_blocks l) = true.
Proof.
  unfold anchored, strip_orphaned_tool_blocks. intros (m & Hin & Ha)%existsb_exists.
  apply existsb_exists. eexists. split; [|by apply strip_message_anchor, Ha].
  apply List.filter_In. split; [by apply in_map|].
  apply (strip_message_anchor (use_ids l) (result_ids l)), anchor_iff in Ha as [_ Ho].
  unfold is_empty_message. by destruct (content _).
Qed.

Lemma absorb_anchor m n : role m = role n -> is_user_anchor m || is_user_anchor n = true ->
  is_user_anchor (absorb m n) = true.
Proof.
  intros Hr Ha. assert (Hrm : role m = RUser).
  { apply orb_true_iff in Ha as [H|H]; apply anchor_iff in H as [H _]; congruence. }
  apply anchor_iff. unfold absorb. rewrite bool_decide_eq_false_2 by (cbn; by rewrite Hrm).
  cbn [with_content role content]. split; [done|]. rewrite existsb_app.
  apply orb_true_iff in Ha as [H|H]; apply anchor_iff in H as [_ ->]; [done|apply orb_true_r].
Qed.
Lemma merge_from_anchored m l : anchored (m :: l) = true -> anchored (merge_from m l) = true.
Proof.
  unfold anchored. revert m. induction l as [|n l IH]; intros m H; cbn [merge_from]; [done|].
  case_bool_decide as Hr.
  - apply IH. cbn [existsb] in *. rewrite orb_assoc in H. apply orb_true_iff in H as [H|H].
    + by rewrite absorb_anchor.
    + rewrite H. apply orb_true_r.
  - cbn [existsb] in H |- *. apply orb_true_iff in H as [->|H]; [done|].
    rewrite (IH n) by done. apply orb_true_r.
Qed.
Lemma repair_nonempty l : anchored l = true -> repair l <> [].
Proof.
  intros H%strip_anchored. unfold repair.
  assert (Hm : anchored (merge_adjacent_roles (strip_orphaned_tool_blocks l)) = true).
  { destruct (strip_orphaned_tool_blocks l); [done|]. by apply merge_from_anchored. }
  clear H. induction (merge_adjacent_roles _) as [|m k IH]; [done|]. cbn [ensure_starts_with_user].
  destruct (is_user_anchor m) eqn:E; [done|]. apply IH. unfold anchored in Hm. cbn [existsb] in Hm. by rewrite E in Hm.
Qed.

(** ** Emission *)

Lemma truncate_block_opens b t : opens (truncate_block b t) = opens b.
Proof. by destruct b. Qed.
Lemma truncate_block_tag b t : tag_of (truncate_block b t) = tag_of b.
Proof. by destruct b. Qed.

Lemma truncate_message_shape m t : exists f : ContentBlock Number -> ContentBlock Number,
  (forall b, opens (f b) = opens b /\ tag_of (f b) = tag_of b)
  /\ truncate_message m t = with_content m (map f (content m)).
Proof.
  unfold truncate_message. destruct (content m) as [|b bs] eqn:E.
  - exists (fun b => b). split; [done|]. cbn. rewrite <- E. by destruct m.
  - eexists. split; [|reflexivity]. intros b0. cbv beta zeta. destruct (_ <=? _); [done|].
    by rewrite truncate_block_opens, truncate_block_tag.
Qed.

Lemma emit_spec p m' : emit_message p = Some m' ->
  kept p.1 = true /\ (m' = p.2 \/ exists t, m' = truncate_message p.2 t).
Proof.
  destruct p as [e m]. cbn. destruct (kept e); cbn; [|done].
  destruct (_ <=? _); intros [= <-]; [by auto|eauto].
Qed.
Lemma truncate_message_anchor m t : is_user_anchor (truncate_message m t) = is_user_anchor m.
Proof.
  destruct (truncate_message_shape m t) as (f & Hf & ->). unfold is_user_anchor. cbn [with_content role content].
  f_equal. rewrite <- (map_id (content m)) at 2. induction (content m) as [|b bs IH]; [done|].
  cbn [map existsb]. rewrite IH. f_equal. exact (proj1 (Hf b)).
Qed.
Lemma truncate_message_tags m t : tags (content (truncate_message m t)) = tags (content m).
Proof.
  destruct (truncate_message_shape m t) as (f & Hf & ->). cbn [with_content content]. apply tags_map. apply Hf.
Qed.

Lemma emit_tags es l : transcript_tags (omap emit_message (zip es l)) `sublist_of` transcript_tags l.
Proof.
  revert es. induction l as [|m l IH]; intros [|e es]; try solve [apply sublist_nil_l].
  rewrite emit_cons.
  rewrite (transcript_tags_cons m l).
  destruct (emit_message (e, m)) as [m'|] eqn:E; [|by apply sublist_inserts_l].
  rewrite transcript_tags_cons. apply sublist_app; [|done].
  apply emit_spec in E as [_ [->|[t ->]]]; cbn [snd]; [done|by rewrite truncate_message_tags].
Qed.

Lemma emit_anchored es l i m : kept_at es i = true -> l !! i = Some m -> is_user_anchor m = true ->
  anchored (omap emit_message (zip es l)) = true.
Proof.
  unfold kept_at. intros Hk Hm Ha. destruct (es !! i) as [e|] eqn:He; [|done].
  assert (exists m', emit_message (e, m) = Some m' /\ is_user_anchor m' = true) as (m' & Hem & Ha').
  { cbn. rewrite Hk. cbn. destruct (_ <=? _); eexists; (split; [reflexivity|]); by rewrite ?truncate_message_anchor. }
  apply existsb_exists. exists m'. split; [|done]. apply list_elem_of_In, list_elem_of_omap.
  exists (e, m). split; [|done]. apply list_elem_of_lookup. exists i. by rewrite lookup_zip_with, He, Hm.
Qed.

(** Selection keeps an anchor when there is one. *)
Lemma newest_anchor_some l n i m : i < n -> l !! i = Some m -> is_user_anchor m = true ->
  exists j, newest_anchor l n = Some j.
Proof.
  intros Hi Hm Ha. induction n as [|k IH]; [lia|]. cbn [newest_anchor].
  destruct (decide (i = k)) as [->|Hne]; [rewrite Hm, Ha; eauto|].
  destruct (IH ltac:(lia)) as [j Hj]. destruct (l !! k) as [mk|]; [destruct (is_user_anchor mk)|]; by eexists.
Qed.
Lemma has_kept_anchor_elim l es : has_kept_anchor l es = true ->
  exists i m, kept_at es i = true /\ l !! i = Some m /\ is_user_anchor m = true.
Proof.
  unfold has_kept_anchor, kept_at. intros ([e m] & Hin & Hb)%existsb_exists.
  apply list_elem_of_In, list_elem_of_lookup in Hin as [i Hi]. rewrite lookup_zip_with in Hi.
  apply andb_true_iff in Hb as [Hk Ha]. exists i, m.
  destruct (es !! i) as [e'|], (l !! i) as [m'|]; cbn in Hi; try done. injection Hi as -> ->. by split_and!.
Qed.

Lemma select_entries_anchor l budget cf : anchored l = true ->
  exists i m, kept_at (select_entries l budget cf) i = true /\ l !! i = Some m /\ is_user_anchor m = true.
Proof.
  intros (m & Hin & Ha)%existsb_exists. apply list_elem_of_In, list_elem_of_lookup in Hin as [i Hi].
  unfold select_entries. cbv zeta. set (es := map (entry_of cf) l).
  assert (Hl : length es = length l) by (unfold es; apply length_map).
  destruct (_ <? _).
  2: { exists i, m. split_and!; try done. unfold kept_at, es. by rewrite list_lookup_fmap, Hi. }
  unfold select_newest_to_fit. pose proof (select_loop_forget l (length es) (map (set_kept false) es) budget) as Hf.
  destruct (select_loop l _ _ budget) as [es1 rem1]. cbn [fst] in Hf. rewrite forget_map in Hf.
  apply forget_length in Hf. destruct (has_kept_anchor l es1) eqn:Hk; [by apply has_kept_anchor_elim|].
  destruct (newest_anchor_some l (length es1) i m) as [j Hj]; [|done|done|].
  { apply lookup_lt_Some in Hi. lia. }
  rewrite Hj. destruct (newest_anchor_spec _ _ _ Hj) as (Hlt & mj & Hmj & Haj).
  exists j, mj. split_and!; try done. by apply mark_pair_keeps.
Qed.
Lemma restore_kept_at es s i : kept_at (restore es s).1 i = kept_at es i.
Proof.
  unfold kept_at. pose proof (restore_grown es s) as H. revert i.
  induction H as [|e' e es' es (Hk & _) _ IH]; intros [|i]; try done. apply (IH i).
Qed.
Lemma fit_anchored l budget cf : anchored l = true ->
  anchored (omap emit_message (zip (allocate l budget cf) l)) = true.
Proof.
  intros (i & m & Hk & Hm & Ha)%(select_entries_anchor l budget cf).
  eapply emit_anchored; [|exact Hm|exact Ha]. unfold allocate. cbv zeta. by rewrite restore_kept_at.
Qed.

(** ** Opaque state *)

(** Blocks that only the provider that minted them accepts, and only whole *)
Definition native m : bool :=
  negb (match reasoning_blocks (reasoning m) with [] => true | _ => false end)
  || existsb (fun b => match b with ProviderExecutedToolCall _ _ _ _ (Some _) => true | _ => false end) (content m).

Lemma invalidate_not_native m : native (invalidate_provider_native_state m) = false.
Proof.
  unfold native. cbn. induction (content m) as [|b bs IH]; [done|]. cbn. rewrite IH. by destruct b as [| | | |? ? ? ? []].
Qed.

Lemma strip_message_native uses results m : role m = RAssistant ->
  native (strip_message uses results m) = true -> strip_message uses results m = m.
Proof.
  intros Hr. unfold strip_message. rewrite bool_decide_eq_true_2 by done. cbn [andb with_content content].
  destruct (Nat.eqb_spec (length (List.filter (paired uses results) (content m))) (length (content m))) as [He|].
  - intros _. cbn. assert (List.filter (paired uses results) (content m) = content m) as ->; [|by destruct m].
    clear Hr. induction (content m) as [|b bs IH]; [done|]. cbn [List.filter] in He |- *.
    pose proof (List.filter_length_le (paired uses results) bs).
    destruct (paired uses results b); cbn [length] in He; [|lia]. f_equal. apply IH. lia.
  - cbn [negb]. by rewrite invalidate_not_native.
Qed.

Lemma merge_from_native m l m' : m' ∈ merge_from m l -> role m' = RAssistant -> native m' = true ->
  m' ∈ m :: l.
Proof.
  revert m. induction l as [|n l IH]; intros m Hin Hr Hn; cbn [merge_from] in Hin; [done|].
  case_bool_decide as Hrole; [|apply elem_of_cons in Hin as [->|Hin]; [left|right; by apply IH]].
  specialize (IH _ Hin Hr Hn). apply elem_of_cons in IH as [->|]; [|by do 2 right].
  rewrite absorb_role in Hr. unfold absorb in Hn. cbn [with_content role] in Hn.
  rewrite bool_decide_eq_true_2 in Hn by done. by rewrite invalidate_not_native in Hn.
Qed.

Lemma strip_role uses results m : role (strip_message uses results m) = role m.
Proof. unfold strip_message. by destruct (_ && _). Qed.

Lemma repair_native l m : m ∈ repair l -> role m = RAssistant -> native m = true -> m ∈ l.
Proof.
  intros Hin Hr Hn. unfold repair in Hin.
  destruct (ensure_suffix (merge_adjacent_roles (strip_orphaned_tool_blocks l))) as [d Hd].
  assert (Hm : m ∈ merge_adjacent_roles (strip_orphaned_tool_blocks l)) by (rewrite Hd; set_solver).
  assert (Hs : m ∈ strip_orphaned_tool_blocks l).
  { destruct (strip_orphaned_tool_blocks l) as [|m0 k]; [done|]. by apply (merge_from_native m0 k). }
  apply list_elem_of_In, List.filter_In in Hs as [(m0 & <- & Hin0)%in_map_iff _].
  rewrite strip_role in Hr. rewrite strip_message_native by done. by apply list_elem_of_In.
Qed.
End Anchors.
