(* ===== verification/ContextTheorems.v ===== *)
(** * What fitting a transcript guarantees

    The requests that come out of [fit_to_budget]: their shape, their cost, the
    pixels they keep and the opaque state they carry. *)
From S2P Require Import Prelude RustStr Json TurnTables TurnResolve ContextFit ContextKeeps.
From S2P Require Import ContextKeeps.

Open Scope nat_scope.

Section Theorems.
Context {Number : Type} `{HJ : SerdeJson Number} `{HT : !SerdeJsonText Number}.
Implicit Types (messages : list (ChatMessage Number)).

(** The reduced transcript, before repair *)
Definition emitted messages budget content_floor : list (ChatMessage Number) :=
  omap emit_message (zip (allocate messages budget content_floor) messages).

Lemma fit_cases messages budget content_floor :
  (messages <> [] /\ budget < estimate_transcript_tokens messages
     /\ fit_to_budget messages budget content_floor = (repair (emitted messages budget content_floor), true))
  \/ (estimate_transcript_tokens messages <= budget
     /\ fit_to_budget messages budget content_floor
        = (if has_orphaned_tool_blocks messages then repair messages else messages, false)).
Proof.
  unfold fit_to_budget. destruct messages as [|m l]; [right; split; [cbn; lia|done]|]. cbn [orb].
  destruct (Nat.leb_spec (estimate_transcript_tokens (m :: l)) budget); [right|left]; by split_and!.
Qed.

(** What a fitted transcript amounts to *)
Lemma fit_amounts messages budget content_floor :
  calls_first (transcript_tags messages) ->
  let '(fitted, reduced) := fit_to_budget messages budget content_floor in
  (reduced = true \/ has_orphaned_tool_blocks messages = true ->
     alternating fitted /\ starts_with_user fitted /\ (anchored messages = true -> fitted <> []))
  /\ (reduced = false -> has_orphaned_tool_blocks messages = false -> fitted = messages)
  /\ (reduced = true <-> messages <> [] /\ budget < estimate_transcript_tokens messages)
  /\ transcript_tags fitted `sublist_of` transcript_tags messages
  /\ forall id, Call id ∈ transcript_tags fitted -> Result id ∈ transcript_tags fitted.
Proof.
  intros Hc. destruct (fit_cases messages budget content_floor) as [(Hne & Hlt & ->)|(Hle & ->)].
  - pose proof (emit_tags (allocate messages budget content_floor) messages) as Hs.
    destruct (repair_shape (emitted messages budget content_floor)). split_and!; try done.
    + intros _. split_and!; try done. intros Ha. by apply repair_nonempty, fit_anchored.
    + etransitivity; [apply repair_tags|done].
    + apply repair_answers. by apply (calls_first_sublist (transcript_tags messages)).
  - destruct (has_orphaned_tool_blocks messages) eqn:Ho; split_and!; try done.
    + intros _. destruct (repair_shape messages). split_and!; try done. apply repair_nonempty.
    + split; [done|lia].
    + apply repair_tags.
    + by apply repair_answers.
    + by intros [|].
    + split; [done|lia].
    + intros id. by apply no_orphans.
Qed.

(** C34: Whatever is removed or shortened, the request that comes out keeps the
    shape of a conversation: after a reduction or a repair its roles
    alternate and it opens with a user message of text or pixels, and it is not
    empty when the transcript has such a message; its tool calls and results
    keep their order, and when no call follows its result in the transcript
    every call that is kept has its result; a result whose call was removed may
    stay behind.  A transcript within the budget
    with its calls and results paired is returned as it is, and only a
    transcript above the budget counts as reduced. *)
Theorem fitted_requests_are_well_formed messages budget content_floor :
  calls_first (transcript_tags messages) ->
  let '(fitted, reduced) := fit_to_budget messages budget content_floor in
  (reduced = true \/ has_orphaned_tool_blocks messages = true ->
     alternating fitted /\ starts_with_user fitted /\ (anchored messages = true -> fitted <> []))
  /\ (reduced = false -> has_orphaned_tool_blocks messages = false -> fitted = messages)
  /\ (reduced = true <-> messages <> [] /\ budget < estimate_transcript_tokens messages)
  /\ transcript_tags fitted `sublist_of` transcript_tags messages
  /\ forall id, Call id ∈ transcript_tags fitted -> Result id ∈ transcript_tags fitted.
Proof. apply fit_amounts. Qed.

(** ** The budget *)

Lemma mark_loop_text messages es blocks cost : forallb is_text blocks = true ->
  mark_loop messages es blocks cost = (es, cost).
Proof.
  induction blocks as [|b blocks IH]; [done|]. cbn [forallb]. intros [Hb H]%andb_true_iff.
  destruct b; try done. by apply IH.
Qed.
Lemma text_content_at messages i : text_only messages -> forallb is_text (content_at messages i) = true.
Proof.
  intros H. unfold content_at. destruct (messages !! i) as [m|] eqn:E; [|done].
  by apply (Forall_lookup_1 _ _ i m H) in E.
Qed.
Lemma entries_floor_at messages cf i m : messages !! i = Some m ->
  floor_at (map (entry_of cf) messages) i = message_floor m cf.
Proof. intros H. unfold floor_at. by rewrite list_lookup_fmap, H. Qed.

(** The floor of the message kept at any cost *)
Definition anchor_floor messages content_floor : nat :=
  match newest_anchor messages (length messages) with
  | Some i => floor_at (map (entry_of content_floor) messages) i
  | None => 0
  end.

Lemma kept_floors messages cf : kept_tokens (map (entry_of cf) messages) = sum (map floor (map (entry_of cf) messages)).
Proof.
  unfold kept_tokens. f_equal. rewrite !map_map. by apply map_ext.
Qed.

Lemma select_text_cost messages budget cf : text_only messages ->
  let kept := kept_tokens (select_entries messages budget cf) in
  kept <= budget + anchor_floor messages cf
  /\ forall m, last messages = Some m -> is_user_anchor m = true -> message_floor m cf <= budget -> kept <= budget.
Proof.
  intros Ht. cbv zeta. unfold select_entries. cbv zeta.
  destruct (Nat.ltb_spec budget (sum (map floor (map (entry_of cf) messages)))) as [_|Hge].
  2: { rewrite kept_floors. split; [lia|done]. }
  destruct (select_cost messages (map (entry_of cf) messages) budget (entries_at_floor messages cf))
    as [Hle|(es & i & m & Hf & Hb & Hn & Hm & Hk & Hno & -> & Hes)]; [split; [lia|done]|].
  pose proof (mark_pair_cost messages es i (forget_at_floor _ _ Hf (entries_at_floor messages cf)) Hk) as Hc.
  unfold mark_pair_kept in *. rewrite mark_loop_text in * by (by apply text_content_at).
  destruct Hc as (_ & _ & Hc). cbn [fst]. rewrite (forget_floor _ _ i Hf) in Hc. rewrite length_map in Hn.
  unfold anchor_floor. rewrite Hn. split; [lia|].
  intros ml Hl Ha Hfl. exfalso. rewrite last_lookup in Hl.
  assert (Hlen : pred (length messages) < length messages) by (apply lookup_lt_Some in Hl; lia).
  rewrite (has_kept_anchor_at messages es (pred (length messages)) ml) in Hno; try done.
  rewrite Hes, length_map. destruct (length messages) as [|k] eqn:El; [lia|]. cbn [pred] in *.
  cbn [select_loop]. set (es0 := map (set_kept false) (map (entry_of cf) messages)).
  assert (kept_at es0 k = false) as ->.
  { unfold kept_at, es0. rewrite !list_lookup_fmap. by destruct (messages !! k). }
  rewrite pair_cost_mark. unfold mark_pair_kept. rewrite mark_loop_text by (by apply text_content_at).
  cbn [snd]. rewrite (forget_floor _ es0 k (forget_map false (map (entry_of cf) messages))), (entries_floor_at _ _ _ _ Hl).
  replace (message_floor ml cf <=? budget) with true by (symmetry; by apply Nat.leb_le).
  apply select_loop_kept. rewrite kept_alter, Nat.eqb_refl.
  replace (k <? length es0) with true; [apply orb_true_r|]. symmetry. apply Nat.ltb_lt.
  unfold es0. rewrite !length_map. lia.
Qed.

(** A transcript of text never costs more than its budget once it is
    fitted, except for the one message that is kept at any cost: the newest
    user message when no other fits, at its floor.  When the last message is
    such a message and its floor fits, the budget holds outright.  Opaque
    reasoning is charged whole on the way. *)
Lemma text_transcripts_fit_their_budget messages budget content_floor : text_only messages ->
  let cost := estimate_transcript_tokens (fit_to_budget messages budget content_floor).1 in
  cost <= budget + anchor_floor messages content_floor
  /\ forall m, last messages = Some m -> is_user_anchor m = true -> message_floor m content_floor <= budget ->
     cost <= budget.
Proof.
  intros Ht. cbv zeta.
  destruct (fit_cases messages budget content_floor) as [(_ & _ & ->)|(Hle & ->)]; cbn [fst].
  - pose proof (repair_le (emitted messages budget content_floor)) as Hr.
    pose proof (allocate_tokens messages budget content_floor) as Ha.
    destruct (select_text_cost messages budget content_floor Ht) as [H1 H2].
    assert (He : estimate_transcript_tokens (emitted messages budget content_floor)
      <= kept_tokens (allocate messages budget content_floor)).
    { apply (emit_le content_floor); [apply allocate_describes|].
      intros m t Hin. apply truncate_message_fits. by apply (proj1 (Forall_forall _ _) Ht). }
    split; [lia|]. intros m Hl Hu Hfl. specialize (H2 m Hl Hu Hfl). lia.
  - destruct (has_orphaned_tool_blocks messages); [pose proof (repair_le messages)|]; (split; [lia|intros; lia]).
Qed.

(** ** Opaque state *)

(** Opaque provider state is kept whole or not at all: an assistant message
    of a fitted request that still carries reasoning blocks or a native replay
    is a message of the transcript, or that message with its own content
    shortened and its reasoning untouched.  It never is one that repair merged
    or took a tool block out of. *)
Lemma opaque_state_stays_with_its_response messages budget content_floor m :
  m ∈ (fit_to_budget messages budget content_floor).1 -> role m = RAssistant -> native m = true ->
  exists m0, m0 ∈ messages /\ reasoning m = reasoning m0 /\ (m = m0 \/ exists t, m = truncate_message m0 t).
Proof.
  intros Hin Hr Hn. destruct (fit_cases messages budget content_floor) as [(_ & _ & Hf)|(_ & Hf)]; rewrite Hf in Hin; cbn [fst] in Hin.
  - apply repair_native in Hin; [|done|done]. apply list_elem_of_omap in Hin as ([e m0] & Hz & He).
    apply elem_of_zip_r in Hz. apply emit_spec in He as [_ He]. cbn [snd] in He. exists m0. split; [done|].
    destruct He as [->|[t ->]]; [by auto|]. destruct (truncate_message_shape m0 t) as (f & _ & Ht).
    split; [by rewrite Ht|eauto].
  - exists m. split; [|by auto]. destruct (has_orphaned_tool_blocks messages); [|done]. by apply (repair_native messages).
Qed.

(** ** Pixels *)

(** A request hydrates at most [keep] images: the transcript keeps the
    newest ones, fewer than half the cap are given up to keep the boundary
    still, and every other block is left as it is.  Under the cap nothing
    changes, and appending messages leaves the earlier ones as they were sent
    until the number of images passes into the next bucket. *)
Lemma newest_images_keep_their_pixels messages keep later :
  let kept := images (blocks_of (evict_images_beyond messages keep)) in
  let total := image_count messages in
  kept = drop (image_cutoff keep total) (images (blocks_of messages))
  /\ length kept <= keep
  /\ (keep < total -> keep < length kept + image_bucket keep)
  /\ Forall2 evicted_message (evict_images_beyond messages keep) messages
  /\ (total <= keep -> evict_images_beyond messages keep = messages)
  /\ (image_cutoff keep (image_count (messages ++ later)) = image_cutoff keep total ->
      evict_images_beyond (messages ++ later) keep = evict_images_beyond messages keep ++ later).
Proof.
  cbv zeta. destruct (image_cutoff_bound keep (image_count messages)) as (Hlow & Hup & Htot & Hzero).
  destruct (image_bucket_bound keep) as [Hb _].
  destruct (evict_messages_spec (image_cutoff keep (image_count messages)) messages) as [Hi Hf].
  unfold evict_images_beyond. rewrite Hi, length_drop.
  change (length (images (blocks_of messages))) with (image_count messages).
  split_and!; try done; try lia.
  - intros Hle. rewrite (Hzero Hle). apply evict_none.
  - intros ->. by apply evict_app.
Qed.

(** Previews in tool results keep their pixels in the newest [keep]
    messages, whatever they are, and in fewer than twice as many; older
    results keep their text.  A message without a tool result is never
    changed, running it again changes nothing, and appending messages leaves
    the earlier ones as they were sent until the transcript passes into the
    next window. *)
Lemma recent_previews_keep_their_pixels messages keep later :
  let cutoff := preview_cutoff (length messages) keep in
  let sent := evict_old_tool_result_images messages keep in
  sent = map preview_message (take cutoff messages) ++ drop cutoff messages
  /\ cutoff <= length messages - keep
  /\ length messages - cutoff <= keep + (Nat.max keep 1 - 1)
  /\ (forall i m, messages !! i = Some m -> existsb is_tool_result (content m) = false -> sent !! i = Some m)
  /\ evict_old_tool_result_images sent keep = sent
  /\ (preview_cutoff (length (messages ++ later)) keep = cutoff ->
      evict_old_tool_result_images (messages ++ later) keep = sent ++ later).
Proof.
  cbv zeta. destruct (preview_cutoff_bound (length messages) keep) as [Hc Hk].
  rewrite !evict_previews_eq. set (c := preview_cutoff (length messages) keep) in *.
  assert (Hlen : length (map preview_message (take c messages)) = c) by (rewrite length_map, length_take; lia).
  split_and!; try done.
  - intros i m Hm Hno. destruct (Nat.lt_ge_cases i c) as [Hi|Hi].
    + rewrite lookup_app_l by (by rewrite Hlen). rewrite list_lookup_fmap, lookup_take_lt by done.
      rewrite Hm. change (Some (preview_message m) = Some m). unfold preview_message. by rewrite Hno.
    + rewrite lookup_app_r by (by rewrite Hlen). rewrite Hlen, lookup_drop. by replace (c + (i - c)) with i by lia.
  - rewrite length_app, Hlen, length_drop. replace (c + (length messages - c)) with (length messages) by lia. fold c.
    rewrite take_app_le, take_ge, drop_app_ge by (rewrite Hlen; lia). rewrite Hlen, Nat.sub_diag, drop_0.
    rewrite map_map. f_equal. apply map_ext, preview_idempotent.
  - intros ->. rewrite take_app_le, drop_app_le by lia. by rewrite app_assoc.
Qed.

(** ** A request that opens with an orphan *)

Lemma repair_orphans_result id name (input : json Number) text failed preview :
  let result := MkMessage RUser [ToolResult id text failed; Image preview] no_reasoning in
  repair [MkMessage RAssistant [ToolUse id name input] no_reasoning; result] = [result].
Proof.
  cbv zeta. unfold repair, strip_orphaned_tool_blocks.
  change (use_ids _) with [id]. change (result_ids _) with [id].
  assert (Hid : str_mem id [id] = true) by (apply str_mem_true; set_solver).
  cbn [map]. unfold strip_message. cbn [content List.filter paired]. rewrite Hid. reflexivity.
Qed.

Lemma truncate_call id name (input : json Number) t : exists input' : json Number,
  truncate_message (MkMessage RAssistant [ToolUse id name input] no_reasoning) t
  = MkMessage RAssistant [ToolUse id name input'] no_reasoning.
Proof. unfold truncate_message. cbn [content map]. destruct (_ <=? _); by eexists. Qed.
Lemma truncate_result id text failed preview t : exists text',
  truncate_message (MkMessage (Number := Number) RUser [ToolResult id text failed; Image preview] no_reasoning) t
  = MkMessage RUser [ToolResult id text' failed; Image preview] no_reasoning.
Proof. unfold truncate_message. cbn [content map]. destruct (_ <=? _), (_ <=? _); by eexists. Qed.

Section Outlived.
Context (question id name : string) (input : json Number) (text : string) (failed : bool) (preview : ImageRef).
Let ask : ChatMessage Number := MkMessage RUser [Text question] no_reasoning.
Let call : ChatMessage Number := MkMessage RAssistant [ToolUse id name input] no_reasoning.
Let result : ChatMessage Number := MkMessage RUser [ToolResult id text failed; Image preview] no_reasoning.

Lemma select_outlived budget cf :
  message_floor result cf + message_floor call cf <= budget ->
  budget < message_floor ask cf + message_floor result cf + message_floor call cf ->
  map kept (select_entries [ask; call; result] budget cf) = [false; true; true].
Proof.
  intros Hfit Hover. unfold select_entries. cbv zeta. cbn [map].
  change (sum _) with (message_floor ask cf + (message_floor call cf + (message_floor result cf + 0))).
  destruct (Nat.ltb_spec budget (message_floor ask cf + (message_floor call cf + (message_floor result cf + 0)))); [|lia].
  unfold select_newest_to_fit, entry_of. cbn [length map set_kept full floor allocated].
  generalize (estimate_message_tokens ask), (estimate_message_tokens call), (estimate_message_tokens result).
  intros xa xc xr. revert Hfit Hover.
  generalize (message_floor ask cf), (message_floor call cf), (message_floor result cf).
  intros fa fc fr Hfit Hover. clear H cf.
  set (l := [ask; call; result]).
  assert (Hresult : partner l (ToolResult id text failed) = Some 1)
    by (unfold partner; cbn; by rewrite String.eqb_refl).
  set (es := [MkEntry xa fa fa false; MkEntry xc fc fc false; MkEntry xr fr fr false]).
  change (select_loop l 3 _ budget) with (select_loop l 3 es budget).
  assert (Hmark : mark_pair_kept l es 2
    = ([MkEntry xa fa fa false; MkEntry xc fc fc true; MkEntry xr fr fr true], fr + fc)).
  { unfold mark_pair_kept. change (content_at l 2) with [ToolResult (Number := Number) id text failed; Image preview].
    cbn [mark_loop]. by rewrite Hresult. }
  cbn [select_loop]. change (kept_at es 2) with false. cbv iota. rewrite pair_cost_mark, Hmark. cbn [snd].
  replace (fr + fc <=? budget) with true by (symmetry; by apply Nat.leb_le).
  set (es' := [_; _; _]).
  change (kept_at es' 1) with true. change (kept_at es' 0) with false. cbv iota.
  change (pair_cost l es' 0) with fa.
  replace (fa <=? budget - (fr + fc)) with false by (symmetry; apply Nat.leb_gt; lia).
  reflexivity.
Qed.

(** What opens a request is judged by its text and pixels alone, so a
    result that came with a preview counts.  When the budget leaves room for a
    call and such a result but not for the question before them, the call goes
    after the orphans were looked for: the request opens with a result that no
    call of the request asked for. *)
Lemma a_preview_can_outlive_its_call budget content_floor :
  message_floor result content_floor + message_floor call content_floor <= budget ->
  budget < message_floor ask content_floor + message_floor result content_floor + message_floor call content_floor ->
  let '(fitted, reduced) := fit_to_budget [ask; call; result] budget content_floor in
  reduced = true /\ has_orphaned_tool_blocks [ask; call; result] = false
  /\ has_orphaned_tool_blocks fitted = true /\ transcript_tags fitted = [Result id].
Proof.
  intros Hfit Hover. pose proof (select_outlived budget content_floor Hfit Hover) as Hsel.
  assert (Hid : forall i : string, str_mem i [i] = true) by (intros i; apply str_mem_true; set_solver).
  assert (Ho : has_orphaned_tool_blocks [ask; call; result] = false).
  { apply no_orphans. intros i. change (transcript_tags [ask; call; result]) with [Call id; Result id]. set_solver. }
  assert (Hlt : budget < estimate_transcript_tokens [ask; call; result]).
  { pose proof (message_floor_le ask content_floor). pose proof (message_floor_le call content_floor).
    pose proof (message_floor_le result content_floor). rewrite !transcript_cons. lia. }
  destruct (fit_cases [ask; call; result] budget content_floor) as [(_ & _ & ->)|(? & _)]; [|lia].
  unfold emitted, allocate. cbv zeta. set (es := select_entries _ _ _) in *.
  pose proof (restore_grown es (budget - kept_tokens es)) as Hg. set (es' := (restore es _).1) in *.
  assert (Hk : map kept es' = [false; true; true]).
  { rewrite <- Hsel. clear -Hg. induction Hg as [|e' e l' l (He & _) _ IH]; [done|]. cbn. by rewrite He, IH. }
  destruct es' as [|e0 [|e1 [|e2 [|]]]]; try done. injection Hk as H0 H1 H2.
  assert (exists input' text', omap emit_message (zip [e0; e1; e2] [ask; call; result])
    = [MkMessage RAssistant [ToolUse id name input'] no_reasoning;
       MkMessage RUser [ToolResult id text' failed; Image preview] no_reasoning]) as (input' & text' & ->).
  { destruct (truncate_call id name input (allocated e1)) as [input1 E1].
    destruct (truncate_result id text failed preview (allocated e2)) as [text2 E2].
    rewrite !emit_cons. unfold emit_message. rewrite H0, H1, H2. cbn [negb]. unfold call, result.
    rewrite E1, E2. destruct (_ <=? _), (_ <=? _); by eexists _, _. }
  rewrite repair_orphans_result. by split_and!.
Qed.
End Outlived.
End Theorems.
