(* ===== verification/Transcript.v ===== *)
(** * Rebuilding a conversation from its rows

    tidebreak-core, agent/transcript.rs: the provider transcript of a chat,
    rebuilt from its messages, the tool calls recorded beside them and the
    images attached to them.  Identities are numbers and times nanoseconds; a
    record keeps the columns a rebuild reads. *)
From S2P Require Import Prelude RustStr Json TurnTables TurnResolve ContextFit.

Open Scope nat_scope.

(** ** Rows *)

(** [ToolCallExecution] *)
Inductive ToolCallExecution : Type := ServerCall | ClientCall | OrchestrationCall.
#[export] Instance execution_eq_dec : EqDecision ToolCallExecution.
Proof. solve_decision. Defined.

(** [ToolCallStatus] *)
Inductive ToolCallStatus : Type := CallPending | CallCompleted | CallFailed | CallCancelled.
#[export] Instance call_status_eq_dec : EqDecision ToolCallStatus.
Proof. solve_decision. Defined.
Definition call_status_as_str (s : ToolCallStatus) : string :=
  match s with
  | CallPending => "pending" | CallCompleted => "completed"
  | CallFailed => "failed" | CallCancelled => "cancelled"
  end.
Definition call_is_terminal (s : ToolCallStatus) : bool := negb (bool_decide (s = CallPending)).

(** The previews that carry images; the others are one. *)
Inductive ToolResultPreview : Type :=
  | PreviewExec (images : list ImageRef)
  | PreviewImages (images : list ImageRef)
  | PreviewScreenCapture (image : ImageRef)
  | PreviewOther.

Record MessageAttachment : Type := MkAttachment {
  at_message_id : Z; at_chat_id : Z; at_ordinal : Z; at_image : ImageRef }.

Definition MAX_ARGUMENT_BYTES : nat := 128 * 1024.

(** ** Text *)

(** The end of [truncate_utf8]'s loop *)
Fixpoint char_floor (value : string) (end_ : nat) : nat :=
  if is_char_boundary value end_ then end_
  else match end_ with O => O | S n => char_floor value n end.
Definition truncate_utf8 (value : string) (max_bytes : nat) : string * bool :=
  if len value <=? max_bytes then (value, false) else (str_take (char_floor value max_bytes) value, true).

Definition show_usize (n : nat) : string := digits_of 20 (N.of_nat n) "".
Definition QUOTE_MARK : string := String (ascii_of_nat 34) "".
Definition NEWLINE : string := String (ascii_of_nat 10) "".

(** [show_call] prints a call's identity (uuid's [Display]). *)
Definition truncate_to_bytes (show_call : Z -> string) (content : string) (max_bytes : nat) (call_id : option Z)
  : option string :=
  if len content <=? max_bytes then None
  else
    let bounded := (truncate_utf8 content max_bytes).1 in
    let recovery :=
      match call_id with
      | Some id => "; read the rest with read_tool_result(call_id: " +:+ QUOTE_MARK +:+ show_call id +:+ QUOTE_MARK +:+ ")"
      | None => ""
      end in
    Some (bounded +:+ NEWLINE +:+ NEWLINE +:+ "[truncated: " +:+ show_usize (len bounded) +:+ " of "
          +:+ show_usize (len content) +:+ " bytes shown" +:+ recovery +:+ "]").

Section Transcript.
Context {Number : Type} `{HJ : SerdeJson Number} `{HT : !SerdeJsonText Number} (show_call : Z -> string).

Record Message : Type := MkRow {
  m_id : Z; m_chat_id : Z; m_turn_id : Z; m_role : Role; m_content : string;
  llm_content : option string; m_reasoning : MessageReasoning Number; m_created_at : Z }.
Definition content_for_model (m : Message) : string := default (m_content m) (llm_content m).
Definition append_model_context (m : Message) (context : string) : Message :=
  MkRow (m_id m) (m_chat_id m) (m_turn_id m) (m_role m) (m_content m)
    (Some (default (m_content m) (llm_content m) +:+ context)) (m_reasoning m) (m_created_at m).

Record ToolCallRecord : Type := MkCall {
  c_id : Z; c_chat_id : Z; c_turn_id : Z; c_provider_id : string; c_name : string;
  c_arguments : json Number; c_execution : ToolCallExecution; c_status : ToolCallStatus;
  c_result : option string; c_result_preview : option ToolResultPreview;
  c_provider_replay : option (ProviderToolReplay Number); c_created_at : Z; c_resolved_at : option Z }.

Definition text_message (r : Role) (text : string) : ChatMessage Number := MkMessage r [Text text] no_reasoning.

(** ** Arguments *)

Definition bound_raw_fragment (raw : string) : string := (truncate_utf8 raw MAX_ARGUMENT_BYTES).1.
Definition parse_args (raw : string) : json Number * option string :=
  if trim_is_empty raw then (JObject [], None)
  else match json_from_str raw with
       | Some value => (value, None)
       | None => (JObject [], Some (bound_raw_fragment raw))
       end.
Definition parse_tool_args (raw : string) : option (json Number) :=
  if trim_is_empty raw then Some (JObject []) else json_from_str raw.

(** ** Steps of the model *)

Record Batching : Type := MkBatching {
  batches : list (list ToolCallRecord); current : list ToolCallRecord; batch_done_at : option Z }.

(** [batches.push(std::mem::take(&mut current))] *)
Definition push_current (st : Batching) : Batching := MkBatching (batches st ++ [current st]) [] None.

Definition batch_step (st : Batching) (call : ToolCallRecord) : Batching :=
  if bool_decide (c_execution call = OrchestrationCall) then
    let st := match current st with [] => st | _ => push_current st end in
    MkBatching (batches st ++ [[call]]) [] None
  else
    let st := match batch_done_at st with
              | Some done => if (done <=? c_created_at call)%Z then push_current st else st
              | None => st
              end in
    MkBatching (batches st) (current st ++ [call])
      match c_resolved_at call with
      | Some completed =>
          Some (match batch_done_at st with Some done => Z.max done completed | None => completed end)
      | None => batch_done_at st
      end.
Definition batch_tool_calls (calls : list ToolCallRecord) : list (list ToolCallRecord) :=
  let st := fold_left batch_step calls (MkBatching [] [] None) in
  match current st with [] => batches st | _ => batches st ++ [current st] end.

(** ** One step's messages *)

Definition is_provider_executed_record (call : ToolCallRecord) : bool :=
  starts_with (c_provider_id call) "provider_executed_" || is_some (c_provider_replay call).

Definition exec_preview_images (preview : ToolResultPreview) : option (list ImageRef) :=
  match preview with
  | PreviewExec images | PreviewImages images => Some images
  | PreviewScreenCapture image => Some [image]
  | PreviewOther => None
  end.

Definition tool_result_blocks (tool_use_id content : string) (is_error : bool) (images : list ImageRef)
    (image_input : bool) : list (ContentBlock Number) :=
  match images with
  | [] => [ToolResult tool_use_id content is_error]
  | _ =>
      let note :=
        if image_input
        then NEWLINE +:+ NEWLINE +:+ show_usize (length images)
             +:+ " preview image(s) attached below for your visual review."
        else NEWLINE +:+ NEWLINE +:+ show_usize (length images)
             +:+ " preview image(s) were produced, but previews are unavailable because the selected model does not accept image input." in
      ToolResult tool_use_id (content +:+ note) is_error :: (if image_input then map Image images else [])
  end.

(** A result as the model sees it *)
Definition bounded_result (call : ToolCallRecord) (max_result_bytes : nat) (result : string) : string :=
  default result (truncate_to_bytes show_call result max_result_bytes (Some (c_id call))).

Definition call_block (max_result_bytes : nat) (call : ToolCallRecord) : ContentBlock Number :=
  if is_provider_executed_record call then
    let output :=
      match c_result call with
      | Some result => default (JObject []) (json_from_str (bounded_result call max_result_bytes result))
      | None => JObject []
      end in
    ProviderExecutedToolCall (c_name call) (c_arguments call) output
      (negb (bool_decide (c_status call = CallCompleted))) (c_provider_replay call)
  else ToolUse (c_provider_id call) (c_name call) (c_arguments call).

Definition result_blocks (max_result_bytes : nat) (image_input : bool) (call : ToolCallRecord)
  : list (ContentBlock Number) :=
  match c_result call with
  | None => []
  | Some content =>
      let images := match c_result_preview call with
                    | Some preview => default [] (exec_preview_images preview)
                    | None => []
                    end in
      tool_result_blocks (c_provider_id call) (bounded_result call max_result_bytes content)
        (negb (bool_decide (c_status call = CallCompleted))) images image_input
  end.

Definition push_tool_batch (out : list (ChatMessage Number)) (batch : list ToolCallRecord)
    (assistant : option Message) (max_result_bytes : nat) (image_input : bool) : list (ChatMessage Number) :=
  let text := match assistant with
              | Some m => if is_empty (content_for_model m) then [] else [Text (content_for_model m)]
              | None => []
              end in
  let blocks := text ++ map (call_block max_result_bytes) batch in
  let host_calls := List.filter (fun call => negb (is_provider_executed_record call)) batch in
  let out := match blocks with
             | [] => out
             | _ => out ++ [MkMessage RAssistant blocks
                              (match assistant with Some m => m_reasoning m | None => no_reasoning end)]
             end in
  let results := concat (map (result_blocks max_result_bytes image_input) host_calls) in
  match results with [] => out | _ => out ++ [MkMessage RUser results no_reasoning] end.

(** ** Attachments *)

(** [sort_by_key(|(ordinal, _)| *ordinal)], which is stable *)
Fixpoint insert_ordinal (x : Z * ImageRef) (l : list (Z * ImageRef)) : list (Z * ImageRef) :=
  match l with
  | [] => [x]
  | y :: l' => if (x.1 <? y.1)%Z then x :: l else y :: insert_ordinal x l'
  end.
Definition sort_ordinal (l : list (Z * ImageRef)) : list (Z * ImageRef) := fold_left (fun acc x => insert_ordinal x acc) l [].

Definition group_attachments (attachments : list MessageAttachment) : gmap Z (list ImageRef) :=
  let grouped := fold_left (fun (g : gmap Z (list (Z * ImageRef))) a =>
    <[at_message_id a := default [] (g !! at_message_id a) ++ [(at_ordinal a, at_image a)]]> g) attachments ∅ in
  (fun images => map snd (sort_ordinal images)) <$> grouped.

Definition user_message_for_model (m : Message) (images : list ImageRef) : ChatMessage Number :=
  match images with
  | [] => text_message (m_role m) (content_for_model m)
  | _ => MkMessage (m_role m) (map Image images ++ [Text (content_for_model m)]) no_reasoning
  end.

(** ** The rebuild *)

Record TranscriptSourceBoundary : Type := MkSource {
  s_message_id : Z; s_role : Role; provider_boundary : nat }.

(** [batch[0].created_at]; no batch is empty. *)
Definition batch_start (batch : list ToolCallRecord) : Z :=
  match batch with call :: _ => c_created_at call | [] => 0%Z end.

Section Rebuild.
Context (max_result_bytes : nat) (image_input : bool).

(** The loops that push whole batches while they start early enough. *)
Fixpoint push_while (early : Z -> bool) (out : list (ChatMessage Number)) (left_ : list (list ToolCallRecord))
  : list (ChatMessage Number) * list (list ToolCallRecord) :=
  match left_ with
  | [] => (out, [])
  | batch :: rest =>
      if early (batch_start batch)
      then push_while early (push_tool_batch out batch None max_result_bytes image_input) rest
      else (out, left_)
  end.

Definition is_before (end_ : option Z) (t : Z) : bool := match end_ with None => true | Some e => (t <? e)%Z end.

Definition push_assistant (out : list (ChatMessage Number)) (left_ : list (list ToolCallRecord)) (m : Message)
    (next_ts : option Z) : list (ChatMessage Number) * list (list ToolCallRecord) :=
  let spoken := negb (is_empty (content_for_model m)) in
  let alone := (if spoken then out ++ [MkMessage RAssistant [Text (content_for_model m)] (m_reasoning m)] else out, left_) in
  match left_ with
  | batch :: rest =>
      if is_before next_ts (batch_start batch) then
        let carries := spoken || negb (match reasoning_blocks (m_reasoning m) with [] => true | _ => false end) in
        let out := push_tool_batch out batch (if carries then Some m else None) max_result_bytes image_input in
        push_while (is_before next_ts) out rest
      else alone
  | [] => alone
  end.

Definition push_user (images : gmap Z (list ImageRef)) (out : list (ChatMessage Number))
    (left_ : list (list ToolCallRecord)) (m : Message) (next : option Message)
  : list (ChatMessage Number) * list (list ToolCallRecord) :=
  let out := out ++ [user_message_for_model m (default [] (images !! m_id m))] in
  let next_is_assistant := match next with Some n => bool_decide (m_role n = RAssistant) | None => false end in
  if next_is_assistant then (out, left_) else push_while (is_before (m_created_at <$> next)) out left_.

Record Rebuilt : Type := MkRebuilt {
  rb_out : list (ChatMessage Number); rb_left : list (list ToolCallRecord);
  rb_boundary : option nat; rb_sources : list TranscriptSourceBoundary }.

Definition rebuild_step (images : gmap Z (list ImageRef)) (checkpoint_source : option Z) (st : Rebuilt)
    (m : Message) (next : option Message) : Rebuilt :=
  let '(out, left_) := push_while (fun t => (t <? m_created_at m)%Z) (rb_out st) (rb_left st) in
  let '(out, left_) :=
    if bool_decide (m_role m = RAssistant) then push_assistant out left_ m (m_created_at <$> next)
    else push_user images out left_ m next in
  MkRebuilt out left_
    (if bool_decide (Some (m_id m) = checkpoint_source) then Some (length out) else rb_boundary st)
    (rb_sources st ++ [MkSource (m_id m) (m_role m) (length out)]).

Fixpoint rebuild_loop (images : gmap Z (list ImageRef)) (checkpoint_source : option Z) (st : Rebuilt)
    (messages : list Message) : Rebuilt :=
  match messages with
  | [] => st
  | m :: rest => rebuild_loop images checkpoint_source (rebuild_step images checkpoint_source st m (head rest)) rest
  end.

(** [source_boundaries.last_mut()] *)
Fixpoint set_last_boundary (n : nat) (l : list TranscriptSourceBoundary) : list TranscriptSourceBoundary :=
  match l with
  | [] => []
  | [s] => [MkSource (s_message_id s) (s_role s) n]
  | s :: l => s :: set_last_boundary n l
  end.

Definition rebuild_transcript_with_boundary (rows : list Message) (tool_calls : list ToolCallRecord)
    (attachments : list MessageAttachment) (checkpoint_source : option Z)
  : list (ChatMessage Number) * option nat * list TranscriptSourceBoundary :=
  let messages := List.filter (fun m => negb (bool_decide (m_role m = RTool))) rows in
  let st := rebuild_loop (group_attachments attachments) checkpoint_source
              (MkRebuilt [] (batch_tool_calls tool_calls) None []) messages in
  let '(out, _) := push_while (fun _ => true) (rb_out st) (rb_left st) in
  match last messages with
  | Some m =>
      if bool_decide (Some (m_id m) = checkpoint_source)
      then (out, Some (length out), set_last_boundary (length out) (rb_sources st))
      else (out, rb_boundary st, rb_sources st)
  | None => (out, rb_boundary st, rb_sources st)
  end.
End Rebuild.
End Transcript.
Arguments Message : clear implicits.
Arguments ToolCallRecord : clear implicits.
