(* ===== verification/TranscriptFacts.v ===== *)
(** * What a rebuild keeps

    A rebuilt transcript is laid out in pieces, the steps of the recorded calls
    and the rows of the chat, each once and in order, whatever stands between
    the steps; every boundary falls between pieces.  What a piece is in the
    transcript is spelt out here ([render]), with what the blocks of a call and
    the images of a row say. *)
From Stdlib Require Import Sorted.
From S2P Require Import Prelude RustStr Json TurnTables TurnResolve ContextFit Transcript.

Open Scope nat_scope.

Section Facts.
Context {Number : Type} `{HJ : SerdeJson Number} `{HT : !SerdeJsonText Number} (show_call : Z -> string).
Context (max_result_bytes : nat) (image_input : bool).
Notation record := (ToolCallRecord Number).
Notation row := (Message Number).
Notation transcript := (list (ChatMessage Number)).
Implicit Types (batch : list record) (call : record) (out : transcript).

(** ** Batches *)

Lemma batch_fold calls st :
  Forall (fun b => b <> []) (batches st) -> (current st = [] -> batch_done_at st = None) ->
  let st' := fold_left batch_step calls st in
  concat (batches st') ++ current st' = concat (batches st) ++ current st ++ calls
  /\ Forall (fun b : list record => b <> []) (batches st').
Proof.
  revert st. induction calls as [|c calls IH]; intros st Hne Hd; cbn [fold_left].
  { by rewrite app_nil_r. }
  destruct (IH (batch_step st c)) as [IH1 IH2]; clear IH.
  - unfold batch_step. case_bool_decide; cbn [batches].
    + apply Forall_app. split; [|by constructor].
      destruct (current st) as [|x l] eqn:E; cbn [push_current batches]; [done|].
      apply Forall_app. split; [done|]. rewrite E. by constructor.
    + destruct (batch_done_at st) as [d|] eqn:Ed; [|done]. destruct (d <=? _)%Z; [|done].
      cbn [push_current batches]. apply Forall_app. split; [done|]. constructor; [|done].
      intros H0. discriminate (Hd H0).
  - unfold batch_step. case_bool_decide; cbn [current batch_done_at]; [done|]. intros H0.
    apply app_eq_nil in H0 as [_ H0]. discriminate H0.
  - split; [|done]. rewrite IH1. unfold batch_step. case_bool_decide; cbn [batches current].
    + rewrite concat_app, app_nil_l. destruct (current st) as [|x l] eqn:E; cbn [push_current batches];
        rewrite ?concat_app, ?E; cbn [concat app]; by rewrite ?app_nil_r, <- ?app_assoc.
    + set (st1 := match batch_done_at st with Some _ => _ | None => _ end).
      assert (concat (batches st1) ++ current st1 = concat (batches st) ++ current st) as Heq.
      { unfold st1. destruct (batch_done_at st) as [d|]; [|done]. destruct (d <=? _)%Z; [|done].
        cbn [push_current batches current]. rewrite concat_app. cbn [concat]. by rewrite !app_nil_r. }
      rewrite (app_assoc (concat (batches st1))), (app_assoc (concat (batches st1))), Heq. by rewrite <- !app_assoc.
Qed.

(** The steps are the calls, cut into pieces none of which is empty. *)
Lemma batches_partition (calls : list record) :
  concat (batch_tool_calls calls) = calls /\ Forall (fun b => b <> []) (batch_tool_calls calls).
Proof.
  unfold batch_tool_calls. destruct (batch_fold calls (MkBatching [] [] None)) as [H1 H2]; [done|done|].
  cbn [batches current concat app] in H1. destruct (current (fold_left batch_step calls _)) as [|x l] eqn:E.
  - rewrite app_nil_r in H1. done.
  - rewrite concat_app. cbn [concat]. rewrite app_nil_r. split; [done|].
    apply Forall_app. split; [done|by constructor].
Qed.

(** ** One step *)

Definition host_calls (batch : list record) : list record :=
  List.filter (fun call => negb (is_provider_executed_record call)) batch.
Definition batch_tags (batch : list record) : list tag :=
  map (fun c : record => Call (c_provider_id c)) (host_calls batch)
  ++ map (fun c : record => Result (c_provider_id c)) (List.filter (fun c : record => is_some (c_result c)) (host_calls batch)).

Definition text_of (b : ContentBlock Number) : option string := match b with Text t => Some t | _ => None end.
Definition texts (l : transcript) : list string := omap text_of (blocks_of l).

Lemma texts_app l l' : texts (l ++ l') = texts l ++ texts l'.
Proof. unfold texts. by rewrite blocks_of_app, omap_app. Qed.

Lemma call_blocks_tags batch : tags (map (call_block show_call max_result_bytes) batch)
  = map (fun c : record => Call (c_provider_id c)) (host_calls batch).
Proof.
  unfold host_calls. induction batch as [|c batch IH]; [done|]. cbn [map List.filter].
  change (tags (?b :: ?bs)) with (tags ([b] ++ bs)). rewrite tags_app, IH. unfold call_block.
  by destruct (is_provider_executed_record c).
Qed.
Lemma call_blocks_text batch : omap text_of (map (call_block show_call max_result_bytes) batch) = [].
Proof.
  induction batch as [|c batch IH]; [done|]. cbn. unfold call_block at 1.
  destruct (is_provider_executed_record c); cbn; exact IH.
Qed.
Lemma images_tags images : tags (map (Image (Number := Number)) images) = [].
Proof. induction images as [|i l IH]; [done|]. exact IH. Qed.
Lemma images_text images : omap text_of (map (Image (Number := Number)) images) = [].
Proof. induction images as [|i l IH]; [done|]. exact IH. Qed.

Lemma result_blocks_tags call : tags (result_blocks show_call max_result_bytes image_input call)
  = if is_some (c_result call) then [Result (c_provider_id call)] else [].
Proof.
  unfold result_blocks. destruct (c_result call) as [content|]; [|done]. cbn [is_some].
  unfold tool_result_blocks. destruct (match c_result_preview call with Some _ => _ | None => _ end); [done|].
  change (tags (?b :: ?bs)) with (tags ([b] ++ bs)). rewrite tags_app. destruct image_input; [|done].
  by rewrite images_tags.
Qed.
Lemma result_blocks_text call : omap text_of (result_blocks show_call max_result_bytes image_input call) = [].
Proof.
  unfold result_blocks. destruct (c_result call) as [content|]; [|done].
  unfold tool_result_blocks. destruct (match c_result_preview call with Some _ => _ | None => _ end); [done|].
  cbn [omap list_omap text_of]. destruct image_input; [|done]. apply images_text.
Qed.
Lemma all_results_tags batch :
  tags (concat (map (result_blocks show_call max_result_bytes image_input) batch))
  = map (fun c : record => Result (c_provider_id c)) (List.filter (fun c : record => is_some (c_result c)) batch).
Proof.
  induction batch as [|c batch IH]; [done|]. cbn [map concat List.filter].
  rewrite tags_app, result_blocks_tags, IH. by destruct (is_some (c_result c)).
Qed.
Lemma all_results_text batch :
  omap text_of (concat (map (result_blocks show_call max_result_bytes image_input) batch)) = [].
Proof. induction batch as [|c batch IH]; [done|]. cbn [map concat]. by rewrite omap_app, result_blocks_text, IH. Qed.

(** What an assistant row says *)
Definition said (m : row) : list string := if is_empty (content_for_model m) then [] else [content_for_model m].

(** ** The rebuild *)

(** What a row adds to the texts *)
Definition spoken (m : row) : list string :=
  if bool_decide (m_role m = RAssistant) then said m else [content_for_model m].

(** *** The arrangement

    A transcript is laid out in pieces: a step of the model, with the assistant
    row that carries its text and reasoning if there is one, or a row of its
    own. *)
Inductive piece : Type :=
  | Step (batch : list record) (carrier : option row)
  | Alone (m : row).

Definition steps_of (ps : list piece) : list (list record) :=
  omap (fun p => match p with Step b _ => Some b | Alone _ => None end) ps.
Definition rows_of (ps : list piece) : list row :=
  omap (fun p => match p with Step _ carrier => carrier | Alone m => Some m end) ps.

(** A message, unless it would hold nothing *)
Definition unless_empty (r : Role) (blocks : list (ContentBlock Number)) (reasoning : MessageReasoning Number)
  : transcript :=
  match blocks with [] => [] | _ => [MkMessage r blocks reasoning] end.

(** What a piece is in the transcript: a step is one assistant message, the
    carrier's text before every call of the step, and one message with the
    results of the calls the host executed; a row of its own is one message,
    with its images before its text. *)
Definition render (images : gmap Z (list ImageRef)) (p : piece) : transcript :=
  match p with
  | Step batch carrier =>
      unless_empty RAssistant
        (match carrier with Some m => map Text (said m) | None => [] end
         ++ map (call_block show_call max_result_bytes) batch)
        (match carrier with Some m => m_reasoning m | None => no_reasoning end)
      ++ unless_empty RUser
           (concat (map (result_blocks show_call max_result_bytes image_input) (host_calls batch)))
           no_reasoning
  | Alone m =>
      if bool_decide (m_role m = RAssistant)
      then [MkMessage RAssistant [Text (content_for_model m)] (m_reasoning m)]
      else [MkMessage (m_role m) (map Image (default [] (images !! m_id m)) ++ [Text (content_for_model m)])
              no_reasoning]
  end.
Definition rendered (images : gmap Z (list ImageRef)) (ps : list piece) : transcript :=
  concat (map (render images) ps).

(** Rows that have something to say: all but assistant rows without text.  The
    rows [ms'] cover [ms] when they are rows of [ms] in their order and miss
    none of those. *)
Definition voiced (m : row) : bool := negb (bool_decide (m_role m = RAssistant) && is_empty (content_for_model m)).
Definition covers (ms' ms : list row) : Prop :=
  ms' `sublist_of` ms /\ List.filter voiced ms' = List.filter voiced ms.

(** Only an assistant row carries a step, and a row of its own says something. *)
Definition piece_ok (p : piece) : Prop :=
  match p with
  | Step _ (Some m) => m_role m = RAssistant
  | Step _ None => True
  | Alone m => voiced m = true
  end.

Lemma steps_of_app ps qs : steps_of (ps ++ qs) = steps_of ps ++ steps_of qs.
Proof. apply omap_app. Qed.
Lemma rows_of_app ps qs : rows_of (ps ++ qs) = rows_of ps ++ rows_of qs.
Proof. apply omap_app. Qed.
Lemma rendered_app images ps qs : rendered images (ps ++ qs) = rendered images ps ++ rendered images qs.
Proof. unfold rendered. by rewrite map_app, concat_app. Qed.
Lemma covers_app ms1' ms1 ms2' ms2 : covers ms1' ms1 -> covers ms2' ms2 -> covers (ms1' ++ ms2') (ms1 ++ ms2).
Proof.
  intros [H1 E1] [H2 E2]. split; [by apply sublist_app|]. by rewrite !List.filter_app, E1, E2.
Qed.
Lemma covers_all_rows ms : covers ms ms.
Proof. done. Qed.
Lemma covers_silent m : voiced m = false -> covers [] [m].
Proof. intros Hm. split; [apply sublist_nil_l|]. cbn. by rewrite Hm. Qed.

Lemma covers_spoken ms' ms : covers ms' ms -> concat (map spoken ms') = concat (map spoken ms).
Proof.
  assert (Hv : forall l, concat (map spoken l) = concat (map spoken (List.filter voiced l))).
  { induction l as [|m l IH]; [done|]. cbn [map concat List.filter]. rewrite IH.
    destruct (voiced m) eqn:Em; [done|]. unfold voiced, spoken, said in *.
    apply negb_false_iff, andb_true_iff in Em as [-> ->]. done. }
  intros [_ E]. by rewrite Hv, E, <- Hv.
Qed.

(** A stretch of the rebuild: the pieces it appends use up steps and cover the
    rows [ms]. *)
Section Stretch.
Context (images : gmap Z (list ImageRef)).

Definition lays (ms : list row) (out : transcript) (left_ : list (list record)) (out' : transcript)
    (left' : list (list record)) : Prop :=
  exists ps, out' = out ++ rendered images ps /\ left_ = steps_of ps ++ left' /\ covers (rows_of ps) ms
    /\ Forall piece_ok ps.

Lemma lays_refl out left_ : lays [] out left_ out left_.
Proof. exists []. split_and!; [by rewrite app_nil_r|done|apply covers_all_rows|constructor]. Qed.
Lemma lays_trans ms1 ms2 o1 l1 o2 l2 o3 l3 :
  lays ms1 o1 l1 o2 l2 -> lays ms2 o2 l2 o3 l3 -> lays (ms1 ++ ms2) o1 l1 o3 l3.
Proof.
  intros (p1 & -> & -> & H1 & F1) (p2 & -> & -> & H2 & F2). exists (p1 ++ p2).
  rewrite rendered_app, steps_of_app, rows_of_app, !app_assoc. split_and!; [done..|by apply covers_app|by apply Forall_app].
Qed.
Lemma lays_row m out left_ : voiced m = true -> lays [m] out left_ (out ++ render images (Alone m)) left_.
Proof.
  exists [Alone m]. split_and!; [unfold rendered; cbn [map concat]; by rewrite app_nil_r|done|apply covers_all_rows|].
  by apply Forall_singleton.
Qed.
Lemma lays_silent m out left_ out' left' : voiced m = false -> lays [] out left_ out' left' -> lays [m] out left_ out' left'.
Proof.
  intros Hm H. apply (lays_trans [] [m] _ _ _ _ _ _ H). exists [].
  split_and!; [by rewrite app_nil_r|done|by apply covers_silent|constructor].
Qed.

Lemma push_message out r blocks reasoning :
  (match blocks with [] => out | _ => out ++ [MkMessage r blocks reasoning] end) = out ++ unless_empty r blocks reasoning.
Proof. destruct blocks; [by rewrite app_nil_r|done]. Qed.

Lemma lays_batch out batch left_ assistant :
  (forall m, assistant = Some m -> m_role m = RAssistant) ->
  lays (match assistant with Some m => [m] | None => [] end) out (batch :: left_)
    (push_tool_batch show_call out batch assistant max_result_bytes image_input) left_.
Proof.
  intros Hrole. exists [Step batch assistant].
  split_and!; [|done|by destruct assistant|apply Forall_singleton; destruct assistant; cbn; auto].
  unfold push_tool_batch, rendered. cbv zeta. rewrite !push_message, <- app_assoc. cbn [map concat render].
  rewrite app_nil_r. unfold said. fold (host_calls batch).
  destruct assistant as [m|]; [|done]. by destruct (is_empty (content_for_model m)).
Qed.

Lemma push_while_lays early out left_ :
  let '(out', left') := push_while show_call max_result_bytes image_input early out left_ in
  lays [] out left_ out' left'.
Proof.
  revert out. induction left_ as [|b rest IH]; intros out; cbn [push_while]; [apply lays_refl|].
  destruct (early (batch_start b)); [|apply lays_refl].
  specialize (IH (push_tool_batch show_call out b None max_result_bytes image_input)).
  destruct (push_while _ _ _ early _ rest) as [out' left'].
  apply (lays_trans [] [] _ _ _ _ _ _ (lays_batch out b rest None ltac:(done)) IH).
Qed.

Lemma push_assistant_lays out left_ m next_ts : m_role m = RAssistant ->
  let '(out', left') := push_assistant show_call max_result_bytes image_input out left_ m next_ts in
  lays [m] out left_ out' left'.
Proof.
  intros Hm. assert (Hv : voiced m = negb (is_empty (content_for_model m))) by (unfold voiced; by rewrite Hm).
  unfold push_assistant. set (alone := (if negb (is_empty (content_for_model m)) then _ else out, left_)).
  assert (Halone : let '(out', left') := alone in lays [m] out left_ out' left').
  { unfold alone. rewrite <- Hv. destruct (voiced m) eqn:E; [|apply (lays_silent m _ _ _ _ E), lays_refl].
    pose proof (lays_row m out left_ E) as H. cbn [render] in H. by rewrite Hm in H. }
  destruct left_ as [|batch rest]; [exact Halone|]. destruct (is_before next_ts (batch_start batch)); [|exact Halone].
  clear Halone alone. set (carries := negb (is_empty (content_for_model m)) || _).
  pose proof (lays_batch out batch rest (if carries then Some m else None)) as Hb.
  specialize (Hb ltac:(destruct carries; congruence)).
  set (out1 := push_tool_batch show_call out batch _ max_result_bytes image_input) in *.
  assert (Hm1 : lays [m] out (batch :: rest) out1 rest).
  { destruct carries eqn:Ec; [done|]. apply lays_silent; [|done].
    apply orb_false_iff in Ec as [Ec _]. by rewrite Hv. }
  pose proof (push_while_lays (is_before next_ts) out1 rest) as Hw.
  destruct (push_while _ _ _ _ out1 rest) as [out' left'].
  apply (lays_trans [m] [] _ _ _ _ _ _ Hm1 Hw).
Qed.

Lemma push_user_lays out left_ m next : m_role m <> RAssistant ->
  let '(out', left') := push_user show_call max_result_bytes image_input images out left_ m next in
  lays [m] out left_ out' left'.
Proof.
  intros Hm. unfold push_user. cbv zeta. assert (Hv : voiced m = true) by (unfold voiced; by rewrite bool_decide_eq_false_2).
  pose proof (lays_row m out left_ Hv) as Hg.
  replace (render images (Alone m)) with [user_message_for_model m (default [] (images !! m_id m))] in Hg.
  2: { cbn [render]. rewrite bool_decide_eq_false_2 by done. unfold user_message_for_model.
       by destruct (default [] (images !! m_id m)). }
  destruct (match next with Some n => bool_decide _ | None => false end); [done|].
  pose proof (push_while_lays (is_before (m_created_at <$> next)) (out ++ [user_message_for_model m (default [] (images !! m_id m))]) left_) as Hw.
  destruct (push_while _ _ _ _ _ left_) as [out' left']. apply (lays_trans [m] [] _ _ _ _ _ _ Hg Hw).
Qed.

(** A boundary: the pieces before it hold whole steps and cover the rows
    [ms]. *)
Definition cuts (ps : list piece) (ms : list row) (n : nat) : Prop :=
  exists before after, ps = before ++ after /\ n = length (rendered images before) /\ covers (rows_of before) ms.
Lemma cuts_app ps qs ms n : cuts ps ms n -> cuts (ps ++ qs) ms n.
Proof. intros (b & a & -> & Hn & Hc). exists b, (a ++ qs). by rewrite app_assoc. Qed.
Lemma cuts_length ps ms n : cuts ps ms n -> n <= length (rendered images ps).
Proof. intros (b & a & -> & -> & _). rewrite rendered_app, length_app. lia. Qed.

(** The checkpoint's boundary is that of its source's last row. *)
Definition boundary_of (source : option Z) (sources : list TranscriptSourceBoundary) : option nat :=
  last (omap (fun s => if bool_decide (Some (s_message_id s) = source) then Some (provider_boundary s) else None) sources).
Lemma boundary_of_snoc source l s : boundary_of source (l ++ [s])
  = if bool_decide (Some (s_message_id s) = source) then Some (provider_boundary s) else boundary_of source l.
Proof.
  unfold boundary_of. rewrite omap_app. cbn [omap list_omap]. case_bool_decide; [by rewrite last_snoc|by rewrite app_nil_r].
Qed.

(** [ms] are the rows the sources [l] were made for. *)
Definition sourced (ps : list piece) (ms : list row) (l : list TranscriptSourceBoundary) : Prop :=
  length l = length ms
  /\ forall i s, l !! i = Some s -> exists m, ms !! i = Some m /\ s_message_id s = m_id m /\ s_role s = m_role m
       /\ cuts ps (take (S i) ms) (provider_boundary s).

Lemma sourced_snoc ps ms l m n : sourced ps ms l -> cuts ps (ms ++ [m]) n ->
  sourced ps (ms ++ [m]) (l ++ [MkSource (m_id m) (m_role m) n]).
Proof.
  intros [Hl Hs] Hc. split; [rewrite !length_app; cbn; lia|]. intros i s Hi.
  apply lookup_app_Some in Hi as [Hi|[Hge Hi]].
  - destruct (Hs i s Hi) as (m' & Hm' & ? & ? & Hcut). pose proof (lookup_lt_Some _ _ _ Hi).
    exists m'. rewrite take_app_le by lia. split_and!; [by apply lookup_app_l_Some|done..].
  - apply list_lookup_singleton_Some in Hi as [Hi <-]. assert (i = length ms) as -> by lia.
    exists m. rewrite take_ge by (rewrite length_app; cbn; lia).
    split_and!; [by apply list_lookup_middle|done..].
Qed.
Lemma sourced_app ps qs ms l : sourced ps ms l -> sourced (ps ++ qs) ms l.
Proof.
  intros [Hl Hs]. split; [done|]. intros i s Hi. destruct (Hs i s Hi) as (m & ? & ? & ? & ?).
  exists m. split_and!; [done..|by apply cuts_app].
Qed.

Lemma boundaries_snoc l n : Sorted le l -> Forall (fun x => x <= n) l -> Sorted le (l ++ [n]).
Proof.
  induction l as [|x l IH]; intros Hs Hf; [by repeat constructor|].
  apply Sorted_inv in Hs as [Hs Hh]. apply Forall_cons in Hf as [Hx Hf]. constructor; [by apply IH|].
  destruct l as [|y l]; [by constructor|]. inversion Hh. by constructor.
Qed.

Lemma sourced_sorted ps ms l n : sourced ps ms l -> length (rendered images ps) <= n ->
  Forall (fun x => x <= n) (map provider_boundary l).
Proof.
  intros [_ Hs] Hn. apply Forall_map, Forall_lookup_2. intros i s Hi. destruct (Hs i s Hi) as (? & _ & _ & _ & Hc).
  apply cuts_length in Hc. cbn. lia.
Qed.

Record rebuilt_ok (source : option Z) (all : list (list record)) (done : list row) (ps : list piece)
    (st : Rebuilt) : Prop := MkRebuiltOk {
  ok_out : rb_out st = rendered images ps;
  ok_steps : all = steps_of ps ++ rb_left st;
  ok_rows : covers (rows_of ps) done;
  ok_pieces : Forall piece_ok ps;
  ok_sources : sourced ps done (rb_sources st);
  ok_boundary : rb_boundary st = boundary_of source (rb_sources st);
  ok_sorted : Sorted le (map provider_boundary (rb_sources st)) }.

Lemma rebuild_step_ok source all done ps st m next : rebuilt_ok source all done ps st ->
  exists ps', rebuilt_ok source all (done ++ [m]) ps'
    (rebuild_step show_call max_result_bytes image_input images source st m next).
Proof.
  intros [Ho Ha Hr Hp Hs Hb Hsort]. unfold rebuild_step.
  pose proof (push_while_lays (fun t => (t <? m_created_at m)%Z) (rb_out st) (rb_left st)) as H1.
  destruct (push_while _ _ _ _ (rb_out st) (rb_left st)) as [o1 l1].
  set (second := if bool_decide (m_role m = RAssistant) then _ else _).
  assert (H2 : let '(o2, l2) := second in lays [m] o1 l1 o2 l2).
  { unfold second. case_bool_decide; [by apply push_assistant_lays | by apply push_user_lays]. }
  destruct second as [o2 l2].
  destruct (lays_trans _ _ _ _ _ _ _ _ H1 H2) as (qs & -> & Hl & Hq & Hpq). exists (ps ++ qs).
  assert (Hc : cuts (ps ++ qs) (done ++ [m]) (length (rendered images (ps ++ qs)))).
  { exists (ps ++ qs), []. rewrite app_nil_r. split_and!; [done..|]. rewrite rows_of_app. by apply covers_app. }
  split; cbn [rb_out rb_left rb_sources rb_boundary]; rewrite ?Ho, <- ?rendered_app.
  - done.
  - by rewrite Ha, Hl, steps_of_app, app_assoc.
  - rewrite rows_of_app. by apply covers_app.
  - by apply Forall_app.
  - apply sourced_snoc; [by apply sourced_app|done].
  - by rewrite boundary_of_snoc, Hb.
  - rewrite map_app. cbn [map provider_boundary]. apply boundaries_snoc; [done|].
    eapply sourced_sorted; [done|]. rewrite rendered_app, length_app. lia.
Qed.
Lemma rebuild_loop_ok source all done ps st messages : rebuilt_ok source all done ps st ->
  exists ps', rebuilt_ok source all (done ++ messages) ps'
    (rebuild_loop show_call max_result_bytes image_input images source st messages).
Proof.
  revert done ps st. induction messages as [|m rest IH]; intros done ps st H; cbn [rebuild_loop].
  { exists ps. by rewrite app_nil_r. }
  rewrite (cons_middle m done rest), app_assoc.
  destruct (rebuild_step_ok _ _ _ _ _ m (head rest) H) as [ps' H']. by eapply IH.
Qed.
End Stretch.

Lemma set_last_snoc n l s : set_last_boundary n (l ++ [s]) = l ++ [MkSource (s_message_id s) (s_role s) n].
Proof.
  induction l as [|x l IH]; [done|]. cbn [app set_last_boundary]. rewrite IH. by destruct (l ++ [s]) eqn:E; [destruct l|].
Qed.
Lemma set_last_sourced images ps ms l : sourced images ps ms l -> covers (rows_of ps) ms ->
  sourced images ps ms (set_last_boundary (length (rendered images ps)) l).
Proof.
  intros [Hl Hs] Hc. destruct l as [|s l _] using rev_ind; [done|]. rewrite set_last_snoc.
  destruct ms as [|m ms _] using rev_ind; [by destruct l|]. rewrite !length_app in Hl. cbn in Hl.
  destruct (Hs (length l) s) as (m' & Hm & Hid & Hrole & _); [by apply list_lookup_middle|].
  rewrite (list_lookup_middle _ _ _ (length l)) in Hm by lia. injection Hm as ->. rewrite Hid, Hrole.
  apply sourced_snoc.
  - split; [lia|]. intros i s' Hi. pose proof (lookup_lt_Some _ _ _ Hi).
    destruct (Hs i s') as (m'' & Hm'' & ? & ? & Hcut); [by apply lookup_app_l_Some|].
    rewrite lookup_app_l in Hm'' by lia. rewrite take_app_le in Hcut by lia. by exists m''.
  - exists ps, []. by rewrite app_nil_r.
Qed.
Lemma set_last_sorted n l : Sorted le (map provider_boundary l) -> Forall (fun x => x <= n) (map provider_boundary l) ->
  Sorted le (map provider_boundary (set_last_boundary n l)).
Proof.
  destruct l as [|s l _] using rev_ind; [done|]. rewrite set_last_snoc, !map_app. intros Hs [Hf _]%Forall_app.
  apply boundaries_snoc; [|done]. clear -Hs. induction (map provider_boundary l) as [|x k IH]; [done|].
  cbn [app] in Hs. apply Sorted_inv in Hs as [Hs Hh]. constructor; [by apply IH|]. destruct k; [done|]. inversion Hh. by constructor.
Qed.

(** The non-tool rows, which a rebuild walks *)
Definition spoken_rows (rows : list row) : list row := List.filter (fun m => negb (bool_decide (m_role m = RTool))) rows.

(** The rebuild of a chat lays its steps and rows out. *)
Lemma rebuild_arranges rows calls attachments source :
  let '(out, boundary, sources) :=
    rebuild_transcript_with_boundary show_call max_result_bytes image_input rows calls attachments source in
  let images := group_attachments attachments in
  exists ps, Forall piece_ok ps /\ out = rendered images ps /\ steps_of ps = batch_tool_calls calls
    /\ covers (rows_of ps) (spoken_rows rows) /\ sourced images ps (spoken_rows rows) sources
    /\ Sorted le (map provider_boundary sources) /\ boundary = boundary_of source sources.
Proof.
  unfold rebuild_transcript_with_boundary. fold (spoken_rows rows). cbv zeta.
  set (images := group_attachments attachments). set (all := batch_tool_calls calls). set (messages := spoken_rows rows).
  destruct (rebuild_loop_ok images source all [] [] (MkRebuilt [] all None []) messages) as [ps Hok].
  { by split. }
  set (st := rebuild_loop _ _ _ _ _ _ messages) in *. cbn [app] in Hok. destruct Hok as [Ho Ha Hr Hp Hs Hb Hsort].
  pose proof (push_while_lays images (fun _ => true) (rb_out st) (rb_left st)) as Hw.
  assert (Hall : forall out left_, (push_while show_call max_result_bytes image_input (fun _ => true) out left_).2 = []).
  { clear. intros out left_. revert out. induction left_ as [|b l IH]; intros out; [done|]. cbn [push_while]. apply IH. }
  specialize (Hall (rb_out st) (rb_left st)).
  destruct (push_while _ _ _ _ (rb_out st) (rb_left st)) as [out left']. cbn [snd] in Hall. subst left'.
  destruct Hw as (qs & -> & Hl & Hq & Hpq). rewrite app_nil_r in Hl.
  assert (Hok : Forall piece_ok (ps ++ qs)) by (by apply Forall_app). rewrite Ho, <- rendered_app.
  assert (Hc : covers (rows_of (ps ++ qs)) messages).
  { rewrite rows_of_app, <- (app_nil_r messages). by apply covers_app. }
  assert (Hst : steps_of (ps ++ qs) = all) by (by rewrite steps_of_app, <- Hl).
  apply (sourced_app _ _ qs) in Hs.
  destruct (last messages) as [m|] eqn:Em; [|by exists (ps ++ qs); split_and!].
  case_bool_decide as Hm; exists (ps ++ qs); [|by split_and!].
  split_and!; [done..|by apply set_last_sourced|apply set_last_sorted; [done|by eapply sourced_sorted]|].
  pose proof (set_last_sourced _ _ _ _ Hs Hc) as [Hlen Hsrc].
  destruct (rb_sources st) as [|s l _] using rev_ind.
  { clear -Em Hlen. by destruct messages. }
  rewrite set_last_snoc in *. rewrite boundary_of_snoc. rewrite length_app in Hlen. cbn in Hlen.
  destruct (Hsrc (length l) _ (list_lookup_middle _ _ _ _ eq_refl)) as (m' & Hm' & Hid & _).
  rewrite last_lookup, <- Hlen, Nat.add_comm in Em. cbn in Em. rewrite Em in Hm'. injection Hm' as <-.
  cbn in Hid |- *. rewrite Hid. by rewrite bool_decide_eq_true_2.
Qed.

(** ** Identities and texts *)
Lemma message_blocks r blocks reasoning : blocks_of (unless_empty r blocks reasoning) = blocks.
Proof. destruct blocks; [done|]. apply app_nil_r. Qed.
Lemma said_blocks (m : row) : tags (map (Text (Number := Number)) (said m)) = [] /\ omap text_of (map (Text (Number := Number)) (said m)) = said m.
Proof. unfold said. by destruct (is_empty (content_for_model m)). Qed.

(** A position that no step straddles *)
Definition between_steps (all : list (list record)) (out : transcript) (n : nat) : Prop :=
  n <= length out /\ exists pushed left_, all = pushed ++ left_
    /\ transcript_tags (take n out) = concat (map batch_tags pushed).

Lemma render_tags images ps : transcript_tags (rendered images ps) = concat (map batch_tags (steps_of ps)).
Proof.
  induction ps as [|p ps IH]; [done|]. unfold rendered. cbn [map concat]. fold (rendered images ps).
  rewrite transcript_tags_app, IH. clear IH. destruct p as [batch carrier|m]; cbn [render].
  - cbn [steps_of omap list_omap map concat]. fold (steps_of ps). f_equal. unfold transcript_tags.
    rewrite blocks_of_app, !message_blocks, !tags_app, call_blocks_tags, all_results_tags. unfold batch_tags.
    destruct carrier as [m|]; [|done]. by rewrite (proj1 (said_blocks m)).
  - cbn [steps_of omap list_omap]. fold (steps_of ps). case_bool_decide; [done|].
    unfold transcript_tags, blocks_of. cbn [map concat content]. by rewrite app_nil_r, tags_app, images_tags.
Qed.


Lemma render_texts images ps : Forall piece_ok ps ->
  texts (rendered images ps) = concat (map spoken (rows_of ps)).
Proof.
  induction 1 as [|p ps Hp _ IH]; [done|]. unfold rendered. cbn [map concat]. fold (rendered images ps).
  rewrite texts_app, IH. clear IH. change (p :: ps) with ([p] ++ ps).
  rewrite rows_of_app, map_app, concat_app. f_equal. destruct p as [batch carrier|m]; cbn [render piece_ok] in *.
  - unfold texts. rewrite blocks_of_app, !message_blocks, !omap_app, call_blocks_text, all_results_text, !app_nil_r.
    destruct carrier as [m|]; [|done]. cbn. unfold spoken. rewrite bool_decide_eq_true_2, app_nil_r by done.
    apply said_blocks.
  - cbn. rewrite app_nil_r. unfold spoken, said, voiced in *. case_bool_decide as Hr.
    + cbn in Hp. apply negb_true_iff in Hp. by rewrite Hp.
    + unfold texts, blocks_of. cbn [map concat content]. by rewrite app_nil_r, omap_app, images_text.
Qed.

(** Of the identities: the calls of a rebuilt transcript are those of the
    recorded ones, and no boundary falls inside a step. *)
Lemma rebuild_amounts rows calls attachments source :
  let '(out, boundary, sources) :=
    rebuild_transcript_with_boundary show_call max_result_bytes image_input rows calls attachments source in
  let steps := batch_tool_calls calls in
  concat steps = calls
  /\ transcript_tags out = concat (map batch_tags steps)
  /\ texts out = concat (map spoken (spoken_rows rows))
  /\ map s_message_id sources = map m_id (spoken_rows rows)
  /\ map s_role sources = map m_role (spoken_rows rows)
  /\ Sorted le (map provider_boundary sources)
  /\ Forall (fun s => between_steps steps out (provider_boundary s)) sources.
Proof.
  pose proof (rebuild_arranges rows calls attachments source) as H.
  destruct (rebuild_transcript_with_boundary _ _ _ rows calls attachments source) as [[out bd] sources].
  destruct H as (ps & Hp & -> & Hst & Hr & [Hl Hs] & Hsort & _).
  assert (Hmaps : map s_message_id sources = map m_id (spoken_rows rows) /\ map s_role sources = map m_role (spoken_rows rows)).
  { split; apply list_eq_same_length with (n := length sources); rewrite ?length_map; try done;
      intros i x y Hi; rewrite !list_lookup_fmap; intros Hx Hy;
      destruct (sources !! i) as [s|] eqn:Es; try done; destruct (Hs i s Es) as (m & Em & ? & ? & _);
      rewrite Em in Hy; cbn in *; congruence. }
  split_and!; [| |rewrite render_texts by done; by apply covers_spoken|apply Hmaps..|done|].
  - apply batches_partition.
  - by rewrite render_tags, Hst.
  - apply Forall_lookup_2. intros i s Hi. destruct (Hs i s Hi) as (m & _ & _ & _ & Hc). split; [by eapply cuts_length|].
    destruct Hc as (before & after & -> & -> & _). exists (steps_of before), (steps_of after).
    rewrite <- Hst. split; [apply steps_of_app|]. by rewrite rendered_app, take_app_length, render_tags.
Qed.

(** ** What the blocks of a call say *)

Lemma char_floor_le s n : char_floor s n <= n.
Proof. induction n as [|n IH]; cbn [char_floor]; destruct (is_char_boundary s _); lia. Qed.
Lemma str_take_len n s : len (str_take n s) <= n.
Proof. unfold len. revert s. induction n as [|n IH]; intros [|a s]; cbn; try lia. specialize (IH s). lia. Qed.

Definition call_failed (c : record) : bool := negb (bool_decide (c_status c = CallCompleted)).

(** The block of a call: its name and arguments, under the identity its result
    is given by; a search the provider ran itself carries its recorded output
    and its replay state. *)
Definition says_call (c : record) (b : ContentBlock Number) : Prop :=
  if is_provider_executed_record c
  then exists output, b = ProviderExecutedToolCall (c_name c) (c_arguments c) output (call_failed c) (c_provider_replay c)
         /\ forall result value, c_result c = Some result -> len result <= max_result_bytes ->
              json_from_str result = Some value -> output = value
  else b = ToolUse (c_provider_id c) (c_name c) (c_arguments c).

(** The blocks of a host call's result: the result under the call's identity,
    whole when it fits the bound and otherwise a beginning of it, with a note
    on its images, which follow when the model reads images. *)
Definition says_result (c : record) (bs : list (ContentBlock Number)) : Prop :=
  match c_result c with
  | None => bs = []
  | Some result =>
      let pics := default [] (c_result_preview c ≫= exec_preview_images) in
      exists shown note notice,
        bs = ToolResult (c_provider_id c) (shown +:+ note +:+ notice) (call_failed c)
             :: (if image_input then map Image pics else [])
        /\ (if len result <=? max_result_bytes then shown = result /\ note = ""
            else (exists rest, result = shown +:+ rest) /\ len shown <= max_result_bytes)
        /\ (pics = [] -> notice = "")
  end.

Lemma bounded_result_says call result : exists shown note,
  bounded_result show_call call max_result_bytes result = shown +:+ note
  /\ if len result <=? max_result_bytes then shown = result /\ note = ""
     else (exists rest, result = shown +:+ rest) /\ len shown <= max_result_bytes.
Proof.
  unfold bounded_result, truncate_to_bytes. destruct (len result <=? max_result_bytes) eqn:E; cbn [default].
  - exists result, "". by rewrite str_app_nil_r.
  - cbv zeta. unfold truncate_utf8. rewrite E. cbn [fst].
    eexists _, _. split; [reflexivity|]. split; [eexists; symmetry; apply take_drop_str|].
    etrans; [apply str_take_len|apply char_floor_le].
Qed.

Lemma call_block_says call : says_call call (call_block show_call max_result_bytes call).
Proof.
  unfold says_call, call_block. destruct (is_provider_executed_record call); [|done].
  eexists. split; [reflexivity|]. intros result value Hr Hlen Hj. rewrite Hr.
  unfold bounded_result, truncate_to_bytes. apply Nat.leb_le in Hlen. rewrite Hlen. cbn [default]. by rewrite Hj.
Qed.

Lemma result_blocks_say call : says_result call (result_blocks show_call max_result_bytes image_input call).
Proof.
  unfold says_result, result_blocks. destruct (c_result call) as [result|]; [|done].
  destruct (bounded_result_says call result) as (shown & note & -> & Hs).
  set (pics := default [] _). assert (Hp : match c_result_preview call with
    | Some preview => default [] (exec_preview_images preview) | None => [] end = pics).
  { unfold pics. by destruct (c_result_preview call). }
  rewrite Hp. unfold tool_result_blocks. exists shown, note.
  destruct pics as [|i l] eqn:Ei.
  - exists "". rewrite str_app_nil_r. split_and!; [by destruct image_input|done|done].
  - eexists. rewrite (str_app_assoc shown note). split_and!; [reflexivity|done|done].
Qed.

(** ** The images of a row *)

(** The images attached to a row, in their order *)
Definition pictured (attachments : list MessageAttachment) (m : row) (pics : list ImageRef) : Prop :=
  exists l, l ≡ₚ List.filter (fun a => (at_message_id a =? m_id m)%Z) attachments
    /\ Sorted Z.le (map at_ordinal l) /\ pics = map at_image l.

Lemma insert_ordinal_perm x l : insert_ordinal x l ≡ₚ x :: l.
Proof.
  induction l as [|y l IH]; [done|]. cbn. destruct (x.1 <? y.1)%Z; [done|]. rewrite IH. apply Permutation_swap.
Qed.
Lemma insert_ordinal_sorted x l : Sorted Z.le (map fst l) -> Sorted Z.le (map fst (insert_ordinal x l)).
Proof.
  induction l as [|y l IH]; intros Hs; [by repeat constructor|]. cbn. destruct (Z.ltb_spec x.1 y.1).
  - constructor; [done|]. constructor. lia.
  - apply Sorted_inv in Hs as [Hs Hh]. constructor; [by apply IH|].
    destruct l as [|z l]; cbn in *; [by constructor|]. inversion Hh. destruct (x.1 <? z.1)%Z; by constructor.
Qed.
Lemma sort_ordinal_spec l : sort_ordinal l ≡ₚ l /\ Sorted Z.le (map fst (sort_ordinal l)).
Proof.
  unfold sort_ordinal. assert (H : forall acc, Sorted Z.le (map fst acc) ->
    let r := fold_left (fun acc x => insert_ordinal x acc) l acc in r ≡ₚ acc ++ l /\ Sorted Z.le (map fst r)).
  { induction l as [|x l IH]; intros acc Ha; cbn; [by rewrite app_nil_r|].
    destruct (IH (insert_ordinal x acc)) as [Hp Hs]; [by apply insert_ordinal_sorted|]. split; [|done].
    rewrite Hp, insert_ordinal_perm. apply Permutation_middle. }
  apply (H []). constructor.
Qed.

Lemma group_pictured attachments m : pictured attachments m (default [] (group_attachments attachments !! m_id m)).
Proof.
  unfold group_attachments. set (add := fun (g : gmap Z (list (Z * ImageRef))) a => _).
  assert (Hg : forall l g, default [] (fold_left add l g !! m_id m) = default [] (g !! m_id m)
    ++ map (fun a => (at_ordinal a, at_image a)) (List.filter (fun a => (at_message_id a =? m_id m)%Z) l)).
  { induction l as [|a l IH]; intros g; cbn [fold_left List.filter]; [by rewrite app_nil_r|]. rewrite IH. unfold add at 1.
    destruct (Z.eqb_spec (at_message_id a) (m_id m)) as [->|Hne].
    - rewrite lookup_insert_eq. cbn. by rewrite <- app_assoc.
    - by rewrite lookup_insert_ne. }
  specialize (Hg attachments ∅). rewrite lookup_empty in Hg. cbn [from_option app] in Hg. rewrite lookup_fmap.
  set (mine := List.filter _ attachments) in *. set (found := fold_left add attachments ∅ !! m_id m) in *.
  destruct (sort_ordinal_spec (default [] found)) as [Hp Hs]. rewrite Hg in Hp at 2.
  destruct (Permutation_map_inv _ _ Hp) as (l & El & Hl). exists l. split_and!; [done| |].
  - rewrite El, map_map in Hs. done.
  - transitivity (map snd (sort_ordinal (default [] found))); [by destruct found|]. by rewrite El, map_map.
Qed.

(** C32: Rebuilding a chat loses nothing and repeats nothing.  The transcript is
    laid out in pieces: each step of the recorded calls once, in order, with
    every call of the step in it, and each row that is not a tool's once, in
    order, but for assistant rows without text, which appear only to lend a
    step their reasoning.  A step is one assistant message with the carrier's
    text, a block for each call, a search the provider ran included, and one
    message with the results the host recorded; a row of its own is one message
    with its images, in their order, before its text.  There is one source
    boundary for each row, in order: it falls between pieces, and the pieces
    before it hold the rows up to that one in the same sense; the checkpoint's
    boundary is that of the row it names. *)
Theorem a_rebuild_keeps_every_row rows calls attachments source :
  let '(out, boundary, sources) :=
    rebuild_transcript_with_boundary show_call max_result_bytes image_input rows calls attachments source in
  let images := group_attachments attachments in
  (exists ps, Forall piece_ok ps /\ out = rendered images ps
     /\ steps_of ps = batch_tool_calls calls /\ concat (steps_of ps) = calls
     /\ covers (rows_of ps) (spoken_rows rows) /\ sourced images ps (spoken_rows rows) sources
     /\ Sorted le (map provider_boundary sources) /\ boundary = boundary_of source sources)
  /\ (forall call, says_call call (call_block show_call max_result_bytes call)
       /\ says_result call (result_blocks show_call max_result_bytes image_input call))
  /\ (forall m, pictured attachments m (default [] (images !! m_id m))).
Proof.
  pose proof (rebuild_arranges rows calls attachments source) as H.
  destruct (rebuild_transcript_with_boundary _ _ _ rows calls attachments source) as [[out bd] sources].
  destruct H as (ps & Hp & Ho & Hst & H). split_and!.
  - exists ps. split_and!; [done|done|done| |apply H|apply H|apply H|apply H]. rewrite Hst. apply batches_partition.
  - intros call. split; [apply call_block_says|apply result_blocks_say].
  - apply group_pictured.
Qed.

(** ** Distinct calls come before their results *)

Lemma calls_first_app l1 l2 : calls_first l1 -> calls_first l2 ->
  (forall id, Result id ∈ l1 -> Call id ∉ l2) -> calls_first (l1 ++ l2).
Proof.
  intros H1 H2 H12 before after id Heq Hr Hc. symmetry in Heq. apply app_eq_app in Heq as (l & [[-> ->]|[-> ->]]).
  - apply elem_of_app in Hr as [Hr|Hr]; [apply (H12 id Hr); set_solver | by apply (H2 l after id)].
  - apply elem_of_app in Hc as [Hc|Hc]; [by apply (H1 before l id) | apply (H12 id); set_solver].
Qed.
Lemma calls_first_calls {A} (f : A -> string) l : calls_first (map (fun x => Call (f x)) l).
Proof.
  intros before after id Heq Hr. apply (f_equal (elem_of (Result id))) in Heq.
  assert (Hin : Result id ∈ map (fun x => Call (f x)) l) by (rewrite Heq; set_solver).
  apply list_elem_of_In, in_map_iff in Hin as (x & [=] & _).
Qed.
Lemma calls_first_results {A} (f : A -> string) l : calls_first (map (fun x => Result (f x)) l).
Proof.
  intros before after id Heq _ Hc. apply (f_equal (elem_of (Call id))) in Heq.
  assert (Hin : Call id ∈ map (fun x => Result (f x)) l) by (rewrite Heq; set_solver).
  apply list_elem_of_In, in_map_iff in Hin as (x & [=] & _).
Qed.

Lemma batch_tags_call batch id : Call id ∈ batch_tags batch <-> id ∈ map c_provider_id (host_calls batch).
Proof.
  unfold batch_tags. rewrite elem_of_app, !list_elem_of_In, !in_map_iff. split.
  - intros [(c & [= <-] & Hc)|(c & [=] & _)]. by exists c.
  - intros (c & <- & Hc). left. by exists c.
Qed.
Lemma batch_tags_result batch id : Result id ∈ batch_tags batch -> id ∈ map c_provider_id (host_calls batch).
Proof.
  unfold batch_tags. rewrite elem_of_app, !list_elem_of_In, !in_map_iff.
  intros [(c & [=] & _)|(c & [= <-] & Hc)]. apply List.filter_In in Hc as [Hc _]. by exists c.
Qed.
Lemma host_calls_concat (bs : list (list record)) : host_calls (concat bs) = concat (map host_calls bs).
Proof. induction bs as [|b bs IH]; [done|]. cbn [concat map]. unfold host_calls in *. by rewrite List.filter_app, IH. Qed.

Lemma steps_calls_first (bs : list (list record)) : NoDup (map c_provider_id (host_calls (concat bs))) ->
  calls_first (concat (map batch_tags bs)).
Proof.
  induction bs as [|b bs IH]; intros Hnd; [by intros [] after id; [intros _ ?%not_elem_of_nil|intros [=]]|].
  cbn [concat map] in *. unfold host_calls in Hnd. rewrite List.filter_app in Hnd. fold (host_calls b) in Hnd.
  fold (host_calls (concat bs)) in Hnd. rewrite map_app in Hnd. apply NoDup_app in Hnd as (_ & Hdisj & Hnd).
  apply calls_first_app; [|by apply IH|].
  - unfold batch_tags. apply calls_first_app; [apply calls_first_calls | apply calls_first_results |].
    intros id Hr. exfalso. apply list_elem_of_In, in_map_iff in Hr as (x & [=] & _).
  - intros id Hr%batch_tags_result Hc. apply (Hdisj id Hr). rewrite host_calls_concat.
    clear -Hc. induction bs as [|b' bs IH]; [by apply not_elem_of_nil in Hc|]. cbn [map concat] in *.
    rewrite map_app. apply elem_of_app. apply elem_of_app in Hc as [Hc|Hc]; [left; by apply batch_tags_call | right; by apply IH].
Qed.
End Facts.
