(* ===== verification/RequestTheorems.v ===== *)
(** * What the agent loop sends

    The request of a step from the rows of a chat, the checkpoint that stands
    in for its start, and the call that writes one. *)
From stdpp Require Import gmap.
From Stdlib Require Import Sorted.
From S2P Require Import Prelude RustStr Json TurnTables TurnResolve TurnPlacements ErrorKinds ContextFit.
From S2P Require Import ContextFit ContextKeeps ContextTheorems Transcript TranscriptFacts Checkpoint RequestPrefix.

Open Scope nat_scope.

Section Requests.
Context {Number : Type} `{HJ : SerdeJson Number} `{HT : !SerdeJsonText Number}.
Notation chat_message := (ChatMessage Number).
Implicit Types (b : ContentBlock Number) (m : chat_message) (messages l : list chat_message).

(** ** Hydration *)

(** Bytes attached *)
Definition attached_bytes (a : gmap Z ImageData) : N :=
  map_fold (fun _ d acc => (N.of_nat (length (id_bytes d)) + acc)%N) 0%N a.

(** What hydration keeps true while it walks *)
Definition within_bounds (blobs : Z -> result AgentError (option bytes)) (st : Hydration) : Prop :=
  attached_bytes (attachments st) = hydrated_bytes st /\ (hydrated_bytes st <= MAX_HYDRATED_IMAGE_BYTES)%N
  /\ forall id d, attachments st !! id = Some d -> blobs id = Ok (Some (id_bytes d)).

Definition has_bytes (a : gmap Z ImageData) b : Prop :=
  match b with Image image => is_Some (a !! blob_id image) | _ => True end.

Lemma attached_mono a a' b : a ⊆ a' -> has_bytes a b -> has_bytes a' b.
Proof. destruct b; cbn; try done. intros Hs [d Hd]. exists d. by eapply lookup_weaken. Qed.

Lemma hydrate_block_ok blobs st b st' b' : within_bounds blobs st -> hydrate_block blobs st b = Ok (st', b') ->
  within_bounds blobs st' /\ attachments st ⊆ attachments st' /\ has_bytes (attachments st') b' /\ evicted b' b
  /\ size (attachments st') <= size (attachments st) + length (images [b]).
Proof.
  intros (Hb & Hm & Hd) H. destruct b as [| |image| |]; cbn [hydrate_block] in H;
    try (injection H as <- <-; by split_and!; [|done|done|left|lia]).
  destruct (attachments st !! blob_id image) as [d|] eqn:E; cbn [is_some] in H.
  { injection H as <- <-. split; [done|]. split_and!; [done|cbn; by rewrite E|by left|cbn; lia]. }
  assert (Hevicted : st' = st -> b' = evict_image_block (Image image) ->
    within_bounds blobs st' /\ attachments st ⊆ attachments st' /\ has_bytes (attachments st') b'
    /\ evicted b' (Image image) /\ size (attachments st') <= size (attachments st) + length (images [Image (Number := Number) image])).
  { intros -> ->. split; [done|]. split_and!; [done|done|by right|cbn; lia]. }
  destruct (blobs (blob_id image)) as [[data|]|e] eqn:Eb; [| |done].
  2: { injection H as <- <-. by apply Hevicted. }
  destruct (N.leb_spec (usize_add (hydrated_bytes st) (N.of_nat (length data))) MAX_HYDRATED_IMAGE_BYTES) as [Hle|_].
  2: { injection H as <- <-. by apply Hevicted. }
  injection H as <- <-. unfold within_bounds. cbn [attachments hydrated_bytes has_bytes]. split_and!.
  - unfold attached_bytes in *. rewrite map_fold_insert_L; [|intros; lia|done]. cbn [id_bytes]. lia.
  - unfold usize_add in Hle. assert (MAX_HYDRATED_IMAGE_BYTES < 2 ^ 64 - 1)%N by (vm_compute; reflexivity). lia.
  - intros id d [[<- <-]|[_ Hl]]%lookup_insert_Some; [done|by apply Hd].
  - by apply insert_subseteq.
  - rewrite lookup_insert_eq. by eexists.
  - by left.
  - rewrite map_size_insert_None by done. cbn. lia.
Qed.

Lemma hydrate_blocks_ok blobs st bs st' bs' : within_bounds blobs st -> hydrate_blocks blobs st bs = Ok (st', bs') ->
  within_bounds blobs st' /\ attachments st ⊆ attachments st' /\ Forall (has_bytes (attachments st')) bs'
  /\ Forall2 evicted bs' bs /\ size (attachments st') <= size (attachments st) + length (images bs).
Proof.
  intros Hb. revert st' bs'. induction bs as [|b bs IH]; intros st' bs' H; cbn [hydrate_blocks] in H.
  { injection H as <- <-. split; [exact Hb|]. split_and!; [done|constructor|constructor|cbn; lia]. }
  destruct (hydrate_blocks blobs st bs) as [[st1 bs1]|] eqn:E1; [|done]. destruct (IH _ _ eq_refl) as (Hb1 & Hs1 & Ha1 & He1 & Hn1).
  destruct (hydrate_block blobs st1 b) as [[st2 b2]|] eqn:E2; [|done]. injection H as <- <-.
  destruct (hydrate_block_ok _ _ _ _ _ Hb1 E2) as (Hb2 & Hs2 & Ha2 & He2 & Hn2).
  split; [exact Hb2|]. split_and!.
  - by etransitivity.
  - constructor; [done|]. eapply Forall_impl; [exact Ha1|]. intros x. by apply attached_mono.
  - by constructor.
  - change (images (b :: bs)) with (images ([b] ++ bs)). rewrite images_app, length_app. lia.
Qed.

Lemma hydrate_messages_ok blobs st l st' l' : within_bounds blobs st -> hydrate_messages blobs st l = Ok (st', l') ->
  within_bounds blobs st' /\ attachments st ⊆ attachments st' /\ Forall (has_bytes (attachments st')) (blocks_of l')
  /\ Forall2 evicted_message l' l /\ size (attachments st') <= size (attachments st) + length (images (blocks_of l)).
Proof.
  intros Hb. revert st' l'. induction l as [|m l IH]; intros st' l' H; cbn [hydrate_messages] in H.
  { injection H as <- <-. split; [exact Hb|]. split_and!; [done|constructor|constructor|cbn; lia]. }
  destruct (hydrate_messages blobs st l) as [[st1 l1]|] eqn:E1; [|done]. destruct (IH _ _ eq_refl) as (Hb1 & Hs1 & Ha1 & He1 & Hn1).
  destruct (hydrate_blocks blobs st1 (content m)) as [[st2 bs2]|] eqn:E2; [|done]. injection H as <- <-.
  destruct (hydrate_blocks_ok _ _ _ _ _ Hb1 E2) as (Hb2 & Hs2 & Ha2 & He2 & Hn2).
  split; [exact Hb2|]. split_and!.
  - by etransitivity.
  - rewrite blocks_of_cons. apply Forall_app. split; [done|]. eapply Forall_impl; [exact Ha1|]. intros x. by apply attached_mono.
  - constructor; [by split_and!|done].
  - rewrite blocks_of_cons, images_app, length_app. lia.
Qed.

Lemma evicted_trans b1 b2 b3 : evicted b1 b2 -> evicted b2 b3 -> evicted b1 b3.
Proof.
  intros [->|[H1 ->]]; [done|]. intros [->|[H3 ->]]; [by right|]. by rewrite stand_in_no_image in H1.
Qed.
Lemma evicted_messages_trans l1 l2 l3 : Forall2 evicted_message l1 l2 -> Forall2 evicted_message l2 l3 -> Forall2 evicted_message l1 l3.
Proof.
  intros H1. revert l3. induction H1 as [|m1 m2 l1 l2 (Hr & Hx & Hc) _ IH]; intros l3 H; inversion H as [|? m3 ? l3' (Hr' & Hx' & Hc') ? ]; subst; constructor; [|by apply IH].
  split_and!; [congruence | congruence |]. clear -Hc Hc'. revert Hc'. generalize (content m3). induction Hc; intros k Hk; inversion Hk; subst; constructor; [by eapply evicted_trans|by apply IHHc].
Qed.
Lemma evict_all_ok l : Forall2 evicted_message (evict_all_images l) l /\ images (blocks_of (evict_all_images l)) = [].
Proof.
  induction l as [|m l [IH1 IH2]]; [by split; [constructor|]|]. cbn [evict_all_images map]. split.
  - constructor; [|done]. split_and!; try done. cbn [with_content content].
    induction (content m) as [|b bs IH]; constructor; [|done]. destruct b; [left|left|right|left|left]; done.
  - rewrite blocks_of_cons, images_app. cbn [with_content content].
    assert (images (map evict_image_block (content m)) = []) as ->; [|exact IH2].
    induction (content m) as [|b bs IH]; [done|]. unfold images in *. cbn [map List.filter]. by rewrite stand_in_no_image.
Qed.

Lemma no_images_attached a bs : images bs = [] -> Forall (has_bytes a) bs.
Proof.
  unfold images. induction bs as [|b bs IH]; intros H; [constructor|]. cbn [List.filter] in H.
  destruct b; cbn [is_image] in H; try done; (constructor; [done|by apply IH]).
Qed.
Lemma evicted_refl l : Forall2 evicted_message l l.
Proof.
  induction l as [|m l IH]; constructor; [|done]. split_and!; try done.
  induction (content m); constructor; [by left|done].
Qed.

(** What hydration amounts to *)
Lemma hydrate_amounts (blobs : option (Z -> result AgentError (option bytes))) messages attached_ out :
  hydrate_images blobs messages = Ok (attached_, out) ->
  (forall image, Image image ∈ blocks_of out -> is_Some (attached_ !! blob_id image))
  /\ (forall id d, attached_ !! id = Some d -> exists get, blobs = Some get /\ get id = Ok (Some (id_bytes d)))
  /\ size attached_ <= MAX_HYDRATED_IMAGES /\ (attached_bytes attached_ <= MAX_HYDRATED_IMAGE_BYTES)%N
  /\ Forall2 evicted_message out messages.
Proof.
  unfold hydrate_images. intros H.
  assert (Hnone : attached_ = ∅ -> images (blocks_of out) = [] -> Forall2 evicted_message out messages ->
    (forall image, Image image ∈ blocks_of out -> is_Some (attached_ !! blob_id image))
    /\ (forall id d, attached_ !! id = Some d -> exists get, blobs = Some get /\ get id = Ok (Some (id_bytes d)))
    /\ size attached_ <= MAX_HYDRATED_IMAGES /\ (attached_bytes attached_ <= MAX_HYDRATED_IMAGE_BYTES)%N
    /\ Forall2 evicted_message out messages).
  { intros -> Hi Hf. split_and!; try done; [|vm_compute; lia].
    intros image Hin. apply (proj1 (Forall_forall _ _) (no_images_attached ∅ _ Hi)) in Hin. exact Hin. }
  destruct (existsb (fun m => existsb is_image (content m)) messages) eqn:Ex; cbn [negb] in H.
  2: { injection H as <- <-. apply Hnone; [done | | apply evicted_refl].
       clear -Ex. induction messages as [|m l IH]; [done|]. cbn [existsb] in Ex. apply orb_false_iff in Ex as [Hm Hl].
       rewrite blocks_of_cons, images_app, (IH Hl), app_nil_r. clear -Hm. unfold images.
       induction (content m) as [|b bs IH]; [done|]. cbn [existsb List.filter] in *. apply orb_false_iff in Hm as [-> Hm]. by apply IH. }
  destruct blobs as [get|].
  2: { injection H as <- <-. destruct (evict_all_ok messages). by apply Hnone. }
  destruct (hydrate_messages get _ _) as [[st l]|] eqn:E; [|done]. injection H as <- <-.
  destruct (evict_messages_spec (image_cutoff MAX_HYDRATED_IMAGES (image_count messages)) messages) as [Hi Hf].
  fold (evict_images_beyond messages MAX_HYDRATED_IMAGES) in Hi, Hf.
  assert (Hstart : within_bounds get (MkHydration ∅ 0)).
  { split; [done|]. split; [vm_compute; discriminate|]. intros id d Hd. cbn [attachments] in Hd. by rewrite lookup_empty in Hd. }
  destruct (hydrate_messages_ok _ _ _ _ _ Hstart E) as (Hb & _ & Ha & He & Hn).
  destruct (image_cutoff_bound MAX_HYDRATED_IMAGES (image_count messages)) as (Hlow & _).
  rewrite Hi, length_drop in Hn. change (length (images (blocks_of messages))) with (image_count messages) in Hn.
  destruct Hb as (Hb1 & Hb2 & Hb3). split_and!.
  - intros image Hin. exact (proj1 (Forall_forall _ _) Ha _ Hin).
  - intros id d Hd. exists get. split; [done|by apply Hb3].
  - cbn [attachments] in Hn. rewrite map_size_empty in Hn. lia.
  - by rewrite Hb1.
  - by eapply evicted_messages_trans.
Qed.
Lemma hydrate_evicts blobs messages attached_ out : hydrate_images blobs messages = Ok (attached_, out) ->
  Forall2 evicted_message out messages.
Proof. intros H. by apply hydrate_amounts in H as (_ & _ & _ & _ & H). Qed.

(** Every image block of a request has its bytes: after hydration the
    pixels of each one that is left are attached, they are the bytes of that
    blob, and a block whose bytes are missing or do not fit became text.  At
    most eight blobs and at most 20 MiB are attached, and nothing but image
    blocks changes. *)
Lemma hydrated_images_have_their_bytes (blobs : option (Z -> result AgentError (option bytes))) messages attached_ out :
  hydrate_images blobs messages = Ok (attached_, out) ->
  (forall image, Image image ∈ blocks_of out -> is_Some (attached_ !! blob_id image))
  /\ (forall id d, attached_ !! id = Some d -> exists get, blobs = Some get /\ get id = Ok (Some (id_bytes d)))
  /\ size attached_ <= MAX_HYDRATED_IMAGES /\ (attached_bytes attached_ <= MAX_HYDRATED_IMAGE_BYTES)%N
  /\ Forall2 evicted_message out messages.
Proof. apply hydrate_amounts. Qed.

(** ** The prefix of a request *)

(** Messages with some images turned into text *)
Definition redrawn_block b' b : Prop := b' = b \/ is_image b = true /\ exists t, b' = Text t.
Definition redrawn (m' m : chat_message) : Prop := role m' = role m /\ Forall2 redrawn_block (content m') (content m).

Lemma evicted_redrawn l' l : Forall2 evicted_message l' l -> Forall2 redrawn l' l.
Proof.
  intros H. eapply Forall2_impl; [exact H|]. intros m' m (Hr & _ & Hc). split; [done|].
  eapply Forall2_impl; [exact Hc|]. intros b' b [->|[Hi ->]]; [by left|]. right. split; [done|].
  destruct b; try done. by eexists.
Qed.
Lemma redrawn_refl m : redrawn m m.
Proof. split; [done|]. induction (content m); constructor; [by left|done]. Qed.
Lemma previews_redrawn l keep : Forall2 redrawn (evict_old_tool_result_images l keep) l.
Proof.
  rewrite evict_previews_eq. set (n := preview_cutoff _ _). rewrite <- (take_drop n l) at 3. apply Forall2_app.
  - induction (take n l) as [|m k IH]; [constructor|]. constructor; [|exact IH]. unfold preview_message.
    destruct (existsb _ _); [|apply redrawn_refl]. split; [done|]. cbn [with_content content].
    induction (content m) as [|b bs IHb]; constructor; [|done]. destruct b; [by left|by left| |by left|by left].
    right. split; [done|by eexists].
  - induction (drop n l); constructor; [apply redrawn_refl|done].
Qed.
Lemma redrawn_trans l1 l2 l3 : Forall2 redrawn l1 l2 -> Forall2 redrawn l2 l3 -> Forall2 redrawn l1 l3.
Proof.
  intros H1. revert l3. induction H1 as [|m1 m2 k1 k2 (Hr & Hc) _ IH]; intros l3 H;
    inversion H as [|? m3 ? k3 (Hr' & Hc') Hk]; subst; constructor; [|by apply IH].
  split; [congruence|]. clear -Hc Hc'. revert Hc'. generalize (content m3).
  induction Hc as [|b1 b2 c1 c2 Hb _ IHc]; intros k H; inversion H as [|? b3 ? k3 Hb' Hk]; subst; constructor; [|by apply IHc].
  destruct Hb as [->|[Hi [t ->]]]; [done|]. destruct Hb' as [->|[_ [t' ->]]]; [right; eauto|done].
Qed.

Lemma redrawn_tags l' l : Forall2 redrawn l' l -> transcript_tags l' = transcript_tags l.
Proof.
  induction 1 as [|m' m l' l (_ & Hc) _ IH]; [done|]. rewrite !transcript_tags_cons, IH. f_equal.
  induction Hc as [|b' b c' c Hb _ IHc]; [done|].
  change (tags ([b'] ++ c') = tags ([b] ++ c)). rewrite !tags_app, IHc. f_equal.
  destruct Hb as [->|[Hi [t ->]]]; [done|]. by destruct b.
Qed.
Lemma redrawn_alternating l' l : Forall2 redrawn l' l -> alternating l -> alternating l'.
Proof.
  induction 1 as [|m' m l' l (Hr & _) H IH]; [done|]. inversion H as [|n' n k' k (Hr' & _) Hk]; subst; [done|].
  intros [Hne Ha]. split; [congruence|by apply IH].
Qed.
Lemma redrawn_starts l' l : Forall2 redrawn l' l -> starts_with_user l -> starts_with_user l'.
Proof.
  intros [|m' m k' k (Hr & Hc) _]; [done|]. cbn. rewrite !anchor_iff. intros [Hu Ho]. split; [congruence|].
  clear -Hc Ho. induction Hc as [|b' b c' c Hb _ IH]; [done|]. cbn [existsb] in *.
  apply orb_true_iff in Ho as [Ho|Ho]; [|by rewrite (IH Ho), orb_true_r].
  assert (opens b' = true) as ->; [|done]. destruct Hb as [->|[_ [t ->]]]; done.
Qed.
Lemma redrawn_app l' l1 l2 : Forall2 redrawn l' (l1 ++ l2) ->
  exists k1 k2, l' = k1 ++ k2 /\ Forall2 redrawn k1 l1 /\ Forall2 redrawn k2 l2.
Proof. intros H. apply Forall2_app_inv_r in H as (k1 & k2 & H1 & H2 & ->). by exists k1, k2. Qed.

(** Fitting a view: a suffix of the transcript at some budget, behind the
    projected checkpoint when both fit. *)
Lemma fit_transcript_shape config specs transcript level checkpoint boundary :
  let budget := compute_message_budget (context_window config) level (system_prompt config) specs in
  exists n history_budget, let '(body, reduced) := fit_to_budget (drop n transcript) history_budget (content_floor_for_level level) in
    fit_transcript config specs transcript level checkpoint boundary = (body, reduced)
    \/ exists c, checkpoint = Some c
       /\ fit_transcript config specs transcript level checkpoint boundary = (project_checkpoint c :: body, reduced)
       /\ estimate_transcript_tokens (project_checkpoint c :: body) <= budget.
Proof.
  cbv zeta. unfold fit_transcript. set (budget := compute_message_budget _ _ _ _). set (floor := content_floor_for_level level).
  assert (Hplain : forall n (r : list chat_message * bool), r = fit_to_budget (drop n transcript) budget floor ->
    exists n history_budget, let '(body, reduced) := fit_to_budget (drop n transcript) history_budget floor in
      r = (body, reduced) \/ exists c, checkpoint = Some c /\ r = (project_checkpoint c :: body, reduced)
        /\ estimate_transcript_tokens (project_checkpoint c :: body) <= budget).
  { intros n r ->. exists n, budget. destruct (fit_to_budget (drop n transcript) budget floor). by left. }
  destruct checkpoint as [c|]; [|by apply (Hplain 0)]. destruct boundary as [n|]; [|by apply (Hplain 0)].
  destruct (boundary_applies transcript c n); [|by apply (Hplain 0)].
  destruct (positive_sub budget _) as [hb|]; [|by apply (Hplain n)].
  destruct (fit_to_budget (drop n transcript) hb floor) as [fitted reduced] eqn:Ef.
  destruct fitted as [|m fitted]; [by apply (Hplain n)|].
  destruct (Nat.ltb_spec budget (estimate_transcript_tokens (m :: fitted) + estimate_message_tokens (project_checkpoint (Number := Number) c))) as [|Hle];
    [by apply (Hplain n)|].
  exists n, hb. rewrite Ef. right. exists c. split_and!; try done.
  change (estimate_transcript_tokens (project_checkpoint c :: m :: fitted))
    with (estimate_message_tokens (project_checkpoint (Number := Number) c) + estimate_transcript_tokens (m :: fitted)). lia.
Qed.

Lemma load_calls_first show_date show_call config snapshot source :
  NoDup (map c_provider_id (host_calls (sn_tool_calls snapshot))) ->
  calls_first (transcript_tags (ld_messages (load_transcript show_date show_call config snapshot source))).
Proof.
  intros Hnd. unfold load_transcript. cbv zeta. set (rows := note_first is_user _ [] _).
  set (calls := List.filter _ (sn_tool_calls snapshot)). set (atts := List.filter _ (sn_attachments snapshot)).
  pose proof (rebuild_amounts show_call (max_tool_result_bytes config) (image_input config) rows calls atts source) as H.
  destruct (rebuild_transcript_with_boundary _ _ _ rows calls atts source) as [[out bd] sources].
  destruct H as (Hc & Ht & _). cbn [ld_messages]. rewrite Ht. apply steps_calls_first. rewrite Hc.
  eapply sublist_NoDup; [exact Hnd|]. unfold calls, host_calls.
  clear. induction (sn_tool_calls snapshot) as [|c l IH]; [done|]. cbn [List.filter].
  destruct (negb (bool_decide (c_turn_id c ∈ _))) eqn:E1; cbn [List.filter]; destruct (negb (is_provider_executed_record c));
    cbn [map]; first [by constructor | done | by apply sublist_cons].
Qed.

(** C21: From the rows of a chat to the request of a step, whatever the
    reduction level, the checkpoint and the blobs: when the calls of the chat
    have distinct ids, every call of the request has its result in it; its
    calls and results are those of the conversation, in order; and a shortened
    request is, after the checkpoint, a conversation whose roles alternate and
    that a user message opens. *)
Theorem a_request_answers_its_calls show_date show_call config blobs specs tools snapshot source level checkpoint prefix :
  let loaded := load_transcript show_date show_call config snapshot source in
  NoDup (map c_provider_id (host_calls (sn_tool_calls snapshot))) ->
  build_request_prefix config blobs specs tools (ld_messages loaded) level checkpoint (ld_boundary loaded) = Ok prefix ->
  (forall id, Call id ∈ transcript_tags (px_messages prefix) -> Result id ∈ transcript_tags (px_messages prefix))
  /\ transcript_tags (px_messages prefix) `sublist_of` transcript_tags (ld_messages loaded)
  /\ (px_reduced prefix = true -> exists head body, px_messages prefix = head ++ body /\ length head <= 1
        /\ alternating body /\ starts_with_user body).
Proof.
  cbv zeta. intros Hnd H. pose proof (load_calls_first show_date show_call config snapshot source Hnd) as Hcf.
  set (loaded := load_transcript _ _ _ _ _) in *. unfold build_request_prefix in H.
  destruct (fit_transcript_shape config specs (ld_messages loaded) level checkpoint (ld_boundary loaded)) as (n & hb & Hs).
  assert (Hsub : transcript_tags (drop n (ld_messages loaded)) `sublist_of` transcript_tags (ld_messages loaded)).
  { rewrite <- (take_drop n (ld_messages loaded)) at 2. rewrite transcript_tags_app. by apply sublist_inserts_l. }
  pose proof (fit_amounts (drop n (ld_messages loaded)) hb (content_floor_for_level level)
    (calls_first_sublist _ _ Hsub Hcf)) as Hfit.
  destruct (fit_to_budget _ hb _) as [body reduced]. destruct Hfit as (Hshape & _ & _ & Htags & Hans).
  assert (Hhead : exists head, fit_transcript config specs (ld_messages loaded) level checkpoint (ld_boundary loaded)
    = (head ++ body, reduced) /\ length head <= 1 /\ transcript_tags head = []).
  { destruct Hs as [->|(c & _ & -> & _)]; [exists []|exists [project_checkpoint c]]; (split; [done|split; [cbn; lia|done]]). }
  destruct Hhead as (head & Hft & Hlen & Hhead). rewrite Hft in H.
  destruct (hydrate_images blobs _) as [[images out]|] eqn:Eh; [|done]. injection H as <-. cbn [px_messages px_reduced].
  assert (Hre : Forall2 redrawn out (head ++ body)).
  { eapply redrawn_trans; [apply evicted_redrawn|apply previews_redrawn]. exact (hydrate_evicts _ _ _ _ Eh). }
  rewrite (redrawn_tags _ _ Hre), transcript_tags_app, Hhead. cbn [app].
  split_and!; [exact Hans | etransitivity; [exact Htags|exact Hsub] |].
  intros ->. destruct (Hshape (or_introl eq_refl)) as (Ha & Hst & _).
  destruct (redrawn_app _ _ _ Hre) as (k1 & k2 & -> & H1 & H2). exists k1, k2. split_and!; [done| | |].
  - by rewrite (Forall2_length _ _ _ H1).
  - by eapply redrawn_alternating.
  - by eapply redrawn_starts.
Qed.

(** ** How far a compaction reaches *)

Lemma sorted_adjacent (l : list nat) i x y : Sorted le l -> l !! i = Some x -> l !! S i = Some y -> x <= y.
Proof.
  revert i. induction l as [|a l IH]; intros i Hs Hx Hy; [done|]. apply Sorted_inv in Hs as [Hs Hh].
  destruct i as [|i]; [|by apply (IH i)]. injection Hx as ->. destruct l as [|b l]; [done|]. injection Hy as ->. by inversion Hh.
Qed.

Section Select.
Context (transcript : list chat_message) (sources : list TranscriptSourceBoundary).
Hypothesis (Hsorted : Sorted le (map provider_boundary sources)).
Hypothesis (Hbound : Forall (fun s => provider_boundary s <= length transcript) sources).

Notation tail_cost k := (estimate_transcript_tokens (drop (provider_span_start sources k) transcript)).

Lemma boundary_lookup i : i < length sources -> map provider_boundary sources !! i = Some (boundary_at sources i).
Proof.
  intros Hi. rewrite list_lookup_fmap. unfold boundary_at. destruct (sources !! i) eqn:E; [done|].
  apply lookup_ge_None in E. lia.
Qed.
Lemma span_start_le i : i < length sources -> provider_span_start sources i <= boundary_at sources i.
Proof.
  intros Hi. destruct i as [|i]; [cbn; lia|]. cbn [provider_span_start].
  apply (sorted_adjacent _ i _ _ Hsorted); apply boundary_lookup; lia.
Qed.
Lemma boundary_le i : i < length sources -> boundary_at sources i <= length transcript.
Proof.
  intros Hi. unfold boundary_at. destruct (sources !! i) as [s|] eqn:E; [|lia].
  exact (Forall_lookup_1 _ _ _ _ Hbound E).
Qed.
Lemma tail_cost_split i : i < length sources ->
  tail_cost i = estimate_transcript_tokens (span transcript (provider_span_start sources i) (boundary_at sources i)) + tail_cost (S i).
Proof.
  intros Hi. unfold span. rewrite <- (take_drop (boundary_at sources i - provider_span_start sources i)
    (drop (provider_span_start sources i) transcript)) at 1. rewrite transcript_app, drop_drop. cbn [provider_span_start].
  pose proof (span_start_le i Hi). f_equal. f_equal. f_equal. lia.
Qed.

Lemma keep_loop_cost n budget keep : n <= keep -> keep <= length sources ->
  provider_span_start sources n = provider_span_start sources keep ->
  let k := keep_loop transcript sources n budget keep in k <= keep /\ tail_cost k <= tail_cost keep + budget.
Proof.
  revert budget keep. induction n as [|i IH]; intros budget keep Hn Hk Heq; cbn [keep_loop]; [cbn; lia|]. cbv zeta.
  pose proof (span_start_le i ltac:(lia)) as Hsp. pose proof (boundary_le i ltac:(lia)) as Hbd.
  rewrite Nat.min_l by done. destruct (Nat.leb_spec (boundary_at sources i) (provider_span_start sources i)) as [Hle|Hgt].
  { apply IH; [lia|done|]. rewrite <- Heq. cbn [provider_span_start]. lia. }
  destruct (Nat.ltb_spec budget (estimate_transcript_tokens (span transcript (provider_span_start sources i) (boundary_at sources i)))) as [|Hc]; [lia|].
  destruct (IH (budget - estimate_transcript_tokens (span transcript (provider_span_start sources i) (boundary_at sources i))) i
    ltac:(lia) ltac:(lia) eq_refl) as [IH1 IH2].
  rewrite (tail_cost_split i), Heq in IH2 by lia. lia.
Qed.

Lemma select_spec target protect current sel :
  select_compaction_boundary transcript sources target protect current = Some sel ->
  exists k s, sources !! k = Some s /\ sel = MkSelection (s_message_id s) (provider_boundary s)
    /\ k + protect < length sources /\ 0 < sel_boundary sel <= length transcript
    /\ estimate_transcript_tokens (drop (sel_boundary sel) transcript) <= target
    /\ (forall c, current = Some c -> c < sel_boundary sel).
Proof.
  unfold select_compaction_boundary. cbv zeta. destruct (_ || _); [done|].
  destruct (Nat.eqb_spec (Nat.min protect (length sources)) (length sources)) as [|Hp]; [done|].
  set (start := length sources - Nat.min protect (length sources)).
  destruct (Nat.ltb_spec target (tail_cost start)) as [|Ht]; [done|].
  destruct (keep_loop_cost start (target - tail_cost start) start ltac:(lia) ltac:(lia) eq_refl) as [Hk1 Hk2].
  destruct (keep_loop transcript sources start _ start) as [|k]; [done|].
  destruct (sources !! k) as [s|] eqn:Es; [|done].
  destruct ((provider_boundary s =? 0) || (length transcript <? provider_boundary s)) eqn:Eb; [done|].
  destruct (match current with Some c => provider_boundary s <=? c | None => false end) eqn:Ec; [done|]. intros [= <-].
  apply orb_false_iff in Eb as [Eb1 Eb2]. apply Nat.eqb_neq in Eb1. apply Nat.ltb_ge in Eb2.
  exists k, s. cbn [sel_boundary]. split_and!; try done; [lia|lia| |].
  - cbn [provider_span_start] in Hk2. unfold boundary_at in Hk2 at 1. rewrite Es in Hk2. lia.
  - intros c ->. by apply Nat.leb_gt in Ec.
Qed.
End Select.

(** C33: A compaction cuts a rebuilt conversation between two rows: the row it
    ends at lies before the protected newest ones and beyond the current
    boundary, what stays raw costs no more than the target, and no step is cut,
    so no call is parted from its result. *)
Theorem a_compaction_keeps_the_recent_rows show_call max_result_bytes image_input rows calls attachments source
    target protect current sel :
  let '(out, _, sources) :=
    rebuild_transcript_with_boundary show_call max_result_bytes image_input rows calls attachments source in
  select_compaction_boundary out sources target protect current = Some sel ->
  (exists k s, sources !! k = Some s /\ sel = MkSelection (s_message_id s) (provider_boundary s)
     /\ k + protect < length (spoken_rows rows))
  /\ 0 < sel_boundary sel <= length out
  /\ estimate_transcript_tokens (drop (sel_boundary sel) out) <= target
  /\ (forall c, current = Some c -> c < sel_boundary sel)
  /\ between_steps (batch_tool_calls calls) out (sel_boundary sel).
Proof.
  pose proof (rebuild_amounts show_call max_result_bytes image_input rows calls attachments source) as H.
  destruct (rebuild_transcript_with_boundary _ _ _ rows calls attachments source) as [[out bd] sources].
  destruct H as (_ & _ & _ & Hids & _ & Hsorted & Hcuts). intros Hsel.
  assert (Hbound : Forall (fun s => provider_boundary s <= length out) sources).
  { eapply Forall_impl; [exact Hcuts|]. by intros s [Hn _]. }
  destruct (select_spec out sources Hsorted Hbound target protect current sel Hsel) as (k & s & Hs & -> & Hk & Hb & Hc & Hcur).
  apply (f_equal length) in Hids. rewrite !length_map in Hids. cbn [sel_boundary] in *.
  split_and!; try done; try lia; [exists k, s; split_and!; [done|done|lia]|].
  exact (Forall_lookup_1 _ _ _ _ Hcuts Hs).
Qed.

(** ** The call *)

Section Attempts.
Context `{PJ : PayloadJson} (now : Z).

Lemma hard_info_error e : is_compaction_provider_hard_failure_info e = true ->
  is_compaction_provider_hard_failure (into_agent_error e) = true.
Proof.
  unfold is_compaction_provider_hard_failure_info, hard_kind. intros [H|H]%orb_true_iff;
    apply String.eqb_eq in H; destruct e as [k m]; cbn in H; subst k; done.
Qed.
Lemma collect_hard stream content usage completed e : collect stream content usage completed = HardFailure e ->
  is_compaction_provider_hard_failure e = true.
Proof.
  revert content usage completed. induction stream as [|[event|] stream IH]; intros c u d; cbn [collect]; [done| |done].
  destruct event as [text| | | | | |reported|[]| |error]; try done; try apply IH.
  - destruct (_ <? _); [done|apply IH].
  - destruct (usage_checked_add u reported); [apply IH|done].
  - destruct (is_compaction_provider_hard_failure_info error) eqn:E; [|done]. intros [= <-]. by apply hard_info_error.
Qed.
Lemma saved_projectable chat_id saved c : saved_checkpoint chat_id saved = Some c -> checkpoint_is_projectable c chat_id = true.
Proof.
  unfold saved_checkpoint. destruct saved as [[]|]; try done; destruct (checkpoint_is_projectable _ _) eqn:E; try done; by intros [= <-].
Qed.

(** An attempt to compact either changes nothing, or asks the provider
    exactly once: the request of the step with one more message at its end,
    the fence moved past every boundary tried before, and a start and a finish
    reported, the finish telling whether a checkpoint came of it.  A checkpoint
    it returns may stand in for this chat's history, and only a rate limit or
    an overload is an error. *)
Lemma a_compaction_asks_once config provider save (a : CreateContextCheckpoint (Number := Number)) :
  let r := maybe_create_context_checkpoint now config provider save a in
  r = MkAttempt (Ok None) (cc_attempted_boundary a) [] []
  \/ exists candidate instruction,
       requests r = [MkRequest (px_messages (cc_prefix a) ++ [text_message RUser instruction])
                       (px_tools (cc_prefix a)) (px_images (cc_prefix a)) (rq_max_tokens (checkpoint_request config a))]
       /\ attempted_boundary r = Some candidate
       /\ (forall n, cc_attempted_boundary a = Some n -> n < candidate)
       /\ events r = [CompactionStarted; CompactionFinished (match outcome r with Ok (Some _) => true | _ => false end)]
       /\ (forall c, outcome r = Ok (Some c) -> checkpoint_is_projectable c (cc_chat_id a) = true)
       /\ (forall e, outcome r = Err e -> is_compaction_provider_hard_failure e = true).
Proof.
  cbv zeta. unfold maybe_create_context_checkpoint. destruct (px_messages (cc_prefix a)) as [|m0 ms] eqn:Em; [by left|].
  cbv zeta. destruct (_ && _); [by left|]. destruct (select_compaction_boundary _ _ _ _ _) as [candidate|]; [|by left].
  destruct (match cc_attempted_boundary a with Some n => sel_boundary candidate <=? n | None => false end) eqn:Ef; [by left|].
  right. exists (sel_boundary candidate), (checkpoint_instruction (cc_focus a)).
  assert (Hfence : forall n, cc_attempted_boundary a = Some n -> n < sel_boundary candidate).
  { intros n Hn. rewrite Hn in Ef. by apply Nat.leb_gt in Ef. }
  rewrite <- Em. fold (checkpoint_request config a).
  destruct (provider (checkpoint_request config a)) as [stream|e].
  2: { destruct (is_compaction_provider_hard_failure e) eqn:He; split_and!; try done. by intros e' [= <-]. }
  destruct (collect stream "" _ false) as [content usage completed| |e] eqn:Ec.
  - destruct (negb completed); [by split_and!|]. destruct (propose now a candidate content usage) as [proposed|]; [|by split_and!].
    destruct (saved_checkpoint (cc_chat_id a) (save proposed)) as [c|] eqn:Es; split_and!; try done.
    intros c' [= <-]. by eapply saved_projectable.
  - by split_and!.
  - split_and!; try done. intros e' [= <-]. by eapply collect_hard.
Qed.

(** The asks a compaction up to [candidate] would carry forward *)
Definition carried_asks (a : CreateContextCheckpoint (Number := Number)) (candidate : CompactionSelection) : list string :=
  merge_original_requests
    (match cc_current a with Some c => original_requests_from_content (cp_content c) | None => [] end)
    (user_asks_in_prefix (cc_sources a) (sel_boundary candidate) (cc_user_texts a)).

(** C36: The asks are carried whole, sixteen of up to 1 KiB, but a checkpoint
    holds 12 KiB.  When the asks before the boundary that is due are longer
    than a checkpoint, no answer of the provider can make one: printing a
    payload takes at least the bytes of its asks. *)
Theorem long_asks_stop_compaction config provider save (a : CreateContextCheckpoint (Number := Number)) candidate :
  (forall p s, payload_to_string p = Ok s -> sum (map len (original_requests p)) <= len s) ->
  select_compaction_boundary (cc_transcript a) (cc_sources a)
    (Z.to_nat (target (resolve_token_bounds (compaction config) (Z.of_nat (context_window config)))))
    (protect_recent_messages (compaction config)) (current_boundary a) = Some candidate ->
  MAX_CONTEXT_CHECKPOINT_BYTES < sum (map len (carried_asks a candidate)) ->
  forall c, outcome (maybe_create_context_checkpoint now config provider save a) <> Ok (Some c).
Proof.
  intros Hprint Hsel Hlong c. unfold maybe_create_context_checkpoint. destruct (px_messages (cc_prefix a)); [done|].
  cbv zeta. destruct (_ && _); [done|]. rewrite Hsel. destruct (match cc_attempted_boundary a with Some n => _ | None => false end); [done|].
  destruct (provider _) as [stream|e]; [|by destruct (is_compaction_provider_hard_failure e)].
  destruct (collect stream "" _ false) as [content usage completed| |e]; [|done|done].
  destruct (negb completed); [done|].
  assert (Hnone : propose now a candidate content usage = None); [|by rewrite Hnone].
  unfold propose. cbv zeta. fold (carried_asks a candidate). destruct (parse_and_canonicalize content) as [parsed|]; [|done].
  assert (Herr : exists e, with_original_requests parsed (carried_asks a candidate) = Err e); [|by destruct Herr as [e ->]].
  unfold with_original_requests. destruct (read_payload parsed) as [p|e]; [|by exists e]. unfold canonicalize.
  destruct (payload_validate _) as [|e]; [|by exists e].
  destruct (payload_to_string (set_originals (carried_asks a candidate) p)) as [s|e] eqn:Ep; [|by eexists].
  apply Hprint in Ep. cbn [set_originals original_requests] in Ep.
  destruct (Nat.ltb_spec MAX_CONTEXT_CHECKPOINT_BYTES (len s)); [by eexists|lia].
Qed.
End Attempts.
End Requests.

(** ** When a compaction is due *)

Lemma floor_usize_nonneg x : (0 <= floor_usize x)%Z.
Proof. destruct x as [|[]| |[] m e]; cbn; try lia. apply Z.min_glb; [lia|]. apply Z.shiftl_nonneg. lia. Qed.

(** Whatever fractions a host configures, NaN and infinities included, a
    compaction is due at some size the window holds, no smaller than the floor
    the policy sets, and leaves strictly less than that size. *)
Lemma a_compaction_leaves_room p window :
  let b := resolve_token_bounds p window in
  (1 <= threshold b <= Z.max window 1)%Z /\ (0 <= target b < threshold b)%Z
  /\ (Z.min (Z.max window 1) (min_threshold_tokens p) <= threshold b)%Z.
Proof.
  unfold resolve_token_bounds. cbv zeta.
  pose proof (floor_usize_nonneg (f64_mul (f64_of (Z.max window 1)) (clamp_unit (threshold_fraction p)))) as H1.
  pose proof (floor_usize_nonneg (f64_mul (f64_of (Z.max window 1)) (clamp_unit (target_fraction p)))) as H2.
  revert H1 H2. generalize (floor_usize (f64_mul (f64_of (Z.max window 1)) (clamp_unit (threshold_fraction p)))).
  generalize (floor_usize (f64_mul (f64_of (Z.max window 1)) (clamp_unit (target_fraction p)))). intros st sth H1 H2.
  set (t := Z.min (Z.max window 1) (Z.max (min_threshold_tokens p) sth)).
  pose proof (floor_usize_nonneg (f64_mul (f64_of t) (f64_div (target_fraction p) (threshold_fraction p)))) as H3.
  cbn [threshold target]. destruct (_ && _), (Z.eqb_spec t 0); unfold t in *; lia.
Qed.

(** ** The asks that are carried forward *)

Section Trim.
Implicit Types (l : list string) (s : string).

Definition trimmed l : list string := rev (trim_start_chars (rev (trim_start_chars l))).
Definition led l : Prop := match l with c :: _ => str_mem c white_space = false | [] => True end.

Lemma trim_start_led l : led (trim_start_chars l).
Proof. induction l as [|c l IH]; [done|]. cbn [trim_start_chars]. destruct (str_mem c white_space) eqn:E; [done|exact E]. Qed.
Lemma trim_start_suffix l : exists d, l = d ++ trim_start_chars l.
Proof.
  induction l as [|c l [d IH]]; [by exists []|]. cbn [trim_start_chars]. destruct (str_mem c white_space); [|by exists []].
  exists (c :: d). cbn. by rewrite <- IH.
Qed.
Lemma trim_start_id l : led l -> trim_start_chars l = l.
Proof. destruct l as [|c l]; [done|]. cbn [led trim_start_chars]. by intros ->. Qed.

Lemma trimmed_prefix l : exists e, trim_start_chars l = trimmed l ++ e.
Proof.
  destruct (trim_start_suffix (rev (trim_start_chars l))) as [d Hd]. exists (rev d).
  apply (f_equal (@rev string)) in Hd. by rewrite rev_involutive, rev_app_distr in Hd.
Qed.
Lemma trimmed_led l : led (trimmed l).
Proof.
  destruct (trimmed_prefix l) as [e He]. pose proof (trim_start_led l) as H. rewrite He in H. by destruct (trimmed l).
Qed.
Lemma trimmed_idem l : trimmed (trimmed l) = trimmed l.
Proof.
  unfold trimmed at 1. rewrite (trim_start_id (trimmed l)) by apply trimmed_led.
  unfold trimmed. rewrite rev_involutive. by rewrite (trim_start_id (trim_start_chars _)) by apply trim_start_led.
Qed.
Lemma trimmed_middle l : exists d e, l = d ++ trimmed l ++ e.
Proof.
  destruct (trim_start_suffix l) as [d Hd], (trimmed_prefix l) as [e He]. exists d, e. by rewrite <- He.
Qed.

Lemma good_middle d l e : good (d ++ l ++ e) -> good l.
Proof.
  intros H. assert (Hl : good (l ++ e)).
  { destruct d as [|c d]; [done|]. destruct H as [_ H]. apply Forall_app in H as [_ H]. by apply good_tight. }
  rewrite <- (take_app_length l e). by apply good_take.
Qed.
Lemma chars_trim s : chars (trim s) = trimmed (chars s).
Proof.
  unfold trim. fold (trimmed (chars s)). apply chars_join. destruct (trimmed_middle (chars s)) as (d & e & H).
  apply (good_middle d _ e). rewrite <- H. apply chars_good.
Qed.
Lemma trim_idem s : trim (trim s) = trim s.
Proof. unfold trim at 1. rewrite chars_trim. fold (trimmed (trimmed (chars s))). by rewrite trimmed_idem. Qed.
Lemma trim_shorter s : len (trim s) <= len s.
Proof.
  destruct (trimmed_middle (chars s)) as (d & e & H). apply (f_equal (fun l => len (join "" l))) in H.
  rewrite join_chars, !join_empty_app, !len_app in H. unfold trim. fold (trimmed (chars s)). lia.
Qed.
Lemma trim_nonblank s : trim s <> "" -> trim_is_empty (trim s) = false.
Proof.
  intros Hne. unfold trim_is_empty. rewrite chars_trim. pose proof (trimmed_led (chars s)) as Hl.
  destruct (trimmed (chars s)) as [|c l] eqn:E; [|cbn in *; by rewrite Hl].
  exfalso. apply Hne. unfold trim. fold (trimmed (chars s)). by rewrite E.
Qed.

Lemma truncate_utf8_len s n : len (truncate_utf8 s n).1 <= n.
Proof.
  unfold truncate_utf8. destruct (Nat.leb_spec (len s) n); [done|]. cbn [fst].
  pose proof (str_take_len (char_floor s n) s). pose proof (char_floor_le s n). lia.
Qed.

Definition carried_ask s : Prop := s <> "" /\ len s <= MAX_CONTEXT_CHECKPOINT_ITEM_BYTES /\ trim s = s.
Lemma truncate_item_carried s : truncate_item s <> "" -> carried_ask (truncate_item s).
Proof.
  intros Hne. split; [done|]. unfold truncate_item in *. cbv zeta in *.
  destruct (Nat.leb_spec (len (trim s)) MAX_CONTEXT_CHECKPOINT_ITEM_BYTES); [split; [done|apply trim_idem]|].
  split; [|apply trim_idem]. etransitivity; [apply trim_shorter|apply truncate_utf8_len].
Qed.
Lemma truncate_item_id s : carried_ask s -> truncate_item s = s.
Proof.
  intros (_ & Hl & Ht). unfold truncate_item. cbv zeta. rewrite Ht.
  by destruct (Nat.leb_spec (len s) MAX_CONTEXT_CHECKPOINT_ITEM_BYTES); [|lia].
Qed.

Lemma merge_asks_spec out items : Forall carried_ask out -> NoDup out -> length out <= MAX_CONTEXT_CHECKPOINT_ITEMS ->
  let asks := merge_asks out items in
  Forall carried_ask asks /\ NoDup asks /\ length asks <= MAX_CONTEXT_CHECKPOINT_ITEMS /\ out `prefix_of` asks.
Proof.
  revert out. induction items as [|item items IH]; intros out Hc Hn Hl; cbn [merge_asks]; [by split_and!|].
  cbv zeta. destruct (Nat.leb_spec MAX_CONTEXT_CHECKPOINT_ITEMS (length out)); [by split_and!|].
  destruct (is_empty (truncate_item item) || str_mem (truncate_item item) out) eqn:E; [by apply IH|].
  apply orb_false_iff in E as [E1 E2]. apply str_mem_false in E2.
  assert (truncate_item item <> "") as Hne by (intros H0; by rewrite H0 in E1).
  destruct (IH (out ++ [truncate_item item])) as (H1 & H2 & H3 & H4).
  - apply Forall_app. split; [done|]. constructor; [by apply truncate_item_carried|done].
  - apply NoDup_app. split_and!; [done| |apply NoDup_singleton]. intros x Hx ->%list_elem_of_singleton. done.
  - rewrite length_app. cbn. lia.
  - split_and!; try done. etransitivity; [by apply prefix_app_r|done].
Qed.
Lemma merge_asks_id out items : Forall carried_ask items -> NoDup (out ++ items) ->
  length (out ++ items) <= MAX_CONTEXT_CHECKPOINT_ITEMS -> merge_asks out items = out ++ items.
Proof.
  revert out. induction items as [|x items IH]; intros out Hc Hn Hl; cbn [merge_asks]; [by rewrite app_nil_r|].
  apply Forall_cons in Hc as [Hx Hc]. rewrite length_app in Hl. cbn [length] in Hl.
  destruct (Nat.leb_spec MAX_CONTEXT_CHECKPOINT_ITEMS (length out)); [lia|]. cbv zeta. rewrite truncate_item_id by done.
  assert (is_empty x = false) as -> by (destruct Hx as [Hx _]; by destruct x).
  assert (str_mem x out = false) as ->.
  { apply str_mem_false. intros Hin. apply NoDup_app in Hn as (_ & Hd & _). apply (Hd x Hin). left. }
  cbn [orb]. rewrite IH; [by rewrite <- app_assoc|done|by rewrite <- app_assoc|]. rewrite !length_app. cbn [length]. lia.
Qed.
End Trim.

(** The founding asks of a conversation survive every compaction: merging
    keeps at most sixteen, distinct, each without surrounding space, not blank
    and at most 1 KiB long, cut between characters; and what one merge kept
    leads the next one unchanged, so a later summary never drops or reorders an
    earlier ask. *)
Lemma asks_are_carried_forward prior new_asks later :
  let asks := merge_original_requests prior new_asks in
  length asks <= MAX_CONTEXT_CHECKPOINT_ITEMS /\ NoDup asks
  /\ Forall (fun x => trim_is_empty x = false /\ len x <= MAX_CONTEXT_CHECKPOINT_ITEM_BYTES /\ trim x = x) asks
  /\ asks `prefix_of` merge_original_requests asks later.
Proof.
  cbv zeta. unfold merge_original_requests at 1 2 3 4.
  destruct (merge_asks_spec [] prior) as (H1 & H2 & H3 & _); [constructor|constructor|cbn; lia|].
  destruct (merge_asks_spec (merge_asks [] prior) new_asks H1 H2 H3) as (Hc & Hn & Hl & _).
  change (merge_asks (merge_asks [] prior) new_asks) with (merge_original_requests prior new_asks) in *.
  set (asks := merge_original_requests prior new_asks) in *. split_and!; try done.
  - eapply Forall_impl; [exact Hc|]. intros x (Hne & Hlen & Ht). split_and!; try done.
    rewrite <- Ht. apply trim_nonblank. by rewrite Ht.
  - unfold merge_original_requests. rewrite (merge_asks_id [] asks) by done. cbn [app]. by apply merge_asks_spec.
Qed.

(** ** The stored checkpoint *)

Definition advances show_id rows t c (answer : result AgentError SaveContextCheckpointOutcome) t' : Prop :=
  match answer with
  | Ok (Saved s) =>
      s = MkCheckpoint (cp_chat_id c) (cp_source_message_id c) (cp_format_version c) (cp_content c) (cp_usage c)
            (canonical_db_timestamp (cp_created_at c)) (cp_through_turn_id c)
      /\ get_context_checkpoint t' (cp_chat_id c) = Ok (Some s)
      /\ (exists seq, message_seq rows !! cp_source_message_id c = Some seq /\ t' = <[cp_chat_id c := stored_of c seq]> t
            /\ forall old, t !! cp_chat_id c = Some old -> (sc_source_message_seq old < seq)%Z)
      /\ (forall through, cp_through_turn_id c = Some through ->
            in_conversation (placements_new (turn_replacements rows)) through = true)
      /\ save_context_checkpoint show_id rows t' c = (Ok (Existing s), t')
  | _ => t' = t
  end.

(** C23: A save never moves a chat's checkpoint back.  A save that is answered
    Saved replaced it by exactly what was proposed, under a later row of the
    chat and with its view still in the conversation; reading it back gives the
    checkpoint that was answered, and saving the same one again changes nothing
    and recovers it.  Every other answer leaves the table as it was.  (A rerun, a
    branch and the deletion of a chat delete the row; that is no save.) *)
Theorem a_saved_checkpoint_only_advances show_id rows t c :
  let '(answer, t') := save_context_checkpoint show_id rows t c in advances show_id rows t c answer t'.
Proof.
  unfold save_context_checkpoint at 1. destruct (checkpoint_validate c) as [|e] eqn:Ev; [|done].
  destruct (chat_exists rows) eqn:Ech; cbn [negb]; [|done].
  destruct (message_seq rows !! cp_source_message_id c) as [seq|] eqn:Es; [|done].
  set (superseded := match cp_through_turn_id c with Some through => _ | None => false end).
  destruct superseded eqn:Esup; [done|].
  assert (Hstore : (forall old, t !! cp_chat_id c = Some old -> (sc_source_message_seq old < seq)%Z) ->
    let '(answer, t') := store_checkpoint show_id t c seq in advances show_id rows t c answer t').
  { intros Hold. unfold store_checkpoint. cbv zeta. set (t' := <[cp_chat_id c := stored_of c seq]> t).
    destruct (get_context_checkpoint t' (cp_chat_id c)) as [[s|]|e] eqn:Eg; [|done|done].
    assert (Hrow : t' !! cp_chat_id c = Some (stored_of c seq)) by apply lookup_insert_eq.
    assert (Hm : context_checkpoint_from_model (cp_chat_id c) (stored_of c seq) = Ok s).
    { unfold get_context_checkpoint in Eg. rewrite Hrow in Eg.
      destruct (context_checkpoint_from_model _ _); [by injection Eg as ->|done]. }
    unfold advances. split_and!; [|done|by exists seq| |].
    - clear -Hm. unfold context_checkpoint_from_model, stored_of, checkpoint_tokens_from_db in Hm. cbn in Hm.
      destruct (cp_usage c) as [u1 u2 u3 u4]. cbn in *.
      repeat match type of Hm with context [if ?b then _ else _] => destruct b; try done end.
      destruct (checkpoint_validate _); [by injection Hm as <-|done].
    - intros through Ht. unfold superseded in Esup. rewrite Ht in Esup. by apply negb_false_iff in Esup.
    - unfold save_context_checkpoint. rewrite Ev, Ech, Es. cbn [negb]. fold superseded. rewrite Esup, Hrow, Hm.
      cbn [sc_source_message_seq stored_of]. rewrite Z.ltb_irrefl, Z.eqb_refl.
      assert (same_stored (stored_of c seq) c = true) as ->; [|done].
      unfold same_stored. cbn. by rewrite !Z.eqb_refl, String.eqb_refl. }
  destruct (t !! cp_chat_id c) as [existing|] eqn:Ex.
  2: { apply Hstore. by intros old. }
  destruct (context_checkpoint_from_model (cp_chat_id c) existing) as [cur|e]; [|done].
  destruct (Z.ltb_spec seq (sc_source_message_seq existing)); [done|].
  destruct (Z.eqb_spec (sc_source_message_seq existing) seq); [by destruct (same_stored existing c)|].
  apply Hstore. intros old [= <-]. lia.
Qed.
