(* ===== verification/ContextExamples.v ===== *)
(** * Transcripts that are fitted, requests and compactions

    Concrete transcripts at which the theorems about fitting apply, and the
    corners the estimates leave open.  Values print as one character here. *)
From S2P Require Import Prelude RustStr Json TurnTables TurnResolve ContextFit ContextKeeps.
From S2P Require Import ContextKeeps ContextTheorems TurnPlacements ErrorKinds Transcript TranscriptFacts Checkpoint RequestPrefix RequestTheorems.

Open Scope nat_scope.

Module ContextDemo.
#[local] Instance demo_json : SerdeJson Z := { from_str_string := fun _ => None; from_str_value := fun _ => None }.
#[local] Instance demo_text : SerdeJsonText Z := {
  number_as_u64 := fun n => Some n;
  json_to_string := fun v => match v with JString s => s | _ => "0" end }.

Notation chat_message := (ChatMessage Z).

Definition letters (n : nat) : string := String.string_of_list_ascii (repeat "x"%char n).
Definition preview : ImageRef := MkImage 1 "image/png" 512 512 9.
Definition says (r : Role) (s : string) : chat_message := MkMessage r [Text s] no_reasoning.

Definition tool_turn : list chat_message :=
  [says RUser "please look"; MkMessage RAssistant [ToolUse "a" "read" (JNumber 1%Z)] no_reasoning;
   MkMessage RUser [ToolResult "a" (letters 90) false] no_reasoning; says RAssistant "done"; says RUser "and now?"].

Lemma tool_turn_calls_first : calls_first (transcript_tags tool_turn).
Proof.
  change (transcript_tags tool_turn) with [Call "a"; Result "a"]. intros [|t [|t' before]] after id H Hr Hc.
  - by apply not_elem_of_nil in Hr.
  - injection H as <- _. apply list_elem_of_singleton in Hr. done.
  - injection H as _ _ H. symmetry in H. apply app_eq_nil in H as [_ ->]. by apply not_elem_of_nil in Hc.
Qed.

Lemma fitted_requests_are_well_formed_witness :
  calls_first (transcript_tags tool_turn)
  /\ (fit_to_budget tool_turn 130 10).2 = true
  /\ alternating (fit_to_budget tool_turn 130 10).1 /\ (fit_to_budget tool_turn 130 10).1 <> [].
Proof.
  pose proof (fitted_requests_are_well_formed tool_turn 130 10 tool_turn_calls_first) as H.
  assert ((fit_to_budget tool_turn 130 10).2 = true) as Hr by (vm_compute; reflexivity).
  split; [exact tool_turn_calls_first|]. split; [exact Hr|].
  destruct (fit_to_budget tool_turn 130 10) as [fitted reduced]. cbn in Hr. subst reduced.
  destruct H as (H & _). destruct (H (or_introl eq_refl)) as (Ha & _ & Hn).
  split; [exact Ha|]. apply Hn. reflexivity.
Defined.

Definition long_chat : list chat_message :=
  [says RUser (letters 300); says RAssistant (letters 600); says RUser (letters 300)].

Lemma text_transcripts_fit_their_budget_witness :
  text_only long_chat /\ 200 < estimate_transcript_tokens long_chat
  /\ estimate_transcript_tokens (fit_to_budget long_chat 200 20).1 <= 200.
Proof.
  assert (text_only long_chat) as Ht by (repeat constructor).
  split; [exact Ht|]. split; [apply Nat.ltb_lt; vm_compute; reflexivity|].
  apply (proj2 (text_transcripts_fit_their_budget long_chat 200 20 Ht) (says RUser (letters 300)));
    [reflexivity | reflexivity | apply Nat.leb_le; vm_compute; reflexivity].
Defined.

Definition thoughtful : chat_message :=
  MkMessage RAssistant [Text (letters 900)] (MkReasoning (Some (MkOrigin None "m")) [JString (letters 30)]).

Lemma opaque_state_stays_with_its_response_witness :
  exists m, (fit_to_budget [says RUser "go"; thoughtful] 200 100).1 !! 1 = Some m /\ native m = true
    /\ m <> thoughtful
    /\ exists m0, m0 ∈ [says RUser "go"; thoughtful] /\ reasoning m = reasoning m0
       /\ (m = m0 \/ exists t, m = truncate_message m0 t).
Proof.
  destruct ((fit_to_budget [says RUser "go"; thoughtful] 200 100).1 !! 1) as [m|] eqn:E;
    [|vm_compute in E; discriminate]. exists m. split; [reflexivity|].
  assert (role m = RAssistant /\ native m = true /\ m <> thoughtful) as (Hr & Hn & Hd)
    by (vm_compute in E; injection E as <-; split_and!; [reflexivity | reflexivity | discriminate]).
  split; [exact Hn|]. split; [exact Hd|].
  apply (opaque_state_stays_with_its_response _ 200 100); [by eapply list_elem_of_lookup_2 | exact Hr | exact Hn].
Defined.

Definition shots (n : nat) : list chat_message := repeat (MkMessage RUser [Image preview] no_reasoning) n.
Lemma newest_images_keep_their_pixels_witness :
  image_count (shots 9) = 9 /\ image_cutoff 8 10 = image_cutoff 8 9
  /\ length (images (blocks_of (evict_images_beyond (shots 9) 8))) = 5
  /\ evict_images_beyond (shots 9 ++ shots 1) 8 = evict_images_beyond (shots 9) 8 ++ shots 1.
Proof.
  split_and!; [reflexivity | reflexivity | reflexivity |].
  apply (newest_images_keep_their_pixels (shots 9) 8 (shots 1)). reflexivity.
Defined.

Definition results (n : nat) : list chat_message := repeat (MkMessage RUser [ToolResult "a" "x" false; Image preview] no_reasoning) n.
Lemma recent_previews_keep_their_pixels_witness :
  evict_old_tool_result_images (results 20) 10 <> results 20
  /\ evict_old_tool_result_images (results 20 ++ results 9) 10 = evict_old_tool_result_images (results 20) 10 ++ results 9.
Proof.
  split; [vm_compute; discriminate|].
  apply (recent_previews_keep_their_pixels (results 20) 10 (results 9)). reflexivity.
Defined.

Lemma a_preview_can_outlive_its_call_witness :
  let '(fitted, reduced) := fit_to_budget
    [says RUser (letters 300);
     MkMessage RAssistant [ToolUse "a" "shot" (JNumber 1%Z)] no_reasoning;
     MkMessage RUser [ToolResult "a" "taken" false; Image preview] no_reasoning] 1700 100 in
  reduced = true /\ has_orphaned_tool_blocks fitted = true.
Proof.
  pose proof (a_preview_can_outlive_its_call (letters 300) "a" "shot" (JNumber 1%Z) "taken" false preview 1700 100
    ltac:(apply Nat.leb_le; vm_compute; reflexivity) ltac:(apply Nat.ltb_lt; vm_compute; reflexivity)) as H.
  destruct (fit_to_budget _ _ _) as [fitted reduced]. destruct H as (Hr & _ & Ho & _). exact (conj Hr Ho).
Defined.

(** Pixels take a share of what remains for content although they cannot be
    cut: a message above its floor of 527 is shortened to 2217 tokens and costs
    more. *)
Definition captioned : chat_message := MkMessage RUser [Text (letters 3000); Image preview] no_reasoning.
Example pixels_exceed_the_allocation :
  message_floor captioned 500 <=? 2217 = true
  /\ 2217 <? estimate_message_tokens (truncate_message captioned 2217) = true.
Proof. split; vm_compute; reflexivity. Qed.

(** ** A request *)

#[local] Instance demo_payload : PayloadJson := {
  payload_from_str := fun _ => Ok (MkPayload 2 [] [] [] [] [] [] ["settled"]);
  payload_to_string := fun p => Ok (join "" (original_requests p)) }.

Definition row (id : Z) (r : Role) (text : string) : Message Z := MkRow id 1 7 r text None no_reasoning (id * 10).
Definition looked : ToolCallRecord Z :=
  MkCall 5 1 7 "a" "look" (JNumber 1%Z) ServerCall CallCompleted (Some "seen") (Some (PreviewImages [preview])) None 15 (Some 16%Z).
Definition snapshot : ChatSnapshot :=
  MkSnapshot [row 1 RUser "please look"; row 2 RAssistant "done"; row 3 RUser "and now?"] [] [] [looked] [].
Definition demo_config : AgentConfig := MkConfig 100000 None 100 true CompactionPolicy_default None.
Definition blob (id : Z) : result AgentError (option bytes) := Ok (Some (repeat "x"%char 9)).
Definition show (n : Z) : string := "n".
Definition shown : list chat_message := ld_messages (load_transcript show show demo_config snapshot None).

Example call_ids : map c_provider_id (host_calls [looked]) = ["a"].
Proof. vm_compute. reflexivity. Qed.
Example shown_roles : map role shown = [RUser; RAssistant; RUser; RAssistant; RUser]
  /\ transcript_tags shown = [Call "a"; Result "a"].
Proof. vm_compute. split; reflexivity. Qed.

Lemma a_request_answers_its_calls_witness :
  exists prefix, build_request_prefix demo_config (Some blob) [] [] shown 0 None None = Ok prefix
    /\ Call "a" ∈ transcript_tags (px_messages prefix) /\ Result "a" ∈ transcript_tags (px_messages prefix).
Proof.
  destruct (build_request_prefix demo_config (Some blob) [] [] shown 0 None None) as [prefix|e] eqn:E;
    [|vm_compute in E; discriminate]. exists prefix. split; [reflexivity|].
  assert (Call "a" ∈ transcript_tags (px_messages prefix)) as Hc
    by (vm_compute in E; injection E as <-; vm_compute; left).
  split; [exact Hc|].
  refine (proj1 (a_request_answers_its_calls show show demo_config (Some blob) [] [] snapshot None 0 None prefix _ E) "a" Hc).
  change (NoDup (map c_provider_id (host_calls [looked]))). rewrite call_ids. apply NoDup_singleton.
Defined.

Lemma hydrated_images_have_their_bytes_witness :
  exists attached out, hydrate_images (Some blob) (shots 3) = Ok (attached, out)
    /\ Image preview ∈ blocks_of out /\ is_Some (attached !! 1%Z).
Proof.
  destruct (hydrate_images (Some blob) (shots 3)) as [[attached out]|e] eqn:E; [|vm_compute in E; discriminate].
  exists attached, out. split; [reflexivity|].
  assert (Image preview ∈ blocks_of out) as Hin by (vm_compute in E; injection E as _ <-; vm_compute; left).
  split; [exact Hin|]. exact (proj1 (hydrated_images_have_their_bytes (Some blob) (shots 3) attached out E) preview Hin).
Defined.

(** ** Compactions *)

Definition chat_rows : list (Message Z) := map (fun i => row (Z.of_nat i) RUser (letters 60)) (seq 1 6).
Lemma a_compaction_keeps_the_recent_rows_witness :
  let '(out, _, sources) := rebuild_transcript_with_boundary show 100 true chat_rows [] [] None in
  exists sel, select_compaction_boundary out sources 100 2 (Some 1) = Some sel
    /\ sel_boundary sel = 3 /\ estimate_transcript_tokens (drop (sel_boundary sel) out) <= 100.
Proof.
  pose proof (a_compaction_keeps_the_recent_rows show 100 true chat_rows [] [] None 100 2 (Some 1)) as H.
  assert (rebuild_transcript_with_boundary show 100 true chat_rows [] [] None
    = (map (fun m => says RUser (m_content m)) chat_rows, None,
       map (fun i => MkSource (Z.of_nat i) RUser i) (seq 1 6))) as E by (vm_compute; reflexivity).
  rewrite E in H |- *.
  destruct (select_compaction_boundary _ _ 100 2 (Some 1)) as [sel|] eqn:Es; [|vm_compute in Es; discriminate].
  exists sel. split; [reflexivity|]. split; [vm_compute in Es; injection Es as <-; reflexivity|].
  exact (proj1 (proj2 (proj2 (H sel eq_refl)))).
Defined.

(** Thirteen asks of 1 KiB, and a short one that stays *)
Definition long_ask (i : nat) : string := String (ascii_of_nat (64 + i)) (letters 1023).
Definition asks : list (Z * string) := map (fun i => (Z.of_nat i, long_ask i)) (seq 1 13).
Definition long_chat_rows : list chat_message := map (fun p => says RUser p.2) asks ++ [says RUser "ok"].
Definition small_config : AgentConfig := MkConfig 100 None 100 true (MkPolicy (f64_div (f64_of 3) (f64_of 4)) (f64_div (f64_of 1) (f64_of 4)) 50000 1) None.
Definition attempt_ : CreateContextCheckpoint :=
  MkCreate 1 long_chat_rows (map (fun i => MkSource (Z.of_nat i) RUser i) (seq 1 14)) asks None None
    (MkPrefix [says RUser "ok"] [] ∅ false) None true None.

Lemma printed_asks p s : payload_to_string p = Ok s -> sum (map len (original_requests p)) <= len s.
Proof.
  cbn. intros [= <-]. induction (original_requests p) as [|x l IH]; [vm_compute; lia|].
  rewrite join_empty_cons, len_app. change (len x + sum (map len l) <= len x + len (join "" l)). lia.
Qed.

Lemma long_asks_stop_compaction_witness :
  MAX_CONTEXT_CHECKPOINT_BYTES < sum (map len (carried_asks attempt_ (MkSelection 13 13)))
  /\ forall provider save c,
       outcome (maybe_create_context_checkpoint 0 small_config provider save attempt_) <> Ok (Some c).
Proof.
  assert (MAX_CONTEXT_CHECKPOINT_BYTES < sum (map len (carried_asks attempt_ (MkSelection 13 13)))) as Hlong
    by (apply Nat.ltb_lt; vm_compute; reflexivity).
  split; [exact Hlong|]. intros provider save.
  apply (long_asks_stop_compaction 0 small_config provider save attempt_ (MkSelection 13 13) printed_asks);
    [vm_compute; reflexivity | exact Hlong].
Defined.

(** The same chat with short asks is compacted. *)
Definition short_attempt : CreateContextCheckpoint :=
  MkCreate 1 long_chat_rows (map (fun i => MkSource (Z.of_nat i) RUser i) (seq 1 14))
    (map (fun p => (p.1, str_take 5 p.2)) asks) None None (MkPrefix [says RUser "ok"] [] ∅ false) None true None.
Definition answers (r : ChatRequest (Number := Z)) : result AgentError (list Polled) := Ok [Next (TextDelta "{}"); Next (Stop EndTurn)].
Example short_asks_are_compacted :
  let r := maybe_create_context_checkpoint 0 small_config answers (fun c => Some (Saved c)) short_attempt in
  match outcome r with Ok (Some c) => cp_source_message_id c | _ => 0%Z end = 13%Z
  /\ events r = [CompactionStarted; CompactionFinished true].
Proof. split; vm_compute; reflexivity. Qed.
End ContextDemo.
