(* ===== verification/ToolPreview.v ===== *)
(** * What a call will do, as a person is shown it

    tidebreak-core, preview.rs: the closed projection of a tool call's
    arguments that approval cards and grants are made from, its clamp, and the
    tests for when the clamp lost nothing.  Characters are those of
    [str::chars], each as its UTF-8 bytes. *)
From stdpp Require Import list.
From S2P Require Import Prelude RustStr Json.

Open Scope nat_scope.

Definition MAX_ACTION_FIELD_CHARS : nat := 512.
Definition MAX_ACTION_ARGS : nat := 32.
Definition MAX_ACTION_SUMMARY_CHARS : nat := 200.
Definition MAX_ACTIVITY_EXEC_OUTPUT_CHARS : nat := 2000.

(** ** Characters *)

(** [char::is_control]: U+0000 to U+001F, and U+007F to U+009F *)
Definition is_control (c : string) : bool :=
  match c with
  | String a EmptyString => (byte_val a <? 32) || (byte_val a =? 127)
  | String a (String b EmptyString) => (byte_val a =? 194) && in_range 128 159 b
  | _ => false
  end.
(** U+2028 to U+202E without the quotation marks, and U+2066 to U+2069 *)
Definition formatting_marks : list string :=
  map (fun b => utf8 [226; 128; b]) [168; 169; 170; 171; 172; 173; 174]
  ++ map (fun b => utf8 [226; 129; b]) [166; 167; 168; 169].
Definition preview_formatting_character (c : string) : bool := is_control c || str_mem c formatting_marks.

Definition clamp (value : string) (max_chars : nat) : option string :=
  let cleaned := join "" (take max_chars (List.filter (fun c => negb (preview_formatting_character c)) (chars value))) in
  if is_empty cleaned then None else Some cleaned.

Definition survives_clamp (value : string) : bool :=
  negb (is_empty value) && negb (existsb preview_formatting_character (chars value))
  && (length (chars value) <=? MAX_ACTION_FIELD_CHARS).

(** ** Actions *)

Inductive NetworkPolicy : Type :=
  | NetworkOff | PackageManagers | AllowedHosts (allowed_hosts : list string) (package_managers : bool) | NetworkOpen.
Inductive CodeSessionOperation : Type := Create | Continue.

Inductive ToolActionPreview : Type :=
  | ExecAction (command : string) (args : list string) (cwd : string) (files : list string) (summary : option string)
  | SearchAction (query : string) (summary : option string)
  | WebSearchAction (query : string) (domains : list string) (start_published_at end_published_at : option string)
      (summary : option string)
  | WebExtractAction (url : string) (summary : option string)
  | WriteFileAction (path : string) (summary : option string)
  | DelegateAgentAction (task : string) (network : NetworkPolicy)
  | CodeSessionAction (operation : CodeSessionOperation) (target task : string) (harness model : option string).

#[export] Instance NetworkPolicy_eq_dec : EqDecision NetworkPolicy.
Proof. solve_decision. Defined.
#[export] Instance CodeSessionOperation_eq_dec : EqDecision CodeSessionOperation.
Proof. solve_decision. Defined.
#[export] Instance ToolActionPreview_eq_dec : EqDecision ToolActionPreview.
Proof. solve_decision. Defined.

Section Preview.
Context {Number : Type}.
Implicit Types (arguments : json Number) (value : option (json Number)).

(** [arguments.get(key)?.as_str()?] *)
Definition get_str arguments (key : string) : option string := json_get arguments key ≫= json_as_str.

Definition clamped_field value : option string := 
  v ← value; s ← json_as_str v; clamp s MAX_ACTION_FIELD_CHARS.
Definition clamped_summary arguments : option string :=
  s ← get_str arguments "summary"; clamp (trim s) MAX_ACTION_SUMMARY_CHARS.
Definition search_query arguments : option string :=
  s ← get_str arguments "query"; clamp (trim s) MAX_ACTION_FIELD_CHARS.
Definition clamped_list value : list string :=
  match value with
  | Some (JArray values) => omap (fun v => clamped_field (Some v)) (take MAX_ACTION_ARGS values)
  | _ => []
  end.

(** [ToolActionPreview::build] *)
Definition build (tool_name : string) arguments : option ToolActionPreview :=
  if String.eqb tool_name "exec" then
    s ← get_str arguments "command";
    command ← clamp s MAX_ACTION_FIELD_CHARS;
    Some (ExecAction command (clamped_list (json_get arguments "args"))
            (default "." (clamped_field (json_get arguments "cwd"))) (clamped_list (json_get arguments "files"))
            (clamped_summary arguments))
  else if String.eqb tool_name "search" then
    query ← search_query arguments; Some (SearchAction query (clamped_summary arguments))
  else if String.eqb tool_name "web_search" then
    query ← search_query arguments;
    Some (WebSearchAction query (clamped_list (json_get arguments "domains"))
            (clamped_field (json_get arguments "start_published_at"))
            (clamped_field (json_get arguments "end_published_at")) (clamped_summary arguments))
  else if String.eqb tool_name "web_extract" then
    s ← get_str arguments "url"; url ← clamp (trim s) MAX_ACTION_FIELD_CHARS;
    Some (WebExtractAction url (clamped_summary arguments))
  else if String.eqb tool_name "write_file" then
    s ← get_str arguments "path"; path ← clamp s MAX_ACTION_FIELD_CHARS;
    Some (WriteFileAction path (clamped_summary arguments))
  else if String.eqb tool_name "code_session_create" then
    t ← get_str arguments "repository"; target ← clamp (trim t) MAX_ACTION_FIELD_CHARS;
    s ← get_str arguments "task"; task ← clamp (trim s) MAX_ACTION_FIELD_CHARS;
    Some (CodeSessionAction Create target task (clamped_field (json_get arguments "harness"))
            (clamped_field (json_get arguments "model")))
  else if String.eqb tool_name "code_run_turn" then
    t ← get_str arguments "session_id"; target ← clamp (trim t) MAX_ACTION_FIELD_CHARS;
    s ← get_str arguments "text"; task ← clamp (trim s) MAX_ACTION_FIELD_CHARS;
    Some (CodeSessionAction Continue target task None None)
  else None.

(** ** When nothing was lost *)

Definition query_survives_clamp arguments : bool :=
  match get_str arguments "query" with Some q => survives_clamp (trim q) | None => false end.
Definition field_survives_clamp value : bool :=
  match value with
  | None | Some JNull => true
  | Some (JString text) => survives_clamp text
  | Some _ => false
  end.
Definition list_survives_clamp value : bool :=
  match value with
  | None | Some JNull => true
  | Some (JArray values) =>
      (length values <=? MAX_ACTION_ARGS)
      && forallb (fun v => match json_as_str v with Some s => survives_clamp s | None => false end) values
  | Some _ => false
  end.

Definition describes_exactly (tool_name : string) arguments : bool :=
  if String.eqb tool_name "exec" then
    match get_str arguments "command" with Some c => survives_clamp c | None => false end
    && list_survives_clamp (json_get arguments "args")
    && field_survives_clamp (json_get arguments "cwd")
    && list_survives_clamp (json_get arguments "files")
  else if String.eqb tool_name "search" then query_survives_clamp arguments
  else if String.eqb tool_name "web_search" then
    query_survives_clamp arguments
    && list_survives_clamp (json_get arguments "domains")
    && field_survives_clamp (json_get arguments "start_published_at")
    && field_survives_clamp (json_get arguments "end_published_at")
  else if String.eqb tool_name "web_extract" then
    match get_str arguments "url" with Some url => survives_clamp (trim url) | None => false end
  else false.

Definition names_place_exactly (tool_name : string) arguments : bool :=
  String.eqb tool_name "write_file"
  && match get_str arguments "path" with Some path => survives_clamp path | None => false end.
End Preview.

Definition summary_of (a : ToolActionPreview) : option string :=
  match a with
  | ExecAction _ _ _ _ s | SearchAction _ s | WebSearchAction _ _ _ _ s | WebExtractAction _ s | WriteFileAction _ s => s
  | DelegateAgentAction _ _ | CodeSessionAction _ _ _ _ _ => None
  end.

Definition without_summary (a : ToolActionPreview) : ToolActionPreview :=
  match a with
  | ExecAction command args cwd files _ => ExecAction command args cwd files None
  | SearchAction query _ => SearchAction query None
  | WebSearchAction query domains from to _ => WebSearchAction query domains from to None
  | WebExtractAction url _ => WebExtractAction url None
  | WriteFileAction path _ => WriteFileAction path None
  | DelegateAgentAction _ _ | CodeSessionAction _ _ _ _ _ => a
  end.

(** ** A step of a background agent *)

Inductive AgentActivityDetail : Type :=
  | ExecDetail (command : string) (args : list string) (summary : option string) (exit_code : option Z)
      (output : option string)
  | SearchDetail (query : string)
  | FileDetail (name : string).

Definition activity_build {Number} (tool_name : string) (arguments : json Number) : option AgentActivityDetail :=
  match build tool_name arguments with
  | Some (ExecAction command args _ _ summary) => Some (ExecDetail command args summary None None)
  | Some (WebSearchAction query _ _ _ _) => Some (SearchDetail query)
  | _ => None
  end.

Definition NEWLINE_CHAR : string := utf8 [10].
Definition TAB_CHAR : string := utf8 [9].
(** The last [max_chars] readable characters *)
Definition receipt_tail (result : string) (max_chars : nat) : option string :=
  let readable := List.filter (fun c => negb (preview_formatting_character c) || str_mem c [NEWLINE_CHAR; TAB_CHAR]) (chars result) in
  let trimmed := trim (join "" (drop (length readable - max_chars) readable)) in
  if is_empty trimmed then None else Some trimmed.

(** [str::lines().next()] *)
Definition first_line (s : string) : option string :=
  if is_empty s then None else
  match split s (ascii_of_nat 10) with
  | line :: _ :: _ => Some (default line (strip_suffix line (utf8 [13])))
  | line :: _ => Some line
  | [] => None
  end.
(** [str::parse::<i32>] *)
Definition parse_i32 (s : string) : option Z :=
  match strip_prefix s "-" with
  | Some digits => if starts_with digits "+" then None else Z.opp <$> parse_uint (2 ^ 31) digits
  | None => parse_uint (2 ^ 31 - 1) s
  end.

Definition with_exec_result (d : AgentActivityDetail) (result : string) : AgentActivityDetail :=
  match d with
  | ExecDetail command args summary _ _ =>
      let exit_code := (line ← first_line result; code ← strip_prefix line "exit: "; parse_i32 code) in
      ExecDetail command args summary exit_code (receipt_tail result MAX_ACTIVITY_EXEC_OUTPUT_CHARS)
  | _ => d
  end.
