(* ===== verification/Approvals.v ===== *)
(** * Consent: kinds, scopes and standing grants

    tidebreak-core, approval.rs: what a person can be asked about a call, the
    scopes a remembered answer may have, the ladder of scopes a card offers and
    when a grant or the automatic judge may stand in for the person; the rungs
    of tidebreak-server, approvals.rs and routes/approvals.rs.  A command is
    judged by [analyze_argv] of [ShellPolicy].  After the definitions: what an
    exact description loses (nothing), what the rungs of a ladder cover, and
    what a grant or the judge may let run without asking. *)
From S2P Require Import Prelude RustStr ShellPolicy PolicyFacts Json ToolPreview.

Open Scope tb_scope.

(** ** Decisions *)

Inductive ApprovalClass : Type := ReadOnly | Workspace | Sensitive.
Inductive ApprovalDecision : Type := Approve | Reject (reason : string).
Inductive ToolApprovalStatus : Type := StatusPending | StatusApproved | StatusRejected.
Inductive AutoJudgeStatus : Type := Judging | JudgeApproved | JudgeDeclined.

#[export] Instance ApprovalClass_eq_dec : EqDecision ApprovalClass.
Proof. solve_decision. Defined.
#[export] Instance ApprovalDecision_eq_dec : EqDecision ApprovalDecision.
Proof. solve_decision. Defined.
#[export] Instance ToolApprovalStatus_eq_dec : EqDecision ToolApprovalStatus.
Proof. solve_decision. Defined.
#[export] Instance AutoJudgeStatus_eq_dec : EqDecision AutoJudgeStatus.
Proof. solve_decision. Defined.

Definition decision_status (d : ApprovalDecision) : ToolApprovalStatus :=
  match d with Approve => StatusApproved | Reject _ => StatusRejected end.
Definition decision_reason (d : ApprovalDecision) : option string :=
  match d with Approve => None | Reject reason => Some reason end.

Definition MAX_REASON_BYTES : nat := 1024.
Definition MAX_REASON_CHARS : nat := 512.
Definition valid_reason (reason : string) : bool :=
  negb (is_empty reason) && (len reason <=? MAX_REASON_BYTES) && (length (chars reason) <=? MAX_REASON_CHARS)
  && negb (existsb is_control (chars reason)).
Definition DEFAULT_REJECT_REASON : string :=
  "The user declined to approve this action. Do not retry the same action; propose a different approach, ask the user why, or continue without it.".

(** ** What is being asked *)

Inductive ToolApprovalKind : Type :=
  | SearchMayShareQueryAndExcerpts | WebSearchMayShareQuery | WebExtractMayFetchUrl | ExecMayRunNetworkedCommand
  | ExternalMcpMayCallServer | WorkspaceMayModifyFiles | DelegateMayRunBackgroundAgent
  | CodeSessionMayRunRepositoryAgent | ComputerMayControlApp | Unsupported.
#[export] Instance ToolApprovalKind_eq_dec : EqDecision ToolApprovalKind.
Proof. solve_decision. Defined.

Definition SPAWN_SANDBOX_AGENT_TOOL : string := "spawn_sandbox_agent".
Definition COMPUTER_USE_CONTROL_TOOLS : list string :=
  ["computer_click"; "computer_type_text"; "computer_key_press"; "computer_scroll"; "computer_focus_window";
   "computer_launch_app"; "computer_hover"; "computer_drag"; "computer_resize_window"].

Definition for_tool_name (name : string) : ToolApprovalKind :=
  if String.eqb name "search" then SearchMayShareQueryAndExcerpts
  else if String.eqb name "web_search" then WebSearchMayShareQuery
  else if String.eqb name "web_extract" then WebExtractMayFetchUrl
  else if String.eqb name "exec" then ExecMayRunNetworkedCommand
  else if String.eqb name "write_file" then WorkspaceMayModifyFiles
  else if String.eqb name "create_app" then WorkspaceMayModifyFiles
  else if String.eqb name SPAWN_SANDBOX_AGENT_TOOL then DelegateMayRunBackgroundAgent
  else if str_mem name ["code_session_create"; "code_run_turn"] then CodeSessionMayRunRepositoryAgent
  else if str_mem name COMPUTER_USE_CONTROL_TOOLS then ComputerMayControlApp
  else if starts_with name "mcp__" then ExternalMcpMayCallServer
  else Unsupported.

Definition for_call (name : string) (class : ApprovalClass) : ToolApprovalKind :=
  match for_tool_name name, class with
  | Unsupported, Workspace => WorkspaceMayModifyFiles
  | kind, _ => kind
  end.

Definition standing_grant_key (k : ToolApprovalKind) : string :=
  match k with
  | SearchMayShareQueryAndExcerpts => "search_may_share_query_and_excerpts"
  | WebSearchMayShareQuery => "web_search_may_share_query"
  | WebExtractMayFetchUrl => "web_extract_may_fetch_url"
  | ExecMayRunNetworkedCommand => "exec_may_run_networked_command"
  | ExternalMcpMayCallServer => "external_mcp_may_call_server"
  | WorkspaceMayModifyFiles => "workspace_may_modify_files"
  | DelegateMayRunBackgroundAgent => "delegate_may_run_background_agent"
  | CodeSessionMayRunRepositoryAgent => "code_session_may_run_repository_agent"
  | ComputerMayControlApp => "computer_may_control_app"
  | Unsupported => "unsupported"
  end.
Definition all_kinds : list ToolApprovalKind :=
  [SearchMayShareQueryAndExcerpts; WebSearchMayShareQuery; WebExtractMayFetchUrl; ExecMayRunNetworkedCommand;
   ExternalMcpMayCallServer; WorkspaceMayModifyFiles; DelegateMayRunBackgroundAgent;
   CodeSessionMayRunRepositoryAgent; ComputerMayControlApp; Unsupported].
Definition from_standing_grant_key (value : string) : option ToolApprovalKind :=
  List.find (fun k => String.eqb value (standing_grant_key k)) all_kinds.

Definition is_approvable (k : ToolApprovalKind) : bool := negb (bool_decide (k = Unsupported)).
Definition is_auto_judgeable (k : ToolApprovalKind) : bool :=
  match k with
  | SearchMayShareQueryAndExcerpts | WebSearchMayShareQuery | WebExtractMayFetchUrl | ExecMayRunNetworkedCommand => true
  | _ => false
  end.
Definition is_standing_grantable (k : ToolApprovalKind) : bool :=
  is_approvable k
  && negb (match k with
           | ExternalMcpMayCallServer | ComputerMayControlApp | CodeSessionMayRunRepositoryAgent => true
           | _ => false
           end).

(** ** Scopes *)

Inductive GrantScope : Type :=
  | ExactAction (action : ToolActionPreview)
  | AnyArgsFor (command : string)
  | CommandPrefix (tokens : list string)
  | PathSubtree (prefix : string)
  | WholeTool.
#[export] Instance GrantScope_eq_dec : EqDecision GrantScope.
Proof. solve_decision. Defined.

Definition is_path_subtree (s : GrantScope) : bool := match s with PathSubtree _ => true | _ => false end.
Definition is_whole_tool (s : GrantScope) : bool := match s with WholeTool => true | _ => false end.

Definition grantable_at (k : ToolApprovalKind) (scope : GrantScope) : bool :=
  is_standing_grantable k
  && match k with
     | WorkspaceMayModifyFiles => is_path_subtree scope
     | _ => negb (is_path_subtree scope)
     end.

Definition exec_argv (command : string) (args : list string) : list string := command :: args.

(** ** Places *)

Definition SLASH : ascii := "/"%char.
Definition place_segments (path : string) : option (list string) :=
  if starts_with path "/" then None else
  let segments := List.filter (fun s => negb (is_empty s) && negb (String.eqb s ".")) (split path SLASH) in
  match segments with
  | [] => None
  | _ => if str_mem ".." segments then None else Some segments
  end.

Definition place_ladder (path : string) : list GrantScope :=
  if MAX_ACTION_FIELD_CHARS <=? length (chars path) then [] else
  match place_segments path with
  | None => []
  | Some segments =>
      PathSubtree (join "/" segments)
      :: (if 1 <? length segments then [PathSubtree (join "/" (take (length segments - 1) segments))] else [])
  end.

(** ** Coverage *)

Section Coverage.
Context `{UnicodeLower, RegexEngine} {Number : Type}.
Implicit Types arguments : json Number.

Definition covers_workspace_place (prefix tool_name : string) arguments : bool :=
  names_place_exactly tool_name arguments
  && match get_str arguments "path" with
     | None => false
     | Some path =>
         match place_segments prefix, place_segments path with
         | Some prefix, Some path =>
             (length prefix <=? length path) && forallb (fun p => String.eqb p.1 p.2) (zip prefix path)
         | _, _ => false
         end
     end.

Definition allows_alone (rule : CommandRule) (argv : list string) : bool :=
  grants_alone (analyze_argv argv) rule.

(** The rule a scope stands for; a place names no command. *)
Definition scope_rule (scope : GrantScope) (argv : list string) : result string CommandRule :=
  match scope with
  | WholeTool => CommandRule_new All []
  | AnyArgsFor command => CommandRule_new Prefix [command]
  | CommandPrefix tokens => CommandRule_new Prefix tokens
  | ExactAction _ => CommandRule_new Exact argv
  | PathSubtree _ => Err "place scopes return early"
  end.

Definition names_action (scope : GrantScope) (action : ToolActionPreview) : bool :=
  match scope with
  | ExactAction granted => bool_decide (without_summary granted = without_summary action)
  | _ => true
  end.

Definition covers_argv (scope : GrantScope) (action : ToolActionPreview) (command : string) (args : list string) : bool :=
  names_action scope action
  && match scope_rule scope (exec_argv command args) with
     | Err _ => false
     | Ok rule => allows_alone rule (exec_argv command args)
     end.

(** [GrantScope::covers_call] *)
Definition covers_call (scope : GrantScope) (tool_name : string) arguments : bool :=
  match scope with
  | PathSubtree prefix => covers_workspace_place prefix tool_name arguments
  | _ =>
      if negb (describes_exactly tool_name arguments) then is_whole_tool scope else
      match build tool_name arguments with
      | None => is_whole_tool scope
      | Some (ExecAction command args _ _ _ as action) => covers_argv scope action command args
      | Some action =>
          match scope with
          | WholeTool => true
          | ExactAction _ => names_action scope action
          | _ => false
          end
      end
  end.

(** [Vec::dedup] *)
Fixpoint dedup (l : list GrantScope) : list GrantScope :=
  match l with
  | [] => []
  | x :: l => match dedup l with
              | y :: l' => if bool_decide (x = y) then y :: l' else x :: y :: l'
              | [] => [x]
              end
  end.

Definition rung_scope (action : ToolActionPreview) (rule : CommandRule) : GrantScope :=
  match kind rule with
  | Exact => ExactAction action
  | Prefix => CommandPrefix (tokens rule)
  | All => WholeTool
  end.

Definition ladder_for_action (action : ToolActionPreview) : list GrantScope :=
  let action := without_summary action in
  match action with
  | ExecAction command args _ _ _ => dedup (map (rung_scope action) (suggested_rungs_for_argv (exec_argv command args)))
  | WriteFileAction path _ => place_ladder path
  | DelegateAgentAction _ _ => [WholeTool]
  | _ => [ExactAction action; WholeTool]
  end.

Definition ladder_for (tool_name : string) arguments : list GrantScope :=
  if String.eqb tool_name "write_file" then
    if negb (names_place_exactly tool_name arguments) then []
    else match build tool_name arguments with Some action => ladder_for_action action | None => [] end
  else if negb (describes_exactly tool_name arguments) then [WholeTool]
  else match build tool_name arguments with Some action => ladder_for_action action | None => [WholeTool] end.

Definition mintable_ladder_for (k : ToolApprovalKind) (tool_name : string) arguments : list GrantScope :=
  List.filter (grantable_at k) (ladder_for tool_name arguments).

(** [is_auto_judge_candidate] *)
Definition is_auto_judge_candidate (k : ToolApprovalKind) (tool_name : string) arguments : bool :=
  if negb (is_auto_judgeable k) || negb (describes_exactly tool_name arguments) then false else
  match build tool_name arguments with
  | None => false
  | Some (ExecAction command args _ _ _) => allows_alone (MkRule All []) (exec_argv command args)
  | Some _ => true
  end.

(** ** Standing grants *)

Inductive GrantLevel : Type := LevelChat (chat_id : Z) | LevelProject (project_id : Z).
#[export] Instance GrantLevel_eq_dec : EqDecision GrantLevel.
Proof. solve_decision. Defined.

Definition level_for_chat (chat_id : Z) (project_id : option Z) : GrantLevel :=
  match project_id with Some p => LevelProject p | None => LevelChat chat_id end.
Definition reaches (l : GrantLevel) (chat_id : Z) (project_id : option Z) : bool :=
  match l with
  | LevelChat granted => (granted =? chat_id)%Z
  | LevelProject granted => bool_decide (project_id = Some granted)
  end.

Record StandingGrant : Type := MkGrant {
  g_level : GrantLevel; g_tool_name : string; g_kind : ToolApprovalKind; g_scope : GrantScope; granted_at : Z }.

(** [StandingGrant::scoped] *)
Definition scoped (level : GrantLevel) (tool_name : string) (k : ToolApprovalKind) (scope : GrantScope)
    (at_ : Z) : option StandingGrant :=
  if grantable_at k scope then Some (MkGrant level tool_name k scope at_) else None.

Definition grant_covers (g : StandingGrant) (chat_id : Z) (project_id : option Z) (tool_name : string)
    (k : ToolApprovalKind) arguments : bool :=
  reaches (g_level g) chat_id project_id
  && String.eqb (g_tool_name g) tool_name
  && bool_decide (g_kind g = k)
  && is_approvable k
  && covers_call (g_scope g) tool_name arguments.

(** The in-memory set *)
Definition StandingGrants : Type := list StandingGrant.
Definition same_grant (a b : StandingGrant) : bool :=
  bool_decide (g_level a = g_level b) && String.eqb (g_tool_name a) (g_tool_name b)
  && bool_decide (g_kind a = g_kind b) && bool_decide (g_scope a = g_scope b).
Definition record_grant (grants : StandingGrants) (g : StandingGrant) : StandingGrants :=
  if existsb (fun existing => same_grant existing g) grants then grants else grants ++ [g].
Definition any_covers (grants : StandingGrants) (chat_id : Z) (project_id : option Z) (tool_name : string)
    (k : ToolApprovalKind) arguments : bool :=
  existsb (fun g => grant_covers g chat_id project_id tool_name k arguments) grants.
Definition clear (_ : StandingGrants) : StandingGrants := [].

(** ** Rungs, as the renderer names them *)

Inductive ApprovalGrantRung : Type :=
  | RungExactAction | RungCommandPrefix (count : nat) | RungPathPrefix (segments : nat) | RungWholeTool.

Definition rung_of (action_is_exact : bool) (scope : GrantScope) : option ApprovalGrantRung :=
  match scope with
  | ExactAction _ => if action_is_exact then Some RungExactAction else None
  | CommandPrefix tokens => Some (RungCommandPrefix (length tokens))
  | PathSubtree prefix => Some (RungPathPrefix (length (split prefix SLASH)))
  | WholeTool => Some RungWholeTool
  | AnyArgsFor _ => Some (RungCommandPrefix 1)
  end.
Definition grant_rungs_from_scopes (scopes : list GrantScope) (action_is_exact : bool) : list ApprovalGrantRung :=
  omap (rung_of action_is_exact) scopes.

Definition approval_grant_rungs (k : ToolApprovalKind) (action : option ToolActionPreview) (action_is_exact : bool)
  : list ApprovalGrantRung :=
  let scopes := match action with Some action => ladder_for_action action | None => [WholeTool] end in
  grant_rungs_from_scopes (List.filter (grantable_at k) scopes) action_is_exact.

Definition command_prefix_scope (action : ToolActionPreview) (count : nat) : option GrantScope :=
  List.find (fun s => match s with CommandPrefix offered => length offered =? count | _ => false end) (ladder_for_action action).
Definition path_prefix_scope (action : ToolActionPreview) (segments : nat) : option GrantScope :=
  List.find (fun s => match s with PathSubtree prefix => length (split prefix SLASH) =? segments | _ => false end)
    (ladder_for_action action).

Definition grant_scope (rung : ApprovalGrantRung) (action : option ToolActionPreview) (action_is_exact : bool)
  : option GrantScope :=
  let candidate :=
    match rung, action with
    | RungWholeTool, _ => Some WholeTool
    | RungExactAction, Some action => if action_is_exact then Some (ExactAction action) else None
    | RungCommandPrefix count, Some (ExecAction _ _ _ _ _ as action) =>
        if action_is_exact then command_prefix_scope action count else None
    | RungPathPrefix segments, Some (WriteFileAction _ _ as action) => path_prefix_scope action segments
    | _, _ => None
    end in
  let available := match action with Some action => ladder_for_action action | None => [WholeTool] end in
  match candidate with
  | Some candidate => if bool_decide (candidate ∈ available) then Some candidate else None
  | None => None
  end.
End Coverage.


(** ** The clamp *)

Lemma clamp_survives s : survives_clamp s = true -> clamp s MAX_ACTION_FIELD_CHARS = Some s.
Proof.
  unfold survives_clamp, clamp. intros [[He Hc]%andb_true_iff Hl]%andb_true_iff.
  apply negb_true_iff in He, Hc. apply Nat.leb_le in Hl.
  assert (Hf : List.filter (fun c => negb (preview_formatting_character c)) (chars s) = chars s).
  { clear He Hl. induction (chars s) as [|c cs IH]; cbn in *; [done|].
    apply orb_false_iff in Hc as [-> Hc]. cbn. by rewrite IH. }
  rewrite Hf, take_ge, join_chars by done. by rewrite He.
Qed.

Section Description.
Context {Number : Type}.
Implicit Types (arguments granted asked : json Number) (value : option (json Number)).

(** What a field or a list says, before any clamp *)
Definition said value : option string := value ≫= json_as_str.
Definition said_list value : list string :=
  match value with Some (JArray vs) => omap json_as_str vs | _ => [] end.

Lemma clamped_field_said value : field_survives_clamp value = true -> clamped_field value = said value.
Proof.
  destruct value as [[]|]; cbn; try done. intros Hs. by apply clamp_survives.
Qed.

Lemma clamped_list_said value : list_survives_clamp value = true -> clamped_list value = said_list value.
Proof.
  destruct value as [[]|]; cbn; try done. intros [Hl Hs]%andb_true_iff. apply Nat.leb_le in Hl.
  rewrite take_ge by done. apply forallb_true in Hs. clear Hl.
  induction Hs as [|v vs Hv _ IH]; [done|]. destruct v; try done. cbn in *.
  rewrite (clamp_survives _ Hv). cbn. by f_equal.
Qed.

(** The fields and the lists of a call that are its action *)
Definition action_fields (tool_name : string) arguments : list (option string) * list (list string) :=
  if String.eqb tool_name "exec" then
    ([get_str arguments "command"; Some (default "." (said (json_get arguments "cwd")))],
     [said_list (json_get arguments "args"); said_list (json_get arguments "files")])
  else if String.eqb tool_name "search" then ([trim <$> get_str arguments "query"], [])
  else if String.eqb tool_name "web_search" then
    ([trim <$> get_str arguments "query"; said (json_get arguments "start_published_at");
      said (json_get arguments "end_published_at")], [said_list (json_get arguments "domains")])
  else if String.eqb tool_name "web_extract" then ([trim <$> get_str arguments "url"], [])
  else ([], []).

(** The fields a description shows *)
Definition shown_fields (a : ToolActionPreview) : list (option string) * list (list string) :=
  match a with
  | ExecAction command args cwd files _ => ([Some command; Some cwd], [args; files])
  | SearchAction query _ => ([Some query], [])
  | WebSearchAction query domains from to _ => ([Some query; from; to], [domains])
  | WebExtractAction url _ => ([Some url], [])
  | _ => ([], [])
  end.

(** An exact description is one, and shows the call's own fields. *)
Lemma exact_description tool_name arguments : describes_exactly tool_name arguments = true ->
  exists action, build tool_name arguments = Some action /\ shown_fields action = action_fields tool_name arguments.
Proof.
  unfold describes_exactly, build, action_fields, query_survives_clamp, search_query.
  destruct (String.eqb tool_name "exec").
  { intros [[[Hc Ha]%andb_true_iff Hw]%andb_true_iff Hf]%andb_true_iff.
    destruct (get_str arguments "command") as [c|]; [|done]. cbn. rewrite (clamp_survives _ Hc). cbn.
    eexists. split; [done|]. cbn. by rewrite !clamped_list_said, clamped_field_said. }
  destruct (String.eqb tool_name "search").
  { destruct (get_str arguments "query") as [q|]; [|done]. intros Hq. cbn. rewrite (clamp_survives _ Hq). cbn. eauto. }
  destruct (String.eqb tool_name "web_search").
  { intros [[[Hq Hd]%andb_true_iff Hs]%andb_true_iff He]%andb_true_iff.
    destruct (get_str arguments "query") as [q|]; [|done]. cbn. rewrite (clamp_survives _ Hq). cbn.
    eexists. split; [done|]. cbn. by rewrite clamped_list_said, !clamped_field_said. }
  destruct (String.eqb tool_name "web_extract").
  { destruct (get_str arguments "url") as [u|]; [|done]. intros Hu. cbn. rewrite (clamp_survives _ Hu). cbn. eauto. }
  done.
Qed.

Lemma shown_without_summary a : shown_fields (without_summary a) = shown_fields a.
Proof. by destruct a. Qed.

Lemma without_summary_idem a : without_summary (without_summary a) = without_summary a.
Proof. by destruct a. Qed.

(** Which tool a description is of *)
Ltac build_cases H :=
  repeat case_match; repeat (apply bind_Some in H as (? & ? & H)); simplify_eq.

Lemma build_exec tool_name arguments command args cwd files s :
  build tool_name arguments = Some (ExecAction command args cwd files s) -> tool_name = "exec".
Proof.
  intros H. unfold build in H. destruct (String.eqb_spec tool_name "exec"); [done|].
  build_cases H.
Qed.

Lemma build_write tool_name arguments path s :
  build tool_name arguments = Some (WriteFileAction path s) -> tool_name = "write_file".
Proof.
  intros H. unfold build in H.
  build_cases H. by apply String.eqb_eq.
Qed.

Lemma build_delegate tool_name arguments t n : build tool_name arguments <> Some (DelegateAgentAction t n).
Proof.
  intros H. unfold build in H.
  build_cases H.
Qed.
End Description.

(** ** Ladders *)
Section Ladders.
Context `{UnicodeLower, RegexEngine} {Number : Type}.
Implicit Types (arguments granted asked : json Number) (scope : GrantScope).

Lemma dedup_elem scope l : scope ∈ dedup l <-> scope ∈ l.
Proof.
  induction l as [|x l IH]; [done|]. cbn. rewrite elem_of_cons, <- IH.
  destruct (dedup l) as [|y l']; [by rewrite elem_of_cons|]. case_bool_decide; subst; rewrite ?elem_of_cons; tauto.
Qed.

Lemma suggested_rule rule argv : rule ∈ suggested_rungs_for_argv argv ->
  allows_alone rule argv = true /\ CommandRule_new (kind rule) (tokens rule) = Ok rule
  /\ (kind rule = Exact -> tokens rule = argv).
Proof.
  destruct argv as [|p args]; [by intros ?%elem_of_nil|]. unfold suggested_rungs_for_argv.
  intros [Hn|[Hc Ha]]%verified_rungs_elem; [by apply elem_of_nil in Hn|].
  split; [done|]. unfold argv_candidates, subcommand_prefix in Hc. cbn in Hc.
  rewrite !elem_of_cons, elem_of_nil in Hc. destruct Hc as [->|[->|[->|[->|[]]]]]; done.
Qed.

Lemma rung_covers rule action command args :
  rule ∈ suggested_rungs_for_argv (exec_argv command args) ->
  covers_argv (rung_scope action rule) action command args = true.
Proof.
  intros (Ha & Hn & Ht)%suggested_rule. unfold covers_argv, names_action, scope_rule, rung_scope.
  destruct rule as [[] toks]; cbn [kind tokens] in *; rewrite ?Hn, ?bool_decide_eq_true_2 by done; [|done|].
  - rewrite (Ht eq_refl) in *. by rewrite Hn.
  - destruct toks; [|done]. done.
Qed.

(** *** Places *)

Definition segment (s : string) : Prop := s <> "" /\ s <> "." /\ s <> ".." /\ free_of SLASH s.

Lemma place_segments_segment path segments : place_segments path = Some segments ->
  segments <> [] /\ Forall segment segments.
Proof.
  unfold place_segments. destruct (starts_with path "/"); [done|].
  pose proof (split_all_free path SLASH) as Hfree.
  destruct (List.filter _ (split path SLASH)) as [|x l] eqn:Ef; [done|].
  destruct (str_mem ".." (x :: l)) eqn:Ed; [done|]. intros [= <-]. split; [done|].
  apply str_mem_false in Ed. apply Forall_forall. intros y Hy.
  assert (Hin : In y (List.filter (fun s => negb (is_empty s) && negb (String.eqb s ".")) (split path SLASH)))
    by (rewrite Ef; by apply list_elem_of_In).
  apply filter_In in Hin as [Hin [H1 H2]%andb_true_iff]. rewrite Forall_forall in Hfree.
  split_and!; [by intros ->|by intros ->|by intros ->|by apply Hfree, list_elem_of_In].
Qed.

Lemma place_segments_join segments : segments <> [] -> Forall segment segments ->
  place_segments (join "/" segments) = Some segments.
Proof.
  intros Hne Hs. unfold place_segments.
  assert (Hsplit : split (join "/" segments) SLASH = segments).
  { apply (split_join SLASH); [|done]. eapply Forall_impl; [exact Hs|]. by intros ? (_ & _ & _ & ?). }
  assert (Hstart : starts_with (join "/" segments) "/" = false).
  { destruct segments as [|x l]; [done|]. apply Forall_cons in Hs as [(Hx & _ & _ & Hf) _].
    destruct (starts_with (join "/" (x :: l)) "/") eqn:E; [|done]. apply starts_with_true in E as [rest E].
    destruct x as [|a x]; [done|]. apply free_of_cons in Hf as [Ha _]. destruct l; cbn in E; by injection E as ->. }
  rewrite Hstart, Hsplit.
  assert (Hfilter : List.filter (fun s => negb (is_empty s) && negb (String.eqb s ".")) segments = segments).
  { clear Hne Hsplit Hstart. induction Hs as [|x l (Hx & Hd & _) Hs IH]; [done|]. cbn.
    rewrite (proj2 (String.eqb_neq x ".") Hd). destruct x; [done|]. cbn. by rewrite IH. }
  rewrite Hfilter. destruct segments as [|x l] eqn:El; [done|]. rewrite <- El in *.
  assert (Hdots : str_mem ".." segments = false).
  { apply str_mem_false. intros Hin. rewrite Forall_forall in Hs. by apply Hs in Hin as (_ & _ & ? & _). }
  by rewrite Hdots, El.
Qed.

(** A prefix of a path's segments covers the path. *)
Lemma prefix_covers arguments path segments n : get_str arguments "path" = Some path -> survives_clamp path = true ->
  place_segments path = Some segments -> 0 < n ->
  covers_workspace_place (join "/" (take n segments)) "write_file" arguments = true.
Proof.
  intros Hp Hc Hs Hn. pose proof (place_segments_segment _ _ Hs) as [Hne Hseg].
  unfold covers_workspace_place, names_place_exactly. rewrite String.eqb_refl, Hp, Hc, Hs. cbn [andb].
  rewrite place_segments_join; [|by destruct segments, n; try lia|by apply Forall_take].
  rewrite length_take. apply andb_true_iff. split; [apply Nat.leb_le; lia|].
  clear. revert n. induction segments as [|x l IH]; intros [|n]; cbn; try done. by rewrite String.eqb_refl, IH.
Qed.

Lemma place_ladder_covers arguments scope path : names_place_exactly "write_file" arguments = true ->
  get_str arguments "path" = Some path -> scope ∈ place_ladder path ->
  covers_call scope "write_file" arguments = true.
Proof.
  intros Hp Hg. assert (Hc : survives_clamp path = true).
  { unfold names_place_exactly in Hp. by rewrite Hg in Hp. }
  unfold place_ladder. destruct (_ <=? _); [by intros ?%elem_of_nil|].
  destruct (place_segments path) as [segments|] eqn:Es; [|by intros ?%elem_of_nil].
  rewrite elem_of_cons. intros [->|Hin]; cbn.
  - rewrite <- (take_ge segments (length segments)) at 1 by done. apply (prefix_covers _ path); try done.
    apply place_segments_segment in Es as [Hne _]. destruct segments; [done|]. cbn. lia.
  - destruct (1 <? length segments) eqn:El; [|by apply elem_of_nil in Hin]. apply Nat.ltb_lt in El.
    apply list_elem_of_singleton in Hin as ->. apply (prefix_covers _ path); try done. lia.
Qed.

(** Each rung of a call's own ladder covers that call. *)
Lemma ladder_covers scope tool_name arguments :
  scope ∈ ladder_for tool_name arguments -> covers_call scope tool_name arguments = true.
Proof.
  unfold ladder_for. destruct (String.eqb_spec tool_name "write_file") as [->|Hw].
  { destruct (names_place_exactly "write_file" arguments) eqn:Hp; cbn [negb]; [|by intros ?%elem_of_nil].
    pose proof Hp as Hq. unfold names_place_exactly in Hq. cbn in Hq. unfold build. cbn -[clamp].
    destruct (get_str arguments "path") as [path|] eqn:Hg; [|done]. cbn -[clamp].
    rewrite (clamp_survives _ Hq). cbn. by apply place_ladder_covers. }
  destruct (describes_exactly tool_name arguments) eqn:Hd; cbn [negb].
  2: { intros ->%list_elem_of_singleton. cbn. by rewrite Hd. }
  destruct (build tool_name arguments) as [action|] eqn:Hb.
  2: { intros ->%list_elem_of_singleton. cbn. by rewrite Hd, Hb. }
  intros Hin. unfold covers_call. rewrite Hd, Hb. cbn [negb]. destruct action as [command args cwd files s| | | | | |].
  - cbn [ladder_for_action without_summary] in Hin. apply dedup_elem, list_elem_of_fmap in Hin as (rule & -> & Hr).
    pose proof (rung_covers rule (ExecAction command args cwd files None) _ _ Hr) as Hcov.
    unfold covers_argv in *. destruct rule as [[] toks]; cbn in *; try done.
  - cbn in Hin. set_unfold in Hin. destruct Hin as [->|[->|[]]]; [|done]. by apply bool_decide_eq_true.
  - cbn in Hin. set_unfold in Hin. destruct Hin as [->|[->|[]]]; [|done]. by apply bool_decide_eq_true.
  - cbn in Hin. set_unfold in Hin. destruct Hin as [->|[->|[]]]; [|done]. by apply bool_decide_eq_true.
  - by apply build_write in Hb.
  - by apply build_delegate in Hb.
  - cbn in Hin. set_unfold in Hin. destruct Hin as [->|[->|[]]]; [|done]. by apply bool_decide_eq_true.
Qed.
End Ladders.
