(* ===== verification/ToolGate.v ===== *)
(** * The gate in front of a tool

    tidebreak-core, agent/dispatch.rs and permission.rs: how a call the model
    made becomes an execution, a question or a refusal.  The registry's tools,
    the schema check, the approval broker, the event channel and the
    cancellation token are fields of the turn the gate runs in; the token is
    read at the named moments. *)
From S2P Require Import Prelude RustStr Json TurnTables ShellPolicy ToolPreview Approvals.
From S2P Require Import ErrorKinds.
From S2P Require Import Transcript.

Open Scope tb_scope.

Inductive PermissionMode : Type := ModePlan | ModeAsk | ModeAuto | ModeAllow.
#[export] Instance PermissionMode_eq_dec : EqDecision PermissionMode.
Proof. solve_decision. Defined.
(** [PermissionMode::ALL], [as_str] and [from_str] *)
Definition ALL_MODES : list PermissionMode := [ModePlan; ModeAsk; ModeAuto; ModeAllow].
Definition mode_as_str (m : PermissionMode) : string :=
  match m with ModePlan => "plan" | ModeAsk => "ask" | ModeAuto => "auto" | ModeAllow => "allow" end.
Definition mode_from_str (value : string) : option PermissionMode :=
  List.find (fun m => String.eqb (mode_as_str m) value) ALL_MODES.

(** ** Outputs (tool.rs) *)

Inductive ToolErrorCategory : Type :=
  | UserCancelled | UserDeclined | NotFound | InvalidArguments | ConfigurationRequired | TransportFailed | ToolFailed.
#[export] Instance ToolErrorCategory_eq_dec : EqDecision ToolErrorCategory.
Proof. solve_decision. Defined.

Definition error_category_as_str (c : ToolErrorCategory) : string :=
  match c with
  | UserCancelled => "user_cancelled" | UserDeclined => "user_declined" | NotFound => "not_found"
  | InvalidArguments => "invalid_arguments" | ConfigurationRequired => "configuration_required"
  | TransportFailed => "transport_failed" | ToolFailed => "tool_failed"
  end.

(** The fields the gate reads or writes *)
Record ToolOutput : Type := MkOutput {
  out_content : string; out_is_error : bool; out_category : option ToolErrorCategory; out_images : list ImageRef }.
Definition failed (category : ToolErrorCategory) (content : string) : ToolOutput :=
  MkOutput content true (Some category) [].
Definition tool_error (content : string) : ToolOutput := failed ToolFailed content.
Definition set_content (o : ToolOutput) (content : string) : ToolOutput :=
  MkOutput content (out_is_error o) (out_category o) (out_images o).

Definition MAX_RESULT_BYTES : nat := 512 * 1024.
Definition COMPUTER_CAPTURE_SCREEN_TOOL : string := "computer_capture_screen".

(** ** Registration *)

Record ApprovalRequest : Type := MkApproval {
  ar_call_id : Z; ar_chat_id : Z; ar_turn_id : Z; ar_tool_name : string; ar_class : ApprovalClass;
  ar_kind : ToolApprovalKind; ar_preview : option ToolActionPreview; ar_auto_judge : bool }.
Record ApprovalJournalIdentity : Type := MkJournalIdentity { lease_token : Z; event_ordinal : Z }.
Inductive ApprovalRequiredPublication : Type :=
  | Ordinary | Committed (ordinal : Z) | Recovered (ordinal : Z) | NoPublication | ByStandingGrant.
Record ApprovalRegistration : Type := MkRegistration {
  reg_decision : ApprovalDecision; reg_publication : ApprovalRequiredPublication }.

(** An approval the store already holds for the call *)
Record DurableApproval : Type := MkDurable {
  da_class : ApprovalClass; da_kind : ToolApprovalKind; da_preview : option ToolActionPreview;
  da_judge : option AutoJudgeStatus }.

Record PendingCall : Type := MkPending { p_call_id : Z; p_provider_id : string; p_name : string; p_args : string }.

(** The required card, as the gate announces it *)
Record ApprovalRequired : Type := MkRequired {
  rq_auto_judging : bool; rq_call_id : Z; rq_tool_name : string; rq_class : ApprovalClass;
  rq_kind : ToolApprovalKind; rq_scopes : list GrantScope; rq_preview : option ToolActionPreview }.

(** A child the model asked for (agent/types.rs); its arguments are JSON. *)
Record SandboxAgentSpawnRequest (Number : Type) : Type := MkSpawn {
  sp_call_id : Z; sp_provider_id : string; sp_child_run_id : Z; sp_task : string; sp_arguments : json Number;
  sp_approval_gated : bool }.
Arguments MkSpawn {_} _ _ _ _ _ _.
Arguments sp_call_id {_} _.
Arguments sp_provider_id {_} _.
Arguments sp_child_run_id {_} _.
Arguments sp_task {_} _.
Arguments sp_arguments {_} _.
Arguments sp_approval_gated {_} _.
Inductive SandboxSpawnGate (Number : Type) : Type :=
  | Admit (request : SandboxAgentSpawnRequest Number) | Declined (output : ToolOutput).
Arguments Admit {_} _.
Arguments Declined {_} _.
Inductive ResolveToolCallOutcome : Type := CallResolved | CallExisting | CallNotFound | CallAlreadyTerminal | CallLeaseLost.
Definition debug_outcome (o : ResolveToolCallOutcome) : string :=
  match o with
  | CallResolved => "Resolved" | CallExisting => "Existing" | CallNotFound => "NotFound"
  | CallAlreadyTerminal => "AlreadyTerminal" | CallLeaseLost => "LeaseLost"
  end.

(** When the cancellation token is read *)
Inductive Moment : Type :=
  | Registering | Deciding | AfterDecision | BeforeExecution | DuringExecution.

Section Gate.
Context `{UnicodeLower, RegexEngine} {Number : Type} `{HJ : SerdeJson Number}.
Implicit Types arguments : json Number.

Record Tool : Type := MkTool {
  approval_class : ApprovalClass; schema_text : string; execute : json Number -> result string ToolOutput }.

(** The turn a call runs in *)
Record Turn : Type := MkTurnContext {
  tools : string -> option Tool; schema_mismatch : string -> json Number -> option string;
  chat : Z; project : option Z; permission_mode : option PermissionMode; sees_images : bool;
  standing_grants : StandingGrants;
  steer_lease : option Z; flushed : bool; proposed_ordinal : result unit (option Z);
  register : ApprovalRequest -> option ApprovalJournalIdentity -> ApprovalRegistration;
  publishes : Z -> bool; cancelled : Moment -> bool }.

(** What a run of the gate did *)
Record Ran : Type := MkRan {
  output : ToolOutput; asked : option ApprovalRequest; announced : list ApprovalRequired;
  executed : option (json Number) }.
Definition refusal (o : ToolOutput) : Ran := MkRan o None [] None.

(** [call_action_preview] *)
Definition call_action_preview (call : PendingCall) : option ToolActionPreview :=
  match json_from_str (p_args call) with Some args => build (p_name call) args | None => None end.

Definition gate_required (durable : option DurableApproval) (class : ApprovalClass) (mode : PermissionMode) : bool :=
  is_some durable
  || match class with
     | ReadOnly => false
     | Workspace => bool_decide (mode = ModeAsk)
     | Sensitive => negb (bool_decide (mode = ModeAllow))
     end.

(** The journal slot a registration proposes, or why there is none *)
Definition journal_identity (t : Turn) : result string (option ApprovalJournalIdentity) :=
  if is_some (steer_lease t) && negb (flushed t) then Err "approval event journal is unavailable" else
  match steer_lease t, proposed_ordinal t with
  | _, Err _ => Err "approval event journal is unavailable"
  | Some lease, Ok (Some ordinal) => Ok (Some (MkJournalIdentity lease ordinal))
  | None, Ok None => Ok None
  | _, _ => Err "approval event journal identity is invalid"
  end.

(** What is announced of a registration, or why the announcement failed *)
Definition announce (t : Turn) (required : ApprovalRequired) (p : ApprovalRequiredPublication)
  : result string (list ApprovalRequired) :=
  match p with
  | Ordinary => Ok [required]
  | Committed ordinal =>
      if publishes t ordinal then Ok [required] else Err "approval event publication is unavailable"
  | Recovered ordinal => if publishes t ordinal then Ok [] else Err "approval event recovery is unavailable"
  | NoPublication | ByStandingGrant => Ok []
  end.

(** The question a call parks on: what was asked and announced, and the refusal
    unless the answer is yes *)
Definition ask (t : Turn) (turn_id : Z) (call : PendingCall) (durable : option DurableApproval)
    (class : ApprovalClass) (kind_for_call : ToolApprovalKind) (action : option ToolActionPreview)
    (mode : PermissionMode) arguments : option ApprovalRequest * list ApprovalRequired * option ToolOutput :=
  let kind := match durable with Some a => da_kind a | None => kind_for_call end in
  let auto_judge := bool_decide (mode = ModeAuto) && negb (is_some durable)
                    && is_auto_judge_candidate kind (p_name call) arguments in
  let auto_judging := match durable with Some a => bool_decide (da_judge a = Some Judging) | None => auto_judge end in
  let preview := match durable with Some a => da_preview a | None => action end in
  match journal_identity t with
  | Err e => (None, [], Some (tool_error e))
  | Ok journal =>
      let request := MkApproval (p_call_id call) (chat t) turn_id (p_name call) class kind preview auto_judge in
      if cancelled t Registering
      then (Some request, [], Some (failed UserCancelled "turn cancelled while registering approval")) else
      let registration := register t request journal in
      let required := MkRequired auto_judging (p_call_id call) (p_name call) class kind
                        (mintable_ladder_for kind (p_name call) arguments) preview in
      match announce t required (reg_publication registration) with
      | Err e => (Some request, [], Some (tool_error e))
      | Ok announced =>
          (Some request, announced,
           if cancelled t Deciding then Some (failed UserCancelled "turn cancelled while awaiting approval") else
           match reg_decision registration with
           | Reject reason => Some (failed UserDeclined reason)
           | Approve =>
               if cancelled t AfterDecision then Some (failed UserCancelled "turn cancelled while awaiting approval")
               else None
           end)
      end
  end.

(** The execution itself, cut to what a record may hold *)
Definition execute_tool (t : Turn) (tool : Tool) arguments : ToolOutput :=
  let output :=
    if cancelled t DuringExecution then failed UserCancelled "turn cancelled during tool execution" else
    match execute tool arguments with Ok output => output | Err e => tool_error e end in
  match truncate_to_bytes (fun _ => "") (out_content output) MAX_RESULT_BYTES None with
  | Some bounded => set_content output bounded
  | None => output
  end.

(** [Agent::run_tool] *)
Definition run_tool (t : Turn) (turn_id : Z) (call : PendingCall) (durable : option DurableApproval) : Ran :=
  match tools t (p_name call) with
  | None => refusal (failed NotFound ("unknown tool: " +:+ p_name call))
  | Some tool =>
      match parse_tool_args (p_args call) with
      | None => refusal (failed InvalidArguments
          ("arguments for " +:+ p_name call +:+ " were not valid JSON; re-send the call with arguments matching this schema: "
           +:+ schema_text tool))
      | Some arguments =>
          match schema_mismatch t (p_name call) arguments with
          | Some mismatch => refusal (failed InvalidArguments
              ("arguments for " +:+ p_name call +:+ " do not satisfy its schema: " +:+ mismatch
               +:+ "; re-send the call with arguments matching this schema: " +:+ schema_text tool))
          | None =>
              let class := match durable with Some a => da_class a | None => approval_class tool end in
              if negb (is_some durable) && bool_decide (permission_mode t = Some ModePlan)
                 && negb (bool_decide (class = ReadOnly))
              then refusal (failed NotFound
                (p_name call +:+ " is not available in plan mode; this chat is read-only until the reader leaves plan mode. Continue with read-only tools."))
              else if negb (sees_images t) && String.eqb (p_name call) COMPUTER_CAPTURE_SCREEN_TOOL
              then refusal (failed ConfigurationRequired
                "computer_capture_screen needs a model that accepts image input; the selected model is text-only. Read the app with computer_read_app_content (which returns text) or switch to a model with image input.")
              else
                let kind_for_call := for_call (p_name call) class in
                let action := call_action_preview call in
                let bypass := negb (is_some durable)
                  && any_covers (standing_grants t) (chat t) (project t) (p_name call) kind_for_call arguments in
                let mode := default ModeAsk (permission_mode t) in
                let '(asked, announced, refused) :=
                  if gate_required durable class mode && negb bypass
                  then ask t turn_id call durable class kind_for_call action mode arguments
                  else (None, [], None) in
                match refused with
                | Some o => MkRan o asked announced None
                | None =>
                    if cancelled t BeforeExecution
                    then MkRan (failed UserCancelled "turn cancelled before tool execution") asked announced None
                    else MkRan (execute_tool t tool arguments) asked announced (Some arguments)
                end
          end
      end
  end.

(** ** Delegation *)

(** How a call's row is closed; the gate never cancels one. *)
Inductive ToolCallResolution : Type :=
  | Completed (text : string)
  | Failed (text error_code : string) (error_detail : option string)
  | Cancelled (text : string).
Definition spawn_resolution (o : ToolOutput) : ToolCallResolution :=
  if out_is_error o
  then Failed (out_content o) (error_category_as_str (default ToolFailed (out_category o))) None
  else Completed (out_content o).

(** The row a gated spawn parks on: what an earlier attempt committed for it,
    and how the store closes it *)
Record SpawnRow : Type := MkSpawnRow {
  accepted : result AgentError (option ToolOutput);
  resolve_row : ToolCallResolution -> result AgentError ResolveToolCallOutcome; show_call_id : Z -> string }.

(** [settle_gated_spawn] *)
Definition settle_gated_spawn (row : SpawnRow) (call_id : Z) (o : ToolOutput) : result AgentError (SandboxSpawnGate Number) :=
  match resolve_row row (spawn_resolution o) with
  | Err e => Err e
  | Ok (CallResolved | CallExisting) => Ok (Declined o)
  | Ok outcome =>
      Err (ErrorKinds.Store ("refused delegation " +:+ show_call_id row call_id +:+ " could not be resolved: " +:+ debug_outcome outcome))
  end.

Definition spawn_journal (t : Turn) : result string (option ApprovalJournalIdentity) :=
  if is_some (steer_lease t) && negb (flushed t) then Err "approval event journal is unavailable" else
  match steer_lease t, proposed_ordinal t with
  | Some lease, Ok (Some ordinal) => Ok (Some (MkJournalIdentity lease ordinal))
  | None, Ok None => Ok None
  | _, _ => Err "approval event journal identity is invalid"
  end.

(** Why a delegation does not happen, if it does not *)
Definition ask_spawn (t : Turn) (turn_id : Z) (network : NetworkPolicy) (request : SandboxAgentSpawnRequest Number)
  : list ApprovalRequired * option ToolOutput :=
  let kind := DelegateMayRunBackgroundAgent in
  let preview := Some (DelegateAgentAction (sp_task request) network) in
  match spawn_journal t with
  | Err e => ([], Some (tool_error e))
  | Ok journal =>
      let ask := MkApproval (sp_call_id request) (chat t) turn_id SPAWN_SANDBOX_AGENT_TOOL Sensitive kind preview false in
      if cancelled t Registering
      then ([], Some (failed UserCancelled "turn cancelled while registering delegation approval")) else
      let registration := register t ask journal in
      let required := MkRequired false (sp_call_id request) SPAWN_SANDBOX_AGENT_TOOL Sensitive kind
                        (mintable_ladder_for kind SPAWN_SANDBOX_AGENT_TOOL (sp_arguments request)) preview in
      match announce t required (reg_publication registration) with
      | Err e => ([], Some (tool_error e))
      | Ok announced =>
          (announced,
           if cancelled t Deciding then Some (failed UserCancelled "turn cancelled while awaiting delegation approval") else
           match reg_decision registration with
           | Reject reason => Some (failed UserDeclined reason)
           | Approve =>
               if cancelled t AfterDecision then Some (failed UserCancelled "turn cancelled after delegation approval")
               else None
           end)
      end
  end.

(** [Agent::gate_sandbox_spawn]: the answer, and the cards announced *)
Definition gate_sandbox_spawn (t : Turn) (turn_id : Z) (network : NetworkPolicy) (row : SpawnRow)
    (request : SandboxAgentSpawnRequest Number) : result AgentError (SandboxSpawnGate Number * list ApprovalRequired) :=
  let mode := default ModeAsk (permission_mode t) in
  let declined announced o :=
    match settle_gated_spawn row (sp_call_id request) o with Err e => Err e | Ok g => Ok (g, announced) end in
  if bool_decide (mode = ModeAllow)
     || any_covers (standing_grants t) (chat t) (project t) SPAWN_SANDBOX_AGENT_TOOL DelegateMayRunBackgroundAgent
          (sp_arguments request)
  then Ok (Admit request, [])
  else match accepted row with
       | Err e => Err e
       | Ok (Some committed) => declined [] committed
       | Ok None =>
           match ask_spawn t turn_id network request with
           | (announced, Some refused) => declined announced refused
           | (announced, None) =>
               Ok (Admit (MkSpawn (sp_call_id request) (sp_provider_id request) (sp_child_run_id request)
                            (sp_task request) (sp_arguments request) true), announced)
           end
       end.
End Gate.
