(* ===== verification/ApprovalTheorems.v ===== *)
(** * Consent: theorems

    What a person is asked, what an answer that is remembered covers, and what
    the automatic judge may be offered.  Two theorems state defects. *)
From S2P Require Import Prelude RustStr Json ErrorKinds TurnTables Transcript.
From S2P Require Import ShellPolicy PolicyFacts ToolPreview Approvals ToolGate.

Open Scope tb_scope.

Section Consent.
Context `{UnicodeLower, RegexEngine} {Number : Type}.
Implicit Types (arguments granted asked : json Number) (scope : GrantScope).

(** C27: A scope the server lets a call be granted at ends the asking.  Each
    scope of the ladder that may be minted for a call, which is what the event
    and the row of its card list, makes a grant for the chat, at the level the
    chat lives on, that covers the very call the card is about.  (The rungs the
    approvals route shows are rebuilt from the preview, and are another list.) *)
Theorem an_offered_scope_ends_the_asking k tool_name arguments scope chat_id project_id at_ :
  scope ∈ mintable_ladder_for k tool_name arguments ->
  exists g, scoped (level_for_chat chat_id project_id) tool_name k scope at_ = Some g
    /\ grant_covers g chat_id project_id tool_name k arguments = true.
Proof.
  unfold mintable_ladder_for. intros Hin. apply list_elem_of_In, filter_In in Hin as [Hin Hk].
  apply list_elem_of_In, ladder_covers in Hin. unfold scoped. rewrite Hk. eexists. split; [done|].
  unfold grant_covers. cbn. rewrite Hin, String.eqb_refl, bool_decide_eq_true_2 by done.
  unfold grantable_at, is_standing_grantable in Hk. destruct (is_approvable k); [|done].
  destruct project_id; cbn; rewrite ?Z.eqb_refl, ?bool_decide_eq_true_2 by done; done.
Qed.

(** C16: An answer to exactly one action covers that action only.  A grant of
    the action shown for one call, which shows the call exactly as the server
    requires of such a grant, covers another call only when that is described
    exactly too and every field and list that makes up the action is the same in
    both, before any clamp: no two different calls are covered alike. *)
Theorem an_exact_grant_covers_one_action tool_name granted asked action :
  describes_exactly tool_name granted = true -> build tool_name granted = Some action ->
  covers_call (ExactAction action) tool_name asked = true ->
  describes_exactly tool_name asked = true
  /\ action_fields tool_name asked = action_fields tool_name granted.
Proof.
  intros Hg Hb Hc. cbn in Hc. destruct (describes_exactly tool_name asked) eqn:Ha; cbn in Hc; [|done].
  split; [done|]. destruct (exact_description _ _ Hg) as (? & Hb' & <-). rewrite Hb in Hb'. injection Hb' as <-.
  destruct (exact_description _ _ Ha) as (b & Hb' & <-). rewrite Hb' in Hc.
  assert (Hsame : without_summary action = without_summary b).
  { destruct b; try exact (bool_decide_eq_true_1 _ Hc).
    apply andb_true_iff in Hc as [Hc _]. exact (bool_decide_eq_true_1 _ Hc). }
  by rewrite <- shown_without_summary, <- Hsame, shown_without_summary.
Qed.

(** ** Commands *)

(** A program that is not an interpreter, in a form that neither enables
    execution nor destroys, with arguments that name nothing sensitive and do
    not climb out of the folder *)
Definition vetted (command : string) (args : list string) : Prop :=
  is_interpreter command = false /\ is_execution_enabling command args = false
  /\ is_destructive command args = false
  /\ Forall (fun arg => hits_sensitive arg = false /\ climbs_out arg = false) args.

Lemma slot_words_map l : slot_words (map SlotWord l) = l.
Proof. induction l as [|x l IH]; cbn; [done|]. by rewrite IH. Qed.

Lemma allowed_is_vetted rule command args :
  allows_alone rule (exec_argv command args) = true ->
  vetted command args /\ rule_may_cover (kind rule) command = true.
Proof.
  unfold allows_alone, grants_alone. intros Ha%bool_decide_eq_true.
  apply evaluate_allows in Ha as (Hf & He & Hc).
  destruct Hf as [Hf _]. apply Forall_cons in Hf as [(Hi & _) _].
  destruct He as (_ & He & _). apply Forall_cons in He as [He _].
  apply Forall_cons in Hc as [(r & Hr & Hmay & _) _]. apply list_elem_of_singleton in Hr as ->.
  split; [|done]. pose proof He as (Hx & Hd & _). split_and!; [done..|].
  apply (leaf_arguments Resolved _) in He; [done|]. apply slot_words_map.
Qed.

Lemma exec_description arguments : describes_exactly "exec" arguments = true ->
  exists command args cwd files s, build "exec" arguments = Some (ExecAction command args cwd files s)
    /\ get_str arguments "command" = Some command /\ said_list (json_get arguments "args") = args.
Proof.
  intros Hd. destruct (exact_description _ _ Hd) as (action & Hb & Hf).
  assert (Hx : exists command args cwd files s, action = ExecAction command args cwd files s).
  { unfold build in Hb. cbn -[clamp clamped_list clamped_field clamped_summary] in Hb.
    repeat (apply bind_Some in Hb as (? & ? & Hb)). injection Hb as <-. eauto 6. }
  destruct Hx as (command & args & cwd & files & s & ->). unfold action_fields in Hf. cbn -[said_list] in Hf.
  injection Hf as H1 _ H3 _. rewrite <- H1, <- H3. eauto 10.
Qed.

(** C10: A command that runs on a remembered answer, or is offered to the
    judge, cleared the analyzer as it is: when a call is described exactly, its
    literal program is no interpreter, its form neither enables execution nor
    destroys, and none of its arguments names a sensitive path or climbs out.
    The judge is never offered a program that can run anything or that runs
    code handed to it. *)
Theorem consented_commands_are_vetted scope arguments :
  describes_exactly "exec" arguments = true ->
  covers_call scope "exec" arguments = true
  \/ is_auto_judge_candidate ExecMayRunNetworkedCommand "exec" arguments = true ->
  exists command, get_str arguments "command" = Some command
    /\ vetted command (said_list (json_get arguments "args"))
    /\ (is_auto_judge_candidate ExecMayRunNetworkedCommand "exec" arguments = true ->
         is_exact_only command = false /\ runs_supplied_code command = false).
Proof.
  intros Hd Hc. destruct (exec_description _ Hd) as (command & args & cwd & files & s & Hb & Hg & Hs).
  exists command. rewrite Hs. split; [done|].
  assert (Hj : is_auto_judge_candidate ExecMayRunNetworkedCommand "exec" arguments = true ->
    vetted command args /\ is_exact_only command = false /\ runs_supplied_code command = false).
  { unfold is_auto_judge_candidate. rewrite Hd, Hb. cbn [is_auto_judgeable negb orb].
    intros [Hv [H1 H2]%andb_true_iff]%allowed_is_vetted. apply negb_true_iff in H1, H2. auto. }
  split; [|by intros [_ ?]%Hj]. destruct Hc as [Hc|[Hv _]%Hj]; [|done].
  assert (Hv : exists rule, allows_alone rule (exec_argv command args) = true).
  { assert (Hcov : covers_argv scope (ExecAction command args cwd files s) command args = true).
    { unfold covers_call in Hc. rewrite Hd, Hb in Hc. by destruct scope. }
    unfold covers_argv in Hcov. apply andb_true_iff in Hcov as [_ Hcov]. case_match; eauto; done. }
  by destruct Hv as [rule [? _]%allowed_is_vetted].
Qed.

(** The arguments of an exec call *)
Definition exec_call (command : string) (args : list string) : json Number :=
  JObject [("args", JArray (map JString args)); ("command", JString command)].

(** But a description that lost something is not looked at.  A grant for
    the whole tool, which a card offers for a harmless command, covers every
    interpreter call one of whose arguments does not survive the clamp: a line
    break or 513 characters are enough.  The analyzer denies the same command
    whatever the rules. *)
Lemma a_whole_tool_grant_skips_the_floor command args chat_id project_id at_ rs :
  is_interpreter command = true -> existsb (fun a => negb (survives_clamp a)) args = true ->
  (exists g, scoped (level_for_chat chat_id project_id) "exec" ExecMayRunNetworkedCommand WholeTool at_ = Some g
    /\ grant_covers g chat_id project_id "exec" ExecMayRunNetworkedCommand (exec_call command args) = true)
  /\ verdict (analyze_argv (exec_argv command args) rs) = Deny.
Proof.
  intros Hi Ha. split.
  - eexists. split; [done|]. unfold grant_covers. cbn [g_level g_tool_name g_kind g_scope].
    assert (Hl : reaches (level_for_chat chat_id project_id) chat_id project_id = true)
      by (destruct project_id; cbn; rewrite ?Z.eqb_refl, ?bool_decide_eq_true_2 by done; done).
    rewrite Hl, bool_decide_eq_true_2 by done. cbn [andb is_approvable]. unfold covers_call.
    assert (Hd : describes_exactly "exec" (exec_call command args) = false); [|by rewrite Hd].
    assert (Hl' : list_survives_clamp (Some (JArray (map JString args) : json Number)) = false).
    { cbn -[survives_clamp]. apply andb_false_iff. right. clear -Ha. induction args as [|a args IH]; [done|].
      cbn -[survives_clamp] in *. destruct (survives_clamp a); [by apply IH|done]. }
    unfold describes_exactly. cbn -[survives_clamp list_survives_clamp field_survives_clamp]. rewrite Hl'.
    by rewrite andb_false_r.
  - apply evaluate_denies. intros [Hf _]. apply Forall_cons in Hf as [(Hn & _) _].
    change (is_interpreter command = false) in Hn. by rewrite Hi in Hn.
Qed.

(** ** Rungs *)

(** The rung a narrated call is offered is refused when it is chosen.  A
    model's sentence about its call changes none of the rungs a card offers,
    "exactly this action" among them; but the scope that rung names is built
    with the sentence and looked up in a ladder without it. *)
Lemma a_narrated_exact_rung_is_refused action note :
  summary_of action = Some note ->
  grant_scope RungExactAction (Some action) true = None
  /\ forall k, approval_grant_rungs k (Some action) true = approval_grant_rungs k (Some (without_summary action)) true
  /\ (RungExactAction ∈ approval_grant_rungs k (Some action) true ->
       grant_scope RungExactAction (Some (without_summary action)) true = Some (ExactAction (without_summary action))).
Proof.
  intros Hs.
  assert (Hl : ladder_for_action (without_summary action) = ladder_for_action action) by (by destruct action).
  assert (Hne : action <> without_summary action) by (destruct action; cbn in *; congruence).
  assert (Hin : forall a, ExactAction a ∈ ladder_for_action action -> a = without_summary action).
  { intros a. destruct action; cbn in *; try done; try (set_unfold; naive_solver).
    - rewrite dedup_elem, list_elem_of_fmap. intros (rule & Hr & _). unfold rung_scope in Hr. destruct (kind rule); congruence.
    - unfold place_ladder. repeat case_match; set_unfold; naive_solver. }
  split; [|intros k; split].
  - unfold grant_scope. cbn -[ladder_for_action]. rewrite bool_decide_eq_false_2; [done|]. by intros ?%Hin.
  - unfold approval_grant_rungs. by rewrite Hl.
  - unfold approval_grant_rungs, grant_rungs_from_scopes, grant_scope. cbn -[ladder_for_action]. rewrite Hl.
    intros (scope & Hsc & Hr)%list_elem_of_omap. apply list_elem_of_In, filter_In in Hsc as [Hsc _].
    apply list_elem_of_In in Hsc. destruct scope; try done. rewrite bool_decide_eq_true_2; [done|].
    by rewrite <- (Hin _ Hsc).
Qed.

(** A grant about a place stays in its place.  What it covers is a write
    whose path is shown whole; taken apart at the slashes, empty and dot parts
    dropped, the path starts with the grant's parts and goes on below them; it
    is not absolute and no part of it leads upwards. *)
Lemma a_place_grant_stays_in_its_place prefix tool_name arguments :
  covers_call (PathSubtree prefix) tool_name arguments = true ->
  exists path dir rest, tool_name = "write_file" /\ get_str arguments "path" = Some path
    /\ (exists note, build tool_name arguments = Some (WriteFileAction path note))
    /\ place_segments prefix = Some dir /\ place_segments path = Some (dir ++ rest)
    /\ starts_with path "/" = false /\ Forall segment (dir ++ rest).
Proof.
  cbn. unfold covers_workspace_place, names_place_exactly.
  intros [[->%String.eqb_eq Hc]%andb_true_iff Hp]%andb_true_iff.
  destruct (get_str arguments "path") as [path|] eqn:Hg; [|done].
  destruct (place_segments prefix) as [dir|] eqn:Hd; [|done].
  destruct (place_segments path) as [segs|] eqn:Hs; [|done].
  apply andb_true_iff in Hp as [Hlen Hall]. apply Nat.leb_le in Hlen.
  assert (Hpre : dir `prefix_of` segs).
  { clear -Hlen Hall. revert segs Hlen Hall. induction dir as [|x dir IH]; intros [|y segs]; cbn; try lia; intros.
    - apply prefix_nil. - apply prefix_nil.
    - apply andb_true_iff in Hall as [->%String.eqb_eq Hall]. apply prefix_cons, IH; [lia|done]. }
  destruct Hpre as [rest ->]. exists path, dir, rest. split_and!; try done.
  - unfold build. cbn -[clamp]. rewrite Hg. cbn -[clamp]. rewrite (clamp_survives _ Hc). cbn. eauto.
  - unfold place_segments in Hs. by destruct (starts_with path "/").
  - by apply place_segments_segment in Hs as [_ ?].
Qed.

(** No answer is remembered for what can change behind its name: an MCP
    server's tools, control of the user's apps, repository work and tools with
    no presentable meaning ask every time, whatever grants there are. *)
Lemma replaceable_tools_always_ask grants chat_id project_id tool_name class arguments :
  Forall (fun g => exists level name k scope at_, scoped level name k scope at_ = Some g) grants ->
  is_standing_grantable (for_call tool_name class) = false ->
  any_covers grants chat_id project_id tool_name (for_call tool_name class) arguments = false.
Proof.
  intros Hg Hk. apply existsb_false. eapply Forall_impl; [exact Hg|]. intros g (level & name & k & scope & at_ & Hs).
  unfold scoped in Hs. destruct (grantable_at k scope) eqn:Ek; [|done]. injection Hs as <-.
  unfold grant_covers. cbn. destruct (bool_decide (k = _)) eqn:Eb; [|by rewrite andb_false_r].
  apply bool_decide_eq_true in Eb as ->. unfold grantable_at in Ek. by rewrite Hk in Ek.
Qed.
End Consent.

(** ** The gate *)

Section Gate.
Context `{UnicodeLower, RegexEngine} {Number : Type} `{HJ : SerdeJson Number}.
Implicit Types (arguments : json Number) (t : Turn (Number := Number)).

(** The registry was asked about the call, and the answer was yes. *)
Definition said_yes t (request : ApprovalRequest) : Prop :=
  cancelled t Registering = false /\ cancelled t Deciding = false /\ cancelled t AfterDecision = false
  /\ exists journal, reg_decision (register t request journal) = Approve.

Lemma asked_yes t turn_id call durable class k action mode arguments req announced :
  ask t turn_id call durable class k action mode arguments = (req, announced, None) ->
  exists request, req = Some request /\ said_yes t request
    /\ ar_call_id request = p_call_id call /\ ar_chat_id request = chat t /\ ar_turn_id request = turn_id
    /\ ar_tool_name request = p_name call /\ ar_class request = class.
Proof.
  unfold ask. destruct (journal_identity t) as [journal|]; [|congruence].
  destruct (cancelled t Registering) eqn:Hr; [congruence|].
  destruct (announce _ _ _); [|congruence].
  destruct (cancelled t Deciding) eqn:Hd; [congruence|].
  destruct (reg_decision _) eqn:Hy; [|congruence].
  destruct (cancelled t AfterDecision) eqn:Ha; [congruence|]. injection 1 as <- <-.
  eexists. split; [done|]. unfold said_yes. eauto 10.
Qed.

Lemma asked_no t turn_id call durable class k action mode arguments req announced o :
  ask t turn_id call durable class k action mode arguments = (req, announced, Some o) -> out_is_error o = true.
Proof. unfold ask. intros Hask. repeat case_match; simplify_eq; done. Qed.

(** What a run of the gate answers to *)
Definition ran_with_consent t turn_id (call : PendingCall) (durable : option DurableApproval) (r : Ran (Number := Number)) arguments : Prop :=
  exists tool, tools t (p_name call) = Some tool /\ parse_tool_args (p_args call) = Some arguments
  /\ schema_mismatch t (p_name call) arguments = None /\ cancelled t BeforeExecution = false
  /\ let class := match durable with Some a => da_class a | None => approval_class tool end in
     (durable = None -> permission_mode t = Some ModePlan -> class = ReadOnly)
     /\ (gate_required durable class (default ModeAsk (permission_mode t)) = false
         \/ durable = None /\ any_covers (standing_grants t) (chat t) (project t) (p_name call)
                                (for_call (p_name call) class) arguments = true
         \/ exists request, asked r = Some request /\ said_yes t request
              /\ ar_call_id request = p_call_id call /\ ar_chat_id request = chat t
              /\ ar_turn_id request = turn_id /\ ar_tool_name request = p_name call /\ ar_class request = class).

(** C2: Nothing runs without consent.  A tool runs on the arguments of the call
    only: they parsed, satisfy the schema the model was shown, and the turn was
    not cancelled; in a plan turn a call without a recovered decision only reads;
    and unless the mode lets its class through, a standing grant covers the call
    or the registry was asked about this very call and the answer, which no
    cancellation overtook, was yes.  A recovered call, which keeps the class its
    card was put up with, is asked about whatever the mode and the grants.  A
    call that does not run is answered with an error. *)
Theorem nothing_runs_without_consent t turn_id call durable :
  let r := run_tool t turn_id call durable in
  match executed r with
  | Some arguments => ran_with_consent t turn_id call durable r arguments
  | None => out_is_error (output r) = true
  end.
Proof.
  cbn zeta. unfold run_tool.
  destruct (tools t _) as [tool|] eqn:Ht; [|done].
  destruct (parse_tool_args _) as [arguments|] eqn:Hp; [|done].
  destruct (schema_mismatch t _ _) eqn:Hs; [done|].
  destruct (negb (is_some durable) && _ && _) eqn:Hplan; [done|].
  destruct (negb (sees_images t) && _); [done|].
  set (class := match durable with Some a => da_class a | None => approval_class tool end) in *.
  assert (Hro : durable = None -> permission_mode t = Some ModePlan -> class = ReadOnly).
  { intros Hd Hm. subst durable. rewrite Hm in Hplan. cbn in Hplan. by apply negb_false_iff, bool_decide_eq_true in Hplan. }
  destruct (gate_required durable class _ && _) eqn:Hgate.
  - destruct (ask _ _ _ _ _ _ _ _ _) as [[req announced] [o|]] eqn:Hask; [by eapply asked_no|].
    destruct (cancelled t BeforeExecution) eqn:Hc; [done|]. cbn.
    exists tool. do 4 (split; [done|]). split; [done|]. right. right. by eapply asked_yes.
  - destruct (cancelled t BeforeExecution) eqn:Hc; [done|]. cbn. exists tool.
    do 4 (split; [done|]). split; [done|]. apply andb_false_iff in Hgate as [?|Hb]; [by left|]. right. left.
    apply negb_false_iff, andb_true_iff in Hb as [Hd ?]. by destruct durable.
Qed.

(** ** Delegation *)


End Gate.
