(* ===== verification/ApprovalStore.v ===== *)
(** * Consent: the rows a card is kept in, and their transactions

    tidebreak-core: what an approval asks and how it is decided (code/mod.rs,
    code/event.rs), the rows of [approval] and [standing_tool_grant]
    (db/entities.rs, db/migration/baseline/tools.rs and code.rs), and the card
    read back from a row and its call; then db/ops/approval.rs and
    db/ops/code/approval.rs: how a card is put up, decided, claimed, judged,
    granted and swept, each operation as one transaction over the tables it
    touches.

    A JSON column holds what [serde_json] makes of a value; reading one may
    fail, reading back what was written does not.  Identities are numbers, nil
    is 0, times nanoseconds.  Of an actor the context of a trigger is left out,
    of a session the columns no operation here reads.  Transactions are serial,
    which is what the chat and call locks provide.  Clocks and identities drawn
    are arguments.  The search index and the broadcast of a row are left out. *)
From stdpp Require Import gmap.
From stdpp Require Import gmap sorting.
From S2P Require Import Prelude RustStr ShellPolicy TurnTables Json Transcript ToolPreview Approvals.
From S2P Require Import ToolGate.

Open Scope Z_scope.

(** ** What a card asks and how it ends *)

Inductive ApprovalState : Type := Pending | Approved | Denied | Abandoned.
#[export] Instance ApprovalState_eq_dec : EqDecision ApprovalState.
Proof. solve_decision. Defined.
Definition state_as_str (s : ApprovalState) : string :=
  match s with Pending => "pending" | Approved => "approved" | Denied => "denied" | Abandoned => "abandoned" end.
Definition state_from_str (value : string) : option ApprovalState :=
  List.find (fun s => String.eqb value (state_as_str s)) [Pending; Approved; Denied; Abandoned].

Definition judge_as_str (s : AutoJudgeStatus) : string :=
  match s with Judging => "judging" | JudgeApproved => "approved" | JudgeDeclined => "declined" end.
Definition judge_from_str (value : string) : option AutoJudgeStatus :=
  List.find (fun s => String.eqb value (judge_as_str s)) [Judging; JudgeApproved; JudgeDeclined].

Inductive SessionLifecycle : Type := SessionCreated | SessionIdle | SessionRunning | SessionFenced | SessionEnded.
Definition lifecycle_as_str (l : SessionLifecycle) : string :=
  match l with
  | SessionCreated => "created" | SessionIdle => "idle" | SessionRunning => "running"
  | SessionFenced => "fenced" | SessionEnded => "ended"
  end.

Inductive UserQuestionType : Type := SingleSelect | MultiSelect.
Record UserQuestionOption : Type := MkOption { op_id : string; op_label : string; op_description : string }.
Record UserQuestion : Type := MkQuestion {
  uq_id : string; uq_header : string; uq_question : string; uq_options : list UserQuestionOption;
  uq_question_type : UserQuestionType; uq_allow_free_form : bool }.
Record UserQuestionAnswer : Type := MkAnswer {
  ua_question_id : string; ua_selected_option_ids : list string; ua_custom_answer : option string }.

Inductive ApprovalKind : Type :=
  | KindCommand (cmd : string) (cwd : option string)
  | KindFileWrite (paths : list string)
  | KindNetwork (summary : string)
  | KindOther (summary : string)
  | KindToolUse (preview : ToolActionPreview) (offered_grants : list GrantScope)
  | KindQuestions (questions : list UserQuestion)
  | KindPlan (proposed_mode : PermissionMode).

Inductive ApprovalDecisionKind : Type :=
  | DecApprove
  | DecDeny (feedback : option string)
  | DecAbandoned
  | DecApprovedWithGrant (scope : GrantScope)
  | DecAnswered (answers : list UserQuestionAnswer)
  | DecPlanDecided (approve : bool) (feedback : option string).

Inductive TriggerTurnSource : Type := SourceTrigger | SourceWatch.
Inductive CodeTriggerCondition : Type :=
  | OnChecksFailed | OnConflicts | OnChangesRequested | OnReviewRequired | OnBehind | OnReadyToMerge | OnMerged | OnClosed
  | OnPrOpened | OnPrUpdated.
Inductive PullRequestCheckBucket : Type := BucketPass | BucketPending | BucketFail | BucketSkipped.
Record PullRequestCheck : Type := MkPrCheck {
  check_name : string; check_bucket : PullRequestCheckBucket; check_detail : option string; check_url : option string }.
Record TriggerTurnContext : Type := MkTrigger {
  trigger_source : TriggerTurnSource; trigger_condition : CodeTriggerCondition; pr_number : N; pr_title : option string;
  pr_url : option string; head_sha : option string; failing_checks : list PullRequestCheck }.
Record TurnActor : Type := MkActor {
  actor_principal : option string; actor_display : option string;
  actor_channel_kind : option string; actor_external_identity : option string;
  actor_trigger : option TriggerTurnContext }.

(** [InternalToolApprovalRequest]: its presence marks a consent card. *)
Record InternalToolApprovalRequest : Type := MkRaw {
  raw_tool_name : string; raw_kind : ToolApprovalKind; granted_by : option Z }.

(** ** Journal rows *)

(** [InternalApprovalRequest]; the fields of a tool use in a record *)
Inductive InternalApprovalRequest : Type :=
  | AskToolUse (auto_judging : bool) (tool_name : string) (class : ApprovalClass) (approval : ToolApprovalKind)
      (grant_scopes : list GrantScope) (preview : option ToolActionPreview) (preview_truncated : bool)
  | AskQuestions (turn_id : Z)
  | AskPlan (turn_id : Z).
(** The rows approvals write; of any other only whether it is a chat event *)
Inductive JournalEvent : Type :=
  | ApprovalRequested (approval_id : Z) (request : option InternalApprovalRequest)
  | ApprovalResolved (approval_id : Z) (decision : ApprovalDecisionKind) (actor : option TurnActor)
  | OtherEvent (is_chat : bool).

(** [journal_row] of the card's event, and [decode_chat_event_required] of a
    row compared with one *)
Definition required_row (required : ApprovalRequired) : JournalEvent :=
  ApprovalRequested (rq_call_id required)
    (Some (AskToolUse (rq_auto_judging required) (rq_tool_name required) (rq_class required) (rq_kind required)
             (rq_scopes required) (rq_preview required) false)).
Definition decode_required (e : JournalEvent) : result AgentError (option ApprovalRequired) :=
  match e with
  | ApprovalRequested id (Some (AskToolUse judging tool_name class kind scopes preview _)) =>
      Ok (Some (MkRequired judging id tool_name class kind scopes preview))
  | ApprovalRequested _ (Some _) => Ok None
  | ApprovalResolved _ (DecApprove | DecApprovedWithGrant _ | DecDeny _ | DecAbandoned) _ => Ok None
  | OtherEvent true => Ok None
  | _ => Err (Store "journal receipt is not a chat event")
  end.

(** *** What a card outside the chat shows (code/event.rs) *)

Definition bound_preview_text (text : string) : string * bool :=
  if (MAX_ACTION_FIELD_CHARS <? length (chars text))%nat then (join "" (take MAX_ACTION_FIELD_CHARS (chars text)), true)
  else (text, false).
Definition at_field_cap (text : string) : bool := (MAX_ACTION_FIELD_CHARS <=? length (chars text))%nat.
Definition any_at_field_cap (fields : list string) : bool := existsb at_field_cap fields.

Definition preview_fields (a : ToolActionPreview) : list string :=
  match a with
  | ExecAction command args cwd files summary => [command; cwd] ++ args ++ files ++ option_list summary
  | SearchAction query summary => query :: option_list summary
  | WebSearchAction query domains from to summary =>
      query :: domains ++ option_list from ++ option_list to ++ option_list summary
  | WebExtractAction url summary => url :: option_list summary
  | WriteFileAction path summary => path :: option_list summary
  | DelegateAgentAction _ _ => []
  | CodeSessionAction _ target task harness model => [target; task] ++ option_list harness ++ option_list model
  end.

Definition bound_action_preview (a : ToolActionPreview) : ToolActionPreview * bool :=
  let already_cut := any_at_field_cap (preview_fields a) in
  let '(preview, truncated) :=
    match a with
    | ExecAction command args cwd files summary =>
        let '(command, t) := bound_preview_text command in (ExecAction command args cwd files summary, t)
    | SearchAction query summary => let '(query, t) := bound_preview_text query in (SearchAction query summary, t)
    | WebSearchAction query domains from to summary =>
        let '(query, t) := bound_preview_text query in (WebSearchAction query domains from to summary, t)
    | WebExtractAction url summary => let '(url, t) := bound_preview_text url in (WebExtractAction url summary, t)
    | WriteFileAction path summary => let '(path, t) := bound_preview_text path in (WriteFileAction path summary, t)
    | other => (other, false)
    end in
  (preview, truncated || already_cut).

Definition tool_name_for_preview (a : ToolActionPreview) : string :=
  match a with
  | ExecAction _ _ _ _ _ => "exec" | SearchAction _ _ => "search" | WebSearchAction _ _ _ _ _ => "web_search"
  | WebExtractAction _ _ => "web_extract" | WriteFileAction _ _ => "write_file"
  | DelegateAgentAction _ _ => SPAWN_SANDBOX_AGENT_TOOL
  | CodeSessionAction Create _ _ _ _ => "code_session_create"
  | CodeSessionAction Continue _ _ _ _ => "code_run_turn"
  end.
Definition class_for_preview (a : ToolActionPreview) : ApprovalClass :=
  match a with
  | ExecAction _ _ _ _ _ | WriteFileAction _ _ | DelegateAgentAction _ _ => Workspace
  | _ => Sensitive
  end.

Definition LINE_FEED : string := utf8 [10%nat].
(** [InternalApprovalRequest::from_kind] *)
Definition tool_use_card (auto_judging : bool) (preview : ToolActionPreview) (scopes : list GrantScope)
    (truncated : bool) : InternalApprovalRequest :=
  AskToolUse auto_judging (tool_name_for_preview preview) (class_for_preview preview)
    (for_tool_name (tool_name_for_preview preview)) scopes (Some preview) truncated.
Definition from_kind (k : ApprovalKind) (turn_id : Z) (auto_judging : bool) : InternalApprovalRequest :=
  match k with
  | KindToolUse preview offered_grants =>
      let '(preview, truncated) := bound_action_preview preview in
      tool_use_card auto_judging preview offered_grants truncated
  | KindQuestions _ => AskQuestions turn_id
  | KindPlan _ => AskPlan turn_id
  | KindCommand cmd cwd =>
      let '(command, truncated) := bound_preview_text cmd in
      tool_use_card auto_judging (ExecAction command [] (default "." cwd) [] None) [] truncated
  | KindFileWrite paths =>
      let '(path, path_truncated) := bound_preview_text (default "" (head paths)) in
      let '(summary, summary_truncated) :=
        if (1 <? length paths)%nat
        then let '(joined, t) := bound_preview_text (join LINE_FEED paths) in
             (Some (show_usize (length paths) +:+ " files:" +:+ LINE_FEED +:+ joined), t)
        else (None, false) in
      AskToolUse auto_judging "write_file" Workspace WorkspaceMayModifyFiles [] (Some (WriteFileAction path summary))
        (path_truncated || summary_truncated)
  | KindNetwork summary =>
      let '(url, truncated) := bound_preview_text summary in
      tool_use_card auto_judging (WebExtractAction url None) [] truncated
  | KindOther _ => AskToolUse auto_judging "other" Sensitive Unsupported [] None false
  end.

(** ** Columns *)

Class JsonColumn (A : Type) : Type := {
  column : Type; column_eq_dec :: EqDecision column;
  to_value : A -> column; from_value : column -> option A;
  from_to_value a : from_value (to_value a) = Some a }.
Arguments column A {_}.

(** serde_json on the three columns and on arguments, and uuid's [Display] *)
Class ApprovalColumns : Type := {
  WireNumber : Type; show_uuid : Z -> string;
  scope_column :: JsonColumn GrantScope;
  raw_column :: JsonColumn InternalToolApprovalRequest;
  kind_column :: JsonColumn ApprovalKind }.

Section Rows.
Context `{UnicodeLower, RegexEngine} `{AC : ApprovalColumns}.

(** [code::Approval] *)
Record Approval : Type := MkCard {
  cd_id : Z; cd_session_id : Z; cd_turn_id : Z; cd_kind : ApprovalKind;
  cd_harness_raw : column InternalToolApprovalRequest; cd_native_call_id : option string;
  cd_server_capability : option string; cd_request_sha256 : option string; cd_worker_epoch : option Z;
  cd_decision_claim : option Z; cd_claimed_at : option Z; cd_state : ApprovalState; cd_feedback : option string;
  cd_requested_at : Z; cd_decided_at : option Z; cd_auto_judge_status : option AutoJudgeStatus;
  cd_actor : option TurnActor }.

Record approval_row : Type := MkApprovalRow {
  ap_id : Z; ap_owner : string; ap_session_id : Z; ap_turn_id : Z; ap_kind : column ApprovalKind;
  ap_harness_raw : column InternalToolApprovalRequest; ap_native_call_id : option string;
  ap_server_capability : option string; ap_request_sha256 : option string; ap_worker_epoch : option Z;
  ap_decision_claim : option Z; ap_claimed_at : option Z; ap_state : string; ap_feedback : option string;
  ap_requested_at : Z; ap_decided_at : option Z; ap_auto_judge_status : option string; ap_actor : option TurnActor }.

(** The columns a settlement, a claim and the judge's marker write *)
Definition set_settled (state : string) (feedback : option string) (decided_at : Z) (actor : option TurnActor)
    (r : approval_row) : approval_row :=
  MkApprovalRow (ap_id r) (ap_owner r) (ap_session_id r) (ap_turn_id r) (ap_kind r) (ap_harness_raw r)
    (ap_native_call_id r) (ap_server_capability r) (ap_request_sha256 r) (ap_worker_epoch r) None None state feedback
    (ap_requested_at r) (Some decided_at) (ap_auto_judge_status r) actor.
Definition set_claim (epoch claim claimed_at : option Z) (r : approval_row) : approval_row :=
  MkApprovalRow (ap_id r) (ap_owner r) (ap_session_id r) (ap_turn_id r) (ap_kind r) (ap_harness_raw r)
    (ap_native_call_id r) (ap_server_capability r) (ap_request_sha256 r) epoch claim claimed_at (ap_state r)
    (ap_feedback r) (ap_requested_at r) (ap_decided_at r) (ap_auto_judge_status r) (ap_actor r).
Definition set_judge (judge : option string) (r : approval_row) : approval_row :=
  MkApprovalRow (ap_id r) (ap_owner r) (ap_session_id r) (ap_turn_id r) (ap_kind r) (ap_harness_raw r)
    (ap_native_call_id r) (ap_server_capability r) (ap_request_sha256 r) (ap_worker_epoch r) (ap_decision_claim r)
    (ap_claimed_at r) (ap_state r) (ap_feedback r) (ap_requested_at r) (ap_decided_at r) judge (ap_actor r).

Definition row_pending (r : approval_row) : bool := String.eqb (ap_state r) (state_as_str Pending).

Definition approval_active_model (owner : string) (a : Approval) : approval_row :=
  MkApprovalRow (cd_id a) owner (cd_session_id a) (cd_turn_id a) (to_value (cd_kind a)) (cd_harness_raw a)
    (cd_native_call_id a) (cd_server_capability a) (cd_request_sha256 a) (cd_worker_epoch a) (cd_decision_claim a)
    (cd_claimed_at a) (state_as_str (cd_state a)) (cd_feedback a) (cd_requested_at a) (cd_decided_at a)
    (judge_as_str <$> cd_auto_judge_status a) (cd_actor a).

Definition approval_from_row (r : approval_row) : result AgentError Approval :=
  match state_from_str (ap_state r) with
  | None => Err (Store ("approval " +:+ show_uuid (ap_id r) +:+ " has unknown state " +:+ ap_state r))
  | Some state =>
      match from_value (ap_kind r) with
      | None => Err (Store ("approval " +:+ show_uuid (ap_id r) +:+ " kind"))
      | Some kind =>
          let card judge :=
            MkCard (ap_id r) (ap_session_id r) (ap_turn_id r) kind (ap_harness_raw r) (ap_native_call_id r)
              (ap_server_capability r) (ap_request_sha256 r) (ap_worker_epoch r) (ap_decision_claim r)
              (ap_claimed_at r) state (ap_feedback r) (ap_requested_at r) (ap_decided_at r) judge (ap_actor r) in
          match ap_auto_judge_status r with
          | None => Ok (card None)
          | Some token =>
              match judge_from_str token with
              | Some judge => Ok (card (Some judge))
              | None => Err (Store ("approval " +:+ show_uuid (ap_id r) +:+ " has unknown auto-judge status " +:+ token))
              end
          end
      end
  end.

(** *** The card of a chat *)

(** [ToolApproval] *)
Record ToolApproval : Type := MkToolApproval {
  ta_call_id : Z; ta_chat_id : Z; ta_turn_id : Z; ta_tool_name : string; ta_class : ApprovalClass;
  ta_kind : ToolApprovalKind; ta_preview : option ToolActionPreview; ta_action_is_exact : bool;
  ta_by_standing_grant : bool; ta_judge : option AutoJudgeStatus; ta_status : ToolApprovalStatus;
  ta_reason : option string; ta_requested_at : Z; ta_decided_at : option Z }.

Definition ABANDONED_REASON : string := "turn ended before approval".
Definition CANCELLED_REASON : string := "turn cancellation revoked approval".

Definition class_of_kind (k : ToolApprovalKind) : ApprovalClass :=
  if bool_decide (k = WorkspaceMayModifyFiles) then Workspace else Sensitive.

Definition tool_status (state : ApprovalState) (feedback : option string) : ToolApprovalStatus * option string :=
  match state with
  | Pending => (StatusPending, None)
  | Approved => (StatusApproved, None)
  | Denied => (StatusRejected, Some (default DEFAULT_REJECT_REASON feedback))
  | Abandoned => (StatusRejected, Some ABANDONED_REASON)
  end.

Definition tool_approval_from_rows (r : approval_row) (call : ToolCallRecord WireNumber)
  : result AgentError ToolApproval :=
  match from_value (ap_harness_raw r) with
  | None => Err (Store ("approval " +:+ show_uuid (ap_id r) +:+ " is not a consent card"))
  | Some request =>
      if negb (String.eqb (raw_tool_name request) (c_name call))
      then Err (Store ("approval " +:+ show_uuid (ap_id r) +:+ " names tool " +:+ raw_tool_name request
                       +:+ " but its call is " +:+ c_name call)) else
      approval ← approval_from_row r;
      if is_some (granted_by request) && negb (bool_decide (cd_state approval = Approved))
      then Err (Store "non-approved tool call names a standing grant source") else
      let '(status, reason) := tool_status (cd_state approval) (cd_feedback approval) in
      Ok (MkToolApproval (ap_id r) (ap_session_id r) (ap_turn_id r) (c_name call) (class_of_kind (raw_kind request))
            (raw_kind request) (build (c_name call) (c_arguments call))
            (describes_exactly (c_name call) (c_arguments call)) (is_some (granted_by request))
            (cd_auto_judge_status approval) status reason (cd_requested_at approval) (cd_decided_at approval))
  end.

(** [ToolApproval::decision], and what the gate keeps of a recovered card *)
Definition card_decision (a : ToolApproval) : option ApprovalDecision :=
  match ta_status a with
  | StatusPending => None
  | StatusApproved => Some Approve
  | StatusRejected => Some (Reject (default DEFAULT_REJECT_REASON (ta_reason a)))
  end.
Definition durable_of (a : ToolApproval) : DurableApproval :=
  MkDurable (ta_class a) (ta_kind a) (ta_preview a) (ta_judge a).

(** ** Grants *)

Record grant_row : Type := MkGrantRow {
  gr_chat_id : option Z; gr_project_id : option Z; gr_tool_name : string; gr_kind : string;
  gr_scope : column GrantScope; gr_granted_at : Z }.

Definition grant_level_from_row (chat_id project_id : option Z) : option GrantLevel :=
  match chat_id, project_id with
  | Some chat_id, None => Some (LevelChat chat_id)
  | None, Some project_id => Some (LevelProject project_id)
  | _, _ => None
  end.

(** A row as the grant it stands for; one that no longer parses is none. *)
Definition grant_of_row (g : grant_row) : option StandingGrant :=
  kind ← from_standing_grant_key (gr_kind g);
  scope ← from_value (gr_scope g);
  level ← grant_level_from_row (gr_chat_id g) (gr_project_id g);
  scoped level (gr_tool_name g) kind scope (gr_granted_at g).

Definition MAX_LABEL_LEN : nat := 256.
Definition GRANT_KINDS : list ToolApprovalKind :=
  [SearchMayShareQueryAndExcerpts; WebSearchMayShareQuery; ExecMayRunNetworkedCommand; WebExtractMayFetchUrl;
   WorkspaceMayModifyFiles; DelegateMayRunBackgroundAgent].
(** The [CHECK]s of the table *)
Definition grant_row_ok (g : grant_row) : bool :=
  (1 <=? length (chars (gr_tool_name g)))%nat && (length (chars (gr_tool_name g)) <=? MAX_LABEL_LEN)%nat
  && str_mem (gr_kind g) (map standing_grant_key GRANT_KINDS)
  && xorb (is_some (gr_chat_id g)) (is_some (gr_project_id g)).
End Rows.

Open Scope Z_scope.

Section Store.
Context `{UnicodeLower, RegexEngine} `{AC : ApprovalColumns}.

(** ** The tables *)

(** A conversation: where it lives, and which worker has it *)
Record asession : Type := MkASession {
  as_owner : string; as_project : option Z; as_epoch : Z; as_lifecycle : string; as_internal : bool }.
Record aevent : Type := MkAEvent {
  ae_session_id : Z; ae_seq : Z; ae_owner : string; ae_event : JournalEvent; ae_turn_id : option Z;
  ae_lease_token : option Z; ae_ordinal : option Z; ae_terminal : bool }.

Record adb : Type := MkAdb {
  a_sessions : gmap Z asession; a_projects : gmap Z string; a_turns : gmap Z turn; a_claims : gmap Z claim;
  a_calls : gmap Z (ToolCallRecord WireNumber); a_approvals : gmap Z approval_row; a_grants : gmap Z grant_row;
  a_events : list aevent }.

Definition with_calls v (d : adb) : adb :=
  MkAdb (a_sessions d) (a_projects d) (a_turns d) (a_claims d) v (a_approvals d) (a_grants d) (a_events d).
Definition with_approvals v (d : adb) : adb :=
  MkAdb (a_sessions d) (a_projects d) (a_turns d) (a_claims d) (a_calls d) v (a_grants d) (a_events d).
Definition with_grants v (d : adb) : adb :=
  MkAdb (a_sessions d) (a_projects d) (a_turns d) (a_claims d) (a_calls d) (a_approvals d) v (a_events d).
Definition with_events v (d : adb) : adb :=
  MkAdb (a_sessions d) (a_projects d) (a_turns d) (a_claims d) (a_calls d) (a_approvals d) (a_grants d) v.

(** Transactions, as in [TurnTables] *)
Definition atxn (R A : Type) : Type := stm adb (abort R) A.
Definition abegin {R} (body : atxn R R) (d : adb) : result AgentError R * adb :=
  match body d with
  | Ok (a, d') => (Ok a, d')
  | Err (Rolled a) => (Ok a, d)
  | Err (Broke e) => (Err e, d)
  end.
Definition aerr {R A} (message : string) : atxn R A := fail (Broke (Store message)).
Definition atry {R A} (r : result AgentError A) : atxn R A :=
  match r with Ok a => mret a | Err e => fail (Broke e) end.
Definition arollback {R A} (answer : R) : atxn R A := fail (Rolled answer).

(** ** Statements *)

Definition find_approval_row_on {R} (id : Z) : atxn R (option approval_row) := d ← get; mret (a_approvals d !! id).
Definition insert_approval_on {R} (owner : string) (a : Approval) : atxn R unit :=
  d ← get;
  if is_some (a_approvals d !! cd_id a) then aerr "approval constraint violated"
  else modify (with_approvals (<[cd_id a := approval_active_model owner a]> (a_approvals d))).
Definition set_auto_judge_status_on {R} (id : Z) (status : option AutoJudgeStatus) : atxn R unit :=
  modify (fun d => with_approvals (alter (set_judge (judge_as_str <$> status)) id (a_approvals d)) d).
Definition session_row {R} (chat_id : Z) : atxn R asession :=
  d ← get;
  match a_sessions d !! chat_id with
  | Some s => mret s
  | None => aerr ("chat " +:+ show_uuid chat_id +:+ " does not exist")
  end.
Definition owner_new {R} (id : string) : atxn R string :=
  if owner_id_ok id then mret id else aerr "invalid owner id".

(** The journal: one counter for each session, one row for each slot of a lease *)
Definition next_seq_of (f : aevent -> bool) (l : list aevent) : option Z :=
  match List.filter f l with
  | [] => Some 1
  | e :: l' => checked_succ I64_MAX (foldr (fun e m => Z.max (ae_seq e) m) (ae_seq e) l')
  end.
Definition clash (e o : aevent) : bool :=
  (ae_session_id e =? ae_session_id o) && (ae_seq e =? ae_seq o)
  || same_some (ae_lease_token e) (ae_lease_token o) && same_some (ae_ordinal e) (ae_ordinal o).
Definition insert_aevent {R} (e : aevent) : atxn R unit :=
  d ← get;
  if existsb (clash e) (a_events d) then aerr "event constraint violated"
  else modify (with_events (a_events d ++ [e])).
Definition append_event_on_locked {R} (owner : string) (session_id : Z) (event : JournalEvent) : atxn R Z :=
  d ← get;
  match next_seq_of (fun e => String.eqb (ae_owner e) owner && (ae_session_id e =? session_id)) (a_events d) with
  | None => aerr ("event sequence exhausted for code session " +:+ show_uuid session_id)
  | Some seq => _ ← insert_aevent (MkAEvent session_id seq owner event None None None false); mret seq
  end.
(** [append_event_on] for the event of a card, which is not terminal *)
Definition append_required_on {R} (chat_id turn_id lease_token ordinal : Z) (required : ApprovalRequired) : atxn R Z :=
  d ← get;
  match next_seq_of (fun e => ae_session_id e =? chat_id) (a_events d), a_sessions d !! chat_id with
  | None, _ => aerr ("event sequence exhausted for chat " +:+ show_uuid chat_id)
  | _, None => aerr ("chat " +:+ show_uuid chat_id +:+ " does not exist")
  | Some seq, Some s =>
      _ ← insert_aevent (MkAEvent chat_id seq (as_owner s) (required_row required) (Some turn_id) (Some lease_token)
                           (Some ordinal) false);
      mret seq
  end.

(** ** Grants *)

Definition newer (g h : Z * grant_row) : Prop :=
  gr_granted_at h.2 < gr_granted_at g.2 \/ gr_granted_at h.2 = gr_granted_at g.2 /\ g.1 <= h.1.
#[export] Instance newer_dec g h : Decision (newer g h).
Proof. unfold newer. apply _. Defined.
(** [ORDER BY granted_at DESC]; ties by id *)
Definition grants_newest_first (d : adb) : list (Z * grant_row) := merge_sort newer (map_to_list (a_grants d)).

Definition matching_standing_grant (d : adb) (chat_id : Z) (project_id : option Z) (tool_name : string)
    (kind : ToolApprovalKind) (arguments : json WireNumber) : option Z :=
  if negb (is_standing_grantable kind) then None else
  find_map (fun '(id, g) =>
    if (same_some (gr_chat_id g) (Some chat_id) || is_some project_id && same_some (gr_project_id g) project_id)
       && String.eqb (gr_tool_name g) tool_name && String.eqb (gr_kind g) (standing_grant_key kind)
    then match grant_of_row g with
         | Some grant => if grant_covers grant chat_id project_id tool_name kind arguments then Some id else None
         | None => None
         end
    else None) (grants_newest_first d).

(** [owned_grants_condition] *)
Definition owned_grant (d : adb) (owner : string) (g : grant_row) : bool :=
  match gr_chat_id g with
  | Some chat => match a_sessions d !! chat with
                 | Some s => String.eqb (as_owner s) owner && as_internal s
                 | None => false
                 end
  | None => false
  end
  || match gr_project_id g with
     | Some p => match a_projects d !! p with Some o => String.eqb o owner | None => false end
     | None => false
     end.
Definition visible (d : adb) (owner : option string) (g : grant_row) : bool :=
  match owner with Some o => owned_grant d o g | None => true end.
Definition list_standing_grants (owner : option string) (d : adb) : list (Z * StandingGrant) :=
  omap (fun '(id, g) => if visible d owner g then (fun grant => (id, grant)) <$> grant_of_row g else None)
    (grants_newest_first d).
Definition revoke_standing_grant (source_call_id : Z) (owner : option string) (d : adb) : bool * adb :=
  match a_grants d !! source_call_id with
  | Some g => if visible d owner g then (true, with_grants (delete source_call_id (a_grants d)) d) else (false, d)
  | None => (false, d)
  end.

(** [mint_standing_grant_on] *)
Definition mint_standing_grant_on {R} (r : approval_row) (scope : GrantScope) (granted_at : Z) : atxn R unit :=
  match from_value (ap_harness_raw r) with
  | None => aerr ("approval " +:+ show_uuid (ap_id r) +:+ " offers no standing grant: it is not a consent card")
  | Some request =>
      d ← get;
      if is_some (a_grants d !! ap_id r) then mret tt else
      match a_calls d !! ap_id r with
      | None => aerr ("approval " +:+ show_uuid (ap_id r) +:+ " is parked on a call that does not exist")
      | Some call =>
          if negb (String.eqb (c_name call) (raw_tool_name request)) || negb (is_approvable (raw_kind request))
             || negb (grantable_at (raw_kind request) scope)
             || negb (covers_call scope (c_name call) (c_arguments call))
          then aerr ("approval " +:+ show_uuid (ap_id r) +:+ " cannot be granted at that scope") else
          let project := a_sessions d !! ap_session_id r ≫= as_project in
          let g := MkGrantRow (if is_some project then None else Some (ap_session_id r)) project (c_name call)
                     (standing_grant_key (raw_kind request)) (to_value scope) granted_at in
          if grant_row_ok g then modify (with_grants (<[ap_id r := g]> (a_grants d)))
          else aerr "standing grant constraint violated"
      end
  end.

(** ** Settlement *)

Inductive ApprovalClaim : Type := Unclaimed | ExactClaim (claim : Z).
Record ApprovalSettlement : Type := MkSettlement {
  st_approval : Approval; st_event : Z * JournalEvent }.

Definition decided_state (decision : ApprovalDecisionKind) : ApprovalState * option string :=
  match decision with
  | DecApprove | DecApprovedWithGrant _ | DecAnswered _ => (Approved, None)
  | DecDeny feedback => (Denied, feedback)
  | DecAbandoned => (Abandoned, None)
  | DecPlanDecided approve feedback => (if approve then Approved else Denied, feedback)
  end.
Definition holds (c : ApprovalClaim) (r : approval_row) : bool :=
  match c with
  | Unclaimed => negb (is_some (ap_decision_claim r))
  | ExactClaim claim => same_some (ap_decision_claim r) (Some claim)
  end.
(** The row a settlement updates *)
Definition settles (owner : string) (session_id worker_epoch : Z) (c : ApprovalClaim) (r : approval_row) : bool :=
  String.eqb (ap_owner r) owner && (ap_session_id r =? session_id)
  && same_some (ap_worker_epoch r) (Some worker_epoch) && row_pending r && holds c r.

Definition settle_approval_on_locked {R} (owner : string) (id session_id worker_epoch : Z) (c : ApprovalClaim)
    (decision : ApprovalDecisionKind) (decided_at : Z) (actor : option TurnActor)
  : atxn R (option ApprovalSettlement) :=
  d ← get;
  match a_approvals d !! id with
  | None => mret None
  | Some r =>
      if negb (settles owner session_id worker_epoch c r) then mret None else
      let '(state, feedback) := decided_state decision in
      let r' := set_settled (state_as_str state) feedback decided_at actor r in
      _ ← modify (with_approvals (<[id := r']> (a_approvals d)));
      _ ← match decision with
          | DecApprovedWithGrant scope => mint_standing_grant_on r' scope decided_at
          | _ => mret tt
          end;
      let event := ApprovalResolved id decision actor in
      seq ← append_event_on_locked owner session_id event;
      approval ← atry (approval_from_row r');
      mret (Some (MkSettlement approval (seq, event)))
  end.

Definition claim_of_row (r : approval_row) : ApprovalClaim :=
  match ap_decision_claim r with Some claim => ExactClaim claim | None => Unclaimed end.

Definition settle_row_on {R} (r : approval_row) (c : ApprovalClaim) (decision : ApprovalDecisionKind) (decided_at : Z)
  : atxn R (option ApprovalSettlement) :=
  owner ← owner_new (ap_owner r);
  match ap_worker_epoch r with
  | None => aerr ("approval " +:+ show_uuid (ap_id r) +:+ " has no worker epoch")
  | Some epoch => settle_approval_on_locked owner (ap_id r) (ap_session_id r) epoch c decision decided_at None
  end.

(** ** Sweeps *)

Definition older (r s : approval_row) : Prop :=
  ap_requested_at r < ap_requested_at s \/ ap_requested_at r = ap_requested_at s /\ ap_id r <= ap_id s.
#[export] Instance older_dec r s : Decision (older r s).
Proof. unfold older. apply _. Defined.
Definition rows_oldest_first (f : approval_row -> bool) (d : adb) : list approval_row :=
  merge_sort older (List.filter f (snd <$> map_to_list (a_approvals d))).
Definition pending_rows_for_turn {R} (turn_id : Z) : atxn R (list approval_row) :=
  d ← get; mret (rows_oldest_first (fun r => (ap_turn_id r =? turn_id) && row_pending r) d).

Definition pending_server (call : ToolCallRecord WireNumber) : bool :=
  bool_decide (c_execution call = ServerCall) && bool_decide (c_status call = CallPending).
Definition cancel_call (now : Z) (call : ToolCallRecord WireNumber) : ToolCallRecord WireNumber :=
  Transcript.MkCall (c_id call) (c_chat_id call) (c_turn_id call) (c_provider_id call) (c_name call) (c_arguments call)
    (c_execution call) CallCancelled (Some "turn ended before tool completion") (c_result_preview call)
    (c_provider_replay call) (c_created_at call) (Some (Z.max now (c_created_at call))).

Definition close_pending_for_terminal_turn_on {R} (turn_id now : Z) : atxn R unit :=
  _ ← modify (fun d => with_calls ((fun call => if (c_turn_id call =? turn_id) && pending_server call
                                             then cancel_call now call else call) <$> a_calls d) d);
  rows ← pending_rows_for_turn turn_id;
  for_each (fun r => _ ← settle_row_on r (claim_of_row r) DecAbandoned (Z.max now (ap_requested_at r)); mret tt) rows.

Definition reject_pending_for_cancelling_turn_on {R} (turn_id now : Z) : atxn R unit :=
  rows ← pending_rows_for_turn turn_id;
  for_each (fun r =>
    if negb (is_some (from_value (ap_harness_raw r))) then mret tt else
    d ← get;
    if negb (is_some (a_calls d !! ap_id r))
    then aerr ("pending approval " +:+ show_uuid (ap_id r) +:+ " disappeared during cancellation") else
    _ ← settle_row_on r (claim_of_row r) (DecDeny (Some CANCELLED_REASON)) (Z.max now (ap_requested_at r));
    mret tt) rows.

Definition abandon_pending_for_call_on {R} (call_id now : Z) : atxn R unit :=
  row ← find_approval_row_on call_id;
  match row with
  | None => mret tt
  | Some r =>
      if negb (row_pending r) then mret tt else
      _ ← settle_row_on r (claim_of_row r) DecAbandoned (Z.max now (ap_requested_at r)); mret tt
  end.

(** ** Putting up a card *)

Inductive RequestToolApprovalOutcome : Type :=
  | ReqRequested (a : ToolApproval) | ReqExisting (a : ToolApproval) | ReqGranted (a : ToolApproval)
  | ReqIdentityConflict | ReqUnavailable.
Record JournaledToolApprovalOutcome : Type := MkJournaledRequest {
  jo_outcome : RequestToolApprovalOutcome; jo_required : option (Z * ApprovalRequired) }.

Definition validate_request (q : ApprovalRequest) : result AgentError unit :=
  if (ar_call_id q =? 0) || (ar_chat_id q =? 0) || (ar_turn_id q =? 0) || is_empty (ar_tool_name q)
     || (MAX_LABEL_LEN <? len (ar_tool_name q))%nat || bool_decide (ar_class q = ReadOnly)
     || ar_auto_judge q && negb (is_auto_judgeable (ar_kind q))
  then Err (Store "invalid tool approval request") else Ok tt.

Definition judge_may_own (q : ApprovalRequest) (arguments : json WireNumber) : bool :=
  is_auto_judge_candidate (ar_kind q) (ar_tool_name q) arguments.
Definition judge_of (q : ApprovalRequest) (arguments : json WireNumber) : option AutoJudgeStatus :=
  if ar_auto_judge q && judge_may_own q arguments then Some Judging else None.

(** [bounded] (chat_journal.rs) *)
Definition MAX_TOOL_SUMMARY_CHARS : nat := 512.
Definition ELLIPSIS : string := utf8 [226%nat; 128%nat; 166%nat].
Definition bounded (text : string) (max : nat) : string :=
  if (length (chars text) <=? max)%nat then text else join "" (take (max - 1) (chars text)) +:+ ELLIPSIS.

Definition tool_use_approval (chat_id : Z) (s : asession) (call : ToolCallRecord WireNumber) (q : ApprovalRequest)
    (scopes : list GrantScope) (requested_at : Z) (judge : option AutoJudgeStatus) (granted : option Z) : Approval :=
  let kind := match build (c_name call) (c_arguments call) with
              | Some preview => KindToolUse (without_summary preview) scopes
              | None => KindOther (bounded (c_name call) MAX_TOOL_SUMMARY_CHARS)
              end in
  MkCard (c_id call) chat_id (c_turn_id call) kind (to_value (MkRaw (c_name call) (ar_kind q) granted))
    (Some (show_uuid (c_id call))) None None (Some (as_epoch s)) None None
    (if is_some granted then Approved else Pending) None requested_at
    (if is_some granted then Some requested_at else None) judge None.

(** Insert a card and read it back *)
Definition mint_card_on {R} (s : asession) (a : Approval) (call : ToolCallRecord WireNumber) : atxn R ToolApproval :=
  owner ← owner_new (as_owner s);
  _ ← insert_approval_on owner a;
  row ← find_approval_row_on (cd_id a);
  match row with
  | None => aerr "inserted approval disappeared"
  | Some r => atry (tool_approval_from_rows r call)
  end.
Definition grant_approval_on {R} (chat_id : Z) (s : asession) (call : ToolCallRecord WireNumber) (q : ApprovalRequest)
    (requested_at source : Z) : atxn R ToolApproval :=
  mint_card_on s (tool_use_approval chat_id s call q [] requested_at None (Some source)) call.

Definition required_of (q : ApprovalRequest) (scopes : list GrantScope) : ApprovalRequired :=
  MkRequired (ar_auto_judge q) (ar_call_id q) (ar_tool_name q) (ar_class q) (ar_kind q) scopes (ar_preview q).
#[export] Instance ApprovalRequired_eq_dec : EqDecision ApprovalRequired.
Proof. solve_decision. Defined.

(** The row this attempt's lease and ordinal wrote, if it did *)
Definition exact_required_event (d : adb) (q : ApprovalRequest) (lease_token ordinal : Z) (expected : ApprovalRequired)
  : result AgentError (option (Z * ApprovalRequired)) :=
  match List.find (fun e => same_some (ae_lease_token e) (Some lease_token)
                            && same_some (ae_ordinal e) (Some ordinal)) (a_events d) with
  | None => Ok None
  | Some e =>
      payload ← decode_required (ae_event e);
      if negb (ae_session_id e =? ar_chat_id q) || negb (same_some (ae_turn_id e) (Some (ar_turn_id q)))
         || ae_terminal e || negb (bool_decide (payload = Some expected))
      then Err (Store "approval event receipt does not match its request")
      else Ok (Some (ae_seq e, expected))
  end.

Definition same_call (q : ApprovalRequest) (call : ToolCallRecord WireNumber) : bool :=
  (c_chat_id call =? ar_chat_id q) && (c_turn_id call =? ar_turn_id q) && String.eqb (c_name call) (ar_tool_name q)
  && bool_decide (c_execution call = ServerCall).
Definition same_question (q : ApprovalRequest) (a : ToolApproval) : bool :=
  bool_decide (ta_class a = ar_class q) && bool_decide (ta_kind a = ar_kind q).

Definition claim_is_live (d : adb) (q : ApprovalRequest) (t : turn) (lease_token now : Z) : bool :=
  match a_claims d !! lease_token with
  | None => false
  | Some c =>
      (TurnTables.c_turn_id c =? ar_turn_id q) && (t_attempt_count t =? c_attempt_count c)
      && (t_claim_count t =? c_claim_count c) && same_some (t_lease_token t) (Some lease_token)
      && match t_lease_expires_at t with Some expiry => now <? expiry | None => false end
  end.

(** [request_and_append_event] after its checks: a new card or a grant's *)
Definition journal_card (q : ApprovalRequest) (t : turn) (call : ToolCallRecord WireNumber)
    (lease_token ordinal now : Z) : atxn JournaledToolApprovalOutcome JournaledToolApprovalOutcome :=
  let requested_at := Z.max (Z.max now (default now (t_updated_at t))) (c_created_at call) in
  s ← session_row (ar_chat_id q);
  d ← get;
  match matching_standing_grant d (ar_chat_id q) (as_project s) (c_name call) (ar_kind q) (c_arguments call) with
  | Some source =>
      a ← grant_approval_on (ar_chat_id q) s call q requested_at source;
      mret (MkJournaledRequest (ReqGranted a) None)
  | None =>
      let scopes := mintable_ladder_for (ar_kind q) (c_name call) (c_arguments call) in
      let required := required_of q scopes in
      seq ← append_required_on (ar_chat_id q) (ar_turn_id q) lease_token ordinal required;
      a ← mint_card_on s (tool_use_approval (ar_chat_id q) s call q scopes requested_at (judge_of q (c_arguments call)) None)
            call;
      mret (MkJournaledRequest (ReqRequested a) (Some (seq, required)))
  end.

Definition request_and_append_event_on (q : ApprovalRequest) (lease_token ordinal now : Z)
  : atxn JournaledToolApprovalOutcome JournaledToolApprovalOutcome :=
  let answer o := mret (MkJournaledRequest o None) in
  d ← get;
  match a_sessions d !! ar_chat_id q, a_turns d !! ar_turn_id q, a_calls d !! ar_call_id q with
  | Some _, Some t, Some call =>
      match (if same_call q call then a_approvals d !! c_id call else None) with
      | Some r =>
          a ← atry (tool_approval_from_rows r call);
          if negb (same_question q a) then answer ReqIdentityConflict else
          let scopes := mintable_ladder_for (ar_kind q) (c_name call) (c_arguments call) in
          required ← atry (exact_required_event d q lease_token ordinal (required_of q scopes));
          mret (MkJournaledRequest (ReqExisting a) required)
      | None =>
          if negb (same_call q call) || negb (bool_decide (c_status call = CallPending))
             || negb (t_session_id t =? ar_chat_id q) || negb (String.eqb (t_status t) (as_str Running))
             || negb (claim_is_live d q t lease_token now)
             || negb (bool_decide (ar_kind q = for_call (ar_tool_name q) (ar_class q)))
          then answer ReqIdentityConflict
          else journal_card q t call lease_token ordinal now
      end
  | _, _, _ => answer ReqUnavailable
  end.
Definition request_and_append_event (q : ApprovalRequest) (lease_token ordinal now : Z) (d : adb)
  : result AgentError JournaledToolApprovalOutcome * adb :=
  match validate_request q with
  | Err e => (Err e, d)
  | Ok _ =>
      if (lease_token =? 0) || negb ((1 <=? ordinal) && (ordinal <? I32_MAX))
      then (Err (Store "approval journal identity must be valid"), d)
      else abegin (request_and_append_event_on q lease_token ordinal now) d
  end.

Definition request_on (q : ApprovalRequest) (requested_at : Z) : atxn RequestToolApprovalOutcome RequestToolApprovalOutcome :=
  d ← get;
  match a_sessions d !! ar_chat_id q, a_calls d !! ar_call_id q with
  | Some _, Some call =>
      if negb (same_call q call) || negb (bool_decide (c_status call = CallPending)) then mret ReqIdentityConflict else
      match a_approvals d !! c_id call with
      | Some r =>
          a ← atry (tool_approval_from_rows r call);
          mret (if same_question q a then ReqExisting a else ReqIdentityConflict)
      | None =>
          if negb (bool_decide (ar_kind q = for_call (ar_tool_name q) (ar_class q))) then mret ReqIdentityConflict else
          s ← session_row (ar_chat_id q);
          match matching_standing_grant d (ar_chat_id q) (as_project s) (c_name call) (ar_kind q) (c_arguments call) with
          | Some source => a ← grant_approval_on (ar_chat_id q) s call q requested_at source; mret (ReqGranted a)
          | None =>
              let scopes := mintable_ladder_for (ar_kind q) (c_name call) (c_arguments call) in
              a ← mint_card_on s (tool_use_approval (ar_chat_id q) s call q scopes requested_at
                                    (judge_of q (c_arguments call)) None) call;
              mret (ReqRequested a)
          end
      end
  | _, _ => mret ReqUnavailable
  end.
Definition request (q : ApprovalRequest) (requested_at : Z) (d : adb) : result AgentError RequestToolApprovalOutcome * adb :=
  match validate_request q with
  | Err e => (Err e, d)
  | Ok _ => abegin (request_on q (canonical_db_timestamp requested_at)) d
  end.

(** ** Deciding *)

Inductive DecideToolApprovalOutcome : Type :=
  | Decided (a : ToolApproval) (resolution : Z * JournalEvent) | DecideExisting (a : ToolApproval)
  | DecisionConflict | DecideUnavailable.
Inductive JudgeVerdictOutcome : Type := VerdictApproved (resolution : Z * JournalEvent) | VerdictDeclined | NotOwned.

Definition validate_decision (decision : ApprovalDecision) : result AgentError unit :=
  match decision_reason decision with
  | Some reason => if valid_reason reason then Ok tt else Err (Store "invalid tool approval decision")
  | None => Ok tt
  end.
Definition decision_kind (decision : ApprovalDecision) : ApprovalDecisionKind :=
  match decision with Approve => DecApprove | Reject reason => DecDeny (Some reason) end.

(** The card parked on a call of this chat *)
Definition pending_tool_approval {R} (chat_id call_id : Z)
  : atxn R (option (approval_row * ToolCallRecord WireNumber * ToolApproval)) :=
  d ← get;
  match a_sessions d !! chat_id, a_calls d !! call_id with
  | Some _, Some call =>
      match a_approvals d !! call_id with
      | None => mret None
      | Some r =>
          if negb (ap_session_id r =? chat_id) || negb (c_chat_id call =? chat_id) then mret None
          else if negb (is_some (from_value (ap_harness_raw r))) then mret None
          else current ← atry (tool_approval_from_rows r call); mret (Some (r, call, current))
      end
  | _, _ => mret None
  end.

Definition same_decision (decision : ApprovalDecision) (current : ToolApproval) : bool :=
  bool_decide (ta_status current = decision_status decision)
  && bool_decide (ta_reason current = decision_reason decision).
Definition unclaimed_server_call (r : approval_row) (call : ToolCallRecord WireNumber) : bool :=
  negb (is_some (ap_decision_claim r)) && pending_server call.

(** The settlement both ways of deciding share *)
Definition settle_decision (r : approval_row) (call : ToolCallRecord WireNumber) (current : ToolApproval)
    (decision : ApprovalDecisionKind) (now : Z) : atxn DecideToolApprovalOutcome DecideToolApprovalOutcome :=
  let call_id := ap_id r in
  let decided_at := Z.max now (ta_requested_at current) in
  _ ← (if bool_decide (ta_judge current = Some Judging) then set_auto_judge_status_on call_id None else mret tt);
  settled ← settle_row_on r Unclaimed decision decided_at;
  match settled with
  | None => aerr ("approval " +:+ show_uuid call_id +:+ " could not be settled")
  | Some settlement =>
      row ← find_approval_row_on call_id;
      match row with
      | None => aerr ("decided approval " +:+ show_uuid call_id +:+ " disappeared")
      | Some r' => a ← atry (tool_approval_from_rows r' call); mret (Decided a (st_event settlement))
      end
  end.

Definition decide_on (chat_id call_id : Z) (decision : ApprovalDecision) (now : Z)
  : atxn DecideToolApprovalOutcome DecideToolApprovalOutcome :=
  found ← pending_tool_approval chat_id call_id;
  match found with
  | None => mret DecideUnavailable
  | Some (r, call, current) =>
      if negb (bool_decide (ta_status current = StatusPending))
      then mret (if same_decision decision current then DecideExisting current else DecisionConflict)
      else if negb (unclaimed_server_call r call) then mret DecideUnavailable
      else settle_decision r call current (decision_kind decision) now
  end.
Definition decide (chat_id call_id : Z) (decision : ApprovalDecision) (now : Z) (d : adb)
  : result AgentError DecideToolApprovalOutcome * adb :=
  match validate_decision decision with
  | Err e => (Err e, d)
  | Ok _ => abegin (decide_on chat_id call_id decision now) d
  end.

Definition stored_grant_matches (d : adb) (source_call_id : Z) (g : StandingGrant) : bool :=
  match a_grants d !! source_call_id with
  | None => false
  | Some stored =>
      bool_decide (grant_level_from_row (gr_chat_id stored) (gr_project_id stored) = Some (g_level g))
      && String.eqb (gr_tool_name stored) (g_tool_name g)
      && String.eqb (gr_kind stored) (standing_grant_key (g_kind g))
      && (let _ := column_eq_dec (A := GrantScope) in bool_decide (gr_scope stored = to_value (g_scope g)))
  end.

Definition decide_with_grant_on (chat_id call_id : Z) (g : StandingGrant) (now : Z)
  : atxn DecideToolApprovalOutcome DecideToolApprovalOutcome :=
  found ← pending_tool_approval chat_id call_id;
  match found with
  | None => mret DecideUnavailable
  | Some (r, call, current) =>
      d ← get;
      if negb (bool_decide (ta_status current = StatusPending))
      then mret (if same_decision Approve current && stored_grant_matches d call_id g
                 then DecideExisting current else DecisionConflict)
      else
        s ← session_row chat_id;
        if negb (unclaimed_server_call r call)
           || negb (grant_covers g chat_id (as_project s) (c_name call) (ta_kind current) (c_arguments call))
        then mret DecideUnavailable
        else settle_decision r call current (DecApprovedWithGrant (g_scope g)) now
  end.
Definition decide_with_grant (chat_id call_id : Z) (decision : ApprovalDecision) (g : StandingGrant) (now : Z) (d : adb)
  : result AgentError DecideToolApprovalOutcome * adb :=
  match decision with
  | Reject _ => (Err (Store "only an approval may create a standing grant"), d)
  | Approve => abegin (decide_with_grant_on chat_id call_id g now) d
  end.

Definition resolve_from_judge_on (chat_id call_id : Z) (approved : bool) (now : Z)
  : atxn JudgeVerdictOutcome JudgeVerdictOutcome :=
  found ← pending_tool_approval chat_id call_id;
  match found with
  | None => mret NotOwned
  | Some (r, call, current) =>
      if negb (bool_decide (c_status call = CallPending)) || negb (bool_decide (ta_status current = StatusPending))
         || negb (bool_decide (ta_judge current = Some Judging)) || is_some (ap_decision_claim r)
      then mret NotOwned
      else if negb approved
      then _ ← set_auto_judge_status_on (ap_id r) (Some JudgeDeclined); mret VerdictDeclined
      else
        _ ← set_auto_judge_status_on (ap_id r) (Some JudgeApproved);
        settled ← settle_row_on r Unclaimed DecApprove (Z.max now (ta_requested_at current));
        match settled with
        | None => aerr ("approval " +:+ show_uuid call_id +:+ " could not be settled")
        | Some settlement => mret (VerdictApproved (st_event settlement))
        end
  end.
Definition resolve_from_judge (chat_id call_id : Z) (approved : bool) (now : Z) (d : adb)
  : result AgentError JudgeVerdictOutcome * adb :=
  abegin (resolve_from_judge_on chat_id call_id approved now) d.
End Store.
