(* ===== verification/ApprovalBroker.v ===== *)
(** * Consent: workers, listings, the broker, and who else writes the rows

    tidebreak-core, db/ops/code/approval.rs: what a session's worker does to its
    approvals; db/ops/approval.rs: the lists of cards; tidebreak-server,
    approvals.rs: the broker between the gate of [ToolGate] and the tables.  A
    listing reads its rows and their calls in one snapshot.  Waking the waiters
    and the live channel are left out: the waiter also polls.

    Then the other writers of the approval and grant rows: the cards of
    questions and plans (db/ops/user_question.rs, plan.rs), the decisions of a
    managed session (db/ops/code/managed_decision.rs), the recovery of a session
    whose worker died (db/ops/code/recovery.rs), and the deletion of a chat
    (db/ops/conversation.rs, code/session.rs) and of a project (db/mod.rs).
    Their checks of tables not modelled here are arguments; an accepted plan
    also sets the chat's permission mode, a column no operation here reads. *)
From stdpp Require Import gmap sorting.
From S2P Require Import Prelude RustStr Json ShellPolicy TurnTables Transcript ToolPreview Approvals ToolGate ApprovalStore.
From S2P Require Import ApprovalStore.

Open Scope Z_scope.

Section Workers.
Context `{UnicodeLower, RegexEngine} `{AC : ApprovalColumns}.

Definition owned_session (d : adb) (owner : string) (session_id : Z) : option asession :=
  match a_sessions d !! session_id with
  | Some s => if String.eqb (as_owner s) owner then Some s else None
  | None => None
  end.
Definition is_running (s : asession) : bool := String.eqb (as_lifecycle s) (lifecycle_as_str SessionRunning).

Definition insert_approval (owner : string) (a : Approval) (d : adb) : result AgentError unit * adb :=
  abegin (insert_approval_on owner a) d.

(** [insert_approval_for_worker] *)
Definition insert_approval_for_worker (owner : string) (a : Approval) (d : adb)
  : result AgentError (option (Z * JournalEvent)) * adb :=
  match cd_worker_epoch a with
  | None => (Err (Store ("approval " +:+ show_uuid (cd_id a) +:+ " has no worker epoch")), d)
  | Some worker_epoch =>
      abegin (
        match owned_session d owner (cd_session_id a) with
        | None => arollback None
        | Some s =>
            if negb (as_epoch s =? worker_epoch) || negb (is_running s) then arollback None else
            match a_turns d !! cd_turn_id a with
            | None => arollback None
            | Some t =>
                if negb (String.eqb (t_owner t) owner) || negb (t_session_id t =? cd_session_id a)
                   || negb (String.eqb (t_status t) (as_str Running)) then arollback None else
                _ ← insert_approval_on owner a;
                let event := ApprovalRequested (cd_id a)
                               (Some (from_kind (cd_kind a) (cd_turn_id a) (is_some (cd_auto_judge_status a)))) in
                seq ← append_event_on_locked owner (cd_session_id a) event;
                mret (Some (seq, event))
            end
        end) d
  end.

Definition read_approval (r : option approval_row) : result AgentError (option Approval) :=
  match r with Some r => a ← approval_from_row r; Ok (Some a) | None => Ok None end.
Definition get_approval_all_owners (id : Z) (d : adb) : result AgentError (option Approval) :=
  read_approval (a_approvals d !! id).
Definition get_approval (owner : string) (id : Z) (d : adb) : result AgentError (option Approval) :=
  read_approval (match a_approvals d !! id with
                 | Some r => if String.eqb (ap_owner r) owner then Some r else None
                 | None => None
                 end).

(** [claim_approval] *)
Definition claimable (owner : string) (session_id worker_epoch : Z) (r : approval_row) : bool :=
  settles owner session_id worker_epoch Unclaimed r.
Definition claim_row_on (owner : string) (id session_id worker_epoch claim claimed_at : Z)
  : atxn (option approval_row) (option approval_row) :=
  d ← get;
  match owned_session d owner session_id with
  | None => arollback None
  | Some s =>
      if negb (as_epoch s =? worker_epoch) || negb (is_running s) then arollback None else
      match a_approvals d !! id with
      | None => arollback None
      | Some r =>
          if negb (claimable owner session_id worker_epoch r) then arollback None else
          let r' := set_claim (ap_worker_epoch r) (Some claim) (Some claimed_at) r in
          _ ← modify (with_approvals (<[id := r']> (a_approvals d)));
          mret (Some r')
      end
  end.
(** The claim commits before the row is decoded. *)
Definition claim_approval (owner : string) (id session_id worker_epoch claim claimed_at : Z) (d : adb)
  : result AgentError (option Approval) * adb :=
  let '(answer, d') := abegin (claim_row_on owner id session_id worker_epoch claim claimed_at) d in
  (r ← answer; read_approval r, d').

(** [settle_approval] and the ways into it *)
Definition settle_approval (owner : string) (id session_id worker_epoch : Z) (c : ApprovalClaim)
    (decision : ApprovalDecisionKind) (decided_at : Z) (actor : option TurnActor) (d : adb)
  : result AgentError (option ApprovalSettlement) * adb :=
  abegin (
    match owned_session d owner session_id with
    | None => arollback None
    | Some _ => settle_approval_on_locked owner id session_id worker_epoch c decision decided_at actor
    end) d.
Definition settle_approval_claim (owner : string) (id session_id worker_epoch claim : Z)
    (decision : ApprovalDecisionKind) (decided_at : Z) (actor : option TurnActor) (d : adb) :=
  settle_approval owner id session_id worker_epoch (ExactClaim claim) decision decided_at actor d.
Definition abandon_pending_approval (owner : string) (id session_id worker_epoch decided_at : Z) (d : adb) :=
  settle_approval owner id session_id worker_epoch Unclaimed DecAbandoned decided_at None d.
(** The row an engine's own decision is about, read before the settlement *)
Definition observed_row (owner : string) (session_id : Z) (native_call_id : string) (d : adb) : option approval_row :=
  List.find (fun r => String.eqb (ap_owner r) owner && (ap_session_id r =? session_id)
                      && bool_decide (ap_native_call_id r = Some native_call_id) && row_pending r
                      && negb (is_some (ap_decision_claim r))) (snd <$> map_to_list (a_approvals d)).
Definition settle_engine_observed_approval (owner : string) (session_id worker_epoch : Z) (native_call_id : string)
    (decision : ApprovalDecisionKind) (decided_at : Z) (read d : adb)
  : result AgentError (option ApprovalSettlement) * adb :=
  match observed_row owner session_id native_call_id read with
  | None => (Ok None, d)
  | Some r => settle_approval owner (ap_id r) session_id worker_epoch Unclaimed decision decided_at None d
  end.

(** [abandon_pending_approvals_for_stopped_session] *)
Definition waiting_turn (d : adb) (owner : string) (session_id turn_id : Z) : bool :=
  match a_turns d !! turn_id with
  | Some t => String.eqb (t_owner t) owner && (t_session_id t =? session_id) && String.eqb (t_status t) "waiting"
  | None => false
  end.
Definition abandon_stopped (owner : string) (session_id epoch decided_at : Z) (r : approval_row)
    (abandoned : list ApprovalSettlement) : atxn (list ApprovalSettlement) (list ApprovalSettlement) :=
  settled ← settle_approval_on_locked owner (ap_id r) session_id epoch (claim_of_row r) DecAbandoned decided_at None;
  mret (abandoned ++ option_list settled).
Definition abandon_pending_approvals_for_stopped_session (owner : string) (session_id expected_spawn_epoch decided_at : Z)
    (d : adb) : result AgentError (list ApprovalSettlement) * adb :=
  abegin (
    match owned_session d owner session_id with
    | None => arollback []
    | Some s =>
        if negb (as_epoch s =? expected_spawn_epoch) || is_running s then arollback [] else
        let rows := rows_oldest_first (fun r =>
          String.eqb (ap_owner r) owner && (ap_session_id r =? session_id)
          && same_some (ap_worker_epoch r) (Some expected_spawn_epoch) && row_pending r
          && negb (waiting_turn d owner session_id (ap_turn_id r))) d in
        fold_each (abandon_stopped owner session_id expected_spawn_epoch decided_at) rows []
    end) d.

(** [rebind_pending_approvals_to_worker] *)
Definition rebinds (owner : string) (session_id turn_id : Z) (r : approval_row) : bool :=
  String.eqb (ap_owner r) owner && (ap_session_id r =? session_id) && (ap_turn_id r =? turn_id) && row_pending r.
Definition rebind_pending_approvals_to_worker (owner : string) (session_id turn_id to_epoch : Z) (d : adb) : nat * adb :=
  (length (List.filter (rebinds owner session_id turn_id) (snd <$> map_to_list (a_approvals d))),
   with_approvals ((fun r => if rebinds owner session_id turn_id r then set_claim (Some to_epoch) None None r else r)
                     <$> a_approvals d) d).

Fixpoint read_all (rows : list approval_row) : result AgentError (list Approval) :=
  match rows with
  | [] => Ok []
  | r :: rows => a ← approval_from_row r; l ← read_all rows; Ok (a :: l)
  end.
Definition list_approvals (owner : string) (state : option ApprovalState) (session_id : option Z) (d : adb)
  : result AgentError (list Approval) :=
  read_all (List.filter (fun r =>
    String.eqb (ap_owner r) owner
    && match state with Some s => String.eqb (ap_state r) (state_as_str s) | None => true end
    && match session_id with Some id => ap_session_id r =? id | None => true end) (snd <$> map_to_list (a_approvals d))).

(** ** Cards (db/ops/approval.rs) *)

Definition get_card (call_id : Z) (d : adb) : result AgentError (option ToolApproval) :=
  match a_approvals d !! call_id with
  | None => Ok None
  | Some r =>
      if negb (is_some (from_value (ap_harness_raw r))) then Ok None else
      match a_calls d !! call_id with
      | None => Ok None
      | Some call => a ← tool_approval_from_rows r call; Ok (Some a)
      end
  end.

Fixpoint tool_approvals_from_rows (d : adb) (rows : list approval_row) (limit : nat) : result AgentError (list ToolApproval) :=
  match rows, limit with
  | [], _ | _, O => Ok []
  | r :: rows, S n =>
      if negb (is_some (from_value (ap_harness_raw r))) then tool_approvals_from_rows d rows limit else
      match a_calls d !! ap_id r with
      | None => Err (Store ("approval " +:+ show_uuid (ap_id r) +:+ " is parked on a call that does not exist"))
      | Some call => a ← tool_approval_from_rows r call; l ← tool_approvals_from_rows d rows n; Ok (a :: l)
      end
  end.
Definition list_pending_cards (chat_id : Z) (limit : nat) (d : adb) : result AgentError (list ToolApproval) :=
  if (limit =? 0)%nat || (100 <? limit)%nat then Err (Store "pending approval limit must be between 1 and 100")
  else tool_approvals_from_rows d (rows_oldest_first (fun r => (ap_session_id r =? chat_id) && row_pending r) d) limit.
Definition list_judging (limit : nat) (d : adb) : result AgentError (list ToolApproval) :=
  tool_approvals_from_rows d
    (take limit (rows_oldest_first (fun r => bool_decide (ap_auto_judge_status r = Some (judge_as_str Judging)) && row_pending r) d))
    limit.

(** ** The broker (tidebreak-server, approvals.rs) *)

Inductive ResolveApprovalOutcome : Type :=
  | Resolved | NotPending | WrongChat | NotApprovable | GrantNotAvailable | ResolveConflict.

Definition resolved_of (o : DecideToolApprovalOutcome) : ResolveApprovalOutcome :=
  match o with
  | Decided _ _ | DecideExisting _ => Resolved
  | DecisionConflict => ResolveConflict
  | DecideUnavailable => NotPending
  end.
Definition answer_decision (done : result AgentError DecideToolApprovalOutcome * adb)
  : result AgentError ResolveApprovalOutcome * adb := (o ← done.1; Ok (resolved_of o), done.2).

Definition chat_project (d : adb) (chat_id : Z) : option Z := a_sessions d !! chat_id ≫= as_project.

(** [resolve_with_grant]: each read of the store is a state of its own. *)
Definition resolve_with_grant (chat_id call_id : Z) (decision : ApprovalDecision) (rung : option ApprovalGrantRung)
    (now : Z) (card_read chat_read d : adb) : result AgentError ResolveApprovalOutcome * adb :=
  match get_card call_id card_read with
  | Err e => (Err e, d)
  | Ok None => (Ok NotPending, d)
  | Ok (Some current) =>
      if negb (ta_chat_id current =? chat_id) then (Ok WrongChat, d)
      else if bool_decide (decision = Approve) && negb (is_approvable (ta_kind current)) then (Ok NotApprovable, d)
      else
        match rung with
        | None => answer_decision (decide chat_id call_id decision now d)
        | Some rung =>
            match grant_scope rung (ta_preview current) (ta_action_is_exact current) with
            | None => (Ok GrantNotAvailable, d)
            | Some scope =>
                match scoped (level_for_chat (ta_chat_id current) (chat_project chat_read chat_id))
                        (ta_tool_name current) (ta_kind current) scope now with
                | None => (Ok GrantNotAvailable, d)
                | Some g => answer_decision (decide_with_grant chat_id call_id decision g now d)
                end
            end
        end
  end.
Definition resolve (chat_id call_id : Z) (decision : ApprovalDecision) (now : Z) (card_read d : adb) :=
  resolve_with_grant chat_id call_id decision None now card_read card_read d.

(** [resolve_with_scope] *)
Definition resolve_with_scope (chat_id call_id : Z) (scope : GrantScope) (now : Z) (card_read chat_read d : adb)
  : result AgentError ResolveApprovalOutcome * adb :=
  match get_card call_id card_read with
  | Err e => (Err e, d)
  | Ok None => (Ok NotPending, d)
  | Ok (Some current) =>
      if negb (ta_chat_id current =? chat_id) then (Ok WrongChat, d)
      else if negb (is_approvable (ta_kind current)) then (Ok NotApprovable, d)
      else
        match scoped (level_for_chat (ta_chat_id current) (chat_project chat_read chat_id))
                (ta_tool_name current) (ta_kind current) scope now with
        | None => (Ok GrantNotAvailable, d)
        | Some g => answer_decision (decide_with_grant chat_id call_id Approve g now d)
        end
  end.
Definition broker_resolve_from_judge (chat_id call_id : Z) (approved : bool) (now : Z) (d : adb)
  : result AgentError bool * adb :=
  let done := resolve_from_judge chat_id call_id approved now d in
  (o ← done.1; Ok (match o with VerdictApproved _ | VerdictDeclined => true | NotOwned => false end), done.2).

(** *** Registration *)

(** What a registration has: a decision already, or a card to poll *)
Inductive BrokerAnswer : Type :=
  | Ready (registration : ApprovalRegistration)
  | Polls (publication : ApprovalRequiredPublication).
Definition ready_reject (reason : string) : BrokerAnswer := Ready (MkRegistration (Reject reason) NoPublication).
Definition register_card (initial : ToolApproval) (p : ApprovalRequiredPublication) : BrokerAnswer :=
  match card_decision initial with
  | Some decision => Ready (MkRegistration decision p)
  | None => Polls p
  end.
Definition granted_or_none (a : ToolApproval) : ApprovalRequiredPublication :=
  if ta_by_standing_grant a then ByStandingGrant else NoPublication.
Definition refused_request (o : RequestToolApprovalOutcome) : BrokerAnswer :=
  ready_reject (match o with
                | ReqIdentityConflict => "approval request identity conflict"
                | _ => "approval request is no longer available"
                end).

(** The journaled branch, once the store answered; a failed request is made again. *)
Definition register_journaled (ordinal : Z) (o : JournaledToolApprovalOutcome) : BrokerAnswer :=
  match jo_outcome o with
  | ReqRequested a | ReqExisting a =>
      register_card a
        (match jo_required o with
         | None => granted_or_none a
         | Some _ => if is_some (card_decision a) then Recovered ordinal else Committed ordinal
         end)
  | ReqGranted a => register_card a ByStandingGrant
  | refused => refused_request refused
  end.
Definition register_plain (o : result AgentError RequestToolApprovalOutcome) : BrokerAnswer :=
  match o with
  | Ok (ReqRequested a) => register_card a Ordinary
  | Ok (ReqExisting a) => register_card a (granted_or_none a)
  | Ok (ReqGranted a) => register_card a ByStandingGrant
  | Ok refused => refused_request refused
  | Err _ => ready_reject "durable approval storage is unavailable"
  end.

(** One poll of the decision *)
Definition poll_decision (call_id : Z) (d : adb) : option ApprovalDecision :=
  match get_card call_id d with
  | Ok (Some a) => card_decision a
  | Ok None => Some (Reject "approval request disappeared")
  | Err _ => None
  end.
(** The decision of the first poll that has one *)
Definition awaited_decision (call_id : Z) (polls : list adb) : option ApprovalDecision :=
  find_map (poll_decision call_id) polls.
End Workers.

(** ** Cards of questions and plans (db/ops/user_question.rs, plan.rs) *)

Definition ASK_USER_QUESTIONS_TOOL : string := "ask_user_questions".
Definition EXIT_PLAN_MODE_TOOL : string := "exit_plan_mode".
Definition MAX_USER_QUESTIONS : nat := 3.
Definition MAX_QUESTION_ID_CHARS : nat := 64.
Definition MAX_QUESTION_HEADER_CHARS : nat := 32.
Definition MAX_QUESTION_PROMPT_CHARS : nat := 500.
Definition MAX_QUESTION_OPTIONS : nat := 5.
Definition MAX_QUESTION_OPTION_LABEL_CHARS : nat := 80.
Definition MAX_QUESTION_OPTION_DESCRIPTION_CHARS : nat := 240.
Definition MAX_FREE_FORM_ANSWER_CHARS : nat := 2000.
Definition MAX_PLAN_TITLE_CHARS : nat := 120.
Definition MIN_PLAN_CONTENT_CHARS : nat := 50.
Definition MAX_PLAN_CONTENT_CHARS : nat := 200 * 200.
Definition MAX_PLAN_FEEDBACK_CHARS : nat := 4000.

Definition valid_text (value : string) (max_chars : nat) : bool :=
  negb (trim_is_empty value) && (length (chars value) <=? max_chars)%nat && negb (existsb is_control (chars value)).
Definition layout_char (c : string) : bool := String.eqb c LINE_FEED || String.eqb c (utf8 [9%nat]).
(** [valid_markdown]; a free-form answer and the context are the same from 1 *)
Definition valid_markdown (value : string) (min_chars max_chars : nat) : bool :=
  negb (trim_is_empty value) && (min_chars <=? length (chars value))%nat && (length (chars value) <=? max_chars)%nat
  && negb (existsb (fun c => is_control c && negb (layout_char c)) (chars value)).

Definition distinct (ids : list string) : bool := bool_decide (NoDup ids).
Definition option_well_formed (o : UserQuestionOption) : bool :=
  valid_text (op_id o) MAX_QUESTION_ID_CHARS && valid_text (op_label o) MAX_QUESTION_OPTION_LABEL_CHARS
  && valid_text (op_description o) MAX_QUESTION_OPTION_DESCRIPTION_CHARS.
Definition question_well_formed (q : UserQuestion) : bool :=
  valid_text (uq_id q) MAX_QUESTION_ID_CHARS && valid_text (uq_header q) MAX_QUESTION_HEADER_CHARS
  && valid_text (uq_question q) MAX_QUESTION_PROMPT_CHARS && (length (uq_options q) <=? MAX_QUESTION_OPTIONS)%nat
  && negb (match uq_options q with [] => negb (uq_allow_free_form q) | _ => false end)
  && forallb option_well_formed (uq_options q) && distinct (op_id <$> uq_options q).
Definition questions_well_formed (l : list UserQuestion) : bool :=
  match l with [] => false | _ => true end && (length l <=? MAX_USER_QUESTIONS)%nat && forallb question_well_formed l.

Definition answer_well_formed (a : UserQuestionAnswer) : bool :=
  valid_text (ua_question_id a) MAX_QUESTION_ID_CHARS && (length (ua_selected_option_ids a) <=? MAX_QUESTION_OPTIONS)%nat
  && (match ua_selected_option_ids a with [] => is_some (ua_custom_answer a) | _ => true end)
  && (match ua_custom_answer a with Some text => valid_markdown text 1 MAX_FREE_FORM_ANSWER_CHARS | None => true end)
  && forallb (fun id => valid_text id MAX_QUESTION_ID_CHARS) (ua_selected_option_ids a)
  && distinct (ua_selected_option_ids a).
Record AnswerUserQuestions : Type := MkAnswers {
  aq_answers : list UserQuestionAnswer; aq_additional_user_context : option string }.
Definition answers_well_formed (a : AnswerUserQuestions) : bool :=
  (length (aq_answers a) <=? MAX_USER_QUESTIONS)%nat
  && (match aq_additional_user_context a with
      | Some context => valid_markdown context 1 MAX_FREE_FORM_ANSWER_CHARS
      | None => true
      end)
  && forallb answer_well_formed (aq_answers a) && distinct (ua_question_id <$> aq_answers a).

(** [canonical_answers]: in the order of the questions; [None] for an answer to
    no question, or one that does not fit its question *)
Definition answer_fits (q : UserQuestion) (a : UserQuestionAnswer) : bool :=
  forallb (fun id => existsb (fun o => String.eqb (op_id o) id) (uq_options q)) (ua_selected_option_ids a)
  && (negb (is_some (ua_custom_answer a)) || uq_allow_free_form q)
  && match uq_question_type q with
     | SingleSelect =>
         (length (ua_selected_option_ids a) =? 1)%nat && negb (is_some (ua_custom_answer a))
         || (length (ua_selected_option_ids a) =? 0)%nat && is_some (ua_custom_answer a)
     | MultiSelect => true
     end.
Fixpoint fitting_answers (questions : list UserQuestion) (supplied : list UserQuestionAnswer)
  : option (list UserQuestionAnswer) :=
  match questions with
  | [] => Some []
  | q :: questions =>
      match List.find (fun a => String.eqb (ua_question_id a) (uq_id q)) (rev supplied) with
      | None => fitting_answers questions supplied
      | Some a => if answer_fits q a then cons a <$> fitting_answers questions supplied else None
      end
  end.
Definition canonical_answers (questions : list UserQuestion) (supplied : AnswerUserQuestions) : option AnswerUserQuestions :=
  match fitting_answers questions (aq_answers supplied) with
  | Some answers =>
      if (length answers =? length (aq_answers supplied))%nat
      then Some (MkAnswers answers (aq_additional_user_context supplied)) else None
  | None => None
  end.

Inductive PlanDecisionChoice : Type := PlanAccept | PlanReject.
#[export] Instance PlanDecisionChoice_eq_dec : EqDecision PlanDecisionChoice.
Proof. solve_decision. Defined.
Record PlanDecision : Type := MkPlanDecision {
  pd_decision : PlanDecisionChoice; pd_feedback : option string; pd_permission_mode : option PermissionMode }.
Record PlanProposalBody : Type := MkPlanBody { plan_title : string; plan_text : string }.
Definition DEFAULT_ACCEPTED_PLAN_MODE : PermissionMode := ModeAuto.
Definition plan_decision_well_formed (p : PlanDecision) : bool :=
  (match pd_feedback p with Some feedback => valid_markdown feedback 1 MAX_PLAN_FEEDBACK_CHARS | None => true end)
  && match pd_decision p with
     | PlanAccept => negb (bool_decide (pd_permission_mode p = Some ModePlan))
     | PlanReject => negb (is_some (pd_permission_mode p))
     end.
Definition plan_well_formed (b : PlanProposalBody) : bool :=
  valid_text (plan_title b) MAX_PLAN_TITLE_CHARS
  && valid_markdown (plan_text b) MIN_PLAN_CONTENT_CHARS MAX_PLAN_CONTENT_CHARS.

(** serde_json on a park's arguments, raw payload and results, and uuid's parser *)
Class ParkCodec `{AC : ApprovalColumns} : Type := {
  parse_uuid : string -> option Z;
  parse_questions : json WireNumber -> option (list UserQuestion);
  parse_plan : json WireNumber -> option PlanProposalBody;
  null_raw : column InternalToolApprovalRequest;
  plan_to_raw : PlanProposalBody -> column InternalToolApprovalRequest;
  plan_from_raw : column InternalToolApprovalRequest -> option PlanProposalBody;
  show_answers : AnswerUserQuestions -> string;
  show_plan_decision : PlanDecision -> string }.

Section Rows.
Context `{AC : ApprovalColumns}.
Definition with_turn (t : turn) (d : adb) : adb :=
  MkAdb (a_sessions d) (a_projects d) (<[t_id t := t]> (a_turns d)) (a_claims d) (a_calls d) (a_approvals d) (a_grants d)
    (a_events d).
Definition with_session (id : Z) (s : asession) (d : adb) : adb :=
  MkAdb (<[id := s]> (a_sessions d)) (a_projects d) (a_turns d) (a_claims d) (a_calls d) (a_approvals d) (a_grants d)
    (a_events d).
End Rows.

Section Parks.
Context `{UnicodeLower, RegexEngine} `{AC : ApprovalColumns} `{PC : !ParkCodec}.

(** [append_event_on] without an attempt, as for every event of a park *)
Definition append_chat_event_on {R} (chat_id : Z) (event : JournalEvent) : atxn R Z :=
  d ← get;
  match next_seq_of (fun e => ae_session_id e =? chat_id) (a_events d), a_sessions d !! chat_id with
  | None, _ => aerr ("event sequence exhausted for chat " +:+ show_uuid chat_id)
  | _, None => aerr ("chat " +:+ show_uuid chat_id +:+ " does not exist")
  | Some seq, Some s => _ ← insert_aevent (MkAEvent chat_id seq (as_owner s) event None None None false); mret seq
  end.

(** What parks: questions or a plan, with the payload of its row *)
Inductive ParkedArguments : Type := ParkedQuestions (questions : list UserQuestion) | ParkedPlan (body : PlanProposalBody).
(** [parse_arguments] of both; [None] for a call of another tool *)
Definition park_arguments (call : ToolCallRecord WireNumber) : result AgentError (option ParkedArguments) :=
  if String.eqb (c_name call) ASK_USER_QUESTIONS_TOOL then
    match parse_questions (c_arguments call) with
    | None => Err (Store "user-question arguments do not parse")
    | Some questions =>
        if questions_well_formed questions && distinct (uq_id <$> questions) then Ok (Some (ParkedQuestions questions))
        else Err (Store "invalid durable user-question arguments")
    end
  else if String.eqb (c_name call) EXIT_PLAN_MODE_TOOL then
    match parse_plan (c_arguments call) with
    | None => Err (Store "plan arguments do not parse")
    | Some body => if plan_well_formed body then Ok (Some (ParkedPlan body)) else Err (Store "invalid durable plan arguments")
    end
  else Ok None.
Definition park_card (s : asession) (call : ToolCallRecord WireNumber) (p : ParkedArguments) (at_ : Z) : Approval :=
  MkCard (c_id call) (c_chat_id call) (c_turn_id call)
    (match p with ParkedQuestions questions => KindQuestions questions | ParkedPlan _ => KindPlan DEFAULT_ACCEPTED_PLAN_MODE end)
    (match p with ParkedQuestions _ => null_raw | ParkedPlan body => plan_to_raw body end)
    (Some (show_uuid (c_id call))) None None (Some (as_epoch s)) None None Pending None at_ None None None.
(** [checkpoint_on] of both, within the transaction that parks the turn *)
Definition checkpoint_on {R} (call : ToolCallRecord WireNumber) (at_ : Z) : atxn R (option Z) :=
  parked ← atry (park_arguments call);
  match parked with
  | None => mret None
  | Some p =>
      seq ← append_chat_event_on (c_chat_id call)
              (ApprovalRequested (c_id call)
                 (Some (match p with ParkedQuestions _ => AskQuestions (c_turn_id call) | ParkedPlan _ => AskPlan (c_turn_id call) end)));
      s ← session_row (c_chat_id call);
      owner ← owner_new (as_owner s);
      _ ← insert_approval_on owner (park_card s call p at_);
      mret (Some seq)
  end.

(** [questions_of], [plan_of] *)
Definition questions_of (r : approval_row) : option (list UserQuestion) :=
  match from_value (ap_kind r) with
  | Some (KindQuestions questions) => if questions_well_formed questions then Some questions else None
  | _ => None
  end.
Definition plan_of (r : approval_row) : option PlanProposalBody :=
  match from_value (ap_kind r) with Some (KindPlan _) => plan_from_raw (ap_harness_raw r) | _ => None end.

(** [approval_park_call_id] *)
Definition approval_park_call_id (t : turn) : result AgentError (option Z) :=
  if negb (String.eqb (t_status t) "waiting") then Ok None else
  match t_park_ref t, t_park_wait t with
  | Some park_ref, Some (ParkApproval call_id) =>
      if negb (String.eqb call_id park_ref) then Err (Store "approval park has mismatched call ids") else
      match parse_uuid call_id with
      | Some id => Ok (Some id)
      | None => Err (Store "approval park has an invalid call id")
      end
  | _, _ => Ok None
  end.

Inductive ParkOutcome : Type :=
  | ParkDecided (resolution : Z * JournalEvent) | ParkExisting | ParkInvalid | ParkConflict | ParkUnavailable.

(** A call's columns once its card is answered *)
Definition complete_call (result : string) (at_ : Z) (call : ToolCallRecord WireNumber) : ToolCallRecord WireNumber :=
  Transcript.MkCall (c_id call) (c_chat_id call) (c_turn_id call) (c_provider_id call) (c_name call) (c_arguments call)
    (c_execution call) CallCompleted (Some result) (Some PreviewOther) (c_provider_replay call) (c_created_at call)
    (Some at_).

(** The columns of a call and the tables of waits that are not modelled here:
    whether a client claimed the call, what the turn becomes once its wait is
    over ([TurnParks], [None] without a wait), whether a closed wait is found *)
Record ParkBeside : Type := MkBeside { unclaimed : bool; resumed : option turn; recovered : bool }.

(** The tail of both: the row settles, the call completes, the turn goes on. *)
Definition settle_park (r : approval_row) (call : ToolCallRecord WireNumber) (t : turn) (decision : ApprovalDecisionKind)
    (result : string) (requested_at now : Z) (b : ParkBeside) : atxn ParkOutcome ParkOutcome :=
  let at_ := Z.max (Z.max (Z.max requested_at now) (Z.max (ap_requested_at r) (c_created_at call)))
               (default now (t_updated_at t)) in
  settled ← settle_row_on r (claim_of_row r) decision at_;
  match settled with
  | None => aerr ("park " +:+ show_uuid (ap_id r) +:+ " could not be settled")
  | Some settlement =>
      _ ← modify (fun d => with_calls (alter (complete_call result at_) (ap_id r) (a_calls d)) d);
      _ ← append_chat_event_on (c_chat_id call) (OtherEvent true);
      match resumed b with
      | None => aerr ("park " +:+ show_uuid (ap_id r) +:+ " is missing its client wait")
      | Some t' => _ ← modify (with_turn t'); mret (ParkDecided (st_event settlement))
      end
  end.
Definition park_waits (chat_id call_id : Z) (r : approval_row) (t : turn) (park : option Z) : bool :=
  (t_session_id t =? chat_id) && (String.eqb (t_status t) (as_str WaitingForClient) || same_some park (Some call_id))
  && (ap_turn_id r =? t_id t).

(** [answer] and [decide] up to the decision itself: the call and its card *)
Definition park_of {R} (tool : string) (chat_id call_id scope_turn : Z)
  : atxn R (option (approval_row * ToolCallRecord WireNumber)) :=
  d ← get;
  match a_sessions d !! chat_id, a_turns d !! scope_turn, a_calls d !! call_id with
  | Some _, Some _, Some call =>
      if negb (c_chat_id call =? chat_id) || negb (String.eqb (c_name call) tool)
         || negb (bool_decide (c_execution call = OrchestrationCall)) then mret None else
      match a_approvals d !! call_id with
      | None => aerr ("park call " +:+ show_uuid call_id +:+ " is missing its approval row")
      | Some r =>
          mret (if negb (ap_session_id r =? chat_id) || negb (ap_turn_id r =? c_turn_id call) then None else Some (r, call))
      end
  | _, _, _ => mret None
  end.
Definition park_exact (call : ToolCallRecord WireNumber) (result : string) : bool :=
  bool_decide (c_status call = CallCompleted) && bool_decide (c_result call = Some result).
Definition recover_park (call_id : Z) (b : ParkBeside) : atxn ParkOutcome ParkOutcome :=
  if recovered b then mret ParkExisting
  else aerr ("park " +:+ show_uuid call_id +:+ " is missing its client wait").
Definition decide_park (chat_id : Z) (r : approval_row) (call : ToolCallRecord WireNumber) (decision : ApprovalDecisionKind)
    (result : string) (requested_at now : Z) (b : ParkBeside) : atxn ParkOutcome ParkOutcome :=
  d ← get;
  if negb (row_pending r) || negb (bool_decide (c_status call = CallPending)) || negb (unclaimed b)
  then mret ParkUnavailable else
  match a_turns d !! c_turn_id call with
  | None => aerr "locked park turn exists"
  | Some t =>
      park ← atry (approval_park_call_id t);
      if park_waits chat_id (ap_id r) r t park then settle_park r call t decision result requested_at now b
      else mret ParkUnavailable
  end.

Definition answer_on (chat_id call_id : Z) (answers : AnswerUserQuestions) (scope_turn requested_at now : Z) (b : ParkBeside)
  : atxn ParkOutcome ParkOutcome :=
  found ← park_of ASK_USER_QUESTIONS_TOOL chat_id call_id scope_turn;
  match found with
  | None => mret ParkUnavailable
  | Some (r, call) =>
      match questions_of r with
      | None => mret ParkUnavailable
      | Some questions =>
          match canonical_answers questions answers with
          | None => mret ParkInvalid
          | Some canonical =>
              let result := show_answers canonical in
              if String.eqb (ap_state r) (state_as_str Approved)
              then if park_exact call result then recover_park call_id b else mret ParkConflict
              else decide_park chat_id r call (DecAnswered (aq_answers canonical)) result requested_at now b
          end
      end
  end.
Definition decide_plan_on (chat_id call_id : Z) (p : PlanDecision) (scope_turn requested_at now : Z) (b : ParkBeside)
  : atxn ParkOutcome ParkOutcome :=
  found ← park_of EXIT_PLAN_MODE_TOOL chat_id call_id scope_turn;
  match found with
  | None => mret ParkUnavailable
  | Some (r, call) =>
      match plan_of r with
      | None => mret ParkUnavailable
      | Some _ =>
          let accepted := bool_decide (pd_decision p = PlanAccept) in
          let result := show_plan_decision p in
          if negb (row_pending r)
          then if negb (String.eqb (ap_state r) (state_as_str (if accepted then Approved else Denied))) then mret ParkConflict
               else if bool_decide (ap_feedback r = pd_feedback p) && park_exact call result
                    then recover_park call_id b else mret ParkConflict
          else decide_park chat_id r call (DecPlanDecided accepted (pd_feedback p)) result requested_at now b
      end
  end.
(** The checks before the transaction, and the card's scope read outside it *)
Definition with_scope_of (chat_id call_id : Z) (well_formed : bool) (read : adb) (body : Z -> atxn ParkOutcome ParkOutcome)
    (d : adb) : result AgentError ParkOutcome * adb :=
  if (chat_id =? 0) || (call_id =? 0) || negb well_formed then (Ok ParkInvalid, d) else
  match a_approvals read !! call_id with
  | Some scope => if ap_session_id scope =? chat_id then abegin (body (ap_turn_id scope)) d else (Ok ParkUnavailable, d)
  | None => (Ok ParkUnavailable, d)
  end.
Definition answer (chat_id call_id : Z) (answers : AnswerUserQuestions) (answered_at now : Z) (b : ParkBeside) (read d : adb) :=
  with_scope_of chat_id call_id (answers_well_formed answers) read
    (fun scope_turn => answer_on chat_id call_id answers scope_turn (canonical_db_timestamp answered_at) now b) d.
Definition decide_plan (chat_id call_id : Z) (p : PlanDecision) (decided_at now : Z) (b : ParkBeside) (read d : adb) :=
  with_scope_of chat_id call_id (plan_decision_well_formed p) read
    (fun scope_turn => decide_plan_on chat_id call_id p scope_turn (canonical_db_timestamp decided_at) now b) d.
End Parks.

(** ** Decisions of a managed session (db/ops/code/managed_decision.rs) *)

Section Managed.
Context `{UnicodeLower, RegexEngine} `{AC : ApprovalColumns}.

(** [enqueue_managed_decision] once its own tables let a new decision in *)
Definition enqueue_managed_decision_on {R} (owner : string) (a : Approval) : atxn R (Z * JournalEvent) :=
  _ ← insert_approval_on owner a;
  let event := ApprovalRequested (cd_id a) (Some (from_kind (cd_kind a) (cd_turn_id a) false)) in
  seq ← append_event_on_locked owner (cd_session_id a) event;
  mret (seq, event).
(** The settlement of [settle_managed_decision], [cancel_managed_decision] and
    [reconcile_managed_decisions] *)
Definition settle_managed_on {R} (owner : string) (id session_id epoch : Z) (decision : ApprovalDecisionKind)
    (at_ : Z) (actor : option TurnActor) : atxn R (option ApprovalSettlement) :=
  settle_approval_on_locked owner id session_id epoch Unclaimed decision at_ actor.

(** ** Recovery of a dead worker's session (db/ops/code/recovery.rs) *)

(** [RecoveryExpectation]; of a fenced one whether the row names its process *)
Inductive RecoveryExpectation : Type := ExpectRunning | ExpectFenced (same_process : bool).
Definition expected_lifecycle (e : RecoveryExpectation) : SessionLifecycle :=
  match e with ExpectRunning => SessionRunning | ExpectFenced _ => SessionFenced end.
Definition resumes_parked_turn_after_restart (t : turn) (durable_parks : bool) : bool :=
  durable_parks && String.eqb (t_status t) "waiting" && is_some (t_park_ref t).

Definition newest_first (t u : turn) : Prop := t_ordinal u <= t_ordinal t.
#[export] Instance newest_first_dec t u : Decision (newest_first t u).
Proof. unfold newest_first. apply _. Defined.
Definition open_turns (owner : string) (session_id : Z) (d : adb) : list turn :=
  merge_sort newest_first (List.filter (fun t =>
    String.eqb (t_owner t) owner && (t_session_id t =? session_id)
    && (String.eqb (t_status t) "running" || String.eqb (t_status t) "waiting")) (snd <$> map_to_list (a_turns d))).
Definition session_pending (owner : string) (session_id : Z) (r : approval_row) : bool :=
  String.eqb (ap_owner r) owner && (ap_session_id r =? session_id) && row_pending r.
Definition interrupt_turn (now : Z) (t : turn) : turn := set_ended_at (Some now) (set_status "interrupted" t).
(** The two updates of [approval] *)
Definition drop_claims (owner : string) (session_id turn_id : Z) (d : adb) : adb :=
  with_approvals ((fun r => if session_pending owner session_id r && (ap_turn_id r =? turn_id)
                            then set_claim (ap_worker_epoch r) None None r else r) <$> a_approvals d) d.
Definition abandon_session (owner : string) (session_id now : Z) (d : adb) : adb :=
  with_approvals ((fun r => if session_pending owner session_id r
                            then set_settled (state_as_str Abandoned) (ap_feedback r) now (ap_actor r) r else r)
                    <$> a_approvals d) d.
Definition recovered_session (e : RecoveryExpectation) (s : asession) : option asession :=
  match e with
  | ExpectRunning => Some (as_epoch s)
  | ExpectFenced _ => checked_succ I64_MAX (as_epoch s)
  end ≫= fun epoch =>
  Some (MkASession (as_owner s) (as_project s) epoch (lifecycle_as_str SessionIdle) (as_internal s)).

Definition settle_interrupted_session_on (owner : string) (session_id expected_epoch : Z) (e : RecoveryExpectation)
    (durable_parks : bool) (now : Z) : atxn (option unit) (option unit) :=
  d ← get;
  match owned_session d owner session_id with
  | None => arollback None
  | Some s =>
      if negb (as_epoch s =? expected_epoch)
         || negb (String.eqb (as_lifecycle s) (lifecycle_as_str (expected_lifecycle e)))
         || match e with ExpectFenced same_process => negb same_process | ExpectRunning => false end
      then arollback None else
      let turns := open_turns owner session_id d in
      if (1 <? length turns)%nat then aerr "more than one running turn during recovery" else
      let resume := match turns with t :: _ => resumes_parked_turn_after_restart t durable_parks | [] => false end in
      let rows := if resume then [] else rows_oldest_first (session_pending owner session_id) d in
      _ ← match turns with
          | [] => mret tt
          | t :: _ => if resume then modify (drop_claims owner session_id (t_id t))
                      else modify (with_turn (interrupt_turn now t))
          end;
      _ ← match rows with [] => mret tt | _ => modify (abandon_session owner session_id now) end;
      _ ← match recovered_session e s with
          | None => aerr "spawn epoch overflow during reap"
          | Some s' => modify (with_session session_id s')
          end;
      _ ← (if resume then mret tt else
           match turns with
           | [] => mret tt
           | _ => _ ← append_event_on_locked owner session_id (OtherEvent false); mret tt
           end);
      _ ← for_each (fun r => _ ← append_event_on_locked owner session_id (ApprovalResolved (ap_id r) DecAbandoned None);
                             mret tt) rows;
      mret (Some tt)
  end.
Definition settle_interrupted_session (owner : string) (session_id expected_epoch : Z) (e : RecoveryExpectation)
    (durable_parks : bool) (now : Z) (d : adb) : result AgentError (option unit) * adb :=
  abegin (settle_interrupted_session_on owner session_id expected_epoch e durable_parks now) d.
Definition recover_interrupted_session (owner : string) (session_id epoch : Z) (durable_parks : bool) (now : Z) :=
  settle_interrupted_session owner session_id epoch ExpectRunning durable_parks now.
Definition reap_fenced_session (owner : string) (session_id epoch : Z) (same_process : bool) (now : Z) :=
  settle_interrupted_session owner session_id epoch (ExpectFenced same_process) false now.

(** ** Deleting a chat (db/ops/conversation.rs) *)

Inductive DeleteChatOutcome : Type :=
  | ChatDeleted | ChatNotFound | ActiveWork | RootsAttached | RootAttachmentStateUnresolved.
(** What the tables of runs and folders say of the chat *)
Record ChatBeside : Type := MkChatBeside {
  active_sandbox : bool; roots_attached : bool; attachment_state_unresolved : bool }.

(** [erase_quiesced_chat_on] with [delete_session_dependents_on], and what the
    session row takes with it: the grants of the chat, not its project's *)
Definition erase_quiesced_chat (chat_id : Z) (d : adb) : adb :=
  let turns := filter (fun kt => t_session_id kt.2 <> chat_id) (a_turns d) in
  MkAdb (delete chat_id (a_sessions d)) (a_projects d) turns
    (filter (fun kc => t_session_id <$> a_turns d !! TurnTables.c_turn_id kc.2 <> Some chat_id) (a_claims d))
    (filter (fun kc => c_chat_id kc.2 <> chat_id) (a_calls d))
    (filter (fun kr => ap_session_id kr.2 <> chat_id) (a_approvals d))
    (filter (fun kg => gr_chat_id kg.2 <> Some chat_id) (a_grants d))
    (List.filter (fun e => negb (ae_session_id e =? chat_id)) (a_events d)).

Definition turn_over (t : turn) : bool := str_mem (t_status t) ["completed"; "failed"; "cancelled"; "interrupted"].
Definition active_turn (chat_id : Z) (d : adb) : bool :=
  existsb (fun t => (t_session_id t =? chat_id) && negb (turn_over t)) (snd <$> map_to_list (a_turns d)).
Definition delete_chat (chat_id : Z) (owner : option string) (b : ChatBeside) (d : adb) : DeleteChatOutcome * adb :=
  match a_sessions d !! chat_id with
  | None => (ChatNotFound, d)
  | Some s =>
      if negb (as_internal s) || match owner with Some o => negb (String.eqb (as_owner s) o) | None => false end
      then (ChatNotFound, d)
      else if active_turn chat_id d || active_sandbox b then (ActiveWork, d)
      else if roots_attached b then (RootsAttached, d)
      else if attachment_state_unresolved b then (RootAttachmentStateUnresolved, d)
      else (ChatDeleted, erase_quiesced_chat chat_id d)
  end.

(** [delete_project] (db/mod.rs), and the grants its row takes with it *)
Inductive DeleteProjectOutcome : Type := ProjectDeleted | ProjectNotEmpty | ProjectNotFound.
Definition delete_project (id : Z) (owner : option string) (has_documents_or_roots : bool) (d : adb)
  : DeleteProjectOutcome * adb :=
  match a_projects d !! id with
  | None => (ProjectNotFound, d)
  | Some o =>
      if match owner with Some owner => negb (String.eqb o owner) | None => false end then (ProjectNotFound, d)
      else if existsb (fun s => same_some (as_project s) (Some id)) (snd <$> map_to_list (a_sessions d))
              || has_documents_or_roots then (ProjectNotEmpty, d)
      else (ProjectDeleted,
            MkAdb (a_sessions d) (delete id (a_projects d)) (a_turns d) (a_claims d) (a_calls d) (a_approvals d)
              (filter (fun kg => gr_project_id kg.2 <> Some id) (a_grants d)) (a_events d))
  end.
End Managed.
