(* ===== verification/ApprovalLedger.v ===== *)
(** * Consent: what the transactions write

    Every transaction of [ApprovalStore] and [ApprovalBroker] is a sequence of
    edits, and each operation may make only some of them.  What follows for all
    histories is proved about edits. *)
From stdpp Require Import gmap sorting.
From S2P Require Import Prelude RustStr Json ShellPolicy TurnTables Transcript ToolPreview Approvals ToolGate ApprovalStore.
From S2P Require Import ApprovalStore ApprovalBroker.

Open Scope Z_scope.

Lemma state_tokens a b : state_as_str a = state_as_str b -> a = b.
Proof. by destruct a, b. Qed.
Lemma state_token_read s : state_from_str (state_as_str s) = Some s.
Proof. by destruct s. Qed.
Lemma judge_tokens a b : judge_as_str a = judge_as_str b -> a = b.
Proof. by destruct a, b. Qed.
Lemma judge_token_read s : judge_from_str (judge_as_str s) = Some s.
Proof. by destruct s. Qed.
Lemma state_read v s : state_from_str v = Some s -> v = state_as_str s.
Proof. intros [_ Hv%String.eqb_eq]%find_some. done. Qed.
Lemma judge_read v s : judge_from_str v = Some s -> v = judge_as_str s.
Proof. intros [_ Hv%String.eqb_eq]%find_some. done. Qed.
Lemma kind_key_read k : from_standing_grant_key (standing_grant_key k) = Some k.
Proof. by destruct k. Qed.

Lemma alter_as_insert {A} (f : A -> A) (m : gmap Z A) i x : m !! i = Some x -> alter f i m = <[i := f x]> m.
Proof.
  intros Hx. apply map_eq. intros j. destruct (Z.eq_dec i j) as [->|Hne].
  - by rewrite lookup_alter_eq, lookup_insert_eq, Hx.
  - by rewrite lookup_alter_ne, lookup_insert_ne.
Qed.

Section Ledger.
Context `{UnicodeLower, RegexEngine} `{AC : ApprovalColumns} `{PC : !ParkCodec}.
Implicit Types (d : adb) (r : approval_row) (call : ToolCallRecord WireNumber).

(** ** Edits *)

(** The columns of a call no operation here writes *)
Definition same_identity call call' : Prop :=
  c_id call = c_id call' /\ c_chat_id call = c_chat_id call' /\ c_turn_id call = c_turn_id call'
  /\ c_name call = c_name call' /\ c_arguments call = c_arguments call'.
Definition calls_kept d d' : Prop :=
  forall id call, a_calls d !! id = Some call -> exists call', a_calls d' !! id = Some call' /\ same_identity call call'.

(** The components beside this one, which write no row of [approval]: they leave
    a call its chat, turn, name and arguments, and make no grant.  Every writer
    of cards and every deletion of a call is an operation below. *)
Definition outside d d' : Prop :=
  a_approvals d' = a_approvals d /\ a_grants d' ⊆ a_grants d /\ calls_kept d d'
  /\ forall id call, a_calls d' !! id = Some call -> c_id call = id.

Definition keyed d : Prop :=
  (forall id r, a_approvals d !! id = Some r -> ap_id r = id)
  /\ forall id call, a_calls d !! id = Some call -> c_id call = id.

Definition minted_row d r call (request : InternalToolApprovalRequest) (scope : GrantScope) (at_ : Z) : grant_row :=
  let project := a_sessions d !! ap_session_id r ≫= as_project in
  MkGrantRow (if is_some project then None else Some (ap_session_id r)) project (c_name call)
    (standing_grant_key (raw_kind request)) (to_value scope) at_.

Inductive edit : Type :=
  | New (r : approval_row) | Claimed (id : Z) | Rebound | Swept | Judge (id : Z) (status : option AutoJudgeStatus)
  | Settle (id : Z) (decision : ApprovalDecisionKind) | Mint (id : Z) (scope : GrantScope)
  | Journal | Calls | Revoke (id : Z) | Outside.

Inductive estep : edit -> adb -> adb -> Prop :=
  | e_new d r : a_approvals d !! ap_id r = None ->
      estep (New r) d (with_approvals (<[ap_id r := r]> (a_approvals d)) d)
  | e_claim d id r epoch claim at_ : a_approvals d !! id = Some r -> row_pending r = true ->
      estep (Claimed id) d (with_approvals (<[id := set_claim epoch claim at_ r]> (a_approvals d)) d)
  | e_rebind d (which : approval_row -> bool) epoch claim at_ : (forall r, which r = true -> row_pending r = true) ->
      estep Rebound d (with_approvals ((fun r => if which r then set_claim (epoch r) claim at_ r else r) <$> a_approvals d) d)
  | e_sweep d (which : approval_row -> bool) at_ : (forall r, which r = true -> row_pending r = true) ->
      estep Swept d (with_approvals ((fun r => if which r
                       then set_settled (state_as_str Abandoned) (ap_feedback r) at_ (ap_actor r) r else r) <$> a_approvals d) d)
  | e_judge d id r status : a_approvals d !! id = Some r -> row_pending r = true ->
      estep (Judge id status) d (with_approvals (<[id := set_judge (judge_as_str <$> status) r]> (a_approvals d)) d)
  | e_settle d id r decision at_ actor : a_approvals d !! id = Some r -> row_pending r = true ->
      estep (Settle id decision) d
        (with_approvals (<[id := set_settled (state_as_str (decided_state decision).1) (decided_state decision).2
                                   at_ actor r]> (a_approvals d)) d)
  | e_mint d id r request call scope at_ :
      a_approvals d !! id = Some r -> ap_state r = state_as_str Approved -> from_value (ap_harness_raw r) = Some request ->
      a_grants d !! id = None -> a_calls d !! id = Some call -> c_name call = raw_tool_name request ->
      is_approvable (raw_kind request) = true -> grantable_at (raw_kind request) scope = true ->
      covers_call scope (c_name call) (c_arguments call) = true ->
      estep (Mint id scope) d (with_grants (<[id := minted_row d r call request scope at_]> (a_grants d)) d)
  | e_journal d events : estep Journal d (with_events events d)
  | e_calls d f : (forall call, same_identity call (f call)) -> estep Calls d (with_calls (f <$> a_calls d) d)
  | e_revoke d id : estep (Revoke id) d (with_grants (delete id (a_grants d)) d)
  | e_outside d d' : outside d d' -> estep Outside d d'.

Inductive esteps : list edit -> adb -> adb -> Prop :=
  | esteps_nil d : esteps [] d d
  | esteps_cons e es d d1 d' : estep e d d1 -> esteps es d1 d' -> esteps (e :: es) d d'.

Lemma esteps_app es es' d d1 d' : esteps es d d1 -> esteps es' d1 d' -> esteps (es ++ es') d d'.
Proof. induction 1; [done|]. intros. econstructor; eauto. Qed.
Lemma esteps_one e d d' : estep e d d' -> esteps [e] d d'.
Proof. intros. econstructor; [done|constructor]. Qed.

Lemma same_identity_refl call : same_identity call call.
Proof. done. Qed.
Lemma calls_kept_refl d d' : a_calls d' = a_calls d -> calls_kept d d'.
Proof. intros Hc id call Hid. rewrite Hc. eauto using same_identity_refl. Qed.
Lemma calls_kept_trans d d1 d' : calls_kept d d1 -> calls_kept d1 d' -> calls_kept d d'.
Proof.
  intros Ha Hb id call (call1 & (call2 & H2 & I2)%Hb & I1)%Ha. exists call2. split; [done|].
  unfold same_identity in *. intuition congruence.
Qed.

Lemma estep_calls e d d' : estep e d d' -> calls_kept d d'.
Proof.
  destruct 1; try (by apply calls_kept_refl).
  - intros id call Hid. cbn. rewrite lookup_fmap, Hid. eauto.
  - by destruct H1 as (_ & _ & ? & _).
Qed.
Lemma esteps_calls es d d' : esteps es d d' -> calls_kept d d'.
Proof. induction 1; [by apply calls_kept_refl|]. eauto using calls_kept_trans, estep_calls. Qed.

Lemma estep_keyed e d d' : estep e d d' -> keyed d -> keyed d'.
Proof.
  intros He [Ka Kc]. destruct He; split; cbn; try done; intros key x Hx.
  all: try (apply lookup_insert_Some in Hx as [[<- <-]|[_ Hx]]; [by cbn; eauto|by eauto]).
  - rewrite lookup_fmap in Hx. destruct (a_approvals d !! key) as [r|] eqn:Hk; [|done]. injection Hx as <-.
    destruct (which r); cbn; eauto.
  - rewrite lookup_fmap in Hx. destruct (a_approvals d !! key) as [r|] eqn:Hk; [|done]. injection Hx as <-.
    destruct (which r); cbn; eauto.
  - rewrite lookup_fmap in Hx. destruct (a_calls d !! key) as [call|] eqn:Hk; [|done]. injection Hx as <-.
    destruct (H1 call) as (Hid & _). rewrite <- Hid. eauto.
  - destruct H1 as (Happ & _). rewrite Happ in Hx. eauto.
  - destruct H1 as (_ & _ & _ & Hk). eauto.
Qed.
Lemma esteps_keyed es d d' : esteps es d d' -> keyed d -> keyed d'.
Proof. induction 1; eauto using estep_keyed. Qed.

(** ** Settled cards *)

Lemma pending_not_settled r s : row_pending r = true -> ap_state r = state_as_str s -> s = Pending.
Proof. unfold row_pending. intros ->%String.eqb_eq Hs. by apply state_tokens. Qed.

Lemma estep_final e d d' id r :
  estep e d d' -> a_approvals d !! id = Some r -> row_pending r = false -> a_approvals d' !! id = Some r.
Proof.
  intros He Hr Hp. destruct He; cbn; try done;
    try (rewrite lookup_insert_ne; [done|intros Heq; subst; congruence]).
  - rewrite lookup_fmap, Hr. cbn. destruct (which r) eqn:Hw; [|done]. by rewrite H1 in Hp.
  - rewrite lookup_fmap, Hr. cbn. destruct (which r) eqn:Hw; [|done]. by rewrite H1 in Hp.
  - destruct H1 as (-> & _). done.
Qed.
Lemma esteps_final es d d' id r :
  esteps es d d' -> a_approvals d !! id = Some r -> row_pending r = false -> a_approvals d' !! id = Some r.
Proof. induction 1; eauto using estep_final. Qed.

(** A card that an edit approves is a new one, or its settlement approves. *)
Definition is_approved d id : Prop := exists r, a_approvals d !! id = Some r /\ ap_state r = state_as_str Approved.

Lemma estep_approves e d d' id :
  estep e d d' -> ~ is_approved d id -> is_approved d' id ->
  (exists r, e = New r /\ ap_id r = id /\ ap_state r = state_as_str Approved)
  \/ exists decision, e = Settle id decision /\ (decided_state decision).1 = Approved.
Proof.
  intros He Hn (r' & Hr' & Hs'). destruct He; cbn in Hr'; try (exfalso; apply Hn; by exists r').
  - apply lookup_insert_Some in Hr' as [[<- <-]|[_ ?]]; [eauto|]. exfalso. apply Hn. by exists r'.
  - apply lookup_insert_Some in Hr' as [[<- <-]|[_ ?]]; [|exfalso; apply Hn; by exists r'].
    exfalso. apply Hn. exists r. by cbn in Hs'.
  - rewrite lookup_fmap in Hr'. destruct (a_approvals d !! id) as [r|] eqn:Hr; [|done]. injection Hr' as <-.
    exfalso. apply Hn. exists r. split; [done|]. by destruct (which r).
  - rewrite lookup_fmap in Hr'. destruct (a_approvals d !! id) as [r|] eqn:Hr; [|done]. injection Hr' as <-.
    exfalso. apply Hn. exists r. split; [done|]. by destruct (which r).
  - apply lookup_insert_Some in Hr' as [[<- <-]|[_ ?]]; [|exfalso; apply Hn; by exists r'].
    exfalso. apply Hn. exists r. by cbn in Hs'.
  - apply lookup_insert_Some in Hr' as [[<- <-]|[_ ?]]; [|exfalso; apply Hn; by exists r'].
    right. exists decision. split; [done|]. cbn in Hs'. by apply state_tokens.
  - destruct H1 as (Happ & _). exfalso. apply Hn. exists r'. by rewrite <- Happ.
Qed.
Lemma esteps_approves es d d' id :
  esteps es d d' -> ~ is_approved d id -> is_approved d' id ->
  exists e, e ∈ es /\ ((exists r, e = New r /\ ap_id r = id /\ ap_state r = state_as_str Approved)
    \/ exists decision, e = Settle id decision /\ (decided_state decision).1 = Approved).
Proof.
  induction 1 as [|e es d d1 d' He Hes IH]; intros Hn Ha; [done|].
  assert (is_approved d1 id \/ ~ is_approved d1 id) as [H1|H1].
  { unfold is_approved. destruct (a_approvals d1 !! id) as [r|] eqn:Er.
    - destruct (String.eqb_spec (ap_state r) (state_as_str Approved)); [left; eauto|right; naive_solver].
    - right. naive_solver. }
  - exists e. split; [by left|]. eauto using estep_approves.
  - destruct (IH H1 Ha) as (e' & Hin & He'). exists e'. split; [by right|done].
Qed.

(** ** The edits of a transaction *)

Definition traces {R A} (P : edit -> Prop) d (m : atxn R A) : Prop :=
  keyed d -> match m d with Ok (_, d') => exists es, esteps es d d' /\ Forall P es | Err _ => True end.

Lemma traces_pure {R A} P d (m : atxn R A) : (forall a d', m d = Ok (a, d') -> d' = d) -> traces P d m.
Proof. intros Hm _. destruct (m d) as [[a d']|] eqn:E; [|done]. rewrite (Hm _ _ eq_refl). exists []. by repeat constructor. Qed.
Lemma traces_one {R A} (P : edit -> Prop) d (m : atxn R A) e :
  P e -> (keyed d -> forall a d', m d = Ok (a, d') -> estep e d d') -> traces P d m.
Proof. intros Hp Hm Hk. destruct (m d) as [[a d']|] eqn:E; [|done]. exists [e]. split; [by eapply esteps_one, Hm|by constructor]. Qed.
Lemma traces_bind {R A B} P d (m : atxn R A) (k : A -> atxn R B) :
  traces P d m -> (forall a d', m d = Ok (a, d') -> keyed d' -> traces P d' (k a)) -> traces P d (m ≫= k).
Proof.
  intros Hm Hk K. specialize (Hm K). unfold mbind, stm_bind. destruct (m d) as [[a d1]|] eqn:E; [|done].
  destruct Hm as (es & Hes & HP). pose proof (esteps_keyed _ _ _ Hes K) as K1.
  specialize (Hk _ _ eq_refl K1 K1). destruct (k a d1) as [[b d']|]; [|done].
  destruct Hk as (es' & Hes' & HP'). exists (es ++ es'). split; [by eapply esteps_app|]. by apply Forall_app.
Qed.
Lemma traces_for_each {R A} P (f : A -> atxn R unit) l d : (forall x d, traces P d (f x)) -> traces P d (for_each f l).
Proof.
  intros Hf. revert d. induction l as [|x l IH]; intros d; cbn; [by apply traces_pure; intros ?? [= <- <-]|].
  apply traces_bind; [apply Hf|]. intros _ d' _ _. apply IH.
Qed.
Lemma traces_fold_each {R A B} P (f : A -> B -> atxn R B) l b d :
  (forall x b d, traces P d (f x b)) -> traces P d (fold_each f l b).
Proof.
  intros Hf. revert b d. induction l as [|x l IH]; intros b d; cbn; [by apply traces_pure; intros ?? [= <- <-]|].
  apply traces_bind; [apply Hf|]. intros b' d' _ _. apply IH.
Qed.

Lemma traces_ret {R A} P d (a : A) : traces (R := R) P d (mret a).
Proof. by apply traces_pure; intros ?? [= <- <-]. Qed.
Lemma traces_get {R} P d : traces (R := R) P d get.
Proof. by apply traces_pure; intros ?? [= <- <-]. Qed.
Lemma traces_fail {R A} P d e : traces (R := R) (A := A) P d (fail e).
Proof. by apply traces_pure. Qed.
Lemma traces_atry {R A} P d (r : result AgentError A) : traces (R := R) P d (atry r).
Proof. destruct r; [apply traces_ret|apply traces_fail]. Qed.

(** Steps that write nothing *)
Ltac reads := unfold aerr, arollback; repeat case_match; first [apply traces_ret|apply traces_get|apply traces_fail|apply traces_atry].
Ltac seq_reads := apply traces_bind; [reads|]; intros ? ? ? ?.

Lemma insert_aevent_traces {R} (P : edit -> Prop) d e : P Journal -> traces (R := R) P d (insert_aevent e).
Proof.
  intros HP. apply (traces_one _ _ _ Journal); [done|]. intros _ a d'. unfold insert_aevent, mbind, stm_bind, get, modify.
  cbn. destruct (existsb _ _); [done|]. injection 1 as _ <-. constructor.
Qed.
Lemma append_locked_traces {R} (P : edit -> Prop) d owner session event :
  P Journal -> traces (R := R) P d (append_event_on_locked owner session event).
Proof.
  intros HP. unfold append_event_on_locked. seq_reads. destruct (next_seq_of _ _); [|reads].
  apply traces_bind; [by apply insert_aevent_traces|]. intros. reads.
Qed.
Lemma append_required_traces {R} (P : edit -> Prop) d chat turn lease ordinal required :
  P Journal -> traces (R := R) P d (append_required_on chat turn lease ordinal required).
Proof.
  intros HP. unfold append_required_on. seq_reads. destruct (next_seq_of _ _); [|reads]. destruct (_ !! _); [|reads].
  apply traces_bind; [by apply insert_aevent_traces|]. intros. reads.
Qed.

Lemma mint_traces {R} (P : edit -> Prop) d id r scope at_ :
  P (Mint id scope) -> a_approvals d !! id = Some r -> ap_state r = state_as_str Approved ->
  traces (R := R) P d (mint_standing_grant_on r scope at_).
Proof.
  intros HP Hr Hs K. pose proof (proj1 K _ _ Hr) as Hid. unfold mint_standing_grant_on.
  destruct (from_value (ap_harness_raw r)) as [request|] eqn:Hraw; [|done]. unfold mbind, stm_bind, get. rewrite Hid.
  destruct (a_grants d !! id) eqn:Hg; [by exists []; repeat constructor|]. cbn [is_some].
  destruct (a_calls d !! id) as [call|] eqn:Hc; [|done].
  destruct (negb (String.eqb _ _) || _ || _ || _) eqn:Hck; [done|].
  rewrite !orb_false_iff, !negb_false_iff in Hck. destruct Hck as [[[Hn Ha] Hga] Hco].
  apply String.eqb_eq in Hn. destruct (grant_row_ok _); [|done]. unfold modify.
  exists [Mint id scope]. split; [|by constructor]. apply esteps_one. by eapply e_mint.
Qed.

Lemma settle_traces {R} (P : edit -> Prop) d owner id session epoch c decision at_ actor :
  P (Settle id decision) -> P Journal -> (forall scope, decision = DecApprovedWithGrant scope -> P (Mint id scope)) ->
  traces (R := R) P d (settle_approval_on_locked owner id session epoch c decision at_ actor).
Proof.
  intros HS HJ HM. unfold settle_approval_on_locked. apply traces_bind; [reads|]. intros d0 d' [= <- <-] K.
  destruct (a_approvals d !! id) as [r|] eqn:Hr; [|reads].
  destruct (negb _) eqn:Hset; [reads|]. apply negb_false_iff in Hset. unfold settles in Hset.
  rewrite !andb_true_iff in Hset. destruct Hset as [[_ Hp] _]. destruct (decided_state decision) as [state feedback] eqn:Hd.
  set (r' := set_settled (state_as_str state) feedback at_ actor r).
  apply traces_bind.
  { apply (traces_one _ _ _ (Settle id decision)); [done|]. intros _ a d'. injection 1 as _ <-.
    pose proof (e_settle d id r decision at_ actor Hr Hp) as He. by rewrite Hd in He. }
  intros _ d1 [= <-] K1. apply traces_bind.
  { destruct decision; try reads. eapply (mint_traces _ _ id).
    - by apply HM. - subst d1. apply lookup_insert_eq. - cbn in Hd. by injection Hd as <- <-. }
  intros _ d2 _ K2. apply traces_bind; [by apply append_locked_traces|]. intros seq d3 _ K3. seq_reads. reads.
Qed.
Lemma settle_row_traces {R} (P : edit -> Prop) d r c decision at_ :
  P (Settle (ap_id r) decision) -> P Journal -> (forall scope, decision = DecApprovedWithGrant scope -> P (Mint (ap_id r) scope)) ->
  traces (R := R) P d (settle_row_on r c decision at_).
Proof.
  intros. unfold settle_row_on. apply traces_bind; [unfold owner_new; reads|].
  intros owner d' _ _. destruct (ap_worker_epoch r); [by apply settle_traces|reads].
Qed.

(** ** Operations *)

Inductive aop : Type :=
  | OpJournaled (q : ApprovalRequest) (lease_token ordinal now : Z)
  | OpRequest (q : ApprovalRequest) (requested_at : Z)
  | OpDecide (chat_id call_id : Z) (decision : ApprovalDecision) (now : Z)
  | OpDecideGrant (chat_id call_id : Z) (decision : ApprovalDecision) (g : StandingGrant) (now : Z)
  | OpJudge (chat_id call_id : Z) (approved : bool) (now : Z)
  | OpWorkerCard (owner : string) (a : Approval)
  | OpClaim (owner : string) (id session_id worker_epoch claim claimed_at : Z)
  | OpSettle (owner : string) (id session_id worker_epoch : Z) (c : ApprovalClaim) (decision : ApprovalDecisionKind)
      (decided_at : Z) (actor : option TurnActor)
  | OpStopped (owner : string) (session_id epoch decided_at : Z)
  | OpRebind (owner : string) (session_id turn_id to_epoch : Z)
  | OpRevoke (source_call_id : Z) (owner : option string)
  | OpCloseTurn (turn_id now : Z)
  | OpCancelTurn (turn_id now : Z)
  | OpAbandonCall (call_id now : Z)
  | OpCheckpoint (call : ToolCallRecord WireNumber) (at_ : Z)
  | OpAnswer (chat_id call_id : Z) (answers : AnswerUserQuestions) (answered_at now : Z) (b : ParkBeside) (read : adb)
  | OpPlan (chat_id call_id : Z) (p : PlanDecision) (decided_at now : Z) (b : ParkBeside) (read : adb)
  | OpManagedCard (owner : string) (a : Approval)
  | OpManagedSettle (owner : string) (id session_id epoch : Z) (decision : ApprovalDecisionKind) (at_ : Z)
      (actor : option TurnActor)
  | OpRecover (owner : string) (session_id epoch : Z) (e : RecoveryExpectation) (durable_parks : bool) (now : Z)
  | OpDeleteChat (chat_id : Z) (owner : option string) (b : ChatBeside)
  | OpErase (chat_id : Z)
  | OpDeleteProject (id : Z) (owner : option string) (has_documents_or_roots : bool)
  | OpOutside (d' : adb).

Definition run_op (op : aop) d : adb :=
  match op with
  | OpJournaled q lease ordinal now => (request_and_append_event q lease ordinal now d).2
  | OpRequest q at_ => (request q at_ d).2
  | OpDecide chat id decision now => (decide chat id decision now d).2
  | OpDecideGrant chat id decision g now => (decide_with_grant chat id decision g now d).2
  | OpJudge chat id approved now => (resolve_from_judge chat id approved now d).2
  | OpWorkerCard owner a => (insert_approval_for_worker owner a d).2
  | OpClaim owner id session epoch claim at_ => (claim_approval owner id session epoch claim at_ d).2
  | OpSettle owner id session epoch c decision at_ actor => (settle_approval owner id session epoch c decision at_ actor d).2
  | OpStopped owner session epoch at_ => (abandon_pending_approvals_for_stopped_session owner session epoch at_ d).2
  | OpRebind owner session turn epoch => (rebind_pending_approvals_to_worker owner session turn epoch d).2
  | OpRevoke id owner => (revoke_standing_grant id owner d).2
  | OpCloseTurn turn now => (abegin (close_pending_for_terminal_turn_on turn now) d).2
  | OpCancelTurn turn now => (abegin (reject_pending_for_cancelling_turn_on turn now) d).2
  | OpAbandonCall id now => (abegin (abandon_pending_for_call_on id now) d).2
  | OpCheckpoint call at_ => (abegin (checkpoint_on call at_) d).2
  | OpAnswer chat id answers answered_at now b read => (answer chat id answers answered_at now b read d).2
  | OpPlan chat id p decided_at now b read => (decide_plan chat id p decided_at now b read d).2
  | OpManagedCard owner a => (abegin (enqueue_managed_decision_on owner a) d).2
  | OpManagedSettle owner id session epoch decision at_ actor => (abegin (settle_managed_on owner id session epoch decision at_ actor) d).2
  | OpRecover owner session epoch e durable_parks now => (settle_interrupted_session owner session epoch e durable_parks now d).2
  | OpDeleteChat chat owner b => (delete_chat chat owner b d).2
  | OpErase chat => erase_quiesced_chat chat d
  | OpDeleteProject id owner b => (delete_project id owner b d).2
  | OpOutside d' => d'
  end.

(** What a worker of another engine puts up is pending and not judged.  [OpErase]
    is the erasure [prune_empty_chat] and [discard_branch] make: their conditions
    are left out, so a history may erase any chat. *)
Definition op_ok (op : aop) d : Prop :=
  match op with
  | OpWorkerCard _ a | OpManagedCard _ a => cd_state a = Pending /\ cd_auto_judge_status a = None
  | OpOutside d' => outside d d'
  | _ => True
  end.

(** The chat an operation deletes *)
Definition deletion (op : aop) : option Z :=
  match op with OpDeleteChat chat_id _ _ | OpErase chat_id => Some chat_id | _ => None end.

Inductive history : list aop -> adb -> adb -> Prop :=
  | history_nil d : history [] d d
  | history_cons op ops d d' : op_ok op d -> history ops (run_op op d) d' -> history (op :: ops) d d'.

(** *** Which edits an operation may make *)

(** What a card for [q] is put up with: no grant and the judge the request
    may have, or a stored grant that covers the call *)
Definition backed (q : ApprovalRequest) d (s : asession) call judge (granted : option Z) : Prop :=
  match granted with
  | None => judge = judge_of q (c_arguments call)
  | Some source =>
      judge = None /\ exists g grant, a_grants d !! source = Some g /\ grant_of_row g = Some grant
        /\ grant_covers grant (ar_chat_id q) (as_project s) (c_name call) (ar_kind q) (c_arguments call) = true
  end.
(** A card put up for a call, or decided by a grant that covers it *)
Definition requested_row (q : ApprovalRequest) d r : Prop :=
  exists s call scopes at_ judge granted,
    a_sessions d !! ar_chat_id q = Some s /\ a_calls d !! ar_call_id q = Some call /\ same_call q call = true
    /\ r = approval_active_model (as_owner s) (tool_use_approval (ar_chat_id q) s call q scopes at_ judge granted)
    /\ backed q d s call judge granted.

Definition may_put_up (op : aop) d r : Prop :=
  match op with
  | OpJournaled q _ _ _ | OpRequest q _ => requested_row q d r
  | OpWorkerCard owner a | OpManagedCard owner a => r = approval_active_model owner a
  | OpCheckpoint call at_ => exists owner s p, r = approval_active_model owner (park_card s call p at_)
  | _ => False
  end.

(** The judge owns the card: it is pending, unclaimed and marked. *)
Definition judged d id : Prop :=
  exists r, a_approvals d !! id = Some r /\ ap_auto_judge_status r = Some (judge_as_str Judging)
    /\ ap_decision_claim r = None.

(** The card waits on a call of that chat. *)
Definition parked d (chat_id id : Z) : Prop :=
  exists r call, a_approvals d !! id = Some r /\ row_pending r = true /\ ap_session_id r = chat_id
    /\ a_calls d !! id = Some call /\ c_chat_id call = chat_id.

Definition may_settle (op : aop) d id (decision : ApprovalDecisionKind) : Prop :=
  match op with
  | OpDecide chat_id call_id answer _ => id = call_id /\ decision = decision_kind answer /\ parked d chat_id id
  | OpDecideGrant chat_id call_id answer g _ =>
      id = call_id /\ answer = Approve /\ decision = DecApprovedWithGrant (g_scope g) /\ parked d chat_id id
  | OpJudge chat_id call_id approved _ =>
      id = call_id /\ approved = true /\ decision = DecApprove /\ judged d id /\ parked d chat_id id
  | OpSettle _ id' _ _ c answer _ _ =>
      id = id' /\ decision = answer /\ exists r, a_approvals d !! id = Some r /\ holds c r = true
  | OpAnswer chat_id call_id _ _ _ _ _ =>
      id = call_id /\ (exists answers, decision = DecAnswered answers) /\ parked d chat_id id
  | OpPlan chat_id call_id p _ _ _ _ =>
      id = call_id /\ decision = DecPlanDecided (bool_decide (pd_decision p = PlanAccept)) (pd_feedback p) /\ parked d chat_id id
  | OpManagedSettle _ id' _ _ answer _ _ =>
      id = id' /\ decision = answer /\ exists r, a_approvals d !! id = Some r /\ holds Unclaimed r = true
  | OpStopped _ _ _ _ | OpCloseTurn _ _ | OpAbandonCall _ _ => decision = DecAbandoned
  | OpCancelTurn _ _ => decision = DecDeny (Some CANCELLED_REASON)
  | _ => False
  end.

Definition may (op : aop) d (e : edit) : Prop :=
  match e with
  | New r => may_put_up op d r
  | Claimed _ => match op with OpClaim _ _ _ _ _ _ => True | _ => False end
  | Rebound => match op with OpRebind _ _ _ _ | OpRecover _ _ _ _ _ _ => True | _ => False end
  | Swept => match op with OpRecover _ _ _ _ _ _ => True | _ => False end
  | Judge id status =>
      status <> Some Judging
      /\ match op with
         | OpDecide _ call_id _ _ | OpDecideGrant _ call_id _ _ _ => id = call_id /\ status = None
         | OpJudge _ call_id _ _ => id = call_id /\ judged d id
         | _ => False
         end
  | Settle id decision => may_settle op d id decision
  | Mint id scope => may_settle op d id (DecApprovedWithGrant scope)
  | Journal => True
  | Calls => match op with OpCloseTurn _ _ => True | _ => False end
  | Revoke id => match op with OpRevoke id' _ => id = id' | _ => False end
  | Outside =>
      match op with
      | OpOutside _ | OpAnswer _ _ _ _ _ _ _ | OpPlan _ _ _ _ _ _ _ | OpRecover _ _ _ _ _ _ | OpDeleteProject _ _ _ => True
      | _ => False
      end
  end.

Definition op_traces (op : aop) d d' : Prop := exists es, esteps es d d' /\ Forall (may op d) es.

Lemma op_traces_none op d : op_traces op d d.
Proof. exists []. by repeat constructor. Qed.
Lemma abegin_traces {R} op d (m : atxn R R) : keyed d -> traces (may op d) d m -> op_traces op d (abegin m d).2.
Proof.
  intros K Hm. specialize (Hm K). unfold abegin. destruct (m d) as [[a d']|[]]; [exact Hm|apply op_traces_none..].
Qed.

(** *** Putting up *)

Lemma mint_card_traces {R} (P : edit -> Prop) d s a call :
  P (New (approval_active_model (as_owner s) a)) -> traces (R := R) P d (mint_card_on s a call).
Proof.
  intros HP. unfold mint_card_on. apply traces_bind; [unfold owner_new; reads|]. intros owner d1 Ho _.
  assert (owner = as_owner s /\ d1 = d) as [-> ->].
  { unfold owner_new in Ho. destruct (owner_id_ok _); [by injection Ho as <- <-|done]. }
  apply traces_bind.
  { apply (traces_one _ _ _ (New (approval_active_model (as_owner s) a))); [done|]. intros _ u d'.
    unfold insert_approval_on, mbind, stm_bind, get, modify. destruct (a_approvals d !! cd_id a) eqn:Hn; [done|].
    injection 1 as _ <-. by apply e_new. }
  intros _ d2 _ _. unfold find_approval_row_on. apply traces_bind; [apply traces_bind; intros; reads|].
  intros. reads.
Qed.

Lemma matching_grant d chat project name k arguments source :
  matching_standing_grant d chat project name k arguments = Some source ->
  exists g grant, a_grants d !! source = Some g /\ grant_of_row g = Some grant
    /\ grant_covers grant chat project name k arguments = true.
Proof.
  unfold matching_standing_grant. destruct (negb _); [done|]. intros ([id g] & Hin & Hf)%find_map_Some.
  unfold grants_newest_first in Hin. rewrite (merge_sort_Permutation newer) in Hin. apply elem_of_map_to_list in Hin.
  repeat case_match; simplify_eq. eauto.
Qed.

Lemma session_row_ok {R} d chat (s : asession) d' :
  session_row (R := R) chat d = Ok (s, d') -> d' = d /\ a_sessions d !! chat = Some s.
Proof. unfold session_row, mbind, stm_bind, get. destruct (a_sessions d !! chat); [by injection 1 as -> ->|done]. Qed.

Definition asks (op : aop) (q : ApprovalRequest) : Prop :=
  match op with OpJournaled q' _ _ _ | OpRequest q' _ => q' = q | _ => False end.
Lemma requested_new d op q s call :
  asks op q -> a_sessions d !! ar_chat_id q = Some s -> a_calls d !! ar_call_id q = Some call -> same_call q call = true ->
  forall scopes at_ judge granted, backed q d s call judge granted ->
    may op d (New (approval_active_model (as_owner s) (tool_use_approval (ar_chat_id q) s call q scopes at_ judge granted))).
Proof. intros Hop Hs Hc Hsame scopes at_ judge granted Hg. destruct op; try done; cbn in *; subst q0; repeat eexists; eauto. Qed.

Lemma journal_card_traces d op q t call lease ordinal now :
  asks op q ->
  a_calls d !! ar_call_id q = Some call -> same_call q call = true ->
  traces (may op d) d (journal_card q t call lease ordinal now).
Proof.
  intros Hop Hc Hsame. unfold journal_card. apply traces_bind; [unfold session_row; apply traces_bind; intros; reads|].
  intros s d1 [-> Hs]%session_row_ok _. apply traces_bind; [reads|]. intros d0 d1 [= <- <-] _.
  assert (Hnew := requested_new d op q s call Hop Hs Hc Hsame).
  destruct (matching_standing_grant _ _ _ _ _ _) as [source|] eqn:Hm.
  - apply traces_bind; [|intros; reads]. apply mint_card_traces, Hnew. split; [done|]. by apply matching_grant.
  - apply traces_bind; [by apply append_required_traces|]. intros seq d1 _ _.
    apply traces_bind; [|intros; reads]. apply mint_card_traces. by apply Hnew.
Qed.

Lemma journaled_traces d op q lease ordinal now :
  asks op q ->
  traces (may op d) d (request_and_append_event_on q lease ordinal now).
Proof.
  intros Hop. unfold request_and_append_event_on. apply traces_bind; [reads|]. intros d0 d1 [= <- <-] _.
  destruct (a_sessions d !! _); [|reads]. destruct (a_turns d !! _) as [t|]; [|reads].
  destruct (a_calls d !! _) as [call|] eqn:Hc; [|reads]. destruct (same_call q call) eqn:Hsame; cbn [negb orb].
  - destruct (a_approvals d !! c_id call) as [r|]; [|destruct (_ || _); [reads|by apply journal_card_traces]].
    seq_reads. destruct (negb _); [reads|]. seq_reads. reads.
  - reads.
Qed.

Lemma request_traces d op q at_ :
  asks op q -> traces (may op d) d (request_on q at_).
Proof.
  intros Hop. unfold request_on. apply traces_bind; [reads|]. intros d0 d1 [= <- <-] _.
  destruct (a_sessions d !! _); [|reads]. destruct (a_calls d !! _) as [call|] eqn:Hc; [|reads].
  destruct (negb (same_call q call) || _) eqn:Hsame; [reads|]. apply orb_false_iff in Hsame as [Hsame%negb_false_iff _].
  destruct (a_approvals d !! c_id call) as [r|]; [seq_reads; reads|]. destruct (negb _); [reads|].
  apply traces_bind; [unfold session_row; apply traces_bind; intros; reads|]. intros s d1 [-> Hs]%session_row_ok _.
  assert (Hnew := requested_new d op q s call Hop Hs Hc Hsame).
  destruct (matching_standing_grant _ _ _ _ _ _) as [source|] eqn:Hm.
  - apply traces_bind; [|intros; reads]. apply mint_card_traces, Hnew. split; [done|]. by apply matching_grant.
  - apply traces_bind; [|intros; reads]. apply mint_card_traces. by apply Hnew.
Qed.

(** *** Deciding *)

(** What the card parked on a call is found to be *)
Lemma parked_card {R} d chat id found d' :
  pending_tool_approval (R := R) chat id d = Ok (found, d') ->
  d' = d /\ match found with
            | None => True
            | Some (r, call, current) =>
                a_approvals d !! id = Some r /\ a_calls d !! id = Some call /\ tool_approval_from_rows r call = Ok current
                /\ ap_session_id r = chat /\ c_chat_id call = chat /\ is_Some (a_sessions d !! chat)
            end.
Proof.
  unfold pending_tool_approval, mbind, stm_bind, get. destruct (a_sessions d !! chat) eqn:Hs; [|by injection 1 as <- <-].
  destruct (a_calls d !! id) as [call|] eqn:Hc; [|by injection 1 as <- <-].
  destruct (a_approvals d !! id) as [r|] eqn:Hr; [|by injection 1 as <- <-].
  destruct (negb _ || _) eqn:Hi; [by injection 1 as <- <-|]. destruct (negb (is_some _)); [by injection 1 as <- <-|].
  destruct (tool_approval_from_rows r call) as [current|] eqn:Ht; [|done]. cbn. injection 1 as <- <-.
  apply orb_false_iff in Hi as [Ha%negb_false_iff%Z.eqb_eq Hb%negb_false_iff%Z.eqb_eq]. by split_and!.
Qed.
Lemma parked_traces {R} P d chat id : traces (R := R) P d (pending_tool_approval chat id).
Proof. apply traces_pure. by intros a d' []%parked_card. Qed.

Lemma tool_status_pending state feedback : (tool_status state feedback).1 = StatusPending <-> state = Pending.
Proof. by destruct state. Qed.
Lemma card_of_row r call current : tool_approval_from_rows r call = Ok current ->
  exists request a, from_value (ap_harness_raw r) = Some request /\ approval_from_row r = Ok a
    /\ raw_tool_name request = c_name call /\ ta_kind current = raw_kind request
    /\ ta_status current = (tool_status (cd_state a) (cd_feedback a)).1
    /\ ta_reason current = (tool_status (cd_state a) (cd_feedback a)).2
    /\ ta_judge current = cd_auto_judge_status a /\ ta_requested_at current = cd_requested_at a
    /\ (is_some (granted_by request) = true -> cd_state a = Approved)
    /\ current = MkToolApproval (ap_id r) (ap_session_id r) (ap_turn_id r) (c_name call) (class_of_kind (raw_kind request))
            (raw_kind request) (build (c_name call) (c_arguments call))
            (describes_exactly (c_name call) (c_arguments call)) (is_some (granted_by request))
            (cd_auto_judge_status a) (tool_status (cd_state a) (cd_feedback a)).1
            (tool_status (cd_state a) (cd_feedback a)).2 (cd_requested_at a) (cd_decided_at a).
Proof.
  unfold tool_approval_from_rows. destruct (from_value _) as [request|]; [|done].
  destruct (negb (String.eqb _ _)) eqn:Hn; [done|]. apply negb_false_iff, String.eqb_eq in Hn.
  destruct (approval_from_row r) as [a|]; [|done]. cbn. destruct (is_some _ && _) eqn:Hg; [done|].
  destruct (tool_status _ _) as [status reason] eqn:Hs. injection 1 as <-. exists request, a.
  rewrite !Hs. cbn. split_and!; try done.
  intros Hsome. rewrite Hsome in Hg. cbn in Hg. by apply negb_false_iff, bool_decide_eq_true in Hg.
Qed.
Lemma row_of_card r a : approval_from_row r = Ok a ->
  ap_state r = state_as_str (cd_state a) /\ ap_auto_judge_status r = judge_as_str <$> cd_auto_judge_status a
  /\ cd_feedback a = ap_feedback r /\ cd_requested_at a = ap_requested_at r /\ cd_decided_at a = ap_decided_at r.
Proof.
  unfold approval_from_row. destruct (state_from_str _) as [state|] eqn:Hs; [|done]. apply state_read in Hs.
  destruct (from_value _); [|done]. destruct (ap_auto_judge_status r) as [token|].
  - destruct (judge_from_str token) as [judge|] eqn:Hj; [|done]. apply judge_read in Hj. injection 1 as <-. cbn. by subst.
  - injection 1 as <-. done.
Qed.

Lemma card_pending r call current : tool_approval_from_rows r call = Ok current ->
  row_pending r = bool_decide (ta_status current = StatusPending).
Proof.
  intros (request & a & _ & (Hs & _)%row_of_card & _ & _ & Hst & _)%card_of_row. unfold row_pending. rewrite Hs, Hst.
  by destruct (cd_state a).
Qed.

Lemma card_parked d chat id r call current :
  a_approvals d !! id = Some r -> a_calls d !! id = Some call -> tool_approval_from_rows r call = Ok current ->
  ap_session_id r = chat -> c_chat_id call = chat -> ta_status current = StatusPending -> parked d chat id.
Proof.
  intros Hr Hc Ht Hs Hch Hst. exists r, call. split_and!; try done. rewrite (card_pending _ _ _ Ht).
  by apply bool_decide_eq_true_2.
Qed.

Lemma judge_traces {R} (P : edit -> Prop) d id r status :
  P (Judge id status) -> a_approvals d !! id = Some r -> row_pending r = true ->
  traces (R := R) P d (set_auto_judge_status_on id status).
Proof.
  intros HP Hr Hp. apply (traces_one _ _ _ (Judge id status)); [done|]. intros _ a d'. injection 1 as _ <-.
  pose proof (e_judge d id r status Hr Hp) as He. rewrite (alter_as_insert _ _ _ _ Hr). done.
Qed.

Lemma settle_decision_traces (P : edit -> Prop) d r call current decision now :
  tool_approval_from_rows r call = Ok current -> ta_status current = StatusPending -> a_approvals d !! ap_id r = Some r ->
  P (Judge (ap_id r) None) -> P (Settle (ap_id r) decision) -> P Journal ->
  (forall scope, decision = DecApprovedWithGrant scope -> P (Mint (ap_id r) scope)) ->
  traces P d (settle_decision r call current decision now).
Proof.
  intros Ht Hst Hr HJ HS HN HM. unfold settle_decision. pose proof (card_pending _ _ _ Ht) as Hp.
  rewrite bool_decide_eq_true_2 in Hp by done. apply traces_bind.
  { destruct (bool_decide (ta_judge current = _)); [by eapply judge_traces|reads]. }
  intros _ d1 _ _. apply traces_bind; [by apply settle_row_traces|]. intros [settled|] d2 _ _; [|reads].
  unfold find_approval_row_on. apply traces_bind; [apply traces_bind; intros; reads|].
  intros [r'|] d3 _ _; [|reads]. seq_reads. reads.
Qed.

Lemma decide_traces d chat id decision now :
  traces (may (OpDecide chat id decision now) d) d (decide_on chat id decision now).
Proof.
  unfold decide_on. apply traces_bind; [apply parked_traces|]. intros found d' Hf K.
  apply parked_card in Hf as [-> Hf]. destruct found as [[[r call] current]|]; [|reads].
  destruct Hf as (Hr & Hc & Ht & Hse & Hch & _). destruct (negb (bool_decide _)) eqn:Hst; [reads|].
  apply negb_false_iff, bool_decide_eq_true in Hst. pose proof (card_parked _ _ _ _ _ _ Hr Hc Ht Hse Hch Hst) as Hpk. destruct (negb _); [reads|].
  pose proof (proj1 K _ _ Hr) as Hid. apply settle_decision_traces; rewrite ?Hid; cbn; try done.
Qed.
Lemma decide_grant_traces d chat id g now :
  traces (may (OpDecideGrant chat id Approve g now) d) d (decide_with_grant_on chat id g now).
Proof.
  unfold decide_with_grant_on. apply traces_bind; [apply parked_traces|]. intros found d' Hf K.
  apply parked_card in Hf as [-> Hf]. destruct found as [[[r call] current]|]; [|reads].
  destruct Hf as (Hr & Hc & Ht & Hse & Hch & _). apply traces_bind; [reads|]. intros d0 d1 [= <- <-] _.
  destruct (negb (bool_decide _)) eqn:Hst; [reads|].
  apply negb_false_iff, bool_decide_eq_true in Hst. pose proof (card_parked _ _ _ _ _ _ Hr Hc Ht Hse Hch Hst) as Hpk.
  apply traces_bind; [unfold session_row; apply traces_bind; intros; reads|]. intros s d1 [-> Hs]%session_row_ok _.
  destruct (_ || _); [reads|]. pose proof (proj1 K _ _ Hr) as Hid.
  apply settle_decision_traces; rewrite ?Hid; cbn; try done.
Qed.
Lemma judge_op_traces d chat id approved now :
  traces (may (OpJudge chat id approved now) d) d (resolve_from_judge_on chat id approved now).
Proof.
  unfold resolve_from_judge_on. apply traces_bind; [apply parked_traces|]. intros found d' Hf K.
  apply parked_card in Hf as [-> Hf]. destruct found as [[[r call] current]|]; [|reads].
  destruct Hf as (Hr & Hc & Ht & Hse & Hch & _). pose proof (proj1 K _ _ Hr) as Hid.
  destruct (_ || _ || _ || _) eqn:Hg; [reads|]. rewrite !orb_false_iff, !negb_false_iff in Hg.
  destruct Hg as [[[_ Hst%bool_decide_eq_true] Hj%bool_decide_eq_true] Hcl].
  pose proof (card_parked _ _ _ _ _ _ Hr Hc Ht Hse Hch Hst) as Hpk.
  pose proof (card_pending _ _ _ Ht) as Hp. rewrite bool_decide_eq_true_2 in Hp by done.
  assert (Hjudged : judged d id).
  { exists r. split; [done|]. apply card_of_row in Ht as (request & a & _ & (_ & Hja & _)%row_of_card & _ & _ & _ & _ & Hta & _).
    rewrite Hja, <- Hta, Hj. split; [done|]. by destruct (ap_decision_claim r). }
  rewrite Hid. destruct approved; cbn [negb].
  - apply traces_bind; [by eapply judge_traces|]. intros _ d1 _ _.
    apply traces_bind; [apply settle_row_traces; rewrite ?Hid; done|]. intros [|] d2 _ _; reads.
  - apply traces_bind; [by eapply judge_traces|]. intros. reads.
Qed.

(** *** Workers and sweeps *)

Lemma fold_abandon_traces (P : edit -> Prop) d owner session epoch at_ rows l :
  (forall id, P (Settle id DecAbandoned)) -> P Journal ->
  traces P d (fold_each (abandon_stopped owner session epoch at_) rows l).
Proof.
  intros HS HJ. apply traces_fold_each. intros r l' d'. unfold abandon_stopped.
  apply traces_bind; [by apply settle_traces|]. intros. reads.
Qed.
Lemma pending_rows_traces {R} P d (turn : Z) : traces (R := R) P d (pending_rows_for_turn turn).
Proof. unfold pending_rows_for_turn. apply traces_bind; intros; reads. Qed.

Lemma sweep_traces {R} (P : edit -> Prop) d now (decision : ApprovalDecisionKind) :
  (forall id, P (Settle id decision)) -> P Journal -> (forall scope, decision <> DecApprovedWithGrant scope) ->
  forall rows, traces (R := R) P d
    (for_each (fun r => _ ← settle_row_on r (claim_of_row r) decision (Z.max now (ap_requested_at r)); mret tt) rows).
Proof.
  intros HS HJ HN rows. apply traces_for_each. intros r d'. apply traces_bind; [|intros; reads].
  apply settle_row_traces; [done..|]. intros scope Heq. by destruct (HN scope).
Qed.

(** *** Parks, managed decisions, recovery and deletions *)

Lemma append_chat_traces {R} (P : edit -> Prop) d chat event :
  P Journal -> traces (R := R) P d (append_chat_event_on chat event).
Proof.
  intros HP. unfold append_chat_event_on. seq_reads. destruct (next_seq_of _ _); [|reads]. destruct (_ !! _); [|reads].
  apply traces_bind; [by apply insert_aevent_traces|]. intros. reads.
Qed.
Lemma insert_traces {R} (P : edit -> Prop) d owner a :
  P (New (approval_active_model owner a)) -> traces (R := R) P d (insert_approval_on owner a).
Proof.
  intros HP. apply (traces_one _ _ _ (New (approval_active_model owner a))); [done|]. intros _ u d'.
  unfold insert_approval_on, mbind, stm_bind, get, modify. destruct (a_approvals d !! cd_id a) eqn:Hn; [done|].
  injection 1 as _ <-. by apply e_new.
Qed.
Lemma session_row_reads {R} (P : edit -> Prop) d chat : traces (R := R) P d (session_row chat).
Proof. unfold session_row. apply traces_bind; intros; reads. Qed.
Lemma outside_traces {R} (P : edit -> Prop) d (f : adb -> adb) :
  P Outside -> (keyed d -> outside d (f d)) -> traces (R := R) P d (modify f).
Proof. intros HP Hf. apply (traces_one _ _ _ Outside); [done|]. intros K u d' [= <- <-]. by apply e_outside, Hf. Qed.

Lemma checkpoint_traces call at_ d :
  traces (may (OpCheckpoint call at_) d) d (checkpoint_on (R := option Z) call at_).
Proof.
  unfold checkpoint_on. apply traces_bind; [reads|]. intros [p|] d1 _ _; [|reads].
  apply traces_bind; [by apply append_chat_traces|]. intros seq d2 _ _.
  apply traces_bind; [apply session_row_reads|]. intros s d3 _ _. apply traces_bind; [unfold owner_new; reads|].
  intros owner d4 _ _. apply traces_bind; [|intros; reads]. apply insert_traces. cbn. eauto.
Qed.

(** A settlement by whoever holds the card *)
Lemma settles_only_held op d owner id session epoch c decision at_ actor :
  (forall r, a_approvals d !! id = Some r -> holds c r = true -> may_settle op d id decision) ->
  traces (may op d) d (settle_approval_on_locked (R := option ApprovalSettlement) owner id session epoch c decision at_ actor).
Proof.
  intros HS K. destruct (a_approvals d !! id) as [r|] eqn:Hr.
  - destruct (settles owner session epoch c r) eqn:Hs.
    + assert (Hh : holds c r = true) by (unfold settles in Hs; by apply andb_true_iff in Hs as [_ ?]).
      apply settle_traces; cbn; [by eapply HS|done| |done]. intros scope ->. by eapply HS.
    + unfold settle_approval_on_locked, mbind, stm_bind, get. rewrite Hr, Hs. cbn. exists []. by repeat constructor.
  - unfold settle_approval_on_locked, mbind, stm_bind, get. rewrite Hr. exists []. by repeat constructor.
Qed.

Lemma beside_tables d d' : a_approvals d' = a_approvals d -> a_grants d' = a_grants d -> a_calls d' = a_calls d ->
  keyed d -> outside d d'.
Proof. intros Ha Hg Hc [_ K]. unfold outside. rewrite Ha, Hg, Hc. split_and!; [done..|by apply calls_kept_refl|done]. Qed.
Lemma completed_outside d id result at_ :
  keyed d -> outside d (with_calls (alter (complete_call result at_) id (a_calls d)) d).
Proof.
  intros [_ K]. unfold outside. cbn. split_and!; [done..| |].
  - intros key call Hc. cbn. destruct (Z.eq_dec id key) as [->|]; [|rewrite lookup_alter_ne by done; eauto using same_identity_refl].
    rewrite lookup_alter_eq, Hc. cbn. by eexists.
  - intros key call. destruct (Z.eq_dec id key) as [->|]; [|rewrite lookup_alter_ne by done; eauto].
    rewrite lookup_alter_eq. intros (call0 & Hc & ->)%fmap_Some. cbn. eauto.
Qed.

(** The card a park's answer is about *)
Lemma park_found {R} tool chat id scope d found d' :
  park_of (R := R) tool chat id scope d = Ok (found, d') ->
  d' = d /\ match found with
            | None => True
            | Some (r, call) => a_approvals d !! id = Some r /\ a_calls d !! id = Some call /\ ap_session_id r = chat
                                /\ c_chat_id call = chat
            end.
Proof.
  unfold park_of, mbind, stm_bind, get. destruct (a_sessions d !! chat); [|by injection 1 as <- <-].
  destruct (a_turns d !! scope); [|by injection 1 as <- <-].
  destruct (a_calls d !! id) as [call|] eqn:Hc; [|by injection 1 as <- <-].
  destruct (negb _ || _ || _) eqn:Hg; [by injection 1 as <- <-|].
  destruct (a_approvals d !! id) as [r|] eqn:Hr; [|done].
  destruct (negb _ || negb (ap_turn_id r =? _)) eqn:Hr'; injection 1 as <- <-; [done|].
  rewrite !orb_false_iff, !negb_false_iff, !Z.eqb_eq in *. destruct Hg as [[? _] _], Hr' as [? _]. by split_and!.
Qed.
Lemma park_traces {R} P d tool chat id scope : traces (R := R) P d (park_of tool chat id scope).
Proof. apply traces_pure. by intros a d' []%park_found. Qed.

Lemma settle_park_traces (P : edit -> Prop) d r call t decision result requested_at now b :
  P (Settle (ap_id r) decision) -> P Journal -> P Outside -> (forall scope, decision <> DecApprovedWithGrant scope) ->
  traces P d (settle_park r call t decision result requested_at now b).
Proof.
  intros HS HJ HO HN. unfold settle_park. apply traces_bind.
  { apply settle_row_traces; [done..|]. intros scope Heq. by destruct (HN scope). }
  intros [settlement|] d1 _ _; [|reads]. apply traces_bind; [by apply outside_traces, completed_outside|].
  intros _ d2 _ _. apply traces_bind; [by apply append_chat_traces|]. intros seq d3 _ _.
  destruct (resumed b) as [t'|]; [|reads]. apply traces_bind; [|intros; reads].
  apply outside_traces; [done|]. by apply beside_tables.
Qed.
Lemma decide_park_traces (P : edit -> Prop) d chat r call decision result requested_at now b :
  (row_pending r = true -> P (Settle (ap_id r) decision)) -> P Journal -> P Outside ->
  (forall scope, decision <> DecApprovedWithGrant scope) ->
  traces P d (decide_park chat r call decision result requested_at now b).
Proof.
  intros HS HJ HO HN. unfold decide_park. apply traces_bind; [reads|]. intros d0 d1 [= <- <-] _.
  destruct (row_pending r) eqn:Hp; cbn [negb orb]; [|reads]. destruct (_ || _); [reads|].
  destruct (a_turns d !! _); [|reads]. apply traces_bind; [reads|]. intros park d1 _ _.
  destruct (park_waits _ _ _ _ _); [|reads]. apply settle_park_traces; auto.
Qed.
Lemma recover_park_traces (P : edit -> Prop) d id b : traces P d (recover_park id b).
Proof. unfold recover_park. reads. Qed.

Lemma answer_traces chat id answers answered_at now b read scope at_ d :
  traces (may (OpAnswer chat id answers answered_at now b read) d) d (answer_on chat id answers scope at_ now b).
Proof.
  unfold answer_on. apply traces_bind; [apply park_traces|]. intros found d' Hf K.
  apply park_found in Hf as [-> Hf]. destruct found as [[r call]|]; [|reads]. destruct Hf as (Hr & Hc & Hs & Hch).
  pose proof (proj1 K _ _ Hr) as Hid. destruct (questions_of r); [|reads]. destruct (canonical_answers _ _); [|reads].
  destruct (String.eqb _ _); [destruct (park_exact _ _); [apply recover_park_traces|reads]|].
  apply decide_park_traces; try done. intros Hp. cbn. rewrite Hid. split_and!; [done|by eexists|]. by exists r, call.
Qed.
Lemma plan_traces chat id p decided_at now b read scope at_ d :
  traces (may (OpPlan chat id p decided_at now b read) d) d (decide_plan_on chat id p scope at_ now b).
Proof.
  unfold decide_plan_on. apply traces_bind; [apply park_traces|]. intros found d' Hf K.
  apply park_found in Hf as [-> Hf]. destruct found as [[r call]|]; [|reads]. destruct Hf as (Hr & Hc & Hs & Hch).
  pose proof (proj1 K _ _ Hr) as Hid. destruct (plan_of r); [|reads]. destruct (row_pending r) eqn:Hp; cbn [negb].
  - apply decide_park_traces; try done. intros _. cbn. rewrite Hid. split_and!; [done..|]. by exists r, call.
  - destruct (negb _); [reads|]. destruct (_ && _); [apply recover_park_traces|reads].
Qed.
Lemma scope_traces op chat id well_formed read body d :
  keyed d -> (forall scope, traces (may op d) d (body scope)) -> op_traces op d (with_scope_of chat id well_formed read body d).2.
Proof.
  intros K Hb. unfold with_scope_of. destruct (_ || _ || _); [apply op_traces_none|].
  destruct (a_approvals read !! id) as [scope|]; [|apply op_traces_none].
  destruct (_ =? _); [|apply op_traces_none]. by apply abegin_traces.
Qed.

Lemma recovery_traces owner session epoch e durable_parks now d :
  traces (may (OpRecover owner session epoch e durable_parks now) d) d
    (settle_interrupted_session_on owner session epoch e durable_parks now).
Proof.
  unfold settle_interrupted_session_on. apply traces_bind; [reads|]. intros d0 d1 [= <- <-] _.
  destruct (owned_session _ _ _) as [s|]; [|reads]. destruct (_ || _ || _); [reads|].
  destruct (1 <? _)%nat; [reads|]. set (resume := match open_turns _ _ _ with [] => false | _ => _ end). apply traces_bind.
  { destruct (open_turns owner session d) as [|t turns]; [reads|]. destruct resume.
    - apply (traces_one _ _ _ Rebound); [done|]. intros _ u d'. injection 1 as _ <-. unfold drop_claims.
      apply (e_rebind d _ (fun r => ap_worker_epoch r)). intros r Hw. unfold session_pending in Hw.
      rewrite !andb_true_iff in Hw. by destruct Hw as [[_ ?] _].
    - apply outside_traces; [done|]. by apply beside_tables. }
  intros _ d1 _ _. apply traces_bind.
  { destruct (if resume then _ else _); [reads|]. apply (traces_one _ _ _ Swept); [done|]. intros _ u d'.
    injection 1 as _ <-. apply e_sweep. intros r Hw. unfold session_pending in Hw.
    rewrite !andb_true_iff in Hw. by destruct Hw as [_ ?]. }
  intros _ d2 _ _. apply traces_bind.
  { destruct (recovered_session e s); [|reads]. apply outside_traces; [done|]. by apply beside_tables. }
  intros _ d3 _ _. apply traces_bind.
  { destruct resume; [reads|]. destruct (open_turns owner session d); [reads|].
    apply traces_bind; [by apply append_locked_traces|intros; reads]. }
  intros _ d4 _ _. apply traces_bind; [|intros; reads]. apply traces_for_each. intros r d5.
  apply traces_bind; [by apply append_locked_traces|intros; reads].
Qed.
Lemma delete_project_outside id owner b d : keyed d -> outside d (delete_project id owner b d).2.
Proof.
  intros K. unfold delete_project. destruct (a_projects d !! id); [|by apply beside_tables].
  destruct (match owner with Some _ => _ | None => _ end); [by apply beside_tables|].
  destruct (_ || _); [by apply beside_tables|]. unfold outside. cbn. split_and!; [done| |by apply calls_kept_refl|by destruct K].
  apply map_filter_subseteq.
Qed.

Lemma operations_make_their_edits op d :
  keyed d -> op_ok op d -> deletion op = None -> op_traces op d (run_op op d).
Proof.
  intros K Hok Hdel. destruct op; cbn [run_op]; try done.
  - unfold request_and_append_event. destruct (validate_request q); [|apply op_traces_none].
    destruct (_ || _); [apply op_traces_none|]. apply abegin_traces; [done|]. by apply journaled_traces.
  - unfold request. destruct (validate_request q); [|apply op_traces_none]. apply abegin_traces; [done|].
    by apply request_traces.
  - unfold ApprovalStore.decide. destruct (validate_decision decision); [|apply op_traces_none].
    apply abegin_traces; [done|]. apply decide_traces.
  - destruct decision; [|apply op_traces_none]. apply abegin_traces; [done|]. apply decide_grant_traces.
  - apply abegin_traces; [done|]. apply judge_op_traces.
  - unfold insert_approval_for_worker. destruct (cd_worker_epoch a); [|apply op_traces_none].
    apply abegin_traces; [done|]. destruct (owned_session _ _ _); [|reads]. destruct (_ || _); [reads|].
    destruct (a_turns d !! _); [|reads]. destruct (_ || _); [reads|].
    apply traces_bind; [by apply insert_traces|intros; apply traces_bind; [by apply append_locked_traces|intros; reads]].
  - unfold claim_approval. destruct (abegin _ d) as [answer d'] eqn:Hb. cbn. change d' with (answer, d').2. rewrite <- Hb.
    apply abegin_traces; [done|]. unfold claim_row_on. apply traces_bind; [reads|]. intros d0 d1 [= <- <-] _.
    destruct (owned_session _ _ _); [|reads]. destruct (_ || _); [reads|]. destruct (a_approvals d !! id) as [r|] eqn:Hr; [|reads].
    destruct (negb (claimable _ _ _ _)) eqn:Hcl; [reads|]. apply negb_false_iff in Hcl. unfold claimable, settles in Hcl.
    rewrite !andb_true_iff in Hcl. destruct Hcl as [[_ Hp] _]. apply traces_bind; [|intros; reads].
    apply (traces_one _ _ _ (Claimed id)); [done|]. intros _ u d2. injection 1 as _ <-. by apply e_claim.
  - apply abegin_traces; [done|]. destruct (owned_session _ _ _); [|reads].
    apply settles_only_held. cbn. eauto.
  - apply abegin_traces; [done|]. destruct (owned_session _ _ _); [|reads]. destruct (_ || _); [reads|].
    by apply fold_abandon_traces.
  - exists [Rebound]. split; [|by constructor]. apply esteps_one. cbn. apply e_rebind. intros r Hw.
    unfold rebinds in Hw. by apply andb_true_iff in Hw as [_ ?].
  - unfold revoke_standing_grant. destruct (a_grants d !! _); [|apply op_traces_none].
    destruct (visible _ _ _); [|apply op_traces_none]. exists [Revoke source_call_id]. split; [|by constructor].
    apply esteps_one, e_revoke.
  - apply abegin_traces; [done|]. unfold close_pending_for_terminal_turn_on. apply traces_bind.
    { apply (traces_one _ _ _ Calls); [done|]. intros _ u d'. injection 1 as _ <-. apply e_calls.
      intros call. by destruct (_ && _). }
    intros _ d1 _ _. apply traces_bind; [apply pending_rows_traces|]. intros rows d2 _ _. by apply sweep_traces.
  - apply abegin_traces; [done|]. unfold reject_pending_for_cancelling_turn_on.
    apply traces_bind; [apply pending_rows_traces|]. intros rows d2 _ _. apply traces_for_each. intros r d3.
    destruct (negb _); [reads|]. apply traces_bind; [reads|]. intros d4 d5 [= <- <-] _. destruct (negb _); [reads|].
    apply traces_bind; [by apply settle_row_traces|]. intros. reads.
  - apply abegin_traces; [done|]. unfold abandon_pending_for_call_on, find_approval_row_on.
    apply traces_bind; [apply traces_bind; intros; reads|]. intros [r|] d1 _ _; [|reads]. destruct (negb _); [reads|].
    apply traces_bind; [by apply settle_row_traces|]. intros. reads.
  - apply abegin_traces; [done|]. apply checkpoint_traces.
  - apply scope_traces; [done|]. intros. apply answer_traces.
  - apply scope_traces; [done|]. intros. apply plan_traces.
  - apply abegin_traces; [done|]. apply traces_bind; [by apply insert_traces|].
    intros. apply traces_bind; [by apply append_locked_traces|intros; reads].
  - apply abegin_traces; [done|]. unfold settle_managed_on. apply settles_only_held. cbn. eauto.
  - apply abegin_traces; [done|]. apply recovery_traces.
  - exists [Outside]. split; [|by constructor]. apply esteps_one, e_outside. by apply delete_project_outside.
  - exists [Outside]. split; [|by constructor]. apply esteps_one. by apply e_outside.
Qed.

(** An operation makes its edits, or deletes a chat. *)
Lemma operations_write op d : keyed d -> op_ok op d ->
  op_traces op d (run_op op d)
  \/ exists chat, deletion op = Some chat /\ run_op op d = erase_quiesced_chat chat d.
Proof.
  intros K Hok. destruct (deletion op) as [chat|] eqn:Hd; [|left; by apply operations_make_their_edits].
  destruct op; try done; injection Hd as <-; cbn; [|right; eauto].
  unfold delete_chat. repeat case_match; cbn; first [left; apply op_traces_none|right; eauto].
Qed.
End Ledger.
