(* ===== verification/ApprovalHistory.v ===== *)
(** * Consent: what holds over every history

    The theorems of the approval store: a settled card stays as it is until its
    chat is deleted, each approval has someone who may give it, a grant was made by
    an approved card, and the judge is given only calls it may decide. *)
From stdpp Require Import gmap sorting.
From S2P Require Import Prelude RustStr Json ShellPolicy TurnTables Transcript ToolPreview Approvals ToolGate ApprovalStore.
From S2P Require Import ApprovalStore ApprovalBroker ApprovalLedger.

Open Scope Z_scope.

Section History.
Context `{UnicodeLower, RegexEngine} `{AC : ApprovalColumns} `{PC : !ParkCodec}.
Implicit Types (d : adb) (r : approval_row) (call : ToolCallRecord WireNumber).

(** ** Deleting a chat *)

Lemma erased_approval chat d id r :
  a_approvals (erase_quiesced_chat chat d) !! id = Some r <-> a_approvals d !! id = Some r /\ ap_session_id r <> chat.
Proof. cbn. by rewrite map_lookup_filter_Some. Qed.
Lemma erased_call chat d id call :
  a_calls (erase_quiesced_chat chat d) !! id = Some call <-> a_calls d !! id = Some call /\ c_chat_id call <> chat.
Proof. cbn. by rewrite map_lookup_filter_Some. Qed.
Lemma erased_keyed chat d : keyed d -> keyed (erase_quiesced_chat chat d).
Proof.
  intros [Ka Kc]. split; intros id x; [intros [Hx _]%erased_approval|intros [Hx _]%erased_call]; eauto.
Qed.

(** ** Histories as edits *)

Lemma operation_keyed op d : keyed d -> op_ok op d -> keyed (run_op op d).
Proof.
  intros K Hok. destruct (operations_write op d K Hok) as [(es & Hes & _)|(chat & _ & ->)];
    [by eapply esteps_keyed|by apply erased_keyed].
Qed.
Lemma history_keyed ops d d' : keyed d -> history ops d d' -> keyed d'.
Proof. intros K Hh. induction Hh; eauto using operation_keyed. Qed.

(** What holds at the start and is kept by each operation holds throughout. *)
Lemma history_invariant (I : adb -> Prop) ops d d' :
  (forall op d es d', keyed d -> I d -> op_ok op d -> Forall (may op d) es -> esteps es d d' -> I d') ->
  (forall chat d, I d -> I (erase_quiesced_chat chat d)) ->
  keyed d -> I d -> history ops d d' -> keyed d' /\ I d'.
Proof.
  intros Hstep Herase K HI Hh. induction Hh as [|op ops d d' Hok _ IH]; [done|].
  apply IH; [by apply operation_keyed|]. destruct (operations_write op d K Hok) as [(es & Hes & Hmay)|(chat & _ & ->)];
    eauto.
Qed.

(** A settled row stays, unless its chat is deleted; so does a call. *)
Lemma operation_final op d id r : keyed d -> op_ok op d -> a_approvals d !! id = Some r -> row_pending r = false ->
  a_approvals (run_op op d) !! id = Some r
  \/ deletion op = Some (ap_session_id r) /\ a_approvals (run_op op d) !! id = None.
Proof.
  intros K Hok Hr Hp. destruct (operations_write op d K Hok) as [(es & Hes & _)|(chat & Hd & ->)];
    [left; by eapply esteps_final|].
  destruct (a_approvals (erase_quiesced_chat chat d) !! id) as [r'|] eqn:Hr'.
  - apply erased_approval in Hr' as [Hr' _]. left. congruence.
  - right. split; [|done]. destruct (Z.eq_dec (ap_session_id r) chat) as [->|Hne]; [done|].
    assert (a_approvals (erase_quiesced_chat chat d) !! id = Some r) by by apply erased_approval. congruence.
Qed.
Lemma operation_calls op d id call : keyed d -> op_ok op d -> a_calls d !! id = Some call ->
  (exists call', a_calls (run_op op d) !! id = Some call' /\ same_identity call call')
  \/ deletion op = Some (c_chat_id call).
Proof.
  intros K Hok Hc. destruct (operations_write op d K Hok) as [(es & Hes & _)|(chat & Hd & ->)];
    [left; by eapply esteps_calls|].
  destruct (Z.eq_dec (c_chat_id call) chat) as [->|Hne]; [by right|]. left. exists call.
  split; [by apply erased_call|apply same_identity_refl].
Qed.

(** ** Grants and their cards *)






(** ** What the judge is given *)

(** The card's tool and call are ones the judge may decide. *)
Definition candidate d (id : Z) : Prop :=
  exists r request call, a_approvals d !! id = Some r /\ from_value (ap_harness_raw r) = Some request
    /\ a_calls d !! id = Some call /\ c_chat_id call = ap_session_id r
    /\ is_auto_judge_candidate (raw_kind request) (c_name call) (c_arguments call) = true.

Lemma estep_raw e d d' id r :
  estep e d d' -> a_approvals d !! id = Some r -> exists r', a_approvals d' !! id = Some r' /\ ap_harness_raw r' = ap_harness_raw r /\ ap_session_id r' = ap_session_id r.
Proof.
  intros He Hr. destruct He; cbn; eauto.
  - rewrite lookup_insert_ne; [eauto|]. intros <-. congruence.
  - destruct (Z.eq_dec id0 id) as [->|]; [rewrite lookup_insert_eq|rewrite lookup_insert_ne by done; eauto].
    eexists. split; [done|]. cbn. split; congruence.
  - rewrite lookup_fmap, Hr. cbn. eexists. split; [done|]. by destruct (which r).
  - rewrite lookup_fmap, Hr. cbn. eexists. split; [done|]. by destruct (which r).
  - destruct (Z.eq_dec id0 id) as [->|]; [rewrite lookup_insert_eq|rewrite lookup_insert_ne by done; eauto].
    eexists. split; [done|]. cbn. split; congruence.
  - destruct (Z.eq_dec id0 id) as [->|]; [rewrite lookup_insert_eq|rewrite lookup_insert_ne by done; eauto].
    eexists. split; [done|]. cbn. split; congruence.
  - destruct H1 as (Happ & _). rewrite Happ. eauto.
Qed.
Lemma candidate_kept e d d' id : estep e d d' -> candidate d id -> candidate d' id.
Proof.
  intros He (r & request & call & Hr & Hq & Hc & Hch & Hcand).
  destruct (estep_raw _ _ _ _ _ He Hr) as (r' & Hr' & Hraw & Hse).
  destruct (estep_calls _ _ _ He _ _ Hc) as (call' & Hc' & _ & Hchat & _ & Hname & Hargs).
  exists r', request, call'. rewrite Hraw, Hse, <- Hname, <- Hargs, <- Hchat. done.
Qed.
Lemma candidate_erased chat d id r :
  a_approvals (erase_quiesced_chat chat d) !! id = Some r -> candidate d id -> candidate (erase_quiesced_chat chat d) id.
Proof.
  intros Hr (r' & request & call & Hr' & Hq & Hc & Hch & Hcand). pose proof Hr as [Hr0 Hne]%erased_approval.
  assert (r' = r) as -> by congruence. exists r, request, call. split_and!; try done. apply erased_call. by rewrite Hch.
Qed.

Definition judge_has_candidates d : Prop :=
  forall id r, a_approvals d !! id = Some r -> is_some (ap_auto_judge_status r) = true -> candidate d id.

(** What an edit must meet: a card put up with the marker, and a marker set,
    are a candidate's. *)
Definition marks_candidates d e d' : Prop :=
  match e with
  | New r => is_some (ap_auto_judge_status r) = true -> candidate d' (ap_id r)
  | Judge id status => is_some status = true -> candidate d id
  | _ => True
  end.
Lemma estep_candidates e d d' :
  estep e d d' -> marks_candidates d e d' -> judge_has_candidates d -> judge_has_candidates d'.
Proof.
  intros He Hm HI id r' Hr' Hst.
  assert (Hold : forall r, a_approvals d !! id = Some r -> is_some (ap_auto_judge_status r) = true -> candidate d' id).
  { intros r Hr Hs. eapply candidate_kept; eauto. }
  pose proof He as Hstep. destruct He; cbn in *; try by eapply Hold.
  - apply lookup_insert_Some in Hr' as [[<- <-]|[_ Hr']]; [by apply Hm|by eapply Hold].
  - apply lookup_insert_Some in Hr' as [[<- <-]|[_ Hr']]; by eapply Hold.
  - rewrite lookup_fmap in Hr'. destruct (a_approvals d !! id) as [r|] eqn:Hr; [|done]. injection Hr' as <-.
    apply (Hold r); [done|]. by destruct (which r).
  - rewrite lookup_fmap in Hr'. destruct (a_approvals d !! id) as [r|] eqn:Hr; [|done]. injection Hr' as <-.
    apply (Hold r); [done|]. by destruct (which r).
  - apply lookup_insert_Some in Hr' as [[<- <-]|[_ Hr']]; [|by eapply Hold].
    eapply candidate_kept; [done|]. apply Hm. by destruct status.
  - apply lookup_insert_Some in Hr' as [[<- <-]|[_ Hr']]; by eapply Hold.
  - destruct H1 as (Happ & _). rewrite Happ in Hr'. by eapply Hold.
Qed.

Lemma requested_candidate q d d' r :
  keyed d -> requested_row q d r -> calls_kept d d' -> a_approvals d' !! ap_id r = Some r ->
  is_some (ap_auto_judge_status r) = true -> candidate d' (ap_id r).
Proof.
  intros K (s & call & scopes & at_ & judge & granted & Hs & Hc & Hsame & -> & Hb) Hk Hr Hst.
  destruct granted as [source|]; [by destruct Hb as [-> _]|]. cbn in Hb. subst judge. cbn in Hst.
  unfold judge_of, judge_may_own in Hst. destruct (ar_auto_judge q && _) eqn:Hj; [|done].
  apply andb_true_iff in Hj as [_ Hj]. unfold same_call in Hsame. rewrite !andb_true_iff in Hsame.
  destruct Hsame as [[[Hchat%Z.eqb_eq _] Hname%String.eqb_eq] _]. pose proof (proj2 K _ _ Hc) as Hid.
  destruct (Hk _ _ Hc) as (call' & Hc' & _ & Hchat' & _ & Hname' & Hargs').
  eexists _, (MkRaw (c_name call) (ar_kind q) None), call'. split; [exact Hr|]. cbn.
  rewrite from_to_value, Hid, <- Hname', <- Hargs', <- Hchat', Hchat. split_and!; try done. cbn. by rewrite Hname.
Qed.

Lemma op_candidates op d es d' :
  keyed d -> judge_has_candidates d -> op_ok op d -> Forall (may op d) es -> esteps es d d' -> judge_has_candidates d'.
Proof.
  intros K HI Hok Hmay Hes.
  assert (Hgen : forall es d1 d', esteps es d1 d' -> Forall (may op d) es -> calls_kept d d1 ->
    (forall id, candidate d id -> candidate d1 id) -> judge_has_candidates d1 -> judge_has_candidates d').
  { clear Hes Hmay es d'. intros es d1 d' Hes. induction Hes as [|e es d1 d2 d' He _ IH]; [done|].
    intros Hmay Hk Hmono H1. apply Forall_cons in Hmay as [Hm Hmay]. apply IH; [done|..].
    - eauto using calls_kept_trans, estep_calls.
    - eauto using candidate_kept.
    - eapply estep_candidates; [done| |done]. destruct e; cbn in *; try done.
      + intros Hst. destruct op; cbn in Hm; try done.
        * eapply requested_candidate; [done..|eauto using calls_kept_trans, estep_calls| |done]. inversion He. cbn. apply lookup_insert_eq.
        * eapply requested_candidate; [done..|eauto using calls_kept_trans, estep_calls| |done]. inversion He. cbn. apply lookup_insert_eq.
        * subst r. cbn in Hst. destruct Hok as [_ Hnone]. by rewrite Hnone in Hst.
        * by destruct Hm as (owner & s & p & ->).
        * subst r. cbn in Hst. destruct Hok as [_ Hnone]. by rewrite Hnone in Hst.
      + intros Hst. apply Hmono. destruct Hm as [_ Hm]. destruct op; try done.
        * by destruct Hm as [_ ->]. * by destruct Hm as [_ ->].
        * destruct Hm as [_ (r & Hr & Hj & _)]. apply (HI _ _ Hr). by rewrite Hj. }
  by apply (Hgen es d d'); [..|apply calls_kept_refl|intros|].
Qed.

(** ** Polls *)

Definition heard d (id : Z) (answer : ApprovalDecision) : Prop :=
  exists a, get_card id d = Ok (Some a) /\ card_decision a = Some answer.

Lemma same_identity_card r call call' :
  same_identity call call' -> tool_approval_from_rows r call' = tool_approval_from_rows r call.
Proof. intros (_ & _ & _ & Hname & Hargs). unfold tool_approval_from_rows. by rewrite Hname, Hargs. Qed.

Lemma get_card_row id d a : get_card id d = Ok (Some a) ->
  exists r call, a_approvals d !! id = Some r /\ a_calls d !! id = Some call /\ tool_approval_from_rows r call = Ok a.
Proof.
  unfold get_card. destruct (a_approvals d !! id) as [r|]; [|done]. destruct (negb _); [done|].
  destruct (a_calls d !! id) as [call|]; [|done]. destruct (tool_approval_from_rows r call) as [b|] eqn:Ht; [|done].
  cbn. injection 1 as <-. eauto.
Qed.
Lemma get_card_of_row id d r call a :
  a_approvals d !! id = Some r -> a_calls d !! id = Some call -> tool_approval_from_rows r call = Ok a ->
  get_card id d = Ok (Some a).
Proof.
  intros Hr Hc Ht. unfold get_card. rewrite Hr, Hc, Ht.
  destruct (card_of_row _ _ _ Ht) as (request & _ & Hraw & _). by rewrite Hraw.
Qed.

(** A decided card, read again after operations that delete no chat of it *)
Lemma decided_card_kept ops d d' id r call a :
  keyed d -> history ops d d' -> a_approvals d !! id = Some r -> a_calls d !! id = Some call ->
  tool_approval_from_rows r call = Ok a -> ta_status a <> StatusPending ->
  (forall op, op ∈ ops -> deletion op <> Some (ap_session_id r) /\ deletion op <> Some (c_chat_id call)) ->
  a_approvals d' !! id = Some r
  /\ exists call', a_calls d' !! id = Some call' /\ same_identity call call' /\ tool_approval_from_rows r call' = Ok a.
Proof.
  intros K Hh Hr Hc Ht Hst Hkept.
  assert (row_pending r = false) as Hp by (rewrite (card_pending _ _ _ Ht); by apply bool_decide_eq_false_2).
  revert call Hc Ht Hkept. induction Hh as [|op ops d d' Hok _ IH]; intros call Hc Ht Hkept.
  { split; [done|]. exists call. split_and!; [done|apply same_identity_refl|done]. }
  destruct (Hkept op) as [Ha Hb]; [by left|].
  destruct (operation_final _ _ _ _ K Hok Hr Hp) as [Hr'|[? _]]; [|done].
  destruct (operation_calls _ _ _ _ K Hok Hc) as [(call1 & Hc1 & Hi)|?]; [|done].
  destruct (IH (operation_keyed _ _ K Hok) Hr' call1 Hc1) as (? & call' & Hc' & Hi' & Ht').
  - by rewrite (same_identity_card _ _ _ Hi).
  - intros op' Hin. destruct Hi as (_ & <- & _). apply Hkept. by right.
  - split; [done|]. exists call'. split_and!; try done. unfold same_identity in *. intuition congruence.
Qed.

Lemma heard_kept ops d d' id answer :
  keyed d -> history ops d d' -> (forall op, op ∈ ops -> deletion op = None) -> heard d id answer -> heard d' id answer.
Proof.
  intros K Hh Hno (a & (r & call & Hr & Hc & Ht)%get_card_row & Ha). exists a. split; [|done].
  assert (ta_status a <> StatusPending) as Hst by (unfold card_decision in Ha; by destruct (ta_status a)).
  destruct (decided_card_kept _ _ _ _ _ _ _ K Hh Hr Hc Ht Hst) as (Hr' & call' & Hc' & _ & Ht');
    [intros op Hin%Hno; by rewrite Hin|]. by eapply get_card_of_row.
Qed.
Lemma heard_poll d id answer : heard d id answer -> poll_decision id d = Some answer.
Proof. intros (a & Hg & Ha). unfold poll_decision. by rewrite Hg. Qed.

(** ** A settlement, as the rows show it *)

Lemma append_event_keeps {R} owner session event d (seq : Z) d' :
  append_event_on_locked (R := R) owner session event d = Ok (seq, d') ->
  a_approvals d' = a_approvals d /\ a_calls d' = a_calls d /\ a_sessions d' = a_sessions d.
Proof.
  unfold append_event_on_locked, insert_aevent, mbind, stm_bind, get, modify.
  destruct (next_seq_of _ _); [|done]. destruct (existsb _ _); [done|]. by injection 1 as <- <-.
Qed.
Lemma mint_keeps {R} r scope at_ d u d' :
  mint_standing_grant_on (R := R) r scope at_ d = Ok (u, d') ->
  a_approvals d' = a_approvals d /\ a_calls d' = a_calls d /\ a_sessions d' = a_sessions d.
Proof.
  unfold mint_standing_grant_on. destruct (from_value _); [|done]. unfold mbind, stm_bind, get.
  destruct (is_some _); [by injection 1 as <- <-|]. destruct (a_calls d !! _); [|done]. destruct (_ || _ || _ || _); [done|].
  destruct (grant_row_ok _); [|done]. unfold modify. by injection 1 as <- <-.
Qed.

Lemma settle_writes {R} owner id session epoch c decision at_ actor d (st : option ApprovalSettlement) d' r :
  a_approvals d !! id = Some r -> settles owner session epoch c r = true ->
  settle_approval_on_locked (R := R) owner id session epoch c decision at_ actor d = Ok (st, d') ->
  is_some st = true /\ a_calls d' = a_calls d /\ a_sessions d' = a_sessions d
  /\ a_approvals d' = <[id := set_settled (state_as_str (decided_state decision).1) (decided_state decision).2 at_ actor r]>
                        (a_approvals d).
Proof.
  intros Hr Hs. unfold settle_approval_on_locked, mbind, stm_bind, get. rewrite Hr, Hs. cbn [negb].
  destruct (decided_state decision) as [state feedback]. unfold modify. cbn [fst snd].
  set (r' := set_settled _ _ _ _ _). set (d1 := with_approvals _ d).
  match goal with |- match ?m with Ok _ => _ | Err _ => _ end = _ -> _ => destruct m as [[u d2]|] eqn:Hm; [|done] end.
  assert (a_approvals d2 = a_approvals d1 /\ a_calls d2 = a_calls d1 /\ a_sessions d2 = a_sessions d1) as (Ha & Hc & Hse).
  { destruct decision; try (by injection Hm as <- <-). by eapply mint_keeps. }
  destruct (append_event_on_locked _ _ _ d2) as [[seq d3]|] eqn:Hap; [|done].
  apply append_event_keeps in Hap as (Ha' & Hc' & Hse'). unfold atry. destruct (approval_from_row r'); [|done]. cbn.
  injection 1 as <- <-. rewrite Hc', Hse', Ha', Hc, Hse, Ha. done.
Qed.

Lemma set_judge_same r : set_judge (ap_auto_judge_status r) r = r.
Proof. by destruct r. Qed.
Lemma settle_row_writes {R} r judge c decision at_ d (st : option ApprovalSettlement) d' :
  a_approvals d !! ap_id r = Some (set_judge judge r) -> row_pending r = true -> holds c r = true ->
  settle_row_on (R := R) r c decision at_ d = Ok (st, d') ->
  is_some st = true /\ a_calls d' = a_calls d /\ a_sessions d' = a_sessions d
  /\ a_approvals d' = <[ap_id r := set_settled (state_as_str (decided_state decision).1) (decided_state decision).2 at_ None
                                     (set_judge judge r)]> (a_approvals d).
Proof.
  intros Hr Hp Hh. unfold settle_row_on, owner_new, mbind, stm_bind. destruct (owner_id_ok _); [|done]. cbn.
  destruct (ap_worker_epoch r) as [epoch|] eqn:He; [|done]. apply settle_writes; [done|].
  unfold settles. cbn [set_judge ap_owner ap_session_id ap_worker_epoch].
  rewrite String.eqb_refl, Z.eqb_refl, He. cbn. rewrite Z.eqb_refl. cbn. apply andb_true_iff. split; [exact Hp|by destruct c].
Qed.

(** ** Transactions that answer for themselves *)

Definition answers {R A} (m : atxn R A) : Prop := forall d x, m d <> Err (Rolled x).
Lemma answering_bind {R A B} (m : atxn R A) (k : A -> atxn R B) : answers m -> (forall a, answers (k a)) -> answers (m ≫= k).
Proof.
  intros Hm Hk d x. unfold mbind, stm_bind. specialize (Hm d x). destruct (m d) as [[a d1]|e]; [apply Hk|].
  intros [= ->]. by destruct Hm.
Qed.
Lemma answers_for_each {R A} (f : A -> atxn R unit) l : (forall x, answers (f x)) -> answers (for_each f l).
Proof. intros Hf. induction l; cbn; [done|]. by apply answering_bind. Qed.
Ltac answering :=
  repeat first [progress intros | apply answering_bind | progress unfold atry, aerr | case_match | (intros ? ?; discriminate)].
Lemma settle_row_answers {R} r c decision at_ : answers (settle_row_on (R := R) r c decision at_).
Proof.
  unfold settle_row_on, settle_approval_on_locked, owner_new, mint_standing_grant_on, append_event_on_locked, insert_aevent.
  answering.
Qed.
Lemma decide_answers chat id decision now : answers (decide_on chat id decision now).
Proof.
  unfold decide_on, pending_tool_approval, settle_decision, find_approval_row_on, set_auto_judge_status_on.
  repeat first [apply settle_row_answers | apply answering_bind | progress intros | progress unfold atry, aerr | case_match | done].
Qed.
Lemma close_answers {R} turn now : answers (close_pending_for_terminal_turn_on (R := R) turn now).
Proof.
  unfold close_pending_for_terminal_turn_on, pending_rows_for_turn. answering. apply answers_for_each. intros r.
  apply answering_bind; [apply settle_row_answers|]. answering.
Qed.
Lemma abegin_answers {R} (m : atxn R R) d a d' : answers m -> abegin m d = (Ok a, d') -> m d = Ok (a, d').
Proof.
  intros Hm. unfold abegin. specialize (Hm d). destruct (m d) as [[b d1]|[b|e]]; [congruence|by destruct (Hm b)|congruence].
Qed.

(** ** Deciding once *)

Lemma decided_status decision :
  tool_status (decided_state (decision_kind decision)).1 (decided_state (decision_kind decision)).2
  = (decision_status decision, decision_reason decision).
Proof. by destruct decision. Qed.

(** The card a decision left *)
Lemma decided_card d chat id decision now a res d' :
  keyed d -> decide_on chat id decision now d = Ok (Decided a res, d') ->
  exists r call, a_approvals d' !! id = Some r /\ a_calls d' !! id = Some call /\ tool_approval_from_rows r call = Ok a
    /\ ap_session_id r = chat /\ c_chat_id call = chat
    /\ ta_status a = decision_status decision /\ ta_reason a = decision_reason decision.
Proof.
  intros K. unfold decide_on. unfold mbind at 1, stm_bind at 1.
  destruct (pending_tool_approval chat id d) as [[found d0]|] eqn:Hf; [|done]. apply parked_card in Hf as [-> Hf].
  destruct found as [[[r call] current]|]; [|done]. destruct Hf as (Hr & Hc & Ht & Hse & Hch & _).
  pose proof (proj1 K _ _ Hr) as Hid. destruct (negb (bool_decide _)) eqn:Hst; [by destruct (same_decision _ _)|].
  apply negb_false_iff, bool_decide_eq_true in Hst. destruct (negb (unclaimed_server_call _ _)) eqn:Hu; [done|].
  apply negb_false_iff, andb_true_iff in Hu as [Hu _]. pose proof (card_pending _ _ _ Ht) as Hp.
  rewrite bool_decide_eq_true_2 in Hp by done. unfold settle_decision, mbind, stm_bind.
  set (m := if bool_decide _ then _ else _).
  assert (exists judge, m d = Ok (tt, with_approvals (<[id := set_judge judge r]> (a_approvals d)) d)) as (judge & Hm).
  { subst m. destruct (bool_decide _).
    - exists None. unfold set_auto_judge_status_on, modify. by rewrite Hid, (alter_as_insert _ _ _ _ Hr).
    - exists (ap_auto_judge_status r). replace (set_judge _ r) with r by (by destruct r). rewrite insert_id by done. by destruct d. }
  rewrite Hm. destruct (settle_row_on r _ _ _ _) as [[st d2]|] eqn:Hset; [|done].
  apply (settle_row_writes _ judge) in Hset as (Hst' & Hc2 & _ & Ha2); [|by cbn; rewrite Hid, lookup_insert_eq|done|done].
  destruct st as [settlement|]; [|done]. unfold find_approval_row_on, mbind, stm_bind, get.
  rewrite Ha2, Hid, lookup_insert_eq. unfold atry. cbn.
  match goal with |- context [tool_approval_from_rows ?x call] => destruct (tool_approval_from_rows x call) as [b|] eqn:Hb; [|done] end. cbn.
  injection 1 as <- _ <-. eexists _, call. rewrite Ha2, Hc2, Hid, lookup_insert_eq. cbn. split_and!; try done.
  all: destruct (card_of_row _ _ _ Hb) as (request & c & _ & (Hs & _ & Hfb & _)%row_of_card & _ & _ & Hst1 & Hre1 & _).
  all: cbn in Hs, Hfb; apply state_tokens in Hs; by rewrite ?Hst1, ?Hre1, <- Hs, Hfb, decided_status.
Qed.

Lemma decided_again d chat id r call a decision answer now :
  is_Some (a_sessions d !! chat) -> a_approvals d !! id = Some r -> a_calls d !! id = Some call ->
  tool_approval_from_rows r call = Ok a -> ap_session_id r = chat -> c_chat_id call = chat ->
  ta_status a = decision_status decision -> ta_reason a = decision_reason decision -> validate_decision answer = Ok tt ->
  decide chat id answer now d = (Ok (if bool_decide (answer = decision) then DecideExisting a else DecisionConflict), d).
Proof.
  intros [s Hs] Hr Hc Ht Hse Hch Hst Hre Hv. unfold decide. rewrite Hv. unfold abegin, decide_on, mbind, stm_bind.
  destruct (card_of_row _ _ _ Ht) as (request & c & Hraw & _).
  unfold pending_tool_approval, mbind, stm_bind, get. rewrite Hs, Hc, Hr, Hse, Hch, Z.eqb_refl, Hraw, Ht. cbn.
  unfold same_decision. rewrite Hst, Hre. destruct decision as [|reason], answer as [|answer]; cbn; try done.
  destruct (String.eqb_spec answer reason) as [->|Hne].
  - by rewrite (bool_decide_true (Some reason = Some reason)), (bool_decide_true (Reject reason = Reject reason)).
  - rewrite (bool_decide_false (Some reason = Some answer)), (bool_decide_false (Reject answer = Reject reason)) by congruence.
    by rewrite andb_false_r.
Qed.

(** ** The sweep of a finished turn *)

Lemma listed_rows f d r : keyed d ->
  (r ∈ rows_oldest_first f d <-> a_approvals d !! ap_id r = Some r /\ f r = true).
Proof.
  intros K. unfold rows_oldest_first. rewrite (merge_sort_Permutation older), list_elem_of_In, filter_In, <- list_elem_of_In.
  rewrite list_elem_of_fmap. split.
  - intros [([id r'] & -> & Hin%elem_of_map_to_list) Hf]. cbn in *. by rewrite (proj1 K _ _ Hin).
  - intros [Hr Hf]. split; [|done]. exists (ap_id r, r). split; [done|]. by apply elem_of_map_to_list.
Qed.
Lemma NoDup_map_filter {A B} (g : A -> B) (f : A -> bool) l : NoDup (g <$> l) -> NoDup (g <$> List.filter f l).
Proof.
  induction l as [|x l IH]; cbn; [done|]. intros [Hx Hl]%NoDup_cons. destruct (f x); cbn; [|by apply IH].
  apply NoDup_cons. split; [|by apply IH]. intros (y & Heq & Hy)%list_elem_of_fmap. apply Hx, list_elem_of_fmap.
  exists y. split; [done|]. apply list_elem_of_In in Hy. apply list_elem_of_In. by apply filter_In in Hy as [? _].
Qed.
Lemma listed_ids f d : keyed d -> NoDup (ap_id <$> rows_oldest_first f d).
Proof.
  intros K. unfold rows_oldest_first. rewrite (merge_sort_Permutation older).
  assert (ap_id <$> (snd <$> map_to_list (a_approvals d)) = fst <$> map_to_list (a_approvals d)) as Hids.
  { rewrite <- list_fmap_compose. apply list_fmap_ext. intros i [id r] Hi%list_elem_of_lookup_2%elem_of_map_to_list.
    apply (proj1 K _ _ Hi). }
  pose proof (NoDup_fst_map_to_list (a_approvals d)) as Hnd. rewrite <- Hids in Hnd.
  by apply NoDup_map_filter.
Qed.

Lemma never_pending decision : state_as_str (decided_state decision).1 <> state_as_str Pending.
Proof. by destruct decision as [| | | | |[]]. Qed.

(** Each listed card is settled, and no other touched. *)
Lemma sweep_settles {R} decision now rows d u d' :
  NoDup (ap_id <$> rows) -> (forall r, r ∈ rows -> a_approvals d !! ap_id r = Some r /\ row_pending r = true) ->
  for_each (E := abort R) (fun r => _ ← settle_row_on r (claim_of_row r) decision (Z.max now (ap_requested_at r)); mret tt) rows d
    = Ok (u, d') ->
  a_calls d' = a_calls d
  /\ forall id r', a_approvals d' !! id = Some r' ->
       a_approvals d !! id = Some r' /\ id ∉ ap_id <$> rows
       \/ exists r, r ∈ rows /\ ap_id r = id
            /\ r' = set_settled (state_as_str (decided_state decision).1) (decided_state decision).2
                      (Z.max now (ap_requested_at r)) None r.
Proof.
  revert d. induction rows as [|r rows IH]; intros d Hnd Hrows.
  { cbn. injection 1 as _ <-. split; [done|]. intros id r' Hr'. left. split; [done|]. apply not_elem_of_nil. }
  cbn [for_each]. unfold mbind at 1, stm_bind at 1. unfold mbind at 1, stm_bind at 1.
  apply NoDup_cons in Hnd as [Hr Hnd]. destruct (Hrows r) as [Hrow Hp]; [by left|].
  destruct (settle_row_on r _ _ _ d) as [[st d1]|] eqn:Hset; [|done]. cbn.
  rewrite <- (set_judge_same r) in Hrow at 2.
  apply (settle_row_writes _ _ _ _ _ _ _ _ Hrow Hp) in Hset as (_ & Hc & _ & Ha).
  2: { unfold claim_of_row. destruct (ap_decision_claim r) as [claim|] eqn:Hcl; cbn; rewrite Hcl; [apply Z.eqb_refl|done]. }
  rewrite set_judge_same in Ha. intros [Hc' Hrest]%IH; [|done|].
  2: { intros r1 Hin. destruct (Hrows r1) as [? ?]; [by right|]. rewrite Ha, lookup_insert_ne; [done|].
       intros Heq. apply Hr. rewrite Heq. by apply list_elem_of_fmap_2. }
  split; [by rewrite Hc', Hc|]. intros id r' Hr'. destruct (Hrest _ _ Hr') as [[Hd Hni]|(r1 & Hin & Hid & ->)].
  - rewrite Ha in Hd. apply lookup_insert_Some in Hd as [[<- <-]|[Hne Hd]].
    + right. exists r. split; [by left|done].
    + left. split; [done|]. intros [->|]%elem_of_cons; done.
  - right. exists r1. split; [by right|done].
Qed.

(** ** Theorems *)

(** C6: A decision is final.  Whatever is done afterwards, by people, the judge,
    workers, sweeps, the recovery of dead sessions, deletions of other chats and
    the components beside, the row of a card that is no longer pending keeps its
    state, its feedback, its time and its words; it leaves the table only when
    its own chat is deleted, unchanged until then. *)
Theorem settled_cards_are_final ops d d' id r :
  keyed d -> history ops d d' -> a_approvals d !! id = Some r -> row_pending r = false ->
  a_approvals d' !! id = Some r
  \/ exists ops1 op ops2 d1,
       ops = ops1 ++ op :: ops2 /\ history ops1 d d1 /\ history ops2 (run_op op d1) d'
       /\ a_approvals d1 !! id = Some r /\ deletion op = Some (ap_session_id r)
       /\ a_approvals (run_op op d1) !! id = None.
Proof.
  intros K Hh Hr Hp. induction Hh as [d|op ops d d' Hok Hh IH]; [by left|].
  destruct (operation_final _ _ _ _ K Hok Hr Hp) as [Hr'|[Hd Hn]].
  - destruct (IH (operation_keyed _ _ K Hok) Hr') as [|(ops1 & op' & ops2 & d1 & -> & H1 & H2 & H3 & H4 & H5)]; [by left|].
    right. exists (op :: ops1), op', ops2, d1. split_and!; try done. by constructor.
  - right. exists [], op, ops, d. split_and!; try done. constructor.
Qed.





(** C15: The judge is given only calls it may decide.  Starting without cards, a
    row the judge owns, approved or handed back asks for a kind it may judge, on
    a call its preview describes exactly and, for a command, one that the
    vetting of commands lets run alone. *)
Theorem the_judge_has_only_candidates ops d d' id r :
  keyed d -> a_approvals d = ∅ -> history ops d d' ->
  a_approvals d' !! id = Some r -> is_some (ap_auto_judge_status r) = true -> candidate d' id.
Proof.
  intros K Hnone Hh. apply (history_invariant _ ops d d' op_candidates); [|done| |done].
  - intros chat d0 HI id' r' Hr' Hj. eapply candidate_erased; [done|]. apply erased_approval in Hr' as [Hr' _]. by eapply HI.
  - intros id' r'. by rewrite Hnone, lookup_empty.
Qed.

(** C24: A decision made twice is made once.  After any history that does not
    delete the chat the same answer
    to a decided card finds it decided, any other answer is a conflict, and
    neither writes; the card still tells the decision. *)
Theorem a_decision_is_recovered chat id decision now d a res d1 ops d2 answer later :
  keyed d -> decide chat id decision now d = (Ok (Decided a res), d1) -> history ops d1 d2 ->
  (forall op, op ∈ ops -> deletion op <> Some chat) ->
  is_Some (a_sessions d2 !! chat) -> validate_decision answer = Ok tt ->
  decide chat id answer later d2 = (Ok (if bool_decide (answer = decision) then DecideExisting a else DecisionConflict), d2)
  /\ get_card id d2 = Ok (Some a) /\ card_decision a = Some decision.
Proof.
  intros K Hd Hh Hno Hs Hv. unfold decide in Hd. destruct (validate_decision decision) eqn:Hvd; [|done].
  assert (K1 : keyed d1).
  { pose proof (operation_keyed (OpDecide chat id decision now) d K I) as K1. cbn in K1. unfold decide in K1.
    by rewrite Hvd, Hd in K1. }
  apply abegin_answers in Hd; [|apply decide_answers]. apply decided_card in Hd; [|done].
  destruct Hd as (r & call & Hr & Hc & Ht & Hse & Hch & Hst & Hre).
  destruct (decided_card_kept _ _ _ _ _ _ _ K1 Hh Hr Hc Ht) as (Hr' & call' & Hc' & Hsame & Ht');
    [by rewrite Hst; destruct decision|intros op Hin%Hno; by rewrite Hse, Hch|].
  split; [|split].
  - eapply decided_again; try done. destruct Hsame as (_ & Hchat & _). congruence.
  - by eapply get_card_of_row.
  - unfold card_decision. rewrite Hst, Hre. by destruct decision.
Qed.

(** An answer a waiting turn hears is the answer.  Once a poll of a card's
    decision has one, a poll after any history without a deletion has the same. *)
Lemma an_answer_heard_is_the_answer ops d d' id answer :
  keyed d -> heard d id answer -> history ops d d' -> (forall op, op ∈ ops -> deletion op = None) ->
  poll_decision id d = Some answer /\ poll_decision id d' = Some answer.
Proof.
  intros K Hh Hist Hno. split; apply heard_poll; [done|by eapply heard_kept].
Qed.

(** C28: No card outlives its turn.  When a turn is closed, every card of it is
    settled, those that were pending as abandoned; the calls of the turn that
    ran on the server are no longer pending, and the cards of other turns are
    as they were. *)
Theorem no_card_survives_its_turn turn now d d' :
  keyed d -> abegin (close_pending_for_terminal_turn_on turn now) d = (Ok tt, d') ->
  (forall id r, a_approvals d' !! id = Some r -> ap_turn_id r = turn -> row_pending r = false
     /\ forall r0, a_approvals d !! id = Some r0 -> row_pending r0 = true -> ap_state r = state_as_str Abandoned)
  /\ (forall id r, a_approvals d' !! id = Some r -> ap_turn_id r <> turn -> a_approvals d !! id = Some r)
  /\ forall id call, a_calls d' !! id = Some call -> c_turn_id call = turn -> pending_server call = false.
Proof.
  intros K Ho%abegin_answers; [|apply close_answers]. unfold close_pending_for_terminal_turn_on in Ho.
  unfold mbind at 1, stm_bind at 1, modify in Ho. cbn beta iota in Ho.
  match type of Ho with context [with_calls (?g <$> _) d] => set (f := g) in Ho end. set (d1 := with_calls _ d) in Ho.
  assert (K1 : keyed d1).
  { eapply estep_keyed; [|done]. apply e_calls. intros call. subst f. cbn. by destruct ((c_turn_id call =? turn) && pending_server call). }
  unfold pending_rows_for_turn, mbind at 1, stm_bind at 1, mbind at 1, stm_bind at 1, get in Ho. cbn in Ho.
  apply sweep_settles in Ho as [Hc Hrows]; [|by apply listed_ids|].
  2: { intros r [Hr Hf]%listed_rows; [|done]. apply andb_true_iff in Hf as [_ Hf]. done. }
  split_and!.
  - intros id r Hr Hturn. destruct (Hrows _ _ Hr) as [[Hd Hni]|(r0 & Hin & Hid & ->)].
    + assert (row_pending r = false) as Hp.
      { apply not_true_is_false. intros Hp. apply Hni. pose proof (proj1 K1 _ _ Hd) as Hid. rewrite <- Hid.
        apply list_elem_of_fmap_2, listed_rows; [done|]. rewrite Hid, Hturn, Z.eqb_refl. done. }
      split; [done|]. intros r0 Hr0. assert (r0 = r) as -> by (cbn in Hd; congruence). congruence.
    + split; [|done]. by apply String.eqb_neq, never_pending.
  - intros id r Hr Hturn. destruct (Hrows _ _ Hr) as [[Hd _]|(r0 & Hin & _ & ->)]; [done|].
    apply listed_rows in Hin as [_ Hf]; [|done]. apply andb_true_iff in Hf as [Hf%Z.eqb_eq _]. done.
  - intros id call Hcall Hturn. rewrite Hc in Hcall. cbn in Hcall. rewrite lookup_fmap in Hcall.
    destruct (a_calls d !! id) as [call0|]; [|done]. injection Hcall as <-. subst f. cbn in *.
    destruct ((c_turn_id call0 =? turn) && pending_server call0) eqn:Hp; [|].
    + unfold pending_server. cbn. by rewrite andb_false_r.
    + apply andb_false_iff in Hp as [Hp|]; [|done]. by rewrite Hturn, Z.eqb_refl in Hp.
Qed.
End History.
