(* ===== verification/ApprovalExamples.v ===== *)
(** * Consent: concrete calls and one chat's cards

    Calls of each tool, the cards they put up and a turn that gates them, with
    the theorems of [ApprovalTheorems] applied there; then one chat whose turn
    asks to run [cargo test], and what people, grants, the judge and the end of
    the turn do to its card, with the theorems of [ApprovalHistory]. *)
From stdpp Require Import gmap sorting.
From S2P Require Import Prelude RustStr ShellPolicy PolicyFacts ShellExamples TurnTables Json ErrorKinds.
From S2P Require Import Transcript ToolPreview Approvals ToolGate ApprovalTheorems ApprovalStore ApprovalBroker.
From S2P Require Import ApprovalLedger ApprovalHistory.

Import Demo.
Open Scope nat_scope.
Open Scope tb_scope.

Module ApprovalDemo.
(** One text parses: the arguments of [cargo test]. *)
#[local] Instance call_json : SerdeJson Z := {
  from_str_string := fun _ => None;
  from_str_value := fun b => if bool_decide (b = of_text "{cargo test}") then Some (exec_call "cargo" ["test"]) else None }.

Definition text_of (fields : list (string * string)) : json Z := JObject (map (fun f => (f.1, JString f.2)) fields).
Definition cargo_test : json Z := exec_call "cargo" ["test"].
Definition BREAK : string := utf8 [10].
Definition home_sweep : json Z := exec_call "bash" ["-c"; "rm -rf ~" +:+ BREAK].

(** ** What cards offer *)
Example cargo_test_offers : mintable_ladder_for ExecMayRunNetworkedCommand "exec" cargo_test
  = [ExactAction (ExecAction "cargo" ["test"] "." [] None); CommandPrefix ["cargo"; "test"]; CommandPrefix ["cargo"]; WholeTool].
Proof. vm_compute. reflexivity. Qed.
Example cargo_test_rungs :
  approval_grant_rungs ExecMayRunNetworkedCommand (build "exec" cargo_test) true
  = [RungExactAction; RungCommandPrefix 2; RungCommandPrefix 1; RungWholeTool].
Proof. vm_compute. reflexivity. Qed.
Example a_write_offers_its_folder :
  mintable_ladder_for WorkspaceMayModifyFiles "write_file" (text_of [("path", "notes/./july//plan.md")])
  = [PathSubtree "notes/july/plan.md"; PathSubtree "notes/july"].
Proof. vm_compute. reflexivity. Qed.
Example a_climbing_write_offers_nothing :
  mintable_ladder_for WorkspaceMayModifyFiles "write_file" (text_of [("path", "notes/../../etc")]) = [].
Proof. vm_compute. reflexivity. Qed.
(** A path that lost a character on its card still shows rungs there, although
    none of them can be minted for the call. *)
Example a_cut_path_shows_rungs_in_vain :
  let asked := text_of [("path", "notes/a" +:+ BREAK)] in
  mintable_ladder_for WorkspaceMayModifyFiles "write_file" asked = []
  /\ approval_grant_rungs WorkspaceMayModifyFiles (build "write_file" asked) (describes_exactly "write_file" asked)
     = [RungPathPrefix 2; RungPathPrefix 1].
Proof. vm_compute. split; reflexivity. Qed.

(** ** The theorems at concrete calls *)
Lemma an_offered_scope_ends_the_asking_witness :
  CommandPrefix ["cargo"; "test"] ∈ mintable_ladder_for ExecMayRunNetworkedCommand "exec" cargo_test
  /\ exists g, scoped (level_for_chat 1 (Some 7%Z)) "exec" ExecMayRunNetworkedCommand (CommandPrefix ["cargo"; "test"]) 5 = Some g
       /\ grant_covers g 1 (Some 7%Z) "exec" ExecMayRunNetworkedCommand cargo_test = true.
Proof.
  assert (H : CommandPrefix ["cargo"; "test"] ∈ mintable_ladder_for ExecMayRunNetworkedCommand "exec" cargo_test)
    by (apply (bool_decide_eq_true_1 _); vm_compute; reflexivity).
  split; [exact H|]. exact (an_offered_scope_ends_the_asking _ _ _ _ 1 (Some 7%Z) 5 H).
Defined.

Definition said_search : json Z := text_of [("query", "lease scan"); ("summary", "Looking up the scan")].
Definition plain_search : json Z := text_of [("query", " lease scan")].
Lemma an_exact_grant_covers_one_action_witness :
  covers_call (ExactAction (SearchAction "lease scan" (Some "Looking up the scan"))) "search" plain_search = true
  /\ describes_exactly "search" plain_search = true
  /\ action_fields "search" plain_search = action_fields "search" said_search.
Proof.
  split; [vm_compute; reflexivity|].
  apply (an_exact_grant_covers_one_action _ _ _ (SearchAction "lease scan" (Some "Looking up the scan")));
    vm_compute; reflexivity.
Defined.

Lemma consented_commands_are_vetted_witness :
  covers_call WholeTool "exec" cargo_test = true
  /\ exists command, get_str cargo_test "command" = Some command
       /\ vetted command (said_list (json_get cargo_test "args"))
       /\ (is_auto_judge_candidate ExecMayRunNetworkedCommand "exec" cargo_test = true ->
            is_exact_only command = false /\ runs_supplied_code command = false).
Proof.
  assert (H : covers_call WholeTool "exec" cargo_test = true) by (vm_compute; reflexivity).
  split; [exact H|]. apply (consented_commands_are_vetted WholeTool); [vm_compute; reflexivity|by left].
Defined.

Lemma a_whole_tool_grant_skips_the_floor_witness :
  (exists g, scoped (level_for_chat 1 None) "exec" ExecMayRunNetworkedCommand WholeTool 5 = Some g
    /\ grant_covers g 1 None "exec" ExecMayRunNetworkedCommand home_sweep = true)
  /\ verdict (analyze_argv (exec_argv "bash" ["-c"; "rm -rf ~" +:+ BREAK]) (MkRuleSet [] [])) = Deny.
Proof. apply (a_whole_tool_grant_skips_the_floor "bash" ["-c"; "rm -rf ~" +:+ BREAK]); vm_compute; reflexivity. Defined.

Definition told_search : ToolActionPreview := SearchAction "lease scan" (Some "Looking up the scan").
Lemma a_narrated_exact_rung_is_refused_witness :
  grant_scope RungExactAction (Some told_search) true = None
  /\ forall k, approval_grant_rungs k (Some told_search) true = approval_grant_rungs k (Some (without_summary told_search)) true
  /\ (RungExactAction ∈ approval_grant_rungs k (Some told_search) true ->
       grant_scope RungExactAction (Some (without_summary told_search)) true = Some (ExactAction (without_summary told_search))).
Proof. apply (a_narrated_exact_rung_is_refused told_search "Looking up the scan"). reflexivity. Defined.

Definition july_write : json Z := text_of [("path", "notes/./july/plan.md")].
Lemma a_place_grant_stays_in_its_place_witness :
  exists path dir rest, "write_file" = "write_file" /\ get_str july_write "path" = Some path
    /\ (exists note, build "write_file" july_write = Some (WriteFileAction path note))
    /\ place_segments "notes" = Some dir /\ place_segments path = Some (dir ++ rest)
    /\ starts_with path "/" = false /\ Forall segment (dir ++ rest).
Proof. apply (a_place_grant_stays_in_its_place "notes" "write_file" july_write). vm_compute. reflexivity. Defined.

Lemma replaceable_tools_always_ask_witness :
  any_covers [MkGrant (LevelChat 1) "exec" ExecMayRunNetworkedCommand WholeTool 5] 1 None "mcp__drive__delete"
    (for_call "mcp__drive__delete" Sensitive) cargo_test = false.
Proof.
  apply replaceable_tools_always_ask; [|vm_compute; reflexivity].
  constructor; [|constructor]. exists (LevelChat 1), "exec", ExecMayRunNetworkedCommand, WholeTool, 5%Z. vm_compute. reflexivity.
Defined.

(** ** A turn with one tool *)
Definition runner : Tool (Number := Z) := MkTool Sensitive "{}" (fun _ => Ok (MkOutput "ok" false None [])).
Definition turn_of (mode : PermissionMode) (answer : ApprovalDecision) : Turn (Number := Z) :=
  MkTurnContext (fun name => if String.eqb name "exec" then Some runner else None) (fun _ _ => None) 1 None
    (Some mode) true [] None true (Ok None) (fun _ _ => MkRegistration answer Ordinary) (fun _ => true) (fun _ => false).
Definition cargo_call : PendingCall := MkPending 3 "call_3" "exec" "{cargo test}".
Definition a_run (r : Ran (Number := Z)) : string * nat * bool :=
  (out_content (output r), length (announced r), is_some (executed r)).

Example asked_and_allowed : a_run (run_tool (turn_of ModeAsk Approve) 2 cargo_call None) = ("ok", 1, true).
Proof. vm_compute. reflexivity. Qed.
Example asked_and_declined : a_run (run_tool (turn_of ModeAsk (Reject "no")) 2 cargo_call None) = ("no", 1, false).
Proof. vm_compute. reflexivity. Qed.
Example never_asked : a_run (run_tool (turn_of ModeAllow (Reject "no")) 2 cargo_call None) = ("ok", 0, true).
Proof. vm_compute. reflexivity. Qed.
Example plans_do_not_run : (a_run (run_tool (turn_of ModePlan Approve) 2 cargo_call None)).2 = false.
Proof. vm_compute. reflexivity. Qed.

End ApprovalDemo.

Import ApprovalDemo.
Open Scope Z_scope.

Module StoreDemo.
#[local] Instance raw_eq_dec : EqDecision InternalToolApprovalRequest.
Proof. solve_decision. Defined.
#[local] Instance option_eq_dec' : EqDecision UserQuestionOption.
Proof. solve_decision. Defined.
#[local] Instance question_type_eq_dec : EqDecision UserQuestionType.
Proof. solve_decision. Defined.
#[local] Instance question_eq_dec : EqDecision UserQuestion.
Proof. solve_decision. Defined.
#[local] Instance kind_eq_dec : EqDecision ApprovalKind.
Proof. solve_decision. Defined.
(** Columns that keep the value itself *)
Definition kept (A : Type) `{EqDecision A} : JsonColumn A.
Proof. refine {| column := option A; to_value := Some; from_value := fun x => x |}. done. Defined.
#[local] Instance columns : ApprovalColumns := {|
  WireNumber := Z; show_uuid := fun _ => "a call"; scope_column := kept GrantScope;
  raw_column := kept InternalToolApprovalRequest; kind_column := kept ApprovalKind |}.
(** One question and one plan, whatever the arguments say *)
Definition where_to : UserQuestion :=
  MkQuestion "target" "Target" "Where should it go?"
    [MkOption "staging" "Staging" "For the team."; MkOption "live" "Live" "For everyone."] SingleSelect true.
#[local] Instance codec : ParkCodec := {|
  parse_uuid := fun _ => None; parse_questions := fun _ => Some [where_to]; parse_plan := fun _ => None;
  null_raw := (None : option InternalToolApprovalRequest); plan_to_raw := fun _ => None; plan_from_raw := fun _ => None;
  show_answers := fun _ => "answered"; show_plan_decision := fun _ => "decided" |}.

Definition build_call : ToolCallRecord Z :=
  Transcript.MkCall 10 1 5 "call_10" "exec" cargo_test ServerCall CallPending None None None 90 None.
Definition fresh : adb :=
  MkAdb {[1 := MkASession "ada" None 3 "active" true]} ∅ ∅ ∅ {[10 := build_call]} ∅ ∅ [].
Definition asking (auto : bool) : ApprovalRequest :=
  MkApproval 10 1 5 "exec" Sensitive ExecMayRunNetworkedCommand (build "exec" cargo_test) auto.
Definition prefix_grant : StandingGrant :=
  MkGrant (LevelChat 1) "exec" ExecMayRunNetworkedCommand (CommandPrefix ["cargo"; "test"]) 200.

Definition asked : adb := run_op (OpRequest (asking true) 100) fresh.
Definition allowed : adb := run_op (OpDecide 1 10 Approve 200) asked.
Definition remembered : adb := run_op (OpDecideGrant 1 10 Approve prefix_grant 200) asked.

Definition state_of (d : adb) : option (string * option string) :=
  (fun r => (ap_state r, ap_auto_judge_status r)) <$> a_approvals d !! 10.
Example the_judge_has_it : state_of asked = Some ("pending", Some "judging").
Proof. vm_compute. reflexivity. Qed.
Example a_person_takes_it_back : state_of allowed = Some ("approved", None).
Proof. vm_compute. reflexivity. Qed.
Example the_judge_allows_it : state_of (run_op (OpJudge 1 10 true 200) asked) = Some ("approved", Some "approved").
Proof. vm_compute. reflexivity. Qed.
Example the_judge_hands_it_back : state_of (run_op (OpJudge 1 10 false 200) asked) = Some ("pending", Some "declined").
Proof. vm_compute. reflexivity. Qed.
Example the_turn_ends : state_of (run_op (OpCloseTurn 5 300) asked) = Some ("abandoned", Some "judging").
Proof. vm_compute. reflexivity. Qed.
Example a_grant_is_stored : gr_kind <$> a_grants remembered !! 10 = Some "exec_may_run_networked_command".
Proof. vm_compute. reflexivity. Qed.

Definition keyed_check (d : adb) : bool :=
  forallb (fun p : Z * approval_row => ap_id p.2 =? p.1) (map_to_list (a_approvals d))
  && forallb (fun p : Z * ToolCallRecord WireNumber => Transcript.c_id p.2 =? p.1) (map_to_list (a_calls d)).
Lemma keyed_checked d : keyed_check d = true -> keyed d.
Proof.
  intros [Ha Hc]%andb_true_iff. rewrite forallb_forall in Ha, Hc. split; intros id x Hx%elem_of_map_to_list%list_elem_of_In.
  - apply Z.eqb_eq, (Ha _ Hx).
  - apply Z.eqb_eq, (Hc _ Hx).
Qed.
Lemma fresh_keyed : keyed fresh.
Proof. apply keyed_checked. vm_compute. reflexivity. Qed.
Lemma asked_keyed : keyed asked.
Proof. apply keyed_checked. vm_compute. reflexivity. Qed.
Lemma allowed_keyed : keyed allowed.
Proof. apply keyed_checked. vm_compute. reflexivity. Qed.

Fixpoint run_ops (ops : list aop) (d : adb) : adb :=
  match ops with [] => d | op :: ops => run_ops ops (run_op op d) end.
Definition inside (op : aop) : bool := match op with OpWorkerCard _ _ | OpManagedCard _ _ | OpOutside _ => false | _ => true end.
Lemma ran ops d : forallb inside ops = true -> history ops d (run_ops ops d).
Proof.
  revert d. induction ops as [|op ops IH]; cbn; intros d; [constructor|]. intros [Hop Hops]%andb_true_iff.
  constructor; [by destruct op|by apply IH].
Qed.

(** ** Deletions, recovery, parks *)

(** A chat of a project; its card's grant is the project's. *)
Definition shared : adb :=
  MkAdb {[1 := MkASession "ada" (Some 7) 3 "active" true]} {[7 := "ada"]} ∅ ∅ {[10 := build_call]} ∅ ∅ [].
Definition project_grant : StandingGrant :=
  MkGrant (LevelProject 7) "exec" ExecMayRunNetworkedCommand (CommandPrefix ["cargo"; "test"]) 200.
Definition shared_grant : adb := run_op (OpDecideGrant 1 10 Approve project_grant 200) (run_op (OpRequest (asking true) 100) shared).
Definition nothing_beside : ChatBeside := MkChatBeside false false false.
Example a_project_grant_outlives_its_chat :
  let d := run_op (OpDeleteChat 1 None nothing_beside) shared_grant in
  (is_some (a_grants shared_grant !! 10), is_some (a_grants d !! 10), is_some (a_approvals d !! 10), is_some (a_calls d !! 10))
  = (true, true, false, false).
Proof. vm_compute. reflexivity. Qed.
Example a_chats_grant_goes_with_it :
  let d := run_op (OpDeleteChat 1 None nothing_beside) remembered in
  (is_some (a_grants remembered !! 10), is_some (a_grants d !! 10)) = (true, false).
Proof. vm_compute. reflexivity. Qed.
Example a_project_with_a_chat_stays : (delete_project 7 None false shared_grant).1 = ProjectNotEmpty.
Proof. vm_compute. reflexivity. Qed.
Example a_projects_grant_goes_with_it :
  let d := run_op (OpDeleteProject 7 (Some "ada") false) (run_op (OpDeleteChat 1 None nothing_beside) shared_grant) in
  is_some (a_grants d !! 10) = false.
Proof. vm_compute. reflexivity. Qed.

(** A turn that asks: parked, answered, or lost with its worker *)
Definition ask_call : ToolCallRecord Z :=
  Transcript.MkCall 11 1 5 "call_11" "ask_user_questions" (JObject []) OrchestrationCall CallPending None None None 90 None.
Definition parked_turn : turn :=
  MkTurn 5 "ada" 1 1 "waiting_for_client" "" 80 None None None 1 3 1 0 (MkUsage 0 0 0 0) None None None None None 0 None None None
    (Some 90) (MkAdmitted None [] false None None None).
Definition asking_chat : adb :=
  MkAdb {[1 := MkASession "ada" None 3 "running" true]} ∅ {[5 := parked_turn]} ∅ {[11 := ask_call]} ∅ ∅ [].
Definition waiting_card : adb := run_op (OpCheckpoint ask_call 95) asking_chat.
Definition row_state (d : adb) : option string := ap_state <$> a_approvals d !! 11.
Definition the_answer (option_id : string) : AnswerUserQuestions := MkAnswers [MkAnswer "target" [option_id] None] None.
Definition goes_on : ParkBeside := MkBeside true (Some (set_status "resuming" parked_turn)) true.
Example a_question_waits : row_state waiting_card = Some "pending".
Proof. vm_compute. reflexivity. Qed.
Example a_question_is_answered :
  let d := run_op (OpAnswer 1 11 (the_answer "staging") 120 130 goes_on waiting_card) waiting_card in
  (row_state d, (fun c => (Transcript.c_status c, Transcript.c_result c)) <$> a_calls d !! 11, t_status <$> a_turns d !! 5)
  = (Some "approved", Some (CallCompleted, Some "answered"), Some "resuming").
Proof. vm_compute. reflexivity. Qed.
Example an_answer_must_be_offered :
  (answer 1 11 (the_answer "moon") 120 130 goes_on waiting_card waiting_card).1 = Ok ParkInvalid.
Proof. vm_compute. reflexivity. Qed.
Example a_lost_worker_abandons_its_cards :
  let d := run_op (OpRecover "ada" 1 3 ExpectRunning false 200) waiting_card in
  (row_state d, as_lifecycle <$> a_sessions d !! 1) = (Some "abandoned", Some "idle").
Proof. vm_compute. reflexivity. Qed.

(** ** The theorems *)

Definition afterwards : list aop :=
  [OpDecide 1 10 (Reject "no") 250; OpJudge 1 10 true 260; OpRequest (asking false) 270;
   OpRecover "ada" 1 3 ExpectRunning false 280; OpDeleteChat 2 None (MkChatBeside false false false); OpCloseTurn 5 300].

Lemma settled_cards_are_final_witness :
  exists r, a_approvals allowed !! 10 = Some r /\ row_pending r = false
    /\ a_approvals (run_ops afterwards allowed) !! 10 = Some r.
Proof.
  assert (H : row_pending <$> a_approvals allowed !! 10 = Some false) by (vm_compute; reflexivity).
  destruct (a_approvals allowed !! 10) as [r|] eqn:Hr; [|discriminate H]. injection H as Hp.
  exists r. split; [reflexivity|]. split; [exact Hp|].
  destruct (settled_cards_are_final afterwards allowed _ 10 r allowed_keyed (ran afterwards allowed eq_refl) Hr Hp)
    as [Hf|(ops1 & op & ops2 & d1 & Hops & _ & _ & _ & Hd & _)]; [exact Hf|]. exfalso.
  assert (H1 : ap_session_id <$> a_approvals allowed !! 10 = Some 1) by (vm_compute; reflexivity).
  rewrite Hr in H1. injection H1 as H1. rewrite H1 in Hd.
  assert (Hin : op ∈ afterwards) by (rewrite Hops; apply elem_of_app; right; left).
  assert (Hall : forallb (fun op => negb (bool_decide (deletion op = Some 1))) afterwards = true) by (vm_compute; reflexivity).
  rewrite forallb_forall in Hall. apply list_elem_of_In, Hall in Hin. rewrite Hd in Hin. discriminate Hin.
Defined.



Definition judging : list aop := [OpRequest (asking true) 100; OpJudge 1 10 false 200].
Lemma the_judge_has_only_candidates_witness :
  exists r, a_approvals (run_ops judging fresh) !! 10 = Some r /\ is_some (ap_auto_judge_status r) = true
    /\ candidate (run_ops judging fresh) 10.
Proof.
  assert (H : (fun r => is_some (ap_auto_judge_status r)) <$> a_approvals (run_ops judging fresh) !! 10 = Some true)
    by (vm_compute; reflexivity).
  destruct (a_approvals (run_ops judging fresh) !! 10) as [r|] eqn:Hr; [|discriminate H]. injection H as Hj.
  exists r. split; [reflexivity|]. split; [exact Hj|].
  exact (the_judge_has_only_candidates judging fresh _ 10 r fresh_keyed eq_refl (ran judging fresh eq_refl) Hr Hj).
Defined.

Lemma run_decide chat id answer now d :
  run_op (OpDecide chat id answer now) d = (ApprovalStore.decide chat id answer now d).2.
Proof. reflexivity. Qed.
Lemma run_close turn now d : run_op (OpCloseTurn turn now) d = (abegin (close_pending_for_terminal_turn_on turn now) d).2.
Proof. reflexivity. Qed.
Definition closing : list aop := [OpCloseTurn 5 300].
Lemma a_decision_is_recovered_witness :
  exists a res, ApprovalStore.decide 1 10 Approve 200 asked = (Ok (Decided a res), allowed)
    /\ ApprovalStore.decide 1 10 Approve 400 (run_ops closing allowed) = (Ok (DecideExisting a), run_ops closing allowed)
    /\ ApprovalStore.decide 1 10 (Reject "no") 400 (run_ops closing allowed)
       = (Ok DecisionConflict, run_ops closing allowed).
Proof.
  destruct (ApprovalStore.decide 1 10 Approve 200 asked) as [o d1] eqn:Hd.
  assert (Ho : match o with Ok (Decided _ _) => true | _ => false end = true).
  { change o with (o, d1).1. rewrite <- Hd. vm_compute. reflexivity. }
  assert (d1 = allowed) as -> by (unfold allowed; rewrite run_decide, Hd; reflexivity).
  destruct o as [[a res| | |]|]; try discriminate Ho. exists a, res. split; [reflexivity|].
  assert (Hs : is_Some (a_sessions (run_ops closing allowed) !! 1)) by (vm_compute; eexists; reflexivity).
  assert (Hno : forall op, op ∈ closing -> deletion op <> Some 1).
  { intros op [->|[]%not_elem_of_nil]%elem_of_cons. discriminate. }
  split.
  - exact (proj1 (a_decision_is_recovered 1 10 Approve 200 asked a res allowed closing _ Approve 400 asked_keyed Hd
                    (ran closing allowed eq_refl) Hno Hs eq_refl)).
  - exact (proj1 (a_decision_is_recovered 1 10 Approve 200 asked a res allowed closing _ (Reject "no") 400 asked_keyed Hd
                    (ran closing allowed eq_refl) Hno Hs eq_refl)).
Defined.

Lemma allowed_heard : heard allowed 10 Approve.
Proof.
  assert (H : match get_card 10 allowed with Ok (Some a) => card_decision a | _ => None end = Some Approve) by (vm_compute; reflexivity).
  destruct (get_card 10 allowed) as [[a|]|] eqn:Hg; try discriminate H. exists a. split; [exact Hg|exact H].
Qed.
Lemma an_answer_heard_is_the_answer_witness :
  poll_decision 10 allowed = Some Approve /\ poll_decision 10 (run_ops closing allowed) = Some Approve.
Proof.
  apply (an_answer_heard_is_the_answer closing allowed _ 10 Approve allowed_keyed allowed_heard (ran closing allowed eq_refl)).
  intros op [->|[]%not_elem_of_nil]%elem_of_cons. reflexivity.
Defined.

Lemma no_card_survives_its_turn_witness :
  exists d1 r r0, abegin (close_pending_for_terminal_turn_on 5 300) asked = (Ok tt, d1)
    /\ a_approvals asked !! 10 = Some r0 /\ row_pending r0 = true
    /\ a_approvals d1 !! 10 = Some r /\ row_pending r = false /\ ap_state r = state_as_str Abandoned.
Proof.
  destruct (abegin (close_pending_for_terminal_turn_on 5 300) asked) as [o d1] eqn:Hd.
  assert (Ho : match o with Ok _ => true | _ => false end = true).
  { change o with (o, d1).1. rewrite <- Hd. vm_compute. reflexivity. }
  destruct o as [[]|]; [|discriminate Ho].
  assert (H0 : row_pending <$> a_approvals asked !! 10 = Some true) by (vm_compute; reflexivity).
  assert (H1 : ap_turn_id <$> a_approvals (abegin (close_pending_for_terminal_turn_on 5 300) asked).2 !! 10 = Some 5)
    by (vm_compute; reflexivity).
  rewrite Hd in H1. cbn [snd] in H1.
  destruct (a_approvals asked !! 10) as [r0|] eqn:Hr0; [|discriminate H0]. injection H0 as Hp0.
  destruct (a_approvals d1 !! 10) as [r|] eqn:Hr; [|discriminate H1]. injection H1 as Ht.
  destruct (proj1 (no_card_survives_its_turn 5 300 asked d1 asked_keyed Hd) 10 r Hr Ht) as [Hp Hst].
  exists d1, r, r0. split; [reflexivity|]. split; [reflexivity|]. split; [exact Hp0|]. split; [exact Hr|]. split; [exact Hp|].
  exact (Hst r0 Hr0 Hp0).
Defined.
End StoreDemo.
