(* ===== verification/AgentStream.v ===== *)
(** * The registry and the stream of a step

    tidebreak-core, agent/registry.rs, agent/events.rs and the reading half of
    agent/turn.rs: the tools a turn may name, the ordinals of its events, and
    what one provider stream leaves behind.  JSON schemas, the receipts of a
    provider's own search and the identities drawn while reading are
    arguments. *)
From S2P Require Import Prelude RustStr Json TurnTables TurnResolve ShellPolicy ToolPreview Approvals.
From S2P Require Import ErrorKinds ContextFit.
From S2P Require Import TurnCancel Transcript RequestPrefix ToolGate.

Open Scope nat_scope.

Definition WAIT_FOR_AGENTS_TOOL : string := "wait_for_agents".
Definition REPORT_BLOCKED_TOOL : string := "report_blocked".
Definition UPDATE_TASK_PLAN_TOOL : string := "update_task_plan".
Definition MEMORY_TOOL : string := "memory".
Definition WEB_SEARCH_TOOL : string := "web_search".

(** ** The registry *)

(** A compiled schema of the jsonschema crate, or why there is none *)
Inductive SchemaValidator (Number : Type) : Type :=
  | Compiled (validate : json Number -> option string)
  | InvalidSchema (error : string).
Arguments Compiled {_} _.
Arguments InvalidSchema {_} _.
Inductive ForegroundOrchestrationKind : Type := SpawnKind | WaitKind.

Section Registry.
Context {Number : Type}.
Notation spec := (ToolSpec Number).
Implicit Types arguments : json Number.

Record RegisteredSpec : Type := MkRegistered { rs_spec : spec; rs_validator : SchemaValidator Number }.
Definition mismatch (r : RegisteredSpec) arguments : option string :=
  match rs_validator r with Compiled validate => validate arguments | InvalidSchema e => Some e end.
Definition is_advertisable (r : RegisteredSpec) : bool :=
  match rs_validator r with Compiled _ => true | InvalidSchema _ => false end.

Inductive RegisteredTool : Type :=
  | Server (tool : Tool (Number := Number)) (registered : RegisteredSpec)
  | Client (registered : RegisteredSpec) (validate_arguments : option (json Number -> bool)) (class : ApprovalClass)
  | ForegroundClient (registered : RegisteredSpec) (validate_arguments : json Number -> bool) (class : ApprovalClass)
  | ForegroundOrchestration (registered : RegisteredSpec) (kind : ForegroundOrchestrationKind) (class : ApprovalClass).

(** A [BTreeMap]: its entries in the order of their names *)
Definition ToolRegistry : Type := list (string * RegisteredTool).
Implicit Types reg : ToolRegistry.

Definition registered_of (t : RegisteredTool) : RegisteredSpec :=
  match t with
  | Server _ r | Client r _ _ | ForegroundClient r _ _ | ForegroundOrchestration r _ _ => r
  end.
Definition class_of (t : RegisteredTool) : ApprovalClass :=
  match t with
  | Server tool _ => approval_class tool
  | Client _ _ class | ForegroundClient _ _ class | ForegroundOrchestration _ _ class => class
  end.

(** [RegisteredSpec::new] compiles the schema. *)
Section Register.
Context (compile : spec -> SchemaValidator Number).
Definition registered_new (s : spec) : RegisteredSpec := MkRegistered s (compile s).
(** [SchemaValidatedTool]: the tool behind its own schema *)
Definition schema_validated (registered : RegisteredSpec) (tool : Tool (Number := Number)) : Tool (Number := Number) :=
  MkTool (approval_class tool) (schema_text tool) (fun arguments =>
    match mismatch registered arguments with
    | Some mismatch =>
        Ok (failed InvalidArguments
          ("arguments for " +:+ spec_name (rs_spec registered) +:+ " do not satisfy its schema: " +:+ mismatch
           +:+ "; re-send the call with arguments matching this schema: " +:+ schema_text tool))
    | None => execute tool arguments
    end).
Definition register (s : spec) (tool : Tool (Number := Number)) reg : ToolRegistry :=
  let registered := registered_new s in
  Json.map_insert (spec_name s) (Server (schema_validated registered tool) registered) reg.
Definition register_client (s : spec) (class : ApprovalClass) reg : ToolRegistry :=
  Json.map_insert (spec_name s) (Client (registered_new s) None class) reg.
Definition register_validated_client (s : spec) (class : ApprovalClass) (validate : json Number -> bool) reg : ToolRegistry :=
  Json.map_insert (spec_name s) (Client (registered_new s) (Some validate) class) reg.
Definition register_validated_foreground_client (s : spec) (class : ApprovalClass) (validate : json Number -> bool) reg
  : ToolRegistry :=
  Json.map_insert (spec_name s) (ForegroundClient (registered_new s) validate class) reg.

(** The two specs are generated from their argument types. *)
Definition register_foreground_agent_orchestration (spawn wait : string * json Number) reg : ToolRegistry :=
  let spawn := MkSpec SPAWN_SANDBOX_AGENT_TOOL spawn.1 spawn.2 in
  let wait := MkSpec WAIT_FOR_AGENTS_TOOL wait.1 wait.2 in
  Json.map_insert (spec_name wait) (ForegroundOrchestration (registered_new wait) WaitKind Sensitive)
    (Json.map_insert (spec_name spawn) (ForegroundOrchestration (registered_new spawn) SpawnKind Sensitive) reg).
End Register.

(** [ToolRegistry::get]: only a server tool has an executor. *)
Definition registry_get reg (name : string) : option (Tool (Number := Number)) :=
  match map_get name reg with Some (Server tool _) => Some tool | _ => None end.
Definition registry_contains reg (name : string) : bool := is_some (map_get name reg).
Definition execution reg (name : string) : option ToolCallExecution :=
  match map_get name reg with
  | Some (Server _ _) => Some ServerCall
  | Some (Client _ _ _ | ForegroundClient _ _ _) => Some ClientCall
  | Some (ForegroundOrchestration _ _ _) | None => None
  end.
Definition registered_class reg (name : string) : option ApprovalClass := class_of <$> map_get name reg.
Definition registry_mismatch reg (name : string) arguments : option string :=
  match map_get name reg with Some t => mismatch (registered_of t) arguments | None => None end.
Definition client_arguments_are_valid reg (name : string) arguments : bool :=
  match map_get name reg with
  | Some (Client registered (Some validate) _) | Some (ForegroundClient registered validate _) =>
      is_advertisable registered && validate arguments
  | Some (Client registered None _) => negb (is_some (mismatch registered arguments))
  | Some (Server _ _ | ForegroundOrchestration _ _ _) | None => false
  end.
Definition is_foreground_client reg (name : string) : bool :=
  match map_get name reg with Some (ForegroundClient _ _ _) => true | _ => false end.
Definition is_foreground_sandbox_spawn reg (name : string) : bool :=
  match map_get name reg with Some (ForegroundOrchestration _ SpawnKind _) => true | _ => false end.
Definition is_foreground_agent_wait reg (name : string) : bool :=
  match map_get name reg with Some (ForegroundOrchestration _ WaitKind _) => true | _ => false end.

(** The definition a surface advertises of one tool, if any *)
Definition advertised (allow_agent_orchestration read_only : bool) (t : RegisteredTool) : option spec :=
  let registered := registered_of t in
  let name := spec_name (rs_spec registered) in
  if negb (is_advertisable registered) then None else
  let beyond := read_only && negb (bool_decide (class_of t = ReadOnly)) in
  match t with
  | Server _ _ =>
      if beyond then None
      else if read_only && String.eqb name UPDATE_TASK_PLAN_TOOL then None
      else if read_only && String.eqb name MEMORY_TOOL then None
      else Some (rs_spec registered)
  | Client _ _ _ => if beyond then None else Some (rs_spec registered)
  | ForegroundClient _ _ _ =>
      if beyond then None
      else if negb read_only && String.eqb name EXIT_PLAN_MODE_TOOL then None
      else if read_only && String.eqb name ASK_USER_QUESTIONS_TOOL then None
      else if allow_agent_orchestration then Some (rs_spec registered) else None
  | ForegroundOrchestration _ _ _ =>
      if beyond then None else if allow_agent_orchestration then Some (rs_spec registered) else None
  end.
Definition specs_for_surface reg (allow_agent_orchestration read_only : bool) : list spec :=
  omap (fun e => advertised allow_agent_orchestration read_only e.2) reg.
Definition specs_for_foreground reg (allow_agent_orchestration : bool) : list spec :=
  specs_for_surface reg allow_agent_orchestration false.
End Registry.
Arguments RegisteredSpec : clear implicits.
Arguments RegisteredTool : clear implicits.
Arguments ToolRegistry : clear implicits.

(** ** Events and their ordinals (event.rs, agent/events.rs) *)

Record RefusalDetails : Type := MkRefusalDetails { refusal_category : option string }.
Inductive RefusalSource : Type := ReportBlocked.
Record RefusalOutcome : Type := MkRefusalOutcome {
  ro_details : RefusalDetails; ro_partial_output : bool; ro_source : option RefusalSource }.
(** [RefusalOutcome::new] and [report_blocked] *)
Definition refusal_new (details : RefusalDetails) (partial_output : bool) : RefusalOutcome :=
  MkRefusalOutcome details partial_output None.
Definition report_blocked : RefusalOutcome :=
  MkRefusalOutcome (MkRefusalDetails (Some "blocked")) true (Some ReportBlocked).

Inductive AgentEvent : Type :=
  | EvTurnStarted (turn_id : Z)
  | EvTextDelta (text : string)
  | EvReasoningDelta (text : string)
  | EvToolCallStarted (call_id : Z) (name : string)
  | EvToolCallArgsDelta (call_id : Z) (fragment : string)
  | EvToolCallCompleted (call_id : Z) (output : ToolOutput) (action : option ToolActionPreview)
  | EvApprovalDecided (call_id : Z) (approved : bool)
  | EvUserSteered (message_id : Z) (text : string)
  | EvStreamInterrupted
  | EvContextTruncated (original_tokens fitted_tokens : Z)
  | EvCompaction (event : CompactionEvent)
  | EvTurnCompleted (usage : Usage) (stop_reason : StopReason)
  | EvTurnRefused (usage : Usage) (refusal : RefusalOutcome)
  | EvTurnCancelled (usage : Usage)
  | EvTurnFailed (error : ErrorInfo).

(** [reserve_event_ordinal]: the ordinal taken, and the next *)
Definition reserve_event_ordinal (next : Z) : option (Z * Z) :=
  if (next + 1 <? I32_MAX)%Z then Some (next, (next + 1)%Z) else None.
(** [proposed_ordinal] of a claimed turn *)
Definition ordinal_in_range (ordinal : Z) : bool := ((1 <=? ordinal) && (ordinal <? I32_MAX))%Z.

(** ** Reading a stream *)

Inductive StreamEnd : Type := Done | CancelledEnd | Steered | FailedEnd (error : ErrorInfo).

Section Stream.
Context {Number : Type} `{HJ : SerdeJson Number}.
Notation block := (ContentBlock Number).

Inductive ProviderEvent : Type :=
  | PvText (text : string)
  | PvReasoning (text : string)
  | PvReasoningBlock (data : json Number)
  | PvToolCallStarted (index : Z) (id name : string)
  | PvToolCallArgsDelta (index : Z) (fragment : string)
  | PvUsage (reported : Usage)
  | PvProviderExecuted (name : string) (input output : json Number) (is_error : bool)
      (replay : option (ProviderToolReplay Number))
  | PvStop (reason : StopReason)
  | PvRefusal (details : RefusalDetails)
  | PvFailed (error : ErrorInfo).

(** What a poll finds: the next event, or one of the two interruptions *)
Inductive Poll : Type := PollEvent (event : ProviderEvent) | PollCancelled | PollSteered.

Inductive StreamItem : Type :=
  | HostCall (index : nat)
  | HostCallArgsDelta (call_index : nat) (fragment : string)
  | ProviderExecuted (call_id : Z) (receipt : block).

(** What has been read: [StreamAttempt], with the identities drawn, the usage
    of the turn and the events sent *)
Record Reading : Type := MkReading {
  rd_text : string; rd_calls : list PendingCall; rd_items : list StreamItem; rd_reasoning : list (json Number);
  rd_by_index : gmap Z nat; rd_provider_seen : bool; rd_vendor_web_search_seen : bool; rd_completion_seen : bool;
  rd_stop_reason : StopReason; rd_refusal_details : option RefusalDetails; rd_drawn : nat; rd_usage : Usage;
  rd_sent : list AgentEvent }.
Definition reading_new (usage : Usage) : Reading :=
  MkReading "" [] [] [] ∅ false false false EndTurn None 0 usage [].

Definition is_provider_executed (i : StreamItem) : bool := match i with ProviderExecuted _ _ => true | _ => false end.

(** [calls[i].args.push_str(&fragment)] *)
Definition push_args (fragment : string) (c : PendingCall) : PendingCall :=
  MkPending (p_call_id c) (p_provider_id c) (p_name c) (p_args c +:+ fragment).

Section Read.
(** Identities are numbers, and those drawn while reading are a run of them
    from [first]: only that they differ matters.  [admissible] is
    [provider_executed_call_is_admissible]. *)
Context (first : Z) (admissible : block -> bool).
Definition fresh (drawn : nat) : Z := (first + Z.of_nat drawn)%Z.

(** One event: what has been read after it, and whether reading ends there,
    [None] being an overflow of the usage. *)
Definition read_event (r : Reading) (e : ProviderEvent) : Reading * option (option StreamEnd) :=
  let '(MkReading text calls items reasoning by_index provider_seen vendor_seen completion stop refusal drawn usage sent) := r in
  match e with
  | PvText delta =>
      (MkReading (text +:+ delta) calls items reasoning by_index provider_seen vendor_seen completion stop refusal drawn
         usage (sent ++ [EvTextDelta delta]), None)
  | PvReasoning delta =>
      (MkReading text calls items reasoning by_index provider_seen vendor_seen completion stop refusal drawn
         usage (sent ++ [EvReasoningDelta delta]), None)
  | PvReasoningBlock data =>
      (MkReading text calls items (reasoning ++ [data]) by_index provider_seen vendor_seen completion stop refusal drawn
         usage sent, None)
  | PvToolCallStarted index id name =>
      let call_id := fresh drawn in
      let sent := if provider_seen then sent else sent ++ [EvToolCallStarted call_id name] in
      (MkReading text (calls ++ [MkPending call_id id name ""]) (items ++ [HostCall (length calls)]) reasoning
         (<[index := length calls]> by_index) provider_seen vendor_seen completion stop refusal (S drawn) usage sent, None)
  | PvToolCallArgsDelta index fragment =>
      match by_index !! index with
      | None => (r, None)
      | Some i =>
          let sent :=
            match provider_seen, calls !! i with
            | false, Some call => sent ++ [EvToolCallArgsDelta (p_call_id call) fragment]
            | _, _ => sent
            end in
          (MkReading text (alter (push_args fragment) i calls) (items ++ [HostCallArgsDelta i fragment]) reasoning
             by_index provider_seen vendor_seen completion stop refusal drawn usage sent, None)
      end
  | PvUsage reported =>
      match usage_checked_add usage reported with
      | None => (r, Some None)
      | Some usage =>
          (MkReading text calls items reasoning by_index provider_seen vendor_seen completion stop refusal drawn usage sent, None)
      end
  | PvProviderExecuted name input output is_error replay =>
      let vendor_seen := vendor_seen || String.eqb name WEB_SEARCH_TOOL in
      let receipt := ProviderExecutedToolCall name input output is_error replay in
      if admissible receipt
      then (MkReading text calls (items ++ [ProviderExecuted (fresh drawn) receipt]) reasoning by_index true vendor_seen
              completion stop refusal (S drawn) usage sent, None)
      else (MkReading text calls items reasoning by_index provider_seen vendor_seen completion stop refusal drawn usage sent, None)
  | PvStop reason =>
      (MkReading text calls items reasoning by_index provider_seen vendor_seen true reason refusal drawn usage sent, None)
  | PvRefusal details =>
      (MkReading text calls items reasoning by_index provider_seen vendor_seen true StopRefusal (Some details) drawn usage
         sent, None)
  | PvFailed error => (r, Some (Some (FailedEnd error)))
  end.

(** A stream that closes ends the list. *)
Fixpoint read_polls (r : Reading) (polls : list Poll) : Reading * option StreamEnd :=
  match polls with
  | [] => (r, Some Done)
  | PollCancelled :: _ => (r, Some CancelledEnd)
  | PollSteered :: _ => (r, Some Steered)
  | PollEvent e :: polls =>
      match read_event r e with
      | (r, Some ended) => (r, ended)
      | (r, None) => read_polls r polls
      end
  end.
End Read.

(** One item's deferred events, and whether a receipt has been passed *)
Fixpoint deferred_from (provider_seen : bool) (items : list StreamItem) (calls : list PendingCall) : list AgentEvent :=
  match items with
  | [] => []
  | ProviderExecuted _ _ :: items => deferred_from true items calls
  | HostCall index :: items =>
      match provider_seen, calls !! index with
      | true, Some call => [EvToolCallStarted (p_call_id call) (p_name call)]
      | _, _ => []
      end ++ deferred_from provider_seen items calls
  | HostCallArgsDelta index fragment :: items =>
      match provider_seen, calls !! index with
      | true, Some call => [EvToolCallArgsDelta (p_call_id call) fragment]
      | _, _ => []
      end ++ deferred_from provider_seen items calls
  end.
(** [publish_deferred_host_stream_events] *)
Definition deferred_host_stream_events (items : list StreamItem) (calls : list PendingCall) : list AgentEvent :=
  deferred_from false items calls.

Definition tool_use (call : PendingCall) : block := ToolUse (p_provider_id call) (p_name call) (parse_args (p_args call)).1.

Definition stream_content_blocks (items : list StreamItem) (calls : list PendingCall) : list block :=
  omap (fun item => match item with
                    | HostCall index => tool_use <$> calls !! index
                    | ProviderExecuted _ receipt => Some receipt
                    | HostCallArgsDelta _ _ => None
                    end) items.
End Stream.
Arguments ProviderEvent : clear implicits.
Arguments Poll : clear implicits.
Arguments StreamItem : clear implicits.
Arguments Reading : clear implicits.

(** ** What has been read

    Items address the calls in order, identities differ, and the events sent
    and held back are the events of the items. *)
Section ReadFacts.
Context {Number : Type} `{HJ : SerdeJson Number}.
Context (first : Z) (admissible : ContentBlock Number -> bool).
Implicit Types (r : Reading Number) (items : list (StreamItem Number)) (calls : list PendingCall).

Definition host_indices items : list nat :=
  omap (fun i => match i with HostCall index => Some index | _ => None end) items.
#[local] Arguments host_indices : simpl never.
(** The event an item announces *)
Definition item_event calls (i : StreamItem Number) : list AgentEvent :=
  match i with
  | HostCall index => match calls !! index with Some c => [EvToolCallStarted (p_call_id c) (p_name c)] | None => [] end
  | HostCallArgsDelta index fragment =>
      match calls !! index with Some c => [EvToolCallArgsDelta (p_call_id c) fragment] | None => [] end
  | ProviderExecuted _ _ => []
  end.
Definition host_events items calls : list AgentEvent := mjoin (map (item_event calls) items).
#[local] Arguments host_events : simpl never.
#[local] Arguments deferred_host_stream_events : simpl never.
Definition is_host_event (e : AgentEvent) : bool :=
  match e with EvToolCallStarted _ _ | EvToolCallArgsDelta _ _ => true | _ => false end.
Definition sent_host_events r : list AgentEvent := List.filter is_host_event (rd_sent r).

#[local] Arguments sent_host_events : simpl never.
Definition addresses (n : nat) (i : StreamItem Number) : Prop :=
  match i with HostCall index | HostCallArgsDelta index _ => index < n | ProviderExecuted _ _ => True end.

Definition is_receipt (b : ContentBlock Number) : bool :=
  match b with ProviderExecutedToolCall _ _ _ _ _ => true | _ => false end.
Definition receipt_item (i : StreamItem Number) : bool := match i with ProviderExecuted _ b => is_receipt b | _ => true end.

Record read_ok (r : Reading Number) : Prop := {
  ok_indices : host_indices (rd_items r) = seq 0 (length (rd_calls r));
  ok_addresses : Forall (addresses (length (rd_calls r))) (rd_items r);
  ok_by_index : map_Forall (fun _ i => i < length (rd_calls r)) (rd_by_index r);
  ok_drawn : Forall (fun id => (first <= id < first + Z.of_nat (rd_drawn r))%Z) (map p_call_id (rd_calls r));
  ok_distinct : NoDup (map p_call_id (rd_calls r));
  ok_seen : rd_provider_seen r = existsb is_provider_executed (rd_items r);
  ok_receipts : Forall (fun i => receipt_item i = true) (rd_items r);
  ok_events : host_events (rd_items r) (rd_calls r)
              = sent_host_events r ++ deferred_host_stream_events (rd_items r) (rd_calls r) }.

Lemma host_indices_app items items' : host_indices (items ++ items') = host_indices items ++ host_indices items'.
Proof. apply omap_app. Qed.
Lemma host_events_snoc items calls i : host_events (items ++ [i]) calls = host_events items calls ++ item_event calls i.
Proof. unfold host_events. rewrite map_app, join_app. cbn. by rewrite app_nil_r. Qed.

Lemma deferred_from_true items calls : deferred_from true items calls = host_events items calls.
Proof.
  induction items as [|[i|i f|id b] items IH]; [done|..]; cbn; rewrite IH; unfold host_events; cbn;
    [by destruct (calls !! i)..|done].
Qed.
Lemma deferred_from_app seen items items' calls :
  deferred_from seen (items ++ items') calls
  = deferred_from seen items calls ++ deferred_from (seen || existsb is_provider_executed items) items' calls.
Proof.
  revert seen. induction items as [|[i|i f|id b] items IH]; intros seen; cbn; rewrite ?orb_false_r; [done|..];
    rewrite ?IH, ?app_assoc; [done..|]. by rewrite orb_true_r.
Qed.
Lemma deferred_snoc items calls i : is_provider_executed i = false ->
  deferred_host_stream_events (items ++ [i]) calls
  = deferred_host_stream_events items calls ++ (if existsb is_provider_executed items then item_event calls i else []).
Proof.
  intros Hi. unfold deferred_host_stream_events. rewrite deferred_from_app. cbn [orb]. f_equal.
  destruct (existsb _ items), i as [j|j f|]; cbn; try done; by destruct (calls !! j).
Qed.

(** Calls are only ever appended to, and keep their identity and name. *)
Definition same_heads calls calls' : Prop :=
  forall i c, calls !! i = Some c -> exists c', calls' !! i = Some c' /\ p_call_id c' = p_call_id c /\ p_name c' = p_name c.
Lemma item_event_heads calls calls' i : addresses (length calls) i -> same_heads calls calls' ->
  item_event calls' i = item_event calls i.
Proof.
  intros Hi H. destruct i as [j|j f|]; cbn in *; [..|done].
  all: destruct (lookup_lt_is_Some_2 calls j Hi) as [c Hc]; destruct (H _ _ Hc) as (c' & -> & -> & Hn); rewrite Hc; by rewrite ?Hn.
Qed.
Lemma host_events_heads calls calls' items : Forall (addresses (length calls)) items -> same_heads calls calls' ->
  host_events items calls' = host_events items calls.
Proof.
  intros Hi H. unfold host_events. f_equal. apply map_ext_in. intros i Hin%list_elem_of_In.
  rewrite Forall_forall in Hi. by apply item_event_heads; [apply Hi|].
Qed.
Lemma deferred_heads seen calls calls' items : Forall (addresses (length calls)) items -> same_heads calls calls' ->
  deferred_from seen items calls' = deferred_from seen items calls.
Proof.
  intros Hi H. revert seen. induction Hi as [|i items Hi Hitems IH]; intros seen; [done|].
  pose proof (item_event_heads _ _ i Hi H) as E.
  destruct i as [j|j f|]; cbn in *; rewrite IH; [..|done]; f_equal; destruct seen; try done;
    destruct (calls !! j), (calls' !! j); congruence.
Qed.

Lemma same_heads_app calls c : same_heads calls (calls ++ [c]).
Proof. intros i c' H. exists c'. split; [|done]. by apply lookup_app_l_Some. Qed.
Lemma same_heads_alter calls i f : (forall c, p_call_id (f c) = p_call_id c /\ p_name (f c) = p_name c) ->
  same_heads calls (alter f i calls).
Proof.
  intros Hf j c H. destruct (decide (i = j)) as [->|Hne].
  - exists (f c). rewrite list_lookup_alter_eq, H. split; [done|apply Hf].
  - exists c. by rewrite list_lookup_alter_ne by done.
Qed.
Lemma map_id_alter calls i fragment : map p_call_id (alter (push_args fragment) i calls) = map p_call_id calls.
Proof. revert i. induction calls as [|c calls IH]; intros [|i]; cbn; [done..|]. f_equal. apply IH. Qed.

Lemma reading_new_ok usage : read_ok (reading_new usage).
Proof. split; try done; cbn; first [by constructor | apply map_Forall_empty]. Qed.

(** Text, reasoning and usage leave the calls alone. *)
Lemma read_ok_same r r' : read_ok r -> rd_calls r' = rd_calls r -> rd_items r' = rd_items r ->
  rd_by_index r' = rd_by_index r -> rd_drawn r' = rd_drawn r -> rd_provider_seen r' = rd_provider_seen r ->
  sent_host_events r' = sent_host_events r -> read_ok r'.
Proof. intros [] Hc Hi Hb Hd Hs He. split; rewrite ?Hc, ?Hi, ?Hb, ?Hd, ?Hs, ?He; done. Qed.

Lemma sent_app_host l l' : List.filter is_host_event (l ++ l') = List.filter is_host_event l ++ List.filter is_host_event l'.
Proof. apply List.filter_app. Qed.

Lemma deferred_none items calls : existsb is_provider_executed items = false -> deferred_from false items calls = [].
Proof. induction items as [|[i|i f|i b] items IH]; cbn in *; [done|by intros H; rewrite IH..|done]. Qed.

Lemma start_ok r index id name : read_ok r -> read_ok (read_event first admissible r (PvToolCallStarted index id name)).1.
Proof.
  intros [Hidx Haddr Hby Hdrawn Hnd Hseen Hrec Hev]. destruct r as [text calls items rs by_index seen vs cs sr rf drawn u sent].
  unfold sent_host_events in Hev. cbn in *. set (c := MkPending (fresh first drawn) id name "").
  assert (Hh : same_heads calls (calls ++ [c])) by apply same_heads_app.
  split; cbn.
  - rewrite host_indices_app, Hidx, length_app. cbn. by rewrite seq_app.
  - rewrite length_app. cbn. apply Forall_app. split; [|by constructor; cbn; [lia|]].
    eapply Forall_impl; [exact Haddr|]. intros [] ?; cbn in *; lia.
  - rewrite length_app. cbn. apply map_Forall_insert_2; [lia|]. intros k i Hk. pose proof (Hby k i Hk). cbn in *. lia.
  - rewrite map_app. apply Forall_app. split; [|constructor; [|done]; cbn; unfold fresh; lia].
    eapply Forall_impl; [exact Hdrawn|]. cbn. lia.
  - rewrite map_app. apply NoDup_app. split; [done|]. split; [|apply NoDup_singleton].
    intros x Hx ->%list_elem_of_singleton. rewrite Forall_forall in Hdrawn. apply Hdrawn in Hx. cbn in Hx. unfold fresh in Hx. lia.
  - rewrite existsb_app. cbn. by rewrite orb_false_r.
  - apply Forall_app. split; [done|]. by constructor.
  - rewrite host_events_snoc, deferred_snoc by done. cbn [item_event].
    rewrite lookup_app_r, Nat.sub_diag by lia. cbn [lookup list_lookup].
    unfold deferred_host_stream_events in *. rewrite (deferred_heads false calls) by done.
    rewrite (host_events_heads calls) by done. rewrite Hev, <- Hseen. unfold sent_host_events. cbn [rd_sent].
    destruct seen; cbn.
    + by rewrite <- app_assoc.
    + rewrite sent_app_host. cbn. rewrite app_nil_r.
      by rewrite deferred_none, !app_nil_r by done.
Qed.

Lemma args_ok r index fragment : read_ok r -> read_ok (read_event first admissible r (PvToolCallArgsDelta index fragment)).1.
Proof.
  intros Hr. destruct r as [text calls items rs by_index seen vs cs sr rf drawn u sent]. cbn.
  destruct (by_index !! index) as [i|] eqn:Hi; [|done].
  destruct Hr as [Hidx Haddr Hby Hdrawn Hnd Hseen Hrec Hev]. unfold sent_host_events in Hev. cbn in *.
  pose proof (Hby _ _ Hi) as Hlt. cbn in Hlt.
  destruct (lookup_lt_is_Some_2 calls i Hlt) as [c Hc].
  assert (Hh : same_heads calls (alter (push_args fragment) i calls)) by by apply same_heads_alter.
  split; cbn; rewrite ?length_alter, ?map_id_alter; try done.
  - rewrite host_indices_app, Hidx. cbn. by rewrite app_nil_r.
  - apply Forall_app. split; [done|]. by constructor.
  - rewrite existsb_app. cbn. by rewrite orb_false_r.
  - apply Forall_app. split; [done|]. by constructor.
  - rewrite host_events_snoc, deferred_snoc by done. cbn [item_event].
    rewrite list_lookup_alter_eq, Hc. cbn [fmap option_fmap option_map].
    unfold deferred_host_stream_events in *. rewrite (deferred_heads false calls) by done.
    rewrite (host_events_heads calls) by done. rewrite Hev, <- Hseen. unfold sent_host_events. cbn [rd_sent].
    destruct seen; cbn.
    + by rewrite <- app_assoc.
    + rewrite sent_app_host. cbn. by rewrite deferred_none, !app_nil_r by done.
Qed.

Lemma receipt_ok r id b : is_receipt b = true -> read_ok r ->
  read_ok (MkReading (rd_text r) (rd_calls r) (rd_items r ++ [ProviderExecuted id b]) (rd_reasoning r) (rd_by_index r) true
             (rd_vendor_web_search_seen r) (rd_completion_seen r) (rd_stop_reason r) (rd_refusal_details r)
             (S (rd_drawn r)) (rd_usage r) (rd_sent r)).
Proof.
  intros Hb [Hidx Haddr Hby Hdrawn Hnd Hseen Hrec Hev]. split; cbn; try done.
  - rewrite host_indices_app, Hidx. cbn. by rewrite app_nil_r.
  - apply Forall_app. split; [done|]. by constructor.
  - eapply Forall_impl; [exact Hdrawn|]. cbn. lia.
  - rewrite existsb_app. cbn. by rewrite orb_true_r.
  - apply Forall_app. split; [done|]. by constructor.
  - rewrite host_events_snoc. cbn. rewrite app_nil_r, Hev. unfold deferred_host_stream_events, sent_host_events.
    rewrite deferred_from_app. cbn. by rewrite app_nil_r.
Qed.

Lemma read_event_ok r e : read_ok r -> read_ok (read_event first admissible r e).1.
Proof.
  intros Hr. destruct e; [..|by apply start_ok|by apply args_ok| | | | |];
    destruct r as [txt calls items rs by_index seen vs cs sr rf drawn u sent]; cbn.
  1-2: eapply read_ok_same; [exact Hr|done..|]; unfold sent_host_events; cbn; by rewrite sent_app_host, app_nil_r.
  1: by eapply read_ok_same.
  - destruct (usage_checked_add u reported); [|done]. by eapply read_ok_same.
  - case_match; [|by eapply read_ok_same].
    assert (H' := receipt_ok _ (fresh first drawn) (ProviderExecutedToolCall name input output is_error replay) eq_refl Hr).
    by eapply read_ok_same.
  - by eapply read_ok_same.
  - by eapply read_ok_same.
  - done.
Qed.

Lemma read_polls_ok r polls : read_ok r -> read_ok (read_polls first admissible r polls).1.
Proof.
  revert r. induction polls as [|[e| |] polls IH]; intros r Hr; [done| |done..]. cbn.
  pose proof (read_event_ok r e Hr) as He. destruct (read_event first admissible r e) as [r' [ended|]]; [done|by apply IH].
Qed.

(** The blocks of the items name every call once, in the order of the calls. *)
Lemma blocks_of_indices items calls : Forall (fun i => receipt_item i = true) items ->
  omap use_id (stream_content_blocks items calls) = omap (fun i => p_provider_id <$> calls !! i) (host_indices items).
Proof.
  unfold stream_content_blocks, host_indices. induction 1 as [|[i|i f|id b] items Hi Hitems IH]; cbn; [done|..].
  - destruct (calls !! i); cbn; by rewrite IH.
  - exact IH.
  - by destruct b.
Qed.
Lemma seq_lookup_map {A} (f : PendingCall -> A) calls pre :
  omap (fun i => f <$> (pre ++ calls) !! i) (seq (length pre) (length calls)) = map f calls.
Proof.
  revert pre. induction calls as [|c calls IH]; intros pre; cbn; [done|].
  rewrite lookup_app_r, Nat.sub_diag by done. cbn. f_equal.
  specialize (IH (pre ++ [c])). rewrite length_app, Nat.add_1_r, <- app_assoc in IH. exact IH.
Qed.
Lemma content_blocks_uses r : read_ok r ->
  omap use_id (stream_content_blocks (rd_items r) (rd_calls r)) = map p_provider_id (rd_calls r).
Proof. intros Hr. rewrite blocks_of_indices by apply Hr. rewrite (ok_indices _ Hr). apply (seq_lookup_map p_provider_id (rd_calls r) []). Qed.
Lemma content_blocks_results items calls : Forall (fun i => receipt_item i = true) items ->
  omap result_id (stream_content_blocks items calls) = [].
Proof.
  unfold stream_content_blocks. induction 1 as [|[i|i f|id b] items Hi Hitems IH]; cbn; [done|..].
  - destruct (calls !! i); cbn; exact IH.
  - exact IH.
  - by destruct b.
Qed.
End ReadFacts.

(** However a stream ends, what the reader saw of the calls while it came
    and what is announced of them when it closes is every call begun and every
    fragment of its arguments, each once, in the order of the provider: a
    receipt of the provider's own search only moves where the one ends and the
    other begins.  The step's own message names the same calls, each once and in
    that order, under identities that differ. *)
Lemma the_live_view_misses_no_call {Number : Type} `{HJ : SerdeJson Number} (first : Z)
    (admissible : ContentBlock Number -> bool) (usage : Usage) (polls : list (Poll Number)) :
  let reading := (read_polls first admissible (reading_new usage) polls).1 in
  host_events (rd_items reading) (rd_calls reading)
  = sent_host_events reading ++ deferred_host_stream_events (rd_items reading) (rd_calls reading)
  /\ omap use_id (stream_content_blocks (rd_items reading) (rd_calls reading)) = map p_provider_id (rd_calls reading)
  /\ NoDup (map p_call_id (rd_calls reading)).
Proof.
  intros reading. assert (read_ok first reading) as H by (apply read_polls_ok, reading_new_ok).
  split; [apply (ok_events first), H|]. split; [by eapply content_blocks_uses|]. by apply (ok_distinct first).
Qed.
