(* ===== verification/AgentLoop.v ===== *)
(** * What an agent's turn does to the world

    tidebreak-core, agent/dispatch.rs and the helpers of agent/turn.rs: a turn
    is a computation that asks the world one question at a time (the store, the
    provider, the tool gate, the clock, the cancellation token, the steers
    people push) and keeps what it was answered.  The world may answer anything
    that has the type of an answer, and may look at all that happened. *)
From S2P Require Import Prelude RustStr Json TurnTables TurnResolve TurnPlacements ShellPolicy ToolPreview Approvals.
From S2P Require Import ErrorKinds ContextFit.
From S2P Require Import TurnCancel TurnParks Transcript Checkpoint RequestPrefix ToolGate AgentStream.

Open Scope nat_scope.

Definition REPEATED_CALL_LIMIT : nat := 3.
Definition MAX_WAIT_FOR_AGENTS_CHILDREN : nat := 4.
Definition MAX_CODE_WAIT_CHILDREN : nat := 8.
Definition MAX_SANDBOX_AGENT_TASK_CHARS : nat := 16 * 1000.
Definition MAX_REPORT_BLOCKED_REASON_CODE_CHARS : nat := 64.
Definition MAX_REPORT_BLOCKED_EXPLANATION_CHARS : nat := 2000.
Definition MAX_INPUT_LEN : N := 65536.
Definition MAX_CONNECTED_FOLDER_PATH_BYTES : nat := 1024.
Definition IN_TICKS (s : string) : string := "`" +:+ s +:+ "`".

Definition store_error (message : string) : AgentError := ErrorKinds.Store message.

(** ** Arguments of the control tools (agent_tools.rs, child_sessions.rs) *)

Record ReportBlockedArgs : Type := MkBlocked { reason_code : string; explanation : string }.
Record SandboxAgentFileResource : Type := MkResource { root_id : Z; relative_path : string }.
Record SpawnSandboxAgentArgs : Type := MkSpawnArgs { task : string; resource : option SandboxAgentFileResource }.

(** The decoders serde derives for these types, and [Value]'s equality *)
Class ArgumentSerde (Number : Type) : Type := {
  value_eqb : json Number -> json Number -> bool;
  decode_report_blocked : json Number -> option ReportBlockedArgs;
  decode_spawn : json Number -> option SpawnSandboxAgentArgs;
  encode_spawn : SpawnSandboxAgentArgs -> json Number;
  decode_wait : json Number -> option (list Z);
  decode_code_wait : json Number -> option (list Z) }.

Definition blocked_is_well_formed (b : ReportBlockedArgs) : bool :=
  negb (is_empty (reason_code b))
  && (length (chars (reason_code b)) <=? MAX_REPORT_BLOCKED_REASON_CODE_CHARS)
  && str_all (fun c => is_ascii_lowercase c || is_ascii_digit c || Ascii.eqb c "_"%char) (reason_code b)
  && String.eqb (explanation b) (trim (explanation b))
  && negb (is_empty (explanation b))
  && (length (chars (explanation b)) <=? MAX_REPORT_BLOCKED_EXPLANATION_CHARS)
  && negb (existsb (fun c => is_control c && negb (String.eqb c NEWLINE || String.eqb c (String (ascii_of_nat 9) "")))
             (chars (explanation b))).

(** [valid_connected_folder_path(path, false)] *)
Definition connected_file_path (path : string) : bool :=
  negb ((MAX_CONNECTED_FOLDER_PATH_BYTES <? len path) || has_nul path || contains path "\" || starts_with path "/"
        || ends_with path "/")
  && negb (is_empty path)
  && forallb (fun part => negb (is_empty part) && negb (String.eqb part ".") && negb (String.eqb part "..")
                          && negb (contains part ":") && negb (existsb is_control (chars part)))
       (split path "/"%char).
Definition spawn_is_well_formed (a : SpawnSandboxAgentArgs) : bool :=
  negb (trim_is_empty (task a)) && negb (has_nul (task a))
  && (length (chars (task a)) <=? MAX_SANDBOX_AGENT_TASK_CHARS) && (N.of_nat (len (task a)) <=? MAX_INPUT_LEN)%N
  && match resource a with Some r => connected_file_path (relative_path r) | None => true end.
Definition distinct_ids (limit : nat) (ids : list Z) : bool :=
  negb (match ids with [] => true | _ => false end) && (length ids <=? limit) && negb (existsb (Z.eqb 0) ids) && bool_decide (NoDup ids).

(** ** The agent (agent/mod.rs, agent/types.rs) *)

(** [CallIsolation]: why a call cannot run beside its siblings *)
Inductive CallIsolation : Type := IsoClient | IsoSandboxSpawn | IsoAgentWait | IsoChildSessionWait.
#[export] Instance isolation_eq_dec : EqDecision CallIsolation.
Proof. solve_decision. Defined.

Inductive TurnWebSearch : Type := HostSearch | VendorSearch (max_uses : Z) | SearchOff.

(** The configuration a turn reads, beside that of [RequestPrefix] *)
Section Agent_.
Context {Number : Type}.

Record Agent : Type := MkAgent {
  ag_tools : ToolRegistry Number; ag_config : AgentConfig; ag_provider : option string; ag_model : string;
  ag_max_steps : nat; ag_web_search : TurnWebSearch; ag_tools_supported : bool; ag_memory_tool : bool;
  ag_blobs : option blob_store; ag_durable_steer_lease : option Z; ag_orchestration_enabled : bool;
  ag_continuation_instruction : option string; ag_pending_sandbox_spawns : list (SandboxAgentSpawnRequest Number);
  ag_pending_steer_revision : option Z;
  (** [provider_web_search_receipt_is_canonical], uuid's [Display] and version 5
      identities, the clock's days *)
  ag_receipt_is_canonical : json Number -> json Number -> bool -> option (ProviderToolReplay Number) -> bool;
  ag_show_call : Z -> string; ag_sandbox_for_spawn_call : Z -> Z; ag_show_date : Z -> string }.
Record Chat : Type := MkChat { chat_id : Z; chat_permission_mode : option PermissionMode }.
Record TurnExecution : Type := MkExecution {
  ex_turn_id : Z; ex_user_input : string; ex_output_message_id : Z; ex_persist_input : bool; ex_publish_started : bool;
  ex_publish_terminal : bool }.

Definition agent_orchestration_active (a : Agent) : bool :=
  ag_orchestration_enabled a && is_some (ag_durable_steer_lease a).
Definition agent_reasoning_origin (a : Agent) : ReasoningOrigin := MkOrigin (ag_provider a) (ag_model a).

Definition provider_executed_call_is_admissible (a : Agent) (b : ContentBlock Number) : bool :=
  match b with
  | ProviderExecutedToolCall name input output is_error replay =>
      (match ag_web_search a with VendorSearch _ => true | _ => false end)
      && String.eqb name WEB_SEARCH_TOOL
      && match replay with
         | Some replay => bool_decide (replay_origin replay = Some (agent_reasoning_origin a))
         | None => true
         end
      && ag_receipt_is_canonical a input output is_error replay
  | _ => false
  end.

(** [foreground_tool_specs] *)
Definition foreground_tool_specs (a : Agent) (chat : Chat) : list (ToolSpec Number) :=
  if negb (ag_tools_supported a) then [] else
  let specs := specs_for_surface (ag_tools a) (agent_orchestration_active a)
                 (bool_decide (chat_permission_mode chat = Some ModePlan)) in
  let specs := match ag_web_search a with
               | HostSearch => specs
               | _ => List.filter (fun s => negb (String.eqb (spec_name s) WEB_SEARCH_TOOL)) specs
               end in
  if ag_memory_tool a then specs
  else List.filter (fun s => negb (String.eqb (spec_name s) MEMORY_TOOL)) specs.

(** ** Which calls may share a step (agent/dispatch.rs, agent/turn.rs) *)


Definition call_isolation (a : Agent) (call : PendingCall) : option CallIsolation :=
  let name := p_name call in
  let ordinary :=
    if String.eqb name CODE_WAIT_TOOL && registry_contains (ag_tools a) name then Some IsoChildSessionWait else None in
  match execution (ag_tools a) name with
  | Some ClientCall => Some IsoClient
  | _ =>
      if agent_orchestration_active a then
        if is_foreground_sandbox_spawn (ag_tools a) name then Some IsoSandboxSpawn
        else if is_foreground_agent_wait (ag_tools a) name then Some IsoAgentWait
        else ordinary
      else ordinary
  end.
Definition call_is_sensitive (a : Agent) (call : PendingCall) : bool :=
  match registry_get (ag_tools a) (p_name call) with
  | Some tool => bool_decide (approval_class tool = Sensitive)
  | None => false
  end.
Definition call_is_parallel_eligible (a : Agent) (call : PendingCall) : bool :=
  match registry_get (ag_tools a) (p_name call) with
  | Some tool => bool_decide (approval_class tool = ReadOnly)
  | None => false
  end.

Definition standalone_control_name (a : Agent) (call : PendingCall) : option string :=
  let name := p_name call in
  let registered :=
    if String.eqb name ASK_USER_QUESTIONS_TOOL || String.eqb name REPORT_BLOCKED_TOOL
    then is_some (ag_durable_steer_lease a) && is_foreground_client (ag_tools a) name
    else if String.eqb name SPAWN_SANDBOX_AGENT_TOOL
    then agent_orchestration_active a && is_foreground_sandbox_spawn (ag_tools a) name
    else if String.eqb name WAIT_FOR_AGENTS_TOOL
    then agent_orchestration_active a && is_foreground_agent_wait (ag_tools a) name
    else false in
  if registered then Some name else None.
Definition is_report_blocked_call (a : Agent) (call : PendingCall) : bool :=
  String.eqb (p_name call) REPORT_BLOCKED_TOOL && is_some (standalone_control_name a call).

(** A call that neither stands alone nor is registered as sensitive *)
Definition is_plain (a : Agent) (call : PendingCall) : bool :=
  negb (is_some (call_isolation a call)) && negb (call_is_sensitive a call).
(** A call of a tool registered as sensitive: the step runs it after the plain
    ones, one at a time *)
Definition is_sensitive (a : Agent) (call : PendingCall) : bool :=
  negb (is_some (call_isolation a call)) && call_is_sensitive a call.

(** ** Repeated calls *)

(** The last plain call, its arguments printed, and how many ran in a row *)
Definition Streak : Type := option ((string * string) * nat).

Definition repeat_refusal : string :=
  "not run: this exact call has now been made " +:+ show_usize REPEATED_CALL_LIMIT
  +:+ " times in a row with the same arguments. Change the arguments or the approach, or tell the user what you are stuck on.".

(** One call: [None] when it is exempt, else its key *)
Definition streak_step (streak : Streak) (key : option (string * string)) : Streak * option string :=
  match key with
  | None => (None, None)
  | Some key =>
      match streak with
      | Some (last, count) =>
          if bool_decide (last = key)
          then if REPEATED_CALL_LIMIT <=? count then (streak, Some repeat_refusal)
               else (Some (last, S count), None)
          else (Some (key, 1), None)
      | None => (Some (key, 1), None)
      end
  end.
Fixpoint repeat_refusals (streak : Streak) (keys : list (option (string * string))) : Streak * list (option string) :=
  match keys with
  | [] => (streak, [])
  | key :: keys =>
      let '(streak, refusal) := streak_step streak key in
      let '(streak, refusals) := repeat_refusals streak keys in
      (streak, refusal :: refusals)
  end.
End Agent_.
Arguments Agent : clear implicits.

(** ** What a turn asks of the world *)

Section Effects.
Context {Number : Type} `{HJ : SerdeJson Number} `{HT : !SerdeJsonText Number} `{PJ : PayloadJson}
  `{AS : !ArgumentSerde Number}.
Notation chat_message := (ChatMessage Number).
Notation row := (Message Number).

(** [ToolApproval], the fields a recovery reads *)
Record StoredApproval : Type := MkStoredApproval { sa_durable : DurableApproval; sa_approved : bool }.
Inductive AcceptedServerCall : Type :=
  | Accepted | ExistingCall (existing : ToolCallRecord Number) | CallIdentityConflict | LeaseLost.
Inductive ClientArgumentResolution : Type := Unchanged | Resolved (arguments : json Number) | RefusedArguments (reason : string).
Record TurnSteer : Type := MkTurnSteer { ts_id : Z; ts_content : string }.

(** The fields of a step's request a step chooses; the others are the agent's *)
Inductive ToolChoice : Type := ToolChoiceNone.
Record StepRequest : Type := MkStepRequest {
  sr_messages : list chat_message; sr_tools : list (ToolSpec Number); sr_images : ImageAttachments;
  sr_tool_choice : option ToolChoice; sr_max_tokens : option Z; sr_vendor_web_search : option Z }.
(** A provider's stream as it will be polled, and the first identity drawn meanwhile *)
Record StreamAnswer : Type := MkStreamAnswer { sn_polls : list (Poll Number); sn_first : Z }.
(** What a compaction meets *)
Record CompactionWorld : Type := MkCompactionWorld {
  cw_now : Z; cw_provider : ChatRequest (Number := Number) -> result AgentError (list Polled);
  cw_save : ContextCheckpoint -> option SaveContextCheckpointOutcome }.

Inductive Ask : Type :=
  | AskCancelled
  | AskNow
  | AskNewId
  | AskPushed
  | AskFlush
  | AskPublish (ordinal : Z)
  | AskCheckpoint
  | AskSnapshot
  | AskCompaction (attempt : CreateContextCheckpoint (Number := Number))
  | AskStream (request : StepRequest)
  | AskSteers (lease : Z)
  | AskApplySteer (lease steer_id ordinal : Z) (preceding : option row)
  | AskRevision (lease : Z)
  | AskFence (lease : Z)
  | AskAppend (message : row)
  | AskAppendAssistant (message : row)
  | AskAccept (record : ToolCallRecord Number) (raw_arguments : option string)
  | AskAcceptReceipt (record : ToolCallRecord Number)
  | AskResolve (call_id : Z) (resolution : ToolCallResolution)
  | AskAbandon (call_id : Z) (resolution : ToolCallResolution)
  | AskPendingCalls
  | AskApproval (call_id : Z)
  | AskRun (call : PendingCall) (durable : option DurableApproval)
  | AskRetain (images : list ImageRef)
  | AskOrder (n : nat)
  | AskClientArguments (call : PendingCall)
  | AskGateSpawn (request : SandboxAgentSpawnRequest Number).

Definition Ans (q : Ask) : Type :=
  match q with
  | AskCancelled => bool
  | AskNow | AskNewId => Z
  | AskPushed => list (string * bool)
  | AskPublish _ => bool
  | AskCheckpoint => result AgentError (option ContextCheckpoint) * result AgentError (list TurnReplacement)
  | AskSnapshot => result AgentError (ChatSnapshot (Number := Number))
  | AskCompaction _ => CompactionWorld
  | AskStream _ => result AgentError StreamAnswer
  | AskSteers _ => result AgentError (list TurnSteer)
  | AskApplySteer _ _ _ _ => result AgentError TurnSteer
  | AskRevision _ => result AgentError Z
  | AskFlush | AskFence _ | AskAppend _ | AskAppendAssistant _ | AskRetain _ => result AgentError unit
  | AskAccept _ _ | AskAcceptReceipt _ => result AgentError AcceptedServerCall
  | AskResolve _ _ | AskAbandon _ _ => result AgentError ResolveToolCallOutcome
  | AskPendingCalls => result AgentError (list (ToolCallRecord Number))
  | AskApproval _ => result AgentError (option StoredApproval)
  | AskRun _ _ => ToolOutput * nat
  | AskOrder _ => list nat
  | AskClientArguments _ => result AgentError ClientArgumentResolution
  | AskGateSpawn _ => result AgentError (SandboxSpawnGate Number) * nat
  end.

(** What happened: an answer, an event of the turn's channel with its ordinal,
    or the publication of an event the store had journaled *)
Inductive Happened : Type :=
  | Asked (q : Ask) (answer : Ans q)
  | Sent (ordinal : option Z) (event : AgentEvent)
  | Published (ordinal : Z) (steer_id : Z).

(** The mailbox of steers (steer.rs). Markers of durable steers wake a turn that
    never completes through it and carry no text; they are left out. *)
Record SteerInbox : Type := MkInbox { queue : list string; interrupt : bool; sealed : bool }.
Definition inbox_new : SteerInbox := MkInbox [] false false.
Definition push (box : SteerInbox) (message : string * bool) : SteerInbox :=
  if is_empty message.1 || sealed box then box
  else MkInbox (queue box ++ [message.1]) (interrupt box || message.2) false.
Definition drain_inbox (box : SteerInbox) : list string * SteerInbox := (queue box, MkInbox [] false (sealed box)).
Definition inbox_quiet (box : SteerInbox) : bool :=
  (match queue box with [] => true | _ => false end) && negb (interrupt box).
Definition seal (box : SteerInbox) : SteerInbox := MkInbox (queue box) (interrupt box) true.

(** A turn's state: what happened, newest first; the next event ordinal of a
    claimed turn; the mailbox; [AgentProgress] *)
Record LoopState : Type := MkLoopState {
  happened : list Happened; next_ordinal : option Z; inbox : SteerInbox; used : Usage; model_steps : nat }.

Definition M (A : Type) : Type := LoopState -> result AgentError A * LoopState.
#[export] Instance M_ret : MRet M := fun _ a s => (Ok a, s).
#[export] Instance M_bind : MBind M :=
  fun _ _ k m s => match m s with (Ok a, s) => k a s | (Err e, s) => (Err e, s) end.
Definition raise {A} (e : AgentError) : M A := fun s => (Err e, s).
Definition lift {A} (r : result AgentError A) : M A := fun s => (r, s).
(** The result of a computation, whatever it is *)
Definition attempt {A} (m : M A) : M (result AgentError A) := fun s => let '(r, s) := m s in (Ok r, s).
Definition record_ (h : Happened) (s : LoopState) : LoopState :=
  MkLoopState (h :: happened s) (next_ordinal s) (inbox s) (used s) (model_steps s).
Definition set_inbox (box : SteerInbox) (s : LoopState) : LoopState :=
  MkLoopState (happened s) (next_ordinal s) box (used s) (model_steps s).
Definition update (f : LoopState -> LoopState) : M unit := fun s => (Ok tt, f s).
Definition set_used (u : Usage) : M unit :=
  update (fun s => MkLoopState (happened s) (next_ordinal s) (inbox s) u (model_steps s)).
Definition set_model_steps (n : nat) : M unit :=
  update (fun s => MkLoopState (happened s) (next_ordinal s) (inbox s) (used s) n).
Definition total_usage : M Usage := fun s => (Ok (used s), s).

Fixpoint each {A} (f : A -> M unit) (l : list A) : M unit :=
  match l with [] => mret tt | x :: l => f x ≫= fun _ => each f l end.

(** ** Events *)

(** [EventSink::send]: once the ordinals are exhausted, nothing is sent. *)
Definition send (e : AgentEvent) : M unit := fun s =>
  (Ok tt, match next_ordinal s with
          | None => record_ (Sent None e) s
          | Some next =>
              match reserve_event_ordinal next with
              | Some (ordinal, next) =>
                  MkLoopState (Sent (Some ordinal) e :: happened s) (Some next) (inbox s) (used s) (model_steps s)
              | None => s
              end
          end).
Definition send_all : list AgentEvent -> M unit := each send.
Definition reserve_ordinal : M Z := fun s =>
  match next_ordinal s with
  | None => (Err (store_error "legacy turn cannot reserve a durable event ordinal"), s)
  | Some next =>
      match reserve_event_ordinal next with
      | Some (ordinal, next) => (Ok ordinal, MkLoopState (happened s) (Some next) (inbox s) (used s) (model_steps s))
      | None => (Err (store_error "turn event ordinal exhausted"), s)
      end
  end.

(** ** Questions *)
Section World.
Context (world : list Happened -> forall q : Ask, Ans q).

Definition ask (q : Ask) : M (Ans q) := fun s => let a := world (happened s) q in (Ok a, record_ (Asked q a) s).

Definition cancelled_now : M bool := ask AskCancelled.
Definition now_ : M Z := ask AskNow.
Definition new_id : M Z := ask AskNewId.
(** Whether the turn is durably claimed *)
Definition claimed : M bool := fun s => (Ok (is_some (next_ordinal s)), s).
Definition flush : M unit := c ← claimed; if c : bool then ask AskFlush ≫= lift else mret tt.
Definition send_committed (ordinal steer_id : Z) : M unit :=
  c ← claimed;
  if c : bool then
    open ← (ask (AskPublish ordinal) : M bool);
    if open : bool then update (record_ (Published ordinal steer_id))
    else raise (store_error "claimed turn event channel closed")
  else raise (store_error "legacy turn cannot publish a committed durable event").

(** Running a tool and gating a spawn may put up and settle a card, which sends
    events of the turn of its own: the answer says how many ordinals they took. *)
Fixpoint pass_ordinals (n : nat) (next : Z) : Z :=
  match n with
  | O => next
  | S n => match reserve_event_ordinal next with Some (_, next) => pass_ordinals n next | None => next end
  end.
Definition gate_sends (n : nat) : M unit :=
  update (fun s => MkLoopState (happened s) (pass_ordinals n <$> next_ordinal s) (inbox s) (used s) (model_steps s)).
Definition ask_tool (call : PendingCall) (durable : option DurableApproval) : M ToolOutput :=
  ran ← (ask (AskRun call durable) : M (ToolOutput * nat)); _ ← gate_sends ran.2; mret ran.1.
Definition ask_gate (request : SandboxAgentSpawnRequest Number) : M (SandboxSpawnGate Number) :=
  gated ← (ask (AskGateSpawn request) : M (result AgentError (SandboxSpawnGate Number) * nat));
  _ ← gate_sends gated.2; lift gated.1.

(** What people pushed since the mailbox was last looked at *)
Definition receive : M unit :=
  pushed ← (ask AskPushed : M (list (string * bool)));
  update (fun s => set_inbox (fold_left push pushed (inbox s)) s).
Definition mailbox : M SteerInbox := fun s => (Ok (inbox s), s).
Definition drain : M (list string) :=
  _ ← receive; box ← mailbox;
  let '(messages, box) := drain_inbox box in
  _ ← update (set_inbox box); mret messages.
Definition try_complete (complete : M unit) : M bool :=
  _ ← receive; box ← mailbox;
  if inbox_quiet box then _ ← update (set_inbox (seal box)); _ ← complete; mret true else mret false.

(** ** The store *)
Section Turn_.
Context (agent : Agent Number) (chat : Chat) (turn_id : Z).
Notation lease := (ag_durable_steer_lease agent).

Record AssistantCandidate : Type := MkCandidate {
  cd_message_id : Z; cd_content : string; cd_reasoning : MessageReasoning Number }.
(** [AssistantCandidate::message] *)
Definition candidate_message (c : AssistantCandidate) (message_id : Z) : M row :=
  now ← (now_ : M Z);
  mret (MkRow message_id (chat_id chat) turn_id RAssistant (cd_content c) None (cd_reasoning c) now).
Definition persist (r : Role) (text : string) : M Z :=
  id ← (new_id : M Z); now ← (now_ : M Z);
  _ ← (ask (AskAppend (MkRow id (chat_id chat) turn_id r text None no_reasoning now)) ≫= lift);
  mret id.
Definition append_assistant_exact_retry (message : row) : M unit := ask (AskAppendAssistant message) ≫= lift.
Definition persist_assistant (c : AssistantCandidate) : M unit :=
  candidate_message c (cd_message_id c) ≫= append_assistant_exact_retry.
Definition ensure_durable_lease_current : M unit :=
  match lease with Some lease => ask (AskFence lease) ≫= lift | None => mret tt end.
Definition durable_generation_revision : M (option Z) :=
  match lease with
  | Some lease => revision ← (ask (AskRevision lease) ≫= lift); mret (Some revision)
  | None => mret None
  end.

(** ** Steers *)

Definition user_message (text : string) : chat_message := text_message RUser text.

Fixpoint apply_messages (transcript : list chat_message) (messages : list string) : M (list chat_message) :=
  match messages with
  | [] => mret transcript
  | text :: messages =>
      id ← persist RUser text;
      _ ← send (EvUserSteered id text);
      apply_messages (transcript ++ [user_message text]) messages
  end.
Fixpoint apply_durable (lease_token : Z) (transcript : list chat_message) (steers : list TurnSteer) (preceding : option row)
  : M (list chat_message) :=
  match steers with
  | [] => mret transcript
  | steer :: steers =>
      ordinal ← reserve_ordinal;
      applied ← (ask (AskApplySteer lease_token (ts_id steer) ordinal preceding) ≫= lift);
      _ ← send_committed ordinal (ts_id applied);
      apply_durable lease_token (transcript ++ [user_message (ts_content applied)]) steers None
  end.
(** [apply_steers]: whether any message was injected, and the transcript *)
Definition apply_steers (transcript : list chat_message) (preceding_assistant : option AssistantCandidate)
  : M (bool * list chat_message) :=
  messages ← drain;
  durable ← (match lease with Some lease => ask (AskSteers lease) ≫= lift | None => mret [] end : M (list TurnSteer));
  match messages, durable with
  | [], [] => mret (false, transcript)
  | _, _ =>
      if is_some lease && negb (match messages with [] => true | _ => false end)
      then raise (store_error "turn mixed process-local messages with durable steering") else
      _ ← (match lease, preceding_assistant with
           | None, Some candidate => persist_assistant candidate
           | _, _ => mret tt
           end : M unit);
      transcript ← apply_messages transcript messages;
      preceding ← (match preceding_assistant, durable with
                   | Some candidate, _ :: _ =>
                       if is_empty (cd_content candidate) then mret None else
                       id ← (new_id : M Z); message ← candidate_message candidate id; mret (Some message)
                   | _, _ => mret None
                   end : M (option row));
      _ ← (match durable with [] => mret tt | _ => flush end : M unit);
      transcript ← match lease with
                   | Some lease => apply_durable lease transcript durable preceding
                   | None => mret transcript
                   end;
      mret (true, transcript)
  end.

(** ** Tool calls (agent/dispatch.rs) *)

Definition tool_result_for_model (content : string) (call_id : Z) : string :=
  default content (truncate_to_bytes (ag_show_call agent) content (max_tool_result_bytes (ag_config agent)) (Some call_id)).
Definition tool_output_for_event (output : ToolOutput) (call_id : Z) : ToolOutput :=
  set_content output (tool_result_for_model (out_content output) call_id).
Definition announce_completed (call : PendingCall) (output : ToolOutput) : M unit :=
  send (EvToolCallCompleted (p_call_id call) (tool_output_for_event output (p_call_id call)) (call_action_preview call)).

(** The pending row of a call *)
Definition server_record (id : Z) (provider_id name : string) (arguments : json Number)
    (replay : option (ProviderToolReplay Number)) (now : Z) : ToolCallRecord Number :=
  MkCall id (chat_id chat) turn_id provider_id name arguments ServerCall CallPending None None replay now None.

Definition accept_provider_executed_call (call_id : Z) (b : ContentBlock Number) : M bool :=
  match b with
  | ProviderExecutedToolCall name input output is_error replay =>
      if negb (provider_executed_call_is_admissible agent b) then mret false else
      now ← (now_ : M Z);
      let record := server_record call_id ("provider_executed_" +:+ ag_show_call agent call_id) name input replay now in
      accepted ← (ask (AskAcceptReceipt record) ≫= lift);
      mret (match accepted with Accepted => true | _ => false end)
  | _ => mret false
  end.

Definition output_resolution (output : ToolOutput) : ToolCallResolution := spawn_resolution output.

Definition complete_provider_executed_call (call_id : Z) (b : ContentBlock Number) : M unit :=
  match b with
  | ProviderExecutedToolCall name input output is_error _ =>
      if negb (provider_executed_call_is_admissible agent b) then mret tt else
      let text := json_to_string output in
      let tool_output := if is_error then tool_error text else MkOutput text false None [] in
      _ ← send (EvToolCallStarted call_id name);
      let resolution :=
        if is_error
        then ToolGate.Failed text (default (error_category_as_str ToolFailed) (json_get output "error_code" ≫= json_as_str)) None
        else ToolGate.Completed text in
      _ ← (ask (AskResolve call_id resolution) ≫= lift);
      send (EvToolCallCompleted call_id tool_output (build name input))
  | _ => mret tt
  end.

Definition recovered_output (existing : ToolCallRecord Number) : option ToolOutput :=
  match c_result existing with
  | None => None
  | Some content =>
      Some (MkOutput content (negb (bool_decide (c_status existing = CallCompleted))) None
              (default [] (c_result_preview existing ≫= exec_preview_images)))
  end.
(** The result an earlier attempt committed, if it did *)
Definition accept_server_call (call : PendingCall) : M (option ToolOutput) :=
  now ← (now_ : M Z);
  let '(arguments, raw) := parse_args (p_args call) in
  accepted ← (ask (AskAccept (server_record (p_call_id call) (p_provider_id call) (p_name call) arguments None now) raw)
              ≫= lift);
  match accepted with
  | Accepted => mret None
  | ExistingCall existing =>
      if call_is_terminal (c_status existing) then
        match recovered_output existing with
        | Some output => mret (Some output)
        | None => raise (store_error ("terminal tool call " +:+ ag_show_call agent (p_call_id call) +:+ " is missing its result"))
        end
      else mret None
  | CallIdentityConflict =>
      raise (store_error ("tool call " +:+ ag_show_call agent (p_call_id call) +:+ " identity conflicts with its canonical request"))
  | LeaseLost =>
      raise (store_error ("turn lost its lease while accepting tool call " +:+ ag_show_call agent (p_call_id call)))
  end.

Definition NO_BLOBS_NOTE : string :=
  NEWLINE +:+ NEWLINE +:+ "Preview images could not be retained because blob storage is unavailable.".
(** The check of each image's bytes is part of retaining it. *)
Definition publish_tool_images (output : ToolOutput) : M ToolOutput :=
  match out_images output with
  | [] => mret output
  | images =>
      match ag_blobs agent with
      | None => mret (MkOutput (out_content output +:+ NO_BLOBS_NOTE) (out_is_error output) (out_category output) [])
      | Some _ => _ ← (ask (AskRetain images) ≫= lift); mret output
      end
  end.

Definition is_resolved (o : ResolveToolCallOutcome) : bool :=
  match o with CallResolved | CallExisting => true | _ => false end.

Definition record_server_call_result (call : PendingCall) (output : ToolOutput) : M ToolOutput :=
  output ← publish_tool_images output;
  _ ← announce_completed call output;
  outcome ← (ask (AskResolve (p_call_id call) (output_resolution output)) ≫= lift);
  if is_resolved outcome then mret output
  else raise (store_error ("tool call " +:+ ag_show_call agent (p_call_id call) +:+ " could not be resolved: " +:+ debug_outcome outcome)).

Definition execute_server_call (call : PendingCall) (recovered : option ToolOutput) (repeat_refusal : option string)
  : M ToolOutput :=
  match recovered with
  | Some output => _ ← announce_completed call output; mret output
  | None =>
      stop ← (cancelled_now : M bool);
      output ← (if stop : bool then mret (failed UserCancelled "turn cancelled before tool execution")
                else match repeat_refusal with
                     | Some reason => mret (tool_error reason)
                     | None => _ ← ensure_durable_lease_current; ask_tool call None
                     end : M ToolOutput);
      record_server_call_result call output
  end.

Definition decline_call (call : PendingCall) (reason : string) : M ToolOutput :=
  let output := tool_error reason in _ ← announce_completed call output; mret output.

(** ** Calls that stand alone *)

(** The request, or what the model is told instead *)
Definition client_checkpoint (call : PendingCall) (resolved : option (json Number)) (steer_revision : option Z)
  : result string (ClientToolCallRequest * Z) :=
  let name := p_name call in
  if is_foreground_client (ag_tools agent) name && negb (agent_orchestration_active agent)
  then Err "not run: that user continuation is available only from a durably claimed foreground turn. Continue without it."
  else if bool_decide (chat_permission_mode chat = Some ModePlan)
          && negb (bool_decide (registered_class (ag_tools agent) name = Some ReadOnly))
  then Err "not run: this tool is not available in plan mode; the chat is read-only until the reader leaves plan mode. Continue with read-only tools."
  else
    match (match resolved with Some arguments => Some arguments | None => parse_tool_args (p_args call) end) with
    | None => Err "not run: the client tool arguments were not valid JSON. Ask again with one complete JSON value."
    | Some arguments =>
        let request := TurnParks.MkRequest (p_call_id call) (chat_id chat) turn_id (p_provider_id call) name (json_to_string arguments) in
        if negb (is_well_formed request) || negb (client_arguments_are_valid (ag_tools agent) name arguments)
        then Err "not run: the client tool request was too large or malformed. Ask again with a valid tool identity and smaller arguments."
        else match steer_revision with
             | None => Err "not run: client-executed tools are available only from a durably claimed turn."
             | Some revision => Ok (request, revision)
             end
    end.

Definition code_wait_session_ids (arguments : json Number) : option (list Z) :=
  match decode_code_wait arguments with
  | Some ids => if distinct_ids MAX_CODE_WAIT_CHILDREN ids then Some ids else None
  | None => None
  end.
Definition code_wait_result_is_waiting (content : string) : bool :=
  match json_from_str (Number := Number) content ≫= (fun v => json_get v "waiting") with Some (JBool b) => b | _ => false end.
Definition child_session_wait_checkpoint (call : PendingCall) (steer_revision : option Z)
  : result string (ClientToolCallRequest * list Z * Z) :=
  match parse_tool_args (p_args call) with
  | None => Err "not run: the child-session wait arguments were not valid JSON. Ask again with one complete JSON value."
  | Some arguments =>
      match code_wait_session_ids arguments with
      | None => Err "not run: name between one and eight distinct child sessions to wait on."
      | Some session_ids =>
          let request := TurnParks.MkRequest (p_call_id call) (chat_id chat) turn_id (p_provider_id call) (p_name call)
                           (json_to_string arguments) in
          if negb (is_well_formed request)
          then Err "not run: the child-session wait request was too large or malformed. Ask again with a valid tool identity and smaller arguments."
          else match steer_revision with
               | None => Err "not run: a durable child-session wait is available only from a durably claimed turn."
               | Some revision => Ok (request, session_ids, revision)
               end
      end
  end.
Inductive ChildSessionWaitAttempt : Type := Settled (output : ToolOutput) | Unsettled.
Definition run_child_session_wait (call : PendingCall) : M ChildSessionWaitAttempt :=
  _ ← ensure_durable_lease_current;
  output ← ask_tool call None;
  if negb (out_is_error output) && code_wait_result_is_waiting (out_content output) then mret Unsettled else
  recovered ← accept_server_call call;
  settled ← match recovered with
            | Some recovered => execute_server_call call (Some recovered) None
            | None => record_server_call_result call output
            end;
  mret (Settled settled).

Definition sandbox_spawn_task (name : string) (arguments : json Number) : option string :=
  if negb (is_foreground_sandbox_spawn (ag_tools agent) name) || is_some (registry_mismatch (ag_tools agent) name arguments)
  then None else
  match decode_spawn arguments with
  | Some decoded => if spawn_is_well_formed decoded && value_eqb (encode_spawn decoded) arguments then Some (task decoded) else None
  | None => None
  end.
Definition sandbox_checkpoint (call : PendingCall) (steer_revision : option Z)
  : result string (SandboxAgentSpawnRequest Number * Z) :=
  match parse_tool_args (p_args call) with
  | None => Err "not run: the sandbox task arguments were not valid JSON. Ask again with one complete task value."
  | Some arguments =>
      match sandbox_spawn_task (p_name call) arguments with
      | None => Err ("not run: the sandbox task needs one non-empty, bounded `task`. It may also include one `resource` object containing only `root_id` and `relative_path`; omit `resource` entirely when unused rather than sending null. Ask again with that exact shape.")
      | Some task =>
          match steer_revision with
          | None => Err "not run: sandbox delegation is available only from a durably claimed foreground turn."
          | Some revision =>
              Ok (MkSpawn (p_call_id call) (p_provider_id call) (ag_sandbox_for_spawn_call agent (p_call_id call)) task
                    arguments false, revision)
          end
      end
  end.

Record ForegroundAgentWaitRequest : Type := MkWait {
  fw_call_id : Z; fw_provider_id : string; fw_child_run_ids : list Z; fw_arguments : json Number }.
Definition wait_for_agent_ids (name : string) (arguments : json Number) : option (list Z) :=
  if negb (is_foreground_agent_wait (ag_tools agent) name) || is_some (registry_mismatch (ag_tools agent) name arguments)
  then None else
  match decode_wait arguments with
  | Some ids => if distinct_ids MAX_WAIT_FOR_AGENTS_CHILDREN ids then Some ids else None
  | None => None
  end.
Definition agent_wait_checkpoint (call : PendingCall) (steer_revision : option Z)
  : result string (ForegroundAgentWaitRequest * Z) :=
  match parse_tool_args (p_args call) with
  | None => Err "not run: the wait_for_agents arguments were not valid JSON. Ask again with one complete ordered agent_ids value."
  | Some arguments =>
      match wait_for_agent_ids (p_name call) arguments with
      | None => Err "not run: wait_for_agents requires one non-empty, bounded, unique agent_ids list with no extra properties."
      | Some ids =>
          match steer_revision with
          | None => Err "not run: wait_for_agents is available only from a durably claimed foreground turn."
          | Some revision => Ok (MkWait (p_call_id call) (p_provider_id call) ids arguments, revision)
          end
      end
  end.

(** [parse_report_blocked_arguments] *)
Definition parse_report_blocked_arguments (arguments : json Number) : option ReportBlockedArgs :=
  match decode_report_blocked arguments with
  | Some decoded => if blocked_is_well_formed decoded then Some decoded else None
  | None => None
  end.
Definition persist_report_blocked_call (call : PendingCall) (text : string) : M unit :=
  now ← (now_ : M Z);
  let '(arguments, raw) := parse_args (p_args call) in
  accepted ← (ask (AskAccept (server_record (p_call_id call) (p_provider_id call) (p_name call) arguments None now) raw)
              ≫= lift);
  needs_resolution ←
    (match accepted with
     | Accepted => mret true
     | ExistingCall existing =>
         if call_is_terminal (c_status existing) then
           if bool_decide (c_status existing = CallCompleted) && bool_decide (c_result existing = Some text) then mret false
           else raise (store_error ("terminal report_blocked call " +:+ ag_show_call agent (p_call_id call)
                                    +:+ " does not match its explanation"))
         else mret true
     | CallIdentityConflict =>
         raise (store_error ("report_blocked call " +:+ ag_show_call agent (p_call_id call)
                             +:+ " identity conflicts with its canonical request"))
     | LeaseLost =>
         raise (store_error ("turn lost its lease while accepting report_blocked call " +:+ ag_show_call agent (p_call_id call)))
     end : M bool);
  _ ← (if needs_resolution : bool
       then _ ← (ask (AskResolve (p_call_id call) (ToolGate.Completed text)) ≫= lift); mret tt
       else mret tt : M unit);
  send (EvToolCallCompleted (p_call_id call) (tool_output_for_event (MkOutput text false None []) (p_call_id call)) None).

(** ** Calls an earlier attempt left pending *)

Definition INTERRUPTED_OUTPUT : ToolOutput :=
  tool_error "tool execution was interrupted before its result was committed; the call was not replayed".
Definition interrupted_resolution : ToolCallResolution :=
  ToolGate.Failed (out_content INTERRUPTED_OUTPUT) "tool_execution_interrupted"
    (Some "a prior turn attempt may have executed this call; replay was suppressed").

Fixpoint count_approval_bearing (pending : list (ToolCallRecord Number)) : M nat :=
  match pending with
  | [] => mret 0
  | call :: pending =>
      approval ← (ask (AskApproval (c_id call)) ≫= lift);
      n ← count_approval_bearing pending;
      let bearing := is_some approval
                     || match registry_get (ag_tools agent) (c_name call) with
                        | Some tool => bool_decide (approval_class tool = Sensitive)
                        | None => false
                        end in
      mret (if bearing then S n else n)
  end.

(** A claimed turn never runs it again *)
Definition abandon_call (call : PendingCall) (transcript : list chat_message) : M (list chat_message) :=
  outcome ← (ask (AskAbandon (p_call_id call) interrupted_resolution) ≫= lift);
  if negb (is_resolved outcome)
  then raise (store_error ("inherited tool call " +:+ ag_show_call agent (p_call_id call) +:+ " could not be abandoned: "
                           +:+ debug_outcome outcome)) else
  _ ← announce_completed call INTERRUPTED_OUTPUT;
  mret (transcript ++ [MkMessage RUser [ToolResult (p_provider_id call) (out_content INTERRUPTED_OUTPUT) true] no_reasoning]).

Definition result_message (call : PendingCall) (output : ToolOutput) : list (ContentBlock Number) :=
  tool_result_blocks (p_provider_id call) (tool_result_for_model (out_content output) (p_call_id call)) (out_is_error output)
    (out_images output) (image_input (ag_config agent)).

Definition rerun_call (call : PendingCall) (approval : option StoredApproval) (transcript : list chat_message)
  : M (list chat_message) :=
  stop ← (cancelled_now : M bool);
  output ← (if stop : bool then mret (failed UserCancelled "turn cancelled before recovered tool execution")
            else ask_tool call (sa_durable <$> approval) : M ToolOutput);
  output ← publish_tool_images output;
  outcome ← (ask (AskResolve (p_call_id call) (output_resolution output)) ≫= lift);
  if negb (is_resolved outcome)
  then raise (store_error ("pending tool call " +:+ ag_show_call agent (p_call_id call) +:+ " could not be recovered: "
                           +:+ debug_outcome outcome)) else
  _ ← (if is_some approval && (negb (is_some (registry_get (ag_tools agent) (p_name call))) || stop) then
         decided ← (ask (AskApproval (p_call_id call)) ≫= lift);
         match decided with
         | Some a => send (EvApprovalDecided (p_call_id call) (sa_approved a))
         | None => mret tt
         end
       else mret tt : M unit);
  _ ← announce_completed call output;
  mret (transcript ++ [MkMessage RUser (result_message call output) no_reasoning]).

Fixpoint resume_each (pending : list (ToolCallRecord Number)) (transcript : list chat_message) : M (list chat_message) :=
  match pending with
  | [] => mret transcript
  | stored :: pending =>
      let call := MkPending (c_id stored) (c_provider_id stored) (c_name stored) (json_to_string (c_arguments stored)) in
      approval ← (ask (AskApproval (p_call_id call)) ≫= lift);
      transcript ← (if is_some lease then abandon_call call transcript else rerun_call call approval transcript
                    : M (list chat_message));
      resume_each pending transcript
  end.
Definition is_left_pending (call : ToolCallRecord Number) : bool :=
  (c_turn_id call =? turn_id)%Z && bool_decide (c_execution call = ServerCall) && bool_decide (c_status call = CallPending).
Definition resume_pending_server_calls (transcript : list chat_message) : M (list chat_message) :=
  calls ← (ask AskPendingCalls ≫= lift);
  match List.filter is_left_pending calls with
  | [] => mret transcript
  | pending =>
      bearing ← count_approval_bearing pending;
      if (0 <? bearing) && (negb (length pending =? 1) || negb (bearing =? 1))
      then raise (store_error "turn has an ambiguous pending sensitive tool batch")
      else resume_each pending transcript
  end.
End Turn_.
End World.
End Effects.

(** ** The streak *)

(** How many of the newest keys are [key], newest first *)
Fixpoint run_of (key : string * string) (past : list (option (string * string))) : nat :=
  match past with
  | Some k :: past => if bool_decide (k = key) then S (run_of key past) else 0
  | _ => 0
  end.
Definition streak_of (past : list (option (string * string))) : Streak :=
  match past with Some key :: _ => Some (key, run_of key past `min` REPEATED_CALL_LIMIT) | _ => None end.

Lemma streak_step_spec past key :
  streak_step (streak_of past) key
  = (streak_of (key :: past),
     match key with
     | Some k => if REPEATED_CALL_LIMIT <=? run_of k past then Some repeat_refusal else None
     | None => None
     end).
Proof.
  destruct key as [key|]; [|done]. cbn [streak_step].
  assert (Hself : run_of key (Some key :: past) = S (run_of key past)) by (cbn; by rewrite bool_decide_eq_true_2).
  change (streak_of (Some key :: past)) with (Some (key, run_of key (Some key :: past) `min` REPEATED_CALL_LIMIT)).
  rewrite Hself. destruct past as [|[prior|] past]; [reflexivity| |reflexivity].
  unfold streak_of. cbn [run_of]. destruct (bool_decide_reflect (prior = key)) as [->|Hne].
  - rewrite bool_decide_eq_true_2 by reflexivity. unfold REPEATED_CALL_LIMIT. destruct (Nat.leb_spec 3 (S (run_of key past) `min` 3)) as [H|H];
      destruct (Nat.leb_spec 3 (S (run_of key past))); try lia; do 3 f_equal; lia.
  - done.
Qed.

Lemma repeat_refusals_length streak keys : length (repeat_refusals streak keys).2 = length keys.
Proof.
  revert streak. induction keys as [|key keys IH]; intros streak; [done|]. cbn.
  destruct (streak_step streak key) as [s r]. specialize (IH s). destruct (repeat_refusals s keys). cbn in *. by rewrite IH.
Qed.
(** Steps that follow each other are one sequence of calls. *)
Lemma repeat_refusals_app streak keys keys' :
  repeat_refusals streak (keys ++ keys')
  = ((repeat_refusals (repeat_refusals streak keys).1 keys').1,
     (repeat_refusals streak keys).2 ++ (repeat_refusals (repeat_refusals streak keys).1 keys').2).
Proof.
  revert streak. induction keys as [|key keys IH]; intros streak; cbn; [by destruct (repeat_refusals streak keys')|].
  destruct (streak_step streak key) as [s r]. rewrite IH. by destruct (repeat_refusals s keys).
Qed.

Lemma refusals_lookup past keys i key : keys !! i = Some key ->
  (repeat_refusals (streak_of past) keys).2 !! i
  = Some (match key with
          | Some k => if REPEATED_CALL_LIMIT <=? run_of k (reverse (take i keys) ++ past) then Some repeat_refusal else None
          | None => None
          end).
Proof.
  revert past i. induction keys as [|key' keys IH]; intros past i Hi; [done|]. cbn [repeat_refusals].
  rewrite streak_step_spec. destruct (repeat_refusals (streak_of (key' :: past)) keys) as [s rs] eqn:E. cbn [snd].
  destruct i as [|i]; [by cbn in Hi; simplify_eq|].
  specialize (IH (key' :: past) i Hi). rewrite E in IH. cbn [snd] in IH.
  transitivity (rs !! i); [done|]. rewrite IH. cbn [take]. by rewrite reverse_cons, <- app_assoc.
Qed.
Lemma run_of_ge k past n : n <= run_of k past <-> forall j, j < n -> past !! j = Some (Some k).
Proof.
  revert n. induction past as [|[k'|] past IH]; intros n; cbn [run_of].
  - split; [intros ? j ?; lia|]. intros H. destruct n as [|n]; [lia|]. specialize (H 0 ltac:(lia)). done.
  - destruct (bool_decide_reflect (k' = k)) as [->|Hne].
    + destruct n as [|n]; [split; [intros ? j ?; lia|lia]|]. rewrite <- Nat.succ_le_mono, IH. split.
      * intros H [|j] Hj; [done|]. apply (H j). lia.
      * intros H j Hj. apply (H (S j)). lia.
    + split; [intros ? j ?; lia|]. intros H. destruct n as [|n]; [lia|]. specialize (H 0 ltac:(lia)). cbn in H. congruence.
  - split; [intros ? j ?; lia|]. intros H. destruct n as [|n]; [lia|]. by specialize (H 0 ltac:(lia)).
Qed.

(** C29: over the calls a turn makes since its streak was last reset - which a
    step of plain text, a call its user declined and a step rejected for mixing
    in a control call all do - a call is answered without running exactly when
    the three calls before it were plain calls of the same tool with the same
    arguments, whatever the boundaries of steps between them; another call, an
    exempt one or a changed argument runs. *)
Theorem a_repeat_is_refused_after_three (keys : list (option (string * string))) (i : nat) :
  (repeat_refusals None keys).2 !! i = Some (Some repeat_refusal)
  <-> REPEATED_CALL_LIMIT <= i
      /\ exists k, forall j, i - REPEATED_CALL_LIMIT <= j <= i -> keys !! j = Some (Some k).
Proof.
  change None with (streak_of []). destruct (keys !! i) as [key|] eqn:Hi.
  - rewrite (refusals_lookup [] keys i key Hi), app_nil_r.
    assert (Hlt : i < length keys) by by eapply lookup_lt_Some.
    assert (Hrev : forall j, j < i -> reverse (take i keys) !! j = keys !! (i - S j)).
    { intros j Hj. rewrite reverse_lookup by (rewrite length_take; lia).
      rewrite length_take, Nat.min_l by lia. by rewrite lookup_take_lt by lia. }
    assert (Hout : forall j, i <= j -> reverse (take i keys) !! j = None).
    { intros j Hj. apply lookup_ge_None. rewrite length_reverse, length_take. lia. }
    split.
    + destruct key as [k|]; [|done]. destruct (Nat.leb_spec REPEATED_CALL_LIMIT (run_of k (reverse (take i keys)))) as [H|]; [|done].
      intros _. rewrite run_of_ge in H.
      assert (Hi3 : REPEATED_CALL_LIMIT <= i).
      { destruct (decide (REPEATED_CALL_LIMIT <= i)); [done|]. specialize (H 2 ltac:(unfold REPEATED_CALL_LIMIT; lia)).
        rewrite Hout in H by (unfold REPEATED_CALL_LIMIT in *; lia). done. }
      split; [done|]. exists k. intros j Hj. destruct (decide (j = i)) as [->|]; [done|].
      specialize (H (i - S j) ltac:(unfold REPEATED_CALL_LIMIT in *; lia)). rewrite Hrev in H by lia.
      by replace (i - S (i - S j)) with j in H by lia.
    + intros [H3 [k Hk]]. pose proof (Hk i ltac:(lia)) as Hki. rewrite Hi in Hki. simplify_eq.
      assert (REPEATED_CALL_LIMIT <= run_of k (reverse (take i keys))) as H; [|by rewrite (proj2 (Nat.leb_le _ _) H)].
      apply run_of_ge. intros j Hj. rewrite Hrev by lia. apply Hk. lia.
  - split.
    + intros H. apply lookup_lt_Some in H. rewrite repeat_refusals_length in H. apply lookup_ge_None in Hi. lia.
    + intros [_ [k Hk]]. specialize (Hk i ltac:(lia)). congruence.
Qed.
