(* ===== verification/AgentDrive.v ===== *)
(** * The loop of a turn

    tidebreak-core, agent/turn.rs: [Agent::drive] and its entry points.  One
    model request after another until the model answers without a tool, a call
    has to leave the loop, the reader stops it, or the step budget is spent. *)
From S2P Require Import Prelude RustStr Json TurnTables TurnResolve TurnPlacements ShellPolicy ToolPreview Approvals.
From S2P Require Import ErrorKinds ContextFit.
From S2P Require Import TurnCancel TurnParks Transcript Checkpoint RequestPrefix ToolGate AgentStream AgentLoop.

Open Scope nat_scope.

Definition WRAP_UP_INSTRUCTION : string :=
  "This turn has reached its limit on tool calls, so tool calls are disabled for this reply and no further work can be done. Write the final answer now from what you already have: report what you found or changed, and state plainly what is still unfinished and what you would do next. Do not ask to run anything else.".

(** [as u32] *)
Definition as_u32 (n : nat) : Z := (Z.of_nat n mod 2 ^ 32)%Z.
Definition is_prompt_too_long (e : AgentError) : bool := match e with PromptTooLong _ => true | _ => false end.
Definition is_failed_end (e : StreamEnd) : bool := match e with FailedEnd _ => true | _ => false end.

Section Drive.
Context {Number : Type} `{HJ : SerdeJson Number} `{HT : !SerdeJsonText Number} `{PJ : PayloadJson}
  `{AS : !ArgumentSerde Number}.
Notation chat_message := (ChatMessage Number).
Notation row := (Message Number).
Notation M := (AgentLoop.M (Number := Number)).

(** The citations of an outcome are read off its text (citation.rs). *)
Inductive AgentTurnOutcome : Type :=
  | OutCompleted (output : row) (usage : Usage) (stop_reason : StopReason) (refusal : option RefusalOutcome)
      (steer_revision : option Z) (model_steps : nat)
  | OutCancelled (output : option row) (usage : Usage) (model_steps : nat)
  | OutClientToolCall (request : ClientToolCallRequest) (remaining_vendor_web_search : option Z) (usage : Usage)
      (steer_revision : Z) (model_steps : nat)
  | OutSandboxAgentSpawn (request : SandboxAgentSpawnRequest Number)
      (remaining_requests : list (SandboxAgentSpawnRequest Number)) (usage : Usage) (steer_revision : Z) (model_steps : nat)
  | OutWaitForAgents (request : ForegroundAgentWaitRequest (Number := Number)) (usage : Usage) (steer_revision : Z)
      (model_steps : nat)
  | OutChildSessionWait (request : ClientToolCallRequest) (session_ids : list Z) (remaining_vendor_web_search : option Z)
      (usage : Usage) (steer_revision : Z) (model_steps : nat)
  | OutFailed (error : ErrorInfo) (retry_after : option Z) (usage : Usage) (model_steps : nat).

(** The variables of the loop *)
Record Vars : Type := MkVars {
  v_transcript : list chat_message; v_checkpoint : option ContextCheckpoint; v_boundary : option nat;
  v_attempted : option nat; v_search : option Z; v_streak : Streak; v_without_tools : bool }.
Definition with_transcript (t : list chat_message) (v : Vars) : Vars :=
  MkVars t (v_checkpoint v) (v_boundary v) (v_attempted v) (v_search v) (v_streak v) (v_without_tools v).
Definition with_search (s : option Z) (v : Vars) : Vars :=
  MkVars (v_transcript v) (v_checkpoint v) (v_boundary v) (v_attempted v) s (v_streak v) (v_without_tools v).
Definition with_streak (s : Streak) (v : Vars) : Vars :=
  MkVars (v_transcript v) (v_checkpoint v) (v_boundary v) (v_attempted v) (v_search v) s (v_without_tools v).

(** [continue] or [return] *)
Inductive Flow : Type := Continue (v : Vars) | Return (outcome : AgentTurnOutcome).

Section Turn_.
Context (world : list (Happened (Number := Number)) -> forall q : Ask (Number := Number), Ans q).
Context (agent : Agent Number) (chat : Chat) (execution : TurnExecution).
(** What loading the transcript fixed for the turn *)
Context (sources : list TranscriptSourceBoundary) (user_texts : list (Z * string)).
Notation turn_id := (ex_turn_id execution).
Notation publish_terminal := (ex_publish_terminal execution).
Notation lease := (ag_durable_steer_lease agent).
Notation config := (ag_config agent).

Definition finish_cancelled (steps : nat) (partial : option row) : M AgentTurnOutcome :=
  usage ← (total_usage : M Usage);
  _ ← (if publish_terminal then send (EvTurnCancelled usage) else mret tt : M unit);
  mret (OutCancelled partial usage steps).

Definition build_prefix (v : Vars) (reduction_level : nat) : result AgentError (RequestPrefix (Number := Number)) :=
  build_request_prefix config (ag_blobs agent)
    (specs_for_foreground (ag_tools agent) (agent_orchestration_active agent)) (foreground_tool_specs agent chat)
    (v_transcript v) reduction_level (v_checkpoint v) (v_boundary v).

(** [maybe_create_context_checkpoint], and the boundary its answer moves *)
Definition compact (v : Vars) (prefix : RequestPrefix) : M (Vars * bool) :=
  let request := MkCreate (chat_id chat) (v_transcript v) sources user_texts (v_checkpoint v) (v_attempted v) prefix
                   (Some turn_id) false None in
  met ← (ask world (AskCompaction request) : M (CompactionWorld (Number := Number)));
  let made := maybe_create_context_checkpoint (cw_now met) config (cw_provider met) (cw_save met) request in
  _ ← send_all (map EvCompaction (RequestPrefix.events made));
  created ← lift (outcome made);
  match created with
  | None => mret (MkVars (v_transcript v) (v_checkpoint v) (v_boundary v) (attempted_boundary made) (v_search v) (v_streak v)
                    (v_without_tools v), false)
  | Some c =>
      let boundary := provider_boundary <$> List.find (fun s => (s_message_id s =? cp_source_message_id c)%Z) sources in
      mret (MkVars (v_transcript v) (Some c) boundary (attempted_boundary made) (v_search v) (v_streak v)
              (v_without_tools v), true)
  end.

(** [read_stream] *)
Definition read_stream (answer : StreamAnswer (Number := Number)) : M (Reading Number * StreamEnd) :=
  usage ← (total_usage : M Usage);
  let '(reading, ended) :=
    read_polls (sn_first answer) (provider_executed_call_is_admissible agent) (reading_new usage) (sn_polls answer) in
  _ ← send_all (rd_sent reading);
  _ ← set_used (rd_usage reading);
  match ended with
  | None => raise (ErrorKinds.Message "provider usage exceeded the supported turn total")
  | Some Done => mret (reading, Done)
  | Some ended =>
      _ ← send_all (deferred_host_stream_events (rd_items reading) (rd_calls reading));
      mret (reading, ended)
  end.

Section Step.
Context (step : nat).
Definition wrap_up : bool := ag_max_steps agent <=? step.
Definition wrap_up_retry : bool := ag_max_steps agent <? step.
Definition steps_before : nat := step `min` ag_max_steps agent.
Definition steps_used : nat := S step `min` ag_max_steps agent.

Definition step_request (prefix : RequestPrefix) (search : option Z) : StepRequest (Number := Number) :=
  MkStepRequest (px_messages prefix) (if wrap_up_retry then [] else px_tools prefix) (px_images prefix)
    (if wrap_up && negb wrap_up_retry && negb (match px_tools prefix with [] => true | _ => false end)
     then Some ToolChoiceNone else None)
    (max_tokens config) search.

(** The prefix of a request, rebuilt around a checkpoint just made *)
Definition prepare (level : nat) (v : Vars) : M (Vars * RequestPrefix (Number := Number)) :=
  prefix ← lift (build_prefix v level);
  if wrap_up then mret (v, prefix) else
  '(v, created) ← compact v prefix;
  prefix ← (if created : bool then lift (build_prefix v level) else mret prefix : M RequestPrefix);
  mret (v, prefix).

(** One attempt: the error of the request or of its stream, or what the stream
    came to *)
Definition attempt_once (level : nat) (v : Vars)
  : M (AgentError * Vars + (AgentTurnOutcome + Vars * option Z * Reading Number * StreamEnd)) :=
  '(v, prefix) ← prepare level v;
  stop ← (cancelled_now world : M bool);
  if stop : bool then (cancelled ← finish_cancelled steps_before None; mret (inr (inl cancelled))) else
  let fitted_tokens := estimate_transcript_tokens (px_messages prefix) in
  let offered := if wrap_up then None else v_search v in
  let v := if wrap_up then v else with_search None v in
  _ ← set_model_steps steps_used;
  answer ← (ask world (AskStream (step_request prefix offered)) : M (result AgentError StreamAnswer));
  match answer with
  | Err e => mret (inl (e, v))
  | Ok answer =>
      _ ← (if px_reduced prefix
           then send (EvContextTruncated (as_u32 (model_view_tokens (v_transcript v) (v_checkpoint v) (v_boundary v)))
                        (as_u32 fitted_tokens))
           else mret tt : M unit);
      '(reading, ended) ← read_stream answer;
      match ended with
      | FailedEnd error => _ ← send EvStreamInterrupted; mret (inl (into_agent_error error, v))
      | _ => mret (inr (inr (v, offered, reading, ended)))
      end
  end.
(** The attempts of a step: [room] is how many reductions are left. *)
Fixpoint step_attempt (room : nat) (v : Vars)
  : M (AgentTurnOutcome + Vars * option Z * Reading Number * StreamEnd) :=
  once ← attempt_once (MAX_REDUCTION_LEVEL - room) v;
  match once with
  | inr came => mret came
  | inl (e, v) =>
      match room with
      | S room => if is_prompt_too_long e then step_attempt room v else raise e
      | O => raise e
      end
  end.

(** ** The end of a stream *)

(** The prose of a stopped step, kept when no call had started *)
Definition cancelled_partial (reading : Reading Number) : M (option row) :=
  match rd_calls reading with
  | _ :: _ => mret None
  | [] =>
      if trim_is_empty (rd_text reading) then mret None else
      id ← (if publish_terminal then new_id world else mret (ex_output_message_id execution) : M Z);
      message ← candidate_message world chat turn_id (MkCandidate id (rd_text reading) no_reasoning) id;
      _ ← (if publish_terminal then append_assistant_exact_retry world message else mret tt : M unit);
      mret (Some message)
  end.
Definition on_cancelled (reading : Reading Number) : M Flow :=
  _ ← (match rd_calls reading with [] => mret tt | _ => send EvStreamInterrupted end : M unit);
  partial ← cancelled_partial reading;
  cancelled ← finish_cancelled steps_used partial;
  mret (Return cancelled).

Definition on_steered (v : Vars) : M Flow :=
  _ ← send EvStreamInterrupted;
  '(_, transcript) ← apply_steers world agent chat turn_id (v_transcript v) None;
  mret (Continue (with_transcript transcript v)).

Fixpoint decline_all (reason : string) (calls : list PendingCall) : M (list ToolOutput) :=
  match calls with
  | [] => mret []
  | call :: calls => output ← decline_call agent call reason; outputs ← decline_all reason calls; mret (output :: outputs)
  end.

(** The calls of the step that may still run, [None] when the step is asked again without tools *)
Definition admit_calls (reading : Reading Number) : M (option (list PendingCall)) :=
  let items := rd_items reading in
  calls ← (if bool_decide (rd_stop_reason reading = StopRefusal) then
             _ ← (match rd_calls reading with
                  | [] => mret tt
                  | calls => _ ← send_all (deferred_host_stream_events items calls); send EvStreamInterrupted
                  end : M unit);
             mret []
           else mret (rd_calls reading) : M (list PendingCall));
  match calls with
  | [] => mret (Some [])
  | _ =>
      if negb wrap_up then mret (Some calls) else
      _ ← send_all (deferred_host_stream_events items calls);
      _ ← decline_all "not run: this turn reached its step limit, and this reply is its last. Say what you have." calls;
      if negb wrap_up_retry && trim_is_empty (rd_text reading)
      then _ ← send EvStreamInterrupted; mret None
      else mret (Some [])
  end.

(** ** Control calls *)

Definition has_provider_executed (reading : Reading Number) : bool := existsb is_provider_executed (rd_items reading).

(** A control call that did not come alone *)
Definition mixed_control (reading : Reading Number) (calls : list PendingCall) : option string :=
  match find_map (standalone_control_name agent) calls with
  | Some name =>
      if negb (length calls =? 1) || has_provider_executed reading || negb (trim_is_empty (rd_text reading))
      then Some name else None
  | None => None
  end.
Definition correction (name : string) : string :=
  "not run: " +:+ IN_TICKS name
  +:+ " must be called alone, with no assistant text or sibling tool calls. No calls from this step were executed or persisted. Reissue only "
  +:+ IN_TICKS name +:+ " in a fresh model step.".

Definition answered (calls : list PendingCall) (outputs : list (option ToolOutput)) : chat_message :=
  MkMessage RUser
    (mjoin (zip_with (fun call output => match output with Some o => result_message agent call o | None => [] end) calls outputs))
    no_reasoning.

Definition reject_mixed (name : string) (reading : Reading Number) (calls : list PendingCall) (v : Vars) : M Flow :=
  _ ← (if trim_is_empty (rd_text reading) then mret tt else send EvStreamInterrupted : M unit);
  _ ← send_all (deferred_host_stream_events (rd_items reading) calls);
  outputs ← decline_all (correction name) calls;
  mret (Continue (with_streak None (with_transcript
    (v_transcript v ++ [MkMessage RAssistant (stream_content_blocks (rd_items reading) calls) no_reasoning;
                        answered calls (map Some outputs)]) v))).

Definition reject_blocked (call : PendingCall) (reason : string) (reasoning : MessageReasoning Number) (v : Vars) : M Flow :=
  output ← decline_call agent call reason;
  mret (Continue (with_streak None (with_transcript
    (v_transcript v ++ [MkMessage RAssistant [tool_use call] reasoning;
                        MkMessage RUser (tool_result_blocks (p_provider_id call)
                          (tool_result_for_model agent (out_content output) (p_call_id call)) true (out_images output)
                          (image_input config)) no_reasoning]) v))).

Definition on_report_blocked (call : PendingCall) (reasoning : MessageReasoning Number) (revision : option Z) (v : Vars)
  : M Flow :=
  match parse_tool_args (p_args call) ≫= parse_report_blocked_arguments with
  | None =>
      reject_blocked call
        "not run: `report_blocked` requires exactly a lowercase `reason_code` and a concise non-empty `explanation`, with no extra properties. Correct the arguments and reissue `report_blocked` alone."
        reasoning v
  | Some blocked =>
      match revision with
      | None =>
          reject_blocked call
            "not run: `report_blocked` is available only from a durably claimed foreground turn. Continue with the capabilities available on this surface."
            reasoning v
      | Some revision =>
          _ ← ensure_durable_lease_current world agent;
          _ ← persist_report_blocked_call world agent chat turn_id call (explanation blocked);
          output ← candidate_message world chat turn_id
                     (MkCandidate (ex_output_message_id execution) (explanation blocked) reasoning)
                     (ex_output_message_id execution);
          usage ← (total_usage : M Usage);
          mret (Return (OutCompleted output usage StopRefusal (Some report_blocked) (Some revision) steps_used))
      end
  end.

(** ** Admission, and the step's assistant message *)

(** What earlier attempts committed of the step's calls, and the receipts
    admitted now *)
Fixpoint admit_items (items : list (StreamItem Number)) (calls : list PendingCall) (recovered : gmap Z ToolOutput)
    (admitted : list Z) : M (gmap Z ToolOutput * list Z) :=
  match items with
  | [] => mret (recovered, admitted)
  | HostCall index :: items =>
      match calls !! index with
      | None => admit_items items calls recovered admitted
      | Some call =>
          if is_plain agent call then
            found ← accept_server_call world agent chat turn_id call;
            admit_items items calls
              (match found with Some output => <[p_call_id call := output]> recovered | None => recovered end) admitted
          else admit_items items calls recovered admitted
      end
  | ProviderExecuted call_id receipt :: items =>
      fresh ← accept_provider_executed_call world agent chat turn_id call_id receipt;
      admit_items items calls recovered (if fresh : bool then call_id :: admitted else admitted)
  | HostCallArgsDelta _ _ :: items => admit_items items calls recovered admitted
  end.

(** The live events held back behind a receipt, and the step's blocks *)
Fixpoint assemble (items : list (StreamItem Number)) (calls : list PendingCall) (admitted : list Z) (provider_seen : bool)
  : M (list (ContentBlock Number)) :=
  match items with
  | [] => mret []
  | HostCall index :: items =>
      match calls !! index with
      | None => assemble items calls admitted provider_seen
      | Some call =>
          _ ← (if provider_seen then send (EvToolCallStarted (p_call_id call) (p_name call)) else mret tt : M unit);
          blocks ← assemble items calls admitted provider_seen;
          mret (tool_use call :: blocks)
      end
  | HostCallArgsDelta index fragment :: items =>
      _ ← (match provider_seen, calls !! index with
           | true, Some call => send (EvToolCallArgsDelta (p_call_id call) fragment)
           | _, _ => mret tt
           end : M unit);
      assemble items calls admitted provider_seen
  | ProviderExecuted call_id receipt :: items =>
      _ ← (if bool_decide (call_id ∈ admitted) then complete_provider_executed_call world agent call_id receipt else mret tt
           : M unit);
      blocks ← assemble items calls admitted true;
      mret (receipt :: blocks)
  end.

Definition streak_key (call : PendingCall) : option (string * string) :=
  if is_plain agent call then Some (p_name call, json_to_string (parse_args (p_args call)).1) else None.

(** ** Answers without a call *)

Definition complete_terminal (usage : Usage) (stop : StopReason) (refusal : option RefusalOutcome) (empty_final : bool)
  : M unit :=
  if publish_terminal then
    match refusal with
    | Some refusal => send (EvTurnRefused usage refusal)
    | None => if empty_final then mret tt else send (EvTurnCompleted usage stop)
    end
  else mret tt.

(** One round: cancellation, steers, and completion unless the mailbox has
    something again *)
Definition finish_round (v : Vars) (candidate : AssistantCandidate (Number := Number)) (output : row) (stop : StopReason)
    (refusal : option RefusalOutcome) (revision : option Z) (again : M (option Flow)) : M (option Flow) :=
  let text := cd_content candidate in
  stopped ← (cancelled_now world : M bool);
  if stopped : bool then
    cancelled ← finish_cancelled steps_used (if trim_is_empty text then None else Some output);
    mret (Some (Return cancelled))
  else
    '(steered, transcript) ← apply_steers world agent chat turn_id (v_transcript v)
                               (if negb publish_terminal && negb (is_empty text) then Some candidate else None);
    if steered : bool then mret (Some (Continue (with_transcript transcript v))) else
    usage ← (total_usage : M Usage);
    let completed := Some (Return (OutCompleted output usage stop refusal revision steps_used)) in
    if is_some lease then mret completed else
    let empty_final := publish_terminal && negb (is_some refusal) && trim_is_empty text in
    done ← try_complete world (complete_terminal usage stop refusal empty_final);
    if done : bool then
      if empty_final then raise (ErrorKinds.Message "the model returned neither text nor a tool call") else mret completed
    else again.
(** Two rounds are enough: a mailbox that kept the turn from completing is not
    empty when it is drained next. *)
Fixpoint finish_rounds (rounds : nat) (v : Vars) (candidate : AssistantCandidate (Number := Number)) (output : row)
    (stop : StopReason) (refusal : option RefusalOutcome) (revision : option Z) : M (option Flow) :=
  match rounds with
  | O => mret None
  | S rounds =>
      finish_round v candidate output stop refusal revision (finish_rounds rounds v candidate output stop refusal revision)
  end.
Definition finish_answer (v : Vars) (candidate : AssistantCandidate (Number := Number)) (stop : StopReason)
    (refusal : option RefusalOutcome) (revision : option Z) : M Flow :=
  output ← candidate_message world chat turn_id candidate (cd_message_id candidate);
  _ ← (if publish_terminal && negb (is_empty (cd_content candidate)) then append_assistant_exact_retry world output
       else mret tt : M unit);
  flow ← finish_rounds 2 (with_streak None v) candidate output stop refusal revision;
  match flow with
  | Some flow => mret flow
  | None => raise (store_error "the mailbox was refilled after it was drained")
  end.

(** ** Running a batch *)

Notation outputs_of := (list (option ToolOutput)).
(** A plain call with what is already known of it *)
Record Job : Type := MkJob {
  jb_index : nat; jb_call : PendingCall; jb_recovered : option ToolOutput; jb_refusal : option string }.

Fixpoint plain_jobs (index : nat) (calls : list PendingCall) (refusals : list (option string)) (recovered : gmap Z ToolOutput)
  : list Job :=
  match calls, refusals with
  | call :: calls, refusal :: refusals =>
      if is_plain agent call
      then MkJob index call (recovered !! p_call_id call) refusal
             :: plain_jobs (S index) calls refusals (delete (p_call_id call) recovered)
      else plain_jobs (S index) calls refusals recovered
  | _, _ => []
  end.
Definition run_job (job : Job) : M ToolOutput :=
  execute_server_call world agent (jb_call job) (jb_recovered job) (jb_refusal job).

Fixpoint parallel_prefix_len (calls : list PendingCall) : nat :=
  match calls with
  | call :: calls =>
      if negb (is_some (call_isolation agent call)) && call_is_parallel_eligible agent call
      then S (parallel_prefix_len calls) else 0
  | [] => 0
  end.
Definition parallel_batch_len (calls : list PendingCall) : nat :=
  let n := parallel_prefix_len calls in if 1 <? n then n else 0.

(** The order in which overlapped calls complete; anything else the world says
    is read as the order of the model. *)
Definition completion_order (order : list nat) (jobs : list Job) : list Job :=
  let n := length jobs in
  if bool_decide (NoDup order) && (length order =? n) && forallb (fun i => i <? n) order
  then omap (fun i => jobs !! i) order else jobs.
(** Every call of the overlapped batch is run; its failures come after. *)
Fixpoint run_overlapped (jobs : list Job) : M (list (nat * result AgentError ToolOutput)) :=
  match jobs with
  | [] => mret []
  | job :: jobs =>
      output ← AgentLoop.attempt (run_job job);
      results ← run_overlapped jobs;
      mret ((jb_index job, output) :: results)
  end.
Fixpoint place_results (results : list (nat * result AgentError ToolOutput)) (outputs : outputs_of)
  : result AgentError outputs_of :=
  match results with
  | [] => Ok outputs
  | (index, Ok output) :: results => place_results results (<[index := Some output]> outputs)
  | (_, Err e) :: _ => Err e
  end.

(** The outputs, or the cancellation that stopped the batch *)
Notation batch_result := (outputs_of + AgentTurnOutcome)%type.
Definition stop_if_cancelled (outputs : outputs_of) (k : outputs_of -> M batch_result) : M batch_result :=
  stop ← (cancelled_now world : M bool);
  if stop : bool then (cancelled ← finish_cancelled steps_used None; mret (inr cancelled)) else k outputs.

Fixpoint run_sequential (jobs : list Job) (outputs : outputs_of) : M batch_result :=
  match jobs with
  | [] => mret (inl outputs)
  | job :: jobs =>
      output ← run_job job;
      stop_if_cancelled (<[jb_index job := Some output]> outputs) (run_sequential jobs)
  end.
Fixpoint run_sensitive (index : nat) (calls : list PendingCall) (outputs : outputs_of) : M batch_result :=
  match calls with
  | [] => mret (inl outputs)
  | call :: calls =>
      if is_sensitive agent call then
        recovered ← accept_server_call world agent chat turn_id call;
        output ← execute_server_call world agent call recovered None;
        stop_if_cancelled (<[index := Some output]> outputs) (run_sensitive (S index) calls)
      else run_sensitive (S index) calls outputs
  end.
Definition run_batch (calls : list PendingCall) (refusals : list (option string)) (recovered : gmap Z ToolOutput)
  : M batch_result :=
  let jobs := plain_jobs 0 calls refusals recovered in
  let n := parallel_batch_len calls in
  let outputs := replicate (length calls) None in
  overlapped ←
    (match n with
     | O => mret (inl outputs)
     | _ =>
         order ← (ask world (AskOrder n) : M (list nat));
         results ← run_overlapped (completion_order order (take n jobs));
         outputs ← lift (place_results results outputs);
         stop_if_cancelled outputs (fun outputs => mret (inl outputs))
     end : M batch_result);
  match overlapped with
  | inr cancelled => mret (inr cancelled)
  | inl outputs =>
      sequential ← run_sequential (drop n jobs) outputs;
      match sequential with
      | inr cancelled => mret (inr cancelled)
      | inl outputs => run_sensitive 0 calls outputs
      end
  end.

(** ** The call that stands alone *)

Definition isolated_at (calls : list PendingCall) : option nat := fst <$> list_find (fun c => is_Some (call_isolation agent c)) calls.

(** The others of its kind are answered, spawns aside. *)
Fixpoint decline_extras (index taken : nat) (name : string) (calls : list PendingCall) (outputs : outputs_of) : M outputs_of :=
  match calls with
  | [] => mret outputs
  | call :: calls =>
      match call_isolation agent call with
      | None | Some IsoSandboxSpawn => decline_extras (S index) taken name calls outputs
      | Some _ =>
          if index =? taken then decline_extras (S index) taken name calls outputs else
          output ← decline_call agent call
                     ("not run: " +:+ name +:+ " in the same step has to run on its own, so this step took only that call. Ask for this one again once it has finished.");
          decline_extras (S index) taken name calls (<[index := Some output]> outputs)
      end
  end.

Definition decline_into (index : nat) (call : PendingCall) (reason : string) (outputs : outputs_of) : M batch_result :=
  output ← decline_call agent call reason; mret (inl (<[index := Some output]> outputs)).

(** The spawns after the first, in the order of the model *)
Fixpoint queue_spawns (index : nat) (calls : list PendingCall) (revision : Z) (outputs : outputs_of)
  : M (list (nat * SandboxAgentSpawnRequest Number) * outputs_of) :=
  match calls with
  | [] => mret ([], outputs)
  | call :: calls =>
      if bool_decide (call_isolation agent call = Some IsoSandboxSpawn) then
        match sandbox_checkpoint agent call (Some revision) with
        | Ok (request, _) =>
            '(queued, outputs) ← queue_spawns (S index) calls revision outputs;
            mret ((index, request) :: queued, outputs)
        | Err reason =>
            output ← decline_call agent call reason;
            queue_spawns (S index) calls revision (<[index := Some output]> outputs)
        end
      else queue_spawns (S index) calls revision outputs
  end.
(** The first that passes the gate, with those after it *)
Fixpoint gate_queued (queued : list (nat * SandboxAgentSpawnRequest Number)) (outputs : outputs_of)
  : M (option (SandboxAgentSpawnRequest Number * list (SandboxAgentSpawnRequest Number)) * outputs_of) :=
  match queued with
  | [] => mret (None, outputs)
  | (slot, request) :: queued =>
      gate ← ask_gate world request;
      match gate with
      | Admit request => mret (Some (request, map snd queued), outputs)
      | Declined output => gate_queued queued (<[slot := Some output]> outputs)
      end
  end.

Definition take_client (index : nat) (call : PendingCall) (revision : option Z) (v : Vars) (outputs : outputs_of)
  : M batch_result :=
  resolution ← (ask world (AskClientArguments call) ≫= lift);
  match resolution with
  | RefusedArguments reason => decline_into index call reason outputs
  | _ =>
      let resolved := match resolution with Resolved arguments => Some arguments | _ => None end in
      match client_checkpoint agent chat turn_id call resolved revision with
      | Ok (request, revision) =>
          usage ← (total_usage : M Usage);
          mret (inr (OutClientToolCall request (v_search v) usage revision steps_used))
      | Err reason => decline_into index call reason outputs
      end
  end.
Definition take_spawn (index : nat) (call : PendingCall) (calls : list PendingCall) (revision : option Z) (outputs : outputs_of)
  : M batch_result :=
  match sandbox_checkpoint agent call revision with
  | Err reason => decline_into index call reason outputs
  | Ok (request, revision) =>
      '(queued, outputs) ← queue_spawns (S index) (drop (S index) calls) revision outputs;
      '(admitted, outputs) ← gate_queued ((index, request) :: queued) outputs;
      match admitted with
      | Some (request, remaining) =>
          usage ← (total_usage : M Usage);
          mret (inr (OutSandboxAgentSpawn request remaining usage revision steps_used))
      | None => mret (inl outputs)
      end
  end.
Definition take_agent_wait (index : nat) (call : PendingCall) (revision : option Z) (outputs : outputs_of) : M batch_result :=
  match agent_wait_checkpoint agent call revision with
  | Ok (request, revision) =>
      usage ← (total_usage : M Usage);
      mret (inr (OutWaitForAgents request usage revision steps_used))
  | Err reason => decline_into index call reason outputs
  end.
Definition take_child_wait (index : nat) (call : PendingCall) (revision : option Z) (v : Vars) (outputs : outputs_of)
  : M batch_result :=
  taken ←
    (match child_session_wait_checkpoint chat turn_id call revision with
     | Err reason => decline_into index call reason outputs
     | Ok (request, session_ids, revision) =>
         waited ← run_child_session_wait world agent chat turn_id call;
         match waited with
         | Settled output => mret (inl (<[index := Some output]> outputs))
         | Unsettled =>
             usage ← (total_usage : M Usage);
             mret (inr (OutChildSessionWait request session_ids (v_search v) usage revision steps_used))
         end
     end : M batch_result);
  match taken with
  | inr outcome => mret (inr outcome)
  | inl outputs => stop_if_cancelled outputs (fun outputs => mret (inl outputs))
  end.

Definition take_isolated (index : nat) (call : PendingCall) (calls : list PendingCall) (revision : option Z) (v : Vars)
    (outputs : outputs_of) : M batch_result :=
  let plan_mode := bool_decide (chat_permission_mode chat = Some ModePlan) in
  let kind := call_isolation agent call in
  if plan_mode && match kind with Some (IsoSandboxSpawn | IsoAgentWait) => true | _ => false end
  then decline_into index call
         "not run: agent delegation is not available in plan mode; the chat is read-only until the reader leaves plan mode. Continue with read-only tools."
         outputs
  else if plan_mode && String.eqb (p_name call) ASK_USER_QUESTIONS_TOOL
  then decline_into index call
         "not run: ask_user_questions is not available in plan mode. Record missing inputs as assumptions or first steps in the plan and submit it with exit_plan_mode."
         outputs
  else match kind with
       | Some IsoClient => take_client index call revision v outputs
       | Some IsoSandboxSpawn => take_spawn index call calls revision outputs
       | Some IsoAgentWait => take_agent_wait index call revision outputs
       | Some IsoChildSessionWait => take_child_wait index call revision v outputs
       | None => mret (inl outputs)
       end.

Definition is_user_declined (o : option ToolOutput) : bool :=
  match o with Some o => bool_decide (out_category o = Some UserDeclined) | None => false end.

(** Everything after admission *)
Definition run_calls (calls : list PendingCall) (refusals : list (option string)) (recovered : gmap Z ToolOutput)
    (revision : option Z) (v : Vars) : M Flow :=
  batch ← run_batch calls refusals recovered;
  match batch with
  | inr cancelled => mret (Return cancelled)
  | inl outputs =>
      let v := if existsb is_user_declined outputs then with_streak None v else v in
      taken ←
        (match isolated_at calls with
         | None => mret (inl outputs)
         | Some index =>
             match calls !! index with
             | None => mret (inl outputs)
             | Some call =>
                 outputs ← decline_extras 0 index (p_name call) calls outputs;
                 take_isolated index call calls revision v outputs
             end
         end : M batch_result);
      match taken with
      | inr outcome => mret (Return outcome)
      | inl outputs =>
          '(_, transcript) ← apply_steers world agent chat turn_id (v_transcript v ++ [answered calls outputs]) None;
          mret (Continue (with_transcript transcript v))
      end
  end.

(** A step that may act *)
Definition act (reading : Reading Number) (calls : list PendingCall) (candidate : AssistantCandidate (Number := Number))
    (revision : option Z) (v : Vars) : M Flow :=
  let text := cd_content candidate in
  let refused := bool_decide (rd_stop_reason reading = StopRefusal) in
  let refusal := if refused
                 then Some (refusal_new (default (MkRefusalDetails None) (rd_refusal_details reading)) (negb (is_empty text)))
                 else None in
  let '(streak, refusals) := repeat_refusals (v_streak v) (map streak_key calls) in
  let has_calls := match calls with [] => false | _ => true end in
  _ ← (if has_calls || has_provider_executed reading then ensure_durable_lease_current world agent else mret tt : M unit);
  _ ← (if has_calls && (negb (is_empty text) || negb (match reasoning_blocks (cd_reasoning candidate) with [] => true | _ => false end))
       then persist_assistant world chat turn_id candidate else mret tt : M unit);
  '(recovered, admitted) ← admit_items (rd_items reading) calls ∅ [];
  blocks ← assemble (rd_items reading) calls admitted false;
  let blocks := (if is_empty text then [] else [Text text]) ++ blocks in
  let transcript := match blocks with
                    | [] => v_transcript v
                    | _ => v_transcript v ++ [MkMessage RAssistant blocks (cd_reasoning candidate)]
                    end in
  let v := with_streak streak (with_transcript transcript v) in
  if has_calls then run_calls calls refusals recovered revision v
  else finish_answer v candidate (rd_stop_reason reading) refusal revision.

Definition after_stream (reading : Reading Number) (revision : option Z) (v : Vars) : M Flow :=
  admitted ← admit_calls reading;
  match admitted with
  | None => mret (Continue (MkVars (v_transcript v) (v_checkpoint v) (v_boundary v) (v_attempted v) (v_search v) (v_streak v) true))
  | Some calls =>
      id ← (match calls with
            | [] => if publish_terminal then new_id world else mret (ex_output_message_id execution)
            | _ => new_id world
            end : M Z);
      let reasoning := reasoning_captured (agent_reasoning_origin agent) (rd_reasoning reading) in
      match mixed_control reading calls with
      | Some name => reject_mixed name reading calls v
      | None =>
          match calls with
          | [call] =>
              if is_report_blocked_call agent call then on_report_blocked call reasoning revision v
              else act reading calls (MkCandidate id (rd_text reading) reasoning) revision v
          | _ => act reading calls (MkCandidate id (rd_text reading) reasoning) revision v
          end
      end
  end.

(** ** One step *)
Definition run_step (v : Vars) : M Flow :=
  stop ← (cancelled_now world : M bool);
  if stop : bool then (cancelled ← finish_cancelled steps_before None; mret (Return cancelled)) else
  let v := if wrap_up && negb wrap_up_retry
           then with_transcript (v_transcript v ++ [text_message RSystem WRAP_UP_INSTRUCTION]) v else v in
  '(_, transcript) ← apply_steers world agent chat turn_id (v_transcript v) None;
  revision ← durable_generation_revision world agent;
  attempted ← step_attempt MAX_REDUCTION_LEVEL (with_transcript transcript v);
  match attempted with
  | inl cancelled => mret (Return cancelled)
  | inr (v, offered, reading, ended) =>
      let v := match ended with
               | Done => if rd_completion_seen reading && negb (rd_vendor_web_search_seen reading) then with_search offered v else v
               | _ => v
               end in
      stop ← (match ended with CancelledEnd => mret true | _ => cancelled_now world end : M bool);
      if stop : bool then on_cancelled reading else
      match ended with
      | Steered => on_steered v
      | _ => after_stream reading revision v
      end
  end.
End Step.

Definition max_steps_exceeded (usage : Usage) : AgentTurnOutcome :=
  OutFailed (MkInfo "max_steps_exceeded" "max steps per turn exceeded") None usage (ag_max_steps agent).

(** The steps of the range that are left *)
Fixpoint run_steps (steps : list nat) (v : Vars) : M AgentTurnOutcome :=
  match steps with
  | [] => usage ← (total_usage : M Usage); mret (max_steps_exceeded usage)
  | step :: steps =>
      if wrap_up_retry step && negb (v_without_tools v)
      then usage ← (total_usage : M Usage); mret (max_steps_exceeded usage)
      else
        flow ← run_step step v;
        match flow with Continue v => run_steps steps v | Return outcome => mret outcome end
  end.
End Turn_.

(** ** The turn *)
Section Entry.
Context (world : list (Happened (Number := Number)) -> forall q : Ask (Number := Number), Ans q).
Context (agent : Agent Number) (chat : Chat).

(** The spawns carried across a park: the first that passes the gate leaves *)
Fixpoint carried_spawns (pending : list (SandboxAgentSpawnRequest Number)) (revision : Z) : M (option AgentTurnOutcome) :=
  match pending with
  | [] => mret None
  | request :: pending =>
      gate ← (if sp_approval_gated request then mret (Admit request)
              else ask_gate world request : M (SandboxSpawnGate Number));
      match gate with
      | Admit request => mret (Some (OutSandboxAgentSpawn request pending (MkUsage 0 0 0 0) revision 0))
      | Declined _ => carried_spawns pending revision
      end
  end.
Definition resume_spawns (execution : TurnExecution) : M (option AgentTurnOutcome) :=
  match ag_pending_sandbox_spawns agent with
  | [] => mret None
  | pending =>
      match ag_pending_steer_revision agent with
      | None => raise (store_error "pending sandbox spawns require a durably claimed turn")
      | Some revision =>
          _ ← apply_steers world agent chat (ex_turn_id execution) [] None;
          current ← durable_generation_revision world agent;
          carried_spawns pending (default revision current)
      end
  end.

Definition drive (execution : TurnExecution) : M AgentTurnOutcome :=
  _ ← (if ex_persist_input execution
       then _ ← persist world chat (ex_turn_id execution) RUser (ex_user_input execution); mret tt else mret tt : M unit);
  resumed ← resume_spawns execution;
  match resumed with
  | Some outcome => mret outcome
  | None =>
      '(stored, replacements) ← (ask world AskCheckpoint
         : M (result AgentError (option ContextCheckpoint) * result AgentError (list TurnReplacement)));
      let checkpoint := load_projectable_checkpoint (chat_id chat) stored replacements in
      snapshot ← (ask world AskSnapshot ≫= lift);
      let loaded := load_transcript (ag_show_date agent) (ag_show_call agent) (ag_config agent) snapshot
                      (cp_source_message_id <$> checkpoint) in
      let transcript := ld_messages loaded
                        ++ match ag_continuation_instruction agent with
                           | Some instruction => [text_message RSystem instruction]
                           | None => []
                           end in
      let search := match ag_web_search agent with
                    | VendorSearch max_uses => if (0 <? max_uses)%Z then Some max_uses else None
                    | _ => None
                    end in
      transcript ← resume_pending_server_calls world agent (ex_turn_id execution) transcript;
      run_steps world agent chat execution (ld_sources loaded) (ld_user_texts loaded) (seq 0 (ag_max_steps agent + 2))
        (MkVars transcript checkpoint (ld_boundary loaded) None search None false)
  end.

(** [run_turn_inner]: the failure of a claimed turn that used the model keeps
    what it used. *)
Definition run_turn_inner (execution : TurnExecution) : M AgentTurnOutcome :=
  _ ← (if ex_publish_started execution then send (EvTurnStarted (ex_turn_id execution)) else mret tt : M unit);
  driven ← AgentLoop.attempt (drive execution);
  match driven with
  | Ok outcome =>
      _ ← (match outcome with
           | OutFailed error _ _ _ => if ex_publish_terminal execution then send (EvTurnFailed error) else mret tt
           | _ => mret tt
           end : M unit);
      mret outcome
  | Err e =>
      if ex_publish_terminal execution then _ ← send (EvTurnFailed (to_info e)); raise e
      else fun s => if 0 <? model_steps s then (Ok (OutFailed (to_info e) (retry_after e) (used s) (model_steps s)), s)
                    else (Err e, s)
  end.

Definition loop_state_new (first_ordinal : option Z) : LoopState (Number := Number) :=
  MkLoopState [] first_ordinal inbox_new (MkUsage 0 0 0 0) 0.
Definition run_turn (turn_id output_message_id : Z) (user_input : string) : result AgentError AgentTurnOutcome * LoopState (Number := Number) :=
  run_turn_inner (MkExecution turn_id user_input output_message_id true true true) (loop_state_new None).
Definition run_claimed_turn (turn_id output_message_id first_event_ordinal : Z)
  : result AgentError AgentTurnOutcome * LoopState (Number := Number) :=
  if (turn_id =? 0)%Z || (output_message_id =? 0)%Z || negb (ordinal_in_range first_event_ordinal)
  then (Err (store_error "claimed turn identities and first event ordinal must be valid"), loop_state_new None)
  else run_turn_inner (MkExecution turn_id "" output_message_id false false false) (loop_state_new (Some first_event_ordinal)).
End Entry.
End Drive.
