(* ===== verification/AgentTheorems.v ===== *)
(** * What a turn does

    The loop of [AgentDrive] over every world it can meet.  First the rules for
    its computations, over the history they leave: which steps add nothing but
    talk, and which assertions about the rows a turn has opened and the stream
    it last read they carry along.  Then what a turn runs, what it leaves open
    when it parks, how often it asks the model and how its events are numbered. *)
From Stdlib Require Import Sorted.
From S2P Require Import Prelude RustStr ShellPolicy TurnTables TurnResolve TurnCancel TurnParks TurnPlacements.
From S2P Require Import Json ErrorKinds ContextFit Transcript Checkpoint RequestPrefix ToolPreview Approvals.
From S2P Require Import ToolGate AgentStream AgentLoop AgentDrive.

Open Scope nat_scope.

Create HintDb agent.

Section Facts.
Context {Number : Type} `{HJ : SerdeJson Number} `{HT : !SerdeJsonText Number}.
Notation M := (AgentLoop.M (Number := Number)).
Notation history := (list (Happened (Number := Number))).
Context (world : history -> forall q : Ask (Number := Number), Ans q).
Context (agent : Agent Number) (chat : Chat) (turn_id : Z).
Implicit Types (h : Happened (Number := Number)) (hs : history) (call : PendingCall).

(** ** Reading a history, newest first *)

Definition stream_of h : option (StepRequest (Number := Number) * result AgentError (StreamAnswer (Number := Number))) :=
  match h with
  | Asked q a =>
      match q as q return Ans q -> option (StepRequest * result AgentError StreamAnswer) with
      | AskStream request => fun a => Some (request, a)
      | _ => fun _ => None
      end a
  | _ => None
  end.
(** The last stream asked for *)
Definition latest hs := find_map stream_of hs.
(** Whether a request forbade tools *)
Definition forbidden hs : bool :=
  existsb (fun h => match stream_of h with Some (request, _) => is_some (sr_tool_choice request) | None => false end) hs.

(** What an entry makes of the rows of the model's calls *)
Definition rows_after h (open : gset Z) : gset Z :=
  match h with
  | Asked q a =>
      match q as q return Ans q -> gset Z with
      | AskAccept record _ => fun a =>
          match a with
          | Ok Accepted => {[c_id record]} ∪ open
          | Ok (ExistingCall existing) =>
              if call_is_terminal (c_status existing) then open ∖ {[c_id record]} else {[c_id record]} ∪ open
          | _ => open
          end
      | AskResolve call_id _ => fun a =>
          match a with Ok outcome => if is_resolved outcome then open ∖ {[call_id]} else open | Err _ => open end
      | _ => fun _ => open
      end a
  | _ => open
  end.
(** The rows opened and not closed since *)
Fixpoint open_rows hs : gset Z := match hs with [] => ∅ | h :: hs => rows_after h (open_rows hs) end.

(** Entries that ask the model nothing, and open, close or run nothing *)
Definition is_talk h : bool :=
  match h with
  | Asked q _ =>
      match q with
      | AskStream _ | AskCompaction _ | AskAccept _ _ | AskResolve _ _ | AskRun _ _ | AskGateSpawn _ => false
      | _ => true
      end
  | _ => true
  end.

(** [call] was asked for by a stream that closed by itself and was no refusal *)
Definition asked_by (last : option (StepRequest (Number := Number) * result AgentError (StreamAnswer (Number := Number))))
    call : Prop :=
  exists request answer usage reading,
    last = Some (request, Ok answer)
    /\ read_polls (sn_first answer) (provider_executed_call_is_admissible agent) (reading_new usage) (sn_polls answer)
       = (reading, Some Done)
    /\ rd_stop_reason reading <> StopRefusal /\ call ∈ rd_calls reading.

(** What must hold of the past of a run or of a question about a child *)
Definition warranted h hs : Prop :=
  match h with
  | Asked (AskRun call _) _ =>
      (latest hs = None /\ ag_durable_steer_lease agent = None)
      \/ asked_by (latest hs) call /\ forbidden hs = false
         /\ (is_sensitive agent call = true -> open_rows hs ⊆ {[p_call_id call]})
  | Asked (AskGateSpawn _) _ => forbidden hs = false
  | _ => True
  end.
Fixpoint legit hs : Prop := match hs with [] => True | h :: hs => warranted h hs /\ legit hs end.

(** The gate was asked about [asked] and let [request] through. *)
Definition gated (asked request : SandboxAgentSpawnRequest Number) hs : Prop :=
  exists sent, Asked (AskGateSpawn asked) (Ok (Admit request), sent) ∈ hs.
(** ** The numbers of the events *)

Definition ordinal_of h : option Z := match h with Sent (Some o) _ | Published o _ => Some o | _ => None end.
(** The ordinals of a history, newest first *)
Definition ordinals hs : list Z := omap ordinal_of hs.
(** What was added took its ordinals between the next one before and after. *)
Definition numbered (before : option Z) (added : history) (after : option Z) : Prop :=
  match before, after with
  | Some n, Some n' =>
      (n <= n')%Z /\ (n < I32_MAX -> n' < I32_MAX)%Z /\ Forall (fun o => n <= o < n')%Z (ordinals added)
      /\ StronglySorted Z.gt (ordinals added)
  | None, None => ordinals added = []
  | _, _ => False
  end.
Lemma numbered_nil n : numbered n [] n.
Proof. destruct n; cbn; [|done]. repeat split; try done; constructor. Qed.
Lemma strongly_sorted_app (l l' : list Z) :
  StronglySorted Z.gt l -> StronglySorted Z.gt l' -> (forall x y, x ∈ l -> y ∈ l' -> (x > y)%Z) -> StronglySorted Z.gt (l ++ l').
Proof.
  intros Hl Hl' H. induction Hl as [|x l Hl IH Hx]; cbn; [done|]. constructor.
  - apply IH. intros y z Hy. apply H. by right.
  - apply Forall_app. split; [done|]. apply Forall_forall. intros y. apply H. by left.
Qed.
Lemma numbered_trans n n' n'' added added' : numbered n added n' -> numbered n' added' n'' -> numbered n (added' ++ added) n''.
Proof.
  unfold numbered, ordinals. rewrite omap_app. destruct n as [n|], n' as [n'|], n'' as [n''|]; try done.
  - intros (H1 & H1' & Hf & Hs) (H2 & H2' & Hf' & Hs'). repeat split; [lia|auto| |].
    + apply Forall_app. split; (eapply Forall_impl; [eassumption|]); cbn; lia.
    + apply strongly_sorted_app; [done..|]. rewrite Forall_forall in Hf, Hf'. intros x y Hx Hy.
      specialize (Hf _ Hy). specialize (Hf' _ Hx). cbn in *. lia.
  - by intros -> ->.
Qed.
Lemma numbered_unnumbered n h : ordinal_of h = None -> numbered n [h] n.
Proof. intros H. pose proof (numbered_nil n) as Hn. destruct n; unfold numbered, ordinals in *; cbn in *; by rewrite H. Qed.

(** ** Computations that add entries of one kind *)

Definition adds (K : Happened (Number := Number) -> Prop) {A} (m : M A) : Prop :=
  forall s, exists added,
    happened (m s).2 = added ++ happened s /\ Forall K added /\ numbered (next_ordinal s) added (next_ordinal (m s).2).

Section Adds.
Context (K : Happened (Number := Number) -> Prop) (HK : forall h, is_talk h = true -> K h).

(** Nothing added, nothing numbered *)
Lemma adds_silent {A} (m : M A) :
  (forall s, happened (m s).2 = happened s /\ next_ordinal (m s).2 = next_ordinal s) -> adds K m.
Proof. intros H s. destruct (H s) as [Hh Hn]. exists []. rewrite Hh, Hn. split; [done|]. split; [constructor|apply numbered_nil]. Qed.
Lemma adds_ret {A} (a : A) : adds K (mret a).
Proof. by apply adds_silent. Qed.
Lemma adds_raise {A} e : adds K (raise (A := A) e).
Proof. by apply adds_silent. Qed.
Lemma adds_lift {A} (r : result AgentError A) : adds K (lift r).
Proof. by apply adds_silent. Qed.
Lemma adds_total_usage : adds K total_usage.
Proof. by apply adds_silent. Qed.
Lemma adds_claimed : adds K claimed.
Proof. by apply adds_silent. Qed.
Lemma adds_mailbox : adds K mailbox.
Proof. by apply adds_silent. Qed.
Lemma adds_update f : (forall s, happened (f s) = happened s /\ next_ordinal (f s) = next_ordinal s) -> adds K (update f).
Proof. intros Hf. apply adds_silent. intros s. apply Hf. Qed.
Lemma adds_bind {A B} (m : M A) (k : A -> M B) : adds K m -> (forall a, adds K (k a)) -> adds K (m ≫= k).
Proof.
  intros Hm Hk s. destruct (Hm s) as (added & Heq & Hadded & Hnum). unfold mbind, M_bind.
  destruct (m s) as [[a|e] s1]; cbn in *; [|by exists added].
  destruct (Hk a s1) as (added' & Heq' & Hadded' & Hnum'). exists (added' ++ added). rewrite Heq', Heq, app_assoc.
  split; [done|]. split; [by apply Forall_app|by eapply numbered_trans].
Qed.
Lemma adds_attempt {A} (m : M A) : adds K m -> adds K (attempt m).
Proof. intros Hm s. destruct (Hm s) as (added & ? & ? & ?). exists added. unfold attempt. by destruct (m s). Qed.
Lemma adds_ask q : (forall a, K (Asked q a)) -> adds K (ask world q).
Proof.
  intros H s. exists [Asked q (world (happened s) q)]. split; [done|]. split; [by constructor|]. by apply numbered_unnumbered.
Qed.
Lemma adds_talk q : is_talk (Asked q (world [] q)) = true -> adds K (ask world q).
Proof. intros H. apply adds_ask. intros a. by apply HK. Qed.
Lemma adds_each {A} (f : A -> M unit) l : (forall a, adds K (f a)) -> adds K (each f l).
Proof. intros H. induction l as [|a l IH]; cbn; [apply adds_ret|]. apply adds_bind; [apply H|done]. Qed.
Lemma adds_send e : adds K (send e).
Proof.
  intros s. unfold send. cbn. destruct (next_ordinal s) as [n|] eqn:En.
  - unfold reserve_event_ordinal. destruct (n + 1 <? I32_MAX)%Z eqn:El.
    + apply Z.ltb_lt in El. exists [Sent (Some n) e]. split; [done|]. split; [constructor; [by apply HK|done]|].
      cbn. repeat split; try lia; repeat constructor; lia.
    + exists []. rewrite En. split; [done|]. split; [constructor|apply numbered_nil].
  - exists [Sent None e]. cbn -[numbered]. rewrite En. split; [done|].
    split; [constructor; [by apply HK|done]|]. by apply numbered_unnumbered.
Qed.
Lemma adds_send_all l : adds K (send_all l).
Proof. apply adds_each. intros. apply adds_send. Qed.

(** The ordinals the gate takes are passed over. *)
Lemma pass_ordinals_bounds n next : (next <= pass_ordinals n next)%Z /\ (next < I32_MAX -> pass_ordinals n next < I32_MAX)%Z.
Proof.
  revert next. induction n as [|n IH]; intros next; cbn [pass_ordinals]; [lia|]. unfold reserve_event_ordinal.
  destruct (next + 1 <? I32_MAX)%Z eqn:E; [|lia]. apply Z.ltb_lt in E. specialize (IH (next + 1)%Z). lia.
Qed.
Lemma adds_gate_sends n : adds K (gate_sends n).
Proof.
  intros s. exists []. split; [done|]. split; [constructor|]. cbn -[numbered]. destruct (next_ordinal s) as [next|]; [|done].
  destruct (pass_ordinals_bounds n next). cbn. repeat split; try done; constructor.
Qed.
(** A steer's ordinal is reserved, and then published or lost. *)
Lemma reserved_numbered n added : (n + 1 < I32_MAX)%Z -> ordinals added = [] \/ ordinals added = [n] ->
  numbered (Some n) added (Some (n + 1)%Z).
Proof. intros Hn [E|E]; unfold numbered; rewrite E; repeat split; try lia; repeat constructor; lia. Qed.
Lemma adds_steer lease steer preceding {B} (k : TurnSteer -> M B) : (forall applied, adds K (k applied)) ->
  adds K (reserve_ordinal ≫= fun ordinal =>
          (ask world (AskApplySteer lease (ts_id steer) ordinal preceding) ≫= lift) ≫= fun applied =>
          send_committed world ordinal (ts_id applied) ≫= fun _ => k applied).
Proof.
  intros Hk s. unfold mbind, M_bind, reserve_ordinal, send_committed, claimed, ask, lift, update, raise, mbind, M_bind.
  destruct (next_ordinal s) as [n|] eqn:En; [|exists []; cbn -[numbered]; rewrite En; by repeat constructor].
  unfold reserve_event_ordinal. destruct (n + 1 <? I32_MAX)%Z eqn:El;
    [|exists []; cbn -[numbered]; rewrite En; split; [done|]; split; [constructor|apply numbered_nil]].
  apply Z.ltb_lt in El. cbn -[numbered].
  set (q := AskApplySteer lease (ts_id steer) n preceding).
  assert (Hq : forall a, K (Asked q a)) by (intros; by apply HK).
  destruct (world (happened s) q) as [applied|e] eqn:Ea; cbn -[numbered].
  2: { exists [Asked q (Err e)]. split; [by rewrite <- Ea|]. split; [by constructor|]. apply reserved_numbered; [done|by left]. }
  assert (Hp : forall a, K (Asked (AskPublish n) a)) by (intros; by apply HK).
  match goal with |- context [world ?hs (AskPublish n)] => destruct (world hs (AskPublish n)) eqn:Eo end; cbn -[numbered].
  2: { eexists [_; _]. split; [reflexivity|]. split; [by repeat constructor|]. apply reserved_numbered; [done|by left]. }
  match goal with |- context [k applied ?s3] => destruct (Hk applied s3) as (added & Heq & Hadded & Hnum) end.
  cbn -[numbered] in Heq, Hnum. eexists (added ++ [_; _; _]). rewrite Heq, <- app_assoc. split; [reflexivity|].
  split; [apply Forall_app; split; [done|]; repeat constructor; try done; by apply HK|].
  eapply numbered_trans; [|exact Hnum]. apply reserved_numbered; [done|by right].
Qed.
End Adds.
End Facts.

#[export] Hint Resolve adds_ret adds_raise adds_lift adds_total_usage adds_send adds_send_all adds_claimed
  adds_mailbox adds_gate_sends : agent.
Ltac adds_step :=
  lazymatch goal with
  | |- forall _, _ => intros
  | |- adds _ (mbind _ _) => apply adds_bind
  | |- adds _ (match ?x with _ => _ end) => destruct x
  | |- adds _ (ask _ ?q) => apply adds_talk; [first [assumption | by intros] | reflexivity]
  | |- adds _ (update _) => by apply adds_update
  | |- adds _ (AgentLoop.attempt _) => apply adds_attempt
  | |- adds _ _ => by eauto with agent
  end.
Ltac adds_all := intros; repeat adds_step.

Section Rules.
Context {Number : Type} `{HJ : SerdeJson Number} `{HT : !SerdeJsonText Number}.
Notation M := (AgentLoop.M (Number := Number)).
Notation history := (list (Happened (Number := Number))).
Context (world : history -> forall q : Ask (Number := Number), Ans q).
Context (agent : Agent Number) (chat : Chat) (turn_id : Z).
Implicit Types (h : Happened (Number := Number)) (hs : history) (call : PendingCall).

Section Talk.
Context (K : Happened (Number := Number) -> Prop) (HK : forall h, is_talk h = true -> K h).

Lemma adds_set_used u : adds K (set_used u).
Proof. unfold set_used. adds_all. Qed.
Lemma adds_set_model_steps n : adds K (set_model_steps n).
Proof. unfold set_model_steps. adds_all. Qed.
Lemma adds_flush : adds K (flush world).
Proof. unfold flush. adds_all. Qed.
Lemma adds_cancelled_now : adds K (cancelled_now world).
Proof. unfold cancelled_now. adds_all. Qed.
Lemma adds_now : adds K (now_ world).
Proof. unfold now_. adds_all. Qed.
Lemma adds_new_id : adds K (new_id world).
Proof. unfold new_id. adds_all. Qed.
Lemma adds_receive : adds K (receive world).
Proof. unfold receive. adds_all. Qed.
#[local] Hint Resolve adds_set_used adds_set_model_steps adds_flush adds_cancelled_now adds_now adds_new_id
  adds_receive : agent.
Lemma adds_drain : adds K (drain world).
Proof. unfold drain. adds_all. Qed.
Lemma adds_try_complete m : adds K m -> adds K (try_complete world m).
Proof. intros. unfold try_complete. adds_all. Qed.
Lemma adds_candidate_message c id : adds K (candidate_message world chat turn_id c id).
Proof. unfold candidate_message. adds_all. Qed.
Lemma adds_persist r text : adds K (persist world chat turn_id r text).
Proof. unfold persist. adds_all. Qed.
Lemma adds_append_assistant m : adds K (append_assistant_exact_retry world m).
Proof. unfold append_assistant_exact_retry. adds_all. Qed.
Lemma adds_ensure_lease : adds K (ensure_durable_lease_current world agent).
Proof. unfold ensure_durable_lease_current. adds_all. Qed.
Lemma adds_revision : adds K (durable_generation_revision world agent).
Proof. unfold durable_generation_revision. adds_all. Qed.
#[local] Hint Resolve adds_drain adds_try_complete adds_candidate_message adds_persist adds_append_assistant adds_ensure_lease
  adds_revision : agent.
Lemma adds_persist_assistant c : adds K (persist_assistant world chat turn_id c).
Proof. unfold persist_assistant. adds_all. Qed.
Lemma adds_apply_messages transcript messages : adds K (apply_messages world chat turn_id transcript messages).
Proof. revert transcript. induction messages; cbn [apply_messages]; adds_all. Qed.
Lemma adds_apply_durable lease transcript steers preceding : adds K (apply_durable world lease transcript steers preceding).
Proof. revert transcript preceding. induction steers; cbn [apply_durable]; [adds_all|]. intros. by apply adds_steer. Qed.
#[local] Hint Resolve adds_persist_assistant adds_apply_messages adds_apply_durable : agent.
Lemma adds_apply_steers transcript preceding : adds K (apply_steers world agent chat turn_id transcript preceding).
Proof. unfold apply_steers. adds_all. Qed.
Lemma adds_announce call o : adds K (announce_completed agent call o).
Proof. unfold announce_completed. adds_all. Qed.
#[local] Hint Resolve adds_announce : agent.
Lemma adds_decline call reason : adds K (decline_call agent call reason).
Proof. unfold decline_call. adds_all. Qed.
Lemma adds_publish_images o : adds K (publish_tool_images world agent o).
Proof. unfold publish_tool_images. adds_all. Qed.
Lemma adds_accept_receipt id b : adds K (accept_provider_executed_call world agent chat turn_id id b).
Proof. unfold accept_provider_executed_call. adds_all. Qed.
Lemma adds_count_bearing pending : adds K (count_approval_bearing world agent pending).
Proof. induction pending; cbn [count_approval_bearing]; adds_all. Qed.
Lemma adds_abandon call transcript : adds K (abandon_call world agent call transcript).
Proof. unfold abandon_call. adds_all. Qed.
End Talk.

(** ** Assertions over the history *)

Definition holds {A} (J : history -> Prop) (m : M A) (Q : A -> history -> Prop) (E : history -> Prop) : Prop :=
  forall s, J (happened s) ->
    match m s with (Ok a, s) => Q a (happened s) | (Err _, s) => E (happened s) end.

Lemma holds_ret {A} (J : history -> Prop) (a : A) Q E : (forall hs, J hs -> Q a hs) -> holds J (mret a) Q E.
Proof. intros H s Hs. by apply H. Qed.
Lemma holds_raise {A} (J : history -> Prop) e (Q : A -> history -> Prop) E : (forall hs, J hs -> E hs) -> holds J (raise e) Q E.
Proof. intros H s Hs. by apply H. Qed.
Lemma holds_bind {A B} J (m : M A) (k : A -> M B) R Q E :
  holds J m R E -> (forall a, holds (R a) (k a) Q E) -> holds J (m ≫= k) Q E.
Proof.
  intros Hm Hk s Hs. specialize (Hm s Hs). unfold mbind, M_bind. destruct (m s) as [[a|e] s']; [by apply Hk|done].
Qed.
Lemma holds_conseq {A} (J J' : history -> Prop) (m : M A) (Q Q' : A -> history -> Prop) (E E' : history -> Prop) :
  holds J' m Q' E' -> (forall hs, J hs -> J' hs) -> (forall a hs, Q' a hs -> Q a hs) -> (forall hs, E' hs -> E hs) ->
  holds J m Q E.
Proof. intros Hm Hpre HQ HE s Hs. specialize (Hm s (Hpre _ Hs)). destruct (m s) as [[a|e] s']; auto. Qed.
Lemma holds_post {A} J (m : M A) (Q Q' : A -> history -> Prop) E :
  holds J m Q' E -> (forall a hs, Q' a hs -> Q a hs) -> holds J m Q E.
Proof. intros Hm HQ. by eapply holds_conseq; [exact Hm|..]. Qed.
Lemma holds_pre {A} (J J' : history -> Prop) (m : M A) Q E :
  holds J' m Q E -> (forall hs, J hs -> J' hs) -> holds J m Q E.
Proof. intros Hm HQ. by eapply holds_conseq; [exact Hm|..]. Qed.
Lemma holds_ex {A X} (J : X -> history -> Prop) (m : M A) Q E :
  (forall x, holds (J x) m Q E) -> holds (fun hs => exists x, J x hs) m Q E.
Proof. intros H s [x Hx]. by apply (H x). Qed.
Lemma holds_pure {A} (P : Prop) J (m : M A) Q E : (P -> holds J m Q E) -> holds (fun hs => P /\ J hs) m Q E.
Proof. intros H s [HP Hs]. by apply H. Qed.
Lemma holds_lift {A} J (r : result AgentError A) E :
  (forall hs, J hs -> E hs) -> holds J (lift r) (fun a hs => r = Ok a /\ J hs) E.
Proof. intros HE s Hs. unfold lift. destruct r; auto. Qed.
Lemma holds_attempt {A} J (m : M A) (Q : A -> history -> Prop) E (E' : history -> Prop) :
  holds J m Q E -> holds J (attempt m) (fun r hs => match r with Ok a => Q a hs | Err _ => E hs end) E'.
Proof. intros Hm s Hs. specialize (Hm s Hs). unfold attempt. by destruct (m s) as [[a|e] s']. Qed.

(** An assertion that survives every entry of a kind survives what adds them. *)
Lemma holds_adds {A} (K : Happened -> Prop) (J : history -> Prop) (m : M A) :
  adds K m -> (forall h hs, K h -> J hs -> J (h :: hs)) -> holds J m (fun _ => J) J.
Proof.
  intros Hm Hkeep s Hs. destruct (Hm s) as (added & Heq & Hadded & _).
  assert (J (happened (m s).2)) as H.
  { rewrite Heq. clear Heq. induction Hadded as [|h added Hh Hadded IH]; [done|]. cbn. by apply Hkeep. }
  by destruct (m s) as [[a|e] s'].
Qed.
Lemma holds_ask (J : history -> Prop) q (Q : Ans q -> history -> Prop) E :
  (forall hs a, J hs -> Q a (Asked q a :: hs)) -> holds J (ask world q) Q E.
Proof. intros H s Hs. cbn. by apply H. Qed.
(** A fallible question *)
Lemma holds_try {A} (J : history -> Prop) q (conv : Ans q -> result AgentError A) (Q : A -> history -> Prop) E :
  (forall hs a, J hs -> match conv a with Ok x => Q x (Asked q a :: hs) | Err _ => E (Asked q a :: hs) end) ->
  holds J (ask world q ≫= fun a => lift (conv a)) Q E.
Proof.
  intros H s Hs. specialize (H (happened s) (world (happened s) q) Hs). unfold mbind, M_bind, ask, lift.
  by destruct (conv (world (happened s) q)).
Qed.

(** The last stream was [L]; requests have forbidden tools only if [f]; at most
    the rows of [U] are open; and so far all is warranted. *)
Definition at_ (L : option (StepRequest (Number := Number) * result AgentError (StreamAnswer (Number := Number)))) (f : bool)
    (U : gset Z) hs : Prop :=
  legit agent hs /\ latest hs = L /\ (forbidden hs = true -> f = true) /\ open_rows hs ⊆ U.

Lemma at_mono L f U U' hs : at_ L f U hs -> U ⊆ U' -> at_ L f U' hs.
Proof. clear world. intros (? & ? & ? & ?) ?. repeat split; [done..|]. set_solver. Qed.
Lemma at_legit L f U hs : at_ L f U hs -> legit agent hs.
Proof. by intros (? & ? & ? & ?). Qed.

(** Talk and receipts; and what can also close rows *)
Definition closes h : Prop :=
  is_talk h = true \/ (exists call_id resolution a, h = Asked (AskResolve call_id resolution) a).
Lemma talk_closes h : is_talk h = true -> closes h.
Proof. by left. Qed.
Lemma at_closes L f U h hs : closes h -> at_ L f U hs -> at_ L f U (h :: hs).
Proof.
  clear world. intros Hh (Hl & HL & Hf & HU). destruct Hh as [Hh|(id & res & a & ->)].
  - destruct h as [q a|o e|o i]; [|done..]. destruct q; try done; by repeat split.
  - repeat split; [done..|]. cbn. destruct a as [o|]; [|done]. destruct (is_resolved o); set_solver.
Qed.
Lemma at_talk L f U h hs : is_talk h = true -> at_ L f U hs -> at_ L f U (h :: hs).
Proof. intros. by apply at_closes; [left|]. Qed.
Lemma holds_talk {A} L f U (m : M A) : adds (fun h => is_talk h = true) m ->
  holds (at_ L f U) m (fun _ => at_ L f U) (at_ L f U).
Proof. intros Hm. eapply holds_adds; [exact Hm|]. intros h hs Hh Hat. by apply at_talk. Qed.

(** Talk before, and after, keeps a triple. *)
Lemma holds_talk_bind {A B} L f U (m : M A) (k : A -> M B) Q (E : history -> Prop) :
  adds (fun h => is_talk h = true) m -> (forall hs, at_ L f U hs -> E hs) ->
  (forall a, holds (at_ L f U) (k a) Q E) -> holds (at_ L f U) (m ≫= k) Q E.
Proof.
  intros Hm HE Hk. eapply holds_bind; [|exact Hk]. by eapply holds_conseq; [apply holds_talk, Hm|..].
Qed.

(** ** Server calls *)

Ltac ask_lift :=
  match goal with |- holds _ (ask _ ?q ≫= _) _ _ => apply (holds_try _ q (fun r => r)) end.

Implicit Types (U : gset Z) (f : bool)
  (L : option (StepRequest (Number := Number) * result AgentError (StreamAnswer (Number := Number)))).

(** Why a call may run now *)
Definition runnable L f U call : Prop :=
  (L = None /\ ag_durable_steer_lease agent = None) \/ asked_by agent L call /\ f = false /\ (is_sensitive agent call = true -> U ⊆ {[p_call_id call]}).

Lemma run_holds L f U call durable : runnable L f U call ->
  holds (at_ L f U) (ask_tool world call durable) (fun _ => at_ L f U) (at_ L f U).
Proof.
  intros Hr. unfold ask_tool. eapply holds_bind; [|intros ran; apply holds_talk; adds_all; by apply adds_gate_sends].
  apply (holds_ask _ (AskRun call durable)). intros hs a (Hl & HL & Hf & HU). repeat split; try done.
  destruct Hr as [[-> Hlease]|(Hc & -> & Hs)]; [by left|]. right. rewrite HL. repeat split; [done| |].
  - destruct (forbidden hs); [by specialize (Hf eq_refl)|done].
  - intros Hsens. specialize (Hs Hsens). set_solver.
Qed.

Lemma resolve_holds L f U call_id resolution :
  holds (at_ L f U) (ask world (AskResolve call_id resolution) ≫= lift)
    (fun outcome => at_ L f (if is_resolved outcome then U ∖ {[call_id]} else U)) (at_ L f U).
Proof.
  ask_lift. intros hs a (Hl & HL & Hf & HU). destruct a as [o|e].
  - repeat split; try done. cbn. destruct (is_resolved o); set_solver.
  - by repeat split.
Qed.

Lemma accept_holds L f U call :
  holds (at_ L f U) (accept_server_call world agent chat turn_id call)
    (fun found => at_ L f (match found with Some _ => U ∖ {[p_call_id call]} | None => {[p_call_id call]} ∪ U end))
    (at_ L f ({[p_call_id call]} ∪ U)).
Proof.
  unfold accept_server_call. apply holds_talk_bind; [by apply adds_now|intros; eapply at_mono; [done|set_solver]|].
  intros now. destruct (parse_args (p_args call)) as [arguments raw].
  eapply holds_bind with (R := fun accepted => at_ L f
    (match accepted with
     | Accepted => {[p_call_id call]} ∪ U
     | ExistingCall e => if call_is_terminal (c_status e) then U ∖ {[p_call_id call]} else {[p_call_id call]} ∪ U
     | _ => U
     end)).
  - ask_lift. intros hs a (Hl & HL & Hf & HU).
    destruct a as [[|e| |]|e]; repeat split; try done; cbn; try case_match; set_solver.
  - intros [|e| |]; [by apply holds_ret| |by apply holds_raise; intros; eapply at_mono; [done|set_solver]..].
    destruct (call_is_terminal (c_status e)); [|by apply holds_ret].
    destruct (recovered_output e); [by apply holds_ret|]. apply holds_raise. intros. eapply at_mono; [done|set_solver].
Qed.

Lemma record_holds L f U call o :
  holds (at_ L f U) (record_server_call_result world agent call o) (fun _ => at_ L f (U ∖ {[p_call_id call]})) (at_ L f U).
Proof.
  unfold record_server_call_result. apply holds_talk_bind; [by apply adds_publish_images|done|]. intros o'.
  apply holds_talk_bind; [by apply adds_announce|done|]. intros _.
  eapply holds_bind; [apply resolve_holds|]. intros outcome. cbn beta. destruct (is_resolved outcome); [by apply holds_ret|].
  by apply holds_raise.
Qed.

Lemma execute_holds L f U call recovered refusal :
  (recovered = None -> refusal = None -> runnable L f U call) ->
  holds (at_ L f U) (execute_server_call world agent call recovered refusal)
    (fun _ => at_ L f (match recovered with Some _ => U | None => U ∖ {[p_call_id call]} end)) (at_ L f U).
Proof.
  intros Hrun. unfold execute_server_call. destruct recovered as [o|].
  - apply holds_talk_bind; [by apply adds_announce|done|]. intros _. by apply holds_ret.
  - apply holds_talk_bind; [by apply adds_cancelled_now|done|]. intros stop.
    eapply holds_bind; [|intros o; apply record_holds].
    destruct stop; [by apply holds_ret|]. destruct refusal; [by apply holds_ret|].
    apply holds_talk_bind; [by apply adds_ensure_lease|done|]. intros _. apply run_holds. by apply Hrun.
Qed.

Lemma child_wait_holds L f U call : runnable L f U call ->
  holds (at_ L f U) (run_child_session_wait world agent chat turn_id call) (fun _ => at_ L f U)
    (at_ L f ({[p_call_id call]} ∪ U)).
Proof.
  intros Hrun. unfold run_child_session_wait.
  assert (Hup : forall hs, at_ L f U hs -> at_ L f ({[p_call_id call]} ∪ U) hs) by (intros; eapply at_mono; [done|set_solver]).
  apply holds_talk_bind; [by apply adds_ensure_lease|done|]. intros _.
  eapply holds_bind with (R := fun _ => at_ L f U).
  { eapply holds_conseq; [by apply run_holds|done|done|exact Hup]. }
  intros o. destruct (_ && _); [by apply holds_ret|].
  eapply holds_bind; [apply accept_holds|]. intros found. eapply holds_bind with (R := fun _ => at_ L f U); [|intros; by apply holds_ret].
  destruct found as [o'|].
  - eapply holds_conseq; [by apply (execute_holds L f (U ∖ {[p_call_id call]}) call (Some o') None)|done|..].
    + intros ? hs H. eapply at_mono; [exact H|set_solver].
    + intros hs H. eapply at_mono; [exact H|set_solver].
  - eapply holds_conseq; [apply record_holds|done| |done]. intros ? hs H. eapply at_mono; [exact H|]. set_solver.
Qed.

Lemma report_blocked_holds L f U call text :
  holds (at_ L f U) (persist_report_blocked_call world agent chat turn_id call text)
    (fun _ => at_ L f ({[p_call_id call]} ∪ U)) (at_ L f ({[p_call_id call]} ∪ U)).
Proof.
  unfold persist_report_blocked_call. set (V := {[p_call_id call]} ∪ U).
  eapply holds_pre; [|intros hs H; exact (at_mono _ _ _ V _ H ltac:(set_solver))].
  apply holds_talk_bind; [by apply adds_now|done|]. intros now. destruct (parse_args (p_args call)) as [arguments raw].
  eapply holds_bind with (R := fun _ => at_ L f V).
  - ask_lift. intros hs a (Hl & HL & Hf & HU).
    destruct a as [[|e| |]|e]; repeat split; try done; cbn; try case_match; set_solver.
  - intros accepted. eapply holds_bind with (R := fun _ => at_ L f V).
    + destruct accepted as [|e| |]; [by apply holds_ret| |by apply holds_raise..].
      repeat case_match; first [by apply holds_ret|by apply holds_raise].
    + intros needs. eapply holds_bind with (R := fun _ => at_ L f V); [|intros; apply holds_talk; by apply adds_send].
      destruct needs; [|by apply holds_ret]. eapply holds_bind; [apply resolve_holds|]. intros o. apply holds_ret.
      intros hs H. eapply at_mono; [exact H|]. case_match; set_solver.
Qed.

Lemma gate_holds L U request :
  holds (at_ L false U) (ask_gate world request) (fun _ => at_ L false U) (at_ L false U).
Proof.
  unfold ask_gate. eapply holds_bind; [|intros gated; apply holds_talk; adds_all; by apply adds_gate_sends].
  apply (holds_ask _ (AskGateSpawn request)). intros hs a (Hl & HL & Hf & HU).
  assert (forbidden hs = false) by (destruct (forbidden hs); [by specialize (Hf eq_refl)|done]). by repeat split.
Qed.
Lemma gate_gates L U request :
  holds (at_ L false U) (ask_gate world request)
    (fun gate hs => at_ L false U hs /\ match gate with Admit r => gated request r hs | Declined _ => True end) (at_ L false U).
Proof.
  unfold ask_gate.
  eapply holds_bind with (R := fun a hs => at_ L false U hs /\ Asked (AskGateSpawn request) a ∈ hs).
  { apply (holds_ask _ (AskGateSpawn request)). intros hs a (Hl & HL & Hf & HU).
    assert (forbidden hs = false) by (destruct (forbidden hs); [by specialize (Hf eq_refl)|done]).
    split; [by repeat split|by left]. }
  intros [gate sent]. eapply holds_bind with (R := fun _ hs => at_ L false U hs /\ Asked (AskGateSpawn request) (gate, sent) ∈ hs).
  { eapply holds_conseq; [eapply (holds_adds (fun h => is_talk h = true)
      (fun hs => at_ L false U hs /\ Asked (AskGateSpawn request) (gate, sent) ∈ hs)); [by apply adds_gate_sends|]|done|done|by intros hs []].
    intros h hs Hh [Hat Hin]. split; [by apply at_talk|by right]. }
  intros _. eapply holds_conseq;
    [apply (holds_lift (fun hs => at_ L false U hs /\ Asked (AskGateSpawn request) (gate, sent) ∈ hs) gate (at_ L false U)); by intros hs []
    |done| |done].
  intros g hs [-> [Hat Hin]]. split; [done|]. destruct g; [by exists sent|done].
Qed.

(** ** Recovery *)

Lemma rerun_holds f U call approval transcript : ag_durable_steer_lease agent = None ->
  holds (at_ None f U) (rerun_call world agent call approval transcript) (fun _ => at_ None f U) (at_ None f U).
Proof.
  intros Hlease. unfold rerun_call. apply holds_talk_bind; [by apply adds_cancelled_now|done|]. intros stop.
  eapply holds_bind with (R := fun _ => at_ None f U); [destruct stop; [by apply holds_ret|apply run_holds; by left]|].
  intros o. apply holds_talk_bind; [by apply adds_publish_images|done|]. intros o'.
  eapply holds_bind with (R := fun _ => at_ None f U).
  { eapply holds_post; [apply resolve_holds|]. intros r hs H. eapply at_mono; [exact H|]. case_match; set_solver. }
  intros r. destruct (negb (is_resolved r)); [by apply holds_raise|].
  apply holds_talk. adds_all; first [by apply adds_send | by apply adds_announce].
Qed.

Lemma resume_each_holds f U pending transcript :
  holds (at_ None f U) (resume_each world agent pending transcript) (fun _ => at_ None f U) (at_ None f U).
Proof.
  revert transcript. induction pending as [|stored pending IH]; intros transcript; cbn [resume_each]; [by apply holds_ret|].
  apply holds_talk_bind; [adds_all|done|]. intros approval.
  eapply holds_bind; [|intros t; apply IH]. destruct (ag_durable_steer_lease agent) eqn:E; cbn.
  - apply holds_talk. by apply adds_abandon.
  - by apply rerun_holds.
Qed.

Lemma resume_holds f U transcript :
  holds (at_ None f U) (resume_pending_server_calls world agent turn_id transcript) (fun _ => at_ None f U) (at_ None f U).
Proof.
  unfold resume_pending_server_calls. apply holds_talk_bind; [adds_all|done|]. intros calls.
  destruct (List.filter (is_left_pending turn_id) calls) as [|c l] eqn:E; [by apply holds_ret|]. rewrite <- E.
  apply holds_talk_bind; [by apply adds_count_bearing|done|]. intros n. destruct (_ && _); [by apply holds_raise|].
  apply resume_each_holds.
Qed.
End Rules.

Open Scope nat_scope.

Section Runs.
Context {Number : Type} `{HJ : SerdeJson Number} `{HT : !SerdeJsonText Number} `{PJ : PayloadJson}
  `{AS : !ArgumentSerde Number}.
Notation M := (AgentLoop.M (Number := Number)).
Notation history := (list (Happened (Number := Number))).
Context (world : history -> forall q : Ask (Number := Number), Ans q).
Context (agent : Agent Number) (chat : Chat) (execution : TurnExecution).
Context (sources : list TranscriptSourceBoundary) (user_texts : list (Z * string)).
Implicit Types (h : Happened (Number := Number)) (hs : history) (call : PendingCall) (U : gset Z) (f : bool)
  (L : option (StepRequest (Number := Number) * result AgentError (StreamAnswer (Number := Number)))).

(** ** The parts of the loop that only talk *)

#[local] Hint Resolve adds_set_used adds_set_model_steps adds_flush adds_cancelled_now adds_now adds_new_id
  adds_receive adds_drain adds_try_complete adds_candidate_message adds_persist adds_append_assistant adds_ensure_lease
  adds_revision adds_persist_assistant adds_apply_messages adds_apply_durable adds_apply_steers adds_announce adds_decline
  adds_publish_images adds_accept_receipt adds_count_bearing adds_abandon : agent.
Section Talk.
Context (K : Happened (Number := Number) -> Prop) (HK : forall h, is_talk h = true -> K h).

Lemma adds_finish_cancelled n partial : adds K (finish_cancelled execution n partial).
Proof. unfold finish_cancelled. adds_all. Qed.
Lemma adds_compact v prefix : (forall q a, K (Asked (AskCompaction q) a)) ->
  adds K (compact world agent chat execution sources user_texts v prefix).
Proof. intros HC. unfold compact. cbv zeta. apply adds_bind; [apply (adds_ask _ _ (AskCompaction _)), HC|]. adds_all. Qed.
#[local] Hint Resolve adds_finish_cancelled adds_compact : agent.
Lemma adds_prepare step level v : (forall q a, K (Asked (AskCompaction q) a)) ->
  adds K (prepare world agent chat execution sources user_texts step level v).
Proof. intros HC. unfold prepare. adds_all. Qed.
Lemma adds_read_stream answer : adds K (read_stream agent answer).
Proof. unfold read_stream. adds_all. Qed.
Lemma adds_cancelled_partial reading : adds K (cancelled_partial world chat execution reading).
Proof. unfold cancelled_partial. adds_all. Qed.
#[local] Hint Resolve adds_cancelled_partial : agent.
Lemma adds_on_cancelled step reading : adds K (on_cancelled world agent chat execution step reading).
Proof. unfold on_cancelled. adds_all. Qed.
Lemma adds_on_steered v : adds K (on_steered world agent chat execution v).
Proof. unfold on_steered. adds_all. Qed.
Lemma adds_decline_all reason calls : adds K (decline_all agent reason calls).
Proof. induction calls; cbn [decline_all]; adds_all. Qed.
#[local] Hint Resolve adds_decline_all : agent.
Lemma adds_admit_calls step reading : adds K (admit_calls agent step reading).
Proof. unfold admit_calls. adds_all. Qed.
Lemma adds_reject_mixed name reading calls v : adds K (reject_mixed agent name reading calls v).
Proof. unfold reject_mixed. adds_all. Qed.
Lemma adds_reject_blocked call reason reasoning v : adds K (reject_blocked agent call reason reasoning v).
Proof. unfold reject_blocked. adds_all. Qed.
Lemma adds_complete_terminal usage stop refusal empty : adds K (complete_terminal execution usage stop refusal empty).
Proof. unfold complete_terminal. adds_all. Qed.
#[local] Hint Resolve adds_complete_terminal : agent.
Lemma adds_finish_rounds step n v candidate output stop refusal revision :
  adds K (finish_rounds world agent chat execution step n v candidate output stop refusal revision).
Proof. induction n; cbn [finish_rounds]; unfold finish_round; adds_all. Qed.
#[local] Hint Resolve adds_finish_rounds : agent.
Lemma adds_finish_answer step v candidate stop refusal revision :
  adds K (finish_answer world agent chat execution step v candidate stop refusal revision).
Proof. unfold finish_answer. adds_all. Qed.
Lemma adds_decline_extras index taken name calls outputs : adds K (decline_extras agent index taken name calls outputs).
Proof. revert index outputs. induction calls; cbn [decline_extras]; adds_all. Qed.
Lemma adds_decline_into index call reason outputs : adds K (decline_into agent index call reason outputs).
Proof. unfold decline_into. adds_all. Qed.
#[local] Hint Resolve adds_decline_into : agent.
Lemma adds_queue_spawns index calls revision outputs : adds K (queue_spawns agent index calls revision outputs).
Proof. revert index outputs. induction calls; cbn [queue_spawns]; adds_all. Qed.
Lemma adds_take_client step index call revision v outputs :
  adds K (take_client world agent chat execution step index call revision v outputs).
Proof. unfold take_client. adds_all. Qed.
Lemma adds_take_agent_wait step index call revision outputs : adds K (take_agent_wait agent step index call revision outputs).
Proof. unfold take_agent_wait. adds_all. Qed.
End Talk.

#[local] Hint Resolve adds_finish_cancelled adds_read_stream adds_on_cancelled adds_on_steered adds_admit_calls
  adds_reject_mixed adds_reject_blocked adds_finish_answer adds_decline_extras adds_decline_into adds_queue_spawns adds_take_client
  adds_take_agent_wait : agent.

(** ** Admission *)

Notation legit := (AgentTheorems.legit agent).
Notation at_ := (AgentTheorems.at_ agent).
Notation asked_by := (AgentTheorems.asked_by agent).
Notation runnable := (AgentTheorems.runnable agent).
#[local] Hint Resolve at_legit : core.

Lemma holds_talk_legit {A} L f U (m : M A) : adds (fun h => is_talk h = true) m -> holds (at_ L f U) m (fun _ => at_ L f U) legit.
Proof. intros Hm. eapply holds_conseq; [by apply holds_talk|done|done|eauto]. Qed.
Lemma holds_bind_talk {A B} L f U (m : M A) (k : A -> M B) Q : adds (fun h => is_talk h = true) m ->
  (forall a, holds (at_ L f U) (k a) Q legit) -> holds (at_ L f U) (m ≫= k) Q legit.
Proof. intros Hm Hk. apply holds_talk_bind; [done|eauto|done]. Qed.

(** The plain calls no earlier attempt has settled *)
Definition owed (calls : list PendingCall) (recovered : gmap Z ToolOutput) : gset Z :=
  list_to_set (map p_call_id (List.filter (fun c => is_plain agent c && negb (is_some (recovered !! p_call_id c))) calls)).
Lemma elem_of_owed id calls recovered :
  id ∈ owed calls recovered
  <-> exists call, call ∈ calls /\ is_plain agent call = true /\ recovered !! id = None /\ p_call_id call = id.
Proof.
  unfold owed. rewrite elem_of_list_to_set, list_elem_of_In, in_map_iff. setoid_rewrite filter_In.
  setoid_rewrite <- list_elem_of_In. split.
  - intros (c & <- & Hc & [Hp Hr]%andb_true_iff). exists c. repeat split; try done. by destruct (recovered !! p_call_id c).
  - intros (c & Hc & Hp & Hr & <-). exists c. repeat split; try done. by rewrite Hp, Hr.
Qed.

Lemma admit_holds L f calls items recovered admitted :
  NoDup (map p_call_id calls) -> NoDup (host_indices items) ->
  (forall i c, i ∈ host_indices items -> calls !! i = Some c -> recovered !! p_call_id c = None) ->
  holds (at_ L f (owed calls recovered)) (admit_items world agent chat execution items calls recovered admitted)
    (fun got => at_ L f (owed calls got.1)) legit.
Proof.
  intros Hids. revert recovered admitted.
  induction items as [|[i|i frag|id b] items IH]; intros recovered admitted Hidx Hrec; cbn [admit_items].
  - by apply holds_ret.
  - cbn in Hidx, Hrec. apply NoDup_cons in Hidx as [Hi Hidx].
    destruct (calls !! i) as [call|] eqn:Hcall; [|apply IH; [done|]; intros j c Hj; apply Hrec; by right].
    destruct (is_plain agent call) eqn:Hp; [|apply IH; [done|]; intros j c Hj; apply Hrec; by right].
    eapply holds_bind; [eapply holds_conseq; [apply accept_holds|done|done|eauto]|].
    intros found. cbn beta. pose proof (Hrec i call ltac:(by left) Hcall) as Hnone.
    eapply holds_pre; [apply IH; [done|]|].
    + intros j c Hj Hc. assert (Hne : p_call_id c <> p_call_id call).
      { intros E. apply Hi. assert (i = j) as ->; [|done].
        eapply (NoDup_lookup _ _ _ (p_call_id call) Hids); rewrite list_lookup_fmap; [by rewrite Hcall|by rewrite Hc, <- E]. }
      pose proof (Hrec j c ltac:(by right) Hc). destruct found; [|done]. by rewrite lookup_insert_ne.
    + intros hs H. eapply at_mono; [exact H|]. destruct found as [o|].
      * intros id. rewrite elem_of_difference, not_elem_of_singleton, !elem_of_owed.
        intros [(c & ? & ? & ? & <-) Hne]. exists c. by rewrite lookup_insert_ne.
      * intros id. rewrite elem_of_union, elem_of_singleton. intros [->|?]; [|done]. apply elem_of_owed. exists call.
        repeat split; try done. by eapply list_elem_of_lookup_2.
  - by apply IH.
  - apply holds_bind_talk; [by apply adds_accept_receipt|]. intros fresh. by apply IH.
Qed.

Lemma adds_complete_receipt (K : Happened (Number := Number) -> Prop) id b : (forall h, closes h -> K h) ->
  adds K (complete_provider_executed_call world agent id b).
Proof.
  intros HK. assert (forall h, is_talk h = true -> K h) by (intros; apply HK; by left).
  unfold complete_provider_executed_call. adds_all. apply adds_ask. intros. apply HK. right. eauto.
Qed.
Lemma adds_assemble (K : Happened (Number := Number) -> Prop) items calls admitted seen : (forall h, closes h -> K h) ->
  adds K (assemble world agent items calls admitted seen).
Proof.
  intros HK. assert (forall h, is_talk h = true -> K h) by (intros; apply HK; by left).
  revert seen. induction items; intros seen; cbn [assemble]; adds_all; try by apply IHitems. by apply adds_complete_receipt.
Qed.
Lemma assemble_holds L f U items calls admitted seen :
  holds (at_ L f U) (assemble world agent items calls admitted seen) (fun _ => at_ L f U) legit.
Proof.
  eapply holds_conseq; [eapply (holds_adds closes); [by apply adds_assemble|]|done|done|eauto].
  intros h hs Hh Hat. by apply at_closes.
Qed.

(** ** A batch *)

(** The rows the jobs will close *)
Definition todo (jobs : list Job) : gset Z :=
  list_to_set (map (fun j => p_call_id (jb_call j)) (List.filter (fun j => negb (is_some (jb_recovered j))) jobs)).
Lemma elem_of_todo id jobs :
  id ∈ todo jobs <-> exists job, job ∈ jobs /\ jb_recovered job = None /\ p_call_id (jb_call job) = id.
Proof.
  unfold todo. rewrite elem_of_list_to_set, list_elem_of_In, in_map_iff. setoid_rewrite filter_In.
  setoid_rewrite <- list_elem_of_In. split.
  - intros (j & <- & Hj & Hr). exists j. repeat split; try done. by destruct (jb_recovered j).
  - intros (j & Hj & Hr & <-). exists j. by rewrite Hr.
Qed.
Lemma todo_cons job jobs :
  todo (job :: jobs) = (match jb_recovered job with Some _ => ∅ | None => {[p_call_id (jb_call job)]} end) ∪ todo jobs.
Proof. unfold todo. cbn. destruct (jb_recovered job); cbn; [by rewrite union_empty_l_L|done]. Qed.
Lemma todo_app jobs jobs' : todo (jobs ++ jobs') = todo jobs ∪ todo jobs'.
Proof. unfold todo. by rewrite List.filter_app, map_app, list_to_set_app_L. Qed.

Lemma owed_todo index calls refusals recovered : length refusals = length calls ->
  owed calls recovered ⊆ todo (plain_jobs agent index calls refusals recovered).
Proof.
  revert index refusals recovered. induction calls as [|call calls IH]; intros index [|refusal refusals] recovered Hlen; try done.
  cbn in Hlen. injection Hlen as Hlen. intros id (c & Hc & Hp & Hr & <-)%elem_of_owed. cbn [plain_jobs].
  apply elem_of_cons in Hc as [->|Hc].
  - rewrite Hp, todo_cons. cbn. rewrite Hr. set_solver.
  - destruct (is_plain agent call).
    + rewrite todo_cons. apply elem_of_union_r, (IH (S index)); [done|]. apply elem_of_owed. exists c. repeat split; try done.
      by rewrite lookup_delete, Hr; case_decide.
    + apply IH; [done|]. apply elem_of_owed. by exists c.
Qed.
Lemma plain_jobs_calls index calls refusals recovered :
  Forall (fun j => jb_call j ∈ calls /\ is_plain agent (jb_call j) = true) (plain_jobs agent index calls refusals recovered).
Proof.
  revert index refusals recovered. induction calls as [|call calls IH]; intros index [|refusal refusals] recovered; cbn; try done.
  destruct (is_plain agent call) eqn:Hp.
  - constructor; [split; [by left|done]|]. eapply Forall_impl; [apply IH|]. intros j [? ?]. split; [by right|done].
  - eapply Forall_impl; [apply IH|]. intros j [? ?]. split; [by right|done].
Qed.

Lemma omap_seq_lookup {A} (l : list A) : omap (fun i => l !! i) (seq 0 (length l)) = l.
Proof.
  enough (H : forall pre, omap (fun i => (pre ++ l) !! i) (seq (length pre) (length l)) = l) by exact (H []).
  induction l as [|x l IH]; intros pre; [done|]. cbn. rewrite lookup_app_r, Nat.sub_diag by done. cbn. f_equal.
  specialize (IH (pre ++ [x])). rewrite length_app, Nat.add_1_r, <- app_assoc in IH. exact IH.
Qed.
(** Overlapping calls complete in some order, each once. *)
Lemma completion_order_perm order (jobs : list Job) : completion_order order jobs ≡ₚ jobs.
Proof.
  unfold completion_order. destruct (bool_decide (NoDup order)) eqn:Hnd; [|done]. destruct (length order =? length jobs) eqn:Hlen; [|done].
  cbn. destruct (forallb _ order) eqn:Hall; [|done]. apply bool_decide_eq_true in Hnd. apply Nat.eqb_eq in Hlen.
  assert (Hperm : order ≡ₚ seq 0 (length jobs)).
  { apply submseteq_length_Permutation; [|by rewrite length_seq, Hlen]. apply NoDup_submseteq; [done|]. intros i Hi.
    rewrite forallb_forall in Hall. apply list_elem_of_In, Hall, Nat.ltb_lt in Hi. apply elem_of_seq. lia. }
  rewrite Hperm. by rewrite omap_seq_lookup.
Qed.
Lemma todo_perm jobs jobs' : jobs ≡ₚ jobs' -> todo jobs = todo jobs'.
Proof. intros H. apply leibniz_equiv. intros id. rewrite !elem_of_todo. by setoid_rewrite H. Qed.

(** What the step may run *)
Definition may_run L f (calls : list PendingCall) : Prop := f = false /\ forall call, call ∈ calls -> asked_by L call.
Lemma may_run_plain L f U calls call : may_run L f calls -> call ∈ calls -> is_sensitive agent call = false -> runnable L f U call.
Proof. intros [-> H] Hc Hs. right. split; [by apply H|]. split; [done|]. congruence. Qed.
Lemma plain_not_sensitive call : is_plain agent call = true -> is_sensitive agent call = false.
Proof. unfold is_plain, is_sensitive. by destruct (call_isolation agent call), (call_is_sensitive agent call). Qed.

(** Jobs that may run whatever is open *)
Definition jobs_ok L f (jobs : list Job) : Prop := Forall (fun j => forall U, runnable L f U (jb_call j)) jobs.
Lemma plain_jobs_ok L f index calls refusals recovered :
  may_run L f calls -> jobs_ok L f (plain_jobs agent index calls refusals recovered).
Proof.
  intros H. eapply Forall_impl; [apply plain_jobs_calls|]. intros j [Hc Hp] U. eapply may_run_plain; [done..|].
  by apply plain_not_sensitive.
Qed.

Lemma job_holds L f U job : (forall U, runnable L f U (jb_call job)) ->
  holds (at_ L f U) (run_job world agent job) (fun _ => at_ L f (U ∖ todo [job])) (at_ L f U).
Proof.
  intros H. unfold run_job. eapply holds_post; [by apply execute_holds|]. intros o hs Hat. eapply at_mono; [exact Hat|].
  rewrite todo_cons. destruct (jb_recovered job); set_solver.
Qed.

Definition all_ok (results : list (nat * result AgentError ToolOutput)) : bool :=
  forallb (fun r => match r.2 with Ok _ => true | Err _ => false end) results.
Lemma place_all_ok results outputs outputs' : place_results results outputs = Ok outputs' -> all_ok results = true.
Proof. revert outputs. induction results as [|[i [o|e]] results IH]; intros outputs; cbn; [done|by apply IH|done]. Qed.

Lemma overlapped_holds L f U jobs : jobs_ok L f jobs ->
  holds (at_ L f U) (run_overlapped world agent jobs)
    (fun results => at_ L f (if all_ok results then U ∖ todo jobs else U)) legit.
Proof.
  intros Hjobs. revert U. induction Hjobs as [|job jobs Hjob Hjobs IH]; intros U; cbn [run_overlapped].
  - apply holds_ret. intros hs H. eapply at_mono; [exact H|]. cbn. set_solver.
  - eapply holds_bind; [eapply holds_attempt; by apply job_holds|]. intros [o|e].
    + eapply holds_bind; [apply IH|]. intros results. apply holds_ret. intros hs H. eapply at_mono; [exact H|].
      rewrite (todo_app [job] jobs : todo (job :: jobs) = _). unfold all_ok. cbn [forallb snd andb]. destruct (forallb _ results); set_solver.
    + eapply holds_bind; [apply IH|]. intros results. apply holds_ret. intros hs H. cbn. eapply at_mono; [exact H|].
      unfold all_ok. destruct (forallb _ results); set_solver.
Qed.

(** What a batch comes to: all its rows closed, or the turn cancelled *)
Definition batched L f U (r : list (option ToolOutput) + AgentTurnOutcome (Number := Number)) hs : Prop :=
  match r with inl _ => at_ L f U hs | inr o => legit hs /\ exists partial usage n, o = OutCancelled partial usage n end.

Lemma finish_cancelled_holds L f U n partial :
  holds (at_ L f U) (finish_cancelled execution n partial)
    (fun o hs => at_ L f U hs /\ exists usage, o = OutCancelled partial usage n) legit.
Proof.
  unfold finish_cancelled. apply holds_bind_talk; [by apply adds_total_usage|]. intros usage.
  apply holds_bind_talk; [adds_all|]. intros _. apply holds_ret. eauto.
Qed.
Lemma stop_holds L f U U' step outputs k :
  (forall outputs, holds (at_ L f U) (k outputs) (batched L f U') legit) ->
  holds (at_ L f U) (stop_if_cancelled world agent execution step outputs k) (batched L f U') legit.
Proof.
  intros Hk. unfold stop_if_cancelled. apply holds_bind_talk; [by apply adds_cancelled_now|]. intros stop.
  destruct stop; [|apply Hk]. eapply holds_bind; [apply finish_cancelled_holds|]. intros o. apply holds_ret.
  intros hs [Hat [usage ->]]. split; eauto.
Qed.

Lemma sequential_holds L f U step jobs outputs : jobs_ok L f jobs ->
  holds (at_ L f U) (run_sequential world agent execution step jobs outputs) (batched L f (U ∖ todo jobs)) legit.
Proof.
  intros Hjobs. revert U outputs. induction Hjobs as [|job jobs Hjob Hjobs IH]; intros U outputs; cbn [run_sequential].
  - apply holds_ret. intros hs H. eapply at_mono; [exact H|set_solver].
  - eapply holds_bind; [eapply holds_conseq; [by apply job_holds|done|done|eauto]|]. intros o. cbn beta. apply stop_holds.
    intros outputs'. eapply holds_post; [apply IH|]. intros [outs|c] hs H; [|exact H]. eapply at_mono; [exact H|].
    rewrite (todo_app [job] jobs : todo (job :: jobs) = _). set_solver.
Qed.

Lemma sensitive_holds L f step index calls outputs : may_run L f calls ->
  holds (at_ L f ∅) (run_sensitive world agent chat execution step index calls outputs) (batched L f ∅) legit.
Proof.
  intros [-> Hcalls]. revert index outputs. induction calls as [|call calls IH]; intros index outputs; cbn [run_sensitive].
  { by apply holds_ret. }
  specialize (IH ltac:(intros; apply Hcalls; by right)). destruct (is_sensitive agent call) eqn:Hs; [|apply IH].
  eapply holds_bind; [eapply holds_conseq; [apply accept_holds|done|done|eauto]|]. intros found. cbn beta.
  eapply holds_bind with (R := fun _ => at_ L false ∅).
  { destruct found as [o|].
    - eapply holds_conseq; [by apply (execute_holds world agent L false ∅ call (Some o) None)| |done|eauto].
      intros hs H. eapply at_mono; [exact H|set_solver].
    - eapply holds_conseq; [apply (execute_holds world agent L false {[p_call_id call]} call None None)| | |eauto].
      + intros _ _. right. split; [apply Hcalls; by left|]. by split.
      + intros hs H. eapply at_mono; [exact H|set_solver].
      + intros ? hs H. eapply at_mono; [exact H|set_solver]. }
  intros o. by apply stop_holds.
Qed.

Lemma batch_holds L f step calls refusals recovered : may_run L f calls -> length refusals = length calls ->
  holds (at_ L f (owed calls recovered)) (run_batch world agent chat execution step calls refusals recovered) (batched L f ∅) legit.
Proof.
  intros Hcalls Hlen. unfold run_batch. cbv zeta. set (jobs := plain_jobs agent 0 calls refusals recovered).
  set (U := owed calls recovered). assert (HU : U ⊆ todo jobs) by by apply owed_todo.
  assert (Hjobs : jobs_ok L f jobs) by by apply plain_jobs_ok.
  set (n := parallel_batch_len agent calls).
  assert (Hsplit : todo jobs = todo (take n jobs) ∪ todo (drop n jobs)) by by rewrite <- todo_app, take_drop.
  assert (Hparts : jobs_ok L f (take n jobs) /\ jobs_ok L f (drop n jobs)).
  { apply Forall_app. by rewrite take_drop. }
  destruct Hparts as [Htake Hdrop].
  eapply holds_bind with (R := batched L f (U ∖ todo (take n jobs))).
  { destruct n as [|n']; [apply holds_ret; intros hs H; eapply at_mono; [exact H|set_solver]|]. set (n := S n') in *.
    apply holds_bind_talk; [adds_all|]. intros order.
    eapply holds_bind; [apply overlapped_holds; unfold jobs_ok; by rewrite completion_order_perm|].
    intros results. cbn beta. rewrite (todo_perm _ _ (completion_order_perm order (take n jobs))).
    eapply holds_bind; [apply holds_lift; eauto|]. intros outputs. apply holds_pure. intros Hok.
    rewrite (place_all_ok _ _ _ Hok). apply stop_holds. intros outputs'. by apply holds_ret. }
  intros [outputs|cancelled]; [|by apply holds_ret].
  eapply holds_bind; [by apply sequential_holds|]. intros [outputs'|cancelled]; [|by apply holds_ret].
  eapply holds_pre; [by apply sensitive_holds|]. intros hs H. eapply at_mono; [exact H|]. set_solver.
Qed.

(** ** The call that stands alone *)

(** [call] leaves the loop as [request]. *)
Definition leaves_as (request : ClientToolCallRequest) call : Prop :=
  h_id request = p_call_id call /\ h_provider_id request = p_provider_id call
  /\ h_name request = p_name call.
(** [call] asks for the child of [request]. *)
Definition spawns_as (request : SandboxAgentSpawnRequest Number) call : Prop :=
  sp_call_id request = p_call_id call /\ sp_provider_id request = p_provider_id call
  /\ parse_tool_args (p_args call) = Some (sp_arguments request)
  /\ sandbox_spawn_task agent (p_name call) (sp_arguments request) = Some (sp_task request).
(** A turn hands out [request], with [remaining] behind it: either all of them
    are the last answer's calls, the first as the gate let it through, or they
    were carried over a park, and the first was gated, now or then. *)
Definition spawn_left request remaining hs : Prop :=
  (exists asked, gated asked request hs
     /\ Forall (fun r => exists call, asked_by (latest hs) call /\ spawns_as r call) (asked :: remaining))
  \/ latest hs = None /\ exists before asked, ag_pending_sandbox_spawns agent = before ++ asked :: remaining
       /\ (gated asked request hs \/ request = asked /\ sp_approval_gated asked = true).
(** What a turn leaves behind when it returns *)
Definition returned (o : AgentTurnOutcome (Number := Number)) hs : Prop :=
  legit hs /\
  match o with
  | OutClientToolCall request _ _ _ _ | OutChildSessionWait request _ _ _ _ _ =>
      open_rows hs ⊆ ∅ /\ exists call, asked_by (latest hs) call /\ leaves_as request call
  | OutWaitForAgents request _ _ _ => open_rows hs ⊆ ∅ /\ exists call, asked_by (latest hs) call /\ fw_call_id request = p_call_id call
  | OutSandboxAgentSpawn request remaining _ _ _ => open_rows hs ⊆ ∅ /\ spawn_left request remaining hs
  | _ => True
  end.
Definition taken L f (r : list (option ToolOutput) + AgentTurnOutcome (Number := Number)) hs : Prop :=
  match r with inl _ => at_ L f ∅ hs | inr o => returned o hs end.
Lemma batched_taken L f r hs : batched L f ∅ r hs -> taken L f r hs.
Proof. destruct r; [done|]. by intros (? & ? & ? & ? & ->). Qed.
Definition flowed L f (r : Flow (Number := Number)) hs : Prop :=
  match r with Continue _ => at_ L f ∅ hs | Return o => returned o hs end.

Lemma decline_into_holds L f index call reason outputs :
  holds (at_ L f ∅) (decline_into agent index call reason outputs) (taken L f) legit.
Proof. unfold decline_into. apply holds_bind_talk; [by apply adds_decline|]. intros o. by apply holds_ret. Qed.

Lemma client_checkpoint_leaves call resolved revision request r :
  client_checkpoint agent chat (ex_turn_id execution) call resolved revision = Ok (request, r) -> leaves_as request call.
Proof.
  unfold client_checkpoint. intros H. repeat (case_match; try discriminate); simplify_eq; by repeat split.
Qed.
Lemma child_session_checkpoint_leaves call revision request ids r :
  child_session_wait_checkpoint chat (ex_turn_id execution) call revision = Ok (request, ids, r) -> leaves_as request call.
Proof.
  unfold child_session_wait_checkpoint. intros H. repeat (case_match; try discriminate); simplify_eq; by repeat split.
Qed.
Lemma agent_wait_checkpoint_leaves call revision request r :
  agent_wait_checkpoint agent call revision = Ok (request, r) -> fw_call_id request = p_call_id call.
Proof. unfold agent_wait_checkpoint. intros H. repeat (case_match; try discriminate); by simplify_eq. Qed.

Lemma take_client_holds L f step index call revision v outputs : asked_by L call ->
  holds (at_ L f ∅) (take_client world agent chat execution step index call revision v outputs) (taken L f) legit.
Proof.
  intros Hasked. unfold take_client. rewrite ?bind_assoc.
  eapply holds_bind with (R := fun _ => at_ L f ∅); [apply holds_talk_legit; adds_all|]. intros resolution.
  assert (H : forall resolved, holds (at_ L f ∅)
    (match client_checkpoint agent chat (ex_turn_id execution) call resolved revision with
     | Ok (request, revision) => total_usage ≫= fun usage => mret (inr (OutClientToolCall request (v_search v) usage revision (steps_used agent step)))
     | Err reason => decline_into agent index call reason outputs
     end) (taken L f) legit).
  { intros resolved. destruct (client_checkpoint _ _ _ _ _ _) as [[request r]|reason] eqn:E; [|apply decline_into_holds].
    apply holds_bind_talk; [adds_all|]. intros usage. apply holds_ret. intros hs (Hl & HL & _ & HU).
    split; [done|]. split; [done|]. exists call. rewrite HL. split; [done|]. by eapply client_checkpoint_leaves. }
  destruct resolution; [apply H..|apply decline_into_holds].
Qed.
Lemma take_agent_wait_holds L f step index call revision outputs : asked_by L call ->
  holds (at_ L f ∅) (take_agent_wait agent step index call revision outputs) (taken L f) legit.
Proof.
  intros Hasked. unfold take_agent_wait.
  destruct (agent_wait_checkpoint _ _ _) as [[request r]|reason] eqn:E; [|apply decline_into_holds].
  apply holds_bind_talk; [adds_all|]. intros usage. apply holds_ret. intros hs (Hl & HL & _ & HU).
  split; [done|]. split; [done|]. exists call. rewrite HL. split; [done|]. by eapply agent_wait_checkpoint_leaves.
Qed.
Lemma take_child_wait_holds L step index call revision v outputs : asked_by L call -> is_sensitive agent call = false ->
  holds (at_ L false ∅) (take_child_wait world agent chat execution step index call revision v outputs) (taken L false) legit.
Proof.
  intros Hasked Hs. unfold take_child_wait. eapply holds_bind with (R := taken L false).
  - destruct (child_session_wait_checkpoint _ _ _ _) as [[[request ids] r]|reason] eqn:E; [|apply decline_into_holds].
    eapply holds_bind; [eapply holds_conseq; [apply child_wait_holds|done|done|eauto]|].
    { right. split; [done|]. split; [done|]. congruence. }
    intros [o|]; [by apply holds_ret|]. apply holds_bind_talk; [adds_all|]. intros usage. apply holds_ret.
    intros hs (Hl & HL & _ & HU). split; [done|]. split; [done|]. exists call. rewrite HL. split; [done|].
    by eapply child_session_checkpoint_leaves.
  - intros [outputs'|o]; [|by apply holds_ret]. eapply holds_post; [apply stop_holds; intros; by apply holds_ret|].
    apply batched_taken.
Qed.

Lemma sandbox_checkpoint_spawns call revision request r :
  sandbox_checkpoint agent call revision = Ok (request, r) -> spawns_as request call.
Proof.
  unfold sandbox_checkpoint. destruct (parse_tool_args _) as [arguments|] eqn:Hp; [|done].
  destruct (sandbox_spawn_task _ _ _) as [task|] eqn:Ht; [|done]. destruct revision; [|done]. intros [= <- <-]. by repeat split.
Qed.
Lemma queue_spawns_holds L f U index calls revision outputs :
  holds (at_ L f U) (queue_spawns agent index calls revision outputs)
    (fun r hs => Forall (fun q => exists call, call ∈ calls /\ spawns_as q.2 call) r.1 /\ at_ L f U hs) legit.
Proof.
  revert index outputs. induction calls as [|call calls IH]; intros index outputs; cbn [queue_spawns]; [by apply holds_ret|].
  assert (Hmore : forall index outputs, holds (at_ L f U) (queue_spawns agent index calls revision outputs)
    (fun r hs => Forall (fun q => exists c, c ∈ call :: calls /\ spawns_as q.2 c) r.1 /\ at_ L f U hs) legit).
  { intros i o. eapply holds_post; [apply IH|]. intros r hs [Hr Hat]. split; [|done].
    eapply Forall_impl; [exact Hr|]. intros q (c & Hc & Hq). exists c. split; [by right|done]. }
  destruct (bool_decide _); [|apply Hmore]. destruct (sandbox_checkpoint _ _ _) as [[request r]|reason] eqn:E.
  - eapply holds_bind; [apply Hmore|]. intros [queued outputs']. apply holds_ret. intros hs [Hq Hat]. split; [|done].
    constructor; [|done]. exists call. split; [by left|]. by eapply sandbox_checkpoint_spawns.
  - apply holds_bind_talk; [by apply adds_decline|]. intros o. apply Hmore.
Qed.
Lemma gate_queued_holds L (P : SandboxAgentSpawnRequest Number -> Prop) queued outputs :
  Forall (fun q => P q.2) queued ->
  holds (at_ L false ∅) (gate_queued world queued outputs)
    (fun r hs => at_ L false ∅ hs /\ match r.1 with
                 | Some (request, remaining) => exists asked, gated asked request hs /\ Forall P (asked :: remaining)
                 | None => True
                 end) legit.
Proof.
  revert outputs. induction queued as [|[slot request] queued IH]; intros outputs Hq; cbn [gate_queued]; [by apply holds_ret|].
  apply Forall_cons in Hq as [Hr Hq].
  eapply holds_bind; [eapply holds_conseq; [apply gate_gates|done|done|eauto]|]. intros [r|o].
  - apply holds_ret. intros hs [Hat Hg]. split; [done|]. exists request. split; [done|]. constructor; [done|].
    by apply Forall_map.
  - eapply holds_pre; [by apply IH|]. by intros hs [].
Qed.
Lemma take_spawn_holds L step index call calls revision outputs :
  asked_by L call -> (forall c, c ∈ calls -> asked_by L c) ->
  holds (at_ L false ∅) (take_spawn world agent step index call calls revision outputs) (taken L false) legit.
Proof.
  intros Hc Hcalls. unfold take_spawn. destruct (sandbox_checkpoint _ _ _) as [[request r]|reason] eqn:E; [|apply decline_into_holds].
  eapply holds_bind; [apply queue_spawns_holds|]. intros [queued outputs']. apply holds_pure. intros Hq.
  eapply holds_bind; [apply (gate_queued_holds L (fun r => exists call, asked_by L call /\ spawns_as r call))|].
  { constructor; [exists call; split; [done|by eapply sandbox_checkpoint_spawns]|].
    eapply Forall_impl; [exact Hq|]. intros q (c & Hin & Hs). exists c. split; [|done]. apply Hcalls.
    rewrite <- (take_drop (S index) calls). apply elem_of_app. by right. }
  intros [[[request' remaining]|] outputs'']; [|apply holds_ret; by intros hs []].
  eapply holds_pre with (J' := fun hs => exists asked, at_ L false ∅ hs /\ gated asked request' hs
    /\ Forall (fun r => exists call, asked_by L call /\ spawns_as r call) (asked :: remaining)); [|naive_solver].
  intros s (asked & (Hl & HL & _ & HU) & Hg & Hall). split; [done|]. split; [done|]. left. exists asked.
  by rewrite HL.
Qed.
Lemma isolated_not_sensitive call k : call_isolation agent call = Some k -> is_sensitive agent call = false.
Proof. unfold is_sensitive. by intros ->. Qed.
Lemma take_isolated_holds L step index call calls revision v outputs :
  asked_by L call -> (forall c, c ∈ calls -> asked_by L c) ->
  holds (at_ L false ∅) (take_isolated world agent chat execution step index call calls revision v outputs) (taken L false) legit.
Proof.
  intros Hasked Hcalls. unfold take_isolated. cbv zeta.
  do 2 (match goal with |- holds _ (if ?b then _ else _) _ _ => destruct b end; [apply decline_into_holds|]).
  destruct (call_isolation agent call) as [[]|] eqn:E.
  - by apply take_client_holds.
  - by apply take_spawn_holds.
  - by apply take_agent_wait_holds.
  - apply take_child_wait_holds; [done|]. by eapply isolated_not_sensitive.
  - by apply holds_ret.
Qed.

(** ** A step *)

Lemma run_calls_holds L f step calls refusals recovered revision v :
  may_run L f calls -> length refusals = length calls ->
  holds (at_ L f (owed calls recovered)) (run_calls world agent chat execution step calls refusals recovered revision v)
    (flowed L f) legit.
Proof.
  intros Hcalls Hlen. pose proof Hcalls as [-> Hasked]. unfold run_calls.
  eapply holds_bind; [by apply batch_holds|]. intros [outputs|o]; [|apply holds_ret; intros hs; apply batched_taken].
  cbv zeta. eapply holds_bind with (R := taken L false).
  - destruct (isolated_at agent calls) as [index|]; [|by apply holds_ret].
    destruct (calls !! index) as [call|] eqn:Hcall; [|by apply holds_ret].
    apply holds_bind_talk; [by apply adds_decline_extras|]. intros outputs'. apply take_isolated_holds, Hasked.
    apply Hasked. by eapply list_elem_of_lookup_2.
  - intros [outputs'|o]; [|by apply holds_ret]. apply holds_bind_talk; [by apply adds_apply_steers|]. intros [steered transcript].
    by apply holds_ret.
Qed.

(** The stream a reading was read from *)
Definition read_by L (reading : Reading Number) (ended : StreamEnd) : Prop :=
  exists request answer usage, L = Some (request, Ok answer)
  /\ read_polls (sn_first answer) (provider_executed_call_is_admissible agent) (reading_new usage) (sn_polls answer)
     = (reading, Some ended).
Lemma read_by_ok L reading ended : read_by L reading ended -> exists first, read_ok first reading.
Proof.
  intros (request & answer & usage & _ & H). exists (sn_first answer).
  pose proof (read_polls_ok (sn_first answer) (provider_executed_call_is_admissible agent) (reading_new usage) (sn_polls answer)
    (reading_new_ok _ _)) as Hok. by rewrite H in Hok.
Qed.

Lemma flowed_talk {A} L f U (m : M A) (k : A -> Flow) :
  adds (fun h => is_talk h = true) m -> (forall a hs, at_ L f U hs -> flowed L f (k a) hs) ->
  holds (at_ L f U) (m ≫= fun a => mret (k a)) (flowed L f) legit.
Proof. intros Hm Hk. apply holds_bind_talk; [done|]. intros a. apply holds_ret. apply Hk. Qed.

Lemma finish_rounds_holds L f step n v candidate output stop refusal revision :
  holds (at_ L f ∅) (finish_rounds world agent chat execution step n v candidate output stop refusal revision)
    (fun flow hs => match flow with Some flow => flowed L f flow hs | None => at_ L f ∅ hs end) legit.
Proof.
  revert v. induction n as [|n IH]; intros v; cbn [finish_rounds]; [by apply holds_ret|]. unfold finish_round. cbv zeta.
  apply holds_bind_talk; [by apply adds_cancelled_now|]. intros stopped. destruct stopped.
  { eapply holds_bind; [apply finish_cancelled_holds|]. intros o. apply holds_ret. intros hs [Hat [usage ->]]. split; eauto. }
  apply holds_bind_talk; [by apply adds_apply_steers|]. intros [steered transcript]. destruct steered; [by apply holds_ret|].
  apply holds_bind_talk; [adds_all|]. intros usage. cbv zeta.
  assert (Hdone : forall hs, at_ L f ∅ hs -> flowed L f (Return (OutCompleted output usage stop refusal revision (steps_used agent step))) hs)
    by (intros; split; eauto).
  destruct (is_some _); [by apply holds_ret|].
  apply holds_bind_talk; [apply adds_try_complete; [by intros|]; by apply adds_complete_terminal|].
  intros done_. destruct done_; [|apply IH]. case_match; [apply holds_raise; eauto|by apply holds_ret].
Qed.
Lemma finish_answer_holds L f step v candidate stop refusal revision :
  holds (at_ L f ∅) (finish_answer world agent chat execution step v candidate stop refusal revision) (flowed L f) legit.
Proof.
  unfold finish_answer. apply holds_bind_talk; [by apply adds_candidate_message|]. intros output.
  apply holds_bind_talk; [adds_all; by apply adds_append_assistant|]. intros _.
  eapply holds_bind; [apply finish_rounds_holds|]. intros [flow|]; [by apply holds_ret|apply holds_raise; eauto].
Qed.

(** The calls [admit_calls] lets through *)
Definition let_through (step : nat) (reading : Reading Number) (calls : list PendingCall) : Prop :=
  calls = [] \/ calls = rd_calls reading /\ rd_stop_reason reading <> StopRefusal /\ wrap_up agent step = false.
Lemma admit_calls_holds L f U step reading :
  holds (at_ L f U) (admit_calls agent step reading)
    (fun r hs => match r with Some calls => let_through step reading calls | None => True end /\ at_ L f U hs) legit.
Proof.
  unfold admit_calls. cbv zeta.
  eapply holds_bind with (R := fun calls hs => (calls = [] \/ calls = rd_calls reading /\ rd_stop_reason reading <> StopRefusal)
    /\ at_ L f U hs).
  - case_bool_decide as Hr; [|apply holds_ret; eauto]. apply holds_bind_talk; [adds_all|]. intros _. apply holds_ret. eauto.
  - intros calls. apply holds_pure. intros Hcalls. destruct calls as [|call calls]; [apply holds_ret; intros; split; [by left|done]|].
    destruct Hcalls as [?|[Hcalls Hr]]; [done|]. destruct (wrap_up agent step) eqn:Hw; cbn [negb].
    + apply holds_bind_talk; [adds_all|]. intros _. apply holds_bind_talk; [adds_all; by apply adds_decline_all|]. intros _.
      case_match; [apply holds_bind_talk; [adds_all|]; intros _; by apply holds_ret|]. apply holds_ret. intros; split; [by left|done].
    + apply holds_ret. intros; split; [|done]. right. by repeat split.
Qed.
Lemma let_through_runs L step reading calls : read_by L reading Done -> let_through step reading calls -> calls <> [] ->
  may_run L (wrap_up agent step) calls.
Proof.
  intros (request & answer & usage & HL & Hread) [?|(-> & Hr & Hw)] Hne; [done|]. split; [done|]. intros call Hcall.
  by exists request, answer, usage, reading.
Qed.

Lemma act_holds L step reading calls candidate revision v : read_by L reading Done -> let_through step reading calls ->
  holds (at_ L (wrap_up agent step) ∅) (act world agent chat execution step reading calls candidate revision v)
    (flowed L (wrap_up agent step)) legit.
Proof.
  intros Hread Hcalls. set (f := wrap_up agent step) in *. unfold act. cbv zeta.
  pose proof (repeat_refusals_length (v_streak v) (map (streak_key agent) calls)) as Hlen. rewrite length_map in Hlen.
  destruct (repeat_refusals _ _) as [streak refusals]. cbn [snd] in Hlen.
  do 2 (apply holds_bind_talk; [adds_all; first [by apply adds_ensure_lease|by apply adds_persist_assistant]|]; intros _).
  destruct (read_by_ok _ _ _ Hread) as [first Hok].
  eapply holds_bind with (R := fun got => at_ L f (owed calls got.1)).
  { destruct (decide (calls = [])) as [->|Hne].
    - clear Hcalls Hlen. generalize (∅ : gmap Z ToolOutput), ([] : list Z).
      induction (rd_items reading) as [|[i|i frag|id b] items IH]; intros rec admitted; cbn [admit_items];
        [by apply holds_ret|apply IH..|].
      apply holds_bind_talk; [by apply adds_accept_receipt|]. intros fresh. apply IH.
    - destruct Hcalls as [?|(-> & _ & _)]; [done|]. eapply holds_pre; [apply admit_holds; [apply Hok| |by intros]|].
      + rewrite (ok_indices _ _ Hok). apply NoDup_ListNoDup, seq_NoDup.
      + intros hs H. eapply at_mono; [exact H|set_solver]. }
  intros [recovered admitted]. cbn [fst]. eapply holds_bind; [apply assemble_holds|]. intros blocks. cbv zeta.
  destruct calls as [|call calls]; [|apply run_calls_holds; [|done]; by apply (let_through_runs _ step reading)].
  eapply holds_pre; [apply finish_answer_holds|]. intros hs H. eapply at_mono; [exact H|]. set_solver.
Qed.

Lemma reject_mixed_holds L f name reading calls v :
  holds (at_ L f ∅) (reject_mixed agent name reading calls v) (flowed L f) legit.
Proof.
  unfold reject_mixed. apply holds_bind_talk; [adds_all|]. intros _. apply holds_bind_talk; [adds_all|]. intros _.
  apply flowed_talk; [by apply adds_decline_all|done].
Qed.
Lemma reject_blocked_holds L f call reason reasoning v :
  holds (at_ L f ∅) (reject_blocked agent call reason reasoning v) (flowed L f) legit.
Proof. unfold reject_blocked. apply flowed_talk; [by apply adds_decline|done]. Qed.
Lemma on_report_blocked_holds L f step call reasoning revision v :
  holds (at_ L f ∅) (on_report_blocked world agent chat execution step call reasoning revision v) (flowed L f) legit.
Proof.
  unfold on_report_blocked. destruct (_ ≫= _) as [blocked|]; [|apply reject_blocked_holds].
  destruct revision as [revision|]; [|apply reject_blocked_holds].
  apply holds_bind_talk; [by apply adds_ensure_lease|]. intros _.
  eapply holds_bind with (R := fun _ => at_ L f ({[p_call_id call]} ∪ ∅)).
  { eapply holds_conseq; [apply report_blocked_holds|done|done|eauto]. }
  intros _.
  apply holds_bind_talk; [by apply adds_candidate_message|]. intros output. apply holds_bind_talk; [adds_all|]. intros usage.
  apply holds_ret. intros hs H. split; eauto.
Qed.

Lemma after_stream_holds L step reading revision v : read_by L reading Done ->
  holds (at_ L (wrap_up agent step) ∅) (after_stream world agent chat execution step reading revision v)
    (flowed L (wrap_up agent step)) legit.
Proof.
  intros Hread. unfold after_stream. eapply holds_bind; [apply admit_calls_holds|]. intros [calls|]; apply holds_pure; intros Hcalls;
    [|by apply holds_ret]. apply holds_bind_talk; [adds_all; by apply adds_new_id|]. intros id.
  cbv zeta. destruct (mixed_control _ _ _); [apply reject_mixed_holds|].
  destruct calls as [|call [|call' calls]]; [by apply act_holds| |by apply act_holds].
  destruct (is_report_blocked_call _ _); [apply on_report_blocked_holds|by apply act_holds].
Qed.

(** ** The stream of a step *)

Definition anywhere f hs : Prop := exists L, at_ L f ∅ hs.
Lemma anywhere_legit f hs : anywhere f hs -> legit hs.
Proof. intros [L H]. eauto. Qed.
Lemma anywhere_later f f' hs : (f = true -> f' = true) -> anywhere f hs -> anywhere f' hs.
Proof. intros Hf (L & ? & ? & H & ?). exists L. repeat split; auto. Qed.
#[local] Hint Resolve anywhere_legit : core.

Lemma read_stream_holds L f U answer :
  holds (at_ L f U) (read_stream agent answer)
    (fun r hs => (exists usage, read_polls (sn_first answer) (provider_executed_call_is_admissible agent) (reading_new usage)
                                  (sn_polls answer) = (r.1, Some r.2)) /\ at_ L f U hs) legit.
Proof.
  unfold read_stream. apply holds_bind_talk; [adds_all|]. intros usage. destruct (read_polls _ _ _ _) as [reading ended] eqn:E.
  apply holds_bind_talk; [adds_all|]. intros _. apply holds_bind_talk; [by apply adds_set_used|]. intros _.
  assert (Hret : forall e, ended = Some e -> holds (at_ L f U) (mret (reading, e)) (fun r hs =>
    (exists usage, read_polls (sn_first answer) (provider_executed_call_is_admissible agent) (reading_new usage)
                     (sn_polls answer) = (r.1, Some r.2)) /\ at_ L f U hs) legit).
  { intros e ->. apply holds_ret. intros hs Hs. split; [|done]. by exists usage. }
  destruct ended as [[]|]; [apply Hret; done| | | |apply holds_raise; eauto];
    (apply holds_bind_talk; [adds_all|]; intros _; by apply Hret).
Qed.

Definition streamed f (r : AgentTurnOutcome (Number := Number) + Vars (Number := Number) * option Z * Reading Number * StreamEnd) hs : Prop :=
  match r with
  | inl o => returned o hs
  | inr (v, offered, reading, ended) => (exists L, read_by L reading ended /\ at_ L f ∅ hs) /\ is_failed_end ended = false
  end.
Lemma ask_stream_holds L step prefix offered :
  holds (at_ L (wrap_up agent step) ∅) (ask world (AskStream (step_request agent step prefix offered)))
    (fun a => at_ (Some (step_request agent step prefix offered, a)) (wrap_up agent step) ∅) legit.
Proof.
  apply (holds_ask world _ (AskStream _)). intros hs a (Hl & HL & Hf & HU). repeat split; try done. cbn.
  intros [H|H]%orb_true_iff; [|by apply Hf]. by destruct (wrap_up agent step).
Qed.
(** A compaction asks, and opens, closes or runs nothing. *)
Definition compacts (h : Happened (Number := Number)) : Prop := is_talk h = true \/ exists q a, h = Asked (AskCompaction q) a.
Lemma prepare_holds L f U step level v :
  holds (at_ L f U) (prepare world agent chat execution sources user_texts step level v) (fun _ => at_ L f U) legit.
Proof.
  eapply holds_conseq; [eapply (holds_adds compacts (at_ L f U)); [apply adds_prepare|]|done|done|eauto].
  - by left.
  - intros q a. right. by exists q, a.
  - intros h hs [Hh|(q & a & ->)] Hat; [by apply at_talk|]. destruct Hat as (? & ? & ? & ?). by repeat split.
Qed.
Lemma attempt_once_holds step level v :
  holds (anywhere (wrap_up agent step)) (attempt_once world agent chat execution sources user_texts step level v)
    (fun r hs => match r with inl _ => anywhere (wrap_up agent step) hs | inr r => streamed (wrap_up agent step) r hs end) legit.
Proof.
  unfold attempt_once. apply holds_ex. intros L.
  eapply holds_bind; [apply prepare_holds|]. intros [v' prefix]. apply holds_bind_talk; [by apply adds_cancelled_now|].
  intros stop. destruct stop.
  { eapply holds_bind; [apply finish_cancelled_holds|]. intros o. apply holds_ret. intros hs [Hat [usage ->]]. split; eauto. }
  cbv zeta. apply holds_bind_talk; [by apply adds_set_model_steps|]. intros _.
  eapply holds_bind; [apply ask_stream_holds|]. intros [answer|e]; cbn beta.
  - apply holds_bind_talk; [adds_all|]. intros _. eapply holds_bind; [apply read_stream_holds|]. intros [reading ended].
    apply holds_pure. cbn [fst snd]. intros [usage Hread].
    destruct ended as [| | |error].
    1-3: apply holds_ret; intros hs Hs; split; [|done]; eexists; split; [|exact Hs]; by repeat eexists.
    apply holds_bind_talk; [adds_all|]. intros _. apply holds_ret. intros hs Hs. by eexists.
  - apply holds_ret. intros hs Hs. by eexists.
Qed.
Lemma step_attempt_holds step room v :
  holds (anywhere (wrap_up agent step)) (step_attempt world agent chat execution sources user_texts step room v)
    (streamed (wrap_up agent step)) legit.
Proof.
  revert v. induction room as [|room IH]; intros v; cbn [step_attempt].
  all: eapply holds_bind; [apply attempt_once_holds|]; intros [[e v']|came]; [|by apply holds_ret].
  - apply holds_raise. eauto.
  - destruct (is_prompt_too_long e); [apply IH|apply holds_raise; eauto].
Qed.

(** ** One step after another *)

Definition stepped f (r : Flow (Number := Number)) hs : Prop :=
  match r with Continue _ => anywhere f hs | Return o => returned o hs end.
Lemma flowed_stepped L f r hs : flowed L f r hs -> stepped f r hs.
Proof. destruct r; [|done]. intros ?. by exists L. Qed.
Lemma on_cancelled_holds L f step reading :
  holds (at_ L f ∅) (on_cancelled world agent chat execution step reading) (stepped f) legit.
Proof.
  unfold on_cancelled. apply holds_bind_talk; [adds_all|]. intros _.
  apply holds_bind_talk; [by apply adds_cancelled_partial|]. intros partial.
  eapply holds_bind; [apply finish_cancelled_holds|]. intros o. apply holds_ret. intros hs [Hat [usage ->]]. split; eauto.
Qed.
Lemma on_steered_holds L f v : holds (at_ L f ∅) (on_steered world agent chat execution v) (stepped f) legit.
Proof.
  unfold on_steered. apply holds_bind_talk; [adds_all|]. intros _. apply holds_bind_talk; [by apply adds_apply_steers|].
  intros [steered transcript]. apply holds_ret. intros hs Hs. by exists L.
Qed.

Lemma run_step_holds step v :
  holds (anywhere (wrap_up agent step)) (run_step world agent chat execution sources user_texts step v)
    (stepped (wrap_up agent step)) legit.
Proof.
  set (f := wrap_up agent step). unfold run_step. apply holds_ex. intros L.
  apply holds_bind_talk; [by apply adds_cancelled_now|]. intros stop. destruct stop.
  { eapply holds_bind; [apply finish_cancelled_holds|]. intros o. apply holds_ret. intros hs [Hat [usage ->]]. split; eauto. }
  cbv zeta. apply holds_bind_talk; [by apply adds_apply_steers|]. intros [steered transcript].
  apply holds_bind_talk; [by apply adds_revision|]. intros revision.
  eapply holds_bind; [eapply holds_pre; [apply step_attempt_holds|]; intros hs Hs; by exists L|].
  intros [o|[[[v' offered] reading] ended]]; [by apply holds_ret|]. cbn [streamed].
  apply (holds_pre _ (fun hs => is_failed_end ended = false
    /\ exists L, read_by L reading ended /\ at_ L f ∅ hs)); [|intros hs [? ?]; by split].
  apply holds_pure. intros Hended. apply holds_ex. clear L. intros L. apply holds_pure. intros Hread.
  destruct ended as [| | |error]; [..|done].
  - apply holds_bind_talk; [by apply adds_cancelled_now|]. intros stop. destruct stop; [apply on_cancelled_holds|].
    eapply holds_post; [by apply after_stream_holds|]. intros r hs. apply flowed_stepped.
  - eapply holds_bind with (R := fun stop hs => stop = true /\ at_ L f ∅ hs); [by apply holds_ret|].
    intros stop. apply holds_pure. intros ->. apply on_cancelled_holds.
  - apply holds_bind_talk; [by apply adds_cancelled_now|]. intros stop. destruct stop; [apply on_cancelled_holds|].
    apply on_steered_holds.
Qed.

Lemma run_steps_holds start n v :
  holds (anywhere (wrap_up agent start)) (run_steps world agent chat execution sources user_texts (seq start n) v) returned legit.
Proof.
  revert start v. induction n as [|n IH]; intros start v; cbn [seq run_steps].
  { apply holds_ex. intros L. apply holds_bind_talk; [adds_all|]. intros usage. apply holds_ret. intros; split; [eauto|exact I]. }
  destruct (_ && _).
  { apply holds_ex. intros L. apply holds_bind_talk; [adds_all|]. intros usage. apply holds_ret. intros; split; [eauto|exact I]. }
  eapply holds_bind; [apply run_step_holds|]. intros [v'|o]; [|by apply holds_ret]. cbn [stepped].
  eapply holds_pre; [apply IH|]. intros hs. apply anywhere_later. unfold wrap_up. rewrite !Nat.leb_le. lia.
Qed.

(** ** Before the first step *)

Lemma carried_spawns_holds before pending revision :
  ag_pending_sandbox_spawns agent = before ++ pending ->
  holds (at_ None false ∅) (carried_spawns world pending revision)
    (fun r hs => match r with Some o => returned o hs | None => at_ None false ∅ hs end) legit.
Proof.
  revert before. induction pending as [|request pending IH]; intros before Hb; cbn [carried_spawns]; [by apply holds_ret|].
  eapply holds_bind with (R := fun gate hs => at_ None false ∅ hs
    /\ match gate with
       | Admit r => gated request r hs \/ r = request /\ sp_approval_gated request = true
       | Declined _ => True
       end).
  { destruct (sp_approval_gated request); [by apply holds_ret; auto|].
    eapply holds_conseq; [apply gate_gates|done| |eauto]. intros [r|o] hs [Hat Hg]; eauto. }
  intros [r|o].
  - apply holds_ret. intros hs [(Hl & HL & _ & HU) Hg]. split; [done|]. split; [done|]. right. split; [done|].
    exists before, request. done.
  - eapply holds_pre; [apply (IH (before ++ [request])); by rewrite <- app_assoc|]. by intros hs [].
Qed.
Lemma resume_spawns_holds :
  holds (at_ None false ∅) (resume_spawns world agent chat execution)
    (fun r hs => match r with Some o => returned o hs | None => at_ None false ∅ hs end) legit.
Proof.
  unfold resume_spawns. destruct (ag_pending_sandbox_spawns agent) as [|request pending] eqn:E; [by apply holds_ret|].
  destruct (ag_pending_steer_revision agent) as [revision|]; [|apply holds_raise; eauto].
  apply holds_bind_talk; [by apply adds_apply_steers|]. intros _. apply holds_bind_talk; [by apply adds_revision|].
  intros current. by apply (carried_spawns_holds []).
Qed.
End Runs.

Section Turns.
Context {Number : Type} `{HJ : SerdeJson Number} `{HT : !SerdeJsonText Number} `{PJ : PayloadJson}
  `{AS : !ArgumentSerde Number}.
Notation history := (list (Happened (Number := Number))).
Context (world : history -> forall q : Ask (Number := Number), Ans q).
Context (agent : Agent Number) (chat : Chat).
Notation legit := (AgentTheorems.legit agent).
Notation at_ := (AgentTheorems.at_ agent).

Lemma drive_holds execution :
  holds (at_ None false ∅) (drive world agent chat execution) (returned agent) legit.
Proof.
  unfold drive. apply holds_bind_talk; [adds_all; by apply adds_persist|]. intros _.
  eapply holds_bind; [apply resume_spawns_holds|]. intros [o|]; [by apply holds_ret|].
  apply holds_bind_talk; [adds_all|]. intros [stored replacements]. cbv zeta.
  rewrite ?bind_assoc. eapply holds_bind with (R := fun _ => at_ None false ∅); [apply holds_talk_legit; adds_all|].
  intros snapshot. eapply holds_bind.
  { eapply holds_conseq; [apply resume_holds|done|done|]. intros hs. apply at_legit. }
  intros transcript. cbn beta. eapply holds_pre; [apply run_steps_holds|]. intros hs Hs. exists None.
  destruct Hs as (Hl & HL & Hf & HU). repeat split; try done. intros H. by specialize (Hf H).
Qed.

Lemma spawn_left_talk request remaining hs h :
  latest (h :: hs) = latest hs -> spawn_left agent request remaining hs -> spawn_left agent request remaining (h :: hs).
Proof.
  assert (Hg : forall asked, gated asked request hs -> gated asked request (h :: hs)) by (intros asked [sent Hin]; exists sent; by right).
  intros HL [(asked & Hgated & Hall)|(HN & before & asked & Hb & Hor)].
  - left. exists asked. rewrite HL. auto.
  - right. rewrite HL. split; [done|]. exists before, asked. destruct Hor; auto.
Qed.
Lemma returned_talk o hs h : is_talk h = true -> returned agent o hs -> returned agent o (h :: hs).
Proof.
  intros Hh [Hl Ho]. destruct (at_talk agent (latest hs) true (open_rows hs) h hs Hh) as (Hl' & HL' & _ & HU'); [by repeat split|].
  split; [done|]. destruct o; try done; destruct Ho as [Ho Hc]; (split; [set_solver|]); rewrite ?HL'; try exact Hc.
  by apply spawn_left_talk.
Qed.
Lemma run_turn_inner_holds execution :
  holds (at_ None false ∅) (run_turn_inner world agent chat execution) (returned agent) legit.
Proof.
  unfold run_turn_inner. apply holds_bind_talk; [adds_all|]. intros _.
  eapply holds_bind; [eapply holds_attempt; apply drive_holds|]. intros [o|e].
  - eapply holds_bind with (R := fun _ => returned agent o); [|intros; by apply holds_ret].
    eapply holds_conseq; [eapply (holds_adds (fun h => is_talk h = true)); [adds_all|]|done|done|].
    + intros h hs. apply returned_talk.
    + by intros hs [? _].
  - destruct (ex_publish_terminal execution).
    + eapply holds_bind with (R := fun _ => legit); [|intros; by apply holds_raise].
      eapply (holds_adds (fun h => is_talk h = true)); [adds_all|]. intros h hs Hh Hl.
      by destruct (at_talk agent (latest hs) true (open_rows hs) h hs Hh) as (? & _); [repeat split|].
    + intros s Hs. destruct (0 <? model_steps s); [|exact Hs]. by split.
Qed.

(** A turn, claimed or not, from its first event on *)
Definition turns (r : result AgentError (AgentTurnOutcome (Number := Number)) * LoopState (Number := Number)) : Prop :=
  (exists turn_id output_message_id user_input, r = run_turn world agent chat turn_id output_message_id user_input)
  \/ (exists turn_id output_message_id first, r = run_claimed_turn world agent chat turn_id output_message_id first).
Lemma turns_hold r s : turns (r, s) ->
  legit (happened s) /\ match r with Ok o => returned agent o (happened s) | Err _ => True end.
Proof.
  assert (H : forall execution first, let '(r, s) := run_turn_inner world agent chat execution (loop_state_new first) in
    legit (happened s) /\ match r with Ok o => returned agent o (happened s) | Err _ => True end).
  { intros execution first. pose proof (run_turn_inner_holds execution (loop_state_new first)) as H.
    specialize (H ltac:(by repeat split)). destruct (run_turn_inner _ _ _ _ _) as [[o|e] s']; [|done]. split; [apply H|done]. }
  intros [(t & m & i & E)|(t & m & i & E)].
  - specialize (H (MkExecution t i m true true true) None). unfold run_turn in E. by rewrite <- E in H.
  - unfold run_claimed_turn in E. destruct (_ || _); [by simplify_eq|].
    specialize (H (MkExecution t "" m false false false) (Some i)). by rewrite <- E in H.
Qed.
Lemma legit_app later h earlier : legit (later ++ h :: earlier) -> warranted agent h earlier.
Proof. induction later as [|h' later IH]; [by intros []|]. intros [_ H]. by apply IH. Qed.

(** C4: in every turn, in whatever world, a tool runs only for a call of the
    model's last answer, which closed by itself and was no refusal, and only
    while no request of the turn has forbidden tools; a call of a tool registered
    as sensitive runs when no other call's row is open.  The one exception is
    recovery, before the first request of a turn without a lease: a claimed
    turn never runs again what an earlier attempt left. *)
Theorem what_runs_was_asked_for r s later call durable output earlier :
  turns (r, s) -> happened s = later ++ Asked (AskRun call durable) output :: earlier ->
  (latest earlier = None /\ ag_durable_steer_lease agent = None)
  \/ asked_by agent (latest earlier) call /\ forbidden earlier = false
     /\ (is_sensitive agent call = true -> open_rows earlier ⊆ {[p_call_id call]}).
Proof. intros Ht Hs. apply turns_hold in Ht as [Hl _]. rewrite Hs in Hl. exact (legit_app _ _ _ Hl). Qed.

(** C9: a turn that parks leaves no row that the loop opened for its calls open
    behind it, and the call it parks on is one the model asked for in its last
    answer, under its own identity and, where the request carries them, its
    provider identity and name.  The child it hands out is what the gate let
    through when asked about a call of the last answer, with that call's
    arguments and task, and those left behind it are calls of that answer too;
    or the turn asked the model nothing yet and they are children carried over
    a park, in their order, the first gated now or before it.  (The row of a
    child whose consent was asked at a gate is the gate's.) *)
Theorem a_parked_turn_leaves_no_row_open o s :
  turns (Ok o, s) ->
  match o with
  | OutClientToolCall request _ _ _ _ | OutChildSessionWait request _ _ _ _ _ =>
      open_rows (happened s) = ∅ /\ exists call, asked_by agent (latest (happened s)) call /\ leaves_as request call
  | OutWaitForAgents request _ _ _ =>
      open_rows (happened s) = ∅ /\ exists call, asked_by agent (latest (happened s)) call /\ fw_call_id request = p_call_id call
  | OutSandboxAgentSpawn request remaining _ _ _ =>
      open_rows (happened s) = ∅ /\ spawn_left agent request remaining (happened s)
  | _ => True
  end.
Proof.
  intros [_ [_ Ho]]%turns_hold. destruct o; try done; destruct Ho as [Ho Hc]; (split; [|exact Hc]); apply set_eq; set_solver.
Qed.

(** ** How often a turn asks the model *)

(** How often a history asks the model, a compaction counted [c] times: it asks
    the provider once at most. *)
Definition weight (c : nat) (h : Happened (Number := Number)) : nat :=
  match h with
  | Asked (AskStream _) _ => 1
  | Asked (AskCompaction _) _ => c
  | _ => 0
  end.
Fixpoint asks (c : nat) (hs : history) : nat := match hs with [] => 0 | h :: hs => weight c h + asks c hs end.
Definition streams : history -> nat := asks 0.
Definition model_requests : history -> nat := asks 1.

(** Everything but the requests themselves *)
Definition quiet (h : Happened (Number := Number)) : Prop := forall c, weight c h = 0.
Lemma talk_quiet h : is_talk h = true -> quiet h.
Proof. intros Hh c. destruct h as [q a| |]; [|done..]. by destruct q. Qed.

Ltac quiet_ask := lazymatch goal with |- adds _ (ask _ _) => by apply adds_ask end.
Ltac quiet_all := intros; repeat first [quiet_ask | adds_step].
#[local] Hint Resolve talk_quiet : core.
#[local] Hint Resolve adds_set_used adds_set_model_steps adds_flush adds_cancelled_now adds_now adds_new_id
  adds_receive adds_drain adds_try_complete adds_candidate_message adds_persist adds_append_assistant adds_ensure_lease
  adds_revision adds_persist_assistant adds_apply_messages adds_apply_durable adds_apply_steers adds_announce adds_decline
  adds_publish_images adds_accept_receipt adds_count_bearing adds_abandon
  adds_finish_cancelled adds_read_stream adds_on_cancelled adds_on_steered adds_admit_calls
  adds_reject_mixed adds_reject_blocked adds_finish_answer adds_decline_extras adds_decline_into adds_queue_spawns adds_take_client
  adds_take_agent_wait : agent.

Section Quiet.
Context (execution : TurnExecution) (turn_id : Z).
Lemma quiet_run call durable : adds quiet (ask_tool world call durable).
Proof. unfold ask_tool. quiet_all. Qed.
Lemma quiet_gate request : adds quiet (ask_gate world request).
Proof. unfold ask_gate. quiet_all. Qed.
#[local] Hint Resolve quiet_run quiet_gate : agent.
Lemma quiet_accept call : adds quiet (accept_server_call world agent chat turn_id call).
Proof. unfold accept_server_call. quiet_all. Qed.
Lemma quiet_complete_receipt id b : adds quiet (complete_provider_executed_call world agent id b).
Proof. unfold complete_provider_executed_call. quiet_all. Qed.
#[local] Hint Resolve quiet_accept quiet_complete_receipt : agent.
Lemma quiet_record call o : adds quiet (record_server_call_result world agent call o).
Proof. unfold record_server_call_result. quiet_all. Qed.
#[local] Hint Resolve quiet_record : agent.
Lemma quiet_execute_call call recovered refusal : adds quiet (execute_server_call world agent call recovered refusal).
Proof. unfold execute_server_call. quiet_all. Qed.
#[local] Hint Resolve quiet_execute_call : agent.
Lemma quiet_child_wait call : adds quiet (run_child_session_wait world agent chat turn_id call).
Proof. unfold run_child_session_wait. quiet_all. Qed.
Lemma quiet_persist_blocked call text : adds quiet (persist_report_blocked_call world agent chat turn_id call text).
Proof. unfold persist_report_blocked_call. quiet_all. Qed.
Lemma quiet_rerun call approval transcript : adds quiet (rerun_call world agent call approval transcript).
Proof. unfold rerun_call. quiet_all. Qed.
#[local] Hint Resolve quiet_child_wait quiet_persist_blocked quiet_rerun : agent.
Lemma quiet_resume_each pending transcript : adds quiet (resume_each world agent pending transcript).
Proof. revert transcript. induction pending; cbn [resume_each]; quiet_all. Qed.
#[local] Hint Resolve quiet_resume_each : agent.
Lemma quiet_resume transcript : adds quiet (resume_pending_server_calls world agent turn_id transcript).
Proof. unfold resume_pending_server_calls. quiet_all. Qed.
End Quiet.
#[local] Hint Resolve quiet_run quiet_gate quiet_accept quiet_complete_receipt quiet_record quiet_execute_call quiet_child_wait quiet_persist_blocked
  quiet_resume : agent.

Section QuietStep.
Context (execution : TurnExecution) (step : nat).
Lemma quiet_admit items calls recovered admitted :
  adds quiet (admit_items world agent chat execution items calls recovered admitted).
Proof. revert recovered admitted. induction items; cbn [admit_items]; quiet_all. Qed.
Lemma quiet_assemble items calls admitted seen : adds quiet (assemble world agent items calls admitted seen).
Proof. revert seen. induction items; cbn [assemble]; quiet_all. Qed.
Lemma quiet_overlapped jobs : adds quiet (run_overlapped world agent jobs).
Proof. induction jobs; cbn [run_overlapped]; unfold run_job; quiet_all. Qed.
Lemma quiet_stop outputs k : (forall outputs, adds quiet (k outputs)) ->
  adds quiet (stop_if_cancelled world agent execution step outputs k).
Proof. intros. unfold stop_if_cancelled. quiet_all. Qed.
#[local] Hint Resolve quiet_admit quiet_assemble quiet_overlapped quiet_stop : agent.
Lemma quiet_sequential jobs outputs : adds quiet (run_sequential world agent execution step jobs outputs).
Proof. revert outputs. induction jobs; cbn [run_sequential]; unfold run_job; quiet_all. Qed.
Lemma quiet_sensitive index calls outputs : adds quiet (run_sensitive world agent chat execution step index calls outputs).
Proof. revert index outputs. induction calls; cbn [run_sensitive]; quiet_all. Qed.
Lemma quiet_mret_inl (outputs : list (option ToolOutput)) :
  adds quiet (mret (inl outputs) : M (list (option ToolOutput) + AgentTurnOutcome (Number := Number))).
Proof. apply adds_ret. Qed.
#[local] Hint Resolve quiet_sequential quiet_sensitive quiet_mret_inl : agent.
Lemma quiet_batch calls refusals recovered : adds quiet (run_batch world agent chat execution step calls refusals recovered).
Proof. unfold run_batch. quiet_all. Qed.
Lemma quiet_gate_queued queued outputs : adds quiet (gate_queued world queued outputs).
Proof. revert outputs. induction queued; cbn [gate_queued]; quiet_all. Qed.
#[local] Hint Resolve quiet_batch quiet_gate_queued : agent.
Lemma quiet_take_isolated index call calls revision v outputs :
  adds quiet (take_isolated world agent chat execution step index call calls revision v outputs).
Proof. unfold take_isolated, take_child_wait, take_spawn. quiet_all. Qed.
#[local] Hint Resolve quiet_take_isolated : agent.
Lemma quiet_run_calls calls refusals recovered revision v :
  adds quiet (run_calls world agent chat execution step calls refusals recovered revision v).
Proof. unfold run_calls. quiet_all. Qed.
#[local] Hint Resolve quiet_run_calls : agent.
Lemma quiet_act reading calls candidate revision v :
  adds quiet (act world agent chat execution step reading calls candidate revision v).
Proof. unfold act. quiet_all. Qed.
Lemma quiet_report_blocked call reasoning revision v :
  adds quiet (on_report_blocked world agent chat execution step call reasoning revision v).
Proof. unfold on_report_blocked. quiet_all. Qed.
#[local] Hint Resolve quiet_act quiet_report_blocked : agent.
Lemma quiet_after_stream reading revision v : adds quiet (after_stream world agent chat execution step reading revision v).
Proof. unfold after_stream. quiet_all. Qed.
Lemma quiet_resume_spawns : adds quiet (resume_spawns world agent chat execution).
Proof.
  unfold resume_spawns. quiet_all. match goal with |- adds _ (carried_spawns _ ?p _) => induction p; cbn [carried_spawns] end; quiet_all.
Qed.
End QuietStep.

(** The bound of one request of a step: a compaction may come before it, unless
    the step may only write the last answer. *)
Definition of_request (c step : nat) : nat := if wrap_up agent step then 1 else c + 1.
Definition of_steps (c : nat) (steps : list nat) : nat :=
  foldr (fun step n => S MAX_REDUCTION_LEVEL * of_request c step + n) 0 steps.

Section Counted.
Context (c : nat) (execution : TurnExecution) (sources : list TranscriptSourceBoundary) (user_texts : list (Z * string)).
Definition at_most (n : nat) (hs : history) : Prop := asks c hs <= n.
Lemma at_most_mono n n' hs : n <= n' -> at_most n hs -> at_most n' hs.
Proof. unfold at_most. lia. Qed.
Lemma quiet_holds {A} n (m : AgentLoop.M (Number := Number) A) : adds quiet m -> holds (at_most n) m (fun _ => at_most n) (at_most n).
Proof. intros Hm. eapply holds_adds; [exact Hm|]. intros h hs Hh. unfold at_most. cbn. by rewrite Hh. Qed.
(** A quiet computation before one that asks no more than [k] times *)
Lemma quiet_bind {A B} n k (m : AgentLoop.M (Number := Number) A) (then_ : A -> AgentLoop.M (Number := Number) B) :
  adds quiet m -> (forall a, holds (at_most n) (then_ a) (fun _ => at_most (n + k)) (at_most (n + k))) ->
  holds (at_most n) (m ≫= then_) (fun _ => at_most (n + k)) (at_most (n + k)).
Proof.
  intros Hm Hc. eapply holds_bind; [|exact Hc]. eapply holds_conseq; [by apply quiet_holds|done|done|].
  intros hs. apply at_most_mono. lia.
Qed.
Lemma quiet_end {A} n k (m : AgentLoop.M (Number := Number) A) :
  adds quiet m -> holds (at_most n) m (fun _ => at_most (n + k)) (at_most (n + k)).
Proof.
  intros Hm. eapply (holds_conseq _ (at_most n) m _ (fun _ => at_most n) _ (at_most n)); [by apply quiet_holds|done|..].
  - intros _ hs. apply at_most_mono. lia.
  - intros hs. apply at_most_mono. lia.
Qed.
Lemma asks_holds n q k : (forall a, weight c (Asked q a) <= k) ->
  holds (at_most n) (ask world q) (fun _ => at_most (n + k)) (at_most (n + k)).
Proof. intros Hk. apply holds_ask. intros hs a Hs. specialize (Hk a). unfold at_most in *. cbn [asks]. lia. Qed.

Lemma compact_counted n v prefix :
  holds (at_most n) (compact world agent chat execution sources user_texts v prefix)
    (fun _ => at_most (n + c)) (at_most (n + c)).
Proof.
  unfold compact. cbv zeta. eapply holds_bind; [by apply (asks_holds n (AskCompaction _) c)|]. intros met.
  apply quiet_holds. quiet_all.
Qed.
Lemma prepare_counted n step level v :
  holds (at_most n) (prepare world agent chat execution sources user_texts step level v)
    (fun _ => at_most (n + (if wrap_up agent step then 0 else c))) (at_most (n + (if wrap_up agent step then 0 else c))).
Proof.
  unfold prepare. apply quiet_bind; [quiet_all|]. intros prefix.
  destruct (wrap_up agent step); [apply quiet_end; quiet_all|].
  eapply holds_bind; [apply compact_counted|]. intros made. apply quiet_holds. quiet_all.
Qed.
Lemma attempt_once_counted n step level v :
  holds (at_most n) (attempt_once world agent chat execution sources user_texts step level v)
    (fun _ => at_most (n + of_request c step)) (at_most (n + of_request c step)).
Proof.
  unfold attempt_once. set (p := if wrap_up agent step then 0 else c).
  assert (of_request c step = p + 1) as -> by (unfold of_request, p; by destruct (wrap_up agent step)).
  rewrite Nat.add_assoc. eapply holds_bind.
  { eapply holds_conseq; [apply prepare_counted|done|done|]. intros hs. apply at_most_mono. fold p. lia. }
  intros [v' prefix]. fold p. apply quiet_bind; [apply adds_cancelled_now, talk_quiet|]. intros stop.
  destruct stop; [apply quiet_end; quiet_all|]. cbv zeta. apply quiet_bind; [apply adds_set_model_steps|]. intros _.
  eapply holds_bind; [by apply (asks_holds _ (AskStream _) 1)|]. intros [answer|e]; cbn beta; apply quiet_holds; quiet_all.
Qed.
Lemma step_attempt_counted n step room v :
  holds (at_most n) (step_attempt world agent chat execution sources user_texts step room v)
    (fun _ => at_most (n + S room * of_request c step)) (at_most (n + S room * of_request c step)).
Proof.
  revert n v. induction room as [|room IH]; intros n v; cbn [step_attempt].
  all: eapply holds_bind; [eapply holds_conseq; [apply attempt_once_counted|done|done|]; intros hs; apply at_most_mono; lia|].
  all: intros [[e v']|came]; [|apply holds_ret; intros hs; apply at_most_mono; lia].
  - apply holds_raise. intros hs. apply at_most_mono. lia.
  - destruct (is_prompt_too_long e); [|apply holds_raise; intros hs; apply at_most_mono; lia].
    specialize (IH (n + of_request c step) v').
    by replace (n + S (S room) * of_request c step) with (n + of_request c step + S room * of_request c step) by lia.
Qed.
Lemma run_step_counted n step v :
  let k := S MAX_REDUCTION_LEVEL * of_request c step in
  holds (at_most n) (run_step world agent chat execution sources user_texts step v)
    (fun _ => at_most (n + k)) (at_most (n + k)).
Proof.
  cbv zeta. unfold run_step. apply quiet_bind; [apply adds_cancelled_now, talk_quiet|]. intros stop. destruct stop; [apply quiet_end; quiet_all|].
  cbv zeta. apply quiet_bind; [apply adds_apply_steers, talk_quiet|]. intros [steered transcript].
  apply quiet_bind; [apply adds_revision, talk_quiet|]. intros revision. eapply holds_bind; [apply step_attempt_counted|].
  intros [o|[[[v' offered] reading] ended]]; [by apply holds_ret|]. cbv beta iota zeta.
  apply quiet_holds. adds_all; by apply quiet_after_stream.
Qed.
Lemma run_steps_counted n steps v :
  holds (at_most n) (run_steps world agent chat execution sources user_texts steps v)
    (fun _ => at_most (n + of_steps c steps)) (at_most (n + of_steps c steps)).
Proof.
  revert n v. induction steps as [|step steps IH]; intros n v; cbn [run_steps]; [apply quiet_end; quiet_all|].
  destruct (_ && _); [apply quiet_end; quiet_all|]. cbn [of_steps foldr]. fold (of_steps c steps).
  eapply holds_bind; [eapply holds_conseq; [apply run_step_counted|done|done|]; intros hs; apply at_most_mono; lia|].
  intros [v'|o].
  - specialize (IH (n + S MAX_REDUCTION_LEVEL * of_request c step) v'). by rewrite Nat.add_assoc.
  - apply holds_ret. intros hs. apply at_most_mono. lia.
Qed.

Lemma of_budgeted n : n <= ag_max_steps agent -> of_steps c (seq 0 n) = S MAX_REDUCTION_LEVEL * ((c + 1) * n).
Proof.
  induction n as [|n IH]; intros Hn; [cbn; lia|]. rewrite seq_S. unfold of_steps in *.
  rewrite foldr_app. cbn [foldr Nat.add]. unfold of_request at 2, wrap_up.
  rewrite (proj2 (Nat.leb_gt _ _)) by lia.
  assert (Hacc : forall l x, foldr (fun step n => S MAX_REDUCTION_LEVEL * of_request c step + n) x l
                         = foldr (fun step n => S MAX_REDUCTION_LEVEL * of_request c step + n) 0 l + x).
  { induction l as [|y l IHl]; intros x; cbn [foldr]; [done|]. rewrite IHl. lia. }
  rewrite Hacc, IH by lia. lia.
Qed.
Definition MAX_REQUESTS : nat := S MAX_REDUCTION_LEVEL * ((c + 1) * ag_max_steps agent + 2).
Lemma of_turn : of_steps c (seq 0 (ag_max_steps agent + 2)) = MAX_REQUESTS.
Proof.
  rewrite seq_app. unfold of_steps. rewrite foldr_app. cbn [seq foldr Nat.add].
  unfold of_request at 2 3, wrap_up. rewrite !(proj2 (Nat.leb_le _ _)) by lia.
  assert (Hacc : forall l x, foldr (fun step n => S MAX_REDUCTION_LEVEL * of_request c step + n) x l
                         = of_steps c l + x).
  { unfold of_steps. induction l as [|y l IHl]; intros x; cbn [foldr]; [done|]. rewrite IHl. lia. }
  rewrite Hacc, of_budgeted by lia. unfold MAX_REQUESTS. lia.
Qed.
End Counted.

Lemma run_turn_inner_counted c execution :
  holds (at_most c 0) (run_turn_inner world agent chat execution)
    (fun _ => at_most c (MAX_REQUESTS c)) (at_most c (MAX_REQUESTS c)).
Proof.
  unfold run_turn_inner. apply (quiet_bind c 0 (MAX_REQUESTS c)); [adds_all|]. intros _.
  eapply holds_bind with (R := fun _ => at_most c (MAX_REQUESTS c)).
  - eapply (holds_post _ _ _ (fun r hs => match r with Ok _ => at_most c (MAX_REQUESTS c) hs | Err _ => at_most c (MAX_REQUESTS c) hs end));
      [|by intros [|]]. eapply holds_attempt. unfold drive.
    apply (quiet_bind c 0 (MAX_REQUESTS c)); [quiet_all|]. intros _.
    apply (quiet_bind c 0 (MAX_REQUESTS c)); [by apply quiet_resume_spawns|].
    intros [o|]; [by apply (quiet_end c 0 (MAX_REQUESTS c)), adds_ret|].
    apply (quiet_bind c 0 (MAX_REQUESTS c)); [quiet_all|]. intros [stored replacements]. cbv zeta. rewrite ?bind_assoc.
    apply (quiet_bind c 0 (MAX_REQUESTS c)); [quiet_all|]. intros snapshot.
    apply (quiet_bind c 0 (MAX_REQUESTS c)); [by apply quiet_resume|]. intros transcript.
    eapply holds_conseq; [apply (run_steps_counted c _ _ _ 0)|done|..]; rewrite of_turn; done.
  - intros [o|e]; [apply quiet_holds; quiet_all|].
    destruct (ex_publish_terminal execution); [apply quiet_holds; quiet_all|].
    intros s Hs. by destruct (0 <? model_steps s).
Qed.
Lemma turn_asks c r s : turns (r, s) -> at_most c (MAX_REQUESTS c) (happened s).
Proof.
  assert (H : forall execution first, at_most c (MAX_REQUESTS c) (happened (run_turn_inner world agent chat execution (loop_state_new first)).2)).
  { intros execution first. pose proof (run_turn_inner_counted c execution (loop_state_new first) (Nat.le_0_l 0)) as H.
    by destruct (run_turn_inner _ _ _ _ _) as [[o|e] s']. }
  intros [(t & m & i & E)|(t & m & i & E)].
  - specialize (H (MkExecution t i m true true true) None). unfold run_turn in E. rewrite <- E in H. exact H.
  - unfold run_claimed_turn in E. destruct (_ || _); [simplify_eq; apply Nat.le_0_l|].
    specialize (H (MkExecution t "" m false false false) (Some i)). rewrite <- E in H. exact H.
Qed.

(** C17: a turn asks the model boundedly, whatever the provider, the tools and
    the people around it do: at most four times for each step of its budget and
    for the two steps after it that may write the last answer, and at most four
    times more for each step of the budget to compact what it is about to send. *)
Theorem a_turn_asks_the_model_boundedly r s :
  turns (r, s) ->
  streams (happened s) <= S MAX_REDUCTION_LEVEL * (ag_max_steps agent + 2)
  /\ model_requests (happened s) <= S MAX_REDUCTION_LEVEL * (2 * ag_max_steps agent + 2).
Proof.
  intros Ht. split; [pose proof (turn_asks 0 r s Ht) as H|pose proof (turn_asks 1 r s Ht) as H];
    unfold at_most, MAX_REQUESTS in H; unfold streams, model_requests; lia.
Qed.

(** ** The order of the events *)

Definition anything (h : Happened (Number := Number)) : Prop := True.
Lemma adds_anything {A} K (m : AgentLoop.M (Number := Number) A) : adds K m -> adds anything m.
Proof. intros H s. destruct (H s) as (added & ? & ? & ?). exists added. repeat split; [done| |done]. by apply Forall_true. Qed.
Lemma quiet_any {A} (m : AgentLoop.M (Number := Number) A) : adds quiet m -> adds anything m.
Proof. apply adds_anything. Qed.
Lemma adds_any_ask q : adds anything (ask world q).
Proof. by apply adds_ask. Qed.

Section Ordered.
Context (execution : TurnExecution) (sources : list TranscriptSourceBoundary) (user_texts : list (Z * string)).
Lemma any_attempt_once step level v :
  adds anything (attempt_once world agent chat execution sources user_texts step level v).
Proof.
  unfold attempt_once. apply adds_bind; [by apply adds_prepare|]. intros [v' prefix]. apply adds_bind; [by apply adds_cancelled_now|].
  intros stop. destruct stop; [apply quiet_any; quiet_all|]. cbv zeta. apply adds_bind; [by apply adds_set_model_steps|]. intros _.
  apply adds_bind; [apply (adds_any_ask (AskStream _))|]. intros [answer|e]; apply quiet_any; quiet_all.
Qed.
Lemma any_step_attempt step room v : adds anything (step_attempt world agent chat execution sources user_texts step room v).
Proof.
  revert v. induction room as [|room IH]; intros v; cbn [step_attempt];
    (apply adds_bind; [apply any_attempt_once|]; intros [[e v']|came]; [|by apply adds_ret]); [by apply adds_raise|].
  destruct (is_prompt_too_long e); [apply IH|by apply adds_raise].
Qed.
Lemma any_run_step step v : adds anything (run_step world agent chat execution sources user_texts step v).
Proof.
  unfold run_step. apply adds_bind; [by apply adds_cancelled_now|]. intros stop. destruct stop; [apply quiet_any; quiet_all|].
  cbv zeta. apply adds_bind; [by apply adds_apply_steers|]. intros [steered transcript].
  apply adds_bind; [by apply adds_revision|]. intros revision. apply adds_bind; [apply any_step_attempt|].
  intros [o|[[[v' offered] reading] ended]]; [by apply adds_ret|]. apply quiet_any. adds_all; by apply quiet_after_stream.
Qed.
Lemma any_run_steps steps v : adds anything (run_steps world agent chat execution sources user_texts steps v).
Proof.
  revert v. induction steps as [|step steps IH]; intros v; cbn [run_steps]; [apply quiet_any; quiet_all|].
  destruct (_ && _); [apply quiet_any; quiet_all|]. apply adds_bind; [apply any_run_step|].
  intros [v'|o]; [apply IH|by apply adds_ret].
Qed.
End Ordered.
Lemma any_drive execution : adds anything (drive world agent chat execution).
Proof.
  unfold drive. apply adds_bind; [apply quiet_any; quiet_all|]. intros _.
  apply adds_bind; [apply quiet_any; by apply quiet_resume_spawns|]. intros [o|]; [by apply adds_ret|].
  apply adds_bind; [apply quiet_any; quiet_all|]. intros [stored replacements]. cbv zeta. rewrite ?bind_assoc.
  apply adds_bind; [apply quiet_any; quiet_all|]. intros snapshot. apply adds_bind; [by apply quiet_any, quiet_resume|].
  intros transcript. apply any_run_steps.
Qed.
Lemma any_run_turn_inner execution : adds anything (run_turn_inner world agent chat execution).
Proof.
  unfold run_turn_inner. apply adds_bind; [apply quiet_any; quiet_all|]. intros _.
  apply adds_bind; [apply adds_attempt, any_drive|]. intros [o|e]; [apply quiet_any; quiet_all|].
  destruct (ex_publish_terminal execution); [apply quiet_any; quiet_all|].
  apply adds_silent. intros s. by destruct (0 <? model_steps s).
Qed.

(** C19: the events of a claimed turn carry ordinals that only grow, from the
    first the claim left it on and below the end of the store's range: no two
    share a place in the journal, whether the loop sent them or the store
    journaled them with a steer.  A turn without a claim numbers nothing. *)
Theorem claimed_events_are_numbered_in_order (turn_id output_message_id first : Z) (user_input : string) :
  let claimed_turn := (run_claimed_turn world agent chat turn_id output_message_id first).2 in
  StronglySorted Z.gt (ordinals (happened claimed_turn))
  /\ Forall (fun o => first <= o < I32_MAX)%Z (ordinals (happened claimed_turn))
  /\ ordinals (happened (run_turn world agent chat turn_id output_message_id user_input).2) = [].
Proof.
  cbv zeta. apply Logic.and_assoc. split.
  - unfold run_claimed_turn. destruct (_ || _) eqn:E; [by repeat constructor|].
    destruct (any_run_turn_inner (MkExecution turn_id "" output_message_id false false false) (loop_state_new (Some first)))
      as (added & -> & _ & Hnum). cbn [loop_state_new happened next_ordinal] in *. rewrite app_nil_r.
    apply orb_false_iff in E as [_ E]. apply negb_false_iff in E. unfold ordinal_in_range in E.
    apply andb_true_iff in E as [_ E%Z.ltb_lt].
    destruct (next_ordinal _) as [n'|]; [|done]. destruct Hnum as (_ & Hmax & Hf & Hs). split; [done|].
    eapply Forall_impl; [exact Hf|]. intros o Ho. specialize (Hmax E). cbn in Ho. lia.
  - unfold run_turn.
    destruct (any_run_turn_inner (MkExecution turn_id user_input output_message_id true true true) (loop_state_new None))
      as (added & -> & _ & Hnum). cbn [loop_state_new happened next_ordinal] in *. rewrite app_nil_r.
    by destruct (next_ordinal _).
Qed.
End Turns.
