(* ===== verification/AgentAnswers.v ===== *)
(** * Every call of the model is answered

    What a step of the loop of [AgentDrive] adds to the transcript: a provider
    refuses a request in which a call has no result, so each step that goes on
    leaves as many results as calls, in their order.  At the end, a claimed turn
    in a world that answers: its first step runs two calls side by side, its
    second parks on a call of the client; the theorems about turns apply. *)
From S2P Require Import Prelude RustStr ShellPolicy TurnTables TurnResolve TurnCancel TurnParks TurnPlacements.
From S2P Require Import Json ErrorKinds ContextFit Transcript Checkpoint RequestPrefix ToolPreview Approvals.
From S2P Require Import ToolGate AgentStream AgentLoop AgentDrive AgentTheorems.

Open Scope nat_scope.

(** ** What a computation returns *)

Definition gives {Number A} (m : AgentLoop.M (Number := Number) A) (P : A -> Prop) : Prop :=
  forall s, match (m s).1 with Ok a => P a | Err _ => True end.
Section Gives.
Context {Number : Type}.
Notation M := (AgentLoop.M (Number := Number)).
Lemma gives_mret {A} (a : A) (P : A -> Prop) : P a -> gives (mret a : M A) P.
Proof. intros H s. exact H. Qed.
Lemma gives_raise {A} e (P : A -> Prop) : gives (raise e : M A) P.
Proof. by intros s. Qed.
Lemma gives_bind {A B} (m : M A) (k : A -> M B) P Q : gives m P -> (forall a, P a -> gives (k a) Q) -> gives (m ≫= k) Q.
Proof.
  intros Hm Hk s. specialize (Hm s). unfold mbind, M_bind. destruct (m s) as [[a|e] s1]; [|done]. exact (Hk a Hm s1).
Qed.
Lemma gives_anything {A} (m : M A) : gives m (fun _ => True).
Proof. intros s. by destruct (m s).1. Qed.
Lemma gives_skip {A B} (m : M A) (k : A -> M B) Q : (forall a, gives (k a) Q) -> gives (m ≫= k) Q.
Proof. intros Hk. eapply gives_bind; [apply gives_anything|]. intros a _. apply Hk. Qed.
Lemma gives_post {A} (m : M A) (P Q : A -> Prop) : gives m P -> (forall a, P a -> Q a) -> gives m Q.
Proof. intros Hm H s. specialize (Hm s). destruct (m s).1; auto. Qed.
Lemma gives_lift {A} (r : result AgentError A) (P : A -> Prop) : (forall a, r = Ok a -> P a) -> gives (lift r : M A) P.
Proof. intros H s. unfold lift. cbn. destruct r; auto. Qed.
End Gives.

(** Skips whatever comes first *)
Ltac skip := apply gives_skip; intros ?.

(** ** Calls and results of a transcript *)

Section Answers.
Context {Number : Type} `{HJ : SerdeJson Number} `{HT : !SerdeJsonText Number} `{PJ : PayloadJson}
  `{AS : !ArgumentSerde Number}.
Notation chat_message := (ChatMessage Number).
Notation history := (list (Happened (Number := Number))).
Implicit Types (t extra : list chat_message) (calls : list PendingCall) (call : PendingCall) (v : Vars (Number := Number)).

Definition called t : list string := omap use_id (mjoin (map content t)).
Definition replied t : list string := omap result_id (mjoin (map content t)).
#[local] Arguments called : simpl never.
#[local] Arguments replied : simpl never.
(** Every call has its result, in the order of the calls. *)
Definition balanced t : Prop := called t = replied t.
(** [t'] is [t] and then calls with their results *)
Definition extends t t' : Prop := exists extra, t' = t ++ extra /\ balanced extra.

Lemma called_app t t' : called (t ++ t') = called t ++ called t'.
Proof. unfold called. by rewrite map_app, join_app, omap_app. Qed.
Lemma replied_app t t' : replied (t ++ t') = replied t ++ replied t'.
Proof. unfold replied. by rewrite map_app, join_app, omap_app. Qed.
Lemma balanced_app t t' : balanced t -> balanced t' -> balanced (t ++ t').
Proof. unfold balanced. rewrite called_app, replied_app. by intros -> ->. Qed.
Lemma extends_refl t : extends t t.
Proof. exists []. by rewrite app_nil_r. Qed.
Lemma extends_trans t t' t'' : extends t t' -> extends t' t'' -> extends t t''.
Proof. intros (e & -> & He) (e' & -> & He'). exists (e ++ e'). rewrite app_assoc. split; [done|]. by apply balanced_app. Qed.
Lemma extends_snoc t m : called [m] = [] -> replied [m] = [] -> extends t (t ++ [m]).
Proof. intros Hc Hr. exists [m]. split; [done|]. unfold balanced. by rewrite Hc, Hr. Qed.
Lemma extends_balanced t t' : extends t t' -> balanced t -> balanced t'.
Proof. intros (e & -> & He) Ht. by apply balanced_app. Qed.

Section Turn_.
Context (world : history -> forall q : Ask (Number := Number), Ans q).
Context (agent : Agent Number) (chat : Chat) (execution : TurnExecution).
Context (sources : list TranscriptSourceBoundary) (user_texts : list (Z * string)).

Lemma apply_messages_extends turn_id t messages :
  gives (apply_messages world chat turn_id t messages) (extends t).
Proof.
  revert t. induction messages as [|text messages IH]; intros t; cbn [apply_messages]; [by apply gives_mret, extends_refl|].
  do 2 skip. eapply gives_post; [apply IH|]. intros t' H. eapply extends_trans; [|exact H]. by apply extends_snoc.
Qed.
Lemma apply_durable_extends lease t steers preceding : gives (apply_durable world lease t steers preceding) (extends t).
Proof.
  revert t preceding. induction steers as [|steer steers IH]; intros t preceding; cbn [apply_durable];
    [by apply gives_mret, extends_refl|].
  do 3 skip. eapply gives_post; [apply IH|]. intros t' H. eapply extends_trans; [|exact H]. by apply extends_snoc.
Qed.
Lemma apply_steers_extends turn_id t preceding :
  gives (apply_steers world agent chat turn_id t preceding) (fun r => extends t r.2).
Proof.
  unfold apply_steers. apply gives_skip. intros messages. apply gives_skip. intros durable.
  destruct messages as [|message messages], durable as [|steer steers]; [apply gives_mret, extends_refl|..].
  all: match goal with |- gives (if ?b then _ else _) _ => destruct b; [apply gives_raise|] end; skip.
  all: eapply gives_bind; [apply apply_messages_extends|]; intros t1 H1; do 2 skip.
  all: eapply (gives_bind _ _ (extends t)); [|intros t2 H2; by apply gives_mret].
  all: destruct (ag_durable_steer_lease agent); [|by apply gives_mret].
  all: eapply gives_post; [apply apply_durable_extends|]; intros t2; by apply extends_trans.
Qed.

Lemma tool_result_replied id text is_error images input :
  omap result_id (tool_result_blocks (Number := Number) id text is_error images input) = [id]
  /\ omap use_id (tool_result_blocks (Number := Number) id text is_error images input) = [].
Proof.
  unfold tool_result_blocks. destruct images as [|i images]; [done|]. cbn. destruct input; [|done].
  cbn. split; [f_equal|]; by induction images.
Qed.

(** ** Slots *)

Notation outputs_of := (list (option ToolOutput)).
Implicit Types outputs : outputs_of.
Definition filled outputs (i : nat) : Prop := exists o, outputs !! i = Some (Some o).
(** The same slots, none emptied *)
Definition keeps outputs outputs' : Prop := length outputs' = length outputs /\ forall i, filled outputs i -> filled outputs' i.
Lemma keeps_refl outputs : keeps outputs outputs.
Proof. by split. Qed.
Lemma keeps_trans o1 o2 o3 : keeps o1 o2 -> keeps o2 o3 -> keeps o1 o3.
Proof. intros [E1 H1] [E2 H2]. split; [congruence|auto]. Qed.
Lemma insert_fills outputs i o : keeps outputs (<[i := Some o]> outputs) /\ (i < length outputs -> filled (<[i := Some o]> outputs) i).
Proof.
  split; [split; [apply length_insert|]|].
  - intros j [o' Hj]. destruct (decide (i = j)) as [->|Hne].
    + exists o. apply list_lookup_insert_eq. by eapply lookup_lt_Some.
    + exists o'. by rewrite list_lookup_insert_ne.
  - intros Hi. exists o. by apply list_lookup_insert_eq.
Qed.
(** What leaves a step with outputs keeps those it had and fills the slots of [P]. *)
Definition fills (P : nat -> Prop) outputs (r : outputs_of + AgentTurnOutcome (Number := Number)) : Prop :=
  match r with
  | inl outputs' => keeps outputs outputs' /\ forall i, P i -> i < length outputs -> filled outputs' i
  | inr _ => True
  end.
Lemma fills_nothing outputs : fills (fun _ => False) outputs (inl outputs).
Proof. by split; [apply keeps_refl|]. Qed.
Lemma fills_after (P P' Q : nat -> Prop) outputs outputs' r :
  fills P outputs (inl outputs') -> fills P' outputs' r -> (forall i, Q i -> P i \/ P' i) -> fills Q outputs r.
Proof.
  intros [HK HP] HP' HQ. destruct r as [outputs''|o]; [|done]. destruct HP' as [HK' HP']. pose proof HK as [Hlen _].
  split; [by eapply keeps_trans|]. intros i [Hi|Hi]%HQ Hlt; [by apply HK', HP|]. apply HP'; [done|]. by rewrite Hlen.
Qed.
Lemma fills_weaken (P Q : nat -> Prop) outputs r : fills P outputs r -> (forall i, Q i -> P i) -> fills Q outputs r.
Proof. destruct r; [|done]. intros [? H] HQ. split; [done|]. auto. Qed.
Lemma fills_insert outputs i o : fills (eq i) outputs (inl (<[i := Some o]> outputs)).
Proof. destruct (insert_fills outputs i o) as [? ?]. split; [done|]. by intros ? <-. Qed.

Lemma plain_jobs_index k calls refusals recovered i call : length refusals = length calls -> calls !! i = Some call ->
  is_plain agent call = true -> exists job, job ∈ plain_jobs agent k calls refusals recovered /\ jb_index job = k + i.
Proof.
  revert k refusals recovered i. induction calls as [|c calls IH]; intros k [|refusal refusals] recovered i Hlen Hi Hp; try done.
  injection Hlen as Hlen. cbn [plain_jobs]. destruct i as [|i].
  - cbn in Hi. simplify_eq. rewrite Hp. eexists. split; [by left|]. cbn. lia.
  - assert (H : forall recovered, exists job, job ∈ plain_jobs agent (S k) calls refusals recovered /\ jb_index job = S k + i).
    { intros. by apply IH. }
    destruct (is_plain agent c).
    + destruct (H (delete (p_call_id c) recovered)) as (job & Hj & E). exists job. rewrite E. split; [by right|lia].
    + destruct (H recovered) as (job & Hj & E). exists job. rewrite E. split; [done|lia].
Qed.

Lemma overlapped_indices jobs : gives (run_overlapped world agent jobs) (fun results => map fst results = map jb_index jobs).
Proof.
  induction jobs as [|job jobs IH]; cbn [run_overlapped]; [by apply gives_mret|]. skip.
  eapply gives_bind; [exact IH|]. intros results H. apply gives_mret. cbn. by rewrite H.
Qed.
Lemma place_fills results outputs outputs' : place_results results outputs = Ok outputs' ->
  fills (fun i => i ∈ map fst results) outputs (inl outputs').
Proof.
  revert outputs. induction results as [|[i [o|e]] results IH]; intros outputs H; [|cbn in H|done].
  - injection H as <-. eapply fills_weaken; [apply fills_nothing|]. intros i. by rewrite elem_of_nil.
  - eapply fills_after; [apply (fills_insert outputs i o)|by apply IH|]. cbn. intros j. rewrite elem_of_cons. naive_solver.
Qed.

Lemma stop_fills P step outputs k outputs0 : (gives (k outputs) (fills P outputs0)) ->
  gives (stop_if_cancelled world agent execution step outputs k) (fills P outputs0).
Proof.
  intros Hk. unfold stop_if_cancelled. apply gives_skip. intros stop. destruct stop; [|exact Hk]. skip. by apply gives_mret.
Qed.
Lemma sequential_fills step jobs outputs :
  gives (run_sequential world agent execution step jobs outputs) (fills (fun i => i ∈ map jb_index jobs) outputs).
Proof.
  revert outputs. induction jobs as [|job jobs IH]; intros outputs; cbn [run_sequential].
  { apply gives_mret. eapply fills_weaken; [apply fills_nothing|]. intros i. by rewrite elem_of_nil. }
  apply gives_skip. intros o. apply stop_fills. eapply gives_post; [apply IH|]. intros r Hr.
  eapply fills_after; [apply (fills_insert outputs (jb_index job) o)|exact Hr|]. cbn. intros j. rewrite elem_of_cons. naive_solver.
Qed.
Lemma sensitive_fills step index calls outputs :
  gives (run_sensitive world agent chat execution step index calls outputs)
    (fills (fun j => exists i call, calls !! i = Some call /\ is_sensitive agent call = true /\ j = index + i) outputs).
Proof.
  revert index outputs. induction calls as [|call calls IH]; intros index outputs; cbn [run_sensitive].
  { apply gives_mret. eapply fills_weaken; [apply fills_nothing|]. by intros i (? & ? & ? & _). }
  destruct (is_sensitive agent call) eqn:Hs.
  - skip. apply gives_skip. intros o. apply stop_fills. eapply gives_post; [apply IH|]. intros r Hr.
    eapply fills_after; [apply (fills_insert outputs index o)|exact Hr|].
    intros j ([|i] & c & Hc & Hcs & ->); [left; lia|]. right. exists i, c. repeat split; try done. lia.
  - eapply gives_post; [apply IH|]. intros r Hr. eapply fills_weaken; [exact Hr|].
    intros j ([|i] & c & Hc & Hcs & ->); [cbn in Hc; simplify_eq; congruence|]. exists i, c. repeat split; try done. lia.
Qed.

(** Every call that does not stand alone is answered by the batch. *)
Definition ordinary calls (i : nat) : Prop := exists call, calls !! i = Some call /\ call_isolation agent call = None.
Lemma batch_fills step calls refusals recovered : length refusals = length calls ->
  gives (run_batch world agent chat execution step calls refusals recovered)
    (fun r => match r with
              | inl outputs => length outputs = length calls /\ forall i, ordinary calls i -> filled outputs i
              | inr _ => True
              end).
Proof.
  intros Hlen. unfold run_batch. cbv zeta. set (jobs := plain_jobs agent 0 calls refusals recovered).
  set (n := parallel_batch_len agent calls). set (outputs := replicate (length calls) None).
  assert (Hout : length outputs = length calls) by apply length_replicate.
  eapply (gives_bind _ _ (fills (fun i => i ∈ map jb_index (take n jobs)) outputs)).
  { destruct n as [|n'].
    { apply gives_mret. eapply fills_weaken; [apply fills_nothing|]. intros i. by rewrite take_0, elem_of_nil. }
    set (n := S n'). apply gives_skip. intros order. eapply gives_bind; [apply overlapped_indices|]. intros results Hres.
    eapply gives_bind; [apply gives_lift; intros outputs' H; exact H|]. intros outputs' Hplace. apply stop_fills, gives_mret.
    eapply fills_weaken; [exact (place_fills _ _ _ Hplace)|]. intros i. by rewrite Hres, completion_order_perm. }
  intros [outputs1|o] H1; [|by apply gives_mret]. eapply gives_bind; [apply sequential_fills|].
  intros [outputs2|o] H2; [|by apply gives_mret]. eapply gives_post; [apply sensitive_fills|].
  intros [outputs3|o] H3; [|done].
  assert (H : fills (ordinary calls) outputs (inl outputs3)).
  { eapply fills_after; [exact H1|eapply fills_after; [exact H2|exact H3|intros i Hi; exact Hi]|].
    intros i (call & Hc & Hiso). destruct (call_is_sensitive agent call) eqn:Hs.
    - right. right. exists i, call. repeat split; try done. unfold is_sensitive. by rewrite Hiso, Hs.
    - assert (Hp : is_plain agent call = true) by (unfold is_plain; by rewrite Hiso, Hs).
      destruct (plain_jobs_index 0 calls refusals recovered i call Hlen Hc Hp) as (job & Hj & Hji). cbn in Hji. subst i. fold jobs in Hj.
      rewrite <- (take_drop n jobs) in Hj at 1. apply elem_of_app in Hj as [Hj|Hj]; [left|right; left]; by apply list_elem_of_fmap_2. }
  destruct H as [[Hl _] HP]. split; [congruence|]. intros i Hi. apply HP; [done|]. destruct Hi as (call & Hc & _).
  rewrite Hout. by eapply lookup_lt_Some.
Qed.

(** ** The call that stands alone *)

Lemma decline_extras_fills index taken name calls outputs :
  gives (decline_extras agent index taken name calls outputs)
    (fun outputs' => fills (fun j => exists i call k, calls !! i = Some call /\ call_isolation agent call = Some k
                                     /\ k <> IsoSandboxSpawn /\ j = index + i /\ j <> taken) outputs (inl outputs')).
Proof.
  revert index outputs. induction calls as [|call calls IH]; intros index outputs; cbn [decline_extras].
  { apply gives_mret. eapply fills_weaken; [apply fills_nothing|]. by intros i (? & ? & ? & ? & _). }
  assert (Hnext : call_isolation agent call = None \/ call_isolation agent call = Some IsoSandboxSpawn \/ index = taken ->
    gives (decline_extras agent (S index) taken name calls outputs)
      (fun outputs' => fills (fun j => exists i c k, (call :: calls) !! i = Some c /\ call_isolation agent c = Some k
                                     /\ k <> IsoSandboxSpawn /\ j = index + i /\ j <> taken) outputs (inl outputs'))).
  { intros H. eapply gives_post; [apply IH|]. intros outputs' H'. eapply fills_weaken; [exact H'|].
    intros j ([|i] & c & k & Hc & Hk & Hne & -> & Ht).
    - cbn in Hc. simplify_eq. destruct H as [H|[H|H]]; [congruence|congruence|lia].
    - exists i, c, k. repeat split; try done; lia. }
  destruct (call_isolation agent call) as [[]|] eqn:E; [|apply Hnext; auto| | |apply Hnext; auto].
  all: destruct (index =? taken) eqn:Et; [apply Nat.eqb_eq in Et; apply Hnext; auto|].
  all: apply gives_skip; intros o; eapply gives_post; [apply IH|]; intros outputs' H'.
  all: eapply fills_after; [apply (fills_insert outputs index o)|exact H'|].
  all: intros j ([|i] & c & k & Hc & Hk & Hne & -> & Ht); [left; lia|]; right; exists i, c, k; repeat split; try done; lia.
Qed.
Lemma decline_into_fills index call reason outputs :
  gives (decline_into agent index call reason outputs) (fills (eq index) outputs).
Proof. unfold decline_into. apply gives_skip. intros o. apply gives_mret, fills_insert. Qed.
Lemma queue_spawns_keeps index calls revision outputs :
  gives (queue_spawns agent index calls revision outputs) (fun r => keeps outputs r.2).
Proof.
  revert index outputs. induction calls as [|call calls IH]; intros index outputs; cbn [queue_spawns];
    [apply gives_mret, keeps_refl|].
  destruct (bool_decide _); [|apply IH]. destruct (sandbox_checkpoint _ _ _) as [[request r]|reason].
  - eapply gives_bind; [apply IH|]. intros [queued outputs'] H. by apply gives_mret.
  - apply gives_skip. intros o. eapply gives_post; [apply IH|]. intros r. apply keeps_trans, insert_fills.
Qed.
Lemma gate_queued_fills queued outputs :
  gives (gate_queued world queued outputs)
    (fun r => match r with
              | (None, outputs') => fills (fun i => i ∈ map fst queued) outputs (inl outputs')
              | (Some _, _) => True
              end).
Proof.
  revert outputs. induction queued as [|[slot request] queued IH]; intros outputs; cbn [gate_queued].
  { apply gives_mret. eapply fills_weaken; [apply fills_nothing|]. intros i. by rewrite elem_of_nil. }
  apply gives_skip. intros [r|o]; [by apply gives_mret|].
  eapply gives_post; [apply IH|]. intros [[r|] outputs'] H; [done|].
  eapply fills_after; [apply (fills_insert outputs slot o)|exact H|]. cbn. intros j. rewrite elem_of_cons. naive_solver.
Qed.
Lemma take_spawn_fills step index call calls revision outputs :
  gives (take_spawn world agent step index call calls revision outputs) (fills (eq index) outputs).
Proof.
  unfold take_spawn. destruct (sandbox_checkpoint _ _ _) as [[request r]|reason]; [|apply decline_into_fills].
  eapply gives_bind; [apply queue_spawns_keeps|]. intros [queued outputs1] H1. cbn in H1.
  eapply gives_bind; [apply gate_queued_fills|]. intros [[[request' remaining]|] outputs2] H2; [skip; by apply gives_mret|].
  apply gives_mret. eapply (fills_after (fun _ => False)); [by split; [exact H1|]|exact H2|]. intros i <-. right. by left.
Qed.
Lemma take_client_fills step index call revision v outputs :
  gives (take_client world agent chat execution step index call revision v outputs) (fills (eq index) outputs).
Proof.
  unfold take_client. apply gives_skip. intros resolution.
  assert (H : forall resolved, gives
    (match client_checkpoint agent chat (ex_turn_id execution) call resolved revision with
     | Ok (request, revision) => total_usage ≫= fun usage => mret (inr (OutClientToolCall request (v_search v) usage revision (steps_used agent step)))
     | Err reason => decline_into agent index call reason outputs
     end) (fills (eq index) outputs)).
  { intros resolved. destruct (client_checkpoint _ _ _ _ _ _) as [[request r]|reason]; [skip; by apply gives_mret|apply decline_into_fills]. }
  destruct resolution; [apply H..|apply decline_into_fills].
Qed.
Lemma take_child_wait_fills step index call revision v outputs :
  gives (take_child_wait world agent chat execution step index call revision v outputs) (fills (eq index) outputs).
Proof.
  unfold take_child_wait. eapply (gives_bind _ _ (fills (eq index) outputs)).
  - destruct (child_session_wait_checkpoint _ _ _ _) as [[[request ids] r]|reason]; [|apply decline_into_fills].
    apply gives_skip. intros [o|]; [apply gives_mret, fills_insert|skip; by apply gives_mret].
  - intros [outputs'|o] H; [|by apply gives_mret]. by apply stop_fills, gives_mret.
Qed.
Lemma take_isolated_fills step index call calls revision v outputs : is_Some (call_isolation agent call) ->
  gives (take_isolated world agent chat execution step index call calls revision v outputs) (fills (eq index) outputs).
Proof.
  intros [k Hk]. unfold take_isolated. cbv zeta.
  do 2 (match goal with |- gives (if ?b then _ else _) _ => destruct b end; [apply decline_into_fills|]). rewrite Hk.
  destruct k; [apply take_client_fills|apply take_spawn_fills| |apply take_child_wait_fills].
  unfold take_agent_wait. destruct (agent_wait_checkpoint _ _ _) as [[request r]|reason]; [skip; by apply gives_mret|apply decline_into_fills].
Qed.

(** ** The results of a step *)

(** A spawn comes alone; the check for mixed controls sees to it. *)
Definition spawns_alone calls : Prop :=
  forall call, call ∈ calls -> call_isolation agent call = Some IsoSandboxSpawn -> length calls = 1.

Lemma result_message_ids call o : omap result_id (result_message agent call o) = [p_provider_id call]
  /\ omap use_id (result_message agent call o) = [].
Proof. apply tool_result_replied. Qed.
Lemma answered_content_ids calls outputs : length outputs = length calls -> (forall i, i < length calls -> filled outputs i) ->
  omap use_id (content (answered agent calls outputs)) = []
  /\ omap result_id (content (answered agent calls outputs)) = map p_provider_id calls.
Proof.
  revert outputs. induction calls as [|call calls IH]; intros [|o outputs] Hlen Hf; try done.
  injection Hlen as Hlen. destruct (Hf 0 ltac:(cbn; lia)) as [o' Ho]. cbn in Ho. simplify_eq.
  change (content (answered agent (call :: calls) (Some o' :: outputs)))
    with (result_message agent call o' ++ content (answered agent calls outputs)).
  rewrite !omap_app. destruct (result_message_ids call o') as [-> ->]. cbn [app map].
  destruct (IH outputs Hlen) as [-> ->]; [|done]. intros i Hi. destruct (Hf (S i) ltac:(cbn; lia)) as [o'' Ho]. by exists o''.
Qed.
Lemma single_ids m : called [m] = omap use_id (content m) /\ replied [m] = omap result_id (content m).
Proof. unfold called, replied. cbn. by rewrite app_nil_r. Qed.
Lemma answered_ids calls outputs : length outputs = length calls -> (forall i, i < length calls -> filled outputs i) ->
  called [answered agent calls outputs] = [] /\ replied [answered agent calls outputs] = map p_provider_id calls.
Proof. intros Hlen Hf. destruct (single_ids (answered agent calls outputs)) as [-> ->]. by apply answered_content_ids. Qed.

Lemma isolated_at_spec calls :
  match isolated_at agent calls with
  | Some index => exists call, calls !! index = Some call /\ is_Some (call_isolation agent call)
  | None => forall i call, calls !! i = Some call -> call_isolation agent call = None
  end.
Proof.
  unfold isolated_at. destruct (list_find _ calls) as [[i call]|] eqn:E; cbn.
  - apply list_find_Some in E as (Hc & Hiso & _). by exists call.
  - apply list_find_None in E. intros i call Hc. rewrite Forall_lookup in E. apply E in Hc.
    destruct (call_isolation agent call); [|done]. exfalso. by apply Hc.
Qed.

(** What a step adds when it goes on *)
Definition goes_on t (r : Flow (Number := Number)) : Prop :=
  match r with Continue v => extends t (v_transcript v) | Return _ => True end.
(** [r] goes on with the results [ids] and then whole steps. *)
Definition goes_on_with (ids : list string) t (r : Flow (Number := Number)) : Prop :=
  match r with
  | Continue v => exists m extra, v_transcript v = t ++ [m] ++ extra /\ called [m] = [] /\ replied [m] = ids /\ balanced extra
  | Return _ => True
  end.
Lemma goes_on_assistant ids t m r : called [m] = ids -> replied [m] = [] -> goes_on_with ids (t ++ [m]) r -> goes_on t r.
Proof.
  intros Hc Hr. destruct r as [v|o]; [|done]. cbn. intros (m' & extra & -> & Hc' & Hr' & He).
  exists ([m; m'] ++ extra). split; [by rewrite <- !app_assoc|]. apply balanced_app; [|done]. unfold balanced.
  change [m; m'] with ([m] ++ [m']). rewrite called_app, replied_app, Hc, Hr, Hc', Hr'. by rewrite app_nil_r.
Qed.

Lemma run_calls_answers step calls refusals recovered revision v : length refusals = length calls -> spawns_alone calls ->
  gives (run_calls world agent chat execution step calls refusals recovered revision v)
    (goes_on_with (map p_provider_id calls) (v_transcript v)).
Proof.
  intros Hlen Halone. unfold run_calls. eapply gives_bind; [by apply batch_fills|]. intros [outputs|o] Hb; [|by apply gives_mret].
  destruct Hb as [Hout Hord]. cbv zeta.
  set (v' := if existsb is_user_declined outputs then with_streak None v else v).
  assert (Hv : v_transcript v' = v_transcript v) by (unfold v'; by destruct (existsb _ _)).
  eapply (gives_bind _ _ (fun r => match r with
    | inl outputs => length outputs = length calls /\ forall i, i < length calls -> filled outputs i | inr _ => True end)).
  - pose proof (isolated_at_spec calls) as Hiso. destruct (isolated_at agent calls) as [index|].
    + destruct Hiso as (call & Hcall & Hk). rewrite Hcall.
      eapply gives_bind; [apply decline_extras_fills|]. intros outputs1 H1. pose proof H1 as [[Hl1 _] _].
      eapply gives_post; [by apply take_isolated_fills|]. intros [outputs2|o] H2; [|done].
      destruct (fills_after _ _ _ _ _ _ H1 H2 (fun i Hi => Hi)) as [[Hl Hk2] HP]. split; [congruence|].
      intros i Hi. destruct (lookup_lt_is_Some_2 calls i Hi) as [c Hc]. rewrite <- Hout in Hi.
      destruct (call_isolation agent c) as [k|] eqn:Ek; [|apply Hk2, Hord; by exists c].
      apply HP; [|done]. destruct (decide (i = index)) as [->|Hne]; [by right|]. left. exists i, c, k. repeat split; try done.
      intros ->. pose proof (Halone c ltac:(by eapply list_elem_of_lookup_2) Ek) as H1c.
      apply lookup_lt_Some in Hc, Hcall. lia.
    + apply gives_mret. split; [done|]. intros i Hi. destruct (lookup_lt_is_Some_2 calls i Hi) as [c Hc]. apply Hord. exists c.
      split; [done|]. by apply (Hiso i).
  - intros [outputs'|o] Hf; [|by apply gives_mret]. destruct Hf as [Hl Hf]. destruct (answered_ids calls outputs' Hl Hf) as [Hc Hr].
    eapply gives_bind; [apply apply_steers_extends|]. intros [steered transcript] (extra & E & He). cbn in E. apply gives_mret.
    cbn. exists (answered agent calls outputs'), extra. rewrite E, Hv, <- app_assoc. by repeat split.
Qed.

(** ** The step's own message *)

Lemma assemble_blocks items calls admitted seen :
  gives (assemble world agent items calls admitted seen) (fun blocks => blocks = stream_content_blocks items calls).
Proof.
  revert seen. unfold stream_content_blocks. induction items as [|[i|i frag|id b] items IH]; intros seen; cbn [assemble omap list_omap].
  - by apply gives_mret.
  - destruct (calls !! i); cbn; [|apply IH]. skip. eapply gives_bind; [apply IH|]. intros blocks ->. by apply gives_mret.
  - skip. apply IH.
  - skip. eapply gives_bind; [apply IH|]. intros blocks ->. by apply gives_mret.
Qed.
Definition whole (reading : Reading Number) calls : Prop :=
  (exists first, read_ok first reading) /\ (calls = [] \/ calls = rd_calls reading).
Lemma blocks_of_no_calls items : Forall (fun i => receipt_item i = true) items ->
  omap use_id (stream_content_blocks (Number := Number) items []) = [].
Proof. unfold stream_content_blocks. induction 1 as [|[i|i f|id b] items Hi Hitems IH]; cbn; [done|exact IH..|by destruct b]. Qed.
Lemma whole_ids reading calls : whole reading calls ->
  omap use_id (stream_content_blocks (rd_items reading) calls) = map p_provider_id calls
  /\ omap result_id (stream_content_blocks (rd_items reading) calls) = [].
Proof.
  intros [[first Hok] Hcalls]. split; [|apply content_blocks_results, (ok_receipts _ _ Hok)].
  destruct Hcalls as [->| ->]; [apply blocks_of_no_calls, (ok_receipts _ _ Hok)|by eapply content_blocks_uses].
Qed.
Lemma finish_rounds_goes_on step n v candidate output stop refusal revision :
  gives (finish_rounds world agent chat execution step n v candidate output stop refusal revision)
    (fun r => match r with Some r => goes_on (v_transcript v) r | None => True end).
Proof.
  induction n as [|n IH]; cbn [finish_rounds]; [by apply gives_mret|]. unfold finish_round. cbv zeta. apply gives_skip. intros stopped. destruct stopped.
  { skip. by apply gives_mret. }
  eapply gives_bind; [apply apply_steers_extends|]. intros [steered transcript] H. destruct steered; [by apply gives_mret|]. skip.
  cbv zeta. destruct (is_some _); [by apply gives_mret|]. apply gives_skip. intros d. destruct d; [|exact IH].
  destruct (_ && _); [apply gives_raise|by apply gives_mret].
Qed.

(** ** A step *)

Lemma goes_on_from t t' r : extends t t' -> goes_on t' r -> goes_on t r.
Proof. intros H. destruct r; [|done]. by apply extends_trans. Qed.
Lemma finish_answer_goes_on step v candidate stop refusal revision :
  gives (finish_answer world agent chat execution step v candidate stop refusal revision) (goes_on (v_transcript v)).
Proof.
  unfold finish_answer. skip. skip. eapply gives_bind; [apply finish_rounds_goes_on|].
  intros [flow|] H; [by apply gives_mret|apply gives_raise].
Qed.

Lemma act_goes_on step reading calls candidate revision v : whole reading calls -> spawns_alone calls ->
  gives (act world agent chat execution step reading calls candidate revision v) (goes_on (v_transcript v)).
Proof.
  intros Hwhole Halone. destruct (whole_ids reading calls Hwhole) as [Huses Hresults]. unfold act. cbv zeta.
  pose proof (repeat_refusals_length (v_streak v) (map (streak_key agent) calls)) as Hlen. rewrite length_map in Hlen.
  destruct (repeat_refusals _ _) as [streak refusals]. cbn [snd] in Hlen. do 2 skip.
  apply gives_skip. intros [recovered admitted]. eapply gives_bind; [apply assemble_blocks|]. intros ? ->. cbv zeta.
  set (blocks := (if is_empty (cd_content candidate) then [] else [Text (cd_content candidate)])
                 ++ stream_content_blocks (rd_items reading) calls).
  assert (Hb : called [MkMessage RAssistant blocks (cd_reasoning candidate)] = map p_provider_id calls
               /\ replied [MkMessage RAssistant blocks (cd_reasoning candidate)] = []).
  { destruct (single_ids (MkMessage RAssistant blocks (cd_reasoning candidate))) as [-> ->]. cbn [content].
    unfold blocks. rewrite !omap_app, Huses, Hresults. by destruct (is_empty _). }
  destruct Hb as [Hc Hr]. clearbody blocks. destruct calls as [|call calls].
  - eapply gives_post; [apply finish_answer_goes_on|]. intros r. apply goes_on_from. cbn [v_transcript with_streak with_transcript].
    destruct blocks; [apply extends_refl|]. by apply extends_snoc.
  - eapply gives_post; [by apply run_calls_answers|]. intros r. cbn [v_transcript with_streak with_transcript].
    destruct blocks as [|b blocks]; [done|]. by apply goes_on_assistant.
Qed.

Lemma decline_all_length reason calls : gives (decline_all agent reason calls) (fun outs => length outs = length calls).
Proof.
  induction calls as [|call calls IH]; cbn [decline_all]; [by apply gives_mret|]. skip.
  eapply gives_bind; [exact IH|]. intros outs H. apply gives_mret. cbn. by rewrite H.
Qed.
Lemma reject_mixed_goes_on name reading calls v : whole reading calls ->
  gives (reject_mixed agent name reading calls v) (goes_on (v_transcript v)).
Proof.
  intros Hwhole. destruct (whole_ids reading calls Hwhole) as [Huses Hresults]. unfold reject_mixed. do 2 skip.
  eapply gives_bind; [apply decline_all_length|]. intros outs Hlen. apply gives_mret.
  set (m := MkMessage RAssistant (stream_content_blocks (rd_items reading) calls) no_reasoning).
  destruct (answered_ids calls (map Some outs)) as [Hc Hr].
  { by rewrite length_map. }
  { intros i Hi. rewrite <- Hlen in Hi. destruct (lookup_lt_is_Some_2 outs i Hi) as [o Ho]. exists o.
    by rewrite list_lookup_fmap, Ho. }
  apply (goes_on_assistant (map p_provider_id calls) (v_transcript v) m);
    [by rewrite (proj1 (single_ids m))|by rewrite (proj2 (single_ids m))|].
  exists (answered agent calls (map Some outs)), []. cbn. rewrite <- app_assoc. by repeat split.
Qed.
Lemma reject_blocked_goes_on call reason reasoning v :
  gives (reject_blocked agent call reason reasoning v) (goes_on (v_transcript v)).
Proof.
  unfold reject_blocked. apply gives_skip. intros o. apply gives_mret.
  apply (goes_on_assistant [p_provider_id call] (v_transcript v) (MkMessage RAssistant [tool_use call] reasoning)); [done..|].
  eexists _, []. cbn. rewrite <- app_assoc. split; [reflexivity|].
  match goal with |- called [?m] = _ /\ _ => destruct (single_ids m) as [-> ->] end. cbn [content].
  edestruct tool_result_replied as [-> ->]. by repeat split.
Qed.

(** The tools are those a registry can have registered, the control tools under
    their own names. *)
Inductive registered : ToolRegistry Number -> Prop :=
  | registered_none : registered []
  | registered_server compile s tool reg : registered reg -> registered (register compile s tool reg)
  | registered_client compile s class reg : registered reg -> registered (register_client compile s class reg)
  | registered_validated compile s class validate reg :
      registered reg -> registered (register_validated_client compile s class validate reg)
  | registered_foreground compile s class validate reg :
      registered reg -> registered (register_validated_foreground_client compile s class validate reg)
  | registered_orchestration compile spawn wait reg :
      registered reg -> registered (register_foreground_agent_orchestration compile spawn wait reg).
Definition is_spawn (t : RegisteredTool Number) : bool :=
  match t with ForegroundOrchestration _ SpawnKind _ => true | _ => false end.
Lemma map_insert_entries {A} k (a : A) m : Forall (fun e => e = (k, a) \/ e ∈ m) (Json.map_insert k a m).
Proof.
  induction m as [|[k' a'] m IH]; cbn; [constructor; [by left|done]|].
  assert (Hm : Forall (fun e => e = (k, a) \/ e ∈ (k', a') :: m) m) by (apply Forall_forall; intros; right; by right).
  destruct (String.compare k k'); (constructor; [first [by left|right; by left]|try done]).
  - constructor; [right; by left|done].
  - eapply Forall_impl; [exact IH|]. intros e [->|H]; [by left|right; by right].
Qed.
Lemma registered_spawn_name reg : registered reg ->
  Forall (fun e => is_spawn e.2 = true -> e.1 = SPAWN_SANDBOX_AGENT_TOOL) reg.
Proof.
  assert (Hstep : forall k a reg, (is_spawn a = true -> k = SPAWN_SANDBOX_AGENT_TOOL) ->
    Forall (fun e => is_spawn e.2 = true -> e.1 = SPAWN_SANDBOX_AGENT_TOOL) reg ->
    Forall (fun e => is_spawn e.2 = true -> e.1 = SPAWN_SANDBOX_AGENT_TOOL) (Json.map_insert k a reg)).
  { intros k a r Ha Hr. eapply Forall_impl; [apply map_insert_entries|]. intros e [->|He]; [exact Ha|].
    rewrite Forall_forall in Hr. by apply Hr. }
  induction 1; [done|by apply Hstep..|]. by repeat apply Hstep.
Qed.
Lemma map_get_entry {A} k (m : list (string * A)) a : map_get k m = Some a -> (k, a) ∈ m.
Proof.
  induction m as [|[k' a'] m IH]; cbn; [done|]. destruct (String.eqb_spec k k') as [->|]; [intros [= ->]; by left|].
  intros H. right. by apply IH.
Qed.
Lemma mixed_spawns_alone reading calls : registered (ag_tools agent) ->
  mixed_control agent reading calls = None -> spawns_alone calls.
Proof.
  intros Hreg Hmixed call Hcall Hiso.
  assert (Hname : is_Some (standalone_control_name agent call)).
  { unfold call_isolation in Hiso. unfold standalone_control_name. cbv zeta.
    destruct (AgentStream.execution (ag_tools agent) (p_name call)) as [[]|] eqn:Ex; try done.
    all: destruct (agent_orchestration_active agent) eqn:Ha; [|by destruct (_ && _)].
    all: destruct (is_foreground_sandbox_spawn (ag_tools agent) (p_name call)) eqn:Hs;
      [|by destruct (is_foreground_agent_wait _ _), (_ && _)].
    all: assert (p_name call = SPAWN_SANDBOX_AGENT_TOOL) as E; [|rewrite E; by eexists].
    all: pose proof (registered_spawn_name _ Hreg) as Hall; rewrite Forall_forall in Hall; unfold is_foreground_sandbox_spawn in Hs;
      destruct (map_get (p_name call) (ag_tools agent)) as [t|] eqn:Ht; [|done]; apply map_get_entry in Ht;
      apply (Hall _ Ht); destruct t as [| | |? [] ?]; done. }
  unfold mixed_control in Hmixed. destruct (find_map _ calls) as [name|] eqn:E.
  - destruct (length calls =? 1) eqn:El; [by apply Nat.eqb_eq|done].
  - exfalso. destruct Hname as [name Hname]. clear Hmixed Hiso. induction calls as [|c calls IH]; [by apply elem_of_nil in Hcall|].
    cbn in E. apply elem_of_cons in Hcall as [->|Hcall]; [by rewrite Hname in E|].
    destruct (standalone_control_name agent c); [done|]. by apply IH.
Qed.

Lemma admit_calls_whole step reading : (exists first, read_ok first reading) ->
  gives (admit_calls agent step reading) (fun r => match r with Some calls => whole reading calls | None => True end).
Proof.
  intros Hok. unfold admit_calls. cbv zeta.
  eapply (gives_bind _ _ (whole reading)).
  - destruct (bool_decide _); [skip|]; apply gives_mret; (split; [done|]); [by left|by right].
  - intros calls Hcalls. destruct calls as [|call calls]; [by apply gives_mret|]. destruct (negb (wrap_up agent step)); [by apply gives_mret|].
    do 2 skip. destruct (_ && _); [skip; by apply gives_mret|]. apply gives_mret. split; [done|by left].
Qed.
Lemma after_stream_goes_on step reading revision v : registered (ag_tools agent) -> (exists first, read_ok first reading) ->
  gives (after_stream world agent chat execution step reading revision v) (goes_on (v_transcript v)).
Proof.
  intros Hreg Hok. unfold after_stream. eapply gives_bind; [by apply admit_calls_whole|].
  intros [calls|] Hcalls; [|apply gives_mret, extends_refl]. skip. cbv zeta.
  destruct (mixed_control agent reading calls) as [name|] eqn:Hmixed; [by apply reject_mixed_goes_on|].
  pose proof (mixed_spawns_alone reading calls Hreg Hmixed) as Halone.
  destruct calls as [|call [|call' calls]]; [by apply act_goes_on| |by apply act_goes_on].
  destruct (is_report_blocked_call agent call); [|by apply act_goes_on]. unfold on_report_blocked.
  destruct (_ ≫= _); [|apply reject_blocked_goes_on]. destruct revision; [|apply reject_blocked_goes_on].
  do 4 skip. by apply gives_mret.
Qed.

Lemma compact_transcript v prefix :
  gives (compact world agent chat execution sources user_texts v prefix) (fun r => v_transcript r.1 = v_transcript v).
Proof. unfold compact. cbv zeta. skip. cbv zeta. skip. apply gives_skip. intros [c|]; by apply gives_mret. Qed.
Lemma prepare_transcript step level v :
  gives (prepare world agent chat execution sources user_texts step level v) (fun r => v_transcript r.1 = v_transcript v).
Proof.
  unfold prepare. skip. destruct (wrap_up agent step); [by apply gives_mret|].
  eapply gives_bind; [apply compact_transcript|]. intros [v' created] H. skip. by apply gives_mret.
Qed.
Lemma read_stream_ok answer : gives (read_stream agent answer) (fun r => exists first, read_ok first r.1).
Proof.
  unfold read_stream. apply gives_skip. intros usage. destruct (read_polls _ _ _ _) as [reading ended] eqn:E.
  assert (Hok : exists first, read_ok first reading).
  { exists (sn_first answer). pose proof (read_polls_ok (sn_first answer) (provider_executed_call_is_admissible agent)
      (reading_new usage) (sn_polls answer) (reading_new_ok _ _)) as H. by rewrite E in H. }
  do 2 skip. destruct ended as [[]|]; [by apply gives_mret|skip; by apply gives_mret..|apply gives_raise].
Qed.
(** What a step reads, and the transcript it was asked with *)
Definition read_from t (r : AgentTurnOutcome (Number := Number) + Vars (Number := Number) * option Z * Reading Number * StreamEnd) : Prop :=
  match r with inl _ => True | inr (v, _, reading, _) => v_transcript v = t /\ exists first, read_ok first reading end.
Lemma attempt_once_transcript step level v :
  gives (attempt_once world agent chat execution sources user_texts step level v)
    (fun r => match r with inl (_, v') => v_transcript v' = v_transcript v | inr r => read_from (v_transcript v) r end).
Proof.
  unfold attempt_once. eapply gives_bind; [apply prepare_transcript|]. intros [v' prefix] Hv. cbn in Hv.
  apply gives_skip. intros stop. destruct stop; [skip; by apply gives_mret|]. cbv zeta. skip.
  set (v2 := if wrap_up agent step then v' else with_search None v').
  assert (Hv2 : v_transcript v2 = v_transcript v) by (unfold v2; by destruct (wrap_up agent step)). clearbody v2.
  apply gives_skip. intros [answer|e]; [|by apply gives_mret]. skip.
  eapply gives_bind; [apply read_stream_ok|]. intros [reading ended] Hok. destruct ended; [by apply gives_mret..|skip; by apply gives_mret].
Qed.
Lemma step_attempt_transcript step room v :
  gives (step_attempt world agent chat execution sources user_texts step room v) (read_from (v_transcript v)).
Proof.
  revert v. induction room as [|room IH]; intros v; cbn [step_attempt].
  all: eapply gives_bind; [apply attempt_once_transcript|]; intros [[e v']|came] H; [|by apply gives_mret].
  - apply gives_raise.
  - destruct (is_prompt_too_long e); [rewrite <- H; apply IH|apply gives_raise].
Qed.

Lemma run_step_goes_on step v : registered (ag_tools agent) ->
  gives (run_step world agent chat execution sources user_texts step v) (goes_on (v_transcript v)).
Proof.
  intros Hreg. unfold run_step. apply gives_skip. intros stop. destruct stop; [skip; by apply gives_mret|]. cbv zeta.
  set (v1 := if wrap_up agent step && negb (wrap_up_retry agent step)
             then with_transcript (v_transcript v ++ [text_message RSystem WRAP_UP_INSTRUCTION]) v else v).
  assert (H1 : extends (v_transcript v) (v_transcript v1)).
  { unfold v1. destruct (_ && _); [by apply extends_snoc|apply extends_refl]. }
  clearbody v1. eapply gives_bind; [apply apply_steers_extends|]. intros [steered transcript] H2. cbn in H2.
  apply gives_skip. intros revision. eapply gives_bind; [apply step_attempt_transcript|].
  intros [o|[[[v2 offered] reading] ended]] H3; [by apply gives_mret|]. destruct H3 as [E Hok]. cbn in E.
  set (v3 := match ended with Done => _ | _ => v2 end).
  assert (H4 : extends (v_transcript v) (v_transcript v3)).
  { replace (v_transcript v3) with transcript; [by eapply extends_trans|]. rewrite <- E. unfold v3.
    destruct ended; [|done..]. by destruct (_ && _). }
  clearbody v3. apply gives_skip. intros stop. destruct stop.
  { unfold on_cancelled. do 3 skip. by apply gives_mret. }
  assert (Hafter : gives (after_stream world agent chat execution step reading revision v3) (goes_on (v_transcript v))).
  { eapply gives_post; [by apply after_stream_goes_on|]. intros r. by apply goes_on_from. }
  destruct ended; [exact Hafter|exact Hafter| |exact Hafter]. unfold on_steered. skip.
  eapply gives_bind; [apply apply_steers_extends|]. intros [again transcript'] H5. apply gives_mret. cbn in *. by eapply extends_trans.
Qed.
End Turn_.

(** ** Completing against a late steer *)

Section Completion.
Context (world : history -> forall q : Ask (Number := Number), Ans q).
Context (agent : Agent Number) (chat : Chat) (execution : TurnExecution).
Implicit Types s : LoopState (Number := Number).

(** An interrupt never waits with nothing to say. *)
Definition box_ok (box : SteerInbox) : Prop := interrupt box = true -> queue box <> [].
Lemma pushes_keep box l : queue box <> [] -> queue (fold_left push l box) <> [].
Proof.
  revert box. induction l as [|m l IH]; intros box H; [done|]. cbn. apply IH. unfold push. destruct (_ || _); [done|].
  cbn. by destruct (queue box).
Qed.
Lemma pushes_ok box l : box_ok box -> box_ok (fold_left push l box).
Proof.
  revert box. induction l as [|m l IH]; intros box H; [done|]. cbn. apply IH. unfold push. destruct (_ || _); [done|].
  unfold box_ok. cbn. by destruct (queue box).
Qed.

Lemma drain_takes s : (drain world s).1 = Ok (queue (fold_left push (world (happened s) AskPushed) (inbox s)))
  /\ queue (inbox (drain world s).2) = [] /\ interrupt (inbox (drain world s).2) = false.
Proof. done. Qed.
Lemma steers_apply turn_id t preceding s messages : (drain world s).1 = Ok messages -> messages <> [] ->
  match (apply_steers world agent chat turn_id t preceding s).1 with Ok (steered, _) => steered = true | Err _ => True end.
Proof.
  intros Hd Hne. unfold apply_steers at 1. unfold mbind at 1, M_bind at 1. destruct (drain world s) as [[m|e] s1]; [|done].
  cbn in Hd. simplify_eq. destruct messages as [|m0 ms]; [done|]. revert s1.
  refine (_ : gives _ (fun r => let '(steered, _) := r in steered = true)).
  apply gives_skip. intros durable. destruct durable as [|d ds].
  all: match goal with |- gives (if ?b then _ else _) _ => destruct b; [apply gives_raise|] end; do 4 skip.
  all: skip; by apply gives_mret.
Qed.
Lemma steers_idle turn_id t t' preceding s s' : ag_durable_steer_lease agent = None ->
  apply_steers world agent chat turn_id t preceding s = (Ok (false, t'), s') -> queue (inbox s') = [] /\ interrupt (inbox s') = false.
Proof.
  intros Hlease H. destruct (drain_takes s) as (Hd & Hq & Hi). remember (queue _) as messages eqn:Em in Hd. clear Em.
  destruct messages as [|m ms].
  - unfold apply_steers in H. rewrite Hlease in H. unfold mbind at 1, M_bind at 1 in H.
    destruct (drain world s) as [[m|e] s1]; [|done]. cbn in Hd. injection Hd as ->. cbn in H. injection H as _ <-. done.
  - pose proof (steers_apply turn_id t preceding s (m :: ms) Hd ltac:(done)) as Ha. by rewrite H in Ha.
Qed.

Lemma bind_run {A B} (m : AgentLoop.M A) (k : A -> AgentLoop.M B) s :
  (m ≫= k) s = match m s with (Ok a, s1) => k a s1 | (Err e, s1) => (Err e, s1) end.
Proof. done. Qed.

(** Completion refused leaves something in the mailbox. *)
Lemma unquiet_mailbox complete s : queue (inbox s) = [] -> interrupt (inbox s) = false ->
  match try_complete world complete s with (Ok false, s') => queue (inbox s') <> [] | _ => True end.
Proof.
  intros Hq Hi. unfold try_complete, receive, ask, update, mailbox, mbind, M_bind. cbn -[fold_left].
  set (box := fold_left push _ _). assert (Hok : box_ok box) by (apply pushes_ok; unfold box_ok; by rewrite Hi).
  destruct (inbox_quiet box) eqn:Eq.
  - match goal with |- context [complete ?s0] => by destruct (complete s0) as [[[]|e] s1] end.
  - cbn. unfold inbox_quiet in Eq. unfold box_ok in Hok. destruct (queue box); [|done]. cbn in Eq.
    destruct (interrupt box); [by apply Hok|done].
Qed.

Section Rounds.
Context (step : nat) (v : Vars (Number := Number)) (candidate : AssistantCandidate (Number := Number)) (output : Message Number)
  (stop : StopReason) (refusal : option RefusalOutcome) (revision : option Z).
Notation round again := (finish_round world agent chat execution step v candidate output stop refusal revision again).
Notation rounds n := (finish_rounds world agent chat execution step n v candidate output stop refusal revision).

Lemma cancelled_round_answers partial : gives (finish_cancelled execution (steps_used agent step) partial ≫= fun cancelled =>
  mret (Some (Return cancelled))) (fun r : option (Flow (Number := Number)) => r <> None).
Proof. skip. by apply gives_mret. Qed.
Lemma gives_not {A} (m : AgentLoop.M (Number := Number) (option A)) s : gives m (fun r => r <> None) -> (m s).1 <> Ok None.
Proof. intros H E. specialize (H s). by rewrite E in H. Qed.

(** A mailbox with something in it ends the round. *)
Lemma busy_round again again' s : queue (inbox s) <> [] -> round again s = round again' s /\ (round again s).1 <> Ok None.
Proof.
  intros Hq. unfold finish_round. cbv zeta. rewrite !(bind_run (cancelled_now world)). unfold cancelled_now, ask.
  destruct (world (happened s) AskCancelled).
  { split; [done|]. apply gives_not, cancelled_round_answers. }
  set (s1 := record_ _ s). set (preceding := if negb _ && _ then _ else None).
  assert (Hne : queue (fold_left push (world (happened s1) AskPushed) (inbox s1)) <> []).
  { apply pushes_keep. exact Hq. }
  pose proof (steers_apply (ex_turn_id execution) (v_transcript v) preceding s1 _ (proj1 (drain_takes s1)) Hne) as Ha.
  rewrite !(bind_run (apply_steers _ _ _ _ _ _)).
  destruct (apply_steers world agent chat (ex_turn_id execution) (v_transcript v) preceding s1) as [[[steered t]|e] s2]; [|by split].
  cbn in Ha. rewrite Ha. by split.
Qed.
(** A round that goes again leaves something in the mailbox. *)
Lemma round_goes_again again again' s :
  (forall s', queue (inbox s') <> [] -> again s' = again' s' /\ (again s').1 <> Ok None) ->
  round again s = round again' s /\ (round again s).1 <> Ok None.
Proof.
  intros Hagain. unfold finish_round. cbv zeta. rewrite !(bind_run (cancelled_now world)). unfold cancelled_now, ask.
  destruct (world (happened s) AskCancelled).
  { split; [done|]. apply gives_not, cancelled_round_answers. }
  set (s1 := record_ _ s). set (preceding := if negb _ && _ then _ else None). rewrite !(bind_run (apply_steers _ _ _ _ _ _)).
  destruct (apply_steers world agent chat (ex_turn_id execution) (v_transcript v) preceding s1) as [[[steered t]|e] s2] eqn:E; [|by split].
  destruct steered; [by split|]. rewrite !(bind_run total_usage). unfold total_usage.
  destruct (ag_durable_steer_lease agent) as [lease|] eqn:Hlease; [by split|]. cbn [is_some].
  destruct (steers_idle _ _ _ _ _ _ Hlease E) as [Hq Hi]. rewrite !(bind_run (try_complete _ _)).
  set (complete := complete_terminal _ _ _ _ _).
  pose proof (unquiet_mailbox complete s2 Hq Hi) as Hbusy.
  destruct (try_complete world complete s2) as [[d|e] s3]; [|by split]. destruct d.
  { destruct (_ && _ && _); by split. }
  apply Hagain, Hbusy.
Qed.
Lemma rounds_settle n s : rounds (S (S n)) s = rounds 2 s /\ (rounds 2 s).1 <> Ok None.
Proof.
  assert (H : forall n s, queue (inbox s) <> [] -> rounds (S n) s = rounds 1 s /\ (rounds (S n) s).1 <> Ok None).
  { intros k s' Hq. by apply busy_round. }
  cbn [finish_rounds]. split.
  - apply round_goes_again. exact (H n).
  - apply (round_goes_again _ (rounds 1)). intros s' Hq. split; [done|]. by apply (H 0).
Qed.
End Rounds.
End Completion.

(** C26: an answer without a call is settled in two rounds, however people push
    into the mailbox meanwhile: the turn completes, goes on with what was
    pushed, is cancelled or fails, and more rounds would end the same way.  So
    a steer pushed while the answer completes is never overtaken for ever. *)
Theorem a_late_steer_settles_in_two_rounds (world : history -> forall q : Ask (Number := Number), Ans q) (agent : Agent Number)
    (chat : Chat) (execution : TurnExecution) (step n : nat) (v : Vars (Number := Number))
    (candidate : AssistantCandidate (Number := Number)) (output : Message Number) (stop : StopReason)
    (refusal : option RefusalOutcome) (revision : option Z) (s : LoopState (Number := Number)) :
  let rounds n := finish_rounds world agent chat execution step n v candidate output stop refusal revision s in
  rounds (S (S n)) = rounds 2 /\ (rounds 2).1 <> Ok None.
Proof. apply rounds_settle. Qed.

(** C11: a step that goes on leaves a transcript in which every call the model
    made has its result, in the order of the calls, if that was so before the
    step: whether the calls ran, overlapped, were refused, declined, recovered,
    stood alone or were sent back because a control came with siblings, and
    whatever was steered in between.  It needs the tools to have been registered
    by the registry, which is what keeps a second spawn out of a step. *)
Theorem every_call_is_answered (world : history -> forall q : Ask (Number := Number), Ans q) (agent : Agent Number)
    (chat : Chat) (execution : TurnExecution) (sources : list TranscriptSourceBoundary) (user_texts : list (Z * string))
    (step : nat) v v' s s' :
  registered (ag_tools agent) -> balanced (v_transcript v) ->
  run_step world agent chat execution sources user_texts step v s = (Ok (Continue v'), s') -> balanced (v_transcript v').
Proof.
  intros Hreg Hv Hrun. pose proof (run_step_goes_on world agent chat execution sources user_texts step v Hreg s) as H.
  rewrite Hrun in H. cbn in H. by eapply extends_balanced.
Qed.
End Answers.

Open Scope nat_scope.

Module AgentDemo.
#[local] Instance turn_json : SerdeJson Z := { from_str_string := fun _ => None; from_str_value := fun _ => Some (JObject []) }.
#[local] Instance turn_text : SerdeJsonText Z := { number_as_u64 := fun n => Some n; json_to_string := fun _ => "{}" }.
#[local] Instance turn_payload : PayloadJson := {
  payload_from_str := fun _ => Ok (MkPayload 2 [] [] [] [] [] [] []);
  payload_to_string := fun _ => Ok "{}" }.
#[local] Instance turn_arguments : ArgumentSerde Z := {
  value_eqb := fun _ _ => true; decode_report_blocked := fun _ => None; decode_spawn := fun _ => None;
  encode_spawn := fun _ => JObject []; decode_wait := fun _ => None; decode_code_wait := fun _ => None }.

Definition compile (s : ToolSpec Z) : SchemaValidator Z := Compiled (fun _ => None).
Definition spec (name : string) : ToolSpec Z := MkSpec name "a tool" (JObject []).
Definition tools : ToolRegistry Z :=
  register_client compile (spec "pick_file") ReadOnly
    (register compile (spec "look") (MkTool ReadOnly "{}" (fun _ => Ok (MkOutput "seen" false None []))) []).
Lemma tools_registered : registered tools.
Proof. repeat constructor. Qed.

Definition config : AgentConfig := MkConfig 100000 None 100 true CompactionPolicy_default None.
Definition agent : Agent Z :=
  MkAgent tools config None "model" 8 SearchOff true true None (Some 9%Z) false None [] None
    (fun _ _ _ _ => false) (fun _ => "call") (fun id => id) (fun _ => "today").
Definition chat : Chat := MkChat 1 None.

(** The two steps the model answers with *)
Definition look_twice : list (Poll Z) :=
  [PollEvent (PvToolCallStarted 0 "a" "look"); PollEvent (PvToolCallArgsDelta 0 "{}");
   PollEvent (PvToolCallStarted 1 "b" "look"); PollEvent (PvStop StopForTools)].
Definition pick : list (Poll Z) := [PollEvent (PvToolCallStarted 0 "c" "pick_file"); PollEvent (PvStop StopForTools)].

Definition world (hs : list (Happened (Number := Z))) (q : Ask (Number := Z)) : Ans q :=
  match q as q return Ans q with
  | AskCancelled => false
  | AskNow => 5%Z
  | AskNewId => (100 + Z.of_nat (length hs))%Z
  | AskPushed => []
  | AskPublish _ => true
  | AskCheckpoint => (Ok None, Ok [])
  | AskSnapshot => Ok (MkSnapshot [MkRow 1 1 7 RUser "what is there?" None no_reasoning 1] [] [] [] [])
  | AskCompaction _ => MkCompactionWorld 5 (fun _ => Err (ErrorKinds.Message "no")) (fun _ => None)
  | AskStream _ => Ok (MkStreamAnswer (if streams hs =? 0 then look_twice else pick) (200 + Z.of_nat (length hs)))
  | AskSteers _ => Ok []
  | AskApplySteer _ steer_id _ _ => Ok (MkTurnSteer steer_id "")
  | AskRevision _ => Ok 3%Z
  | AskFlush | AskFence _ | AskAppend _ | AskAppendAssistant _ | AskRetain _ => Ok tt
  | AskAccept _ _ | AskAcceptReceipt _ => Ok Accepted
  | AskResolve _ _ | AskAbandon _ _ => Ok CallResolved
  | AskPendingCalls => Ok []
  | AskApproval _ => Ok None
  | AskRun _ _ => (MkOutput "seen" false None [], 0)
  | AskOrder _ => [1; 0]
  | AskClientArguments _ => Ok Unchanged
  | AskGateSpawn request => (Ok (Admit request), 0)
  end.
Definition turn := run_claimed_turn world agent chat 7 8 1.
Lemma turn_turns : turns world agent chat (turn.1, turn.2).
Proof. right. exists 7%Z, 8%Z, 1%Z. symmetry. apply surjective_pairing. Qed.

Example the_turn : match turn.1 with Ok (OutClientToolCall request _ _ revision steps) => (h_name request, revision, steps) | _ => ("", 0%Z, 0) end
  = ("pick_file", 3%Z, 2).
Proof. vm_compute. reflexivity. Qed.

(** The calls run in the order they complete, the second before the first. *)
Definition ran (h : Happened (Number := Z)) : option string :=
  match h with Asked (AskRun call _) _ => Some (p_provider_id call) | _ => None end.
Example the_runs : reverse (omap ran (happened turn.2)) = ["b"; "a"].
Proof. vm_compute. reflexivity. Qed.
Example the_live_calls :
  reverse (omap (fun h => match h with Sent (Some o) (EvToolCallStarted _ name) => Some (o, name) | _ => None end) (happened turn.2))
  = [(1%Z, "look"); (3%Z, "look"); (6%Z, "pick_file")].
Proof. vm_compute. reflexivity. Qed.

(** Where the first run stands in the history, newest first *)
Definition at_run : nat := default 0 (fst <$> list_find (fun h => is_Some (ran h)) (happened turn.2)).
Definition look_call : PendingCall := MkPending 209 "a" "look" "{}".
Lemma what_runs_was_asked_for_witness :
  happened turn.2 !! at_run = Some (Asked (AskRun look_call None) (MkOutput "seen" false None [], 0))
  /\ asked_by agent (latest (drop (S at_run) (happened turn.2))) look_call
  /\ forbidden (drop (S at_run) (happened turn.2)) = false.
Proof.
  assert (happened turn.2 !! at_run = Some (Asked (AskRun look_call None) (MkOutput "seen" false None [], 0))) as Hrun
    by (vm_compute; reflexivity).
  split; [exact Hrun|].
  destruct (what_runs_was_asked_for world agent chat turn.1 turn.2 (take at_run (happened turn.2)) look_call None
    (MkOutput "seen" false None [], 0) (drop (S at_run) (happened turn.2))) as [[_ H]|(H & Hf & _)].
  - exact turn_turns.
  - symmetry. by apply take_drop_middle.
  - discriminate H.
  - exact (conj H Hf).
Defined.

Lemma a_parked_turn_leaves_no_row_open_witness :
  exists request search usage revision steps,
    turn.1 = Ok (OutClientToolCall request search usage revision steps)
    /\ open_rows (happened turn.2) = ∅
    /\ exists call, asked_by agent (latest (happened turn.2)) call /\ leaves_as request call.
Proof.
  pose proof turn_turns as Ht.
  assert (exists request search usage revision steps, turn.1 = Ok (OutClientToolCall request search usage revision steps))
    as (request & search & usage & revision & steps & E) by (vm_compute; repeat eexists).
  exists request, search, usage, revision, steps. split; [exact E|]. rewrite E in Ht.
  exact (a_parked_turn_leaves_no_row_open world agent chat _ _ Ht).
Defined.

Lemma a_turn_asks_the_model_boundedly_witness :
  streams (happened turn.2) = 2 /\ model_requests (happened turn.2) = 4
  /\ streams (happened turn.2) <= S MAX_REDUCTION_LEVEL * (8 + 2)
  /\ model_requests (happened turn.2) <= S MAX_REDUCTION_LEVEL * (2 * 8 + 2).
Proof.
  split; [vm_compute; reflexivity|]. split; [vm_compute; reflexivity|]. exact (a_turn_asks_the_model_boundedly world agent chat turn.1 turn.2 turn_turns).
Defined.

Definition begun : Vars (Number := Z) := MkVars [text_message RUser "what is there?"] None None None None None false.
Definition execution : TurnExecution := MkExecution 7 "" 8 false false false.
Notation first_step := (run_step world agent chat execution [] [] 0 begun (loop_state_new (Some 1%Z))).
Lemma the_first_step : exists v, first_step = (Ok (Continue v), first_step.2) /\ called (v_transcript v) = ["a"; "b"].
Proof.
  assert (exists v, first_step.1 = Ok (Continue v) /\ called (v_transcript v) = ["a"; "b"]) as (v & E & Hc)
    by (vm_compute; repeat eexists).
  exists v. split; [|exact Hc]. rewrite <- E. apply surjective_pairing.
Qed.
Lemma every_call_is_answered_witness :
  exists v : Vars (Number := Z), called (v_transcript v) = ["a"; "b"] /\ balanced (v_transcript v).
Proof.
  destruct the_first_step as (v & E & Hc). exists v. split; [exact Hc|].
  exact (every_call_is_answered world agent chat execution [] [] 0 begun v _ _ tools_registered eq_refl E).
Defined.
End AgentDemo.
